(* ===== verification/_CoqProject ===== *)
-Q . S2P
Prelude.v
Uint256.v
DataStream.v
Serialize.v
Containers.v
Crypto.v
Bignum.v
Opcodes.v
Base58.v
Script.v
Tx.v
Block.v
Index.v
TxDB.v
Target.v
Keys.v
KeyStore.v
Stealth.v
Pool.v
SigHash.v
Interp.v
Standard.v
Sign.v
Connect.v
Chain.v
Accept.v
BestChain.v
Reorg.v
Kernel.v
Checkpoints.v
Process.v
Util.v
NetAddr.v
AddrMan.v
Coins.v
Enigma.v
Cloaker.v
Cloaking.v
KeyPool.v
