(* ===== verification/Prelude.v ===== *)
(** * CloakCoin: a verification library for the node's core

    CloakCoin (src/src/) is a proof-of-stake currency node derived from Bitcoin
    and Peercoin.  This library models, as executable Rocq functions, the part of
    the node on which agreement between nodes rests, and proves what makes it
    correct.

    ** The program

    - uint256.h, bignum.h, serialize.h, util.h, mruset.h, base58.h: numbers,
      byte streams, hashes, containers and text formats;
    - script.h, script.cpp, key.cpp: scripts, their interpreter, and signatures;
    - main.h, main.cpp: transactions, blocks, the block index, difficulty, the
      memory pool and the chain;
    - kernel.cpp, checkpoints.cpp: proof of stake and checkpoints;
    - addrman.cpp, net.cpp, wallet.cpp, keystore.cpp, stealth.cpp, enigma/, the RPC server and
      the Qt interface: everything around that core.

    A value travels through the layers bottom up: [CDataStream] carries what the
    serialization templates write; transactions and blocks are serialized and
    hashed; a transaction's inputs are checked by running scripts, which ask
    [CheckSig] for signatures over the transaction's own serialization; blocks
    commit to transactions by a merkle root, and the block index orders blocks by
    height and trust under targets that [GetNextTargetRequired] sets.  Connecting
    a block marks the outputs it spends in the transaction index, inside a database
    transaction; [SetBestChain] switches between branches by disconnecting and
    connecting blocks, and loose transactions wait in the memory pool.  A block
    comes in through [ProcessBlock]: its stake is checked against the kernel of
    proof of stake, [AcceptBlock] checks its place and the checkpoints, writes it to
    the block files and makes an entry of the index, and the best chain may switch.

    ** The files

    - Prelude: machine integers with explicit wrap-around, digits of a number,
      the tactics and the hint database [cloak].
    - Uint256 (uint256.h): [base_uint] as the list of its 32-bit words, every
      operator as the loop of the source, compact targets.
    - DataStream, Serialize (serialize.h): the stream as a state monad with
      errors; a type with its three serialization overloads as a record [Ser],
      and the contract [ser_correct] between the templates and their users.
    - Containers (mruset.h, util.h): [mruset] and [CMedianFilter].
    - Crypto (util.h, key.h, stealth.h): hashes and identifiers over OpenSSL's
      digests, which are the class [Crypto] with laws [Crypto_spec].
    - Bignum (bignum.h): [CBigNum] over OpenSSL's BIGNUM, the class [BN] with laws
      [BN_spec].
    - Opcodes, Script (script.h, script.cpp): opcodes, the instruction decoder,
      scripts under construction, scans and [FindAndDelete].
    - Base58 (base58.h): base-58 text, its checked form, addresses and secrets.
    - Tx (main.h, main.cpp): the transaction records, their serialization,
      [CheckTransaction], amounts, fees and replacement.
    - Block (main.h): [CBlock], its serialization and its merkle tree.
    - Index (main.h, main.cpp): [CBlockIndex] objects in a heap with pointers,
      [CDiskBlockIndex], [CBlockLocator], trust and queries along a chain.
    - TxDB (txdb-leveldb.h, txdb-leveldb.cpp): [CTxDB] with its pending batch over
      LevelDB, the class [LevelDB] with laws [LevelDB_spec]; the transaction index
      as the interface [TxIndexDB] with its contract [TxIndexDB_spec].
    - Target (main.cpp): rewards, retargeting and [CheckProofOfWork].
    - Keys (key.h, key.cpp): [CKey] over the elliptic curve functions of OpenSSL,
      the class [EC] with laws [EC_spec].
    - KeyStore (keystore.h, keystore.cpp, crypter.h, crypter.cpp): the interface
      [CKeyStore] with its contract [CKeyStore_spec], the basic and the encrypted
      store, which both satisfy it, and [CCrypter] over OpenSSL's AES, the class
      [AES] with laws [AES_spec].
    - Stealth (stealth.h, stealth.cpp): stealth addresses and their text, secrets, the
      one-time keys of sender and owner, over the point functions of OpenSSL, the class
      [EC_curve] with laws [EC_curve_spec].
    - Pool (main.h, main.cpp): [CTxMemPool] and the orphan transactions, whose
      messages live in a heap.
    - SigHash (script.cpp): [SignatureHash], [CheckSig] and its cache.
    - Interp (script.cpp): [EvalScript], [VerifyScript], [VerifySignature].
    - Standard (script.cpp): [Solver] and its templates, destinations, [IsMine].
    - Sign (script.cpp): [SignSignature] and [CombineSignatures], against the
      interface of the key store.
    - Connect (main.h, main.cpp): [FetchInputs], [ConnectInputs],
      [DisconnectInputs] and coin age, against the interface of the index; the
      ledger of unspent outputs that an index stands for.
    - Chain (main.cpp): [CheckBlock], [ConnectBlock], [DisconnectBlock].
    - Accept (main.cpp): standard transactions and [CTxMemPool::accept].
    - BestChain (main.cpp): the globals of the best chain, [Reorganize],
      [SetBestChain] and what they call.
    - Reorg: theorems about reorganisations.
    - Kernel (kernel.cpp): stake modifiers, kernel hashes and [CheckProofOfStake].
    - Checkpoints (checkpoints.cpp): the hardened and the synchronized checkpoints.
    - Process (main.h, main.cpp): block files, [AddToBlockIndex], [AcceptBlock] and
      [ProcessBlock] with the orphan blocks; the state of a node.
    - Util (util.cpp): random numbers over a stream of answers of [RAND_bytes], the
      splitting of amounts, money and text formats, the clock offset.
    - NetAddr (netbase.cpp, protocol.cpp): addresses, their classes and groups,
      services, message headers and inventory items.
    - AddrMan (addrman.cpp): the address manager.
    - Coins (wallet.h, wallet.cpp, coincontrol.h): the transactions of a wallet, what
      is confirmed and spendable, the balances and coin selection, against the
      interface of the key store.
    - Enigma (enigma/cloakingrequest.cpp, enigma/enigma.cpp, enigma/encryption.cpp,
      wallet.cpp): the messages of the cloaking protocol, the joint transaction with its
      outputs, reward and fee, the reservation of coins by cloakers, answers, signatures
      and retries at the sender's node; what is sent and who is banned is a list of
      effects in the state.
    - Cloaker (enigma/cloakingrequest.cpp, wallet.cpp): the checks with which a cloaker
      looks for what a joint transaction pays it, and the signing of joint transactions.
    - Cloaking (enigma/cloakingrequest.cpp, enigma/enigma.cpp): [ProcessRequest], with
      which a wallet joins a request, and [ProcessSignatureResponse], with which the
      sender takes in signatures, signs last and submits the transaction.
    - KeyPool (db.h, walletdb.h, wallet.cpp): records of the wallet file over Berkeley
      DB, the class [BerkeleyDB] with laws [BerkeleyDB_spec]; new keys, the key pool
      and [CReserveKey].

    Definitions keep the names of the source; a prefix tells members of different
    classes apart ([tx_], [b_], [i_], [bu_], [bn_]).  State is passed explicitly;
    an exception, a failed assertion or an access out of range is [None] or an
    error value, so that a theorem that gives a value also shows that none of them
    happens.

    ** What the theorems show

    - Numbers: [base_uint] is arithmetic modulo 2^BITS for every operator; compact
      targets decode and encode as documented, identically in the two
      implementations the program has.
    - Formats: everything written is read back and sizes are exact, and arbitrary
      bytes never make a reader assert or loop, for the templates and for
      transactions, blocks and index entries; base 58 is a bijection, and
      addresses and secrets survive the trip through text.
    - Scripts: what is pushed is decoded; [FindAndDelete] removes exactly the equal
      instructions; the interpreter is equivalent to a step relation, stays within
      its limits in every reachable state and asks for at most 201 signature
      checks; pay-to-public-key-hash, pay-to-script-hash and m-of-n outputs are
      spent exactly by what they promise; the signature cache changes no answer.
    - Transactions and blocks: [CheckTransaction] accepts exactly the valid ones;
      merkle branches prove membership and nothing else, short of a collision.
    - Block index: locators, median times, super majorities, chain trust,
      retargeting and the proof-of-work check, each against a direct specification.
    - Database: a transaction of [CTxDB] is applied as a whole or not at all, and
      reads inside it see it.
    - Ledger: connecting a block takes the unspent outputs to those that its
      transactions leave, one after the other, with every amount accounted for;
      disconnecting it restores them.
    - Best chain: the fork is the last common block; after a switch the committed
      index is that of the new chain and the pointers of the main chain follow it,
      or, if the loop over the postponed blocks stopped at an error, that of a block
      on the way that beats the old best one; a switch that fails leaves everything as
      it was.
    - Proof of stake: the kernel check compares the hash with the target weighted by
      coin-days under the modifier of the right block (a hash equal to it is apart: the
      comment and the code differ there); a new modifier takes the
      entropy bits of the blocks selected round by round.
    - Checkpoints: [CheckSync] admits exactly the blocks that agree with the
      synchronized checkpoint; every step that moves it takes it to a signed strict
      descendant in the main chain and records it.
    - Blocks: in every state a node reaches, the index is a tree with additive
      trust, every entry's block is in the files and the orphan maps agree; accepted
      blocks obey the rules of their place; the log of the calls of [AcceptBlock] after
      a block is exactly the orphans that waited for what it says was accepted, each
      tried once when its parent is in the index; what is written to the block files is
      read back.
    - Memory pool: in every reachable state it is consistent and free of conflicts;
      what is accepted spends unspent outputs, satisfies their scripts and pays the
      relay fee.  Orphan transactions are tracked without dangling pointers or leaks.
    - Keys: secrets restore keys and signatures verify; in every reachable state
      the encrypted store keeps its invariant and gives back what was added, and
      encrypting, locking and unlocking it loses no key.
    - Standard scripts: [Solver] recognises exactly the standard forms; a signed
      input verifies and outputs to stored keys are signed; combined
      multisignatures keep every valid signature that is needed; [IsMine] returns.
    - Utilities: an amount is split without loss; money, hexadecimal, base 64 and
      base 32 texts read back; no one moves the clock by more than its limit.
    - Network: two addresses share a group exactly when they share what identifies
      it; headers, inventory items and addresses read back; in every reachable state
      of the address manager its own consistency check finds nothing, it is bounded,
      and it gives out distinct addresses of its own.
    - Wallet: coin selection answers, finds distinct spendable coins that reach the
      target whenever there are enough, and takes the coins chosen by hand; the balance
      is the value of the spendable coins and of those promised to cloakings; the key
      pool never hands out an index that is out, as long as it is not drained, and
      every record of it can be read but those that a new pool failed to write.
    - Stealth payments: sender and owner agree on the one-time key, and the owner can
      spend it; the text of an address reads back.
    - Cloaking: the joint transaction takes the inputs of all and pays back every
      cloaker with its share of the reward, and inputs equal outputs plus fee; a
      cloaker reserves exactly the coins it offers and gets them back on abort, and they
      reach the amount asked for unless that overflows; answers
      never make more participants than asked for, and signatures are asked for once;
      a cloaker signs its own inputs only, in a transaction that pays it
      what it put in, unless the sender pays its key number 0 twice; a request is joined at
      most once, and the sender submits at most one transaction for it.
    - Containers: [mruset] refines a bounded queue; the median filter keeps its
      invariant.

    Each theorem with hypotheses is followed by an instance on concrete data, with
    the classes instantiated by small functions ([BN_Z], [Crypto_toy], [EC_toy],
    [EC_curve_toy], [AES_toy], [LevelDB_map], [BerkeleyDB_map]) that satisfy the laws.

    ** Fuel and bounds

    Loops over a script or a list take its length as fuel, since every turn
    consumes at least one element; [merkle_rows] takes the number of leaves, since
    rows shrink; walks along the block index take the size of the heap, and
    [index_wf] (heights decrease along [pprev]) makes that enough; [maxbits_loop]
    takes the number of days begun; [IsMine] takes one more than the number of
    scripts of the store; [LimitOrphanTxSize] takes the number of orphans, each turn
    evicting one; the work queue of [ProcessBlock] takes one more than the number of
    orphans, each turn serving one hash and adding only those of orphans it took out;
    [append_file] takes the number of block files; the loop of [GetRand] takes the
    number [tries] of which the law [rand_ok] says that one answer of the random source
    in so many lies in its lower half; the queue of [IsConfirmed] takes a weight of the
    transaction in the order in which the supporting transactions spend each other;
    [TopUpKeyPool] takes the size it fills the pool up to; [DeserializeTx] takes one more
    than the number of bytes, each transaction reading at least one; a secret is hashed
    or drawn at most 32 times, as in the source, and key numbers stay below 60.  The theorems that say a function returns a
    value prove that the fuel suffices.  Integers carry their width where the code
    can overflow; [script_ok] (bytes, fewer than 2^32 of them) and the [_wf]
    predicates say which values a C++ object can hold.

    ** What is not modelled

    Input and output (block files are a map from numbers to bytes), threads and
    locks, logging, notifications of wallets and user interface, the network, the
    RPC server and the Qt interface; OpenSSL, sphlib, LevelDB and the other
    vendored libraries, which appear as parameters at most; floating-point members,
    among them the count of the rate limiter for free transactions and the choice of
    the address to connect to, [Select_] (the reward of cloakers, which is computed in doubles, is modelled with the
    binary64 arithmetic of the Standard Library); the form of the address tables on disk.
    Of the cloaking protocol: making and announcing a request, what the
    sender does with the memory pool's answer, the encryption, dispatch and onion routing
    of messages; ECDH is a parameter, and so is the order of a set of coins,
    which is that of addresses in memory.  Of the wallet: making and committing
    transactions, scanning the chain for stealth payments, and the wallet file beyond
    keys and key pool.
    Disabled opcodes are refused before the switch of [EvalScript] is reached, so
    their cases have no counterpart.

    ** This file

    Shared definitions on machine integers, digits and bytes. *)
From Stdlib Require Import ZArith Lia Bool.
From Stdlib Require Import Ascii String.
From stdpp Require Import prelude.

#[global] Open Scope Z_scope.

(** ** Machine integers

    A [w]-bit unsigned C integer is a [Z] in [0, 2^w); the wrap-around of an
    unsigned operation is written out with [u8], [u16], [u32] and [u64].  A
    signed conversion is two's complement ([s32], [s64]). *)

Definition wrap (w z : Z) : Z := z mod 2 ^ w.
Abbreviation u8 := (wrap 8).
Abbreviation u16 := (wrap 16).
Abbreviation u32 := (wrap 32).
Abbreviation u64 := (wrap 64).

Definition swrap (w z : Z) : Z := (z + 2 ^ (w - 1)) mod 2 ^ w - 2 ^ (w - 1).
Abbreviation s32 := (swrap 32).
Abbreviation s64 := (swrap 64).

Definition fits (w z : Z) : Prop := 0 <= z < 2 ^ w.

Create HintDb cloak discriminated.

(** Splits a [Forall] over an explicit list and closes the arithmetic. *)
Ltac forall_list := repeat first [apply List.Forall_nil | apply List.Forall_cons]; try lia.

Lemma wrap_fits w z : 0 <= w -> fits w (wrap w z).
Proof. intros; apply Z.mod_pos_bound; lia. Qed.

Lemma wrap_id w z : fits w z -> wrap w z = z.
Proof. apply Z.mod_small. Qed.

Lemma fits_0 w : 0 <= w -> fits w 0.
Proof. intros; unfold fits; lia. Qed.

Lemma swrap_add_l w a b : 0 <= w -> swrap w (swrap w a + b) = swrap w (a + b).
Proof.
  intros Hw. unfold swrap. assert (0 < 2 ^ w) by (apply Z.pow_pos_nonneg; lia).
  replace ((a + 2 ^ (w - 1)) mod 2 ^ w - 2 ^ (w - 1) + b + 2 ^ (w - 1)) with ((a + 2 ^ (w - 1)) mod 2 ^ w + b) by lia.
  rewrite Z.add_mod_idemp_l by lia. do 2 f_equal. lia.
Qed.

Lemma swrap_bound w a : 0 < w -> - 2 ^ (w - 1) <= swrap w a < 2 ^ (w - 1).
Proof.
  intros Hw. unfold swrap. assert (H2 : 2 ^ w = 2 * 2 ^ (w - 1)) by (rewrite <- Z.pow_succ_r by lia; f_equal; lia).
  assert (0 < 2 ^ (w - 1)) by (apply Z.pow_pos_nonneg; lia). pose proof (Z.mod_pos_bound (a + 2 ^ (w - 1)) (2 ^ w) ltac:(lia)). lia.
Qed.

Lemma swrap_id w z : 0 < w -> - 2 ^ (w - 1) <= z < 2 ^ (w - 1) -> swrap w z = z.
Proof.
  intros Hw Hz; unfold swrap.
  assert (2 ^ w = 2 * 2 ^ (w - 1)) by (rewrite <- Z.pow_succ_r by lia; f_equal; lia).
  rewrite Z.mod_small; lia.
Qed.

Lemma wrap_add w x y : wrap w (wrap w x + wrap w y) = wrap w (x + y).
Proof. unfold wrap. by rewrite Zplus_mod_idemp_l, Zplus_mod_idemp_r. Qed.

Lemma wrap_add_l w x y : wrap w (wrap w x + y) = wrap w (x + y).
Proof. unfold wrap. apply Zplus_mod_idemp_l. Qed.

Lemma wrap_add_r w x y : wrap w (x + wrap w y) = wrap w (x + y).
Proof. unfold wrap. apply Zplus_mod_idemp_r. Qed.

#[export] Hint Resolve wrap_fits wrap_id fits_0 : cloak.

(** ** Positional notation

    [of_digits B l] is the value of the little-endian digit list [l] in base
    [B]; [to_digits B n z] are the [n] low digits of [z].  The base is 2^32 for
    the words of a [base_uint], 256 for the bytes of a C object in memory and
    58 for addresses. *)

Fixpoint of_digits (B : Z) (l : list Z) : Z :=
  match l with
  | [] => 0
  | d :: t => d + B * of_digits B t
  end.

Fixpoint to_digits (B : Z) (n : nat) (z : Z) : list Z :=
  match n with
  | O => []
  | S n => z mod B :: to_digits B n (z / B)
  end.

Definition digits (B : Z) (l : list Z) : Prop := Forall (fun d => 0 <= d < B) l.

Section digits.
Context (B : Z) (HB : 1 < B).

Lemma length_to_digits n z : length (to_digits B n z) = n.
Proof. revert z; induction n; intros; simpl; auto. Qed.

Lemma to_digits_ok n z : digits B (to_digits B n z).
Proof.
  revert z; induction n; intros; simpl; constructor; [apply Z.mod_pos_bound; lia | apply IHn].
Qed.

Lemma of_to_digits n z : of_digits B (to_digits B n z) = z mod B ^ Z.of_nat n.
Proof.
  revert z; induction n as [|n IH]; intros z; simpl of_digits.
  - simpl; by rewrite Z.mod_1_r.
  - rewrite IH, Nat2Z.inj_succ, Z.pow_succ_r by lia.
    rewrite Z.rem_mul_r by lia; lia.
Qed.

Lemma of_digits_bound l : digits B l -> 0 <= of_digits B l < B ^ Z.of_nat (length l).
Proof.
  induction 1 as [|d l Hd _ IH]; simpl of_digits; simpl length.
  - simpl; lia.
  - rewrite Nat2Z.inj_succ, Z.pow_succ_r by lia; nia.
Qed.

Lemma of_digits_app l1 l2 :
  of_digits B (l1 ++ l2) = of_digits B l1 + B ^ Z.of_nat (length l1) * of_digits B l2.
Proof.
  induction l1 as [|d l1 IH]; simpl app; simpl of_digits; simpl length.
  - simpl; lia.
  - rewrite IH, Nat2Z.inj_succ, Z.pow_succ_r by lia; lia.
Qed.

Lemma to_of_digits l : digits B l -> to_digits B (length l) (of_digits B l) = l.
Proof.
  induction 1 as [|d l Hd _ IH]; simpl; [done|].
  rewrite (Z.mul_comm B), Z.mod_add, Z.mod_small, Z.div_add, Z.div_small by lia.
  by rewrite Z.add_0_l, IH.
Qed.

Lemma of_digits_inj l1 l2 :
  digits B l1 -> digits B l2 -> length l1 = length l2 ->
  of_digits B l1 = of_digits B l2 -> l1 = l2.
Proof.
  intros H1 H2 Hl He.
  by rewrite <- (to_of_digits l1), <- (to_of_digits l2), Hl, He.
Qed.

Lemma of_digits_replicate_0 n : of_digits B (replicate n 0) = 0.
Proof. induction n; simpl; lia. Qed.

Lemma digits_replicate_0 n : digits B (replicate n 0).
Proof. apply Forall_replicate; lia. Qed.
End digits.

#[export] Hint Resolve to_digits_ok digits_replicate_0 : cloak.

(** Bits of a number given by digits in a base that is a power of two. *)
Lemma testbit_digit_low w d v n :
  0 <= w -> 0 <= d < 2 ^ w -> n < w -> Z.testbit (d + 2 ^ w * v) n = Z.testbit d n.
Proof.
  intros Hw Hd Hn.
  rewrite <- (Z.mod_pow2_bits_low (d + 2 ^ w * v) w n) by lia.
  by rewrite (Z.mul_comm (2 ^ w)), Z.mod_add, Z.mod_small by lia.
Qed.

Lemma testbit_digit_high w d v n :
  0 <= w -> 0 <= d < 2 ^ w -> w <= n -> Z.testbit (d + 2 ^ w * v) n = Z.testbit v (n - w).
Proof.
  intros Hw Hd Hn. replace n with (n - w + w) at 1 by lia.
  rewrite <- Z.div_pow2_bits by lia.
  by rewrite (Z.mul_comm (2 ^ w)), Z.div_add, Z.div_small, Z.add_0_l by lia.
Qed.

(** Indexing with a [Z]; 0 outside the list. *)
Definition znth (l : list Z) (i : Z) : Z := if i <? 0 then 0 else nth (Z.to_nat i) l 0.

Lemma znth_neg l i : i < 0 -> znth l i = 0.
Proof. intros. unfold znth. by rewrite (proj2 (Z.ltb_lt i 0)). Qed.

Lemma znth_ge l i : Z.of_nat (length l) <= i -> znth l i = 0.
Proof. intros. unfold znth. case_match; [done|]. apply nth_overflow; lia. Qed.

Lemma znth_nat l j : znth l (Z.of_nat j) = nth j l 0.
Proof. unfold znth. destruct (Z.ltb_spec (Z.of_nat j) 0); [lia|]. by rewrite Nat2Z.id. Qed.

Lemma znth_cons d t i : znth (d :: t) i = if i =? 0 then d else znth t (i - 1).
Proof.
  unfold znth.
  destruct (Z.ltb_spec i 0), (Z.eqb_spec i 0), (Z.ltb_spec (i - 1) 0); try lia;
    subst; simpl; auto.
  replace (Z.to_nat i) with (S (Z.to_nat (i - 1))) by lia; done.
Qed.

Lemma div_mod_sub_1 w n : 0 < w -> (n - w) / w = n / w - 1 /\ (n - w) mod w = n mod w.
Proof.
  intros. replace (n - w) with (n + (-1) * w) by ring.
  rewrite Z.div_add, Z.mod_add by lia. lia.
Qed.

Lemma testbit_of_digits w l n :
  0 < w -> digits (2 ^ w) l ->
  Z.testbit (of_digits (2 ^ w) l) n = Z.testbit (znth l (n / w)) (n mod w).
Proof.
  intros Hw Hl; revert n; induction Hl as [|d l Hd _ IH]; intros n; simpl of_digits.
  - rewrite Z.testbit_0_l. unfold znth.
    destruct (n / w <? 0); [|destruct (Z.to_nat (n / w))]; simpl; by rewrite Z.testbit_0_l.
  - rewrite znth_cons. destruct (Z.eqb_spec (n / w) 0) as [H0|H0].
    + assert (0 <= n < w) by (pose proof (Z.div_mod n w); pose proof (Z.mod_pos_bound n w); nia).
      rewrite testbit_digit_low, Z.mod_small by lia; done.
    + destruct (Z.lt_ge_cases n w).
      * assert (n < 0) by (destruct (Z.lt_ge_cases n 0); [done|]; exfalso; apply H0, Z.div_small; lia).
        rewrite Z.testbit_neg_r by done. rewrite znth_neg, Z.testbit_0_l; [done|].
        pose proof (Z.div_lt_upper_bound n w 0); lia.
      * rewrite testbit_digit_high, IH by lia.
        by rewrite (proj1 (div_mod_sub_1 w n Hw)), (proj2 (div_mod_sub_1 w n Hw)).
Qed.

Lemma znth_fits w l i : 0 <= w -> digits (2 ^ w) l -> 0 <= znth l i < 2 ^ w.
Proof.
  intros Hw Hl. unfold znth. case_match; [lia|].
  destruct (nth_in_or_default (Z.to_nat i) l 0) as [Hin| ->]; [|lia].
  unfold digits in Hl. rewrite List.Forall_forall in Hl. auto.
Qed.

Lemma testbit_high w z n : 0 <= z < 2 ^ w -> 0 <= w <= n -> Z.testbit z n = false.
Proof.
  intros Hz Hn. rewrite <- (Z.mod_small z (2 ^ w)) by done. apply Z.mod_pow2_bits_high; lia.
Qed.

Lemma testbit_wrap w z n : 0 <= w -> Z.testbit (wrap w z) n = (n <? w) && Z.testbit z n.
Proof.
  intros Hw. unfold wrap. destruct (Z.ltb_spec n w); simpl.
  - apply Z.mod_pow2_bits_low; done.
  - apply Z.mod_pow2_bits_high; lia.
Qed.

Lemma pow2_pow_mul w n : 0 <= w -> 0 <= n -> (2 ^ w) ^ n = 2 ^ (w * n).
Proof. intros. by rewrite Z.pow_mul_r. Qed.

(** The characters of a C string literal. *)
Definition chars (s : string) : list Z := map (fun a => Z.of_N (N_of_ascii a)) (list_ascii_of_string s).

(** ** Comparison of byte sequences

    [operator<] of [std::vector<unsigned char>] and the sign of [memcmp] over
    ranges of equal length. *)
Fixpoint lex_lt (a b : list Z) : bool :=
  match a, b with
  | _, [] => false
  | [], _ :: _ => true
  | x :: a, y :: b => if x <? y then true else if y <? x then false else lex_lt a b
  end.

Fixpoint bytes_eqb (a b : list Z) : bool :=
  match a, b with
  | [], [] => true
  | x :: a, y :: b => (x =? y) && bytes_eqb a b
  | _, _ => false
  end.

Lemma bytes_eqb_eq a b : bytes_eqb a b = true <-> a = b.
Proof.
  revert b. induction a as [|x a IH]; intros [|y b]; simpl; try (split; (done || intros; discriminate)).
  rewrite andb_true_iff, IH, Z.eqb_eq. split; [intros [-> ->]; done|intros [= -> ->]; done].
Qed.

Lemma bytes_eqb_refl a : bytes_eqb a a = true.
Proof. by apply bytes_eqb_eq. Qed.

Lemma lex_lt_irrefl a : lex_lt a a = false.
Proof. induction a; simpl; [done|]. by rewrite Z.ltb_irrefl. Qed.

Lemma lex_lt_trans a b c : lex_lt a b = true -> lex_lt b c = true -> lex_lt a c = true.
Proof.
  revert b c. induction a as [|x a IH]; intros [|y b] [|z c]; simpl; try done.
  destruct (Z.ltb_spec x y), (Z.ltb_spec y x), (Z.ltb_spec y z), (Z.ltb_spec z y),
    (Z.ltb_spec x z), (Z.ltb_spec z x); try done; try lia. by apply IH.
Qed.

Lemma lex_lt_total a b : lex_lt a b = false -> lex_lt b a = false -> a = b.
Proof.
  revert b. induction a as [|x a IH]; intros [|y b]; simpl; try done.
  destruct (Z.ltb_spec x y), (Z.ltb_spec y x); try done; try lia.
  intros. f_equal; [lia|by apply IH].
Qed.

Lemma lex_lt_asym a b : lex_lt a b = true -> lex_lt b a = false.
Proof.
  intros Hab. destruct (lex_lt b a) eqn:E; [|done].
  by rewrite <- (lex_lt_irrefl a), <- (lex_lt_trans a b a).
Qed.

(** A number has one digit list without leading (most significant) zeros. *)
Lemma of_digits_canonical B l1 l2 :
  1 < B -> digits B l1 -> digits B l2 -> List.last l1 1 <> 0 -> List.last l2 1 <> 0 ->
  of_digits B l1 = of_digits B l2 -> l1 = l2.
Proof.
  intros HB H1. revert l2. induction H1 as [|d1 t1 Hd1 Ht1 IH]; intros l2 H2.
  - induction H2 as [|d2 t2 Hd2 Ht2 IH2]; [done|]. cbn [of_digits]. intros _ Hl2 E. exfalso.
    pose proof (of_digits_bound B HB t2 Ht2). assert (d2 = 0) by nia. assert (of_digits B t2 = 0) by nia.
    destruct t2 as [|e t2]; [simpl in Hl2; lia|]. discriminate IH2; [done|exact Hl2|done].
  - intros Hl1 Hl2 E. cbn [of_digits] in E. destruct H2 as [|d2 t2 Hd2 Ht2].
    + simpl in E. exfalso. pose proof (of_digits_bound B HB t1 Ht1).
      assert (d1 = 0) by nia. assert (of_digits B t1 = 0) by nia.
      destruct t1 as [|e t1]; [simpl in Hl1; lia|].
      discriminate (IH [] ltac:(constructor) Hl1 ltac:(simpl; lia) ltac:(done)).
    + cbn [of_digits] in E. assert (d1 = d2 /\ of_digits B t1 = of_digits B t2) as [-> E'].
      { pose proof (Z.mod_unique (d1 + B * of_digits B t1) B (of_digits B t1) d1 ltac:(lia) ltac:(lia)).
        pose proof (Z.mod_unique (d2 + B * of_digits B t2) B (of_digits B t2) d2 ltac:(lia) ltac:(lia)).
        assert (d1 = d2) by congruence. split; [done|nia]. }
      f_equal. apply IH; [done| | |done].
      * destruct t1; [simpl; lia|exact Hl1].
      * destruct t2; [simpl; lia|exact Hl2].
Qed.

Lemma rev_replicate {A} n (x : A) : rev (replicate n x) = replicate n x.
Proof. rewrite rev_alt. apply reverse_replicate. Qed.

Lemma filter_Forall_all {A} (P : A -> Prop) `{!forall x, Decision (P x)} l : Forall P l -> filter P l = l.
Proof. induction 1 as [|x l Hx Hl IH]; [done|]. by rewrite filter_cons_True, IH. Qed.

Lemma filter_Forall_none {A} (P : A -> Prop) `{!forall x, Decision (P x)} l : Forall (fun x => ~ P x) l -> filter P l = [].
Proof. induction 1 as [|x l Hx Hl IH]; [done|]. by rewrite filter_cons_False. Qed.

Lemma List_filter_all {A} (f : A -> bool) l : (forall x, x ∈ l -> f x = true) -> List.filter f l = l.
Proof.
  induction l as [|x l IH]; intros Hf; [done|]. cbn. rewrite (Hf x) by (by left). f_equal. apply IH.
  intros y Hy. apply Hf. by right.
Qed.
