(* ===== verification/Uint256.v ===== *)
(** * uint256.h: fixed-width multi-word unsigned integers

    [base_uint<BITS>] keeps [WIDTH = BITS/32] words of 32 bits, least
    significant first, in the array [pn].  Here an object is the list of its
    words; [wf W a] is the C++ type (its length and the range of each word) and
    [val a] the number it stands for.  Every operator is the loop of the
    source, and the theorems state it as arithmetic modulo [2 ^ BITS]. *)
From Stdlib Require Import ZArith Lia Bool.
From stdpp Require Import prelude.
From S2P Require Import Prelude.

Abbreviation base_uint := (list Z).

(** [BITS] of a [W]-word object. *)
Definition BITS (W : nat) : Z := 32 * Z.of_nat W.

Definition wf (W : nat) (a : base_uint) : Prop := length a = W /\ digits (2 ^ 32) a.
Definition val (a : base_uint) : Z := of_digits (2 ^ 32) a.

(** ** Constructors and assignment *)

Definition bu_zero (W : nat) : base_uint := replicate W 0.

Definition bu_of_uint64 (W : nat) (b : Z) : base_uint :=
  u32 b :: u32 (Z.shiftr b 32) :: replicate (W - 2) 0.

(** The object's bytes in memory (little-endian words). *)
Definition bu_bytes (a : base_uint) : list Z := concat (map (to_digits 256 4) a).

Fixpoint words_of_bytes (l : list Z) : base_uint :=
  match l with
  | b0 :: b1 :: b2 :: b3 :: t => of_digits 256 [b0; b1; b2; b3] :: words_of_bytes t
  | _ => []
  end.

(** [None] is the exception [uint_error]. *)
Definition bu_of_vch (W : nat) (vch : list Z) : option base_uint :=
  if (length vch =? 4 * W)%nat then Some (words_of_bytes vch) else None.

(** ** Bitwise operators *)

Definition bu_is_zero (a : base_uint) : bool := forallb (fun p => p =? 0) a.
Definition bu_compl (a : base_uint) : base_uint := map (fun p => u32 (Z.lnot p)) a.
Definition bu_xor (a b : base_uint) : base_uint := zip_with Z.lxor a b.
Definition bu_and (a b : base_uint) : base_uint := zip_with Z.land a b.
Definition bu_or (a b : base_uint) : base_uint := zip_with Z.lor a b.

Definition bu_op64 (f : Z -> Z -> Z) (a : base_uint) (b : Z) : base_uint :=
  match a with
  | p0 :: p1 :: t => f p0 (u32 b) :: f p1 (u32 (Z.shiftr b 32)) :: t
  | _ => a
  end.
Definition bu_xor64 : base_uint -> Z -> base_uint := bu_op64 Z.lxor.
Definition bu_or64 : base_uint -> Z -> base_uint := bu_op64 Z.lor.

(** ** Increment, decrement, negation *)

(** [while (++pn[i] == 0 && i < WIDTH-1) i++;] *)
Fixpoint bu_incr (a : base_uint) : base_uint :=
  match a with
  | [] => []
  | p :: t => let p' := u32 (p + 1) in
              if p' =? 0 then p' :: bu_incr t else p' :: t
  end.

(** [while (--pn[i] == (uint32_t)-1 && i < WIDTH-1) i++;] *)
Fixpoint bu_decr (a : base_uint) : base_uint :=
  match a with
  | [] => []
  | p :: t => let p' := u32 (p - 1) in
              if p' =? u32 (-1) then p' :: bu_decr t else p' :: t
  end.

Definition bu_neg (a : base_uint) : base_uint := bu_incr (bu_compl a).

(** ** Addition, subtraction, multiplication *)

Fixpoint add_loop (carry : Z) (pn b : list Z) : list Z :=
  match pn, b with
  | p :: pn', q :: b' =>
      let n := u64 (carry + p + q) in
      Z.land n 0xffffffff :: add_loop (Z.shiftr n 32) pn' b'
  | _, _ => []
  end.

Definition bu_add (a b : base_uint) : base_uint := add_loop 0 a b.
Definition bu_sub (a b : base_uint) : base_uint := bu_add a (bu_neg b).
Definition bu_add64 (a : base_uint) (b64 : Z) : base_uint :=
  bu_add a (bu_of_uint64 (length a) b64).
Definition bu_sub64 (a : base_uint) (b64 : Z) : base_uint :=
  bu_add a (bu_neg (bu_of_uint64 (length a) b64)).

Fixpoint mul32_loop (carry b32 : Z) (pn : list Z) : list Z :=
  match pn with
  | [] => []
  | p :: pn' =>
      let n := u64 (carry + u64 (b32 * p)) in
      Z.land n 0xffffffff :: mul32_loop (Z.shiftr n 32) b32 pn'
  end.

Definition bu_mul32 (a : base_uint) (b32 : Z) : base_uint := mul32_loop 0 b32 a.

(** The inner loop of [operator*=]: it runs over [pn[j..]] and [b] from index
    0 and stops with [pn], so the carry out of the last word is dropped. *)
Fixpoint mul_row (carry aj : Z) (pn b : list Z) : list Z :=
  match pn, b with
  | p :: pn', q :: b' =>
      let n := u64 (carry + p + u64 (aj * q)) in
      Z.land n 0xffffffff :: mul_row (Z.shiftr n 32) aj pn' b'
  | _, _ => []
  end.

(** The outer loop over [j]; [acc] is [pn[j..]], whose first word is final
    once row [j] is done. *)
Fixpoint mul_loop (a acc b : list Z) : list Z :=
  match a with
  | [] => []
  | aj :: a' =>
      match mul_row 0 aj acc b with
      | [] => []
      | p :: acc' => p :: mul_loop a' acc' b
      end
  end.

Definition bu_mul (a b : base_uint) : base_uint := mul_loop a (bu_zero (length a)) b.

(** ** Shifts *)

Definition or_at (pn : list Z) (i v : Z) : list Z :=
  <[Z.to_nat i := Z.lor (nth (Z.to_nat i) pn 0) v]> pn.

Definition shl_step (W : nat) (a : base_uint) (k shift : Z) (pn : list Z) (i : nat) : list Z :=
  let ai := nth i a 0 in
  let i := Z.of_nat i in
  let pn := if (i + k + 1 <? Z.of_nat W) && negb (shift =? 0)
            then or_at pn (i + k + 1) (Z.shiftr ai (32 - shift)) else pn in
  if i + k <? Z.of_nat W then or_at pn (i + k) (u32 (Z.shiftl ai shift)) else pn.

Definition bu_shl (a : base_uint) (shift : Z) : base_uint :=
  let W := length a in
  fold_left (shl_step W a (shift / 32) (shift mod 32)) (seq 0 W) (bu_zero W).

Definition shr_step (W : nat) (a : base_uint) (k shift : Z) (pn : list Z) (i : nat) : list Z :=
  let ai := nth i a 0 in
  let i := Z.of_nat i in
  let pn := if (0 <=? i - k - 1) && negb (shift =? 0)
            then or_at pn (i - k - 1) (u32 (Z.shiftl ai (32 - shift))) else pn in
  if 0 <=? i - k then or_at pn (i - k) (Z.shiftr ai shift) else pn.

Definition bu_shr (a : base_uint) (shift : Z) : base_uint :=
  let W := length a in
  fold_left (shr_step W a (shift / 32) (shift mod 32)) (seq 0 W) (bu_zero W).

(** ** Comparison *)

(** The comparison loops run from the most significant word down: they are
    written over the reversed word lists. *)
Fixpoint lt_loop (a b : list Z) : bool :=
  match a, b with
  | p :: a', q :: b' => if p <? q then true else if q <? p then false else lt_loop a' b'
  | _, _ => false
  end.
Fixpoint le_loop (a b : list Z) : bool :=
  match a, b with
  | p :: a', q :: b' => if p <? q then true else if q <? p then false else le_loop a' b'
  | _, _ => true
  end.
Fixpoint gt_loop (a b : list Z) : bool :=
  match a, b with
  | p :: a', q :: b' => if q <? p then true else if p <? q then false else gt_loop a' b'
  | _, _ => false
  end.
Fixpoint ge_loop (a b : list Z) : bool :=
  match a, b with
  | p :: a', q :: b' => if q <? p then true else if p <? q then false else ge_loop a' b'
  | _, _ => true
  end.
Definition bu_lt (a b : base_uint) : bool := lt_loop (rev a) (rev b).
Definition bu_le (a b : base_uint) : bool := le_loop (rev a) (rev b).
Definition bu_gt (a b : base_uint) : bool := gt_loop (rev a) (rev b).
Definition bu_ge (a b : base_uint) : bool := ge_loop (rev a) (rev b).

Fixpoint bu_eq (a b : base_uint) : bool :=
  match a, b with
  | p :: a', q :: b' => if negb (p =? q) then false else bu_eq a' b'
  | _, _ => true
  end.
Definition bu_eq64 (a : base_uint) (b : Z) : bool :=
  match a with
  | p0 :: p1 :: t =>
      if negb (p0 =? u32 b) then false
      else if negb (p1 =? u32 (Z.shiftr b 32)) then false
      else forallb (fun p => p =? 0) t
  | _ => true
  end.

(** ** Position of the highest bit *)

(** [for (int bits = 31; bits > 0; bits--) if (pn[pos] & 1<<bits) return ...] *)
Fixpoint bits_in_word (p : Z) (bits : nat) : Z :=
  match bits with
  | O => 1
  | S n => if negb (Z.land p (u32 (Z.shiftl 1 (Z.of_nat bits))) =? 0)
           then Z.of_nat bits + 1 else bits_in_word p n
  end.

(** Over the reversed words: the head is [pn[pos]], [pos = length t]. *)
Fixpoint bits_loop (rpn : list Z) : Z :=
  match rpn with
  | [] => 0
  | p :: t => if negb (p =? 0) then 32 * Z.of_nat (length t) + bits_in_word p 31
              else bits_loop t
  end.
Definition bu_bits (a : base_uint) : Z := bits_loop (rev a).

(** ** Division *)

(** The [while (shift >= 0)] loop, [n = shift + 1] iterations left. *)
Fixpoint div_loop (n : nat) (quot num div : base_uint) : base_uint * base_uint :=
  match n with
  | O => (quot, num)
  | S shift =>
      let sh := Z.of_nat shift in
      let '(num, quot) :=
        if bu_ge num div
        then (bu_sub num div, or_at quot (sh / 32) (u32 (Z.shiftl 1 (Z.land sh 31))))
        else (num, quot) in
      div_loop shift quot num (bu_shr div 1)
  end.

(** [None] is the exception [uint_error("Division by zero")]. *)
Definition bu_div (a b : base_uint) : option base_uint :=
  let num_bits := bu_bits a in
  let div_bits := bu_bits b in
  if div_bits =? 0 then None
  else if num_bits <? div_bits then Some (bu_zero (length a))
  else let shift := num_bits - div_bits in
       Some (fst (div_loop (Z.to_nat (shift + 1)) (bu_zero (length a)) a (bu_shl b shift))).

(** ** Hexadecimal text *)

(** The table [phexdigit]: -1 for a character that is not a hex digit. *)
Definition HexDigit (c : Z) : Z :=
  if (48 <=? c) && (c <=? 57) then c - 48
  else if (65 <=? c) && (c <=? 70) then c - 55
  else if (97 <=? c) && (c <=? 102) then c - 87
  else -1.

Definition isspace (c : Z) : bool := (c =? 32) || ((9 <=? c) && (c <=? 13)).
Definition tolower (c : Z) : Z := if (65 <=? c) && (c <=? 90) then c + 32 else c.

Definition hexchar (d : Z) : Z := if d <? 10 then 48 + d else 87 + d.

(** [sprintf(psz, "%02x", b)] *)
Definition hex2 (b : Z) : list Z := [hexchar (b / 16); hexchar (b mod 16)].

Definition bu_GetHex (a : base_uint) : list Z := concat (map hex2 (rev (bu_bytes a))).

(** A C string is the list of its characters; past the end it reads NUL. *)
Fixpoint skip_spaces (psz : list Z) : list Z :=
  match psz with
  | c :: t => if isspace c then skip_spaces t else psz
  | [] => []
  end.

Definition skip_0x (psz : list Z) : list Z :=
  match psz with
  | c0 :: c1 :: t => if (c0 =? 48) && (tolower c1 =? 120) then t else psz
  | _ => psz
  end.

Fixpoint hex_prefix (psz : list Z) : list Z :=
  match psz with
  | c :: t => if HexDigit c =? -1 then [] else c :: hex_prefix t
  | [] => []
  end.

(** The packing loop: [psz] runs backwards over the digits and [p1] forwards
    over the [n] bytes that are left (zero since the [memset]). *)
Fixpoint pack_hex (n : nat) (rdigits : list Z) : list Z :=
  match n with
  | O => []
  | S n' =>
      match rdigits with
      | [] => 0 :: pack_hex n' []
      | [c] => u8 (HexDigit c) :: pack_hex n' []
      | c :: c' :: t =>
          u8 (Z.lor (u8 (HexDigit c)) (Z.shiftl (u8 (HexDigit c')) 4)) :: pack_hex n' t
      end
  end.

Definition bu_SetHex (W : nat) (psz : list Z) : base_uint :=
  words_of_bytes (pack_hex (4 * W) (rev (hex_prefix (skip_0x (skip_spaces psz))))).

(** ** Parts of the value *)

Definition bu_GetLow64 (a : base_uint) : Z :=
  Z.lor (nth 0 a 0) (u64 (Z.shiftl (nth 1 a 0) 32)).
Definition bu_Get64 (a : base_uint) (n : nat) : Z :=
  Z.lor (nth (2 * n) a 0) (u64 (Z.shiftl (nth (2 * n + 1) a 0) 32)).
Definition trim256 (a : base_uint) : base_uint := take 8 a.

(** ** The compact representation of difficulty targets ([uint256]) *)

(** The value, [*pfNegative] and [*pfOverflow]. *)
Definition SetCompact (nCompact : Z) : base_uint * bool * bool :=
  let nSize := Z.shiftr nCompact 24 in
  let nWord := Z.land nCompact 0x007fffff in
  let '(this, nWord) :=
    if nSize <=? 3
    then let nWord := Z.shiftr nWord (8 * (3 - nSize)) in (bu_of_uint64 8 nWord, nWord)
    else (bu_shl (bu_of_uint64 8 nWord) (8 * (nSize - 3)), nWord) in
  (this,
   negb (nWord =? 0) && negb (Z.land nCompact 0x00800000 =? 0),
   negb (nWord =? 0) && ((34 <? nSize) || ((0xff <? nWord) && (33 <? nSize))
                         || ((0xffff <? nWord) && (32 <? nSize)))).

(** [None] is a failed [assert]. *)
Definition GetCompact (a : base_uint) (fNegative : bool) : option Z :=
  let nSize := (bu_bits a + 7) / 8 in
  let nCompact :=
    if nSize <=? 3 then u32 (u64 (Z.shiftl (bu_GetLow64 a) (8 * (3 - nSize))))
    else u32 (bu_GetLow64 (bu_shr a (8 * (nSize - 3)))) in
  let '(nCompact, nSize) :=
    if negb (Z.land nCompact 0x00800000 =? 0) then (Z.shiftr nCompact 8, nSize + 1)
    else (nCompact, nSize) in
  if negb (Z.land nCompact (u32 (Z.lnot 0x007fffff)) =? 0) then None
  else if negb (nSize <? 256) then None
  else
    let nCompact := Z.lor nCompact (u32 (Z.shiftl nSize 24)) in
    Some (Z.lor nCompact
            (if fNegative && negb (Z.land nCompact 0x007fffff =? 0) then 0x00800000 else 0)).

(** ** The value of an object *)

Lemma val_bound W a : wf W a -> 0 <= val a < 2 ^ BITS W.
Proof.
  intros [<- Ha]. unfold val, BITS.
  pose proof (of_digits_bound (2 ^ 32) ltac:(lia) a Ha) as H.
  by rewrite pow2_pow_mul in H by lia.
Qed.

Lemma val_inj W a b : wf W a -> wf W b -> val a = val b -> a = b.
Proof. intros [Hl Ha] [Hl' Hb]. apply of_digits_inj; [lia|done..|congruence]. Qed.

Lemma val_testbit W a n : wf W a -> Z.testbit (val a) n = Z.testbit (znth a (n / 32)) (n mod 32).
Proof. intros [_ Ha]. apply (testbit_of_digits 32); [lia|done]. Qed.

Lemma wf_word W a i : wf W a -> 0 <= znth a i < 2 ^ 32.
Proof. intros [_ Ha]. apply znth_fits; [lia|done]. Qed.

(** To show that [r] stands for [z] modulo [2^BITS], compare bits. *)
Lemma val_wrap_bits W r z :
  wf W r ->
  (forall n, 0 <= n < BITS W -> Z.testbit (znth r (n / 32)) (n mod 32) = Z.testbit z n) ->
  val r = wrap (BITS W) z.
Proof.
  intros Hr H. assert (0 <= BITS W) by (unfold BITS; lia).
  apply Z.bits_inj'; intros n Hn. rewrite testbit_wrap by done.
  destruct (Z.ltb_spec n (BITS W)); simpl.
  - rewrite (val_testbit W) by done. apply H; lia.
  - apply (testbit_high (BITS W)); [by apply val_bound|lia].
Qed.

Lemma wf_zero W : wf W (bu_zero W).
Proof. split; [apply length_replicate|apply digits_replicate_0; lia]. Qed.

Lemma val_zero W : val (bu_zero W) = 0.
Proof. apply of_digits_replicate_0. Qed.

Lemma wf_of_uint64 W b : (2 <= W)%nat -> wf W (bu_of_uint64 W b).
Proof.
  intros HW. split; simpl.
  - rewrite length_replicate; lia.
  - repeat constructor; try apply wrap_fits; try lia. apply digits_replicate_0; lia.
Qed.

Lemma val_of_uint64 W b : fits 64 b -> val (bu_of_uint64 W b) = b.
Proof.
  intros Hb. unfold val, bu_of_uint64; simpl of_digits.
  rewrite of_digits_replicate_0, Z.shiftr_div_pow2 by lia.
  unfold wrap, fits in *. rewrite (Z.mod_small (b / 2 ^ 32)).
  - pose proof (Z.div_mod b (2 ^ 32)); lia.
  - split; [apply Z.div_pos; lia|apply Z.div_lt_upper_bound; lia].
Qed.

(** ** Bitwise operators *)

Lemma znth_map_words f a i : f 0 = 0 -> znth (map f a) i = f (znth a i).
Proof.
  intros H0. unfold znth. destruct (i <? 0); [done|].
  rewrite <- H0 at 1. apply map_nth.
Qed.

Lemma znth_zip f a b i : length a = length b -> f 0 0 = 0 ->
  znth (zip_with f a b) i = f (znth a i) (znth b i).
Proof.
  intros Hl H0. revert b i Hl. induction a as [|p a IH]; intros [|q b] i Hl; try done.
  - unfold znth; simpl. destruct (i <? 0); [done|]. by destruct (Z.to_nat i).
  - simpl zip_with. rewrite !znth_cons. destruct (i =? 0); [done|]. apply IH. by injection Hl.
Qed.

Lemma wf_zip W f a b :
  (forall x y, 0 <= x < 2 ^ 32 -> 0 <= y < 2 ^ 32 -> 0 <= f x y < 2 ^ 32) ->
  wf W a -> wf W b -> wf W (zip_with f a b).
Proof.
  intros Hf [Hl Ha] [Hl' Hb]. split; [rewrite length_zip_with; lia|].
  clear Hl Hl'. revert b Hb. induction Ha as [|p a Hp _ IH]; intros b Hb; [constructor|].
  destruct Hb as [|q b Hq Hb]; constructor; [by apply Hf|by apply IH].
Qed.

Lemma bit_op_range (f : Z -> Z -> Z) (g : bool -> bool -> bool) w :
  0 <= w -> g false false = false ->
  (forall x y n, Z.testbit (f x y) n = g (Z.testbit x n) (Z.testbit y n)) ->
  forall x y, 0 <= x < 2 ^ w -> 0 <= y < 2 ^ w -> 0 <= f x y < 2 ^ w.
Proof.
  intros Hw Hg Hf x y Hx Hy.
  assert (f x y = wrap w (f x y)) as ->; [|by apply wrap_fits].
  apply Z.bits_inj'; intros n Hn. rewrite testbit_wrap by done.
  destruct (Z.ltb_spec n w); [done|]. rewrite Hf, !(testbit_high w) by lia. done.
Qed.

Section bit_op.
Context (f : Z -> Z -> Z) (g : bool -> bool -> bool).
Context (g_ff : g false false = false).
Context (f_spec : forall x y n, Z.testbit (f x y) n = g (Z.testbit x n) (Z.testbit y n)).

Lemma zip_words_spec W a b :
  wf W a -> wf W b -> wf W (zip_with f a b) /\ val (zip_with f a b) = f (val a) (val b).
Proof.
  intros Ha Hb.
  assert (Hf : forall x y, 0 <= x < 2 ^ 32 -> 0 <= y < 2 ^ 32 -> 0 <= f x y < 2 ^ 32)
    by (apply (bit_op_range f g); [lia|done..]).
  assert (Hr := wf_zip W f a b Hf Ha Hb). split; [done|].
  assert (f 0 0 = 0) as H0.
  { apply Z.bits_inj'; intros. by rewrite f_spec, Z.testbit_0_l. }
  apply Z.bits_inj'; intros n _.
  rewrite (val_testbit W _ n Hr), f_spec, !(val_testbit W _ n) by done.
  destruct Ha, Hb. rewrite znth_zip, f_spec by (done || congruence). done.
Qed.
End bit_op.

Lemma bu_xor_spec W a b :
  wf W a -> wf W b -> wf W (bu_xor a b) /\ val (bu_xor a b) = Z.lxor (val a) (val b).
Proof. apply (zip_words_spec Z.lxor xorb); [done|apply Z.lxor_spec]. Qed.

Lemma bu_and_spec W a b :
  wf W a -> wf W b -> wf W (bu_and a b) /\ val (bu_and a b) = Z.land (val a) (val b).
Proof. apply (zip_words_spec Z.land andb); [done|apply Z.land_spec]. Qed.

Lemma bu_or_spec W a b :
  wf W a -> wf W b -> wf W (bu_or a b) /\ val (bu_or a b) = Z.lor (val a) (val b).
Proof. apply (zip_words_spec Z.lor orb); [done|apply Z.lor_spec]. Qed.

Lemma bu_compl_spec W a : wf W a -> wf W (bu_compl a) /\ val (bu_compl a) = 2 ^ BITS W - 1 - val a.
Proof.
  intros [<- Ha]. unfold bu_compl, val, BITS. induction Ha as [|p a Hp _ [[_ IHd] IH]].
  - split; [split; [done|constructor]|done].
  - rewrite map_cons. simpl of_digits.
    assert (wrap 32 (Z.lnot p) = 2 ^ 32 - 1 - p) as Hw.
    { unfold wrap. symmetry. apply (Z.mod_unique _ _ (-1)); [lia|]. unfold Z.lnot; lia. }
    split; [split; [simpl; by rewrite length_map|constructor; [lia|done]]|].
    rewrite IH, Hw. rewrite length_cons, Nat2Z.inj_succ.
    replace (32 * Z.succ (Z.of_nat (length a))) with (32 + 32 * Z.of_nat (length a)) by lia.
    rewrite Z.pow_add_r by lia. lia.
Qed.

(** ** Increment, decrement, negation *)

Lemma incr_val a : digits (2 ^ 32) a ->
  wf (length a) (bu_incr a) /\ val (bu_incr a) = wrap (BITS (length a)) (val a + 1).
Proof.
  unfold val, wrap, BITS.
  induction 1 as [|p a Hp Ha [[IHl IHd] IH]]; [by split; [split; [|constructor]|]|].
  assert (Hb := of_digits_bound (2 ^ 32) ltac:(lia) a Ha). rewrite pow2_pow_mul in Hb by lia.
  simpl bu_incr. rewrite length_cons, Nat2Z.inj_succ.
  replace (32 * Z.succ (Z.of_nat (length a))) with (32 + 32 * Z.of_nat (length a)) by lia.
  rewrite Z.pow_add_r by lia. set (M := 2 ^ (32 * Z.of_nat (length a))) in *.
  assert (0 < M) by lia.
  unfold wrap. destruct (Z.eqb_spec ((p + 1) mod 2 ^ 32) 0) as [E|E].
  - assert (p = 2 ^ 32 - 1).
    { destruct (Z.eq_dec p (2 ^ 32 - 1)); [done|]. rewrite Z.mod_small in E; lia. }
    split; [split; [by simpl; rewrite IHl|constructor; [lia|done]]|].
    simpl of_digits. rewrite IH, E. subst p.
    replace (2 ^ 32 - 1 + 2 ^ 32 * of_digits (2 ^ 32) a + 1)
      with (2 ^ 32 * (of_digits (2 ^ 32) a + 1)) by lia.
    rewrite Z.mul_mod_distr_l by lia. lia.
  - assert (p + 1 < 2 ^ 32).
    { destruct (Z.eq_dec p (2 ^ 32 - 1)) as [->|]; [|lia].
      replace (2 ^ 32 - 1 + 1) with (2 ^ 32) in E by lia. by rewrite Z.mod_same in E. }
    rewrite (Z.mod_small (p + 1)) by lia.
    split; [split; [done|constructor; [lia|done]]|].
    simpl of_digits. rewrite Z.mod_small; nia.
Qed.

Lemma bu_incr_spec W a : wf W a -> wf W (bu_incr a) /\ val (bu_incr a) = wrap (BITS W) (val a + 1).
Proof. intros [<- Ha]. by apply incr_val. Qed.

Lemma decr_val a : digits (2 ^ 32) a ->
  wf (length a) (bu_decr a) /\ val (bu_decr a) = wrap (BITS (length a)) (val a - 1).
Proof.
  unfold val, wrap, BITS.
  induction 1 as [|p a Hp Ha [[IHl IHd] IH]]; [by split; [split; [|constructor]|]|].
  assert (Hb := of_digits_bound (2 ^ 32) ltac:(lia) a Ha). rewrite pow2_pow_mul in Hb by lia.
  simpl bu_decr. rewrite length_cons, Nat2Z.inj_succ.
  replace (32 * Z.succ (Z.of_nat (length a))) with (32 + 32 * Z.of_nat (length a)) by lia.
  rewrite Z.pow_add_r by lia. set (M := 2 ^ (32 * Z.of_nat (length a))) in *.
  assert (0 < M) by lia.
  unfold wrap. change ((-1) mod 2 ^ 32) with (2 ^ 32 - 1).
  destruct (Z.eqb_spec ((p - 1) mod 2 ^ 32) (2 ^ 32 - 1)) as [E|E].
  - assert (p = 0).
    { destruct (Z.eq_dec p 0); [done|]. rewrite Z.mod_small in E; lia. }
    split; [split; [by simpl; rewrite IHl|constructor; [lia|done]]|].
    simpl of_digits. rewrite IH, E. subst p.
    replace (0 + 2 ^ 32 * of_digits (2 ^ 32) a - 1)
      with (2 ^ 32 * (of_digits (2 ^ 32) a - 1) + (2 ^ 32 - 1)) by lia.
    rewrite (Z.add_comm (2 ^ 32 * _)), Z.rem_mul_r by lia.
    rewrite (Z.mul_comm (2 ^ 32) (_ - 1)), Z.mod_add, Z.div_add by lia. done.
  - assert (1 <= p).
    { destruct (Z.eq_dec p 0) as [->|]; [done|lia]. }
    rewrite (Z.mod_small (p - 1)) by lia.
    split; [split; [done|constructor; [lia|done]]|].
    simpl of_digits. rewrite Z.mod_small; nia.
Qed.

Lemma bu_decr_spec W a : wf W a -> wf W (bu_decr a) /\ val (bu_decr a) = wrap (BITS W) (val a - 1).
Proof. intros [<- Ha]. by apply decr_val. Qed.

Lemma bu_neg_spec W a : wf W a -> wf W (bu_neg a) /\ val (bu_neg a) = wrap (BITS W) (- val a).
Proof.
  intros Ha. unfold bu_neg. destruct (bu_compl_spec W a Ha) as [Hc Hv].
  destruct (bu_incr_spec W _ Hc) as [Hi Hvi]. split; [done|].
  rewrite Hvi, Hv. unfold wrap. replace (2 ^ BITS W - 1 - val a + 1) with (- val a + 1 * 2 ^ BITS W) by lia.
  apply Z.mod_add. unfold BITS. lia.
Qed.

(** ** Addition, subtraction, multiplication *)

Lemma low_word n : Z.land n 0xffffffff = n mod 2 ^ 32.
Proof. change 0xffffffff with (Z.ones 32). by rewrite Z.land_ones by lia. Qed.

Lemma high_word n : Z.shiftr n 32 = n / 2 ^ 32.
Proof. by rewrite Z.shiftr_div_pow2 by lia. Qed.

Lemma BITS_S W : BITS (S W) = 32 + BITS W.
Proof. unfold BITS; lia. Qed.

(** One step of a carry loop: [n] is the word sum before it is split. *)
Lemma carry_step n r W v :
  0 <= n -> r = (n / 2 ^ 32 + v) mod 2 ^ BITS W ->
  n mod 2 ^ 32 + 2 ^ 32 * r = (n + 2 ^ 32 * v) mod 2 ^ BITS (S W).
Proof.
  intros Hn ->. rewrite BITS_S, Z.pow_add_r by (unfold BITS; lia).
  rewrite Z.rem_mul_r by (unfold BITS; lia).
  by rewrite (Z.mul_comm (2 ^ 32) v), Z.mod_add, Z.div_add by lia.
Qed.

Lemma word_mod_fits n : 0 <= n mod 2 ^ 32 < 2 ^ 32.
Proof. apply Z.mod_pos_bound; lia. Qed.

Lemma add_loop_spec W a b carry :
  wf W a -> wf W b -> 0 <= carry <= 1 ->
  wf W (add_loop carry a b) /\
  val (add_loop carry a b) = wrap (BITS W) (carry + val a + val b).
Proof.
  unfold val, wrap. revert a b carry. induction W as [|W IH]; intros a b carry [La Ha] [Lb Hb] Hc.
  - destruct a, b; try done. simpl. split; [split; [done|constructor]|]. by rewrite Z.mod_1_r.
  - destruct Ha as [|p a Hp Ha]; [done|]. destruct Hb as [|q b Hq Hb]; [done|].
    simpl add_loop. rewrite low_word, high_word. unfold wrap.
    rewrite (Z.mod_small (carry + p + q) (2 ^ 64)) by lia.
    destruct (IH a b ((carry + p + q) / 2 ^ 32)) as [[Hl Hd] Hv].
    { split; [by injection La|done]. } { split; [by injection Lb|done]. }
    { split; [apply Z.div_pos; lia|apply Z.lt_succ_r, Z.div_lt_upper_bound; lia]. }
    split; [split; [by simpl; f_equal|constructor; [apply word_mod_fits|done]]|].
    simpl of_digits. rewrite (carry_step _ _ W (of_digits (2 ^ 32) a + of_digits (2 ^ 32) b)).
    + f_equal; lia.
    + lia.
    + rewrite Hv. f_equal; lia.
Qed.

Lemma bu_add_spec W a b :
  wf W a -> wf W b -> wf W (bu_add a b) /\ val (bu_add a b) = wrap (BITS W) (val a + val b).
Proof. intros Ha Hb. apply (add_loop_spec W a b 0); (done || lia). Qed.

Lemma bu_sub_spec W a b :
  wf W a -> wf W b -> wf W (bu_sub a b) /\ val (bu_sub a b) = wrap (BITS W) (val a - val b).
Proof.
  intros Ha Hb. destruct (bu_neg_spec W b Hb) as [Hn Hv].
  destruct (bu_add_spec W a _ Ha Hn) as [Hw Hs]. split; [done|].
  unfold bu_sub. by rewrite Hs, Hv, wrap_add_r.
Qed.

Lemma mul32_loop_spec W a b32 carry :
  wf W a -> fits 32 b32 -> fits 32 carry ->
  wf W (mul32_loop carry b32 a) /\
  val (mul32_loop carry b32 a) = wrap (BITS W) (carry + b32 * val a).
Proof.
  unfold val, wrap, fits. revert a carry. induction W as [|W IH]; intros a carry [La Ha] Hb Hc.
  - destruct a; try done. simpl. split; [split; [done|constructor]|]. by rewrite Z.mod_1_r.
  - destruct Ha as [|p a Hp Ha]; [done|].
    simpl mul32_loop. rewrite low_word, high_word. unfold wrap.
    assert (0 <= b32 * p <= (2 ^ 32 - 1) * (2 ^ 32 - 1)) by nia.
    rewrite (Z.mod_small (b32 * p) (2 ^ 64)) by lia.
    rewrite (Z.mod_small (carry + b32 * p) (2 ^ 64)) by lia.
    destruct (IH a ((carry + b32 * p) / 2 ^ 32)) as [[Hl Hd] Hv].
    { split; [by injection La|done]. } { done. }
    { split; [apply Z.div_pos; lia|apply Z.div_lt_upper_bound; lia]. }
    split; [split; [by simpl; f_equal|constructor; [apply word_mod_fits|done]]|].
    simpl of_digits. rewrite (carry_step _ _ W (b32 * of_digits (2 ^ 32) a)).
    + f_equal; lia.
    + lia.
    + rewrite Hv. f_equal; lia.
Qed.

Lemma bu_mul32_spec W a b32 :
  wf W a -> fits 32 b32 -> wf W (bu_mul32 a b32) /\ val (bu_mul32 a b32) = wrap (BITS W) (val a * b32).
Proof.
  intros Ha Hb. destruct (mul32_loop_spec W a b32 0 Ha Hb) as [Hw Hv]; [unfold fits; lia|].
  split; [done|]. unfold bu_mul32. rewrite Hv. f_equal. lia.
Qed.

Lemma digit_step p x W :
  0 <= p < 2 ^ 32 -> p + 2 ^ 32 * (x mod 2 ^ BITS W) = (p + 2 ^ 32 * x) mod 2 ^ BITS (S W).
Proof.
  intros. rewrite <- (Z.mod_small p (2 ^ 32)) at 1 by done.
  apply carry_step; [lia|]. by rewrite Z.div_small.
Qed.

(** A row of the schoolbook product; [b] may be longer than [pn]. *)
Lemma mul_row_spec W pn b aj carry :
  wf W pn -> digits (2 ^ 32) b -> (W <= length b)%nat -> fits 32 aj -> fits 32 carry ->
  wf W (mul_row carry aj pn b) /\
  val (mul_row carry aj pn b) = wrap (BITS W) (carry + val pn + aj * val b).
Proof.
  unfold val, wrap, fits. revert pn b carry.
  induction W as [|W IH]; intros pn b carry [La Ha] Hb Lb Hj Hc.
  - destruct pn; try done. simpl. split; [split; [done|constructor]|]. by rewrite Z.mod_1_r.
  - destruct Ha as [|p a Hp Ha]; [done|]. destruct Hb as [|q b Hq Hb]; [simpl in Lb; lia|].
    simpl mul_row. rewrite low_word, high_word. unfold wrap.
    assert (0 <= aj * q <= (2 ^ 32 - 1) * (2 ^ 32 - 1)) by nia.
    rewrite (Z.mod_small (aj * q) (2 ^ 64)) by lia.
    rewrite (Z.mod_small (carry + p + aj * q) (2 ^ 64)) by lia.
    destruct (IH a b ((carry + p + aj * q) / 2 ^ 32)) as [[Hl Hd] Hv].
    { split; [by injection La|done]. } { done. } { simpl in Lb; lia. } { done. }
    { split; [apply Z.div_pos; lia|apply Z.div_lt_upper_bound; lia]. }
    split; [split; [by simpl; f_equal|constructor; [apply word_mod_fits|done]]|].
    simpl of_digits.
    rewrite (carry_step _ _ W (of_digits (2 ^ 32) a + aj * of_digits (2 ^ 32) b)).
    + f_equal; lia.
    + lia.
    + rewrite Hv. f_equal; lia.
Qed.

Lemma mul_loop_spec W a acc b :
  wf W a -> wf W acc -> digits (2 ^ 32) b -> (W <= length b)%nat ->
  wf W (mul_loop a acc b) /\ val (mul_loop a acc b) = wrap (BITS W) (val acc + val a * val b).
Proof.
  revert a acc. induction W as [|W IH]; intros a acc [La Ha] Hacc Hb Lb.
  - destruct a, acc; try done. unfold val. simpl. split; [split; [done|constructor]|].
    unfold wrap. by rewrite Z.mod_1_r.
  - destruct Ha as [|aj a Hp Ha]; [done|]. injection La as La. simpl mul_loop.
    destruct (mul_row_spec (S W) acc b aj 0) as [[Lr Hr] Hv]; [done..|unfold fits; lia|].
    destruct Hr as [|p acc' Hq Hr]; [done|]. injection Lr as Lr.
    destruct (IH a acc') as [[Hl Hd] Hv2]; [done|done|done|lia|].
    split; [split; [by simpl; f_equal|by constructor]|].
    unfold val in *. simpl of_digits in *. unfold wrap in *. rewrite Hv2.
    rewrite (digit_step p _ W) by done.
    replace (p + 2 ^ 32 * (of_digits (2 ^ 32) acc' + of_digits (2 ^ 32) a * of_digits (2 ^ 32) b))
      with (p + 2 ^ 32 * of_digits (2 ^ 32) acc' + 2 ^ 32 * (of_digits (2 ^ 32) a * of_digits (2 ^ 32) b))
      by lia.
    rewrite Hv, Z.add_mod_idemp_l by (unfold BITS; lia). f_equal; lia.
Qed.

Lemma bu_mul_spec W a b :
  wf W a -> wf W b -> wf W (bu_mul a b) /\ val (bu_mul a b) = wrap (BITS W) (val a * val b).
Proof.
  intros Ha [Lb Hb]. unfold bu_mul. replace (length a) with W by (by destruct Ha).
  destruct (mul_loop_spec W a (bu_zero W) b) as [Hw Hv]; [done|apply wf_zero|done|lia|].
  split; [done|]. by rewrite Hv, val_zero.
Qed.

(** ** Shifts *)

Lemma length_or_at pn i v : length (or_at pn i v) = length pn.
Proof. apply length_insert. Qed.

Lemma znth_nil i : znth [] i = 0.
Proof. unfold znth. by destruct (i <? 0), (Z.to_nat i). Qed.

Lemma length_if_or_at pn (c : bool) i v : length (if c then or_at pn i v else pn) = length pn.
Proof. destruct c; [apply length_or_at|done]. Qed.

Lemma znth_or_at pn i v j :
  0 <= i < Z.of_nat (length pn) ->
  znth (or_at pn i v) j = if j =? i then Z.lor (znth pn j) v else znth pn j.
Proof.
  intros Hi. unfold or_at, znth. destruct (Z.eqb_spec j i) as [->|Hne].
  - destruct (Z.ltb_spec i 0); [lia|].
    rewrite !nth_lookup, list_lookup_insert_eq by lia. done.
  - destruct (Z.ltb_spec j 0); [done|].
    rewrite !nth_lookup, list_lookup_insert_ne by lia. done.
Qed.

Lemma digits_or_at pn i v :
  digits (2 ^ 32) pn -> 0 <= v < 2 ^ 32 -> digits (2 ^ 32) (or_at pn i v).
Proof.
  intros Hp Hv. apply Forall_insert; [done|].
  apply (bit_op_range Z.lor orb); [lia|done|apply Z.lor_spec| |done].
  pose proof (znth_fits 32 pn (Z.of_nat (Z.to_nat i)) ltac:(lia) Hp). by rewrite znth_nat in H.
Qed.

Lemma wf_or_at W pn i v : wf W pn -> 0 <= v < 2 ^ 32 -> wf W (or_at pn i v).
Proof. intros [] ?. split; [by rewrite length_or_at|by apply digits_or_at]. Qed.

Lemma znth_take_S (a : list Z) m j :
  znth (take (S m) a) j = if j =? Z.of_nat m then znth a j else znth (take m a) j.
Proof.
  unfold znth. destruct (Z.eqb_spec j (Z.of_nat m)) as [->|Hne].
  - destruct (Z.ltb_spec (Z.of_nat m) 0); [done|]. rewrite !nth_lookup, lookup_take_lt by lia. done.
  - destruct (Z.ltb_spec j 0); [done|]. rewrite !nth_lookup.
    destruct (Z.lt_ge_cases j (Z.of_nat m)).
    + by rewrite !lookup_take_lt by lia.
    + by rewrite !lookup_take_ge by lia.
Qed.

Lemma shiftr_word_fits x n : 0 <= x < 2 ^ 32 -> 0 <= n -> 0 <= Z.shiftr x n < 2 ^ 32.
Proof.
  intros. rewrite Z.shiftr_div_pow2 by done. split; [apply Z.div_pos; lia|].
  apply Z.div_lt_upper_bound; nia.
Qed.

(** Word [j] of the result of [<<=] by [32 * k + s], in terms of the words of [a]. *)
Definition shl_word (a : list Z) (k s j : Z) : Z :=
  Z.lor (u32 (Z.shiftl (znth a (j - k)) s))
        (if s =? 0 then 0 else Z.shiftr (znth a (j - k - 1)) (32 - s)).

Definition shr_word (a : list Z) (k s j : Z) : Z :=
  Z.lor (Z.shiftr (znth a (j + k)) s)
        (if s =? 0 then 0 else u32 (Z.shiftl (znth a (j + k + 1)) (32 - s))).

(** A guarded update is wanted inside the array only. *)
Lemma znth_if_or_at pn (c : bool) i v j :
  (c = true -> 0 <= i < Z.of_nat (length pn)) ->
  znth (if c then or_at pn i v else pn) j =
  if c && (j =? i) then Z.lor (znth pn j) v else znth pn j.
Proof. destruct c; simpl; intros H; [by apply znth_or_at, H|done]. Qed.

Section shift.
Context (W : nat) (a : base_uint) (Ha : wf W a) (k s : Z) (Hk : 0 <= k) (Hs : 0 <= s < 32).

Let word_a i : 0 <= znth a i < 2 ^ 32.
Proof. by apply (wf_word W). Qed.

Lemma wf_if_or_at pn (c : bool) i v :
  wf W pn -> 0 <= v < 2 ^ 32 -> wf W (if c then or_at pn i v else pn).
Proof. destruct c; [apply wf_or_at|done]. Qed.

Lemma shl_step_wf pn i : wf W pn -> wf W (shl_step W a k s pn i).
Proof.
  intros Hp. pose proof (word_a (Z.of_nat i)) as Hw. rewrite znth_nat in Hw. unfold shl_step.
  apply wf_if_or_at; [|apply wrap_fits; lia].
  apply wf_if_or_at; [done|apply shiftr_word_fits; lia].
Qed.

Lemma shr_step_wf pn i : wf W pn -> wf W (shr_step W a k s pn i).
Proof.
  intros Hp. pose proof (word_a (Z.of_nat i)) as Hw. rewrite znth_nat in Hw. unfold shr_step.
  apply wf_if_or_at; [|apply shiftr_word_fits; lia].
  apply wf_if_or_at; [done|apply wrap_fits; lia].
Qed.

Lemma znth_replicate_0 n j : znth (replicate n 0) j = 0.
Proof.
  unfold znth. case_match; [done|]. rewrite nth_lookup.
  destruct (replicate n 0 !! Z.to_nat j) eqn:E; [|done]. by apply lookup_replicate in E as [-> _].
Qed.

Lemma znth_take_ge (m : nat) j : Z.of_nat m <= j -> znth (take m a) j = 0.
Proof. intros. apply znth_ge. rewrite length_take; lia. Qed.

Lemma shl_loop m : (m <= W)%nat ->
  let r := fold_left (shl_step W a k s) (seq 0 m) (bu_zero W) in
  wf W r /\ forall j, 0 <= j < Z.of_nat W -> znth r j = shl_word (take m a) k s j.
Proof.
  induction m as [|m IH]; intros Hm r; subst r.
  - simpl. split; [apply wf_zero|]. intros j Hj. unfold shl_word, bu_zero.
    rewrite znth_replicate_0, take_0, !znth_nil, Z.shiftl_0_l, Z.shiftr_0_l.
    by destruct (s =? 0).
  - destruct (IH ltac:(lia)) as [Hw Hj]. rewrite seq_S, fold_left_app. simpl.
    set (pn := fold_left _ _ _) in *. split; [by apply shl_step_wf|]. intros j Hjr.
    destruct Hw as [Lp Hp]. unfold shl_step. rewrite <- znth_nat.
    rewrite znth_if_or_at by (intros; rewrite length_if_or_at; lia).
    rewrite znth_if_or_at, Hj by (done || lia). unfold shl_word. rewrite !znth_take_S.
    destruct (Z.eq_dec j (Z.of_nat m + k)) as [E|E]; [|destruct (Z.eq_dec j (Z.of_nat m + k + 1)) as [E'|E']].
    + rewrite (proj2 (Z.ltb_lt (Z.of_nat m + k) _)), (proj2 (Z.eqb_eq j _) E) by lia. simpl.
      rewrite (proj2 (Z.eqb_neq j _)), andb_false_r by lia.
      rewrite (proj2 (Z.eqb_eq (j - k) _)), (proj2 (Z.eqb_neq (j - k - 1) _)) by lia.
      rewrite (znth_take_ge m (j - k)) by lia. rewrite Z.shiftl_0_l, Z.lor_0_l, Z.lor_comm.
      by replace (j - k) with (Z.of_nat m) by lia.
    + rewrite (proj2 (Z.eqb_neq j (Z.of_nat m + k))), andb_false_r by lia.
      rewrite (proj2 (Z.ltb_lt (Z.of_nat m + k + 1) _)), (proj2 (Z.eqb_eq j _) E'), andb_true_r by lia. simpl.
      rewrite (proj2 (Z.eqb_neq (j - k) _)), (proj2 (Z.eqb_eq (j - k - 1) _)) by lia.
      rewrite !(znth_take_ge m) by lia. replace (j - k - 1) with (Z.of_nat m) by lia.
      rewrite Z.shiftl_0_l, Z.shiftr_0_l. destruct (s =? 0); simpl; [done|]. done.
    + rewrite !(proj2 (Z.eqb_neq j _)), !andb_false_r by done.
      by rewrite (proj2 (Z.eqb_neq (j - k) _)), (proj2 (Z.eqb_neq (j - k - 1) _)) by lia.
Qed.

Lemma shr_loop m : (m <= W)%nat ->
  let r := fold_left (shr_step W a k s) (seq 0 m) (bu_zero W) in
  wf W r /\ forall j, 0 <= j < Z.of_nat W -> znth r j = shr_word (take m a) k s j.
Proof.
  induction m as [|m IH]; intros Hm r; subst r.
  - simpl. split; [apply wf_zero|]. intros j Hj. unfold shr_word, bu_zero.
    rewrite znth_replicate_0, take_0, !znth_nil, Z.shiftl_0_l, Z.shiftr_0_l.
    by destruct (s =? 0).
  - destruct (IH ltac:(lia)) as [Hw Hj]. rewrite seq_S, fold_left_app. simpl.
    set (pn := fold_left _ _ _) in *. split; [by apply shr_step_wf|]. intros j Hjr.
    destruct Hw as [Lp Hp]. unfold shr_step. rewrite <- znth_nat.
    rewrite znth_if_or_at by (intros; rewrite length_if_or_at; lia).
    rewrite znth_if_or_at, Hj by (done || lia). unfold shr_word. rewrite !znth_take_S.
    destruct (Z.eq_dec j (Z.of_nat m - k)) as [E|E]; [|destruct (Z.eq_dec j (Z.of_nat m - k - 1)) as [E'|E']].
    + rewrite (proj2 (Z.leb_le 0 (Z.of_nat m - k))), (proj2 (Z.eqb_eq j _) E) by lia. simpl.
      rewrite (proj2 (Z.eqb_neq j _)), andb_false_r by lia.
      rewrite (proj2 (Z.eqb_eq (j + k) _)), (proj2 (Z.eqb_neq (j + k + 1) _)) by lia.
      rewrite (znth_take_ge m (j + k)), (znth_take_ge m (j + k + 1)) by lia.
      replace (j + k) with (Z.of_nat m) by lia.
      rewrite Z.shiftr_0_l, Z.shiftl_0_l. by destruct (s =? 0); rewrite ?Z.lor_0_l, ?Z.lor_0_r.
    + rewrite (proj2 (Z.eqb_neq j (Z.of_nat m - k))), andb_false_r by lia.
      rewrite (proj2 (Z.leb_le 0 (Z.of_nat m - k - 1))), (proj2 (Z.eqb_eq j _) E'), andb_true_r by lia. simpl.
      rewrite (proj2 (Z.eqb_neq (j + k) _)), (proj2 (Z.eqb_eq (j + k + 1) _)) by lia.
      rewrite (znth_take_ge m (j + k + 1)) by lia. replace (j + k + 1) with (Z.of_nat m) by lia.
      rewrite Z.shiftl_0_l. destruct (s =? 0); simpl; [done|]. by rewrite Z.lor_0_r.
    + rewrite !(proj2 (Z.eqb_neq j _)), !andb_false_r by done.
      by rewrite (proj2 (Z.eqb_neq (j + k) _)), (proj2 (Z.eqb_neq (j + k + 1) _)) by lia.
Qed.
End shift.

Lemma testbit_shl_u32 x s r :
  0 <= s < 32 -> 0 <= r < 32 ->
  Z.testbit (u32 (Z.shiftl x s)) r = (s <=? r) && Z.testbit x (r - s).
Proof.
  intros Hs Hr. rewrite testbit_wrap by lia. rewrite (proj2 (Z.ltb_lt r 32)) by lia. simpl.
  rewrite Z.shiftl_spec by lia. destruct (Z.leb_spec s r); [done|].
  by rewrite Z.testbit_neg_r by lia.
Qed.

Lemma div_mod_split n j r : 0 <= r < 32 -> n = 32 * j + r -> n / 32 = j /\ n mod 32 = r.
Proof. intros Hr ->. pose proof (Z.div_mod (32 * j + r) 32). pose proof (Z.mod_pos_bound (32 * j + r) 32). lia. Qed.

Lemma shl_word_bit W a k s j r :
  wf W a -> 0 <= s < 32 -> 0 <= r < 32 ->
  Z.testbit (shl_word a k s j) r = Z.testbit (val a) (32 * (j - k) + (r - s)).
Proof.
  intros Ha Hs Hr. unfold shl_word. rewrite Z.lor_spec, testbit_shl_u32 by done.
  rewrite (val_testbit W) by done. destruct (Z.leb_spec s r); simpl.
  - destruct (div_mod_split (32 * (j - k) + (r - s)) (j - k) (r - s)) as [-> ->]; [lia..|].
    destruct (Z.eqb_spec s 0); [by rewrite Z.testbit_0_l, orb_false_r|].
    rewrite Z.shiftr_spec by lia. rewrite (testbit_high 32 (znth a (j - k - 1))); [|by apply (wf_word W)|lia].
    apply orb_false_r.
  - destruct (div_mod_split (32 * (j - k) + (r - s)) (j - k - 1) (r - s + 32)) as [-> ->]; [lia..|].
    destruct (Z.eqb_spec s 0); [lia|]. rewrite Z.shiftr_spec by lia. f_equal; lia.
Qed.

Lemma shr_word_bit W a k s j r :
  wf W a -> 0 <= s < 32 -> 0 <= r < 32 ->
  Z.testbit (shr_word a k s j) r = Z.testbit (val a) (32 * (j + k) + (r + s)).
Proof.
  intros Ha Hs Hr. unfold shr_word. rewrite Z.lor_spec, Z.shiftr_spec by lia.
  rewrite (val_testbit W) by done. destruct (Z.lt_ge_cases (r + s) 32).
  - destruct (div_mod_split (32 * (j + k) + (r + s)) (j + k) (r + s)) as [-> ->]; [lia..|].
    destruct (Z.eqb_spec s 0); [by rewrite Z.testbit_0_l, orb_false_r|].
    rewrite testbit_shl_u32 by lia. rewrite (proj2 (Z.leb_gt (32 - s) r)) by lia. apply orb_false_r.
  - destruct (div_mod_split (32 * (j + k) + (r + s)) (j + k + 1) (r + s - 32)) as [-> ->]; [lia..|].
    rewrite (testbit_high 32 (znth a (j + k))); [|by apply (wf_word W)|lia].
    destruct (Z.eqb_spec s 0); [lia|]. rewrite testbit_shl_u32 by lia.
    rewrite (proj2 (Z.leb_le (32 - s) r)) by lia. simpl. f_equal; lia.
Qed.

Lemma shift_split shift : 0 <= shift -> 0 <= shift / 32 /\ 0 <= shift mod 32 < 32.
Proof. intros. split; [apply Z.div_pos; lia|apply Z.mod_pos_bound; lia]. Qed.

Lemma take_words W (a : base_uint) : wf W a -> take W a = a.
Proof. intros [<- _]. apply take_ge; lia. Qed.

Lemma bu_shl_spec W a shift :
  wf W a -> 0 <= shift ->
  wf W (bu_shl a shift) /\ val (bu_shl a shift) = wrap (BITS W) (val a * 2 ^ shift).
Proof.
  intros Ha Hs. destruct (shift_split shift Hs). unfold bu_shl.
  replace (length a) with W by (by destruct Ha).
  destruct (shl_loop W a Ha (shift / 32) (shift mod 32) ltac:(done) ltac:(done) W ltac:(lia)) as [Hw Hj].
  split; [done|]. apply val_wrap_bits; [done|]. intros n Hn.
  assert (0 <= n / 32 < Z.of_nat W).
  { unfold BITS in Hn. split; [apply Z.div_pos; lia|apply Z.div_lt_upper_bound; lia]. }
  pose proof (Z.mod_pos_bound n 32 ltac:(lia)).
  rewrite Hj, take_words, (shl_word_bit W) by done.
  rewrite <- Z.shiftl_mul_pow2, Z.shiftl_spec by lia. f_equal.
  pose proof (Z.div_mod n 32). pose proof (Z.div_mod shift 32). lia.
Qed.

Lemma bu_shr_spec W a shift :
  wf W a -> 0 <= shift ->
  wf W (bu_shr a shift) /\ val (bu_shr a shift) = val a / 2 ^ shift.
Proof.
  intros Ha Hs. destruct (shift_split shift Hs). unfold bu_shr.
  replace (length a) with W by (by destruct Ha).
  destruct (shr_loop W a Ha (shift / 32) (shift mod 32) ltac:(done) ltac:(done) W ltac:(lia)) as [Hw Hj].
  split; [done|].
  assert (val a / 2 ^ shift = wrap (BITS W) (val a / 2 ^ shift)) as ->.
  { symmetry. apply wrap_id. pose proof (val_bound W a Ha). split; [apply Z.div_pos; lia|].
    apply Z.div_lt_upper_bound; nia. }
  apply val_wrap_bits; [done|]. intros n Hn.
  assert (0 <= n / 32 < Z.of_nat W).
  { unfold BITS in Hn. split; [apply Z.div_pos; lia|apply Z.div_lt_upper_bound; lia]. }
  pose proof (Z.mod_pos_bound n 32 ltac:(lia)).
  rewrite Hj, take_words, (shr_word_bit W) by done.
  rewrite <- Z.shiftr_div_pow2, Z.shiftr_spec by lia. f_equal.
  pose proof (Z.div_mod n 32). pose proof (Z.div_mod shift 32). lia.
Qed.

(** ** Comparison *)

Lemma val_snoc a p : val (a ++ [p]) = val a + 2 ^ BITS (length a) * p.
Proof.
  unfold val. rewrite of_digits_app. simpl. unfold BITS. rewrite pow2_pow_mul by lia. lia.
Qed.

Lemma digits_snoc B (a : list Z) p : digits B (a ++ [p]) <-> digits B a /\ 0 <= p < B.
Proof. unfold digits. rewrite Forall_app, Forall_singleton. done. Qed.

(** Words of equal count compare like the numbers they stand for. *)
Lemma compare_words a b :
  digits (2 ^ 32) a -> digits (2 ^ 32) b -> length a = length b ->
  bu_lt a b = (val a <? val b) /\ bu_le a b = (val a <=? val b) /\
  bu_gt a b = (val b <? val a) /\ bu_ge a b = (val b <=? val a).
Proof.
  unfold bu_lt, bu_le, bu_gt, bu_ge. revert b.
  induction a as [|p a IH] using rev_ind; intros b Ha Hb Hl.
  - destruct b; done.
  - destruct b as [|q b _] using rev_ind; [rewrite length_app in Hl; simpl in Hl; lia|].
    apply digits_snoc in Ha as [Ha Hp], Hb as [Hb Hq]. rewrite !length_app in Hl. simpl in Hl.
    destruct (IH b) as (E1 & E2 & E3 & E4); [done..|lia|].
    rewrite !rev_unit. simpl. rewrite E1, E2, E3, E4, !val_snoc.
    assert (Hla : length a = length b) by lia.
    pose proof (val_bound (length a) a (conj eq_refl Ha)).
    pose proof (val_bound (length a) b (conj (eq_sym Hla) Hb)). rewrite <- Hla.
    destruct (Z.ltb_spec p q), (Z.ltb_spec q p); try lia; [nia|nia|].
    assert (p = q) as -> by lia. repeat split; apply eq_true_iff_eq; lia.
Qed.

Lemma bu_ge_spec W a b : wf W a -> wf W b -> bu_ge a b = (val b <=? val a).
Proof. intros [] []. apply compare_words; (done || congruence). Qed.

Lemma bu_cmp_spec W a b : wf W a -> wf W b ->
  bu_lt a b = (val a <? val b) /\ bu_le a b = (val a <=? val b) /\
  bu_gt a b = (val b <? val a) /\ bu_ge a b = (val b <=? val a).
Proof. intros Ha Hb. apply compare_words; [apply Ha|apply Hb|destruct Ha, Hb; congruence]. Qed.

Lemma bu_eq_spec W a b : wf W a -> wf W b -> bu_eq a b = (val a =? val b).
Proof.
  intros Ha Hb. apply eq_true_iff_eq. rewrite Z.eqb_eq.
  assert (bu_eq a b = true <-> a = b) as ->.
  { destruct Ha as [<- _], Hb as [Hl _]. revert b Hl.
    induction a as [|p a IH]; intros [|q b] Hl; try done. simpl. injection Hl as Hl.
    destruct (Z.eqb_spec p q) as [->|Hne]; simpl.
    - rewrite (IH b Hl). split; [by intros ->|by intros [=]].
    - split; [done|by intros [=]]. }
  split; [by intros ->|by apply (val_inj W)].
Qed.

(** ** Highest bit *)

Lemma land_pow2 p n : 0 <= n -> negb (Z.land p (2 ^ n) =? 0) = Z.testbit p n.
Proof.
  intros Hn. destruct (Z.testbit p n) eqn:E.
  - apply negb_true_iff, Z.eqb_neq. intros H.
    assert (Z.testbit (Z.land p (2 ^ n)) n = false) by by rewrite H, Z.testbit_0_l.
    rewrite Z.land_spec, E, Z.pow2_bits_true in H0 by done. done.
  - apply negb_false_iff, Z.eqb_eq, Z.bits_inj'. intros m Hm.
    rewrite Z.land_spec, Z.testbit_0_l. destruct (Z.eq_dec m n) as [->|Hne]; [by rewrite E|].
    rewrite Z.pow2_bits_false by lia. apply andb_false_r.
Qed.

Lemma testbit_top p n : 0 <= n -> 0 <= p < 2 ^ (n + 1) -> Z.testbit p n = (2 ^ n <=? p).
Proof.
  intros Hn Hp. rewrite Z.pow_add_r in Hp by lia.
  destruct (Z.leb_spec (2 ^ n) p).
  - apply Z.testbit_true; [done|]. replace (p / 2 ^ n) with 1; [done|].
    apply (Z.div_unique p (2 ^ n) 1 (p - 2 ^ n)); lia.
  - apply (testbit_high n); lia.
Qed.

Lemma bits_in_word_spec n p :
  (n <= 31)%nat -> 0 < p < 2 ^ (Z.of_nat n + 1) -> bits_in_word p n = Z.log2 p + 1.
Proof.
  induction n as [|n IH]; intros Hn Hp.
  - simpl. replace p with 1 by lia. done.
  - simpl bits_in_word. rewrite Z.shiftl_1_l, wrap_id.
    2: { split; [lia|]. apply Z.pow_lt_mono_r; lia. }
    rewrite land_pow2, testbit_top by lia. destruct (Z.leb_spec (2 ^ Z.of_nat (S n)) p).
    + rewrite (Z.log2_unique p (Z.of_nat (S n))) by lia. lia.
    + apply IH; [lia|]. split; [lia|]. by replace (Z.of_nat n + 1) with (Z.of_nat (S n)) by lia.
Qed.

(** The number of significant bits. *)
Definition nbits (v : Z) : Z := if v =? 0 then 0 else Z.log2 v + 1.

Lemma log2_high lo p n : 0 <= n -> 0 <= lo < 2 ^ n -> 0 < p -> Z.log2 (lo + 2 ^ n * p) = n + Z.log2 p.
Proof.
  intros Hn Hlo Hp. destruct (Z.log2_spec p Hp). apply Z.log2_unique.
  - pose proof (Z.log2_nonneg p); lia.
  - pose proof (Z.log2_nonneg p). rewrite Z.pow_succ_r, !Z.pow_add_r by lia.
    rewrite Z.pow_succ_r in * by lia. split; nia.
Qed.

Lemma bu_bits_spec W a : wf W a -> bu_bits a = nbits (val a).
Proof.
  intros [_ Ha]. unfold bu_bits, nbits. induction a as [|p a IH] using rev_ind; [done|].
  apply digits_snoc in Ha as [Ha Hp]. rewrite rev_unit, val_snoc. cbn [bits_loop]. rewrite length_rev.
  pose proof (val_bound (length a) a (conj eq_refl Ha)).
  destruct (Z.eqb_spec p 0) as [->|Hne]; cbn [negb].
  - rewrite Z.mul_0_r, Z.add_0_r. by apply IH.
  - rewrite bits_in_word_spec by (simpl; lia).
    destruct (Z.eqb_spec (val a + 2 ^ BITS (length a) * p) 0); [nia|].
    rewrite log2_high by (unfold BITS in *; lia). unfold BITS. lia.
Qed.

Lemma nbits_bound v : 0 <= v -> v < 2 ^ nbits v.
Proof.
  intros. unfold nbits. destruct (Z.eqb_spec v 0); [subst; simpl; lia|].
  destruct (Z.log2_spec v); [lia|]. by rewrite Z.add_1_r.
Qed.

Lemma nbits_low v : 0 < v -> 2 ^ (nbits v - 1) <= v /\ 1 <= nbits v.
Proof.
  intros. unfold nbits. destruct (Z.eqb_spec v 0); [lia|].
  destruct (Z.log2_spec v); [lia|]. pose proof (Z.log2_nonneg v).
  replace (Z.log2 v + 1 - 1) with (Z.log2 v) by lia. lia.
Qed.

Lemma nbits_nonneg v : 0 <= nbits v.
Proof. unfold nbits. case_match; [lia|]. pose proof (Z.log2_nonneg v). lia. Qed.

Lemma nbits_le v n : 0 <= n -> 0 <= v < 2 ^ n -> nbits v <= n.
Proof.
  intros Hn Hv. unfold nbits. destruct (Z.eqb_spec v 0); [lia|].
  assert (Z.log2 v < n) by (apply Z.log2_lt_pow2; lia). lia.
Qed.

(** ** Division *)

Lemma lor_disjoint q n : 0 <= n -> q mod 2 ^ (n + 1) = 0 -> Z.lor q (2 ^ n) = q + 2 ^ n.
Proof.
  intros Hn Hq. assert (Z.land q (2 ^ n) = 0) as H0.
  { apply Z.eqb_eq, negb_false_iff. rewrite land_pow2 by done.
    rewrite <- (Z.mod_pow2_bits_low q (n + 1) n), Hq by lia. apply Z.testbit_0_l. }
  by rewrite (Z.add_nocarry_lxor _ _ H0), Z.lxor_lor.
Qed.

Lemma or_at_bit W quot n :
  wf W quot -> 0 <= n < BITS W ->
  wf W (or_at quot (n / 32) (u32 (Z.shiftl 1 (Z.land n 31)))) /\
  val (or_at quot (n / 32) (u32 (Z.shiftl 1 (Z.land n 31)))) = Z.lor (val quot) (2 ^ n).
Proof.
  intros Hq Hn. change 31 with (Z.ones 5). rewrite Z.land_ones by lia. change (2 ^ 5) with 32.
  pose proof (Z.mod_pos_bound n 32 ltac:(lia)). rewrite Z.shiftl_1_l, wrap_id.
  2: { split; [lia|]. apply Z.pow_lt_mono_r; lia. }
  assert (0 <= n / 32 < Z.of_nat W).
  { unfold BITS in Hn. split; [apply Z.div_pos; lia|apply Z.div_lt_upper_bound; lia]. }
  assert (Hw : wf W (or_at quot (n / 32) (2 ^ (n mod 32)))).
  { apply wf_or_at; [done|]. split; [lia|]. apply Z.pow_lt_mono_r; lia. }
  split; [done|]. apply Z.bits_inj'; intros m Hm.
  rewrite Z.lor_spec, (val_testbit W _ m Hw), (val_testbit W _ m Hq).
  rewrite znth_or_at by (destruct Hq as [-> _]; done).
  pose proof (Z.div_mod n 32). pose proof (Z.div_mod m 32). pose proof (Z.mod_pos_bound m 32 ltac:(lia)).
  destruct (Z.eqb_spec (m / 32) (n / 32)) as [E|E].
  - rewrite Z.lor_spec. f_equal. destruct (Z.eq_dec m n) as [->|Hne].
    + by rewrite !Z.pow2_bits_true by lia.
    + rewrite !Z.pow2_bits_false by lia. done.
  - rewrite Z.pow2_bits_false by congruence. by rewrite orb_false_r.
Qed.

Lemma div_loop_spec W D n quot num div :
  (Z.of_nat n <= BITS W) -> 0 < D ->
  wf W quot -> wf W num -> wf W div ->
  (n <> O -> val div = D * 2 ^ (Z.of_nat n - 1)) ->
  val num < D * 2 ^ Z.of_nat n -> val quot mod 2 ^ Z.of_nat n = 0 ->
  exists q r, div_loop n quot num div = (q, r) /\ wf W q /\ wf W r /\
    val num + D * val quot = val r + D * val q /\ val r < D.
Proof.
  intros Hn HD. revert quot num div. induction n as [|n IH]; intros quot num div Hq Hr Hd Vd Hlt Hm.
  - exists quot, num. simpl in Hlt. repeat split; (done || apply Hq || apply Hr || lia).
  - simpl div_loop. rewrite (bu_ge_spec W) by done.
    specialize (Vd ltac:(done)). replace (Z.of_nat (S n) - 1) with (Z.of_nat n) in Vd by lia.
    rewrite Nat2Z.inj_succ, Z.pow_succ_r in Hlt by lia.
    replace (Z.of_nat (S n)) with (Z.of_nat n + 1) in Hm by lia.
    destruct (bu_shr_spec W div 1 Hd ltac:(lia)) as [Hd' Vd'].
    assert (Hdiv : n <> O -> val (bu_shr div 1) = D * 2 ^ (Z.of_nat n - 1)).
    { intros. rewrite Vd', Vd. replace (Z.of_nat n) with (Z.of_nat n - 1 + 1) at 1 by lia.
      rewrite Z.pow_add_r, Z.mul_assoc by lia. apply Z.div_mul; lia. }
    assert (Hm' : val quot mod 2 ^ Z.of_nat n = 0).
    { apply Z.mod_divide; [lia|]. apply Z.mod_divide in Hm; [|lia].
      etransitivity; [|exact Hm]. exists 2. rewrite Z.pow_add_r by lia. lia. }
    destruct (Z.leb_spec (val div) (val num)) as [Hle|Hgt].
    + destruct (bu_sub_spec W num div Hr Hd) as [Hs Vs].
      rewrite wrap_id in Vs by (pose proof (val_bound W num Hr); pose proof (val_bound W div Hd); unfold fits; lia).
      destruct (or_at_bit W quot (Z.of_nat n) Hq ltac:(lia)) as [Ho Vo].
      rewrite lor_disjoint in Vo by (done || lia).
      destruct (IH ltac:(lia) _ _ _ Ho Hs Hd' Hdiv) as (q & r & E & Hwq & Hwr & Heq & Hb).
      { rewrite Vs. lia. }
      { rewrite Vo, <- (Z.mul_1_l (2 ^ Z.of_nat n)) at 1. rewrite Z.mod_add by lia. done. }
      exists q, r. rewrite E. repeat split; (done || apply Hwq || apply Hwr || nia).
    + destruct (IH ltac:(lia) _ _ _ Hq Hr Hd' Hdiv ltac:(lia) Hm') as (q & r & E & Hres).
      exists q, r. by rewrite E.
Qed.

Lemma bu_div_zero W a b : wf W b -> val b = 0 -> bu_div a b = None.
Proof. intros Hb E. unfold bu_div. by rewrite (bu_bits_spec W b), E by done. Qed.

Lemma bu_div_value W a b :
  wf W a -> wf W b -> val b <> 0 ->
  exists q, bu_div a b = Some q /\ wf W q /\ val q = val a / val b.
Proof.
  intros Ha Hb Hne. pose proof (val_bound W a Ha). pose proof (val_bound W b Hb).
  unfold bu_div. rewrite !(bu_bits_spec W) by done.
  destruct (nbits_low (val b)) as [Hlow Hone]; [lia|].
  destruct (Z.eqb_spec (nbits (val b)) 0); [lia|].
  pose proof (nbits_bound (val a) ltac:(lia)).
  destruct (Z.ltb_spec (nbits (val a)) (nbits (val b))).
  - exists (bu_zero (length a)). split; [done|]. replace (length a) with W by (by destruct Ha).
    split; [apply wf_zero|]. rewrite val_zero, Z.div_small; [done|]. split; [lia|].
    enough (2 ^ nbits (val a) <= 2 ^ (nbits (val b) - 1)) by lia. apply Z.pow_le_mono_r; lia.
  - set (sh := nbits (val a) - nbits (val b)).
    destruct (bu_shl_spec W b sh Hb ltac:(lia)) as [Hd Vd].
    pose proof (nbits_bound (val b) ltac:(lia)).
    assert (nbits (val a) <= BITS W) by (apply nbits_le; unfold BITS in *; lia).
    assert (val b * 2 ^ sh < 2 ^ BITS W).
    { apply Z.lt_le_trans with (2 ^ nbits (val b) * 2 ^ sh); [nia|].
      rewrite <- Z.pow_add_r by lia. apply Z.pow_le_mono_r; lia. }
    rewrite wrap_id in Vd by (unfold fits; nia).
    destruct (div_loop_spec W (val b) (Z.to_nat (sh + 1)) (bu_zero W) a (bu_shl b sh))
      as (q & r & E & Hq & Hr & Heq & Hb').
    + lia.
    + lia.
    + apply wf_zero.
    + done.
    + done.
    + intros _. rewrite Vd. f_equal. f_equal. lia.
    + rewrite Z2Nat.id by lia. apply Z.lt_le_trans with (2 ^ nbits (val a)); [done|].
      replace (nbits (val a)) with ((nbits (val b) - 1) + (sh + 1)) by lia.
      rewrite Z.pow_add_r by lia. nia.
    + by rewrite val_zero, Z.mod_0_l by lia.
    + exists q. replace (length a) with W by (by destruct Ha). rewrite E. split; [done|].
      split; [done|]. rewrite val_zero in Heq. apply (Z.div_unique _ _ _ (val r)).
      * left. pose proof (val_bound W r Hr). lia.
      * lia.
Qed.

(** ** Memory image and serialization *)

Lemma length_bu_bytes a : length (bu_bytes a) = (4 * length a)%nat.
Proof.
  unfold bu_bytes. induction a as [|p a IH]; [done|].
  rewrite map_cons. cbn [concat]. rewrite length_app, IH, length_to_digits, length_cons. lia.
Qed.

Lemma bu_bytes_ok a : digits 256 (bu_bytes a).
Proof.
  unfold bu_bytes. induction a as [|p a IH]; [constructor|].
  rewrite map_cons. cbn [concat]. apply Forall_app; split; [apply to_digits_ok; lia|done].
Qed.

Lemma bu_bytes_val a : digits (2 ^ 32) a -> of_digits 256 (bu_bytes a) = val a.
Proof.
  unfold bu_bytes, val. induction 1 as [|p a Hp _ IH]; [done|].
  rewrite map_cons. cbn [concat]. rewrite of_digits_app, of_to_digits, length_to_digits, IH by lia.
  rewrite Z.mod_small by (simpl; lia). done.
Qed.

Lemma bu_bytes_to_digits W a : wf W a -> bu_bytes a = to_digits 256 (4 * W) (val a).
Proof.
  intros [<- Ha]. rewrite <- (bu_bytes_val a Ha), <- length_bu_bytes.
  rewrite to_of_digits by (lia || apply bu_bytes_ok). done.
Qed.

Lemma words_of_bytes_spec W l :
  digits 256 l -> length l = (4 * W)%nat ->
  wf W (words_of_bytes l) /\ val (words_of_bytes l) = of_digits 256 l.
Proof.
  unfold val. revert l. induction W as [|W IH]; intros l Hl Hlen.
  - destruct l; [|done]. split; [split; [done|constructor]|done].
  - destruct l as [|b0 [|b1 [|b2 [|b3 l]]]]; try (simpl in Hlen; lia).
    apply Forall_cons in Hl as [H0 Hl]. apply Forall_cons in Hl as [H1 Hl].
    apply Forall_cons in Hl as [H2 Hl]. apply Forall_cons in Hl as [H3 Hl].
    destruct (IH l Hl) as [[Hw Hd] Hv]; [simpl in Hlen; lia|].
    cbn [words_of_bytes]. split; [split|].
    + simpl. lia.
    + constructor; [simpl; lia|done].
    + cbn [of_digits]. rewrite Hv. lia.
Qed.

Lemma words_of_bu_bytes W a : wf W a -> words_of_bytes (bu_bytes a) = a.
Proof.
  intros Ha. destruct (words_of_bytes_spec W (bu_bytes a) (bu_bytes_ok a)) as [Hw Hv].
  - rewrite length_bu_bytes. by destruct Ha as [-> _].
  - apply (val_inj W); [done..|]. rewrite Hv. apply bu_bytes_val, Ha.
Qed.

Lemma bu_bytes_words W l :
  digits 256 l -> length l = (4 * W)%nat -> bu_bytes (words_of_bytes l) = l.
Proof.
  intros Hl Hlen. destruct (words_of_bytes_spec W l Hl Hlen) as [[Hw Hd] Hv].
  apply (of_digits_inj 256); [lia|apply bu_bytes_ok|done| |].
  - by rewrite length_bu_bytes, Hw.
  - by rewrite bu_bytes_val.
Qed.

(** ** Hexadecimal text *)

(** The number written by a list of hex digits, most significant first. *)
Definition hex_value (s : list Z) : Z := of_digits 16 (map HexDigit (rev s)).

Lemma HexDigit_range c : HexDigit c <> -1 -> 0 <= HexDigit c < 16.
Proof. unfold HexDigit. repeat (case_match; try lia). Qed.

Lemma HexDigit_hexchar d : 0 <= d < 16 -> HexDigit (hexchar d) = d.
Proof. intros. unfold HexDigit, hexchar. destruct (Z.ltb_spec d 10); repeat case_match; lia. Qed.

Definition hexdigits (s : list Z) : Prop := Forall (fun c => HexDigit c <> -1) s.

Lemma hex_prefix_ok s : hexdigits (hex_prefix s).
Proof.
  induction s as [|c s IH]; simpl; [constructor|].
  destruct (Z.eqb_spec (HexDigit c) (-1)); [constructor|by constructor].
Qed.

Lemma hex_prefix_id s : hexdigits s -> hex_prefix s = s.
Proof.
  induction 1 as [|c s Hc _ IH]; simpl; [done|].
  destruct (Z.eqb_spec (HexDigit c) (-1)); [done|]. by rewrite IH.
Qed.

Lemma hex_byte d d' :
  0 <= d < 16 -> 0 <= d' < 16 -> u8 (Z.lor (u8 d) (Z.shiftl (u8 d') 4)) = d + 16 * d'.
Proof.
  intros Hd Hd'. rewrite (wrap_id 8 d), (wrap_id 8 d') by (unfold fits; lia).
  rewrite Z.shiftl_mul_pow2 by lia.
  assert (Z.lor d (d' * 2 ^ 4) = d + d' * 2 ^ 4) as ->.
  { assert (Z.land d (d' * 2 ^ 4) = 0) as H0.
    { apply Z.bits_inj'; intros n Hn. rewrite Z.land_spec, Z.testbit_0_l.
      destruct (Z.lt_ge_cases n 4).
      - by rewrite Z.mul_pow2_bits_low, andb_false_r by lia.
      - by rewrite (testbit_high 4 d) by lia. }
    by rewrite (Z.add_nocarry_lxor _ _ H0), Z.lxor_lor. }
  rewrite wrap_id; unfold fits; lia.
Qed.

Lemma pack_hex_nil n : pack_hex n [] = replicate n 0.
Proof. induction n; simpl; [done|by f_equal]. Qed.

Lemma pack_hex_spec n s :
  hexdigits s ->
  length (pack_hex n s) = n /\ digits 256 (pack_hex n s) /\
  of_digits 256 (pack_hex n s) = of_digits 16 (map HexDigit s) mod 256 ^ Z.of_nat n.
Proof.
  revert s. induction n as [|n IH]; intros s Hs.
  - split_and!; [done|constructor|by rewrite Z.mod_1_r].
  - assert (Hp : 0 < 256 ^ Z.of_nat n) by lia.
    destruct Hs as [|c s Hc Hs]; [|destruct Hs as [|c' s Hc' Hs]]; cbn [pack_hex].
    + rewrite pack_hex_nil. split_and!; [by simpl; rewrite length_replicate|apply (digits_replicate_0 256 ltac:(lia) (S n))|].
      cbn [map of_digits]. by rewrite of_digits_replicate_0, Z.mod_0_l by lia.
    + apply HexDigit_range in Hc. rewrite pack_hex_nil, wrap_id by (unfold fits; lia).
      split_and!; [by simpl; rewrite length_replicate|constructor; [lia|apply digits_replicate_0; lia]|].
      cbn [map of_digits]. rewrite of_digits_replicate_0, Z.mod_small; [lia|].
      rewrite Nat2Z.inj_succ, Z.pow_succ_r by lia. nia.
    + apply HexDigit_range in Hc, Hc'. destruct (IH s Hs) as (Hl & Hd & Hv).
      rewrite hex_byte by done.
      split_and!; [by simpl; f_equal|constructor; [lia|done]|].
      cbn [map of_digits]. rewrite Hv, Nat2Z.inj_succ, Z.pow_succ_r by lia.
      rewrite Z.rem_mul_r by lia.
      replace (HexDigit c + 16 * (HexDigit c' + 16 * of_digits 16 (map HexDigit s)))
        with (HexDigit c + 16 * HexDigit c' + of_digits 16 (map HexDigit s) * 256) by lia.
      rewrite Z.mod_add, Z.div_add by lia.
      rewrite (Z.mod_small (HexDigit c + 16 * HexDigit c')), (Z.div_small (HexDigit c + 16 * HexDigit c'))
        by lia. done.
Qed.

Lemma bu_SetHex_value W psz :
  wf W (bu_SetHex W psz) /\
  val (bu_SetHex W psz) = wrap (BITS W) (hex_value (hex_prefix (skip_0x (skip_spaces psz)))).
Proof.
  unfold bu_SetHex. set (ds := hex_prefix _).
  destruct (pack_hex_spec (4 * W) (rev ds)) as (Hl & Hd & Hv).
  { apply Forall_rev, hex_prefix_ok. }
  destruct (words_of_bytes_spec W _ Hd Hl) as [Hw Hval]. split; [done|].
  rewrite Hval, Hv. unfold wrap, hex_value, BITS. change 256 with (2 ^ 8).
  rewrite pow2_pow_mul by lia. do 2 f_equal. lia.
Qed.

Lemma GetHex_rev l :
  rev (concat (map hex2 (rev l))) = concat (map (fun b => [hexchar (b mod 16); hexchar (b / 16)]) l).
Proof.
  induction l as [|b l IH]; [done|]. simpl rev at 2.
  rewrite map_app, concat_app, rev_app_distr, IH. done.
Qed.

Lemma hex_value_bytes l : digits 256 l -> hex_value (concat (map hex2 (rev l))) = of_digits 256 l.
Proof.
  unfold hex_value. rewrite GetHex_rev. induction 1 as [|b l Hb _ IH]; [done|].
  rewrite map_cons. cbn [concat app map of_digits]. rewrite IH.
  pose proof (Z.mod_pos_bound b 16 ltac:(lia)). pose proof (Z.div_mod b 16 ltac:(lia)).
  rewrite !HexDigit_hexchar by (done || lia). lia.
Qed.

Lemma hex2_ok l : digits 256 l -> hexdigits (concat (map hex2 l)).
Proof.
  induction 1 as [|b l Hb _ IH]; [constructor|].
  rewrite map_cons. cbn [concat hex2 app].
  pose proof (Z.mod_pos_bound b 16 ltac:(lia)). pose proof (Z.div_mod b 16 ltac:(lia)).
  repeat constructor; [rewrite HexDigit_hexchar; lia..|done].
Qed.

Lemma hexdigit_not_space c : HexDigit c <> -1 -> isspace c = false /\ tolower c <> 120.
Proof. unfold HexDigit, isspace, tolower. intros H. repeat (case_match; try lia). Qed.

Lemma skip_hex s : hexdigits s -> skip_0x (skip_spaces s) = s.
Proof.
  destruct 1 as [|c s Hc Hs]; [done|]. cbn [skip_spaces].
  destruct (hexdigit_not_space c Hc) as [-> _]. destruct Hs as [|c' s Hc' Hs]; [done|].
  cbn [skip_0x]. destruct (hexdigit_not_space c' Hc') as [_ H].
  apply Z.eqb_neq in H. by rewrite H, andb_false_r.
Qed.

Lemma SetHex_GetHex W a : wf W a -> bu_SetHex W (bu_GetHex a) = a.
Proof.
  intros Ha. destruct (bu_SetHex_value W (bu_GetHex a)) as [Hw Hv].
  apply (val_inj W); [done..|]. rewrite Hv.
  assert (Hd : hexdigits (bu_GetHex a)) by (apply hex2_ok, Forall_rev, bu_bytes_ok).
  rewrite skip_hex, hex_prefix_id by done. unfold bu_GetHex.
  rewrite hex_value_bytes by apply bu_bytes_ok. rewrite bu_bytes_val by apply Ha.
  by apply wrap_id, val_bound.
Qed.

(** ** Compact difficulty targets *)

Lemma lor_low_high x y w : 0 <= w -> 0 <= x < 2 ^ w -> Z.lor x (y * 2 ^ w) = x + y * 2 ^ w.
Proof.
  intros Hw Hx. assert (Z.land x (y * 2 ^ w) = 0) as H0.
  { apply Z.bits_inj'; intros n Hn. rewrite Z.land_spec, Z.testbit_0_l.
    destruct (Z.lt_ge_cases n w).
    - by rewrite Z.mul_pow2_bits_low, andb_false_r by lia.
    - by rewrite (testbit_high w x) by lia. }
  by rewrite (Z.add_nocarry_lxor _ _ H0), Z.lxor_lor.
Qed.

Lemma GetLow64_spec W a : wf W a -> (2 <= W)%nat -> bu_GetLow64 a = val a mod 2 ^ 64.
Proof.
  intros [<- Ha] HW. destruct Ha as [|p a Hp Ha]; [simpl in HW; lia|].
  destruct Ha as [|q a Hq Ha]; [simpl in HW; lia|].
  unfold bu_GetLow64, val. cbn [nth of_digits]. rewrite Z.shiftl_mul_pow2 by lia.
  rewrite wrap_id by (unfold fits; lia). rewrite lor_low_high by lia.
  apply (Z.mod_unique _ _ (of_digits (2 ^ 32) a)); lia.
Qed.

(** The mantissa and the byte count that [GetCompact] computes for a value. *)
Definition compact_parts (v : Z) : Z * Z :=
  let s := (nbits v + 7) / 8 in
  let m := if s <=? 3 then v * 2 ^ (8 * (3 - s)) else v / 2 ^ (8 * (s - 3)) in
  if 2 ^ 23 <=? m then (m / 2 ^ 8, s + 1) else (m, s).

(** The number a mantissa and a byte count stand for. *)
Definition compact_expand (m s : Z) : Z :=
  if s <=? 3 then m / 2 ^ (8 * (3 - s)) else m * 2 ^ (8 * (s - 3)).

Lemma byte_size_bounds v :
  0 <= v < 2 ^ 256 -> let s := (nbits v + 7) / 8 in 0 <= s <= 32 /\ nbits v <= 8 * s.
Proof.
  intros Hv s. pose proof (nbits_le v 256 ltac:(lia) Hv). pose proof (nbits_nonneg v).
  pose proof (Z.div_mod (nbits v + 7) 8 ltac:(lia)). pose proof (Z.mod_pos_bound (nbits v + 7) 8 ltac:(lia)).
  subst s. lia.
Qed.

Lemma mantissa_bound v :
  0 <= v < 2 ^ 256 ->
  let s := (nbits v + 7) / 8 in
  0 <= (if s <=? 3 then v * 2 ^ (8 * (3 - s)) else v / 2 ^ (8 * (s - 3))) < 2 ^ 24.
Proof.
  intros Hv s. destruct (byte_size_bounds v Hv) as [Hs Hn]. fold s in Hs, Hn.
  assert (v < 2 ^ (8 * s)).
  { eapply Z.lt_le_trans; [apply nbits_bound; lia|]. apply Z.pow_le_mono_r; lia. }
  destruct (Z.leb_spec s 3).
  - split; [lia|]. replace (2 ^ 24) with (2 ^ (8 * s) * 2 ^ (8 * (3 - s))).
    + apply Z.mul_lt_mono_pos_r; lia.
    + rewrite <- Z.pow_add_r by lia. f_equal; lia.
  - split; [apply Z.div_pos; lia|]. apply Z.div_lt_upper_bound; [lia|].
    rewrite <- Z.pow_add_r by lia. by replace (8 * (s - 3) + 24) with (8 * s) by lia.
Qed.

Lemma compact_parts_bound v m s :
  0 <= v < 2 ^ 256 -> compact_parts v = (m, s) -> 0 <= m < 2 ^ 23 /\ 0 <= s <= 33.
Proof.
  intros Hv. unfold compact_parts. pose proof (mantissa_bound v Hv) as Hm.
  destruct (byte_size_bounds v Hv) as [Hs _]. cbv zeta in *.
  match type of Hm with 0 <= ?x < _ => set (m0 := x) in * end.
  destruct (Z.leb_spec (2 ^ 23) m0); intros [= <- <-]; [|lia].
  split; [|lia]. split; [apply Z.div_pos; lia|apply Z.div_lt_upper_bound; lia].
Qed.

Lemma land_high_zero m : 0 <= m < 2 ^ 23 -> Z.land m (u32 (Z.lnot 0x007fffff)) = 0.
Proof.
  intros Hm. apply Z.bits_inj'; intros n Hn. rewrite Z.land_spec, Z.testbit_0_l.
  destruct (Z.lt_ge_cases n 23).
  - change (u32 (Z.lnot 0x007fffff)) with (511 * 2 ^ 23).
    by rewrite Z.mul_pow2_bits_low, andb_false_r by lia.
  - by rewrite (testbit_high 23 m) by lia.
Qed.

Lemma GetCompact_false a m s :
  wf 8 a -> compact_parts (val a) = (m, s) -> GetCompact a false = Some (m + s * 2 ^ 24).
Proof.
  intros Ha Hp. pose proof (val_bound 8 a Ha) as Hv. change (BITS 8) with 256 in Hv.
  destruct (compact_parts_bound _ _ _ Hv Hp) as [Hm Hs].
  pose proof (mantissa_bound _ Hv) as Hm0. destruct (byte_size_bounds _ Hv) as [Hs0 Hn0].
  unfold compact_parts in Hp. unfold GetCompact. rewrite (bu_bits_spec 8) by done. cbv zeta in *.
  set (s0 := (nbits (val a) + 7) / 8) in *.
  match goal with |- context [if s0 <=? 3 then u32 ?x else u32 ?y] =>
    assert ((if s0 <=? 3 then u32 x else u32 y) =
            (if s0 <=? 3 then val a * 2 ^ (8 * (3 - s0)) else val a / 2 ^ (8 * (s0 - 3)))) as ->
  end.
  { destruct (Z.leb_spec s0 3) as [H3|H3].
    - rewrite (GetLow64_spec 8) by (done || lia).
      assert (val a < 2 ^ 24).
      { eapply Z.lt_le_trans; [apply nbits_bound; lia|]. apply Z.pow_le_mono_r; lia. }
      rewrite (Z.mod_small (val a)), Z.shiftl_mul_pow2 by lia.
      rewrite !wrap_id by (rewrite ?wrap_id; unfold fits; lia). done.
    - destruct (bu_shr_spec 8 a (8 * (s0 - 3)) Ha ltac:(lia)) as [Hw Hval].
      rewrite (GetLow64_spec 8) by (done || lia).
      rewrite Hval, Z.mod_small by lia. apply wrap_id. unfold fits; lia. }
  match type of Hm0 with 0 <= ?x < _ => set (m0 := x) in * end.
  change 0x00800000 with (2 ^ 23). rewrite land_pow2, testbit_top by (simpl Z.add; lia).
  rewrite Z.shiftr_div_pow2 by lia.
  destruct (Z.leb_spec (2 ^ 23) m0); injection Hp as <- <-;
    rewrite land_high_zero by lia; simpl negb; cbn [andb];
    rewrite (proj2 (Z.ltb_lt _ 256)) by lia; simpl negb;
    rewrite Z.shiftl_mul_pow2, wrap_id, Z.lor_0_r, lor_low_high by (unfold fits; lia); done.
Qed.

(** Reading a compact number: fields of the encoding. *)
Lemma compact_fields m s :
  0 <= m < 2 ^ 23 -> 0 <= s ->
  Z.shiftr (m + s * 2 ^ 24) 24 = s /\ Z.land (m + s * 2 ^ 24) 0x007fffff = m /\
  Z.land (m + s * 2 ^ 24) 0x00800000 = 0.
Proof.
  intros Hm Hs. rewrite Z.shiftr_div_pow2 by lia. split_and!.
  - rewrite Z.div_add, Z.div_small by lia. lia.
  - change 0x007fffff with (Z.ones 23). rewrite Z.land_ones by lia.
    replace (m + s * 2 ^ 24) with (m + (2 * s) * 2 ^ 23) by lia.
    rewrite Z.mod_add, Z.mod_small by lia. done.
  - apply Z.eqb_eq, negb_false_iff. change 0x00800000 with (2 ^ 23). rewrite land_pow2 by lia.
    rewrite <- (Z.mod_pow2_bits_low _ 24) by lia. rewrite Z.mod_add, Z.mod_small by lia.
    apply (testbit_high 23); lia.
Qed.

Lemma SetCompact_value c :
  fits 32 c ->
  let s := Z.shiftr c 24 in let m := Z.land c 0x007fffff in
  exists r, SetCompact c =
      (r, negb (compact_expand m s =? 0) && negb (Z.land c 0x00800000 =? 0),
       2 ^ 256 <=? compact_expand m s) /\
    wf 8 r /\ val r = wrap 256 (compact_expand m s).
Proof.
  intros Hc s m. assert (0 <= m < 2 ^ 23).
  { subst m. change 0x007fffff with (Z.ones 23). rewrite Z.land_ones by lia. apply Z.mod_pos_bound; lia. }
  assert (0 <= s < 2 ^ 8).
  { subst s. rewrite Z.shiftr_div_pow2 by lia. unfold fits in Hc.
    split; [apply Z.div_pos; lia|apply Z.div_lt_upper_bound; lia]. }
  unfold SetCompact, compact_expand. fold s m. destruct (Z.leb_spec s 3) as [H3|H3].
  - rewrite Z.shiftr_div_pow2 by lia. set (q := m / 2 ^ (8 * (3 - s))).
    assert (0 <= q < 2 ^ 23).
    { split; [apply Z.div_pos; lia|apply Z.div_lt_upper_bound; [lia|]].
      pose proof (Z.pow_pos_nonneg 2 (8 * (3 - s)) ltac:(lia) ltac:(lia)). nia. }
    exists (bu_of_uint64 8 q). split_and!; [|apply wf_of_uint64; lia|].
    + repeat f_equal. transitivity false; [|symmetry; apply Z.leb_gt; lia].
      rewrite !(proj2 (Z.ltb_ge _ s)), !andb_false_r by lia. done.
    + rewrite val_of_uint64, wrap_id by (unfold fits; lia). done.
  - destruct (bu_shl_spec 8 (bu_of_uint64 8 m) (8 * (s - 3))) as [Hw Hv];
      [apply wf_of_uint64; lia|lia|].
    rewrite val_of_uint64 in Hv by (unfold fits; lia).
    exists (bu_shl (bu_of_uint64 8 m) (8 * (s - 3))). split_and!; [|done|done].
    set (p := 2 ^ (8 * (s - 3))) in *. assert (0 < p) by lia.
    f_equal; [f_equal; f_equal; f_equal|].
    + apply eq_true_iff_eq. rewrite !Z.eqb_eq. nia.
    + apply eq_true_iff_eq. rewrite andb_true_iff, !orb_true_iff, !andb_true_iff, negb_true_iff.
      rewrite !Z.ltb_lt, Z.leb_le, Z.eqb_neq. subst p.
      assert (s <= 32 \/ s = 33 \/ s = 34 \/ 35 <= s) as [|[->|[->|]]] by lia.
      * split; [lia|]. intros Hle. exfalso.
        assert (2 ^ (8 * (s - 3)) <= 2 ^ 232) by (apply Z.pow_le_mono_r; lia). nia.
      * change (8 * (33 - 3)) with 240. lia.
      * change (8 * (34 - 3)) with 248. lia.
      * assert (2 ^ 256 <= 2 ^ (8 * (s - 3))) by (apply Z.pow_le_mono_r; lia). nia.
Qed.

(** Rounding down to a multiple of a power of two keeps the bit length. *)
Lemma nbits_round v j : 0 <= j -> 2 ^ j <= v -> nbits (v / 2 ^ j * 2 ^ j) = nbits v.
Proof.
  intros Hj Hv. assert (0 < 2 ^ j) by lia. unfold nbits.
  assert (1 <= v / 2 ^ j) by (apply Z.div_le_lower_bound; lia).
  destruct (Z.eqb_spec v 0), (Z.eqb_spec (v / 2 ^ j * 2 ^ j) 0); try nia.
  rewrite Z.log2_mul_pow2 by lia. rewrite <- Z.shiftr_div_pow2, Z.log2_shiftr by lia.
  assert (j <= Z.log2 v) by (apply Z.log2_le_pow2; lia). lia.
Qed.

Lemma byte_size_top v :
  let s := (nbits v + 7) / 8 in 0 <= v -> 3 < s -> 2 ^ 16 <= v / 2 ^ (8 * (s - 3)).
Proof.
  intros s Hv H3. subst s.
  pose proof (Z.div_mod (nbits v + 7) 8 ltac:(lia)). pose proof (Z.mod_pos_bound (nbits v + 7) 8 ltac:(lia)).
  apply Z.div_le_lower_bound; [lia|]. rewrite <- Z.pow_add_r by lia.
  destruct (nbits_low v) as [Hl _]; [unfold nbits in *; case_match; lia|].
  etransitivity; [|exact Hl]. apply Z.pow_le_mono_r; lia.
Qed.

(** Rounding down to whole bytes below the mantissa does not change the parts. *)
Lemma compact_parts_round v k :
  0 <= k -> 1 <= v / 2 ^ (8 * k) ->
  let s := (nbits v + 7) / 8 in
  compact_parts (v / 2 ^ (8 * k) * 2 ^ (8 * k)) =
  let m := if s <=? 3 then v / 2 ^ (8 * k) * 2 ^ (8 * k) * 2 ^ (8 * (3 - s))
           else v / 2 ^ (8 * k) * 2 ^ (8 * k) / 2 ^ (8 * (s - 3)) in
  if 2 ^ 23 <=? m then (m / 2 ^ 8, s + 1) else (m, s).
Proof.
  intros Hk H1 s. unfold compact_parts. rewrite nbits_round; [done|lia|].
  assert (0 < 2 ^ (8 * k)) by lia. pose proof (Z.mul_div_le v (2 ^ (8 * k))). nia.
Qed.

(** [compact_expand] after [compact_parts] rounds down to [k] whole bytes, and
    at least 15 leading bits of the mantissa survive. *)
Lemma compact_round v m s :
  0 <= v < 2 ^ 256 -> compact_parts v = (m, s) ->
  exists k, 0 <= k /\ compact_expand m s = v / 2 ^ (8 * k) * 2 ^ (8 * k) /\
  (0 < k -> 2 ^ 15 <= v / 2 ^ (8 * k)) /\
  compact_parts (v / 2 ^ (8 * k) * 2 ^ (8 * k)) = (m, s).
Proof.
  intros Hv Hp. destruct (byte_size_bounds v Hv) as [Hs0 Hn0].
  pose proof (byte_size_top v ltac:(lia)) as Htop.
  assert (Hp' := Hp). unfold compact_parts in Hp. cbv zeta in *.
  set (s0 := (nbits v + 7) / 8) in *.
  assert (Hk0 : compact_expand m s = v ->
    exists k, 0 <= k /\ compact_expand m s = v / 2 ^ (8 * k) * 2 ^ (8 * k) /\
    (0 < k -> 2 ^ 15 <= v / 2 ^ (8 * k)) /\
    compact_parts (v / 2 ^ (8 * k) * 2 ^ (8 * k)) = (m, s)).
  { intros E. exists 0. rewrite Z.mul_0_r, Z.pow_0_r, Z.div_1_r, Z.mul_1_r.
    split_and!; [lia|done|lia|done]. }
  unfold compact_expand in *. destruct (Z.leb_spec s0 3) as [H3|H3].
  - destruct (Z.leb_spec (2 ^ 23) (v * 2 ^ (8 * (3 - s0)))) as [H23|H23]; injection Hp as <- <-.
    + destruct (Z.eq_dec s0 3) as [E3|E3].
      * exists 1. rewrite E3 in *. change (8 * (3 - 3)) with 0 in *. rewrite Z.pow_0_r, Z.mul_1_r in *.
        change (3 + 1 <=? 3) with false. change (8 * (3 + 1 - 3)) with (8 * 1).
        assert (2 ^ 15 <= v / 2 ^ (8 * 1)) by (apply Z.div_le_lower_bound; lia).
        split_and!; [lia|done|done|]. rewrite compact_parts_round by lia. fold s0. rewrite E3.
        change (3 <=? 3) with true. change (8 * (3 - 3)) with 0. rewrite Z.pow_0_r, Z.mul_1_r.
        cbv zeta. rewrite (proj2 (Z.leb_le _ _)) by lia. by rewrite Z.div_mul by lia.
      * apply Hk0. rewrite (proj2 (Z.leb_le (s0 + 1) 3)) by lia.
        rewrite Z.div_div, <- Z.pow_add_r by lia.
        replace (8 + 8 * (3 - (s0 + 1))) with (8 * (3 - s0)) by lia. apply Z.div_mul; lia.
    + apply Hk0. rewrite (proj2 (Z.leb_le s0 3)) by lia. apply Z.div_mul; lia.
  - specialize (Htop H3).
    destruct (Z.leb_spec (2 ^ 23) (v / 2 ^ (8 * (s0 - 3)))) as [H23|H23]; injection Hp as <- <-.
    + assert (Hd : v / 2 ^ (8 * (s0 - 3)) / 2 ^ 8 = v / 2 ^ (8 * (s0 - 2))).
      { rewrite Z.div_div, <- Z.pow_add_r by lia. do 2 f_equal. lia. }
      exists (s0 - 2). rewrite (proj2 (Z.leb_gt (s0 + 1) 3)) by lia.
      replace (s0 + 1 - 3) with (s0 - 2) by lia. rewrite Hd.
      assert (2 ^ 15 <= v / 2 ^ (8 * (s0 - 2))).
      { rewrite <- Hd. apply Z.div_le_lower_bound; lia. }
      split_and!; [lia|done|done|]. rewrite compact_parts_round by lia. fold s0.
      rewrite (proj2 (Z.leb_gt s0 3)) by lia.
      assert (Hq : forall q, q * 2 ^ (8 * (s0 - 2)) / 2 ^ (8 * (s0 - 3)) = q * 2 ^ 8).
      { intros q. replace (8 * (s0 - 2)) with (8 + 8 * (s0 - 3)) by lia.
        rewrite Z.pow_add_r, Z.mul_assoc by lia. apply Z.div_mul; lia. }
      rewrite Hq. cbv zeta. rewrite (proj2 (Z.leb_le _ _)) by lia. by rewrite Z.div_mul by lia.
    + exists (s0 - 3). rewrite (proj2 (Z.leb_gt s0 3)) by lia.
      split_and!; [lia|done|lia|]. rewrite compact_parts_round by lia. fold s0.
      rewrite (proj2 (Z.leb_gt s0 3)) by lia. rewrite Z.div_mul by lia.
      cbv zeta. by rewrite (proj2 (Z.leb_gt _ _)) by lia.
Qed.

(** ** Main theorems *)

Lemma wf_digits8 v : wf 8 (to_digits (2 ^ 32) 8 v).
Proof. split; [apply length_to_digits|apply to_digits_ok; lia]. Qed.

(** The arithmetic operators of [base_uint] are arithmetic modulo [2^BITS]:
    every result is again an object of the type, and [~ - ++ -- += -= *=] (with a
    [base_uint] or a 32-bit factor) compute the number that the C++ name says,
    reduced modulo [2^BITS]; no intermediate 64-bit sum or product overflows. *)
Theorem base_uint_arithmetic W a b b32 :
  wf W a -> wf W b -> fits 32 b32 ->
  (wf W (bu_add a b) /\ val (bu_add a b) = (val a + val b) mod 2 ^ BITS W) /\
  (wf W (bu_sub a b) /\ val (bu_sub a b) = (val a - val b) mod 2 ^ BITS W) /\
  (wf W (bu_mul a b) /\ val (bu_mul a b) = (val a * val b) mod 2 ^ BITS W) /\
  (wf W (bu_mul32 a b32) /\ val (bu_mul32 a b32) = (val a * b32) mod 2 ^ BITS W) /\
  (wf W (bu_neg a) /\ val (bu_neg a) = (- val a) mod 2 ^ BITS W) /\
  (wf W (bu_incr a) /\ val (bu_incr a) = (val a + 1) mod 2 ^ BITS W) /\
  (wf W (bu_decr a) /\ val (bu_decr a) = (val a - 1) mod 2 ^ BITS W) /\
  (wf W (bu_compl a) /\ val (bu_compl a) = 2 ^ BITS W - 1 - val a).
Proof.
  intros Ha Hb H32. split_and!;
    first [by apply bu_add_spec | by apply bu_sub_spec | by apply bu_mul_spec | by apply bu_mul32_spec
          | by apply bu_neg_spec | by apply bu_incr_spec | by apply bu_decr_spec | by apply bu_compl_spec].
Qed.

Lemma base_uint_arithmetic_witness :
  let a := to_digits (2 ^ 32) 8 (2 ^ 255 + 2 ^ 64 - 1) in
  let b := to_digits (2 ^ 32) 8 (2 ^ 255 + 1) in
  val (bu_add a b) = 2 ^ 64 /\ val (bu_mul a b) = (2 ^ 255 + 2 ^ 64 - 1 + 2 ^ 255) mod 2 ^ 256.
Proof.
  intros a b.
  pose proof (base_uint_arithmetic 8 a b 7 (wf_digits8 _) (wf_digits8 _) ltac:(unfold fits; lia))
    as ([_ Ha] & _ & [_ Hm] & _).
  split; [rewrite Ha|rewrite Hm]; vm_compute; reflexivity.
Defined.

(** The shifts multiply and divide by powers of two, for every shift count:
    [<<=] drops what leaves the top of the number, [>>=] rounds down, although
    both loops split the count into whole words and bits and or the two halves
    of each word into a cleared array. *)
Theorem base_uint_shifts W a shift :
  wf W a -> 0 <= shift ->
  (wf W (bu_shl a shift) /\ val (bu_shl a shift) = (val a * 2 ^ shift) mod 2 ^ BITS W) /\
  (wf W (bu_shr a shift) /\ val (bu_shr a shift) = val a / 2 ^ shift).
Proof. intros Ha Hs. split; [by apply bu_shl_spec|by apply bu_shr_spec]. Qed.

Lemma base_uint_shifts_witness :
  val (bu_shl (to_digits (2 ^ 32) 8 (2 ^ 200 + 5)) 77) = 5 * 2 ^ 77.
Proof.
  destruct (base_uint_shifts 8 (to_digits (2 ^ 32) 8 (2 ^ 200 + 5)) 77 (wf_digits8 _) ltac:(lia))
    as [[_ ->] _].
  vm_compute. reflexivity.
Defined.

(** The shift-and-subtract loop of [operator/=] computes the quotient for
    every non-zero divisor, and throws exactly on division by zero. *)
Theorem base_uint_division W a b :
  wf W a -> wf W b ->
  (bu_div a b = None <-> val b = 0) /\
  (val b <> 0 -> exists q, bu_div a b = Some q /\ wf W q /\ val q = val a / val b).
Proof.
  intros Ha Hb. split; [|by apply bu_div_value].
  split; [|by apply (bu_div_zero W)]. intros H. destruct (Z.eq_dec (val b) 0) as [|Hne]; [done|].
  destruct (bu_div_value W a b Ha Hb Hne) as (q & E & _). congruence.
Qed.

Lemma base_uint_division_witness :
  exists q, bu_div (to_digits (2 ^ 32) 8 (2 ^ 256 - 1)) (to_digits (2 ^ 32) 8 1000003) = Some q /\
    wf 8 q /\ val q = val (to_digits (2 ^ 32) 8 (2 ^ 256 - 1)) / val (to_digits (2 ^ 32) 8 1000003).
Proof.
  apply (base_uint_division 8 _ _ (wf_digits8 (2 ^ 256 - 1)) (wf_digits8 1000003)).
  vm_compute. discriminate.
Defined.

(** The comparison operators of [base_uint] order objects like the numbers
    they stand for, and [bits()] is the position of the highest bit plus one. *)
Theorem base_uint_order W a b :
  wf W a -> wf W b ->
  bu_lt a b = (val a <? val b) /\ bu_le a b = (val a <=? val b) /\
  bu_gt a b = (val b <? val a) /\ bu_ge a b = (val b <=? val a) /\
  bu_eq a b = (val a =? val b) /\
  (forall n, 0 <= n -> (bu_bits a <= n <-> val a < 2 ^ n)).
Proof.
  intros Ha Hb. destruct (bu_cmp_spec W a b Ha Hb) as (E1 & E2 & E3 & E4).
  split_and!; [done..|by apply (bu_eq_spec W)|]. intros n Hn. rewrite (bu_bits_spec W) by done.
  pose proof (val_bound W a Ha). split; intros H1.
  - eapply Z.lt_le_trans; [apply nbits_bound; lia|]. apply Z.pow_le_mono_r; lia.
  - apply nbits_le; lia.
Qed.

Lemma base_uint_order_witness :
  bu_lt (to_digits (2 ^ 32) 8 (2 ^ 200)) (to_digits (2 ^ 32) 8 (2 ^ 201 - 1)) = true /\
  (bu_bits (to_digits (2 ^ 32) 8 (2 ^ 200)) <= 201 <-> val (to_digits (2 ^ 32) 8 (2 ^ 200)) < 2 ^ 201).
Proof.
  destruct (base_uint_order 8 _ _ (wf_digits8 (2 ^ 200)) (wf_digits8 (2 ^ 201 - 1)))
    as (E & _ & _ & _ & _ & Hb).
  split; [rewrite E; vm_compute; reflexivity|by apply Hb].
Defined.

(** Hexadecimal text: [SetHex] reads, after blanks and an optional [0x], the
    longest prefix of hex digits as a number modulo [2^BITS], and gives back the
    object that [GetHex] printed. *)
Theorem base_uint_hex W :
  (forall psz, wf W (bu_SetHex W psz) /\
     val (bu_SetHex W psz) =
     hex_value (hex_prefix (skip_0x (skip_spaces psz))) mod 2 ^ BITS W) /\
  (forall a, wf W a -> bu_SetHex W (bu_GetHex a) = a).
Proof. split; [apply bu_SetHex_value|apply SetHex_GetHex]. Qed.

(** [uint256::SetCompact] decodes a target: its value is the mantissa scaled
    by 256^(size - 3) modulo 2^256, [*pfOverflow] tells exactly when that number
    does not fit 256 bits, and [*pfNegative] exactly when the sign bit is set on
    a number that is not zero. *)
Theorem SetCompact_decodes c :
  fits 32 c ->
  exists r neg ovf, SetCompact c = (r, neg, ovf) /\ wf 8 r /\
    let n := compact_expand (Z.land c 0x007fffff) (Z.shiftr c 24) in
    val r = n mod 2 ^ 256 /\ (ovf = true <-> 2 ^ 256 <= n) /\
    (neg = true <-> n <> 0 /\ Z.testbit c 23 = true).
Proof.
  intros Hc. destruct (SetCompact_value c Hc) as (r & E & Hw & Hv). rewrite E.
  do 3 eexists. split; [done|]. split; [done|]. split; [done|]. split; [apply Z.leb_le|].
  change 0x00800000 with (2 ^ 23). rewrite land_pow2 by lia.
  rewrite andb_true_iff, negb_true_iff, Z.eqb_neq. done.
Qed.

Lemma SetCompact_decodes_witness :
  exists r neg ovf, SetCompact 0x1d00ffff = (r, neg, ovf) /\ wf 8 r /\
    let n := compact_expand (Z.land 0x1d00ffff 0x007fffff) (Z.shiftr 0x1d00ffff 24) in
    val r = n mod 2 ^ 256 /\ (ovf = true <-> 2 ^ 256 <= n) /\
    (neg = true <-> n <> 0 /\ Z.testbit 0x1d00ffff 23 = true).
Proof. apply (SetCompact_decodes 0x1d00ffff). unfold fits; lia. Defined.

(** [GetCompact] never fails an assertion, and its 32-bit result decodes to
    a target that is not negative and does not overflow, is at most the number
    encoded, differs from it by a relative error below 2^-15, and encodes to
    the same 32 bits again: compact targets are stable under re-encoding. *)
Theorem GetCompact_roundtrip a :
  wf 8 a ->
  exists c r, GetCompact a false = Some c /\ fits 32 c /\
    SetCompact c = (r, false, false) /\ wf 8 r /\
    val r <= val a /\ (val a - val r) * 2 ^ 15 <= val a /\
    GetCompact r false = Some c.
Proof.
  intros Ha. pose proof (val_bound 8 a Ha) as Hv. change (BITS 8) with 256 in Hv.
  destruct (compact_parts (val a)) as [m s] eqn:Hp.
  destruct (compact_parts_bound _ _ _ Hv Hp) as [Hm Hs].
  destruct (compact_round _ _ _ Hv Hp) as (k & Hk & Hx & Htop & Hp2).
  assert (fits 32 (m + s * 2 ^ 24)) as Hf by (unfold fits; lia).
  destruct (SetCompact_value _ Hf) as (r & Hset & Hw & Hr).
  destruct (compact_fields m s Hm ltac:(lia)) as (E1 & E2 & E3).
  rewrite E1, E2, E3 in *. rewrite Hx in *.
  set (q := val a / 2 ^ (8 * k)) in *. assert (0 < 2 ^ (8 * k)) by lia.
  pose proof (Z.div_mod (val a) (2 ^ (8 * k)) ltac:(lia)) as Hdm. fold q in Hdm.
  pose proof (Z.mod_pos_bound (val a) (2 ^ (8 * k)) ltac:(lia)).
  assert (0 <= q) by (apply Z.div_pos; lia).
  assert (Hvr : val r = q * 2 ^ (8 * k)) by (rewrite Hr; apply wrap_id; unfold fits; nia).
  exists (m + s * 2 ^ 24), r. split_and!.
  - by apply GetCompact_false.
  - done.
  - rewrite Hset. rewrite andb_false_r. do 2 f_equal. apply Z.leb_gt. nia.
  - done.
  - nia.
  - destruct (Z.eq_dec k 0) as [->|Hk0]; [|specialize (Htop ltac:(lia)); nia].
    rewrite Hvr. change (8 * 0) with 0 in *. rewrite Z.pow_0_r in *. nia.
  - apply GetCompact_false; [done|]. by rewrite Hvr.
Qed.

Lemma GetCompact_roundtrip_witness :
  exists c r, GetCompact (to_digits (2 ^ 32) 8 (2 ^ 223 + 12345)) false = Some c /\ fits 32 c /\
    SetCompact c = (r, false, false) /\ wf 8 r /\
    val r <= val (to_digits (2 ^ 32) 8 (2 ^ 223 + 12345)) /\
    (val (to_digits (2 ^ 32) 8 (2 ^ 223 + 12345)) - val r) * 2 ^ 15
      <= val (to_digits (2 ^ 32) 8 (2 ^ 223 + 12345)) /\
    GetCompact r false = Some c.
Proof. apply (GetCompact_roundtrip _ (wf_digits8 (2 ^ 223 + 12345))). Defined.
