(* ===== verification/DataStream.v ===== *)
(** * serialize.h: the byte stream [CDataStream]

    The double-ended buffer that carries every message, block and record.  The
    model keeps the two-part representation of the class (a vector of bytes and
    a read position into it) together with its status bits; the theorems show
    that it behaves as a plain queue of unread bytes. *)
From Stdlib Require Import ZArith Lia Bool.
From stdpp Require Import prelude.
From S2P Require Import Prelude.

(** ** Outcomes

    [Throw] is the C++ exception [std::ios_base::failure] (every throw of the
    serialization code); [Abort] is a failed [assert]; [Diverge] is a loop that
    never ends (see [vec_loop] of Serialize.v, which is the only one that could). *)
Inductive exn : Type := Throw | Abort | Diverge.

Record CDataStream : Type := mkStream {
  vch : list Z;
  nReadPos : Z;
  state : Z;
  exceptmask : Z;
  nType : Z;
  nVersion : Z
}.

Definition M (A : Type) : Type := CDataStream -> (exn + A) * CDataStream.

Definition ret {A} (a : A) : M A := fun s => (inr a, s).
Definition throw {A} : M A := fun s => (inl Throw, s).
Definition bind {A B} (m : M A) (k : A -> M B) : M B :=
  fun s => match m s with
           | (inl e, s') => (inl e, s')
           | (inr a, s') => k a s'
           end.

Declare Scope stream_scope.
Delimit Scope stream_scope with stream.
Notation "x <-- m ;; k" := (bind m (fun x => k))
  (at level 100, m at next level, right associativity) : stream_scope.
Notation "m ;;; k" := (bind m (fun _ => k))
  (at level 100, right associativity) : stream_scope.
#[global] Open Scope stream_scope.

(** [std::ios] status bits of libstdc++. *)
Definition badbit : Z := 1.
Definition failbit : Z := 4.

Definition set_buf (v : list Z) (p : Z) (s : CDataStream) : CDataStream :=
  mkStream v p (state s) (exceptmask s) (nType s) (nVersion s).
Definition set_state (st : Z) (s : CDataStream) : CDataStream :=
  mkStream (vch s) (nReadPos s) st (exceptmask s) (nType s) (nVersion s).

Definition Init (v : list Z) (nTypeIn nVersionIn : Z) : CDataStream :=
  mkStream v 0 0 (Z.lor badbit failbit) nTypeIn nVersionIn.

Definition vsize (s : CDataStream) : Z := Z.of_nat (length (vch s)).

(** ** Vector subset *)

Definition ds_size (s : CDataStream) : Z := vsize s - nReadPos s.
Definition ds_empty (s : CDataStream) : bool := vsize s =? nReadPos s.
Definition ds_clear (s : CDataStream) : CDataStream := set_buf [] 0 s.

(** The bytes between [begin()] and [end()]. *)
Definition unread (s : CDataStream) : list Z := drop (Z.to_nat (nReadPos s)) (vch s).

Definition ds_append (a b : CDataStream) : CDataStream :=
  set_buf (vch a ++ unread b) (nReadPos a) a.

(** [vch.resize(n + nReadPos, c)] *)
Definition ds_resize (n c : Z) (s : CDataStream) : CDataStream :=
  let m := Z.to_nat (n + nReadPos s) in
  set_buf (take m (vch s) ++ replicate (m - length (vch s)) c) (nReadPos s) s.

(** [vch.insert(it, first, last)], [it] an index into [vch]. *)
Definition vec_insert (v : list Z) (it : Z) (l : list Z) : list Z :=
  take (Z.to_nat it) v ++ l ++ drop (Z.to_nat it) v.

(** [memcpy(&vch[p], l)] over existing elements. *)
Definition overwrite (v : list Z) (p : Z) (l : list Z) : list Z :=
  take (Z.to_nat p) v ++ l ++ drop (Z.to_nat p + length l) v.

Definition ds_insert (it : Z) (l : list Z) (s : CDataStream) : CDataStream :=
  let n := Z.of_nat (length l) in
  if (it =? nReadPos s) && (u32 n <=? nReadPos s)
  then let p := u32 (nReadPos s - n) in set_buf (overwrite (vch s) p l) p s
  else set_buf (vec_insert (vch s) it l) (nReadPos s) s.

(** [vch.erase(first, last)] by index. *)
Definition vec_erase (v : list Z) (first last : Z) : list Z :=
  take (Z.to_nat first) v ++ drop (Z.to_nat last) v.

Definition ds_erase1 (it : Z) (s : CDataStream) : CDataStream :=
  if it =? nReadPos s then
    let p := u32 (nReadPos s + 1) in
    if vsize s <=? p then set_buf [] 0 s else set_buf (vch s) p s
  else set_buf (vec_erase (vch s) it (it + 1)) (nReadPos s) s.

Definition ds_erase (first last : Z) (s : CDataStream) : CDataStream :=
  if first =? nReadPos s then
    if last =? vsize s then set_buf [] 0 s else set_buf (vch s) last s
  else set_buf (vec_erase (vch s) first last) (nReadPos s) s.

Definition ds_Compact (s : CDataStream) : CDataStream :=
  set_buf (drop (Z.to_nat (nReadPos s)) (vch s)) 0 s.

Definition ds_Rewind (n : Z) (s : CDataStream) : bool * CDataStream :=
  if nReadPos s <? n then (false, s) else (true, set_buf (vch s) (nReadPos s - n) s).

(** ** Stream subset *)

Definition setstate (bits : Z) : M unit := fun s =>
  let s' := set_state (Z.lor (state s) bits) s in
  if negb (Z.land (state s') (exceptmask s') =? 0) then (inl Throw, s') else (inr tt, s').

Definition ds_eof (s : CDataStream) : bool := ds_size s =? 0.
Definition ds_fail (s : CDataStream) : bool :=
  negb (Z.land (state s) (Z.lor badbit failbit) =? 0).
Definition ds_good (s : CDataStream) : bool := negb (ds_eof s) && (state s =? 0).

(** [n] bytes of the buffer from the read position. *)
Definition copy_out (n : Z) (s : CDataStream) : list Z :=
  take (Z.to_nat n) (drop (Z.to_nat (nReadPos s)) (vch s)).

(** The result is what [pch] points to on return. *)
Definition read (nSize : Z) : M (list Z) := fun s =>
  if nSize <? 0 then (inl Abort, s)
  else
    let nReadPosNext := u32 (nReadPos s + nSize) in
    if vsize s <=? nReadPosNext then
      if vsize s <? nReadPosNext then
        match setstate failbit s with
        | (inl e, s') => (inl e, s')
        | (inr _, s') =>
            let n := vsize s - nReadPos s in
            (inr (copy_out n s' ++ replicate (Z.to_nat (nSize - n)) 0), set_buf [] 0 s')
        end
      else (inr (copy_out nSize s), set_buf [] 0 s)
    else (inr (copy_out nSize s), set_buf (vch s) nReadPosNext s).

Definition ignore (nSize : Z) : M unit := fun s =>
  if nSize <? 0 then (inl Abort, s)
  else
    let nReadPosNext := u32 (nReadPos s + nSize) in
    if vsize s <=? nReadPosNext then
      if vsize s <? nReadPosNext then
        match setstate failbit s with
        | (inl e, s') => (inl e, s')
        | (inr _, s') => (inr tt, set_buf [] 0 s')
        end
      else (inr tt, set_buf [] 0 s)
    else (inr tt, set_buf (vch s) nReadPosNext s).

Definition write (pch : list Z) : M unit := fun s =>
  (inr tt, set_buf (vch s ++ pch) (nReadPos s) s).

(** ** The queue of unread bytes

    [stream_ok] is the invariant of a stream in use: the read position is
    inside the buffer, the buffer holds bytes and is small enough for the
    32-bit position, and failures throw. *)
Definition stream_ok (s : CDataStream) : Prop :=
  0 <= nReadPos s <= vsize s /\ vsize s < 2 ^ 31 /\ digits 256 (vch s) /\
  Z.testbit (exceptmask s) 2 = true.

(** [s'] is [s] with the queue [q]; type, version and mask are unchanged. *)
Definition stream_is (s' s : CDataStream) (q : list Z) : Prop :=
  stream_ok s' /\ unread s' = q /\
  exceptmask s' = exceptmask s /\ nType s' = nType s /\ nVersion s' = nVersion s.

Lemma unread_length s : stream_ok s -> Z.of_nat (length (unread s)) = ds_size s.
Proof. intros (H & _). unfold unread, ds_size, vsize in *. rewrite length_drop. lia. Qed.

Lemma unread_ok s : stream_ok s -> digits 256 (unread s).
Proof. intros (_ & _ & H & _). by apply Forall_drop. Qed.

Lemma copy_out_unread n s : copy_out n s = take (Z.to_nat n) (unread s).
Proof. done. Qed.

Lemma stream_is_empty s : stream_ok s -> stream_is (set_buf [] 0 s) s [].
Proof.
  intros (Hp & Hv & Hd & He). unfold stream_is, stream_ok, set_buf, vsize, unread; simpl.
  split_and!; try done. constructor.
Qed.

Lemma stream_is_advance n s :
  stream_ok s -> 0 <= n <= ds_size s ->
  stream_is (set_buf (vch s) (nReadPos s + n) s) s (drop (Z.to_nat n) (unread s)).
Proof.
  intros (Hp & Hv & Hd & He) Hn. unfold ds_size in Hn.
  unfold stream_is, stream_ok, set_buf, vsize, unread in *; simpl. split_and!; try done; [lia..|].
  rewrite drop_drop. f_equal. lia.
Qed.

Lemma setstate_throws s :
  Z.testbit (exceptmask s) 2 = true -> setstate failbit s = (inl Throw, set_state (Z.lor (state s) failbit) s).
Proof.
  intros He. unfold setstate. simpl.
  destruct (Z.eqb_spec (Z.land (Z.lor (state s) failbit) (exceptmask s)) 0) as [E|E]; [|done].
  exfalso. assert (Z.testbit (Z.land (Z.lor (state s) failbit) (exceptmask s)) 2 = false) by by rewrite E.
  rewrite Z.land_spec, Z.lor_spec, He in H. change (Z.testbit failbit 2) with true in H.
  by rewrite orb_true_r in H.
Qed.

(** Reading [n] bytes that are there. *)
Lemma read_ok n s :
  stream_ok s -> 0 <= n <= ds_size s ->
  exists s', read n s = (inr (take (Z.to_nat n) (unread s)), s') /\
    stream_is s' s (drop (Z.to_nat n) (unread s)).
Proof.
  intros Hs Hn. assert (Hs' := Hs). destruct Hs as (Hp & Hv & Hd & He). unfold ds_size in Hn.
  unfold read. destruct (Z.ltb_spec n 0); [lia|]. rewrite wrap_id by (unfold fits; lia).
  destruct (Z.leb_spec (vsize s) (nReadPos s + n)) as [H1|H1].
  - destruct (Z.ltb_spec (vsize s) (nReadPos s + n)); [lia|].
    eexists; split; [done|]. rewrite drop_ge; [by apply stream_is_empty|].
    pose proof (unread_length s Hs') as Hl. unfold ds_size in Hl. lia.
  - eexists; split; [done|]. apply stream_is_advance; [done|unfold ds_size; lia].
Qed.

(** Reading past the end throws and leaves the buffer alone. *)
Lemma read_short n s :
  stream_ok s -> ds_size s < n < 2 ^ 31 ->
  read n s = (inl Throw, set_state (Z.lor (state s) failbit) s).
Proof.
  intros (Hp & Hv & Hd & He) Hn. unfold ds_size in Hn. unfold read.
  destruct (Z.ltb_spec n 0); [lia|]. rewrite wrap_id by (unfold fits; lia).
  destruct (Z.leb_spec (vsize s) (nReadPos s + n)); [|lia].
  destruct (Z.ltb_spec (vsize s) (nReadPos s + n)); [|lia].
  by rewrite setstate_throws.
Qed.

Lemma read_exact s l rest :
  stream_ok s -> unread s = l ++ rest ->
  exists s', read (Z.of_nat (length l)) s = (inr l, s') /\ stream_is s' s rest.
Proof.
  intros Hs Hu. destruct (read_ok (Z.of_nat (length l)) s Hs) as (s' & E & H).
  - rewrite <- unread_length, Hu, length_app by done. lia.
  - exists s'. rewrite Hu, Nat2Z.id, take_app_length, drop_app_length in *. done.
Qed.

Lemma set_state_ok st s : stream_ok s -> stream_is (set_state st s) s (unread s).
Proof. intros H. unfold stream_is, stream_ok, vsize, unread in *; simpl. done. Qed.

Lemma stream_is_ok s' s q : stream_is s' s q -> stream_ok s'.
Proof. by intros []. Qed.

Lemma stream_is_trans s1 s2 s3 q2 q3 :
  stream_is s2 s1 q2 -> stream_is s3 s2 q3 -> stream_is s3 s1 q3.
Proof. intros (? & ? & ? & ? & ?) (? & ? & ? & ? & ?). split_and!; congruence. Qed.

Lemma stream_is_refl s : stream_ok s -> stream_is s s (unread s).
Proof. done. Qed.

#[export] Hint Resolve stream_is_ok stream_is_refl unread_ok : cloak.

Lemma write_ok l s :
  stream_ok s -> digits 256 l -> vsize s + Z.of_nat (length l) < 2 ^ 31 ->
  exists s', write l s = (inr tt, s') /\ stream_is s' s (unread s ++ l).
Proof.
  intros (Hp & Hv & Hd & He) Hl Hn. eexists; split; [done|].
  unfold stream_is, stream_ok, set_buf, unread in *; simpl. unfold vsize in *; simpl.
  rewrite length_app. split_and!; try done; [lia..|by apply Forall_app|].
  apply drop_app_le. lia.
Qed.

(** The special case of [insert] at the front is an insertion. *)
Lemma insert_front l s :
  stream_ok s -> digits 256 l -> vsize s + Z.of_nat (length l) < 2 ^ 31 ->
  stream_is (ds_insert (nReadPos s) l s) s (l ++ unread s).
Proof.
  intros (Hp & Hv & Hd & He) Hl Hn. unfold ds_insert. rewrite Z.eqb_refl. simpl.
  rewrite wrap_id by (unfold fits; lia).
  destruct (Z.leb_spec (Z.of_nat (length l)) (nReadPos s)) as [Hle|Hgt].
  - rewrite wrap_id by (unfold fits; lia).
    unfold stream_is, stream_ok, unread, set_buf, vsize, overwrite in *; simpl.
    rewrite !length_app, length_take, length_drop.
    split_and!; try done; [lia..| |].
    + apply Forall_app; split; [by apply Forall_take|]. apply Forall_app; split; [done|by apply Forall_drop].
    + rewrite drop_app_length' by (rewrite length_take; lia). do 2 f_equal. lia.
  - unfold stream_is, stream_ok, unread, set_buf, vsize, vec_insert in *; simpl.
    rewrite !length_app, length_take, length_drop.
    split_and!; try done; [lia..| |].
    + apply Forall_app; split; [by apply Forall_take|]. apply Forall_app; split; [done|by apply Forall_drop].
    + by rewrite drop_app_length' by (rewrite length_take; lia).
Qed.

Lemma erase_front s x q :
  stream_ok s -> unread s = x :: q ->
  stream_is (ds_erase1 (nReadPos s) s) s q.
Proof.
  intros Hs Hu. pose proof (unread_length s Hs) as Hl. rewrite Hu in Hl. unfold ds_size in Hl. simpl in Hl.
  assert (Hs' := Hs). destruct Hs' as (Hp & Hv & _). unfold ds_erase1. rewrite Z.eqb_refl.
  rewrite wrap_id by (unfold fits; lia). destruct (Z.leb_spec (vsize s) (nReadPos s + 1)).
  - destruct q; [by apply stream_is_empty|simpl in Hl; lia].
  - replace q with (drop (Z.to_nat 1) (unread s)) by by rewrite Hu.
    apply stream_is_advance; [done|unfold ds_size; lia].
Qed.

Lemma erase_range_front s n :
  stream_ok s -> 0 <= n <= ds_size s ->
  stream_is (ds_erase (nReadPos s) (nReadPos s + n) s) s (drop (Z.to_nat n) (unread s)).
Proof.
  intros Hs Hn. unfold ds_erase. rewrite Z.eqb_refl.
  destruct (Z.eqb_spec (nReadPos s + n) (vsize s)).
  - rewrite drop_ge; [by apply stream_is_empty|].
    pose proof (unread_length s Hs) as Hl. unfold ds_size in *. lia.
  - by apply stream_is_advance.
Qed.

Lemma rewind_ok s n :
  stream_ok s -> 0 <= n ->
  match ds_Rewind n s with
  | (true, s') => exists l, Z.of_nat (length l) = n /\ stream_is s' s (l ++ unread s)
  | (false, s') => s' = s /\ nReadPos s < n
  end.
Proof.
  intros (Hp & Hv & Hd & He) Hn. unfold ds_Rewind. destruct (Z.ltb_spec (nReadPos s) n); [done|].
  exists (take (Z.to_nat n) (drop (Z.to_nat (nReadPos s - n)) (vch s))).
  unfold vsize in *. split; [rewrite length_take, length_drop; lia|].
  unfold stream_is, stream_ok, unread, set_buf, vsize; simpl. split_and!; try done; [lia..|].
  rewrite <- (take_drop (Z.to_nat n) (drop (Z.to_nat (nReadPos s - n)) (vch s))) at 1.
  rewrite drop_drop. do 2 f_equal. lia.
Qed.

Lemma compact_ok s : stream_ok s -> stream_is (ds_Compact s) s (unread s) /\ nReadPos (ds_Compact s) = 0.
Proof.
  intros (Hp & Hv & Hd & He). split; [|done].
  unfold stream_is, stream_ok, ds_Compact, unread, set_buf, vsize in *; simpl.
  rewrite length_drop. split_and!; try done; [lia..|by apply Forall_drop].
Qed.

(** [CDataStream] is a queue of bytes.  Whatever the internal buffer and
    read position are, writing appends to the unread bytes, reading and
    [ignore] take them from the front, a read of more than is left throws and
    loses nothing, the in-place special cases of [insert] and [erase] at the
    front have the effect of the plain vector operations, [Compact] does not
    change the content and [Rewind] gives consumed bytes back. *)
Theorem CDataStream_is_queue s l n :
  stream_ok s -> digits 256 l -> vsize s + Z.of_nat (length l) < 2 ^ 31 -> 0 <= n < 2 ^ 31 ->
  (exists s', write l s = (inr tt, s') /\ stream_is s' s (unread s ++ l)) /\
  (n <= ds_size s -> exists s', read n s = (inr (take (Z.to_nat n) (unread s)), s') /\
      stream_is s' s (drop (Z.to_nat n) (unread s))) /\
  (ds_size s < n -> exists s', read n s = (inl Throw, s') /\ stream_is s' s (unread s) /\ ds_fail s' = true) /\
  stream_is (ds_insert (nReadPos s) l s) s (l ++ unread s) /\
  (n <= ds_size s ->
     stream_is (ds_erase (nReadPos s) (nReadPos s + n) s) s (drop (Z.to_nat n) (unread s))) /\
  stream_is (ds_Compact s) s (unread s) /\
  match ds_Rewind n s with
  | (true, s') => exists l', Z.of_nat (length l') = n /\ stream_is s' s (l' ++ unread s)
  | (false, s') => s' = s /\ nReadPos s < n
  end.
Proof.
  intros Hs Hl Hlen Hn. split_and!.
  - by apply write_ok.
  - intros. apply read_ok; [done|lia].
  - intros. eexists. split; [apply read_short; [done|lia]|]. split; [by apply set_state_ok|].
    unfold ds_fail. simpl. apply negb_true_iff, Z.eqb_neq. intros E.
    assert (Z.testbit (Z.land (Z.lor (state s) failbit) (Z.lor badbit failbit)) 2 = false) by by rewrite E.
    rewrite Z.land_spec, Z.lor_spec in H0. change (Z.testbit failbit 2) with true in H0.
    by rewrite orb_true_r in H0.
  - by apply insert_front.
  - intros. apply erase_range_front; [done|lia].
  - exact (proj1 (compact_ok s Hs)).
  - apply rewind_ok; [done|lia].
Qed.

Lemma CDataStream_is_queue_witness :
  let s := mkStream [7; 8; 9; 10] 1 0 5 1 60000 in
  exists s', read 2 s = (inr [8; 9], s') /\ stream_is s' s [10].
Proof.
  intros s.
  assert (stream_ok s) as Hs.
  { unfold stream_ok, s, vsize, digits; simpl.
    split_and!; try lia; try done; repeat constructor; lia. }
  destruct (CDataStream_is_queue s [1] 2 Hs) as (_ & Hread & _).
  - repeat constructor; lia.
  - vm_compute; reflexivity.
  - lia.
  - apply Hread. vm_compute. discriminate.
Defined.
