(* ===== verification/Serialize.v ===== *)
(** * serialize.h: the serialization templates

    A C++ type with its three overloads [GetSerializeSize], [Serialize] and
    [Unserialize] is a record [Ser T].  What [Serialize] writes to its stream is
    the list of bytes it passes to [write] (the templates use a stream in no
    other way); [Unserialize] reads from a [CDataStream] and may throw.
    [ser_correct wf c] is the contract a component that stores or sends values
    relies on: sizes are exact, and what was written is read back. *)
From Stdlib Require Import ZArith Lia Bool Sorted.
From stdpp Require Import prelude.
From S2P Require Import Prelude DataStream.

Definition MAX_SIZE : Z := 0x02000000.

Record Ser (T : Type) : Type := mkSer {
  GetSerializeSize : Z -> Z -> T -> Z;
  Serialize : Z -> Z -> T -> list Z;
  Unserialize : Z -> Z -> M T
}.
Arguments mkSer {T} _ _ _.
Arguments GetSerializeSize {T} _ _ _ _.
Arguments Serialize {T} _ _ _ _.
Arguments Unserialize {T} _ _ _.

(** ** Basic types: [WRITEDATA] and [READDATA] of [sizeof(obj) = n] bytes *)

Definition ser_uint (n : nat) : Ser Z :=
  mkSer (fun _ _ _ => Z.of_nat n)
        (fun _ _ a => to_digits 256 n a)
        (fun _ _ => l <-- read (Z.of_nat n) ;; ret (of_digits 256 l)).

(** A signed integer travels as its two's complement. *)
Definition ser_int (n : nat) : Ser Z :=
  mkSer (fun _ _ _ => Z.of_nat n)
        (fun _ _ a => to_digits 256 n (wrap (8 * Z.of_nat n) a))
        (fun _ _ => l <-- read (Z.of_nat n) ;; ret (swrap (8 * Z.of_nat n) (of_digits 256 l))).

(** [char f=a; WRITEDATA(s, f)] and [char f; READDATA(s, f); a=f] *)
Definition ser_bool : Ser bool :=
  mkSer (fun _ _ _ => 1)
        (fun _ _ (a : bool) => [if a then 1 else 0])
        (fun _ _ => l <-- read 1 ;; ret (negb (of_digits 256 l =? 0))).

(** [CFlatData] over an object of [n] bytes. *)
Definition ser_flat (n : nat) : Ser (list Z) :=
  mkSer (fun _ _ _ => Z.of_nat n) (fun _ _ a => a) (fun _ _ => read (Z.of_nat n)).

(** ** Compact size *)

Definition GetSizeOfCompactSize (nSize : Z) : Z :=
  if nSize <? 253 then 1
  else if nSize <=? 0xffff then 1 + 2
  else if nSize <=? 0xffffffff then 1 + 4
  else 1 + 8.

Definition WriteCompactSize (nSize : Z) : list Z :=
  if nSize <? 253 then [nSize]
  else if nSize <=? 0xffff then 253 :: to_digits 256 2 nSize
  else if nSize <=? 0xffffffff then 254 :: to_digits 256 4 nSize
  else 255 :: to_digits 256 8 nSize.

Definition ReadCompactSize : M Z :=
  chSize <-- Unserialize (ser_uint 1) 0 0 ;;
  nSizeRet <-- (if chSize <? 253 then ret chSize
                else if chSize =? 253 then Unserialize (ser_uint 2) 0 0
                else if chSize =? 254 then Unserialize (ser_uint 4) 0 0
                else Unserialize (ser_uint 8) 0 0) ;;
  if MAX_SIZE <? nSizeRet then throw else ret nSizeRet.

(** ** Strings and vectors *)

Definition len {A} (l : list A) : Z := Z.of_nat (length l).

Definition ser_string : Ser (list Z) :=
  mkSer (fun _ _ str => u32 (GetSizeOfCompactSize (len str) + len str * 1))
        (fun _ _ str => WriteCompactSize (len str) ++ str)
        (fun _ _ =>
           nSize <-- ReadCompactSize ;;
           if negb (nSize =? 0) then read nSize else ret []).

(** [Unserialize_impl] for [vector<unsigned char>] ([is_fundamental], so the
    elements are read in blocks); at most [nSize] iterations. *)
Fixpoint blk_loop (fuel : nat) (i nSize : Z) (v : list Z) : M (list Z) :=
  if i <? nSize then
    match fuel with
    | O => fun s => (inl Diverge, s)
    | S fuel =>
        let blk := Z.min (nSize - i) (1 + 4999999 / 1) in
        l <-- read (blk * 1) ;;
        blk_loop fuel (i + blk) nSize (v ++ l)
    end
  else ret v.

Definition ser_bytes : Ser (list Z) :=
  mkSer (fun _ _ v => u32 (GetSizeOfCompactSize (len v) + len v * 1))
        (fun _ _ v => WriteCompactSize (len v) ++ v)
        (fun _ _ =>
           nSize <-- ReadCompactSize ;;
           blk_loop (Z.to_nat nSize) 0 nSize []).

Fixpoint unser_elems {T} (c : Ser T) (ty ver : Z) (n : nat) : M (list T) :=
  match n with
  | O => ret []
  | S n => x <-- Unserialize c ty ver ;; xs <-- unser_elems c ty ver n ;; ret (x :: xs)
  end.

(** [Unserialize_impl] for a vector of objects of [sizeof(T) = sz] bytes in
    memory: the vector grows [5000000 / sz] elements at a time. *)
Fixpoint vec_loop {T} (c : Ser T) (sz ty ver : Z) (fuel : nat) (nMid nSize : Z) (v : list T)
  : M (list T) :=
  if nMid <? nSize then
    match fuel with
    | O => fun s => (inl Diverge, s)
    | S fuel =>
        let nMid' := u32 (nMid + 5000000 / sz) in
        let nMid' := if nSize <? nMid' then nSize else nMid' in
        l <-- unser_elems c ty ver (Z.to_nat (nMid' - nMid)) ;;
        vec_loop c sz ty ver fuel nMid' nSize (v ++ l)
    end
  else ret v.

Definition ser_vector {T} (sz : Z) (c : Ser T) : Ser (list T) :=
  mkSer (fun ty ver v =>
           fold_left (fun nSize x => u32 (nSize + GetSerializeSize c ty ver x)) v
             (GetSizeOfCompactSize (len v)))
        (fun ty ver v => WriteCompactSize (len v) ++ concat (map (Serialize c ty ver) v))
        (fun ty ver =>
           nSize <-- ReadCompactSize ;;
           vec_loop c sz ty ver (Z.to_nat nSize) 0 nSize []).

(** ** Pairs and tuples *)

Definition ser_pair {K T} (ck : Ser K) (ct : Ser T) : Ser (K * T) :=
  mkSer (fun ty ver '(k, t) => u32 (GetSerializeSize ck ty ver k + GetSerializeSize ct ty ver t))
        (fun ty ver '(k, t) => Serialize ck ty ver k ++ Serialize ct ty ver t)
        (fun ty ver => k <-- Unserialize ck ty ver ;; t <-- Unserialize ct ty ver ;; ret (k, t)).

Definition ser_tuple3 {A B C} (ca : Ser A) (cb : Ser B) (cc : Ser C) : Ser (A * B * C) :=
  mkSer (fun ty ver '(a, b, c) =>
           u32 (u32 (GetSerializeSize ca ty ver a + GetSerializeSize cb ty ver b)
                + GetSerializeSize cc ty ver c))
        (fun ty ver '(a, b, c) =>
           Serialize ca ty ver a ++ Serialize cb ty ver b ++ Serialize cc ty ver c)
        (fun ty ver =>
           a <-- Unserialize ca ty ver ;; b <-- Unserialize cb ty ver ;;
           c <-- Unserialize cc ty ver ;; ret (a, b, c)).

Definition ser_tuple4 {A B C D} (ca : Ser A) (cb : Ser B) (cc : Ser C) (cd : Ser D)
  : Ser (A * B * C * D) :=
  mkSer (fun ty ver '(a, b, c, d) =>
           u32 (u32 (u32 (GetSerializeSize ca ty ver a + GetSerializeSize cb ty ver b)
                + GetSerializeSize cc ty ver c) + GetSerializeSize cd ty ver d))
        (fun ty ver '(a, b, c, d) =>
           Serialize ca ty ver a ++ Serialize cb ty ver b ++ Serialize cc ty ver c
           ++ Serialize cd ty ver d)
        (fun ty ver =>
           a <-- Unserialize ca ty ver ;; b <-- Unserialize cb ty ver ;;
           c <-- Unserialize cc ty ver ;; d <-- Unserialize cd ty ver ;; ret (a, b, c, d)).

(** ** Ordered maps and sets

    [std::map<K, T>] is the list of its pairs in the order of the keys;
    [ltb] is its [Pred].  [insert(hint, item)] inserts unless the key is there. *)
Section ordered.
Context {K T : Type} (ltb : K -> K -> bool).

Fixpoint map_insert (k : K) (t : T) (m : list (K * T)) : list (K * T) :=
  match m with
  | [] => [(k, t)]
  | (k', t') :: m' =>
      if ltb k k' then (k, t) :: m
      else if ltb k' k then (k', t') :: map_insert k t m'
      else m
  end.

Fixpoint set_insert (k : K) (m : list K) : list K :=
  match m with
  | [] => [k]
  | k' :: m' => if ltb k k' then k :: m else if ltb k' k then k' :: set_insert k m' else m
  end.

Definition ser_map (ck : Ser K) (ct : Ser T) : Ser (list (K * T)) :=
  mkSer (fun ty ver m =>
           fold_left (fun nSize x => u32 (nSize + GetSerializeSize (ser_pair ck ct) ty ver x)) m
             (GetSizeOfCompactSize (len m)))
        (fun ty ver m =>
           WriteCompactSize (len m) ++ concat (map (Serialize (ser_pair ck ct) ty ver) m))
        (fun ty ver =>
           nSize <-- ReadCompactSize ;;
           items <-- unser_elems (ser_pair ck ct) ty ver (Z.to_nat nSize) ;;
           ret (fold_left (fun m '(k, t) => map_insert k t m) items [])).

Definition ser_set (ck : Ser K) : Ser (list K) :=
  mkSer (fun ty ver m =>
           fold_left (fun nSize x => u32 (nSize + GetSerializeSize ck ty ver x)) m
             (GetSizeOfCompactSize (len m)))
        (fun ty ver m => WriteCompactSize (len m) ++ concat (map (Serialize ck ty ver) m))
        (fun ty ver =>
           nSize <-- ReadCompactSize ;;
           keys <-- unser_elems ck ty ver (Z.to_nat nSize) ;;
           ret (fold_left (fun m k => set_insert k m) keys [])).
End ordered.

(** ** Structures

    [IMPLEMENT_SERIALIZE(READWRITE(a); READWRITE(b); ...)] runs the three
    actions over the members in order: the tuple serializer of the members,
    carried over to the structure. *)
Definition ser_struct {A B} (fields : A -> B) (build : B -> A) (c : Ser B) : Ser A :=
  mkSer (fun ty ver a => GetSerializeSize c ty ver (fields a))
        (fun ty ver a => Serialize c ty ver (fields a))
        (fun ty ver => b <-- Unserialize c ty ver ;; ret (build b)).

(** ** Reading back *)

(** [m] consumes exactly the bytes [l] and yields [x]. *)
Definition reads {A} (m : M A) (l : list Z) (x : A) : Prop :=
  forall s rest, stream_ok s -> unread s = l ++ rest ->
  exists s', m s = (inr x, s') /\ stream_is s' s rest.

(** On any stream [m] either yields a value that satisfies [P] or throws. *)
Definition safe {A} (m : M A) (P : A -> Prop) : Prop :=
  forall s, stream_ok s ->
  match m s with
  | (inr a, s') => stream_ok s' /\ P a
  | (inl Throw, s') => stream_ok s'
  | (inl _, _) => False
  end.

Lemma reads_ret {A} (x : A) : reads (ret x) [] x.
Proof. intros s rest Hs Hu. exists s. split; [done|]. simpl in Hu. rewrite <- Hu. by apply stream_is_refl. Qed.

Lemma reads_bind {A B} (m : M A) (k : A -> M B) l1 l2 x y :
  reads m l1 x -> reads (k x) l2 y -> reads (bind m k) (l1 ++ l2) y.
Proof.
  intros Hm Hk s rest Hs Hu. rewrite <- app_assoc in Hu.
  destruct (Hm s _ Hs Hu) as (s1 & E1 & H1). assert (H1' := H1). destruct H1' as (Hs1 & Hu1 & _).
  destruct (Hk s1 _ Hs1 Hu1) as (s2 & E2 & H2). exists s2. unfold bind. rewrite E1.
  split; [done|]. by eapply stream_is_trans.
Qed.

Lemma reads_bind_nil {A B} (m : M A) (k : A -> M B) l x y :
  reads m l x -> reads (k x) [] y -> reads (bind m k) l y.
Proof. intros. rewrite <- (app_nil_r l). by eapply reads_bind. Qed.

Lemma reads_read n l : n = len l -> reads (read n) l l.
Proof. intros ->. intros s rest Hs Hu. by apply read_exact. Qed.

Lemma safe_ret {A} (x : A) (P : A -> Prop) : P x -> safe (ret x) P.
Proof. intros Hx s Hs. done. Qed.

Lemma safe_throw {A} (P : A -> Prop) : safe throw P.
Proof. intros s Hs. done. Qed.

Lemma safe_bind {A B} (m : M A) (k : A -> M B) (P : A -> Prop) (Q : B -> Prop) :
  safe m P -> (forall a, P a -> safe (k a) Q) -> safe (bind m k) Q.
Proof.
  intros Hm Hk s Hs. unfold bind. specialize (Hm s Hs).
  destruct (m s) as [[[]|a] s1]; try done. destruct Hm as [Hs1 Ha]. by apply (Hk a Ha s1).
Qed.

Lemma safe_weaken {A} (m : M A) (P Q : A -> Prop) :
  safe m P -> (forall a, P a -> Q a) -> safe m Q.
Proof.
  intros Hm HPQ s Hs. specialize (Hm s Hs). destruct (m s) as [[[]|a] s1]; try done.
  destruct Hm as [? Ha]. split; [done|by apply HPQ].
Qed.

Lemma safe_read n : 0 <= n < 2 ^ 31 -> safe (read n) (fun l => digits 256 l /\ len l = n).
Proof.
  intros Hn s Hs. destruct (Z.lt_ge_cases (ds_size s) n) as [Hlt|Hge].
  - rewrite read_short by (done || lia). by apply set_state_ok.
  - destruct (read_ok n s Hs ltac:(lia)) as (s' & -> & H). split; [by eapply stream_is_ok|].
    split; [apply Forall_take, unread_ok, Hs|].
    unfold len. rewrite length_take. pose proof (unread_length s Hs). lia.
Qed.

#[export] Hint Resolve reads_ret safe_ret safe_throw : cloak.

(** ** The contract of a serializer *)

Record ser_correct {T} (wf : T -> Prop) (c : Ser T) : Prop := {
  sc_bytes : forall ty ver x, wf x -> digits 256 (Serialize c ty ver x);
  sc_size : forall ty ver x, wf x ->
    GetSerializeSize c ty ver x = u32 (len (Serialize c ty ver x));
  sc_read : forall ty ver x, wf x -> reads (Unserialize c ty ver) (Serialize c ty ver x) x;
  sc_safe : forall ty ver, safe (Unserialize c ty ver) wf
}.

(** What is written determines the value, also with something after it. *)
Lemma ser_inj_app {T} (wf : T -> Prop) (c : Ser T) ty ver x y r r' :
  ser_correct wf c -> wf x -> wf y -> digits 256 r -> Z.of_nat (length (Serialize c ty ver x ++ r)) < 2 ^ 31 ->
  Serialize c ty ver x ++ r = Serialize c ty ver y ++ r' -> x = y /\ r = r'.
Proof.
  intros Hc Hx Hy Hr Hl E. set (s := Init (Serialize c ty ver x ++ r) 0 0).
  assert (Hs : stream_ok s).
  { unfold stream_ok, s, Init, vsize; cbn [nReadPos vch exceptmask]. split_and!; try (done || lia).
    apply Forall_app. split; [by apply (sc_bytes _ _ Hc)|done]. }
  destruct (sc_read _ _ Hc ty ver x Hx s r Hs) as (s1 & E1 & (_ & U1 & _)); [done|].
  destruct (sc_read _ _ Hc ty ver y Hy s r' Hs) as (s2 & E2 & (_ & U2 & _)); [exact E|].
  rewrite E1 in E2. injection E2 as <- <-. split; congruence.
Qed.

Lemma len_app {A} (l1 l2 : list A) : len (l1 ++ l2) = len l1 + len l2.
Proof. unfold len. rewrite length_app. lia. Qed.

Lemma len_cons {A} (x : A) l : len (x :: l) = 1 + len l.
Proof. unfold len. simpl. lia. Qed.

Lemma len_nil {A} : len (@nil A) = 0.
Proof. done. Qed.

Lemma len_nonneg {A} (l : list A) : 0 <= len l.
Proof. unfold len. lia. Qed.

Lemma len_to_digits B n z : len (to_digits B n z) = Z.of_nat n.
Proof. unfold len. by rewrite length_to_digits. Qed.

Lemma pow256 n : 256 ^ Z.of_nat n = 2 ^ (8 * Z.of_nat n).
Proof. change 256 with (2 ^ 8). by rewrite pow2_pow_mul by lia. Qed.

Lemma ser_uint_correct n :
  (n <= 8)%nat -> ser_correct (fits (8 * Z.of_nat n)) (ser_uint n).
Proof.
  intros Hn. split; intros ty ver; simpl.
  - intros. apply to_digits_ok; lia.
  - intros x _. rewrite len_to_digits, wrap_id; [done|unfold fits; lia].
  - intros x Hx. eapply reads_bind_nil; [by apply reads_read; rewrite len_to_digits|].
    rewrite of_to_digits, pow256, Z.mod_small by (done || lia). apply reads_ret.
  - eapply safe_bind; [apply safe_read; lia|]. intros l [Hl Hlen]. apply safe_ret.
    pose proof (of_digits_bound 256 ltac:(lia) l Hl) as Hb. unfold len in Hlen.
    unfold fits. rewrite <- pow256. by replace n with (length l) by lia.
Qed.

Definition sfits (w z : Z) : Prop := - 2 ^ (w - 1) <= z < 2 ^ (w - 1).

Lemma swrap_wrap w z : 0 < w -> sfits w z -> swrap w (wrap w z) = z.
Proof.
  intros Hw Hz. unfold swrap, wrap, sfits in *.
  rewrite Zplus_mod_idemp_l. by apply swrap_id.
Qed.

Lemma ser_int_correct n :
  (0 < n <= 8)%nat -> ser_correct (sfits (8 * Z.of_nat n)) (ser_int n).
Proof.
  intros Hn. split; intros ty ver; simpl.
  - intros. apply to_digits_ok; lia.
  - intros x _. rewrite len_to_digits, wrap_id; [done|unfold fits; lia].
  - intros x Hx. eapply reads_bind_nil; [by apply reads_read; rewrite len_to_digits|].
    rewrite of_to_digits, pow256, Z.mod_small by (lia || apply wrap_fits; lia).
    rewrite swrap_wrap by (done || lia). apply reads_ret.
  - eapply safe_bind; [apply safe_read; lia|]. intros l [Hl Hlen]. apply safe_ret.
    unfold sfits, swrap. set (w := 8 * Z.of_nat n).
    assert (2 ^ w = 2 * 2 ^ (w - 1)) by (rewrite <- Z.pow_succ_r by lia; f_equal; lia).
    pose proof (Z.mod_pos_bound (of_digits 256 l + 2 ^ (w - 1)) (2 ^ w) ltac:(lia)). lia.
Qed.

Lemma ser_bool_correct : ser_correct (fun _ => True) ser_bool.
Proof.
  split; intros ty ver; simpl.
  - intros [] _; repeat constructor; lia.
  - intros [] _; done.
  - intros x _. eapply reads_bind_nil; [by apply reads_read|]. destruct x; apply reads_ret.
  - eapply safe_bind; [apply safe_read; lia|]. intros. by apply safe_ret.
Qed.

Lemma ser_flat_correct n :
  Z.of_nat n < 2 ^ 31 -> ser_correct (fun l => digits 256 l /\ len l = Z.of_nat n) (ser_flat n).
Proof.
  intros Hn. split; intros ty ver; simpl.
  - by intros x [].
  - intros x [_ ->]. rewrite wrap_id; [done|unfold fits; lia].
  - intros x [_ <-]. by apply reads_read.
  - apply safe_read; lia.
Qed.

(** ** Compact size *)

Lemma GetSizeOfCompactSize_len n : GetSizeOfCompactSize n = len (WriteCompactSize n).
Proof. unfold GetSizeOfCompactSize, WriteCompactSize. repeat case_match; done. Qed.

Lemma WriteCompactSize_ok n : 0 <= n -> digits 256 (WriteCompactSize n).
Proof.
  intros Hn. unfold WriteCompactSize. destruct (Z.ltb_spec n 253); [repeat constructor; lia|].
  repeat case_match; (constructor; [lia|apply to_digits_ok; lia]).
Qed.

Lemma reads_uint n x l : l = to_digits 256 n x -> (n <= 8)%nat -> 0 <= x < 2 ^ (8 * Z.of_nat n) ->
  reads (Unserialize (ser_uint n) 0 0) l x.
Proof. intros -> Hn Hx. by apply (sc_read _ _ (ser_uint_correct n Hn) 0 0 x). Qed.

Lemma ReadCompactSize_ok n : 0 <= n <= MAX_SIZE -> reads ReadCompactSize (WriteCompactSize n) n.
Proof.
  intros Hn. unfold MAX_SIZE in Hn. unfold ReadCompactSize, WriteCompactSize.
  assert (Hend : reads (if MAX_SIZE <? n then throw else ret n) [] n).
  { unfold MAX_SIZE. destruct (Z.ltb_spec 0x02000000 n); [lia|]. apply reads_ret. }
  destruct (Z.ltb_spec n 253); [|destruct (Z.leb_spec n 0xffff); [|destruct (Z.leb_spec n 0xffffffff); [|lia]]].
  - eapply reads_bind_nil.
    { apply (reads_uint 1 n); [simpl; by rewrite Z.mod_small by lia|lia..]. }
    simpl. destruct (Z.ltb_spec n 253); [|lia]. eapply reads_bind_nil; [apply reads_ret|done].
  - change (253 :: ?l) with ([253] ++ l). eapply reads_bind; [apply (reads_uint 1 253); [done|lia..]|].
    eapply reads_bind_nil; [|exact Hend]. simpl (253 <? 253). apply reads_uint; [done|lia..].
  - change (254 :: ?l) with ([254] ++ l). eapply reads_bind; [apply (reads_uint 1 254); [done|lia..]|].
    eapply reads_bind_nil; [|exact Hend]. simpl (254 <? 253). apply reads_uint; [done|lia..].
Qed.

Lemma safe_ReadCompactSize : safe ReadCompactSize (fun n => 0 <= n <= MAX_SIZE).
Proof.
  assert (Hu : forall n, (n <= 8)%nat -> safe (Unserialize (ser_uint n) 0 0) (fun x => 0 <= x)).
  { intros n Hn. eapply safe_weaken; [apply (sc_safe _ _ (ser_uint_correct n Hn))|]. by intros a []. }
  unfold ReadCompactSize. eapply safe_bind; [apply (Hu 1%nat); lia|]. intros c Hc.
  eapply safe_bind with (P := fun n => 0 <= n).
  - repeat case_match; [by apply safe_ret|apply Hu; lia..].
  - intros n Hn. destruct (Z.ltb_spec MAX_SIZE n); [apply safe_throw|apply safe_ret; lia].
Qed.

(** ** Strings and byte vectors *)

Definition bytes_wf (l : list Z) : Prop := digits 256 l /\ len l <= MAX_SIZE.

Lemma bytes_ser_ok l :
  digits 256 l -> digits 256 (WriteCompactSize (len l) ++ l) /\
  u32 (GetSizeOfCompactSize (len l) + len l * 1) = u32 (len (WriteCompactSize (len l) ++ l)).
Proof.
  intros Hl. split.
  - apply Forall_app; split; [apply WriteCompactSize_ok, len_nonneg|done].
  - rewrite len_app, GetSizeOfCompactSize_len. f_equal. lia.
Qed.

Lemma ser_string_correct : ser_correct bytes_wf ser_string.
Proof.
  split; intros ty ver; simpl.
  - intros x [Hx _]. by apply bytes_ser_ok.
  - intros x [Hx _]. by apply bytes_ser_ok.
  - intros x [Hx Hlen]. pose proof (len_nonneg x).
    eapply reads_bind; [by apply ReadCompactSize_ok|].
    destruct (Z.eqb_spec (len x) 0) as [E|E]; simpl; [|by apply reads_read].
    destruct x; [apply reads_ret|done].
  - eapply safe_bind; [apply safe_ReadCompactSize|]. unfold bytes_wf, MAX_SIZE. intros n Hn.
    destruct (Z.eqb_spec n 0); simpl.
    + apply safe_ret. split; [constructor|done].
    + eapply safe_weaken; [apply safe_read; lia|]. intros l [? ->]. split; [done|lia].
Qed.

Lemma blk_loop_reads fuel i nSize v l :
  0 <= i -> i + len l = nSize -> len l <= Z.of_nat fuel ->
  reads (blk_loop fuel i nSize v) l (v ++ l).
Proof.
  revert i v l. induction fuel as [|fuel IH]; intros i v l Hi Hl Hf; cbn [blk_loop];
    destruct (Z.ltb_spec i nSize) as [Hlt|Hge].
  - lia.
  - destruct l; [rewrite app_nil_r; apply reads_ret|unfold len in Hl; simpl in Hl; lia].
  - set (blk := Z.min (nSize - i) (1 + 4999999 / 1)).
    assert (0 < blk <= len l) by (unfold blk; change (1 + 4999999 / 1) with 5000000; lia).
    rewrite <- (take_drop (Z.to_nat blk) l) at 1. rewrite Z.mul_1_r.
    assert (Hlt' : len (take (Z.to_nat blk) l) = blk).
    { unfold len in *. rewrite length_take. lia. }
    assert (Hld : len (drop (Z.to_nat blk) l) = len l - blk).
    { unfold len in *. rewrite length_drop. lia. }
    eapply reads_bind; [by apply reads_read|].
    rewrite <- (take_drop (Z.to_nat blk) l) at 3. rewrite app_assoc.
    apply IH; [lia..|]. rewrite Hld. lia.
  - destruct l; [rewrite app_nil_r; apply reads_ret|unfold len in Hl; simpl in Hl; lia].
Qed.

Lemma blk_loop_safe fuel i nSize v :
  0 <= i <= nSize -> nSize - i <= Z.of_nat fuel -> nSize <= MAX_SIZE ->
  digits 256 v -> len v = i ->
  safe (blk_loop fuel i nSize v) (fun l => digits 256 l /\ len l = nSize).
Proof.
  revert i v. induction fuel as [|fuel IH]; intros i v Hi Hf Hm Hd Hv; cbn [blk_loop];
    destruct (Z.ltb_spec i nSize) as [Hlt|Hge]; try (apply safe_ret; split; [done|lia]); [lia|].
  set (blk := Z.min (nSize - i) (1 + 4999999 / 1)).
  assert (0 < blk <= nSize - i) by (unfold blk; change (1 + 4999999 / 1) with 5000000; lia).
  unfold MAX_SIZE in *.
  eapply safe_bind; [apply safe_read; lia|]. intros l [Hl Hlen].
  apply IH; [lia..|by apply Forall_app|]. rewrite len_app. lia.
Qed.

Lemma ser_bytes_correct : ser_correct bytes_wf ser_bytes.
Proof.
  split; intros ty ver; simpl.
  - intros x [Hx _]. by apply bytes_ser_ok.
  - intros x [Hx _]. by apply bytes_ser_ok.
  - intros x [Hx Hlen]. pose proof (len_nonneg x).
    eapply reads_bind; [by apply ReadCompactSize_ok|]. apply (blk_loop_reads _ 0 _ []); lia.
  - eapply safe_bind; [apply safe_ReadCompactSize|]. intros n [Hn0 Hn1].
    eapply safe_weaken; [apply blk_loop_safe; [lia..|constructor|done]|].
    intros l [? E]. split; [done|by rewrite E].
Qed.

(** ** Vectors of objects *)

Definition vector_wf {T} (wf : T -> Prop) (v : list T) : Prop := Forall wf v /\ len v <= MAX_SIZE.

Section vector.
Context {T : Type} (wf : T -> Prop) (c : Ser T) (Hc : ser_correct wf c) (ty ver : Z).

Lemma elems_bytes v : Forall wf v -> digits 256 (concat (map (Serialize c ty ver) v)).
Proof.
  induction 1 as [|x v Hx _ IH]; [constructor|]. rewrite map_cons. cbn [concat].
  apply Forall_app; split; [by apply (sc_bytes _ _ Hc)|done].
Qed.

Lemma fold_size v n :
  Forall wf v ->
  u32 (fold_left (fun a x => u32 (a + GetSerializeSize c ty ver x)) v n) =
  u32 (n + len (concat (map (Serialize c ty ver) v))).
Proof.
  intros Hv. revert n. induction Hv as [|x v Hx _ IH]; intros n.
  - simpl. f_equal. unfold len. simpl. lia.
  - cbn [fold_left]. rewrite IH, map_cons. cbn [concat]. rewrite wrap_add_l, len_app.
    rewrite (sc_size _ _ Hc) by done.
    replace (n + u32 (len (Serialize c ty ver x)) + len (concat (map (Serialize c ty ver) v)))
      with (n + len (concat (map (Serialize c ty ver) v)) + u32 (len (Serialize c ty ver x))) by lia.
    rewrite wrap_add_r. f_equal. lia.
Qed.

Lemma fold_size_fits v n :
  fits 32 n -> fits 32 (fold_left (fun a x => u32 (a + GetSerializeSize c ty ver x)) v n).
Proof. revert n. induction v; intros n Hn; simpl; [done|]. apply IHv, wrap_fits; lia. Qed.

Lemma elems_size v :
  Forall wf v ->
  fold_left (fun a x => u32 (a + GetSerializeSize c ty ver x)) v (GetSizeOfCompactSize (len v)) =
  u32 (len (WriteCompactSize (len v) ++ concat (map (Serialize c ty ver) v))).
Proof.
  intros Hv. rewrite len_app, <- GetSizeOfCompactSize_len, <- fold_size by done.
  symmetry. apply wrap_id, fold_size_fits. unfold fits, GetSizeOfCompactSize. repeat case_match; lia.
Qed.

Lemma unser_elems_reads v :
  Forall wf v ->
  reads (unser_elems c ty ver (length v)) (concat (map (Serialize c ty ver) v)) v.
Proof.
  induction 1 as [|x v Hx _ IH]; cbn [length unser_elems].
  - apply reads_ret.
  - rewrite map_cons. cbn [concat]. eapply reads_bind; [by apply (sc_read _ _ Hc)|].
    eapply reads_bind_nil; [exact IH|apply reads_ret].
Qed.

Lemma unser_elems_safe n :
  safe (unser_elems c ty ver n) (fun v => Forall wf v /\ length v = n).
Proof.
  induction n as [|n IH]; cbn [unser_elems].
  - apply safe_ret. by split.
  - eapply safe_bind; [apply (sc_safe _ _ Hc)|]. intros x Hx.
    eapply safe_bind; [exact IH|]. intros v [Hv <-]. apply safe_ret. split; [by constructor|done].
Qed.

Context (sz : Z) (Hsz : 1 <= sz <= 5000000).

(** One turn of [vec_loop] moves [nMid] by at least one, never past [nSize]. *)
Lemma vec_step nMid nSize :
  0 <= nMid < nSize -> nSize <= MAX_SIZE ->
  let n := u32 (nMid + 5000000 / sz) in
  nMid < (if nSize <? n then nSize else n) <= nSize.
Proof.
  intros Hn Hm. unfold MAX_SIZE in Hm.
  assert (1 <= 5000000 / sz <= 5000000).
  { split; [apply Z.div_le_lower_bound; lia|]. apply Z.div_le_upper_bound; nia. }
  rewrite wrap_id by (unfold fits; lia). cbv zeta.
  destruct (Z.ltb_spec nSize (nMid + 5000000 / sz)); lia.
Qed.

Lemma vec_loop_reads fuel nMid nSize v l :
  0 <= nMid -> nMid + len l = nSize -> len l <= Z.of_nat fuel -> nSize <= MAX_SIZE ->
  Forall wf l ->
  reads (vec_loop c sz ty ver fuel nMid nSize v) (concat (map (Serialize c ty ver) l)) (v ++ l).
Proof.
  revert nMid v l. induction fuel as [|fuel IH]; intros nMid v l Hi Hl Hf Hm Hw; cbn [vec_loop];
    destruct (Z.ltb_spec nMid nSize) as [Hlt|Hge].
  - lia.
  - destruct l; [rewrite app_nil_r; apply reads_ret|unfold len in Hl; simpl in Hl; lia].
  - pose proof (vec_step nMid nSize ltac:(lia) Hm) as Hstep. cbv zeta in Hstep.
    match type of Hstep with nMid < ?x <= _ => set (n := x) in * end.
    rewrite <- (take_drop (Z.to_nat (n - nMid)) l) at 1. rewrite map_app, concat_app.
    assert (Hlt' : Z.to_nat (n - nMid) = length (take (Z.to_nat (n - nMid)) l)).
    { unfold len in *. rewrite length_take. lia. }
    assert (Hld : len (drop (Z.to_nat (n - nMid)) l) = len l - (n - nMid)).
    { unfold len in *. rewrite length_drop. lia. }
    eapply reads_bind.
    { rewrite Hlt' at 1. apply unser_elems_reads. by apply Forall_take. }
    rewrite <- (take_drop (Z.to_nat (n - nMid)) l) at 3. rewrite app_assoc.
    apply IH; [lia..|by apply Forall_drop].
  - destruct l; [rewrite app_nil_r; apply reads_ret|unfold len in Hl; simpl in Hl; lia].
Qed.

Lemma vec_loop_safe fuel nMid nSize v :
  0 <= nMid <= nSize -> nSize - nMid <= Z.of_nat fuel -> nSize <= MAX_SIZE ->
  Forall wf v -> len v = nMid ->
  safe (vec_loop c sz ty ver fuel nMid nSize v) (fun l => Forall wf l /\ len l = nSize).
Proof.
  revert nMid v. induction fuel as [|fuel IH]; intros nMid v Hi Hf Hm Hd Hv; cbn [vec_loop];
    destruct (Z.ltb_spec nMid nSize) as [Hlt|Hge]; try (apply safe_ret; split; [done|lia]); [lia|].
  pose proof (vec_step nMid nSize ltac:(lia) Hm) as Hstep. cbv zeta in Hstep.
  match type of Hstep with nMid < ?x <= _ => set (n := x) in * end.
  eapply safe_bind; [apply unser_elems_safe|]. intros l [Hl Hlen].
  apply IH; [lia..|by apply Forall_app|]. rewrite len_app. unfold len at 2. lia.
Qed.
End vector.

Lemma ser_vector_correct {T} (wf : T -> Prop) (c : Ser T) sz :
  ser_correct wf c -> 1 <= sz <= 5000000 -> ser_correct (vector_wf wf) (ser_vector sz c).
Proof.
  intros Hc Hsz. split; intros ty ver; simpl.
  - intros x [Hx _]. apply Forall_app; split; [apply WriteCompactSize_ok, len_nonneg|by eapply elems_bytes].
  - intros x [Hx _]. by apply (elems_size wf).
  - intros x [Hx Hlen]. pose proof (len_nonneg x).
    eapply reads_bind; [by apply ReadCompactSize_ok|].
    apply (vec_loop_reads wf c Hc ty ver sz Hsz _ 0 _ []); (done || lia).
  - eapply safe_bind; [apply safe_ReadCompactSize|]. intros n [Hn0 Hn1].
    eapply safe_weaken; [apply (vec_loop_safe wf c Hc ty ver sz Hsz); [lia..|constructor|done]|].
    intros l [? E]. split; [done|by rewrite E].
Qed.

(** ** Pairs, tuples and structures *)

Lemma ser_pair_correct {K T} (wk : K -> Prop) (wt : T -> Prop) ck ct :
  ser_correct wk ck -> ser_correct wt ct ->
  ser_correct (fun '(k, t) => wk k /\ wt t) (ser_pair ck ct).
Proof.
  intros Hk Ht. split; intros ty ver; simpl.
  - intros [k t] [Hwk Hwt]. apply Forall_app; split; [by apply (sc_bytes _ _ Hk)|by apply (sc_bytes _ _ Ht)].
  - intros [k t] [Hwk Hwt]. rewrite (sc_size _ _ Hk), (sc_size _ _ Ht), wrap_add, len_app by done. done.
  - intros [k t] [Hwk Hwt]. eapply reads_bind; [by apply (sc_read _ _ Hk)|].
    eapply reads_bind_nil; [by apply (sc_read _ _ Ht)|apply reads_ret].
  - eapply safe_bind; [apply (sc_safe _ _ Hk)|]. intros k Hwk.
    eapply safe_bind; [apply (sc_safe _ _ Ht)|]. intros t Hwt. by apply safe_ret.
Qed.

Lemma ser_struct_correct {A B} (f : A -> B) (g : B -> A) (wf : B -> Prop) (c : Ser B) :
  (forall a, g (f a) = a) -> (forall b, wf b -> wf (f (g b))) ->
  ser_correct wf c -> ser_correct (fun a => wf (f a)) (ser_struct f g c).
Proof.
  intros Hgf Hfg Hc. split; intros ty ver; simpl.
  - intros x Hx. by apply (sc_bytes _ _ Hc).
  - intros x Hx. by apply (sc_size _ _ Hc).
  - intros x Hx. eapply reads_bind_nil; [by apply (sc_read _ _ Hc)|]. rewrite Hgf. apply reads_ret.
  - eapply safe_bind; [apply (sc_safe _ _ Hc)|]. intros b Hb. apply safe_ret. by apply Hfg.
Qed.

Lemma ser_struct_correct_on {A B} (P : A -> Prop) (f : A -> B) (g : B -> A) (wf : B -> Prop) (c : Ser B) :
  (forall a, P a -> wf (f a) /\ g (f a) = a) -> (forall b, wf b -> P (g b)) ->
  ser_correct wf c -> ser_correct P (ser_struct f g c).
Proof.
  intros HP Hg Hc. split; intros ty ver; simpl.
  - intros x Hx. by apply (sc_bytes _ _ Hc), HP.
  - intros x Hx. by apply (sc_size _ _ Hc), HP.
  - intros x Hx. destruct (HP x Hx) as [Hw E]. eapply reads_bind_nil; [by apply (sc_read _ _ Hc)|].
    rewrite E. apply reads_ret.
  - eapply safe_bind; [apply (sc_safe _ _ Hc)|]. intros b Hb. apply safe_ret. by apply Hg.
Qed.

(** Two serializers that agree on every action. *)
Definition ser_eq {T} (c d : Ser T) : Prop :=
  forall ty ver, (forall x, GetSerializeSize c ty ver x = GetSerializeSize d ty ver x) /\
    (forall x, Serialize c ty ver x = Serialize d ty ver x) /\
    (forall s, Unserialize c ty ver s = Unserialize d ty ver s).

Lemma ser_correct_eq {T} (wf : T -> Prop) (c d : Ser T) :
  ser_eq c d -> ser_correct wf c -> ser_correct wf d.
Proof.
  intros He [H1 H2 H3 H4]. split; intros ty ver; destruct (He ty ver) as (E1 & E2 & E3).
  - intros x Hx. rewrite <- E2. auto.
  - intros x Hx. rewrite <- E1, <- E2. auto.
  - intros x Hx s rest Hs Hu. rewrite <- E2 in Hu. rewrite <- E3. by apply H3.
  - intros s Hs. rewrite <- E3. by apply H4.
Qed.

Lemma ser_tuple3_correct {A B C} (wa : A -> Prop) (wb : B -> Prop) (wc : C -> Prop) ca cb cc :
  ser_correct wa ca -> ser_correct wb cb -> ser_correct wc cc ->
  ser_correct (fun '(a, b, c) => wa a /\ wb b /\ wc c) (ser_tuple3 ca cb cc).
Proof.
  intros Ha Hb Hc. split; intros ty ver; simpl.
  - intros [[a b] c] (? & ? & ?). repeat (apply Forall_app; split);
      [by apply (sc_bytes _ _ Ha)|by apply (sc_bytes _ _ Hb)|by apply (sc_bytes _ _ Hc)].
  - intros [[a b] c] (? & ? & ?). rewrite (sc_size _ _ Ha), (sc_size _ _ Hb), (sc_size _ _ Hc) by done.
    rewrite (wrap_add 32 (len (Serialize ca ty ver a))), wrap_add, !len_app. f_equal. lia.
  - intros [[a b] c] (? & ? & ?). eapply reads_bind; [by apply (sc_read _ _ Ha)|].
    eapply reads_bind; [by apply (sc_read _ _ Hb)|].
    eapply reads_bind_nil; [by apply (sc_read _ _ Hc)|apply reads_ret].
  - eapply safe_bind; [apply (sc_safe _ _ Ha)|]. intros.
    eapply safe_bind; [apply (sc_safe _ _ Hb)|]. intros.
    eapply safe_bind; [apply (sc_safe _ _ Hc)|]. intros. by apply safe_ret.
Qed.

Lemma ser_tuple4_correct {A B C D} (wa : A -> Prop) (wb : B -> Prop) (wc : C -> Prop) (wd : D -> Prop)
  ca cb cc cd :
  ser_correct wa ca -> ser_correct wb cb -> ser_correct wc cc -> ser_correct wd cd ->
  ser_correct (fun '(a, b, c, d) => wa a /\ wb b /\ wc c /\ wd d) (ser_tuple4 ca cb cc cd).
Proof.
  intros Ha Hb Hc Hd. split; intros ty ver; simpl.
  - intros [[[a b] c] d] (? & ? & ? & ?). repeat (apply Forall_app; split);
      [by apply (sc_bytes _ _ Ha)|by apply (sc_bytes _ _ Hb)|by apply (sc_bytes _ _ Hc)|by apply (sc_bytes _ _ Hd)].
  - intros [[[a b] c] d] (? & ? & ? & ?).
    rewrite (sc_size _ _ Ha), (sc_size _ _ Hb), (sc_size _ _ Hc), (sc_size _ _ Hd) by done.
    rewrite (wrap_add 32 (len (Serialize ca ty ver a))).
    rewrite (wrap_add 32 (len (Serialize ca ty ver a) + len (Serialize cb ty ver b))), wrap_add, !len_app.
    f_equal. lia.
  - intros [[[a b] c] d] (? & ? & ? & ?). eapply reads_bind; [by apply (sc_read _ _ Ha)|].
    eapply reads_bind; [by apply (sc_read _ _ Hb)|].
    eapply reads_bind; [by apply (sc_read _ _ Hc)|].
    eapply reads_bind_nil; [by apply (sc_read _ _ Hd)|apply reads_ret].
  - eapply safe_bind; [apply (sc_safe _ _ Ha)|]. intros.
    eapply safe_bind; [apply (sc_safe _ _ Hb)|]. intros.
    eapply safe_bind; [apply (sc_safe _ _ Hc)|]. intros.
    eapply safe_bind; [apply (sc_safe _ _ Hd)|]. intros. by apply safe_ret.
Qed.

#[export] Hint Resolve ser_uint_correct ser_int_correct ser_bool_correct ser_flat_correct
  ser_string_correct ser_bytes_correct ser_vector_correct ser_pair_correct
  ser_tuple3_correct ser_tuple4_correct : cloak.

(** ** Ordered maps and sets *)

Section ordered_facts.
Context {K T : Type} (ltb : K -> K -> bool).
Context (ltb_irrefl : forall k, ltb k k = false).
Context (ltb_trans : forall k1 k2 k3, ltb k1 k2 = true -> ltb k2 k3 = true -> ltb k1 k3 = true).

Definition map_sorted (m : list (K * T)) : Prop :=
  StronglySorted (fun p q => ltb (fst p) (fst q) = true) m.
Definition set_sorted (m : list K) : Prop := StronglySorted (fun p q => ltb p q = true) m.

Lemma map_insert_last k (t : T) (m : list (K * T)) :
  Forall (fun p => ltb (fst p) k = true) m -> map_insert ltb k t m = m ++ [(k, t)].
Proof.
  induction 1 as [|[k' t'] m Hp _ IH]; [done|]. simpl in *.
  destruct (ltb k k') eqn:E; [|by rewrite Hp, IH].
  assert (ltb k k = true) as H by (by eapply ltb_trans). by rewrite ltb_irrefl in H.
Qed.

Lemma set_insert_last k m :
  Forall (fun p => ltb p k = true) m -> set_insert ltb k m = m ++ [k].
Proof.
  induction 1 as [|k' m Hp _ IH]; [done|]. simpl.
  destruct (ltb k k') eqn:E; [|by rewrite Hp, IH].
  assert (ltb k k = true) as H by (by eapply ltb_trans). by rewrite ltb_irrefl in H.
Qed.

Lemma map_build (m acc : list (K * T)) :
  map_sorted (acc ++ m) -> fold_left (fun m '(k, t) => map_insert ltb k t m) m acc = acc ++ m.
Proof.
  revert acc. induction m as [|[k t] m IH]; intros acc Hs; cbn [fold_left]; [by rewrite app_nil_r|].
  rewrite map_insert_last.
  - rewrite IH; rewrite <- app_assoc; done.
  - clear IH. induction acc as [|p acc IH]; [constructor|]. inversion Hs as [|? ? Hs' Hp]; subst.
    constructor; [|by apply IH]. apply Forall_app in Hp as [_ Hp]. by inversion Hp.
Qed.

Lemma set_build m acc :
  set_sorted (acc ++ m) -> fold_left (fun m k => set_insert ltb k m) m acc = acc ++ m.
Proof.
  revert acc. induction m as [|k m IH]; intros acc Hs; cbn [fold_left]; [by rewrite app_nil_r|].
  rewrite set_insert_last.
  - rewrite IH; rewrite <- app_assoc; done.
  - clear IH. induction acc as [|p acc IH]; [constructor|]. inversion Hs as [|? ? Hs' Hp]; subst.
    constructor; [|by apply IH]. apply Forall_app in Hp as [_ Hp]. by inversion Hp.
Qed.

Lemma map_insert_Forall (P : K * T -> Prop) k t m :
  P (k, t) -> Forall P m -> Forall P (map_insert ltb k t m).
Proof.
  intros Hk. induction 1 as [|[k' t'] m Hp Hm IH]; simpl; [by constructor|].
  repeat case_match; by repeat constructor.
Qed.

Lemma set_insert_Forall (P : K -> Prop) k m : P k -> Forall P m -> Forall P (set_insert ltb k m).
Proof.
  intros Hk. induction 1 as [|k' m Hp Hm IH]; simpl; [by constructor|].
  repeat case_match; by repeat constructor.
Qed.

Lemma map_insert_sorted k (t : T) m : map_sorted m -> map_sorted (map_insert ltb k t m).
Proof.
  induction 1 as [|[k' t'] m Hm IH Hp]; simpl; [repeat constructor|].
  destruct (ltb k k') eqn:E1; [|destruct (ltb k' k) eqn:E2].
  - constructor; [by constructor|]. constructor; [done|].
    eapply Forall_impl; [exact Hp|]. intros q Hq. by eapply ltb_trans.
  - constructor; [done|]. by apply map_insert_Forall.
  - by constructor.
Qed.

Lemma set_insert_sorted k m : set_sorted m -> set_sorted (set_insert ltb k m).
Proof.
  induction 1 as [|k' m Hm IH Hp]; simpl; [repeat constructor|].
  destruct (ltb k k') eqn:E1; [|destruct (ltb k' k) eqn:E2].
  - constructor; [by constructor|]. constructor; [done|].
    eapply Forall_impl; [exact Hp|]. intros q Hq. by eapply ltb_trans.
  - constructor; [done|]. by apply set_insert_Forall.
  - by constructor.
Qed.

Lemma map_insert_length k (t : T) m : (length (map_insert ltb k t m) <= S (length m))%nat.
Proof. induction m as [|[k' t'] m IH]; simpl; [lia|]. repeat case_match; simpl; lia. Qed.

Lemma set_insert_length k m : (length (set_insert ltb k m) <= S (length m))%nat.
Proof. induction m as [|k' m IH]; simpl; [lia|]. repeat case_match; simpl; lia. Qed.

Lemma map_build_ok (P : K * T -> Prop) l acc :
  Forall P l -> Forall P acc -> map_sorted acc ->
  let m := fold_left (fun m '(k, t) => map_insert ltb k t m) l acc in
  map_sorted m /\ Forall P m /\ (length m <= length acc + length l)%nat.
Proof.
  intros Hl. revert acc. induction Hl as [|[k t] l Hk _ IH]; intros acc Ha Hs; simpl.
  - split_and!; [done..|lia].
  - destruct (IH (map_insert ltb k t acc)) as (? & ? & ?);
      [by apply map_insert_Forall|by apply map_insert_sorted|].
    split_and!; [done..|]. pose proof (map_insert_length k t acc). lia.
Qed.

Lemma set_build_ok (P : K -> Prop) l acc :
  Forall P l -> Forall P acc -> set_sorted acc ->
  let m := fold_left (fun m k => set_insert ltb k m) l acc in
  set_sorted m /\ Forall P m /\ (length m <= length acc + length l)%nat.
Proof.
  intros Hl. revert acc. induction Hl as [|k l Hk _ IH]; intros acc Ha Hs; simpl.
  - split_and!; [done..|lia].
  - destruct (IH (set_insert ltb k acc)) as (? & ? & ?);
      [by apply set_insert_Forall|by apply set_insert_sorted|].
    split_and!; [done..|]. pose proof (set_insert_length k acc). lia.
Qed.

Lemma ser_map_correct (wk : K -> Prop) (wt : T -> Prop) ck ct :
  ser_correct wk ck -> ser_correct wt ct ->
  ser_correct (fun m => vector_wf (fun '(k, t) => wk k /\ wt t) m /\ map_sorted m) (ser_map ltb ck ct).
Proof.
  intros Hk Ht. pose proof (ser_pair_correct _ _ _ _ Hk Ht) as Hp. split; intros ty ver.
  - intros x [[Hx _] _]. apply Forall_app; split; [apply WriteCompactSize_ok, len_nonneg|].
    by eapply elems_bytes.
  - intros x [[Hx _] _]. by apply (elems_size _ _ Hp).
  - intros x [[Hx Hlen] Hs]. cbn [Serialize Unserialize ser_map]. pose proof (len_nonneg x).
    eapply reads_bind; [by apply ReadCompactSize_ok|]. unfold len at 1. rewrite Nat2Z.id.
    eapply reads_bind_nil; [by apply (unser_elems_reads _ _ Hp)|].
    rewrite (map_build x []) by done. apply reads_ret.
  - cbn [Unserialize ser_map]. eapply safe_bind; [apply safe_ReadCompactSize|]. intros n [Hn0 Hn1].
    eapply safe_bind; [apply (unser_elems_safe _ _ Hp)|]. intros l [Hl Hlen]. apply safe_ret.
    destruct (map_build_ok _ l [] Hl) as (? & ? & ?); [constructor..|].
    split; [split; [done|unfold len; simpl in *; lia]|done].
Qed.

Lemma ser_set_correct (wk : K -> Prop) ck :
  ser_correct wk ck ->
  ser_correct (fun m => vector_wf wk m /\ set_sorted m) (ser_set ltb ck).
Proof.
  intros Hp. split; intros ty ver.
  - intros x [[Hx _] _]. apply Forall_app; split; [apply WriteCompactSize_ok, len_nonneg|].
    by eapply elems_bytes.
  - intros x [[Hx _] _]. by apply (elems_size _ _ Hp).
  - intros x [[Hx Hlen] Hs]. cbn [Serialize Unserialize ser_set]. pose proof (len_nonneg x).
    eapply reads_bind; [by apply ReadCompactSize_ok|]. unfold len at 1. rewrite Nat2Z.id.
    eapply reads_bind_nil; [by apply (unser_elems_reads _ _ Hp)|].
    rewrite (set_build x []) by done. apply reads_ret.
  - cbn [Unserialize ser_set]. eapply safe_bind; [apply safe_ReadCompactSize|]. intros n [Hn0 Hn1].
    eapply safe_bind; [apply (unser_elems_safe _ _ Hp)|]. intros l [Hl Hlen]. apply safe_ret.
    destruct (set_build_ok _ l [] Hl) as (? & ? & ?); [constructor..|].
    split; [split; [done|unfold len; simpl in *; lia]|done].
Qed.
End ordered_facts.

(** ** Main theorems *)

Lemma bind_assoc {A B C} (m : M A) (k1 : A -> M B) (k2 : B -> M C) s :
  bind (bind m k1) k2 s = bind m (fun x => bind (k1 x) k2) s.
Proof. unfold bind. by destruct (m s) as [[]]. Qed.

(** The size field itself, before the check against [MAX_SIZE]. *)
Definition read_size_field : M Z :=
  chSize <-- Unserialize (ser_uint 1) 0 0 ;;
  if chSize <? 253 then ret chSize
  else if chSize =? 253 then Unserialize (ser_uint 2) 0 0
  else if chSize =? 254 then Unserialize (ser_uint 4) 0 0
  else Unserialize (ser_uint 8) 0 0.

Lemma read_size_field_large n :
  MAX_SIZE < n < 2 ^ 64 -> reads read_size_field (WriteCompactSize n) n.
Proof.
  intros Hn. unfold MAX_SIZE in Hn. unfold read_size_field, WriteCompactSize.
  destruct (Z.ltb_spec n 253); [lia|]. destruct (Z.leb_spec n 0xffff); [lia|].
  destruct (Z.leb_spec n 0xffffffff).
  - change (254 :: ?l) with ([254] ++ l).
    eapply reads_bind; [apply (reads_uint 1 254); [done|lia..]|apply reads_uint; [done|lia..]].
  - change (255 :: ?l) with ([255] ++ l).
    eapply reads_bind; [apply (reads_uint 1 255); [done|lia..]|apply reads_uint; [done|lia..]].
Qed.

Lemma ReadCompactSize_large n s rest :
  MAX_SIZE < n < 2 ^ 64 -> stream_ok s -> unread s = WriteCompactSize n ++ rest ->
  exists s', ReadCompactSize s = (inl Throw, s') /\ stream_is s' s rest.
Proof.
  intros Hn Hs Hu. destruct (read_size_field_large n Hn s rest Hs Hu) as (s' & E & H).
  exists s'. split; [|done].
  transitivity (bind read_size_field (fun n => if MAX_SIZE <? n then throw else ret n) s).
  - unfold read_size_field. by rewrite bind_assoc.
  - unfold bind. rewrite E. destruct (Z.ltb_spec MAX_SIZE n); [done|lia].
Qed.

(** Compact sizes: the encoding has the size that [GetSizeOfCompactSize]
    announces; a size up to [MAX_SIZE] is read back exactly, a larger 64-bit
    size is refused with an exception after its bytes are consumed; and on any
    input at all [ReadCompactSize] returns a size within [MAX_SIZE] or throws. *)
Theorem compact_size_codec :
  (forall n, GetSizeOfCompactSize n = len (WriteCompactSize n)) /\
  (forall n, 0 <= n <= MAX_SIZE -> reads ReadCompactSize (WriteCompactSize n) n) /\
  (forall n s rest, MAX_SIZE < n < 2 ^ 64 -> stream_ok s -> unread s = WriteCompactSize n ++ rest ->
     exists s', ReadCompactSize s = (inl Throw, s') /\ stream_is s' s rest) /\
  safe ReadCompactSize (fun n => 0 <= n <= MAX_SIZE).
Proof.
  split_and!; [apply GetSizeOfCompactSize_len|apply ReadCompactSize_ok|
               apply ReadCompactSize_large|apply safe_ReadCompactSize].
Qed.

(** The container templates preserve the serializer contract: given correct
    serializers for the parts, vectors (read in bounded steps), pairs and maps
    written to a stream have the size announced, are read back unchanged with
    the rest of the stream untouched, and reading arbitrary bytes never
    asserts, never loops forever and yields only well-formed containers (maps
    sorted without duplicate keys, sizes within [MAX_SIZE]). *)
Theorem container_codecs {K T} (wk : K -> Prop) (wt : T -> Prop) (ck : Ser K) (ct : Ser T)
    (ltb : K -> K -> bool) (sz : Z) :
  ser_correct wk ck -> ser_correct wt ct -> 1 <= sz <= 5000000 ->
  (forall k, ltb k k = false) ->
  (forall k1 k2 k3, ltb k1 k2 = true -> ltb k2 k3 = true -> ltb k1 k3 = true) ->
  ser_correct (vector_wf wt) (ser_vector sz ct) /\
  ser_correct bytes_wf ser_bytes /\ ser_correct bytes_wf ser_string /\
  ser_correct (fun '(k, t) => wk k /\ wt t) (ser_pair ck ct) /\
  ser_correct (fun m => vector_wf (fun '(k, t) => wk k /\ wt t) m /\ map_sorted ltb m)
    (ser_map ltb ck ct) /\
  ser_correct (fun m => vector_wf wk m /\ set_sorted ltb m) (ser_set ltb ck).
Proof.
  intros Hk Ht Hsz Hirr Htr.
  split_and!; eauto using ser_map_correct, ser_set_correct with cloak.
Qed.

Lemma container_codecs_witness :
  reads (Unserialize (ser_map Z.ltb (ser_uint 4) ser_bytes) 0 0)
        (Serialize (ser_map Z.ltb (ser_uint 4) ser_bytes) 0 0 [(3, [1; 2]); (70000, [])])
        [(3, [1; 2]); (70000, [])].
Proof.
  destruct (container_codecs (fits (8 * Z.of_nat 4)) bytes_wf (ser_uint 4) ser_bytes Z.ltb 24)
    as (_ & _ & _ & _ & Hmap & _).
  - apply ser_uint_correct. lia.
  - apply ser_bytes_correct.
  - lia.
  - apply Z.ltb_irrefl.
  - intros. lia.
  - apply (sc_read _ _ Hmap). unfold vector_wf, bytes_wf, fits, digits, map_sorted, len, MAX_SIZE; simpl.
    repeat first [apply List.Forall_nil | apply List.Forall_cons | apply SSorted_nil
                 | apply SSorted_cons | split]; simpl; lia.
Defined.
