(* ===== verification/Containers.v ===== *)
(** * mruset.h and util.h: a bounded set and a median filter

    [mruset] keeps a [std::set] and a queue in step; [CMedianFilter] keeps the
    last values and a sorted copy of them.  An assertion that fails and an access
    beyond a vector are [None]. *)
From Stdlib Require Import ZArith Lia Bool.
From stdpp Require Import prelude gmap sorting.
From S2P Require Import Prelude DataStream Serialize.

(** ** [mruset] *)

Section mruset.
Context `{Countable T}.

Record mruset : Type := mkMruset { m_set : gset T; m_queue : list T; nMaxSize : Z }.

Definition mruset_new (nMaxSizeIn : Z) : mruset := mkMruset ∅ [] nMaxSizeIn.

Definition mruset_size (m : mruset) : Z := Z.of_nat (size (m_set m)).
Definition mruset_count (m : mruset) (k : T) : bool := bool_decide (k ∈ m_set m).

(** [set.erase(queue.front()); queue.pop_front();] *)
Definition drop_front (m : mruset) : mruset :=
  match m_queue m with
  | [] => m
  | x :: q => mkMruset (m_set m ∖ {[x]}) q (nMaxSize m)
  end.

(** Whether the element is new, and the container. *)
Definition mruset_insert (x : T) (m : mruset) : bool * mruset :=
  if bool_decide (x ∈ m_set m) then (false, m)
  else
    let m := mkMruset (m_set m ∪ {[x]}) (m_queue m) (nMaxSize m) in
    let m := if negb (nMaxSize m =? 0) && (len (m_queue m) =? nMaxSize m) then drop_front m else m in
    (true, mkMruset (m_set m) (m_queue m ++ [x]) (nMaxSize m)).

(** [while (queue.size() > s)]; every turn takes one element. *)
Fixpoint shrink (fuel : nat) (s : Z) (m : mruset) : mruset :=
  match fuel with
  | O => m
  | S fuel => if s <? len (m_queue m) then shrink fuel s (drop_front m) else m
  end.

Definition mruset_max_size (s : Z) (m : mruset) : mruset :=
  let m := if s =? 0 then m else shrink (length (m_queue m)) s m in
  mkMruset (m_set m) (m_queue m) s.
End mruset.
Arguments mruset T {_ _}.

(** ** [CMedianFilter] *)

Definition abs64 (n : Z) : Z := if 0 <=? n then n else - n.

Record CMedianFilter : Type := mkFilter { vValues : list Z; vSorted : list Z; nSize : Z; tInitial : Z }.

Definition filter_new (size initial_value : Z) : CMedianFilter :=
  mkFilter [initial_value] [initial_value] size initial_value.

(** [std::sort] of a copy of the values. *)
Definition resort (v : list Z) (f : CMedianFilter) : CMedianFilter :=
  mkFilter v (merge_sort Z.le v) (nSize f) (tInitial f).

Definition filter_input (value : Z) (f : CMedianFilter) : CMedianFilter :=
  let v := if len (vValues f) =? nSize f then tail (vValues f) else vValues f in
  resort (v ++ [value]) f.

(** The loop from the end: erases the last element equal to [value]. *)
Definition erase_last (value : Z) (v : list Z) : list Z :=
  match list_find (fun x => x = value) (rev v) with
  | Some (i, _) => rev (delete i (rev v))
  | None => v
  end.

Definition removeLast (value : Z) (f : CMedianFilter) : CMedianFilter :=
  let v := erase_last value (vValues f) in
  resort (match v with [] => [tInitial f] | _ => v end) f.

Definition median (f : CMedianFilter) : option Z :=
  let size := len (vSorted f) in
  if negb (0 <? size) then None
  else if negb (Z.land size 1 =? 0) then vSorted f !! Z.to_nat (size / 2)
  else
    a ← vSorted f !! Z.to_nat (size / 2 - 1);
    b ← vSorted f !! Z.to_nat (size / 2);
    Some (Z.quot (a + b) 2).

Definition maxAbs (f : CMedianFilter) : option Z :=
  let size := len (vSorted f) in
  if negb (0 <? size) then None
  else if size =? 1 then abs64 <$> vSorted f !! 0%nat
  else
    a ← vSorted f !! 0%nat;
    b ← vSorted f !! Z.to_nat (size - 1);
    Some (Z.max (abs64 a) (abs64 b)).

Definition filter_size (f : CMedianFilter) : Z := len (vValues f).

(** ** [mruset] is a queue of distinct elements *)

Section mru_facts.
Context `{Countable T}.
Implicit Types (m : mruset T) (q : list T).

(** The set holds exactly the elements of the queue, each of them once, and no
    more of them than the limit. *)
Definition mru_ok m : Prop :=
  NoDup (m_queue m) /\ m_set m = list_to_set (m_queue m) /\ 0 <= nMaxSize m /\
  (nMaxSize m <> 0 -> len (m_queue m) <= nMaxSize m).

(** The last [n] elements of a list, or all of them when there is no limit. *)
Definition keep_last (n : Z) q : list T := if n =? 0 then q else drop (length q - Z.to_nat n) q.

Lemma drop_front_ok m x q : NoDup (x :: q) -> m_queue m = x :: q -> m_set m = list_to_set (x :: q) ->
  NoDup q /\ m_queue (drop_front m) = q /\ m_set (drop_front m) = list_to_set q /\ nMaxSize (drop_front m) = nMaxSize m.
Proof.
  intros Hnd Hq Hs. inversion Hnd as [|? ? Hx Hnd']; subst. unfold drop_front. rewrite Hq. cbn. split_and!; [done|done| |done].
  rewrite Hs. cbn. apply set_eq. intros y. rewrite elem_of_difference, elem_of_union, elem_of_singleton, !elem_of_list_to_set.
  split; [by intros [[->|Hy] Hne]|]. intros Hy. split; [by right|]. by intros ->.
Qed.

Lemma mruset_insert_spec x m : mru_ok m ->
  mru_ok (snd (mruset_insert x m)) /\ nMaxSize (snd (mruset_insert x m)) = nMaxSize m /\
  fst (mruset_insert x m) = bool_decide (x ∉ m_queue m) /\
  m_queue (snd (mruset_insert x m)) = if bool_decide (x ∈ m_queue m) then m_queue m else keep_last (nMaxSize m) (m_queue m ++ [x]).
Proof.
  intros (Hnd & Hs & Hn & Hl). destruct m as [s q n]. cbn [m_set m_queue nMaxSize] in *. subst s. unfold mruset_insert.
  cbn [m_set m_queue nMaxSize]. destruct (decide (x ∈ q)) as [Hx|Hx].
  { rewrite !(bool_decide_true (x ∈ _)) by (done || by apply elem_of_list_to_set).
    rewrite bool_decide_false by (intros Hc; done). done. }
  rewrite (bool_decide_false (x ∈ (list_to_set q : gset T))) by (by rewrite elem_of_list_to_set).
  rewrite (bool_decide_false (x ∈ q)), (bool_decide_true (x ∉ q)) by done. cbn [fst snd].
  assert (Hsnoc : forall q', NoDup q' -> x ∉ q' -> NoDup (q' ++ [x]) /\ (list_to_set (q' ++ [x]) : gset T) = list_to_set q' ∪ {[x]}).
  { intros q' Hq' Hx'. split; [apply NoDup_app; split_and!; [done|set_solver|apply NoDup_singleton]|].
    rewrite list_to_set_app_L. set_solver. }
  destruct (negb (n =? 0) && (len q =? n)) eqn:E.
  - apply andb_prop in E as [E1 E2]. apply Z.eqb_eq in E2. apply negb_true_iff, Z.eqb_neq in E1.
    destruct q as [|y q]; [rewrite len_nil in E2; lia|]. unfold drop_front. cbn [m_set m_queue nMaxSize].
    inversion Hnd as [|? ? Hy Hnd']; subst. assert (Hxq : x ∉ q) by set_solver. assert (Hxy : x <> y) by set_solver.
    destruct (Hsnoc q Hnd' Hxq) as [H1 H2]. split; [|split; [done|split; [done|]]].
    + unfold mru_ok. cbn [m_set m_queue nMaxSize]. split_and!; [done| |lia|].
      * rewrite H2. cbn. set_solver.
      * intros _. rewrite len_app, len_cons, len_nil, len_cons. lia.
    + unfold keep_last. rewrite (proj2 (Z.eqb_neq _ _) E1). rewrite len_cons.
      replace (length ((y :: q) ++ [x]) - Z.to_nat (1 + len q))%nat with 1%nat; [done|].
      rewrite length_app. unfold len. cbn. lia.
  - destruct (Hsnoc q Hnd Hx) as [H1 H2]. split; [|split; [done|split; [done|]]].
    + unfold mru_ok. cbn [m_set m_queue nMaxSize]. split_and!; [done|by rewrite H2|done|].
      intros Hn0. specialize (Hl Hn0). rewrite len_app, len_cons, len_nil.
      apply andb_false_iff in E as [E|E]; [|apply Z.eqb_neq in E; lia]. apply negb_false_iff, Z.eqb_eq in E. lia.
    + unfold keep_last. destruct (Z.eqb_spec n 0); [done|]. specialize (Hl ltac:(done)).
      apply andb_false_iff in E as [E|E]; [done|]. apply Z.eqb_neq in E.
      replace (length (q ++ [x]) - Z.to_nat n)%nat with 0%nat; [done|]. rewrite length_app. unfold len in *. cbn. lia.
Qed.

Lemma shrink_spec fuel s m : (length (m_queue m) <= fuel)%nat -> 0 <= s -> NoDup (m_queue m) ->
  m_set m = list_to_set (m_queue m) ->
  let m' := shrink fuel s m in
  m_queue m' = drop (length (m_queue m) - Z.to_nat s) (m_queue m) /\ NoDup (m_queue m') /\
  m_set m' = list_to_set (m_queue m') /\ len (m_queue m') <= s.
Proof.
  revert m. induction fuel as [|fuel IH]; intros m Hf Hs Hnd Hset; cbn [shrink].
  { destruct (m_queue m) eqn:E; [|simpl in Hf; lia]. rewrite ?E. cbn zeta. rewrite len_nil. split_and!; [done|done|done|lia]. }
  destruct (Z.ltb_spec s (len (m_queue m))) as [Hlt|Hge].
  - destruct (m_queue m) as [|x q] eqn:E; [rewrite len_nil in Hlt; lia|].
    destruct (drop_front_ok m x q Hnd E Hset) as (Hnd' & Hq & Hs' & _).
    destruct (IH (drop_front m)) as (H1 & H2 & H3 & H4); rewrite ?Hq; [simpl in Hf; lia|done|done|done|].
    rewrite Hq in H1. cbn zeta. split_and!; [|done|done|done]. rewrite H1.
    rewrite len_cons in Hlt. unfold len in Hlt. cbn [length].
    by replace (S (length q) - Z.to_nat s)%nat with (S (length q - Z.to_nat s)) by lia.
  - cbn zeta. split_and!; [|done|done|done]. replace (length (m_queue m) - Z.to_nat s)%nat with 0%nat; [done|].
    unfold len in Hge. lia.
Qed.

Lemma mruset_max_size_spec s m : mru_ok m -> 0 <= s ->
  mru_ok (mruset_max_size s m) /\ nMaxSize (mruset_max_size s m) = s /\ m_queue (mruset_max_size s m) = keep_last s (m_queue m).
Proof.
  intros (Hnd & Hset & Hn & Hl) Hs. unfold mruset_max_size, keep_last, mru_ok. cbn [m_set m_queue nMaxSize].
  destruct (Z.eqb_spec s 0) as [->|Hs0]; [split_and!; done|].
  destruct (shrink_spec (length (m_queue m)) s m) as (H1 & H2 & H3 & H4); [lia|done|done|done|].
  split_and!; [done|done|done|done|done|done].
Qed.
End mru_facts.

(** ** The median filter *)

Definition filter_ok (f : CMedianFilter) : Prop :=
  vSorted f = merge_sort Z.le (vValues f) /\ 1 <= len (vValues f) <= nSize f.

(** [m] is a median: at least half of the values are on either side. *)
Definition halves (m : Z) (l : list Z) : Prop :=
  len l <= 2 * len (filter (fun x => x <= m) l) /\ len l <= 2 * len (filter (fun x => m <= x) l).

Lemma sorted_perm v : StronglySorted Z.le (merge_sort Z.le v) /\ merge_sort Z.le v ≡ₚ v.
Proof. split; [apply StronglySorted_merge_sort; [intros x y z; lia|intros x y; lia]|apply merge_sort_Permutation]. Qed.

Lemma sorted_split l (k : nat) a : StronglySorted Z.le l -> l !! k = Some a ->
  Forall (fun x => x <= a) (take (S k) l) /\ Forall (fun x => a <= x) (drop k l) /\ (k < length l)%nat.
Proof.
  intros Hs Hk. apply lookup_lt_Some in Hk as Hlt. rewrite <- (take_drop_middle l k a Hk) in Hs.
  apply StronglySorted_app in Hs as (Hcross & _ & Hpost). inversion Hpost as [|? ? _ Hge]; subst. split_and!; [| |done].
  - rewrite (take_S_r l k a Hk). apply Forall_app. split; [|by constructor]. apply Forall_forall. intros x Hx. apply Hcross; [done|by left].
  - rewrite (drop_S l a k Hk). by constructor.
Qed.

Lemma count_le l (k : nat) a m : StronglySorted Z.le l -> l !! k = Some a -> a <= m ->
  Z.of_nat k + 1 <= len (filter (fun x => x <= m) l).
Proof.
  intros Hs Hk Ha. destruct (sorted_split l k a Hs Hk) as (Hle & _ & Hlt). rewrite <- (take_drop (S k) l), filter_app, len_app.
  rewrite filter_Forall_all by (eapply Forall_impl; [exact Hle|]; cbn; lia).
  pose proof (len_nonneg (filter (fun x => x <= m) (drop (S k) l))). unfold len in *. rewrite length_take. lia.
Qed.

Lemma count_ge l (k : nat) a m : StronglySorted Z.le l -> l !! k = Some a -> m <= a ->
  len l - Z.of_nat k <= len (filter (fun x => m <= x) l).
Proof.
  intros Hs Hk Ha. destruct (sorted_split l k a Hs Hk) as (_ & Hge & Hlt).
  assert (E : len (filter (fun x => m <= x) l) = len (filter (fun x => m <= x) (take k l)) + len (drop k l)).
  { rewrite <- (take_drop k l) at 1. rewrite filter_app, len_app. f_equal. f_equal.
    apply filter_Forall_all. eapply Forall_impl; [exact Hge|]. cbn. lia. }
  pose proof (len_nonneg (filter (fun x => m <= x) (take k l))). unfold len in *. rewrite length_drop in E. lia.
Qed.

Lemma halves_perm m l l' : l ≡ₚ l' -> halves m l -> halves m l'.
Proof. intros Hp Hh. unfold halves, len in *. by rewrite <- Hp. Qed.

Lemma median_sorted l nS t0 v : StronglySorted Z.le l -> 0 < len l ->
  exists m, median (mkFilter v l nS t0) = Some m /\ halves m l.
Proof.
  intros Hs Hl. unfold median. cbn [vSorted]. rewrite (proj2 (Z.ltb_lt _ _) Hl). cbn [negb].
  pose proof (Z.div_mod (len l) 2 ltac:(lia)) as Hdm. pose proof (Z.mod_pos_bound (len l) 2 ltac:(lia)).
  assert (Hodd : Z.land (len l) 1 = len l mod 2) by (change 1 with (Z.ones 1); by rewrite Z.land_ones). rewrite Hodd.
  destruct (lookup_lt_is_Some_2 l (Z.to_nat (len l / 2))) as [b Hb]; [unfold len in *; lia|].
  destruct (Z.eqb_spec (len l mod 2) 0) as [He|He]; cbn [negb].
  - destruct (lookup_lt_is_Some_2 l (Z.to_nat (len l / 2 - 1))) as [a Ha]; [unfold len in *; lia|].
    rewrite Ha, Hb. cbn. eexists. split; [done|].
    assert (Hab : a <= b).
    { destruct (sorted_split l _ a Hs Ha) as (_ & Hge & _). rewrite Forall_lookup in Hge. apply (Hge 1%nat b).
      rewrite lookup_drop. by replace (Z.to_nat (len l / 2 - 1) + 1)%nat with (Z.to_nat (len l / 2)) by lia. }
    assert (a <= Z.quot (a + b) 2 <= b).
    { pose proof (Z.quot_rem' (a + b) 2). pose proof (Z.rem_bound_abs (a + b) 2 ltac:(lia)). lia. }
    split; [pose proof (count_le l _ a (Z.quot (a + b) 2) Hs Ha ltac:(lia))|pose proof (count_ge l _ b (Z.quot (a + b) 2) Hs Hb ltac:(lia))]; lia.
  - exists b. split; [done|]. split; [pose proof (count_le l _ b b Hs Hb ltac:(lia))|pose proof (count_ge l _ b b Hs Hb ltac:(lia))]; lia.
Qed.

Lemma abs64_value n : abs64 n = Z.abs n.
Proof. unfold abs64. destruct (Z.leb_spec 0 n); lia. Qed.

Lemma maxAbs_sorted l nS t0 v : StronglySorted Z.le l -> 0 < len l ->
  exists m, maxAbs (mkFilter v l nS t0) = Some m /\ Forall (fun x => Z.abs x <= m) l /\ Exists (fun x => Z.abs x = m) l.
Proof.
  intros Hs Hl. unfold maxAbs. cbn [vSorted]. rewrite (proj2 (Z.ltb_lt _ _) Hl). cbn [negb].
  destruct (lookup_lt_is_Some_2 l 0) as [a Ha]; [unfold len in *; lia|].
  destruct (lookup_lt_is_Some_2 l (Z.to_nat (len l - 1))) as [b Hb]; [unfold len in *; lia|].
  destruct (sorted_split l 0 a Hs Ha) as (_ & Hmin & _), (sorted_split l _ b Hs Hb) as (Hmax & _ & _).
  rewrite drop_0 in Hmin. rewrite take_ge in Hmax by (unfold len in *; lia).
  assert (Hall : Forall (fun x => Z.abs x <= Z.max (Z.abs a) (Z.abs b)) l).
  { rewrite !Forall_forall in *. intros x Hx. specialize (Hmin x Hx). specialize (Hmax x Hx). cbn in *. lia. }
  assert (Hex : Exists (fun x => Z.abs x = Z.max (Z.abs a) (Z.abs b)) l).
  { apply Exists_exists. destruct (Z.max_spec (Z.abs a) (Z.abs b)) as [[_ ->]|[_ ->]];
      [exists b|exists a]; (split; [by eapply list_elem_of_lookup_2|done]). }
  destruct (Z.eqb_spec (len l) 1) as [E1|E1].
  - rewrite E1 in Hb. change (l !! 0%nat = Some b) in Hb. rewrite Ha in *. injection Hb as ->. cbn. eexists. split; [done|].
    rewrite abs64_value. by rewrite Z.max_id in Hall, Hex.
  - rewrite Ha, Hb. cbn. eexists. split; [done|]. by rewrite !abs64_value.
Qed.

Lemma resort_ok v f : 1 <= len v <= nSize f -> filter_ok (resort v f).
Proof. intros Hv. by split. Qed.

Lemma erase_last_length x v : len v - 1 <= len (erase_last x v) <= len v.
Proof.
  unfold erase_last. destruct (list_find _ _) as [[i y]|] eqn:E; [|lia].
  apply list_find_Some in E as (Hi & _). unfold len. rewrite length_rev, length_delete by eauto. apply lookup_lt_Some in Hi.
  rewrite length_rev in *. lia.
Qed.

(** ** Main theorems *)

(** The operations of [mruset], and their effect on the queue of an abstract
    bounded queue of distinct elements. *)
Inductive mru_op (T : Type) : Type := MruInsert (x : T) | MruMaxSize (s : Z).
Arguments MruInsert {T} _.
Arguments MruMaxSize {T} _.

Definition mru_step `{Countable T} (m : mruset T) (o : mru_op T) : mruset T :=
  match o with MruInsert x => snd (mruset_insert x m) | MruMaxSize s => mruset_max_size s m end.

Definition spec_step `{Countable T} (a : list T * Z) (o : mru_op T) : list T * Z :=
  let '(q, n) := a in
  match o with
  | MruInsert x => (if bool_decide (x ∈ q) then q else keep_last n (q ++ [x]), n)
  | MruMaxSize s => (keep_last s q, s)
  end.

(** [mruset] refines a queue of distinct elements that keeps the last [N]:
    after any sequence of insertions and changes of the limit, its set holds
    exactly the elements of that queue, so it never exceeds its limit; and an
    element that is already there is not moved to the back. *)
Theorem mruset_refines_bounded_queue `{Countable T} (ops : list (mru_op T)) n :
  0 <= n -> Forall (fun o => match o with MruMaxSize s => 0 <= s | _ => True end) ops ->
  let m := fold_left mru_step ops (mruset_new n) in
  let '(q, limit) := fold_left spec_step ops ([], n) in
  m_queue m = q /\ nMaxSize m = limit /\ NoDup q /\ (limit <> 0 -> len q <= limit) /\
  mruset_size m = len q /\ (forall x, mruset_count m x = bool_decide (x ∈ q)).
Proof.
  intros Hn Hops. cbn zeta.
  assert (Hinv : forall m q limit, mru_ok m -> m_queue m = q -> nMaxSize m = limit ->
    let m' := fold_left mru_step ops m in let '(q', limit') := fold_left spec_step ops (q, limit) in
    mru_ok m' /\ m_queue m' = q' /\ nMaxSize m' = limit').
  { induction Hops as [|o ops Ho _ IH]; intros m q limit Hm Hq Hlim; cbn [fold_left]; [done|].
    destruct o as [x|s]; cbn [mru_step spec_step].
    - destruct (mruset_insert_spec x m Hm) as (H1 & H2 & _ & H4). apply IH; [done|by rewrite H4, Hq, Hlim|by rewrite H2].
    - destruct (mruset_max_size_spec s m Hm Ho) as (H1 & H2 & H3). apply IH; [done|by rewrite H3, Hq|done]. }
  specialize (Hinv (mruset_new n) [] n). cbn zeta in Hinv.
  destruct (fold_left spec_step ops ([], n)) as [q limit].
  destruct Hinv as ((Hnd & Hset & _ & Hl) & Hq & Hlim);
    [split_and!; [constructor|done|done|intros _; exact Hn]|done|done|].
  rewrite Hq, Hlim in *. split_and!; [done|done|done|done| |].
  - unfold mruset_size. by rewrite Hset, size_list_to_set.
  - intros x. unfold mruset_count. rewrite Hset. apply bool_decide_ext. by rewrite elem_of_list_to_set.
Qed.

Lemma mruset_refines_bounded_queue_witness :
  m_queue (fold_left mru_step [MruInsert 1; MruInsert 2; MruInsert 1; MruInsert 3] (mruset_new (T := Z) 2)) = [2; 3].
Proof.
  assert (Hn : (0 <= 2)%Z) by lia.
  assert (Hops : Forall (fun o => match o with MruMaxSize s => 0 <= s | _ => True end)
    [MruInsert 1; MruInsert 2; MruInsert 1; MruInsert 3]) by (repeat constructor).
  exact (proj1 (mruset_refines_bounded_queue [MruInsert 1; MruInsert 2; MruInsert 1; MruInsert 3] 2 Hn Hops)).
Defined.

(** The median filter keeps between one and [nSize] values and a sorted copy
    of them through every operation; [input] forgets the oldest value only when
    full; [median] never fails and gives a value with at least half of the values
    on either side; [maxAbs] is the largest absolute value. *)
Theorem median_filter_correct f value : filter_ok f ->
  filter_ok (filter_input value f) /\ filter_ok (removeLast value f) /\
  vValues (filter_input value f) =
    drop (if len (vValues f) =? nSize f then 1 else 0) (vValues f) ++ [value] /\
  (exists m, median f = Some m /\ halves m (vValues f)) /\
  (exists m, maxAbs f = Some m /\ Forall (fun x => Z.abs x <= m) (vValues f) /\ Exists (fun x => Z.abs x = m) (vValues f)).
Proof.
  intros [Hsort Hlen]. destruct f as [v s n t0]. cbn [vValues vSorted nSize] in *.
  destruct (sorted_perm v) as [Hs Hp]. assert (0 < len s) by (rewrite Hsort; unfold len in *; rewrite Hp; lia).
  split_and!.
  - apply resort_ok. cbn [vValues nSize]. destruct (Z.eqb_spec (len v) n); rewrite len_app, len_cons, len_nil.
    + destruct v as [|x v]; [rewrite len_nil in *; lia|]. cbn [tail]. rewrite len_cons in *. pose proof (len_nonneg v). lia.
    + lia.
  - apply resort_ok. cbn [vValues nSize tInitial]. pose proof (erase_last_length value v) as He.
    destruct (erase_last value v) as [|x w] eqn:E; [|pose proof (len_nonneg w); rewrite len_cons in *; lia].
    rewrite len_cons, len_nil in *. lia.
  - unfold filter_input. cbn [vValues nSize resort]. destruct (len v =? n); [|done]. by destruct v.
  - destruct (median_sorted s n t0 v) as (m & Hm & Hh); [by rewrite Hsort|done|]. exists m. split; [done|].
    eapply halves_perm; [|exact Hh]. by rewrite Hsort.
  - destruct (maxAbs_sorted s n t0 v) as (m & Hm & Ha & Hx); [by rewrite Hsort|done|]. exists m. split; [done|].
    rewrite Hsort in Ha, Hx. by rewrite Hp in Ha, Hx.
Qed.

Lemma median_filter_correct_witness :
  exists m, median (filter_input 7 (filter_input 3 (filter_new 5 0))) = Some m /\ halves m [0; 3; 7].
Proof.
  assert (H0 : filter_ok (filter_new 5 0)) by (split; [reflexivity|vm_compute; split; discriminate]).
  destruct (median_filter_correct (filter_new 5 0) 3 H0) as (H1 & _).
  destruct (median_filter_correct _ 7 H1) as (H2 & _).
  destruct (median_filter_correct _ 0 H2) as (_ & _ & _ & Hm & _). exact Hm.
Defined.
