(* ===== verification/Crypto.v ===== *)
(** * util.h, key.h, stealth.h: hashes, key identifiers and destinations

    SHA-256 and RIPEMD-160 are OpenSSL's: the class [Crypto] holds them as
    parameters and [Crypto_spec] what SHA256(3) and RIPEMD160(3) document (the
    digests have 32 and 20 bytes; a context fed in pieces hashes the
    concatenation).  The hashes that the program builds from them, the hashing
    stream [CHashWriter], and the identifiers a transaction output can be sent
    to are modelled here. *)
From Stdlib Require Import ZArith Lia Bool.
From stdpp Require Import prelude.
From S2P Require Import Prelude Uint256 DataStream Serialize.

Class Crypto : Type := {
  SHA256 : list Z -> list Z;
  RIPEMD160 : list Z -> list Z;
  SHA1 : list Z -> list Z;
  SHA256_CTX : Type;
  SHA256_Init : SHA256_CTX;
  SHA256_Update : SHA256_CTX -> list Z -> SHA256_CTX;
  SHA256_Final : SHA256_CTX -> list Z
}.

Class Crypto_spec `{Crypto} : Prop := {
  SHA256_ok : forall m, digits 256 (SHA256 m) /\ length (SHA256 m) = 32%nat;
  RIPEMD160_ok : forall m, digits 256 (RIPEMD160 m) /\ length (RIPEMD160 m) = 20%nat;
  SHA1_ok : forall m, digits 256 (SHA1 m) /\ length (SHA1 m) = 20%nat;
  SHA256_Final_spec : forall ms,
    SHA256_Final (fold_left SHA256_Update ms SHA256_Init) = SHA256 (concat ms)
}.

(** ** Hashes *)

Definition SER_GETHASH : Z := 4.
Definition PROTOCOL_VERSION : Z := 60018.

Section hashing.
Context `{Crypto}.

(** [hash1] and [hash2] are [uint256] objects written through a byte pointer. *)
Definition Hash (v : list Z) : base_uint :=
  let hash1 := words_of_bytes (SHA256 v) in
  words_of_bytes (SHA256 (bu_bytes hash1)).

(** [CHashWriter] *)
Record CHashWriter : Type := mkHashWriter {
  hw_ctx : SHA256_CTX;
  hw_nType : Z;
  hw_nVersion : Z
}.

Definition hw_new (nTypeIn nVersionIn : Z) : CHashWriter :=
  mkHashWriter SHA256_Init nTypeIn nVersionIn.

Definition hw_write (ss : CHashWriter) (pch : list Z) : CHashWriter :=
  mkHashWriter (SHA256_Update (hw_ctx ss) pch) (hw_nType ss) (hw_nVersion ss).

Definition hw_GetHash (ss : CHashWriter) : base_uint :=
  let hash1 := words_of_bytes (SHA256_Final (hw_ctx ss)) in
  words_of_bytes (SHA256 (bu_bytes hash1)).

Definition hw_put {T} (c : Ser T) (ss : CHashWriter) (obj : T) : CHashWriter :=
  hw_write ss (Serialize c (hw_nType ss) (hw_nVersion ss) obj).

Definition Hash2 (p1 p2 : list Z) : base_uint :=
  let ctx := SHA256_Update (SHA256_Update SHA256_Init p1) p2 in
  let hash1 := words_of_bytes (SHA256_Final ctx) in
  words_of_bytes (SHA256 (bu_bytes hash1)).

Definition Hash3 (p1 p2 p3 : list Z) : base_uint :=
  let ctx := SHA256_Update (SHA256_Update (SHA256_Update SHA256_Init p1) p2) p3 in
  let hash1 := words_of_bytes (SHA256_Final ctx) in
  words_of_bytes (SHA256 (bu_bytes hash1)).

Definition SerializeHash {T} (c : Ser T) (obj : T) : base_uint :=
  hw_GetHash (hw_put c (hw_new SER_GETHASH PROTOCOL_VERSION) obj).

Definition Hash160 (vch : list Z) : base_uint :=
  let hash1 := words_of_bytes (SHA256 vch) in
  words_of_bytes (RIPEMD160 (bu_bytes hash1)).
End hashing.

(** ** Keys and destinations *)

(** [CKeyID] and [CScriptID] are [uint160]: 5 words. *)
Definition CKeyID : Type := base_uint.
Definition CScriptID : Type := base_uint.

Record CPubKey : Type := mkPubKey { vchPubKey : list Z }.

Definition pk_eq (a b : CPubKey) : bool := bytes_eqb (vchPubKey a) (vchPubKey b).
Definition pk_lt (a b : CPubKey) : bool := lex_lt (vchPubKey a) (vchPubKey b).
Definition GetID `{Crypto} (k : CPubKey) : CKeyID := Hash160 (vchPubKey k).
Definition pk_GetHash `{Crypto} (k : CPubKey) : base_uint := Hash (vchPubKey k).
Definition pk_IsValid (k : CPubKey) : bool := (len (vchPubKey k) =? 33) || (len (vchPubKey k) =? 65).
Definition pk_IsCompressed (k : CPubKey) : bool := len (vchPubKey k) =? 33.
Definition ser_pubkey : Ser CPubKey := ser_struct vchPubKey mkPubKey ser_bytes.

(** Stealth addresses.  The constructor leaves [prefix] uninitialised; it is
    the argument [p] of [stealth_new]. *)
Record stealth_prefix : Type := mkPrefix { number_bits : Z; bitfield : Z }.

Record CStealthAddress : Type := mkStealth {
  options : Z;
  scan_pubkey : list Z;
  spend_pubkey : list Z;
  number_signatures : Z;
  prefix : stealth_prefix;
  label : list Z;
  scan_secret : list Z;
  spend_secret : list Z;
  isEnigmaAddress : bool
}.

Definition ec_secret_size : Z := 32.
Definition ec_compressed_size : Z := 33.

Definition stealth_new (p : stealth_prefix) : CStealthAddress :=
  mkStealth 0 [] [] 0 p [] [] [] false.

(** [memcmp] of the first 33 bytes; both keys are at least that long. *)
Definition stealth_lt (x y : CStealthAddress) : bool :=
  lex_lt (take (Z.to_nat ec_compressed_size) (scan_pubkey x))
         (take (Z.to_nat ec_compressed_size) (scan_pubkey y)).

Definition IsOwned (a : CStealthAddress) : bool := len (scan_secret a) =? ec_secret_size.

(** The members read and written; the others keep the value of the object
    [this] that is read into. *)
Definition ser_stealth (this : CStealthAddress) : Ser CStealthAddress :=
  ser_struct
    (fun a => (options a, (scan_pubkey a, spend_pubkey a, label a, (scan_secret a, spend_secret a))))
    (fun '(o, (sc, sp, lb, (ss, es))) =>
       mkStealth o sc sp (number_signatures this) (prefix this) lb ss es (isEnigmaAddress this))
    (ser_pair (ser_uint 1)
       (ser_tuple4 ser_bytes ser_bytes ser_string (ser_pair ser_bytes ser_bytes))).

Section enigma_hash.
Context `{Crypto}.

Definition ser_uint256 : Ser base_uint := ser_struct bu_bytes words_of_bytes (ser_flat 32).

Definition GetEnigmaAddressPrivateHash (a : CStealthAddress) : base_uint :=
  let ss := hw_new SER_GETHASH PROTOCOL_VERSION in
  let ss := hw_put ser_bytes ss (scan_pubkey a) in
  let ss := hw_put ser_bytes ss (spend_pubkey a) in
  let ss := hw_put ser_bytes ss (scan_secret a) in
  let ss := hw_put ser_bytes ss (spend_secret a) in
  hw_GetHash ss.

Definition GetEnigmaHash3 (addressHash sourceHash index : base_uint) : base_uint :=
  let ss := hw_new SER_GETHASH PROTOCOL_VERSION in
  let ss := hw_put ser_uint256 ss addressHash in
  let ss := hw_put ser_uint256 ss sourceHash in
  let ss := hw_put ser_uint256 ss index in
  hw_GetHash ss.

Definition GetEnigmaHash (a : CStealthAddress) (sourceHash index : base_uint) : base_uint :=
  GetEnigmaHash3 (GetEnigmaAddressPrivateHash a) sourceHash index.
End enigma_hash.

Inductive CTxDestination : Type :=
| CNoDestination
| DestKeyID (id : CKeyID)
| DestScriptID (id : CScriptID)
| DestStealth (a : CStealthAddress).

(** ** An implementation of the specification

    Not a secure hash: it shows that the laws can hold together. *)
#[local] Instance Crypto_toy : Crypto := {|
  SHA256 m := to_digits 256 32 (of_digits 257 m + 1);
  RIPEMD160 m := to_digits 256 20 (of_digits 257 m + 2);
  SHA1 m := to_digits 256 20 (of_digits 257 m + 3);
  SHA256_CTX := list Z;
  SHA256_Init := [];
  SHA256_Update c m := c ++ m;
  SHA256_Final c := to_digits 256 32 (of_digits 257 c + 1)
|}.

Lemma Crypto_toy_spec : Crypto_spec.
Proof.
  split; [intros m; split; [apply to_digits_ok; lia|apply length_to_digits]..|].
  intros ms. unfold SHA256_Final, SHA256_Update, SHA256_Init, SHA256; cbn beta iota delta [Crypto_toy].
  assert (forall acc, fold_left (fun c m => c ++ m) ms acc = acc ++ concat ms) as Hf.
  { induction ms as [|m ms IH]; intros acc; simpl; [by rewrite app_nil_r|]. by rewrite IH, app_assoc. }
  by rewrite Hf.
Qed.

(** ** Lemmas *)

Section facts.
Context `{CS : Crypto_spec}.

Lemma wf_of_sha m : wf 8 (words_of_bytes (SHA256 m)).
Proof. destruct (SHA256_ok m) as [Hd Hl]. by apply (words_of_bytes_spec 8). Qed.

Lemma wf_Hash v : wf 8 (Hash v).
Proof. apply wf_of_sha. Qed.

Lemma wf_Hash160 v : wf 5 (Hash160 v).
Proof. unfold Hash160. destruct (RIPEMD160_ok (bu_bytes (words_of_bytes (SHA256 v)))). by apply (words_of_bytes_spec 5). Qed.

(** The stream holds the bytes written to it since [hw_new]. *)
Definition hw_holds (ss : CHashWriter) (l : list Z) : Prop :=
  exists ms, hw_ctx ss = fold_left SHA256_Update ms SHA256_Init /\ concat ms = l.

Lemma hw_new_holds ty ver : hw_holds (hw_new ty ver) [].
Proof. by exists []. Qed.

Lemma hw_write_holds ss l m : hw_holds ss l -> hw_holds (hw_write ss m) (l ++ m).
Proof.
  intros (ms & E & <-). exists (ms ++ [m]). rewrite fold_left_app, concat_app. simpl.
  rewrite E, app_nil_r. done.
Qed.

Lemma hw_put_holds {T} (c : Ser T) ss l x :
  hw_holds ss l -> hw_holds (hw_put c ss x) (l ++ Serialize c (hw_nType ss) (hw_nVersion ss) x).
Proof. apply hw_write_holds. Qed.

Lemma hw_GetHash_holds ss l : hw_holds ss l -> hw_GetHash ss = Hash l.
Proof. intros (ms & E & <-). unfold hw_GetHash, Hash. by rewrite E, SHA256_Final_spec. Qed.

Lemma SerializeHash_value {T} (c : Ser T) x :
  SerializeHash c x = Hash (Serialize c SER_GETHASH PROTOCOL_VERSION x).
Proof. unfold SerializeHash. apply hw_GetHash_holds, (hw_put_holds c (hw_new _ _) [] x), hw_new_holds. Qed.

Lemma Hash2_value a b : Hash2 a b = Hash (a ++ b).
Proof.
  apply (hw_GetHash_holds (hw_write (hw_write (hw_new 0 0) a) b)), hw_write_holds, (hw_write_holds (hw_new 0 0) []), hw_new_holds.
Qed.

Lemma Hash3_value a b c : Hash3 a b c = Hash (a ++ b ++ c).
Proof.
  rewrite app_assoc. apply (hw_GetHash_holds (hw_write (hw_write (hw_write (hw_new 0 0) a) b) c)).
  apply hw_write_holds, hw_write_holds, (hw_write_holds (hw_new 0 0) []), hw_new_holds.
Qed.
End facts.

Lemma ser_uint256_correct : ser_correct (wf 8) ser_uint256.
Proof.
  split; intros ty ver; simpl.
  - intros x Hx. apply bu_bytes_ok.
  - intros x Hx. unfold len. rewrite length_bu_bytes, (proj1 Hx). done.
  - intros x Hx. eapply reads_bind_nil; [apply reads_read; unfold len; by rewrite length_bu_bytes, (proj1 Hx)|].
    rewrite (words_of_bu_bytes 8) by done. apply reads_ret.
  - eapply safe_bind; [apply (safe_read 32); lia|]. intros l [Hd Hl]. apply safe_ret.
    apply (words_of_bytes_spec 8); [done|]. unfold len in Hl. lia.
Qed.

Lemma ser_pubkey_correct : ser_correct (fun k => bytes_wf (vchPubKey k)) ser_pubkey.
Proof. apply ser_struct_correct; [by intros []|done|apply ser_bytes_correct]. Qed.

#[export] Hint Resolve ser_uint256_correct ser_pubkey_correct : cloak.

(** ** Main theorems *)

(** Every way of hashing agrees with the hash of the concatenated bytes: the
    two- and three-range [Hash], the stream [CHashWriter] fed with any number of
    serialized objects (as [SerializeHash] and the Enigma address hash use it),
    and the digests are well-formed [uint256] and [uint160] numbers. *)
Theorem hashes_agree `{CS : Crypto_spec} :
  (forall v, wf 8 (Hash v) /\ wf 5 (Hash160 v)) /\
  (forall p1 p2, Hash2 p1 p2 = Hash (p1 ++ p2)) /\
  (forall p1 p2 p3, Hash3 p1 p2 p3 = Hash (p1 ++ p2 ++ p3)) /\
  (forall T (c : Ser T) ty ver (xs : list T),
     hw_GetHash (fold_left (hw_put c) xs (hw_new ty ver)) = Hash (concat (map (Serialize c ty ver) xs))) /\
  (forall T (c : Ser T) x, SerializeHash c x = Hash (Serialize c SER_GETHASH PROTOCOL_VERSION x)) /\
  (forall a, GetEnigmaAddressPrivateHash a =
     Hash (concat (map (Serialize ser_bytes SER_GETHASH PROTOCOL_VERSION)
             [scan_pubkey a; spend_pubkey a; scan_secret a; spend_secret a]))).
Proof.
  assert (Hfold : forall T (c : Ser T) ty ver (xs : list T),
     hw_GetHash (fold_left (hw_put c) xs (hw_new ty ver)) = Hash (concat (map (Serialize c ty ver) xs))).
  { intros T c ty ver xs. apply hw_GetHash_holds.
    assert (forall l ss, hw_nType ss = ty -> hw_nVersion ss = ver -> hw_holds ss l ->
      hw_holds (fold_left (hw_put c) xs ss) (l ++ concat (map (Serialize c ty ver) xs))) as Hf;
      [|apply (Hf []); [done..|apply hw_new_holds]].
    induction xs as [|x xs IH]; intros l ss <- <- Hl; simpl; [by rewrite app_nil_r|].
    rewrite app_assoc. apply IH; [done..|]. by apply hw_put_holds. }
  split_and!.
  - intros v. split; [apply wf_Hash|apply wf_Hash160].
  - apply Hash2_value.
  - apply Hash3_value.
  - exact Hfold.
  - intros. apply SerializeHash_value.
  - intros a. rewrite <- Hfold. done.
Qed.

Lemma hashes_agree_witness : Hash2 [1; 2] [3] = Hash [1; 2; 3].
Proof. apply (proj1 (proj2 (hashes_agree (CS := Crypto_toy_spec)))). Defined.
