(* ===== verification/Bignum.v ===== *)
(** * bignum.h: [CBigNum], the C++ wrapper of OpenSSL's [BIGNUM]

    OpenSSL is not part of the repository: the functions the wrapper calls are
    the parameters of the class [BN], and the class [BN_spec] states what
    bn(3), BN_add(3), BN_bn2bin(3) and BN_set_word(3) document about them.  A
    [BIGNUM] is an arbitrary integer.  Calls are taken to succeed (they fail
    only when memory runs out), except for a division by zero. *)
From Stdlib Require Import ZArith Lia Bool.
From stdpp Require Import prelude.
From S2P Require Import Prelude Uint256 DataStream Serialize.

(** ** OpenSSL *)

Class BN : Type := {
  BN_mpi2bn : list Z -> Z;
  BN_bn2mpi : Z -> list Z;
  BN_add : Z -> Z -> Z;
  BN_sub : Z -> Z -> Z;
  BN_mul : Z -> Z -> Z;
  (** [None] when the divisor is zero, else quotient and remainder. *)
  BN_div : Z -> Z -> option (Z * Z);
  BN_lshift : Z -> Z -> Z;
  BN_rshift : Z -> Z -> Z;
  BN_cmp : Z -> Z -> Z;
  BN_is_zero : Z -> bool;
  BN_set_word : Z -> Z;
  BN_get_word : Z -> Z;
  BN_is_negative : Z -> bool;
  BN_set_negative : Z -> bool -> Z
}.

(** *** The MPI format of BN_bn2mpi(3)

    "The number's length in bytes represented as a 4-byte big-endian number,
    and the number itself in big-endian format, where the most significant bit
    signals a negative number (the representation of numbers with the MSB set
    is prefixed with null byte)." *)

Definition of_be (l : list Z) : Z := of_digits 256 (rev l).
Definition be4 (n : Z) : list Z := rev (to_digits 256 4 n).

(** The number of bytes of a positive magnitude, and its big-endian bytes. *)
Definition nbytes (m : Z) : nat := Z.to_nat ((nbits m + 7) / 8).
Definition be_bytes (m : Z) : list Z := rev (to_digits 256 (nbytes m) m).

(** Value of the big-endian body of an MPI number. *)
Definition mpi_value (d : list Z) : Z :=
  match d with
  | [] => 0
  | b :: t => if 128 <=? b then - of_be (b - 128 :: t) else of_be d
  end.

(** The body that represents an integer. *)
Definition mpi_body (z : Z) : list Z :=
  match be_bytes (Z.abs z) with
  | [] => []
  | b :: t => if 128 <=? b then (if z <? 0 then 128 else 0) :: b :: t
              else (if z <? 0 then b + 128 else b) :: t
  end.

Class BN_spec `{BN} : Prop := {
  BN_mpi2bn_spec : forall d, digits 256 d -> len d < 2 ^ 32 ->
    BN_mpi2bn (be4 (len d) ++ d) = mpi_value d;
  BN_bn2mpi_spec : forall z, BN_bn2mpi z = be4 (len (mpi_body z)) ++ mpi_body z;
  BN_add_spec : forall a b, BN_add a b = a + b;
  BN_sub_spec : forall a b, BN_sub a b = a - b;
  BN_mul_spec : forall a b, BN_mul a b = a * b;
  BN_div_spec : forall a b,
    BN_div a b = if b =? 0 then None else Some (Z.quot a b, Z.rem a b);
  BN_lshift_spec : forall a n, 0 <= n -> BN_lshift a n = a * 2 ^ n;
  BN_rshift_spec : forall a n, 0 <= n -> 0 <= a -> BN_rshift a n = a / 2 ^ n;
  BN_cmp_spec : forall a b,
    BN_cmp a b = match a ?= b with Lt => -1 | Eq => 0 | Gt => 1 end;
  BN_is_zero_spec : forall a, BN_is_zero a = (a =? 0);
  BN_set_word_spec : forall w, fits 64 w -> BN_set_word w = w;
  BN_get_word_spec : forall a,
    BN_get_word a = if Z.abs a <? 2 ^ 64 then Z.abs a else 2 ^ 64 - 1;
  BN_is_negative_spec : forall a, BN_is_negative a = (a <? 0);
  BN_set_negative_spec : forall a n, BN_set_negative a n = if n then - Z.abs a else Z.abs a
}.

(** ** [CBigNum]: conversions *)

Section bignum.
Context `{BN}.

Definition setulong (n : Z) : Z := BN_set_word n.
Definition getulong (bn : Z) : Z := BN_get_word bn.
Definition getuint (bn : Z) : Z := u32 (BN_get_word bn).

Definition INT_MAX : Z := 2 ^ 31 - 1.
Definition INT_MIN : Z := - 2 ^ 31.

Definition getint (bn : Z) : Z :=
  let n := BN_get_word bn in
  if negb (BN_is_negative bn)
  then (if INT_MAX <? n then INT_MAX else n)
  else (if INT_MAX <? n then INT_MIN else - n).

(** The body of the loop over the 8 bytes of [n], most significant first:
    [out] is what was stored through [p]. *)
Fixpoint set64_loop (iter : nat) (n : Z) (fLeadingZeroes fNegative : bool) (out : list Z) : list Z :=
  match iter with
  | O => out
  | S iter =>
      let c := Z.land (Z.shiftr n 56) 0xff in
      let n := u64 (Z.shiftl n 8) in
      if fLeadingZeroes then
        if c =? 0 then set64_loop iter n true fNegative out
        else if negb (Z.land c 0x80 =? 0)
        then set64_loop iter n false fNegative (out ++ [if fNegative then 0x80 else 0; c])
        else set64_loop iter n false fNegative (out ++ [if fNegative then Z.lor c 0x80 else c])
      else set64_loop iter n false fNegative (out ++ [c])
  end.

(** [pch[0..3] = nSize], big-endian, in front of the bytes stored. *)
Definition mpi_header (nSize : Z) : list Z :=
  [Z.land (Z.shiftr nSize 24) 0xff; Z.land (Z.shiftr nSize 16) 0xff;
   Z.land (Z.shiftr nSize 8) 0xff; Z.land nSize 0xff].

Definition mpi_of (out : list Z) : list Z := mpi_header (len out) ++ out.

Definition setint64 (sn : Z) : Z :=
  let '(n, fNegative) :=
    if sn <? 0 then (u64 (u64 (- (sn + 1)) + 1), true) else (u64 sn, false) in
  BN_mpi2bn (mpi_of (set64_loop 8 n true fNegative [])).

Definition setuint64 (n : Z) : Z := BN_mpi2bn (mpi_of (set64_loop 8 n true false [])).

(** The same loop over the 32 bytes of a [uint256], from the last one down. *)
Fixpoint set256_loop (src : list Z) (fLeadingZeroes : bool) (out : list Z) : list Z :=
  match src with
  | [] => out
  | c :: src =>
      if fLeadingZeroes then
        if c =? 0 then set256_loop src true out
        else if negb (Z.land c 0x80 =? 0) then set256_loop src false (out ++ [0; c])
        else set256_loop src false (out ++ [c])
      else set256_loop src false (out ++ [c])
  end.

Definition setuint256 (n : base_uint) : Z :=
  BN_mpi2bn (mpi_of (set256_loop (rev (bu_bytes n)) true [])).

Definition CBigNum_int (n : Z) : Z := if 0 <=? n then setulong n else setint64 n.

(** [vch[4] &= 0x7f] after [BN_bn2mpi], then the bytes from the last down to
    index 4 are copied into the low bytes of an [sz]-byte integer. *)
Definition low_bytes (sz : nat) (bn : Z) : list Z :=
  let vch := BN_bn2mpi bn in
  if len vch <? 4 then replicate sz 0
  else
    let body := match drop 4 vch with
                | [] => []
                | b :: t => Z.land b 0x7f :: t
                end in
    let l := take sz (rev body) in
    l ++ replicate (sz - length l) 0.

Definition getuint64 (bn : Z) : Z := of_digits 256 (low_bytes 8 bn).
Definition getuint256 (bn : Z) : base_uint := words_of_bytes (low_bytes 32 bn).

Definition setvch (v : list Z) : Z := BN_mpi2bn (mpi_header (len v) ++ rev v).

Definition getvch (bn : Z) : list Z :=
  let v := BN_bn2mpi bn in
  if len v <=? 4 then [] else rev (drop 4 v).

(** ** Compact targets through the MPI format *)

Definition set_nth (i : nat) (c : bool) (b : Z) (v : list Z) : list Z := if c then <[i := b]> v else v.

Definition bn_SetCompact (nCompact : Z) : Z :=
  let nSize := Z.shiftr nCompact 24 in
  let v := replicate (Z.to_nat (4 + nSize)) 0 in
  let v := <[3%nat := u8 nSize]> v in
  let v := set_nth 4 (1 <=? nSize) (Z.land (Z.shiftr nCompact 16) 0xff) v in
  let v := set_nth 5 (2 <=? nSize) (Z.land (Z.shiftr nCompact 8) 0xff) v in
  let v := set_nth 6 (3 <=? nSize) (Z.land (Z.shiftr nCompact 0) 0xff) v in
  BN_mpi2bn v.

Definition bn_GetCompact (bn : Z) : Z :=
  let v := BN_bn2mpi bn in
  let nSize := u32 (len v - 4) in
  let nCompact := u32 (Z.shiftl nSize 24) in
  let nCompact := if 1 <=? nSize then Z.lor nCompact (Z.shiftl (nth 4 v 0) 16) else nCompact in
  let nCompact := if 2 <=? nSize then Z.lor nCompact (Z.shiftl (nth 5 v 0) 8) else nCompact in
  if 3 <=? nSize then Z.lor nCompact (Z.shiftl (nth 6 v 0) 0) else nCompact.

(** ** Text *)

Definition bn_hexdigit (c : Z) : Z :=
  if (48 <=? c) && (c <=? 57) then c - 48
  else if (65 <=? c) && (c <=? 70) then c - 55
  else if (97 <=? c) && (c <=? 102) then c - 87
  else 0.
Definition isxdigit (c : Z) : bool :=
  ((48 <=? c) && (c <=? 57)) || ((65 <=? c) && (c <=? 70)) || ((97 <=? c) && (c <=? 102)).

Fixpoint hex_loop (psz : list Z) (bn : Z) : Z :=
  match psz with
  | c :: t => if isxdigit c then hex_loop t (BN_add (BN_lshift bn 4) (CBigNum_int (bn_hexdigit c)))
              else bn
  | [] => bn
  end.

Definition bn_SetHex (str : list Z) : Z :=
  let psz := skip_spaces str in
  let '(fNegative, psz) :=
    match psz with
    | c :: t => if c =? 45 then (true, t) else (false, psz)
    | [] => (false, psz)
    end in
  let psz := skip_spaces (skip_0x psz) in
  let bn := hex_loop psz (CBigNum_int 0) in
  if fNegative then BN_sub (CBigNum_int 0) bn else bn.

(** The digit loop of [ToString]; [fuel] bounds the number of digits and the
    result is least significant first.  [None]: [bignum_error]. *)
Fixpoint tostring_loop (fuel : nat) (bn bnBase : Z) : option (list Z) :=
  if 0 <? BN_cmp bn 0 then
    match fuel with
    | O => None
    | S fuel =>
        match BN_div bn bnBase with
        | None => None
        | Some (dv, rem) =>
            match tostring_loop fuel dv bnBase with
            | None => None
            | Some str => Some (hexchar (getulong rem) :: str)
            end
        end
    end
  else Some [].

Definition bn_ToString (nBase : Z) (bn : Z) : option (list Z) :=
  let a := BN_set_negative bn false in
  if BN_cmp a 0 =? 0 then Some [48]
  else
    match tostring_loop (Z.to_nat (nbits a)) a (CBigNum_int nBase) with
    | None => None
    | Some str => Some (rev (str ++ (if BN_is_negative bn then [45] else [])))
    end.

(** ** Operators *)

Definition bn_is_zero (a : Z) : bool := BN_is_zero a.
Definition bn_neg (a : Z) : Z := BN_set_negative a (negb (BN_is_negative a)).
Definition bn_div (a b : Z) : option Z := fst <$> BN_div a b.
Definition bn_mod (a b : Z) : option Z := snd <$> BN_div a b.

Definition bn_shr (a shift : Z) : Z :=
  if 0 <? BN_cmp (BN_lshift (CBigNum_int 1) shift) a then CBigNum_int 0 else BN_rshift a shift.

Definition bn_eq (a b : Z) : bool := BN_cmp a b =? 0.
Definition bn_ne (a b : Z) : bool := negb (BN_cmp a b =? 0).
Definition bn_le (a b : Z) : bool := BN_cmp a b <=? 0.
Definition bn_ge (a b : Z) : bool := 0 <=? BN_cmp a b.
Definition bn_lt (a b : Z) : bool := BN_cmp a b <? 0.
Definition bn_gt (a b : Z) : bool := 0 <? BN_cmp a b.

(** ** Serialization: the vector of [getvch] *)

Definition ser_bignum : Ser Z := ser_struct getvch setvch ser_bytes.
End bignum.

(** ** An implementation of the specification *)

Definition BN_Z : BN := {|
  BN_mpi2bn l := mpi_value (drop 4 l);
  BN_bn2mpi z := be4 (len (mpi_body z)) ++ mpi_body z;
  BN_add := Z.add; BN_sub := Z.sub; BN_mul := Z.mul;
  BN_div a b := if b =? 0 then None else Some (Z.quot a b, Z.rem a b);
  BN_lshift a n := a * 2 ^ n; BN_rshift a n := a / 2 ^ n;
  BN_cmp a b := match a ?= b with Lt => -1 | Eq => 0 | Gt => 1 end;
  BN_is_zero a := a =? 0;
  BN_set_word w := w;
  BN_get_word a := if Z.abs a <? 2 ^ 64 then Z.abs a else 2 ^ 64 - 1;
  BN_is_negative a := a <? 0;
  BN_set_negative a n := if n then - Z.abs a else Z.abs a
|}.

Lemma BN_Z_spec : @BN_spec BN_Z.
Proof. split; simpl; try done. Qed.

(** ** Big-endian numbers *)

Lemma of_be_cons b t : of_be (b :: t) = b * 256 ^ len t + of_be t.
Proof.
  unfold of_be. simpl rev. rewrite of_digits_app, length_rev. cbn [of_digits]. unfold len. lia.
Qed.

Lemma of_be_leading n l : of_be (replicate n 0 ++ l) = of_be l.
Proof.
  induction n as [|n IH]; simpl; [done|]. rewrite of_be_cons, IH. lia.
Qed.

Lemma of_be_bound l : digits 256 l -> 0 <= of_be l < 256 ^ len l.
Proof.
  intros Hl. unfold of_be, len. rewrite <- length_rev. apply of_digits_bound; [lia|by apply Forall_rev].
Qed.

Lemma of_be_bytes m : 0 <= m -> of_be (be_bytes m) = m.
Proof.
  intros Hm. unfold of_be, be_bytes. rewrite rev_involutive, of_to_digits by lia.
  apply Z.mod_small. split; [done|]. unfold nbytes.
  pose proof (nbits_bound m Hm). pose proof (nbits_nonneg m).
  pose proof (Z.div_mod (nbits m + 7) 8 ltac:(lia)). pose proof (Z.mod_pos_bound (nbits m + 7) 8 ltac:(lia)).
  rewrite Z2Nat.id by lia. change 256 with (2 ^ 8). rewrite pow2_pow_mul by lia.
  eapply Z.lt_le_trans; [eassumption|]. apply Z.pow_le_mono_r; lia.
Qed.

Lemma be_bytes_ok m : digits 256 (be_bytes m).
Proof. apply Forall_rev, to_digits_ok; lia. Qed.

Lemma len_be_bytes m : len (be_bytes m) = (nbits m + 7) / 8.
Proof.
  unfold len, be_bytes, nbytes. rewrite length_rev, length_to_digits. apply Z2Nat.id.
  apply Z.div_pos; [|lia]. pose proof (nbits_nonneg m). lia.
Qed.

(** The leading byte of a positive number is not zero. *)
Lemma be_bytes_head m : 0 < m -> exists b t, be_bytes m = b :: t /\ 0 < b < 256 /\ digits 256 t.
Proof.
  intros Hm. pose proof (be_bytes_ok m) as Hd. pose proof (of_be_bytes m ltac:(lia)) as Hv.
  pose proof (len_be_bytes m) as Hl. destruct (nbits_low m Hm) as [Hlow Hone].
  pose proof (Z.div_mod (nbits m + 7) 8 ltac:(lia)). pose proof (Z.mod_pos_bound (nbits m + 7) 8 ltac:(lia)).
  destruct (be_bytes m) as [|b t]; [unfold len in Hl; simpl in Hl; lia|].
  apply Forall_cons in Hd as [Hb Ht]. exists b, t. split; [done|]. split; [|done].
  destruct (Z.eq_dec b 0) as [->|]; [|lia]. exfalso. rewrite of_be_cons in Hv.
  pose proof (of_be_bound t Ht) as Hbt. change 256 with (2 ^ 8) in Hbt.
  rewrite pow2_pow_mul in Hbt by (lia || apply len_nonneg).
  assert (len t = len (0 :: t) - 1) as Hlt by (unfold len; simpl; lia). rewrite Hl in Hlt.
  assert (2 ^ (8 * len t) <= 2 ^ (nbits m - 1)) by (apply Z.pow_le_mono_r; lia). lia.
Qed.

Lemma be_bytes_0 : be_bytes 0 = [].
Proof. done. Qed.

(** ** The MPI body *)

Lemma mpi_body_value z : mpi_value (mpi_body z) = z.
Proof.
  unfold mpi_body. destruct (Z.eq_dec z 0) as [->|Hz]; [done|].
  destruct (be_bytes_head (Z.abs z)) as (b & t & E & Hb & Ht); [lia|].
  pose proof (of_be_bytes (Z.abs z) ltac:(lia)) as Hv. rewrite E in *. rewrite of_be_cons in Hv.
  destruct (Z.leb_spec 128 b), (Z.ltb_spec z 0); cbn [mpi_value].
  - change (128 <=? 128) with true. cbn [mpi_value]. rewrite !of_be_cons. lia.
  - change (128 <=? 0) with false. rewrite !of_be_cons. lia.
  - rewrite (proj2 (Z.leb_le 128 (b + 128))) by lia. rewrite of_be_cons. lia.
  - rewrite (proj2 (Z.leb_gt 128 b)) by lia. rewrite of_be_cons. lia.
Qed.

Lemma mpi_body_ok z : digits 256 (mpi_body z).
Proof.
  unfold mpi_body. pose proof (be_bytes_ok (Z.abs z)) as Hd.
  destruct Hd as [|b t Hb Ht]; [constructor|].
  destruct (Z.leb_spec 128 b), (z <? 0); repeat constructor; (done || lia).
Qed.

Lemma mpi_body_len z : len (mpi_body z) <= (nbits (Z.abs z) + 7) / 8 + 1.
Proof.
  unfold mpi_body. pose proof (len_be_bytes (Z.abs z)) as Hl.
  destruct (be_bytes (Z.abs z)) as [|b t]; unfold len in *; [simpl in *; lia|].
  destruct (128 <=? b), (z <? 0); simpl in *; lia.
Qed.

Lemma mpi_header_be4 n : fits 32 n -> mpi_header n = be4 n.
Proof.
  intros Hn. unfold mpi_header, be4. change 0xff with (Z.ones 8).
  rewrite !Z.land_ones, !Z.shiftr_div_pow2 by lia. change (2 ^ 8) with 256.
  simpl rev. rewrite !Z.div_div by lia. done.
Qed.

Lemma len_be4 n : len (be4 n) = 4.
Proof. done. Qed.

Lemma drop_be4 n d : drop 4 (be4 n ++ d) = d.
Proof. done. Qed.

Section spec.
Context `{BNS : BN_spec}.

Lemma mpi_of_value out : digits 256 out -> len out < 2 ^ 32 -> BN_mpi2bn (mpi_of out) = mpi_value out.
Proof.
  intros Ho Hl. unfold mpi_of. rewrite mpi_header_be4 by (pose proof (len_nonneg out); unfold fits; lia).
  by apply BN_mpi2bn_spec.
Qed.

Lemma setvch_value v : digits 256 v -> len v < 2 ^ 32 -> setvch v = mpi_value (rev v).
Proof.
  intros Hv Hl. unfold setvch. replace (len v) with (len (rev v)) by (unfold len; by rewrite length_rev).
  apply mpi_of_value; [by apply Forall_rev|]. unfold len in *. by rewrite length_rev.
Qed.

Lemma getvch_value z : getvch z = rev (mpi_body z).
Proof.
  unfold getvch. rewrite BN_bn2mpi_spec, len_app, len_be4, drop_be4.
  destruct (Z.leb_spec (4 + len (mpi_body z)) 4); [|done].
  assert (mpi_body z = []) as ->; [|done].
  destruct (mpi_body z); [done|unfold len in *; simpl in *; lia].
Qed.

Lemma setvch_getvch z : len (getvch z) < 2 ^ 32 -> setvch (getvch z) = z.
Proof.
  intros Hl. rewrite setvch_value; [|rewrite getvch_value; apply Forall_rev, mpi_body_ok|done].
  rewrite getvch_value, rev_involutive. apply mpi_body_value.
Qed.

(** ** Storing integers *)

Definition mpi_signed (neg : bool) (v : Z) : Z := if neg then - v else v.

(** What the store loops compute: strip zeros, then fix the sign bit. *)
Fixpoint store_loop (src : list Z) (lead neg : bool) (out : list Z) : list Z :=
  match src with
  | [] => out
  | c :: src =>
      if lead then
        if c =? 0 then store_loop src true neg out
        else if 128 <=? c then store_loop src false neg (out ++ [if neg then 128 else 0; c])
        else store_loop src false neg (out ++ [if neg then c + 128 else c])
      else store_loop src false neg (out ++ [c])
  end.

Lemma store_loop_tail src neg out : store_loop src false neg out = out ++ src.
Proof.
  revert out. induction src as [|c src IH]; intros out; simpl; [by rewrite app_nil_r|].
  by rewrite IH, <- app_assoc.
Qed.

Lemma store_loop_value src neg :
  digits 256 src ->
  digits 256 (store_loop src true neg []) /\
  len (store_loop src true neg []) <= len src + 1 /\
  mpi_value (store_loop src true neg []) = mpi_signed neg (of_be src).
Proof.
  induction 1 as [|c src Hc Hsrc (IH1 & IH2 & IH3)]; simpl store_loop.
  - split_and!; [constructor|unfold len; simpl; lia|by destruct neg].
  - rewrite of_be_cons. destruct (Z.eqb_spec c 0) as [->|Hne].
    { split_and!; [done|unfold len in *; simpl in *; lia|]. rewrite IH3. done. }
    destruct (Z.leb_spec 128 c); rewrite store_loop_tail; cbn [app].
    + split_and!; [repeat constructor; (done || destruct neg; lia)|unfold len; simpl; lia|].
      destruct neg; cbn [mpi_value mpi_signed Z.leb Z.compare Pos.compare Pos.compare_cont];
        rewrite ?of_be_cons; simpl (128 - 128); unfold len; simpl; rewrite ?of_be_cons; unfold len; lia.
    + split_and!; [repeat constructor; (done || destruct neg; lia)|unfold len; simpl; lia|].
      destruct neg; cbn [mpi_value mpi_signed].
      * rewrite (proj2 (Z.leb_le 128 (c + 128))) by lia. rewrite of_be_cons. f_equal. f_equal. lia.
      * rewrite (proj2 (Z.leb_gt 128 c)) by lia. apply of_be_cons.
Qed.
End spec.

Lemma sign_bit c : 0 <= c < 256 -> negb (Z.land c 0x80 =? 0) = (128 <=? c).
Proof.
  intros Hc. change 0x80 with (2 ^ 7). rewrite land_pow2 by lia. apply (testbit_top c 7); simpl; lia.
Qed.

Lemma set_sign_bit c : 0 <= c < 128 -> Z.lor c 0x80 = c + 128.
Proof. intros Hc. apply (lor_low_high c 1 7); simpl; lia. Qed.

Lemma set256_loop_store src lead out :
  digits 256 src -> set256_loop src lead out = store_loop src lead false out.
Proof.
  intros Hs. revert lead out. induction Hs as [|c src Hc _ IH]; intros lead out; [done|].
  simpl. rewrite sign_bit by done. rewrite !IH. done.
Qed.

Lemma to_digits_snoc B n z :
  1 < B -> to_digits B (S n) z = to_digits B n z ++ [(z / B ^ Z.of_nat n) mod B].
Proof.
  intros HB. revert z. induction n as [|n IH]; intros z.
  - simpl. by rewrite Z.div_1_r.
  - change (to_digits B (S (S n)) z) with (z mod B :: to_digits B (S n) (z / B)).
    rewrite IH. simpl. do 3 f_equal.
    rewrite Z.div_div, <- Z.pow_succ_r by lia. do 2 f_equal. lia.
Qed.

Lemma to_digits_shift_mod n z :
  to_digits 256 (S n) ((z * 256) mod 256 ^ Z.of_nat (S n)) = 0 :: to_digits 256 n z.
Proof.
  rewrite Nat2Z.inj_succ, Z.pow_succ_r, (Z.mul_comm z), Z.mul_mod_distr_l by lia.
  simpl to_digits. rewrite (Z.mul_comm 256), Z.mod_mul, Z.div_mul by lia. f_equal.
  apply (of_digits_inj 256); [lia|apply to_digits_ok; lia..|by rewrite !length_to_digits|].
  rewrite !of_to_digits by lia. apply Z.mod_mod. lia.
Qed.

Lemma set64_loop_store k n lead neg out :
  (k <= 8)%nat -> fits 64 n ->
  set64_loop k n lead neg out = store_loop (take k (rev (to_digits 256 8 n))) lead neg out.
Proof.
  revert n lead out. induction k as [|k IH]; intros n lead out Hk Hn; [by rewrite take_0|].
  assert (Hc : Z.land (Z.shiftr n 56) 0xff = (n / 256 ^ Z.of_nat 7) mod 256).
  { change 0xff with (Z.ones 8). rewrite Z.land_ones, Z.shiftr_div_pow2 by lia. done. }
  assert (Hn' : u64 (Z.shiftl n 8) = (n * 256) mod 256 ^ Z.of_nat 8).
  { unfold wrap. rewrite Z.shiftl_mul_pow2 by lia. done. }
  assert (Hrest : take k (rev (to_digits 256 8 (u64 (Z.shiftl n 8)))) = take k (rev (to_digits 256 7 n))).
  { rewrite Hn', to_digits_shift_mod. change (rev (0 :: ?l)) with (rev l ++ [0]). apply take_app_le.
    rewrite length_rev, length_to_digits. lia. }
  rewrite (to_digits_snoc 256 7) by lia. rewrite rev_unit. cbn [take].
  cbn [set64_loop store_loop]. rewrite Hc.
  pose proof (Z.mod_pos_bound (n / 256 ^ Z.of_nat 7) 256 ltac:(lia)) as Hb.
  set (c := (n / 256 ^ Z.of_nat 7) mod 256) in *.
  rewrite sign_bit by done. rewrite !IH by (lia || apply wrap_fits; lia). rewrite !Hrest.
  destruct lead; [|done]. destruct (c =? 0); [done|].
  destruct (Z.leb_spec 128 c); [done|]. by rewrite set_sign_bit by lia.
Qed.

Lemma of_be_digits n x : 0 <= x < 256 ^ Z.of_nat n -> of_be (rev (to_digits 256 n x)) = x.
Proof. intros. unfold of_be. rewrite rev_involutive, of_to_digits, Z.mod_small by lia. done. Qed.

Section spec2.
Context `{BNS : BN_spec}.

Lemma set64_value n neg :
  fits 64 n -> BN_mpi2bn (mpi_of (set64_loop 8 n true neg [])) = mpi_signed neg n.
Proof.
  intros Hn. rewrite set64_loop_store by (done || lia).
  rewrite take_ge by (rewrite length_rev, length_to_digits; lia).
  destruct (store_loop_value (rev (to_digits 256 8 n)) neg) as (H1 & H2 & H3);
    [apply Forall_rev, to_digits_ok; lia|].
  unfold len in H2 at 2. rewrite length_rev, length_to_digits in H2.
  rewrite mpi_of_value by (done || lia). rewrite H3. f_equal. by apply of_be_digits.
Qed.

Lemma setuint64_value n : fits 64 n -> setuint64 n = n.
Proof. intros. unfold setuint64. by rewrite set64_value. Qed.

Lemma setint64_value sn : sfits 64 sn -> setint64 sn = sn.
Proof.
  unfold sfits, setint64. intros Hs. destruct (Z.ltb_spec sn 0).
  - rewrite (wrap_id 64 (- (sn + 1))) by (unfold fits; lia).
    rewrite wrap_id by (unfold fits; lia). rewrite set64_value by (unfold fits; lia).
    simpl. lia.
  - rewrite wrap_id by (unfold fits; lia). by rewrite set64_value by (unfold fits; lia).
Qed.

Lemma setuint256_value n : wf 8 n -> setuint256 n = val n.
Proof.
  intros Hn. unfold setuint256.
  assert (Hd : digits 256 (rev (bu_bytes n))) by apply Forall_rev, bu_bytes_ok.
  rewrite set256_loop_store by done.
  destruct (store_loop_value (rev (bu_bytes n)) false Hd) as (H1 & H2 & H3).
  assert (len (rev (bu_bytes n)) = 32).
  { unfold len. rewrite length_rev, length_bu_bytes. by destruct Hn as [-> _]. }
  rewrite mpi_of_value by (done || lia). rewrite H3. unfold of_be. rewrite rev_involutive.
  apply bu_bytes_val, Hn.
Qed.

Lemma CBigNum_int_value n : sfits 64 n -> CBigNum_int n = n.
Proof.
  intros Hn. unfold CBigNum_int, setulong. destruct (Z.leb_spec 0 n).
  - apply BN_set_word_spec. unfold sfits, fits in *. lia.
  - by apply setint64_value.
Qed.

Lemma getint_value z : getint z = Z.max INT_MIN (Z.min INT_MAX z).
Proof.
  unfold getint. rewrite BN_get_word_spec, BN_is_negative_spec. unfold INT_MAX, INT_MIN.
  destruct (Z.ltb_spec z 0); simpl negb; cbv iota;
    destruct (Z.ltb_spec (Z.abs z) (2 ^ 64));
    match goal with |- context [?a <? ?b] => destruct (Z.ltb_spec a b) end; lia.
Qed.

(** ** Reading integers back *)

Lemma take_pad_digits n l :
  digits 256 l ->
  take n l ++ replicate (n - length (take n l)) 0 = to_digits 256 n (of_digits 256 l).
Proof.
  intros Hl. apply (of_digits_inj 256); [lia| |apply to_digits_ok; lia| |].
  - apply Forall_app; split; [by apply Forall_take|apply digits_replicate_0; lia].
  - rewrite length_app, length_replicate, length_to_digits, length_take. lia.
  - rewrite of_to_digits, of_digits_app, of_digits_replicate_0, Z.mul_0_r, Z.add_0_r by lia.
    rewrite <- (take_drop n l) at 2. rewrite of_digits_app by lia.
    pose proof (of_digits_bound 256 ltac:(lia) (take n l) (Forall_take _ _ _ Hl)) as Hb.
    destruct (Nat.le_gt_cases n (length l)).
    + rewrite length_take, Nat.min_l in * by lia.
      rewrite (Z.mul_comm (256 ^ Z.of_nat n)), Z.mod_add, Z.mod_small by lia. done.
    + rewrite (drop_ge l n) by lia. cbn [of_digits]. rewrite Z.mul_0_r, Z.add_0_r, Z.mod_small; [done|].
      split; [lia|]. eapply Z.lt_le_trans; [apply Hb|]. apply Z.pow_le_mono_r; [lia|].
      rewrite length_take. lia.
Qed.

Lemma land_7f b : 0 <= b < 256 -> Z.land b 0x7f = if 128 <=? b then b - 128 else b.
Proof.
  intros Hb. change 0x7f with (Z.ones 7). rewrite Z.land_ones by lia.
  destruct (Z.leb_spec 128 b).
  - symmetry. apply (Z.mod_unique _ _ 1); [lia|]. change (2 ^ 7) with 128. lia.
  - apply Z.mod_small. change (2 ^ 7) with 128. lia.
Qed.

Lemma low_bytes_value sz z : low_bytes sz z = to_digits 256 sz (Z.abs z).
Proof.
  unfold low_bytes. rewrite BN_bn2mpi_spec, len_app, len_be4, drop_be4.
  destruct (Z.ltb_spec (4 + len (mpi_body z)) 4); [pose proof (len_nonneg (mpi_body z)); lia|].
  pose proof (mpi_body_value z) as Hv. pose proof (mpi_body_ok z) as Hd.
  destruct Hd as [|b t Hb Ht].
  - simpl in Hv. subst z. rewrite take_pad_digits by constructor. done.
  - rewrite land_7f by done. rewrite take_pad_digits.
    2: { apply Forall_rev. constructor; [destruct (Z.leb_spec 128 b); lia|done]. }
    f_equal. fold (of_be ((if 128 <=? b then b - 128 else b) :: t)). simpl in Hv.
    assert (0 <= of_be ((if 128 <=? b then b - 128 else b) :: t)).
    { apply of_be_bound. constructor; [destruct (Z.leb_spec 128 b); lia|done]. }
    destruct (128 <=? b); lia.
Qed.

Lemma getuint64_value z : getuint64 z = Z.abs z mod 2 ^ 64.
Proof. unfold getuint64. rewrite low_bytes_value, of_to_digits by lia. done. Qed.

Lemma getuint256_value z : wf 8 (getuint256 z) /\ val (getuint256 z) = Z.abs z mod 2 ^ 256.
Proof.
  unfold getuint256. rewrite low_bytes_value.
  destruct (words_of_bytes_spec 8 (to_digits 256 32 (Z.abs z))) as [Hw Hv];
    [apply to_digits_ok; lia|by rewrite length_to_digits|].
  split; [done|]. rewrite Hv, of_to_digits by lia. done.
Qed.
End spec2.

(** ** Compact targets *)

Lemma of_be_app l1 l2 : of_be (l1 ++ l2) = of_be l1 * 256 ^ len l2 + of_be l2.
Proof.
  unfold of_be, len. rewrite rev_app_distr, of_digits_app, length_rev by lia. lia.
Qed.

Lemma of_be_zeros k : of_be (replicate k 0) = 0.
Proof.
  induction k as [|k IH]; [done|]. simpl replicate. rewrite of_be_cons, IH. lia.
Qed.

Lemma len_replicate {A} k (x : A) : len (replicate k x) = Z.of_nat k.
Proof. unfold len. by rewrite length_replicate. Qed.

(** The vector that [SetCompact] fills: size, then up to three mantissa bytes. *)
Lemma SetCompact_vec s b2 b1 b0 :
  0 <= s < 256 ->
  let v := replicate (Z.to_nat (4 + s)) 0 in
  let v := <[3%nat := u8 s]> v in
  let v := set_nth 4 (1 <=? s) b2 v in
  let v := set_nth 5 (2 <=? s) b1 v in
  set_nth 6 (3 <=? s) b0 v = be4 s ++ take (Z.to_nat s) ([b2; b1; b0] ++ replicate (Z.to_nat (s - 3)) 0).
Proof.
  intros Hs v. subst v.
  assert (Hbe : be4 s = [0; 0; 0; s]).
  { unfold be4. simpl. rewrite !(Z.div_small s 256) by lia. rewrite (Z.mod_small s) by lia. done. }
  rewrite Hbe, (wrap_id 8 s) by (unfold fits; lia).
  assert (s = 0 \/ s = 1 \/ s = 2 \/ exists k, s = Z.of_nat k + 3) as [->|[->|[->|[k ->]]]]; [|done..|].
  { destruct (Z.eq_dec s 0); [by left|]. destruct (Z.eq_dec s 1); [by right; left|].
    destruct (Z.eq_dec s 2); [by right; right; left|]. right; right; right.
    exists (Z.to_nat (s - 3)). lia. }
  replace (Z.to_nat (4 + (Z.of_nat k + 3))) with (7 + k)%nat by lia.
  rewrite !(proj2 (Z.leb_le _ (Z.of_nat k + 3))) by lia.
  replace (Z.to_nat (Z.of_nat k + 3)) with (3 + k)%nat by lia.
  replace (Z.to_nat (Z.of_nat k + 3 - 3)) with k by lia.
  simpl. by rewrite take_ge by (rewrite length_replicate; lia).
Qed.

(** Value of the mantissa bytes. *)
Lemma SetCompact_body_value s b2 b1 b0 :
  0 <= s < 256 -> 0 <= b2 < 256 -> 0 <= b1 < 256 -> 0 <= b0 < 256 ->
  mpi_value (take (Z.to_nat s) ([b2; b1; b0] ++ replicate (Z.to_nat (s - 3)) 0)) =
  mpi_signed (128 <=? b2)
    (compact_expand ((if 128 <=? b2 then b2 - 128 else b2) * 2 ^ 16 + b1 * 2 ^ 8 + b0) s).
Proof.
  intros Hs H2 H1 H0. unfold compact_expand.
  set (h := if 128 <=? b2 then b2 - 128 else b2).
  assert (0 <= h < 128) by (subst h; destruct (Z.leb_spec 128 b2); lia).
  assert (Hval : forall t, mpi_value (b2 :: t) = mpi_signed (128 <=? b2) (of_be (h :: t))).
  { intros t. subst h. simpl. by destruct (128 <=? b2). }
  assert (s = 0 \/ s = 1 \/ s = 2 \/ exists k, s = Z.of_nat k + 3) as [->|[->|[->|[k ->]]]].
  { destruct (Z.eq_dec s 0); [by left|]. destruct (Z.eq_dec s 1); [by right; left|].
    destruct (Z.eq_dec s 2); [by right; right; left|]. right; right; right.
    exists (Z.to_nat (s - 3)). lia. }
  - change (0 <=? 3) with true. cbv iota. change (8 * (3 - 0)) with 24.
    rewrite Z.div_small by lia. by destruct (128 <=? b2).
  - change (1 <=? 3) with true. cbv iota. change (8 * (3 - 1)) with 16.
    change (take (Z.to_nat 1) _) with [b2]. rewrite Hval. f_equal. rewrite of_be_cons.
    apply (Z.div_unique _ _ _ (b1 * 2 ^ 8 + b0)); [lia|]. unfold len, of_be; simpl. lia.
  - change (2 <=? 3) with true. cbv iota. change (8 * (3 - 2)) with 8.
    change (take (Z.to_nat 2) _) with [b2; b1]. rewrite Hval. f_equal.
    apply (Z.div_unique _ _ _ b0); [lia|]. unfold of_be; simpl. lia.
  - replace (Z.to_nat (Z.of_nat k + 3)) with (3 + k)%nat by lia.
    replace (Z.to_nat (Z.of_nat k + 3 - 3)) with k by lia.
    rewrite take_ge by (simpl; rewrite length_replicate; lia).
    change ([b2; b1; b0] ++ replicate k 0) with (b2 :: [b1; b0] ++ replicate k 0). rewrite Hval. f_equal.
    change (h :: [b1; b0] ++ replicate k 0) with ([h; b1; b0] ++ replicate k 0).
    rewrite of_be_app, of_be_zeros, len_replicate.
    assert (of_be [h; b1; b0] = h * 2 ^ 16 + b1 * 2 ^ 8 + b0) as -> by (unfold of_be; simpl; lia).
    replace (Z.of_nat k + 3 - 3) with (Z.of_nat k) by lia.
    destruct (Z.leb_spec (Z.of_nat k + 3) 3); [|by rewrite pow256; lia].
    assert (k = O) as -> by lia. simpl. rewrite Z.div_1_r. lia.
Qed.

Section compact.
Context `{BNS : BN_spec}.

Lemma bn_SetCompact_value c :
  fits 32 c ->
  bn_SetCompact c = mpi_signed (Z.testbit c 23) (compact_expand (Z.land c 0x007fffff) (Z.shiftr c 24)).
Proof.
  intros Hc. unfold bn_SetCompact, fits in *.
  change 0xff with (Z.ones 8). change 0x007fffff with (Z.ones 23).
  rewrite !Z.land_ones, !Z.shiftr_div_pow2 by lia. rewrite (Z.pow_0_r 2), Z.div_1_r.
  assert (Hs : 0 <= c / 2 ^ 24 < 256) by (split; [apply Z.div_pos; lia|apply Z.div_lt_upper_bound; lia]).
  set (s := c / 2 ^ 24) in *. rewrite SetCompact_vec by done.
  pose proof (Z.mod_pos_bound (c / 2 ^ 16) (2 ^ 8) ltac:(lia)) as H2.
  pose proof (Z.mod_pos_bound (c / 2 ^ 8) (2 ^ 8) ltac:(lia)) as H1.
  pose proof (Z.mod_pos_bound c (2 ^ 8) ltac:(lia)) as H0.
  set (b2 := (c / 2 ^ 16) mod 2 ^ 8) in *. set (b1 := (c / 2 ^ 8) mod 2 ^ 8) in *.
  set (b0 := c mod 2 ^ 8) in *.
  set (body := take (Z.to_nat s) ([b2; b1; b0] ++ replicate (Z.to_nat (s - 3)) 0)).
  assert (Hl : len body = s).
  { subst body. unfold len. rewrite length_take, length_app, length_replicate. simpl. lia. }
  assert (Hd : digits 256 body).
  { apply Forall_take. repeat constructor; try lia. apply digits_replicate_0; lia. }
  rewrite <- Hl at 1. rewrite BN_mpi2bn_spec by (done || lia). subst body.
  rewrite SetCompact_body_value by done.
  assert (Hb2 : Z.testbit c 23 = (128 <=? b2)).
  { replace 23 with (7 + 16) by lia. rewrite <- Z.div_pow2_bits by lia.
    rewrite <- (Z.mod_pow2_bits_low _ 8 7) by lia. fold b2. apply (testbit_top b2 7); simpl; lia. }
  rewrite Hb2. f_equal. f_equal.
  assert (Hc24 : c mod 2 ^ 24 = b2 * 2 ^ 16 + b1 * 2 ^ 8 + b0).
  { assert (c / 2 ^ 16 = c / 2 ^ 8 / 2 ^ 8) as E16 by by rewrite Z.div_div.
    assert (c / 2 ^ 24 = c / 2 ^ 16 / 2 ^ 8) as E24 by by rewrite Z.div_div.
    pose proof (Z.div_mod c (2 ^ 8)). pose proof (Z.div_mod (c / 2 ^ 8) (2 ^ 8)).
    pose proof (Z.div_mod (c / 2 ^ 16) (2 ^ 8)). pose proof (Z.div_mod c (2 ^ 24)).
    rewrite <- E16, <- E24 in *. subst b2 b1 b0. lia. }
  assert (c mod 2 ^ 23 = (c mod 2 ^ 24) mod 2 ^ 23) as ->.
  { symmetry. apply Z.mod_mod_divide. by exists 2. }
  rewrite Hc24. symmetry. destruct (Z.leb_spec 128 b2).
  - symmetry. apply (Z.mod_unique _ _ 1); lia.
  - apply Z.mod_small. lia.
Qed.

(** The three leading bytes of a big-endian number, zero-padded. *)
Lemma top3_value l :
  digits 256 l ->
  nth 0 l 0 * 2 ^ 16 + nth 1 l 0 * 2 ^ 8 + nth 2 l 0 =
  if len l <=? 3 then of_be l * 2 ^ (8 * (3 - len l)) else of_be l / 2 ^ (8 * (len l - 3)).
Proof.
  intros Hl. destruct l as [|d0 [|d1 [|d2 l]]]; [done|..].
  - unfold of_be, len; simpl; lia.
  - unfold of_be, len; simpl; lia.
  - repeat (apply Forall_cons in Hl as [? Hl]). change (nth 0 _ 0) with d0.
    change (nth 1 _ 0) with d1. change (nth 2 _ 0) with d2.
    change (d0 :: d1 :: d2 :: l) with ([d0; d1; d2] ++ l). rewrite of_be_app, len_app.
    change (len [d0; d1; d2]) with 3.
    assert (of_be [d0; d1; d2] = d0 * 2 ^ 16 + d1 * 2 ^ 8 + d2) as -> by (unfold of_be; simpl; lia).
    pose proof (of_be_bound l Hl) as Hb. pose proof (len_nonneg l).
    change 256 with (2 ^ 8) in Hb. change 256 with (2 ^ 8). rewrite pow2_pow_mul in Hb by lia.
    rewrite pow2_pow_mul by lia.
    destruct (Z.leb_spec (3 + len l) 3).
    + destruct l; [|unfold len in *; simpl in *; lia]. change (len []) with 0. change (of_be []) with 0.
      change (8 * 0) with 0. change (8 * (3 - (3 + 0))) with 0. rewrite !Z.pow_0_r. lia.
    + replace (3 + len l - 3) with (len l) by lia. rewrite Z.div_add_l by lia.
      rewrite Z.div_small by done. lia.
Qed.

Lemma bn_GetCompact_value z m s :
  0 <= z < 2 ^ 256 -> compact_parts z = (m, s) -> bn_GetCompact z = m + s * 2 ^ 24.
Proof.
  intros Hz Hp. destruct (compact_parts_bound z m s Hz Hp) as [Hm Hs].
  assert (Hbody : len (mpi_body z) = s /\
    nth 0 (mpi_body z) 0 * 2 ^ 16 + nth 1 (mpi_body z) 0 * 2 ^ 8 + nth 2 (mpi_body z) 0 = m).
  { unfold compact_parts in Hp. cbv zeta in Hp.
    pose proof (mantissa_bound z Hz) as Hm0. cbv zeta in Hm0.
    pose proof (be_bytes_ok z) as Hd. pose proof (len_be_bytes z) as Hl.
    pose proof (top3_value (be_bytes z) Hd) as Htop. rewrite of_be_bytes, Hl in Htop by lia.
    rewrite <- Htop in Hp, Hm0. rewrite <- Hl in Hp.
    unfold mpi_body. rewrite Z.abs_eq by lia.
    destruct (Z.eq_dec z 0) as [->|Hne].
    { simpl in Hp. injection Hp as <- <-. done. }
    destruct (be_bytes_head z) as (b & t & E & Hb & Ht); [lia|]. rewrite E in *.
    rewrite (proj2 (Z.ltb_ge z 0)) by lia. cbn [nth] in *.
    assert (0 <= nth 0 t 0 < 256 /\ 0 <= nth 1 t 0 < 256) as [Hn0 Hn1].
    { rewrite <- !znth_nat. change 256 with (2 ^ 8). split; apply (znth_fits 8); (done || lia). }
    destruct (Z.leb_spec 128 b) as [H8|H8].
    - rewrite (proj2 (Z.leb_le (2 ^ 23) _)) in Hp by lia. injection Hp as <- <-.
      split; [unfold len; simpl; lia|]. cbn [nth].
      apply (Z.div_unique _ _ _ (nth 1 t 0)); lia.
    - rewrite (proj2 (Z.leb_gt (2 ^ 23) _)) in Hp by lia. injection Hp as <- <-. done. }
  destruct Hbody as [Hlen Hval]. pose proof (mpi_body_ok z) as Hd.
  assert (Hn : forall i, 0 <= nth i (mpi_body z) 0 < 256).
  { intros i. rewrite <- znth_nat. change 256 with (2 ^ 8). apply (znth_fits 8); (done || lia). }
  unfold bn_GetCompact. rewrite BN_bn2mpi_spec, len_app, len_be4, Hlen.
  replace (4 + s - 4) with s by lia. rewrite wrap_id by (unfold fits; lia).
  change (nth 4 (?x ++ ?l) 0) with (nth 0 l 0). change (nth 5 (?x ++ ?l) 0) with (nth 1 l 0).
  change (nth 6 (?x ++ ?l) 0) with (nth 2 l 0).
  assert (Hover : forall i, s <= Z.of_nat i -> nth i (mpi_body z) 0 = 0).
  { intros i Hi. apply nth_overflow. unfold len in Hlen. lia. }
  pose proof (Hn 0%nat). pose proof (Hn 1%nat). pose proof (Hn 2%nat).
  rewrite Z.shiftl_0_r, !Z.shiftl_mul_pow2, wrap_id by (unfold fits; lia).
  assert (E1 : (if 1 <=? s then Z.lor (s * 2 ^ 24) (nth 0 (mpi_body z) 0 * 2 ^ 16) else s * 2 ^ 24)
               = nth 0 (mpi_body z) 0 * 2 ^ 16 + s * 2 ^ 24).
  { destruct (Z.leb_spec 1 s); [|rewrite (Hover 0%nat); lia]. rewrite Z.lor_comm.
    apply lor_low_high; lia. }
  rewrite E1. set (d0 := nth 0 (mpi_body z) 0) in *. set (d1 := nth 1 (mpi_body z) 0) in *.
  set (d2 := nth 2 (mpi_body z) 0) in *.
  assert (E2 : (if 2 <=? s then Z.lor (d0 * 2 ^ 16 + s * 2 ^ 24) (d1 * 2 ^ 8) else d0 * 2 ^ 16 + s * 2 ^ 24)
               = d1 * 2 ^ 8 + (d0 + s * 2 ^ 8) * 2 ^ 16).
  { destruct (Z.leb_spec 2 s); [|pose proof (Hover 1%nat ltac:(lia)) as E2; fold d1 in E2; lia]. rewrite Z.lor_comm.
    replace (d0 * 2 ^ 16 + s * 2 ^ 24) with ((d0 + s * 2 ^ 8) * 2 ^ 16) by lia.
    apply lor_low_high; lia. }
  rewrite E2. destruct (Z.leb_spec 3 s); [|pose proof (Hover 2%nat ltac:(lia)) as E3; fold d2 in E3; lia].
  rewrite Z.lor_comm. replace (d1 * 2 ^ 8 + (d0 + s * 2 ^ 8) * 2 ^ 16)
    with ((d1 + (d0 + s * 2 ^ 8) * 2 ^ 8) * 2 ^ 8) by lia.
  rewrite lor_low_high by lia. lia.
Qed.
End compact.

(** ** Text *)

Section text.
Context `{BNS : BN_spec}.

Lemma bn_cmp_pos a b : (0 <? BN_cmp a b) = (b <? a).
Proof. rewrite BN_cmp_spec. unfold Z.ltb. destruct (Z.compare_spec a b), (Z.compare_spec b a); (done || lia). Qed.

Lemma isxdigit_hexchar d : 0 <= d < 16 -> isxdigit (hexchar d) = true /\ bn_hexdigit (hexchar d) = d.
Proof.
  intros. unfold isxdigit, bn_hexdigit, hexchar.
  destruct (Z.ltb_spec d 10); repeat case_match; (split; lia).
Qed.

(** The digits of a positive number, least significant first. *)
Lemma tostring_loop_digits fuel a base :
  2 <= base <= 16 -> 0 <= a < 2 ^ Z.of_nat fuel ->
  exists ds, tostring_loop fuel a base = Some (map hexchar ds) /\ digits base ds /\
    of_digits base ds = a /\ (0 < a -> ds <> []).
Proof.
  intros Hb. revert a. induction fuel as [|fuel IH]; intros a Ha.
  - exists []. assert (a = 0) as -> by (simpl in Ha; lia). simpl. rewrite bn_cmp_pos. simpl.
    split_and!; [done|constructor|done|lia].
  - cbn [tostring_loop]. rewrite bn_cmp_pos. destruct (Z.ltb_spec 0 a) as [Hpos|Hz].
    + rewrite BN_div_spec. destruct (Z.eqb_spec base 0); [lia|].
      rewrite Z.quot_div_nonneg, Z.rem_mod_nonneg by lia.
      rewrite Nat2Z.inj_succ, Z.pow_succ_r in Ha by lia.
      destruct (IH (a / base)) as (ds & E & Hds & Hv & _).
      { split; [apply Z.div_pos; lia|]. apply Z.div_lt_upper_bound; nia. }
      rewrite E. pose proof (Z.mod_pos_bound a base ltac:(lia)) as Hm.
      exists (a mod base :: ds). unfold getulong. rewrite BN_get_word_spec.
      rewrite Z.abs_eq, (proj2 (Z.ltb_lt _ _)) by lia.
      split_and!; [done|by constructor| |done]. cbn [of_digits]. rewrite Hv.
      pose proof (Z.div_mod a base). lia.
    + exists []. assert (a = 0) as -> by lia. split_and!; [done|constructor|done|lia].
Qed.

Lemma hex_loop_value ds bn rest :
  digits 16 ds -> (match rest with c :: _ => isxdigit c = false | [] => True end) ->
  hex_loop (map hexchar ds ++ rest) bn = bn * 16 ^ len ds + of_digits 16 (rev ds).
Proof.
  intros Hds Hrest. revert bn. induction Hds as [|d ds Hd _ IH]; intros bn.
  - simpl. unfold len; simpl. destruct rest; simpl; [lia|]. rewrite Hrest. lia.
  - cbn [map app hex_loop]. destruct (isxdigit_hexchar d Hd) as [-> ->].
    rewrite IH, CBigNum_int_value, BN_add_spec, BN_lshift_spec by (unfold sfits; lia).
    simpl rev. rewrite of_digits_app, length_rev by lia. cbn [of_digits].
    assert (16 ^ len (d :: ds) = 16 * 16 ^ len ds) as ->.
    { unfold len. cbn [length]. rewrite Nat2Z.inj_succ, Z.pow_succ_r by lia. done. }
    unfold len. lia.
Qed.

Lemma hexchar_plain d : 0 <= d < 16 ->
  isspace (hexchar d) = false /\ (hexchar d =? 45) = false /\ tolower (hexchar d) <> 120.
Proof. intros. unfold hexchar, isspace, tolower. destruct (Z.ltb_spec d 10); repeat case_match; lia. Qed.

Lemma skip_hexchars ds : digits 16 ds ->
  skip_spaces (map hexchar ds) = map hexchar ds /\ skip_0x (map hexchar ds) = map hexchar ds.
Proof.
  destruct 1 as [|d ds Hd Hds]; [done|]. cbn [map skip_spaces].
  destruct (hexchar_plain d Hd) as (-> & _ & _). split; [done|].
  destruct Hds as [|d' ds Hd' _]; [done|]. cbn [map skip_0x].
  destruct (hexchar_plain d' Hd') as (_ & _ & Hne). apply Z.eqb_neq in Hne.
  by rewrite Hne, andb_false_r.
Qed.

Lemma hex_text_value ds : digits 16 ds -> bn_SetHex (map hexchar ds) = of_digits 16 (rev ds).
Proof.
  intros Hds. unfold bn_SetHex. destruct (skip_hexchars ds Hds) as [H1 H2].
  assert (Hl : forall b : bool, hex_loop (map hexchar ds) (CBigNum_int 0) = of_digits 16 (rev ds)).
  { intros _. rewrite <- (app_nil_r (map hexchar ds)), hex_loop_value by done.
    rewrite CBigNum_int_value by (unfold sfits; lia). lia. }
  rewrite H1. destruct Hds as [|d ds Hd Hds]; [exact (Hl true)|]. cbn [map] in *.
  destruct (hexchar_plain d Hd) as (_ & -> & _). rewrite H2, H1. exact (Hl true).
Qed.

Lemma neg_hex_text_value ds :
  digits 16 ds -> bn_SetHex (45 :: map hexchar ds) = - of_digits 16 (rev ds).
Proof.
  intros Hds. unfold bn_SetHex. destruct (skip_hexchars ds Hds) as [H1 H2].
  cbn [skip_spaces]. change (isspace 45) with false. cbv iota. change (45 =? 45) with true. cbv iota.
  rewrite H2, H1, <- (app_nil_r (map hexchar ds)), hex_loop_value by done.
  rewrite BN_sub_spec, !CBigNum_int_value by (unfold sfits; lia). lia.
Qed.

Lemma SetHex_ToString z : exists str, bn_ToString 16 z = Some str /\ bn_SetHex str = z.
Proof.
  unfold bn_ToString. rewrite BN_set_negative_spec, BN_is_negative_spec, BN_cmp_spec.
  rewrite CBigNum_int_value by (unfold sfits; lia). cbv iota.
  destruct (Z.compare_spec (Z.abs z) 0) as [E|E|E].
  - exists [48]. split; [done|]. change [48] with (map hexchar [0]). rewrite (hex_text_value [0]) by (repeat constructor; lia).
    simpl. lia.
  - lia.
  - change (1 =? 0) with false. cbv iota.
    destruct (tostring_loop_digits (Z.to_nat (nbits (Z.abs z))) (Z.abs z) 16) as (ds & -> & Hds & Hv & _);
      [lia| |].
    { rewrite Z2Nat.id by apply nbits_nonneg. split; [lia|apply nbits_bound; lia]. }
    eexists. split; [done|]. rewrite rev_app_distr, <- map_rev. apply Forall_rev in Hds as Hr.
    destruct (Z.ltb_spec z 0); cbn [rev app].
    + rewrite neg_hex_text_value by done. rewrite rev_involutive. lia.
    + rewrite hex_text_value by done. rewrite rev_involutive. lia.
Qed.
End text.

(** ** Main theorems *)

(** Integers survive the trip through [CBigNum]: every 64-bit integer
    (the most negative one included) and every [uint256] is stored as its value,
    and [getuint64], [getuint256] read the magnitude back modulo their width;
    [getint] clamps to the range of [int]. *)
Theorem bignum_integer_conversions `{BNS : BN_spec} :
  (forall n, sfits 64 n -> setint64 n = n) /\
  (forall n, fits 64 n -> setuint64 n = n /\ getuint64 (setuint64 n) = n) /\
  (forall a, wf 8 a -> setuint256 a = val a /\ getuint256 (setuint256 a) = a) /\
  (forall z, wf 8 (getuint256 z) /\ val (getuint256 z) = Z.abs z mod 2 ^ 256) /\
  (forall z, getint z = Z.max INT_MIN (Z.min INT_MAX z)).
Proof.
  split_and!.
  - apply setint64_value.
  - intros n Hn. rewrite setuint64_value, getuint64_value by done. split; [done|].
    unfold fits in Hn. rewrite Z.abs_eq, Z.mod_small; lia.
  - intros a Ha. rewrite setuint256_value by done. split; [done|].
    destruct (getuint256_value (val a)) as [Hw Hv]. apply (val_inj 8); [done..|].
    rewrite Hv. pose proof (val_bound 8 a Ha). rewrite Z.abs_eq, Z.mod_small; [done|done|lia].
  - apply getuint256_value.
  - apply getint_value.
Qed.

Lemma bignum_integer_conversions_witness :
  @setint64 BN_Z (- 2 ^ 63) = - 2 ^ 63 /\ @getint BN_Z (2 ^ 40) = INT_MAX.
Proof.
  destruct (@bignum_integer_conversions BN_Z BN_Z_spec) as (H1 & _ & _ & _ & H5).
  split; [apply H1; unfold sfits; lia|rewrite H5; vm_compute; reflexivity].
Defined.

(** Script numbers: [setvch] reads the little-endian sign-magnitude bytes
    that [getvch] produces, for every integer. *)
Theorem bignum_vch_roundtrip `{BNS : BN_spec} z :
  len (getvch z) < 2 ^ 32 ->
  setvch (getvch z) = z /\ digits 256 (getvch z) /\
  len (getvch z) <= (nbits (Z.abs z) + 7) / 8 + 1.
Proof.
  intros Hl. split_and!.
  - by apply setvch_getvch.
  - rewrite getvch_value. apply Forall_rev, mpi_body_ok.
  - rewrite getvch_value. unfold len. rewrite length_rev. apply mpi_body_len.
Qed.

Lemma bignum_vch_roundtrip_witness :
  @getvch BN_Z (-255) = [255; 128] /\ @setvch BN_Z (@getvch BN_Z (-255)) = -255.
Proof.
  split; [vm_compute; reflexivity|].
  apply (@bignum_vch_roundtrip BN_Z BN_Z_spec (-255)). vm_compute. reflexivity.
Defined.

(** (C40) The two implementations of compact targets agree.  [uint256::SetCompact],
    written with shifts, and [CBigNum::SetCompact], which goes through OpenSSL's
    MPI format, decode every 32-bit pattern to the same number: the flags of the
    former report exactly a negative [CBigNum] and one of more than 256 bits, and
    without them the values are equal.  [GetCompact] of the two classes gives the
    same 32 bits for every 256-bit number. *)
Theorem compact_implementations_agree `{BNS : BN_spec} :
  (forall c, fits 32 c ->
     exists r neg ovf, SetCompact c = (r, neg, ovf) /\
       (neg = true <-> bn_SetCompact c < 0) /\
       (ovf = true <-> 2 ^ 256 <= Z.abs (bn_SetCompact c)) /\
       val r = Z.abs (bn_SetCompact c) mod 2 ^ 256) /\
  (forall a, wf 8 a -> GetCompact a false = Some (bn_GetCompact (val a))).
Proof.
  split.
  - intros c Hc. destruct (SetCompact_value c Hc) as (r & E & _ & Hv). rewrite E.
    do 3 eexists. split; [done|]. rewrite bn_SetCompact_value by done.
    change 0x00800000 with (2 ^ 23). rewrite land_pow2 by lia.
    set (n := compact_expand _ _) in *.
    assert (0 <= n).
    { unfold n, compact_expand. change 0x007fffff with (Z.ones 23). rewrite Z.land_ones by lia.
      pose proof (Z.mod_pos_bound c (2 ^ 23) ltac:(lia)). case_match; [apply Z.div_pos; lia|nia]. }
    assert (Z.abs (mpi_signed (Z.testbit c 23) n) = n) as -> by (destruct (Z.testbit c 23); simpl; lia).
    split_and!; [|apply Z.leb_le|done].
    rewrite andb_true_iff, negb_true_iff, Z.eqb_neq. destruct (Z.testbit c 23); simpl.
    + split; [intros []; lia|intros; split; [lia|done]].
    + split; [by intros []|lia].
  - intros a Ha. pose proof (val_bound 8 a Ha) as Hv. change (BITS 8) with 256 in Hv.
    destruct (compact_parts (val a)) as [m s] eqn:Hp.
    rewrite (bn_GetCompact_value _ m s) by done. by apply GetCompact_false.
Qed.

Lemma compact_implementations_agree_witness :
  GetCompact (to_digits (2 ^ 32) 8 (2 ^ 255 + 77)) false
  = Some (@bn_GetCompact BN_Z (val (to_digits (2 ^ 32) 8 (2 ^ 255 + 77)))).
Proof.
  apply (@compact_implementations_agree BN_Z BN_Z_spec). apply wf_digits8.
Defined.

(** Hexadecimal text of a [CBigNum]: [ToString(16)] always produces a text
    (its digit loop ends) and [SetHex] reads the number back, sign included. *)
Theorem bignum_hex_roundtrip `{BNS : BN_spec} z :
  exists str, bn_ToString 16 z = Some str /\ bn_SetHex str = z.
Proof. apply SetHex_ToString. Qed.

Lemma bignum_hex_roundtrip_witness :
  exists str, @bn_ToString BN_Z 16 (-48879) = Some str /\ @bn_SetHex BN_Z str = -48879.
Proof. apply (@bignum_hex_roundtrip BN_Z BN_Z_spec). Defined.
