(* ===== verification/Opcodes.v ===== *)
(** * script.h: the opcodes

    [opcodetype] values are integers (the code casts bytes to the enumeration),
    so the constants are numbers; [GetOpName] of script.cpp is the table of its
    [switch]. *)
From Stdlib Require Import ZArith Lia Bool String.
From stdpp Require Import prelude.
From S2P Require Import Prelude.

Definition OP_OFFER_NEW : Z := 0x04.
Definition OP_OFFER_ACTIVATE : Z := 0x05.
Definition OP_OFFER_UPDATE : Z := 0x06.
Definition OP_OFFER_ACCEPT : Z := 0x07.
Definition OP_OFFER_PAY : Z := 0x08.
Definition OP_OFFERACCEPT_TRANSFER : Z := 0x09.
Definition OP_0 : Z := 0x00.
Definition OP_PUSHDATA1 : Z := 0x4c.
Definition OP_PUSHDATA2 : Z := 0x4d.
Definition OP_PUSHDATA4 : Z := 0x4e.
Definition OP_1NEGATE : Z := 0x4f.
Definition OP_RESERVED : Z := 0x50.
Definition OP_1 : Z := 0x51.
Definition OP_2 : Z := 0x52.
Definition OP_3 : Z := 0x53.
Definition OP_4 : Z := 0x54.
Definition OP_5 : Z := 0x55.
Definition OP_6 : Z := 0x56.
Definition OP_7 : Z := 0x57.
Definition OP_8 : Z := 0x58.
Definition OP_9 : Z := 0x59.
Definition OP_10 : Z := 0x5a.
Definition OP_11 : Z := 0x5b.
Definition OP_12 : Z := 0x5c.
Definition OP_13 : Z := 0x5d.
Definition OP_14 : Z := 0x5e.
Definition OP_15 : Z := 0x5f.
Definition OP_16 : Z := 0x60.
Definition OP_NOP : Z := 0x61.
Definition OP_VER : Z := 0x62.
Definition OP_IF : Z := 0x63.
Definition OP_NOTIF : Z := 0x64.
Definition OP_VERIF : Z := 0x65.
Definition OP_VERNOTIF : Z := 0x66.
Definition OP_ELSE : Z := 0x67.
Definition OP_ENDIF : Z := 0x68.
Definition OP_VERIFY : Z := 0x69.
Definition OP_RETURN : Z := 0x6a.
Definition OP_TOALTSTACK : Z := 0x6b.
Definition OP_FROMALTSTACK : Z := 0x6c.
Definition OP_2DROP : Z := 0x6d.
Definition OP_2DUP : Z := 0x6e.
Definition OP_3DUP : Z := 0x6f.
Definition OP_2OVER : Z := 0x70.
Definition OP_2ROT : Z := 0x71.
Definition OP_2SWAP : Z := 0x72.
Definition OP_IFDUP : Z := 0x73.
Definition OP_DEPTH : Z := 0x74.
Definition OP_DROP : Z := 0x75.
Definition OP_DUP : Z := 0x76.
Definition OP_NIP : Z := 0x77.
Definition OP_OVER : Z := 0x78.
Definition OP_PICK : Z := 0x79.
Definition OP_ROLL : Z := 0x7a.
Definition OP_ROT : Z := 0x7b.
Definition OP_SWAP : Z := 0x7c.
Definition OP_TUCK : Z := 0x7d.
Definition OP_CAT : Z := 0x7e.
Definition OP_SUBSTR : Z := 0x7f.
Definition OP_LEFT : Z := 0x80.
Definition OP_RIGHT : Z := 0x81.
Definition OP_SIZE : Z := 0x82.
Definition OP_INVERT : Z := 0x83.
Definition OP_AND : Z := 0x84.
Definition OP_OR : Z := 0x85.
Definition OP_XOR : Z := 0x86.
Definition OP_EQUAL : Z := 0x87.
Definition OP_EQUALVERIFY : Z := 0x88.
Definition OP_RESERVED1 : Z := 0x89.
Definition OP_RESERVED2 : Z := 0x8a.
Definition OP_1ADD : Z := 0x8b.
Definition OP_1SUB : Z := 0x8c.
Definition OP_2MUL : Z := 0x8d.
Definition OP_2DIV : Z := 0x8e.
Definition OP_NEGATE : Z := 0x8f.
Definition OP_ABS : Z := 0x90.
Definition OP_NOT : Z := 0x91.
Definition OP_0NOTEQUAL : Z := 0x92.
Definition OP_ADD : Z := 0x93.
Definition OP_SUB : Z := 0x94.
Definition OP_MUL : Z := 0x95.
Definition OP_DIV : Z := 0x96.
Definition OP_MOD : Z := 0x97.
Definition OP_LSHIFT : Z := 0x98.
Definition OP_RSHIFT : Z := 0x99.
Definition OP_BOOLAND : Z := 0x9a.
Definition OP_BOOLOR : Z := 0x9b.
Definition OP_NUMEQUAL : Z := 0x9c.
Definition OP_NUMEQUALVERIFY : Z := 0x9d.
Definition OP_NUMNOTEQUAL : Z := 0x9e.
Definition OP_LESSTHAN : Z := 0x9f.
Definition OP_GREATERTHAN : Z := 0xa0.
Definition OP_LESSTHANOREQUAL : Z := 0xa1.
Definition OP_GREATERTHANOREQUAL : Z := 0xa2.
Definition OP_MIN : Z := 0xa3.
Definition OP_MAX : Z := 0xa4.
Definition OP_WITHIN : Z := 0xa5.
Definition OP_RIPEMD160 : Z := 0xa6.
Definition OP_SHA1 : Z := 0xa7.
Definition OP_SHA256 : Z := 0xa8.
Definition OP_HASH160 : Z := 0xa9.
Definition OP_HASH256 : Z := 0xaa.
Definition OP_CODESEPARATOR : Z := 0xab.
Definition OP_CHECKSIG : Z := 0xac.
Definition OP_CHECKSIGVERIFY : Z := 0xad.
Definition OP_CHECKMULTISIG : Z := 0xae.
Definition OP_CHECKMULTISIGVERIFY : Z := 0xaf.
Definition OP_NOP1 : Z := 0xb0.
Definition OP_NOP2 : Z := 0xb1.
Definition OP_NOP3 : Z := 0xb2.
Definition OP_NOP4 : Z := 0xb3.
Definition OP_NOP5 : Z := 0xb4.
Definition OP_NOP6 : Z := 0xb5.
Definition OP_NOP7 : Z := 0xb6.
Definition OP_NOP8 : Z := 0xb7.
Definition OP_NOP9 : Z := 0xb8.
Definition OP_NOP10 : Z := 0xb9.
Definition OP_SMALLDATA : Z := 0xf9.
Definition OP_SMALLINTEGER : Z := 0xfa.
Definition OP_PUBKEYS : Z := 0xfb.
Definition OP_PUBKEYHASH : Z := 0xfd.
Definition OP_PUBKEY : Z := 0xfe.
Definition OP_INVALIDOPCODE : Z := 0xff.
Definition OP_FALSE : Z := OP_0.
Definition OP_TRUE : Z := OP_1.

Definition opnames : list (Z * string) := [
  (OP_0, "0"%string);
  (OP_PUSHDATA1, "OP_PUSHDATA1"%string);
  (OP_PUSHDATA2, "OP_PUSHDATA2"%string);
  (OP_PUSHDATA4, "OP_PUSHDATA4"%string);
  (OP_1NEGATE, "-1"%string);
  (OP_RESERVED, "OP_RESERVED"%string);
  (OP_1, "1"%string);
  (OP_2, "2"%string);
  (OP_3, "3"%string);
  (OP_4, "4"%string);
  (OP_5, "5"%string);
  (OP_6, "6"%string);
  (OP_7, "7"%string);
  (OP_8, "8"%string);
  (OP_9, "9"%string);
  (OP_10, "10"%string);
  (OP_11, "11"%string);
  (OP_12, "12"%string);
  (OP_13, "13"%string);
  (OP_14, "14"%string);
  (OP_15, "15"%string);
  (OP_16, "16"%string);
  (OP_NOP, "OP_NOP"%string);
  (OP_VER, "OP_VER"%string);
  (OP_IF, "OP_IF"%string);
  (OP_NOTIF, "OP_NOTIF"%string);
  (OP_VERIF, "OP_VERIF"%string);
  (OP_VERNOTIF, "OP_VERNOTIF"%string);
  (OP_ELSE, "OP_ELSE"%string);
  (OP_ENDIF, "OP_ENDIF"%string);
  (OP_VERIFY, "OP_VERIFY"%string);
  (OP_RETURN, "OP_RETURN"%string);
  (OP_TOALTSTACK, "OP_TOALTSTACK"%string);
  (OP_FROMALTSTACK, "OP_FROMALTSTACK"%string);
  (OP_2DROP, "OP_2DROP"%string);
  (OP_2DUP, "OP_2DUP"%string);
  (OP_3DUP, "OP_3DUP"%string);
  (OP_2OVER, "OP_2OVER"%string);
  (OP_2ROT, "OP_2ROT"%string);
  (OP_2SWAP, "OP_2SWAP"%string);
  (OP_IFDUP, "OP_IFDUP"%string);
  (OP_DEPTH, "OP_DEPTH"%string);
  (OP_DROP, "OP_DROP"%string);
  (OP_DUP, "OP_DUP"%string);
  (OP_NIP, "OP_NIP"%string);
  (OP_OVER, "OP_OVER"%string);
  (OP_PICK, "OP_PICK"%string);
  (OP_ROLL, "OP_ROLL"%string);
  (OP_ROT, "OP_ROT"%string);
  (OP_SWAP, "OP_SWAP"%string);
  (OP_TUCK, "OP_TUCK"%string);
  (OP_CAT, "OP_CAT"%string);
  (OP_SUBSTR, "OP_SUBSTR"%string);
  (OP_LEFT, "OP_LEFT"%string);
  (OP_RIGHT, "OP_RIGHT"%string);
  (OP_SIZE, "OP_SIZE"%string);
  (OP_INVERT, "OP_INVERT"%string);
  (OP_AND, "OP_AND"%string);
  (OP_OR, "OP_OR"%string);
  (OP_XOR, "OP_XOR"%string);
  (OP_EQUAL, "OP_EQUAL"%string);
  (OP_EQUALVERIFY, "OP_EQUALVERIFY"%string);
  (OP_RESERVED1, "OP_RESERVED1"%string);
  (OP_RESERVED2, "OP_RESERVED2"%string);
  (OP_1ADD, "OP_1ADD"%string);
  (OP_1SUB, "OP_1SUB"%string);
  (OP_2MUL, "OP_2MUL"%string);
  (OP_2DIV, "OP_2DIV"%string);
  (OP_NEGATE, "OP_NEGATE"%string);
  (OP_ABS, "OP_ABS"%string);
  (OP_NOT, "OP_NOT"%string);
  (OP_0NOTEQUAL, "OP_0NOTEQUAL"%string);
  (OP_ADD, "OP_ADD"%string);
  (OP_SUB, "OP_SUB"%string);
  (OP_MUL, "OP_MUL"%string);
  (OP_DIV, "OP_DIV"%string);
  (OP_MOD, "OP_MOD"%string);
  (OP_LSHIFT, "OP_LSHIFT"%string);
  (OP_RSHIFT, "OP_RSHIFT"%string);
  (OP_BOOLAND, "OP_BOOLAND"%string);
  (OP_BOOLOR, "OP_BOOLOR"%string);
  (OP_NUMEQUAL, "OP_NUMEQUAL"%string);
  (OP_NUMEQUALVERIFY, "OP_NUMEQUALVERIFY"%string);
  (OP_NUMNOTEQUAL, "OP_NUMNOTEQUAL"%string);
  (OP_LESSTHAN, "OP_LESSTHAN"%string);
  (OP_GREATERTHAN, "OP_GREATERTHAN"%string);
  (OP_LESSTHANOREQUAL, "OP_LESSTHANOREQUAL"%string);
  (OP_GREATERTHANOREQUAL, "OP_GREATERTHANOREQUAL"%string);
  (OP_MIN, "OP_MIN"%string);
  (OP_MAX, "OP_MAX"%string);
  (OP_WITHIN, "OP_WITHIN"%string);
  (OP_RIPEMD160, "OP_RIPEMD160"%string);
  (OP_SHA1, "OP_SHA1"%string);
  (OP_SHA256, "OP_SHA256"%string);
  (OP_HASH160, "OP_HASH160"%string);
  (OP_HASH256, "OP_HASH256"%string);
  (OP_CODESEPARATOR, "OP_CODESEPARATOR"%string);
  (OP_CHECKSIG, "OP_CHECKSIG"%string);
  (OP_CHECKSIGVERIFY, "OP_CHECKSIGVERIFY"%string);
  (OP_CHECKMULTISIG, "OP_CHECKMULTISIG"%string);
  (OP_CHECKMULTISIGVERIFY, "OP_CHECKMULTISIGVERIFY"%string);
  (OP_NOP1, "OP_NOP1"%string);
  (OP_NOP2, "OP_NOP2"%string);
  (OP_NOP3, "OP_NOP3"%string);
  (OP_NOP4, "OP_NOP4"%string);
  (OP_NOP5, "OP_NOP5"%string);
  (OP_NOP6, "OP_NOP6"%string);
  (OP_NOP7, "OP_NOP7"%string);
  (OP_NOP8, "OP_NOP8"%string);
  (OP_NOP9, "OP_NOP9"%string);
  (OP_NOP10, "OP_NOP10"%string);
  (OP_OFFER_NEW, "OP_OFFER_NEW"%string);
  (OP_OFFER_UPDATE, "OP_OFFER_UPDATE"%string);
  (OP_PUBKEYHASH, "OP_PUBKEYHASH"%string);
  (OP_PUBKEY, "OP_PUBKEY"%string);
  (OP_SMALLDATA, "OP_SMALLDATA"%string);
  (OP_INVALIDOPCODE, "OP_INVALIDOPCODE"%string)].

(** The [switch]: the first case that matches, or the default. *)
Fixpoint assoc_name (t : list (Z * string)) (opcode : Z) : string :=
  match t with
  | [] => "OP_UNKNOWN"%string
  | (o, n) :: t => if o =? opcode then n else assoc_name t opcode
  end.

Definition GetOpName (opcode : Z) : string := assoc_name opnames opcode.
