(* ===== verification/Base58.v ===== *)
(** * base58.h: base-58 text, addresses and secrets

    [EncodeBase58] and [DecodeBase58] go through [CBigNum] (OpenSSL is the
    parameter [BN]); the checked versions append four bytes of the double
    SHA-256 (parameter [Crypto]).  A character string is the list of its codes;
    a C string ends at its first NUL.  The theorems give the bijection between
    byte strings and base-58 texts and carry it up to the addresses. *)
From Stdlib Require Import ZArith Lia Bool String.
From stdpp Require Import prelude.
From S2P Require Import Prelude Uint256 DataStream Serialize Crypto Bignum.

Definition pszBase58 : list Z :=
  chars "123456789ABCDEFGHJKLMNPQRSTUVWXYZabcdefghijkmnopqrstuvwxyz".

(** [pszBase58[c]] *)
Definition base58_char (c : Z) : Z := nth (Z.to_nat c) pszBase58 0.

(** [strchr(s, c) - s], for [c] not NUL. *)
Fixpoint strchr (s : list Z) (c : Z) : option Z :=
  match s with
  | [] => None
  | x :: t => if x =? c then Some 0 else Z.succ <$> strchr t c
  end.

(** [std::string::c_str()] as the callee sees it: up to the first NUL. *)
Fixpoint c_str (s : list Z) : list Z :=
  match s with
  | [] => []
  | c :: t => if c =? 0 then [] else c :: c_str t
  end.

Section base58.
Context `{BN}.

(** The loop [while (bn > bn0)]: the characters, least significant first;
    [None] is [bignum_error].  [fuel] bounds the number of digits. *)
Fixpoint encode58_loop (fuel : nat) (bn bn58 : Z) : option (list Z) :=
  if bn_gt bn (CBigNum_int 0) then
    match fuel with
    | O => None
    | S fuel =>
        match BN_div bn bn58 with
        | None => None
        | Some (dv, rem) =>
            let c := u32 (getulong rem) in
            match encode58_loop fuel dv bn58 with
            | None => None
            | Some str => Some (base58_char c :: str)
            end
        end
    end
  else Some [].

(** [for (p = pbegin; p < pend && *p == z; p++)]: how often it runs. *)
Fixpoint count_leading (z : Z) (l : list Z) : nat :=
  match l with
  | c :: t => if c =? z then S (count_leading z t) else O
  | [] => O
  end.

Definition EncodeBase58 (vch : list Z) : option (list Z) :=
  let vchTmp := rev vch ++ [0] in
  let bn := setvch vchTmp in
  match encode58_loop (Z.to_nat (nbits bn)) bn (CBigNum_int 58) with
  | None => None
  | Some str => Some (rev (str ++ replicate (count_leading 0 vch) (base58_char 0)))
  end.

(** The loop over the characters; [None] is [return false]. *)
Fixpoint decode58_loop (p : list Z) (bn bn58 : Z) : option Z :=
  match p with
  | [] => Some bn
  | c :: t =>
      match strchr pszBase58 c with
      | None => match skip_spaces p with [] => Some bn | _ => None end
      | Some i => decode58_loop t (BN_add (BN_mul bn bn58) (setulong i)) bn58
      end
  end.

(** [vchTmp.end()[-1] == 0 && vchTmp.end()[-2] >= 0x80], then erase the last. *)
Definition trim_sign (vchTmp : list Z) : list Z :=
  match rev vchTmp with
  | a :: b :: t => if (a =? 0) && (0x80 <=? b) then rev (b :: t) else vchTmp
  | _ => vchTmp
  end.

(** [Some vchRet] is [true]; on [false] the output vector is left empty. *)
Definition DecodeBase58 (psz : list Z) : option (list Z) :=
  let psz := skip_spaces (c_str psz) in
  match decode58_loop psz (CBigNum_int 0) (CBigNum_int 58) with
  | None => None
  | Some bn =>
      let vchTmp := trim_sign (getvch bn) in
      Some (replicate (count_leading (base58_char 0) psz) 0 ++ rev vchTmp)
  end.

Context `{Crypto}.

Definition EncodeBase58Check (vchIn : list Z) : option (list Z) :=
  EncodeBase58 (vchIn ++ take 4 (bu_bytes (Hash vchIn))).

Definition DecodeBase58Check (psz : list Z) : option (list Z) :=
  match DecodeBase58 psz with
  | None => None
  | Some vchRet =>
      if len vchRet <? 4 then None
      else
        let n := (length vchRet - 4)%nat in
        if bytes_eqb (take 4 (bu_bytes (Hash (take n vchRet)))) (drop n vchRet)
        then Some (take n vchRet)
        else None
  end.

(** ** [CBase58Data] *)

Record CBase58Data : Type := mkBase58Data { b58_nVersion : Z; vchData : list Z }.

Definition SetData (nVersionIn : Z) (pdata : list Z) : CBase58Data :=
  mkBase58Data (u8 nVersionIn) pdata.

(** Returns whether the string was accepted, and the new object. *)
Definition SetString (psz : list Z) : bool * CBase58Data :=
  match DecodeBase58Check psz with
  | Some (v :: vchTemp) => (true, mkBase58Data v vchTemp)
  | Some [] | None => (false, mkBase58Data 0 [])
  end.

Definition b58_ToString (d : CBase58Data) : option (list Z) :=
  EncodeBase58Check (b58_nVersion d :: vchData d).

Definition CompareTo (a b : CBase58Data) : Z :=
  if b58_nVersion a <? b58_nVersion b then -1
  else if b58_nVersion b <? b58_nVersion a then 1
  else if lex_lt (vchData a) (vchData b) then -1
  else if lex_lt (vchData b) (vchData a) then 1
  else 0.

Definition b58_eq (a b : CBase58Data) : bool := CompareTo a b =? 0.
Definition b58_le (a b : CBase58Data) : bool := CompareTo a b <=? 0.
Definition b58_ge (a b : CBase58Data) : bool := 0 <=? CompareTo a b.
Definition b58_lt (a b : CBase58Data) : bool := CompareTo a b <? 0.
Definition b58_gt (a b : CBase58Data) : bool := 0 <? CompareTo a b.

(** ** [CBitcoinAddress]; [fTestNet] is the global flag *)

Definition PUBKEY_ADDRESS : Z := 27.
Definition SCRIPT_ADDRESS : Z := 85.
Definition PUBKEY_ADDRESS_TEST : Z := 111.
Definition SCRIPT_ADDRESS_TEST : Z := 196.

Section addresses.
Context (fTestNet : bool).

Definition Set_KeyID (id : CKeyID) : CBase58Data :=
  SetData (if fTestNet then PUBKEY_ADDRESS_TEST else PUBKEY_ADDRESS) (bu_bytes id).
Definition Set_ScriptID (id : CScriptID) : CBase58Data :=
  SetData (if fTestNet then SCRIPT_ADDRESS_TEST else SCRIPT_ADDRESS) (bu_bytes id).

(** The visitor: whether an address was set, and the object [addr] after it. *)
Definition addr_Set (addr : CBase58Data) (dest : CTxDestination) : bool * CBase58Data :=
  match dest with
  | DestKeyID id => (true, Set_KeyID id)
  | DestScriptID id => (true, Set_ScriptID id)
  | DestStealth _ => (false, addr)
  | CNoDestination => (false, addr)
  end.

Definition addr_IsValid (a : CBase58Data) : bool :=
  let v := b58_nVersion a in
  let result nExpectedSize fExpectTestNet :=
    Bool.eqb fExpectTestNet fTestNet && (len (vchData a) =? nExpectedSize) in
  if v =? PUBKEY_ADDRESS then result 20 false
  else if v =? SCRIPT_ADDRESS then result 20 false
  else if v =? PUBKEY_ADDRESS_TEST then result 20 true
  else if v =? SCRIPT_ADDRESS_TEST then result 20 true
  else false.

(** [memcpy(&id, &vchData[0], 20)] *)
Definition data_id (a : CBase58Data) : base_uint := words_of_bytes (take 20 (vchData a)).

Definition addr_Get (a : CBase58Data) : CTxDestination :=
  if negb (addr_IsValid a) then CNoDestination
  else
    let v := b58_nVersion a in
    if (v =? PUBKEY_ADDRESS) || (v =? PUBKEY_ADDRESS_TEST) then DestKeyID (data_id a)
    else if (v =? SCRIPT_ADDRESS) || (v =? SCRIPT_ADDRESS_TEST) then DestScriptID (data_id a)
    else CNoDestination.

Definition addr_GetKeyID (a : CBase58Data) : option CKeyID :=
  if negb (addr_IsValid a) then None
  else
    let v := b58_nVersion a in
    if (v =? PUBKEY_ADDRESS) || (v =? PUBKEY_ADDRESS_TEST) then Some (data_id a) else None.

Definition addr_IsScript (a : CBase58Data) : bool :=
  if negb (addr_IsValid a) then false
  else
    let v := b58_nVersion a in
    (v =? SCRIPT_ADDRESS) || (v =? SCRIPT_ADDRESS_TEST).

(** ** [CBitcoinSecret] *)

(** [None] is the failed assertion on the size of the secret. *)
Definition SetSecret (vchSecret : list Z) (fCompressed : bool) : option CBase58Data :=
  if negb (len vchSecret =? 32) then None
  else
    let d := SetData (128 + (if fTestNet then PUBKEY_ADDRESS_TEST else PUBKEY_ADDRESS)) vchSecret in
    Some (if fCompressed then mkBase58Data (b58_nVersion d) (vchData d ++ [1]) else d).

Definition GetSecret (d : CBase58Data) : list Z * bool :=
  (take 32 (vchData d), len (vchData d) =? 33).

Definition secret_IsValid (d : CBase58Data) : bool :=
  let v := b58_nVersion d in
  let result fExpectTestNet :=
    Bool.eqb fExpectTestNet fTestNet &&
    ((len (vchData d) =? 32) || ((len (vchData d) =? 33) && (nth 32 (vchData d) 0 =? 1))) in
  if v =? 128 + PUBKEY_ADDRESS then result false
  else if v =? 128 + PUBKEY_ADDRESS_TEST then result true
  else false.

Definition secret_SetString (psz : list Z) : bool * CBase58Data :=
  let '(ok, d) := SetString psz in (ok && secret_IsValid d, d).
End addresses.
End base58.

(** ** The alphabet *)

Lemma strchr_some s c i : strchr s c = Some i -> nth (Z.to_nat i) s 0 = c /\ 0 <= i < len s.
Proof.
  revert i. induction s as [|x s IH]; intros i; simpl; [done|].
  destruct (Z.eqb_spec x c) as [->|]; [intros [= <-]; unfold len; simpl; split; [done|lia]|].
  destruct (strchr s c) as [j|] eqn:E; [|done]. intros [= <-]. destruct (IH j eq_refl) as [Hn Hj].
  replace (Z.to_nat (Z.succ j)) with (S (Z.to_nat j)) by lia. split; [done|].
  unfold len in *. simpl. lia.
Qed.

Lemma base58_check (P : Z -> bool) :
  forallb P (map Z.of_nat (seq 0 58)) = true -> forall d, 0 <= d < 58 -> P d = true.
Proof.
  intros HP d Hd. rewrite forallb_forall in HP. apply HP, in_map_iff.
  exists (Z.to_nat d). split; [lia|]. apply in_seq. lia.
Qed.

Lemma base58_char_ok d : 0 <= d < 58 ->
  strchr pszBase58 (base58_char d) = Some d /\ isspace (base58_char d) = false /\
  base58_char d <> 0 /\ (base58_char d = base58_char 0 -> d = 0).
Proof.
  intros Hd.
  pose proof (base58_check (fun d => match strchr pszBase58 (base58_char d) with
    | Some i => (i =? d) && negb (isspace (base58_char d)) && negb (base58_char d =? 0)
        && (negb (base58_char d =? base58_char 0) || (d =? 0))
    | None => false end) eq_refl d Hd) as Hc. cbv beta in Hc.
  destruct (strchr pszBase58 (base58_char d)) as [i|]; [|done].
  rewrite !andb_true_iff, orb_true_iff, !negb_true_iff, !Z.eqb_neq, !Z.eqb_eq in Hc.
  destruct Hc as (((-> & Hs) & H0) & Hz). split_and!; [done..|]. intros E. destruct Hz; [done|done].
Qed.

Definition text58 (ds : list Z) : list Z := map base58_char ds.

(** Characters of the alphabet are the digits' characters. *)
Lemma text58_inv s : Forall (fun c => strchr pszBase58 c <> None) s -> exists ds, s = text58 ds /\ digits 58 ds.
Proof.
  induction 1 as [|c s Hc _ (ds & -> & Hds)]; [by exists []; repeat constructor|].
  destruct (strchr pszBase58 c) as [i|] eqn:E; [|done].
  destruct (strchr_some _ _ _ E) as [Hn Hi]. change (len pszBase58) with 58 in Hi.
  exists (i :: ds). split; [|by constructor]. simpl. by rewrite <- Hn.
Qed.

Lemma c_str_text58 ds : digits 58 ds -> c_str (text58 ds) = text58 ds.
Proof.
  induction 1 as [|d ds Hd _ IH]; [done|]. simpl.
  destruct (base58_char_ok d Hd) as (_ & _ & Hne & _). rewrite (proj2 (Z.eqb_neq _ _) Hne). by rewrite IH.
Qed.

Lemma skip_text58 ds : digits 58 ds -> skip_spaces (text58 ds) = text58 ds.
Proof.
  destruct 1 as [|d ds Hd _]; [done|]. simpl. by destruct (base58_char_ok d Hd) as (_ & -> & _ & _).
Qed.

(** ** Leading zeros *)

Lemma count_leading_split z l :
  exists l', l = replicate (count_leading z l) z ++ l' /\ count_leading z l' = 0%nat.
Proof.
  induction l as [|c l (l' & E & Hl')]; [by exists []|]. simpl.
  destruct (Z.eqb_spec c z) as [->|Hne].
  - exists l'. by rewrite E at 1.
  - exists (c :: l). simpl. by rewrite (proj2 (Z.eqb_neq c z) Hne).
Qed.

Lemma count_leading_app z n l : count_leading z l = 0%nat -> count_leading z (replicate n z ++ l) = n.
Proof. intros Hl. induction n as [|n IH]; simpl; [done|]. by rewrite Z.eqb_refl, IH. Qed.

Lemma count_leading_text ds : digits 58 ds -> count_leading (base58_char 0) (text58 ds) = count_leading 0 ds.
Proof.
  induction 1 as [|d ds Hd _ IH]; [done|]. simpl. destruct (base58_char_ok d Hd) as (_ & _ & _ & Hz).
  destruct (Z.eqb_spec d 0) as [->|Hd0]; [by rewrite Z.eqb_refl, IH|].
  destruct (Z.eqb_spec (base58_char d) (base58_char 0)); [by apply Hz in e|done].
Qed.

(** No leading zero, big-endian: the canonical representation. *)
Lemma canonical_last l : count_leading 0 l = 0%nat <-> List.last (rev l) 1 <> 0.
Proof.
  destruct l as [|d l]; [simpl; split; [lia|done]|]. simpl rev. rewrite last_last. simpl.
  destruct (Z.eqb_spec d 0); split; (lia || done).
Qed.

Lemma be_bytes_of_be l : digits 256 l -> count_leading 0 l = 0%nat -> be_bytes (of_be l) = l.
Proof.
  intros Hl Hc. apply rev_inj. pose proof (of_be_bound l Hl) as Hb.
  apply (of_digits_canonical 256); [lia|apply Forall_rev, be_bytes_ok|by apply Forall_rev| | |].
  - destruct (Z.eq_dec (of_be l) 0) as [->|]; [simpl; lia|].
    destruct (be_bytes_head (of_be l) ltac:(lia)) as (b & t & E & Hb' & _).
    apply canonical_last. rewrite E. simpl. destruct (Z.eqb_spec b 0); [lia|done].
  - by apply canonical_last.
  - exact (of_be_bytes (of_be l) ltac:(lia)).
Qed.

Section facts.
Context `{BNS : BN_spec}.

(** ** The two loops *)

Lemma encode58_loop_digits fuel a :
  0 <= a < 2 ^ Z.of_nat fuel ->
  exists ds, encode58_loop fuel a 58 = Some (text58 ds) /\ digits 58 ds /\
    of_digits 58 ds = a /\ List.last ds 1 <> 0.
Proof.
  assert (Hgt : forall a, bn_gt a (CBigNum_int 0) = (0 <? a)).
  { intros b. unfold bn_gt. rewrite CBigNum_int_value by (unfold sfits; lia). apply bn_cmp_pos. }
  revert a. induction fuel as [|fuel IH]; intros a Ha.
  - exists []. assert (a = 0) as -> by (simpl in Ha; lia). simpl. rewrite Hgt. simpl.
    split_and!; [done|constructor|done|lia].
  - cbn [encode58_loop]. rewrite Hgt. destruct (Z.ltb_spec 0 a) as [Hpos|Hz].
    + rewrite BN_div_spec. destruct (Z.eqb_spec 58 0); [lia|].
      rewrite Z.quot_div_nonneg, Z.rem_mod_nonneg by lia.
      rewrite Nat2Z.inj_succ, Z.pow_succ_r in Ha by lia.
      destruct (IH (a / 58)) as (ds & E & Hds & Hv & Hlast).
      { split; [apply Z.div_pos; lia|]. apply Z.div_lt_upper_bound; nia. }
      rewrite E. pose proof (Z.mod_pos_bound a 58 ltac:(lia)) as Hm. pose proof (Z.div_mod a 58).
      exists (a mod 58 :: ds). unfold getulong. rewrite BN_get_word_spec.
      rewrite Z.abs_eq, (proj2 (Z.ltb_lt _ _)), wrap_id by (unfold fits; lia).
      split_and!; [done|by constructor|cbn [of_digits]; rewrite Hv; lia|].
      destruct ds as [|d ds]; [|exact Hlast]. simpl in Hv |- *. lia.
    + exists []. assert (a = 0) as -> by lia. split_and!; [done|constructor|done|simpl; lia].
Qed.

Lemma decode58_loop_value ds bn :
  digits 58 ds -> decode58_loop (text58 ds) bn 58 = Some (bn * 58 ^ len ds + of_digits 58 (rev ds)).
Proof.
  intros Hds. revert bn. induction Hds as [|d ds Hd _ IH]; intros bn; [simpl; f_equal; unfold len; simpl; lia|].
  cbn [text58 map decode58_loop]. destruct (base58_char_ok d Hd) as (-> & _). fold (text58 ds).
  rewrite IH, BN_add_spec, BN_mul_spec. unfold setulong. rewrite BN_set_word_spec by (unfold fits; lia).
  f_equal. simpl rev. rewrite of_digits_app, length_rev by lia. cbn [of_digits].
  unfold len. cbn [length]. rewrite Nat2Z.inj_succ, Z.pow_succ_r by lia. lia.
Qed.

Lemma trim_sign_bytes z : 0 <= z -> trim_sign (getvch z) = rev (be_bytes z).
Proof.
  intros Hz. unfold trim_sign. rewrite getvch_value, rev_involutive. unfold mpi_body.
  rewrite Z.abs_eq by done. destruct (Z.ltb_spec z 0); [lia|].
  destruct (Z.eq_dec z 0) as [->|]; [done|].
  destruct (be_bytes_head z ltac:(lia)) as (b & t & -> & Hb & Ht).
  destruct (Z.leb_spec 128 b); simpl.
  - destruct (Z.leb_spec 128 b); [done|lia].
  - destruct t as [|b' t]; [done|]. destruct (Z.eqb_spec b 0); [lia|done].
Qed.

(** ** Encoding and decoding as functions on digit lists *)

Lemma EncodeBase58_value v : digits 256 v -> len v < 2 ^ 31 ->
  exists ds, EncodeBase58 v = Some (text58 (replicate (count_leading 0 v) 0 ++ rev ds)) /\
    digits 58 ds /\ of_digits 58 ds = of_be v /\ List.last ds 1 <> 0.
Proof.
  intros Hv Hl. unfold EncodeBase58.
  assert (setvch (rev v ++ [0]) = of_be v) as ->.
  { rewrite setvch_value.
    - rewrite rev_app_distr, rev_involutive. simpl. rewrite of_be_cons. lia.
    - apply Forall_app; split; [by apply Forall_rev|by repeat constructor].
    - rewrite len_app. unfold len in *. rewrite length_rev. simpl. lia. }
  rewrite CBigNum_int_value by (unfold sfits; lia). pose proof (of_be_bound v Hv) as Hb.
  destruct (encode58_loop_digits (Z.to_nat (nbits (of_be v))) (of_be v)) as (ds & -> & Hds & Hval & Hlast).
  { rewrite Z2Nat.id by apply nbits_nonneg. split; [lia|apply nbits_bound; lia]. }
  exists ds. split_and!; [|done..]. f_equal. unfold text58.
  rewrite rev_app_distr, map_app, map_rev. f_equal.
  by rewrite rev_replicate, fmap_replicate.
Qed.

Lemma DecodeBase58_value ds : digits 58 ds ->
  DecodeBase58 (text58 ds) = Some (replicate (count_leading 0 ds) 0 ++ be_bytes (of_digits 58 (rev ds))).
Proof.
  intros Hds. unfold DecodeBase58. rewrite c_str_text58, skip_text58 by done.
  rewrite !CBigNum_int_value by (unfold sfits; lia). rewrite decode58_loop_value by done.
  rewrite Z.mul_0_l, Z.add_0_l.
  pose proof (of_digits_bound 58 ltac:(lia) (rev ds) (Forall_rev Hds)).
  rewrite trim_sign_bytes, rev_involutive, count_leading_text by (done || lia). done.
Qed.

Lemma digits_replicate_app B n l : 0 < B -> digits B l -> digits B (replicate n 0 ++ l).
Proof. intros. apply Forall_app. split; [apply Forall_replicate; lia|done]. Qed.

Lemma decode_encode v : digits 256 v -> len v < 2 ^ 31 ->
  exists str, EncodeBase58 v = Some str /\ DecodeBase58 str = Some v /\
    Forall (fun c => strchr pszBase58 c <> None) str.
Proof.
  intros Hv Hl. destruct (EncodeBase58_value v Hv Hl) as (ds & -> & Hds & Hval & Hlast).
  assert (Hd : digits 58 (replicate (count_leading 0 v) 0 ++ rev ds)).
  { apply digits_replicate_app; [lia|by apply Forall_rev]. }
  eexists. split; [done|]. split.
  - rewrite DecodeBase58_value by done. f_equal.
    rewrite count_leading_app by (apply canonical_last; by rewrite rev_involutive).
    rewrite rev_app_distr, rev_involutive, of_digits_app, rev_replicate, of_digits_replicate_0.
    rewrite Z.mul_0_r, Z.add_0_r, Hval.
    destruct (count_leading_split 0 v) as (l' & E & Hl'). rewrite E at 2. rewrite of_be_leading.
    rewrite be_bytes_of_be; [done| |done]. rewrite E in Hv. by apply Forall_app in Hv as [_ Hv].
  - apply Forall_map. eapply Forall_impl; [exact Hd|]. intros d Hr. change (strchr pszBase58 (base58_char d) <> None).
    by destruct (base58_char_ok d Hr) as (-> & _).
Qed.

Lemma encode_decode s : Forall (fun c => strchr pszBase58 c <> None) s ->
  exists v, DecodeBase58 s = Some v /\ digits 256 v /\ (len v < 2 ^ 31 -> EncodeBase58 v = Some s).
Proof.
  intros Hs. destruct (text58_inv s Hs) as (ds & -> & Hds). rewrite DecodeBase58_value by done.
  set (z := of_digits 58 (rev ds)).
  assert (Hz : 0 <= z) by (apply (of_digits_bound 58 ltac:(lia) (rev ds)), Forall_rev, Hds).
  assert (Hbc : count_leading 0 (be_bytes z) = 0%nat).
  { destruct (Z.eq_dec z 0) as [->|]; [done|]. destruct (be_bytes_head z ltac:(lia)) as (b & t & -> & Hb & _).
    simpl. destruct (Z.eqb_spec b 0); [lia|done]. }
  assert (Hd : digits 256 (replicate (count_leading 0 ds) 0 ++ be_bytes z)).
  { apply digits_replicate_app; [lia|apply be_bytes_ok]. }
  eexists. split_and!; [done|done|]. intros Hl.
  destruct (EncodeBase58_value _ Hd Hl) as (ds' & -> & Hds' & Hval & Hlast). do 2 f_equal.
  rewrite count_leading_app by done. rewrite of_be_leading, of_be_bytes in Hval by done.
  destruct (count_leading_split 0 ds) as (l' & E & Hl'). rewrite E at 2. f_equal.
  rewrite <- (rev_involutive l'). f_equal.
  assert (Hdl : digits 58 l') by (rewrite E in Hds; by apply Forall_app in Hds as [_ ?]).
  apply (of_digits_canonical 58); [lia|done|by apply Forall_rev|done|by apply canonical_last|].
  rewrite Hval. unfold z. rewrite E at 1.
  rewrite rev_app_distr, of_digits_app, rev_replicate, of_digits_replicate_0. lia.
Qed.

(** ** The checksum *)

Context `{CS : Crypto_spec}.

Lemma checksum_ok v : digits 256 (take 4 (bu_bytes (Hash v))) /\ length (take 4 (bu_bytes (Hash v))) = 4%nat.
Proof.
  split; [apply Forall_take, bu_bytes_ok|]. rewrite length_take, length_bu_bytes, (proj1 (wf_Hash v)). done.
Qed.

Lemma DecodeCheck_sound s v :
  DecodeBase58Check s = Some v <-> DecodeBase58 s = Some (v ++ take 4 (bu_bytes (Hash v))).
Proof.
  unfold DecodeBase58Check. split.
  - destruct (DecodeBase58 s) as [r|]; [|done]. destruct (Z.ltb_spec (len r) 4); [done|].
    destruct (bytes_eqb _ _) eqn:E; [|done]. intros [= <-]. apply bytes_eqb_eq in E.
    by rewrite E, take_drop.
  - intros ->. destruct (checksum_ok v) as [_ Hl]. rewrite length_app, Hl.
    replace (length v + 4 - 4)%nat with (length v) by lia.
    destruct (Z.ltb_spec (len (v ++ take 4 (bu_bytes (Hash v)))) 4) as [Hlt|].
    { unfold len in Hlt. rewrite length_app, Hl in Hlt. lia. }
    rewrite take_app_length, drop_app_length, bytes_eqb_refl. done.
Qed.

Lemma check_roundtrip v : digits 256 v -> len v + 4 < 2 ^ 31 ->
  exists str, EncodeBase58Check v = Some str /\ DecodeBase58Check str = Some v.
Proof.
  intros Hv Hl. destruct (checksum_ok v) as [Hc Hc4].
  destruct (decode_encode (v ++ take 4 (bu_bytes (Hash v)))) as (str & E & D & _).
  - by apply Forall_app.
  - unfold len in *. rewrite length_app, Hc4. lia.
  - exists str. split; [exact E|]. by apply DecodeCheck_sound.
Qed.

(** ** Data, addresses and secrets *)

Definition b58_ok (d : CBase58Data) : Prop :=
  fits 8 (b58_nVersion d) /\ digits 256 (vchData d) /\ len (vchData d) + 5 < 2 ^ 31.

Lemma data_roundtrip d : b58_ok d ->
  exists str, b58_ToString d = Some str /\ SetString str = (true, d).
Proof.
  intros (Hv & Hd & Hl). destruct d as [v l]; cbn [b58_nVersion vchData] in *.
  destruct (check_roundtrip (v :: l)) as (str & E & D).
  - by constructor.
  - unfold len in *. simpl. lia.
  - exists str. split; [exact E|]. unfold SetString. by rewrite D.
Qed.

Lemma CompareTo_spec a b :
  (CompareTo a b = 0 <-> a = b) /\ CompareTo b a = - CompareTo a b /\
  (forall c, CompareTo a b < 0 -> CompareTo b c < 0 -> CompareTo a c < 0).
Proof.
  destruct a as [va la], b as [vb lb]. unfold CompareTo; cbn [b58_nVersion vchData]. split_and!.
  - destruct (Z.ltb_spec va vb), (Z.ltb_spec vb va); try lia; try (split; [lia|intros [= -> ->]; lia]).
    destruct (lex_lt la lb) eqn:E1.
    { split; [lia|]. intros [= -> ->]. by rewrite lex_lt_irrefl in E1. }
    destruct (lex_lt lb la) eqn:E2.
    { split; [lia|]. intros [= -> ->]. by rewrite lex_lt_irrefl in E2. }
    split; [intros _|done]. f_equal; [lia|by apply lex_lt_total].
  - destruct (Z.ltb_spec va vb), (Z.ltb_spec vb va); try lia.
    destruct (lex_lt la lb) eqn:E1; [by rewrite lex_lt_asym|]. by destruct (lex_lt lb la).
  - intros [vc lc]; cbn [b58_nVersion vchData].
    destruct (Z.ltb_spec va vb), (Z.ltb_spec vb va), (Z.ltb_spec vb vc), (Z.ltb_spec vc vb),
      (Z.ltb_spec va vc), (Z.ltb_spec vc va); try lia.
    destruct (lex_lt la lb) eqn:E1; [|destruct (lex_lt lb la); lia].
    destruct (lex_lt lb lc) eqn:E2; [|destruct (lex_lt lc lb); lia].
    by rewrite (lex_lt_trans la lb lc).
Qed.

(** A key or script identifier as a destination. *)
Definition id_dest (script : bool) (id : base_uint) : CTxDestination :=
  if script then DestScriptID id else DestKeyID id.

Lemma set_id_valid fTestNet script id addr : wf 5 id ->
  exists d, addr_Set fTestNet addr (id_dest script id) = (true, d) /\ b58_ok d /\
    len (vchData d) = 20 /\
    addr_IsValid fTestNet d = true /\ addr_IsValid (negb fTestNet) d = false /\
    addr_Get fTestNet d = id_dest script id /\ addr_IsScript fTestNet d = script /\
    addr_GetKeyID fTestNet d = if script then None else Some id.
Proof.
  intros Hid. assert (Hlen : length (bu_bytes id) = 20%nat) by (by rewrite length_bu_bytes, (proj1 Hid)).
  assert (Hb : words_of_bytes (take 20 (bu_bytes id)) = id).
  { rewrite take_ge by lia. by apply (words_of_bu_bytes 5). }
  exists (if script then Set_ScriptID fTestNet id else Set_KeyID fTestNet id).
  split; [by destruct script|]. unfold Set_ScriptID, Set_KeyID, addr_Get, addr_IsScript, addr_GetKeyID, data_id, addr_IsValid, b58_ok, id_dest, SetData.
  destruct script, fTestNet; cbn -[bu_bytes words_of_bytes take]; unfold len; rewrite Hlen, Hb; split_and!; try done; try lia;
    try (apply wrap_fits; lia); apply bu_bytes_ok.
Qed.

Lemma secret_valid fTestNet sec fCompressed : digits 256 sec -> len sec = 32 ->
  exists d, SetSecret fTestNet sec fCompressed = Some d /\ b58_ok d /\
    secret_IsValid fTestNet d = true /\ secret_IsValid (negb fTestNet) d = false /\
    GetSecret d = (sec, fCompressed).
Proof.
  intros Hs Hl. unfold SetSecret, GetSecret, secret_IsValid, b58_ok, SetData. rewrite Hl.
  assert (Hn : length sec = 32%nat) by (unfold len in Hl; lia).
  eexists. split; [done|]. destruct fCompressed; cbn [b58_nVersion vchData].
  - rewrite len_app, Hl. rewrite app_nth2, Hn, take_app_length' by lia.
    destruct fTestNet; cbn; split_and!; try done; try (apply wrap_fits; lia); try lia;
      apply Forall_app; (split; [done|forall_list]).
  - rewrite Hl, take_ge by lia. destruct fTestNet; cbn; split_and!; try done; try (apply wrap_fits; lia); lia.
Qed.
End facts.

(** ** Main theorems *)

(** (C39) Base 58 is a bijection: every byte vector encodes to a text over the
    58-character alphabet that decodes to the same vector (leading zero bytes
    included), the division loop always terminates without error, and every
    text over the alphabet decodes to a vector that encodes back to exactly
    that text. *)
Theorem base58_bijection `{BNS : BN_spec} :
  (forall v, digits 256 v -> len v < 2 ^ 31 ->
     exists str, EncodeBase58 v = Some str /\ DecodeBase58 str = Some v /\
       Forall (fun c => strchr pszBase58 c <> None) str) /\
  (forall s, Forall (fun c => strchr pszBase58 c <> None) s ->
     exists v, DecodeBase58 s = Some v /\ digits 256 v /\
       (len v < 2 ^ 31 -> EncodeBase58 v = Some s)).
Proof. split; [apply decode_encode|apply encode_decode]. Qed.

Lemma base58_bijection_witness :
  @EncodeBase58 BN_Z [0; 0; 40; 127; 180; 205] = Some (chars "11233QC4") /\
  exists str, @EncodeBase58 BN_Z [0; 0; 40; 127; 180; 205] = Some str /\
    @DecodeBase58 BN_Z str = Some [0; 0; 40; 127; 180; 205].
Proof.
  split; [vm_compute; reflexivity|].
  destruct (proj1 (@base58_bijection BN_Z BN_Z_spec) [0; 0; 40; 127; 180; 205]) as (str & E & D & _).
  - forall_list.
  - vm_compute. reflexivity.
  - by exists str.
Defined.

(** The checksum: a checked encoding decodes to its input, and a text is
    accepted exactly when it decodes to some payload followed by the first four
    bytes of that payload's hash, so that one payload has one accepted text
    (white space apart) and no text with a wrong checksum is accepted. *)
Theorem base58check_codec `{BNS : BN_spec} `{CS : Crypto_spec} :
  (forall v, digits 256 v -> len v + 4 < 2 ^ 31 ->
     exists str, EncodeBase58Check v = Some str /\ DecodeBase58Check str = Some v) /\
  (forall s v, DecodeBase58Check s = Some v <-> DecodeBase58 s = Some (v ++ take 4 (bu_bytes (Hash v)))) /\
  (forall s s' v, Forall (fun c => strchr pszBase58 c <> None) s ->
     Forall (fun c => strchr pszBase58 c <> None) s' -> len v + 4 < 2 ^ 31 ->
     DecodeBase58Check s = Some v -> DecodeBase58Check s' = Some v -> s = s').
Proof.
  split_and!; [apply check_roundtrip|apply DecodeCheck_sound|].
  intros s s' v Hs Hs' Hl D D'. apply DecodeCheck_sound in D, D'.
  destruct (encode_decode s Hs) as (r & E & _ & Henc), (encode_decode s' Hs') as (r' & E' & _ & Henc').
  assert (Hlen : len (v ++ take 4 (bu_bytes (Hash v))) < 2 ^ 31).
  { rewrite len_app. unfold len at 2. rewrite (proj2 (checksum_ok v)). lia. }
  rewrite D in E. rewrite D' in E'. injection E as <-. injection E' as <-.
  specialize (Henc Hlen). specialize (Henc' Hlen). congruence.
Qed.

Lemma base58check_codec_witness :
  exists str, @EncodeBase58Check BN_Z Crypto_toy [27; 1; 2; 3] = Some str /\
    @DecodeBase58Check BN_Z Crypto_toy str = Some [27; 1; 2; 3].
Proof.
  destruct (@base58check_codec BN_Z BN_Z_spec Crypto_toy Crypto_toy_spec) as [Hrt _]. apply Hrt.
  - forall_list.
  - vm_compute. reflexivity.
Defined.

(** Addresses: the text of the address of a key or script identifier, read
    back with [SetString], is accepted, is valid on the network it was made for
    and on no other, and [Get] returns the same destination; a secret key's text
    gives back the secret and its compression flag; [CompareTo] is a total order
    that is 0 exactly on equal data. *)
Theorem address_codec `{BNS : BN_spec} `{CS : Crypto_spec} (fTestNet : bool) :
  (forall script id addr, wf 5 id ->
     exists d str, addr_Set fTestNet addr (id_dest script id) = (true, d) /\
       b58_ToString d = Some str /\ SetString str = (true, d) /\
       addr_IsValid fTestNet d = true /\ addr_IsValid (negb fTestNet) d = false /\
       addr_Get fTestNet d = id_dest script id /\ addr_IsScript fTestNet d = script /\
       addr_GetKeyID fTestNet d = (if script then None else Some id)) /\
  (forall sec fCompressed, digits 256 sec -> len sec = 32 ->
     exists d str, SetSecret fTestNet sec fCompressed = Some d /\
       b58_ToString d = Some str /\ secret_SetString fTestNet str = (true, d) /\
       fst (secret_SetString (negb fTestNet) str) = false /\ GetSecret d = (sec, fCompressed)) /\
  (forall a b, (CompareTo a b = 0 <-> a = b) /\ CompareTo b a = - CompareTo a b /\
     (forall c, CompareTo a b < 0 -> CompareTo b c < 0 -> CompareTo a c < 0)).
Proof.
  split_and!; [| |apply CompareTo_spec].
  - intros script id addr Hid.
    destruct (set_id_valid fTestNet script id addr Hid) as (d & E & Hok & _ & Hrest).
    destruct (data_roundtrip d Hok) as (str & Es & Ed). by exists d, str.
  - intros sec fc Hs Hl. destruct (secret_valid fTestNet sec fc Hs Hl) as (d & E & Hok & Hv & Hn & Hg).
    destruct (data_roundtrip d Hok) as (str & Es & Ed). exists d, str.
    unfold secret_SetString. rewrite Ed, Hv. cbn [fst]. rewrite Hn. done.
Qed.

Lemma address_codec_witness :
  exists d str, @addr_Set false (mkBase58Data 0 []) (id_dest false [1; 2; 3; 4; 5]) = (true, d) /\
    @b58_ToString BN_Z Crypto_toy d = Some str /\ @SetString BN_Z Crypto_toy str = (true, d) /\
    addr_Get false d = DestKeyID [1; 2; 3; 4; 5].
Proof.
  destruct (@address_codec BN_Z BN_Z_spec Crypto_toy Crypto_toy_spec false) as [Haddr _].
  destruct (Haddr false [1; 2; 3; 4; 5] (mkBase58Data 0 [])) as (d & str & E1 & E2 & E3 & _ & _ & E4 & _).
  - split; [done|]. forall_list.
  - by exists d, str.
Defined.
