(* ===== verification/Script.v ===== *)
(** * script.h and script.cpp: the byte form of scripts

    [CScript] is a vector of bytes.  An iterator [pc] into a script is modelled
    by what lies between it and the end, so that [pc == end()] is the empty
    list and [CScript(pc, end())] is the list itself.  This file has the
    instruction decoder, the operators that append to a script and the scans
    over a script; Interp.v runs scripts. *)
From Stdlib Require Import ZArith Lia Bool String.
From stdpp Require Import prelude pretty.
From S2P Require Import Prelude Uint256 DataStream Serialize Crypto Bignum Opcodes.

Definition CScript : Type := list Z.

(** ** Reading instructions *)

(** The result of [GetOp2]: the value returned, the iterator after the call
    (advanced also when the call fails half-way), [opcodeRet] and [*pvchRet]. *)
Definition GetOp2 (pc : CScript) : bool * CScript * Z * list Z :=
  match pc with
  | [] => (false, pc, OP_INVALIDOPCODE, [])
  | opcode :: pc =>
      if opcode <=? OP_PUSHDATA4 then
        let size_field (n : nat) : option (Z * CScript) :=
          if len pc <? Z.of_nat n then None else Some (of_digits 256 (take n pc), drop n pc) in
        match
          if opcode <? OP_PUSHDATA1 then Some (opcode, pc)
          else if opcode =? OP_PUSHDATA1 then size_field 1%nat
          else if opcode =? OP_PUSHDATA2 then size_field 2%nat
          else size_field 4%nat
        with
        | None => (false, pc, OP_INVALIDOPCODE, [])
        | Some (nSize, pc) =>
            if u32 (len pc) <? nSize then (false, pc, OP_INVALIDOPCODE, [])
            else (true, drop (Z.to_nat nSize) pc, opcode, take (Z.to_nat nSize) pc)
        end
      else (true, pc, opcode, [])
  end.

(** For the callers that stop when the call fails. *)
Definition GetOp (pc : CScript) : option (Z * list Z * CScript) :=
  let '(fRet, pc, opcode, vch) := GetOp2 pc in
  if fRet then Some (opcode, vch, pc) else None.

(** ** Appending

    [operator<<] for an opcode ([None]: it throws), a number of 160 or 256
    bits, a byte vector, a big number and an integer. *)

Definition push_opcode (s : CScript) (opcode : Z) : option CScript :=
  if (opcode <? 0) || (0xff <? opcode) then None else Some (s ++ [opcode]).

Definition push_uint (s : CScript) (b : base_uint) : CScript :=
  s ++ [u8 (len (bu_bytes b))] ++ bu_bytes b.

Definition push_vch (s : CScript) (b : list Z) : CScript :=
  if len b <? OP_PUSHDATA1 then s ++ [u8 (len b)] ++ b
  else if len b <=? 0xff then s ++ [OP_PUSHDATA1; u8 (len b)] ++ b
  else if len b <=? 0xffff then s ++ [OP_PUSHDATA2] ++ to_digits 256 2 (u16 (len b)) ++ b
  else s ++ [OP_PUSHDATA4] ++ to_digits 256 4 (u32 (len b)) ++ b.

Definition push_pubkey (s : CScript) (key : CPubKey) : CScript := push_vch s (vchPubKey key).

Section numbers.
Context `{BN}.

Definition push_bignum (s : CScript) (b : Z) : CScript := push_vch s (getvch b).

Definition push_int64 (s : CScript) (n : Z) : CScript :=
  if (n =? -1) || ((1 <=? n) && (n <=? 16)) then s ++ [u8 (n + (OP_1 - 1))]
  else push_vch s (getvch (setint64 n)).

Definition push_uint64 (s : CScript) (n : Z) : CScript :=
  if (1 <=? n) && (n <=? 16) then s ++ [u8 (n + (OP_1 - 1))]
  else push_vch s (getvch (setuint64 n)).
End numbers.

(** [operator+] *)
Definition script_add (a b : CScript) : CScript := a ++ b.

(** ** Small integers; [None] is a failed assertion *)

Definition DecodeOP_N (opcode : Z) : option Z :=
  if opcode =? OP_0 then Some 0
  else if negb ((OP_1 <=? opcode) && (opcode <=? OP_16)) then None
  else Some (opcode - (OP_1 - 1)).

Definition EncodeOP_N (n : Z) : option Z :=
  if negb ((0 <=? n) && (n <=? 16)) then None
  else if n =? 0 then Some OP_0
  else Some (OP_1 + n - 1).

(** ** Scans *)

(** The inner loop of [FindAndDelete]: occurrences of [b] at [pc] are erased.
    [fuel] is the length of what is left, more than enough as [b] is not empty. *)
Fixpoint erase_here (fuel : nat) (b pc : CScript) : CScript * Z :=
  match fuel with
  | O => (pc, 0)
  | S fuel =>
      if (len b <=? len pc) && bytes_eqb (take (length b) pc) b
      then let '(pc, n) := erase_here fuel b (drop (length b) pc) in (pc, n + 1)
      else (pc, 0)
  end.

(** The [do ... while (GetOp(pc, opcode))]: the bytes from [pc] on after the
    erasures, and how many there were. *)
Fixpoint fad_loop (fuel : nat) (b pc : CScript) : CScript * Z :=
  match fuel with
  | O => (pc, 0)
  | S fuel =>
      let '(pc, n) := erase_here (length pc) b pc in
      match GetOp pc with
      | None => (pc, n)
      | Some (_, _, next) =>
          let '(r, m) := fad_loop fuel b next in
          (take (length pc - length next) pc ++ r, n + m)
      end
  end.

Definition FindAndDelete (s b : CScript) : CScript * Z :=
  match b with
  | [] => (s, 0)
  | _ => fad_loop (S (length s)) b s
  end.

Fixpoint Find_loop (fuel : nat) (op : Z) (pc : CScript) : Z :=
  match fuel, pc with
  | O, _ | _, [] => 0
  | S fuel, _ =>
      match GetOp pc with
      | None => 0
      | Some (opcode, _, pc) => (if opcode =? op then 1 else 0) + Find_loop fuel op pc
      end
  end.

Definition Find (s : CScript) (op : Z) : Z := Find_loop (length s) op s.

Fixpoint IsPushOnly_loop (fuel : nat) (pc : CScript) : bool :=
  match pc, fuel with
  | [], _ => true
  | _, O => false
  | _, S fuel =>
      match GetOp pc with
      | None => false
      | Some (opcode, _, pc) => if OP_16 <? opcode then false else IsPushOnly_loop fuel pc
      end
  end.

Definition IsPushOnly (s : CScript) : bool := IsPushOnly_loop (length s) s.

(** [GetSigOpCount]; [None] is the failed assertion in [DecodeOP_N]. *)
Fixpoint sigop_loop (fuel : nat) (fAccurate : bool) (n lastOpcode : Z) (pc : CScript) : option Z :=
  match pc, fuel with
  | [], _ | _, O => Some n
  | _, S fuel =>
      match GetOp pc with
      | None => Some n
      | Some (opcode, _, pc) =>
          if (opcode =? OP_CHECKSIG) || (opcode =? OP_CHECKSIGVERIFY)
          then sigop_loop fuel fAccurate (u32 (n + 1)) opcode pc
          else if (opcode =? OP_CHECKMULTISIG) || (opcode =? OP_CHECKMULTISIGVERIFY)
          then
            if fAccurate && (OP_1 <=? lastOpcode) && (lastOpcode <=? OP_16)
            then match DecodeOP_N lastOpcode with
                 | None => None
                 | Some k => sigop_loop fuel fAccurate (u32 (n + k)) opcode pc
                 end
            else sigop_loop fuel fAccurate (u32 (n + 20)) opcode pc
          else sigop_loop fuel fAccurate n opcode pc
      end
  end.

Definition GetSigOpCount (s : CScript) (fAccurate : bool) : option Z :=
  sigop_loop (length s) fAccurate 0 OP_INVALIDOPCODE s.

Definition IsPayToScriptHash (s : CScript) : bool :=
  (len s =? 23) && (nth 0 s 0 =? OP_HASH160) && (nth 1 s 0 =? 0x14) && (nth 22 s 0 =? OP_EQUAL).

(** The loop over [scriptSig]: the last data pushed, or [None] for [return 0]. *)
Fixpoint last_push (fuel : nat) (data : list Z) (pc : CScript) : option (list Z) :=
  match pc, fuel with
  | [], _ | _, O => Some data
  | _, S fuel =>
      match GetOp pc with
      | None => None
      | Some (opcode, data, pc) => if OP_16 <? opcode then None else last_push fuel data pc
      end
  end.

(** [GetSigOpCount(scriptSig)] *)
Definition GetSigOpCount_P2SH (s scriptSig : CScript) : option Z :=
  if negb (IsPayToScriptHash s) then GetSigOpCount s true
  else
    match last_push (length scriptSig) [] scriptSig with
    | None => Some 0
    | Some data => GetSigOpCount data true
    end.

Definition script_GetID `{Crypto} (s : CScript) : CScriptID := Hash160 s.

(** ** Text *)

(** [HexStr(itbegin, itend, fSpaces)] of util.h *)
Fixpoint HexStr_loop (first fSpaces : bool) (l : list Z) : list Z :=
  match l with
  | [] => []
  | val :: l =>
      (if fSpaces && negb first then [32] else []) ++
      [hexchar (Z.shiftr val 4); hexchar (Z.land val 15)] ++ HexStr_loop false fSpaces l
  end.

Definition HexStr (l : list Z) (fSpaces : bool) : list Z := HexStr_loop true fSpaces l.

Section text.
Context `{BN}.

(** [strprintf("%d", n)] is the decimal notation of [n]. *)
Definition ValueString (vch : list Z) : list Z :=
  if len vch <=? 4 then chars (pretty (getint (setvch vch))) else HexStr vch false.

Fixpoint StackString_loop (str : list Z) (vStack : list (list Z)) : list Z :=
  match vStack with
  | [] => str
  | vch :: vStack =>
      StackString_loop (str ++ (match str with [] => [] | _ => [32] end) ++ ValueString vch) vStack
  end.

Definition StackString (vStack : list (list Z)) : list Z := StackString_loop [] vStack.

Fixpoint ToString_loop (fuel : nat) (fShort : bool) (str : list Z) (pc : CScript) : list Z :=
  match pc, fuel with
  | [], _ | _, O => str
  | _, S fuel =>
      let str := str ++ (match str with [] => [] | _ => [32] end) in
      match GetOp pc with
      | None => str ++ chars "[error]"
      | Some (opcode, vch, pc) =>
          if (0 <=? opcode) && (opcode <=? OP_PUSHDATA4)
          then ToString_loop fuel fShort
                 (str ++ (if fShort then take 10 (ValueString vch) else ValueString vch)) pc
          else ToString_loop fuel fShort (str ++ chars (GetOpName opcode)) pc
      end
  end.

Definition script_ToString (s : CScript) (fShort : bool) : list Z :=
  ToString_loop (length s) fShort [] s.

Fixpoint ToDataString_loop (fuel : nat) (str : list Z) (pc : CScript) : list Z :=
  match pc, fuel with
  | [], _ | _, O => str
  | _, S fuel =>
      match GetOp pc with
      | None => str ++ chars "[error]"
      | Some (opcode, vch, pc) =>
          if (0 <=? opcode) && (opcode <=? OP_PUSHDATA4)
          then ToDataString_loop fuel (str ++ ValueString vch) pc
          else ToDataString_loop fuel str pc
      end
  end.

Definition ToDataString (s : CScript) : list Z := ToDataString_loop (length s) [] s.
End text.

(** ** The decoder, declaratively *)

(** An instruction is its opcode, a size field [hdr] and the data pushed. *)
Definition op_form (op : Z) (hdr v : list Z) : Prop :=
  if OP_PUSHDATA4 <? op then hdr = [] /\ v = []
  else if op <? OP_PUSHDATA1 then hdr = [] /\ len v = op
  else len hdr = (if op =? OP_PUSHDATA1 then 1 else if op =? OP_PUSHDATA2 then 2 else 4) /\
       of_digits 256 hdr = len v.

(** What a vector in memory can be. *)
Definition script_ok (s : CScript) : Prop := digits 256 s /\ len s < 2 ^ 32.

Lemma script_ok_app a b : script_ok (a ++ b) -> script_ok a /\ script_ok b.
Proof.
  intros [Hd Hl]. apply Forall_app in Hd as [Ha Hb]. rewrite len_app in Hl.
  pose proof (len_nonneg a). pose proof (len_nonneg b). repeat split; (done || lia).
Qed.

Lemma script_ok_tail c s : script_ok (c :: s) -> 0 <= c < 256 /\ script_ok s.
Proof.
  intros [Hd Hl]. apply Forall_cons in Hd as [Hc Hs]. split; [done|].
  split; [done|]. unfold len in *. simpl in Hl. lia.
Qed.

Lemma take_drop_len {A} n (l : list A) : 0 <= n <= len l -> len (take (Z.to_nat n) l) = n.
Proof. intros Hn. unfold len in *. rewrite length_take. lia. Qed.

Lemma drop_app_len {A} n (l1 l2 : list A) : len l1 = n -> drop (Z.to_nat n) (l1 ++ l2) = l2 /\ take (Z.to_nat n) (l1 ++ l2) = l1.
Proof.
  intros <-. unfold len. rewrite Nat2Z.id. split; [apply drop_app_length|apply take_app_length].
Qed.

(** Decoding the data once the size is known. *)
Lemma data_iff (op nSize : Z) (pc v rest : list Z) (op' : Z) : script_ok pc -> 0 <= nSize ->
  (if u32 (len pc) <? nSize then None
   else Some (op, take (Z.to_nat nSize) pc, drop (Z.to_nat nSize) pc)) = Some (op', v, rest)
  <-> op' = op /\ pc = v ++ rest /\ len v = nSize.
Proof.
  intros [Hd Hl] Hn. pose proof (len_nonneg pc). rewrite wrap_id by (unfold fits; lia).
  destruct (Z.ltb_spec (len pc) nSize).
  - split; [done|]. intros (-> & -> & <-). rewrite len_app in *. pose proof (len_nonneg rest). lia.
  - split.
    + intros [= <- <- <-]. split_and!; [done|by rewrite take_drop|]. apply take_drop_len. lia.
    + intros (-> & -> & E). destruct (drop_app_len nSize v rest E) as [-> ->]. done.
Qed.

Lemma size_field_iff (n : nat) (op : Z) (pc v rest : list Z) (op' : Z) : script_ok pc -> (n <= 4)%nat ->
  match (if len pc <? Z.of_nat n then None else Some (of_digits 256 (take n pc), drop n pc)) with
  | None => None
  | Some (nSize, pc) =>
      if u32 (len pc) <? nSize then None
      else Some (op, take (Z.to_nat nSize) pc, drop (Z.to_nat nSize) pc)
  end = Some (op', v, rest)
  <-> exists hdr, op' = op /\ pc = hdr ++ v ++ rest /\ len hdr = Z.of_nat n /\ of_digits 256 hdr = len v.
Proof.
  intros Hok Hn. destruct (Z.ltb_spec (len pc) (Z.of_nat n)) as [Hlt|Hge].
  - split; [done|]. intros (hdr & -> & -> & E & _). rewrite !len_app in Hlt.
    pose proof (len_nonneg v). pose proof (len_nonneg rest). lia.
  - rewrite <- (take_drop n pc) in Hok. apply script_ok_app in Hok as [[Hd1 _] Hok2].
    rewrite data_iff; [|done|apply of_digits_bound; [lia|done]]. split.
    + intros (-> & E & Hv). exists (take n pc). rewrite <- E, take_drop. split_and!; [done..| |done].
      unfold len in *. rewrite length_take. lia.
    + intros (hdr & -> & E & Hh & Hv). subst pc. destruct (drop_app_len (Z.of_nat n) hdr (v ++ rest) Hh) as [E1 E2].
      rewrite Nat2Z.id in E1, E2. by rewrite E1, E2.
Qed.

Lemma GetOp_iff s op v rest : script_ok s ->
  GetOp s = Some (op, v, rest) <-> exists hdr, s = op :: hdr ++ v ++ rest /\ op_form op hdr v.
Proof.
  intros Hok. destruct s as [|c pc]; [split; [done|intros (? & ? & _); done]|].
  apply script_ok_tail in Hok as [Hc Hok].
  assert (Hcase : GetOp (c :: pc) =
    if OP_PUSHDATA4 <? c then Some (c, [], pc)
    else match
      (if c <? OP_PUSHDATA1 then Some (c, pc)
       else let n := if c =? OP_PUSHDATA1 then 1%nat else if c =? OP_PUSHDATA2 then 2%nat else 4%nat in
       if len pc <? Z.of_nat n then None else Some (of_digits 256 (take n pc), drop n pc))
    with
    | None => None
    | Some (nSize, pc) =>
      if u32 (len pc) <? nSize then None
      else Some (c, take (Z.to_nat nSize) pc, drop (Z.to_nat nSize) pc)
    end).
  { unfold GetOp, GetOp2. rewrite Z.leb_antisym. destruct (OP_PUSHDATA4 <? c); [done|]. cbv zeta. cbn [negb].
    destruct (c <? OP_PUSHDATA1); [by destruct (u32 (len pc) <? c)|].
    destruct (c =? OP_PUSHDATA1); [|destruct (c =? OP_PUSHDATA2)];
      (match goal with |- context [len pc <? ?n] => destruct (len pc <? n) end; [done|]);
      match goal with |- context [u32 ?a <? ?b] => by destruct (u32 a <? b) end. }
  rewrite Hcase. clear Hcase. unfold op_form. destruct (Z.ltb_spec OP_PUSHDATA4 c) as [H4|H4].
  { split.
    - intros [= <- <- <-]. exists []. by rewrite (proj2 (Z.ltb_lt _ _) H4).
    - intros (hdr & [= <- ->] & Hf). rewrite (proj2 (Z.ltb_lt _ _) H4) in Hf. by destruct Hf as [-> ->]. }
  destruct (Z.ltb_spec c OP_PUSHDATA1) as [H1|H1].
  { rewrite data_iff by (done || lia). split.
    - intros (-> & -> & E). exists [].
      by rewrite (proj2 (Z.ltb_ge _ _) H4), (proj2 (Z.ltb_lt _ _) H1).
    - intros (hdr & [= <- ->] & Hf).
      rewrite (proj2 (Z.ltb_ge _ _) H4), (proj2 (Z.ltb_lt _ _) H1) in Hf. by destruct Hf as [-> ?]. }
  cbv zeta. rewrite size_field_iff; [|done|destruct (c =? OP_PUSHDATA1), (c =? OP_PUSHDATA2); lia]. split.
  - intros (hdr & -> & -> & E & Hv). exists hdr. split; [done|].
    rewrite (proj2 (Z.ltb_ge _ _) H4), (proj2 (Z.ltb_ge _ _) H1). rewrite E.
    split; [|done]. destruct (c =? OP_PUSHDATA1); [done|]. by destruct (c =? OP_PUSHDATA2).
  - intros (hdr & [= <- ->] & Hf). rewrite (proj2 (Z.ltb_ge _ _) H4), (proj2 (Z.ltb_ge _ _) H1) in Hf.
    exists hdr. split_and!; [done..| |apply Hf]. destruct Hf as [-> _].
    destruct (c =? OP_PUSHDATA1); [done|]. by destruct (c =? OP_PUSHDATA2).
Qed.

Lemma GetOp_nil : GetOp [] = None.
Proof. done. Qed.

Lemma GetOp_shrinks s op v rest : script_ok s -> GetOp s = Some (op, v, rest) ->
  (length rest < length s)%nat /\ script_ok rest /\ digits 256 v /\ len v <= len s.
Proof.
  intros Hs E. apply GetOp_iff in E as (hdr & -> & _); [|done].
  rewrite app_comm_cons, app_assoc in Hs. apply script_ok_app in Hs as [Hs1 Hs2].
  apply script_ok_app in Hs1 as [_ Hv]. split_and!; [simpl; rewrite !length_app; lia|done|apply Hv|].
  unfold len. simpl. rewrite !length_app. lia.
Qed.

(** Decoding looks at one instruction only. *)
Lemma GetOp_app s r op v rest : script_ok (s ++ r) ->
  GetOp s = Some (op, v, rest) -> GetOp (s ++ r) = Some (op, v, rest ++ r).
Proof.
  intros Hok E. assert (Hs : script_ok s) by (by destruct (script_ok_app _ _ Hok)).
  apply GetOp_iff in E as (hdr & -> & Hf); [|done]. apply GetOp_iff; [done|].
  exists hdr. split; [|done]. by rewrite <- !app_comm_cons, <- !app_assoc.
Qed.

(** ** Pushes decode to what was pushed *)

Lemma push_vch_form s b : digits 256 b -> len b < 2 ^ 32 ->
  exists op hdr, push_vch s b = s ++ op :: hdr ++ b /\ op_form op hdr b /\
    0 <= op <= OP_PUSHDATA4 /\ digits 256 hdr.
Proof.
  intros Hb Hl. pose proof (len_nonneg b) as Hn. unfold push_vch, op_form.
  destruct (Z.ltb_spec (len b) OP_PUSHDATA1) as [H1|H1].
  { unfold OP_PUSHDATA1 in H1. exists (len b), []. rewrite wrap_id by (unfold fits; lia). unfold OP_PUSHDATA4, OP_PUSHDATA1.
    destruct (Z.ltb_spec 78 (len b)); [lia|]. destruct (Z.ltb_spec (len b) 76); [|lia].
    split_and!; (done || lia || constructor). }
  unfold OP_PUSHDATA1 in H1. destruct (Z.leb_spec (len b) 0xff) as [H2|H2].
  { exists OP_PUSHDATA1, [len b]. rewrite wrap_id by (unfold fits; lia).
    split; [done|]. split; [split; [done|simpl; lia]|]. split; [done|forall_list]. }
  destruct (Z.leb_spec (len b) 0xffff) as [H3|H3].
  { exists OP_PUSHDATA2, (to_digits 256 2 (len b)). rewrite (wrap_id 16) by (unfold fits; lia).
    split; [done|]. split; [split; [done|]|split; [done|apply to_digits_ok; lia]].
    rewrite of_to_digits by lia. apply Z.mod_small. simpl. lia. }
  exists OP_PUSHDATA4, (to_digits 256 4 (len b)). rewrite (wrap_id 32) by (unfold fits; lia).
  split; [done|]. split; [split; [done|]|split; [done|apply to_digits_ok; lia]].
  rewrite of_to_digits by lia. apply Z.mod_small. simpl. lia.
Qed.

Lemma push_vch_app s b : push_vch s b = s ++ push_vch [] b.
Proof. unfold push_vch. repeat case_match; done. Qed.

Lemma push_vch_GetOp b rest : digits 256 b -> len b < 2 ^ 32 -> script_ok (push_vch [] b ++ rest) ->
  exists op, 0 <= op <= OP_PUSHDATA4 /\ GetOp (push_vch [] b ++ rest) = Some (op, b, rest).
Proof.
  intros Hb Hl Hok. destruct (push_vch_form [] b Hb Hl) as (op & hdr & E & Hf & Hop & _).
  exists op. split; [done|]. apply GetOp_iff; [done|]. exists hdr. split; [|done].
  rewrite E. simpl. by rewrite <- app_assoc.
Qed.

Lemma push_vch_ok b : digits 256 b -> len b + 5 < 2 ^ 32 -> script_ok (push_vch [] b).
Proof.
  intros Hb Hl. destruct (push_vch_form [] b Hb ltac:(lia)) as (op & hdr & E & Hf & Hop & Hh).
  rewrite E. simpl. unfold OP_PUSHDATA4 in *. split.
  - constructor; [lia|]. by apply Forall_app.
  - change (op :: hdr ++ b) with ([op] ++ hdr ++ b). rewrite !len_app.
    assert (len hdr <= 4); [|unfold len at 1; simpl; lia].
    unfold op_form in Hf. change (len (@nil Z)) with 0 in *.
    destruct (OP_PUSHDATA4 <? op); [destruct Hf as [-> _]; unfold len; simpl; lia|].
    destruct (op <? OP_PUSHDATA1); [destruct Hf as [-> _]; unfold len; simpl; lia|].
    destruct Hf as [-> _]. repeat case_match; lia.
Qed.

(** ** Scripts as sequences of instructions *)

(** The bytes of each instruction, and the tail that does not decode. *)
Fixpoint split_ops (fuel : nat) (pc : CScript) : list CScript * CScript :=
  match fuel with
  | O => ([], pc)
  | S fuel =>
      match GetOp pc with
      | None => ([], pc)
      | Some (_, _, next) =>
          let '(l, t) := split_ops fuel next in
          (take (length pc - length next) pc :: l, t)
      end
  end.

Definition instrs (s : CScript) : list CScript * CScript := split_ops (length s) s.

Lemma split_ops_fuel f1 f2 s : script_ok s -> (length s <= f1)%nat -> (length s <= f2)%nat ->
  split_ops f1 s = split_ops f2 s.
Proof.
  revert f2 s. induction f1 as [|f1 IH]; intros f2 s Hs H1 H2.
  - destruct s; [|simpl in H1; lia]. by destruct f2.
  - destruct f2 as [|f2]; [destruct s; [done|simpl in H2; lia]|]. simpl.
    destruct (GetOp s) as [[[op v] next]|] eqn:E; [|done].
    destruct (GetOp_shrinks s op v next Hs E) as (Hlt & Hn & _). rewrite (IH f2 next); [done|done|lia|lia].
Qed.

Lemma take_prefix {A} (a b : list A) : take (length (a ++ b) - length b) (a ++ b) = a.
Proof. rewrite length_app. replace (length a + length b - length b)%nat with (length a) by lia. apply take_app_length. Qed.

Lemma instrs_step s op v next : script_ok s -> GetOp s = Some (op, v, next) ->
  instrs s = (take (length s - length next) s :: fst (instrs next), snd (instrs next)) /\
  s = take (length s - length next) s ++ next.
Proof.
  intros Hs E. destruct (GetOp_shrinks s op v next Hs E) as (Hlt & Hn & _). split.
  - unfold instrs. destruct (length s) as [|m] eqn:Hm; [lia|]. cbn [split_ops]. rewrite E, Hm.
    rewrite (split_ops_fuel m (length next)) by (done || lia). by destruct (split_ops (length next) next).
  - apply GetOp_iff in E as (hdr & -> & _); [|done].
    replace (op :: hdr ++ v ++ next) with ((op :: hdr ++ v) ++ next) by (simpl; by rewrite <- app_assoc).
    by rewrite take_prefix.
Qed.

Lemma instrs_stop s : GetOp s = None -> instrs s = ([], s).
Proof. unfold instrs. intros E. destruct (length s); simpl; [done|]. by rewrite E. Qed.

Lemma instrs_prefix b s o v : script_ok (b ++ s) -> GetOp b = Some (o, v, []) ->
  instrs (b ++ s) = (b :: fst (instrs s), snd (instrs s)).
Proof.
  intros Hok Hb. assert (E := GetOp_app b s o v [] Hok Hb). simpl in E.
  destruct (instrs_step _ _ _ _ Hok E) as [-> _]. by rewrite take_prefix.
Qed.

(** The instructions and the tail make up the script. *)
Lemma instrs_concat s : script_ok s -> s = concat (fst (instrs s)) ++ snd (instrs s).
Proof.
  remember (length s) as n eqn:Hn. revert s Hn. induction n as [n IH] using lt_wf_ind. intros s -> Hs.
  destruct (GetOp s) as [[[op v] next]|] eqn:E; [|by rewrite instrs_stop].
  destruct (GetOp_shrinks s op v next Hs E) as (Hlt & Hok & _).
  destruct (instrs_step s op v next Hs E) as [-> Hsplit]. simpl.
  rewrite <- app_assoc, <- (IH (length next)) by done. exact Hsplit.
Qed.

(** ** [FindAndDelete] *)

Lemma erase_here_fuel f1 f2 b s : b <> [] -> (length s <= f1)%nat -> (length s <= f2)%nat ->
  erase_here f1 b s = erase_here f2 b s.
Proof.
  intros Hb. assert (Hnil : (len b <=? len (@nil Z)) = false).
  { destruct b; [done|]. apply Z.leb_gt. unfold len. simpl. lia. }
  revert f2 s. induction f1 as [|f1 IH]; intros f2 s H1 H2.
  - destruct s; [|simpl in H1; lia]. destruct f2; [done|]. simpl. by rewrite Hnil.
  - destruct f2 as [|f2]; [destruct s; [simpl; by rewrite Hnil|simpl in H2; lia]|]. simpl.
    destruct (Z.leb_spec (len b) (len s)) as [Hle|]; [|done].
    destruct (bytes_eqb _ _); simpl; [|done].
    assert (Hd : (length (drop (length b) s) < length s)%nat).
    { rewrite length_drop. destruct b; [done|]. unfold len in Hle. simpl in *. lia. }
    by rewrite (IH f2) by lia.
Qed.

Lemma fad_loop_prefix fuel b s : b <> [] ->
  fad_loop (S fuel) b (b ++ s) = (fst (fad_loop (S fuel) b s), snd (fad_loop (S fuel) b s) + 1).
Proof.
  intros Hb. cbn [fad_loop].
  assert (E : erase_here (length (b ++ s)) b (b ++ s) =
    (fst (erase_here (length s) b s), snd (erase_here (length s) b s) + 1)).
  { destruct (length (b ++ s)) as [|f] eqn:Hf; [destruct b; done|]. cbn [erase_here].
    rewrite length_app in Hf.
    assert (Hlen : (len b <=? len (b ++ s)) = true) by (rewrite len_app; pose proof (len_nonneg s); lia).
    rewrite Hlen, take_app_length, drop_app_length, bytes_eqb_refl. cbn [andb].
    rewrite (erase_here_fuel f (length s)); [by destruct (erase_here (length s) b s)|done| |lia].
    destruct b; [done|]. simpl in Hf. lia. }
  rewrite E. destruct (erase_here (length s) b s) as [p n]. cbn [fst snd].
  destruct (GetOp p) as [[[op v] next]|]; [|done].
  destruct (fad_loop fuel b next) as [r m]. cbn [fst snd]. f_equal. lia.
Qed.

Definition not_b (b i : CScript) : bool := negb (bytes_eqb i b).

Lemma fad_loop_filter b o v fuel s : GetOp b = Some (o, v, []) -> script_ok b ->
  script_ok s -> (length s < fuel)%nat ->
  fad_loop fuel b s =
    (concat (List.filter (not_b b) (fst (instrs s))) ++ snd (instrs s),
     len (fst (instrs s)) - len (List.filter (not_b b) (fst (instrs s)))).
Proof.
  intros Hb Hbok. assert (Hbne : b <> []) by (intros ->; by rewrite GetOp_nil in Hb).
  remember (length s) as n eqn:Hn. revert s Hn fuel. induction n as [n IH] using lt_wf_ind.
  intros s -> fuel Hs Hf. destruct fuel as [|fuel]; [lia|].
  destruct (bytes_eqb (take (length b) s) b) eqn:Hpre.
  - (* the script starts with [b] *)
    apply bytes_eqb_eq in Hpre. rewrite <- (take_drop (length b) s), Hpre in Hs, Hf |- *.
    set (s' := drop (length b) s) in *. rewrite fad_loop_prefix by done.
    assert (Hlt : (length s' < length s)%nat).
    { unfold s'. rewrite length_drop. pose proof (length_take s (length b)) as Hlt. rewrite Hpre in Hlt.
      assert (length b <> 0%nat) by (destruct b; done). lia. }
    rewrite (instrs_prefix b s' o v Hs Hb).
    apply script_ok_app in Hs as [_ Hs']. rewrite (IH (length s') Hlt s' eq_refl (S fuel) Hs') by (rewrite length_app in Hf; lia).
    cbn [fst snd List.filter]. unfold not_b at 3 6. rewrite bytes_eqb_refl. cbn [negb].
    f_equal. unfold len. cbn [length]. lia.
  - assert (Her : erase_here (length s) b s = (s, 0)).
    { destruct (length s); [done|]. cbn [erase_here]. by rewrite Hpre, andb_false_r. }
    cbn [fad_loop]. rewrite Her. destruct (GetOp s) as [[[op w] next]|] eqn:E.
    + destruct (GetOp_shrinks s op w next Hs E) as (Hlt & Hok & _).
      destruct (instrs_step s op w next Hs E) as [-> Hsplit].
      rewrite (IH (length next)) by (done || lia). cbn [fst snd List.filter].
      set (i := take (length s - length next) s) in *.
      assert (Hi : not_b b i = true).
      { unfold not_b. destruct (bytes_eqb i b) eqn:Ei; [|done]. apply bytes_eqb_eq in Ei.
        rewrite Hsplit, Ei, take_app_length, bytes_eqb_refl in Hpre. done. }
      rewrite Hi. cbn [concat]. rewrite <- app_assoc. f_equal. unfold len. cbn [length]. lia.
    + rewrite (instrs_stop s E). done.
Qed.

(** ** Push-only scripts and signature operations *)

Lemma instr_opcode s op v next : script_ok s -> GetOp s = Some (op, v, next) ->
  nth 0 (take (length s - length next) s) 0 = op.
Proof.
  intros Hs E. apply GetOp_iff in E as (hdr & -> & _); [|done].
  replace (op :: hdr ++ v ++ next) with ((op :: hdr ++ v) ++ next) by (simpl; by rewrite <- app_assoc).
  by rewrite take_prefix.
Qed.

Lemma IsPushOnly_loop_spec fuel s : script_ok s -> (length s <= fuel)%nat ->
  IsPushOnly_loop fuel s = true <->
  snd (instrs s) = [] /\ Forall (fun i => nth 0 i 0 <= OP_16) (fst (instrs s)).
Proof.
  revert s. induction fuel as [|fuel IH]; intros s Hs Hf.
  { destruct s; [|simpl in Hf; lia]. simpl. by split; [repeat constructor|]. }
  destruct s as [|c s']; [simpl; by split; [repeat constructor|]|].
  set (s := c :: s') in *. change (IsPushOnly_loop (S fuel) s) with
    (match GetOp s with None => false | Some (opcode, _, pc) =>
       if OP_16 <? opcode then false else IsPushOnly_loop fuel pc end).
  destruct (GetOp s) as [[[op v] next]|] eqn:E.
  - destruct (GetOp_shrinks s op v next Hs E) as (Hlt & Hok & _).
    destruct (instrs_step s op v next Hs E) as [-> _]. cbn [fst snd].
    rewrite List.Forall_cons_iff, (instr_opcode s op v next Hs E). destruct (Z.ltb_spec OP_16 op).
    + split; [done|]. intros (_ & ? & _). lia.
    + rewrite IH by (done || lia). split; [intros []; done|intros (? & _ & ?); done].
  - rewrite (instrs_stop s E). split; [done|]. intros [[=] _].
Qed.

Lemma DecodeOP_N_range op : OP_1 <= op <= OP_16 -> DecodeOP_N op = Some (op - 80).
Proof.
  unfold OP_1, OP_16. intros H. unfold DecodeOP_N, OP_0, OP_1, OP_16.
  destruct (Z.eqb_spec op 0); [lia|].
  destruct (Z.leb_spec 81 op); [|lia]. destruct (Z.leb_spec op 96); [done|lia].
Qed.

(** The accurate count never exceeds the old one, and each is bounded. *)
Lemma sigop_loop_bounds fuel s n n' last last' : script_ok s ->
  0 <= n <= n' -> n' + 20 * len s < 2 ^ 32 ->
  exists k k', sigop_loop fuel true n last s = Some k /\ sigop_loop fuel false n' last' s = Some k' /\
    n <= k <= k' /\ k' <= n' + 20 * len s.
Proof.
  revert s n n' last last'. induction fuel as [|fuel IH]; intros s n n' last last' Hs Hn Hb.
  { pose proof (len_nonneg s). exists n, n'. destruct s; split_and!; (done || lia). }
  destruct s as [|c s']; [exists n, n'; change (len (@nil Z)) with 0 in *; split_and!; (done || lia)|].
  set (s := c :: s') in *. cbn [sigop_loop].
  unfold s at 1 2 4. fold s. destruct (GetOp s) as [[[op v] next]|] eqn:E;
    [|exists n, n'; pose proof (len_nonneg s); split_and!; (done || lia)].
  destruct (GetOp_shrinks s op v next Hs E) as (Hlt & Hok & _).
  assert (Hl : len next + 1 <= len s) by (unfold len; lia). clear Hlt.
  assert (Hstep : forall d d', 0 <= d <= d' -> d' <= 20 ->
    exists k k', sigop_loop fuel true (u32 (n + d)) op next = Some k /\
      sigop_loop fuel false (u32 (n' + d')) op next = Some k' /\ n <= k <= k' /\ k' <= n' + 20 * len s).
  { intros d d' Hd Hd'. pose proof (len_nonneg next). rewrite !wrap_id by (unfold fits; lia).
    destruct (IH next (n + d) (n' + d') op op Hok) as (k & k' & E1 & E2 & H1 & H2); [lia..|].
    exists k, k'. split_and!; (done || lia). }
  destruct ((op =? OP_CHECKSIG) || (op =? OP_CHECKSIGVERIFY)); [apply Hstep; lia|].
  destruct ((op =? OP_CHECKMULTISIG) || (op =? OP_CHECKMULTISIGVERIFY)); cbn [andb].
  - destruct (Z.leb_spec OP_1 last), (Z.leb_spec last OP_16); cbn [andb]; try (apply Hstep; lia).
    rewrite DecodeOP_N_range by lia. unfold OP_1, OP_16 in *. apply Hstep; lia.
  - destruct (Hstep 0 0) as (k & k' & E1 & E2 & Hr); [lia..|]. rewrite !Z.add_0_r in E1, E2.
    pose proof (len_nonneg next). rewrite wrap_id in E1, E2 by (unfold fits; lia). by exists k, k'.
Qed.

(** ** Main theorems *)

(** The number an instruction pushes. *)
Definition op_value `{BN} (op : Z) (v : list Z) : Z :=
  if op <=? OP_PUSHDATA4 then setvch v else op - (OP_1 - 1).

Lemma push_bignum_decodes `{BNS : BN_spec} z rest :
  nbits (Z.abs z) <= 64 -> script_ok (push_vch [] (getvch z) ++ rest) ->
  exists op v, GetOp (push_vch [] (getvch z) ++ rest) = Some (op, v, rest) /\ op_value op v = z.
Proof.
  intros Hz Hok. pose proof (mpi_body_len z) as Hl.
  assert ((nbits (Z.abs z) + 7) / 8 < 9) by (apply Z.div_lt_upper_bound; lia).
  assert (Hlen : len (getvch z) < 2 ^ 32).
  { rewrite getvch_value. unfold len in *. rewrite length_rev. lia. }
  assert (Hd : digits 256 (getvch z)) by (rewrite getvch_value; apply Forall_rev, mpi_body_ok).
  destruct (push_vch_GetOp _ _ Hd Hlen Hok) as (op & Hop & E). exists op, (getvch z). split; [done|].
  unfold op_value. destruct (Z.leb_spec op OP_PUSHDATA4); [|lia]. by apply setvch_getvch.
Qed.

(** What is appended to a script decodes again, with nothing left over and
    whatever follows untouched: a byte vector of any size class comes back as the
    data of a push; every 64-bit signed or unsigned integer comes back as its
    value (small ones as an opcode of their own); and [EncodeOP_N] and
    [DecodeOP_N] are inverse. *)
Theorem script_push_decode `{BNS : BN_spec} :
  (forall b rest, digits 256 b -> len b < 2 ^ 32 -> script_ok (push_vch [] b ++ rest) ->
     exists op, 0 <= op <= OP_PUSHDATA4 /\ GetOp (push_vch [] b ++ rest) = Some (op, b, rest)) /\
  (forall n rest, sfits 64 n -> script_ok (push_int64 [] n ++ rest) ->
     exists op v, GetOp (push_int64 [] n ++ rest) = Some (op, v, rest) /\ op_value op v = n) /\
  (forall n rest, fits 64 n -> script_ok (push_uint64 [] n ++ rest) ->
     exists op v, GetOp (push_uint64 [] n ++ rest) = Some (op, v, rest) /\ op_value op v = n) /\
  (forall n, 0 <= n <= 16 -> exists op, EncodeOP_N n = Some op /\ DecodeOP_N op = Some n).
Proof.
  assert (Hsmall : forall n rest, n = -1 \/ 1 <= n <= 16 -> script_ok ([u8 (n + (OP_1 - 1))] ++ rest) ->
    exists op v, GetOp ([u8 (n + (OP_1 - 1))] ++ rest) = Some (op, v, rest) /\ op_value op v = n).
  { intros n rest Hn Hok. unfold OP_1 in *. rewrite wrap_id in * by (unfold fits; lia).
    exists (n + 80), []. unfold op_value, OP_PUSHDATA4, OP_1. destruct (Z.leb_spec (n + 80) 78); [lia|].
    split; [|lia]. apply GetOp_iff; [done|]. exists []. split; [done|]. unfold op_form, OP_PUSHDATA4.
    by destruct (Z.ltb_spec 78 (n + 80)); [|lia]. }
  split_and!.
  - apply push_vch_GetOp.
  - intros n rest Hn. unfold push_int64. destruct (Z.eqb_spec n (-1)); [apply Hsmall; lia|].
    destruct (Z.leb_spec 1 n), (Z.leb_spec n 16); cbn [orb andb]; try (apply Hsmall; lia);
      rewrite setint64_value by done; intros Hok; (apply push_bignum_decodes; [|done]);
      apply nbits_le; unfold sfits in Hn; lia.
  - intros n rest Hn. unfold push_uint64. destruct (Z.leb_spec 1 n), (Z.leb_spec n 16); cbn [andb];
      try (apply Hsmall; lia); rewrite setuint64_value by done; intros Hok;
      (apply push_bignum_decodes; [|done]); apply nbits_le; unfold fits in Hn; lia.
  - intros n Hn. unfold EncodeOP_N. destruct (Z.leb_spec 0 n), (Z.leb_spec n 16); try lia. cbn [andb negb].
    destruct (Z.eqb_spec n 0) as [->|]; [by exists OP_0|]. exists (OP_1 + n - 1). split; [done|].
    rewrite DecodeOP_N_range; [unfold OP_1; f_equal; lia|]. unfold OP_1, OP_16. lia.
Qed.

Lemma script_push_decode_witness :
  @push_int64 BN_Z [] (-1) = [OP_1NEGATE] /\ @push_int64 BN_Z [] 1000 = [2; 232; 3] /\
  exists op v, GetOp (@push_int64 BN_Z [] 1000 ++ [OP_DUP]) = Some (op, v, [OP_DUP]) /\ @op_value BN_Z op v = 1000.
Proof.
  split; [vm_compute; reflexivity|]. split; [vm_compute; reflexivity|].
  destruct (@script_push_decode BN_Z BN_Z_spec) as (_ & Hint & _). apply Hint; [unfold sfits; lia|].
  change (script_ok [2; 232; 3; OP_DUP]). unfold script_ok, digits, OP_DUP. split; [forall_list|vm_compute; reflexivity].
Defined.

(** [FindAndDelete] of a single instruction [b] (as for a pushed signature or
    OP_CODESEPARATOR) removes exactly the instructions equal to [b], never bytes
    that only look like [b] inside pushed data, keeps the order of the others and
    the undecodable tail, and returns how many were removed. *)
Theorem FindAndDelete_removes_instructions b o v s :
  GetOp b = Some (o, v, []) -> script_ok b -> script_ok s ->
  FindAndDelete s b =
    (concat (List.filter (not_b b) (fst (instrs s))) ++ snd (instrs s),
     len (fst (instrs s)) - len (List.filter (not_b b) (fst (instrs s)))) /\
  s = concat (fst (instrs s)) ++ snd (instrs s).
Proof.
  intros Hb Hbok Hs. split; [|by apply instrs_concat].
  rewrite <- (fad_loop_filter b o v (S (length s))) by (done || lia). unfold FindAndDelete.
  destruct b; [by rewrite GetOp_nil in Hb|done].
Qed.

Lemma FindAndDelete_removes_instructions_witness :
  FindAndDelete [OP_CODESEPARATOR; 2; OP_CODESEPARATOR; 7; OP_CODESEPARATOR; OP_DUP] [OP_CODESEPARATOR] =
    ([2; OP_CODESEPARATOR; 7; OP_DUP], 2).
Proof.
  rewrite (proj1 (FindAndDelete_removes_instructions [OP_CODESEPARATOR] OP_CODESEPARATOR []
    [OP_CODESEPARATOR; 2; OP_CODESEPARATOR; 7; OP_CODESEPARATOR; OP_DUP] eq_refl
    ltac:(unfold script_ok, digits, OP_CODESEPARATOR; split; [forall_list|vm_compute; reflexivity])
    ltac:(unfold script_ok, digits, OP_CODESEPARATOR, OP_DUP; split; [forall_list|vm_compute; reflexivity]))).
  vm_compute. reflexivity.
Defined.

(** The scans over a script: [IsPushOnly] accepts exactly the scripts that
    decode completely into instructions up to OP_16; signature operations are
    always counted without a failed assertion or an overflow, the accurate count
    never exceeds the old one, and both are at most 20 per byte. *)
Theorem script_scans s : script_ok s -> 20 * len s < 2 ^ 32 ->
  (IsPushOnly s = true <->
     snd (instrs s) = [] /\ Forall (fun i => nth 0 i 0 <= OP_16) (fst (instrs s))) /\
  exists k k', GetSigOpCount s true = Some k /\ GetSigOpCount s false = Some k' /\
    0 <= k <= k' /\ k' <= 20 * len s.
Proof.
  intros Hs Hl. split; [apply IsPushOnly_loop_spec; done|].
  destruct (sigop_loop_bounds (length s) s 0 0 OP_INVALIDOPCODE OP_INVALIDOPCODE Hs) as (k & k' & E1 & E2 & H1 & H2);
    [lia..|]. by exists k, k'.
Qed.

Lemma script_scans_witness :
  IsPushOnly [2; 1; 2; OP_16] = true /\
  exists k k', GetSigOpCount [2; 1; 2; OP_16] true = Some k /\ GetSigOpCount [2; 1; 2; OP_16] false = Some k'.
Proof.
  destruct (script_scans [2; 1; 2; OP_16]) as (_ & k & k' & E1 & E2 & _).
  - unfold script_ok, digits, OP_16. split; [forall_list|vm_compute; reflexivity].
  - vm_compute. reflexivity.
  - split; [vm_compute; reflexivity|by exists k, k'].
Defined.
