(* ===== verification/Tx.v ===== *)
(** * main.h and main.cpp: transactions

    The records of main.h from [CDiskTxPos] to [CTxIndex] with their
    serialization, and the checks of [CTransaction] that need no chain context.
    A member function that can throw returns an [option]. *)
From Stdlib Require Import ZArith Lia Bool.
From stdpp Require Import prelude gmap.
From S2P Require Import Prelude Uint256 DataStream Serialize Crypto Bignum Opcodes Script.

Definition COIN : Z := 1000000.
Definition CENT : Z := 10000.
Definition MAX_BLOCK_SIZE : Z := 1000000.
Definition MAX_BLOCK_SIZE_GEN : Z := MAX_BLOCK_SIZE / 2.
Definition MAX_BLOCK_SIGOPS : Z := MAX_BLOCK_SIZE / 50.
Definition MIN_TX_FEE : Z := 1 * CENT.
Definition MIN_RELAY_TX_FEE : Z := 1 * CENT.
Definition MAX_MONEY : Z := 10000000 * COIN.
Definition MIN_TXOUT_AMOUNT : Z := MIN_TX_FEE.
Definition LOCKTIME_THRESHOLD : Z := 500000000.
Definition UINT_MAX : Z := 2 ^ 32 - 1.
Definition SER_NETWORK : Z := 1.

Definition MoneyRange (nValue : Z) : bool := (0 <=? nValue) && (nValue <=? MAX_MONEY).

(** ** Serializers that depend on what was read before *)

Definition ser_dep {A B} (ca : Ser A) (cb : A -> Ser B) : Ser (A * B) :=
  mkSer (fun ty ver '(a, b) => u32 (GetSerializeSize ca ty ver a + GetSerializeSize (cb a) ty ver b))
        (fun ty ver '(a, b) => Serialize ca ty ver a ++ Serialize (cb a) ty ver b)
        (fun ty ver => a <-- Unserialize ca ty ver ;; b <-- Unserialize (cb a) ty ver ;; ret (a, b)).

(** A member that is skipped: nothing is written, and reading leaves its value. *)
Definition ser_skip {A} (keep : A) : Ser A :=
  mkSer (fun _ _ _ => 0) (fun _ _ _ => []) (fun _ _ => ret keep).

(** [if (!(nType & SER_GETHASH)) READWRITE(nVersion);] first: the stream's version
    is written, and what is read in its place is not kept. *)
Definition ser_versioned {T} (body : Ser T) : Ser T :=
  let with_version ty := Z.land ty SER_GETHASH =? 0 in
  mkSer
    (fun ty ver t => u32 ((if with_version ty then 4 else 0) + GetSerializeSize body ty ver t))
    (fun ty ver t => (if with_version ty then Serialize (ser_int 4) ty ver ver else []) ++ Serialize body ty ver t)
    (fun ty ver =>
       if with_version ty then _v <-- Unserialize (ser_int 4) ty ver ;; Unserialize body ty ver
       else Unserialize body ty ver).

(** ** Positions *)

Record CDiskTxPos : Type := mkDiskTxPos { nFile : Z; nBlockPos : Z; nTxPos : Z }.

Definition pos_null : CDiskTxPos := mkDiskTxPos UINT_MAX 0 0.
Definition pos_IsNull (p : CDiskTxPos) : bool := nFile p =? UINT_MAX.
Definition pos_eq (a b : CDiskTxPos) : bool :=
  (nFile a =? nFile b) && (nBlockPos a =? nBlockPos b) && (nTxPos a =? nTxPos b).

(** [FLATDATA]: the members as they lie in memory. *)
Definition ser_diskpos : Ser CDiskTxPos :=
  ser_struct (fun p => to_digits 256 4 (nFile p) ++ to_digits 256 4 (nBlockPos p) ++ to_digits 256 4 (nTxPos p))
    (fun l => mkDiskTxPos (of_digits 256 (take 4 l)) (of_digits 256 (take 4 (drop 4 l)))
                          (of_digits 256 (drop 8 l)))
    (ser_flat 12).

Record COutPoint : Type := mkOutPoint { op_hash : base_uint; op_n : Z }.

Definition out_null : COutPoint := mkOutPoint (bu_zero 8) UINT_MAX.
Definition out_IsNull (o : COutPoint) : bool := bu_eq64 (op_hash o) 0 && (op_n o =? UINT_MAX).
Definition out_lt (a b : COutPoint) : bool :=
  bu_lt (op_hash a) (op_hash b) || (bu_eq (op_hash a) (op_hash b) && (op_n a <? op_n b)).
Definition out_eq (a b : COutPoint) : bool := bu_eq (op_hash a) (op_hash b) && (op_n a =? op_n b).

Definition ser_outpoint : Ser COutPoint :=
  ser_struct (fun o => bu_bytes (op_hash o) ++ to_digits 256 4 (op_n o))
    (fun l => mkOutPoint (words_of_bytes (take 32 l)) (of_digits 256 (drop 32 l)))
    (ser_flat 36).

(** ** Inputs and outputs *)

Record CTxIn : Type := mkTxIn { prevout : COutPoint; scriptSig : CScript; nSequence : Z }.

Definition txin_IsFinal (i : CTxIn) : bool := nSequence i =? UINT_MAX.
Definition txin_eq (a b : CTxIn) : bool :=
  out_eq (prevout a) (prevout b) && bytes_eqb (scriptSig a) (scriptSig b) && (nSequence a =? nSequence b).
Definition ser_txin : Ser CTxIn :=
  ser_struct (fun i => (prevout i, scriptSig i, nSequence i))
    (fun '(p, s, n) => mkTxIn p s n) (ser_tuple3 ser_outpoint ser_bytes (ser_uint 4)).

Record CTxOut : Type := mkTxOut { nValue : Z; scriptPubKey : CScript }.

Definition txout_null : CTxOut := mkTxOut (-1) [].
Definition txout_IsNull (o : CTxOut) : bool := nValue o =? -1.
Definition txout_empty : CTxOut := mkTxOut 0 [].
Definition txout_IsEmpty (o : CTxOut) : bool := (nValue o =? 0) && bytes_eqb (scriptPubKey o) [].
Definition txout_eq (a b : CTxOut) : bool :=
  (nValue a =? nValue b) && bytes_eqb (scriptPubKey a) (scriptPubKey b).
Definition ser_txout : Ser CTxOut :=
  ser_struct (fun o => (nValue o, scriptPubKey o)) (fun '(v, s) => mkTxOut v s)
    (ser_pair (ser_int 8) ser_bytes).

(** The outputs of an Enigma request. *)
Record CEnigmaTxOut : Type := mkEnigmaTxOut { nHop : Z; e_nValue : Z; e_scriptPubKey : CScript }.

Definition enigma_out_null : CEnigmaTxOut := mkEnigmaTxOut 0 (-1) [].
Definition enigma_out_IsEmpty (o : CEnigmaTxOut) : bool :=
  (nHop o =? 0) && (e_nValue o =? 0) && bytes_eqb (e_scriptPubKey o) [].
Definition ser_enigma_out : Ser CEnigmaTxOut :=
  ser_struct (fun o => (nHop o, e_nValue o, e_scriptPubKey o)) (fun '(h, v, s) => mkEnigmaTxOut h v s)
    (ser_tuple3 (ser_int 8) (ser_int 8) ser_bytes).

Record CEnigmaTransaction : Type := mkEnigmaTx { et_nVersion : Z; et_vout : list CEnigmaTxOut }.

Definition ser_enigma_tx : Ser CEnigmaTransaction :=
  ser_struct (fun t => (et_nVersion t, et_vout t)) (fun '(v, o) => mkEnigmaTx v o)
    (ser_pair (ser_int 4) (ser_vector 40 ser_enigma_out)).

(** ** [CTransaction] *)

Record CTransaction : Type := mkTx {
  tx_nVersion : Z;
  tx_nTime : Z;
  vin : list CTxIn;
  vout : list CTxOut;
  nLockTime : Z;
  data : list Z;
  nDoS : Z
}.

Definition CURRENT_VERSION : Z := 1.

(** [SetNull()]: [data] keeps its value; [now] is [GetAdjustedTime()]. *)
Definition tx_SetNull (now : Z) (this : CTransaction) : CTransaction :=
  mkTx CURRENT_VERSION (u32 now) [] [] 0 (data this) 0.

Definition tx_IsNull (tx : CTransaction) : bool :=
  match vin tx, vout tx with [], [] => true | _, _ => false end.

(** [data] is written and read only when the version is above 1; [this] is the
    object read into.  The sizes of [CTxIn] and [CTxOut] in memory are those of
    the x86-64 ABI. *)
Definition ser_tx (this : CTransaction) : Ser CTransaction :=
  ser_struct
    (fun tx => (tx_nVersion tx, (tx_nTime tx, vin tx, vout tx, nLockTime tx), data tx))
    (fun '(v, (t, i, o, l), d) => mkTx v t i o l d (nDoS this))
    (ser_dep
       (ser_pair (ser_int 4)
          (ser_tuple4 (ser_uint 4) (ser_vector 72 ser_txin) (ser_vector 32 ser_txout) (ser_uint 4)))
       (fun p => if 1 <? fst p then ser_bytes else ser_skip (data this))).

Definition tx_GetHash `{Crypto} (tx : CTransaction) : base_uint := SerializeHash (ser_tx tx) tx.

(** [nBestHeight] is the global and [now] is [GetAdjustedTime()]. *)
Definition tx_IsFinal (nBestHeight now : Z) (tx : CTransaction) (nBlockHeight nBlockTime : Z) : bool :=
  if nLockTime tx =? 0 then true
  else
    let nBlockHeight := if nBlockHeight =? 0 then nBestHeight else nBlockHeight in
    let nBlockTime := if nBlockTime =? 0 then now else nBlockTime in
    if nLockTime tx <? (if nLockTime tx <? LOCKTIME_THRESHOLD then nBlockHeight else nBlockTime) then true
    else forallb txin_IsFinal (vin tx).

Fixpoint same_prevouts (a b : list CTxIn) : bool :=
  match a, b with
  | x :: a, y :: b => out_eq (prevout x) (prevout y) && same_prevouts a b
  | _, _ => true
  end.

Fixpoint newer_loop (fNewer : bool) (nLowest : Z) (a b : list CTxIn) : bool :=
  match a, b with
  | x :: a, y :: b =>
      if nSequence x =? nSequence y then newer_loop fNewer nLowest a b
      else
        let '(fNewer, nLowest) :=
          if nSequence x <=? nLowest then (false, nSequence x) else (fNewer, nLowest) in
        let '(fNewer, nLowest) :=
          if nSequence y <? nLowest then (true, nSequence y) else (fNewer, nLowest) in
        newer_loop fNewer nLowest a b
  | _, _ => fNewer
  end.

Definition IsNewerThan (tx old : CTransaction) : bool :=
  if negb (len (vin tx) =? len (vin old)) then false
  else if negb (same_prevouts (vin tx) (vin old)) then false
  else newer_loop false UINT_MAX (vin tx) (vin old).

Definition IsCoinBase (tx : CTransaction) : bool :=
  match vin tx with
  | [i] => out_IsNull (prevout i) && (1 <=? len (vout tx))
  | _ => false
  end.

Definition IsCoinStake (tx : CTransaction) : bool :=
  match vin tx, vout tx with
  | i :: _, o :: _ :: _ => negb (out_IsNull (prevout i)) && txout_IsEmpty o
  | _, _ => false
  end.

Definition IsCoinBaseOrStake (tx : CTransaction) : bool := IsCoinBase tx || IsCoinStake tx.

(** [None]: "value out of range" is thrown. *)
Fixpoint valueout_loop (nValueOut : Z) (l : list CTxOut) : option Z :=
  match l with
  | [] => Some nValueOut
  | txout :: l =>
      let nValueOut := s64 (nValueOut + nValue txout) in
      if negb (MoneyRange (nValue txout)) || negb (MoneyRange nValueOut) then None
      else valueout_loop nValueOut l
  end.

Definition GetValueOut (tx : CTransaction) : option Z := valueout_loop 0 (vout tx).

Fixpoint list_eqb {A} (eq : A -> A -> bool) (a b : list A) : bool :=
  match a, b with
  | [], [] => true
  | x :: a, y :: b => eq x y && list_eqb eq a b
  | _, _ => false
  end.

(** [operator==] *)
Definition tx_eq (a b : CTransaction) : bool :=
  (tx_nVersion a =? tx_nVersion b) && (tx_nTime a =? tx_nTime b) &&
  list_eqb txin_eq (vin a) (vin b) && list_eqb txout_eq (vout a) (vout b) &&
  (nLockTime a =? nLockTime b).

(** ** [CTxIndex] and [CMerkleTx] *)

Record CTxIndex : Type := mkTxIndex { pos : CDiskTxPos; vSpent : list CDiskTxPos }.

Definition txindex_new (posIn : CDiskTxPos) (nOutputs : Z) : CTxIndex :=
  mkTxIndex posIn (replicate (Z.to_nat nOutputs) pos_null).
Definition txindex_null : CTxIndex := mkTxIndex pos_null [].
Definition txindex_IsNull (t : CTxIndex) : bool := pos_IsNull (pos t).
Definition txindex_eq (a b : CTxIndex) : bool :=
  pos_eq (pos a) (pos b) && list_eqb pos_eq (vSpent a) (vSpent b).

Definition ser_txindex : Ser CTxIndex :=
  ser_versioned
    (ser_struct (fun t => (pos t, vSpent t)) (fun '(p, v) => mkTxIndex p v)
       (ser_pair ser_diskpos (ser_vector 12 ser_diskpos))).

Record CMerkleTx : Type := mkMerkleTx {
  mtx : CTransaction;
  hashBlock : base_uint;
  vMerkleBranch : list base_uint;
  nIndex : Z;
  fMerkleVerified : bool
}.

Definition merkletx_Init (txIn : CTransaction) : CMerkleTx := mkMerkleTx txIn (bu_zero 8) [] (-1) false.

Definition ser_merkletx (this : CMerkleTx) : Ser CMerkleTx :=
  ser_struct (fun m => (mtx m, hashBlock m, vMerkleBranch m, nIndex m))
    (fun '(t, h, b, i) => mkMerkleTx t h b i (fMerkleVerified this))
    (ser_tuple4 (ser_tx (mtx this)) ser_uint256 (ser_vector 32 ser_uint256) (ser_int 4)).

(** ** Checks *)

(** [vInOutPoints.count(p)]: [std::set] compares with [operator<] only. *)
Definition set_count (p : COutPoint) (s : list COutPoint) : bool :=
  existsb (fun q => negb (out_lt p q) && negb (out_lt q p)) s.

Fixpoint dup_loop (seen : list COutPoint) (l : list CTxIn) : bool :=
  match l with
  | [] => false
  | txin :: l => if set_count (prevout txin) seen then true else dup_loop (prevout txin :: seen) l
  end.

(** The loop over the outputs: whether one of them is refused. *)
Fixpoint outputs_refused (fBaseOrStake : bool) (nValueOut : Z) (l : list CTxOut) : bool :=
  match l with
  | [] => false
  | txout :: l =>
      if txout_IsEmpty txout && negb fBaseOrStake then true
      else if negb (txout_IsEmpty txout) && (nValue txout <? MIN_TXOUT_AMOUNT) then true
      else if MAX_MONEY <? nValue txout then true
      else
        let nValueOut := s64 (nValueOut + nValue txout) in
        if negb (MoneyRange nValueOut) then true else outputs_refused fBaseOrStake nValueOut l
  end.

(** The value returned, and what is added to [nDoS]. *)
Definition CheckTransaction (tx : CTransaction) : bool * Z :=
  match vin tx, vout tx with
  | [], _ => (false, 10)
  | _, [] => (false, 10)
  | txin0 :: _, _ =>
      if MAX_BLOCK_SIZE <? GetSerializeSize (ser_tx tx) SER_NETWORK PROTOCOL_VERSION tx then (false, 100)
      else if outputs_refused (IsCoinBase tx || IsCoinStake tx) 0 (vout tx) then (false, 100)
      else if dup_loop [] (vin tx) then (false, 0)
      else if IsCoinBase tx then
        if (len (scriptSig txin0) <? 2) || (100 <? len (scriptSig txin0)) then (false, 100) else (true, 0)
      else if existsb (fun txin => out_IsNull (prevout txin)) (vin tx) then (false, 10)
      else (true, 0)
  end.

(** ** Fees *)

Inductive GetMinFee_mode : Type := GMF_BLOCK | GMF_RELAY | GMF_SEND.

Definition GetMinFee (tx : CTransaction) (nBlockSize : Z) (fAllowFree : bool) (mode : GetMinFee_mode)
    (nBytes : Z) : Z :=
  let nBaseFee := match mode with GMF_RELAY => MIN_RELAY_TX_FEE | _ => MIN_TX_FEE end in
  let nNewBlockSize := u32 (nBlockSize + nBytes) in
  let nMinFee := s64 ((1 + nBytes / 1000) * nBaseFee) in
  let nMinFee :=
    if nMinFee <? nBaseFee
    then fold_left (fun f txout => if nValue txout <? CENT then nBaseFee else f) (vout tx) nMinFee
    else nMinFee in
  if negb (nBlockSize =? 1) && (MAX_BLOCK_SIZE_GEN / 2 <=? nNewBlockSize) && (MAX_BLOCK_SIZE_GEN <=? nNewBlockSize)
  then MAX_MONEY
  else
    let nMinFee :=
      if negb (nBlockSize =? 1) && (MAX_BLOCK_SIZE_GEN / 2 <=? nNewBlockSize)
      then s64 (nMinFee * (MAX_BLOCK_SIZE_GEN / (MAX_BLOCK_SIZE_GEN - nNewBlockSize)))
      else nMinFee in
    if negb (MoneyRange nMinFee) then MAX_MONEY else nMinFee.

(** ** Previous outputs *)

Definition MapPrevTx : Type := gmap base_uint (CTxIndex * CTransaction).

(** [None]: a runtime_error is thrown. *)
Definition GetOutputFor (input : CTxIn) (inputs : MapPrevTx) : option CTxOut :=
  match inputs !! op_hash (prevout input) with
  | None => None
  | Some (_, txPrev) =>
      if len (vout txPrev) <=? op_n (prevout input) then None
      else vout txPrev !! Z.to_nat (op_n (prevout input))
  end.

Fixpoint valuein_loop (nResult : Z) (l : list CTxIn) (inputs : MapPrevTx) : option Z :=
  match l with
  | [] => Some nResult
  | txin :: l =>
      match GetOutputFor txin inputs with
      | None => None
      | Some o => valuein_loop (s64 (nResult + nValue o)) l inputs
      end
  end.

Definition GetValueIn (tx : CTransaction) (inputs : MapPrevTx) : option Z :=
  if IsCoinBase tx then Some 0 else valuein_loop 0 (vin tx) inputs.

Fixpoint sum_sigops (nSigOps : Z) (l : list (option Z)) : option Z :=
  match l with
  | [] => Some nSigOps
  | Some k :: l => sum_sigops (u32 (nSigOps + k)) l
  | None :: _ => None
  end.

Definition GetLegacySigOpCount (tx : CTransaction) : option Z :=
  sum_sigops 0 (map (fun i => GetSigOpCount (scriptSig i) false) (vin tx) ++
                map (fun o => GetSigOpCount (scriptPubKey o) false) (vout tx)).

Definition GetP2SHSigOpCount (tx : CTransaction) (inputs : MapPrevTx) : option Z :=
  if IsCoinBase tx then Some 0
  else
    sum_sigops 0 (map (fun txin =>
      match GetOutputFor txin inputs with
      | None => None
      | Some o => if IsPayToScriptHash (scriptPubKey o)
                  then GetSigOpCount_P2SH (scriptPubKey o) (scriptSig txin)
                  else Some 0
      end) (vin tx)).

(** ** Serializers *)

Lemma ser_dep_correct {A B} (wa : A -> Prop) (wb : A -> B -> Prop) (ca : Ser A) (cb : A -> Ser B) :
  ser_correct wa ca -> (forall a, wa a -> ser_correct (wb a) (cb a)) ->
  ser_correct (fun '(a, b) => wa a /\ wb a b) (ser_dep ca cb).
Proof.
  intros Ha Hb. split; intros ty ver; simpl.
  - intros [a b] [Hwa Hwb]. apply Forall_app; split; [by apply (sc_bytes _ _ Ha)|by apply (sc_bytes _ _ (Hb a Hwa))].
  - intros [a b] [Hwa Hwb]. rewrite (sc_size _ _ Ha), (sc_size _ _ (Hb a Hwa)), wrap_add, len_app by done. done.
  - intros [a b] [Hwa Hwb]. eapply reads_bind; [by apply (sc_read _ _ Ha)|].
    eapply reads_bind_nil; [by apply (sc_read _ _ (Hb a Hwa))|apply reads_ret].
  - eapply safe_bind; [apply (sc_safe _ _ Ha)|]. intros a Hwa.
    eapply safe_bind; [apply (sc_safe _ _ (Hb a Hwa))|]. intros b Hwb. by apply safe_ret.
Qed.

Lemma ser_skip_correct {A} (x : A) : ser_correct (fun y => y = x) (ser_skip x).
Proof.
  split; intros ty ver; simpl; [constructor|done| |by apply safe_ret].
  intros y ->. apply reads_ret.
Qed.

Lemma ser_versioned_correct {T} (wf : T -> Prop) (body : Ser T) : ser_correct wf body -> ser_correct wf (ser_versioned body).
Proof.
  intros Hb. assert (Hv : forall ty ver, exists v, reads (Unserialize (ser_int 4) ty ver) (Serialize (ser_int 4) ty ver ver) v).
  { intros ty ver. exists (swrap 32 (of_digits 256 (to_digits 256 4 (wrap 32 ver)))). cbn [Unserialize Serialize ser_int].
    eapply reads_bind_nil; [|apply reads_ret]. apply reads_read. unfold len. by rewrite length_to_digits. }
  split; intros ty ver; cbn [Serialize GetSerializeSize Unserialize ser_versioned].
  - intros x Hx. apply Forall_app. split; [|by apply (sc_bytes _ _ Hb)]. case_match; [apply to_digits_ok; lia|constructor].
  - intros x Hx. rewrite (sc_size _ _ Hb) by done. rewrite wrap_add_r, len_app. f_equal. f_equal.
    case_match; [|done]. unfold len. cbn [Serialize ser_int]. by rewrite length_to_digits.
  - intros x Hx. case_match; [|by apply (sc_read _ _ Hb)]. destruct (Hv ty ver) as [v Hr].
    eapply reads_bind; [exact Hr|by apply (sc_read _ _ Hb)].
  - case_match; [|apply (sc_safe _ _ Hb)].
    eapply safe_bind; [apply (sc_safe _ _ (ser_int_correct 4 ltac:(lia)))|]. intros v _. apply (sc_safe _ _ Hb).
Qed.

Definition pos_wf (p : CDiskTxPos) : Prop := fits 32 (nFile p) /\ fits 32 (nBlockPos p) /\ fits 32 (nTxPos p).
Definition out_wf (o : COutPoint) : Prop := wf 8 (op_hash o) /\ fits 32 (op_n o).

Lemma of_to_digits4 n : fits 32 n -> of_digits 256 (to_digits 256 4 n) = n.
Proof. intros Hn. rewrite of_to_digits by lia. apply Z.mod_small. exact Hn. Qed.

Lemma fits_digits4 l : digits 256 l -> length l = 4%nat -> fits 32 (of_digits 256 l).
Proof. intros Hd Hl. pose proof (of_digits_bound 256 ltac:(lia) l Hd) as Hb. rewrite Hl in Hb. exact Hb. Qed.

Lemma ser_diskpos_correct : ser_correct pos_wf ser_diskpos.
Proof.
  apply (ser_struct_correct_on _ _ _ (fun l => digits 256 l /\ len l = Z.of_nat 12)); [| |apply ser_flat_correct; lia].
  - intros [f b t] (Hf & Hb & Ht); cbn [nFile nBlockPos nTxPos] in *. split.
    + rewrite !len_app, !len_to_digits. split; [|done]. repeat (apply Forall_app; split); apply to_digits_ok; lia.
    + rewrite (take_app_length' _ _ 4), (drop_app_length' _ _ 4) by (by rewrite length_to_digits).
      rewrite (take_app_length' _ _ 4) by (by rewrite length_to_digits). change 8%nat with (4 + 4)%nat.
      rewrite <- drop_drop, (drop_app_length' _ _ 4), (drop_app_length' _ _ 4) by (by rewrite length_to_digits).
      by rewrite !of_to_digits4.
  - intros l [Hd Hl]. unfold len in Hl. unfold pos_wf; cbn [nFile nBlockPos nTxPos].
    split_and!; apply fits_digits4; rewrite ?length_take, ?length_drop; try lia; unfold digits in *; auto using Forall_take, Forall_drop.
Qed.

Lemma ser_outpoint_correct : ser_correct out_wf ser_outpoint.
Proof.
  apply (ser_struct_correct_on _ _ _ (fun l => digits 256 l /\ len l = Z.of_nat 36)); [| |apply ser_flat_correct; lia].
  - intros [h n] (Hh & Hn); cbn [op_hash op_n] in *.
    assert (Hl : length (bu_bytes h) = 32%nat) by (by rewrite length_bu_bytes, (proj1 Hh)). split.
    + rewrite len_app, len_to_digits. unfold len. rewrite Hl. split; [|done].
      apply Forall_app; split; [apply bu_bytes_ok|apply to_digits_ok; lia].
    + rewrite (take_app_length' _ _ 32), (drop_app_length' _ _ 32) by done.
      by rewrite (words_of_bu_bytes 8), of_to_digits4.
  - intros l [Hd Hl]. unfold len in Hl. unfold out_wf; cbn [op_hash op_n]. split.
    + apply (words_of_bytes_spec 8); [by apply Forall_take|rewrite length_take; lia].
    + apply fits_digits4; [by apply Forall_drop|rewrite length_drop; lia].
Qed.

Definition txin_wf (i : CTxIn) : Prop := out_wf (prevout i) /\ bytes_wf (scriptSig i) /\ fits 32 (nSequence i).
Definition txout_wf (o : CTxOut) : Prop := sfits 64 (nValue o) /\ bytes_wf (scriptPubKey o).

Lemma ser_u32_correct : ser_correct (fits 32) (ser_uint 4).
Proof. apply (ser_uint_correct 4); lia. Qed.
Lemma ser_s32_correct : ser_correct (sfits 32) (ser_int 4).
Proof. apply (ser_int_correct 4); lia. Qed.
Lemma ser_s64_correct : ser_correct (sfits 64) (ser_int 8).
Proof. apply (ser_int_correct 8); lia. Qed.

Lemma ser_txin_correct : ser_correct txin_wf ser_txin.
Proof.
  eapply ser_struct_correct_on; [| |apply ser_tuple3_correct;
    [apply ser_outpoint_correct|apply ser_bytes_correct|apply ser_u32_correct]].
  - by intros [].
  - by intros [[p s] n].
Qed.

Lemma ser_txout_correct : ser_correct txout_wf ser_txout.
Proof.
  eapply ser_struct_correct_on; [| |apply ser_pair_correct; [apply ser_s64_correct|apply ser_bytes_correct]].
  - by intros [].
  - by intros [].
Qed.

Lemma ser_enigma_out_correct :
  ser_correct (fun o => sfits 64 (nHop o) /\ sfits 64 (e_nValue o) /\ bytes_wf (e_scriptPubKey o)) ser_enigma_out.
Proof.
  eapply ser_struct_correct_on; [| |apply ser_tuple3_correct;
    [apply ser_s64_correct|apply ser_s64_correct|apply ser_bytes_correct]].
  - by intros [].
  - by intros [[]].
Qed.

(** A transaction that an object [this] can be overwritten with. *)
Definition tx_wf (this tx : CTransaction) : Prop :=
  sfits 32 (tx_nVersion tx) /\ fits 32 (tx_nTime tx) /\ vector_wf txin_wf (vin tx) /\
  vector_wf txout_wf (vout tx) /\ fits 32 (nLockTime tx) /\
  (if 1 <? tx_nVersion tx then bytes_wf (data tx) else data tx = data this) /\ nDoS tx = nDoS this.

Lemma ser_tx_correct this : ser_correct (tx_wf this) (ser_tx this).
Proof.
  eapply (ser_struct_correct_on _ _ _
    (fun '(p, d) => (fun '(v, q) => sfits 32 v /\ (fun '(t, i, o, l) => fits 32 t /\ vector_wf txin_wf i /\
       vector_wf txout_wf o /\ fits 32 l) q) p /\ (if 1 <? fst p then bytes_wf d else d = data this))).
  - intros [v t i o l d n] (Hv & Ht & Hi & Ho & Hl & Hd & Hn); simpl in *. by rewrite <- Hn.
  - intros [[v [[[t i] o] l]] d] ((Hv & Ht & Hi & Ho & Hl) & Hd). done.
  - apply (ser_dep_correct (fun '(v, q) => sfits 32 v /\ (fun '(t, i, o, l) => fits 32 t /\ vector_wf txin_wf i /\
       vector_wf txout_wf o /\ fits 32 l) q) (fun p d => if 1 <? fst p then bytes_wf d else d = data this)).
    + apply ser_pair_correct; [apply ser_s32_correct|]. apply ser_tuple4_correct; [apply ser_u32_correct| | |apply ser_u32_correct];
        apply ser_vector_correct; (lia || apply ser_txin_correct || apply ser_txout_correct).
    + intros [v q] _. cbn [fst]. destruct (1 <? v); [apply ser_bytes_correct|apply ser_skip_correct].
Qed.

(** ** Amounts *)

Definition total (l : list CTxOut) : Z := fold_right (fun o s => nValue o + s) 0 l.

Lemma MoneyRange_iff v : MoneyRange v = true <-> 0 <= v <= MAX_MONEY.
Proof. unfold MoneyRange. rewrite andb_true_iff, !Z.leb_le. done. Qed.

Lemma MoneyRange_spec v : reflect (0 <= v <= MAX_MONEY) (MoneyRange v).
Proof. apply iff_reflect. by rewrite MoneyRange_iff. Qed.

Lemma MAX_MONEY_value : MAX_MONEY = 10 ^ 13.
Proof. done. Qed.

Definition in_range (o : CTxOut) : Prop := 0 <= nValue o <= MAX_MONEY.

Lemma total_nonneg l : Forall in_range l -> 0 <= total l.
Proof. induction 1 as [|o l [? ?] _ IH]; simpl; lia. Qed.

(** A sum of two amounts does not wrap around. *)
Lemma money_add a b : 0 <= a <= MAX_MONEY -> 0 <= b <= MAX_MONEY -> s64 (a + b) = a + b.
Proof. rewrite MAX_MONEY_value. intros. apply swrap_id; lia. Qed.

Lemma valueout_loop_spec l acc v : 0 <= acc <= MAX_MONEY ->
  valueout_loop acc l = Some v <-> Forall in_range l /\ v = acc + total l /\ v <= MAX_MONEY.
Proof.
  revert acc. induction l as [|o l IH]; intros acc Hacc; simpl.
  - split; [intros [= <-]; split_and!; [constructor|lia|lia]|intros (_ & -> & _); f_equal; lia].
  - rewrite List.Forall_cons_iff. destruct (MoneyRange_spec (nValue o)) as [Hr|Hr]; simpl; [|split; [done|intros ([? _] & _); done]].
    rewrite money_add by done. destruct (MoneyRange_spec (acc + nValue o)) as [Hs|Hs]; simpl.
    + rewrite IH by done. split; [intros (? & -> & ?)|intros ((_ & ?) & -> & ?)]; split_and!; (done || lia).
    + split; [done|]. intros ((_ & Hl) & -> & Hle). pose proof (total_nonneg l Hl). lia.
Qed.

(** An output that [CheckTransaction] accepts. *)
Definition output_ok (fBaseOrStake : bool) (o : CTxOut) : Prop :=
  (if txout_IsEmpty o then fBaseOrStake = true else MIN_TXOUT_AMOUNT <= nValue o) /\ nValue o <= MAX_MONEY.

Lemma output_ok_range b o : output_ok b o -> in_range o.
Proof.
  unfold output_ok, in_range. intros [He Hm]. destruct (txout_IsEmpty o) eqn:E.
  - unfold txout_IsEmpty in E. apply andb_true_iff in E as [E _]. lia.
  - assert (0 <= MIN_TXOUT_AMOUNT) by done. lia.
Qed.

Lemma outputs_refused_spec b l acc : 0 <= acc <= MAX_MONEY ->
  outputs_refused b acc l = false <-> Forall (output_ok b) l /\ acc + total l <= MAX_MONEY.
Proof.
  revert acc. induction l as [|o l IH]; intros acc Hacc; simpl; [split; [split; [constructor|lia]|done]|].
  rewrite List.Forall_cons_iff.
  assert (Hok : (txout_IsEmpty o && negb b = false /\ negb (txout_IsEmpty o) && (nValue o <? MIN_TXOUT_AMOUNT) = false
    /\ (MAX_MONEY <? nValue o) = false) <-> output_ok b o).
  { unfold output_ok. destruct (txout_IsEmpty o), b; simpl; rewrite !Z.ltb_ge; intuition done. }
  destruct (txout_IsEmpty o && negb b); [split; [done|intros ((H & _) & _); apply Hok in H; by destruct H]|].
  destruct (negb (txout_IsEmpty o) && (nValue o <? MIN_TXOUT_AMOUNT)); [split; [done|intros ((H & _) & _); apply Hok in H; by destruct H as (_ & H & _)]|].
  destruct (MAX_MONEY <? nValue o); [split; [done|intros ((H & _) & _); apply Hok in H; by destruct H as (_ & _ & H)]|].
  assert (Hr : in_range o) by (by apply (output_ok_range b), Hok). rewrite money_add by done.
  destruct (MoneyRange_spec (acc + nValue o)) as [Hs|Hs]; simpl.
  - rewrite IH by done. split; [intros (? & ?); split_and!; (lia || by apply Hok || done)|].
    intros ((_ & ?) & ?). split; (done || lia).
  - split; [done|]. intros ((_ & Hl) & Hle).
    assert (0 <= total l) by (apply total_nonneg; eapply Forall_impl; [exact Hl|apply output_ok_range]).
    destruct Hr. lia.
Qed.

(** ** Duplicate inputs *)

Lemma set_equiv p q : out_wf p -> out_wf q -> negb (out_lt p q) && negb (out_lt q p) = true <-> p = q.
Proof.
  intros [Hp Hpn] [Hq Hqn]. destruct p as [hp np], q as [hq nq]; cbn [op_hash op_n] in *.
  unfold out_lt; cbn [op_hash op_n]. destruct (bu_cmp_spec 8 hp hq Hp Hq) as (-> & _), (bu_cmp_spec 8 hq hp Hq Hp) as (-> & _).
  rewrite !(bu_eq_spec 8) by done.
  destruct (Z.ltb_spec (val hp) (val hq)), (Z.ltb_spec (val hq) (val hp)); cbn [orb negb andb]; rewrite ?andb_false_r; try lia;
    try (split; [done|intros [= -> ->]; lia]).
  rewrite (proj2 (Z.eqb_eq (val hp) (val hq))), (proj2 (Z.eqb_eq (val hq) (val hp))) by lia. cbn [andb].
  destruct (Z.ltb_spec np nq), (Z.ltb_spec nq np); cbn [negb andb]; rewrite ?andb_false_r; split; try done; try (intros [= -> ->]; lia).
  intros _. f_equal; [apply (val_inj 8); (done || lia)|lia].
Qed.

Lemma set_count_spec p s : out_wf p -> Forall out_wf s -> set_count p s = true <-> p ∈ s.
Proof.
  intros Hp Hs. unfold set_count. rewrite existsb_exists, list_elem_of_In. rewrite List.Forall_forall in Hs. split.
  - intros (q & Hin & E). apply set_equiv in E as ->; auto.
  - intros Hin. exists p. split; [done|]. by apply set_equiv.
Qed.

Lemma dup_loop_spec l seen : Forall txin_wf l -> Forall out_wf seen -> NoDup seen ->
  dup_loop seen l = false <-> NoDup (map prevout l ++ seen).
Proof.
  intros Hl. revert seen. induction Hl as [|i l [Hi _] Hl IH]; intros seen Hseen Hnd; simpl; [done|].
  destruct (set_count (prevout i) seen) eqn:E.
  - apply set_count_spec in E; [|done..]. split; [done|]. intros Hn.
    apply NoDup_cons in Hn as [Hn _]. exfalso. apply Hn, elem_of_app. by right.
  - assert (Hnin : prevout i ∉ seen) by (intros Hin; apply set_count_spec in Hin; [congruence|done..]).
    rewrite IH; [|by constructor|by apply NoDup_cons].
    by rewrite <- Permutation_middle.
Qed.

(** ** What [CheckTransaction] guarantees *)

Definition valid_tx (tx : CTransaction) : Prop :=
  vin tx <> [] /\ vout tx <> [] /\
  GetSerializeSize (ser_tx tx) SER_NETWORK PROTOCOL_VERSION tx <= MAX_BLOCK_SIZE /\
  Forall (output_ok (IsCoinBase tx || IsCoinStake tx)) (vout tx) /\ total (vout tx) <= MAX_MONEY /\
  NoDup (map prevout (vin tx)) /\
  (if IsCoinBase tx then Forall (fun i => 2 <= len (scriptSig i) <= 100) (vin tx)
   else Forall (fun i => out_IsNull (prevout i) = false) (vin tx)).

Lemma IsCoinBase_single tx : IsCoinBase tx = true -> exists i, vin tx = [i].
Proof. unfold IsCoinBase. destruct (vin tx) as [|i [|]]; [done|by exists i|done]. Qed.

Lemma existsb_false_Forall {A} (f : A -> bool) l : existsb f l = false <-> Forall (fun x => f x = false) l.
Proof.
  induction l as [|x l IH]; simpl; [split; [constructor|done]|].
  rewrite orb_false_iff, IH, List.Forall_cons_iff. done.
Qed.

Lemma CheckTransaction_spec this tx : tx_wf this tx -> fst (CheckTransaction tx) = true <-> valid_tx tx.
Proof.
  intros (_ & _ & [Hin _] & _). unfold CheckTransaction, valid_tx.
  destruct (vin tx) as [|txin0 ins] eqn:Ei; [split; [done|intros (? & _); done]|].
  destruct (vout tx) as [|o outs] eqn:Eo; [split; [done|intros (_ & ? & _); done]|].
  destruct (Z.ltb_spec MAX_BLOCK_SIZE (GetSerializeSize (ser_tx tx) SER_NETWORK PROTOCOL_VERSION tx)) as [Hsz|Hsz];
    [split; [done|intros (_ & _ & ? & _); lia]|].
  assert (H0 : 0 <= 0 <= MAX_MONEY) by (rewrite MAX_MONEY_value; lia).
  pose proof (outputs_refused_spec (IsCoinBase tx || IsCoinStake tx) (o :: outs) 0 H0) as Hout.
  destruct (outputs_refused _ 0 (o :: outs)).
  { split; [done|]. intros (_ & _ & _ & Hf & Ht & _). by discriminate (proj2 Hout (conj Hf Ht)). }
  pose proof (dup_loop_spec (txin0 :: ins) [] Hin ltac:(constructor) ltac:(constructor)) as Hdup.
  rewrite app_nil_r in Hdup. destruct (dup_loop [] (txin0 :: ins)).
  { split; [done|]. intros (_ & _ & _ & _ & _ & Hnd & _). by discriminate (proj2 Hdup Hnd). }
  destruct (proj1 Hout eq_refl) as [Hok Htot]. specialize (proj1 Hdup eq_refl) as Hnd.
  destruct (IsCoinBase tx) eqn:Ecb.
  - destruct (IsCoinBase_single tx Ecb) as (i & Ei'). rewrite Ei in Ei'. injection Ei' as -> ->.
    rewrite Forall_singleton. destruct (Z.ltb_spec (len (scriptSig i)) 2), (Z.ltb_spec 100 (len (scriptSig i))); cbn [orb fst];
      (split; [|intros (_ & _ & _ & _ & _ & _ & ?)]; (done || lia)).
  - pose proof (existsb_false_Forall (fun txin => out_IsNull (prevout txin)) (txin0 :: ins)) as Hex.
    destruct (existsb _ _).
    + split; [done|]. intros (_ & _ & _ & _ & _ & _ & Hn). by discriminate (proj2 Hex Hn).
    + split; [|done]. intros _. split_and!; (done || lia || by apply Hex).
Qed.

(** ** Replacement order *)

(** The lowest sequence number of [a] among the inputs where [a] and [b] differ. *)
Fixpoint lowest (a b : list CTxIn) : Z :=
  match a, b with
  | x :: a, y :: b => if nSequence x =? nSequence y then lowest a b else Z.min (nSequence x) (lowest a b)
  | _, _ => 2 ^ 32
  end.

Lemma newer_loop_spec a b f L : Forall txin_wf a -> Forall txin_wf b ->
  newer_loop f L a b =
    if (lowest a b <=? L) && (lowest a b <=? lowest b a) then (if lowest a b <? 2 ^ 32 then false else f)
    else if lowest b a <? L then (if lowest b a <? 2 ^ 32 then true else f) else f.
Proof.
  intros Ha. revert b f L. induction Ha as [|x a [_ [_ Hx]] _ IH]; intros [|y b] f L Hb; cbn [newer_loop lowest].
  1-3: repeat case_match; (done || lia).
  apply Forall_cons in Hb as [[_ [_ Hy]] Hb]. unfold fits in *.
  rewrite (Z.eqb_sym (nSequence y)). destruct (Z.eqb_spec (nSequence x) (nSequence y)) as [E|E]; [by apply IH|].
  destruct (Z.leb_spec (nSequence x) L), (Z.ltb_spec (nSequence y) (nSequence x)), (Z.ltb_spec (nSequence y) L);
    try lia; rewrite IH by done; repeat case_match; (done || lia).
Qed.

Lemma lowest_bound a b : Forall txin_wf a -> Forall txin_wf b -> lowest b a < lowest a b -> lowest b a < UINT_MAX.
Proof.
  intros Ha. revert b. induction Ha as [|x a [_ [_ Hx]] _ IH]; intros [|y b] Hb; cbn [lowest]; try lia.
  apply Forall_cons in Hb as [[_ [_ Hy]] Hb]. unfold UINT_MAX, fits in *.
  rewrite (Z.eqb_sym (nSequence y)). destruct (Z.eqb_spec (nSequence x) (nSequence y)); [by apply IH|]. lia.
Qed.

Lemma lowest_le a b : lowest a b <= 2 ^ 32.
Proof. revert b. induction a as [|x a IH]; intros [|y b]; cbn [lowest]; try lia. case_match; [apply IH|]. specialize (IH b). lia. Qed.

(** ** Main theorems *)

(** (C32) Transactions on the wire: the size announced is exact, what is written is
    read back unchanged into a fresh object with the rest of the stream left
    alone, and reading arbitrary bytes never asserts, never loops and yields
    only well-formed transactions; the same holds for the records of which
    transactions and the transaction index are made. *)
Theorem transaction_codec this :
  ser_correct (tx_wf this) (ser_tx this) /\ ser_correct txin_wf ser_txin /\ ser_correct txout_wf ser_txout /\
  ser_correct out_wf ser_outpoint /\ ser_correct pos_wf ser_diskpos.
Proof.
  split_and!; [apply ser_tx_correct|apply ser_txin_correct|apply ser_txout_correct|
    apply ser_outpoint_correct|apply ser_diskpos_correct].
Qed.

(** (C31) [CheckTransaction] accepts exactly the valid transactions: inputs and
    outputs present, size within a block, every output at least the minimum
    amount (or empty, in a coinbase or coinstake), the total within the money
    supply with no wrap-around, no output spent twice, and null previous outputs
    only in a coinbase of bounded script size; [GetValueOut] of an accepted
    transaction is its total. *)
Theorem CheckTransaction_complete this tx : tx_wf this tx ->
  (fst (CheckTransaction tx) = true <-> valid_tx tx) /\
  (fst (CheckTransaction tx) = true -> GetValueOut tx = Some (total (vout tx))) /\
  (forall v, GetValueOut tx = Some v <-> Forall in_range (vout tx) /\ v = total (vout tx) /\ v <= MAX_MONEY).
Proof.
  intros Hwf. pose proof (CheckTransaction_spec this tx Hwf) as Hc. split; [done|].
  assert (Hv : forall v, GetValueOut tx = Some v <-> Forall in_range (vout tx) /\ v = total (vout tx) /\ v <= MAX_MONEY).
  { intros v. unfold GetValueOut. rewrite valueout_loop_spec by (rewrite MAX_MONEY_value; lia). done. }
  split; [|done]. intros E. apply Hc in E as (_ & _ & _ & Hout & Ht & _). apply Hv. split_and!; [|done|done].
  eapply Forall_impl; [exact Hout|apply output_ok_range].
Qed.

Definition example_tx : CTransaction :=
  mkTx 1 1400000000 [mkTxIn (mkOutPoint (bu_of_uint64 8 7) 0) [] UINT_MAX] [mkTxOut 500000 [OP_TRUE]] 0 [] 0.

Lemma example_tx_wf : tx_wf example_tx example_tx.
Proof.
  unfold tx_wf, example_tx; cbn [tx_nVersion tx_nTime vin vout nLockTime data nDoS].
  unfold vector_wf, digits, sfits, fits, UINT_MAX.
  repeat match goal with
  | |- _ /\ _ => split
  | |- Forall _ (_ :: _) => apply List.Forall_cons
  | |- Forall _ [] => apply List.Forall_nil
  | |- Forall _ (bu_of_uint64 8 7) => change (bu_of_uint64 8 7) with [7; 0; 0; 0; 0; 0; 0; 0]
  | |- txin_wf _ => unfold txin_wf, out_wf, wf, bytes_wf, digits, fits; cbn
  | |- txout_wf _ => unfold txout_wf, bytes_wf, digits, sfits; cbn
  end; (lia || done).
Qed.

Lemma CheckTransaction_complete_witness :
  fst (CheckTransaction example_tx) = true /\ GetValueOut example_tx = Some 500000.
Proof.
  destruct (CheckTransaction_complete example_tx example_tx example_tx_wf) as (_ & H & _).
  split; [vm_compute; reflexivity|]. apply H. vm_compute. reflexivity.
Defined.

Lemma GetMinFee_bounds tx nBlockSize fAllowFree mode nBytes : fits 32 nBlockSize -> fits 32 nBytes ->
  MIN_TX_FEE <= GetMinFee tx nBlockSize fAllowFree mode nBytes <= MAX_MONEY /\
  GetMinFee tx 1 fAllowFree mode nBytes = (1 + nBytes / 1000) * MIN_TX_FEE /\
  (forall tx' fAllowFree', GetMinFee tx' nBlockSize fAllowFree' mode nBytes = GetMinFee tx nBlockSize fAllowFree mode nBytes).
Proof.
  intros Hs Hb. unfold fits in *.
  assert (Hk : 0 <= nBytes / 1000 <= 4294967).
  { split; [apply Z.div_pos; lia|]. assert (nBytes / 1000 < 4294968); [|lia]. apply Z.div_lt_upper_bound; lia. }
  assert (Hfee : s64 ((1 + nBytes / 1000) * 10000) = (1 + nBytes / 1000) * 10000) by (apply swrap_id; lia).
  assert (Hmode : match mode with GMF_RELAY => MIN_RELAY_TX_FEE | _ => MIN_TX_FEE end = 10000) by (by destruct mode).
  unfold GetMinFee. rewrite Hmode, Hfee. change MIN_TX_FEE with 10000. rewrite MAX_MONEY_value.
  destruct (Z.ltb_spec ((1 + nBytes / 1000) * 10000) 10000); [lia|]. split; [|split; [|done]].
  - set (n := u32 (nBlockSize + nBytes)). change MAX_BLOCK_SIZE_GEN with 500000. change (500000 / 2) with 250000.
    assert (Hn : 0 <= n < 2 ^ 32) by (apply wrap_fits; lia).
    destruct (negb (nBlockSize =? 1)), (Z.leb_spec 250000 n), (Z.leb_spec 500000 n); cbn [andb]; try lia;
      try (match goal with |- context [MoneyRange ?v] => destruct (MoneyRange_spec v) as [Hm|Hm] end; simpl;
           rewrite MAX_MONEY_value in Hm; lia).
    assert (1 <= 500000 / (500000 - n) <= 500000).
    { split; [apply Z.div_le_lower_bound; lia|apply Z.div_le_upper_bound; nia]. }
    assert (E : s64 ((1 + nBytes / 1000) * 10000 * (500000 / (500000 - n))) =
      (1 + nBytes / 1000) * 10000 * (500000 / (500000 - n))) by (apply swrap_id; nia).
    rewrite E. destruct (MoneyRange_spec ((1 + nBytes / 1000) * 10000 * (500000 / (500000 - n)))) as [Hm|Hm]; simpl;
      rewrite MAX_MONEY_value in Hm; [|lia]. split; [nia|lia].
  - simpl. destruct (MoneyRange_spec ((1 + nBytes / 1000) * 10000)) as [|Hno]; simpl; [done|].
    rewrite MAX_MONEY_value in Hno. lia.
Qed.

(** Fees: the minimum fee never overflows, lies between the base fee and the
    money supply, and for a lone transaction is one base fee per started
    kilobyte; it does not depend on the outputs or on [fAllowFree], so that the
    rule for outputs below 0.01 has no effect. *)
Theorem GetMinFee_spec tx nBlockSize fAllowFree mode nBytes : fits 32 nBlockSize -> fits 32 nBytes ->
  MIN_TX_FEE <= GetMinFee tx nBlockSize fAllowFree mode nBytes <= MAX_MONEY /\
  GetMinFee tx 1 fAllowFree mode nBytes = (1 + nBytes / 1000) * MIN_TX_FEE /\
  (forall tx' fAllowFree', GetMinFee tx' nBlockSize fAllowFree' mode nBytes = GetMinFee tx nBlockSize fAllowFree mode nBytes).
Proof. apply GetMinFee_bounds. Qed.

Lemma GetMinFee_spec_witness : GetMinFee example_tx 1 false GMF_BLOCK 2500 = 3 * MIN_TX_FEE.
Proof.
  destruct (GetMinFee_spec example_tx 1 false GMF_BLOCK 2500) as (_ & E & _);
    [unfold fits; lia..|rewrite E; reflexivity].
Defined.

(** [IsNewerThan] orders versions of a transaction: it holds exactly when both
    spend the same outputs in the same order and, among the inputs whose
    sequence numbers differ, the lowest number is in the old version; it is
    therefore irreflexive and never holds both ways. *)
Theorem IsNewerThan_order tx old this this' : tx_wf this tx -> tx_wf this' old ->
  (IsNewerThan tx old = true <->
     len (vin tx) = len (vin old) /\ same_prevouts (vin tx) (vin old) = true /\
     lowest (vin old) (vin tx) < lowest (vin tx) (vin old)) /\
  (IsNewerThan tx old = true -> IsNewerThan old tx = false).
Proof.
  assert (Hiff : forall tx old this this', tx_wf this tx -> tx_wf this' old ->
    IsNewerThan tx old = true <->
      len (vin tx) = len (vin old) /\ same_prevouts (vin tx) (vin old) = true /\
      lowest (vin old) (vin tx) < lowest (vin tx) (vin old)).
  { clear. intros tx old this this' (_ & _ & [Ha _] & _) (_ & _ & [Hb _] & _). unfold IsNewerThan.
    destruct (Z.eqb_spec (len (vin tx)) (len (vin old))); simpl; [|split; [done|intros (? & _); done]].
    destruct (same_prevouts (vin tx) (vin old)); simpl; [|split; [done|intros (_ & ? & _); done]].
    rewrite newer_loop_spec by done. pose proof (lowest_bound _ _ Ha Hb) as Hlb. pose proof (lowest_le (vin tx) (vin old)).
    unfold UINT_MAX in *. repeat match goal with |- context [?a <=? ?b] => destruct (Z.leb_spec a b)
      | |- context [?a <? ?b] => destruct (Z.ltb_spec a b) end; simpl; split; try done; try (intros (_ & _ & ?); lia);
      intros; split_and!; (done || lia). }
  intros H1 H2. split; [by eapply Hiff|]. intros E. apply (Hiff _ _ _ _ H1 H2) in E as (_ & _ & Hlt).
  destruct (IsNewerThan old tx) eqn:E; [|done]. apply (Hiff _ _ _ _ H2 H1) in E as (_ & _ & ?). lia.
Qed.

Lemma IsNewerThan_order_witness : IsNewerThan example_tx example_tx = false.
Proof.
  destruct (IsNewerThan example_tx example_tx) eqn:E; [|reflexivity].
  destruct (IsNewerThan_order example_tx example_tx example_tx example_tx example_tx_wf example_tx_wf) as [_ H].
  rewrite <- E. exact (H E).
Defined.

(** [operator==] of transactions leaves out the data payload: any two
    transactions that differ in it only compare equal, although from version 2 on
    the payload is part of what is serialized and hashed. *)
Theorem transaction_equality_ignores_data :
  (forall tx d, tx_eq tx tx = true ->
     tx_eq tx (mkTx (tx_nVersion tx) (tx_nTime tx) (vin tx) (vout tx) (nLockTime tx) d (nDoS tx)) = true) /\
  (forall tx this ty ver d d', 1 < tx_nVersion tx -> bytes_wf d -> bytes_wf d' -> d <> d' ->
     Serialize (ser_tx this) ty ver (mkTx (tx_nVersion tx) (tx_nTime tx) (vin tx) (vout tx) (nLockTime tx) d (nDoS tx))
     <> Serialize (ser_tx this) ty ver (mkTx (tx_nVersion tx) (tx_nTime tx) (vin tx) (vout tx) (nLockTime tx) d' (nDoS tx))).
Proof.
  split; [done|]. intros tx this ty ver d d' Hv Hd Hd' Hne Heq. apply Hne. clear Hne.
  cbn -[ser_bytes ser_txin ser_txout to_digits] in Heq. rewrite (proj2 (Z.ltb_lt 1 _) Hv) in Heq. apply app_inv_head in Heq.
  rewrite <- (app_nil_r (Serialize ser_bytes ty ver d)), <- (app_nil_r (Serialize ser_bytes ty ver d')) in Heq.
  apply (ser_inj_app _ _ _ _ _ _ _ _ ser_bytes_correct) in Heq as [? _]; try done; [constructor|].
  fold (len (Serialize ser_bytes ty ver d ++ [])). rewrite app_nil_r. simpl.
  rewrite len_app, <- GetSizeOfCompactSize_len. destruct Hd as [_ Hd]. unfold MAX_SIZE in Hd.
  unfold GetSizeOfCompactSize. repeat case_match; lia.
Qed.

Lemma transaction_equality_ignores_data_witness :
  tx_eq example_tx (mkTx 1 1400000000 (vin example_tx) (vout example_tx) 0 [1; 2; 3] 0) = true.
Proof. apply (proj1 transaction_equality_ignores_data example_tx [1; 2; 3]). vm_compute. reflexivity. Defined.
