(* ===== verification/Block.v ===== *)
(** * main.h: blocks and merkle trees

    [CBlock] with its cached merkle tree.  [vMerkleTree] is a mutable member
    that [BuildMerkleTree] refreshes and [GetMerkleBranch] reuses, so both
    return the block they leave behind; an index beyond the vector is [None].
    The proof-of-work hash [Hash9] (hashblock.h over sphlib) is a parameter. *)
From Stdlib Require Import ZArith Lia Bool.
From stdpp Require Import prelude.
From S2P Require Import Prelude Uint256 DataStream Serialize Crypto Bignum Script Tx.

Record CBlock : Type := mkBlock {
  b_nVersion : Z;
  hashPrevBlock : base_uint;
  hashMerkleRoot : base_uint;
  b_nTime : Z;
  b_nBits : Z;
  b_nNonce : Z;
  vtx : list CTransaction;
  vchBlockSig : list Z;
  vMerkleTree : list base_uint;
  b_nDoS : Z
}.

Definition BLOCK_CURRENT_VERSION : Z := 6.

Definition block_null : CBlock :=
  mkBlock BLOCK_CURRENT_VERSION (bu_zero 8) (bu_zero 8) 0 0 0 [] [] [] 0.

Definition set_merkle_tree (t : list base_uint) (b : CBlock) : CBlock :=
  mkBlock (b_nVersion b) (hashPrevBlock b) (hashMerkleRoot b) (b_nTime b) (b_nBits b) (b_nNonce b)
    (vtx b) (vchBlockSig b) t (b_nDoS b).

Definition block_DoS (nDoSIn : Z) (fIn : bool) (b : CBlock) : bool * CBlock :=
  (fIn, mkBlock (b_nVersion b) (hashPrevBlock b) (hashMerkleRoot b) (b_nTime b) (b_nBits b) (b_nNonce b)
    (vtx b) (vchBlockSig b) (vMerkleTree b) (b_nDoS b + nDoSIn)).

Definition block_IsNull (b : CBlock) : bool := b_nBits b =? 0.

(** ** Serialization *)

Definition SER_BLOCKHEADERONLY : Z := 2 ^ 17.

(** A transaction that is being read into a vector: [SetNull] of a new object,
    whose time is overwritten by what is read. *)
Definition tx_fresh : CTransaction := mkTx CURRENT_VERSION 0 [] [] 0 [] 0.

(** The members of the header in order. *)
Definition ser_header : Ser (Z * base_uint * base_uint * (Z * Z * Z)) :=
  ser_tuple4 (ser_int 4) ser_uint256 ser_uint256 (ser_tuple3 (ser_uint 4) (ser_uint 4) (ser_uint 4)).

Definition header_of (b : CBlock) : Z * base_uint * base_uint * (Z * Z * Z) :=
  (b_nVersion b, hashPrevBlock b, hashMerkleRoot b, (b_nTime b, b_nBits b, b_nNonce b)).

Definition header_only (nType : Z) : bool := negb (Z.land nType (Z.lor SER_GETHASH SER_BLOCKHEADERONLY) =? 0).

(** [vtx] and [vchBlockSig]: not written, and cleared by reading, when the stream
    is for hashing or for headers only.  96 is the size of [CTransaction] in
    memory in the x86-64 ABI. *)
Definition ser_body (nType : Z) : Ser (list CTransaction * list Z) :=
  if header_only nType
  then mkSer (fun _ _ _ => 0) (fun _ _ _ => []) (fun _ _ => ret ([], []))
  else ser_pair (ser_vector 96 (ser_tx tx_fresh)) ser_bytes.

(** [this] is the object read into, which keeps its memory-only members. *)
Definition ser_block_at (this : CBlock) (nType : Z) : Ser CBlock :=
  ser_struct (fun b => (header_of b, (vtx b, vchBlockSig b)))
    (fun '((v, p, m, (t, bits, n)), (txs, sig)) => mkBlock v p m t bits n txs sig (vMerkleTree this) (b_nDoS this))
    (ser_pair ser_header (ser_body nType)).

Definition ser_block (this : CBlock) : Ser CBlock :=
  mkSer (fun ty ver b => GetSerializeSize (ser_block_at this ty) ty ver b)
        (fun ty ver b => Serialize (ser_block_at this ty) ty ver b)
        (fun ty ver => Unserialize (ser_block_at this ty) ty ver).

(** ** Queries *)

(** The bytes from [BEGIN(nVersion)] to [END(nNonce)]. *)
Definition header_bytes (b : CBlock) : list Z :=
  to_digits 256 4 (u32 (b_nVersion b)) ++ bu_bytes (hashPrevBlock b) ++ bu_bytes (hashMerkleRoot b) ++
  to_digits 256 4 (b_nTime b) ++ to_digits 256 4 (b_nBits b) ++ to_digits 256 4 (b_nNonce b).

Definition block_GetHash (Hash9 : list Z -> base_uint) (b : CBlock) : base_uint := Hash9 (header_bytes b).

Definition GetBlockTime (b : CBlock) : Z := b_nTime b.

Definition GetStakeEntropyBit (Hash9 : list Z -> base_uint) (b : CBlock) : Z :=
  Z.land (bu_Get64 (block_GetHash Hash9 b) 0) 1.

Definition block_IsProofOfStake (b : CBlock) : bool :=
  match vtx b with _ :: tx :: _ => IsCoinStake tx | _ => false end.

Definition block_IsProofOfWork (b : CBlock) : bool := negb (block_IsProofOfStake b).

(** [vtx[1].vin[0]] of a coinstake exists; [None] would be an access beyond. *)
Definition GetProofOfStake (b : CBlock) : option (COutPoint * Z) :=
  if block_IsProofOfStake b then
    match vtx b with
    | _ :: tx :: _ => match vin tx with i :: _ => Some (prevout i, tx_nTime tx) | [] => None end
    | _ => None
    end
  else Some (out_null, 0).

Definition GetMaxTransactionTime (b : CBlock) : Z :=
  fold_left (fun m tx => Z.max m (tx_nTime tx)) (vtx b) 0.

(** ** Merkle trees *)

Section merkle.
Context `{Crypto}.

Definition merkle_hash (a b : base_uint) : base_uint := Hash2 (bu_bytes a) (bu_bytes b).

(** The inner loop: one row of the tree. *)
Fixpoint merkle_row (fuel : nat) (tree : list base_uint) (j i nSize : Z) : option (list base_uint) :=
  if i <? nSize then
    match fuel with
    | O => None
    | S fuel =>
        let i2 := Z.min (i + 1) (nSize - 1) in
        match tree !! Z.to_nat (j + i), tree !! Z.to_nat (j + i2) with
        | Some a, Some b => merkle_row fuel (tree ++ [merkle_hash a b]) j (i + 2) nSize
        | _, _ => None
        end
    end
  else Some tree.

(** The outer loop. *)
Fixpoint merkle_rows (fuel : nat) (tree : list base_uint) (j nSize : Z) : option (list base_uint) :=
  if 1 <? nSize then
    match fuel with
    | O => None
    | S fuel =>
        match merkle_row (Z.to_nat nSize) tree j 0 nSize with
        | Some tree => merkle_rows fuel tree (j + nSize) ((nSize + 1) / 2)
        | None => None
        end
    end
  else Some tree.

Definition BuildMerkleTree (b : CBlock) : option (base_uint * CBlock) :=
  match merkle_rows (length (vtx b)) (map tx_GetHash (vtx b)) 0 (len (vtx b)) with
  | None => None
  | Some tree => Some (match last tree with Some root => root | None => bu_zero 8 end, set_merkle_tree tree b)
  end.

Fixpoint branch_loop (fuel : nat) (tree : list base_uint) (nIndex j nSize : Z) : option (list base_uint) :=
  if 1 <? nSize then
    match fuel with
    | O => None
    | S fuel =>
        let i := Z.min (Z.lxor nIndex 1) (nSize - 1) in
        match tree !! Z.to_nat (j + i) with
        | None => None
        | Some h => cons h <$> branch_loop fuel tree (Z.shiftr nIndex 1) (j + nSize) ((nSize + 1) / 2)
        end
    end
  else Some [].

Definition GetMerkleBranch (b : CBlock) (nIndex : Z) : option (list base_uint * CBlock) :=
  match (match vMerkleTree b with [] => snd <$> BuildMerkleTree b | _ => Some b end) with
  | None => None
  | Some b => (fun br => (br, b)) <$> branch_loop (length (vtx b)) (vMerkleTree b) nIndex 0 (len (vtx b))
  end.

Fixpoint check_branch (hash : base_uint) (vMerkleBranch : list base_uint) (nIndex : Z) : base_uint :=
  match vMerkleBranch with
  | [] => hash
  | otherside :: rest =>
      check_branch (if negb (Z.land nIndex 1 =? 0) then merkle_hash otherside hash else merkle_hash hash otherside)
        rest (Z.shiftr nIndex 1)
  end.

Definition CheckMerkleBranch (hash : base_uint) (vMerkleBranch : list base_uint) (nIndex : Z) : base_uint :=
  if nIndex =? -1 then bu_zero 8 else check_branch hash vMerkleBranch nIndex.
End merkle.

(** ** The tree, row by row *)

Section rows.
Context `{Crypto}.

(** The row above: the last hash of an odd row is paired with itself. *)
Fixpoint next_row (l : list base_uint) : list base_uint :=
  match l with
  | [] => []
  | [x] => [merkle_hash x x]
  | x :: y :: t => merkle_hash x y :: next_row t
  end.

(** All rows from [l] up to the root; every row is about half of the one below. *)
Fixpoint rows (fuel : nat) (l : list base_uint) : list (list base_uint) :=
  match fuel with
  | O => [l]
  | S fuel => if 1 <? len l then l :: rows fuel (next_row l) else [l]
  end.

Definition merkle_root (l : list base_uint) : base_uint :=
  match last (concat (rows (length l) l)) with Some r => r | None => bu_zero 8 end.

Lemma pair_ind (P : list base_uint -> Prop) :
  P [] -> (forall x, P [x]) -> (forall x y t, P t -> P (x :: y :: t)) -> forall l, P l.
Proof.
  intros H0 H1 H2 l. assert (H3 : P l /\ forall x, P (x :: l)); [|apply H3].
  induction l as [|a l [IH1 IH2]]; [by split|]. split; [apply IH2|]. intros x. by apply H2.
Qed.

Lemma len_next_row l : len (next_row l) = (len l + 1) / 2.
Proof.
  induction l as [|x|x y t IH] using pair_ind; [done|done|]. cbn [next_row]. rewrite !len_cons, IH.
  replace (1 + (1 + len t) + 1) with (len t + 1 + 1 * 2) by lia. rewrite Z.div_add by lia. lia.
Qed.

Lemma next_row_fuel fuel l : (length l <= S fuel)%nat -> 1 < len l -> (length (next_row l) <= fuel)%nat.
Proof.
  intros Hf Hl. pose proof (len_next_row l) as Hn. unfold len in *.
  pose proof (Z.div_lt_upper_bound (Z.of_nat (length l) + 1) 2 (Z.of_nat (length l)) ltac:(lia)). lia.
Qed.

Lemma lookup_mid {A} (pre l out : list A) k : 0 <= k < len l ->
  (pre ++ l ++ out) !! Z.to_nat (len pre + k) = l !! Z.to_nat k.
Proof.
  intros Hk. unfold len in *. rewrite lookup_app_r by lia. rewrite lookup_app_l by lia. f_equal. lia.
Qed.

Lemma merkle_row_spec fuel pre l front rest out :
  l = front ++ rest -> (length rest <= fuel)%nat ->
  merkle_row fuel (pre ++ l ++ out) (len pre) (len front) (len l) = Some (pre ++ l ++ out ++ next_row rest).
Proof.
  intros ->. revert fuel front out. induction rest as [|x|x y t IH] using pair_ind; intros fuel front out Hf.
  - destruct fuel; cbn [merkle_row next_row]; rewrite !app_nil_r, Z.ltb_irrefl; done.
  - destruct fuel as [|fuel]; [simpl in Hf; lia|]. cbn [merkle_row next_row].
    pose proof (len_nonneg front). assert (Hl : len (front ++ [x]) = len front + 1) by (by rewrite len_app).
    rewrite (proj2 (Z.ltb_lt _ _)), Z.min_r by lia. replace (len (front ++ [x]) - 1) with (len front) by lia.
    rewrite lookup_mid by lia. rewrite (list_lookup_middle front) by (unfold len; lia).
    destruct fuel; cbn [merkle_row]; rewrite (proj2 (Z.ltb_ge (len front + 2) _)) by lia;
      by rewrite <- !app_assoc.
  - destruct fuel as [|fuel]; [simpl in Hf; lia|]. cbn [merkle_row next_row].
    pose proof (len_nonneg front). pose proof (len_nonneg t).
    assert (Hl : len (front ++ x :: y :: t) = len front + len t + 2) by (rewrite len_app, !len_cons; lia).
    rewrite (proj2 (Z.ltb_lt _ _)), Z.min_l by lia. rewrite !lookup_mid by lia.
    rewrite (list_lookup_middle front) by (unfold len; lia).
    assert (Hy : (front ++ x :: y :: t) !! Z.to_nat (len front + 1) = Some y).
    { replace (front ++ x :: y :: t) with ((front ++ [x]) ++ y :: t) by (by rewrite <- app_assoc).
      apply list_lookup_middle. rewrite length_app. unfold len. simpl. lia. }
    rewrite Hy. replace (front ++ x :: y :: t) with ((front ++ [x; y]) ++ t) by (by rewrite <- app_assoc).
    replace (len front + 2) with (len (front ++ [x; y])) by (rewrite len_app; done).
    rewrite <- !app_assoc. specialize (IH fuel (front ++ [x; y]) (out ++ [merkle_hash x y])).
    rewrite <- !app_assoc in IH. apply IH. simpl in Hf. lia.
Qed.

Lemma merkle_rows_spec fuel pre l : (length l <= fuel)%nat ->
  merkle_rows fuel (pre ++ l) (len pre) (len l) = Some (pre ++ concat (rows fuel l)).
Proof.
  revert pre l. induction fuel as [|fuel IH]; intros pre l Hf; cbn [merkle_rows rows].
  { rewrite (proj2 (Z.ltb_ge 1 (len l))) by (unfold len; lia). simpl. by rewrite app_nil_r. }
  destruct (Z.ltb_spec 1 (len l)) as [Hl|Hl]; [|simpl; by rewrite app_nil_r].
  pose proof (merkle_row_spec (Z.to_nat (len l)) pre l [] l [] eq_refl) as Hrow. rewrite app_nil_r in Hrow.
  change (len []) with 0 in Hrow. rewrite Hrow by (unfold len; lia). cbn [app concat].
  rewrite app_assoc, <- len_app, <- len_next_row, IH; [by rewrite <- app_assoc|by apply next_row_fuel].
Qed.

Lemma BuildMerkleTree_spec b :
  BuildMerkleTree b = Some (merkle_root (map tx_GetHash (vtx b)),
    set_merkle_tree (concat (rows (length (vtx b)) (map tx_GetHash (vtx b)))) b).
Proof.
  unfold BuildMerkleTree, merkle_root. rewrite length_map.
  pose proof (merkle_rows_spec (length (vtx b)) [] (map tx_GetHash (vtx b))) as Hr. cbn [app] in Hr.
  change (len []) with 0 in Hr. unfold len in *. rewrite length_map in Hr. by rewrite Hr.
Qed.
End rows.

(** ** Branches *)

Lemma lxor_1 i : 0 <= i -> Z.lxor i 1 = if Z.odd i then i - 1 else i + 1.
Proof. intros Hi. destruct i as [|[p|p|]|p]; try reflexivity. lia. Qed.

Lemma land_1 i : Z.land i 1 = if Z.odd i then 1 else 0.
Proof. change 1 with (Z.ones 1) at 1. rewrite Z.land_ones by lia. apply Zmod_odd. Qed.

(** The hash that [GetMerkleBranch] takes from a row. *)
Definition sibling (n i : Z) : Z := Z.min (Z.lxor i 1) (n - 1).

Lemma sibling_value n i : 0 <= i < n -> sibling n i = if Z.odd i then i - 1 else Z.min (i + 1) (n - 1).
Proof. intros Hi. unfold sibling. rewrite lxor_1 by lia. destruct (Z.odd i); lia. Qed.

Section branches.
Context `{CS : Crypto_spec}.

(** What [CheckMerkleBranch] hashes at one row. *)
Definition join (i : Z) (x other : base_uint) : base_uint := if Z.odd i then merkle_hash other x else merkle_hash x other.

Fixpoint branch (fuel : nat) (l : list base_uint) (i : Z) : list base_uint :=
  match fuel with
  | O => []
  | S fuel =>
      if 1 <? len l
      then nth (Z.to_nat (sibling (len l) i)) l [] :: branch fuel (next_row l) (Z.shiftr i 1)
      else []
  end.

Lemma check_branch_cons x o br i : check_branch x (o :: br) i = check_branch (join i x o) br (Z.shiftr i 1).
Proof. cbn [check_branch]. unfold join. rewrite land_1. by destruct (Z.odd i). Qed.

Lemma shiftr_1 i : Z.shiftr i 1 = i / 2.
Proof. by rewrite Z.shiftr_div_pow2. Qed.

Lemma half_lt i n : 0 <= i < n -> 0 <= i / 2 < (n + 1) / 2.
Proof.
  intros Hi. split; [apply Z.div_pos; lia|]. apply Z.div_lt_upper_bound; [lia|].
  pose proof (Z.div_mod (n + 1) 2). pose proof (Z.mod_pos_bound (n + 1) 2). lia.
Qed.

Lemma odd_pos i : 0 <= i -> Z.odd i = true -> 1 <= i.
Proof. intros Hi. destruct (Z.eq_dec i 0) as [->|]; [done|lia]. Qed.

Lemma sibling_range n i : 0 <= i < n -> 0 <= sibling n i < n.
Proof.
  intros Hi. rewrite sibling_value by done. destruct (Z.odd i) eqn:E; [|lia]. pose proof (odd_pos i ltac:(lia) E). lia.
Qed.

Lemma branch_loop_spec fuel pre l i : (length l <= fuel)%nat -> 0 <= i < len l ->
  branch_loop fuel (pre ++ concat (rows fuel l)) i (len pre) (len l) = Some (branch fuel l i).
Proof.
  revert pre l i. induction fuel as [|fuel IH]; intros pre l i Hf Hi; cbn [branch_loop rows branch].
  { unfold len in *. lia. }
  destruct (Z.ltb_spec 1 (len l)) as [Hl|Hl]; [|done]. cbn [concat]. fold (sibling (len l) i).
  pose proof (sibling_range (len l) i Hi) as Hs. rewrite lookup_mid by done.
  destruct (nth_lookup_or_length l (Z.to_nat (sibling (len l) i)) []) as [E|E].
  2:{ exfalso. unfold len in *. lia. }
  rewrite E. rewrite app_assoc, <- len_app, <- len_next_row, IH; [done| |].
  - by apply next_row_fuel.
  - rewrite len_next_row, shiftr_1. by apply half_lt.
Qed.

Lemma next_row_lookup l i : 0 <= i < len l ->
  next_row l !! Z.to_nat (i / 2) =
  Some (join i (nth (Z.to_nat i) l []) (nth (Z.to_nat (sibling (len l) i)) l [])).
Proof.
  revert i. induction l as [|x|x y t IH] using pair_ind; intros i Hi; rewrite ?len_cons, ?len_nil in *; [lia| |].
  - by replace i with 0 by lia.
  - rewrite sibling_value by lia. destruct (Z.le_gt_cases 2 i) as [Hge|Hlt].
    + specialize (IH (i - 2)). rewrite sibling_value in IH by lia.
      replace (i / 2) with (1 + (i - 2) / 2) by (replace i with (i - 2 + 1 * 2) at 2 by lia; rewrite Z.div_add; lia).
      assert (0 <= (i - 2) / 2) by (apply Z.div_pos; lia).
      replace (Z.to_nat (1 + (i - 2) / 2)) with (S (Z.to_nat ((i - 2) / 2))) by lia. cbn [next_row lookup list_lookup].
      change (next_row t !! Z.to_nat ((i - 2) / 2) = Some (join i (nth (Z.to_nat i) (x :: y :: t) [])
        (nth (Z.to_nat (if Z.odd i then i - 1 else Z.min (i + 1) (1 + (1 + len t) - 1))) (x :: y :: t) []))).
      rewrite IH by lia. replace (Z.odd i) with (Z.odd (i - 2)) by (rewrite Z.odd_sub; by destruct (Z.odd i)).
      unfold join. replace (Z.odd i) with (Z.odd (i - 2)) by (rewrite Z.odd_sub; by destruct (Z.odd i)).
      replace (Z.to_nat i) with (S (S (Z.to_nat (i - 2)))) by lia. cbn [nth].
      destruct (Z.odd (i - 2)) eqn:Eo.
      * destruct (Z.eq_dec i 2) as [->|]; [done|]. by replace (Z.to_nat (i - 1)) with (S (S (Z.to_nat (i - 2 - 1)))) by lia.
      * by replace (Z.to_nat (Z.min (i + 1) (1 + (1 + len t) - 1))) with (S (S (Z.to_nat (Z.min (i - 2 + 1) (len t - 1))))) by lia.
    + pose proof (len_nonneg t). assert (i = 0 \/ i = 1) as [->| ->] by lia; [|done].
      cbn [Z.odd]. by rewrite Z.min_l by lia.
Qed.

Lemma rows_root fuel l i x : (length l <= fuel)%nat -> 0 <= i < len l -> l !! Z.to_nat i = Some x ->
  last (concat (rows fuel l)) = Some (check_branch x (branch fuel l i) i).
Proof.
  revert l i x. induction fuel as [|fuel IH]; intros l i x Hf Hi Hx; [unfold len in Hi; lia|]. cbn [rows branch].
  destruct (Z.ltb_spec 1 (len l)) as [Hl|Hl].
  - cbn [concat]. rewrite check_branch_cons. pose proof (next_row_lookup l i Hi) as Hn. apply nth_lookup_Some with (d := []) in Hx as Hx'.
    rewrite last_app. rewrite (IH (next_row l) (Z.shiftr i 1) (join i x (nth (Z.to_nat (sibling (len l) i)) l []))); [done| | |].
    + by apply next_row_fuel.
    + rewrite len_next_row, shiftr_1. by apply half_lt.
    + rewrite shiftr_1, Hn. by rewrite Hx'.
  - assert (len l = 1) by lia. destruct l as [|y [|]]; unfold len in *; simpl in *; try lia.
    replace i with 0 in Hx by lia. by injection Hx as ->.
Qed.
End branches.

(** ** Branches that were not made by [GetMerkleBranch] *)

(** Two different messages of 64 bytes with the same hash. *)
Definition hash_collision `{Crypto} : Prop :=
  exists m m', m <> m' /\ len m = 64 /\ len m' = 64 /\ Hash m = Hash m'.

Section sound.
Context `{CS : Crypto_spec}.

Lemma wf_merkle_hash a b : wf 8 (merkle_hash a b).
Proof. unfold merkle_hash. rewrite Hash2_value. apply wf_Hash. Qed.

Lemma wf_next_row l : Forall (wf 8) (next_row l).
Proof. induction l as [|x|x y t IH] using pair_ind; repeat constructor; try apply wf_merkle_hash. done. Qed.

Lemma wf_tx_GetHash tx : wf 8 (tx_GetHash tx).
Proof. unfold tx_GetHash. rewrite SerializeHash_value. apply wf_Hash. Qed.

Lemma merkle_hash_inj a b a' b' : wf 8 a -> wf 8 b -> wf 8 a' -> wf 8 b' ->
  merkle_hash a b = merkle_hash a' b' -> (a = a' /\ b = b') \/ hash_collision.
Proof.
  intros Ha Hb Ha' Hb'. unfold merkle_hash. rewrite !Hash2_value. intros E.
  assert (Hl : forall x, wf 8 x -> length (bu_bytes x) = 32%nat) by (intros x [Hx _]; rewrite length_bu_bytes, Hx; done).
  destruct (decide (bu_bytes a ++ bu_bytes b = bu_bytes a' ++ bu_bytes b')) as [Eb|Hne].
  - left. apply app_inj_1 in Eb as [E1 E2]; [|by rewrite !Hl].
    by rewrite <- (words_of_bu_bytes 8 a), <- (words_of_bu_bytes 8 b), E1, E2, !(words_of_bu_bytes 8).
  - right. exists (bu_bytes a ++ bu_bytes b), (bu_bytes a' ++ bu_bytes b').
    split_and!; [done| |  |done]; unfold len; rewrite length_app, !Hl; done.
Qed.

Lemma join_inj i x o x' o' : wf 8 x -> wf 8 o -> wf 8 x' -> wf 8 o' -> join i x o = join i x' o' ->
  x = x' \/ hash_collision.
Proof.
  intros. unfold join in *. destruct (Z.odd i);
    (edestruct merkle_hash_inj as [[? ?]|?]; [| | | |eassumption|by left|by right]; done).
Qed.

Lemma nth_wf l i : Forall (wf 8) l -> 0 <= i < len l -> wf 8 (nth (Z.to_nat i) l []).
Proof.
  intros Hl Hi. destruct (nth_lookup_or_length l (Z.to_nat i) []) as [E|E]; [by eapply Forall_lookup_1|].
  unfold len in Hi. lia.
Qed.

Lemma check_branch_sound fuel l i x br : (length l <= fuel)%nat -> 0 <= i < len l -> Forall (wf 8) l -> wf 8 x ->
  Forall (wf 8) br -> length br = length (branch fuel l i) ->
  last (concat (rows fuel l)) = Some (check_branch x br i) ->
  nth (Z.to_nat i) l [] = x \/ hash_collision.
Proof.
  revert l i x br. induction fuel as [|fuel IH]; intros l i x br Hf Hi Hl Hx Hbr Hlen Hroot; [unfold len in Hi; lia|].
  cbn [branch rows] in *. destruct (Z.ltb_spec 1 (len l)) as [H1|H1].
  - destruct br as [|o br]; [done|]. rewrite check_branch_cons in Hroot. cbn [concat] in Hroot.
    apply Forall_cons in Hbr as [Ho Hbr]. injection Hlen as Hlen.
    pose proof (half_lt i (len l) Hi) as Hh. rewrite <- len_next_row, <- shiftr_1 in Hh.
    assert (Hwj : wf 8 (join i x o)) by (unfold join; destruct (Z.odd i); apply wf_merkle_hash).
    pose proof (next_row_fuel fuel l Hf H1) as Hf'. pose proof (next_row_lookup l i Hi) as Hn. rewrite <- shiftr_1 in Hn.
    rewrite last_app, (rows_root fuel (next_row l) _ _ Hf' Hh Hn) in Hroot.
    destruct (IH (next_row l) (Z.shiftr i 1) (join i x o) br) as [E|]; [done|done|apply wf_next_row|done..| | |by right].
    { by rewrite (rows_root fuel (next_row l) _ _ Hf' Hh Hn). }
    apply nth_lookup_Some with (d := []) in Hn. rewrite Hn in E.
    refine (join_inj i _ _ x o _ _ _ _ E); [by apply nth_wf|apply nth_wf; [done|by apply sibling_range]|done|done].
  - assert (len l = 1) by lia. destruct l as [|y [|]]; unfold len in *; simpl in *; try lia.
    destruct br; [|done]. cbn in Hroot. injection Hroot as ->. left. by replace i with 0 by lia.
Qed.
End sound.

(** ** Serialization *)

Definition header_wf (h : Z * base_uint * base_uint * (Z * Z * Z)) : Prop :=
  let '(v, p, m, q) := h in
  sfits 32 v /\ wf 8 p /\ wf 8 m /\ (let '(t, bits, n) := q in fits 32 t /\ fits 32 bits /\ fits 32 n).

(** A block that an object [this] can be overwritten with. *)
Definition block_wf (this b : CBlock) : Prop :=
  header_wf (header_of b) /\ vector_wf (tx_wf tx_fresh) (vtx b) /\ bytes_wf (vchBlockSig b) /\
  vMerkleTree b = vMerkleTree this /\ b_nDoS b = b_nDoS this.

Lemma ser_header_correct : ser_correct header_wf ser_header.
Proof.
  apply (ser_tuple4_correct _ _ _ (fun '(t, bits, n) => fits 32 t /\ fits 32 bits /\ fits 32 n));
    [apply ser_s32_correct|apply ser_uint256_correct..|].
  apply ser_tuple3_correct; apply ser_u32_correct.
Qed.

Lemma ser_block_correct this nType : header_only nType = false -> ser_correct (block_wf this) (ser_block_at this nType).
Proof.
  intros Ht. unfold ser_block_at, ser_body. rewrite Ht.
  eapply (ser_struct_correct_on _ _ _ (fun '(h, q) => header_wf h /\ (fun '(t, s) => vector_wf (tx_wf tx_fresh) t /\ bytes_wf s) q)).
  - intros [v p m t bits n txs sg tree dos] (Hh & Hv & Hs & Hm & Hd). simpl in *. by rewrite Hm, Hd.
  - intros [[[[v p] m] [[t bits] n]] [txs sg]] (Hh & Hv & Hs). done.
  - apply ser_pair_correct; [apply ser_header_correct|].
    apply ser_pair_correct; [apply ser_vector_correct; [apply ser_tx_correct|lia]|apply ser_bytes_correct].
Qed.

Lemma header_only_bytes this nType ver b : header_only nType = true ->
  Serialize (ser_block_at this nType) nType ver b = Serialize ser_header nType ver (header_of b).
Proof. intros Ht. unfold ser_block_at, ser_body. rewrite Ht. cbn [Serialize ser_struct ser_pair]. apply app_nil_r. Qed.

Lemma header_bytes_ser nType ver b : Serialize ser_header nType ver (header_of b) = header_bytes b.
Proof. done. Qed.

Lemma header_only_read this nType ver b : header_only nType = true -> header_wf (header_of b) ->
  reads (Unserialize (ser_block_at this nType) nType ver) (header_bytes b)
    (mkBlock (b_nVersion b) (hashPrevBlock b) (hashMerkleRoot b) (b_nTime b) (b_nBits b) (b_nNonce b) [] []
       (vMerkleTree this) (b_nDoS this)).
Proof.
  intros Ht Hb. unfold ser_block_at, ser_body. rewrite Ht. cbn [Unserialize ser_struct ser_pair].
  apply (reads_bind_nil _ _ _ (header_of b, ([], []))); [|apply reads_ret]. eapply reads_bind_nil.
  { rewrite <- (header_bytes_ser nType ver). by apply (sc_read _ _ ser_header_correct). }
  eapply reads_bind_nil; [apply reads_ret|]. apply reads_ret.
Qed.

(** ** Main theorems *)

(** The cached tree is empty or belongs to the transactions of the block. *)
Definition tree_current `{Crypto} (b : CBlock) : Prop :=
  vMerkleTree b = [] \/ option_map snd (BuildMerkleTree b) = Some b.

(** (C33) Merkle proofs.  For every transaction of a block, the branch that
    [GetMerkleBranch] gives leads [CheckMerkleBranch] from the transaction's hash
    to the root that [BuildMerkleTree] computes; no other hash and branch of that
    length passes for this position, unless two different messages of 64 bytes
    with the same hash are at hand; and no access is out of range. *)
Theorem merkle_branch_proves_membership `{CS : Crypto_spec} b i tx :
  tree_current b -> 0 <= i -> vtx b !! Z.to_nat i = Some tx ->
  exists root b1 br b2,
    BuildMerkleTree b = Some (root, b1) /\ tree_current b1 /\
    GetMerkleBranch b i = Some (br, b2) /\ b2 = b1 /\
    CheckMerkleBranch (tx_GetHash tx) br i = root /\
    (forall h br', wf 8 h -> Forall (wf 8) br' -> length br' = length br ->
       CheckMerkleBranch h br' i = root -> h = tx_GetHash tx \/ hash_collision).
Proof.
  intros Hb Hi Htx. set (l := map tx_GetHash (vtx b)). set (n := length (vtx b)).
  assert (Hlen : length l = n) by apply length_map.
  assert (Hr : 0 <= i < len l) by (apply lookup_lt_Some in Htx; unfold len; lia).
  assert (Hx : l !! Z.to_nat i = Some (tx_GetHash tx)).
  { unfold l.  change (map tx_GetHash (vtx b)) with (tx_GetHash <$> vtx b).
    by rewrite list_lookup_fmap, Htx. }
  pose proof (rows_root n l i _ ltac:(lia) Hr Hx) as Hroot.
  exists (merkle_root l), (set_merkle_tree (concat (rows n l)) b), (branch n l i), (set_merkle_tree (concat (rows n l)) b).
  assert (Hbuild : BuildMerkleTree b = Some (merkle_root l, set_merkle_tree (concat (rows n l)) b)) by apply BuildMerkleTree_spec.
  assert (Hcheck : forall h br', CheckMerkleBranch h br' i = check_branch h br' i).
  { intros h br'. unfold CheckMerkleBranch. by rewrite (proj2 (Z.eqb_neq i (-1))) by lia. }
  assert (Hmr : Some (merkle_root l) = last (concat (rows n l))).
  { unfold merkle_root. rewrite Hlen, Hroot. done. }
  split_and!; [done|right; by rewrite BuildMerkleTree_spec| |done| |].
  - unfold GetMerkleBranch.
    assert ((match vMerkleTree b with [] => snd <$> BuildMerkleTree b | _ => Some b end) =
      Some (set_merkle_tree (concat (rows n l)) b)) as ->.
    { destruct Hb as [-> | Hb]; [by rewrite Hbuild|]. rewrite Hbuild in Hb. injection Hb as Hb.
      rewrite Hb. destruct (vMerkleTree b); [by rewrite Hbuild, <- Hb|done]. }
    cbn [vtx vMerkleTree set_merkle_tree]. pose proof (branch_loop_spec n [] l i ltac:(lia) Hr) as Hbr. cbn [app] in Hbr.
    change (len []) with 0 in Hbr. unfold len in Hbr at 1. rewrite Hlen in Hbr. fold n. unfold len. fold n. by rewrite Hbr.
  - rewrite Hcheck. rewrite Hroot in Hmr. by injection Hmr as ->.
  - intros h br' Hh Hbr' Hl E. rewrite Hcheck in E.
    destruct (check_branch_sound n l i h br') as [E'|]; [lia|done| |done|done|done| | |by right].
    + apply Forall_forall. intros x Hin. apply list_elem_of_In, in_map_iff in Hin as (t & <- & _). apply wf_tx_GetHash.
    + by rewrite <- Hmr, E.
    + left. rewrite <- E'. apply nth_lookup_Some with (d := []) in Hx. done.
Qed.

Definition example_block : CBlock :=
  mkBlock 6 (bu_zero 8) (bu_zero 8) 0 0 0 [example_tx; tx_fresh; example_tx] [] [] 0.

Lemma merkle_branch_proves_membership_witness :
  exists root b1 br b2, @BuildMerkleTree Crypto_toy example_block = Some (root, b1) /\
    @GetMerkleBranch Crypto_toy example_block 2 = Some (br, b2) /\
    @CheckMerkleBranch Crypto_toy (@tx_GetHash Crypto_toy example_tx) br 2 = root.
Proof.
  destruct (@merkle_branch_proves_membership Crypto_toy Crypto_toy_spec example_block 2 example_tx)
    as (root & b1 & br & b2 & H1 & _ & H2 & _ & H3 & _); [by left|lia|reflexivity|].
  by exists root, b1, br, b2.
Defined.

(** Blocks on the wire and on disk.  With transactions, a block is written
    with its announced size, read back unchanged, and arbitrary bytes never make
    the reader assert or loop; in the header-only and hashing formats what is
    written is exactly the 80 header bytes over which [GetHash] is computed, and
    reading them gives the header back with no transactions and no signature. *)
Theorem block_codec this nType ver :
  (header_only nType = false -> ser_correct (block_wf this) (ser_block_at this nType)) /\
  (header_only nType = true -> forall Hash9 b, header_wf (header_of b) ->
     Serialize (ser_block this) nType ver b = header_bytes b /\ len (header_bytes b) = 80 /\
     block_GetHash Hash9 b = Hash9 (Serialize (ser_block this) nType ver b) /\
     reads (Unserialize (ser_block this) nType ver) (header_bytes b)
       (mkBlock (b_nVersion b) (hashPrevBlock b) (hashMerkleRoot b) (b_nTime b) (b_nBits b) (b_nNonce b) [] []
          (vMerkleTree this) (b_nDoS this))).
Proof.
  split; [apply ser_block_correct|]. intros Ht Hash9 b Hb. cbn [Serialize Unserialize ser_block].
  rewrite header_only_bytes, header_bytes_ser by done. split_and!; [done| |done|by apply header_only_read].
  destruct Hb as (_ & [Hp _] & [Hm _] & _). unfold header_bytes. rewrite !len_app, !len_to_digits.
  unfold len. rewrite !length_bu_bytes, Hp, Hm. done.
Qed.

Lemma block_codec_witness : len (header_bytes example_block) = 80.
Proof.
  destruct (block_codec example_block SER_GETHASH 0) as [_ Hh].
  destruct (Hh eq_refl (fun _ => []) example_block) as (_ & E & _); [|exact E].
  split_and!; [unfold sfits; cbn; lia|apply wf_zero|apply wf_zero|unfold fits; cbn; lia..].
Defined.
