(* ===== verification/Index.v ===== *)
(** * main.h: the block index, its record on disk, and block locators

    [CBlockIndex] objects form a tree linked by pointers.  The model keeps them
    in a heap indexed by address; [pprev] and [pnext] are addresses or null.
    Following a null or dangling pointer where the code dereferences it is
    [None].  The globals a function reads ([pindexBest], [mapBlockIndex] and so
    on) are members of [index_state]. *)
From Stdlib Require Import ZArith Lia Bool.
From stdpp Require Import prelude gmap sorting.
From S2P Require Import Prelude Uint256 DataStream Serialize Crypto Bignum Script Tx Block.

Definition ptr : Type := Z.

Record CBlockIndex : Type := mkIndex {
  phashBlock : option base_uint;
  pprev : option ptr;
  pnext : option ptr;
  i_nFile : Z;
  i_nBlockPos : Z;
  bnChainTrust : base_uint;
  nHeight : Z;
  nMint : Z;
  nMoneySupply : Z;
  nFlags : Z;
  nStakeModifier : Z;
  nStakeModifierChecksum : Z;
  prevoutStake : COutPoint;
  nStakeTime : Z;
  hashProofOfStake : base_uint;
  i_nVersion : Z;
  i_hashMerkleRoot : base_uint;
  i_nTime : Z;
  i_nBits : Z;
  i_nNonce : Z
}.

Definition BLOCK_PROOF_OF_STAKE : Z := Z.shiftl 1 0.
Definition BLOCK_STAKE_ENTROPY : Z := Z.shiftl 1 1.
Definition BLOCK_STAKE_MODIFIER : Z := Z.shiftl 1 2.

Definition index_null : CBlockIndex :=
  mkIndex None None None 0 0 (bu_zero 8) 0 0 0 0 0 0 out_null 0 (bu_zero 8) 0 (bu_zero 8) 0 0 0.

Definition set_flags (f : Z) (i : CBlockIndex) : CBlockIndex :=
  mkIndex (phashBlock i) (pprev i) (pnext i) (i_nFile i) (i_nBlockPos i) (bnChainTrust i) (nHeight i) (nMint i)
    (nMoneySupply i) f (nStakeModifier i) (nStakeModifierChecksum i) (prevoutStake i) (nStakeTime i)
    (hashProofOfStake i) (i_nVersion i) (i_hashMerkleRoot i) (i_nTime i) (i_nBits i) (i_nNonce i).

(** ** Flags *)

Definition index_IsProofOfStake (i : CBlockIndex) : bool := negb (Z.land (nFlags i) BLOCK_PROOF_OF_STAKE =? 0).
Definition index_IsProofOfWork (i : CBlockIndex) : bool := Z.land (nFlags i) BLOCK_PROOF_OF_STAKE =? 0.
Definition SetProofOfStake (i : CBlockIndex) : CBlockIndex := set_flags (Z.lor (nFlags i) BLOCK_PROOF_OF_STAKE) i.
Definition index_GetStakeEntropyBit (i : CBlockIndex) : Z := Z.shiftr (Z.land (nFlags i) BLOCK_STAKE_ENTROPY) 1.

Definition SetStakeEntropyBit (nEntropyBit : Z) (i : CBlockIndex) : bool * CBlockIndex :=
  if 1 <? nEntropyBit then (false, i)
  else (true, set_flags (Z.lor (nFlags i) (if nEntropyBit =? 0 then 0 else BLOCK_STAKE_ENTROPY)) i).

Definition GeneratedStakeModifier (i : CBlockIndex) : bool := negb (Z.land (nFlags i) BLOCK_STAKE_MODIFIER =? 0).

Definition SetStakeModifier (nModifier : Z) (fGenerated : bool) (i : CBlockIndex) : CBlockIndex :=
  let i := mkIndex (phashBlock i) (pprev i) (pnext i) (i_nFile i) (i_nBlockPos i) (bnChainTrust i) (nHeight i)
    (nMint i) (nMoneySupply i) (nFlags i) nModifier (nStakeModifierChecksum i) (prevoutStake i) (nStakeTime i)
    (hashProofOfStake i) (i_nVersion i) (i_hashMerkleRoot i) (i_nTime i) (i_nBits i) (i_nNonce i) in
  if fGenerated then set_flags (Z.lor (nFlags i) BLOCK_STAKE_MODIFIER) i else i.

(** [CBlockIndex(nFileIn, nBlockPosIn, block)]; [None]: [vtx[1].vin[0]] missing. *)
Definition index_new (nFileIn nBlockPosIn : Z) (block : CBlock) : option CBlockIndex :=
  match GetProofOfStake block with
  | None => None
  | Some (out, t) =>
      let i := mkIndex None None None nFileIn nBlockPosIn (bu_zero 8) 0 0 0 0 0 0 out t (bu_zero 8)
        (b_nVersion block) (hashMerkleRoot block) (b_nTime block) (b_nBits block) (b_nNonce block) in
      Some (if block_IsProofOfStake block then SetProofOfStake i else i)
  end.

Definition index_GetBlockTime (i : CBlockIndex) : Z := i_nTime i.

(** ** Walking the tree *)

Record index_state : Type := mkIndexState {
  heap : gmap ptr CBlockIndex;
  mapBlockIndex : gmap base_uint ptr;
  pindexBest : option ptr;
  pindexGenesisBlock : option ptr
}.

Section walks.
Context (st : index_state).

Definition deref (p : ptr) : option CBlockIndex := heap st !! p.

Definition GetBlockHash (p : ptr) : option base_uint := i ← deref p; phashBlock i.

(** [pprev->GetBlockHash()] when there is one. *)
Definition GetBlockHeader (p : ptr) : option CBlock :=
  i ← deref p;
  prev ← match pprev i with None => Some (bu_zero 8) | Some q => GetBlockHash q end;
  Some (mkBlock (i_nVersion i) prev (i_hashMerkleRoot i) (i_nTime i) (i_nBits i) (i_nNonce i) [] [] [] 0).

Definition IsInMainChain (p : ptr) : option bool :=
  i ← deref p;
  Some (match pnext i with Some _ => true | None => bool_decide (pindexBest st = Some p) end).

(** The block times from [p] back, at most [n] of them. *)
Fixpoint times_back (n : nat) (p : option ptr) : option (list Z) :=
  match n, p with
  | O, _ | _, None => Some []
  | S n, Some q => i ← deref q; rest ← times_back n (pprev i); Some (index_GetBlockTime i :: rest)
  end.

Definition nMedianTimeSpan : nat := 11.

Definition GetMedianTimePast (p : ptr) : option Z :=
  ts ← times_back nMedianTimeSpan (Some p);
  merge_sort Z.le ts !! (length ts / 2)%nat.

(** [None] inside: no next block, where the block's own time is returned. *)
Fixpoint forward (n : nat) (p : ptr) : option (option ptr) :=
  match n with
  | O => Some (Some p)
  | S n => i ← deref p; match pnext i with None => Some None | Some q => forward n q end
  end.

Definition GetMedianTime (p : ptr) : option Z :=
  r ← forward (nMedianTimeSpan / 2) p;
  match r with
  | None => i ← deref p; Some (index_GetBlockTime i)
  | Some q => GetMedianTimePast q
  end.

Fixpoint supermajority_loop (n : nat) (minVersion nRequired nFound : Z) (pstart : option ptr) : option Z :=
  match n, pstart with
  | O, _ | _, None => Some nFound
  | S n, Some p =>
      if nFound <? nRequired then
        i ← deref p;
        supermajority_loop n minVersion nRequired (if minVersion <=? i_nVersion i then nFound + 1 else nFound) (pprev i)
      else Some nFound
  end.

Definition IsSuperMajority (minVersion : Z) (pstart : option ptr) (nRequired nToCheck : Z) : option bool :=
  nFound ← supermajority_loop (Z.to_nat nToCheck) minVersion nRequired 0 pstart;
  Some (nRequired <=? nFound).

(** The loop of [GetLastBlockIndex]; the heap holds every block on the way, so
    its size is enough fuel. *)
Fixpoint last_loop (fuel : nat) (fProofOfStake : bool) (p : ptr) : option ptr :=
  match fuel with
  | O => None
  | S fuel =>
      i ← deref p;
      match pprev i with
      | Some q => if eqb (index_IsProofOfStake i) fProofOfStake then Some p else last_loop fuel fProofOfStake q
      | None => Some p
      end
  end.

(** The outer option is the model's, the inner one the null pointer. *)
Definition GetLastBlockIndex (pindex : option ptr) (fProofOfStake : bool) : option (option ptr) :=
  match pindex with
  | None => Some None
  | Some p => Some <$> last_loop (size (heap st)) fProofOfStake p
  end.
End walks.

(** ** Trust *)

Section trust.
Context (bnProofOfWorkLimit : base_uint).

Definition GetBlockTrust (i : CBlockIndex) : option base_uint :=
  let '(bnTarget, fNegative, fOverflow) := SetCompact (i_nBits i) in
  if fNegative || fOverflow || bu_eq64 bnTarget 0 then Some (bu_zero 8)
  else if index_IsProofOfStake i then
    q ← bu_div (bu_compl bnTarget) (bu_add bnTarget (bu_of_uint64 8 1));
    Some (bu_add q (bu_of_uint64 8 1))
  else
    bnPoWTrust ← bu_div bnProofOfWorkLimit (bu_add bnTarget (bu_of_uint64 8 1));
    Some (if bu_gt bnPoWTrust (bu_of_uint64 8 1) then bnPoWTrust else bu_of_uint64 8 1).
End trust.

(** ** [CDiskBlockIndex] *)

Record CDiskBlockIndex : Type := mkDiskIndex {
  d_index : CBlockIndex;
  blockHash : base_uint;
  hashPrev : base_uint;
  hashNext : base_uint
}.

Definition disk_null : CDiskBlockIndex := mkDiskIndex index_null (bu_zero 8) (bu_zero 8) (bu_zero 8).

(** [explicit CDiskBlockIndex(CBlockIndex* pindex)] *)
Definition disk_of (st : index_state) (p : ptr) : option CDiskBlockIndex :=
  i ← deref st p;
  hprev ← match pprev i with None => Some (bu_zero 8) | Some q => GetBlockHash st q end;
  hnext ← match pnext i with None => Some (bu_zero 8) | Some q => GetBlockHash st q end;
  Some (mkDiskIndex i (bu_zero 8) hprev hnext).

(** The members in the order of [IMPLEMENT_SERIALIZE]: those before the stake
    members, the stake members (reset by reading the index of a proof-of-work
    block), the header with [hashPrev], and [blockHash]. *)
Definition disk_head : Type := (base_uint * Z * Z * Z) * (Z * Z * Z * Z).
Definition disk_stake : Type := COutPoint * Z * base_uint.

Definition ser_disk_head : Ser disk_head :=
  ser_pair (ser_tuple4 ser_uint256 (ser_uint 4) (ser_uint 4) (ser_int 4))
           (ser_tuple4 (ser_int 8) (ser_int 8) (ser_uint 4) (ser_uint 8)).

Definition head_IsProofOfStake (h : disk_head) : bool :=
  let '(_, (_, _, f, _)) := h in negb (Z.land f BLOCK_PROOF_OF_STAKE =? 0).

Definition ser_disk_body : Ser ((disk_head * disk_stake) * ((Z * base_uint * base_uint * (Z * Z * Z)) * base_uint)) :=
  ser_pair
    (ser_dep ser_disk_head (fun h =>
       if head_IsProofOfStake h then ser_tuple3 ser_outpoint (ser_uint 4) ser_uint256
       else ser_skip (out_null, 0, bu_zero 8)))
    (ser_pair ser_header ser_uint256).

Definition disk_fields (d : CDiskBlockIndex) :=
  let i := d_index d in
  ((((hashNext d, i_nFile i, i_nBlockPos i, nHeight i), (nMint i, nMoneySupply i, nFlags i, nStakeModifier i)),
    (prevoutStake i, nStakeTime i, hashProofOfStake i)),
   ((i_nVersion i, hashPrev d, i_hashMerkleRoot i, (i_nTime i, i_nBits i, i_nNonce i)), blockHash d)).

(** [this] keeps its pointers, chain trust and checksum. *)
Definition disk_build (this : CDiskBlockIndex)
    (b : (disk_head * disk_stake) * ((Z * base_uint * base_uint * (Z * Z * Z)) * base_uint)) : CDiskBlockIndex :=
  let '((((hn, f, bp, h), (mint, supply, flags, modifier)), (out, t, hp)), ((v, prev, m, (time, bits, nonce)), bh)) := b in
  let i := d_index this in
  mkDiskIndex (mkIndex (phashBlock i) (pprev i) (pnext i) f bp (bnChainTrust i) h mint supply flags modifier
    (nStakeModifierChecksum i) out t hp v m time bits nonce) bh prev hn.

Definition ser_disk_index (this : CDiskBlockIndex) : Ser CDiskBlockIndex :=
  ser_versioned (ser_struct disk_fields (disk_build this) ser_disk_body).

(** [now] is [GetAdjustedTime()]: the stored hash is trusted after a day. *)
Definition disk_GetBlockHash (Hash9 : list Z -> base_uint) (now : Z) (d : CDiskBlockIndex) : base_uint * CDiskBlockIndex :=
  let i := d_index d in
  if (i_nTime i <? now - 24 * 60 * 60) && negb (bu_eq64 (blockHash d) 0) then (blockHash d, d)
  else
    let block := mkBlock (i_nVersion i) (hashPrev d) (i_hashMerkleRoot i) (i_nTime i) (i_nBits i) (i_nNonce i) [] [] [] 0 in
    let h := block_GetHash Hash9 block in
    (h, mkDiskIndex i h (hashPrev d) (hashNext d)).

(** ** [CBlockLocator] *)

Section locator.
Context (st : index_state) (hashGenesis : base_uint).

(** [for (int i = 0; pindex && i < nStep; i++) pindex = pindex->pprev;] *)
Fixpoint step_back (fuel : nat) (i nStep : Z) (p : option ptr) : option (option ptr) :=
  match p with
  | None => Some None
  | Some q =>
      if i <? nStep then
        match fuel with
        | O => None
        | S fuel => b ← deref st q; step_back fuel (i + 1) nStep (pprev b)
        end
      else Some p
  end.

Fixpoint locator_loop (fuel : nat) (p : option ptr) (nStep : Z) (vHave : list base_uint) : option (list base_uint) :=
  match p with
  | None => Some vHave
  | Some q =>
      match fuel with
      | O => None
      | S fuel =>
          h ← GetBlockHash st q;
          let vHave := vHave ++ [h] in
          p' ← step_back (size (heap st)) 0 nStep p;
          locator_loop fuel p' (if 10 <? len vHave then nStep * 2 else nStep) vHave
      end
  end.

Definition locator_Set (p : option ptr) : option (list base_uint) :=
  v ← locator_loop (size (heap st)) p 1 [];
  Some (v ++ [hashGenesis]).

(** Whether [hash] names a block of the main chain, and which. *)
Definition in_main (hash : base_uint) : option (option ptr) :=
  match mapBlockIndex st !! hash with
  | None => Some None
  | Some p => m ← IsInMainChain st p; Some (if (m : bool) then Some p else None)
  end.

Fixpoint distance_loop (nDistance nStep : Z) (vHave : list base_uint) : option Z :=
  match vHave with
  | [] => Some nDistance
  | h :: rest =>
      m ← in_main h;
      match m with
      | Some _ => Some nDistance
      | None =>
          let nDistance := nDistance + nStep in
          distance_loop nDistance (if 10 <? nDistance then nStep * 2 else nStep) rest
      end
  end.

Definition GetDistanceBack (vHave : list base_uint) : option Z := distance_loop 0 1 vHave.

Fixpoint GetBlockIndex (vHave : list base_uint) : option (option ptr) :=
  match vHave with
  | [] => Some (pindexGenesisBlock st)
  | h :: rest => m ← in_main h; match m with Some p => Some (Some p) | None => GetBlockIndex rest end
  end.

Fixpoint locator_GetBlockHash (vHave : list base_uint) : option base_uint :=
  match vHave with
  | [] => Some hashGenesis
  | h :: rest => m ← in_main h; match m with Some _ => Some h | None => locator_GetBlockHash rest end
  end.

Definition locator_GetHeight (vHave : list base_uint) : option Z :=
  p ← GetBlockIndex vHave;
  match p with None => Some 0 | Some q => nHeight <$> deref st q end.
End locator.

Definition ser_locator : Ser (list base_uint) := ser_versioned (ser_vector 32 ser_uint256).

(** ** Well-formed trees *)

Definition main (st : index_state) (p : ptr) : Prop := IsInMainChain st p = Some true.

#[export] Instance main_dec st p : Decision (main st p).
Proof. unfold main. apply _. Defined.

(** Every block is found under its own hash, and heights count the blocks below;
    [index_wf]: the main chain is closed under [pprev]. *)
Record tree_wf (st : index_state) : Prop := {
  iw_hash : forall p i, heap st !! p = Some i ->
    exists h, phashBlock i = Some h /\ mapBlockIndex st !! h = Some p;
  iw_prev : forall p i, heap st !! p = Some i ->
    match pprev i with
    | None => nHeight i = 0
    | Some q => exists j, heap st !! q = Some j /\ nHeight i = nHeight j + 1
    end;
  iw_height : forall p i, heap st !! p = Some i -> 0 <= nHeight i;
  iw_map : forall h p, mapBlockIndex st !! h = Some p -> is_Some (heap st !! p)
}.

Record index_wf (st : index_state) : Prop := {
  iw_tree :> tree_wf st;
  iw_main : forall p i q, heap st !! p = Some i -> pprev i = Some q -> main st p -> main st q
}.

Section tree.
Context (st : index_state) (Hwf : tree_wf st).

Definition prev (p : ptr) : option ptr := i ← heap st !! p; pprev i.

(** [n] steps back; past the first block there is nothing. *)
Fixpoint walk (n : nat) (p : option ptr) : option ptr :=
  match n, p with
  | O, _ => p
  | _, None => None
  | S n, Some q => walk n (prev q)
  end.

Definition valid (p : option ptr) : Prop := match p with None => True | Some q => is_Some (heap st !! q) end.

(** One more than the height, or 0 for no block. *)
Definition blocks (p : option ptr) : Z :=
  match p with None => 0 | Some q => match heap st !! q with None => 0 | Some i => nHeight i + 1 end end.

Lemma prev_valid q : valid (Some q) -> valid (prev q) /\ blocks (prev q) = blocks (Some q) - 1 /\ 1 <= blocks (Some q).
Proof.
  intros [i Hi]. unfold prev, blocks. rewrite Hi. cbn. pose proof (iw_height _ Hwf _ _ Hi). pose proof (iw_prev _ Hwf _ _ Hi) as Hp.
  destruct (pprev i) as [r|]; [|split; [done|lia]]. destruct Hp as (j & Hj & Hh). rewrite Hj. split; [by exists j|lia].
Qed.

Lemma blocks_nonneg p : valid p -> 0 <= blocks p.
Proof. destruct p as [q|]; [|done]. intros Hq. apply prev_valid in Hq. lia. Qed.

Lemma walk_None n : walk n None = None.
Proof. by destruct n. Qed.

Lemma walk_valid n p : valid p -> valid (walk n p) /\ blocks (walk n p) = Z.max 0 (blocks p - Z.of_nat n).
Proof.
  revert p. induction n as [|n IH]; intros p Hp; cbn [walk].
  { pose proof (blocks_nonneg p Hp). split; [done|lia]. }
  destruct p as [q|]; [|split; [done|cbn; lia]]. pose proof (prev_valid q Hp) as (Hv & Hb & _).
  destruct (IH (prev q) Hv) as [H1 H2]. split; [done|lia].
Qed.

Lemma walk_add m n p : walk (m + n) p = walk n (walk m p).
Proof.
  revert p. induction m as [|m IH]; intros p; [done|]. destruct p as [q|]; cbn [walk Nat.add]; [apply IH|by rewrite walk_None].
Qed.

(** The blocks below one another are different, so their number is bounded. *)
Lemma chain_distinct n p : valid (Some p) -> blocks (Some p) = Z.of_nat n ->
  exists l : list ptr, length l = n /\ NoDup l /\ Forall (fun q => is_Some (heap st !! q) /\ blocks (Some q) <= Z.of_nat n) l.
Proof.
  revert p. induction n as [|n IH]; intros p Hp Hb; [exists []; repeat constructor|].
  pose proof (prev_valid p Hp) as (Hv & Hbp & _). destruct (prev p) as [q|] eqn:Eq.
  - destruct (IH q Hv ltac:(lia)) as (l & Hl & Hnd & Hall). exists (p :: l).
    split_and!; [simpl; lia| |].
    + constructor; [|done]. intros Hin. rewrite Forall_forall in Hall. specialize (Hall p Hin) as [_ Hc]. lia.
    + constructor; [split; [done|lia]|]. eapply Forall_impl; [exact Hall|]. intros x [? ?]. split; [done|lia].
  - cbn [blocks] in Hbp. assert (n = 0%nat) as -> by (unfold blocks in Hb, Hbp; lia). exists [p].
    split_and!; [done|repeat constructor; set_solver|constructor; [split; [done|lia]|constructor]].
Qed.

Lemma blocks_size p : valid p -> (Z.to_nat (blocks p) <= size (heap st))%nat.
Proof.
  intros Hp. destruct p as [q|]; [|cbn; lia]. pose proof (blocks_nonneg _ Hp).
  destruct (chain_distinct (Z.to_nat (blocks (Some q))) q Hp ltac:(lia)) as (l & Hl & Hnd & Hall).
  rewrite <- Hl, <- size_dom, <- (size_list_to_set (C := gset ptr) l Hnd). apply subseteq_size.
  intros x Hx. apply elem_of_list_to_set in Hx. rewrite Forall_forall in Hall. destruct (Hall x Hx) as [Hx' _].
  by apply elem_of_dom.
Qed.
End tree.

Lemma walk_main st (Hwf : index_wf st) n p r : main st p -> walk st n (Some p) = Some r -> main st r.
Proof.
  revert p. induction n as [|n IH]; intros p Hm Hr; cbn [walk] in *; [by injection Hr as ->|].
  unfold prev in *. destruct (heap st !! p) as [i|] eqn:Ei; [|by rewrite walk_None in Hr]. cbn in *.
  destruct (pprev i) as [p'|] eqn:Ep; [|by rewrite walk_None in Hr]. eapply IH; [|done]. by eapply iw_main.
Qed.

(** ** Locators *)

Section locators.
Context (st : index_state) (Hwf : index_wf st).

Lemma step_back_spec fuel i nStep p : valid st p -> (Z.to_nat (blocks st p) <= fuel)%nat -> 0 <= i ->
  step_back st fuel i nStep p = Some (walk st (Z.to_nat (nStep - i)) p).
Proof.
  revert i p. induction fuel as [|fuel IH]; intros i p Hp Hf Hi.
  - destruct p as [q|]; [|by rewrite walk_None]. pose proof (prev_valid st Hwf q Hp). lia.
  - destruct p as [q|]; cbn [step_back]; [|by rewrite walk_None]. destruct (Z.ltb_spec i nStep).
    + pose proof (prev_valid st Hwf q Hp) as (Hv & Hb & _). destruct Hp as [b Hq]. unfold deref. rewrite Hq. cbn [mbind option_bind].
      assert (Hprev : prev st q = pprev b) by (unfold prev; by rewrite Hq). rewrite Hprev in *.
      rewrite IH; [|done|lia|lia]. replace (Z.to_nat (nStep - i)) with (S (Z.to_nat (nStep - (i + 1)))) by lia.
      cbn [walk]. by rewrite Hprev.
    + by replace (Z.to_nat (nStep - i)) with 0%nat by lia.
Qed.

Definition hash_of (q : ptr) : base_uint := default [] (GetBlockHash st q).

Lemma hash_of_spec q : valid st (Some q) -> GetBlockHash st q = Some (hash_of q) /\ mapBlockIndex st !! hash_of q = Some q.
Proof.
  intros [i Hi]. destruct (iw_hash _ Hwf _ _ Hi) as (h & Hh & Hm). unfold hash_of, GetBlockHash, deref. rewrite Hi. cbn.
  rewrite Hh. done.
Qed.

(** The blocks that [Set] visits from [p] on; [k] of them came before. *)
Fixpoint visited (fuel : nat) (k nStep : Z) (p : option ptr) : list ptr :=
  match fuel, p with
  | S fuel, Some q => q :: visited fuel (k + 1) (if 10 <? k + 1 then nStep * 2 else nStep) (walk st (Z.to_nat nStep) p)
  | _, _ => []
  end.

Lemma locator_loop_spec fuel p nStep vHave : valid st p -> (Z.to_nat (blocks st p) <= fuel)%nat -> 1 <= nStep ->
  locator_loop st fuel p nStep vHave = Some (vHave ++ map hash_of (visited fuel (len vHave) nStep p)).
Proof.
  revert p nStep vHave. induction fuel as [|fuel IH]; intros p nStep vHave Hp Hf Hs.
  - destruct p as [q|]; [pose proof (prev_valid st Hwf q Hp); lia|]. cbn. by rewrite app_nil_r.
  - destruct p as [q|]; cbn [locator_loop visited]; [|by rewrite app_nil_r].
    destruct (hash_of_spec q Hp) as [-> _]. cbn [mbind option_bind].
    rewrite step_back_spec by (done || (apply (blocks_size st Hwf); done)). cbn [mbind option_bind]. rewrite Z.sub_0_r.
    destruct (walk_valid st Hwf (Z.to_nat nStep) (Some q) Hp) as [Hv Hb].
    rewrite len_app, len_cons, len_nil. replace (len vHave + (1 + 0)) with (len vHave + 1) by lia.
    rewrite IH; [|done|pose proof (prev_valid st Hwf q Hp); lia|destruct (10 <? _); lia].
    rewrite <- app_assoc, len_app, len_cons, len_nil. by replace (len vHave + (1 + 0)) with (len vHave + 1) by lia.
Qed.

Lemma in_main_spec q : valid st (Some q) -> in_main st (hash_of q) = Some (if bool_decide (main st q) then Some q else None).
Proof.
  intros Hq. unfold in_main. destruct (hash_of_spec q Hq) as [_ ->].
  assert (exists b, IsInMainChain st q = Some b) as [b Eb].
  { destruct Hq as [i Hi]. unfold IsInMainChain, deref. rewrite Hi. cbn. by eexists. }
  destruct (decide (main st q)) as [Hm|Hm].
  - rewrite bool_decide_true by done. unfold main in Hm. by rewrite Hm.
  - rewrite bool_decide_false by done. unfold main in Hm. rewrite Eb in *. by destruct b.
Qed.

(** [f] blocks back from [p] the chain of [p] leaves the main chain. *)
Definition fork (p : ptr) (f : Z) : Prop :=
  0 <= f /\ (exists r, walk st (Z.to_nat f) (Some p) = Some r /\ main st r) /\
  forall n r, 0 <= n < f -> walk st (Z.to_nat n) (Some p) = Some r -> ~ main st r.

Context (hashGenesis : base_uint) (g : ptr).
Hypothesis genesis_found : mapBlockIndex st !! hashGenesis = Some g.
Hypothesis genesis_main : main st g.

Lemma in_main_genesis : in_main st hashGenesis = Some (Some g).
Proof. unfold in_main. rewrite genesis_found. unfold main in genesis_main. by rewrite genesis_main. Qed.

(** [d] and [s] are the distance and the step before the next block of the
    locator, of which [k] came before; the step never exceeds the distance. *)
Lemma locator_found fuel p f k d s : valid st (Some p) -> fork p f ->
  (Z.to_nat (blocks st (walk st (Z.to_nat d) (Some p))) <= fuel)%nat ->
  0 <= k -> (k <= 10 -> d = k /\ s = 1) -> (11 <= k -> 11 <= d) -> 1 <= s <= Z.max 1 d -> d <= 2 * f ->
  let v := map hash_of (visited fuel k s (walk st (Z.to_nat d) (Some p))) ++ [hashGenesis] in
  exists d' q, distance_loop st d s v = Some d' /\ GetBlockIndex st v = Some (Some q) /\
    f <= d' <= 2 * f /\ main st q /\
    (walk st (Z.to_nat d') (Some p) = Some q \/ q = g /\ blocks st (Some p) <= d').
Proof.
  intros Hp Hfork. revert k d s. induction fuel as [|fuel IH]; intros k d s Hf Hk Hsmall Hbig Hs Hd; cbn zeta;
    assert (Hd0 : 0 <= d) by (destruct (Z.le_gt_cases k 10) as [Hk10|]; [destruct (Hsmall Hk10)|]; lia);
    destruct (walk_valid st Hwf (Z.to_nat d) (Some p) Hp) as [Hv Hb];
    pose proof Hfork as (Hf0 & (r & Hr & Hrm) & Hnot);
    pose proof (walk_valid st Hwf (Z.to_nat f) (Some p) Hp) as [Hvr Hbr]; rewrite Hr in Hvr, Hbr;
    pose proof (prev_valid st Hwf r Hvr) as (_ & _ & Hr1);
    (destruct (walk st (Z.to_nat d) (Some p)) as [q|] eqn:Eq;
      [pose proof (prev_valid st Hwf q Hv) as (_ & _ & Hq1)|
       change (blocks st None) with 0 in Hb; replace (visited _ k s None) with (@nil ptr) by (by destruct fuel || done)]).
  1: lia.
  1,3: exists d, g; cbn [map app distance_loop GetBlockIndex]; rewrite in_main_genesis; cbn [mbind option_bind];
    split_and!; [done|done|lia|lia|done|right; split; [done|lia]].
  cbn [visited map app distance_loop GetBlockIndex]. rewrite in_main_spec by done.
  destruct (Z.le_gt_cases f d) as [Hfd|Hfd].
  - assert (Hm : main st q).
    { apply (walk_main st Hwf (Z.to_nat (d - f)) r q Hrm). rewrite <- Eq, <- Hr, <- walk_add. f_equal. lia. }
    rewrite bool_decide_true by done. exists d, q. cbn. split_and!; [done|done|lia|lia|done|by left].
  - rewrite bool_decide_false by (by apply (Hnot d q)). cbn [mbind option_bind].
    rewrite <- Eq, <- walk_add. replace (Z.to_nat d + Z.to_nat s)%nat with (Z.to_nat (d + s)) by lia.
    assert (Hstep : (10 <? k + 1) = (10 <? d + s)).
    { destruct (Z.le_gt_cases k 10) as [Hk10|]; [destruct (Hsmall Hk10) as [-> ->]; done|].
      rewrite !(proj2 (Z.ltb_lt _ _)); [done|lia|lia]. }
    rewrite Hstep. apply IH; [|lia|..].
    + pose proof (walk_valid st Hwf (Z.to_nat (d + s)) (Some p) Hp) as [_ Hb2]. lia.
    + intros Hk1. destruct (Hsmall ltac:(lia)) as [-> ->]. split; [done|]. by rewrite (proj2 (Z.ltb_ge 10 (k + 1))) by lia.
    + intros Hk1. destruct (Z.le_gt_cases k 10) as [Hk10|]; [destruct (Hsmall Hk10) as [-> ->]; lia|lia].
    + destruct (10 <? d + s) eqn:E; [apply Z.ltb_lt in E|]; lia.
    + lia.
Qed.
End locators.

(** ** Trust *)

Lemma bu_eq64_zero a : wf 8 a -> bu_eq64 a 0 = (val a =? 0).
Proof.
  intros [Hl Hd]. destruct a as [|p0 [|p1 t]]; [done..|].
  assert (Ht : forall t, digits (2 ^ 32) t -> forallb (fun p => p =? 0) t = (of_digits (2 ^ 32) t =? 0)).
  { intros l Hd'. induction Hd' as [|x l Hx Hl' IH]; [done|]. cbn [forallb of_digits]. rewrite IH.
    pose proof (of_digits_bound (2 ^ 32) ltac:(lia) l Hl').
    destruct (Z.eqb_spec x 0), (Z.eqb_spec (of_digits (2 ^ 32) l) 0), (Z.eqb_spec (x + 2 ^ 32 * of_digits (2 ^ 32) l) 0); cbn; (done || nia). }
  unfold val. rewrite <- Ht by done. unfold bu_eq64. cbn [forallb].
  change (u32 0) with 0. change (u32 (Z.shiftr 0 32)) with 0. by destruct (p0 =? 0), (p1 =? 0).
Qed.

(** The target that compact bits announce. *)
Definition target_of (nBits : Z) : Z := compact_expand (Z.land nBits 0x007fffff) (Z.shiftr nBits 24).

Lemma target_not_max nBits : fits 32 nBits -> target_of nBits < 2 ^ 256 -> 0 <= target_of nBits < 2 ^ 256 - 1.
Proof.
  intros Hc Ht. unfold target_of, compact_expand in *. set (m := Z.land nBits 0x007fffff) in *. set (s := Z.shiftr nBits 24) in *.
  assert (Hm : 0 <= m < 2 ^ 23).
  { unfold m. change 0x007fffff with (Z.ones 23). rewrite Z.land_ones by lia. apply Z.mod_pos_bound. lia. }
  destruct (Z.leb_spec s 3).
  - assert (0 <= s) by (unfold s; apply Z.shiftr_nonneg; apply Hc).
    pose proof (Z.div_pos m (2 ^ (8 * (3 - s))) ltac:(lia) ltac:(apply Z.pow_pos_nonneg; lia)).
    pose proof (Z.div_le_upper_bound m (2 ^ (8 * (3 - s))) m ltac:(apply Z.pow_pos_nonneg; lia)).
    pose proof (Z.pow_pos_nonneg 2 (8 * (3 - s)) ltac:(lia) ltac:(lia)). nia.
  - replace (8 * (s - 3)) with (8 + 8 * (s - 4)) in * by lia. rewrite Z.pow_add_r in * by lia.
    pose proof (Z.pow_pos_nonneg 2 (8 * (s - 4)) ltac:(lia) ltac:(lia)). change (2 ^ 8) with 256 in *.
    set (q := m * 2 ^ (8 * (s - 4))). replace (m * (256 * 2 ^ (8 * (s - 4)))) with (256 * q) in * by (unfold q; lia).
    assert (0 <= q) by (unfold q; nia). change (2 ^ 256) with (256 * 2 ^ 248) in *. lia.
Qed.

Lemma target_nonneg nBits : 0 <= target_of nBits.
Proof.
  unfold target_of, compact_expand. assert (0 <= Z.land nBits 0x007fffff) by (apply Z.land_nonneg; lia).
  destruct (_ <=? 3) eqn:E.
  - apply Z.leb_le in E. apply Z.div_pos; [done|apply Z.pow_pos_nonneg; lia].
  - apply Z.leb_gt in E. apply Z.mul_nonneg_nonneg; [done|apply Z.pow_nonneg; lia].
Qed.

Lemma GetBlockTrust_value limit i : wf 8 limit -> fits 32 (i_nBits i) ->
  exists r, GetBlockTrust limit i = Some r /\ wf 8 r /\
    val r = if (target_of (i_nBits i) =? 0) || (2 ^ 256 <=? target_of (i_nBits i)) || Z.testbit (i_nBits i) 23 then 0
            else if index_IsProofOfStake i then 2 ^ 256 / (target_of (i_nBits i) + 1)
            else Z.max 1 (val limit / (target_of (i_nBits i) + 1)).
Proof.
  intros Hlim Hc. unfold GetBlockTrust.
  destruct (SetCompact_value _ Hc) as (r & E & Hw & Hv). rewrite E. fold (target_of (i_nBits i)) in Hv |- *.
  change 0x00800000 with (2 ^ 23). rewrite land_pow2, bu_eq64_zero by (done || lia).
  pose proof (target_nonneg (i_nBits i)) as H0. pose proof (target_not_max _ Hc) as Hmax.
  set (t := target_of (i_nBits i)) in *. clearbody t. clear E.
  destruct (Z.leb_spec (2 ^ 256) t) as [Hov|Hov].
  { rewrite orb_true_r. cbn [orb]. rewrite orb_true_r. exists (bu_zero 8). split; [done|]. split; [apply wf_zero|apply val_zero]. }
  specialize (Hmax Hov). rewrite (wrap_id 256) in Hv by (unfold fits; lia). rewrite Hv, !orb_false_r.
  destruct (Z.eqb_spec t 0) as [Ht|Ht]; cbn [negb orb andb].
  { exists (bu_zero 8). split; [done|]. split; [apply wf_zero|apply val_zero]. }
  rewrite orb_false_r. destruct (Z.testbit (i_nBits i) 23); cbn [orb].
  { exists (bu_zero 8). split; [done|]. split; [apply wf_zero|apply val_zero]. }
  assert (H1 : wf 8 (bu_of_uint64 8 1) /\ val (bu_of_uint64 8 1) = 1).
  { split; [apply wf_of_uint64; lia|apply val_of_uint64; unfold fits; lia]. } destruct H1 as [Hw1 Hv1].
  destruct (bu_add_spec 8 r (bu_of_uint64 8 1) Hw Hw1) as [Hw2 Hv2]. change (BITS 8) with 256 in Hv2.
  rewrite Hv, Hv1, wrap_id in Hv2 by (unfold fits; lia).
  destruct (index_IsProofOfStake i).
  - destruct (bu_compl_spec 8 r Hw) as [Hwc Hvc]. change (BITS 8) with 256 in Hvc.
    destruct (bu_div_value 8 _ _ Hwc Hw2) as (q & -> & Hwq & Hvq); [lia|]. cbn [mbind option_bind].
    rewrite Hvc, Hv, Hv2 in Hvq.
    destruct (bu_add_spec 8 q (bu_of_uint64 8 1) Hwq Hw1) as [Hwr Hvr]. change (BITS 8) with 256 in Hvr.
    assert (Hq : 2 ^ 256 / (t + 1) = (2 ^ 256 - 1 - t) / (t + 1) + 1).
    { replace (2 ^ 256) with (2 ^ 256 - 1 - t + 1 * (t + 1)) at 1 by lia. apply Z.div_add. lia. }
    eexists. split; [done|]. split; [done|]. rewrite Hvr, Hvq, Hv1, Hq. apply wrap_id. unfold fits. rewrite <- Hq.
    split; [apply Z.div_pos; lia|]. apply Z.div_lt; lia.
  - destruct (bu_div_value 8 _ _ Hlim Hw2) as (q & -> & Hwq & Hvq); [lia|]. cbn [mbind option_bind].
    rewrite Hv2 in Hvq. eexists. split; [done|]. destruct (bu_cmp_spec 8 q (bu_of_uint64 8 1) Hwq Hw1) as (_ & _ & -> & _).
    rewrite Hv1, Hvq. destruct (Z.ltb_spec 1 (val limit / (t + 1))); (split; [done|]); lia.
Qed.

(** ** The last blocks of a chain *)

Section queries.
Context (st : index_state) (Hwf : index_wf st).

(** The last [n] blocks from [p] back, or as many as there are. *)
Fixpoint back (n : nat) (p : option ptr) : list CBlockIndex :=
  match n, p with
  | S n, Some q => match heap st !! q with Some i => i :: back n (pprev i) | None => [] end
  | _, _ => []
  end.

Lemma valid_cases q : valid st (Some q) -> exists i, heap st !! q = Some i /\ valid st (pprev i).
Proof.
  intros Hq. pose proof (prev_valid st Hwf q Hq) as (Hv & _). destruct Hq as [i Hi]. exists i. split; [done|].
  unfold prev in Hv. by rewrite Hi in Hv.
Qed.

Lemma times_back_spec n p : valid st p -> times_back st n p = Some (map i_nTime (back n p)).
Proof.
  revert p. induction n as [|n IH]; intros p Hp; [done|]. destruct p as [q|]; [|done].
  destruct (valid_cases q Hp) as (i & Hi & Hv). cbn [times_back back]. unfold deref. rewrite Hi. cbn [mbind option_bind].
  by rewrite IH.
Qed.

Lemma back_length n p : valid st p -> len (back n p) = Z.min (Z.of_nat n) (blocks st p).
Proof.
  revert p. induction n as [|n IH]; intros p Hp; [pose proof (blocks_nonneg st Hwf p Hp); cbn [back]; rewrite len_nil; lia|].
  destruct p as [q|]; [|cbn [back]; rewrite len_nil; change (blocks st None) with 0; lia].
  pose proof (prev_valid st Hwf q Hp) as (_ & Hb & Hb1).
  destruct (valid_cases q Hp) as (i & Hi & Hv). cbn [back]. rewrite Hi, len_cons, IH by done.
  assert (prev st q = pprev i) as E by (unfold prev; by rewrite Hi). rewrite E in Hb. lia.
Qed.

(** At least half of the values are on either side. *)
Definition is_median (t : Z) (l : list Z) : Prop :=
  t ∈ l /\ (length (filter (fun x => (x < t)%Z) l) <= length l / 2 < length (filter (fun x => (x <= t)%Z) l))%nat.

Lemma sorted_nth_median l t : Sorted.StronglySorted Z.le l -> l !! (length l / 2)%nat = Some t -> is_median t l.
Proof.
  intros Hs Ht. split; [by eapply list_elem_of_lookup_2|]. set (k := (length l / 2)%nat) in *.
  pose proof (take_drop_middle l k t Ht) as E. apply lookup_lt_Some in Ht as Hk.
  assert (Htake : length (take k l) = k) by (rewrite length_take; lia). rewrite <- E in Hs |- *.
  apply StronglySorted_app in Hs as (Hcross & _ & Hpost). inversion Hpost as [|? ? _ Hge]; subst.
  rewrite !filter_app, !length_app.
  assert (Hlow : length (filter (fun x => x <= t) (take k l)) = k).
  { rewrite filter_Forall_all; [done|]. apply Forall_forall. intros x Hx. apply Hcross; [done|]. by left. }
  assert (Hhigh : filter (fun x => x < t) (t :: drop (S k) l) = []).
  { apply filter_Forall_none. constructor; [lia|]. eapply Forall_impl; [exact Hge|]. cbn. lia. }
  rewrite Hhigh, Hlow, filter_cons_True by lia. pose proof (length_filter (fun x => x < t) (take k l)). cbn [length].
  lia.
Qed.

Lemma median_perm t l l' : l ≡ₚ l' -> is_median t l -> is_median t l'.
Proof. intros Hp [Hin Hc]. unfold is_median. by rewrite <- Hp. Qed.

Lemma GetMedianTimePast_spec p : valid st (Some p) ->
  exists t, GetMedianTimePast st p = Some t /\ is_median t (map i_nTime (back nMedianTimeSpan (Some p))).
Proof.
  intros Hp. unfold GetMedianTimePast. rewrite times_back_spec by done. cbn [mbind option_bind].
  set (ts := map i_nTime _). pose proof (merge_sort_Permutation Z.le ts) as Hperm.
  assert (Hlen : length (merge_sort Z.le ts) = length ts) by (by rewrite Hperm).
  assert (0 < length ts)%nat.
  { unfold ts. rewrite length_map. pose proof (back_length nMedianTimeSpan _ Hp). pose proof (prev_valid st Hwf p Hp).
    unfold len, nMedianTimeSpan in *. lia. }
  destruct (lookup_lt_is_Some_2 (merge_sort Z.le ts) (length ts / 2)) as [t Ht].
  { rewrite Hlen. apply Nat.div_lt; lia. }
  exists t. split; [done|]. eapply median_perm; [exact Hperm|]. apply sorted_nth_median; [|by rewrite Hlen].
  apply StronglySorted_merge_sort; [intros x y z; lia|intros x y; lia].
Qed.

Definition newer_count (minVersion : Z) (l : list CBlockIndex) : Z :=
  len (filter (fun i => minVersion <= i_nVersion i) l).

Lemma supermajority_loop_spec n mv req found p : valid st p ->
  exists r, supermajority_loop st n mv req found p = Some r /\
    (req <= r <-> req <= found + newer_count mv (back n p)).
Proof.
  revert found p. induction n as [|n IH]; intros found p Hp.
  { exists found. split; [done|]. change (newer_count mv (back 0 p)) with 0. lia. }
  destruct p as [q|]; [|exists found; split; [done|]; change (newer_count mv (back (S n) None)) with 0; lia].
  destruct (valid_cases q Hp) as (i & Hi & Hv). cbn [supermajority_loop back]. unfold deref. rewrite Hi. cbn [mbind option_bind].
  assert (0 <= newer_count mv (back n (pprev i))) by apply len_nonneg.
  assert (Hcons : newer_count mv (i :: back n (pprev i)) =
    (if mv <=? i_nVersion i then 1 else 0) + newer_count mv (back n (pprev i))).
  { unfold newer_count. rewrite filter_cons. destruct (decide _), (Z.leb_spec mv (i_nVersion i)); rewrite ?len_cons; lia. }
  rewrite Hcons.
  destruct (Z.ltb_spec found req).
  - destruct (IH (if mv <=? i_nVersion i then found + 1 else found) (pprev i) Hv) as (r & -> & Hr). exists r. split; [done|].
    rewrite Hr. destruct (mv <=? i_nVersion i); lia.
  - exists found. split; [done|]. destruct (mv <=? i_nVersion i); lia.
Qed.

Lemma IsSuperMajority_spec mv p req n : valid st p ->
  IsSuperMajority st mv p req n = Some (req <=? newer_count mv (back (Z.to_nat n) p)).
Proof.
  intros Hp. unfold IsSuperMajority. destruct (supermajority_loop_spec (Z.to_nat n) mv req 0 p Hp) as (r & -> & Hr).
  cbn. f_equal. apply eq_true_iff_eq. by rewrite !Z.leb_le, Hr.
Qed.

(** The nearest block of a kind, or the first block of the chain. *)
Lemma last_loop_spec fuel b p : valid st (Some p) -> (Z.to_nat (blocks st (Some p)) <= fuel)%nat ->
  exists n q i, last_loop st fuel b p = Some q /\ walk st n (Some p) = Some q /\ heap st !! q = Some i /\
    (index_IsProofOfStake i = b \/ pprev i = None) /\
    (forall m r j, (m < n)%nat -> walk st m (Some p) = Some r -> heap st !! r = Some j -> index_IsProofOfStake j = negb b).
Proof.
  revert p. induction fuel as [|fuel IH]; intros p Hp Hf; [pose proof (prev_valid st Hwf p Hp); lia|].
  pose proof (prev_valid st Hwf p Hp) as (_ & Hb & _). destruct (valid_cases p Hp) as (i & Hi & Hv).
  assert (Hprev : prev st p = pprev i) by (unfold prev; by rewrite Hi).
  cbn [last_loop]. unfold deref. rewrite Hi. cbn [mbind option_bind]. destruct (pprev i) as [q|] eqn:Ep.
  - destruct (eqb (index_IsProofOfStake i) b) eqn:Eb.
    + apply eqb_prop in Eb. exists 0%nat, p, i. split_and!; [done..|by left|lia].
    + rewrite Hprev in Hb. destruct (IH q Hv ltac:(lia)) as (n & r & j & Hl & Hw & Hr & Hk & Hn). exists (S n), r, j.
      split_and!; [done|cbn [walk]; by rewrite Hprev|done|done|].
      intros m s k Hm Hs Hk'. destruct m as [|m].
      * cbn in Hs. injection Hs as <-. rewrite Hi in Hk'. injection Hk' as <-. by destruct (index_IsProofOfStake i), b.
      * cbn [walk] in Hs. rewrite Hprev in Hs. eapply Hn; [|done|done]. lia.
  - exists 0%nat, p, i. split_and!; [done..|by right|lia].
Qed.
End queries.

(** ** The record on disk *)

Definition stake_wf (s : disk_stake) : Prop := let '(o, t, h) := s in out_wf o /\ fits 32 t /\ wf 8 h.

Definition head_wf (h : disk_head) : Prop :=
  let '(a, b) := h in
  (let '(hn, f, bp, ht) := a in wf 8 hn /\ fits 32 f /\ fits 32 bp /\ sfits 32 ht) /\
  (let '(mint, supply, flags, modifier) := b in sfits 64 mint /\ sfits 64 supply /\ fits 32 flags /\ fits 64 modifier).

Definition body_wf (b : (disk_head * disk_stake) * ((Z * base_uint * base_uint * (Z * Z * Z)) * base_uint)) : Prop :=
  let '(hs, r) := b in
  (let '(h, s) := hs in head_wf h /\ (if head_IsProofOfStake h then stake_wf s else s = (out_null, 0, bu_zero 8))) /\
  (let '(hd, bh) := r in header_wf hd /\ wf 8 bh).

(** An entry that an object [this] can be overwritten with: a proof-of-work block
    has no stake. *)
Definition disk_wf (this d : CDiskBlockIndex) : Prop := body_wf (disk_fields d) /\ disk_build this (disk_fields d) = d.

Lemma ser_u64_correct : ser_correct (fits 64) (ser_uint 8).
Proof. apply (ser_uint_correct 8). lia. Qed.

Lemma ser_disk_body_correct : ser_correct body_wf ser_disk_body.
Proof.
  apply (ser_pair_correct (fun '(h, s) => head_wf h /\ (if head_IsProofOfStake h then stake_wf s else s = (out_null, 0, bu_zero 8)))
    (fun '(hd, bh) => header_wf hd /\ wf 8 bh)).
  - apply (ser_dep_correct head_wf (fun h s => if head_IsProofOfStake h then stake_wf s else s = (out_null, 0, bu_zero 8))).
    + apply (ser_pair_correct (fun '(hn, f, bp, ht) => wf 8 hn /\ fits 32 f /\ fits 32 bp /\ sfits 32 ht)
        (fun '(mint, supply, flags, modifier) => sfits 64 mint /\ sfits 64 supply /\ fits 32 flags /\ fits 64 modifier)).
      * apply ser_tuple4_correct; [apply ser_uint256_correct|apply ser_u32_correct..|apply ser_s32_correct].
      * apply ser_tuple4_correct; [apply ser_s64_correct..|apply ser_u32_correct|apply ser_u64_correct].
    + intros h _. destruct (head_IsProofOfStake h); [|apply ser_skip_correct].
      apply ser_tuple3_correct; [apply ser_outpoint_correct|apply ser_u32_correct|apply ser_uint256_correct].
  - apply ser_pair_correct; [apply ser_header_correct|apply ser_uint256_correct].
Qed.

Lemma disk_fields_build this b : disk_fields (disk_build this b) = b.
Proof.
  destruct b as [[[[[[hn f] bp] h] [[[mint supply] flags] modifier]] [[out t] hp]] [[[[v prev] m] [[time bits] nonce]] bh]]. done.
Qed.

Lemma ser_disk_index_correct this : ser_correct (disk_wf this) (ser_disk_index this).
Proof.
  apply ser_versioned_correct. eapply ser_struct_correct_on; [| |apply ser_disk_body_correct].
  - intros d [Hb Hd]. by split.
  - intros b Hb. split; by rewrite disk_fields_build.
Qed.

Definition disk_header (d : CDiskBlockIndex) : CBlock :=
  let i := d_index d in
  mkBlock (i_nVersion i) (hashPrev d) (i_hashMerkleRoot i) (i_nTime i) (i_nBits i) (i_nNonce i) [] [] [] 0.

(** ** Main theorems *)

(** (C35) Block locators.  When the chain of a block [p] left the main chain [f]
    blocks ago, the locator made for [p] leads a node on the main chain to a
    block of its own chain that is an ancestor of [p] between [f] and [2 f]
    blocks back, or to the genesis block when that is past the start;
    [GetDistanceBack] reports that distance exactly, so doubling the steps never
    gives up more than the fork itself. *)
Theorem locator_finds_recent_common_block st hashGenesis g p f :
  index_wf st -> mapBlockIndex st !! hashGenesis = Some g -> main st g ->
  is_Some (heap st !! p) -> fork st p f ->
  exists v d q, locator_Set st hashGenesis (Some p) = Some v /\ GetDistanceBack st v = Some d /\
    GetBlockIndex st v = Some (Some q) /\ f <= d <= 2 * f /\ main st q /\
    (walk st (Z.to_nat d) (Some p) = Some q \/ q = g /\ blocks st (Some p) <= d).
Proof.
  intros Hwf Hg Hgm Hp Hf. assert (Hv : valid st (Some p)) by done. unfold locator_Set.
  rewrite (locator_loop_spec st Hwf) by (done || by apply (blocks_size st Hwf)). cbn [mbind option_bind app].
  destruct (locator_found st Hwf hashGenesis g Hg Hgm (size (heap st)) p f 0 0 1 Hv Hf) as (d & q & H1 & H2 & H3 & H4 & H5);
    [by apply (blocks_size st Hwf)|lia|lia|lia|lia|destruct Hf; lia|].
  eexists _, d, q. split; [done|]. done.
Qed.

(** Chain trust of a block.  [GetBlockTrust] never divides by zero and never
    wraps: with a valid target [t] it is exactly 2^256 / (t + 1) for a
    proof-of-stake block, although 2^256 does not fit the type, and the rounded
    ratio of the limit to [t + 1], at least 1, for a proof-of-work block; it is
    zero when the bits encode a zero, negative or too large target. *)
Theorem block_trust_value limit i : wf 8 limit -> fits 32 (i_nBits i) ->
  exists r, GetBlockTrust limit i = Some r /\ wf 8 r /\
    val r = if (target_of (i_nBits i) =? 0) || (2 ^ 256 <=? target_of (i_nBits i)) || Z.testbit (i_nBits i) 23 then 0
            else if index_IsProofOfStake i then 2 ^ 256 / (target_of (i_nBits i) + 1)
            else Z.max 1 (val limit / (target_of (i_nBits i) + 1)).
Proof. apply GetBlockTrust_value. Qed.

(** Queries on the index of a well-formed tree: the median time past is a
    median of the times of the last eleven blocks (or of all there are);
    [IsSuperMajority] tells exactly whether [nRequired] of the last [nToCheck]
    blocks have the version; [GetLastBlockIndex] finds the nearest block of the
    kind asked for, or the first block.  None of them follows a bad pointer. *)
Theorem index_queries st p : index_wf st -> is_Some (heap st !! p) ->
  (exists t, GetMedianTimePast st p = Some t /\ is_median t (map i_nTime (back st nMedianTimeSpan (Some p)))) /\
  (forall minVersion nRequired nToCheck, IsSuperMajority st minVersion (Some p) nRequired nToCheck =
     Some (nRequired <=? newer_count minVersion (back st (Z.to_nat nToCheck) (Some p)))) /\
  (forall b, exists n q i, GetLastBlockIndex st (Some p) b = Some (Some q) /\
     walk st n (Some p) = Some q /\ heap st !! q = Some i /\ (index_IsProofOfStake i = b \/ pprev i = None) /\
     forall m r j, (m < n)%nat -> walk st m (Some p) = Some r -> heap st !! r = Some j -> index_IsProofOfStake j = negb b).
Proof.
  intros Hwf Hp. assert (Hv : valid st (Some p)) by done. split_and!.
  - by apply GetMedianTimePast_spec.
  - intros. by apply IsSuperMajority_spec.
  - intros b. destruct (last_loop_spec st Hwf (size (heap st)) b p Hv) as (n & q & i & Hl & Hrest); [by apply (blocks_size st Hwf)|].
    exists n, q, i. unfold GetLastBlockIndex. by rewrite Hl.
Qed.

(** The block index on disk: an entry is written with its announced size and
    read back unchanged, whatever bytes are read nothing asserts or loops; and
    [CDiskBlockIndex::GetBlockHash] is the hash of the entry's header, computed
    again or taken from the stored hash if that was right, and it stays right. *)
Theorem disk_index_codec this Hash9 now d :
  ser_correct (disk_wf this) (ser_disk_index this) /\
  (bu_eq64 (blockHash d) 0 = true \/ blockHash d = block_GetHash Hash9 (disk_header d) ->
   fst (disk_GetBlockHash Hash9 now d) = block_GetHash Hash9 (disk_header d) /\
   blockHash (snd (disk_GetBlockHash Hash9 now d)) = block_GetHash Hash9 (disk_header d) /\
   disk_header (snd (disk_GetBlockHash Hash9 now d)) = disk_header d).
Proof.
  split; [apply ser_disk_index_correct|]. intros Hd. unfold disk_GetBlockHash.
  destruct ((_ <? _) && _) eqn:E; [|done]. apply andb_prop in E as [_ E]. destruct Hd as [Hd|Hd]; [by rewrite Hd in E|done].
Qed.

(** ** An example tree

    The genesis block 0, its successor 1 on the main chain, and a block 2 that
    forks off the genesis block. *)

Definition example_entry (h : base_uint) (prev next : option ptr) (height flags : Z) : CBlockIndex :=
  mkIndex (Some h) prev next 0 0 (bu_zero 8) height 0 0 flags 0 0 out_null 0 (bu_zero 8) 6 (bu_zero 8) (100 + height) 0x1e0fffff 0.

Definition example_index : index_state :=
  mkIndexState
    (<[0 := example_entry [0] None (Some 1) 0 0]> (<[1 := example_entry [1] (Some 0) None 1 1]>
       (<[2 := example_entry [2] (Some 0) None 1 0]> ∅)))
    (<[[0] := 0]> (<[[1] := 1]> (<[[2] := 2]> ∅))) (Some 1) (Some 0).

Ltac insert_cases H := unfold example_index in H; cbn [heap mapBlockIndex] in H;
  repeat (apply lookup_insert_Some in H as [[<- <-]|[_ H]]); try (by rewrite lookup_empty in H).

Lemma example_index_wf : index_wf example_index.
Proof.
  split; [split|].
  - intros p i H. insert_cases H; eexists; (split; [reflexivity|reflexivity]).
  - intros p i H. insert_cases H; [reflexivity|eexists; split; reflexivity..].
  - intros p i H. insert_cases H; cbn; lia.
  - intros h p H. insert_cases H; eexists; reflexivity.
  - intros p i q H Hp Hm. insert_cases H; cbn in Hp; try done; injection Hp as <-; reflexivity.
Qed.

Lemma example_fork : fork example_index 2 1.
Proof.
  split; [lia|]. split; [by exists 0|]. intros n r Hn Hr. replace n with 0 in Hr by lia. by injection Hr as <-.
Qed.

Lemma locator_finds_recent_common_block_witness :
  exists v d, locator_Set example_index [0] (Some 2) = Some v /\ GetDistanceBack example_index v = Some d /\ 1 <= d <= 2.
Proof.
  destruct (locator_finds_recent_common_block example_index [0] 0 2 1) as (v & d & q & H1 & H2 & _ & H3 & _).
  - exact example_index_wf.
  - reflexivity.
  - reflexivity.
  - eexists; reflexivity.
  - exact example_fork.
  - exists v, d. split; [exact H1|]. split; [exact H2|exact H3].
Defined.

Lemma block_trust_value_witness :
  exists r, GetBlockTrust (bu_zero 8) (example_entry [1] None None 1 1) = Some r /\
    val r = 2 ^ 256 / (target_of 0x1e0fffff + 1).
Proof.
  destruct (block_trust_value (bu_zero 8) (example_entry [1] None None 1 1)) as (r & E & _ & Hv).
  - apply wf_zero.
  - split; cbn; lia.
  - exists r. split; [exact E|]. rewrite Hv. reflexivity.
Defined.

Lemma index_queries_witness : exists t, GetMedianTimePast example_index 1 = Some t.
Proof.
  destruct (index_queries example_index 1) as ((t & E & _) & _).
  - exact example_index_wf.
  - eexists; reflexivity.
  - by exists t.
Defined.

Lemma disk_index_codec_witness :
  fst (disk_GetBlockHash (fun l => [len l]) 0 disk_null) = [80].
Proof.
  destruct (disk_index_codec disk_null (fun l => [len l]) 0 disk_null) as [_ H].
  destruct H as (E & _); [left; reflexivity|]. rewrite E. vm_compute. reflexivity.
Defined.
