(* ===== verification/TxDB.v ===== *)
(** * txdb-leveldb.h, txdb-leveldb.cpp: the transaction and block index database

    [CTxDB] wraps LevelDB: every key and value is serialized, writes of a
    database transaction go to a batch that is scanned by reads, and the batch is
    applied as a whole.  LevelDB is the class [LevelDB] with the documented laws
    [LevelDB_spec]: an uncorrupted database is a finite map from byte strings to
    byte strings, and a write that fails leaves it as it was.

    The transaction index as its clients use it is the interface [TxIndexDB];
    its contract [TxIndexDB_spec] relates a database to a finite map from
    transaction hashes to [CTxIndex], and [CTxDB] satisfies it.

    [fClient] is never set in this program, so the assertions on it hold. *)
From Stdlib Require Import ZArith Lia Bool.
From stdpp Require Import prelude gmap.
From S2P Require Import Prelude Uint256 DataStream Serialize Crypto Bignum Script Tx Block Index.

Definition SER_DISK : Z := 2.
Definition CLIENT_VERSION : Z := 2030000.

(** ** LevelDB *)

Inductive Status (A : Type) : Type := OK (a : A) | NotFound | IOError.
Arguments OK {A} a.
Arguments NotFound {A}.
Arguments IOError {A}.

(** The records of a [WriteBatch] in the order of the calls. *)
Inductive batch_op : Type := BPut (key value : list Z) | BDelete (key : list Z).

Class LevelDB : Type := {
  DB : Type;
  db_Get : DB -> list Z -> Status (list Z);
  db_Put : DB -> list Z -> list Z -> Status unit * DB;
  db_Delete : DB -> list Z -> Status unit * DB;
  db_Write : DB -> list batch_op -> Status unit * DB
}.

Definition batch_step (m : gmap (list Z) (list Z)) (o : batch_op) : gmap (list Z) (list Z) :=
  match o with BPut k v => <[k := v]> m | BDelete k => delete k m end.
Definition apply_batch (b : list batch_op) (m : gmap (list Z) (list Z)) : gmap (list Z) (list Z) :=
  fold_left batch_step b m.

(** A call that is not [OK] changes nothing; [Delete] of a missing key is no error
    or reports it. *)
Definition effect {D A} (view : D -> A) (d : D) (r : Status unit * D) (after : A) : Prop :=
  view (snd r) = match fst r with OK _ => after | _ => view d end.

Class LevelDB_spec `{LevelDB} : Type := {
  db_map : DB -> gmap (list Z) (list Z);
  db_Get_spec : forall d k, db_Get d k = match db_map d !! k with Some v => OK v | None => NotFound end;
  db_Put_spec : forall d k v, effect db_map d (db_Put d k v) (<[k := v]> (db_map d));
  db_Delete_spec : forall d k, effect db_map d (db_Delete d k) (delete k (db_map d)) /\
    (fst (db_Delete d k) = NotFound -> db_map d !! k = None);
  db_Write_spec : forall d b, effect db_map d (db_Write d b) (apply_batch b (db_map d))
}.

(** ** [CTxDB] *)

Section txdb.
Context `{LevelDB}.

Record CTxDB : Type := mkTxDB { pdb : DB; activeBatch : option (list batch_op); fReadOnly : bool }.

(** [CTxDB(pszMode)] with the global instance open: mode "r" is read only. *)
Definition txdb_open (instance : DB) (fReadOnly : bool) : CTxDB := mkTxDB instance None fReadOnly.

(** [CBatchScanner]: found, deleted and the value found. *)
Definition scan_op (needle : list Z) (s : bool * bool * list Z) (o : batch_op) : bool * bool * list Z :=
  let '(foundEntry, deleted, foundValue) := s in
  match o with
  | BPut key value => if bytes_eqb key needle then (true, false, value) else s
  | BDelete key => if bytes_eqb key needle then (true, true, foundValue) else s
  end.

Definition ScanBatch (b : list batch_op) (key : list Z) : bool * bool * list Z :=
  fold_left (scan_op key) b (false, false, []).

Section typed.
Context {K T : Type} (ck : Ser K) (ct : Ser T).

(** [None] is a failed assertion; [Some None] is the answer false, after which no
    caller uses the value. *)
Definition Read (txdb : CTxDB) (key : K) : option (option T) :=
  let ssKey := Serialize ck SER_DISK CLIENT_VERSION key in
  let '(found, deleted, strValue) :=
    match activeBatch txdb with Some b => ScanBatch b ssKey | None => (false, false, []) end in
  if deleted then Some None
  else
    match (if found then OK strValue else db_Get (pdb txdb) ssKey) with
    | OK strValue =>
        match fst (Unserialize ct SER_DISK CLIENT_VERSION (Init strValue SER_DISK CLIENT_VERSION)) with
        | inr value => Some (Some value)
        | inl Throw => Some None
        | inl _ => None
        end
    | _ => Some None
    end.

Definition Write (txdb : CTxDB) (key : K) (value : T) : option (bool * CTxDB) :=
  if fReadOnly txdb then None
  else
    let ssKey := Serialize ck SER_DISK CLIENT_VERSION key in
    let ssValue := Serialize ct SER_DISK CLIENT_VERSION value in
    match activeBatch txdb with
    | Some b => Some (true, mkTxDB (pdb txdb) (Some (b ++ [BPut ssKey ssValue])) (fReadOnly txdb))
    | None =>
        let '(status, d) := db_Put (pdb txdb) ssKey ssValue in
        Some (match status with OK _ => true | _ => false end, mkTxDB d None (fReadOnly txdb))
    end.

Definition Erase (txdb : CTxDB) (key : K) : option (bool * CTxDB) :=
  if fReadOnly txdb then None
  else
    let ssKey := Serialize ck SER_DISK CLIENT_VERSION key in
    match activeBatch txdb with
    | Some b => Some (true, mkTxDB (pdb txdb) (Some (b ++ [BDelete ssKey])) (fReadOnly txdb))
    | None =>
        let '(status, d) := db_Delete (pdb txdb) ssKey in
        Some (match status with IOError => false | _ => true end, mkTxDB d None (fReadOnly txdb))
    end.

Definition Exists (txdb : CTxDB) (key : K) : bool :=
  let ssKey := Serialize ck SER_DISK CLIENT_VERSION key in
  let in_batch :=
    match activeBatch txdb with
    | Some b => let '(found, deleted, _) := ScanBatch b ssKey in found && negb deleted
    | None => false
    end in
  in_batch || match db_Get (pdb txdb) ssKey with NotFound => false | _ => true end.
End typed.

(** [None]: the assertion on [activeBatch] fails. *)
Definition TxnBegin (txdb : CTxDB) : option (bool * CTxDB) :=
  match activeBatch txdb with
  | Some _ => None
  | None => Some (true, mkTxDB (pdb txdb) (Some []) (fReadOnly txdb))
  end.

Definition TxnCommit (txdb : CTxDB) : option (bool * CTxDB) :=
  match activeBatch txdb with
  | None => None
  | Some b =>
      let '(status, d) := db_Write (pdb txdb) b in
      Some (match status with OK _ => true | _ => false end, mkTxDB d None (fReadOnly txdb))
  end.

Definition TxnAbort (txdb : CTxDB) : CTxDB := mkTxDB (pdb txdb) None (fReadOnly txdb).

(** ** The records *)

(** [string("tx")] and the other key names. *)
Definition key_tx : list Z := [116; 120].
Definition key_blockindex : list Z := [98; 108; 111; 99; 107; 105; 110; 100; 101; 120].
Definition key_hashBestChain : list Z := [104; 97; 115; 104; 66; 101; 115; 116; 67; 104; 97; 105; 110].
Definition key_bestInvalidTrust : list Z :=
  [98; 110; 66; 101; 115; 116; 73; 110; 118; 97; 108; 105; 100; 84; 114; 117; 115; 116].

Definition ser_hash_key : Ser (list Z * base_uint) := ser_pair ser_string ser_uint256.

Definition ReadTxIndex (txdb : CTxDB) (hash : base_uint) : option (option CTxIndex) :=
  Read ser_hash_key ser_txindex txdb (key_tx, hash).
Definition UpdateTxIndex (txdb : CTxDB) (hash : base_uint) (txindex : CTxIndex) : option (bool * CTxDB) :=
  Write ser_hash_key ser_txindex txdb (key_tx, hash) txindex.
Definition EraseTxIndex `{Crypto} (txdb : CTxDB) (tx : CTransaction) : option (bool * CTxDB) :=
  Erase ser_hash_key txdb (key_tx, tx_GetHash tx).
Definition AddTxIndex `{Crypto} (txdb : CTxDB) (tx : CTransaction) (p : CDiskTxPos) : option (bool * CTxDB) :=
  Write ser_hash_key ser_txindex txdb (key_tx, tx_GetHash tx) (txindex_new p (len (vout tx))).
Definition ContainsTx (txdb : CTxDB) (hash : base_uint) : bool := Exists ser_hash_key txdb (key_tx, hash).

Definition WriteBlockIndex (Hash9 : list Z -> base_uint) (now : Z) (txdb : CTxDB) (blockindex : CDiskBlockIndex)
    : option (bool * CTxDB) :=
  let '(h, blockindex) := disk_GetBlockHash Hash9 now blockindex in
  Write ser_hash_key (ser_disk_index disk_null) txdb (key_blockindex, h) blockindex.
Definition ReadHashBestChain (txdb : CTxDB) : option (option base_uint) :=
  Read ser_string ser_uint256 txdb key_hashBestChain.
Definition WriteHashBestChain (txdb : CTxDB) (hashBestChain : base_uint) : option (bool * CTxDB) :=
  Write ser_string ser_uint256 txdb key_hashBestChain hashBestChain.
Definition WriteBestInvalidTrust (txdb : CTxDB) (bnBestInvalidTrust : base_uint) : option (bool * CTxDB) :=
  Write ser_string ser_uint256 txdb key_bestInvalidTrust bnBestInvalidTrust.
End txdb.

(** ** The interface of the transaction index *)

Class TxIndexDB (D : Type) : Type := {
  idx_Read : D -> base_uint -> option (option CTxIndex);
  idx_Update : D -> base_uint -> CTxIndex -> option (bool * D);
  idx_Erase : D -> base_uint -> option (bool * D)
}.

Definition txindex_wf (t : CTxIndex) : Prop := pos_wf (pos t) /\ vector_wf pos_wf (vSpent t).

(** [repr d m]: inside a database transaction, [d] stands for the index [m]. *)
Class TxIndexDB_spec {D} `{TxIndexDB D} (repr : D -> gmap base_uint CTxIndex -> Prop) : Prop := {
  idx_Read_spec : forall d m h, repr d m -> wf 8 h -> idx_Read d h = Some (m !! h);
  idx_Update_spec : forall d m h t, repr d m -> wf 8 h -> txindex_wf t ->
    exists d', idx_Update d h t = Some (true, d') /\ repr d' (<[h := t]> m);
  idx_Erase_spec : forall d m h, repr d m -> wf 8 h ->
    exists d', idx_Erase d h = Some (true, d') /\ repr d' (delete h m)
}.

#[export] Instance txdb_index `{LevelDB} : TxIndexDB CTxDB := {|
  idx_Read := ReadTxIndex;
  idx_Update := UpdateTxIndex;
  idx_Erase d h := Erase ser_hash_key d (key_tx, h)
|}.

(** ** Facts *)

Lemma ser_txindex_correct : ser_correct txindex_wf ser_txindex.
Proof.
  apply ser_versioned_correct. eapply (ser_struct_correct_on _ _ _ (fun '(p, v) => pos_wf p /\ vector_wf pos_wf v)).
  - intros [p v] Ht. by split.
  - intros [p v] Ht. done.
  - apply ser_pair_correct; [apply ser_diskpos_correct|]. apply ser_vector_correct; [apply ser_diskpos_correct|lia].
Qed.

Lemma txindex_bytes_short t : txindex_wf t -> len (Serialize ser_txindex SER_DISK CLIENT_VERSION t) < 2 ^ 31.
Proof.
  intros [_ [_ Hv]]. cbn [Serialize ser_txindex ser_versioned ser_struct ser_pair ser_vector].
  assert (Hc : forall l, len (concat (map (Serialize ser_diskpos SER_DISK CLIENT_VERSION) l)) = 12 * len l).
  { induction l as [|p l IH]; [done|]. cbn [map concat]. rewrite len_app, IH, len_cons.
    cbn [Serialize ser_diskpos ser_struct ser_flat]. rewrite !len_app, !len_to_digits. lia. }
  rewrite !len_app, Hc. unfold MAX_SIZE in Hv.
  assert (len (WriteCompactSize (len (vSpent t))) <= 9).
  { unfold WriteCompactSize. repeat case_match; rewrite ?len_cons, ?len_app, ?len_cons, ?len_to_digits, ?len_nil; lia. }
  change (Z.land SER_DISK SER_GETHASH =? 0) with true. cbv iota. cbn [Serialize ser_int ser_diskpos ser_struct ser_flat]. rewrite !len_app, !len_to_digits. lia.
Qed.

Section contents.
Context `{LevelDB_spec}.

(** What the object sees: the database with the batch on top. *)
Definition contents (db : CTxDB) : gmap (list Z) (list Z) := apply_batch (default [] (activeBatch db)) (db_map (pdb db)).

Lemma apply_batch_snoc b o m : apply_batch (b ++ [o]) m = batch_step (apply_batch b m) o.
Proof. unfold apply_batch. by rewrite fold_left_app. Qed.

Lemma ScanBatch_spec b k m : forall found deleted v, ScanBatch b k = (found, deleted, v) ->
  apply_batch b m !! k = (if deleted then None else if found then Some v else m !! k) /\ (deleted = true -> found = true).
Proof.
  unfold ScanBatch, apply_batch. induction b as [|o b IH] using rev_ind; intros found deleted v.
  - intros [= <- <- <-]. done.
  - rewrite !fold_left_app. cbn [fold_left]. destruct (fold_left (scan_op k) b _) as [[f d] w] eqn:E.
    destruct (IH f d w eq_refl) as [IH1 IH2]. clear IH. destruct o as [k' v'|k']; cbn [scan_op batch_step];
      (destruct (bytes_eqb k' k) eqn:Ek; [apply bytes_eqb_eq in Ek as ->|assert (k' <> k) by (intros ->; by rewrite bytes_eqb_refl in Ek)]);
      intros [= <- <- <-]; by rewrite ?lookup_insert_eq, ?lookup_delete_eq, ?lookup_insert_ne, ?lookup_delete_ne.
Qed.

Definition decode {T} (ct : Ser T) (v : list Z) : option (option T) :=
  match fst (Unserialize ct SER_DISK CLIENT_VERSION (Init v SER_DISK CLIENT_VERSION)) with
  | inr x => Some (Some x)
  | inl Throw => Some None
  | inl _ => None
  end.

Lemma Read_spec {K T} (ck : Ser K) (ct : Ser T) db key :
  Read ck ct db key = match contents db !! Serialize ck SER_DISK CLIENT_VERSION key with Some v => decode ct v | None => Some None end.
Proof.
  unfold Read, contents. destruct (activeBatch db) as [b|]; cbn [from_option id].
  - destruct (ScanBatch b _) as [[f d] v] eqn:E. destruct (ScanBatch_spec _ _ (db_map (pdb db)) _ _ _ E) as [-> Hd].
    destruct d; [done|]. destruct f; [done|]. rewrite db_Get_spec. by destruct (_ !! _).
  - unfold apply_batch. cbn [fold_left]. rewrite db_Get_spec. by destruct (_ !! _).
Qed.

Lemma Exists_spec {K} (ck : Ser K) db key : let k := Serialize ck SER_DISK CLIENT_VERSION key in
  Exists ck db key = bool_decide (is_Some (contents db !! k)) || bool_decide (is_Some (db_map (pdb db) !! k)).
Proof.
  intros k. unfold Exists, contents. fold k. rewrite db_Get_spec. destruct (activeBatch db) as [b|]; cbn [from_option id].
  - destruct (ScanBatch b k) as [[f d] v] eqn:E. destruct (ScanBatch_spec _ _ (db_map (pdb db)) _ _ _ E) as [-> Hd].
    destruct d, f; cbn; by destruct (db_map (pdb db) !! k).
  - unfold apply_batch. cbn [fold_left]. by destruct (db_map (pdb db) !! k).
Qed.

Lemma decode_written {T} (wf : T -> Prop) (ct : Ser T) x : ser_correct wf ct -> wf x ->
  len (Serialize ct SER_DISK CLIENT_VERSION x) < 2 ^ 31 -> decode ct (Serialize ct SER_DISK CLIENT_VERSION x) = Some (Some x).
Proof.
  intros Hc Hx Hl. unfold decode. set (s := Init _ _ _).
  destruct (sc_read _ _ Hc SER_DISK CLIENT_VERSION x Hx s []) as (s' & -> & _); [|by rewrite app_nil_r|done].
  unfold stream_ok, s, Init, vsize; cbn [nReadPos vch exceptmask]. unfold len in Hl. split_and!; try (done || lia).
  by apply (sc_bytes _ _ Hc).
Qed.

Lemma Write_batch {K T} (ck : Ser K) (ct : Ser T) db b key x : fReadOnly db = false -> activeBatch db = Some b ->
  exists db', Write ck ct db key x = Some (true, db') /\ fReadOnly db' = false /\ is_Some (activeBatch db') /\ pdb db' = pdb db /\
    contents db' = <[Serialize ck SER_DISK CLIENT_VERSION key := Serialize ct SER_DISK CLIENT_VERSION x]> (contents db).
Proof.
  intros Hr Hb. unfold Write. rewrite Hr, Hb. eexists. split; [done|]. cbn. split_and!; [done|by eexists|done|].
  unfold contents. cbn. rewrite Hb, apply_batch_snoc. done.
Qed.

Lemma Erase_batch {K} (ck : Ser K) db b key : fReadOnly db = false -> activeBatch db = Some b ->
  exists db', Erase ck db key = Some (true, db') /\ fReadOnly db' = false /\ is_Some (activeBatch db') /\ pdb db' = pdb db /\
    contents db' = delete (Serialize ck SER_DISK CLIENT_VERSION key) (contents db).
Proof.
  intros Hr Hb. unfold Erase. rewrite Hr, Hb. eexists. split; [done|]. cbn. split_and!; [done|by eexists|done|].
  unfold contents. cbn. rewrite Hb, apply_batch_snoc. done.
Qed.
End contents.

(** ** Keys of different records never meet *)

Lemma ser_hash_key_correct : ser_correct (fun '(n, h) => bytes_wf n /\ wf 8 h) ser_hash_key.
Proof. apply ser_pair_correct; [apply ser_string_correct|apply ser_uint256_correct]. Qed.

Definition tx_key (h : base_uint) : list Z := Serialize ser_hash_key SER_DISK CLIENT_VERSION (key_tx, h).

Lemma key_tx_wf : bytes_wf key_tx.
Proof. split; [forall_list|done]. Qed.

Lemma tx_key_digits h : wf 8 h -> digits 256 (tx_key h) /\ len (tx_key h) = 35.
Proof.
  intros Hh. split; [apply (sc_bytes _ _ ser_hash_key_correct); split; [apply key_tx_wf|done]|].
  unfold tx_key. cbn [Serialize ser_hash_key ser_pair]. rewrite len_app. cbn [Serialize ser_uint256 ser_struct ser_flat].
  unfold len at 2. rewrite length_bu_bytes, (proj1 Hh). done.
Qed.

Lemma tx_key_inj h h' : wf 8 h -> wf 8 h' -> tx_key h = tx_key h' -> h = h'.
Proof.
  intros Hh Hh' E. destruct (tx_key_digits h Hh) as [_ Hl].
  destruct (ser_inj_app _ _ SER_DISK CLIENT_VERSION (key_tx, h) (key_tx, h') [] [] ser_hash_key_correct) as [E' _];
    [by split; [apply key_tx_wf|]..|constructor| |by rewrite !app_nil_r|by injection E'].
  rewrite app_nil_r. fold (tx_key h). unfold len in Hl. lia.
Qed.

(** A key that starts with another name is the key of no transaction. *)
Lemma tx_key_name name r h : wf 8 h -> bytes_wf name -> name <> key_tx ->
  Serialize ser_string SER_DISK CLIENT_VERSION name ++ r <> tx_key h.
Proof.
  intros Hh Hn Hne E. destruct (tx_key_digits h Hh) as [Hd Hl].
  assert (Hk : tx_key h = Serialize ser_string SER_DISK CLIENT_VERSION key_tx ++ bu_bytes h) by done.
  assert (Hb : digits 256 (bu_bytes h)) by (rewrite Hk in Hd; by apply Forall_app in Hd as [_ Hd]).
  destruct (ser_inj_app _ _ SER_DISK CLIENT_VERSION key_tx name (bu_bytes h) r ser_string_correct key_tx_wf Hn Hb) as [E' _];
    [|by rewrite E, Hk|by rewrite E' in Hne].
  rewrite <- Hk. unfold len in Hl. lia.
Qed.

(** ** [CTxDB] satisfies the interface *)

Section index_contract.
Context `{LevelDB_spec}.

(** The transaction records of [c] are the index [m]. *)
Definition index_of (c : gmap (list Z) (list Z)) (m : gmap base_uint CTxIndex) : Prop :=
  (forall h t, m !! h = Some t -> txindex_wf t) /\
  forall h, wf 8 h -> c !! tx_key h = Serialize ser_txindex SER_DISK CLIENT_VERSION <$> m !! h.

Definition txdb_repr (db : CTxDB) (m : gmap base_uint CTxIndex) : Prop :=
  fReadOnly db = false /\ is_Some (activeBatch db) /\ index_of (contents db) m.

Lemma index_of_insert c m h t : index_of c m -> wf 8 h -> txindex_wf t ->
  index_of (<[tx_key h := Serialize ser_txindex SER_DISK CLIENT_VERSION t]> c) (<[h := t]> m).
Proof.
  intros [Hm Hc] Hh Ht. split.
  - intros h' t' E. apply lookup_insert_Some in E as [[_ <-]|[_ E]]; [done|by eapply Hm].
  - intros h' Hh'. destruct (decide (h' = h)) as [->|Hne]; [by rewrite !lookup_insert_eq|].
    rewrite !lookup_insert_ne; [by apply Hc|done|]. intros E. by apply Hne, tx_key_inj.
Qed.

Lemma index_of_delete c m h : index_of c m -> wf 8 h -> index_of (delete (tx_key h) c) (delete h m).
Proof.
  intros [Hm Hc] Hh. split.
  - intros h' t' E. apply lookup_delete_Some in E as [_ E]. by eapply Hm.
  - intros h' Hh'. destruct (decide (h' = h)) as [->|Hne]; [by rewrite !lookup_delete_eq|].
    rewrite !lookup_delete_ne; [by apply Hc|done|]. intros E. by apply Hne, tx_key_inj.
Qed.

Lemma index_of_other c m k v : index_of c m -> (forall h, wf 8 h -> k <> tx_key h) -> index_of (<[k := v]> c) m.
Proof. intros [Hm Hc] Hk. split; [done|]. intros h Hh. rewrite lookup_insert_ne by (by apply Hk). by apply Hc. Qed.

Lemma ReadTxIndex_spec db m h : index_of (contents db) m -> wf 8 h -> ReadTxIndex db h = Some (m !! h).
Proof.
  intros [Hm Hc] Hh. unfold ReadTxIndex. rewrite Read_spec. fold (tx_key h). rewrite Hc by done.
  destruct (m !! h) as [t|] eqn:E; [|done]. cbn. pose proof (Hm h t E) as Ht.
  by apply (decode_written _ _ _ ser_txindex_correct Ht), txindex_bytes_short.
Qed.

#[export] Instance txdb_index_spec : TxIndexDB_spec txdb_repr.
Proof.
  split; cbn.
  - intros d m h (_ & _ & Hi) Hh. by apply ReadTxIndex_spec.
  - intros d m h t (Hr & [b Hb] & Hi) Hh Ht.
    destruct (Write_batch ser_hash_key ser_txindex d b (key_tx, h) t Hr Hb) as (d' & E & Hr' & Hb' & _ & Ec).
    exists d'. split; [done|]. split_and!; [done..|]. rewrite Ec. by apply index_of_insert.
  - intros d m h (Hr & [b Hb] & Hi) Hh.
    destruct (Erase_batch ser_hash_key d b (key_tx, h) Hr Hb) as (d' & E & Hr' & Hb' & _ & Ec).
    exists d'. split; [done|]. split_and!; [done..|]. rewrite Ec. by apply index_of_delete.
Qed.

(** Records of other kinds do not touch the index. *)
Lemma Write_other {K T} (ck : Ser K) (ct : Ser T) db m key x : txdb_repr db m ->
  (forall h, wf 8 h -> Serialize ck SER_DISK CLIENT_VERSION key <> tx_key h) ->
  exists db', Write ck ct db key x = Some (true, db') /\ txdb_repr db' m.
Proof.
  intros (Hr & [b Hb] & Hi) Hk. destruct (Write_batch ck ct db b key x Hr Hb) as (d' & E & Hr' & Hb' & _ & Ec).
  exists d'. split; [done|]. split_and!; [done..|]. rewrite Ec. by apply index_of_other.
Qed.

Lemma WriteBlockIndex_repr Hash9 now db m d : txdb_repr db m ->
  exists db', WriteBlockIndex Hash9 now db d = Some (true, db') /\ txdb_repr db' m.
Proof.
  intros Hr. unfold WriteBlockIndex. destruct (disk_GetBlockHash Hash9 now d) as [h d']. apply Write_other; [done|].
  intros h' Hh'. cbn [Serialize ser_hash_key ser_pair]. apply tx_key_name; [done| |done]. split; [forall_list|done].
Qed.

Lemma WriteHashBestChain_repr db m h : txdb_repr db m ->
  exists db', WriteHashBestChain db h = Some (true, db') /\ txdb_repr db' m.
Proof.
  intros Hr. apply Write_other; [done|]. intros h' Hh'.
  rewrite <- (app_nil_r (Serialize ser_string _ _ _)). apply tx_key_name; [done| |done]. split; [forall_list|done].
Qed.
End index_contract.

(** ** Transactions on the index *)

Inductive index_op : Type := OpUpdate (h : base_uint) (t : CTxIndex) | OpErase (h : base_uint).

Definition op_wf (o : index_op) : Prop := match o with OpUpdate h t => wf 8 h /\ txindex_wf t | OpErase h => wf 8 h end.
Definition op_spec (m : gmap base_uint CTxIndex) (o : index_op) : gmap base_uint CTxIndex :=
  match o with OpUpdate h t => <[h := t]> m | OpErase h => delete h m end.

(** Runs the operations as long as they answer true. *)
Fixpoint run_ops `{LevelDB} (db : CTxDB) (l : list index_op) : option CTxDB :=
  match l with
  | [] => Some db
  | o :: l =>
      '(ok, db) ← match o with OpUpdate h t => UpdateTxIndex db h t | OpErase h => Erase ser_hash_key db (key_tx, h) end;
      if ok : bool then run_ops db l else None
  end.

Section transactions.
Context `{LevelDB_spec}.

Lemma run_ops_repr l : forall db m, txdb_repr db m -> Forall op_wf l ->
  exists db', run_ops db l = Some db' /\ pdb db' = pdb db /\ txdb_repr db' (fold_left op_spec l m).
Proof.
  induction l as [|o l IH]; intros db m Hr Hw; [by exists db|]. apply Forall_cons in Hw as [Ho Hw].
  assert (exists db', match o with OpUpdate h t => UpdateTxIndex db h t | OpErase h => Erase ser_hash_key db (key_tx, h) end =
    Some (true, db') /\ pdb db' = pdb db /\ txdb_repr db' (op_spec m o)) as (db1 & E1 & Hp1 & Hr1).
  { destruct o as [h t|h]; cbn in Ho |- *.
    - destruct (idx_Update_spec db m h t Hr) as (db' & E & Hr'); [apply Ho..|]. exists db'. cbn in E. split_and!; [done| |done].
      unfold UpdateTxIndex, Write in E. destruct Hr as (_ & [b Hb] & _). rewrite Hb in E. case_match; [done|]. by injection E as <-.
    - destruct (idx_Erase_spec db m h Hr) as (db' & E & Hr'); [done|]. exists db'. cbn in E. split_and!; [done| |done].
      unfold Erase in E. destruct Hr as (_ & [b Hb] & _). rewrite Hb in E. case_match; [done|]. by injection E as <-. }
  destruct (IH db1 _ Hr1 Hw) as (db2 & E2 & Hp2 & Hr2). exists db2. cbn [run_ops fold_left]. rewrite E1. cbn.
  split_and!; [done|congruence|done].
Qed.

Lemma idle_contents db : activeBatch db = None -> contents db = db_map (pdb db).
Proof. unfold contents. by intros ->. Qed.
End transactions.

(** ** Main theorem *)

(** (C25) Database transactions.  Between [TxnBegin] and the end every update and
    erasure of the transaction index succeeds and later reads see it, while
    [ContainsTx] still answers true for what the database held before; after
    [TxnAbort], or a [TxnCommit] that answers false, the index is what it was
    before; after a [TxnCommit] that answers true it is the index with all the
    operations applied, also for objects opened later. *)
Theorem txdb_is_transactional `{LevelDB_spec} db m ops :
  fReadOnly db = false -> activeBatch db = None -> index_of (db_map (pdb db)) m -> Forall op_wf ops ->
  exists db1 db2, TxnBegin db = Some (true, db1) /\ run_ops db1 ops = Some db2 /\
    (forall h, wf 8 h -> ReadTxIndex db2 h = Some (fold_left op_spec ops m !! h) /\
       ContainsTx db2 h = bool_decide (is_Some (fold_left op_spec ops m !! h)) || bool_decide (is_Some (m !! h))) /\
    (forall h, wf 8 h -> ReadTxIndex (TxnAbort db2) h = Some (m !! h)) /\
    exists ok db3, TxnCommit db2 = Some (ok, db3) /\ activeBatch db3 = None /\
      forall fRO h, wf 8 h -> ReadTxIndex (txdb_open (pdb db3) fRO) h = Some ((if ok then fold_left op_spec ops m else m) !! h).
Proof.
  intros Hr Hb Hi Hw. set (db1 := mkTxDB (pdb db) (Some []) (fReadOnly db)).
  assert (Hr1 : txdb_repr db1 m) by (split_and!; [done|by eexists|done]).
  destruct (run_ops_repr ops db1 m Hr1 Hw) as (db2 & E2 & Hp2 & Hr2). pose proof Hr2 as (_ & [b Hb2] & Hi2).
  assert (Hcase : forall h, wf 8 h -> is_Some (contents db2 !! tx_key h) <-> is_Some (fold_left op_spec ops m !! h)).
  { intros h Hh. rewrite (proj2 Hi2) by done. apply fmap_is_Some. }
  assert (Hcase0 : forall h, wf 8 h -> is_Some (db_map (pdb db) !! tx_key h) <-> is_Some (m !! h)).
  { intros h Hh. rewrite (proj2 Hi) by done. apply fmap_is_Some. }
  exists db1, db2. split_and!; [unfold TxnBegin; by rewrite Hb|done| | |].
  - intros h Hh. split; [by apply ReadTxIndex_spec|]. unfold ContainsTx. rewrite Exists_spec. fold (tx_key h). rewrite Hp2. cbn [pdb db1].
    f_equal; apply bool_decide_ext; by auto.
  - intros h Hh. apply ReadTxIndex_spec; [|done]. rewrite idle_contents by done. cbn. by rewrite Hp2.
  - unfold TxnCommit. rewrite Hb2. destruct (db_Write (pdb db2) b) as [status d] eqn:E.
    eexists _, _. split; [done|]. split; [done|]. intros fRO h Hh. apply ReadTxIndex_spec; [|done].
    rewrite idle_contents by done. cbn. pose proof (db_Write_spec (pdb db2) b) as He. unfold effect in He. rewrite E in He. cbn in He.
    unfold contents in Hi2. rewrite Hb2 in Hi2. rewrite He. destruct status; [exact Hi2|by rewrite Hp2..].
Qed.

(** ** An implementation of the specification and an example *)

Definition LevelDB_map : LevelDB := {|
  DB := gmap (list Z) (list Z);
  db_Get d k := match d !! k with Some v => OK v | None => NotFound end;
  db_Put d k v := (OK tt, <[k := v]> d);
  db_Delete d k := (OK tt, delete k d);
  db_Write d b := (OK tt, apply_batch b d)
|}.

Definition LevelDB_map_spec : @LevelDB_spec LevelDB_map.
Proof. exists (fun d => d); done. Defined.

Definition example_txindex : CTxIndex := mkTxIndex (mkDiskTxPos 1 8 90) [pos_null].

Lemma txdb_is_transactional_witness :
  exists db1 db2, @TxnBegin LevelDB_map (@txdb_open LevelDB_map ∅ false) = Some (true, db1) /\
    run_ops db1 [OpUpdate (bu_zero 8) example_txindex] = Some db2 /\
    ReadTxIndex db2 (bu_zero 8) = Some (Some example_txindex) /\
    ReadTxIndex (TxnAbort db2) (bu_zero 8) = Some None.
Proof.
  assert (Hz : wf 8 (bu_zero 8)) by (split; [done|forall_list]).
  destruct (@txdb_is_transactional LevelDB_map LevelDB_map_spec (@txdb_open LevelDB_map ∅ false) ∅
    [OpUpdate (bu_zero 8) example_txindex]) as (db1 & db2 & E1 & E2 & Hr & Ha & _).
  - reflexivity.
  - reflexivity.
  - split; [intros h t E; discriminate E|]. intros h Hh. reflexivity.
  - forall_list. split; [exact Hz|]. split; [split_and!; split; by vm_compute|]. split; [|by vm_compute].
    forall_list. split_and!; split; by vm_compute.
  - exists db1, db2. split_and!; [exact E1|exact E2|exact (proj1 (Hr _ Hz))|exact (Ha _ Hz)].
Defined.
