(* ===== verification/Target.v ===== *)
(** * main.cpp: difficulty, proof of work and rewards

    Targets are numbers of 256 bits in compact form.  The limits are globals
    that the test network replaces at start-up, so they are parameters; the
    block index is the one of [Index]. *)
From Stdlib Require Import ZArith Lia Bool.
From stdpp Require Import prelude gmap.
From S2P Require Import Prelude Uint256 DataStream Serialize Crypto Bignum Tx Block Index.

(** ** Rewards *)

Definition MAX_CLOAK_PROOF_OF_STAKE : Z := 60000.

Definition GetProofOfWorkReward (nHeight nFees : Z) : Z :=
  let nSubsidy := if nHeight <=? 50 then 1 * COIN else 496 * COIN in
  nSubsidy + nFees.

(** Signed 64-bit arithmetic; [None] is the overflow of the product. *)
Definition GetProofOfStakeReward (nCoinAge : Z) : option Z :=
  let product := nCoinAge * MAX_CLOAK_PROOF_OF_STAKE in
  if (- 2 ^ 63 <=? product) && (product <? 2 ^ 63) then Some (Z.quot product 365) else None.

(** ** Targets *)

Definition nStakeTargetSpacing : Z := 60.
Definition nTargetTimespan : Z := 60 * 30.
Definition nTargetSpacingWorkMax : Z := 3 * nStakeTargetSpacing.

Section bignum.
Context `{BN}.

(** [while (nTime > 0 && bnResult.getuint256() < bnTargetLimit)]; a day per turn. *)
Fixpoint maxbits_loop (fuel : nat) (bnTargetLimit : base_uint) (bnResult nTime : Z) : Z :=
  match fuel with
  | O => bnResult
  | S fuel =>
      if (0 <? nTime) && bu_lt (getuint256 bnResult) bnTargetLimit
      then maxbits_loop fuel bnTargetLimit (BN_mul bnResult (CBigNum_int 2)) (nTime - 24 * 60 * 60)
      else bnResult
  end.

Definition ComputeMaxBits (bnTargetLimit : base_uint) (nBase nTime : Z) : Z :=
  let bnResult := BN_mul (bn_SetCompact nBase) (CBigNum_int 2) in
  let bnResult := maxbits_loop (Z.to_nat ((nTime + 86399) / 86400)) bnTargetLimit bnResult nTime in
  let bnResult := if bu_gt (getuint256 bnResult) bnTargetLimit then setuint256 bnTargetLimit else bnResult in
  bn_GetCompact bnResult.

Context (bnProofOfWorkLimit bnProofOfStakeLimit : base_uint).

Definition ComputeMinWork (nBase nTime : Z) : Z := ComputeMaxBits bnProofOfWorkLimit nBase nTime.
Definition ComputeMinStake (nBase nTime nBlockTime : Z) : Z := ComputeMaxBits bnProofOfStakeLimit nBase nTime.

(** The corrections of [nActualSpacing]. *)
Definition clamp_spacing (nActualSpacing : Z) : Z :=
  if nActualSpacing <? 0 then 1
  else if nTargetTimespan <? nActualSpacing then nTargetTimespan
  else nActualSpacing.

Definition target_spacing (fProofOfStake : bool) (heightLast heightPrev : Z) : Z :=
  if fProofOfStake then nStakeTargetSpacing
  else Z.min nTargetSpacingWorkMax (nStakeTargetSpacing * (1 + heightLast - heightPrev)).

(** [None]: a null pointer followed, a division by zero, or a failed assertion. *)
Definition GetNextTargetRequired (st : index_state) (pindexLast : option ptr) (fProofOfStake : bool) : option Z :=
  let bnTargetLimit := if fProofOfStake then bnProofOfStakeLimit else bnProofOfWorkLimit in
  match pindexLast with
  | None => GetCompact bnTargetLimit false
  | Some last =>
      ilast ← deref st last;
      pindexPrev ← GetLastBlockIndex st (Some last) fProofOfStake ≫= id;
      iprev ← deref st pindexPrev;
      match pprev iprev with
      | None => GetCompact bnTargetLimit false
      | Some q =>
          pindexPrevPrev ← GetLastBlockIndex st (Some q) fProofOfStake ≫= id;
          iprevprev ← deref st pindexPrevPrev;
          match pprev iprevprev with
          | None => GetCompact bnTargetLimit false
          | Some _ =>
              let nActualSpacing := clamp_spacing (index_GetBlockTime iprev - index_GetBlockTime iprevprev) in
              let nTargetSpacing := target_spacing fProofOfStake (nHeight ilast) (nHeight iprev) in
              let nInterval := Z.quot nTargetTimespan nTargetSpacing in
              let bnNew := BN_mul (bn_SetCompact (i_nBits iprev))
                (setint64 ((nInterval - 1) * nTargetSpacing + nActualSpacing + nActualSpacing)) in
              bnNew ← bn_div bnNew (setint64 ((nInterval + 1) * nTargetSpacing));
              let bnNew := if bu_gt (getuint256 bnNew) bnTargetLimit then setuint256 bnTargetLimit else bnNew in
              Some (bn_GetCompact bnNew)
          end
      end
  end.

Definition CheckProofOfWork (hash : base_uint) (nBits : Z) : bool :=
  let '(bnTarget, fNegative, fOverflow) := SetCompact nBits in
  if fNegative || bu_eq64 bnTarget 0 || fOverflow || bu_gt bnTarget bnProofOfWorkLimit then false
  else negb (bu_gt hash bnTarget).
End bignum.

(** ** Compact targets *)

Section targets.
Context `{BNS : BN_spec}.

(** A number in compact form loses less than one part in 2^15. *)
Lemma compact_code z : 0 <= z < 2 ^ 256 ->
  let c := bn_GetCompact z in
  fits 32 c /\ Z.testbit c 23 = false /\ 0 <= target_of c <= z /\ (z - target_of c) * 2 ^ 15 <= z /\ (0 < z -> 0 < target_of c).
Proof.
  intros Hz. cbn zeta. destruct (compact_parts z) as [m s] eqn:Hp.
  rewrite (bn_GetCompact_value z m s Hz Hp). destruct (compact_parts_bound _ _ _ Hz Hp) as [Hm Hs].
  destruct (compact_fields m s Hm ltac:(lia)) as (E1 & E2 & E3). destruct (compact_round _ _ _ Hz Hp) as (k & Hk & Hx & Htop & _).
  assert (Ht : target_of (m + s * 2 ^ 24) = z / 2 ^ (8 * k) * 2 ^ (8 * k)) by (unfold target_of; by rewrite E1, E2).
  assert (Hb : Z.testbit (m + s * 2 ^ 24) 23 = false).
  { change 0x00800000 with (2 ^ 23) in E3. pose proof (land_pow2 (m + s * 2 ^ 24) 23 ltac:(lia)) as Hl.
    by rewrite E3 in Hl. }
  rewrite Ht. pose proof (Z.pow_pos_nonneg 2 (8 * k) ltac:(lia) ltac:(lia)).
  pose proof (Z.div_mod z (2 ^ (8 * k)) ltac:(lia)). pose proof (Z.mod_pos_bound z (2 ^ (8 * k)) ltac:(lia)).
  assert (0 <= z / 2 ^ (8 * k)) by (apply Z.div_pos; lia).
  split_and!; [unfold fits; lia|done|nia|nia| |].
  - destruct (Z.eq_dec k 0) as [->|]; [change (2 ^ (8 * 0)) with 1 in *; lia|]. specialize (Htop ltac:(lia)). nia.
  - intros Hpos. destruct (Z.eq_dec k 0) as [->|]; [change (2 ^ (8 * 0)) with 1 in *; lia|]. specialize (Htop ltac:(lia)). nia.
Qed.

Lemma GetCompact_code a : wf 8 a -> GetCompact a false = Some (bn_GetCompact (val a)).
Proof.
  intros Ha. pose proof (val_bound 8 a Ha) as Hv. change (BITS 8) with 256 in Hv.
  destruct (compact_parts (val a)) as [m s] eqn:Hp. rewrite (GetCompact_false a m s Ha Hp). f_equal.
  symmetry. by apply bn_GetCompact_value.
Qed.

(** The last step of both computations: at most the limit. *)
Lemma limit_code limit z : wf 8 limit -> 0 <= z < 2 ^ 256 ->
  (if bu_gt (getuint256 z) limit then setuint256 limit else z) = Z.min (val limit) z.
Proof.
  intros Hl Hz. destruct (getuint256_value z) as [Hw Hv]. rewrite Z.abs_eq, Z.mod_small in Hv by lia.
  destruct (bu_cmp_spec 8 _ limit Hw Hl) as (_ & _ & -> & _). rewrite Hv, setuint256_value by done.
  destruct (Z.ltb_spec (val limit) z); lia.
Qed.

Lemma bn_SetCompact_positive c : fits 32 c -> Z.testbit c 23 = false -> bn_SetCompact c = target_of c.
Proof. intros Hc Hb. rewrite bn_SetCompact_value by done. by rewrite Hb. Qed.

(** ** [ComputeMaxBits] *)

Lemma maxbits_loop_spec limit fuel r t : wf 8 limit -> val limit < 2 ^ 255 -> 0 < r < 2 ^ 256 ->
  (Z.to_nat ((t + 86399) / 86400) <= fuel)%nat ->
  0 < maxbits_loop fuel limit r t < 2 ^ 256 /\
  Z.min (val limit) (maxbits_loop fuel limit r t) = Z.min (val limit) (r * 2 ^ Z.max 0 ((t + 86399) / 86400)).
Proof.
  intros Hl Hlim. revert r t. induction fuel as [|fuel IH]; intros r t Hr Hf; cbn [maxbits_loop].
  { split; [done|]. rewrite Z.max_l by lia. by rewrite Z.mul_1_r. }
  destruct (Z.ltb_spec 0 t) as [Ht|Ht]; cbn [andb].
  2:{ split; [done|]. rewrite Z.max_l; [by rewrite Z.mul_1_r|].
      assert ((t + 86399) / 86400 < 1) by (apply Z.div_lt_upper_bound; lia). lia. }
  destruct (getuint256_value r) as [Hw Hv]. rewrite Z.abs_eq, Z.mod_small in Hv by lia.
  destruct (bu_cmp_spec 8 _ limit Hw Hl) as (-> & _). rewrite Hv.
  assert (Hdays : (t + 86399) / 86400 = (t - 24 * 60 * 60 + 86399) / 86400 + 1).
  { replace (t + 86399) with (t - 24 * 60 * 60 + 86399 + 1 * 86400) by lia. by rewrite Z.div_add by lia. }
  assert (0 <= (t - 24 * 60 * 60 + 86399) / 86400) by (apply Z.div_pos; lia).
  pose proof (Z.pow_pos_nonneg 2 ((t - 24 * 60 * 60 + 86399) / 86400) ltac:(lia) ltac:(lia)).
  destruct (Z.ltb_spec r (val limit)) as [Hrl|Hrl].
  - rewrite BN_mul_spec, CBigNum_int_value by (unfold sfits; lia).
    destruct (IH (r * 2) (t - 24 * 60 * 60)) as [Hi1 Hi2]; [lia|lia|]. split; [done|]. rewrite Hi2, Hdays, !Z.max_r by lia.
    rewrite Z.pow_add_r by lia. f_equal. lia.
  - split; [done|]. rewrite Hdays, Z.max_r, Z.pow_add_r by lia. rewrite !Z.min_l by nia. done.
Qed.

Lemma ComputeMaxBits_value limit nBase nTime : wf 8 limit -> val limit < 2 ^ 255 -> fits 32 nBase ->
  Z.testbit nBase 23 = false -> 0 < target_of nBase <= val limit ->
  ComputeMaxBits limit nBase nTime =
  bn_GetCompact (Z.min (val limit) (2 * target_of nBase * 2 ^ Z.max 0 ((nTime + 86399) / 86400))).
Proof.
  intros Hl Hlim Hc Hs Ht. unfold ComputeMaxBits. rewrite bn_SetCompact_positive by done.
  rewrite BN_mul_spec, CBigNum_int_value by (unfold sfits; lia).
  destruct (maxbits_loop_spec limit (Z.to_nat ((nTime + 86399) / 86400)) (target_of nBase * 2) nTime Hl Hlim) as [H1 H2]; [lia|lia|].
  rewrite limit_code by (done || lia). rewrite H2. do 2 f_equal. lia.
Qed.
End targets.

(** ** Retargeting *)

Lemma clamp_spacing_range a : 0 <= clamp_spacing a <= 1800.
Proof. unfold clamp_spacing, nTargetTimespan. repeat case_match; lia. Qed.

(** The spacing is one, two or three times that of stake blocks. *)
Lemma target_spacing_cases b hl hp : hp <= hl ->
  target_spacing b hl hp = 60 \/ (b = false /\ (target_spacing b hl hp = 120 \/ target_spacing b hl hp = 180)).
Proof.
  intros Hh. unfold target_spacing, nTargetSpacingWorkMax, nStakeTargetSpacing. destruct b; [by left|].
  destruct (Z.eq_dec hl hp) as [->|]; [left; lia|]. destruct (Z.eq_dec hl (hp + 1)) as [->|]; right; (split; [done|]); [left|right]; lia.
Qed.

(** The numerator and the denominator of the adjustment. *)
Definition retarget_num (spacing a : Z) : Z := (Z.quot nTargetTimespan spacing - 1) * spacing + a + a.
Definition retarget_den (spacing : Z) : Z := (Z.quot nTargetTimespan spacing + 1) * spacing.

Lemma retarget_bounds b hl hp a t : hp <= hl -> 0 <= a <= 1800 -> 0 <= t ->
  let s := target_spacing b hl hp in
  0 <= retarget_num s a < 2 ^ 63 /\ 0 < retarget_den s < 2 ^ 63 /\
  9 * t <= 11 * (t * retarget_num s a / retarget_den s + 1) /\ t * retarget_num s a / retarget_den s <= 3 * t.
Proof.
  intros Hh Ha Ht s.
  assert (Hs : (retarget_num s a = 1740 + 2 * a /\ retarget_den s = 1860) \/
    (retarget_num s a = 1680 + 2 * a /\ retarget_den s = 1920) \/ (retarget_num s a = 1620 + 2 * a /\ retarget_den s = 1980)).
  { unfold s, retarget_num, retarget_den, nTargetTimespan.
    assert (Hq : Z.quot (60 * 30) 60 = 30 /\ Z.quot (60 * 30) 120 = 15 /\ Z.quot (60 * 30) 180 = 10) by done.
    destruct Hq as (Q1 & Q2 & Q3).
    destruct (target_spacing_cases b hl hp Hh) as [-> | (_ & [-> | ->])]; rewrite ?Q1, ?Q2, ?Q3; lia. }
  destruct Hs as [[-> ->]|[[-> ->]|[-> ->]]]; (split; [lia|]); (split; [lia|]);
    match goal with |- context [?x / ?d] => pose proof (Z.div_mod x d ltac:(lia)); pose proof (Z.mod_pos_bound x d ltac:(lia)) end; nia.
Qed.

Section retarget.
Context `{BNS : BN_spec} (powLimit posLimit : base_uint) (st : index_state).

Definition limit_of (b : bool) : base_uint := if b then posLimit else powLimit.

(** [last] is followed by [prev] and [prevprev] of its kind, neither of them the
    first block. *)
Definition retargets (b : bool) (last : ptr) (ilast iprev iprevprev : CBlockIndex) : Prop :=
  exists prev q prevprev, deref st last = Some ilast /\
    GetLastBlockIndex st (Some last) b = Some (Some prev) /\ deref st prev = Some iprev /\ pprev iprev = Some q /\
    GetLastBlockIndex st (Some q) b = Some (Some prevprev) /\ deref st prevprev = Some iprevprev /\ pprev iprevprev <> None.

Definition next_target (b : bool) (ilast iprev iprevprev : CBlockIndex) : Z :=
  let s := target_spacing b (nHeight ilast) (nHeight iprev) in
  target_of (i_nBits iprev) * retarget_num s (clamp_spacing (i_nTime iprev - i_nTime iprevprev)) / retarget_den s.

Lemma retarget_value b last ilast iprev iprevprev : retargets b last ilast iprev iprevprev ->
  wf 8 (limit_of b) -> val (limit_of b) < 2 ^ 254 -> nHeight iprev <= nHeight ilast ->
  fits 32 (i_nBits iprev) -> Z.testbit (i_nBits iprev) 23 = false -> target_of (i_nBits iprev) <= val (limit_of b) ->
  GetNextTargetRequired powLimit posLimit st (Some last) b =
  Some (bn_GetCompact (Z.min (val (limit_of b)) (next_target b ilast iprev iprevprev))).
Proof.
  intros (prev & q & pp & H1 & H2 & H3 & H4 & H5 & H6 & H7) Hl Hlim Hh Hc Hs Ht.
  unfold GetNextTargetRequired. rewrite H1, H2. cbn [mbind option_bind id]. rewrite H3. cbn [mbind option_bind].
  rewrite H4, H5. cbn [mbind option_bind id]. rewrite H6. cbn [mbind option_bind]. destruct (pprev iprevprev); [|done].
  unfold index_GetBlockTime. set (a := clamp_spacing _). set (s := target_spacing _ _ _).
  pose proof (target_nonneg (i_nBits iprev)) as Ht0. pose proof (clamp_spacing_range (i_nTime iprev - i_nTime iprevprev)) as Ha.
  destruct (retarget_bounds b (nHeight ilast) (nHeight iprev) a (target_of (i_nBits iprev)) Hh Ha Ht0) as (Hn & Hd & _ & Hup).
  fold s in Hn, Hd, Hup. fold (retarget_num s a) (retarget_den s).
  rewrite BN_mul_spec, bn_SetCompact_positive, !setint64_value by (done || unfold sfits; lia).
  unfold bn_div. rewrite BN_div_spec, (proj2 (Z.eqb_neq _ _)) by lia. cbn [fmap option_fmap option_map fst mbind option_bind].
  rewrite Z.quot_div_nonneg by nia. fold (limit_of b).
  rewrite limit_code; [done|done|]. split; [apply Z.div_pos; nia|].
  change (2 ^ 256) with (4 * 2 ^ 254). set (m := 2 ^ 254) in *. unfold next_target in *. lia.
Qed.
End retarget.

Lemma CheckProofOfWork_spec limit hash nBits : wf 8 limit -> wf 8 hash -> fits 32 nBits ->
  CheckProofOfWork limit hash nBits = true <->
  Z.testbit nBits 23 = false /\ 0 < target_of nBits <= val limit /\ val hash <= target_of nBits.
Proof.
  intros Hl Hh Hc. unfold CheckProofOfWork.
  destruct (SetCompact_value _ Hc) as (r & E & Hw & Hv). rewrite E. fold (target_of nBits) in Hv |- *.
  change 0x00800000 with (2 ^ 23). rewrite land_pow2, bu_eq64_zero by (done || lia).
  destruct (bu_cmp_spec 8 r limit Hw Hl) as (_ & _ & -> & _), (bu_cmp_spec 8 hash r Hh Hw) as (_ & _ & -> & _).
  pose proof (target_nonneg nBits). pose proof (val_bound 8 limit Hl). change (BITS 8) with 256 in *.
  set (t := target_of nBits) in *. clearbody t.
  destruct (Z.leb_spec (2 ^ 256) t); [rewrite orb_true_r; cbn [orb]; split; [done|lia]|].
  rewrite (wrap_id 256) in Hv by (unfold fits; lia). rewrite Hv.
  destruct (Z.eqb_spec t 0), (Z.testbit nBits 23), (Z.ltb_spec (val limit) t), (Z.ltb_spec t (val hash)); cbn; split; intros; (done || lia || naive_solver lia).
Qed.

(** ** Main theorems *)

(** [CheckProofOfWork] accepts exactly when the bits encode a positive target
    within the limit (neither negative nor overflowing) and the hash, as a
    number, does not exceed it. *)
Theorem proof_of_work_check limit hash nBits : wf 8 limit -> wf 8 hash -> fits 32 nBits ->
  CheckProofOfWork limit hash nBits = true <->
  Z.testbit nBits 23 = false /\ 0 < target_of nBits <= val limit /\ val hash <= target_of nBits.
Proof. apply CheckProofOfWork_spec. Qed.

Definition example_limit : base_uint := bu_shr (bu_compl (bu_zero 8)) 20.

Lemma example_limit_wf : wf 8 example_limit.
Proof. destruct (bu_compl_spec 8 (bu_zero 8) (wf_zero 8)) as [Hc _]. by apply (bu_shr_spec 8). Qed.

Lemma proof_of_work_check_witness : CheckProofOfWork example_limit (bu_zero 8) 0x1e0fffff = true.
Proof.
  apply proof_of_work_check.
  - exact example_limit_wf.
  - apply wf_zero.
  - split; lia.
  - split; [reflexivity|]. split; [split|]; vm_compute; (reflexivity || discriminate).
Defined.

(** (C34) Retargeting.  With [prev] and [prevprev] the last two blocks of a kind,
    the next target is the previous one times the ratio of the smoothed spacing,
    capped at the limit, in compact form.  No intermediate value is truncated to
    256 bits; the target moves down to at most 9/11 and up to less than three
    times its value per block; and the bits returned pass the range check of
    [CheckProofOfWork]: positive, not negative, and within the limit. *)
Theorem retarget_is_bounded `{BNS : BN_spec} powLimit posLimit st b last ilast iprev iprevprev :
  retargets st b last ilast iprev iprevprev ->
  let limit := val (limit_of powLimit posLimit b) in
  let t := target_of (i_nBits iprev) in
  let t' := next_target b ilast iprev iprevprev in
  wf 8 (limit_of powLimit posLimit b) -> 0 < limit < 2 ^ 254 -> nHeight iprev <= nHeight ilast ->
  fits 32 (i_nBits iprev) -> Z.testbit (i_nBits iprev) 23 = false -> 2 <= t <= limit ->
  exists c, GetNextTargetRequired powLimit posLimit st (Some last) b = Some c /\
    c = bn_GetCompact (Z.min limit t') /\ 9 * t <= 11 * (t' + 1) /\ t' <= 3 * t /\
    fits 32 c /\ Z.testbit c 23 = false /\ 0 < target_of c <= limit /\
    (Z.min limit t' - target_of c) * 2 ^ 15 <= Z.min limit t'.
Proof.
  intros Hr limit t t' Hl Hlim Hh Hc Hs Ht. eexists.
  split; [apply (retarget_value powLimit posLimit st b last ilast iprev iprevprev); (done || lia)|]. split; [done|].
  pose proof (retarget_bounds b (nHeight ilast) (nHeight iprev) _ t Hh
    (clamp_spacing_range (i_nTime iprev - i_nTime iprevprev)) ltac:(lia)) as (_ & _ & Hlow & Hup).
  change (9 * t <= 11 * (t' + 1)) in Hlow. change (t' <= 3 * t) in Hup.
  assert (0 < Z.min limit t' < 2 ^ 256) as Hm.
  { change (2 ^ 256) with (4 * 2 ^ 254). set (m := 2 ^ 254) in *. clearbody limit t t'. lia. }
  destruct (compact_code (Z.min limit t') (conj (Z.lt_le_incl _ _ (proj1 Hm)) (proj2 Hm))) as (H1 & H2 & H3 & H4 & H5).
  split_and!; [done|done|done|done|apply H5, Hm|etransitivity; [apply H3|apply Z.le_min_l]|done].
Qed.

(** A chain of four proof-of-work blocks, one a minute. *)
Definition example_work (h : base_uint) (prev next : option ptr) (height : Z) : CBlockIndex :=
  mkIndex (Some h) prev next 0 0 (bu_zero 8) height 0 0 0 0 0 out_null 0 (bu_zero 8) 6 (bu_zero 8) (1000 + 60 * height) 0x1d00ffff 0.

Definition example_chain : index_state :=
  mkIndexState
    (<[0 := example_work [0] None (Some 1) 0]> (<[1 := example_work [1] (Some 0) (Some 2) 1]>
       (<[2 := example_work [2] (Some 1) None 2]> ∅)))
    (<[[0] := 0]> (<[[1] := 1]> (<[[2] := 2]> ∅))) (Some 2) (Some 0).

Lemma retarget_is_bounded_witness :
  exists c, @GetNextTargetRequired BN_Z example_limit example_limit example_chain (Some 2) false = Some c /\
    0 < target_of c <= val example_limit.
Proof.
  destruct (@retarget_is_bounded BN_Z BN_Z_spec example_limit example_limit example_chain false 2
    (example_work [2] (Some 1) None 2) (example_work [2] (Some 1) None 2) (example_work [1] (Some 0) (Some 2) 1))
    as (c & E & _ & _ & _ & _ & _ & H & _).
  - exists 2, 1, 1. repeat (split; [reflexivity|]). discriminate.
  - exact example_limit_wf.
  - split; vm_compute; reflexivity.
  - vm_compute. discriminate.
  - split; vm_compute; (reflexivity || discriminate).
  - reflexivity.
  - split; vm_compute; discriminate.
  - exists c. split; [exact E|exact H].
Defined.

(** The bound for blocks before a checkpoint: after [nTime] seconds the
    easiest target allowed is twice the base target, doubled again for every day
    begun, and never beyond the limit. *)
Theorem max_bits_doubles_per_day `{BNS : BN_spec} limit nBase nTime :
  wf 8 limit -> val limit < 2 ^ 255 -> fits 32 nBase -> Z.testbit nBase 23 = false -> 0 < target_of nBase <= val limit ->
  ComputeMaxBits limit nBase nTime =
    bn_GetCompact (Z.min (val limit) (2 * target_of nBase * 2 ^ Z.max 0 ((nTime + 86399) / 86400))) /\
  0 < target_of (ComputeMaxBits limit nBase nTime) <= val limit /\
  (forall nTime', nTime <= nTime' -> Z.min (val limit) (2 * target_of nBase * 2 ^ Z.max 0 ((nTime + 86399) / 86400)) <=
     Z.min (val limit) (2 * target_of nBase * 2 ^ Z.max 0 ((nTime' + 86399) / 86400))).
Proof.
  intros Hl Hlim Hc Hs Ht. assert (E := ComputeMaxBits_value limit nBase nTime Hl Hlim Hc Hs Ht). split; [done|].
  assert (Hpow : forall n, 1 <= 2 ^ Z.max 0 n) by (intros n; pose proof (Z.pow_pos_nonneg 2 (Z.max 0 n)); lia).
  split.
  - rewrite E. pose proof (Hpow ((nTime + 86399) / 86400)).
    destruct (compact_code (Z.min (val limit) (2 * target_of nBase * 2 ^ Z.max 0 ((nTime + 86399) / 86400))))
      as (_ & _ & H3 & _ & H5); [nia|]. split; [apply H5; nia|lia].
  - intros nTime' Hle. pose proof (Z.div_le_mono (nTime + 86399) (nTime' + 86399) 86400 ltac:(lia) ltac:(lia)).
    pose proof (Z.pow_le_mono_r 2 (Z.max 0 ((nTime + 86399) / 86400)) (Z.max 0 ((nTime' + 86399) / 86400)) ltac:(lia) ltac:(lia)).
    apply Z.min_le_compat_l. nia.
Qed.

Lemma max_bits_doubles_per_day_witness :
  0 < target_of (@ComputeMaxBits BN_Z example_limit 0x1d00ffff 100000) <= val example_limit.
Proof.
  apply (@max_bits_doubles_per_day BN_Z BN_Z_spec example_limit 0x1d00ffff 100000).
  - exact example_limit_wf.
  - vm_compute. reflexivity.
  - split; vm_compute; (reflexivity || discriminate).
  - reflexivity.
  - split; vm_compute; (reflexivity || discriminate).
Defined.
