(* ===== verification/Keys.v ===== *)
(** * key.cpp: elliptic-curve keys

    The curve and its signatures are OpenSSL's: the class [EC] holds the
    functions that key.cpp calls and [EC_spec] what their manual pages say of
    secp256k1.  [CKey] wraps an [EC_KEY] and two flags; a call that throws
    [key_error] gives [None].  The compact signatures and the key recovery
    they need are not modelled. *)
From Stdlib Require Import ZArith Lia Bool.
From stdpp Require Import prelude.
From S2P Require Import Prelude Uint256 DataStream Serialize Crypto Bignum.

Class EC : Type := {
  EC_KEY : Type;
  EC_POINT : Type;
  EC_RAND : Type;
  (** The order of the generator. *)
  EC_order : Z;
  (** EC_KEY_new_by_curve_name(NID_secp256k1) *)
  EC_KEY_new : EC_KEY;
  (** EC_KEY_set_conv_form(k, POINT_CONVERSION_COMPRESSED) *)
  EC_KEY_set_compressed : EC_KEY -> EC_KEY;
  (** EC_POINT_mul(3): a multiple of the generator. *)
  EC_POINT_mul : Z -> option EC_POINT;
  EC_KEY_set_private_key : EC_KEY -> Z -> EC_KEY;
  EC_KEY_set_public_key : EC_KEY -> EC_POINT -> EC_KEY;
  EC_KEY_get0_private_key : EC_KEY -> option Z;
  EC_KEY_check_key : EC_KEY -> bool;
  EC_KEY_generate_key : EC_RAND -> EC_KEY -> option EC_KEY * EC_RAND;
  (** No bytes when the call returns 0. *)
  i2o_ECPublicKey : EC_KEY -> list Z;
  i2d_ECPrivateKey : EC_KEY -> list Z;
  (** [None] when the bytes are not a key; the first argument is written to. *)
  o2i_ECPublicKey : EC_KEY -> list Z -> option EC_KEY;
  d2i_ECPrivateKey : EC_KEY -> list Z -> option EC_KEY;
  (** d2i_ECDSA_SIG(3) then i2d_ECDSA_SIG(3): [None] when the length is not positive. *)
  renormalize_der : list Z -> option (list Z);
  (** ECDSA_sign(3) draws a nonce. *)
  ECDSA_sign : EC_RAND -> list Z -> EC_KEY -> option (list Z) * EC_RAND;
  (** ECDSA_verify(3): 1 for a good signature, 0 or -1 otherwise. *)
  ECDSA_verify : list Z -> list Z -> EC_KEY -> Z
}.

(** ** [CKey] *)

Section keys.
Context `{EC}.

Record CKey : Type := mkKey { pkey : EC_KEY; fSet : bool; fCompressedPubKey : bool }.

Definition EC_KEY_regenerate_key (eckey : EC_KEY) (priv_key : Z) : option EC_KEY :=
  match EC_POINT_mul priv_key with
  | None => None
  | Some pub_key => Some (EC_KEY_set_public_key (EC_KEY_set_private_key eckey priv_key) pub_key)
  end.

Definition SetCompressedPubKey (k : CKey) : CKey := mkKey (EC_KEY_set_compressed (pkey k)) (fSet k) true.

(** [Reset()], and with it the constructor. *)
Definition key_Reset : CKey := mkKey EC_KEY_new false false.

(** The copy constructor leaves [fCompressedPubKey] as the memory was; the
    assignment leaves it as it is in the object assigned to. *)
Definition key_copy (fMemory : bool) (b : CKey) : CKey := mkKey (pkey b) (fSet b) fMemory.
Definition key_assign (this b : CKey) : CKey := mkKey (pkey b) (fSet b) (fCompressedPubKey this).

Definition key_IsNull (k : CKey) : bool := negb (fSet k).
Definition key_IsCompressed (k : CKey) : bool := fCompressedPubKey k.

Definition MakeNewKey (r : EC_RAND) (k : CKey) (fCompressed : bool) : option CKey * EC_RAND :=
  let '(p, r) := EC_KEY_generate_key r (pkey k) in
  match p with
  | None => (None, r)
  | Some p =>
      let k := mkKey p (fSet k) (fCompressedPubKey k) in
      let k := if fCompressed then SetCompressedPubKey k else k in
      (Some (mkKey (pkey k) true (fCompressedPubKey k)), r)
  end.

Definition SetPrivKey (k : CKey) (vchPrivKey : list Z) : bool * CKey :=
  match d2i_ECPrivateKey (pkey k) vchPrivKey with
  | Some p => if EC_KEY_check_key p then (true, mkKey p true (fCompressedPubKey k)) else (false, key_Reset)
  | None => (false, key_Reset)
  end.

Definition key_SetSecret (k : CKey) (vchSecret : list Z) (fCompressed : bool) : option CKey :=
  if negb (len vchSecret =? 32) then None
  else
    match EC_KEY_regenerate_key EC_KEY_new (of_be vchSecret) with
    | None => None
    | Some p =>
        let k := mkKey p true (fCompressedPubKey k) in
        Some (if fCompressed || fCompressedPubKey k then SetCompressedPubKey k else k)
    end.

(** [None] also for a key without a secret, or with one that does not fit. *)
Definition key_GetSecret (k : CKey) : option (list Z * bool) :=
  match EC_KEY_get0_private_key (pkey k) with
  | None => None
  | Some bn =>
      if 32 <? len (be_bytes bn) then None
      else Some (replicate (32 - length (be_bytes bn)) 0 ++ be_bytes bn, fCompressedPubKey k)
  end.

Definition GetPrivKey (k : CKey) : option (list Z) :=
  match i2d_ECPrivateKey (pkey k) with
  | [] => None
  | vchPrivKey => Some vchPrivKey
  end.

Definition key_SetPubKey (this : CKey) (k : CPubKey) : bool * CKey :=
  match o2i_ECPublicKey (pkey this) (vchPubKey k) with
  | Some p =>
      let this := mkKey p true (fCompressedPubKey this) in
      (true, if len (vchPubKey k) =? 33 then SetCompressedPubKey this else this)
  | None => (false, key_Reset)
  end.

Definition key_GetPubKey (k : CKey) : option CPubKey :=
  match i2o_ECPublicKey (pkey k) with
  | [] => None
  | v => Some (mkPubKey v)
  end.

Definition key_Sign (r : EC_RAND) (k : CKey) (hash : base_uint) : option (list Z) * EC_RAND :=
  ECDSA_sign r (bu_bytes hash) (pkey k).

Definition key_Verify (k : CKey) (hash : base_uint) (vchSig : list Z) : bool :=
  match vchSig with
  | [] => false
  | _ => match renormalize_der vchSig with
         | None => false
         | Some norm_der => ECDSA_verify (bu_bytes hash) norm_der (pkey k) =? 1
         end
  end.

Definition key_IsValid (k : CKey) : option bool :=
  if negb (fSet k) then Some false
  else if negb (EC_KEY_check_key (pkey k)) then Some false
  else
    '(secret, fCompr) ← key_GetSecret k;
    key2 ← key_SetSecret key_Reset secret fCompr;
    a ← key_GetPubKey k;
    b ← key_GetPubKey key2;
    Some (pk_eq a b).

(** The key pair of a secret, in either form. *)
Definition key_pair (n : Z) (fCompressed : bool) (k : EC_KEY) : Prop :=
  0 < n < EC_order /\ exists P, EC_POINT_mul n = Some P /\
  let k0 := EC_KEY_set_public_key (EC_KEY_set_private_key EC_KEY_new n) P in
  k = if fCompressed then EC_KEY_set_compressed k0 else k0.
End keys.

(** What the manual pages promise: computing a public key fails only for want of
    memory; a key gives back the secret it was given, whatever its form; public
    keys have 33 or 65 bytes; and a signature made with a key pair is a DER
    sequence that verifies under the public key read back from its bytes. *)
Class EC_spec `{EC} : Prop := {
  EC_order_range : 1 < EC_order < 2 ^ 256;
  EC_POINT_mul_total : forall n, is_Some (EC_POINT_mul n);
  get0_set_private : forall k n P,
    EC_KEY_get0_private_key (EC_KEY_set_public_key (EC_KEY_set_private_key k n) P) = Some n;
  get0_set_compressed : forall k,
    EC_KEY_get0_private_key (EC_KEY_set_compressed k) = EC_KEY_get0_private_key k;
  i2o_size : forall n c k, key_pair n c k ->
    digits 256 (i2o_ECPublicKey k) /\ len (i2o_ECPublicKey k) = (if c then 33 else 65);
  o2i_i2o : forall n c k, key_pair n c k -> is_Some (o2i_ECPublicKey EC_KEY_new (i2o_ECPublicKey k));
  check_key_pair : forall n c k, key_pair n c k -> EC_KEY_check_key k = true;
  sign_verify : forall n c k r h sig r', key_pair n c k -> ECDSA_sign r h k = (Some sig, r') ->
    digits 256 sig /\ 1 <= len sig <= 72 /\
    exists norm, renormalize_der sig = Some norm /\
    forall pub, o2i_ECPublicKey EC_KEY_new (i2o_ECPublicKey k) = Some pub -> ECDSA_verify h norm pub = 1;
  verify_set_compressed : forall h sig k, ECDSA_verify h sig (EC_KEY_set_compressed k) = ECDSA_verify h sig k
}.

(** ** An implementation of the specification

    Not a signature scheme: it shows that the laws can hold together.  The
    public key is the secret, and so is the signature. *)
Record toy_key : Type := mkToy { toy_priv : option Z; toy_pub : option Z; toy_compressed : bool }.

Definition toy_i2o (k : toy_key) : list Z :=
  match toy_pub k with
  | None => []
  | Some P => if toy_compressed k then 2 :: to_digits 256 32 P else 4 :: to_digits 256 64 P
  end.

Definition toy_o2i (k : toy_key) (v : list Z) : option toy_key :=
  match v with
  | [] => None
  | _ :: v =>
      if (len v =? 32) || (len v =? 64)
      then Some (mkToy (toy_priv k) (Some (of_digits 256 v)) (len v =? 32)) else None
  end.

#[local] Instance EC_toy : EC := {|
  EC_KEY := toy_key;
  EC_POINT := Z;
  EC_RAND := unit;
  EC_order := 2 ^ 255;
  EC_KEY_new := mkToy None None false;
  EC_KEY_set_compressed k := mkToy (toy_priv k) (toy_pub k) true;
  EC_POINT_mul n := Some (n mod 2 ^ 255);
  EC_KEY_set_private_key k n := mkToy (Some n) (toy_pub k) (toy_compressed k);
  EC_KEY_set_public_key k P := mkToy (toy_priv k) (Some P) (toy_compressed k);
  EC_KEY_get0_private_key k := toy_priv k;
  EC_KEY_check_key k := true;
  EC_KEY_generate_key r k := (Some (mkToy (Some 5) (Some 5) (toy_compressed k)), r);
  i2o_ECPublicKey := toy_i2o;
  i2d_ECPrivateKey k := match toy_priv k with None => [] | Some n => to_digits 256 32 n end;
  o2i_ECPublicKey := toy_o2i;
  d2i_ECPrivateKey k v := Some (mkToy (Some (of_digits 256 v)) (Some (of_digits 256 v)) (toy_compressed k));
  renormalize_der s := Some s;
  ECDSA_sign r _ k := (match toy_priv k with None => None | Some n => Some (48 :: to_digits 256 32 n) end, r);
  ECDSA_verify _ s k :=
    match toy_pub k with None => -1 | Some P => if bytes_eqb s (48 :: to_digits 256 32 P) then 1 else 0 end
|}.

(** ** Lemmas *)
Lemma toy_o2i_pub k c v k' : toy_o2i k (c :: v) = Some k' -> toy_pub k' = Some (of_digits 256 v).
Proof. unfold toy_o2i. by case_match; intros [= <-]. Qed.

Lemma toy_mul_small n P : 0 < n < EC_order -> EC_POINT_mul n = Some P -> P = n.
Proof. intros Hn [= <-]. change EC_order with (2 ^ 255) in Hn. apply Z.mod_small. lia. Qed.

Lemma EC_toy_spec : EC_spec.
Proof.
  split.
  - split; by vm_compute.
  - by eexists.
  - done.
  - done.
  - intros n c k (Hn & P & EP & ->). apply toy_mul_small in EP as ->; [|done]. cbn.
    assert (forall m, digits 256 (to_digits 256 m n)) as Hd by (intros; apply to_digits_ok; lia).
    destruct c; cbn -[to_digits]; (split; [constructor; [lia|apply Hd]|]); rewrite len_cons; unfold len; by rewrite length_to_digits.
  - intros n c k (Hn & P & EP & ->). apply toy_mul_small in EP as ->; [|done]. destruct c; cbn -[to_digits]; unfold len; rewrite length_to_digits; by eexists.
  - done.
  - intros n c k r h sig r' (Hn & P & EP & ->) E. apply toy_mul_small in EP as ->; [|done].
    assert (sig = 48 :: to_digits 256 32 n) as -> by (destruct c; by injection E as <- <-).
    split; [constructor; [lia|apply to_digits_ok; lia]|]. split; [rewrite len_cons; unfold len; rewrite length_to_digits; lia|].
    eexists. split; [done|]. intros pub Ep.
    assert (forall m, 256 ^ 32 <= 256 ^ Z.of_nat m -> of_digits 256 (to_digits 256 m n) = n) as Hv.
    { intros m Hm. rewrite of_to_digits by lia. apply Z.mod_small. change EC_order with (2 ^ 255) in Hn. lia. }
    assert (toy_pub pub = Some n) as Hp.
    { destruct c.
      - change (toy_o2i (mkToy None None false) (2 :: to_digits 256 32 n) = Some pub) in Ep.
        apply toy_o2i_pub in Ep. by rewrite Hv in Ep.
      - change (toy_o2i (mkToy None None false) (4 :: to_digits 256 64 n) = Some pub) in Ep.
        apply toy_o2i_pub in Ep. by rewrite Hv in Ep. }
    cbn -[to_digits]. rewrite Hp. by rewrite bytes_eqb_refl.
  - done.
Qed.

Section facts.
Context `{ES : EC_spec}.

(** A key with a secret, whose flag agrees with the form of its public key. *)
Definition key_wf (k : CKey) (n : Z) : Prop :=
  key_pair n (fCompressedPubKey k) (pkey k) /\ fSet k = true.

Definition secret_ok (v : list Z) : Prop := digits 256 v /\ len v = 32 /\ 0 < of_be v < EC_order.

Lemma key_pair_unique n c k1 k2 : key_pair n c k1 -> key_pair n c k2 -> k1 = k2.
Proof. intros (_ & P1 & E1 & H1) (_ & P2 & E2 & H2). rewrite E1 in E2. injection E2 as <-. cbn in *. by rewrite H1, H2. Qed.

Lemma key_pair_private n c k : key_pair n c k -> EC_KEY_get0_private_key k = Some n.
Proof. intros (_ & P & _ & E). cbn in E. subst k. destruct c; rewrite ?get0_set_compressed; apply get0_set_private. Qed.

Lemma key_wf_unique k1 k2 n : key_wf k1 n -> key_wf k2 n -> fCompressedPubKey k1 = fCompressedPubKey k2 -> k1 = k2.
Proof.
  destruct k1, k2. unfold key_wf. cbn. intros [H1 ->] [H2 ->] <-. by rewrite (key_pair_unique _ _ _ _ H1 H2).
Qed.

Lemma SetSecret_wf this v c : secret_ok v ->
  exists k, key_SetSecret this v c = Some k /\ key_wf k (of_be v) /\ fCompressedPubKey k = c || fCompressedPubKey this.
Proof.
  intros (Hd & Hl & Hn). unfold key_SetSecret, EC_KEY_regenerate_key. rewrite Hl. cbn [Z.eqb Pos.eqb negb].
  destruct (EC_POINT_mul_total (of_be v)) as [P E]. rewrite E. eexists. split; [done|]. cbn [fCompressedPubKey].
  destruct (c || fCompressedPubKey this) eqn:Ec; [|apply orb_false_iff in Ec as [_ Ec]];
    (split; [split; [split; [done|exists P]|done]|]); cbn [fCompressedPubKey SetCompressedPubKey pkey]; by rewrite ?Ec.
Qed.

Lemma GetSecret_wf k n : key_wf k n ->
  exists v, key_GetSecret k = Some (v, fCompressedPubKey k) /\ secret_ok v /\ of_be v = n.
Proof.
  intros [Hk _]. pose proof (key_pair_private _ _ _ Hk) as Hp. destruct Hk as [Hn _]. unfold key_GetSecret. rewrite Hp.
  pose proof EC_order_range as Ho.
  assert (Hd : digits 256 (be_bytes n)) by (apply Forall_rev, to_digits_ok; lia).
  assert (Hl : len (be_bytes n) <= 32).
  { unfold len, be_bytes. rewrite length_rev, length_to_digits. unfold nbytes.
    pose proof (nbits_le n 256 ltac:(lia) ltac:(lia)) as Hb.
    pose proof (Z.div_le_mono (nbits n + 7) 263 8 ltac:(lia) ltac:(lia)) as Hq. change (263 / 8) with 32 in Hq. lia. }
  destruct (Z.ltb_spec 32 (len (be_bytes n))); [lia|]. eexists. split; [done|].
  assert (Hv : of_be (replicate (32 - length (be_bytes n)) 0 ++ be_bytes n) = n).
  { rewrite of_be_leading. apply of_be_bytes. lia. }
  split; [|done]. split_and!; [apply Forall_app; split; [apply digits_replicate_0; lia|done]| |lia..].
  rewrite len_app. unfold len in *. rewrite length_replicate. lia.
Qed.

Lemma GetPubKey_wf k n : key_wf k n ->
  exists pk, key_GetPubKey k = Some pk /\ digits 256 (vchPubKey pk) /\
  len (vchPubKey pk) = (if fCompressedPubKey k then 33 else 65) /\ vchPubKey pk = i2o_ECPublicKey (pkey k).
Proof.
  intros [Hk _]. destruct (i2o_size _ _ _ Hk) as [Hd Hl]. unfold key_GetPubKey.
  destruct (i2o_ECPublicKey (pkey k)) as [|b v]; [destruct (fCompressedPubKey k); done|]. by eexists.
Qed.

Lemma pubkey_valid_wf k n pk : key_wf k n -> key_GetPubKey k = Some pk -> pk_IsValid pk = true /\ pk_IsCompressed pk = key_IsCompressed k.
Proof.
  intros Hk E. destruct (GetPubKey_wf k n Hk) as (pk' & E' & _ & Hl & _). rewrite E in E'. injection E' as <-.
  unfold pk_IsValid, pk_IsCompressed, key_IsCompressed. rewrite Hl. by destruct (fCompressedPubKey k).
Qed.

Lemma SetPubKey_flag this k n pk : key_wf k n -> key_GetPubKey k = Some pk -> this = key_Reset ->
  exists key, key_SetPubKey this pk = (true, key) /\ fCompressedPubKey key = fCompressedPubKey k.
Proof.
  intros Hk E ->. destruct (GetPubKey_wf k n Hk) as (pk' & E' & _ & Hl & Hv). rewrite E in E'. injection E' as <-.
  destruct (o2i_i2o _ _ _ (proj1 Hk)) as [p Ep]. unfold key_SetPubKey. cbn [pkey key_Reset]. rewrite Hv, Ep.
  rewrite <- Hv, Hl. eexists. split; [done|]. by destruct (fCompressedPubKey k).
Qed.

Lemma Sign_Verify k n r h sig r' pk : key_wf k n -> key_Sign r k h = (Some sig, r') -> key_GetPubKey k = Some pk ->
  digits 256 sig /\ 1 <= len sig <= 72 /\
  exists key, key_SetPubKey key_Reset pk = (true, key) /\ key_Verify key h sig = true.
Proof.
  intros Hk Es E. destruct (GetPubKey_wf k n Hk) as (pk' & E' & _ & Hl & Hv). rewrite E in E'. injection E' as <-.
  destruct (sign_verify _ _ _ _ _ _ _ (proj1 Hk) Es) as (Hd & Hs & norm & En & Hver).
  destruct (o2i_i2o _ _ _ (proj1 Hk)) as [p Ep]. specialize (Hver p Ep). split_and!; [done|lia..|].
  unfold key_SetPubKey. cbn [pkey key_Reset]. rewrite <- Hv in Ep. rewrite Ep. eexists. split; [done|].
  unfold key_Verify. rewrite En. destruct sig; [by destruct Hs|].
  destruct (len (vchPubKey pk) =? 33); cbn [pkey SetCompressedPubKey]; by rewrite ?verify_set_compressed, Hver.
Qed.
End facts.

(** ** Main theorems *)

(** Keys.  The 32 bytes of [GetSecret] and the flag restore the same key; its
    public key has 33 or 65 bytes according to the flag and is read back into
    a key with that flag; a signature made with the key has at most 72 bytes
    and verifies under the public key; and [IsValid] holds. *)
Theorem key_restores_and_signs `{ES : EC_spec} k n : key_wf k n ->
  exists v pk, key_GetSecret k = Some (v, fCompressedPubKey k) /\ len v = 32 /\
    key_SetSecret key_Reset v (fCompressedPubKey k) = Some k /\
    key_GetPubKey k = Some pk /\ pk_IsValid pk = true /\ pk_IsCompressed pk = key_IsCompressed k /\
    (exists key, key_SetPubKey key_Reset pk = (true, key) /\ fCompressedPubKey key = fCompressedPubKey k) /\
    key_IsValid k = Some true /\
    (forall r h sig r', key_Sign r k h = (Some sig, r') -> 1 <= len sig <= 72 /\
       exists key, key_SetPubKey key_Reset pk = (true, key) /\ key_Verify key h sig = true).
Proof.
  intros Hk. destruct (GetSecret_wf k n Hk) as (v & Es & Hv & Hn). destruct (GetPubKey_wf k n Hk) as (pk & Ep & _).
  destruct (pubkey_valid_wf k n pk Hk Ep) as [Hval Hc].
  destruct (SetSecret_wf key_Reset v (fCompressedPubKey k) Hv) as (k' & Ek & Hk' & Hf).
  cbn [fCompressedPubKey key_Reset] in Hf. rewrite orb_false_r in Hf. rewrite Hn in Hk'.
  rewrite <- (key_wf_unique k k' n Hk Hk') in Ek by done.
  exists v, pk. split_and!; [done|apply Hv|done|done|done|done|by apply (SetPubKey_flag _ k n)| |].
  - unfold key_IsValid. rewrite (proj2 Hk), (check_key_pair _ _ _ (proj1 Hk)). cbn [negb]. rewrite Es. cbn.
    rewrite Ek. cbn. rewrite Ep. cbn. unfold pk_eq. by rewrite bytes_eqb_refl.
  - intros r h sig r' E. destruct (Sign_Verify k n r h sig r' pk Hk E Ep) as (_ & Hl & Hver). done.
Qed.

Definition example_key : @CKey EC_toy := @mkKey EC_toy (mkToy (Some 7) (Some 7) true) true true.

Lemma example_key_wf : @key_wf EC_toy example_key 7.
Proof. split; [|done]. split; [split; by vm_compute|]. by exists 7. Qed.

Lemma key_restores_and_signs_witness :
  exists v, @key_GetSecret EC_toy example_key = Some (v, true) /\ @key_SetSecret EC_toy key_Reset v true = Some example_key.
Proof.
  destruct (@key_restores_and_signs EC_toy EC_toy_spec example_key 7 example_key_wf) as (v & pk & H1 & _ & H2 & _).
  exists v. split; [exact H1|exact H2].
Defined.
