(* ===== verification/KeyStore.v ===== *)
(** * keystore.h, keystore.cpp, crypter.h, crypter.cpp: key stores

    [CKeyStore] is the interface through which scripts are signed and
    recognised: a class here, with its laws in [CKeyStore_spec].  The plain
    store [CBasicKeyStore] and the encrypted one [CCryptoKeyStore] are its
    instances, and each meets the laws in every state it can be in.  AES and
    the derivation of keys from pass phrases are OpenSSL's (class [AES]).  The
    locks around each operation, the notification of the user interface and the
    encryption of the wallet file are not modelled.

    [std::map] with a [uint160] key is a finite map: on numbers of 5 words the
    order of the map identifies equal keys only.  A function that throws gives
    [None]. *)
From Stdlib Require Import ZArith Lia Bool.
From stdpp Require Import prelude gmap sorting.
From S2P Require Import Prelude Uint256 DataStream Serialize Crypto Bignum Opcodes Script Keys.

(** ** The interface *)

Class CKeyStore `{EC} (K : Type) : Type := {
  AddKey : K -> CKey -> option (bool * K);
  HaveKey : K -> CKeyID -> bool;
  (** The key found, put into the object given; inside, [None] is [false]. *)
  GetKey : K -> CKeyID -> CKey -> option (option CKey);
  GetKeys : K -> list CKeyID;
  GetPubKey : K -> CKeyID -> option (option CPubKey);
  AddCScript : K -> CScript -> bool * K;
  HaveCScript : K -> CScriptID -> bool;
  GetCScript : K -> CScriptID -> option CScript
}.

(** What a client may rely on in the states [ok]: no call throws, and a key or
    script is found only under its own hash. *)
Class CKeyStore_spec `{Crypto} `{EC} (K : Type) `{!CKeyStore K} (ok : K -> Prop) : Prop := {
  GetKey_safe : forall ks id, ok ks -> is_Some (GetKey ks id key_Reset);
  GetKey_sound : forall ks id k, ok ks -> GetKey ks id key_Reset = Some (Some k) ->
    HaveKey ks id = true /\
    exists n pk, key_wf k n /\ key_GetPubKey k = Some pk /\ GetID pk = id /\ GetPubKey ks id = Some (Some pk);
  GetCScript_sound : forall ks id s, ok ks -> GetCScript ks id = Some s ->
    script_GetID s = id /\ HaveCScript ks id = true
}.

(** [CKeyStore::GetPubKey] and [CKeyStore::GetSecret], on any [GetKey]. *)
Definition default_GetPubKey `{EC} {K} (GetKey : K -> CKeyID -> CKey -> option (option CKey)) (ks : K) (address : CKeyID)
    : option (option CPubKey) :=
  key ← GetKey ks address key_Reset;
  match key with
  | None => Some None
  | Some key => pk ← key_GetPubKey key; Some (Some pk)
  end.

Definition store_GetSecret `{EC} {K} (GetKey : K -> CKeyID -> CKey -> option (option CKey)) (ks : K) (address : CKeyID)
    : option (option (list Z * bool)) :=
  key ← GetKey ks address key_Reset;
  match key with
  | None => Some None
  | Some key => r ← key_GetSecret key; Some (Some r)
  end.

(** The entries of a map from the least key on. *)
Definition entry_le {V} (a b : CKeyID * V) : Prop := bu_lt (fst b) (fst a) = false.
#[global] Instance entry_le_dec {V} (a b : CKeyID * V) : Decision (entry_le a b).
Proof. unfold entry_le. apply _. Defined.
Definition entries {V} (m : gmap CKeyID V) : list (CKeyID * V) := merge_sort entry_le (map_to_list m).

(** ** [CBasicKeyStore] *)

Record CBasicKeyStore : Type := mkBasic {
  mapKeys : gmap CKeyID (list Z * bool);
  mapScripts : gmap CScriptID CScript
}.

Section basic.
Context `{Crypto} `{EC}.

Definition basic_AddKey (s : CBasicKeyStore) (key : CKey) : option (bool * CBasicKeyStore) :=
  secret ← key_GetSecret key;
  pk ← key_GetPubKey key;
  Some (true, mkBasic (<[GetID pk := secret]> (mapKeys s)) (mapScripts s)).

Definition basic_HaveKey (s : CBasicKeyStore) (address : CKeyID) : bool := bool_decide (is_Some (mapKeys s !! address)).

Definition basic_GetKeys (s : CBasicKeyStore) : list CKeyID := map fst (entries (mapKeys s)).

Definition basic_GetKey (s : CBasicKeyStore) (address : CKeyID) (keyOut : CKey) : option (option CKey) :=
  match mapKeys s !! address with
  | Some (secret, fCompressed) => k ← key_SetSecret key_Reset secret fCompressed; Some (Some k)
  | None => Some None
  end.

Definition basic_AddCScript (s : CBasicKeyStore) (redeemScript : CScript) : bool * CBasicKeyStore :=
  (true, mkBasic (mapKeys s) (<[script_GetID redeemScript := redeemScript]> (mapScripts s))).

Definition basic_HaveCScript (s : CBasicKeyStore) (hash : CScriptID) : bool := bool_decide (is_Some (mapScripts s !! hash)).

Definition basic_GetCScript (s : CBasicKeyStore) (hash : CScriptID) : option CScript := mapScripts s !! hash.

#[export] Instance basic_store : CKeyStore CBasicKeyStore := {|
  AddKey := basic_AddKey;
  HaveKey := basic_HaveKey;
  GetKey := basic_GetKey;
  GetKeys := basic_GetKeys;
  GetPubKey := default_GetPubKey basic_GetKey;
  AddCScript := basic_AddCScript;
  HaveCScript := basic_HaveCScript;
  GetCScript := basic_GetCScript
|}.
End basic.

(** ** [CCrypter] *)

Class AES : Type := {
  (** AES-256-CBC through the EVP interface, under a key and an initial vector. *)
  EVP_Encrypt : list Z -> list Z -> list Z -> option (list Z);
  EVP_Decrypt : list Z -> list Z -> list Z -> option (list Z);
  (** EVP_BytesToKey(3) for AES-256-CBC and SHA-512 on salt, data and count: the
      size of the key, the key and the initial vector. *)
  EVP_BytesToKey : list Z -> list Z -> Z -> Z * list Z * list Z
}.

Class AES_spec `{AES} : Prop := {
  EVP_Encrypt_total : forall key iv m, len key = 32 -> is_Some (EVP_Encrypt key iv m);
  EVP_Decrypt_Encrypt : forall key iv m c, len key = 32 -> EVP_Encrypt key iv m = Some c -> EVP_Decrypt key iv c = Some m
}.

Definition WALLET_CRYPTO_KEY_SIZE : Z := 32.
Definition WALLET_CRYPTO_SALT_SIZE : Z := 8.

(** The members for the wallet's keys; the contents of an array are not used
    before [fKeySet]. *)
Record CCrypter : Type := mkCrypter { chKey : list Z; chIV : list Z; fKeySet : bool }.

Definition CleanKey (c : CCrypter) : CCrypter :=
  mkCrypter (replicate 32 0) (replicate 32 0) false.

(** [CMasterKey] *)
Record CMasterKey : Type := mkMasterKey {
  vchCryptedKey : list Z;
  vchSalt : list Z;
  nDerivationMethod : Z;
  nDeriveIterations : Z;
  vchOtherDerivationParameters : list Z
}.

Definition master_new : CMasterKey := mkMasterKey [] [] 0 25000 [].

Definition ser_master : Ser CMasterKey :=
  ser_struct
    (fun k => (vchCryptedKey k, vchSalt k, (nDerivationMethod k, nDeriveIterations k), vchOtherDerivationParameters k))
    (fun '(c, s, (m, i), o) => mkMasterKey c s m i o)
    (ser_tuple4 ser_bytes ser_bytes (ser_pair (ser_uint 4) (ser_uint 4)) ser_bytes).

Section crypter.
Context `{AES}.

Definition SetKeyFromPassphrase (c : CCrypter) (strKeyData chSalt : list Z) (nRounds nDerivationMethod : Z) : bool * CCrypter :=
  if (nRounds <? 1) || negb (len chSalt =? WALLET_CRYPTO_SALT_SIZE) then (false, c)
  else
    let '(i, key, iv) := if nDerivationMethod =? 0 then EVP_BytesToKey chSalt strKeyData nRounds else (0, chKey c, chIV c) in
    if negb (i =? WALLET_CRYPTO_KEY_SIZE) then (false, mkCrypter (replicate 32 0) (replicate 32 0) (fKeySet c))
    else (true, mkCrypter key iv true).

Definition crypter_SetKey (c : CCrypter) (chNewKey chNewIV : list Z) : bool * CCrypter :=
  if negb (len chNewKey =? WALLET_CRYPTO_KEY_SIZE) || negb (len chNewIV =? WALLET_CRYPTO_KEY_SIZE) then (false, c)
  else (true, mkCrypter chNewKey chNewIV true).

Definition Encrypt (c : CCrypter) (vchPlaintext : list Z) : option (list Z) :=
  if negb (fKeySet c) then None else EVP_Encrypt (chKey c) (chIV c) vchPlaintext.

Definition Decrypt (c : CCrypter) (vchCiphertext : list Z) : option (list Z) :=
  if negb (fKeySet c) then None else EVP_Decrypt (chKey c) (chIV c) vchCiphertext.

Definition EncryptSecret (vMasterKey vchPlaintext : list Z) (nIV : base_uint) : option (list Z) :=
  let chIV := take (Z.to_nat WALLET_CRYPTO_KEY_SIZE) (bu_bytes nIV) in
  let '(ok, c) := crypter_SetKey (mkCrypter [] [] false) vMasterKey chIV in
  if negb ok then None else Encrypt c vchPlaintext.

Definition DecryptSecret (vMasterKey vchCiphertext : list Z) (nIV : base_uint) : option (list Z) :=
  let chIV := take (Z.to_nat WALLET_CRYPTO_KEY_SIZE) (bu_bytes nIV) in
  let '(ok, c) := crypter_SetKey (mkCrypter [] [] false) vMasterKey chIV in
  if negb ok then None else Decrypt c vchCiphertext.
End crypter.

(** ** [CCryptoKeyStore] *)

Record CCryptoKeyStore : Type := mkCrypto {
  ck_base : CBasicKeyStore;
  fUseCrypto : bool;
  mapCryptedKeys : gmap CKeyID (CPubKey * list Z);
  vMasterKey : list Z
}.

Section crypto.
Context `{Crypto} `{EC} `{AES}.

Definition crypto_new : CCryptoKeyStore := mkCrypto (mkBasic ∅ ∅) false ∅ [].

Definition set_base (b : CBasicKeyStore) (s : CCryptoKeyStore) : CCryptoKeyStore :=
  mkCrypto b (fUseCrypto s) (mapCryptedKeys s) (vMasterKey s).
Definition set_master (v : list Z) (s : CCryptoKeyStore) : CCryptoKeyStore :=
  mkCrypto (ck_base s) (fUseCrypto s) (mapCryptedKeys s) v.

Definition IsCrypted (s : CCryptoKeyStore) : bool := fUseCrypto s.

Definition IsLocked (s : CCryptoKeyStore) : bool :=
  if negb (IsCrypted s) then false else match vMasterKey s with [] => true | _ => false end.

Definition SetCrypted (s : CCryptoKeyStore) : bool * CCryptoKeyStore :=
  if fUseCrypto s then (true, s)
  else if bool_decide (mapKeys (ck_base s) <> ∅) then (false, s)
  else (true, mkCrypto (ck_base s) true (mapCryptedKeys s) (vMasterKey s)).

Definition Lock (s : CCryptoKeyStore) : bool * CCryptoKeyStore :=
  let '(ok, s) := SetCrypted s in
  if negb ok then (false, s) else (true, set_master [] s).

(** The loops of [IsValidKey] and [Unlock] leave at the first entry. *)
Definition first_key_matches (s : CCryptoKeyStore) (vMasterKeyIn : list Z) : option bool :=
  match entries (mapCryptedKeys s) with
  | [] => Some true
  | (_, (pk, vchCryptedSecret)) :: _ =>
      match DecryptSecret vMasterKeyIn vchCryptedSecret (pk_GetHash pk) with
      | None => Some false
      | Some vchSecret =>
          if negb (len vchSecret =? 32) then Some false
          else
            let '(_, key) := key_SetPubKey key_Reset pk in
            key ← key_SetSecret key vchSecret false;
            pk' ← key_GetPubKey key;
            Some (pk_eq pk' pk)
      end
  end.

Definition IsValidKey (s : CCryptoKeyStore) (vMasterKeyIn : list Z) : option (bool * CCryptoKeyStore) :=
  let '(ok, s) := SetCrypted s in
  if negb ok then Some (false, s)
  else b ← first_key_matches s vMasterKeyIn; Some (b, s).

Definition Unlock (s : CCryptoKeyStore) (vMasterKeyIn : list Z) : option (bool * CCryptoKeyStore) :=
  let '(ok, s) := SetCrypted s in
  if negb ok then Some (false, s)
  else
    b ← first_key_matches s vMasterKeyIn;
    if negb b then Some (false, s) else Some (true, set_master vMasterKeyIn s).

Definition AddCryptedKey (s : CCryptoKeyStore) (pk : CPubKey) (vchCryptedSecret : list Z) : bool * CCryptoKeyStore :=
  let '(ok, s) := SetCrypted s in
  if negb ok then (false, s)
  else (true, mkCrypto (ck_base s) (fUseCrypto s) (<[GetID pk := (pk, vchCryptedSecret)]> (mapCryptedKeys s)) (vMasterKey s)).

Definition crypto_AddKey (s : CCryptoKeyStore) (key : CKey) : option (bool * CCryptoKeyStore) :=
  if negb (IsCrypted s) then '(ok, b) ← basic_AddKey (ck_base s) key; Some (ok, set_base b s)
  else if IsLocked s then Some (false, s)
  else
    pk ← key_GetPubKey key;
    '(secret, _) ← key_GetSecret key;
    match EncryptSecret (vMasterKey s) secret (pk_GetHash pk) with
    | None => Some (false, s)
    | Some vchCryptedSecret => Some (AddCryptedKey s pk vchCryptedSecret)
    end.

Definition crypto_HaveKey (s : CCryptoKeyStore) (address : CKeyID) : bool :=
  if negb (IsCrypted s) then basic_HaveKey (ck_base s) address
  else bool_decide (is_Some (mapCryptedKeys s !! address)).

Definition crypto_GetKeys (s : CCryptoKeyStore) : list CKeyID :=
  if negb (IsCrypted s) then basic_GetKeys (ck_base s) else map fst (entries (mapCryptedKeys s)).

Definition crypto_GetKey (s : CCryptoKeyStore) (address : CKeyID) (keyOut : CKey) : option (option CKey) :=
  if negb (IsCrypted s) then basic_GetKey (ck_base s) address keyOut
  else
    match mapCryptedKeys s !! address with
    | None => Some None
    | Some (pk, vchCryptedSecret) =>
        match DecryptSecret (vMasterKey s) vchCryptedSecret (pk_GetHash pk) with
        | None => Some None
        | Some vchSecret =>
            if negb (len vchSecret =? 32) then Some None
            else
              let '(_, keyOut) := key_SetPubKey keyOut pk in
              k ← key_SetSecret keyOut vchSecret false; Some (Some k)
        end
    end.

Definition crypto_GetPubKey (s : CCryptoKeyStore) (address : CKeyID) : option (option CPubKey) :=
  if negb (IsCrypted s) then default_GetPubKey crypto_GetKey s address
  else Some (fst <$> mapCryptedKeys s !! address).

(** The loop of [EncryptKeys] over [mapKeys]. *)
Fixpoint encrypt_loop (vMasterKeyIn : list Z) (l : list (CKeyID * (list Z * bool))) (s : CCryptoKeyStore)
    : option (bool * CCryptoKeyStore) :=
  match l with
  | [] => Some (true, s)
  | (_, (secret, fCompressed)) :: l =>
      key ← key_SetSecret key_Reset secret fCompressed;
      pk ← key_GetPubKey key;
      '(secret, _) ← key_GetSecret key;
      match EncryptSecret vMasterKeyIn secret (pk_GetHash pk) with
      | None => Some (false, s)
      | Some vchCryptedSecret =>
          let '(ok, s) := AddCryptedKey s pk vchCryptedSecret in
          if negb ok then Some (false, s) else encrypt_loop vMasterKeyIn l s
      end
  end.

Definition EncryptKeys (s : CCryptoKeyStore) (vMasterKeyIn : list Z) : option (bool * CCryptoKeyStore) :=
  if bool_decide (mapCryptedKeys s <> ∅) || IsCrypted s then Some (false, s)
  else
    let s := mkCrypto (ck_base s) true (mapCryptedKeys s) (vMasterKey s) in
    '(ok, s) ← encrypt_loop vMasterKeyIn (entries (mapKeys (ck_base s))) s;
    if negb ok then Some (false, s)
    else Some (true, set_base (mkBasic ∅ (mapScripts (ck_base s))) s).

#[export] Instance crypto_store : CKeyStore CCryptoKeyStore := {|
  AddKey := crypto_AddKey;
  HaveKey := crypto_HaveKey;
  GetKey := crypto_GetKey;
  GetKeys := crypto_GetKeys;
  GetPubKey := crypto_GetPubKey;
  AddCScript s r := let '(ok, b) := basic_AddCScript (ck_base s) r in (ok, set_base b s);
  HaveCScript s := basic_HaveCScript (ck_base s);
  GetCScript s := basic_GetCScript (ck_base s)
|}.
End crypto.

(** ** Lemmas *)

Section facts.
Context `{CS : Crypto_spec} `{ES : EC_spec} `{AS : AES_spec}.

(** The entry [e] of the plain store under [id] stands for the key [k]. *)
Definition plain (id : CKeyID) (k : CKey) (e : list Z * bool) : Prop :=
  secret_ok (fst e) /\ key_SetSecret key_Reset (fst e) (snd e) = Some k /\
  exists pk, key_GetPubKey k = Some pk /\ GetID pk = id.

(** The entry [e] of the encrypted store stands for [k] under the master key. *)
Definition sealed (mk : list Z) (id : CKeyID) (k : CKey) (e : CPubKey * list Z) : Prop :=
  exists n v, key_wf k n /\ key_GetPubKey k = Some (fst e) /\ GetID (fst e) = id /\
  key_GetSecret k = Some (v, fCompressedPubKey k) /\ EncryptSecret mk v (pk_GetHash (fst e)) = Some (snd e).

Definition basic_ok (s : CBasicKeyStore) : Prop :=
  (forall id e, mapKeys s !! id = Some e -> exists k, plain id k e) /\
  (forall id r, mapScripts s !! id = Some r -> script_GetID r = id).

Definition crypto_ok (mk : list Z) (s : CCryptoKeyStore) : Prop :=
  len mk = 32 /\ basic_ok (ck_base s) /\
  (if fUseCrypto s then mapKeys (ck_base s) = ∅ else vMasterKey s = [] /\ mapCryptedKeys s = ∅) /\
  (vMasterKey s = [] \/ vMasterKey s = mk) /\
  (forall id e, mapCryptedKeys s !! id = Some e -> exists k, sealed mk id k e).

Lemma EncryptSecret_opens mk m iv : len mk = 32 -> wf 8 iv ->
  exists c, EncryptSecret mk m iv = Some c /\ DecryptSecret mk c iv = Some m.
Proof.
  intros Hk Hiv. unfold EncryptSecret, DecryptSecret, crypter_SetKey. rewrite Hk.
  assert (len (take (Z.to_nat WALLET_CRYPTO_KEY_SIZE) (bu_bytes iv)) = 32) as Hl.
  { unfold len. rewrite length_take, length_bu_bytes, (proj1 Hiv). done. }
  rewrite Hl. cbn [negb orb Z.eqb Pos.eqb WALLET_CRYPTO_KEY_SIZE]. unfold Encrypt, Decrypt. cbn [fKeySet negb chKey chIV].
  destruct (EVP_Encrypt_total mk (take (Z.to_nat 32) (bu_bytes iv)) m Hk) as [c E]. exists c.
  split; [done|]. by apply EVP_Decrypt_Encrypt.
Qed.

Lemma DecryptSecret_locked c iv : DecryptSecret [] c iv = None.
Proof. done. Qed.

Lemma plain_wf id k e : plain id k e ->
  key_wf k (of_be (fst e)) /\ exists pk, key_GetPubKey k = Some pk /\ GetID pk = id.
Proof.
  intros (Hs & E & Hpk). split; [|done]. destruct (SetSecret_wf key_Reset (fst e) (snd e) Hs) as (k' & E' & Hk & _).
  rewrite E in E'. by injection E' as <-.
Qed.

Lemma plain_of_key k n pk : key_wf k n -> key_GetPubKey k = Some pk ->
  exists v, key_GetSecret k = Some (v, fCompressedPubKey k) /\ plain (GetID pk) k (v, fCompressedPubKey k).
Proof.
  intros Hk Hpk. destruct (GetSecret_wf k n Hk) as (v & E & Hv & Hn). exists v. split; [done|].
  split; [done|]. cbn [fst snd]. split; [|by exists pk].
  destruct (SetSecret_wf key_Reset v (fCompressedPubKey k) Hv) as (k' & E' & Hk' & Hf). rewrite E'. f_equal.
  cbn [fCompressedPubKey key_Reset] in Hf. rewrite orb_false_r in Hf. rewrite Hn in Hk'. symmetry. by apply (key_wf_unique k k' n).
Qed.

Lemma seal k n pk mk : key_wf k n -> key_GetPubKey k = Some pk -> len mk = 32 ->
  exists v c, key_GetSecret k = Some (v, fCompressedPubKey k) /\
  EncryptSecret mk v (pk_GetHash pk) = Some c /\ sealed mk (GetID pk) k (pk, c).
Proof.
  intros Hk Hpk Hmk. destruct (GetSecret_wf k n Hk) as (v & E & Hv & Hn).
  destruct (EncryptSecret_opens mk v (pk_GetHash pk) Hmk (wf_Hash _)) as (c & Ec & _).
  exists v, c. split_and!; [done..|]. by exists n, v.
Qed.

(** Opening a sealed entry the way [GetKey] and [Unlock] do gives the key. *)
Lemma sealed_opens mk id k e : len mk = 32 -> sealed mk id k e ->
  exists v, DecryptSecret mk (snd e) (pk_GetHash (fst e)) = Some v /\ len v = 32 /\
  key_SetSecret (snd (key_SetPubKey key_Reset (fst e))) v false = Some k.
Proof.
  intros Hmk (n & v & Hk & Hpk & Hid & Hv & Hc). exists v.
  destruct (EncryptSecret_opens mk v (pk_GetHash (fst e)) Hmk (wf_Hash _)) as (c & Ec & Hd).
  rewrite Hc in Ec. injection Ec as <-. split; [done|].
  destruct (GetSecret_wf k n Hk) as (v' & Ev & Hs & Hn). rewrite Hv in Ev. injection Ev as <-. split; [apply Hs|].
  destruct (SetPubKey_flag key_Reset k n (fst e) Hk Hpk eq_refl) as (k0 & E0 & Hf). rewrite E0. cbn [snd].
  destruct (SetSecret_wf k0 v false Hs) as (k' & E' & Hk' & Hf'). rewrite E'. f_equal. rewrite Hn in Hk'.
  symmetry. apply (key_wf_unique k k' n); [done..|]. by rewrite Hf', Hf.
Qed.

Lemma entries_perm {V} (m : gmap CKeyID V) : entries m ≡ₚ map_to_list m.
Proof. apply merge_sort_Permutation. Qed.

Lemma elem_of_entries {V} (m : gmap CKeyID V) id e : (id, e) ∈ entries m <-> m !! id = Some e.
Proof. by rewrite entries_perm, elem_of_map_to_list. Qed.

Lemma first_key_matches_ok mk s : crypto_ok mk s -> first_key_matches s mk = Some true.
Proof.
  intros (Hmk & _ & _ & _ & Hs). unfold first_key_matches. destruct (entries (mapCryptedKeys s)) as [|[id e] l] eqn:E; [done|].
  assert (mapCryptedKeys s !! id = Some e) as He by (apply elem_of_entries; rewrite E; by left).
  destruct (Hs id e He) as [k Hk]. destruct (sealed_opens mk id k e Hmk Hk) as (v & Hd & Hl & Hset).
  destruct Hk as (n & _ & _ & Hpk & _), e as [pk c]. cbn [fst snd] in *. rewrite Hd, Hl. cbn [Z.eqb Pos.eqb negb].
  destruct (key_SetPubKey key_Reset pk) as [ok k0]. cbn [snd] in Hset. rewrite Hset. cbn. rewrite Hpk. cbn.
  unfold pk_eq. by rewrite bytes_eqb_refl.
Qed.

Lemma SetCrypted_ok mk s : crypto_ok mk s -> crypto_ok mk (snd (SetCrypted s)).
Proof.
  intros (Hmk & Hb & Hu & Hm & Hs). unfold SetCrypted, crypto_ok. destruct (fUseCrypto s) eqn:Eu; cbn [snd]; [by rewrite Eu|].
  case_bool_decide as Hk; cbn [snd]; [by rewrite Eu|]. cbn. by split_and!.
Qed.

Lemma encrypt_loop_spec mk l s : len mk = 32 -> fUseCrypto s = true -> NoDup (map fst l) ->
  (forall id e, (id, e) ∈ l -> exists k, plain id k e) ->
  exists m, encrypt_loop mk l s = Some (true, mkCrypto (ck_base s) true m (vMasterKey s)) /\
  (forall id, id ∉ map fst l -> m !! id = mapCryptedKeys s !! id) /\
  (forall id e k, (id, e) ∈ l -> plain id k e -> exists e', m !! id = Some e' /\ sealed mk id k e').
Proof.
  intros Hmk. revert s. induction l as [|[id [v c]] l IH]; intros s Hu Hnd Hl; cbn [encrypt_loop].
  { exists (mapCryptedKeys s). destruct s. cbn in Hu |- *. subst. split_and!; [done..|]. intros id e k He. by apply not_elem_of_nil in He. }
  inversion Hnd as [|? ? Hni Hnd']; subst.
  destruct (Hl id (v, c) ltac:(by left)) as [k Hk]. destruct (plain_wf _ _ _ Hk) as (Hwf & pk & Hpk & <-).
  destruct (seal k _ pk mk Hwf Hpk Hmk) as (v' & ct & Ev & Ec & Hse).
  destruct Hk as (Hs & Eset & _). cbn [fst snd] in Eset. rewrite Eset. cbn. rewrite Hpk. cbn. rewrite Ev. cbn. rewrite Ec.
  unfold AddCryptedKey, SetCrypted. rewrite Hu. cbn [negb].
  set (s1 := mkCrypto _ _ _ _).
  destruct (IH s1 Hu Hnd') as (m & Em & Hout & Hin); [intros id e He; apply Hl; by right|].
  exists m. rewrite Em. split_and!; [done|..].
  - intros id Hid. apply not_elem_of_cons in Hid as [Hne Hid]. rewrite Hout by done. cbn. by rewrite lookup_insert_ne.
  - intros id e k' He Hk'. apply elem_of_cons in He as [[= -> ->]|He]; [|by apply (Hin id e)].
    exists (pk, ct). split; [rewrite Hout by done; cbn; by rewrite lookup_insert_eq|].
    destruct Hk' as (_ & Eset' & _). cbn [fst snd] in Eset'. rewrite Eset in Eset'. by injection Eset' as <-.
Qed.

Lemma entries_nodup {V} (m : gmap CKeyID V) : NoDup (map fst (entries m)).
Proof. rewrite (entries_perm m). apply NoDup_fst_map_to_list. Qed.

(** What a successful [EncryptKeys] leaves. *)
Lemma EncryptKeys_spec mk s : len mk = 32 -> basic_ok (ck_base s) -> fUseCrypto s = false -> mapCryptedKeys s = ∅ ->
  exists m, EncryptKeys s mk = Some (true, mkCrypto (mkBasic ∅ (mapScripts (ck_base s))) true m (vMasterKey s)) /\
  (forall id, m !! id = None <-> mapKeys (ck_base s) !! id = None) /\
  (forall id e k, mapKeys (ck_base s) !! id = Some e -> plain id k e -> exists e', m !! id = Some e' /\ sealed mk id k e').
Proof.
  intros Hmk [Hb _] Hu Hc. unfold EncryptKeys, IsCrypted. rewrite Hu, Hc, bool_decide_eq_false_2 by (by intros []). cbn [orb].
  set (s1 := mkCrypto _ _ _ _).
  destruct (encrypt_loop_spec mk (entries (mapKeys (ck_base s))) s1 Hmk eq_refl (entries_nodup _)) as (m & Em & Hout & Hin).
  { intros id e He. apply elem_of_entries in He. by apply Hb. }
  exists m. change (ck_base s1) with (ck_base s) in *. rewrite Em. cbn. split; [done|].
  assert (Hin' : forall id e k, mapKeys (ck_base s) !! id = Some e -> plain id k e -> exists e', m !! id = Some e' /\ sealed mk id k e').
  { intros id e k He. apply Hin. by apply elem_of_entries. }
  split; [|done]. intros id. destruct (mapKeys (ck_base s) !! id) as [e|] eqn:He.
  - destruct (Hb id e He) as [k Hk]. destruct (Hin' id e k He Hk) as (e' & -> & _). done.
  - rewrite Hout; [done|]. intros Hid. apply list_elem_of_fmap in Hid as ([id' e] & -> & Hid).
    apply elem_of_entries in Hid. cbn in He. congruence.
Qed.

Lemma basic_AddKey_spec s k n : basic_ok s -> key_wf k n ->
  exists pk v, key_GetPubKey k = Some pk /\
  basic_AddKey s k = Some (true, mkBasic (<[GetID pk := (v, fCompressedPubKey k)]> (mapKeys s)) (mapScripts s)) /\
  plain (GetID pk) k (v, fCompressedPubKey k) /\
  basic_ok (mkBasic (<[GetID pk := (v, fCompressedPubKey k)]> (mapKeys s)) (mapScripts s)).
Proof.
  intros [Hb Hsc] Hk. destruct (GetPubKey_wf k n Hk) as (pk & Hpk & _). destruct (plain_of_key k n pk Hk Hpk) as (v & Ev & Hpl).
  exists pk, v. unfold basic_AddKey. rewrite Ev. cbn. rewrite Hpk. cbn. split_and!; [done..|]. split; [|done].
  intros id e. cbn. rewrite lookup_insert_Some. intros [[<- <-]|[_ He]]; [by exists k|by apply Hb].
Qed.

Lemma basic_AddCScript_ok s r : basic_ok s -> basic_ok (snd (basic_AddCScript s r)).
Proof.
  intros [Hb Hsc]. split; [done|]. intros id r'. cbn. rewrite lookup_insert_Some.
  intros [[<- <-]|[_ He]]; [done|by apply Hsc].
Qed.

Lemma basic_GetKey_plain s id k e keyOut : mapKeys s !! id = Some e -> plain id k e -> basic_GetKey s id keyOut = Some (Some k).
Proof. intros E (_ & Es & _). unfold basic_GetKey. rewrite E. destruct e as [v c]. cbn in Es. by rewrite Es. Qed.

#[export] Instance basic_store_spec : CKeyStore_spec CBasicKeyStore basic_ok.
Proof.
  split.
  - intros s id [Hb _]. cbn. destruct (mapKeys s !! id) as [e|] eqn:E.
    + destruct (Hb id e E) as [k Hk]. rewrite (basic_GetKey_plain s id k e) by done. by eexists.
    + unfold basic_GetKey. rewrite E. by eexists.
  - intros s id k [Hb _]. cbn. destruct (mapKeys s !! id) as [e|] eqn:E; [|unfold basic_GetKey; by rewrite E].
    destruct (Hb id e E) as [k' Hk]. unfold default_GetPubKey, basic_HaveKey.
    rewrite !(basic_GetKey_plain s id k' e), E by done. intros [= <-].
    split; [by apply bool_decide_eq_true|]. destruct (plain_wf _ _ _ Hk) as (Hwf & pk & Hpk & Hid).
    exists (of_be (fst e)), pk. cbn. by rewrite Hpk.
  - intros s id r [_ Hsc] E. cbn in *. unfold basic_HaveCScript. unfold basic_GetCScript in E. rewrite E.
    split; [by apply Hsc|by apply bool_decide_eq_true].
Qed.

Lemma crypto_GetKey_sealed mk s id k e : len mk = 32 -> fUseCrypto s = true -> vMasterKey s = mk ->
  mapCryptedKeys s !! id = Some e -> sealed mk id k e -> crypto_GetKey s id key_Reset = Some (Some k).
Proof.
  intros Hmk Hu Hm E Hk. unfold crypto_GetKey, IsCrypted. rewrite Hu, E, Hm. cbn [negb].
  destruct (sealed_opens mk id k e Hmk Hk) as (v & Hd & Hl & Hset). destruct e as [pk c]. cbn [fst snd] in *.
  rewrite Hd, Hl. cbn [Z.eqb Pos.eqb negb]. destruct (key_SetPubKey key_Reset pk) as [ok k0]. cbn [snd] in Hset. by rewrite Hset.
Qed.

Lemma crypto_GetKey_locked s id keyOut : fUseCrypto s = true -> vMasterKey s = [] -> crypto_GetKey s id keyOut = Some None.
Proof.
  intros Hu Hm. unfold crypto_GetKey, IsCrypted. rewrite Hu, Hm. cbn [negb].
  destruct (mapCryptedKeys s !! id) as [[pk c]|]; [|done]. by rewrite DecryptSecret_locked.
Qed.

Lemma crypto_store_spec mk : CKeyStore_spec CCryptoKeyStore (crypto_ok mk).
Proof.
  split.
  - intros s id (Hmk & Hb & Hu & Hm & Hs). cbn. destruct (fUseCrypto s) eqn:Eu.
    + destruct Hm as [Hm|Hm]; [rewrite crypto_GetKey_locked by done; by eexists|].
      destruct (mapCryptedKeys s !! id) as [e|] eqn:E.
      * destruct (Hs id e E) as [k Hk]. rewrite (crypto_GetKey_sealed mk s id k e) by done. by eexists.
      * unfold crypto_GetKey, IsCrypted. rewrite Eu, E. by eexists.
    + unfold crypto_GetKey, IsCrypted. rewrite Eu. cbn [negb]. exact (GetKey_safe (CKeyStore_spec := basic_store_spec) _ id Hb).
  - intros s id k (Hmk & Hb & Hu & Hm & Hs). cbn. destruct (fUseCrypto s) eqn:Eu.
    + destruct Hm as [Hm|Hm]; [by rewrite crypto_GetKey_locked|].
      destruct (mapCryptedKeys s !! id) as [e|] eqn:E; [|unfold crypto_GetKey, IsCrypted; by rewrite Eu, E].
      destruct (Hs id e E) as [k' Hk]. rewrite (crypto_GetKey_sealed mk s id k' e) by done. intros [= <-].
      unfold crypto_HaveKey, crypto_GetPubKey, IsCrypted. rewrite Eu, E. cbn [negb].
      split; [by apply bool_decide_eq_true|]. destruct Hk as (n & v & Hwf & Hpk & Hid & _). by exists n, (fst e).
    + unfold crypto_GetKey, crypto_HaveKey, crypto_GetPubKey, default_GetPubKey, crypto_GetKey, IsCrypted. rewrite Eu. cbn [negb].
      exact (GetKey_sound (CKeyStore_spec := basic_store_spec) _ id k Hb).
  - intros s id r (Hmk & Hb & _). exact (GetCScript_sound (CKeyStore_spec := basic_store_spec) _ id r Hb).
Qed.

(** *** The invariant of the encrypted store *)

Lemma Lock_ok mk s : crypto_ok mk s -> crypto_ok mk (snd (Lock s)).
Proof.
  intros Hs. pose proof (SetCrypted_ok mk s Hs) as Hc. unfold Lock. destruct (SetCrypted s) as [[] s']; cbn [snd negb] in *; [|done].
  destruct Hc as (Hmk & Hb & Hu & Hm & Hs'). unfold crypto_ok. cbn. destruct (fUseCrypto s'); cbn; split_and!; (done || (by left) || by destruct Hu).
Qed.

Lemma SetCrypted_used s : fst (SetCrypted s) = true -> fUseCrypto (snd (SetCrypted s)) = true.
Proof. unfold SetCrypted. destruct (fUseCrypto s) eqn:E; [done|]. by case_bool_decide. Qed.

Lemma set_master_ok mk s : crypto_ok mk s -> fUseCrypto s = true -> crypto_ok mk (set_master mk s).
Proof. intros (Hmk & Hb & Hu & Hm & Hs) Eu. rewrite Eu in Hu. unfold crypto_ok. cbn. rewrite Eu. split_and!; try done. by right. Qed.

(** [v] is the master key, or one that is refused. *)
Definition unlocks_or_fails (mk : list Z) (s : CCryptoKeyStore) (v : list Z) : Prop :=
  v = mk \/ first_key_matches (snd (SetCrypted s)) v = Some false.

Lemma Unlock_ok mk s v : crypto_ok mk s -> unlocks_or_fails mk s v ->
  exists ok s', Unlock s v = Some (ok, s') /\ crypto_ok mk s'.
Proof.
  intros Hs Hv. pose proof (SetCrypted_ok mk s Hs) as Hc. pose proof (SetCrypted_used s) as Hu. unfold Unlock, unlocks_or_fails in *.
  destruct (SetCrypted s) as [[] s']; cbn [fst snd negb] in *; [|by do 2 eexists].
  destruct Hv as [-> | ->]; [|by do 2 eexists]. rewrite (first_key_matches_ok mk s') by done. cbn.
  do 2 eexists. split; [done|]. apply set_master_ok; auto.
Qed.

Lemma IsValidKey_ok mk s v : crypto_ok mk s -> unlocks_or_fails mk s v ->
  exists ok s', IsValidKey s v = Some (ok, s') /\ crypto_ok mk s'.
Proof.
  intros Hs Hv. pose proof (SetCrypted_ok mk s Hs) as Hc. unfold IsValidKey, unlocks_or_fails in *.
  destruct (SetCrypted s) as [[] s']; cbn [snd negb] in *; [|by do 2 eexists].
  destruct Hv as [-> | ->]; [|by do 2 eexists]. rewrite (first_key_matches_ok mk s') by done. by do 2 eexists.
Qed.

Lemma crypto_AddKey_ok mk s k n : crypto_ok mk s -> key_wf k n ->
  exists ok s', crypto_AddKey s k = Some (ok, s') /\ crypto_ok mk s'.
Proof.
  intros Hok Hk. pose proof Hok as (Hmk & Hb & Hu & Hm & Hs). unfold crypto_AddKey, IsLocked, IsCrypted.
  destruct (fUseCrypto s) eqn:Eu; cbn [negb].
  - destruct Hm as [->|Hm]; [by do 2 eexists|]. rewrite Hm. destruct mk as [|b mk']; [done|].
    destruct (GetPubKey_wf k n Hk) as (pk & Hpk & _). destruct (seal k n pk (b :: mk') Hk Hpk Hmk) as (v & c & Ev & Ec & Hse).
    rewrite Hpk. cbn -[EncryptSecret]. rewrite Ev. cbn -[EncryptSecret]. rewrite Ec. unfold AddCryptedKey, SetCrypted. rewrite Eu. cbn [negb].
    do 2 eexists. split; [done|]. unfold crypto_ok. cbn. rewrite Eu, Hm. split_and!; try done; [by right|].
    intros id e. rewrite lookup_insert_Some. intros [[<- <-]|[_ He]]; [by exists k|by apply Hs].
  - destruct (basic_AddKey_spec (ck_base s) k n Hb Hk) as (pk & v & _ & E & _ & Hb'). rewrite E. cbn.
    do 2 eexists. split; [done|]. unfold crypto_ok. cbn. by rewrite Eu.
Qed.

Lemma EncryptKeys_ok mk s : crypto_ok mk s -> exists ok s', EncryptKeys s mk = Some (ok, s') /\ crypto_ok mk s'.
Proof.
  intros (Hmk & Hb & Hu & Hm & Hs). destruct (fUseCrypto s) eqn:Eu.
  - exists false, s. unfold EncryptKeys, IsCrypted. rewrite Eu, orb_true_r. split; [done|]. unfold crypto_ok. by rewrite Eu.
  - destruct Hu as [Hv Hc]. destruct (EncryptKeys_spec mk s Hmk Hb Eu Hc) as (m & E & Hnone & Hsome).
    do 2 eexists. split; [exact E|]. split_and!; cbn; [done| |done|done|].
    + split; [intros id e He; by rewrite ?lookup_empty in He|apply Hb].
    + intros id e He. destruct (mapKeys (ck_base s) !! id) as [e0|] eqn:E0.
      * destruct (proj1 Hb id e0 E0) as [k Hk]. destruct (Hsome id e0 k E0 Hk) as (e' & E' & Hse). rewrite He in E'.
        injection E' as <-. by exists k.
      * apply Hnone in E0. by rewrite E0 in He.
Qed.
End facts.

(** The operations of a wallet on its store: [mk] is the master key that the
    wallet keeps under its pass phrases. *)
Inductive store_op `{EC} : Type :=
| OpAddKey (k : CKey)
| OpAddCScript (r : CScript)
| OpLock
| OpUnlock (v : list Z)
| OpIsValidKey (v : list Z)
| OpEncryptKeys.

Definition apply_op `{Crypto} `{EC} `{AES} (mk : list Z) (o : store_op) (s : CCryptoKeyStore) : option (bool * CCryptoKeyStore) :=
  match o with
  | OpAddKey k => AddKey s k
  | OpAddCScript r => Some (AddCScript s r)
  | OpLock => Some (Lock s)
  | OpUnlock v => Unlock s v
  | OpIsValidKey v => IsValidKey s v
  | OpEncryptKeys => EncryptKeys s mk
  end.

(** Keys added are well-formed, and a wrong master key is noticed. *)
Definition op_allowed `{Crypto} `{EC} `{AES} (mk : list Z) (o : store_op) (s : CCryptoKeyStore) : Prop :=
  match o with
  | OpAddKey k => exists n, key_wf k n
  | OpUnlock v | OpIsValidKey v => unlocks_or_fails mk s v
  | _ => True
  end.

Inductive reachable `{Crypto} `{EC} `{AES} (mk : list Z) : CCryptoKeyStore -> Prop :=
| reachable_new : reachable mk crypto_new
| reachable_op s o ok s' : reachable mk s -> op_allowed mk o s -> apply_op mk o s = Some (ok, s') -> reachable mk s'.

Section invariant.
Context `{CS : Crypto_spec} `{ES : EC_spec} `{AS : AES_spec}.

Lemma apply_op_ok mk o s : crypto_ok mk s -> op_allowed mk o s ->
  exists ok s', apply_op mk o s = Some (ok, s') /\ crypto_ok mk s'.
Proof.
  intros Hs Ho. destruct o as [k|r| |v|v|]; cbn in *.
  - destruct Ho as [n Hk]. by apply (crypto_AddKey_ok mk s k n).
  - do 2 eexists. split; [done|]. destruct Hs as (Hmk & Hb & Hs). split; [done|]. split; [by apply (basic_AddCScript_ok _ r) in Hb|done].
  - destruct (Lock s) as [ok s'] eqn:E. exists ok, s'. split; [done|]. pose proof (Lock_ok mk s Hs) as Hl. by rewrite E in Hl.
  - by apply Unlock_ok.
  - by apply IsValidKey_ok.
  - by apply EncryptKeys_ok.
Qed.

Lemma reachable_ok mk s : len mk = 32 -> reachable mk s -> crypto_ok mk s.
Proof.
  intros Hmk. induction 1 as [|s o ok s' _ IH Ho E].
  - split_and!; cbn; try done; try (by left); intros id e He; by rewrite ?lookup_empty in He.
  - destruct (apply_op_ok mk o s IH Ho) as (ok' & s1 & E1 & Hs1). rewrite E in E1. by injection E1 as _ <-.
Qed.
End invariant.

Section adding.
Context `{CS : Crypto_spec} `{ES : EC_spec} `{AS : AES_spec}.

Lemma unlocked_AddKey mk s k n pk : crypto_ok mk s -> IsLocked s = false -> key_wf k n -> key_GetPubKey k = Some pk ->
  exists s', key_GetPubKey k = Some pk /\ AddKey s k = Some (true, s') /\ GetKey s' (GetID pk) key_Reset = Some (Some k) /\
  forall id, id <> GetID pk -> GetKey s' id key_Reset = GetKey s id key_Reset.
Proof.
  intros (Hmk & Hb & Hu & Hm & Hs) Hl Hk Hpk. cbn. unfold IsLocked, IsCrypted in Hl. destruct (fUseCrypto s) eqn:Eu; cbn [negb] in Hl.
  - destruct Hm as [Hm|Hm]; [by rewrite Hm in Hl|].
    destruct (seal k n pk mk Hk Hpk Hmk) as (v & c & Ev & Ec & Hse).
    unfold crypto_AddKey, IsLocked, IsCrypted, AddCryptedKey, SetCrypted. rewrite Eu, Hl. cbn [negb]. rewrite Hpk. cbn.
    rewrite Ev. cbn. rewrite Hm, Ec, Eu. cbn [negb]. eexists. split_and!; [done..| |].
    + apply (crypto_GetKey_sealed mk _ _ k (pk, c)); [done..| |done]. cbn. by rewrite lookup_insert_eq.
    + intros id Hid. unfold crypto_GetKey, IsCrypted. cbn. rewrite Eu, Hm. cbn. by rewrite lookup_insert_ne.
  - destruct (basic_AddKey_spec (ck_base s) k n Hb Hk) as (pk' & v & Hpk' & E & Hpl & _). rewrite Hpk in Hpk'. injection Hpk' as <-.
    unfold crypto_AddKey, IsCrypted. rewrite Eu, E. cbn. eexists. split_and!; [done..| |].
    + unfold crypto_GetKey, IsCrypted. cbn. rewrite Eu. cbn. eapply basic_GetKey_plain; [|exact Hpl]. cbn. by rewrite lookup_insert_eq.
    + intros id Hid. unfold crypto_GetKey, IsCrypted, basic_GetKey. cbn. rewrite Eu. cbn. by rewrite lookup_insert_ne.
Qed.

Lemma encrypted_lookup mk s m id : crypto_ok mk s -> fUseCrypto s = false ->
  (forall id, m !! id = None <-> mapKeys (ck_base s) !! id = None) ->
  (forall id e k, mapKeys (ck_base s) !! id = Some e -> plain id k e -> exists e', m !! id = Some e' /\ sealed mk id k e') ->
  let s1 := mkCrypto (mkBasic ∅ (mapScripts (ck_base s))) true m (vMasterKey s) in
  HaveKey s1 id = HaveKey s id /\ GetPubKey s1 id = GetPubKey s id /\ GetCScript s1 id = GetCScript s id /\
  GetKey s1 id key_Reset = Some None /\ GetKey (set_master mk s1) id key_Reset = GetKey s id key_Reset.
Proof.
  intros (Hmk & Hb & Hu & _) Eu Hnone Hsome s1. rewrite Eu in Hu. destruct Hu as [Hv _].
  assert (Hlk : GetKey s1 id key_Reset = Some None) by (by apply crypto_GetKey_locked). rewrite Hlk.
  assert (Hg : GetKey s id key_Reset = basic_GetKey (ck_base s) id key_Reset) by (cbn; unfold crypto_GetKey, IsCrypted; by rewrite Eu).
  assert (Hp : GetPubKey s id = default_GetPubKey basic_GetKey (ck_base s) id).
  { cbn. unfold crypto_GetPubKey, default_GetPubKey, crypto_GetKey, IsCrypted. by rewrite Eu. }
  assert (Hh : HaveKey s id = basic_HaveKey (ck_base s) id) by (cbn; unfold crypto_HaveKey, IsCrypted; by rewrite Eu).
  rewrite Hg, Hp, Hh. unfold default_GetPubKey, basic_HaveKey. destruct (mapKeys (ck_base s) !! id) as [e|] eqn:E.
  - destruct (proj1 Hb id e E) as [k Hk]. destruct (Hsome id e k E Hk) as (e' & E' & Hse).
    rewrite (basic_GetKey_plain _ id k e) by done. pose proof Hse as (n & v & _ & Hpk & _).
    split_and!; [| |done|done|exact (crypto_GetKey_sealed mk (set_master mk s1) id k e' Hmk eq_refl eq_refl E' Hse)];
      cbn; unfold crypto_HaveKey, crypto_GetPubKey; cbn; by rewrite E', ?Hpk.
  - apply Hnone in E as E'. unfold basic_GetKey. rewrite E.
    split_and!; [| |done|done|]; cbn; unfold crypto_HaveKey, crypto_GetPubKey, crypto_GetKey; cbn; by rewrite E'.
Qed.
End adding.

(** ** Main theorems *)

(** (C37) Encrypted key store, its contract.  In every state that the operations can
    reach: no plain key stays beside encrypted ones, and no master key is held
    before encryption; no operation throws; a key or script is found only under
    its own hash, with the public key that belongs to it; and an unlocked store
    (or a plain one) takes every key: it is found afterwards as it was added and
    the other keys are unaffected. *)
Theorem key_store_contract `{CS : Crypto_spec} `{ES : EC_spec} `{AS : AES_spec} mk s :
  len mk = 32 -> reachable mk s ->
  (if fUseCrypto s then mapKeys (ck_base s) = ∅ else vMasterKey s = [] /\ mapCryptedKeys s = ∅) /\
  (forall o, op_allowed mk o s -> is_Some (apply_op mk o s)) /\
  (forall id, is_Some (GetKey s id key_Reset)) /\
  (forall id k, GetKey s id key_Reset = Some (Some k) -> HaveKey s id = true /\
     exists n pk, key_wf k n /\ key_GetPubKey k = Some pk /\ GetID pk = id /\ GetPubKey s id = Some (Some pk)) /\
  (forall id r, GetCScript s id = Some r -> script_GetID r = id /\ HaveCScript s id = true) /\
  (forall k n, IsLocked s = false -> key_wf k n -> exists pk s',
     key_GetPubKey k = Some pk /\ AddKey s k = Some (true, s') /\ GetKey s' (GetID pk) key_Reset = Some (Some k) /\
     forall id, id <> GetID pk -> GetKey s' id key_Reset = GetKey s id key_Reset).
Proof.
  intros Hmk Hr. pose proof (reachable_ok mk s Hmk Hr) as Hok. pose proof (crypto_store_spec mk) as Hspec.
  split_and!.
  - apply Hok.
  - intros o Ho. destruct (apply_op_ok mk o s Hok Ho) as (ok & s' & E & _). by eexists.
  - intros id. by apply GetKey_safe.
  - intros id k. by apply GetKey_sound.
  - intros id r. by apply GetCScript_sound.
  - intros k n Hl Hk. destruct (GetPubKey_wf k n Hk) as (pk & Hpk & _). exists pk. by apply (unlocked_AddKey mk s k n pk).
Qed.

(** (C38) Encrypting the wallet.  [EncryptKeys] on a plain store succeeds and leaves
    no plain secret; the store still answers for the same key identifiers and
    public keys and has the same scripts; locked it gives out no key; and the
    master key unlocks it, after which every key is exactly what it was. *)
Theorem encrypted_store_keeps_keys `{CS : Crypto_spec} `{ES : EC_spec} `{AS : AES_spec} mk s :
  len mk = 32 -> reachable mk s -> IsCrypted s = false ->
  exists s1 s2, EncryptKeys s mk = Some (true, s1) /\ IsCrypted s1 = true /\ mapKeys (ck_base s1) = ∅ /\
    IsLocked s1 = true /\ Unlock s1 mk = Some (true, s2) /\ IsLocked s2 = false /\
    forall id, HaveKey s1 id = HaveKey s id /\ GetPubKey s1 id = GetPubKey s id /\ GetCScript s1 id = GetCScript s id /\
      GetKey s1 id key_Reset = Some None /\ GetKey s2 id key_Reset = GetKey s id key_Reset.
Proof.
  intros Hmk Hr Hc. pose proof (reachable_ok mk s Hmk Hr) as Hok. pose proof Hok as (_ & Hb & Hu & _).
  unfold IsCrypted in Hc. rewrite Hc in Hu. destruct Hu as [Hv Hm].
  destruct (EncryptKeys_spec mk s Hmk Hb Hc Hm) as (m & E & Hnone & Hsome).
  destruct (EncryptKeys_ok mk s Hok) as (ok & s1 & E1 & Hok1). rewrite E in E1. injection E1 as <- <-.
  set (s1 := mkCrypto _ _ _ _) in *. exists s1, (set_master mk s1).
  assert (Eu : Unlock s1 mk = Some (true, set_master mk s1)).
  { unfold Unlock, SetCrypted. cbn [fUseCrypto s1 negb]. by rewrite (first_key_matches_ok mk s1). }
  split_and!; [done..| |done| |].
  - unfold IsLocked, IsCrypted. cbn. by rewrite Hv.
  - unfold IsLocked, IsCrypted. cbn. by destruct mk.
  - intros id. by apply (encrypted_lookup mk s m).
Qed.

(** ** An implementation of the specification and examples *)

#[local] Instance AES_toy : AES := {|
  EVP_Encrypt key iv m := Some (rev m);
  EVP_Decrypt key iv c := Some (rev c);
  EVP_BytesToKey salt data n := (32, replicate 32 n, replicate 32 0)
|}.

Lemma AES_toy_spec : AES_spec.
Proof. split; [by eexists|]. intros key iv m c _ [= <-]. cbn. by rewrite rev_involutive. Qed.

#[local] Existing Instance Crypto_toy.
#[local] Existing Instance EC_toy.

Definition example_id : CKeyID := GetID (mkPubKey (2 :: 7 :: replicate 31 0)).

Definition example_store : CCryptoKeyStore :=
  match AddKey crypto_new example_key with Some (_, s) => s | None => crypto_new end.

Lemma example_store_reachable : reachable (replicate 32 1) example_store.
Proof.
  apply (reachable_op _ crypto_new (OpAddKey example_key) true); [constructor| |by vm_compute].
  exists 7. apply example_key_wf.
Qed.

Lemma example_store_GetKey : GetKey example_store example_id key_Reset = Some (Some example_key).
Proof.
  destruct (@GetPubKey_wf EC_toy EC_toy_spec example_key 7 example_key_wf) as (pk & Hpk & _).
  destruct (@unlocked_AddKey Crypto_toy Crypto_toy_spec EC_toy EC_toy_spec AES_toy AES_toy_spec (replicate 32 1) crypto_new example_key 7 pk)
    as (s' & _ & E & Hg & _); [|done|apply example_key_wf|done|].
  - apply (@reachable_ok Crypto_toy Crypto_toy_spec EC_toy EC_toy_spec AES_toy AES_toy_spec); [done|constructor].
  - unfold example_store. rewrite E. vm_compute in Hpk. injection Hpk as <-. exact Hg.
Qed.

Lemma key_store_contract_witness :
  exists s', AddKey crypto_new example_key = Some (true, s') /\ GetKey s' example_id key_Reset = Some (Some example_key).
Proof.
  destruct (@key_store_contract Crypto_toy Crypto_toy_spec EC_toy EC_toy_spec AES_toy AES_toy_spec (replicate 32 1) crypto_new
    eq_refl (reachable_new _)) as (_ & _ & _ & _ & _ & Ha).
  destruct (Ha example_key 7 eq_refl example_key_wf) as (pk & s' & Hpk & E & Hg & _).
  exists s'. split; [exact E|]. vm_compute in Hpk. injection Hpk as <-. exact Hg.
Defined.

Lemma encrypted_store_keeps_keys_witness :
  exists s1 s2, EncryptKeys example_store (replicate 32 1) = Some (true, s1) /\ mapKeys (ck_base s1) = ∅ /\
    Unlock s1 (replicate 32 1) = Some (true, s2) /\ GetKey s2 example_id key_Reset = Some (Some example_key).
Proof.
  destruct (@encrypted_store_keeps_keys Crypto_toy Crypto_toy_spec EC_toy EC_toy_spec AES_toy AES_toy_spec (replicate 32 1) example_store
    eq_refl example_store_reachable eq_refl) as (s1 & s2 & E & _ & Hm & _ & Eu & _ & Hl).
  exists s1, s2. split; [exact E|]. split; [exact Hm|]. split; [exact Eu|].
  destruct (Hl example_id) as (_ & _ & _ & _ & Hg). rewrite Hg. exact example_store_GetKey.
Defined.
