(* ===== verification/Stealth.v ===== *)
(** * stealth.h, stealth.cpp: stealth addresses and one-time keys

    A stealth address is a pair of public keys: a scan key and a spend key.
    Whoever pays it draws an ephemeral secret, publishes its public key and
    pays a one-time key that only the owner of the address can find and spend.
    The curve is OpenSSL's: the class [EC_curve] adds to [EC] the operations on
    points that stealth.cpp calls, and [EC_curve_spec] what EC_POINT_add(3),
    EC_POINT_mul(3) and EC_POINT_point2bn(3) say of secp256k1.  A function that
    returns an [int] gives [None] where the code returns a value other than 0:
    no caller reads what it wrote then.  BN_bin2bn and BN_bn2bin fail only for
    want of memory. *)
From Stdlib Require Import ZArith Lia Bool.
From stdpp Require Import prelude.
From S2P Require Import Prelude Uint256 DataStream Serialize Crypto Bignum Base58 Keys KeyStore.

Class EC_curve `{EC} : Type := {
  (** EC_POINT_new(3) *)
  EC_POINT_new : EC_POINT;
  (** EC_POINT_mul(group, r, NULL, q, m, ctx): a multiple of the point [q]. *)
  EC_POINT_scale : EC_POINT -> Z -> option EC_POINT;
  EC_POINT_add : EC_POINT -> EC_POINT -> option EC_POINT;
  (** EC_POINT_point2bn(3) in the compressed form. *)
  EC_POINT_point2bn : EC_POINT -> option Z;
  EC_POINT_bn2point : Z -> option EC_POINT
}.

(** The multiples of the generator are a group whose order is [EC_order]; a
    point that is not at infinity has a number of 33 bytes, from which it can be
    read back, and which are the bytes of the public key in its compressed form;
    the point at infinity is a single zero byte. *)
Class EC_curve_spec `{EC_curve} : Prop := {
  curve_order : forall n, EC_POINT_mul (n mod EC_order) = EC_POINT_mul n;
  curve_scale : forall a b P, EC_POINT_mul a = Some P -> EC_POINT_scale P b = EC_POINT_mul (a * b);
  curve_add : forall a b P Q, EC_POINT_mul a = Some P -> EC_POINT_mul b = Some Q -> EC_POINT_add P Q = EC_POINT_mul (a + b);
  curve_number : forall n P, EC_POINT_mul n = Some P -> n mod EC_order <> 0 ->
    exists z, EC_POINT_point2bn P = Some z /\ 0 <= z /\ len (be_bytes z) = 33 /\ EC_POINT_bn2point z = Some P;
  curve_infinity : forall n P, EC_POINT_mul n = Some P -> n mod EC_order = 0 -> EC_POINT_point2bn P = Some 0;
  curve_i2o : forall n k P z, key_pair n true k -> EC_POINT_mul n = Some P -> EC_POINT_point2bn P = Some z ->
    i2o_ECPublicKey k = be_bytes z
}.

(** ** Checksums and addresses *)

Definition stealth_version_byte : Z := 0x28.
Definition maxStealth : base_uint :=
  bu_SetHex 8 (replicate 31 70 ++ [69; 66; 65; 65; 69; 68; 67; 69; 54; 65; 70; 52; 56; 65; 48; 51; 66; 66; 70; 68; 50; 53; 69; 56; 67; 68; 48; 51; 54; 52; 49; 52; 48]).
Definition minStealth : base_uint := bu_of_uint64 8 16000.

(** [from_little_endian<uint32_t>]: [in] has the four bytes read. *)
Definition from_little_endian32 (l : list Z) : Z :=
  fold_left (fun out '(i, b) => u32 (Z.lor out (u32 (Z.shiftl b (8 * Z.of_nat i))))) (imap pair (take 4 l)) 0.

Section checksum.
Context `{Crypto}.

Definition BitcoinChecksum (p : list Z) : Z :=
  match p with
  | [] => 0
  | _ => let hash1 := SHA256 p in
         let hash2 := SHA256 hash1 in
         from_little_endian32 hash2
  end.

(** [tmp[i] = checksum & 0xFF; checksum >>= 8] *)
Fixpoint checksum_bytes (n : nat) (checksum : Z) : list Z :=
  match n with
  | O => []
  | S n => Z.land checksum 0xFF :: checksum_bytes n (Z.shiftr checksum 8)
  end.

Definition AppendChecksum (data : list Z) : list Z := data ++ checksum_bytes 4 (BitcoinChecksum data).

Definition VerifyChecksum (data : list Z) : bool :=
  if len data <? 4 then false
  else
    let n := (length data - 4)%nat in
    BitcoinChecksum (take n data) =? from_little_endian32 (drop n data).
End checksum.

Section addresses.
Context `{BN} `{Crypto}.

(** The raw bytes of a text that both functions below accept. *)
Definition stealth_raw (encodedAddress : list Z) : option (list Z) :=
  match DecodeBase58 encodedAddress with
  | None => None
  | Some raw =>
      if negb (VerifyChecksum raw) then None
      else if len raw <? 1 + 1 + 33 + 1 + 33 + 1 + 1 + 4 then None
      else if negb (znth raw 0 =? stealth_version_byte) then None
      else Some raw
  end.

Definition IsStealthAddress (encodedAddress : list Z) : bool := bool_decide (is_Some (stealth_raw encodedAddress)).

(** The byte that counts the spend keys is skipped. *)
Definition SetEncoded (a : CStealthAddress) (encodedAddress : list Z) : bool * CStealthAddress :=
  match stealth_raw encodedAddress with
  | None => (false, a)
  | Some raw =>
      (true, mkStealth (znth raw 1) (take 33 (drop 2 raw)) (take 33 (drop 36 raw)) (number_signatures a) (prefix a)
               (label a) (scan_secret a) (spend_secret a) (isEnigmaAddress a))
  end.

Definition Encoded (a : CStealthAddress) : option (list Z) :=
  let raw := [stealth_version_byte; options a] ++ scan_pubkey a ++ [1] ++ spend_pubkey a ++ [0; 0] in
  EncodeBase58 (AppendChecksum raw).
End addresses.

(** ** Secrets *)

Definition secret_in_range (test : base_uint) : bool := bu_gt test minStealth && bu_lt test maxStealth.

Section secrets.
Context `{Crypto}.

(** Hashes at most 32 times, until the number is in range. *)
Fixpoint enigma_tries (n : nat) (test : base_uint) : option (list Z) :=
  match n with
  | O => None
  | S n => let test := Hash (bu_bytes test) in
           if secret_in_range test then Some (bu_bytes test) else enigma_tries n test
  end.

Definition GenerateEnigmaSecret (sourceHash cloakerHash : base_uint) (index : Z) : option (list Z) :=
  if 60 <=? index then None
  else enigma_tries 32 (GetEnigmaHash3 cloakerHash sourceHash (bu_of_uint64 8 index)).

(** RAND_bytes(3): the [k]-th 32 bytes drawn. *)
Context (RAND_bytes : nat -> list Z).

Fixpoint random_tries (n : nat) (k : nat) : option (list Z) * nat :=
  match n with
  | O => (None, k)
  | S n => let test := words_of_bytes (RAND_bytes k) in
           if secret_in_range test then (Some (bu_bytes test), S k) else random_tries n (S k)
  end.

Definition GenerateRandomSecret (k : nat) : option (list Z) * nat := random_tries 32 k.
End secrets.

(** ** One-time keys *)

Section one_time.
Context `{Crypto} `{EC_curve}.

(** The bytes of a point, when they are 33. *)
Definition point_bytes (P : EC_POINT) : option (list Z) :=
  bn ← EC_POINT_point2bn P;
  if negb (len (be_bytes bn) =? ec_compressed_size) then None else Some (be_bytes bn).

(** The result of the multiplication is not looked at. *)
Definition SecretToPublicKey (secret : list Z) : option (list Z) :=
  let pub := default EC_POINT_new (EC_POINT_mul (of_be secret)) in
  point_bytes pub.

(** [sharedSOut] and [pkOut] *)
Definition StealthSecret (secret pubkey pkSpend : list Z) : option (list Z * list Z) :=
  let bnEphem := of_be secret in
  Q ← EC_POINT_bn2point (of_be pubkey);
  Q ← EC_POINT_scale Q bnEphem;
  vchOutQ ← point_bytes Q;
  let sharedSOut := SHA256 vchOutQ in
  let bnc := of_be sharedSOut in
  _ ← EC_POINT_mul bnc;
  R ← EC_POINT_bn2point (of_be pkSpend);
  C ← EC_POINT_mul bnc;
  Rout ← EC_POINT_add R C;
  pkOut ← point_bytes Rout;
  Some (sharedSOut, pkOut).

(** [bnSpend] modulo the order, which must not be zero, as 32 bytes. *)
Definition secret_sum (bnc bnSpend : Z) : option (list Z) :=
  let bnSpend := (bnSpend + bnc) mod EC_order in
  if bnSpend =? 0 then None
  else if ec_secret_size <? len (be_bytes bnSpend) then None
  else Some (replicate (32 - length (be_bytes bnSpend)) 0 ++ be_bytes bnSpend).

Definition StealthSecretSpend (scanSecret ephemPubkey spendSecret : list Z) : option (list Z) :=
  let bnScanSecret := of_be scanSecret in
  P ← EC_POINT_bn2point (of_be ephemPubkey);
  P ← EC_POINT_scale P bnScanSecret;
  vchOutP ← point_bytes P;
  let hash1 := SHA256 vchOutP in
  secret_sum (of_be hash1) (of_be spendSecret).

Definition StealthSharedToSecretSpend (sharedS spendSecret : list Z) : option (list Z) :=
  secret_sum (of_be sharedS) (of_be spendSecret).
End one_time.

(** ** [SecMsgCrypter] *)

Section crypter.
Context `{AES}.

Record SecMsgCrypter : Type := mkSecMsg { sm_chKey : list Z; sm_chIV : list Z; sm_fKeySet : bool }.

(** The arguments have at least 32 and 16 bytes. *)
Definition sm_SetKey (chNewKey chNewIV : list Z) : SecMsgCrypter := mkSecMsg (take 32 chNewKey) (take 16 chNewIV) true.

Definition sm_SetKey_vector (c : SecMsgCrypter) (vchNewKey chNewIV : list Z) : bool * SecMsgCrypter :=
  if len vchNewKey <? 32 then (false, c) else (true, sm_SetKey vchNewKey chNewIV).

Definition sm_Encrypt (c : SecMsgCrypter) (chPlaintext : list Z) : option (list Z) :=
  if negb (sm_fKeySet c) then None else EVP_Encrypt (sm_chKey c) (sm_chIV c) chPlaintext.

Definition sm_Decrypt (c : SecMsgCrypter) (chCiphertext : list Z) : option (list Z) :=
  if negb (sm_fKeySet c) then None else EVP_Decrypt (sm_chKey c) (sm_chIV c) chCiphertext.
End crypter.

(** ** Lemmas *)

Lemma from_le32_value l : digits 256 l -> length l = 4%nat -> from_little_endian32 l = of_digits 256 l.
Proof.
  intros Hd Hl. destruct l as [|a [|b [|c [|d [|]]]]]; try done. unfold digits in Hd. repeat (apply Forall_cons in Hd as [? Hd]).
  unfold from_little_endian32. cbn -[wrap Z.lor Z.shiftl].
  rewrite !Z.shiftl_mul_pow2 by lia.
  rewrite (wrap_id 32 (a * _)), (wrap_id 32 (b * _)), (wrap_id 32 (c * _)), (wrap_id 32 (d * _)) by (unfold fits; lia).
  rewrite Z.lor_0_l, (wrap_id 32 (a * _)), Z.mul_1_r by (unfold fits; lia).
  change (8 * Z.of_nat 1) with 8. change (8 * Z.of_nat 2) with 16. change (8 * Z.of_nat 3) with 24.
  rewrite (lor_low_high a b 8), (wrap_id 32 (a + b * 2 ^ 8)) by (unfold fits; lia).
  rewrite (lor_low_high _ c 16), (wrap_id 32 (a + b * 2 ^ 8 + c * 2 ^ 16)) by (unfold fits; lia).
  rewrite (lor_low_high _ d 24), (wrap_id 32) by (unfold fits; lia). lia.
Qed.

Lemma checksum_bytes_value n c : 0 <= c -> checksum_bytes n c = to_digits 256 n c.
Proof.
  revert c. induction n as [|n IH]; intros c Hc; [done|]. cbn [checksum_bytes to_digits].
  change 255 with (Z.ones 8). rewrite (Z.land_ones c 8), Z.shiftr_div_pow2, IH by (try apply Z.div_pos; lia). done.
Qed.

Section codec_facts.
Context `{BNS : BN_spec} `{CS : Crypto_spec}.

Lemma checksum_value p : p <> [] -> BitcoinChecksum p = of_digits 256 (take 4 (bu_bytes (Hash p))).
Proof.
  intros Hp. unfold BitcoinChecksum. destruct p as [|x p]; [done|]. unfold Hash.
  destruct (SHA256_ok (x :: p)) as [Hd1 Hl1]. rewrite (bu_bytes_words 8 (SHA256 (x :: p))) by done.
  destruct (SHA256_ok (SHA256 (x :: p))) as [Hd2 Hl2]. rewrite (bu_bytes_words 8) by done.
  rewrite <- from_le32_value; [|by apply Forall_take|by rewrite length_take, Hl2].
  unfold from_little_endian32. by rewrite take_take.
Qed.

(** The checksum is the one of base58.h. *)
Lemma AppendChecksum_value d : d <> [] -> AppendChecksum d = d ++ take 4 (bu_bytes (Hash d)).
Proof.
  intros Hd. unfold AppendChecksum. rewrite checksum_value by done. destruct (checksum_ok d) as [Hc Hl]. f_equal.
  rewrite checksum_bytes_value by (apply of_digits_bound; [lia|done]). rewrite <- Hl at 1. by apply to_of_digits.
Qed.

Lemma VerifyChecksum_value r : digits 256 r -> 4 < len r ->
  VerifyChecksum r = bytes_eqb (take 4 (bu_bytes (Hash (take (length r - 4) r)))) (drop (length r - 4) r).
Proof.
  intros Hr Hl. unfold VerifyChecksum. destruct (Z.ltb_spec (len r) 4); [lia|]. unfold len in *.
  set (n := (length r - 4)%nat). assert (take n r <> []) as Hne.
  { intros E. apply (f_equal length) in E. rewrite length_take in E. cbn in E. lia. }
  rewrite checksum_value by done. destruct (checksum_ok (take n r)) as [Hc Hcl].
  rewrite from_le32_value; [|by apply Forall_drop|rewrite length_drop; unfold n; lia].
  destruct (bytes_eqb _ _) eqn:E.
  - apply bytes_eqb_eq in E. rewrite E. apply Z.eqb_refl.
  - apply Z.eqb_neq. intros Ev. apply not_true_iff_false in E. apply E, bytes_eqb_eq.
    apply (of_digits_inj 256); [lia|done|by apply Forall_drop|rewrite Hcl, length_drop; unfold n; lia|done].
Qed.
End codec_facts.

(** What the text of an address stands for. *)
Definition stealth_bytes (a : CStealthAddress) : list Z :=
  [stealth_version_byte; options a] ++ scan_pubkey a ++ [1] ++ spend_pubkey a ++ [0; 0].

Definition address_ok (a : CStealthAddress) : Prop :=
  fits 8 (options a) /\ digits 256 (scan_pubkey a) /\ len (scan_pubkey a) = 33 /\
  digits 256 (spend_pubkey a) /\ len (spend_pubkey a) = 33.

(** The address [b] with the public part of [a]. *)
Definition with_public (a b : CStealthAddress) : CStealthAddress :=
  mkStealth (options a) (scan_pubkey a) (spend_pubkey a) (number_signatures b) (prefix b) (label b)
    (scan_secret b) (spend_secret b) (isEnigmaAddress b).

Section address_facts.
Context `{BNS : BN_spec} `{CS : Crypto_spec}.

Lemma stealth_bytes_ok a : address_ok a -> digits 256 (stealth_bytes a) /\ length (stealth_bytes a) = 71%nat.
Proof.
  intros (Ho & H1 & L1 & H2 & L2). unfold stealth_bytes, len in *. split.
  - change (2 ^ 8) with 256 in *. unfold fits in Ho. repeat (apply Forall_app; split); try done; forall_list; unfold stealth_version_byte; lia.
  - rewrite !length_app. cbn. lia.
Qed.

Lemma stealth_raw_of a : address_ok a -> forall s, DecodeBase58 s = Some (AppendChecksum (stealth_bytes a)) ->
  stealth_raw s = Some (AppendChecksum (stealth_bytes a)).
Proof.
  intros Ha s Es. destruct (stealth_bytes_ok a Ha) as [Hd Hl]. unfold stealth_raw. rewrite Es.
  rewrite AppendChecksum_value by (intros E; by rewrite E in Hl). destruct (checksum_ok (stealth_bytes a)) as [Hc Hcl].
  assert (length (stealth_bytes a ++ take 4 (bu_bytes (Hash (stealth_bytes a)))) = 75%nat) as Hlen by (rewrite length_app; lia).
  rewrite VerifyChecksum_value; [|by apply Forall_app|unfold len; lia]. rewrite Hlen. change (75 - 4)%nat with 71%nat.
  rewrite <- Hl, take_app_length, drop_app_length, bytes_eqb_refl. unfold len. rewrite Hlen. done.
Qed.

Lemma encoded_decodes a : address_ok a ->
  exists s, Encoded a = Some s /\ EncodeBase58Check (stealth_bytes a) = Some s /\ stealth_raw s = Some (AppendChecksum (stealth_bytes a)).
Proof.
  intros Ha. destruct (stealth_bytes_ok a Ha) as [Hd Hl]. destruct (checksum_ok (stealth_bytes a)) as [Hc Hcl].
  assert (AppendChecksum (stealth_bytes a) = stealth_bytes a ++ take 4 (bu_bytes (Hash (stealth_bytes a)))) as EA by (apply AppendChecksum_value; intros E; by rewrite E in Hl).
  destruct (decode_encode (AppendChecksum (stealth_bytes a))) as (s & Ee & Ed & _).
  - rewrite EA. by apply Forall_app.
  - rewrite EA. unfold len. rewrite length_app. lia.
  - exists s. split_and!; [exact Ee| |by apply stealth_raw_of]. unfold EncodeBase58Check. by rewrite <- EA.
Qed.

Lemma raw_fields a l : address_ok a -> let raw := stealth_bytes a ++ l in
  znth raw 1 = options a /\ take 33 (drop 2 raw) = scan_pubkey a /\ take 33 (drop 36 raw) = spend_pubkey a.
Proof.
  intros (Ho & H1 & L1 & H2 & L2) raw. unfold raw, stealth_bytes. assert (length (scan_pubkey a) = 33%nat) as E1 by (unfold len in L1; lia).
  assert (length (spend_pubkey a) = 33%nat) as E2 by (unfold len in L2; lia). cbn [app]. split_and!; [done|..].
  - cbn [drop]. rewrite <- app_assoc. rewrite <- E1. apply take_app_length.
  - change (drop 36 ?l) with (drop 34 (drop 2 l)). cbn [drop]. rewrite <- app_assoc, drop_0.
    replace 34%nat with (length (scan_pubkey a) + 1)%nat by lia. rewrite <- drop_drop, drop_app_length. cbn [drop app].
    rewrite <- app_assoc, <- E2. apply take_app_length.
Qed.

(** A stealth address with public keys of 33 bytes has one text, the Base58Check
    form of its bytes, which is recognised and read back to the same options and
    keys; addresses with the same text have the same keys. *)
Theorem stealth_address_codec a b : address_ok a ->
  exists s, Encoded a = Some s /\ EncodeBase58Check (stealth_bytes a) = Some s /\ IsStealthAddress s = true /\
    SetEncoded b s = (true, with_public a b) /\
    (forall a', address_ok a' -> Encoded a' = Some s -> with_public a' b = with_public a b).
Proof.
  intros Ha. assert (forall a, address_ok a -> exists s, Encoded a = Some s /\ EncodeBase58Check (stealth_bytes a) = Some s /\
    IsStealthAddress s = true /\ SetEncoded b s = (true, with_public a b)) as Hall.
  { clear a Ha. intros a Ha. destruct (encoded_decodes a Ha) as (s & E1 & E2 & E3). exists s. unfold IsStealthAddress, SetEncoded.
    rewrite E3. split_and!; [done..|]. unfold AppendChecksum. destruct (raw_fields a (checksum_bytes 4 (BitcoinChecksum (stealth_bytes a))) Ha) as (-> & -> & ->). done. }
  destruct (Hall a Ha) as (s & E1 & E2 & E3 & E4). exists s. split_and!; [done..|]. intros a' Ha' E'.
  destruct (Hall a' Ha') as (s' & E1' & _ & _ & E4'). rewrite E1' in E'. injection E' as ->. rewrite E4' in E4. congruence.
Qed.
End address_facts.

(** ** One-time keys *)

Section curve_facts.
Context `{CS : Crypto_spec} `{CV : EC_curve_spec} {ES : EC_spec}.

(** The bytes of the public key of a number. *)
Definition pubkey_of (n : Z) : option (list Z) := P ← EC_POINT_mul n; point_bytes P.

Lemma pubkey_of_mod n : pubkey_of (n mod EC_order) = pubkey_of n.
Proof. unfold pubkey_of. by rewrite curve_order. Qed.

Lemma pubkey_of_cases n :
  (n mod EC_order = 0 /\ pubkey_of n = None) \/
  (n mod EC_order <> 0 /\ exists P z, EC_POINT_mul n = Some P /\ EC_POINT_point2bn P = Some z /\ pubkey_of n = Some (be_bytes z) /\
     len (be_bytes z) = 33 /\ EC_POINT_bn2point (of_be (be_bytes z)) = Some P).
Proof.
  destruct (EC_POINT_mul_total n) as [P E]. unfold pubkey_of, point_bytes. rewrite E. cbn.
  destruct (decide (n mod EC_order = 0)) as [Hz|Hz]; [left|right]; (split; [done|]).
  - rewrite (curve_infinity n P E Hz). done.
  - destruct (curve_number n P E Hz) as (z & Ez & Hz0 & Hl & Hb). exists P, z. rewrite Ez. cbn. rewrite Hl. cbn. rewrite of_be_bytes by done. done.
Qed.

Lemma SecretToPublicKey_value s : SecretToPublicKey s = pubkey_of (of_be s).
Proof. unfold SecretToPublicKey, pubkey_of. destruct (EC_POINT_mul_total (of_be s)) as [P ->]. done. Qed.

Lemma public_point s b : SecretToPublicKey s = Some b ->
  exists P, EC_POINT_mul (of_be s) = Some P /\ EC_POINT_bn2point (of_be b) = Some P.
Proof.
  rewrite SecretToPublicKey_value. destruct (pubkey_of_cases (of_be s)) as [[_ ->]|(_ & P & z & E1 & _ & -> & _ & Hb)]; [done|].
  intros [= <-]. by exists P.
Qed.

Lemma StealthSecret_value e d f Q R : SecretToPublicKey d = Some Q -> SecretToPublicKey f = Some R ->
  StealthSecret e Q R =
    b ← pubkey_of (of_be d * of_be e); pk ← pubkey_of (of_be f + of_be (SHA256 b)); Some (SHA256 b, pk).
Proof.
  intros HQ HR. destruct (public_point d Q HQ) as (PQ & MQ & BQ). destruct (public_point f R HR) as (PR & MR & BR).
  unfold StealthSecret. rewrite BQ. cbn. rewrite (curve_scale _ _ _ MQ). unfold pubkey_of.
  destruct (EC_POINT_mul_total (of_be d * of_be e)) as [S ES']. rewrite ES'. cbn. destruct (point_bytes S) as [b|]; [|done]. cbn.
  destruct (EC_POINT_mul_total (of_be (SHA256 b))) as [C EC']. rewrite EC'. cbn. rewrite BR. cbn.
  rewrite (curve_add _ _ _ _ MR EC'). destruct (EC_POINT_mul (of_be f + of_be (SHA256 b))); reflexivity.
Qed.

Lemma StealthSecretSpend_value e d f P : SecretToPublicKey e = Some P ->
  StealthSecretSpend d P f = b ← pubkey_of (of_be e * of_be d); secret_sum (of_be (SHA256 b)) (of_be f).
Proof.
  intros HP. destruct (public_point e P HP) as (PP & MP & BP). unfold StealthSecretSpend. rewrite BP. cbn.
  rewrite (curve_scale _ _ _ MP). unfold pubkey_of. destruct (EC_POINT_mul_total (of_be e * of_be d)) as [S ->]. cbn.
  by destruct (point_bytes S).
Qed.

Lemma secret_sum_cases c f :
  ((f + c) mod EC_order = 0 /\ secret_sum c f = None) \/
  (exists s, secret_sum c f = Some s /\ of_be s = (f + c) mod EC_order /\ secret_ok s).
Proof.
  unfold secret_sum. pose proof EC_order_range as Hord. assert (0 <= (f + c) mod EC_order < EC_order) as Hb by (apply Z.mod_pos_bound; lia).
  destruct (Z.eqb_spec ((f + c) mod EC_order) 0) as [E|E]; [by left|right]. set (n := (f + c) mod EC_order) in *.
  assert (len (be_bytes n) <= 32) as Hl.
  { rewrite len_be_bytes. apply Z.lt_succ_r, Z.div_lt_upper_bound; [lia|]. enough (nbits n <= 256) by lia.
    destruct (Z.le_gt_cases (nbits n) 256); [done|]. destruct (nbits_low n ltac:(lia)) as [Hlow _].
    assert (2 ^ 256 <= 2 ^ (nbits n - 1)) by (apply Z.pow_le_mono_r; lia). lia. }
  unfold ec_secret_size. destruct (Z.ltb_spec 32 (len (be_bytes n))); [lia|]. eexists. split; [done|].
  assert (of_be (replicate (32 - length (be_bytes n)) 0 ++ be_bytes n) = n) as Ev by (rewrite of_be_leading; apply of_be_bytes; lia).
  split; [done|]. unfold secret_ok. rewrite Ev. split_and!; [|unfold len in *; rewrite length_app, length_replicate; lia|lia..].
  apply digits_replicate_app; [lia|apply be_bytes_ok].
Qed.

(** The key that [CKey] makes of a secret has the bytes that [SecretToPublicKey] gives. *)
Lemma key_of_secret s pk : secret_ok s -> SecretToPublicKey s = Some pk ->
  exists k, key_SetSecret key_Reset s true = Some k /\ key_wf k (of_be s) /\ fCompressedPubKey k = true /\ key_GetPubKey k = Some (mkPubKey pk).
Proof.
  intros (Hd & Hl & Hr) Hpk. rewrite SecretToPublicKey_value in Hpk.
  destruct (pubkey_of_cases (of_be s)) as [[_ E]|(_ & P & z & E1 & E2 & E3 & El & _)]; [by rewrite E in Hpk|].
  rewrite E3 in Hpk. injection Hpk as <-. unfold key_SetSecret. rewrite Hl. cbn. unfold EC_KEY_regenerate_key. rewrite E1. cbn.
  eexists. split; [done|]. cbn.
  assert (key_pair (of_be s) true (EC_KEY_set_compressed (EC_KEY_set_public_key (EC_KEY_set_private_key EC_KEY_new (of_be s)) P))) as Hp by (split; [done|]; by exists P).
  split; [split; cbn; done|]. split; [done|]. unfold key_GetPubKey, SetCompressedPubKey. cbn. rewrite (curve_i2o _ _ _ _ Hp E1 E2).
  destruct (be_bytes z); [done|done].
Qed.
End curve_facts.

(** (C14) A payment to a stealth address can be found and spent by its owner and
    only involves the shared secret: the sender, who knows the ephemeral secret and
    the public keys, and the owner, who knows the scan secret and the ephemeral
    key, compute the same shared secret and one-time public key or both fail; and
    where they succeed the owner's secret, from the spend secret directly or later
    from the stored shared secret, is in range, makes a valid key, and has the
    one-time key as its public key. *)
Theorem stealth_payment_spendable `{CS : Crypto_spec} `{CV : EC_curve_spec} {ES : EC_spec} e d f P Q R :
  SecretToPublicKey e = Some P -> SecretToPublicKey d = Some Q -> SecretToPublicKey f = Some R ->
  StealthSecret e Q R = StealthSecret d P R /\
  (StealthSecret e Q R = None <-> StealthSecretSpend d P f = None) /\
  (forall c pk, StealthSecret e Q R = Some (c, pk) ->
     exists s, StealthSecretSpend d P f = Some s /\ StealthSharedToSecretSpend c f = Some s /\
       secret_ok s /\ SecretToPublicKey s = Some pk /\
       exists k, key_SetSecret key_Reset s true = Some k /\ key_wf k (of_be s) /\ key_GetPubKey k = Some (mkPubKey pk)).
Proof.
  intros HP HQ HR. rewrite (StealthSecret_value e d f Q R HQ HR), (StealthSecret_value d e f P R HP HR), (StealthSecretSpend_value e d f P HP).
  rewrite (Z.mul_comm (of_be e)). split; [done|]. destruct (pubkey_of (of_be d * of_be e)) as [b|]; [|done]. cbn.
  destruct (secret_sum_cases (of_be (SHA256 b)) (of_be f)) as [[Hz Es]|(s & Es & Hv & Hok)];
    destruct (pubkey_of_cases (of_be f + of_be (SHA256 b))) as [[Hz' Ep]|(Hnz & _ & z & _ & _ & Ep & _)]; rewrite Es, Ep; try done.
  - exfalso. destruct Hok as (_ & _ & ?). lia.
  - split; [done|]. cbn. intros c pk [= <- <-]. exists s. assert (SecretToPublicKey s = Some (be_bytes z)) as Hs by (rewrite SecretToPublicKey_value, Hv, pubkey_of_mod; done).
    split_and!; [done..|]. destruct (key_of_secret s (be_bytes z) Hok Hs) as (k & ? & ? & _ & ?). by exists k.
Qed.

(** A message decrypts to what was encrypted under the same key and vector. *)
Lemma sm_roundtrip `{AS : AES_spec} key iv m c : len key = 32 ->
  sm_Encrypt (sm_SetKey key iv) m = Some c -> sm_Decrypt (sm_SetKey key iv) c = Some m.
Proof.
  intros Hk. unfold sm_Encrypt, sm_Decrypt, sm_SetKey. cbn [sm_fKeySet sm_chKey sm_chIV negb]. apply EVP_Decrypt_Encrypt.
  unfold len in *. rewrite length_take. lia.
Qed.

(** The number compared with the bounds is not the number that the curve
    functions read: the words of a [uint256] have their low byte first, and
    BN_bin2bn(3) takes the first byte as the highest.  This secret passes the
    comparison and is, as it is used, greater than the upper bound. *)
Example range_check_reads_other_end : exists s : list Z,
  GenerateRandomSecret (fun _ => s) 0 = (Some s, 1%nat) /\ val maxStealth < of_be s.
Proof. exists (replicate 31 255 ++ [1]). by vm_compute. Qed.

(** ** An implementation of the specification

    The integers modulo the order. *)

#[local] Existing Instance EC_toy.
#[local] Existing Instance Crypto_toy.
#[local] Existing Instance BN_Z.

Definition toy_bytes (P : Z) : list Z := 2 :: to_digits 256 32 P.

#[local] Instance EC_curve_toy : EC_curve := {|
  EC_POINT_new := (0 : @EC_POINT EC_toy);
  EC_POINT_scale (P : Z) b := Some ((P * b) mod 2 ^ 255);
  EC_POINT_add (P Q : Z) := Some ((P + Q) mod 2 ^ 255);
  EC_POINT_point2bn (P : Z) := Some (if P =? 0 then 0 else of_be (toy_bytes P));
  EC_POINT_bn2point z := match be_bytes z with [] => Some 0 | _ :: v => Some (of_digits 256 v) end
|}.

Lemma toy_bytes_be P : be_bytes (of_be (toy_bytes P)) = toy_bytes P.
Proof. apply be_bytes_of_be; [|done]. constructor; [lia|]. apply to_digits_ok. lia. Qed.

Lemma EC_curve_toy_spec : EC_curve_spec.
Proof.
  split.
  - intros n. cbn. f_equal. change (@EC_order EC_toy) with (2 ^ 255). by rewrite Z.mod_mod by lia.
  - intros a b P [= <-]. cbn. f_equal. by rewrite Zmult_mod_idemp_l.
  - intros a b P Q [= <-] [= <-]. cbn. f_equal. by rewrite <- Zplus_mod.
  - intros n P [= <-] Hn. change (@EC_order EC_toy) with (2 ^ 255) in Hn. cbn -[toy_bytes of_be be_bytes]. rewrite (proj2 (Z.eqb_neq _ _) Hn).
    eexists. split; [done|]. rewrite toy_bytes_be. split_and!.
    + apply of_be_bound. constructor; [lia|]. apply to_digits_ok. lia.
    + unfold toy_bytes. rewrite len_cons. unfold len. by rewrite length_to_digits.
    + unfold toy_bytes. rewrite of_to_digits by lia. f_equal. apply Z.mod_small. pose proof (Z.mod_pos_bound n (2 ^ 255) ltac:(lia)). lia.
  - intros n P [= <-] Hn. change (@EC_order EC_toy) with (2 ^ 255) in Hn. cbn. by rewrite Hn.
  - intros n k P z (Hn & P' & E' & ->) E Ez. rewrite E in E'. injection E' as <-. apply toy_mul_small in E as ->; [|done].
    injection Ez as <-. rewrite (proj2 (Z.eqb_neq _ _)) by lia. by rewrite toy_bytes_be.
Qed.

Definition toy_secret (n : Z) : list Z := replicate 31 0 ++ [n].

Definition toy_public (n : Z) : list Z := default [] (SecretToPublicKey (toy_secret n)).

Lemma toy_public_ok : Forall (fun n => SecretToPublicKey (toy_secret n) = Some (toy_public n)) [3; 5; 7].
Proof. repeat constructor; by vm_compute. Qed.

Example toy_payment_succeeds : is_Some (StealthSecret (toy_secret 3) (toy_public 5) (toy_public 7)).
Proof. vm_compute. by eexists. Qed.

Lemma stealth_payment_spendable_witness : exists c pk s,
  StealthSecret (toy_secret 3) (toy_public 5) (toy_public 7) = Some (c, pk) /\
  StealthSecretSpend (toy_secret 5) (toy_public 3) (toy_secret 7) = Some s /\ SecretToPublicKey s = Some pk.
Proof.
  destruct toy_payment_succeeds as [[c pk] E]. pose proof toy_public_ok as (H3 & (H5 & (H7 & _)%Forall_cons)%Forall_cons)%Forall_cons.
  destruct (proj2 (proj2 (stealth_payment_spendable (CS := Crypto_toy_spec) (CV := EC_curve_toy_spec) (ES := EC_toy_spec) _ _ _ _ _ _ H3 H5 H7)) c pk E)
    as (s & E1 & _ & _ & E2 & _).
  exists c, pk, s. exact (conj E (conj E1 E2)).
Defined.

Definition toy_address : CStealthAddress := mkStealth 0 (2 :: replicate 32 7) (3 :: replicate 32 9) 0 (mkPrefix 0 0) [] [] [] false.

Lemma stealth_address_codec_witness : exists s,
  Encoded toy_address = Some s /\ SetEncoded (stealth_new (mkPrefix 0 0)) s = (true, toy_address).
Proof.
  destruct (stealth_address_codec (BNS := BN_Z_spec) (CS := Crypto_toy_spec) toy_address (stealth_new (mkPrefix 0 0))) as (s & E1 & _ & _ & E2 & _).
  { repeat split; try (cbn; lia); cbn; forall_list. }
  exists s. exact (conj E1 E2).
Defined.
