(* ===== verification/Pool.v ===== *)
(** * main.h, main.cpp: the memory pool and the orphan transactions

    [CTxMemPool] holds unconfirmed transactions ([mapTx]) and, for every output
    they spend, a pointer to the spending transaction ([mapNextTx]).  A pointer
    into [mapTx] is modelled as the key of the entry it points into.

    Transactions with missing inputs wait in [mapOrphanTransactions], which owns
    a copy of the message ([new CDataStream]), and are indexed by the hashes of
    the transactions they wait for.  The copies live in a heap of streams, so
    that a dangling pointer, a double deletion or a leak would show. *)
From Stdlib Require Import ZArith Lia Bool.
From stdpp Require Import prelude gmap fin_maps infinite sorting.
From S2P Require Import Prelude Uint256 DataStream Serialize Crypto Bignum Script Tx Block KeyStore.

#[global] Instance outpoint_eq_dec : EqDecision COutPoint.
Proof. solve_decision. Defined.
#[global] Instance outpoint_countable : Countable COutPoint.
Proof. apply (inj_countable' (fun o => (op_hash o, op_n o)) (fun '(h, n) => mkOutPoint h n)). by intros []. Defined.

(** ** [CTxMemPool] *)

Record CInPoint : Type := mkInPoint { ptx : base_uint; in_n : Z }.

Record CTxMemPool : Type := mkPool {
  mapTx : gmap base_uint CTransaction;
  mapNextTx : gmap COutPoint CInPoint;
  nTransactionsUpdated : Z
}.

Definition pool_exists (p : CTxMemPool) (hash : base_uint) : bool := bool_decide (is_Some (mapTx p !! hash)).
Definition pool_size (p : CTxMemPool) : Z := Z.of_nat (size (mapTx p)).

(** The loop of [addUnchecked] from input [i] on. *)
Fixpoint add_inputs (hash : base_uint) (i : Z) (l : list CTxIn) (m : gmap COutPoint CInPoint) : gmap COutPoint CInPoint :=
  match l with
  | [] => m
  | txin :: l => add_inputs hash (i + 1) l (<[prevout txin := mkInPoint hash i]> m)
  end.

Definition addUnchecked (p : CTxMemPool) (hash : base_uint) (tx : CTransaction) : CTxMemPool :=
  mkPool (<[hash := tx]> (mapTx p)) (add_inputs hash 0 (vin tx) (mapNextTx p)) (u32 (nTransactionsUpdated p + 1)).

Definition erase_inputs (l : list CTxIn) (m : gmap COutPoint CInPoint) : gmap COutPoint CInPoint :=
  fold_left (fun m txin => delete (prevout txin) m) l m.

Definition pool_remove `{Crypto} (p : CTxMemPool) (tx : CTransaction) : CTxMemPool :=
  let hash := tx_GetHash tx in
  if pool_exists p hash
  then mkPool (delete hash (mapTx p)) (erase_inputs (vin tx) (mapNextTx p)) (u32 (nTransactionsUpdated p + 1))
  else p.

Definition pool_clear (p : CTxMemPool) : CTxMemPool := mkPool ∅ ∅ (u32 (nTransactionsUpdated p + 1)).

Definition queryHashes (p : CTxMemPool) : list base_uint := map fst (entries (mapTx p)).

(** ** Orphans *)

Record orphan_state : Type := mkOrphans {
  streams : gmap Z CDataStream;
  mapOrphanTransactions : gmap base_uint Z;
  mapOrphanTransactionsByPrev : gmap base_uint (gmap base_uint Z)
}.

(** [CDataStream(vMsg) >> tx] on a copy; [None]: the exception. *)
Definition read_tx (s : CDataStream) : option CTransaction :=
  match fst (Unserialize (ser_tx tx_fresh) (nType s) (nVersion s) s) with inr tx => Some tx | inl _ => None end.

(** [operator[]] of a map of maps, which inserts an empty map. *)
Definition by_prev (m : gmap base_uint (gmap base_uint Z)) (h : base_uint) : gmap base_uint Z := default ∅ (m !! h).

(** [insert] keeps an entry that is already there. *)
Definition map_insert_new {V} (k : base_uint) (v : V) (m : gmap base_uint V) : gmap base_uint V :=
  match m !! k with Some _ => m | None => <[k := v]> m end.

Definition link_orphan (hash : base_uint) (pvMsg : Z) (m : gmap base_uint (gmap base_uint Z)) (txin : CTxIn) :=
  let h := op_hash (prevout txin) in <[h := map_insert_new hash pvMsg (by_prev m h)]> m.

Definition unlink_orphan (hash : base_uint) (m : gmap base_uint (gmap base_uint Z)) (txin : CTxIn) :=
  let h := op_hash (prevout txin) in
  let m := <[h := delete hash (by_prev m h)]> m in
  if bool_decide (by_prev m h = ∅) then delete h m else m.

Section orphans.
Context `{Crypto}.

Definition AddOrphanTx (st : orphan_state) (vMsg : CDataStream) : option (bool * orphan_state) :=
  tx ← read_tx vMsg;
  let hash := tx_GetHash tx in
  if bool_decide (is_Some (mapOrphanTransactions st !! hash)) then Some (false, st)
  else
    let pvMsg := fresh (dom (streams st)) in
    if 5000 <? ds_size vMsg then Some (false, st)
    else Some (true, mkOrphans (<[pvMsg := vMsg]> (streams st)) (<[hash := pvMsg]> (mapOrphanTransactions st))
                       (fold_left (link_orphan hash pvMsg) (vin tx) (mapOrphanTransactionsByPrev st))).

(** [None]: the pointer dangles or the copy cannot be read. *)
Definition EraseOrphanTx (st : orphan_state) (hash : base_uint) : option orphan_state :=
  match mapOrphanTransactions st !! hash with
  | None => Some st
  | Some pvMsg =>
      s ← streams st !! pvMsg;
      tx ← read_tx s;
      Some (mkOrphans (delete pvMsg (streams st)) (delete hash (mapOrphanTransactions st))
              (fold_left (unlink_orphan hash) (vin tx) (mapOrphanTransactionsByPrev st)))
  end.

(** [lower_bound(randomhash)], or [begin()] when that is [end()]. *)
Definition pick_orphan (randomhash : base_uint) (m : gmap base_uint Z) : option base_uint :=
  let l := map fst (entries m) in
  match List.find (fun h => negb (bu_lt h randomhash)) l with Some h => Some h | None => hd_error l end.

(** The loop; [draw] counts the calls of [GetRandHash()]. *)
Fixpoint limit_loop (GetRandHash : nat -> base_uint) (fuel draw : nat) (nMaxOrphans nEvicted : Z) (st : orphan_state)
    : option (Z * orphan_state) :=
  if nMaxOrphans <? Z.of_nat (size (mapOrphanTransactions st)) then
    match fuel with
    | O => None
    | S fuel =>
        hash ← pick_orphan (GetRandHash draw) (mapOrphanTransactions st);
        st ← EraseOrphanTx st hash;
        limit_loop GetRandHash fuel (S draw) nMaxOrphans (u32 (nEvicted + 1)) st
    end
  else Some (nEvicted, st).

Definition LimitOrphanTxSize (GetRandHash : nat -> base_uint) (nMaxOrphans : Z) (st : orphan_state) : option (Z * orphan_state) :=
  limit_loop GetRandHash (size (mapOrphanTransactions st)) 0 nMaxOrphans 0 st.
End orphans.

(** ** The pool's invariant *)

Definition prevouts (tx : CTransaction) : list COutPoint := map prevout (vin tx).

(** Hashes are those of the entries, and [mapNextTx] is exactly the index of the
    inputs: no pointer dangles and no two entries spend the same output. *)
Definition pool_ok `{Crypto} (p : CTxMemPool) : Prop :=
  (forall h tx, mapTx p !! h = Some tx -> tx_GetHash tx = h /\ NoDup (prevouts tx)) /\
  (forall o h i, mapNextTx p !! o = Some (mkInPoint h i) <->
     exists tx, mapTx p !! h = Some tx /\ 0 <= i /\ prevouts tx !! Z.to_nat i = Some o).

Section pool_facts.
Context `{Crypto}.

Lemma add_inputs_other hash l o : forall i m, o ∉ map prevout l -> add_inputs hash i l m !! o = m !! o.
Proof.
  induction l as [|x l IH]; intros i m Ho; cbn [add_inputs]; [done|]. cbn in Ho. apply not_elem_of_cons in Ho as [Hne Ho].
  rewrite IH by done. by rewrite lookup_insert_ne by done.
Qed.

Lemma add_inputs_own hash l : forall i m k o, NoDup (map prevout l) -> map prevout l !! k = Some o ->
  add_inputs hash i l m !! o = Some (mkInPoint hash (i + Z.of_nat k)).
Proof.
  induction l as [|x l IH]; intros i m k o Hnd Hk; [done|]. cbn [map] in *. apply NoDup_cons in Hnd as [Hx Hnd].
  destruct k as [|k]; cbn in Hk.
  - injection Hk as <-. cbn [add_inputs]. rewrite add_inputs_other by done. rewrite lookup_insert_eq. by rewrite Z.add_0_r.
  - cbn [add_inputs]. rewrite (IH (i + 1) _ k o) by done. do 2 f_equal. lia.
Qed.

Lemma erase_inputs_lookup l o : forall m,
  erase_inputs l m !! o = if bool_decide (o ∈ map prevout l) then None else m !! o.
Proof.
  induction l as [|x l IH]; intros m; [done|]. unfold erase_inputs in *. cbn [fold_left map]. rewrite IH.
  destruct (decide (o = prevout x)) as [->|Hne].
  - rewrite lookup_delete_eq. rewrite (bool_decide_eq_true_2 (prevout x ∈ prevout x :: _)) by set_solver. by case_bool_decide.
  - rewrite lookup_delete_ne by done. rewrite (bool_decide_ext (o ∈ map prevout l) (o ∈ prevout x :: map prevout l)) by set_solver. done.
Qed.

Lemma pool_empty_ok n : pool_ok (mkPool ∅ ∅ n).
Proof. split; cbn; intros *; [done|]. split; [done|]. by intros (tx & E & _). Qed.

Lemma addUnchecked_ok p hash tx : pool_ok p -> tx_GetHash tx = hash -> mapTx p !! hash = None -> NoDup (prevouts tx) ->
  (forall o, o ∈ prevouts tx -> mapNextTx p !! o = None) -> pool_ok (addUnchecked p hash tx).
Proof.
  intros [H1 H2] Hh Hn Hnd Hfree. split; cbn [mapTx mapNextTx addUnchecked].
  - intros h t E. apply lookup_insert_Some in E as [[<- <-]|[_ E]]; [done|by apply H1].
  - intros o h i. destruct (decide (o ∈ prevouts tx)) as [Ho|Ho].
    + apply list_elem_of_lookup in Ho as Hk. destruct Hk as [k Hk]. rewrite (add_inputs_own hash _ 0 _ k o) by done. split.
      * intros [= <- <-]. exists tx. rewrite lookup_insert_eq. split_and!; [done|lia|]. by rewrite Z.add_0_l, Nat2Z.id.
      * intros (t & E & Hi & Ht). apply lookup_insert_Some in E as [[<- <-]|[Hne E]].
        -- pose proof (NoDup_lookup _ _ _ _ Hnd Hk Ht). subst k. do 2 f_equal. lia.
        -- assert (mapNextTx p !! o = Some (mkInPoint h i)) as Ef by (apply H2; by exists t). by rewrite Hfree in Ef.
    + rewrite add_inputs_other by done. rewrite H2. apply exist_proper. intros t. split; intros (E & Hi & Ht); split_and!; try done.
      * rewrite lookup_insert_ne; [done|]. intros <-. by rewrite Hn in E.
      * apply lookup_insert_Some in E as [[<- <-]|[_ E]]; [|done]. by apply list_elem_of_lookup_2 in Ht.
Qed.

(** A transaction with the hash of an entry spends what the entry spends. *)
Definition same_inputs (p : CTxMemPool) (tx : CTransaction) : Prop :=
  forall t, mapTx p !! tx_GetHash tx = Some t -> vin t = vin tx.

Lemma pool_remove_ok p tx : pool_ok p -> same_inputs p tx -> pool_ok (pool_remove p tx).
Proof.
  intros [H1 H2] Hs. unfold pool_remove, pool_exists. case_bool_decide as He; [|done]. destruct He as [t Et].
  pose proof (Hs t Et) as Ev. split; cbn [mapTx mapNextTx].
  - intros h u E. apply lookup_delete_Some in E as [_ E]. by apply H1.
  - intros o h i. rewrite erase_inputs_lookup. fold (prevouts tx). case_bool_decide as Ho.
    + split; [done|]. intros (u & E & Hi & Hu). apply lookup_delete_Some in E as [Hne E]. exfalso.
      unfold prevouts in Ho. rewrite <- Ev in Ho. fold (prevouts t) in Ho. apply list_elem_of_lookup in Ho as [k Hk].
      assert (A : mapNextTx p !! o = Some (mkInPoint h i)) by (apply H2; by exists u).
      assert (B : mapNextTx p !! o = Some (mkInPoint (tx_GetHash tx) (Z.of_nat k))).
      { apply H2. exists t. split_and!; [done|lia|]. by rewrite Nat2Z.id. }
      rewrite A in B. by injection B.
    + rewrite H2. apply exist_proper. intros u. split; intros (E & Hi & Hu); split_and!; try done.
      * rewrite lookup_delete_ne; [done|]. intros <-. rewrite Et in E. injection E as <-.
        apply Ho. unfold prevouts in Hu |- *. rewrite <- Ev. by eapply list_elem_of_lookup_2.
      * by apply lookup_delete_Some in E as [_ E].
Qed.

(** No output is spent twice in the pool. *)
Lemma pool_no_conflict p h1 h2 t1 t2 o : pool_ok p -> mapTx p !! h1 = Some t1 -> mapTx p !! h2 = Some t2 ->
  o ∈ prevouts t1 -> o ∈ prevouts t2 -> h1 = h2.
Proof.
  intros [_ H2] E1 E2 H1 Ho2. apply list_elem_of_lookup in H1 as [i Hi]. apply list_elem_of_lookup in Ho2 as [j Hj].
  assert (A : mapNextTx p !! o = Some (mkInPoint h1 (Z.of_nat i))) by (apply H2; exists t1; rewrite Nat2Z.id; split_and!; [done|lia|done]).
  assert (B : mapNextTx p !! o = Some (mkInPoint h2 (Z.of_nat j))) by (apply H2; exists t2; rewrite Nat2Z.id; split_and!; [done|lia|done]).
  rewrite A in B. by injection B.
Qed.
End pool_facts.

(** ** The orphans' invariant *)

Definition prev_hashes (tx : CTransaction) : list base_uint := map (fun i => op_hash (prevout i)) (vin tx).

(** The message that [q] points to. *)
Definition message (st : orphan_state) (q : Z) : option CTransaction := s ← streams st !! q; read_tx s.

Record orphans_ok `{Crypto} (st : orphan_state) : Prop := {
  orphan_live : forall h q, mapOrphanTransactions st !! h = Some q ->
    exists s tx, streams st !! q = Some s /\ read_tx s = Some tx /\ tx_GetHash tx = h /\ ds_size s <= 5000;
  orphan_owned : forall q, is_Some (streams st !! q) -> exists h, mapOrphanTransactions st !! h = Some q;
  orphan_indexed : forall p h q, by_prev (mapOrphanTransactionsByPrev st) p !! h = Some q <->
    mapOrphanTransactions st !! h = Some q /\ exists tx, message st q = Some tx /\ p ∈ prev_hashes tx;
  orphan_tidy : forall p, mapOrphanTransactionsByPrev st !! p <> Some ∅
}.

Section orphan_facts.
Context `{Crypto}.

Lemma by_prev_insert m p k g : by_prev (<[k := g]> m) p = if bool_decide (p = k) then g else by_prev m p.
Proof. unfold by_prev. case_bool_decide as E; [subst; by rewrite lookup_insert_eq|by rewrite lookup_insert_ne]. Qed.

Lemma by_prev_delete m p k : by_prev (delete k m) p = if bool_decide (p = k) then ∅ else by_prev m p.
Proof. unfold by_prev. case_bool_decide as E; [subst; by rewrite lookup_delete_eq|by rewrite lookup_delete_ne]. Qed.

Lemma link_orphan_spec hash q m x p h :
  by_prev (link_orphan hash q m x) p !! h =
  if bool_decide (h = hash /\ p = op_hash (prevout x) /\ by_prev m p !! h = None) then Some q else by_prev m p !! h.
Proof.
  unfold link_orphan. rewrite by_prev_insert. repeat case_bool_decide; try naive_solver; subst; unfold map_insert_new.
  - destruct H1 as (-> & _ & E). rewrite E. by rewrite lookup_insert_eq.
  - destruct (by_prev m _ !! hash) eqn:E; [done|]. destruct (decide (h = hash)) as [->|]; [|by rewrite lookup_insert_ne].
    exfalso. by apply H1.
Qed.

Lemma link_all hash q l : forall m p h, (forall p', by_prev m p' !! hash = None) ->
  by_prev (fold_left (link_orphan hash q) l m) p !! h =
  if bool_decide (h = hash /\ p ∈ map (fun i => op_hash (prevout i)) l) then Some q else by_prev m p !! h.
Proof.
  induction l as [|x l IH] using rev_ind; intros m p h Hm.
  - cbn. rewrite bool_decide_eq_false_2; [done|]. intros [_ E]. by apply elem_of_nil in E.
  - rewrite fold_left_app. cbn [fold_left]. rewrite link_orphan_spec, !IH by done. rewrite map_app. cbn [map].
    repeat case_bool_decide; try done; destruct_and?; subst; rewrite ?elem_of_app, ?list_elem_of_singleton in *; try naive_solver.
Qed.

Lemma link_tidy hash q l : forall m, (forall p, m !! p <> Some ∅) -> forall p, fold_left (link_orphan hash q) l m !! p <> Some ∅.
Proof.
  induction l as [|x l IH]; intros m Hm p; [apply Hm|]. cbn [fold_left]. apply IH. intros p' E. unfold link_orphan in E.
  apply lookup_insert_Some in E as [[_ E]|[_ E]]; [|by apply (Hm p')]. unfold map_insert_new in E.
  destruct (by_prev m _ !! hash) eqn:Eh; [rewrite E in Eh; by rewrite lookup_empty in Eh|by apply insert_non_empty in E].
Qed.

Lemma unlink_orphan_spec hash m x p h :
  by_prev (unlink_orphan hash m x) p !! h =
  if bool_decide (h = hash /\ p = op_hash (prevout x)) then None else by_prev m p !! h.
Proof.
  unfold unlink_orphan. set (k := op_hash (prevout x)). set (m1 := <[k := _]> m).
  assert (E1 : by_prev m1 p !! h = if bool_decide (h = hash /\ p = k) then None else by_prev m p !! h).
  { unfold m1. rewrite by_prev_insert. destruct (decide (p = k)) as [->|Hp]; [rewrite (bool_decide_eq_true_2 (k = k)) by done|].
    - destruct (decide (h = hash)) as [->|Hh]; [by rewrite lookup_delete_eq, bool_decide_eq_true_2|].
      rewrite lookup_delete_ne by done. by rewrite bool_decide_eq_false_2 by naive_solver.
    - by rewrite !bool_decide_eq_false_2 by naive_solver. }
  rewrite <- E1. clear E1. case_bool_decide as Ee; [|done]. rewrite by_prev_delete. case_bool_decide as Ep; [|done]. subst p.
  by rewrite Ee, lookup_empty.
Qed.

Lemma unlink_all hash l : forall m p h, by_prev (fold_left (unlink_orphan hash) l m) p !! h =
  if bool_decide (h = hash /\ p ∈ map (fun i => op_hash (prevout i)) l) then None else by_prev m p !! h.
Proof.
  induction l as [|x l IH] using rev_ind; intros m p h.
  - cbn. rewrite bool_decide_eq_false_2; [done|]. intros [_ E]. by apply elem_of_nil in E.
  - rewrite fold_left_app. cbn [fold_left]. rewrite unlink_orphan_spec, IH. rewrite map_app. cbn [map].
    repeat case_bool_decide; try done; destruct_and?; subst; rewrite ?elem_of_app, ?list_elem_of_singleton in *; naive_solver.
Qed.

Lemma unlink_tidy hash l : forall m, (forall p, m !! p <> Some ∅) -> forall p, fold_left (unlink_orphan hash) l m !! p <> Some ∅.
Proof.
  induction l as [|x l IH]; intros m Hm p; [apply Hm|]. cbn [fold_left]. apply IH. intros p' E. unfold unlink_orphan in E.
  case_bool_decide as Ee.
  - apply lookup_delete_Some in E as [Hne E]. rewrite lookup_insert_ne in E by done. by apply (Hm p').
  - apply lookup_insert_Some in E as [[<- E]|[_ E]]; [|by apply (Hm p')]. apply Ee. unfold by_prev. rewrite lookup_insert_eq. done.
Qed.

Lemma orphan_inj st h1 h2 q : orphans_ok st -> mapOrphanTransactions st !! h1 = Some q -> mapOrphanTransactions st !! h2 = Some q -> h1 = h2.
Proof.
  intros Hok E1 E2. destruct (orphan_live _ Hok _ _ E1) as (s & tx & Es & Et & <- & _).
  destruct (orphan_live _ Hok _ _ E2) as (s' & tx' & Es' & Et' & <- & _). rewrite Es in Es'. injection Es' as <-. congruence.
Qed.

Lemma orphans_empty_ok : orphans_ok (mkOrphans ∅ ∅ ∅).
Proof.
  split; cbn; intros *; [done| |split|done].
  - intros [x E]. by rewrite lookup_empty in E.
  - done.
  - intros [E _]. done.
Qed.

Lemma AddOrphanTx_ok st vMsg ok st' : orphans_ok st -> AddOrphanTx st vMsg = Some (ok, st') -> orphans_ok st'.
Proof.
  intros Hok. unfold AddOrphanTx. destruct (read_tx vMsg) as [tx|] eqn:Et; [|done]. cbn. set (h := tx_GetHash tx).
  case_bool_decide as Hh; [by intros [= _ <-]|]. apply eq_None_not_Some in Hh. destruct (Z.ltb_spec 5000 (ds_size vMsg)) as [|Hsz]; [by intros [= _ <-]|].
  set (q := fresh (dom (streams st))). intros [= _ <-].
  assert (Hq : streams st !! q = None) by (apply not_elem_of_dom, is_fresh).
  assert (Hqn : forall h', mapOrphanTransactions st !! h' <> Some q).
  { intros h' E. destruct (orphan_live _ Hok _ _ E) as (s & _ & Es & _). by rewrite Hq in Es. }
  assert (Hnone : forall p, by_prev (mapOrphanTransactionsByPrev st) p !! h = None).
  { intros p. apply eq_None_not_Some. intros [q' E]. apply (orphan_indexed _ Hok) in E as [E _]. by rewrite Hh in E. }
  split; cbn.
  - intros h' q' E. apply lookup_insert_Some in E as [[<- <-]|[Hne E]].
    + exists vMsg, tx. by rewrite lookup_insert_eq.
    + destruct (orphan_live _ Hok _ _ E) as (s & t & Es & Hrest). exists s, t. split; [|done].
      rewrite lookup_insert_ne; [done|]. intros <-. by rewrite Hq in Es.
  - intros q' [s Es]. apply lookup_insert_Some in Es as [[<- _]|[_ Es]]; [exists h; by rewrite lookup_insert_eq|].
    destruct (orphan_owned _ Hok q') as [h' E]; [by eexists|]. exists h'. rewrite lookup_insert_ne; [done|]. intros <-. by rewrite Hh in E.
  - intros p h' q'. rewrite link_all by done. unfold message. cbn. case_bool_decide as Hc.
    + destruct Hc as [-> Hp]. rewrite lookup_insert_eq. split.
      * intros [= <-]. split; [done|]. exists tx. rewrite lookup_insert_eq. done.
      * intros [[= <-] _]. done.
    + rewrite (orphan_indexed _ Hok). split.
      * intros [E (t & Em & Hp)]. split; [rewrite lookup_insert_ne; [done|]; intros <-; by rewrite Hh in E|]. exists t.
        rewrite lookup_insert_ne by (intros <-; by apply (Hqn h')). done.
      * intros [E (t & Em & Hp)]. apply lookup_insert_Some in E as [[<- <-]|[Hne E]].
        -- rewrite lookup_insert_eq in Em. cbn in Em. rewrite Et in Em. injection Em as <-. by destruct Hc.
        -- split; [done|]. exists t. rewrite lookup_insert_ne in Em by (intros <-; by apply (Hqn h')). done.
  - apply link_tidy, Hok.
Qed.

Lemma EraseOrphanTx_ok st h : orphans_ok st -> exists st', EraseOrphanTx st h = Some st' /\ orphans_ok st' /\
  mapOrphanTransactions st' = delete h (mapOrphanTransactions st).
Proof.
  intros Hok. unfold EraseOrphanTx. destruct (mapOrphanTransactions st !! h) as [q|] eqn:E; [|exists st; split_and!; [done..|by rewrite delete_id]].
  destruct (orphan_live _ Hok _ _ E) as (s & tx & Es & Et & Eh & _). rewrite Es. cbn. rewrite Et. cbn.
  eexists. split; [done|]. split; [|done]. split; cbn.
  - intros h' q' E'. apply lookup_delete_Some in E' as [Hne E']. destruct (orphan_live _ Hok _ _ E') as (s' & t' & Es' & Hrest).
    exists s', t'. split; [|done]. rewrite lookup_delete_ne; [done|]. intros <-. by apply Hne, (orphan_inj st _ _ q).
  - intros q' [s' Es']. apply lookup_delete_Some in Es' as [Hne Es']. destruct (orphan_owned _ Hok q') as [h' E']; [by eexists|].
    exists h'. rewrite lookup_delete_ne; [done|]. intros <-. rewrite E in E'. by injection E'.
  - intros p h' q'. rewrite unlink_all. unfold message. cbn. case_bool_decide as Hc.
    + destruct Hc as [-> Hp]. rewrite lookup_delete_eq. split; [done|]. by intros [? _].
    + rewrite (orphan_indexed _ Hok). split.
      * intros [E' (t & Em & Hp)]. destruct (decide (h = h')) as [<-|Hne].
        { exfalso. rewrite E in E'. injection E' as <-. unfold message in Em. rewrite Es in Em. cbn in Em. rewrite Et in Em. injection Em as <-. by apply Hc. }
        split; [by rewrite lookup_delete_ne|]. exists t. rewrite lookup_delete_ne; [done|]. intros <-. by apply Hne, (orphan_inj st _ _ q).
      * intros [E' (t & Em & Hp)]. apply lookup_delete_Some in E' as [Hne E']. split; [done|]. exists t.
        rewrite lookup_delete_ne in Em; [done|]. intros <-. by apply Hne, (orphan_inj st _ _ q).
  - apply unlink_tidy, Hok.
Qed.
End orphan_facts.

(** ** Limiting the orphans *)

Section limit.
Context `{Crypto} (GetRandHash : nat -> base_uint).

Lemma elem_of_entry_keys {V} (m : gmap base_uint V) h : h ∈ map fst (entries m) <-> is_Some (m !! h).
Proof.
  unfold entries.
  rewrite list_elem_of_fmap. split.
  - intros ([k v] & -> & E). rewrite merge_sort_Permutation in E. apply elem_of_map_to_list in E. by eexists.
  - intros [v E]. exists (h, v). split; [done|]. rewrite merge_sort_Permutation. by apply elem_of_map_to_list.
Qed.

Lemma pick_orphan_spec (r : base_uint) (m : gmap base_uint Z) : m <> ∅ -> exists h : base_uint, pick_orphan r m = Some h /\ is_Some (m !! h).
Proof.
  intros Hm. unfold pick_orphan. destruct (List.find _ _) as [h|] eqn:E.
  - exists h. split; [done|]. apply find_some in E as [E _]. apply elem_of_entry_keys. by apply list_elem_of_In.
  - destruct (map fst (entries m)) as [|h l] eqn:El.
    + destruct (map_choose m Hm) as (h & v & Eh). assert (h ∈ map fst (entries m)) as Hin by (apply elem_of_entry_keys; by eexists).
      rewrite El in Hin. by apply elem_of_nil in Hin.
    + exists h. split; [done|]. apply elem_of_entry_keys. rewrite El. apply list_elem_of_here.
Qed.

Lemma limit_loop_spec fuel : forall draw nMax nEv st, orphans_ok st -> 0 <= nMax -> 0 <= nEv ->
  (size (mapOrphanTransactions st) <= fuel)%nat -> nEv + Z.of_nat (size (mapOrphanTransactions st)) < 2 ^ 32 ->
  exists n st', limit_loop GetRandHash fuel draw nMax nEv st = Some (n, st') /\ orphans_ok st' /\
    mapOrphanTransactions st' ⊆ mapOrphanTransactions st /\
    Z.of_nat (size (mapOrphanTransactions st')) = Z.min nMax (Z.of_nat (size (mapOrphanTransactions st))) /\
    n = nEv + (Z.of_nat (size (mapOrphanTransactions st)) - Z.of_nat (size (mapOrphanTransactions st'))).
Proof.
  induction fuel as [|fuel IH]; intros draw nMax nEv st Hok Hmax Hev Hf Hb; cbn [limit_loop];
    (destruct (Z.ltb_spec nMax (Z.of_nat (size (mapOrphanTransactions st)))) as [Hlt|Hge];
     [|exists nEv, st; split_and!; [done..|lia|lia]]); [lia|].
  destruct (pick_orphan_spec (GetRandHash draw) (mapOrphanTransactions st)) as (h & -> & [q Eq]).
  { intros E. rewrite E, map_size_empty in Hlt. lia. }
  cbn. destruct (EraseOrphanTx_ok st h Hok) as (st1 & -> & Hok1 & E1). cbn.
  assert (Hsz : size (mapOrphanTransactions st) = S (size (mapOrphanTransactions st1))).
  { rewrite E1, map_size_delete_Some by (by eexists). assert (size (mapOrphanTransactions st) <> 0)%nat by lia. lia. }
  rewrite wrap_id by (unfold fits; lia).
  destruct (IH (S draw) nMax (nEv + 1) st1 Hok1) as (n & st2 & -> & Hok2 & Hsub & Hs2 & Hn); [lia..|].
  exists n, st2. split_and!; [done|done| |lia|lia]. rewrite Hsub, E1. apply delete_subseteq.
Qed.
End limit.

(** ** Operations and reachable states *)

Inductive orphan_op : Type := OpAdd (vMsg : CDataStream) | OpEraseOrphan (h : base_uint) | OpLimit (n : Z).

(** One call; an exception while the message is read leaves the state alone. *)
Definition orphan_step `{Crypto} (GetRandHash : nat -> base_uint) (st : orphan_state) (o : orphan_op) : option orphan_state :=
  match o with
  | OpAdd vMsg => match AddOrphanTx st vMsg with Some (_, st') => Some st' | None => Some st end
  | OpEraseOrphan h => EraseOrphanTx st h
  | OpLimit n => snd <$> LimitOrphanTxSize GetRandHash n st
  end.

Fixpoint orphan_steps `{Crypto} (GetRandHash : nat -> base_uint) (st : orphan_state) (l : list orphan_op) : option orphan_state :=
  match l with [] => Some st | o :: l => st ← orphan_step GetRandHash st o; orphan_steps GetRandHash st l end.

Lemma orphan_size_step `{Crypto} st vMsg ok st' : AddOrphanTx st vMsg = Some (ok, st') ->
  (size (mapOrphanTransactions st') <= S (size (mapOrphanTransactions st)))%nat.
Proof.
  unfold AddOrphanTx. destruct (read_tx vMsg); [|done]. cbn. repeat case_match; intros [= _ <-]; cbn; [lia|lia|].
  rewrite map_size_insert. destruct (mapOrphanTransactions st !! _); cbn; lia.
Qed.

Lemma orphan_steps_ok `{Crypto} GetRandHash ops : forall st, orphans_ok st ->
  Forall (fun o => match o with OpLimit n => 0 <= n | _ => True end) ops ->
  Z.of_nat (size (mapOrphanTransactions st)) + len ops < 2 ^ 32 ->
  exists st', orphan_steps GetRandHash st ops = Some st' /\ orphans_ok st' /\
    Z.of_nat (size (mapOrphanTransactions st')) <= Z.of_nat (size (mapOrphanTransactions st)) + len ops.
Proof.
  induction ops as [|o ops IH]; intros st Hok Hops Hb; [exists st; rewrite len_nil; split_and!; [done..|lia]|].
  apply Forall_cons in Hops as [Ho Hops]. rewrite len_cons in Hb |- *. pose proof (len_nonneg ops). cbn [orphan_steps].
  assert (exists st1, orphan_step GetRandHash st o = Some st1 /\ orphans_ok st1 /\
    (size (mapOrphanTransactions st1) <= S (size (mapOrphanTransactions st)))%nat) as (st1 & -> & Hok1 & Hs1).
  { destruct o as [vMsg|h|n]; cbn.
    - destruct (AddOrphanTx st vMsg) as [[ok st1]|] eqn:E; [|exists st; split_and!; [done..|lia]].
      exists st1. split_and!; [done|by eapply AddOrphanTx_ok|by eapply orphan_size_step].
    - destruct (EraseOrphanTx_ok st h Hok) as (st1 & -> & Hok1 & E1). exists st1. split_and!; [done..|].
      rewrite E1, map_size_delete. destruct (mapOrphanTransactions st !! h); cbn; lia.
    - destruct (limit_loop_spec GetRandHash (size (mapOrphanTransactions st)) 0 n 0 st Hok Ho) as (k & st1 & E & Hok1 & _ & Hs & _); [lia..|].
      exists st1. unfold LimitOrphanTxSize. rewrite E. split_and!; [done..|lia]. }
  cbn. destruct (IH st1 Hok1 Hops) as (st2 & -> & Hok2 & Hs2); [lia|]. exists st2. split_and!; [done..|lia].
Qed.

(** ** Main theorems *)

(** (C26) Orphans.  Starting from none, no sequence of operations dereferences a dangling
    pointer, deletes a message twice or leaks one, and in the state it leads to:
    every entry is the hash of its own message, which has at most 5000 bytes; the
    index by previous transaction lists exactly the orphans that wait for it; and
    [LimitOrphanTxSize(n)] returns, whatever the random hashes are, and leaves
    exactly the smaller of n and the number there was, counting what it evicted. *)
Theorem orphan_transactions_tracked `{Crypto} GetRandHash ops n :
  Forall (fun o => match o with OpLimit n => 0 <= n | _ => True end) ops -> len ops < 2 ^ 31 -> 0 <= n ->
  exists st, orphan_steps GetRandHash (mkOrphans ∅ ∅ ∅) ops = Some st /\
    (forall h q, mapOrphanTransactions st !! h = Some q ->
       exists s tx, streams st !! q = Some s /\ read_tx s = Some tx /\ tx_GetHash tx = h /\ ds_size s <= 5000) /\
    (forall q, is_Some (streams st !! q) <-> exists h, mapOrphanTransactions st !! h = Some q) /\
    (forall p h q, by_prev (mapOrphanTransactionsByPrev st) p !! h = Some q <->
       mapOrphanTransactions st !! h = Some q /\ exists tx, message st q = Some tx /\ p ∈ prev_hashes tx) /\
    exists k st', LimitOrphanTxSize GetRandHash n st = Some (k, st') /\
      mapOrphanTransactions st' ⊆ mapOrphanTransactions st /\
      Z.of_nat (size (mapOrphanTransactions st')) = Z.min n (Z.of_nat (size (mapOrphanTransactions st))) /\
      k = Z.of_nat (size (mapOrphanTransactions st)) - Z.of_nat (size (mapOrphanTransactions st')).
Proof.
  intros Hops Hl Hn. destruct (orphan_steps_ok GetRandHash ops _ orphans_empty_ok Hops) as (st & E & Hok & Hs); [cbn [mapOrphanTransactions]; rewrite map_size_empty; lia|]; cbn [mapOrphanTransactions] in Hs; rewrite map_size_empty in Hs.
  exists st. split_and!; [done|apply Hok| |apply Hok|].
  - intros q. split; [apply Hok|]. intros [h Eh]. destruct (orphan_live _ Hok _ _ Eh) as (s & _ & Es & _). by eexists.
  - destruct (limit_loop_spec GetRandHash (size (mapOrphanTransactions st)) 0 n 0 st Hok Hn) as (k & st' & El & _ & Hsub & Hsz & Hk);
      [lia..|].
    exists k, st'. split_and!; [done..|lia].
Qed.

Lemma orphan_transactions_tracked_witness :
  exists st, @orphan_steps Crypto_toy (fun _ => bu_zero 8) (mkOrphans ∅ ∅ ∅)
    [OpAdd (Init (Serialize (ser_tx tx_fresh) 1 PROTOCOL_VERSION tx_fresh) 1 PROTOCOL_VERSION); OpLimit 0] = Some st.
Proof.
  destruct (@orphan_transactions_tracked Crypto_toy (fun _ => bu_zero 8)
    [OpAdd (Init (Serialize (ser_tx tx_fresh) 1 PROTOCOL_VERSION tx_fresh) 1 PROTOCOL_VERSION); OpLimit 0] 0) as (st & E & _).
  - forall_list; exact I.
  - reflexivity.
  - lia.
  - exists st. exact E.
Defined.
