(* ===== verification/SigHash.v ===== *)
(** * script.cpp: signature hashes, signature checks and their cache

    [CheckSig] keeps verified signatures in a cache that it shares between
    calls; the cache is part of the state here, and eviction uses the random
    source of the program (a parameter). *)
From Stdlib Require Import ZArith Lia Bool.
From stdpp Require Import prelude.
From S2P Require Import Prelude Uint256 DataStream Serialize Crypto Bignum Opcodes Script Tx Keys.

(** ** [SignatureHash] *)

Definition SIGHASH_ALL : Z := 1.
Definition SIGHASH_NONE : Z := 2.
Definition SIGHASH_SINGLE : Z := 3.
Definition SIGHASH_ANYONECANPAY : Z := 0x80.

(** The bytes hashed; [None] is the early [return 1]. *)
Definition sighash_tx (scriptCode : CScript) (txTo : CTransaction) (nIn nHashType : Z) : option CTransaction :=
  if len (vin txTo) <=? nIn then None
  else
    let i := Z.to_nat nIn in
    let scriptCode := fst (FindAndDelete scriptCode [OP_CODESEPARATOR]) in
    let ins := imap (fun j txin =>
      mkTxIn (prevout txin) (if decide (j = i) then scriptCode else []) (nSequence txin)) (vin txTo) in
    let unsequenced := imap (fun j txin =>
      if decide (j = i) then txin else mkTxIn (prevout txin) (scriptSig txin) 0) ins in
    let with_parts ins outs :=
      let ins := if negb (Z.land nHashType SIGHASH_ANYONECANPAY =? 0)
                 then match ins !! i with Some txin => [txin] | None => [] end
                 else ins in
      Some (mkTx (tx_nVersion txTo) (tx_nTime txTo) ins outs (nLockTime txTo) (data txTo) (nDoS txTo)) in
    if Z.land nHashType 0x1f =? SIGHASH_NONE then with_parts unsequenced []
    else if Z.land nHashType 0x1f =? SIGHASH_SINGLE then
      if len (vout txTo) <=? nIn then None
      else with_parts unsequenced (replicate i txout_null ++ take 1 (drop i (vout txTo)))
    else with_parts ins (vout txTo).

Definition SignatureHash `{Crypto} (scriptCode : CScript) (txTo : CTransaction) (nIn nHashType : Z) : base_uint :=
  match sighash_tx scriptCode txTo nIn nHashType with
  | None => bu_of_uint64 8 1
  | Some txTmp =>
      Hash (Serialize (ser_tx txTmp) SER_GETHASH 0 txTmp ++ Serialize (ser_int 4) SER_GETHASH 0 nHashType)
  end.

(** ** [CSignatureCache] *)

Definition sigdata : Type := base_uint * list Z * list Z.

(** The order of [boost::tuple]: the first member that differs decides. *)
Definition sigdata_lt (a b : sigdata) : bool :=
  let '(ha, sa, ka) := a in let '(hb, sb, kb) := b in
  if bu_lt ha hb then true else if bu_lt hb ha then false
  else if lex_lt sa sb then true else if lex_lt sb sa then false
  else lex_lt ka kb.

Definition sigdata_equiv (a b : sigdata) : bool := negb (sigdata_lt a b) && negb (sigdata_lt b a).

(** [setValid] in its order, and how many random numbers were drawn. *)
Record CSignatureCache : Type := mkSigCache { setValid : list sigdata; draws : nat }.

Section cache.
(** [GetRandHash()], draw by draw, and the option -maxsigcachesize. *)
Context (GetRandHash : nat -> base_uint) (nMaxCacheSize : Z).

Definition cache_Get (c : CSignatureCache) (k : sigdata) : bool := existsb (sigdata_equiv k) (setValid c).

(** [lower_bound], or [begin()] when there is none; then [erase]. *)
Definition evict (key : sigdata) (s : list sigdata) : list sigdata :=
  match list_find (fun e => sigdata_lt e key = false) s with
  | Some (i, _) => delete i s
  | None => tail s
  end.

Fixpoint evict_loop (fuel : nat) (c : CSignatureCache) : CSignatureCache :=
  match fuel with
  | O => c
  | S fuel =>
      if nMaxCacheSize <? len (setValid c)
      then evict_loop fuel (mkSigCache (evict (GetRandHash (draws c), [], []) (setValid c)) (S (draws c)))
      else c
  end.

Definition cache_Set (c : CSignatureCache) (k : sigdata) : CSignatureCache :=
  if nMaxCacheSize <=? 0 then c
  else
    let c := evict_loop (length (setValid c)) c in
    mkSigCache (set_insert sigdata_lt k (setValid c)) (draws c).

(** ** [CheckSig] *)

Context `{Crypto} `{EC}.

Definition CheckSig (c : CSignatureCache) (vchSig vchPubKey : list Z) (scriptCode : CScript)
    (txTo : CTransaction) (nIn nHashType : Z) : bool * CSignatureCache :=
  match last vchSig with
  | None => (false, c)
  | Some back =>
      if negb (nHashType =? 0) && negb (nHashType =? back) then (false, c)
      else
        let nHashType := if nHashType =? 0 then back else nHashType in
        let vchSig := removelast vchSig in
        let sighash := SignatureHash scriptCode txTo nIn nHashType in
        if cache_Get c (sighash, vchSig, vchPubKey) then (true, c)
        else
          let '(ok, key) := key_SetPubKey key_Reset (mkPubKey vchPubKey) in
          if negb ok then (false, c)
          else if negb (key_Verify key sighash vchSig) then (false, c)
          else (true, cache_Set c (sighash, vchSig, vchPubKey))
  end.
End cache.

(** ** Order of cache entries *)

Definition sig_hash (k : sigdata) : base_uint := fst (fst k).

Lemma sigdata_equiv_eq a b : wf 8 (sig_hash a) -> wf 8 (sig_hash b) -> sigdata_equiv a b = true -> a = b.
Proof.
  destruct a as [[ha sa] ka], b as [[hb sb] kb]; unfold sig_hash; cbn [fst]. intros Ha Hb.
  unfold sigdata_equiv, sigdata_lt.
  destruct (bu_cmp_spec 8 ha hb Ha Hb) as (-> & _), (bu_cmp_spec 8 hb ha Hb Ha) as (-> & _).
  destruct (Z.ltb_spec (val ha) (val hb)), (Z.ltb_spec (val hb) (val ha)); try done; try lia.
  destruct (lex_lt sa sb) eqn:E1; [done|]. destruct (lex_lt sb sa) eqn:E2; [done|].
  destruct (lex_lt ka kb) eqn:E3; [done|]. destruct (lex_lt kb ka) eqn:E4; [done|]. intros _.
  assert (ha = hb) as -> by (apply (val_inj 8); (done || lia)).
  by rewrite (lex_lt_total sa sb), (lex_lt_total ka kb).
Qed.

Lemma sigdata_equiv_refl a : sigdata_equiv a a = true.
Proof.
  destruct a as [[h s] k]. unfold sigdata_equiv, sigdata_lt. destruct (bu_lt h h) eqn:E.
  - exfalso. unfold bu_lt in E. revert E. generalize (rev h). intros l. induction l as [|x l IH]; [done|].
    cbn [lt_loop]. by rewrite Z.ltb_irrefl.
  - by rewrite !lex_lt_irrefl.
Qed.

(** ** Eviction *)

Lemma evict_length key s : s <> [] -> len (evict key s) = len s - 1.
Proof.
  intros Hs. unfold evict, len. destruct (list_find _ s) as [[i x]|] eqn:E.
  - apply list_find_Some in E as (Hi & _). apply lookup_lt_Some in Hi as Hlt.
    rewrite (length_delete s i) by eauto. lia.
  - destruct s; [done|]. simpl. lia.
Qed.

Lemma evict_Forall (P : sigdata -> Prop) key s : Forall P s -> Forall P (evict key s).
Proof.
  intros Hs. unfold evict. destruct (list_find _ s) as [[i x]|]; [by apply Forall_delete|].
  destruct Hs; [constructor|done].
Qed.

Section cache_facts.
Context (GetRandHash : nat -> base_uint) (nMaxCacheSize : Z).

Lemma evict_loop_spec (P : sigdata -> Prop) fuel c : (length (setValid c) <= fuel)%nat -> 0 <= nMaxCacheSize ->
  Forall P (setValid c) ->
  Forall P (setValid (evict_loop GetRandHash nMaxCacheSize fuel c)) /\
  len (setValid (evict_loop GetRandHash nMaxCacheSize fuel c)) <= nMaxCacheSize.
Proof.
  revert c. induction fuel as [|fuel IH]; intros c Hf Hn HP; cbn [evict_loop].
  { split; [done|]. unfold len. lia. }
  destruct (Z.ltb_spec nMaxCacheSize (len (setValid c))); [|done].
  assert (setValid c <> []) as Hne by (intros E; rewrite E in *; unfold len in *; simpl in *; lia).
  pose proof (evict_length (GetRandHash (draws c), [], []) _ Hne). apply IH; cbn [setValid]; [|done|by apply evict_Forall].
  unfold len in *. lia.
Qed.

Lemma cache_Set_spec (P : sigdata -> Prop) c k : Forall P (setValid c) -> P k ->
  Forall P (setValid (cache_Set GetRandHash nMaxCacheSize c k)) /\
  len (setValid (cache_Set GetRandHash nMaxCacheSize c k)) <= Z.max (len (setValid c)) (nMaxCacheSize + 1).
Proof.
  intros Hc Hk. unfold cache_Set. destruct (Z.leb_spec nMaxCacheSize 0); [split; [done|lia]|].
  destruct (evict_loop_spec P (length (setValid c)) c) as [H1 H2]; [lia|lia|done|]. cbn [setValid]. split.
  - by apply set_insert_Forall.
  - pose proof (set_insert_length sigdata_lt k (setValid (evict_loop GetRandHash nMaxCacheSize (length (setValid c)) c))).
    unfold len in *. lia.
Qed.

(** ** Soundness of the cache *)

Context `{CS : Crypto_spec} `{EC}.

Definition verified (k : sigdata) : Prop :=
  let '(h, s, pk) := k in
  wf 8 h /\ exists key, key_SetPubKey key_Reset (mkPubKey pk) = (true, key) /\ key_Verify key h s = true.

Definition cache_ok (c : CSignatureCache) : Prop := Forall verified (setValid c).

Lemma cache_Get_sound c k : cache_ok c -> wf 8 (sig_hash k) -> cache_Get c k = true -> verified k.
Proof.
  intros Hc Hk E. unfold cache_Get in E. apply existsb_exists in E as (k' & Hin & E).
  unfold cache_ok in Hc. rewrite List.Forall_forall in Hc. specialize (Hc k' Hin).
  apply sigdata_equiv_eq in E as ->; [done|done|]. destruct k' as [[h s] pk]. apply Hc.
Qed.

Lemma wf_SignatureHash sc tx nIn h : wf 8 (SignatureHash sc tx nIn h).
Proof. unfold SignatureHash. case_match; [apply wf_Hash|apply wf_of_uint64; lia]. Qed.

(** The check without a cache. *)
Definition sig_valid (vchSig vchPubKey : list Z) (scriptCode : CScript) (txTo : CTransaction)
    (nIn nHashType : Z) : bool :=
  match last vchSig with
  | None => false
  | Some back =>
      if negb (nHashType =? 0) && negb (nHashType =? back) then false
      else
        let nHashType := if nHashType =? 0 then back else nHashType in
        let '(ok, key) := key_SetPubKey key_Reset (mkPubKey vchPubKey) in
        ok && key_Verify key (SignatureHash scriptCode txTo nIn nHashType) (removelast vchSig)
  end.

Lemma CheckSig_spec c vchSig vchPubKey sc tx nIn nHashType : cache_ok c ->
  exists c', CheckSig GetRandHash nMaxCacheSize c vchSig vchPubKey sc tx nIn nHashType =
    (sig_valid vchSig vchPubKey sc tx nIn nHashType, c') /\ cache_ok c' /\
    len (setValid c') <= Z.max (len (setValid c)) (nMaxCacheSize + 1).
Proof.
  intros Hc. unfold CheckSig, sig_valid. destruct (last vchSig) as [back|]; [|exists c; split_and!; (done || lia)].
  destruct (negb (nHashType =? 0) && negb (nHashType =? back)); [exists c; split_and!; (done || lia)|].
  set (ht := if nHashType =? 0 then back else nHashType).
  set (h := SignatureHash sc tx nIn ht). set (sig := removelast vchSig).
  assert (Hh : wf 8 h) by apply wf_SignatureHash.
  destruct (cache_Get c (h, sig, vchPubKey)) eqn:E.
  { apply cache_Get_sound in E as (_ & key & -> & ->); [|done|done]. exists c. split_and!; (done || lia). }
  destruct (key_SetPubKey key_Reset (mkPubKey vchPubKey)) as [[] key] eqn:Ek; cbn [negb andb]; [|exists c; split_and!; (done || lia)].
  destruct (key_Verify key h sig) eqn:Ev; cbn [negb]; [|exists c; split_and!; (done || lia)].
  destruct (cache_Set_spec verified c (h, sig, vchPubKey)) as [H1 H2]; [done|split; [done|by exists key]|].
  eexists. split; [done|]. done.
Qed.
End cache_facts.

(** ** What a signature commits to *)

Definition strip_sigs (tx : CTransaction) : CTransaction :=
  mkTx (tx_nVersion tx) (tx_nTime tx) (map (fun i => mkTxIn (prevout i) [] (nSequence i)) (vin tx))
    (vout tx) (nLockTime tx) (data tx) (nDoS tx).

Lemma sighash_tx_strip sc tx nIn h : sighash_tx sc (strip_sigs tx) nIn h = sighash_tx sc tx nIn h.
Proof.
  unfold sighash_tx, strip_sigs. cbn [vin vout tx_nVersion tx_nTime nLockTime data nDoS].
  unfold len. rewrite length_map, imap_fmap. done.
Qed.

Lemma lookup_imap_sig (f : nat -> CTxIn -> CTxIn) l i : imap f l !! i = f i <$> l !! i.
Proof. apply list_lookup_imap. Qed.

(** With [SIGHASH_ANYONECANPAY] the other inputs do not matter. *)
Lemma sighash_tx_anyone sc tx tx' nIn h :
  Z.land h SIGHASH_ANYONECANPAY <> 0 -> 0 <= nIn < len (vin tx) -> 0 <= nIn < len (vin tx') ->
  vin tx !! Z.to_nat nIn = vin tx' !! Z.to_nat nIn -> vout tx = vout tx' ->
  tx_nVersion tx = tx_nVersion tx' -> tx_nTime tx = tx_nTime tx' -> nLockTime tx = nLockTime tx' ->
  data tx = data tx' -> nDoS tx = nDoS tx' ->
  sighash_tx sc tx nIn h = sighash_tx sc tx' nIn h.
Proof.
  intros Hh H1 H2 Hi Ho Hv Ht Hl Hd Hn. unfold sighash_tx.
  rewrite (proj2 (Z.leb_gt (len (vin tx)) nIn)), (proj2 (Z.leb_gt (len (vin tx')) nIn)) by lia.
  rewrite Ho, Hv, Ht, Hl, Hd, Hn. rewrite (proj2 (Z.eqb_neq _ _) Hh). cbn [negb].
  rewrite !list_lookup_imap, Hi. done.
Qed.

(** ** Main theorems *)

(** The signature cache is transparent: as long as it holds only verified
    signatures, [CheckSig] answers exactly what the check without a cache
    answers, whatever was cached or evicted before; it keeps the cache that way,
    and the cache never grows beyond one entry more than its limit. *)
Theorem signature_cache_transparent `{CS : Crypto_spec} `{EC} GetRandHash nMaxCacheSize c
    vchSig vchPubKey sc tx nIn nHashType :
  cache_ok c ->
  exists c', CheckSig GetRandHash nMaxCacheSize c vchSig vchPubKey sc tx nIn nHashType =
    (sig_valid vchSig vchPubKey sc tx nIn nHashType, c') /\ cache_ok c' /\
    len (setValid c') <= Z.max (len (setValid c)) (nMaxCacheSize + 1).
Proof. intros Hc. by apply CheckSig_spec. Qed.

Lemma signature_cache_transparent_witness :
  exists c', @CheckSig (fun _ => []) 2 Crypto_toy EC_toy (mkSigCache [] 0) (48 :: replicate 32 7 ++ [1]) (2 :: replicate 32 7) [] example_tx 0 0 =
    (true, c') /\ @cache_ok EC_toy c'.
Proof.
  destruct (@signature_cache_transparent Crypto_toy Crypto_toy_spec EC_toy (fun _ => []) 2 (mkSigCache [] 0)
    (48 :: replicate 32 7 ++ [1]) (2 :: replicate 32 7) [] example_tx 0 0) as (c' & E & Hok & _); [constructor|].
  exists c'. split; [|exact Hok]. rewrite E. vm_compute. reflexivity.
Defined.

(** What a signature hash leaves out: it never depends on any input's
    signature script (so that signatures can be added in any order); with
    SIGHASH_NONE it does not depend on the outputs; with SIGHASH_ANYONECANPAY it
    does not depend on the other inputs; and for SIGHASH_SINGLE on an input
    without a matching output it is the constant 1, whatever the transaction. *)
Theorem signature_hash_leaves_out `{Crypto} sc nIn h :
  (forall tx tx', strip_sigs tx = strip_sigs tx' -> SignatureHash sc tx nIn h = SignatureHash sc tx' nIn h) /\
  (forall tx outs, Z.land h 0x1f = SIGHASH_NONE ->
     SignatureHash sc (mkTx (tx_nVersion tx) (tx_nTime tx) (vin tx) outs (nLockTime tx) (data tx) (nDoS tx)) nIn h
     = SignatureHash sc tx nIn h) /\
  (forall tx ins, Z.land h SIGHASH_ANYONECANPAY <> 0 -> 0 <= nIn < len (vin tx) -> 0 <= nIn < len ins ->
     vin tx !! Z.to_nat nIn = ins !! Z.to_nat nIn ->
     SignatureHash sc (mkTx (tx_nVersion tx) (tx_nTime tx) ins (vout tx) (nLockTime tx) (data tx) (nDoS tx)) nIn h
     = SignatureHash sc tx nIn h) /\
  (forall tx, Z.land h 0x1f = SIGHASH_SINGLE -> len (vout tx) <= nIn -> SignatureHash sc tx nIn h = bu_of_uint64 8 1).
Proof.
  split_and!.
  - intros tx tx' E. unfold SignatureHash. rewrite <- (sighash_tx_strip sc tx), <- (sighash_tx_strip sc tx'), E. done.
  - intros tx outs E. unfold SignatureHash, sighash_tx. cbn [vin vout tx_nVersion tx_nTime nLockTime data nDoS].
    by rewrite E.
  - intros tx ins Hh H1 H2 Hi. unfold SignatureHash. rewrite (sighash_tx_anyone sc _ tx nIn h); [done|done| |done| |done..].
    + exact H2.
    + symmetry. exact Hi.
  - intros tx E Hl. unfold SignatureHash, sighash_tx. rewrite E. destruct (len (vin tx) <=? nIn); [done|].
    change (SIGHASH_SINGLE =? SIGHASH_NONE) with false. change (SIGHASH_SINGLE =? SIGHASH_SINGLE) with true. cbv iota.
    by rewrite (proj2 (Z.leb_le _ _) Hl).
Qed.

Lemma signature_hash_leaves_out_witness :
  @SignatureHash Crypto_toy [] example_tx 1 SIGHASH_SINGLE = bu_of_uint64 8 1.
Proof.
  destruct (@signature_hash_leaves_out Crypto_toy [] 1 SIGHASH_SINGLE) as (_ & _ & _ & Hsingle).
  apply Hsingle; [reflexivity|vm_compute; discriminate].
Defined.
