(* ===== verification/Interp.v ===== *)
(** * script.cpp: the script interpreter

    [EvalScript] is a loop over the instructions of a script with a main stack,
    an alternate stack, a stack of conditions and an operation counter.  The
    stacks are lists with the top first.  An instruction either goes on or ends
    the run with [return false]; a C++ exception raised by an instruction is
    caught by the loop and has the same effect.  The stack is a reference
    parameter, so what it holds when a run fails is part of the result.  The
    cases of the opcodes that are refused before the [switch] is reached (OP_CAT
    and the like) are dead code and have no counterpart here. *)
From Stdlib Require Import ZArith Lia Bool.
From stdpp Require Import prelude.
From S2P Require Import Prelude Uint256 DataStream Serialize Crypto Bignum Opcodes Script Tx Keys SigHash.

Definition valtype : Type := list Z.
Definition vchFalse : valtype := [].
Definition vchTrue : valtype := [1].
Definition nMaxNumSize : Z := 4.

Record eval_state : Type := mkEval {
  stack : list valtype;
  altstack : list valtype;
  vfExec : list bool;
  pbegincodehash : CScript;
  nOpCount : Z
}.

Definition set_stack (s : list valtype) (st : eval_state) : eval_state :=
  mkEval s (altstack st) (vfExec st) (pbegincodehash st) (nOpCount st).
Definition set_alt (a : list valtype) (st : eval_state) : eval_state :=
  mkEval (stack st) a (vfExec st) (pbegincodehash st) (nOpCount st).
Definition set_exec (l : list bool) (st : eval_state) : eval_state :=
  mkEval (stack st) (altstack st) l (pbegincodehash st) (nOpCount st).
Definition set_codehash (pc : CScript) (st : eval_state) : eval_state :=
  mkEval (stack st) (altstack st) (vfExec st) pc (nOpCount st).
Definition set_count_ops (n : Z) (st : eval_state) : eval_state :=
  mkEval (stack st) (altstack st) (vfExec st) (pbegincodehash st) n.

Fixpoint CastToBool (vch : valtype) : bool :=
  match vch with
  | [] => false
  | c :: t => if c =? 0 then CastToBool t
              else match t with [] => negb (c =? 0x80) | _ => true end
  end.

Definition is_disabled (opcode : Z) : bool :=
  existsb (Z.eqb opcode) [OP_CAT; OP_SUBSTR; OP_LEFT; OP_RIGHT; OP_INVERT; OP_AND; OP_OR; OP_XOR;
    OP_2MUL; OP_2DIV; OP_MUL; OP_DIV; OP_MOD; OP_LSHIFT; OP_RSHIFT].

Section numbers.
Context `{BN}.

(** [None]: the overflow exception. *)
Definition CastToBigNum (vch : valtype) : option Z :=
  if nMaxNumSize <? len vch then None else Some (setvch (getvch (setvch vch))).

Definition bn_of_bool (b : bool) : Z := CBigNum_int (if b then 1 else 0).

(** The pure stack operations: whether the run goes on, and the stack. *)
Definition stack_op (opcode : Z) (s : list valtype) : bool * list valtype :=
  if opcode =? OP_2DROP then
    match s with _ :: _ :: t => (true, t) | _ => (false, s) end
  else if opcode =? OP_2DUP then
    match s with x2 :: x1 :: _ => (true, x2 :: x1 :: s) | _ => (false, s) end
  else if opcode =? OP_3DUP then
    match s with x3 :: x2 :: x1 :: _ => (true, x3 :: x2 :: x1 :: s) | _ => (false, s) end
  else if opcode =? OP_2OVER then
    match s with _ :: _ :: x2 :: x1 :: _ => (true, x2 :: x1 :: s) | _ => (false, s) end
  else if opcode =? OP_2ROT then
    match s with x6 :: x5 :: x4 :: x3 :: x2 :: x1 :: t => (true, x2 :: x1 :: x6 :: x5 :: x4 :: x3 :: t)
    | _ => (false, s) end
  else if opcode =? OP_2SWAP then
    match s with x4 :: x3 :: x2 :: x1 :: t => (true, x2 :: x1 :: x4 :: x3 :: t) | _ => (false, s) end
  else if opcode =? OP_IFDUP then
    match s with x :: _ => (true, if CastToBool x then x :: s else s) | _ => (false, s) end
  else if opcode =? OP_DEPTH then (true, getvch (setulong (len s)) :: s)
  else if opcode =? OP_DROP then
    match s with _ :: t => (true, t) | _ => (false, s) end
  else if opcode =? OP_DUP then
    match s with x :: _ => (true, x :: s) | _ => (false, s) end
  else if opcode =? OP_NIP then
    match s with x2 :: _ :: t => (true, x2 :: t) | _ => (false, s) end
  else if opcode =? OP_OVER then
    match s with _ :: x1 :: _ => (true, x1 :: s) | _ => (false, s) end
  else if (opcode =? OP_PICK) || (opcode =? OP_ROLL) then
    match s with
    | top :: ((_ :: _) as t) =>
        match CastToBigNum top with
        | None => (false, s)
        | Some bn =>
            let n := getint bn in
            if (n <? 0) || (len t <=? n) then (false, t)
            else
              match t !! Z.to_nat n with
              | None => (false, t)
              | Some vch => (true, vch :: (if opcode =? OP_ROLL then delete (Z.to_nat n) t else t))
              end
        end
    | _ => (false, s)
    end
  else if opcode =? OP_ROT then
    match s with x3 :: x2 :: x1 :: t => (true, x1 :: x3 :: x2 :: t) | _ => (false, s) end
  else if opcode =? OP_SWAP then
    match s with x2 :: x1 :: t => (true, x1 :: x2 :: t) | _ => (false, s) end
  else if opcode =? OP_TUCK then
    match s with x2 :: x1 :: t => (true, x2 :: x1 :: x2 :: t) | _ => (false, s) end
  else if opcode =? OP_SIZE then
    match s with x :: _ => (true, getvch (setulong (len x)) :: s) | _ => (false, s) end
  else (false, s).

Definition is_stack_op (opcode : Z) : bool :=
  existsb (Z.eqb opcode) [OP_2DROP; OP_2DUP; OP_3DUP; OP_2OVER; OP_2ROT; OP_2SWAP; OP_IFDUP; OP_DEPTH;
    OP_DROP; OP_DUP; OP_NIP; OP_OVER; OP_PICK; OP_ROLL; OP_ROT; OP_SWAP; OP_TUCK; OP_SIZE].

(** OP_1ADD to OP_0NOTEQUAL. *)
Definition unary_num (opcode bn : Z) : Z :=
  if opcode =? OP_1ADD then BN_add bn (CBigNum_int 1)
  else if opcode =? OP_1SUB then BN_sub bn (CBigNum_int 1)
  else if opcode =? OP_NEGATE then bn_neg bn
  else if opcode =? OP_ABS then (if bn_lt bn (CBigNum_int 0) then bn_neg bn else bn)
  else if opcode =? OP_NOT then bn_of_bool (bn_eq bn (CBigNum_int 0))
  else bn_of_bool (bn_ne bn (CBigNum_int 0)).

Definition is_unary_num (opcode : Z) : bool :=
  existsb (Z.eqb opcode) [OP_1ADD; OP_1SUB; OP_NEGATE; OP_ABS; OP_NOT; OP_0NOTEQUAL].

Definition unary_op (opcode : Z) (s : list valtype) : bool * list valtype :=
  match s with
  | x :: t => match CastToBigNum x with
              | None => (false, s)
              | Some bn => (true, getvch (unary_num opcode bn) :: t)
              end
  | [] => (false, s)
  end.

(** OP_ADD to OP_MAX. *)
Definition binary_num (opcode bn1 bn2 : Z) : Z :=
  let zero := CBigNum_int 0 in
  if opcode =? OP_ADD then BN_add bn1 bn2
  else if opcode =? OP_SUB then BN_sub bn1 bn2
  else if opcode =? OP_BOOLAND then bn_of_bool (bn_ne bn1 zero && bn_ne bn2 zero)
  else if opcode =? OP_BOOLOR then bn_of_bool (bn_ne bn1 zero || bn_ne bn2 zero)
  else if (opcode =? OP_NUMEQUAL) || (opcode =? OP_NUMEQUALVERIFY) then bn_of_bool (bn_eq bn1 bn2)
  else if opcode =? OP_NUMNOTEQUAL then bn_of_bool (bn_ne bn1 bn2)
  else if opcode =? OP_LESSTHAN then bn_of_bool (bn_lt bn1 bn2)
  else if opcode =? OP_GREATERTHAN then bn_of_bool (bn_gt bn1 bn2)
  else if opcode =? OP_LESSTHANOREQUAL then bn_of_bool (bn_le bn1 bn2)
  else if opcode =? OP_GREATERTHANOREQUAL then bn_of_bool (bn_ge bn1 bn2)
  else if opcode =? OP_MIN then (if bn_lt bn1 bn2 then bn1 else bn2)
  else (if bn_gt bn1 bn2 then bn1 else bn2).

Definition is_binary_num (opcode : Z) : bool :=
  existsb (Z.eqb opcode) [OP_ADD; OP_SUB; OP_BOOLAND; OP_BOOLOR; OP_NUMEQUAL; OP_NUMEQUALVERIFY;
    OP_NUMNOTEQUAL; OP_LESSTHAN; OP_GREATERTHAN; OP_LESSTHANOREQUAL; OP_GREATERTHANOREQUAL; OP_MIN; OP_MAX].

(** The end of the ...VERIFY forms: a true result is popped, a false one ends the run. *)
Definition verify_top (fVerify fSuccess : bool) (res : valtype) (t : list valtype) : bool * list valtype :=
  if fVerify then (if fSuccess then (true, t) else (false, res :: t)) else (true, res :: t).

Definition binary_op (opcode : Z) (s : list valtype) : bool * list valtype :=
  match s with
  | x2 :: x1 :: t =>
      match CastToBigNum x1, CastToBigNum x2 with
      | Some bn1, Some bn2 =>
          let res := getvch (binary_num opcode bn1 bn2) in
          verify_top (opcode =? OP_NUMEQUALVERIFY) (CastToBool res) res t
      | _, _ => (false, s)
      end
  | _ => (false, s)
  end.

Definition equal_op (opcode : Z) (s : list valtype) : bool * list valtype :=
  match s with
  | x2 :: x1 :: t =>
      let fEqual := bytes_eqb x1 x2 in
      verify_top (opcode =? OP_EQUALVERIFY) fEqual (if fEqual then vchTrue else vchFalse) t
  | _ => (false, s)
  end.

Definition within_op (s : list valtype) : bool * list valtype :=
  match s with
  | x3 :: x2 :: x1 :: t =>
      match CastToBigNum x1, CastToBigNum x2, CastToBigNum x3 with
      | Some bn1, Some bn2, Some bn3 =>
          (true, (if bn_le bn2 bn1 && bn_lt bn1 bn3 then vchTrue else vchFalse) :: t)
      | _, _, _ => (false, s)
      end
  | _ => (false, s)
  end.

Context `{Crypto}.

Definition hash_value (opcode : Z) (vch : valtype) : valtype :=
  if opcode =? OP_RIPEMD160 then RIPEMD160 vch
  else if opcode =? OP_SHA1 then SHA1 vch
  else if opcode =? OP_SHA256 then SHA256 vch
  else if opcode =? OP_HASH160 then bu_bytes (Hash160 vch)
  else bu_bytes (Hash vch).

Definition is_hash_op (opcode : Z) : bool :=
  existsb (Z.eqb opcode) [OP_RIPEMD160; OP_SHA1; OP_SHA256; OP_HASH160; OP_HASH256].

Definition hash_op (opcode : Z) (s : list valtype) : bool * list valtype :=
  match s with x :: t => (true, hash_value opcode x :: t) | [] => (false, s) end.

(** ** Signatures

    [check] is [CheckSig] for the transaction, input and hash type of the run,
    with the state [S] it keeps between calls. *)

Context {S : Type} (check : S -> valtype -> valtype -> CScript -> bool * S).

Definition checksig_op (opcode : Z) (codehash : CScript) (s : list valtype) (c : S)
    : bool * list valtype * S :=
  match s with
  | vchPubKey :: vchSig :: t =>
      let scriptCode := fst (FindAndDelete codehash (push_vch [] vchSig)) in
      let '(fSuccess, c) := check c vchSig vchPubKey scriptCode in
      (verify_top (opcode =? OP_CHECKSIGVERIFY) fSuccess (if fSuccess then vchTrue else vchFalse) t, c)
  | _ => (false, s, c)
  end.

(** The [while (fSuccess && nSigsCount > 0)] loop: [sigs] and [keys] are what is
    left from [stacktop(-isig)] and [stacktop(-ikey)] on. *)
Fixpoint multisig_loop (keys sigs : list valtype) (scriptCode : CScript) (c : S) {struct keys} : bool * S :=
  match sigs, keys with
  | [], _ => (true, c)
  | _ :: _, [] => (false, c)
  | vchSig :: sigs', vchPubKey :: keys' =>
      let '(ok, c) := check c vchSig vchPubKey scriptCode in
      let left := if ok then sigs' else sigs in
      if len keys' <? len left then (false, c) else multisig_loop keys' left scriptCode c
  end.

(** Whether the run goes on, the stack, [nOpCount] and the state of [check]. *)
Definition multisig_op (opcode : Z) (codehash : CScript) (nOps : Z) (s : list valtype) (c : S)
    : bool * list valtype * Z * S :=
  match s with
  | [] => (false, s, nOps, c)
  | top :: _ =>
      match CastToBigNum top with
      | None => (false, s, nOps, c)
      | Some bn =>
          let nKeysCount := getint bn in
          if (nKeysCount <? 0) || (20 <? nKeysCount) then (false, s, nOps, c)
          else
            let nOps := nOps + nKeysCount in
            if 201 <? nOps then (false, s, nOps, c)
            else
              match s !! Z.to_nat (1 + nKeysCount) with
              | None => (false, s, nOps, c)
              | Some vchCount =>
                  match CastToBigNum vchCount with
                  | None => (false, s, nOps, c)
                  | Some bn =>
                      let nSigsCount := getint bn in
                      if (nSigsCount <? 0) || (nKeysCount <? nSigsCount) then (false, s, nOps, c)
                      else if len s <? 3 + nKeysCount + nSigsCount then (false, s, nOps, c)
                      else
                        let keys := take (Z.to_nat nKeysCount) (drop 1 s) in
                        let sigs := take (Z.to_nat nSigsCount) (drop (Z.to_nat (2 + nKeysCount)) s) in
                        let scriptCode := fold_left
                          (fun code vchSig => fst (FindAndDelete code (push_vch [] vchSig))) sigs codehash in
                        let '(fSuccess, c) := multisig_loop keys sigs scriptCode c in
                        (verify_top (opcode =? OP_CHECKMULTISIGVERIFY) fSuccess
                           (if fSuccess then vchTrue else vchFalse)
                           (drop (Z.to_nat (3 + nKeysCount + nSigsCount)) s), nOps, c)
                  end
              end
      end
  end.

(** ** The loop *)

Definition is_push_num (opcode : Z) : bool := (opcode =? OP_1NEGATE) || ((OP_1 <=? opcode) && (opcode <=? OP_16)).

Definition is_nop (opcode : Z) : bool :=
  (opcode =? OP_NOP) || ((OP_NOP1 <=? opcode) && (opcode <=? OP_NOP10)).

Definition lift_stack (st : eval_state) (r : bool * list valtype) : bool * eval_state :=
  (fst r, set_stack (snd r) st).

(** The control operations and those on the alternate stack; [pc] is the
    position after the instruction. *)
Definition control_op (opcode : Z) (fExec : bool) (pc : CScript) (st : eval_state) : bool * eval_state :=
  if is_push_num opcode then
    (true, set_stack (getvch (CBigNum_int (opcode - (OP_1 - 1))) :: stack st) st)
  else if is_nop opcode then (true, st)
  else if (opcode =? OP_IF) || (opcode =? OP_NOTIF) then
    if fExec then
      match stack st with
      | [] => (false, st)
      | vch :: t =>
          let fValue := CastToBool vch in
          (true, set_exec ((if opcode =? OP_NOTIF then negb fValue else fValue) :: vfExec st) (set_stack t st))
      end
    else (true, set_exec (false :: vfExec st) st)
  else if opcode =? OP_ELSE then
    match vfExec st with [] => (false, st) | b :: t => (true, set_exec (negb b :: t) st) end
  else if opcode =? OP_ENDIF then
    match vfExec st with [] => (false, st) | _ :: t => (true, set_exec t st) end
  else if opcode =? OP_VERIFY then
    match stack st with
    | [] => (false, st)
    | vch :: t => if CastToBool vch then (true, set_stack t st) else (false, st)
    end
  else if opcode =? OP_TOALTSTACK then
    match stack st with
    | [] => (false, st)
    | vch :: t => (true, set_stack t (set_alt (vch :: altstack st) st))
    end
  else if opcode =? OP_FROMALTSTACK then
    match altstack st with
    | [] => (false, st)
    | vch :: t => (true, set_stack (vch :: stack st) (set_alt t st))
    end
  else if opcode =? OP_CODESEPARATOR then (true, set_codehash pc st)
  else (false, st).

(** The [switch]. *)
Definition exec_op (opcode : Z) (fExec : bool) (pc : CScript) (st : eval_state) (c : S)
    : bool * eval_state * S :=
  if is_stack_op opcode then (lift_stack st (stack_op opcode (stack st)), c)
  else if (opcode =? OP_EQUAL) || (opcode =? OP_EQUALVERIFY) then (lift_stack st (equal_op opcode (stack st)), c)
  else if is_unary_num opcode then (lift_stack st (unary_op opcode (stack st)), c)
  else if is_binary_num opcode then (lift_stack st (binary_op opcode (stack st)), c)
  else if opcode =? OP_WITHIN then (lift_stack st (within_op (stack st)), c)
  else if is_hash_op opcode then (lift_stack st (hash_op opcode (stack st)), c)
  else if (opcode =? OP_CHECKSIG) || (opcode =? OP_CHECKSIGVERIFY) then
    let '(ok, s, c) := checksig_op opcode (pbegincodehash st) (stack st) c in (ok, set_stack s st, c)
  else if (opcode =? OP_CHECKMULTISIG) || (opcode =? OP_CHECKMULTISIGVERIFY) then
    let '(ok, s, n, c) := multisig_op opcode (pbegincodehash st) (nOpCount st) (stack st) c in
    (ok, set_count_ops n (set_stack s st), c)
  else (control_op opcode fExec pc st, c).

Definition exec_flag (st : eval_state) : bool := forallb id (vfExec st).

(** One instruction, already read: the body of the loop after [GetOp]. *)
Definition eval_step (opcode : Z) (vch : valtype) (pc : CScript) (st : eval_state) (c : S)
    : bool * eval_state * S :=
  let fExec := exec_flag st in
  if 520 <? len vch then (false, st, c)
  else
    let st := if OP_16 <? opcode then set_count_ops (nOpCount st + 1) st else st in
    if (OP_16 <? opcode) && (201 <? nOpCount st) then (false, st, c)
    else if is_disabled opcode then (false, st, c)
    else
      let '(ok, st, c) :=
        if fExec && (0 <=? opcode) && (opcode <=? OP_PUSHDATA4) then (true, set_stack (vch :: stack st) st, c)
        else if fExec || ((OP_IF <=? opcode) && (opcode <=? OP_ENDIF)) then exec_op opcode fExec pc st c
        else (true, st, c) in
      (ok && (len (stack st) + len (altstack st) <=? 1000), st, c).

(** [while (pc < pend)]; every instruction takes a byte, so the length of the
    script is enough fuel. *)
Fixpoint eval_loop (fuel : nat) (pc : CScript) (st : eval_state) (c : S) : bool * eval_state * S :=
  match pc, fuel with
  | [], _ => (match vfExec st with [] => true | _ => false end, st, c)
  | _, O => (false, st, c)
  | _, Datatypes.S fuel =>
      match GetOp pc with
      | None => (false, st, c)
      | Some (opcode, vch, pc) =>
          let '(ok, st, c) := eval_step opcode vch pc st c in
          if ok then eval_loop fuel pc st c else (false, st, c)
      end
  end.

Definition EvalScript (s : list valtype) (script : CScript) (c : S) : bool * list valtype * S :=
  if 10000 <? len script then (false, s, c)
  else
    let '(ok, st, c) := eval_loop (length script) script (mkEval s [] [] script 0) c in
    (ok, stack st, c).

(** [None]: [back()] of an empty vector. *)
Definition VerifyScript (scriptSig scriptPubKey : CScript) (fValidatePayToScriptHash : bool) (c : S)
    : option (bool * S) :=
  let '(ok, s, c) := EvalScript [] scriptSig c in
  if negb ok then Some (false, c)
  else
    let stackCopy := if fValidatePayToScriptHash then s else [] in
    let '(ok, s, c) := EvalScript s scriptPubKey c in
    if negb ok then Some (false, c)
    else
      match s with
      | [] => Some (false, c)
      | back :: _ =>
          if negb (CastToBool back) then Some (false, c)
          else if fValidatePayToScriptHash && IsPayToScriptHash scriptPubKey then
            if negb (IsPushOnly scriptSig) then Some (false, c)
            else
              match stackCopy with
              | [] => None
              | pubKey2 :: stackCopy =>
                  let '(ok, s, c) := EvalScript stackCopy pubKey2 c in
                  if negb ok then Some (false, c)
                  else match s with
                       | [] => Some (false, c)
                       | back :: _ => Some (CastToBool back, c)
                       end
              end
          else Some (true, c)
      end.
End numbers.

(** [CheckSig] supplied; [None] also for the failed assertion. *)
Definition VerifySignature `{BN} `{Crypto} `{EC} (GetRandHash : nat -> base_uint) (nMaxCacheSize : Z)
    (txFrom txTo : CTransaction) (nIn : Z) (fValidatePayToScriptHash : bool) (nHashType : Z)
    (c : CSignatureCache) : option (bool * CSignatureCache) :=
  match vin txTo !! Z.to_nat nIn with
  | None => None
  | Some txin =>
      match vout txFrom !! Z.to_nat (op_n (prevout txin)) with
      | None => Some (false, c)
      | Some txout =>
          if negb (bu_eq (op_hash (prevout txin)) (tx_GetHash txFrom)) then Some (false, c)
          else VerifyScript (fun c vchSig vchPubKey code =>
                 CheckSig GetRandHash nMaxCacheSize c vchSig vchPubKey code txTo nIn nHashType)
                 (scriptSig txin) (scriptPubKey txout) fValidatePayToScriptHash c
      end
  end.

(** ** Numbers on the stack *)

Definition elem_ok (v : valtype) : Prop := digits 256 v /\ len v <= 520.

Lemma mpi_value_bound d : digits 256 d -> Z.abs (mpi_value d) < 256 ^ len d.
Proof.
  intros Hd. destruct Hd as [|b t Hb Ht]; [done|]. unfold mpi_value.
  pose proof (of_be_bound t Ht). rewrite !of_be_cons, len_cons, Z.pow_add_r by (pose proof (len_nonneg t); lia).
  destruct (Z.leb_spec 128 b); nia.
Qed.

Section spec.
Context `{BNS : BN_spec}.

Lemma getvch_elem z : Z.abs z < 2 ^ 64 -> elem_ok (getvch z).
Proof.
  intros Hz. rewrite getvch_value. split; [apply Forall_rev, mpi_body_ok|].
  unfold len. rewrite length_rev. pose proof (mpi_body_len z) as Hl. unfold len in Hl.
  pose proof (nbits_le (Z.abs z) 64 ltac:(lia) ltac:(lia)).
  pose proof (Z.div_le_mono (nbits (Z.abs z) + 7) 71 8 ltac:(lia) ltac:(lia)) as Hd. change (71 / 8) with 8 in Hd. lia.
Qed.

Lemma CastToBigNum_value v z : digits 256 v -> CastToBigNum v = Some z ->
  len v <= 4 /\ z = mpi_value (rev v) /\ Z.abs z < 2 ^ 32.
Proof.
  intros Hv. unfold CastToBigNum, nMaxNumSize. destruct (Z.ltb_spec 4 (len v)); [done|]. intros [= <-].
  pose proof (len_nonneg v). split; [done|].
  assert (Hz : setvch v = mpi_value (rev v)) by (apply setvch_value; (done || lia)).
  assert (Hb : Z.abs (setvch v) < 2 ^ 32).
  { rewrite Hz. pose proof (mpi_value_bound (rev v) ltac:(by apply Forall_rev)) as Hb.
    unfold len in *. rewrite length_rev in Hb.
    pose proof (Z.pow_le_mono_r 256 (Z.of_nat (length v)) 4 ltac:(lia) ltac:(lia)).
    change (256 ^ 4) with (2 ^ 32) in *. lia. }
  rewrite setvch_getvch; [done|].
  destruct (getvch_elem (setvch v)) as [_ Hl]; [lia|]. lia.
Qed.

Lemma bn_of_bool_value b : bn_of_bool b = if b then 1 else 0.
Proof. unfold bn_of_bool. rewrite CBigNum_int_value by (destruct b; unfold sfits; lia). done. Qed.

Lemma bn_neg_value z : bn_neg z = - z.
Proof.
  unfold bn_neg. rewrite ?BN_is_negative_spec, ?BN_set_negative_spec, ?BN_sub_spec. repeat case_match; lia.
Qed.

Lemma unary_num_bound op z : Z.abs z < 2 ^ 32 -> Z.abs (unary_num op z) < 2 ^ 64.
Proof.
  intros Hz. unfold unary_num. rewrite !bn_neg_value, !bn_of_bool_value, BN_add_spec, BN_sub_spec,
    !CBigNum_int_value by (unfold sfits; lia).
  repeat case_match; lia.
Qed.

Lemma binary_num_bound op a b : Z.abs a < 2 ^ 32 -> Z.abs b < 2 ^ 32 -> Z.abs (binary_num op a b) < 2 ^ 64.
Proof.
  intros Ha Hb. unfold binary_num. cbv zeta. rewrite !bn_of_bool_value, BN_add_spec, BN_sub_spec.
  repeat case_match; lia.
Qed.
End spec.

(** ** The elements of the stack stay small *)

Lemma elem_true : elem_ok vchTrue. Proof. split; [forall_list; lia|done]. Qed.
Lemma elem_false : elem_ok vchFalse. Proof. split; [constructor|done]. Qed.
Lemma elem_bool (b : bool) : elem_ok (if b then vchTrue else vchFalse).
Proof. destruct b; [apply elem_true|apply elem_false]. Qed.

Create HintDb interp.
#[export] Hint Resolve elem_true elem_false elem_bool : interp.

(** Decomposes the known facts on a stack and rebuilds those on the result. *)
Ltac solve_stack :=
  simpl; repeat match goal with
  | H : Forall elem_ok (_ :: _) |- _ => apply Forall_cons in H as [? ?]
  end;
  repeat (apply Forall_cons; split); try done; auto with interp.

Section elems.
Context `{BNS : BN_spec} `{CS : Crypto_spec}.

Lemma len_elem {A} (l : list A) : len l <= 2 ^ 32 -> elem_ok (getvch (setulong (len l))).
Proof.
  intros Hl. apply getvch_elem. pose proof (len_nonneg l). unfold setulong.
  rewrite BN_set_word_spec by (unfold fits; lia). lia.
Qed.

Lemma stack_op_elems op s : Forall elem_ok s -> len s <= 1000 -> Forall elem_ok (snd (stack_op op s)).
Proof.
  intros Hs Hl. unfold stack_op.
  repeat match goal with
  | |- context [if ?b then _ else _] => destruct b
  | |- context [match s with _ => _ end] => let x := fresh "x" in let t := fresh "t" in destruct s as [|x t]
  | |- context [match ?t with _ => _ end] => is_var t; destruct t
  | |- context [match CastToBigNum ?t with _ => _ end] => destruct (CastToBigNum t)
  | |- context [match ?t !! ?i with _ => _ end] => destruct (t !! i) eqn:?
  end; try solve [solve_stack].
  - constructor; [apply len_elem; lia|done].
  - assert (elem_ok v0) by (by eapply Forall_lookup_1 in Heqo; [|apply Forall_cons in Hs as [_ Hs]]).
    constructor; [done|]. apply Forall_delete. solve_stack.
  - assert (elem_ok v0) by (by eapply Forall_lookup_1 in Heqo; [|apply Forall_cons in Hs as [_ Hs]]). solve_stack.
  - apply Forall_cons in Hs as [[Hx ?] Hs]. constructor; [apply len_elem; lia|]. by constructor.
Qed.

Lemma verify_top_elems v ok r t : elem_ok r -> Forall elem_ok t -> Forall elem_ok (snd (verify_top v ok r t)).
Proof. intros. unfold verify_top. destruct v, ok; simpl; auto. Qed.

Lemma unary_op_elems op s : Forall elem_ok s -> Forall elem_ok (snd (unary_op op s)).
Proof.
  intros Hs. unfold unary_op. destruct Hs as [|x t Hx Ht]; [constructor|].
  destruct (CastToBigNum x) as [z|] eqn:E; [|by constructor].
  apply CastToBigNum_value in E as (_ & _ & Hz); [|apply Hx].
  constructor; [by apply getvch_elem, unary_num_bound|done].
Qed.

Lemma binary_op_elems op s : Forall elem_ok s -> Forall elem_ok (snd (binary_op op s)).
Proof.
  intros Hs. unfold binary_op. destruct Hs as [|x2 t Hx2 Ht]; [constructor|].
  destruct Ht as [|x1 t Hx1 Ht]; [solve_stack|].
  destruct (CastToBigNum x1) as [z1|] eqn:E1; [|solve_stack].
  destruct (CastToBigNum x2) as [z2|] eqn:E2; [|solve_stack].
  apply CastToBigNum_value in E1 as (_ & _ & Hz1); [|apply Hx1].
  apply CastToBigNum_value in E2 as (_ & _ & Hz2); [|apply Hx2].
  apply verify_top_elems; [by apply getvch_elem, binary_num_bound|done].
Qed.

Lemma equal_op_elems op s : Forall elem_ok s -> Forall elem_ok (snd (equal_op op s)).
Proof.
  intros Hs. unfold equal_op. destruct Hs as [|x2 t Hx2 Ht]; [constructor|].
  destruct Ht as [|x1 t Hx1 Ht]; [solve_stack|]. apply verify_top_elems; auto with interp.
Qed.

Lemma within_op_elems s : Forall elem_ok s -> Forall elem_ok (snd (within_op s)).
Proof.
  intros Hs. unfold within_op. destruct s as [|x3 [|x2 [|x1 t]]]; [solve_stack..|].
  repeat case_match; solve_stack.
Qed.

Lemma hash_value_elem op v : elem_ok (hash_value op v).
Proof.
  unfold hash_value. destruct (RIPEMD160_ok v), (SHA1_ok v), (SHA256_ok v). pose proof (wf_Hash160 v) as [H160 _].
  pose proof (wf_Hash v) as [H256 _]. unfold elem_ok, len.
  repeat case_match; split; try apply bu_bytes_ok; try done; rewrite ?length_bu_bytes; lia.
Qed.

Lemma hash_op_elems op s : Forall elem_ok s -> Forall elem_ok (snd (hash_op op s)).
Proof. intros Hs. destruct Hs; [constructor|]. constructor; [apply hash_value_elem|done]. Qed.
End elems.

(** ** Resources of a run

    [cost] is any measure of the state of [check] that a call raises by at most
    one, for example the number of calls. *)

Definition inv (st : eval_state) : Prop :=
  Forall elem_ok (stack st) /\ Forall elem_ok (altstack st) /\
  len (stack st) + len (altstack st) <= 1000 /\ 0 <= nOpCount st <= 201.

Section resources.
Context `{BNS : BN_spec} `{CS : Crypto_spec}.
Context {S : Type} (check : S -> valtype -> valtype -> CScript -> bool * S) (cost : S -> Z).
Hypothesis cost_check : forall c sig key code, cost (snd (check c sig key code)) <= cost c + 1.

Lemma multisig_loop_cost keys sigs code c : cost (snd (multisig_loop check keys sigs code c)) <= cost c + len keys.
Proof.
  revert sigs c. induction keys as [|k keys IH]; intros [|sg sigs] c; cbn [multisig_loop snd]; rewrite ?len_cons;
    try solve [unfold len; simpl; lia].
  pose proof (cost_check c sg k code) as Hc. destruct (check c sg k code) as [ok c1]. cbn [snd] in Hc.
  case_match; cbn [snd]; [pose proof (len_nonneg keys); lia|].
  pose proof (IH (if ok then sigs else sg :: sigs) c1). lia.
Qed.

Lemma checksig_op_spec op code s c : Forall elem_ok s ->
  let '(_, s', c') := checksig_op check op code s c in Forall elem_ok s' /\ cost c' <= cost c + 1.
Proof.
  intros Hs. unfold checksig_op. destruct s as [|pk [|sg t]]; [split; (done || lia)..|].
  set (code' := fst _). pose proof (cost_check c sg pk code') as Hc.
  destruct (check c sg pk code') as [ok c1]. cbn [snd] in Hc.
  pose proof (verify_top_elems (op =? OP_CHECKSIGVERIFY) ok (if ok then vchTrue else vchFalse) t) as Hv.
  destruct (verify_top _ _ _ _) as [b s']. split; [|done].
  apply Hv; [auto with interp|]. by do 2 apply Forall_cons in Hs as [_ Hs].
Qed.

Lemma multisig_op_spec op code n s c : Forall elem_ok s -> 0 <= n <= 201 ->
  let '(ok, s', n', c') := multisig_op check op code n s c in
  Forall elem_ok s' /\ (ok = true -> n <= n' <= 201 /\ cost c' - cost c <= n' - n) /\ cost c' - cost c <= 201 - n.
Proof.
  intros Hs Hn. unfold multisig_op.
  destruct s as [|v l]; [split_and!; (done || lia)|]. destruct (CastToBigNum v) as [z|]; [|split_and!; (done || lia)].
  destruct ((getint z <? 0) || (20 <? getint z)) eqn:E1; [split_and!; (done || lia)|].
  destruct (Z.ltb_spec 201 (n + getint z)); [split_and!; (done || lia)|].
  destruct ((v :: l) !! _) as [v0|]; [|split_and!; (done || lia)].
  destruct (CastToBigNum v0) as [z0|]; [|split_and!; (done || lia)].
  destruct ((getint z0 <? 0) || (getint z <? getint z0)) eqn:E2; [split_and!; (done || lia)|].
  destruct (Z.ltb_spec (len (v :: l)) (3 + getint z + getint z0)); [split_and!; (done || lia)|].
  set (keys := take _ (drop 1 _)). set (sigs := take _ (drop _ _)). set (code' := fold_left _ _ _).
  pose proof (multisig_loop_cost keys sigs code' c) as Hc.
  destruct (multisig_loop check keys sigs code' c) as [ok c1]. cbn [snd] in Hc.
  assert (len keys <= getint z) by (unfold keys, len; rewrite length_take; lia).
  set (rest := drop _ _). assert (Forall elem_ok rest) by (by apply Forall_drop).
  pose proof (verify_top_elems (op =? OP_CHECKMULTISIGVERIFY) ok _ rest (elem_bool ok)) as Hv.
  destruct (verify_top _ _ _ _) as [b s']. split_and!; [by apply Hv|lia|lia].
Qed.

Definition elems_ok (st : eval_state) : Prop := Forall elem_ok (stack st) /\ Forall elem_ok (altstack st).

Lemma control_op_spec op f pc st : elems_ok st -> 0 <= op < 256 ->
  elems_ok (snd (control_op op f pc st)) /\ nOpCount (snd (control_op op f pc st)) = nOpCount st.
Proof.
  intros [Hs Ha] Hop. unfold control_op. destruct (is_push_num op).
  { split; [|done]. split; [|done]. constructor; [|done]. apply getvch_elem.
    rewrite CBigNum_int_value; unfold sfits, OP_1; lia. }
  unfold elems_ok. destruct st as [s a l p n]. cbn in *.
  repeat case_match; cbn; simplify_eq; split; try done; split; solve_stack.
Qed.

Lemma lift_stack_spec st r : elems_ok st -> Forall elem_ok (snd r) ->
  elems_ok (snd (lift_stack st r)) /\ nOpCount (snd (lift_stack st r)) = nOpCount st.
Proof. intros [_ Ha] Hr. by split. Qed.

(** What one run of the [switch] may do: the counter is the one already raised
    for the instruction. *)
Definition exec_bound (st : eval_state) (c : S) (r : bool * eval_state * S) : Prop :=
  let '(ok, st', c') := r in
  elems_ok st' /\
  (ok = true -> nOpCount st <= nOpCount st' <= 201 /\ cost c' - cost c <= nOpCount st' - nOpCount st + 1) /\
  cost c' - cost c <= 201 - nOpCount st + 1.

Lemma exec_bound_pure st c (r : bool * eval_state) : 0 <= nOpCount st <= 201 ->
  elems_ok (snd r) /\ nOpCount (snd r) = nOpCount st -> exec_bound st c (r, c).
Proof. destruct r as [ok st']. cbn [snd]. intros Hn [He Hc]. split_and!; [done|lia|lia]. Qed.

Lemma exec_op_spec op f pc st c : elems_ok st -> len (stack st) <= 1000 -> 0 <= op < 256 -> 0 <= nOpCount st <= 201 ->
  exec_bound st c (exec_op check op f pc st c).
Proof.
  intros Hst Hl Hop Hn. pose proof Hst as [Hs Ha]. unfold exec_op.
  repeat match goal with
  | |- context [if ?b then (lift_stack _ _, _) else _] => destruct b;
      [apply exec_bound_pure; [done|]; apply lift_stack_spec; [done|];
       auto using stack_op_elems, equal_op_elems, unary_op_elems, binary_op_elems, within_op_elems, hash_op_elems|]
  end.
  case_match.
  { pose proof (checksig_op_spec op (pbegincodehash st) (stack st) c Hs) as Hc.
    destruct (checksig_op _ _ _ _ _) as [[ok s'] c']. destruct Hc. cbn. split_and!; [by split|lia|lia]. }
  case_match; [|by apply exec_bound_pure, control_op_spec].
  pose proof (multisig_op_spec op (pbegincodehash st) (nOpCount st) (stack st) c Hs Hn) as Hc.
  destruct (multisig_op _ _ _ _ _ _) as [[[ok s'] n'] c']. destruct Hc as (H1' & H2' & H3'). cbn.
  split_and!; [by split| |lia]. intros Hok. specialize (H2' Hok). lia.
Qed.

Lemma exec_op_low op f pc st c : op <= OP_16 -> snd (exec_op check op f pc st c) = c.
Proof.
  intros Hop. unfold exec_op. unfold OP_16 in Hop.
  rewrite (proj2 (Z.eqb_neq op OP_CHECKSIG)), (proj2 (Z.eqb_neq op OP_CHECKSIGVERIFY)),
    (proj2 (Z.eqb_neq op OP_CHECKMULTISIG)), (proj2 (Z.eqb_neq op OP_CHECKMULTISIGVERIFY))
    by (unfold OP_CHECKSIG, OP_CHECKSIGVERIFY, OP_CHECKMULTISIG, OP_CHECKMULTISIGVERIFY; lia).
  repeat case_match; done.
Qed.

Lemma eval_step_spec op v pc st c : inv st -> 0 <= op < 256 -> digits 256 v ->
  let '(ok, st', c') := eval_step check op v pc st c in
  (ok = true -> inv st' /\ cost c' - cost c <= nOpCount st' - nOpCount st) /\ cost c' - cost c <= 201 - nOpCount st.
Proof.
  intros (Hs & Ha & Hl & Hn) Hop Hv. unfold eval_step. destruct (Z.ltb_spec 520 (len v)); [split; (done || lia)|].
  set (st1 := if OP_16 <? op then _ else _).
  assert (Hst1 : elems_ok st1 /\ len (stack st1) <= 1000 /\
    nOpCount st1 = nOpCount st + (if OP_16 <? op then 1 else 0)).
  { unfold st1, elems_ok. pose proof (len_nonneg (altstack st)). case_match; cbn; split_and!; (done || lia). }
  clearbody st1. destruct Hst1 as (He & Hl1 & Hn1).
  destruct ((OP_16 <? op) && (201 <? nOpCount st1)) eqn:E1; [split; (done || lia)|].
  destruct (is_disabled op); [split; (done || lia)|].
  set (r := if _ && _ && _ then _ else _).
  assert (Hr : exec_bound st1 c r /\ (op <= OP_16 -> snd r = c)).
  { assert (nOpCount st1 <= 201) by (destruct (OP_16 <? op); lia).
    assert (0 <= nOpCount st1) by (destruct (OP_16 <? op); lia).
    unfold r. clear r E1 Hn1.
    destruct (exec_flag st && (0 <=? op) && (op <=? OP_PUSHDATA4)); [|destruct (_ || _)].
    - split; [|done]. apply exec_bound_pure; [done|]. split; [|done]. split; [|apply He]. constructor; [by split|apply He].
    - split; [by apply exec_op_spec|apply exec_op_low].
    - split; [|done]. by apply exec_bound_pure. }
  clearbody r. destruct r as [[ok st2] c2]. destruct Hr as [([Hs2 Ha2] & Hok & Hc) Hlow]. cbn [snd] in Hlow.
  destruct (Z.ltb_spec OP_16 op) as [|Hop16].
  - split; [|lia]. intros [Ek El]%andb_prop. apply Z.leb_le in El. specialize (Hok Ek). split; [split_and!|]; (done || lia).
  - rewrite (Hlow Hop16) in *. split; [|lia]. intros [Ek El]%andb_prop. apply Z.leb_le in El. specialize (Hok Ek).
    split; [split_and!|]; (done || lia).
Qed.
End resources.

(** ** Runs as sequences of steps *)

Section runs.
Context `{BN} `{Crypto} {S : Type} (check : S -> valtype -> valtype -> CScript -> bool * S).

(** The loop is at [pc] with these stacks, after steps that all went on. *)
Inductive reach (s : list valtype) (script : CScript) (c0 : S) : CScript -> eval_state -> S -> Prop :=
| reach_start : reach s script c0 script (mkEval s [] [] script 0) c0
| reach_step pc st c op v pc' st' c' :
    reach s script c0 pc st c -> GetOp pc = Some (op, v, pc') ->
    eval_step check op v pc' st c = (true, st', c') -> reach s script c0 pc' st' c'.

Lemma eval_loop_fuel f1 f2 pc st c : script_ok pc -> (length pc <= f1)%nat -> (length pc <= f2)%nat ->
  eval_loop check f1 pc st c = eval_loop check f2 pc st c.
Proof.
  revert f2 pc st c. induction f1 as [|f1 IH]; intros f2 pc st c Hpc Hf1 Hf2.
  { destruct pc; [|simpl in *; lia]. by destruct f2. }
  destruct pc as [|b pc]; [by destruct f2|]. destruct f2 as [|f2]; [simpl in *; lia|]. cbn [eval_loop].
  destruct (GetOp (b :: pc)) as [[[op v] next]|] eqn:E; [|done].
  apply GetOp_shrinks in E as (Hlt & Hok & _); [|done].
  destruct (eval_step check op v next st c) as [[[] st'] c']; [|done]. apply IH; [done|simpl in *; lia..].
Qed.

(** The loop from [pc] on, with enough fuel. *)
Definition run (pc : CScript) (st : eval_state) (c : S) : bool * eval_state * S := eval_loop check (length pc) pc st c.

Lemma run_nil st c : run [] st c = (match vfExec st with [] => true | _ => false end, st, c).
Proof. done. Qed.

Lemma run_step pc op v pc' st c : script_ok pc -> GetOp pc = Some (op, v, pc') ->
  run pc st c = let '(ok, st, c) := eval_step check op v pc' st c in if ok then run pc' st c else (false, st, c).
Proof.
  intros Hpc E. pose proof (GetOp_shrinks _ _ _ _ Hpc E) as (Hlt & Hok & _).
  unfold run. destruct pc as [|b pc]; [by rewrite GetOp_nil in E|]. cbn [length eval_loop]. rewrite E.
  destruct (eval_step check op v pc' st c) as [[[] st'] c']; [|done]. apply eval_loop_fuel; [done|simpl in *; lia..].
Qed.

Lemma run_stuck pc st c : pc <> [] -> GetOp pc = None -> run pc st c = (false, st, c).
Proof. intros Hpc E. unfold run. destruct pc; [done|]. cbn [length eval_loop]. by rewrite E. Qed.
End runs.

Lemma GetOp_opcode s op v rest : script_ok s -> GetOp s = Some (op, v, rest) -> 0 <= op < 256.
Proof.
  intros Hs E. apply GetOp_iff in E as (hdr & -> & _); [|done]. by apply script_ok_tail in Hs as [? _].
Qed.

Section run_facts.
Context `{BNS : BN_spec} `{CS : Crypto_spec}.
Context {S : Type} (check : S -> valtype -> valtype -> CScript -> bool * S).

Lemma reach_inv (cost : S -> Z) s script c0 pc st c :
  (forall c sig key code, cost (snd (check c sig key code)) <= cost c + 1) ->
  script_ok script -> Forall elem_ok s -> len s <= 1000 ->
  reach check s script c0 pc st c -> script_ok pc /\ inv st /\ cost c - cost c0 <= nOpCount st.
Proof.
  intros Hcost Hscript Hs Hl Hr. induction Hr as [|pc st c op v pc' st' c' Hr (Hpc & Hst & Hc) E Es].
  - split; [done|]. split; [|cbn; lia]. split_and!; cbn; try done; try lia. unfold len in *. simpl. lia.
  - pose proof (GetOp_shrinks _ _ _ _ Hpc E) as (_ & Hok & Hv & _).
    pose proof (GetOp_opcode _ _ _ _ Hpc E) as Hop.
    pose proof (eval_step_spec check cost Hcost op v pc' st c Hst Hop Hv) as Hstep.
    rewrite Es in Hstep. destruct Hstep as [[Hi Hc'] _]; [done|]. split_and!; (done || lia).
Qed.

(** Every run makes at most 201 calls of [check]; a run that ends well is a
    sequence of steps to the end of the script with no open condition. *)
Lemma eval_loop_spec (cost : S -> Z) fuel s script c0 pc st c :
  (forall c sig key code, cost (snd (check c sig key code)) <= cost c + 1) ->
  script_ok script -> Forall elem_ok s -> len s <= 1000 -> (length pc <= fuel)%nat ->
  reach check s script c0 pc st c ->
  let '(ok, st', c') := eval_loop check fuel pc st c in
  cost c' - cost c0 <= 201 /\ (ok = true -> reach check s script c0 [] st' c' /\ vfExec st' = []).
Proof.
  intros Hcost Hscript Hs Hl. revert pc st c. induction fuel as [|fuel IH]; intros pc st c Hf Hr;
    pose proof (reach_inv cost _ _ _ _ _ _ Hcost Hscript Hs Hl Hr) as (Hpc & Hst & Hc);
    pose proof Hst as (_ & _ & _ & Hn); (destruct pc as [|b pc]; [cbn [eval_loop]; case_match; split; (done || lia)|]).
  { simpl in Hf. lia. }
  cbn [eval_loop]. destruct (GetOp (b :: pc)) as [[[op v] pc']|] eqn:E; [|split; (done || lia)].
  pose proof (GetOp_shrinks _ _ _ _ Hpc E) as (Hlt & _ & Hv & _).
  pose proof (eval_step_spec check cost Hcost op v pc' st c Hst (GetOp_opcode _ _ _ _ Hpc E) Hv) as Hstep.
  destruct (eval_step check op v pc' st c) as [[ok st'] c'] eqn:Es. destruct ok; [|split; [lia|done]].
  apply IH; [simpl in *; lia|]. by eapply reach_step.
Qed.

Lemma reach_eval_loop s script c0 pc st c st' c' :
  script_ok pc -> eval_loop check (length pc) pc st c = (true, st', c') ->
  reach check s script c0 pc st c -> reach check s script c0 [] st' c' /\ vfExec st' = [].
Proof.
  intros Hpc. fold (run check pc st c). remember (length pc) as n eqn:Hn. revert pc st c Hpc Hn.
  induction n as [n IH] using lt_wf_ind. intros pc st c Hpc -> Hrun Hr.
  destruct pc as [|b pc]; [rewrite run_nil in Hrun; by case_match; simplify_eq|].
  destruct (GetOp (b :: pc)) as [[[op v] pc']|] eqn:E; [|by rewrite run_stuck in Hrun].
  pose proof (GetOp_shrinks _ _ _ _ Hpc E) as (Hlt & Hok & _). rewrite (run_step check _ _ _ _ _ _ Hpc E) in Hrun.
  destruct (eval_step check op v pc' st c) as [[[] st1] c1] eqn:Es; [|done].
  eapply IH; [exact Hlt|done|done|done|]. by eapply reach_step.
Qed.

Lemma reach_run s script c0 pc st c : script_ok script -> reach check s script c0 pc st c ->
  script_ok pc /\ run check script (mkEval s [] [] script 0) c0 = run check pc st c.
Proof.
  intros Hs. induction 1 as [|pc st c op v pc' st' c' Hr (Hpc & IH) E Es]; [done|].
  pose proof (GetOp_shrinks _ _ _ _ Hpc E) as (_ & Hok & _). split; [done|].
  by rewrite IH, (run_step check _ _ _ _ _ _ Hpc E), Es.
Qed.
End run_facts.

(** ** Two ways of checking signatures that agree give the same run *)

Section simulation.
Context `{BN} `{Crypto} {S1 S2 : Type}.
Context (check1 : S1 -> valtype -> valtype -> CScript -> bool * S1).
Context (check2 : S2 -> valtype -> valtype -> CScript -> bool * S2).
Context (R : S1 -> S2 -> Prop).

(** Equal results, related states. *)
Definition agree {A} (r1 : A * S1) (r2 : A * S2) : Prop := fst r1 = fst r2 /\ R (snd r1) (snd r2).

Hypothesis agree_check : forall c1 c2 sig key code, R c1 c2 -> agree (check1 c1 sig key code) (check2 c2 sig key code).

Lemma agree_multisig_loop keys sigs code c1 c2 : R c1 c2 ->
  agree (multisig_loop check1 keys sigs code c1) (multisig_loop check2 keys sigs code c2).
Proof.
  revert sigs c1 c2. induction keys as [|k keys IH]; intros [|sg sigs] c1 c2 Hc; try by split.
  cbn [multisig_loop]. pose proof (agree_check c1 c2 sg k code Hc) as Ha.
  destruct (check1 c1 sg k code) as [ok d1], (check2 c2 sg k code) as [ok' d2]. destruct Ha as [Hok Hd].
  cbn [fst snd] in *. subst ok'. case_match; [by split|]. by apply IH.
Qed.

Lemma agree_checksig_op op code s c1 c2 : R c1 c2 -> agree (checksig_op check1 op code s c1) (checksig_op check2 op code s c2).
Proof.
  intros Hc. unfold checksig_op. destruct s as [|pk [|sg t]]; [by split..|]. set (code' := fst _).
  pose proof (agree_check c1 c2 sg pk code' Hc) as Ha.
  destruct (check1 c1 sg pk code') as [ok d1], (check2 c2 sg pk code') as [ok' d2]. destruct Ha as [Hok Hd].
  cbn [fst snd] in *. by subst ok'.
Qed.

Lemma agree_multisig_op op code n s c1 c2 : R c1 c2 -> agree (multisig_op check1 op code n s c1) (multisig_op check2 op code n s c2).
Proof.
  intros Hc. unfold multisig_op.
  destruct s as [|v l]; [by split|]. destruct (CastToBigNum v) as [z|]; [|by split].
  destruct (_ || _); [by split|]. destruct (201 <? _); [by split|]. destruct ((v :: l) !! _) as [v0|]; [|by split].
  destruct (CastToBigNum v0) as [z0|]; [|by split]. destruct (_ || _); [by split|]. destruct (_ <? _); [by split|].
  set (keys := take _ (drop 1 _)). set (sigs := take _ (drop _ _)). set (code' := fold_left _ _ _).
  pose proof (agree_multisig_loop keys sigs code' c1 c2 Hc) as Ha.
  destruct (multisig_loop check1 _ _ _ _) as [ok d1], (multisig_loop check2 _ _ _ _) as [ok' d2].
  destruct Ha as [Hok Hd]. cbn [fst snd] in *. by subst ok'.
Qed.

Lemma agree_exec_op op f pc st c1 c2 : R c1 c2 -> agree (exec_op check1 op f pc st c1) (exec_op check2 op f pc st c2).
Proof.
  intros Hc. unfold exec_op. do 6 (case_match; [by split|]). case_match; [|case_match; [|by split]].
  - pose proof (agree_checksig_op op (pbegincodehash st) (stack st) c1 c2 Hc) as [Ha Hd].
    destruct (checksig_op check1 _ _ _ _) as [[ok s1] d1], (checksig_op check2 _ _ _ _) as [[ok' s2] d2].
    cbn [fst snd] in *. by simplify_eq.
  - pose proof (agree_multisig_op op (pbegincodehash st) (nOpCount st) (stack st) c1 c2 Hc) as [Ha Hd].
    destruct (multisig_op check1 _ _ _ _ _) as [[[ok s1] n1] d1], (multisig_op check2 _ _ _ _ _) as [[[ok' s2] n2] d2].
    cbn [fst snd] in *. by simplify_eq.
Qed.

Lemma agree_eval_step op v pc st c1 c2 : R c1 c2 -> agree (eval_step check1 op v pc st c1) (eval_step check2 op v pc st c2).
Proof.
  intros Hc. unfold eval_step. case_match; [by split|].
  set (st1 := if OP_16 <? op then set_count_ops (nOpCount st + 1) st else st).
  destruct (_ && (201 <? _)); [by split|]. destruct (is_disabled op); [by split|].
  destruct (_ && _ && _); [by split|]. destruct (_ || _); [|by split].
  pose proof (agree_exec_op op (exec_flag st) pc st1 c1 c2 Hc) as [Ha Hd].
  destruct (exec_op check1 _ _ _ _ _) as [[ok s1] d1], (exec_op check2 _ _ _ _ _) as [[ok' s2] d2].
  cbn [fst snd] in *. by simplify_eq.
Qed.

Lemma agree_eval_loop fuel pc st c1 c2 : R c1 c2 -> agree (eval_loop check1 fuel pc st c1) (eval_loop check2 fuel pc st c2).
Proof.
  revert pc st c1 c2. induction fuel as [|fuel IH]; intros [|b pc] st c1 c2 Hc; try by split.
  cbn [eval_loop]. destruct (GetOp (b :: pc)) as [[[op v] pc']|]; [|by split].
  pose proof (agree_eval_step op v pc' st c1 c2 Hc) as [Ha Hd].
  destruct (eval_step check1 _ _ _ _ _) as [[ok s1] d1], (eval_step check2 _ _ _ _ _) as [[ok' s2] d2].
  cbn [fst snd] in *. simplify_eq. case_match; [by apply IH|by split].
Qed.

Lemma agree_EvalScript s script c1 c2 : R c1 c2 -> agree (EvalScript check1 s script c1) (EvalScript check2 s script c2).
Proof.
  intros Hc. unfold EvalScript. case_match; [by split|].
  pose proof (agree_eval_loop (length script) script (mkEval s [] [] script 0) c1 c2 Hc) as [Ha Hd].
  destruct (eval_loop check1 _ _ _ _) as [[ok s1] d1], (eval_loop check2 _ _ _ _) as [[ok' s2] d2].
  cbn [fst snd] in *. by simplify_eq.
Qed.

Lemma agree_VerifyScript sig pk p2sh c1 c2 : R c1 c2 ->
  match VerifyScript check1 sig pk p2sh c1, VerifyScript check2 sig pk p2sh c2 with
  | Some r1, Some r2 => agree r1 r2
  | None, None => True
  | _, _ => False
  end.
Proof.
  intros Hc. unfold VerifyScript.
  pose proof (agree_EvalScript [] sig c1 c2 Hc) as [Ha Hd].
  destruct (EvalScript check1 _ _ _) as [[ok s] d1], (EvalScript check2 _ _ _) as [[ok' s'] d2].
  cbn [fst snd] in *. injection Ha as <- <-. destruct ok; [|by split]. cbn [negb].
  pose proof (agree_EvalScript s pk d1 d2 Hd) as [Ha He].
  destruct (EvalScript check1 _ _ _) as [[ok s1] e1], (EvalScript check2 _ _ _) as [[ok' s'] e2].
  cbn [fst snd] in *. injection Ha as <- <-. destruct ok; [|by split]. cbn [negb]. destruct s1 as [|back s1]; [by split|].
  destruct (negb (CastToBool back)); [by split|]. destruct (p2sh && _); [|by split].
  destruct (negb (IsPushOnly sig)); [by split|]. destruct (if p2sh then s else []) as [|pk2 copy]; [done|].
  pose proof (agree_EvalScript copy pk2 e1 e2 He) as [Ha Hf].
  destruct (EvalScript check1 _ _ _) as [[ok s2] f1], (EvalScript check2 _ _ _) as [[ok' s'] f2].
  cbn [fst snd] in *. injection Ha as <- <-. destruct ok; [|by split]. by destruct s2.
Qed.
End simulation.

(** ** Runs of particular scripts *)

Lemma GetOp_code op rest : script_ok (op :: rest) -> OP_PUSHDATA4 < op -> GetOp (op :: rest) = Some (op, [], rest).
Proof.
  intros Hs Hop. apply GetOp_iff; [done|]. exists []. split; [done|]. unfold op_form. unfold OP_PUSHDATA4 in Hop.
  rewrite (proj2 (Z.ltb_lt _ _)) by (unfold OP_PUSHDATA4; lia). done.
Qed.

Lemma GetOp_short h rest : len h < 76 -> script_ok (len h :: h ++ rest) -> GetOp (len h :: h ++ rest) = Some (len h, h, rest).
Proof.
  intros Hh Hs. apply GetOp_iff; [done|]. exists []. split; [done|]. unfold op_form.
  rewrite (proj2 (Z.ltb_ge OP_PUSHDATA4 (len h))) by (unfold OP_PUSHDATA4; lia).
  rewrite (proj2 (Z.ltb_lt (len h) OP_PUSHDATA1)) by (unfold OP_PUSHDATA1; lia). done.
Qed.

Lemma script_ok_small s : digits 256 s -> len s <= 10000 -> script_ok s.
Proof. intros. split; [done|lia]. Qed.


Section particular.
Context `{BNS : BN_spec} `{CS : Crypto_spec}.
Context {S : Type} (check : S -> valtype -> valtype -> CScript -> bool * S).

(** An instruction outside conditionals that is not a push. *)
Lemma eval_step_code op pc s a p n c : OP_16 < op -> is_disabled op = false -> n < 201 ->
  eval_step check op [] pc (mkEval s a [] p n) c =
  let '(ok, st, c) := exec_op check op true pc (mkEval s a [] p (n + 1)) c in
  (ok && (len (stack st) + len (altstack st) <=? 1000), st, c).
Proof.
  intros Hop Hd Hn. unfold eval_step. cbn [len]. change (520 <? len []) with false. cbv iota.
  rewrite (proj2 (Z.ltb_lt _ _) Hop). unfold set_count_ops. cbn [stack altstack vfExec pbegincodehash nOpCount andb].
  rewrite (proj2 (Z.ltb_ge 201 (n + 1))) by lia. rewrite Hd. unfold OP_16 in Hop.
  rewrite (proj2 (Z.leb_gt op OP_PUSHDATA4)) by (unfold OP_PUSHDATA4; lia). by rewrite andb_false_r.
Qed.

Lemma eval_step_push op v pc s a p n c : 0 <= op <= OP_PUSHDATA4 -> len v <= 520 ->
  eval_step check op v pc (mkEval s a [] p n) c =
  (len s + 1 + len a <=? 1000, mkEval (v :: s) a [] p n, c).
Proof.
  intros Hop Hv. unfold eval_step. rewrite (proj2 (Z.ltb_ge _ _) Hv).
  rewrite (proj2 (Z.ltb_ge OP_16 op)) by (unfold OP_PUSHDATA4, OP_16 in *; lia). cbn [andb].
  assert (is_disabled op = false) as ->.
  { unfold is_disabled. apply not_true_is_false. rewrite existsb_exists. intros (x & Hx & ->%Z.eqb_eq).
    unfold OP_PUSHDATA4 in Hop. repeat destruct Hx as [<-|Hx]; try (vm_compute in Hop; by destruct Hop). }
  rewrite (proj2 (Z.leb_le 0 op)), (proj2 (Z.leb_le op OP_PUSHDATA4)) by lia.
  cbn [andb exec_flag forallb vfExec]. unfold set_stack. cbn [stack altstack]. rewrite len_cons.
  f_equal. f_equal. f_equal. lia.
Qed.

Lemma EvalScript_run s script c : len script <= 10000 ->
  EvalScript check s script c =
  let '(ok, st, c) := run check script (mkEval s [] [] script 0) c in (ok, stack st, c).
Proof. intros Hl. unfold EvalScript. by rewrite (proj2 (Z.ltb_ge _ _) Hl). Qed.

(** What the templates' instructions do. *)
Lemma exec_DUP pc x t a p n c :
  exec_op check OP_DUP true pc (mkEval (x :: t) a [] p n) c = (true, mkEval (x :: x :: t) a [] p n, c).
Proof. done. Qed.
Lemma exec_HASH160 pc s a p n c :
  exec_op check OP_HASH160 true pc (mkEval s a [] p n) c =
  match s with [] => (false, mkEval s a [] p n, c) | x :: t => (true, mkEval (bu_bytes (Hash160 x) :: t) a [] p n, c) end.
Proof. by destruct s. Qed.
Lemma exec_EQUAL pc x y t a p n c :
  exec_op check OP_EQUAL true pc (mkEval (x :: y :: t) a [] p n) c =
  (true, mkEval ((if bytes_eqb y x then vchTrue else vchFalse) :: t) a [] p n, c).
Proof. done. Qed.
Lemma exec_EQUALVERIFY pc x y t a p n c :
  exec_op check OP_EQUALVERIFY true pc (mkEval (x :: y :: t) a [] p n) c =
  if bytes_eqb y x then (true, mkEval t a [] p n, c) else (false, mkEval (vchFalse :: t) a [] p n, c).
Proof.
  change (exec_op check OP_EQUALVERIFY true pc (mkEval (x :: y :: t) a [] p n) c) with
    (lift_stack (mkEval (x :: y :: t) a [] p n) (verify_top true (bytes_eqb y x) (if bytes_eqb y x then vchTrue else vchFalse) t), c).
  by destruct (bytes_eqb y x).
Qed.
Lemma exec_CHECKSIG pc pk sg t a p n c :
  exec_op check OP_CHECKSIG true pc (mkEval (pk :: sg :: t) a [] p n) c =
  let '(ok, c) := check c sg pk (fst (FindAndDelete p (push_vch [] sg))) in
  (true, mkEval ((if ok then vchTrue else vchFalse) :: t) a [] p n, c).
Proof.
  change (exec_op check OP_CHECKSIG true pc (mkEval (pk :: sg :: t) a [] p n) c) with
    (let '(ok, s, c) := checksig_op check OP_CHECKSIG p (pk :: sg :: t) c in
     (ok, mkEval s a [] p n, c)).
  unfold checksig_op. by destruct (check c sg pk _).
Qed.

(** Steps over the next instruction of a script given explicitly. *)
Lemma run_code op pc s a p n c : script_ok (op :: pc) -> OP_16 < op -> is_disabled op = false -> n < 201 ->
  script_ok pc /\
  run check (op :: pc) (mkEval s a [] p n) c =
  let '(ok, st, c) := exec_op check op true pc (mkEval s a [] p (n + 1)) c in
  if ok && (len (stack st) + len (altstack st) <=? 1000) then run check pc st c else (false, st, c).
Proof.
  intros Hok Hop Hd Hn. split; [by apply script_ok_tail in Hok as [_ Hok]|].
  rewrite (run_step check (op :: pc) op [] pc);
    [|done|apply GetOp_code; [done|unfold OP_16, OP_PUSHDATA4 in *; lia]].
  rewrite eval_step_code by done. by destruct (exec_op _ _ _ _ _ _) as [[ok st] c'].
Qed.

Lemma run_push h pc s a p n c : script_ok (len h :: h ++ pc) -> len h < 76 ->
  script_ok pc /\
  run check (len h :: h ++ pc) (mkEval s a [] p n) c =
  if len s + 1 + len a <=? 1000 then run check pc (mkEval (h :: s) a [] p n) c
  else (false, mkEval (h :: s) a [] p n, c).
Proof.
  intros Hok Hl. pose proof (len_nonneg h). split.
  { apply script_ok_tail in Hok as [_ Hok]. by apply script_ok_app in Hok as [_ ?]. }
  rewrite (run_step check _ (len h) h pc _ _ Hok (GetOp_short _ _ Hl Hok)).
  rewrite eval_step_push by (unfold OP_PUSHDATA4; lia). done.
Qed.

Definition p2sh_script (h : list Z) : CScript := [OP_HASH160; 20] ++ h ++ [OP_EQUAL].
Definition p2pkh_script (h : list Z) : CScript := [OP_DUP; OP_HASH160; 20] ++ h ++ [OP_EQUALVERIFY; OP_CHECKSIG].

Lemma template_ok pre h post : digits 256 (pre ++ post) -> len (pre ++ post) <= 100 -> digits 256 h -> len h = 20 ->
  script_ok (pre ++ h ++ post) /\ len (pre ++ h ++ post) <= 10000.
Proof.
  intros [Hpre Hpost]%Forall_app Hl Hh Hlh. rewrite !len_app in *.
  split; [apply script_ok_small; [by repeat (apply Forall_app; split)|rewrite !len_app; lia]|lia].
Qed.

Lemma EvalScript_p2sh h s c : digits 256 h -> len h = 20 -> len s <= 1000 ->
  EvalScript check s (p2sh_script h) c =
  match s with
  | [] => (false, [], c)
  | x :: t => if len t <=? 998
              then (true, (if bytes_eqb (bu_bytes (Hash160 x)) h then vchTrue else vchFalse) :: t, c)
              else (false, h :: bu_bytes (Hash160 x) :: t, c)
  end.
Proof.
  intros Hh Hl Hs.
  destruct (template_ok [OP_HASH160; 20] h [OP_EQUAL]) as [Hok Hlen]; [forall_list; by vm_compute|by vm_compute|done..|].
  fold (p2sh_script h) in Hok, Hlen. rewrite EvalScript_run by done.
  generalize (p2sh_script h) at 2 as p. intros p. unfold p2sh_script in *. cbn [app] in *. rewrite <- Hl in Hok |- *.
  destruct (run_code _ _ s [] p 0 c Hok) as [Hok1 ->]; [done..|]. rewrite exec_HASH160.
  destruct s as [|x t]; [done|]. cbn [stack altstack andb]. rewrite len_cons, len_nil in *.
  rewrite (proj2 (Z.leb_le _ 1000)) by lia.
  destruct (run_push _ _ (bu_bytes (Hash160 x) :: t) [] p (0 + 1) c Hok1) as [Hok2 ->]; [lia|].
  rewrite len_cons, len_nil. replace (1 + len t + 1 + 0 <=? 1000) with (len t <=? 998) by lia.
  destruct (Z.leb_spec (len t) 998); [|done].
  destruct (run_code _ _ (h :: bu_bytes (Hash160 x) :: t) [] p (0 + 1) c Hok2) as [_ ->]; [done..|].
  rewrite exec_EQUAL. cbn [stack altstack andb]. rewrite len_cons, len_nil.
  rewrite (proj2 (Z.leb_le _ 1000)) by lia. by rewrite run_nil.
Qed.

Lemma EvalScript_p2pkh h pk sg t c : digits 256 h -> len h = 20 -> len t <= 996 ->
  EvalScript check (pk :: sg :: t) (p2pkh_script h) c =
  if bytes_eqb (bu_bytes (Hash160 pk)) h then
    let '(ok, c) := check c sg pk (fst (FindAndDelete (p2pkh_script h) (push_vch [] sg))) in
    (true, (if ok then vchTrue else vchFalse) :: t, c)
  else (false, vchFalse :: pk :: sg :: t, c).
Proof.
  intros Hh Hl Ht.
  destruct (template_ok [OP_DUP; OP_HASH160; 20] h [OP_EQUALVERIFY; OP_CHECKSIG]) as [Hok Hlen];
    [forall_list; by vm_compute|by vm_compute|done..|].
  fold (p2pkh_script h) in Hok, Hlen. rewrite EvalScript_run by done.
  generalize (p2pkh_script h) at 2 3 as p. intros p. unfold p2pkh_script in *. cbn [app] in *. rewrite <- Hl in Hok |- *.
  destruct (run_code _ _ (pk :: sg :: t) [] p 0 c Hok) as [Hok1 ->]; [done..|]. rewrite exec_DUP.
  cbn [stack altstack andb]. rewrite !len_cons, !len_nil, (proj2 (Z.leb_le _ 1000)) by lia.
  destruct (run_code _ _ (pk :: pk :: sg :: t) [] p (0 + 1) c Hok1) as [Hok2 ->]; [done..|]. rewrite exec_HASH160.
  cbn [stack altstack andb]. rewrite !len_cons, !len_nil, (proj2 (Z.leb_le _ 1000)) by lia.
  destruct (run_push _ _ (bu_bytes (Hash160 pk) :: pk :: sg :: t) [] p (0 + 1 + 1) c Hok2) as [Hok3 ->]; [lia|].
  rewrite !len_cons, !len_nil, (proj2 (Z.leb_le _ 1000)) by lia.
  destruct (run_code _ _ (h :: bu_bytes (Hash160 pk) :: pk :: sg :: t) [] p (0 + 1 + 1) c Hok3) as [Hok4 ->]; [done..|].
  rewrite exec_EQUALVERIFY. destruct (bytes_eqb _ _); [|done]. cbn [stack altstack andb].
  rewrite !len_cons, !len_nil, (proj2 (Z.leb_le _ 1000)) by lia.
  destruct (run_code _ _ (pk :: sg :: t) [] p (0 + 1 + 1 + 1) c Hok4) as [_ ->]; [done..|]. rewrite exec_CHECKSIG.
  destruct (check c sg pk _) as [ok c']. cbn [stack altstack andb].
  rewrite !len_cons, !len_nil, (proj2 (Z.leb_le _ 1000)) by lia. by rewrite run_nil.
Qed.
End particular.

(** ** Pay-to-script-hash outputs *)

Lemma IsPayToScriptHash_form s : digits 256 s -> IsPayToScriptHash s = true ->
  exists h, s = p2sh_script h /\ digits 256 h /\ len h = 20.
Proof.
  intros Hs E. unfold IsPayToScriptHash in E. rewrite !andb_true_iff, !Z.eqb_eq in E.
  destruct E as [[[Hl E0] E1] E22].
  destruct s as [|a [|b s]]; [done..|]. cbn [nth] in E0, E1, E22. subst a b. rewrite !len_cons in Hl.
  assert (Hl' : length s = 21%nat) by (unfold len in Hl; lia).
  do 2 apply Forall_cons in Hs as [_ Hs]. exists (take 20 s).
  assert (Hlast : drop 20 s = [OP_EQUAL]).
  { rewrite <- E22. apply list_eq. intros [|i]; rewrite lookup_drop.
    - cbn [lookup list_lookup]. destruct (lookup_lt_is_Some_2 s 20) as [x Hx]; [lia|].
      rewrite Nat.add_0_r, Hx. f_equal. symmetry. apply nth_lookup_Some with (d := 0) in Hx. exact Hx.
    - cbn [lookup list_lookup]. apply lookup_ge_None_2. lia. }
  split_and!; [|by apply Forall_take|unfold len; rewrite length_take; lia].
  unfold p2sh_script. cbn [app]. f_equal. f_equal. by rewrite <- Hlast, take_drop.
Qed.

Lemma p2sh_script_is h : len h = 20 -> IsPayToScriptHash (p2sh_script h) = true.
Proof.
  intros Hl. unfold len in Hl. assert (Hn : length h = 20%nat) by lia.
  do 20 (destruct h as [|? h]; [simpl in Hn; lia|]). destruct h; [|simpl in Hn; lia]. reflexivity.
Qed.

Section verify.
Context `{BNS : BN_spec} `{CS : Crypto_spec}.
Context {S : Type} (check : S -> valtype -> valtype -> CScript -> bool * S).

Lemma EvalScript_elems s script c s' c' : digits 256 script -> Forall elem_ok s -> len s <= 1000 ->
  EvalScript check s script c = (true, s', c') -> Forall elem_ok s' /\ len s' <= 1000.
Proof.
  intros Hd Hs Hl. unfold EvalScript. destruct (Z.ltb_spec 10000 (len script)); [done|].
  assert (Hok : script_ok script) by (apply script_ok_small; done).
  destruct (eval_loop _ _ _ _ _) as [[ok st] c1] eqn:E. intros [= -> <- <-].
  destruct (reach_eval_loop check s script c script _ _ _ _ Hok E (reach_start _ _ _ _)) as [Hr _].
  destruct (reach_inv check (fun _ => 0) s script c [] st c1) as (_ & (Hi1 & _ & Hi3 & _) & _); try done.
  split; [done|]. pose proof (len_nonneg (altstack st)). lia.
Qed.

(** [VerifyScript] never takes the back of an empty vector. *)
Lemma VerifyScript_defined sig pk p2sh c : digits 256 sig -> digits 256 pk ->
  exists r, VerifyScript check sig pk p2sh c = Some r.
Proof.
  intros Hsig Hpk. unfold VerifyScript. destruct (EvalScript check [] sig c) as [[[] s] c1] eqn:E1; [|by eexists].
  apply EvalScript_elems in E1 as [Hs Hl]; [|done|constructor|done]. cbn [negb].
  destruct (EvalScript check s pk c1) as [[[] s2] c2] eqn:E2; [|by eexists]. cbn [negb].
  destruct s2 as [|back s2]; [by eexists|]. destruct (negb (CastToBool back)); [by eexists|].
  destruct (p2sh && IsPayToScriptHash pk) eqn:E; [|by eexists]. apply andb_prop in E as [-> E].
  destruct (negb (IsPushOnly sig)); [by eexists|].
  destruct (IsPayToScriptHash_form _ Hpk E) as (h & -> & Hh & Hlh).
  rewrite EvalScript_p2sh in E2 by done. destruct s as [|x t]; [done|].
  destruct (EvalScript check t x c2) as [[[] s3] c3]; [|by eexists]. destruct s3; by eexists.
Qed.
End verify.

(** ** The order of signatures in OP_CHECKMULTISIG *)

Section multisig.
Context (valid : valtype -> valtype -> CScript -> bool).
Abbreviation pure_check := (fun (c : unit) sg key code => (valid sg key code, c)).

Definition signed_in_order (sigs keys : list valtype) (code : CScript) : Prop :=
  exists ks, ks `sublist_of` keys /\ Forall2 (fun sg key => valid sg key code = true) sigs ks.

Lemma multisig_loop_spec keys sigs code :
  fst (multisig_loop pure_check keys sigs code tt) = true <-> signed_in_order sigs keys code.
Proof.
  unfold signed_in_order. revert sigs. induction keys as [|k keys IH]; intros [|sg sigs]; cbn [multisig_loop].
  - split; [|done]. intros _. exists []. split; constructor.
  - split; [done|]. intros (ks & Hsub & Hf). apply sublist_nil_r in Hsub as ->. inversion Hf.
  - split; [|done]. intros _. exists []. split; [apply sublist_nil_l|constructor].
  - assert (Hshort : forall l, (len keys <? len l) = true ->
      ~ exists ks, ks `sublist_of` keys /\ Forall2 (fun sg key => valid sg key code = true) l ks).
    { intros l Hl (ks & Hsub & Hf). apply sublist_length in Hsub. apply Forall2_length in Hf.
      apply Z.ltb_lt in Hl. unfold len in Hl. lia. }
    set (left := if valid sg k code then sigs else sg :: sigs).
    assert (Hstep : (exists ks, ks `sublist_of` k :: keys /\ Forall2 (fun sg key => valid sg key code = true) (sg :: sigs) ks)
      <-> exists ks, ks `sublist_of` keys /\ Forall2 (fun sg key => valid sg key code = true) left ks).
    { unfold left. destruct (valid sg k code) eqn:Ev; split.
      - intros (ks & Hsub & Hf). inversion Hf as [|? k0 ? ks' Hv Hf']; subst. exists ks'. split; [|done].
        inversion Hsub; subst; [done|]. etransitivity; [|done]. by constructor.
      - intros (ks & Hsub & Hf). exists (k :: ks). split; by constructor.
      - intros (ks & Hsub & Hf). exists ks. split; [|done]. inversion Hf as [|? k0 ? ks' Hv Hf']; subst.
        inversion Hsub; subst; [congruence|done].
      - intros (ks & Hsub & Hf). exists ks. split; [by constructor|done]. }
    rewrite Hstep. destruct (len keys <? len left) eqn:El; [|apply IH].
    split; [done|]. intros He. by destruct (Hshort left El).
Qed.
End multisig.

(** ** Main theorems *)

(** (C27) Resource limits of the interpreter.  In every state that a run can
    reach, the two stacks together hold at most 1000 elements, every element has
    at most 520 bytes, and the operation counter is within 0..201; and whatever
    the script and the answers, a run asks for at most 201 signature checks
    ([cost] is any measure that one check raises by at most one). *)
Theorem interpreter_resource_bounds `{BNS : BN_spec} `{CS : Crypto_spec} {S : Type}
    (check : S -> valtype -> valtype -> CScript -> bool * S) (cost : S -> Z) s script c :
  (forall c sig key code, cost (snd (check c sig key code)) <= cost c + 1) ->
  script_ok script -> Forall elem_ok s -> len s <= 1000 ->
  (forall pc st c', reach check s script c pc st c' -> inv st) /\
  cost (snd (EvalScript check s script c)) <= cost c + 201.
Proof.
  intros Hcost Hok Hs Hl. split; [intros pc st c' Hr; by apply (reach_inv check cost s script c pc st c')|].
  unfold EvalScript. case_match; [cbn; lia|].
  pose proof (eval_loop_spec check cost (length script) s script c script _ c Hcost Hok Hs Hl (le_n _) (reach_start _ _ _ _)) as He.
  destruct (eval_loop _ _ _ _ _) as [[ok st] c']. destruct He as [He _]. cbn [snd]. lia.
Qed.

Lemma interpreter_resource_bounds_witness :
  (snd (@EvalScript BN_Z Crypto_toy Z (fun c _ _ _ => (true, c + 1)) [[1]; [2]] [OP_2DUP; OP_CHECKSIG; OP_DROP; OP_CHECKSIG] 0) <= 201)%Z.
Proof.
  destruct (@interpreter_resource_bounds BN_Z BN_Z_spec Crypto_toy Crypto_toy_spec Z (fun c _ _ _ => (true, c + 1)) id
    [[1]; [2]] [OP_2DUP; OP_CHECKSIG; OP_DROP; OP_CHECKSIG] 0) as [_ Hc].
  - intros c sig key code. cbn. lia.
  - split; [forall_list; by vm_compute|by vm_compute].
  - forall_list; (split; [forall_list; lia|by vm_compute]).
  - by vm_compute.
  - exact Hc.
Defined.

(** [EvalScript] accepts exactly when its steps can be taken one after the
    other from the initial state to the end of the script, with every condition
    closed; what it leaves on the stack is what the last step leaves. *)
Theorem EvalScript_accepts_iff_steps `{BN} `{Crypto} {S : Type}
    (check : S -> valtype -> valtype -> CScript -> bool * S) s script c s' c' :
  digits 256 script ->
  EvalScript check s script c = (true, s', c') <->
  len script <= 10000 /\ exists st, reach check s script c [] st c' /\ vfExec st = [] /\ stack st = s'.
Proof.
  intros Hd. unfold EvalScript. destruct (Z.ltb_spec 10000 (len script)) as [|Hl]; [split; [done|lia]|].
  assert (Hok : script_ok script) by (by apply script_ok_small). split.
  - destruct (eval_loop _ _ _ _ _) as [[ok st] c1] eqn:E. intros [= -> <- <-].
    destruct (reach_eval_loop check s script c script _ _ _ _ Hok E (reach_start _ _ _ _)) as [Hr Hv].
    split; [done|]. by exists st.
  - intros (_ & st & Hr & Hv & Hs). destruct (reach_run check _ _ _ _ _ _ Hok Hr) as [_ E].
    unfold run in E. rewrite E. cbn [length eval_loop]. by rewrite Hv, Hs.
Qed.

Lemma EvalScript_accepts_iff_steps_witness :
  exists st, @reach BN_Z Crypto_toy unit (fun c _ _ _ => (true, c)) [[7]] [OP_DUP; OP_EQUAL] tt [] st tt /\ stack st = [vchTrue].
Proof.
  destruct (proj1 (@EvalScript_accepts_iff_steps BN_Z Crypto_toy unit (fun c _ _ _ => (true, c)) [[7]] [OP_DUP; OP_EQUAL] tt
    [vchTrue] tt ltac:(forall_list; by vm_compute)) eq_refl) as (_ & st & Hr & _ & Hs).
  by exists st.
Defined.

(** The answer of [VerifySignature] without a cache. *)
Definition signature_accepted `{BN} `{Crypto} `{EC} (txFrom txTo : CTransaction) (nIn : Z) (p2sh : bool) (nHashType : Z)
    (txin : CTxIn) : bool :=
  match vout txFrom !! Z.to_nat (op_n (prevout txin)) with
  | None => false
  | Some txout =>
      bu_eq (op_hash (prevout txin)) (tx_GetHash txFrom) &&
      match VerifyScript (fun (c : unit) sg key code => (sig_valid sg key code txTo nIn nHashType, c))
              (scriptSig txin) (scriptPubKey txout) p2sh tt with
      | Some (ok, _) => ok
      | None => false
      end
  end.

(** The answer of [VerifySignature] is that of the check without a cache. *)
Lemma VerifySignature_value `{BNS : BN_spec} `{CS : Crypto_spec} `{EC} GetRandHash nMaxCacheSize
    txFrom txTo nIn p2sh nHashType c txin :
  cache_ok c -> vin txTo !! Z.to_nat nIn = Some txin -> digits 256 (scriptSig txin) ->
  Forall (fun o => digits 256 (scriptPubKey o)) (vout txFrom) ->
  exists c', VerifySignature GetRandHash nMaxCacheSize txFrom txTo nIn p2sh nHashType c =
    Some (signature_accepted txFrom txTo nIn p2sh nHashType txin, c') /\ cache_ok c'.
Proof.
  intros Hc Hin Hsig Hout. unfold VerifySignature, signature_accepted. rewrite Hin.
  destruct (vout txFrom !! _) as [txout|] eqn:Eo; [|by eexists].
  destruct (bu_eq _ _); [|by eexists]. cbn [negb andb].
  pose proof (Forall_lookup_1 _ _ _ _ Hout Eo) as Hpk. cbn beta in Hpk.
  set (check1 := fun (c : CSignatureCache) (vchSig vchPubKey : valtype) (code : CScript) =>
    CheckSig GetRandHash nMaxCacheSize c vchSig vchPubKey code txTo nIn nHashType).
  set (check2 := fun (c : unit) (sg key : valtype) (code : CScript) => (sig_valid sg key code txTo nIn nHashType, c)).
  pose proof (agree_VerifyScript check1 check2 (fun c _ => cache_ok c)) as Ha.
  specialize (Ha ltac:(intros d1 d2 sg key code Hd;
    destruct (CheckSig_spec GetRandHash nMaxCacheSize d1 sg key code txTo nIn nHashType Hd) as (d & E & Hd' & _);
    unfold check1; rewrite E; by split)
    (scriptSig txin) (scriptPubKey txout) p2sh c tt Hc).
  destruct (VerifyScript_defined check1 (scriptSig txin) (scriptPubKey txout) p2sh c Hsig Hpk) as [[ok c1] E].
  rewrite E in *. destruct (VerifyScript check2 _ _ _ _) as [[ok2 u]|]; [|done].
  destruct Ha as [Hok Hc1]. cbn [fst snd] in *. subst ok2. by exists c1.
Qed.

(** (C28) Verifying an input never goes wrong (no access to an empty stack, no
    failed assertion) and its answer does not depend on the signature cache: with
    any cache of verified signatures it is the answer of the interpreter run
    without a cache, and the cache it leaves holds verified signatures only. *)
Theorem verify_signature_cache_transparent `{BNS : BN_spec} `{CS : Crypto_spec} `{EC} GetRandHash nMaxCacheSize
    txFrom txTo nIn p2sh nHashType c txin :
  cache_ok c -> vin txTo !! Z.to_nat nIn = Some txin -> digits 256 (scriptSig txin) ->
  Forall (fun o => digits 256 (scriptPubKey o)) (vout txFrom) ->
  exists c', VerifySignature GetRandHash nMaxCacheSize txFrom txTo nIn p2sh nHashType c =
    Some (signature_accepted txFrom txTo nIn p2sh nHashType txin, c') /\ cache_ok c'.
Proof. apply VerifySignature_value. Qed.

Definition example_from : CTransaction := mkTx 1 0 [] [mkTxOut 5 [OP_1]] 0 [] 0.
Definition example_spend `{Crypto} : CTransaction :=
  mkTx 1 0 [mkTxIn (mkOutPoint (tx_GetHash example_from) 0) [] 0] [] 0 [] 0.

Lemma verify_signature_cache_transparent_witness :
  exists c', @VerifySignature BN_Z Crypto_toy EC_toy (fun _ => []) 2 example_from (@example_spend Crypto_toy) 0 true 0
    (mkSigCache [] 0) = Some (true, c').
Proof.
  destruct (@verify_signature_cache_transparent BN_Z BN_Z_spec Crypto_toy Crypto_toy_spec EC_toy (fun _ => []) 2
    example_from (@example_spend Crypto_toy) 0 true 0 (mkSigCache [] 0)
    (mkTxIn (mkOutPoint (@tx_GetHash Crypto_toy example_from) 0) [] 0)) as (c' & E & _).
  - constructor.
  - reflexivity.
  - constructor.
  - forall_list. forall_list. by vm_compute.
  - exists c'. rewrite E. vm_compute. reflexivity.
Defined.

(** (C29) Pay-to-script-hash.  An input that spends [HASH160 <h> EQUAL] is accepted
    exactly when its signature script only pushes data, the last value pushed
    hashes to [h], and that value, run as a script on the values below it, leaves
    a true value on top (998 is what the limit of the stack leaves room for). *)
Theorem pay_to_script_hash_spec `{BNS : BN_spec} `{CS : Crypto_spec} {S : Type}
    (check : S -> valtype -> valtype -> CScript -> bool * S) sig h c c' :
  digits 256 sig -> digits 256 h -> len h = 20 ->
  VerifyScript check sig (p2sh_script h) true c = Some (true, c') <->
  IsPushOnly sig = true /\
  exists redeem rest c1 top s,
    EvalScript check [] sig c = (true, redeem :: rest, c1) /\ len rest <= 998 /\
    bu_bytes (Hash160 redeem) = h /\
    EvalScript check rest redeem c1 = (true, top :: s, c') /\ CastToBool top = true.
Proof.
  intros Hsig Hh Hl. unfold VerifyScript. rewrite p2sh_script_is by done.
  destruct (EvalScript check [] sig c) as [[ok s] c1] eqn:E1.
  destruct ok; [|split; [done|intros (_ & ? & ? & ? & ? & ? & ? & _); done]]. cbn [negb].
  apply EvalScript_elems in E1 as [Hs Hls]; [|done|constructor|done]. rewrite EvalScript_p2sh by done.
  destruct s as [|redeem rest]; [split; [done|intros (_ & ? & ? & ? & ? & ? & ? & _); done]|].
  destruct (Z.leb_spec (len rest) 998); cbn [negb]; [|split; [done|intros (_ & ? & ? & ? & ? & ? & [= <- <- <-] & ? & _); lia]].
  destruct (bytes_eqb (bu_bytes (Hash160 redeem)) h) eqn:Eh; cbn [CastToBool negb andb].
  2:{ split; [done|]. intros (_ & ? & ? & ? & ? & ? & [= <- <- <-] & _ & E & _).
      rewrite E in Eh. by rewrite (proj2 (bytes_eqb_eq h h)) in Eh. }
  apply bytes_eqb_eq in Eh. change (CastToBool vchTrue) with true. cbn [negb].
  destruct (IsPushOnly sig); cbn [negb]; [|split; [done|by intros []]].
  destruct (EvalScript check rest redeem c1) as [[[] s] c2] eqn:E2; cbn [negb].
  2:{ split; [done|]. intros (_ & ? & ? & ? & ? & ? & [= <- <- <-] & _ & _ & E & _). congruence. }
  destruct s as [|top s].
  { split; [done|]. intros (_ & ? & ? & ? & ? & ? & [= <- <- <-] & _ & _ & E & _). congruence. }
  split.
  - intros [= Ht <-]. split; [done|]. by exists redeem, rest, c1, top, s.
  - intros (_ & ? & ? & ? & ? & ? & [= <- <- <-] & _ & _ & E & Ht). rewrite E2 in E. injection E as -> _ ->. by rewrite Ht.
Qed.

Lemma pay_to_script_hash_spec_witness :
  @VerifyScript BN_Z Crypto_toy unit (fun c _ _ _ => (false, c)) [1; OP_1] (p2sh_script (bu_bytes (@Hash160 Crypto_toy [OP_1])))
    true tt = Some (true, tt).
Proof.
  apply (@pay_to_script_hash_spec BN_Z BN_Z_spec Crypto_toy Crypto_toy_spec unit (fun c _ _ _ => (false, c))).
  - forall_list; by vm_compute.
  - apply bu_bytes_ok.
  - reflexivity.
  - split; [reflexivity|]. exists [OP_1], [], tt, [1], []. split_and!; (reflexivity || done).
Defined.

(** Pay-to-public-key-hash.  When the signature script leaves [pk] on top
    and [sg] under it, the input is accepted exactly when [pk] hashes to [h] and
    the check of [sg] under [pk] over the output's script succeeds. *)
Theorem pay_to_pubkey_hash_spec `{BNS : BN_spec} `{CS : Crypto_spec} {S : Type}
    (check : S -> valtype -> valtype -> CScript -> bool * S) sig h p2sh c pk sg rest c1 :
  digits 256 h -> len h = 20 ->
  EvalScript check [] sig c = (true, pk :: sg :: rest, c1) -> len rest <= 996 ->
  VerifyScript check sig (p2pkh_script h) p2sh c =
  Some (if bytes_eqb (bu_bytes (Hash160 pk)) h
        then check c1 sg pk (fst (FindAndDelete (p2pkh_script h) (push_vch [] sg)))
        else (false, c1)).
Proof.
  intros Hh Hl E Hr. unfold VerifyScript. rewrite E. cbn [negb]. rewrite EvalScript_p2pkh by done.
  destruct (bytes_eqb _ h); [|done]. destruct (check c1 sg pk _) as [ok c2]. cbn [negb].
  assert (IsPayToScriptHash (p2pkh_script h) = false) as Hno.
  { unfold IsPayToScriptHash, p2pkh_script. cbn [nth app]. change (OP_DUP =? OP_HASH160) with false.
    by rewrite andb_false_r. }
  destruct ok; [|done]. change (CastToBool vchTrue) with true. cbn [negb]. by rewrite Hno, andb_false_r.
Qed.

Lemma pay_to_pubkey_hash_spec_witness :
  @VerifyScript BN_Z Crypto_toy unit (fun c sg pk _ => (bytes_eqb sg pk, c)) [1; 9; 1; 9]
    (p2pkh_script (bu_bytes (@Hash160 Crypto_toy [9]))) true tt = Some (true, tt).
Proof.
  rewrite (@pay_to_pubkey_hash_spec BN_Z BN_Z_spec Crypto_toy Crypto_toy_spec unit (fun c sg pk _ => (bytes_eqb sg pk, c))
    [1; 9; 1; 9] (bu_bytes (@Hash160 Crypto_toy [9])) true tt [9] [9] [] tt).
  - reflexivity.
  - apply bu_bytes_ok.
  - reflexivity.
  - reflexivity.
  - by vm_compute.
Defined.

Lemma CastToBigNum_getvch `{BNS : BN_spec} z : 0 <= z <= 20 -> CastToBigNum (getvch z) = Some z.
Proof.
  intros Hz. unfold CastToBigNum. assert (len (getvch z) <= 4) as Hl.
  { rewrite getvch_value. unfold len. rewrite length_rev. pose proof (mpi_body_len z) as Hm. unfold len in Hm.
    pose proof (nbits_le (Z.abs z) 8 ltac:(lia) ltac:(lia)).
    pose proof (Z.div_le_mono (nbits (Z.abs z) + 7) 15 8 ltac:(lia) ltac:(lia)) as Hd. change (15 / 8) with 1 in Hd. lia. }
  unfold nMaxNumSize. rewrite (proj2 (Z.ltb_ge _ _) Hl). by rewrite !setvch_getvch by (rewrite ?setvch_getvch; lia).
Qed.

Lemma drop_middle {A} (keys : list A) x r : drop (S (length keys)) (keys ++ x :: r) = r.
Proof. rewrite drop_app_ge by lia. by replace (S (length keys) - length keys)%nat with 1%nat by lia. Qed.

Lemma drop_args {A} (keys sigs : list A) x y t :
  drop (length keys + S (length sigs + 1)) (keys ++ x :: sigs ++ y :: t) = t.
Proof.
  rewrite <- drop_drop, drop_app_length. cbn [drop]. rewrite <- drop_drop, drop_app_length. done.
Qed.

(** (C30) m-of-n.  OP_CHECKMULTISIG on m signatures and n keys succeeds exactly
    when the signatures are valid for some m of the keys in the same order: the
    single pass over the keys finds such a choice whenever there is one.  It takes
    its arguments and one value more off the stack, and counts one operation per
    key. *)
Theorem multisig_finds_any_ordered_match `{BNS : BN_spec} `{Crypto} valid code nOps keys sigs dummy t :
  len keys <= 20 -> len sigs <= len keys -> 0 <= nOps -> nOps + len keys <= 201 ->
  exists ok : bool,
    multisig_op (fun (c : unit) sg key code => (valid sg key code, c)) OP_CHECKMULTISIG code nOps
      (getvch (len keys) :: keys ++ getvch (len sigs) :: sigs ++ dummy :: t) tt =
    (true, (if ok then vchTrue else vchFalse) :: t, nOps + len keys, tt) /\
    (ok = true <-> signed_in_order valid sigs keys
       (fold_left (fun code sg => fst (FindAndDelete code (push_vch [] sg))) sigs code)).
Proof.
  intros Hk Hs Hn0 Hn. pose proof (len_nonneg keys). pose proof (len_nonneg sigs). unfold multisig_op.
  rewrite CastToBigNum_getvch by lia. rewrite getint_value, Z.min_r, Z.max_r by (unfold INT_MAX, INT_MIN; lia).
  rewrite (proj2 (Z.ltb_ge (len keys) 0)), (proj2 (Z.ltb_ge 20 (len keys))), (proj2 (Z.ltb_ge 201 _)) by lia. cbn [orb].
  assert (Hcount : forall x r, (x :: keys ++ r) !! Z.to_nat (1 + len keys) = head r).
  { intros x r. replace (Z.to_nat (1 + len keys)) with (S (length keys + 0)) by (unfold len; lia).
    change ((x :: keys ++ r) !! S (length keys + 0)) with ((keys ++ r) !! (length keys + 0)%nat).
    rewrite lookup_app_r by lia. replace (length keys + 0 - length keys)%nat with 0%nat by lia. by destruct r. }
  rewrite Hcount. cbn [head].
  rewrite CastToBigNum_getvch by lia. rewrite getint_value, Z.min_r, Z.max_r by (unfold INT_MAX, INT_MIN; lia).
  rewrite (proj2 (Z.ltb_ge (len sigs) 0)), (proj2 (Z.ltb_ge (len keys) (len sigs))) by lia. cbn [orb].
  match goal with |- context [if ?a <? ?b then _ else _] => rewrite (proj2 (Z.ltb_ge a b))
    by (pose proof (len_nonneg t); unfold len in *; repeat (cbn [length] || rewrite length_app); lia) end.
  replace (Z.to_nat (2 + len keys)) with (S (S (length keys))) by (unfold len; lia).
  replace (Z.to_nat (3 + len keys + len sigs)) with (S (length keys + S (length sigs + 1))) by (unfold len; lia).
  unfold len. rewrite !Nat2Z.id. cbn [drop].
  rewrite drop_0, take_app_length, drop_middle, take_app_length, drop_args.
  set (code' := fold_left _ _ _). set (check := fun (c : unit) _ _ _ => _).
  pose proof (multisig_loop_spec valid keys sigs code') as Hspec. fold check in Hspec.
  destruct (multisig_loop check keys sigs code' ()) as [ok []]. exists ok. by split.
Qed.

Lemma multisig_finds_any_ordered_match_witness :
  exists ok : bool,
    @multisig_op BN_Z unit (fun c sg key _ => (bytes_eqb sg key, c)) OP_CHECKMULTISIG [] 1
      [[3]; [1]; [2]; [3]; [2]; [1]; [3]; []] tt = (true, [if ok then vchTrue else vchFalse], 4, tt) /\ ok = true.
Proof.
  destruct (@multisig_finds_any_ordered_match BN_Z BN_Z_spec Crypto_toy (fun sg key _ => bytes_eqb sg key) [] 1
    [[1]; [2]; [3]] [[1]; [3]] [] []) as (ok & E & Hok); [by vm_compute..|].
  exists ok. split; [exact E|]. apply Hok. exists [[1]; [3]]. split; [|repeat constructor].
  apply sublist_skip, sublist_cons, sublist_skip, sublist_nil.
Defined.
