(* ===== verification/Standard.v ===== *)
(** * script.cpp: standard scripts and destinations

    Recognising the standard forms of an output script ([Solver]), the
    destinations they pay to, whether a key store can spend them, and building
    them.  The key store is any instance of [CKeyStore].  A function that can
    throw or assert gives [None] for that. *)
From Stdlib Require Import ZArith Lia Bool String.
From stdpp Require Import prelude gmap.
From S2P Require Import Prelude Uint256 DataStream Serialize Crypto Bignum Opcodes Script Tx Keys KeyStore SigHash Interp.

Inductive txnouttype : Type :=
| TX_NONSTANDARD
| TX_PUBKEY
| TX_PUBKEYHASH
| TX_SCRIPTHASH
| TX_MULTISIG
| TX_NULL_DATA.

#[global] Instance txnouttype_eq_dec : EqDecision txnouttype.
Proof. solve_decision. Defined.

Definition GetTxnOutputType (t : txnouttype) : string :=
  match t with
  | TX_NONSTANDARD => "nonstandard"
  | TX_PUBKEY => "pubkey"
  | TX_PUBKEYHASH => "pubkeyhash"
  | TX_SCRIPTHASH => "scripthash"
  | TX_MULTISIG => "multisig"
  | TX_NULL_DATA => "nulldata"
  end%string.

(** ** Matching a script against a template *)

Definition mTemplates : list (txnouttype * CScript) :=
  [(TX_PUBKEY, [OP_PUBKEY; OP_CHECKSIG]);
   (TX_PUBKEYHASH, [OP_DUP; OP_HASH160; OP_PUBKEYHASH; OP_EQUALVERIFY; OP_CHECKSIG]);
   (TX_MULTISIG, [OP_SMALLINTEGER; OP_PUBKEYS; OP_SMALLINTEGER; OP_CHECKMULTISIG]);
   (TX_NULL_DATA, [OP_RETURN; OP_SMALLDATA])].

(** The loop at OP_PUBKEYS: the instruction it stops at, the iterator after it,
    and the solutions.  A failed read stops it too, with the opcode and data that
    [GetOp] leaves.  Every turn reads a byte at least. *)
Fixpoint pubkeys_loop (fuel : nat) (opcode1 : Z) (vch1 : valtype) (pc1 : CScript) (sols : list valtype)
    : Z * valtype * CScript * list valtype :=
  if (33 <=? len vch1) && (len vch1 <=? 120) then
    let sols := sols ++ [vch1] in
    let '(fRet, pc1, opcode1, vch1) := GetOp2 pc1 in
    match fuel with
    | S fuel => if fRet then pubkeys_loop fuel opcode1 vch1 pc1 sols else (opcode1, vch1, pc1, sols)
    | O => (opcode1, vch1, pc1, sols)
    end
  else (opcode1, vch1, pc1, sols).

(** The if/else chain; [None] is [break]. *)
Definition template_op (opcode1 : Z) (vch1 : valtype) (opcode2 : Z) (vch2 : valtype) (sols : list valtype)
    : option (list valtype) :=
  if opcode2 =? OP_PUBKEY then
    if (len vch1 <? 33) || (120 <? len vch1) then None else Some (sols ++ [vch1])
  else if opcode2 =? OP_PUBKEYHASH then
    if negb (len vch1 =? 20) then None else Some (sols ++ [vch1])
  else if opcode2 =? OP_SMALLINTEGER then
    if (opcode1 =? OP_0) || ((OP_1 <=? opcode1) && (opcode1 <=? OP_16)) then
      match DecodeOP_N opcode1 with Some n => Some (sols ++ [[u8 n]]) | None => None end
    else None
  else if opcode2 =? OP_SMALLDATA then
    if 80 <? len vch1 then None else Some sols
  else if negb (opcode1 =? opcode2) || negb (bytes_eqb vch1 vch2) then None else Some sols.

(** The loop over both scripts; [None] is no match.  Every turn reads a byte of
    the template at least. *)
Fixpoint match_loop (fuel : nat) (pc1 pc2 : CScript) (sols : list valtype) : option (list valtype) :=
  match pc1, pc2 with
  | [], [] => Some sols
  | _, _ =>
      match fuel with
      | O => None
      | S fuel =>
          match GetOp pc1, GetOp pc2 with
          | Some (opcode1, vch1, pc1), Some (opcode2, vch2, pc2) =>
              if opcode2 =? OP_PUBKEYS then
                let '(opcode1, vch1, pc1, sols) := pubkeys_loop (length pc1) opcode1 vch1 pc1 sols in
                match GetOp pc2 with
                | None => None
                | Some (opcode2, vch2, pc2) =>
                    match template_op opcode1 vch1 opcode2 vch2 sols with
                    | None => None
                    | Some sols => match_loop fuel pc1 pc2 sols
                    end
                end
              else
                match template_op opcode1 vch1 opcode2 vch2 sols with
                | None => None
                | Some sols => match_loop fuel pc1 pc2 sols
                end
          | _, _ => None
          end
      end
  end.

(** [v.front()[0]] and [v.back()[0]]. *)
Definition front0 (sols : list valtype) : Z := nth 0 (hd [] sols) 0.
Definition back0 (sols : list valtype) : Z := nth 0 (List.last sols []) 0.

Fixpoint scan_templates (script1 : CScript) (l : list (txnouttype * CScript)) : bool * txnouttype * list valtype :=
  match l with
  | [] => (false, TX_NONSTANDARD, [])
  | (t, script2) :: l =>
      match match_loop (length script2) script1 script2 [] with
      | None => scan_templates script1 l
      | Some sols =>
          if decide (t = TX_MULTISIG) then
            let m := front0 sols in
            let n := back0 sols in
            if (m <? 1) || (n <? 1) || (n <? m) || negb (len sols - 2 =? n) then (false, t, sols) else (true, t, sols)
          else (true, t, sols)
      end
  end.

Definition Solver (scriptPubKey : CScript) (vSolutionsRet : list valtype) : bool * txnouttype * list valtype :=
  if IsPayToScriptHash scriptPubKey then (true, TX_SCRIPTHASH, vSolutionsRet ++ [take 20 (drop 2 scriptPubKey)])
  else scan_templates scriptPubKey mTemplates.

Definition ScriptSigArgsExpected (t : txnouttype) (vSolutions : list valtype) : Z :=
  match t with
  | TX_NONSTANDARD => -1
  | TX_NULL_DATA => 1
  | TX_PUBKEY => 1
  | TX_PUBKEYHASH => 2
  | TX_MULTISIG =>
      if (len vSolutions <? 1) || (len (hd [] vSolutions) <? 1) then -1 else front0 vSolutions + 1
  | TX_SCRIPTHASH => 1
  end.

Definition IsStandard (scriptPubKey : CScript) : bool * txnouttype :=
  let '(ok, whichType, vSolutions) := Solver scriptPubKey [] in
  if negb ok then (false, whichType)
  else
    let refused :=
      if decide (whichType = TX_MULTISIG) then
        let m := front0 vSolutions in
        let n := back0 vSolutions in
        (n <? 1) || (3 <? n) || (m <? 1) || (n <? m)
      else false in
    if refused then (false, whichType) else (bool_decide (whichType <> TX_NONSTANDARD), whichType).

(** ** Destinations *)

Section destinations.
Context `{Crypto}.

Definition ExtractDestination (scriptPubKey : CScript) : option (option CTxDestination) :=
  let '(ok, whichType, vSolutions) := Solver scriptPubKey [] in
  if negb ok then Some None
  else
    let v0 := hd [] vSolutions in
    match whichType with
    | TX_PUBKEY => Some (Some (DestKeyID (GetID (mkPubKey v0))))
    | TX_PUBKEYHASH => id ← bu_of_vch 5 v0; Some (Some (DestKeyID id))
    | TX_SCRIPTHASH => id ← bu_of_vch 5 v0; Some (Some (DestScriptID id))
    | _ => Some None
    end.

(** The value returned, the type, the addresses and the signatures needed;
    [nRequiredRet] is set when there are addresses. *)
Definition ExtractDestinations (scriptPubKey : CScript) : option (bool * txnouttype * list CTxDestination * option Z) :=
  let '(ok, typeRet, vSolutions) := Solver scriptPubKey [] in
  if negb ok then Some (false, typeRet, [], None)
  else
    match typeRet with
    | TX_NULL_DATA => Some (true, typeRet, [], None)
    | TX_MULTISIG =>
        Some (true, typeRet, map (fun v => DestKeyID (GetID (mkPubKey v))) (removelast (tail vSolutions)), Some (front0 vSolutions))
    | _ =>
        address ← ExtractDestination scriptPubKey;
        match address with
        | None => Some (false, typeRet, [], Some 1)
        | Some address => Some (true, typeRet, [address], Some 1)
        end
    end.

(** [CScriptVisitor] on an empty script; the opcodes are within a byte. *)
Definition SetDestination (dest : CTxDestination) : CScript :=
  match dest with
  | CNoDestination => []
  | DestKeyID keyID => push_uint [OP_DUP; OP_HASH160] keyID ++ [OP_EQUALVERIFY; OP_CHECKSIG]
  | DestScriptID scriptID => push_uint [OP_HASH160] scriptID ++ [OP_EQUAL]
  | DestStealth _ => []
  end.

(** [keys] are the public keys of the keys given. *)
Definition SetMultisig (nRequired : Z) (keys : list CPubKey) : option CScript :=
  m ← EncodeOP_N nRequired;
  n ← EncodeOP_N (len keys);
  Some (fold_left push_pubkey keys [m] ++ [n; OP_CHECKMULTISIG]).
End destinations.

(** ** What a key store can spend *)

Section mine.
Context `{Crypto} `{EC} {K : Type} `{!CKeyStore K}.

Definition HaveKeys (pubkeys : list valtype) (keystore : K) : Z :=
  fold_left (fun nResult pubkey => if HaveKey keystore (GetID (mkPubKey pubkey)) then u32 (nResult + 1) else nResult) pubkeys 0.

Definition IsMine_dest (keystore : K) (dest : CTxDestination) : bool :=
  match dest with
  | CNoDestination => false
  | DestKeyID keyID => HaveKey keystore keyID
  | DestScriptID scriptID => HaveCScript keystore scriptID
  | DestStealth stxAddr => len (scan_secret stxAddr) =? ec_secret_size
  end.

(** Redemption scripts may nest; [None] also when [fuel] scripts did not reach
    the last one. *)
Fixpoint IsMine (fuel : nat) (keystore : K) (scriptPubKey : CScript) : option bool :=
  match fuel with
  | O => None
  | S fuel =>
      let '(ok, whichType, vSolutions) := Solver scriptPubKey [] in
      if negb ok then Some false
      else
        let v0 := hd [] vSolutions in
        match whichType with
        | TX_NONSTANDARD | TX_NULL_DATA => Some false
        | TX_PUBKEY => Some (HaveKey keystore (GetID (mkPubKey v0)))
        | TX_PUBKEYHASH => id ← bu_of_vch 5 v0; Some (HaveKey keystore id)
        | TX_SCRIPTHASH =>
            id ← bu_of_vch 5 v0;
            match GetCScript keystore id with
            | None => Some false
            | Some subscript => IsMine fuel keystore subscript
            end
        | TX_MULTISIG =>
            let keys := removelast (tail vSolutions) in
            Some (HaveKeys keys keystore =? len keys)
        end
  end.
End mine.

(** ** Scripts as decoded instructions *)

Inductive decodes : CScript -> list (Z * valtype) -> Prop :=
| decodes_nil : decodes [] []
| decodes_cons s o v r l : GetOp s = Some (o, v, r) -> decodes r l -> decodes s ((o, v) :: l).

Lemma decodes_inj s l1 l2 : decodes s l1 -> decodes s l2 -> l1 = l2.
Proof.
  intros H1. revert l2. induction H1 as [|s o v r l E _ IH]; intros l2 H2.
  - inversion H2 as [|? ? ? ? ? E]; [done|]. by rewrite GetOp_nil in E.
  - inversion H2 as [|? ? ? ? ? E' H2']; subst; [by rewrite GetOp_nil in E|]. rewrite E in E'. injection E' as <- <- <-.
    f_equal. by apply IH.
Qed.

Lemma decodes_cons_inv s o v l : decodes s ((o, v) :: l) -> exists r, GetOp s = Some (o, v, r) /\ decodes r l.
Proof. inversion 1; subst. by eexists. Qed.

Lemma decodes_nil_inv s : decodes s [] -> s = [].
Proof. by inversion 1. Qed.

(** An instruction above the pushes carries no data. *)
Lemma GetOp_code_data s o v r : script_ok s -> GetOp s = Some (o, v, r) -> OP_PUSHDATA4 < o \/ o = OP_0 -> v = [].
Proof.
  intros Hs E Ho. apply GetOp_iff in E as (hdr & -> & Hf); [|done]. unfold op_form in Hf.
  destruct Ho as [Ho| ->].
  - rewrite (proj2 (Z.ltb_lt _ _) Ho) in Hf. apply Hf.
  - change (OP_PUSHDATA4 <? OP_0) with false in Hf. change (OP_0 <? OP_PUSHDATA1) with true in Hf. destruct Hf as [_ Hl].
    destruct v as [|b v]; [done|]. rewrite len_cons in Hl. pose proof (len_nonneg v). unfold OP_0 in Hl. lia.
Qed.

Lemma decodes_app_code s r l o : script_ok (s ++ o :: r) -> OP_PUSHDATA4 < o -> decodes s l ->
  forall l', decodes r l' -> decodes (s ++ o :: r) (l ++ (o, []) :: l').
Proof.
  intros Hok Ho Hs. revert Hok. induction Hs as [|s x v t l E _ IH]; intros Hok l' Hr; cbn [app].
  - apply decodes_cons with r; [by apply GetOp_code|done].
  - pose proof (GetOp_app _ _ _ _ _ Hok E) as E'. apply decodes_cons with (t ++ o :: r); [done|].
    apply IH; [|done]. by destruct (GetOp_shrinks _ _ _ _ Hok E') as (_ & ? & _).
Qed.

(** ** The matching loop, instruction by instruction *)

Section matching.

Lemma match_loop_end fuel s sols : match_loop fuel s [] sols = match s with [] => Some sols | _ => None end.
Proof. destruct fuel, s; try done. cbn [match_loop]. rewrite GetOp_nil. by destruct (GetOp _) as [[[? ?] ?]|]. Qed.

(** The template's own instruction is [o2], without data. *)
Lemma match_loop_step fuel s o2 t sols : GetOp (o2 :: t) = Some (o2, [], t) -> (o2 =? OP_PUBKEYS) = false ->
  match_loop (S fuel) s (o2 :: t) sols =
  match GetOp s with
  | None => None
  | Some (o1, v1, r) => match template_op o1 v1 o2 [] sols with None => None | Some sols => match_loop fuel r t sols end
  end.
Proof.
  intros Ht Hp. cbn [match_loop]. rewrite Ht.
  destruct s as [|c s]; [done|]. destruct (GetOp (c :: s)) as [[[o1 v1] r]|]; [|done]. by rewrite Hp.
Qed.

Lemma match_loop_pubkeys fuel s o2 t sols : GetOp (OP_PUBKEYS :: o2 :: t) = Some (OP_PUBKEYS, [], o2 :: t) ->
  GetOp (o2 :: t) = Some (o2, [], t) ->
  match_loop (S fuel) s (OP_PUBKEYS :: o2 :: t) sols =
  match GetOp s with
  | None => None
  | Some (o1, v1, r) =>
      let '(o1, v1, r, sols) := pubkeys_loop (length r) o1 v1 r sols in
      match template_op o1 v1 o2 [] sols with None => None | Some sols => match_loop fuel r t sols end
  end.
Proof.
  intros Ht Ht'. cbn [match_loop]. rewrite Ht, Ht'.
  destruct s as [|c s]; [done|]. by destruct (GetOp (c :: s)) as [[[o1 v1] r]|].
Qed.

(** *** The conditions of [template_op] *)

Definition is_key (v : valtype) : Prop := 33 <= len v <= 120.

Lemma template_pubkey o v sols r : template_op o v OP_PUBKEY [] sols = Some r <-> is_key v /\ r = sols ++ [v].
Proof.
  unfold template_op, is_key. change (OP_PUBKEY =? OP_PUBKEY) with true. cbn [negb].
  destruct (Z.ltb_spec (len v) 33), (Z.ltb_spec 120 (len v)); cbn [orb]; split; intros Hr; try lia; try done; [|by destruct Hr as [_ ->]].
  injection Hr as <-. split; [lia|done].
Qed.

Lemma template_pubkeyhash o v sols r : template_op o v OP_PUBKEYHASH [] sols = Some r <-> len v = 20 /\ r = sols ++ [v].
Proof.
  unfold template_op. change (OP_PUBKEYHASH =? OP_PUBKEY) with false. change (OP_PUBKEYHASH =? OP_PUBKEYHASH) with true. cbv iota.
  destruct (Z.eqb_spec (len v) 20); cbn [negb]; naive_solver.
Qed.

Lemma EncodeOP_N_iff n o : EncodeOP_N n = Some o <-> 0 <= n <= 16 /\ o = (if n =? 0 then 0 else 80 + n).
Proof.
  unfold EncodeOP_N, OP_0, OP_1. destruct (Z.leb_spec 0 n), (Z.leb_spec n 16); cbn [andb negb]; [|split; [done|lia]..].
  destruct (Z.eqb_spec n 0); (split; [intros [= <-]; lia|intros [_ ->]; f_equal; lia]).
Qed.

Lemma template_smallint o v sols r : template_op o v OP_SMALLINTEGER [] sols = Some r <->
  exists n, EncodeOP_N n = Some o /\ r = sols ++ [[n]].
Proof.
  unfold template_op. change (OP_SMALLINTEGER =? OP_PUBKEY) with false. change (OP_SMALLINTEGER =? OP_PUBKEYHASH) with false.
  change (OP_SMALLINTEGER =? OP_SMALLINTEGER) with true. cbv iota. setoid_rewrite EncodeOP_N_iff. unfold OP_0, OP_1, OP_16.
  destruct (Z.eqb_spec o 0) as [->|H0]; cbn [orb].
  - change (DecodeOP_N 0) with (Some 0). split; [intros [= <-]; exists 0; by split|].
    intros (n & [Hn E] & ->). destruct (Z.eqb_spec n 0) as [->|]; [done|lia].
  - destruct (Z.leb_spec 81 o), (Z.leb_spec o 96); cbn [andb].
    2-4: split; [done|intros (n & [Hn E] & _); destruct (Z.eqb_spec n 0); lia].
    rewrite DecodeOP_N_range by (unfold OP_1, OP_16; lia). rewrite (wrap_id 8) by (unfold fits; lia). split.
    + intros [= <-]. exists (o - 80). destruct (Z.eqb_spec (o - 80) 0); [lia|]. split; [lia|done].
    + intros (n & [Hn E] & ->). destruct (Z.eqb_spec n 0); [lia|]. do 4 f_equal. lia.
Qed.

Lemma template_smalldata o v sols r : template_op o v OP_SMALLDATA [] sols = Some r <-> len v <= 80 /\ r = sols.
Proof.
  unfold template_op. change (OP_SMALLDATA =? OP_PUBKEY) with false. change (OP_SMALLDATA =? OP_PUBKEYHASH) with false.
  change (OP_SMALLDATA =? OP_SMALLINTEGER) with false. change (OP_SMALLDATA =? OP_SMALLDATA) with true. cbv iota.
  destruct (Z.ltb_spec 80 (len v)); split; intros Hr; try done; try lia; [by injection Hr as <-|by destruct Hr as [_ ->]].
Qed.

Lemma template_exact o v o2 sols r :
  (o2 =? OP_PUBKEY) || (o2 =? OP_PUBKEYHASH) || (o2 =? OP_SMALLINTEGER) || (o2 =? OP_SMALLDATA) = false ->
  template_op o v o2 [] sols = Some r <-> o = o2 /\ v = [] /\ r = sols.
Proof.
  intros Hn. apply orb_false_iff in Hn as [Hn H4]. apply orb_false_iff in Hn as [Hn H3]. apply orb_false_iff in Hn as [H1 H2].
  unfold template_op. rewrite H1, H2, H3, H4. destruct (Z.eqb_spec o o2) as [->|]; cbn [negb orb]; [|naive_solver].
  destruct (bytes_eqb v []) eqn:E; cbn [negb].
  - apply bytes_eqb_eq in E as ->. naive_solver.
  - split; [done|]. intros (_ & -> & _). done.
Qed.
End matching.

(** ** The run of keys at OP_PUBKEYS *)

Lemma is_key_dec v : (33 <=? len v) && (len v <=? 120) = true <-> is_key v.
Proof. rewrite andb_true_iff, !Z.leb_le. done. Qed.

Lemma small_code n o : EncodeOP_N n = Some o -> OP_PUSHDATA4 < o \/ o = OP_0.
Proof. intros E. apply EncodeOP_N_iff in E as [Hn ->]. unfold OP_PUSHDATA4, OP_0. destruct (Z.eqb_spec n 0); lia. Qed.

Lemma small_valid n o : EncodeOP_N n = Some o -> o <> OP_INVALIDOPCODE.
Proof. intros E. apply EncodeOP_N_iff in E as [Hn ->]. unfold OP_INVALIDOPCODE. destruct (Z.eqb_spec n 0); lia. Qed.

Lemma pubkeys_loop_sound fuel s o v pc sols o' v' pc' sols' n : script_ok s -> GetOp s = Some (o, v, pc) -> (length pc <= fuel)%nat ->
  pubkeys_loop fuel o v pc sols = (o', v', pc', sols') -> EncodeOP_N n = Some o' ->
  exists ks, sols' = sols ++ map snd ks /\ Forall (fun k => is_key (snd k)) ks /\ v' = [] /\
  forall l, decodes pc' l -> decodes s (ks ++ (o', v') :: l).
Proof.
  intros Hs E Hf. revert s o v pc sols Hs E Hf. induction fuel as [|fuel IH]; intros s o v pc sols Hs E Hf El En; cbn [pubkeys_loop] in El;
    destruct ((33 <=? len v) && (len v <=? 120)) eqn:Ek;
    destruct (GetOp_shrinks s o v pc Hs E) as (_ & Hpc & _).
  - destruct pc; [|cbn in Hf; lia]. cbn in El. simplify_eq. by apply small_valid in En.
  - simplify_eq. exists []. cbn [map app]. rewrite app_nil_r. split_and!; [done|constructor|by apply (GetOp_code_data s o' v' pc' Hs E), (small_code n)|].
    intros l Hl. by apply decodes_cons with pc'.
  - apply is_key_dec in Ek. destruct (GetOp2 pc) as [[[fRet pc1] o1] v1] eqn:E2. destruct fRet.
    + assert (GetOp pc = Some (o1, v1, pc1)) as E1 by (unfold GetOp; by rewrite E2).
      destruct (GetOp_shrinks pc o1 v1 pc1 Hpc E1) as (Hlt & _).
      destruct (IH pc o1 v1 pc1 (sols ++ [v]) Hpc E1 ltac:(lia) El En) as (ks & -> & Hk & Hok & Hd).
      exists ((o, v) :: ks). split_and!; [by rewrite <- app_assoc|by constructor|done|].
      intros l Hl. cbn [app]. apply decodes_cons with pc; [done|]. by apply Hd.
    + simplify_eq. assert (o' = OP_INVALIDOPCODE) as ->.
      { clear -E2. unfold GetOp2 in E2. destruct pc; [by simplify_eq|]. repeat case_match; by simplify_eq. }
      by apply small_valid in En.
  - simplify_eq. exists []. cbn [map app]. rewrite app_nil_r. split_and!; [done|constructor|by apply (GetOp_code_data s o' v' pc' Hs E), (small_code n)|].
    intros l Hl. by apply decodes_cons with pc'.
Qed.

Lemma pubkeys_loop_complete ks fuel s o v pc sols o' l : script_ok s -> GetOp s = Some (o, v, pc) -> (length pc <= fuel)%nat ->
  decodes s (ks ++ (o', []) :: l) -> Forall (fun k => is_key (snd k)) ks ->
  exists pc', pubkeys_loop fuel o v pc sols = (o', [], pc', sols ++ map snd ks) /\ decodes pc' l.
Proof.
  intros Hs E Hf Hd Hk. revert fuel s o v pc sols Hs E Hf Hd. induction Hk as [|[k0 kv] ks Hkey _ IH]; intros fuel s o v pc sols Hs E Hf Hd;
    cbn [app] in Hd; apply decodes_cons_inv in Hd as (r & E' & Hd); rewrite E in E'; injection E' as -> -> ->.
  - exists r. split; [|done]. cbn [map]. rewrite app_nil_r. by destruct fuel.
  - destruct (GetOp_shrinks s k0 kv r Hs E) as (_ & Hr & _). cbn [snd] in Hkey. apply is_key_dec in Hkey as Eb.
    assert (exists o1 v1 r1, GetOp r = Some (o1, v1, r1)) as (o1 & v1 & r1 & E1).
    { destruct ks as [|[o1 v1] ks]; cbn [app] in Hd; apply decodes_cons_inv in Hd as (r1 & E1 & _); by do 3 eexists. }
    destruct (GetOp_shrinks r o1 v1 r1 Hr E1) as (Hlt & _). destruct fuel as [|fuel]; [lia|].
    destruct (IH fuel r o1 v1 r1 (sols ++ [kv]) Hr E1 ltac:(lia) Hd) as (pc' & Ep & Hl).
    exists pc'. split; [|done]. cbn [pubkeys_loop]. rewrite Eb. unfold GetOp in E1.
    destruct (GetOp2 r) as [[[fRet p1] q1] w1]. destruct fRet; [|done]. simplify_eq. rewrite Ep. cbn [map snd]. by rewrite <- app_assoc.
Qed.

(** ** The four templates *)

Lemma match_end_iff fuel s sols r : match_loop fuel s [] sols = Some r <-> s = [] /\ r = sols.
Proof. rewrite match_loop_end. destruct s; naive_solver. Qed.

Lemma match_step_iff fuel s o2 t sols r : GetOp (o2 :: t) = Some (o2, [], t) -> (o2 =? OP_PUBKEYS) = false ->
  match_loop (S fuel) s (o2 :: t) sols = Some r <->
  exists o v s' sols', GetOp s = Some (o, v, s') /\ template_op o v o2 [] sols = Some sols' /\ match_loop fuel s' t sols' = Some r.
Proof.
  intros Ht Hp. rewrite match_loop_step by done. split.
  - destruct (GetOp s) as [[[o v] s']|]; [|done]. destruct (template_op o v o2 [] sols) as [sols'|] eqn:T; [|done]. intros E.
    by exists o, v, s', sols'.
  - intros (o & v & s' & sols' & -> & -> & E). done.
Qed.

(** Taking a successful match apart, and the decoding of a script. *)
Ltac unmatch :=
  repeat match goal with
  | H : match_loop _ _ [] _ = Some _ |- _ => apply match_end_iff in H as [? ?]
  | H : match_loop (S _) _ (_ :: _) _ = Some _ |- _ =>
      apply match_step_iff in H as (? & ? & ? & ? & ? & ? & H); [|reflexivity|reflexivity]
  | H : template_op _ _ OP_PUBKEY _ _ = Some _ |- _ => apply template_pubkey in H as [? ?]
  | H : template_op _ _ OP_PUBKEYHASH _ _ = Some _ |- _ => apply template_pubkeyhash in H as [? ?]
  | H : template_op _ _ OP_SMALLDATA _ _ = Some _ |- _ => apply template_smalldata in H as [? ?]
  | H : template_op _ _ OP_SMALLINTEGER _ _ = Some _ |- _ => apply template_smallint in H as (? & ? & ?)
  | H : template_op _ _ _ _ _ = Some _ |- _ => apply template_exact in H as (? & ? & ?); [|reflexivity]
  | H : decodes _ (_ :: _) |- _ => apply decodes_cons_inv in H as (? & ? & ?)
  | H : decodes _ [] |- _ => apply decodes_nil_inv in H
  end; subst.

(** Building a match from the instructions read. *)
Ltac rematch :=
  repeat match goal with
  | |- match_loop _ _ [] _ = Some _ => by apply match_end_iff
  | |- match_loop (S _) _ (_ :: _) _ = Some _ =>
      apply match_step_iff; [reflexivity|reflexivity|]; do 4 eexists; split; [eassumption|split]
  | |- template_op _ _ OP_PUBKEY _ _ = Some _ => by apply template_pubkey
  | |- template_op _ _ OP_PUBKEYHASH _ _ = Some _ => by apply template_pubkeyhash
  | |- template_op _ _ OP_SMALLDATA _ _ = Some _ => by apply template_smalldata
  | |- template_op _ _ OP_SMALLINTEGER _ _ = Some _ => apply template_smallint; eexists; split; [eassumption|reflexivity]
  | |- template_op _ _ _ _ _ = Some _ => by apply template_exact
  | |- decodes _ (_ :: _) => eapply decodes_cons; [eassumption|]
  | |- decodes [] [] => constructor
  end.

Lemma match_pubkey s sols :
  match_loop 2 s [OP_PUBKEY; OP_CHECKSIG] [] = Some sols <->
  exists o pk, decodes s [(o, pk); (OP_CHECKSIG, [])] /\ is_key pk /\ sols = [pk].
Proof.
  split.
  - intros E. unmatch. do 2 eexists. split_and!; [rematch|done|done].
  - intros (o & pk & Hd & Hk & ->). unmatch. rematch.
Qed.

Lemma match_pubkeyhash s sols :
  match_loop 5 s [OP_DUP; OP_HASH160; OP_PUBKEYHASH; OP_EQUALVERIFY; OP_CHECKSIG] [] = Some sols <->
  exists o h, decodes s [(OP_DUP, []); (OP_HASH160, []); (o, h); (OP_EQUALVERIFY, []); (OP_CHECKSIG, [])] /\ len h = 20 /\ sols = [h].
Proof.
  split.
  - intros E. unmatch. do 2 eexists. split_and!; [rematch|done|done].
  - intros (o & pk & Hd & Hk & ->). unmatch. rematch.
Qed.

Lemma match_null_data s sols :
  match_loop 2 s [OP_RETURN; OP_SMALLDATA] [] = Some sols <->
  exists o d, decodes s [(OP_RETURN, []); (o, d)] /\ len d <= 80 /\ sols = [].
Proof.
  split.
  - intros E. unmatch. do 2 eexists. split_and!; [rematch|done|done].
  - intros (o & pk & Hd & Hk & ->). unmatch. rematch.
Qed.

Lemma match_multisig s sols : script_ok s ->
  match_loop 4 s [OP_SMALLINTEGER; OP_PUBKEYS; OP_SMALLINTEGER; OP_CHECKMULTISIG] [] = Some sols <->
  exists m n om on ks, decodes s ((om, []) :: ks ++ [(on, []); (OP_CHECKMULTISIG, [])]) /\
    EncodeOP_N m = Some om /\ EncodeOP_N n = Some on /\ Forall (fun k => is_key (snd k)) ks /\
    sols = [m] :: map snd ks ++ [[n]].
Proof.
  intros Hs. rewrite match_step_iff by reflexivity. split.
  - intros (om & v & r & s1 & E & T & M). unmatch. rename x into m.
    assert (v = []) as -> by (by apply (GetOp_code_data s om v r Hs E), (small_code m)).
    destruct (GetOp_shrinks s om [] r Hs E) as (_ & Hr & _). rewrite match_loop_pubkeys in M by reflexivity.
    destruct (GetOp r) as [[[o1 v1] r1]|] eqn:E1; [|done].
    cbn [app] in M. destruct (pubkeys_loop (length r1) o1 v1 r1 [[m]]) as [[[on v2] r2] s2] eqn:Ep.
    destruct (template_op on v2 OP_SMALLINTEGER [] s2) as [s3|] eqn:T; [|done]. apply template_smallint in T as (n & En & ->).
    destruct (pubkeys_loop_sound _ r o1 v1 r1 _ on v2 r2 s2 n Hr E1 (le_n _) Ep En) as (ks & -> & Hk & -> & Hd). unmatch.
    assert (Hd' : decodes r (ks ++ [(on, []); (OP_CHECKMULTISIG, [])])) by (apply Hd; rematch).
    exists m, n, om, on, ks. split_and!; [by eapply decodes_cons|done..].
  - intros (m & n & om & on & ks & Hd & Em & En & Hk & ->). apply decodes_cons_inv in Hd as (r & E & Hd).
    destruct (GetOp_shrinks s om [] r Hs E) as (_ & Hr & _).
    exists om, [], r, [[m]]. split; [done|]. split; [apply template_smallint; by exists m|].
    rewrite match_loop_pubkeys by reflexivity.
    assert (exists o1 v1 r1, GetOp r = Some (o1, v1, r1)) as (o1 & v1 & r1 & E1).
    { destruct ks as [|[o1 v1] ks]; cbn [app] in Hd; apply decodes_cons_inv in Hd as (r1 & E1 & _); by do 3 eexists. }
    rewrite E1. destruct (pubkeys_loop_complete ks (length r1) r o1 v1 r1 [[m]] on _ Hr E1 (le_n _) Hd Hk) as (r2 & -> & Hd2).
    rewrite (proj2 (template_smallint on [] _ _) (ex_intro _ n (conj En eq_refl))). unmatch. rematch.
Qed.

(** ** The standard forms *)

(** The forms that the templates describe; the numbers of a multisignature
    script are not yet compared. *)
Inductive form (s : CScript) : txnouttype -> list valtype -> Prop :=
| form_pubkey o pk : decodes s [(o, pk); (OP_CHECKSIG, [])] -> is_key pk -> form s TX_PUBKEY [pk]
| form_pubkeyhash o h :
    decodes s [(OP_DUP, []); (OP_HASH160, []); (o, h); (OP_EQUALVERIFY, []); (OP_CHECKSIG, [])] -> len h = 20 ->
    form s TX_PUBKEYHASH [h]
| form_scripthash h : s = p2sh_script h -> len h = 20 -> form s TX_SCRIPTHASH [h]
| form_multisig m n om on ks :
    decodes s ((om, []) :: ks ++ [(on, []); (OP_CHECKMULTISIG, [])]) ->
    EncodeOP_N m = Some om -> EncodeOP_N n = Some on -> Forall (fun k => is_key (snd k)) ks ->
    form s TX_MULTISIG ([m] :: map snd ks ++ [[n]])
| form_null_data o d : decodes s [(OP_RETURN, []); (o, d)] -> len d <= 80 -> form s TX_NULL_DATA [].

(** For m-of-n, n keys are listed and 1 <= m <= n. *)
Definition standard (s : CScript) (t : txnouttype) (sols : list valtype) : Prop :=
  form s t sols /\ (t = TX_MULTISIG -> 1 <= front0 sols <= back0 sols /\ len sols = back0 sols + 2).

(** The first instruction tells the forms apart. *)
Definition starts (t : txnouttype) (o : Z) (v : valtype) : Prop :=
  match t with
  | TX_NONSTANDARD => False
  | TX_PUBKEY => is_key v
  | TX_PUBKEYHASH => v = [] /\ o = OP_DUP
  | TX_SCRIPTHASH => v = [] /\ o = OP_HASH160
  | TX_MULTISIG => v = [] /\ exists n, EncodeOP_N n = Some o
  | TX_NULL_DATA => v = [] /\ o = OP_RETURN
  end.

Lemma starts_unique t1 t2 o v : starts t1 o v -> starts t2 o v -> t1 = t2.
Proof.
  assert (Hk : ~ is_key []) by (unfold is_key; rewrite len_nil; lia).
  assert (Hs : forall n o, EncodeOP_N n = Some o -> o <= 96) by (intros n o' E; apply EncodeOP_N_iff in E as [Hn ->]; destruct (n =? 0); lia).
  destruct t1, t2; cbn [starts]; try done; intros H1 H2; exfalso; destruct_and?; subst; try done;
    repeat match goal with H : exists n, _ |- _ => destruct H as [? H]; apply Hs in H end; by vm_compute in H.
Qed.

Lemma p2pkh_ok h : digits 256 h -> len h = 20 -> script_ok (p2pkh_script h).
Proof.
  intros Hd Hl. apply script_ok_small; unfold p2pkh_script; [|rewrite !len_app, Hl; by vm_compute].
  apply Forall_app. split; [forall_list; by vm_compute|]. apply Forall_app. split; [done|forall_list; by vm_compute].
Qed.

Lemma p2sh_ok h : digits 256 h -> len h = 20 -> script_ok (p2sh_script h).
Proof.
  intros Hd Hl. apply script_ok_small; unfold p2sh_script; [|rewrite !len_app, Hl; by vm_compute].
  apply Forall_app. split; [forall_list; by vm_compute|]. apply Forall_app. split; [done|forall_list; by vm_compute].
Qed.

Lemma p2sh_decodes h : digits 256 h -> len h = 20 -> decodes (p2sh_script h) [(OP_HASH160, []); (20, h); (OP_EQUAL, [])].
Proof.
  intros Hd Hl. pose proof (p2sh_ok h Hd Hl) as Hok.
  unfold p2sh_script in *. cbn [app] in *. destruct (script_ok_tail _ _ Hok) as [_ Hok1].
  eapply decodes_cons; [by apply GetOp_code|]. rewrite <- Hl in Hok1 |- *. eapply decodes_cons; [apply GetOp_short; [lia|done]|].
  eapply decodes_cons; [|constructor]. done.
Qed.

Lemma form_starts s t sols : digits 256 s -> form s t sols -> exists o v l, decodes s ((o, v) :: l) /\ starts t o v.
Proof.
  intros Hs [o pk Hd Hk|o h Hd Hl|h -> Hl|m n om on ks Hd Em En Hk|o d Hd Hl]; do 3 eexists; (split; [try exact Hd|]); cbn [starts]; try done.
  - apply p2sh_decodes; [|done]. unfold p2sh_script in Hs. apply Forall_app in Hs as [_ Hs]. by apply Forall_app in Hs as [Hs _].
  - split; [done|by exists m].
Qed.

Lemma form_unique s t1 t2 s1 s2 : digits 256 s -> form s t1 s1 -> form s t2 s2 -> t1 = t2.
Proof.
  intros Hs H1 H2. destruct (form_starts s t1 s1 Hs H1) as (o1 & v1 & l1 & D1 & S1). destruct (form_starts s t2 s2 Hs H2) as (o2 & v2 & l2 & D2 & S2).
  pose proof (decodes_inj _ _ _ D1 D2) as E. injection E as <- <- _. by apply (starts_unique t1 t2 o1 v1).
Qed.

Lemma EncodeOP_N_inj n n' o : EncodeOP_N n = Some o -> EncodeOP_N n' = Some o -> n = n'.
Proof. rewrite !EncodeOP_N_iff. intros [H1 ->] [H2 E]. destruct (Z.eqb_spec n 0), (Z.eqb_spec n' 0); lia. Qed.

Lemma form_sols s t s1 s2 : form s t s1 -> form s t s2 -> s1 = s2.
Proof.
  intros H1 H2. destruct H1 as [o pk Hd Hk|o h Hd Hl|h E Hl|m n om on ks Hd Em En Hk|o d Hd Hl]; inversion H2; subst; try done;
    try (match goal with H : decodes s _ |- _ => pose proof (decodes_inj _ _ _ Hd H); by simplify_eq end).
  - match goal with H : p2sh_script _ = p2sh_script _ |- _ => unfold p2sh_script in H; cbn in H; injection H as H; apply app_inj_tail in H as [-> _] end. done.
  - match goal with H : decodes s _ |- _ => pose proof (decodes_inj _ _ _ Hd H) as E end. injection E as <- E.
    apply app_inj_2 in E as [<- E]; [|done]. injection E as <-. f_equal; [f_equal; by eapply EncodeOP_N_inj|].
    do 3 f_equal. by eapply EncodeOP_N_inj.
Qed.

Lemma template_form s t script2 sols : script_ok s -> (t, script2) ∈ mTemplates ->
  match_loop (length script2) s script2 [] = Some sols <-> form s t sols.
Proof.
  intros Hs Ht. unfold mTemplates in Ht. set_unfold in Ht. destruct Ht as [[= -> ->]|[[= -> ->]|[[= -> ->]|[[= -> ->]|[]]]]]; cbn [length].
  - rewrite match_pubkey. split; [intros (o & pk & Hd & Hk & ->); by econstructor|inversion 1; subst; by do 2 eexists].
  - rewrite match_pubkeyhash. split; [intros (o & pk & Hd & Hk & ->); by econstructor|inversion 1; subst; by do 2 eexists].
  - rewrite match_multisig by done. split; [intros (m & n & om & on & ks & ? & ? & ? & ? & ->); by econstructor|inversion 1; subst; by do 5 eexists].
  - rewrite match_null_data. split; [intros (o & pk & Hd & Hk & ->); by econstructor|inversion 1; subst; by do 2 eexists].
Qed.

Lemma p2sh_body h : len h = 20 -> take 20 (drop 2 (p2sh_script h)) = h.
Proof.
  intros Hl. unfold p2sh_script. cbn [app drop]. unfold len in Hl. replace 20%nat with (length h) by lia. apply take_app_length.
Qed.

(** [Solver] on a script that is none of the forms, or one of them. *)
Lemma scan_templates_spec s l : script_ok s -> l ⊆ mTemplates ->
  match scan_templates s l with
  | (true, t, sols) => standard s t sols
  | (false, TX_MULTISIG, sols) => form s TX_MULTISIG sols /\ ~ standard s TX_MULTISIG sols
  | (false, t, sols) => t = TX_NONSTANDARD /\ sols = [] /\ forall t' sols', t' ∈ map fst l -> ~ form s t' sols'
  end.
Proof.
  intros Hs. induction l as [|[t script2] l IH]; intros Hl; cbn [scan_templates].
  { split_and!; [done..|]. intros t' sols' Ht. by apply not_elem_of_nil in Ht. }
  pose proof (fun sols => template_form s t script2 sols Hs (Hl _ ltac:(by left))) as Hf.
  destruct (match_loop (length script2) s script2 []) as [sols|].
  - assert (form s t sols) as Hform by (by apply Hf). destruct (decide (t = TX_MULTISIG)) as [->|Hne]; [|by split].
    destruct (Z.ltb_spec (front0 sols) 1); cbn [orb]; [split; [done|intros [_ Hm]; specialize (Hm eq_refl); lia]|].
    destruct (Z.ltb_spec (back0 sols) 1); cbn [orb]; [split; [done|intros [_ Hm]; specialize (Hm eq_refl); lia]|].
    destruct (Z.ltb_spec (back0 sols) (front0 sols)); cbn [orb]; [split; [done|intros [_ Hm]; specialize (Hm eq_refl); lia]|].
    destruct (Z.eqb_spec (len sols - 2) (back0 sols)); cbn [negb]; [|split; [done|intros [_ Hm]; specialize (Hm eq_refl); lia]].
    split; [done|]. intros _. lia.
  - specialize (IH ltac:(set_solver)). destruct (scan_templates s l) as [[[] t0] sols0]; [done|].
    destruct t0; try done; destruct IH as (Hn & -> & IH); try done. split_and!; [done..|]. intros t' sols' Ht Hform.
    cbn [map] in Ht. apply elem_of_cons in Ht as [->|Ht]; [by apply Hf in Hform|by apply (IH t' sols')].
Qed.

Lemma Solver_spec s t sols : script_ok s ->
  (Solver s [] = (true, t, sols) <-> standard s t sols) /\
  (Solver s [] = (false, t, sols) ->
     (forall t' sols', ~ standard s t' sols') /\ (t = TX_NONSTANDARD /\ sols = [] \/ form s TX_MULTISIG sols /\ t = TX_MULTISIG)).
Proof.
  intros Hs. pose proof (scan_templates_spec s mTemplates Hs ltac:(done)) as Hscan. unfold Solver.
  destruct (IsPayToScriptHash s) eqn:E.
  - destruct (IsPayToScriptHash_form s (proj1 Hs) E) as (h & -> & Hd & Hl). rewrite p2sh_body by done. cbn [app].
    assert (Hst : standard (p2sh_script h) TX_SCRIPTHASH [h]) by (split; [by econstructor|done]).
    split; [|done]. split; [by intros [= <- <-]|]. intros [Hf _].
    pose proof (form_unique _ _ _ _ _ (proj1 Hs) (proj1 Hst) Hf) as <-. by rewrite (form_sols _ _ _ _ (proj1 Hst) Hf).
  - assert (Hno : forall sols', ~ form s TX_SCRIPTHASH sols').
    { intros sols' Hf. inversion Hf as [| |h E' Hl'| |]; subst. by rewrite p2sh_script_is in E. }
    destruct (scan_templates s mTemplates) as [[[] t0] sols0].
    + split; [|done]. split; [by intros [= -> ->]|]. intros [Hf Hm]. pose proof (form_unique _ _ _ _ _ (proj1 Hs) (proj1 Hscan) Hf) as ->.
      f_equal. exact (form_sols s t sols0 sols (proj1 Hscan) Hf).
    + assert (Hst : forall t' sols', ~ standard s t' sols').
      { intros t' sols' Hst. destruct t0; try (by destruct Hscan).
        - destruct Hscan as (_ & _ & Hn). destruct Hst as [Hst _].
          destruct t'; [by inversion Hst|..]; try (by apply (Hno sols'));
            (match type of Hst with form _ ?t _ => apply (Hn t sols') end; [cbn; set_solver|done]).
        - destruct Hscan as [Hf Hn]. pose proof (form_unique _ _ _ _ _ (proj1 Hs) Hf (proj1 Hst)) as <-.
          apply Hn. by rewrite (form_sols s TX_MULTISIG sols0 sols' Hf (proj1 Hst)). }
      split; [split; [done|intros Hx; by destruct (Hst t sols)]|]. intros [= <- <-]. split; [done|].
      destruct t0; try (by destruct Hscan); [left; by destruct Hscan as (_ & -> & _)|right; by destruct Hscan].
Qed.

(** ** Scripts that are built *)

Lemma p2pkh_decodes h : digits 256 h -> len h = 20 ->
  decodes (p2pkh_script h) [(OP_DUP, []); (OP_HASH160, []); (20, h); (OP_EQUALVERIFY, []); (OP_CHECKSIG, [])].
Proof.
  intros Hd Hl. pose proof (p2pkh_ok h Hd Hl) as Hok.
  unfold p2pkh_script in *. cbn [app] in *. destruct (script_ok_tail _ _ Hok) as [_ Hok1]. destruct (script_ok_tail _ _ Hok1) as [_ Hok2].
  eapply decodes_cons; [by apply GetOp_code|]. eapply decodes_cons; [by apply GetOp_code|]. rewrite <- Hl in Hok2 |- *.
  eapply decodes_cons; [apply GetOp_short; [lia|done]|]. eapply decodes_cons; [reflexivity|]. eapply decodes_cons; [reflexivity|constructor].
Qed.

Lemma uint160_bytes id : wf 5 id -> digits 256 (bu_bytes id) /\ len (bu_bytes id) = 20 /\ bu_of_vch 5 (bu_bytes id) = Some id.
Proof.
  intros Hid. assert (Hl : length (bu_bytes id) = 20%nat) by (rewrite length_bu_bytes, (proj1 Hid); done).
  split_and!; [by apply bu_bytes_ok|unfold len; lia|]. unfold bu_of_vch. rewrite Hl. cbn [Nat.eqb Nat.mul]. f_equal. by apply (words_of_bu_bytes 5).
Qed.

Lemma SetDestination_key id : wf 5 id -> SetDestination (DestKeyID id) = p2pkh_script (bu_bytes id).
Proof.
  intros Hid. destruct (uint160_bytes id Hid) as (_ & Hl & _). unfold SetDestination, push_uint, p2pkh_script. rewrite Hl.
  change (u8 20) with 20. cbn [app]. by rewrite <- ?app_assoc.
Qed.

Lemma SetDestination_script id : wf 5 id -> SetDestination (DestScriptID id) = p2sh_script (bu_bytes id).
Proof.
  intros Hid. destruct (uint160_bytes id Hid) as (_ & Hl & _). unfold SetDestination, push_uint, p2sh_script. rewrite Hl.
  change (u8 20) with 20. cbn [app]. by rewrite <- ?app_assoc.
Qed.

Lemma Solver_p2pkh h : digits 256 h -> len h = 20 -> Solver (p2pkh_script h) [] = (true, TX_PUBKEYHASH, [h]).
Proof.
  intros Hd Hl. apply (proj1 (Solver_spec _ _ _ (p2pkh_ok h Hd Hl))). split; [|done]. econstructor; [by apply p2pkh_decodes|done].
Qed.

Lemma Solver_p2sh h : digits 256 h -> len h = 20 -> Solver (p2sh_script h) [] = (true, TX_SCRIPTHASH, [h]).
Proof. intros Hd Hl. apply (proj1 (Solver_spec _ _ _ (p2sh_ok h Hd Hl))). split; [|done]. by econstructor. Qed.

(** The keys of a multisignature script. *)
Lemma push_keys_app keys s : fold_left push_pubkey keys s = s ++ concat (map (fun k => push_vch [] (vchPubKey k)) keys).
Proof.
  revert s. induction keys as [|k keys IH]; intros s; cbn; [by rewrite app_nil_r|]. unfold push_pubkey at 2.
  by rewrite IH, push_vch_app, <- app_assoc.
Qed.

Lemma push_keys_decode keys t l : Forall (fun k => digits 256 (vchPubKey k) /\ len (vchPubKey k) < 2 ^ 32) keys ->
  script_ok (concat (map (fun k => push_vch [] (vchPubKey k)) keys) ++ t) -> decodes t l ->
  exists ks, decodes (concat (map (fun k => push_vch [] (vchPubKey k)) keys) ++ t) (ks ++ l) /\ map snd ks = map vchPubKey keys.
Proof.
  intros Hk. induction Hk as [|k keys [Hd Hl] _ IH]; intros Hok Ht; cbn [map concat app]; [by exists []|].
  cbn [map concat] in Hok. rewrite <- app_assoc in Hok |- *.
  destruct (push_vch_GetOp (vchPubKey k) _ Hd Hl Hok) as (o & _ & E).
  destruct (IH (proj2 (script_ok_app _ _ Hok)) Ht) as (ks & Hks & Hm).
  exists ((o, vchPubKey k) :: ks). split; [by eapply decodes_cons|]. cbn. by f_equal.
Qed.

Lemma push_keys_ok keys : Forall (fun k => digits 256 (vchPubKey k) /\ pk_IsValid k = true) keys ->
  digits 256 (concat (map (fun k => push_vch [] (vchPubKey k)) keys)) /\
  len (concat (map (fun k => push_vch [] (vchPubKey k)) keys)) <= 66 * len keys.
Proof.
  induction 1 as [|k keys [Hd Hv] _ [IH1 IH2]]; cbn [map concat]; [split; [constructor|done]|].
  assert (len (vchPubKey k) = 33 \/ len (vchPubKey k) = 65) as Hl by (unfold pk_IsValid in Hv; apply orb_true_iff in Hv as [Hv|Hv]; apply Z.eqb_eq in Hv; lia).
  assert (Hp : push_vch [] (vchPubKey k) = len (vchPubKey k) :: vchPubKey k).
  { unfold push_vch, OP_PUSHDATA1. destruct (Z.ltb_spec (len (vchPubKey k)) 76); [|lia]. rewrite wrap_id by (unfold fits; lia). done. }
  rewrite Hp. split; [apply Forall_app; split; [constructor; [lia|done]|done]|]. rewrite len_app, !len_cons. lia.
Qed.

Lemma SetMultisig_standard m keys : 1 <= m <= len keys -> len keys <= 16 ->
  Forall (fun k => digits 256 (vchPubKey k) /\ pk_IsValid k = true) keys ->
  exists s, SetMultisig m keys = Some s /\ script_ok s /\ standard s TX_MULTISIG ([m] :: map vchPubKey keys ++ [[len keys]]).
Proof.
  intros Hm Hn Hk. unfold SetMultisig.
  assert (Hsmall : forall i, 1 <= i <= 16 -> EncodeOP_N i = Some (80 + i)).
  { intros i Hi. apply EncodeOP_N_iff. destruct (Z.eqb_spec i 0); lia. }
  rewrite !Hsmall by lia. cbn. rewrite push_keys_app. destruct (push_keys_ok keys Hk) as [Hd Hl].
  set (ps := concat _) in *. eexists. split; [done|].
  assert (Hok : script_ok (([80 + m] ++ ps) ++ [80 + len keys; OP_CHECKMULTISIG])).
  { apply script_ok_small.
    - apply Forall_app; split; [apply Forall_app; split; [forall_list|done]|]. forall_list. by vm_compute.
    - rewrite !len_app, !len_cons, len_nil. lia. }
  split; [done|]. rewrite <- app_assoc in Hok |- *. cbn [app] in Hok |- *. destruct (script_ok_tail _ _ Hok) as [_ Hok1].
  destruct (push_keys_decode keys [80 + len keys; OP_CHECKMULTISIG] [(80 + len keys, []); (OP_CHECKMULTISIG, [])]) as (ks & Hks & Hmap);
    [|exact Hok1| |].
  { eapply Forall_impl; [exact Hk|]. intros k [Hd' Hv]. split; [done|]. unfold pk_IsValid in Hv. apply orb_true_iff in Hv as [Hv|Hv]; apply Z.eqb_eq in Hv; lia. }
  { eapply decodes_cons; [apply GetOp_code; [|unfold OP_PUSHDATA4; lia]|].
    - apply script_ok_small; [forall_list; by vm_compute|by vm_compute].
    - eapply decodes_cons; [reflexivity|constructor]. }
  rewrite <- Hmap. split.
  - eapply (form_multisig _ m (len keys) (80 + m) (80 + len keys) ks); [|by apply Hsmall; lia|by apply Hsmall; lia|].
    + eapply decodes_cons; [apply GetOp_code; [done|unfold OP_PUSHDATA4; lia]|exact Hks].
    + apply (Forall_map snd is_key). rewrite Hmap. apply Forall_map. eapply Forall_impl; [exact Hk|]. intros k [_ Hv]. cbn.
      unfold is_key, pk_IsValid in *. apply orb_true_iff in Hv as [Hv|Hv]; apply Z.eqb_eq in Hv; lia.
  - intros _. unfold front0, back0. cbn [hd nth]. rewrite app_comm_cons, List.last_last. cbn [nth].
    split; [lia|]. rewrite len_app, len_cons, len_cons, len_nil. rewrite Hmap. unfold len. rewrite length_map. lia.
Qed.

(** What a destination stands for. *)
Definition dest_wf (d : CTxDestination) : Prop :=
  match d with DestKeyID id | DestScriptID id => wf 5 id | _ => False end.

Lemma ExtractDestination_standard `{Crypto} s t sols : script_ok s -> standard s t sols ->
  ExtractDestination s =
  let v0 := hd [] sols in
  match t with
  | TX_PUBKEY => Some (Some (DestKeyID (GetID (mkPubKey v0))))
  | TX_PUBKEYHASH => Some (Some (DestKeyID (words_of_bytes v0)))
  | TX_SCRIPTHASH => Some (Some (DestScriptID (words_of_bytes v0)))
  | _ => Some None
  end.
Proof.
  intros Hs Hst. unfold ExtractDestination. rewrite (proj2 (proj1 (Solver_spec s t sols Hs)) Hst). cbn [negb].
  assert (Hvch : forall h, len h = 20 -> bu_of_vch 5 h = Some (words_of_bytes h)).
  { intros h Hl. unfold bu_of_vch, len in *. replace (length h) with 20%nat by lia. done. }
  destruct Hst as [[o pk Hd Hk|o h Hd Hl|h E Hl|m n om on ks Hd Em En Hk|o d Hd Hl] _]; cbn [hd]; try done; by rewrite Hvch.
Qed.

Lemma destination_of_standard `{Crypto} s t sols : script_ok s -> standard s t sols ->
  exists r, (let v0 := hd [] sols in
    match t with
    | TX_PUBKEY => Some (Some (DestKeyID (GetID (mkPubKey v0))))
    | TX_PUBKEYHASH => Some (Some (DestKeyID (words_of_bytes v0)))
    | TX_SCRIPTHASH => Some (Some (DestScriptID (words_of_bytes v0)))
    | _ => Some None
    end) = Some r /\
  match r with
  | Some (DestKeyID id) => exists v, standard s TX_PUBKEY [v] /\ GetID (mkPubKey v) = id \/
                                     standard s TX_PUBKEYHASH [v] /\ words_of_bytes v = id
  | Some (DestScriptID id) => s = SetDestination (DestScriptID id)
  | Some _ => False
  | None => forall v, ~ standard s TX_PUBKEY [v] /\ ~ standard s TX_PUBKEYHASH [v] /\ ~ standard s TX_SCRIPTHASH [v]
  end.
Proof.
  intros Hs Hst. pose proof Hst as [Hf _].
  assert (Hn : t <> TX_PUBKEY -> t <> TX_PUBKEYHASH -> t <> TX_SCRIPTHASH ->
    forall v, ~ standard s TX_PUBKEY [v] /\ ~ standard s TX_PUBKEYHASH [v] /\ ~ standard s TX_SCRIPTHASH [v]).
  { intros H1 H2 H3 v. split_and!; intros [Hf' _]; by pose proof (form_unique _ _ _ _ _ (proj1 Hs) Hf Hf'). }
  destruct Hf as [o pk Hd Hk|o h Hd Hl|h E Hl|m n om on ks Hd Em En Hk|o d Hd Hl]; cbn [hd]; eexists; (split; [reflexivity|]); cbn beta iota; try (by apply Hn).
  - exists pk. by left.
  - exists h. by right.
  - assert (Hh : digits 256 h) by (destruct Hs as [Hs _]; rewrite E in Hs; unfold p2sh_script in Hs; apply Forall_app in Hs as [_ Hs]; by apply Forall_app in Hs as [Hs _]).
    assert (Hl' : length h = 20%nat) by (unfold len in Hl; lia).
    destruct (words_of_bytes_spec 5 h Hh Hl') as [Hw _]. rewrite SetDestination_script by done.
    rewrite E. f_equal. symmetry. by apply (bu_bytes_words 5).
Qed.

(** ** The redemption scripts that [IsMine] follows *)

Section follow.
Context `{Crypto} `{EC}.

(** The identifiers looked up, in order. *)
Fixpoint visits (fuel : nat) (ks : CBasicKeyStore) (s : CScript) : list CScriptID :=
  match fuel with
  | O => []
  | S fuel =>
      if IsPayToScriptHash s then
        match bu_of_vch 5 (take 20 (drop 2 s)) with
        | Some id => match GetCScript ks id with Some r => id :: visits fuel ks r | None => [] end
        | None => []
        end
      else []
  end.

Definition scripts_in_memory (ks : CBasicKeyStore) : Prop := forall id r, GetCScript ks id = Some r -> script_ok r.

Lemma IsMine_None fuel ks s : scripts_in_memory ks -> script_ok s -> IsMine fuel ks s = None -> length (visits fuel ks s) = fuel.
Proof.
  intros Hks. revert s. induction fuel as [|fuel IH]; intros s Hs E; [done|]. cbn [IsMine visits] in *.
  destruct (Solver s []) as [[[] t] sols] eqn:ES; cbn [negb] in E; [|done].
  destruct (proj1 (proj1 (Solver_spec s t sols Hs)) ES) as [Hf _].
  assert (Hvch : forall h, len h = 20 -> bu_of_vch 5 h = Some (words_of_bytes h)).
  { intros h Hl. unfold bu_of_vch, len in *. replace (length h) with 20%nat by lia. done. }
  destruct Hf as [o pk Hd Hk|o h Hd Hl|h Eh Hl|m n om on ks' Hd Em En Hk|o d Hd Hl]; cbn [hd] in E; try done; rewrite Hvch in E by done; cbn in E; [done|].
  subst s. rewrite p2sh_script_is, p2sh_body, Hvch by done. cbn [GetCScript basic_store].
  destruct (basic_GetCScript ks (words_of_bytes h)) as [r|] eqn:Er; [|done]. cbn [length]. f_equal. apply IH; [by apply (Hks (words_of_bytes h))|done].
Qed.

Lemma visits_follow fuel ks s l1 id l2 : visits fuel ks s = l1 ++ id :: l2 ->
  exists r n, GetCScript ks id = Some r /\ l2 = visits n ks r.
Proof.
  revert s l1. induction fuel as [|fuel IH]; intros s l1 E; cbn [visits] in E; [by destruct l1|].
  destruct (IsPayToScriptHash s); [|by destruct l1]. destruct (bu_of_vch 5 _) as [i|]; [|by destruct l1].
  destruct (GetCScript ks i) as [r|] eqn:Er; [|by destruct l1]. destruct l1 as [|x l1]; cbn [app] in E; injection E as <- E.
  - exists r, fuel. by split.
  - by apply (IH r l1).
Qed.

Lemma visits_stored fuel ks s id : id ∈ visits fuel ks s -> id ∈ dom (mapScripts ks).
Proof.
  intros Hin. apply list_elem_of_split in Hin as (l1 & l2 & E). destruct (visits_follow _ _ _ _ _ _ E) as (r & _ & Er & _).
  apply elem_of_dom. by exists r.
Qed.

Lemma not_NoDup_split {A} `{EqDecision A} (l : list A) : ~ NoDup l -> exists l1 x l2 l3, l = l1 ++ x :: l2 ++ x :: l3.
Proof.
  induction l as [|y l IH]; intros Hn; [destruct Hn; constructor|].
  destruct (decide (y ∈ l)) as [Hy|Hy].
  - apply list_elem_of_split in Hy as (l2 & l3 & ->). by exists [], y, l2, l3.
  - destruct IH as (l1 & x & l2 & l3 & ->); [intros Hd; apply Hn; by constructor|]. by exists (y :: l1), x, l2, l3.
Qed.

Lemma NoDup_dom_length (ks : CBasicKeyStore) l : NoDup l -> (forall id, id ∈ l -> id ∈ dom (mapScripts ks)) ->
  (length l <= size (mapScripts ks))%nat.
Proof.
  intros Hnd Hin. rewrite <- size_dom, <- (size_list_to_set (C := gset CScriptID) l) by done. apply subseteq_size.
  intros id Hid. apply elem_of_list_to_set in Hid. by apply Hin.
Qed.
End follow.

(** ** Main theorems *)

(** [Solver] recognises exactly the standard forms: it succeeds with a type and
    solutions exactly when the decoded script has that form; otherwise it gives
    no solution, or (for a multisignature script whose numbers do not fit) fails
    with that type. *)
Theorem Solver_recognises_standard s t sols : script_ok s ->
  (Solver s [] = (true, t, sols) <-> standard s t sols) /\
  (Solver s [] = (false, t, sols) ->
     (forall t' sols', ~ standard s t' sols') /\ (t = TX_NONSTANDARD /\ sols = [] \/ form s TX_MULTISIG sols /\ t = TX_MULTISIG)).
Proof. apply Solver_spec. Qed.

Lemma Solver_recognises_standard_witness :
  Solver [OP_1; 33; 2; 1; 1; 1; 1; 1; 1; 1; 1; 1; 1; 1; 1; 1; 1; 1; 1; 1; 1; 1; 1; 1; 1; 1; 1; 1; 1; 1; 1; 1; 1; 1; 1; OP_2; OP_CHECKMULTISIG] [] =
  (false, TX_MULTISIG, [[1]; 2 :: replicate 32 1; [2]]) /\
  standard (p2sh_script (replicate 20 7)) TX_SCRIPTHASH [replicate 20 7].
Proof.
  split; [reflexivity|]. apply (proj1 (Solver_recognises_standard (p2sh_script (replicate 20 7)) TX_SCRIPTHASH [replicate 20 7]
    (p2sh_ok (replicate 20 7) ltac:(cbn; forall_list) ltac:(reflexivity)))). reflexivity.
Defined.

(** Destinations.  The script built for a key or script identifier is recognised
    as paying to it; [ExtractDestination] never throws, and when it names a
    destination the script is a form that pays to it; the m-of-n script built
    for valid public keys is standard and its destinations are those keys. *)
Theorem destination_roundtrip `{Crypto} :
  (forall d, dest_wf d -> ExtractDestination (SetDestination d) = Some (Some d)) /\
  (forall s, script_ok s -> exists r, ExtractDestination s = Some r /\
     match r with
     | Some (DestKeyID id) => exists v, standard s TX_PUBKEY [v] /\ GetID (mkPubKey v) = id \/
                                        standard s TX_PUBKEYHASH [v] /\ words_of_bytes v = id
     | Some (DestScriptID id) => s = SetDestination (DestScriptID id)
     | Some _ => False
     | None => forall v, ~ standard s TX_PUBKEY [v] /\ ~ standard s TX_PUBKEYHASH [v] /\ ~ standard s TX_SCRIPTHASH [v]
     end) /\
  (forall m keys, 1 <= m <= len keys -> len keys <= 16 ->
     Forall (fun k => digits 256 (vchPubKey k) /\ pk_IsValid k = true) keys ->
     exists s, SetMultisig m keys = Some s /\
       ExtractDestinations s = Some (true, TX_MULTISIG, map (fun k => DestKeyID (GetID k)) keys, Some m)).
Proof.
  split_and!.
  - intros [|id|id|a] Hd; try done.
    + destruct (uint160_bytes id Hd) as (Hb & Hl & Ev). rewrite SetDestination_key by done. unfold ExtractDestination.
      rewrite Solver_p2pkh by done. cbn [negb hd]. by rewrite Ev.
    + destruct (uint160_bytes id Hd) as (Hb & Hl & Ev). rewrite SetDestination_script by done. unfold ExtractDestination.
      rewrite Solver_p2sh by done. cbn [negb hd]. by rewrite Ev.
  - intros s Hs. destruct (Solver s []) as [[[] t] sols] eqn:E.
    + assert (Hst : standard s t sols) by (by apply (Solver_spec s t sols Hs)). rewrite (ExtractDestination_standard s t sols) by done.
      by apply destination_of_standard.
    + exists None. split; [unfold ExtractDestination; by rewrite E|]. intros v.
      destruct (proj2 (Solver_spec s t sols Hs) E) as [Hn _]. split_and!; apply Hn.
  - intros m keys Hm Hn Hk. destruct (SetMultisig_standard m keys Hm Hn Hk) as (s & Es & Hok & Hst). exists s. split; [done|].
    unfold ExtractDestinations. rewrite (proj2 (proj1 (Solver_spec _ _ _ Hok)) Hst). cbn [negb tail]. rewrite removelast_last, map_map. done.
Qed.

Lemma destination_roundtrip_witness :
  ExtractDestination (H := Crypto_toy) (SetDestination (DestKeyID [1; 2; 3; 4; 5])) = Some (Some (DestKeyID [1; 2; 3; 4; 5])).
Proof. apply (proj1 (destination_roundtrip (H := Crypto_toy))). split; [done|forall_list]. Defined.

(** [IsMine] returns.  Looking at one script more than the store holds is enough
    to reach an answer; the only exception is a store in which some redemption
    script leads, through pay-to-script-hash scripts, back to its own hash. *)
Theorem IsMine_terminates `{Crypto} `{EC} ks s :
  scripts_in_memory ks -> script_ok s ->
  is_Some (IsMine (S (size (mapScripts ks))) ks s) \/
  exists id r n, GetCScript ks id = Some r /\ id ∈ visits n ks r.
Proof.
  intros Hks Hs. destruct (IsMine _ ks s) eqn:E; [left; by eexists|right].
  pose proof (IsMine_None _ ks s Hks Hs E) as Hl. set (l := visits _ ks s) in *.
  destruct (decide (NoDup l)) as [Hnd|Hnd].
  - pose proof (NoDup_dom_length ks l Hnd (visits_stored _ ks s)). lia.
  - destruct (not_NoDup_split l Hnd) as (l1 & id & l2 & l3 & El). destruct (visits_follow _ _ _ _ _ _ El) as (r & n & Er & Ev).
    exists id, r, n. split; [done|]. rewrite <- Ev. set_solver.
Qed.

Lemma IsMine_terminates_witness :
  is_Some (IsMine (H := Crypto_toy) (CKeyStore0 := @basic_store Crypto_toy EC_toy) 1 (mkBasic ∅ ∅) (p2sh_script (replicate 20 7))).
Proof.
  destruct (@IsMine_terminates Crypto_toy EC_toy (mkBasic ∅ ∅) (p2sh_script (replicate 20 7))) as [Hs|(id & r & n & E & _)].
  - intros id r E. discriminate E.
  - apply p2sh_ok; [cbn; forall_list|reflexivity].
  - exact Hs.
  - discriminate E.
Defined.
