(* ===== verification/Sign.v ===== *)
(** * script.cpp: signing and combining signatures

    [SignSignature] solves an output script with the keys of a store, and tests
    what it wrote with [VerifyScript]; [CombineSignatures] merges two partly
    signed scripts.  Signing draws nonces: the state of the random source is
    threaded.  [None] is an exception or a failed assertion. *)
From Stdlib Require Import ZArith Lia Bool.
From stdpp Require Import prelude gmap.
From S2P Require Import Prelude Uint256 DataStream Serialize Crypto Bignum Opcodes Script Tx Keys KeyStore SigHash Interp Standard.

(** [txTo.vin[nIn].scriptSig = s] *)
Definition set_scriptSig (txTo : CTransaction) (nIn : Z) (s : CScript) : CTransaction :=
  mkTx (tx_nVersion txTo) (tx_nTime txTo)
    (alter (fun i => mkTxIn (prevout i) s (nSequence i)) (Z.to_nat nIn) (vin txTo))
    (vout txTo) (nLockTime txTo) (data txTo) (nDoS txTo).

Section signing.
Context `{BN} `{Crypto} `{EC} {K : Type} `{!CKeyStore K}.

(** The value returned, [scriptSigRet] and the random source. *)
Definition Sign1 (r : EC_RAND) (address : CKeyID) (keystore : K) (hash : base_uint) (nHashType : Z) (scriptSigRet : CScript)
    : option (bool * CScript * EC_RAND) :=
  key ← GetKey keystore address key_Reset;
  match key with
  | None => Some (false, scriptSigRet, r)
  | Some key =>
      let '(vchSig, r) := key_Sign r key hash in
      match vchSig with
      | None => Some (false, scriptSigRet, r)
      | Some vchSig => Some (true, push_vch scriptSigRet (vchSig ++ [u8 nHashType]), r)
      end
  end.

(** The loop over the keys between the two numbers. *)
Fixpoint SignN_loop (r : EC_RAND) (keys : list valtype) (nSigned nRequired : Z) (keystore : K) (hash : base_uint)
    (nHashType : Z) (scriptSigRet : CScript) : option (Z * CScript * EC_RAND) :=
  match keys with
  | [] => Some (nSigned, scriptSigRet, r)
  | pubkey :: keys =>
      if nSigned <? nRequired then
        '(ok, scriptSigRet, r) ← Sign1 r (GetID (mkPubKey pubkey)) keystore hash nHashType scriptSigRet;
        SignN_loop r keys (if ok : bool then nSigned + 1 else nSigned) nRequired keystore hash nHashType scriptSigRet
      else Some (nSigned, scriptSigRet, r)
  end.

Definition SignN (r : EC_RAND) (multisigdata : list valtype) (keystore : K) (hash : base_uint) (nHashType : Z)
    (scriptSigRet : CScript) : option (bool * CScript * EC_RAND) :=
  let nRequired := front0 multisigdata in
  '(nSigned, scriptSigRet, r) ←
    SignN_loop r (removelast (tail multisigdata)) 0 nRequired keystore hash nHashType scriptSigRet;
  Some (nSigned =? nRequired, scriptSigRet, r).

(** [Solver(keystore, ...)]: also the type. *)
Definition Solver_sign (r : EC_RAND) (keystore : K) (scriptPubKey : CScript) (hash : base_uint) (nHashType : Z)
    : option (bool * CScript * txnouttype * EC_RAND) :=
  let '(ok, whichType, vSolutions) := Solver scriptPubKey [] in
  if negb ok then Some (false, [], whichType, r)
  else
    let v0 := hd [] vSolutions in
    match whichType with
    | TX_NONSTANDARD | TX_NULL_DATA => Some (false, [], whichType, r)
    | TX_PUBKEY =>
        '(ok, s, r) ← Sign1 r (GetID (mkPubKey v0)) keystore hash nHashType [];
        Some (ok, s, whichType, r)
    | TX_PUBKEYHASH =>
        keyID ← bu_of_vch 5 v0;
        '(ok, s, r) ← Sign1 r keyID keystore hash nHashType [];
        if negb ok then Some (false, s, whichType, r)
        else
          pk ← GetPubKey keystore keyID;
          Some (true, push_pubkey s (default (mkPubKey []) pk), whichType, r)
    | TX_SCRIPTHASH =>
        id ← bu_of_vch 5 v0;
        match GetCScript keystore id with
        | None => Some (false, [], whichType, r)
        | Some s => Some (true, s, whichType, r)
        end
    | TX_MULTISIG =>
        '(ok, s, r) ← SignN r vSolutions keystore hash nHashType [OP_0];
        Some (ok, s, whichType, r)
    end.

(** The signature cache and its parameters. *)
Context (GetRandHash : nat -> base_uint) (nMaxCacheSize : Z).

Definition test_solution (txTo : CTransaction) (nIn : Z) (fromPubKey : CScript) (c : CSignatureCache)
    : option (bool * CSignatureCache) :=
  txin ← vin txTo !! Z.to_nat nIn;
  VerifyScript (fun c vchSig vchPubKey code => CheckSig GetRandHash nMaxCacheSize c vchSig vchPubKey code txTo nIn 0)
    (scriptSig txin) fromPubKey true c.

(** The value returned, [txTo], the cache and the random source. *)
Definition SignSignature (r : EC_RAND) (keystore : K) (fromPubKey : CScript) (txTo : CTransaction) (nIn nHashType : Z)
    (c : CSignatureCache) : option (bool * CTransaction * CSignatureCache * EC_RAND) :=
  if negb (nIn <? len (vin txTo)) then None
  else
    let hash := SignatureHash fromPubKey txTo nIn nHashType in
    '(ok, s, whichType, r) ← Solver_sign r keystore fromPubKey hash nHashType;
    let txTo := set_scriptSig txTo nIn s in
    if negb ok then Some (false, txTo, c, r)
    else
      '(fSolved, txTo, r) ←
        (if decide (whichType = TX_SCRIPTHASH) then
           let subscript := s in
           let hash2 := SignatureHash subscript txTo nIn nHashType in
           '(ok, s, subType, r) ← Solver_sign r keystore subscript hash2 nHashType;
           Some (ok && bool_decide (subType <> TX_SCRIPTHASH), set_scriptSig txTo nIn (push_vch s subscript), r)
         else Some (true, txTo, r));
      if negb fSolved then Some (false, txTo, c, r)
      else '(ok, c) ← test_solution txTo nIn fromPubKey c; Some (ok, txTo, c, r).

Definition SignSignature_from (r : EC_RAND) (keystore : K) (txFrom txTo : CTransaction) (nIn nHashType : Z)
    (c : CSignatureCache) : option (bool * CTransaction * CSignatureCache * EC_RAND) :=
  txin ← vin txTo !! Z.to_nat nIn;
  txout ← vout txFrom !! Z.to_nat (op_n (prevout txin));
  if negb (bu_eq (op_hash (prevout txin)) (tx_GetHash txFrom)) then None
  else SignSignature r keystore (scriptPubKey txout) txTo nIn nHashType c.
End signing.

(** ** Combining *)

Definition PushAll (values : list valtype) : CScript := fold_left push_vch values [].

Section combining.
(** [CheckSig] on the transaction and input at hand. *)
Context {S : Type} (check : S -> valtype -> valtype -> CScript -> bool * S).

(** [allsigs]: a set in lexicographic order. *)
Definition collect (sigs1 sigs2 : list valtype) : list valtype :=
  fold_left (fun m v => match v with [] => m | _ => set_insert lex_lt v m end) (sigs1 ++ sigs2) [].

(** The loop over the keys for one signature. *)
Fixpoint assign_sig (sig : valtype) (scriptPubKey : CScript) (keys : list valtype) (sigs : gmap valtype valtype) (c : S)
    : gmap valtype valtype * S :=
  match keys with
  | [] => (sigs, c)
  | pubkey :: keys =>
      match sigs !! pubkey with
      | Some _ => assign_sig sig scriptPubKey keys sigs c
      | None =>
          let '(ok, c) := check c sig pubkey scriptPubKey in
          if ok then (<[pubkey := sig]> sigs, c) else assign_sig sig scriptPubKey keys sigs c
      end
  end.

Fixpoint assign_sigs (allsigs : list valtype) (scriptPubKey : CScript) (keys : list valtype) (sigs : gmap valtype valtype) (c : S)
    : gmap valtype valtype * S :=
  match allsigs with
  | [] => (sigs, c)
  | sig :: allsigs =>
      let '(sigs, c) := assign_sig sig scriptPubKey keys sigs c in
      assign_sigs allsigs scriptPubKey keys sigs c
  end.

(** The loop that builds the merged script, and [nSigsHave]. *)
Fixpoint merge_sigs (keys : list valtype) (sigs : gmap valtype valtype) (nSigsHave nSigsRequired : Z) (result : CScript) : Z * CScript :=
  match keys with
  | [] => (nSigsHave, result)
  | pubkey :: keys =>
      if nSigsHave <? nSigsRequired then
        match sigs !! pubkey with
        | Some sig => merge_sigs keys sigs (nSigsHave + 1) nSigsRequired (push_vch result sig)
        | None => merge_sigs keys sigs nSigsHave nSigsRequired result
        end
      else (nSigsHave, result)
  end.

Definition CombineMultisig (scriptPubKey : CScript) (vSolutions sigs1 sigs2 : list valtype) (c : S) : option (CScript * S) :=
  let allsigs := collect sigs1 sigs2 in
  if negb (1 <? len vSolutions) then None
  else
    let nSigsRequired := front0 vSolutions in
    let keys := removelast (tail vSolutions) in
    let '(sigs, c) := assign_sigs allsigs scriptPubKey keys ∅ c in
    let '(nSigsHave, result) := merge_sigs keys sigs 0 nSigsRequired [OP_0] in
    Some (result ++ replicate (Z.to_nat (nSigsRequired - nSigsHave)) OP_0, c).

(** [sigs1] and [sigs2] with the top of the stack last.  The recursion takes a
    value off [sigs1]. *)
Fixpoint CombineSignatures_typed (fuel : nat) (scriptPubKey : CScript) (txType : txnouttype) (vSolutions sigs1 sigs2 : list valtype) (c : S)
    : option (CScript * S) :=
  let back_empty l := match last l with None | Some [] => true | Some _ => false end in
  match txType with
  | TX_NONSTANDARD | TX_NULL_DATA =>
      if len sigs2 <=? len sigs1 then Some (PushAll sigs1, c) else Some (PushAll sigs2, c)
  | TX_PUBKEY | TX_PUBKEYHASH =>
      match sigs1 with [] | [] :: _ => Some (PushAll sigs2, c) | _ => Some (PushAll sigs1, c) end
  | TX_SCRIPTHASH =>
      if back_empty sigs1 then Some (PushAll sigs2, c)
      else if back_empty sigs2 then Some (PushAll sigs1, c)
      else
        let spk := default [] (last sigs1) in
        let '(_, txType2, vSolutions2) := Solver spk [] in
        match fuel with
        | O => None
        | Datatypes.S fuel =>
            '(result, c) ← CombineSignatures_typed fuel spk txType2 vSolutions2 (removelast sigs1) (removelast sigs2) c;
            Some (push_vch result spk, c)
        end
  | TX_MULTISIG => CombineMultisig scriptPubKey vSolutions sigs1 sigs2 c
  end.
End combining.

(** The scripts are run on new transactions, made at the times [now1] and [now2];
    [EvalScript]'s stack has its top first. *)
Definition CombineSignatures `{BN} `{Crypto} `{EC} (GetRandHash : nat -> base_uint) (nMaxCacheSize : Z)
    (now1 now2 : Z) (scriptPubKey : CScript) (txTo : CTransaction) (nIn : Z) (scriptSig1 scriptSig2 : CScript)
    (c : CSignatureCache) : option (CScript * CSignatureCache) :=
  let tx_new now := tx_SetNull now (mkTx 0 0 [] [] 0 [] 0) in
  let check tx n := fun c vchSig vchPubKey code => CheckSig GetRandHash nMaxCacheSize c vchSig vchPubKey code tx n 0 in
  let '(_, txType, vSolutions) := Solver scriptPubKey [] in
  let '(_, stack1, c) := EvalScript (check (tx_new now1) 0) [] scriptSig1 c in
  let '(_, stack2, c) := EvalScript (check (tx_new now2) 0) [] scriptSig2 c in
  CombineSignatures_typed (check txTo nIn) (length stack1) scriptPubKey txType vSolutions (rev stack1) (rev stack2) c.

(** ** Signatures are not found in the scripts they sign *)

Lemma instr_decodes s l i : script_ok s -> decodes s l -> i ∈ fst (instrs s) -> exists o v, (o, v) ∈ l /\ GetOp i = Some (o, v, []).
Proof.
  intros Hs Hd. revert Hs. induction Hd as [|s o v r l E _ IH]; intros Hs Hi.
  - rewrite (instrs_stop [] GetOp_nil) in Hi. by apply not_elem_of_nil in Hi.
  - destruct (GetOp_shrinks s o v r Hs E) as (_ & Hr & _). destruct (instrs_step s o v r Hs E) as [Ei _]. rewrite Ei in Hi. cbn [fst] in Hi.
    apply elem_of_cons in Hi as [->|Hi].
    + exists o, v. split; [by left|]. pose proof E as E'. apply GetOp_iff in E' as (hdr & Es & Hf); [|done].
      assert (Ht : take (length s - length r) s = o :: hdr ++ v).
      { rewrite Es. replace (o :: hdr ++ v ++ r) with ((o :: hdr ++ v) ++ r) by (cbn; by rewrite <- app_assoc). apply take_prefix. }
      rewrite Ht. apply GetOp_iff; [|exists hdr; split; [by rewrite app_nil_r|done]].
      rewrite Es in Hs. replace (o :: hdr ++ v ++ r) with ((o :: hdr ++ v) ++ r) in Hs by (cbn; by rewrite <- app_assoc).
      by destruct (script_ok_app _ _ Hs).
    + destruct (IH Hr Hi) as (o' & v' & Hin & Eo). exists o', v'. split; [by right|done].
Qed.

Lemma decodes_tail s l : script_ok s -> decodes s l -> snd (instrs s) = [].
Proof.
  intros Hs Hd. revert Hs. induction Hd as [|s o v r l E _ IH]; intros Hs; [done|].
  destruct (GetOp_shrinks s o v r Hs E) as (_ & Hr & _). destruct (instrs_step s o v r Hs E) as [Ei _]. rewrite Ei. by apply IH.
Qed.

Lemma FindAndDelete_absent s l sg : script_ok s -> decodes s l -> digits 256 sg -> len sg + 5 < 2 ^ 32 -> sg ∉ map snd l ->
  fst (FindAndDelete s (push_vch [] sg)) = s.
Proof.
  intros Hs Hd Hsg Hl Hn. set (b := push_vch [] sg).
  assert (Hb : script_ok b) by (apply push_vch_ok; done).
  destruct (push_vch_GetOp sg [] Hsg ltac:(lia)) as (o & _ & E); [by rewrite app_nil_r|]. rewrite app_nil_r in E.
  assert (b <> []) as Hne by (intros Eb; unfold b in Eb; by rewrite Eb in E).
  unfold FindAndDelete. destruct b as [|b0 b'] eqn:Eb; [done|]. rewrite <- Eb in *.
  change (push_vch [] sg) with b in E. rewrite (fad_loop_filter b o sg (S (length s)) s) by (done || lia). cbn [fst].
  rewrite (decodes_tail s l) by done. rewrite app_nil_r.
  assert (Hf : List.filter (not_b b) (fst (instrs s)) = fst (instrs s)).
  { apply List_filter_all. intros i Hi. unfold not_b. destruct (bytes_eqb i b) eqn:Ei; [|done]. apply bytes_eqb_eq in Ei as ->.
    destruct (instr_decodes s l b Hs Hd Hi) as (o' & v' & Hin & Eo). rewrite E in Eo. injection Eo as <- <-.
    destruct Hn. apply list_elem_of_fmap. by exists (o, sg). }
  rewrite Hf. rewrite (instrs_concat s Hs) at 2. by rewrite (decodes_tail s l), app_nil_r.
Qed.

(** ** Scripts that push short values *)

Definition short (v : valtype) : Prop := digits 256 v /\ len v < 76.

Lemma push_vch_short s v : short v -> push_vch s v = s ++ len v :: v.
Proof.
  intros [_ Hl]. unfold push_vch, OP_PUSHDATA1. rewrite (proj2 (Z.ltb_lt _ _) Hl). pose proof (len_nonneg v).
  by rewrite wrap_id by (unfold fits; lia).
Qed.

Lemma PushAll_short vs s : Forall short vs -> fold_left push_vch vs s = s ++ concat (map (fun v => len v :: v) vs).
Proof.
  intros Hv. revert s. induction Hv as [|v vs Hs _ IH]; intros s; cbn [fold_left map concat]; [by rewrite app_nil_r|].
  by rewrite IH, push_vch_short, <- app_assoc.
Qed.

Lemma pushes_ok vs : Forall short vs -> len vs <= 100 ->
  script_ok (concat (map (fun v => len v :: v) vs)) /\ len (concat (map (fun v => len v :: v) vs)) <= 76 * len vs.
Proof.
  intros Hv Hl. assert (digits 256 (concat (map (fun v => len v :: v) vs)) /\ len (concat (map (fun v => len v :: v) vs)) <= 76 * len vs) as [H1 H2].
  { clear Hl. induction Hv as [|v vs [Hd Hs] _ [IH1 IH2]]; cbn [map concat]; [split; [constructor|done]|].
    pose proof (len_nonneg v). split; [apply Forall_app; split; [constructor; [lia|done]|done]|]. rewrite len_app, !len_cons. lia. }
  split; [|done]. apply script_ok_small; [done|lia].
Qed.

Lemma pushes_push_only fuel vs : Forall short vs -> script_ok (concat (map (fun v => len v :: v) vs)) ->
  (length (concat (map (fun v => len v :: v) vs)) <= fuel)%nat -> IsPushOnly_loop fuel (concat (map (fun v => len v :: v) vs)) = true.
Proof.
  intros Hv. revert fuel. induction Hv as [|v vs [Hd Hs] _ IH]; intros fuel Hok Hf; cbn [map concat app] in *; [by destruct fuel|].
  destruct fuel as [|fuel]; [cbn in Hf; lia|]. cbn [IsPushOnly_loop]. rewrite GetOp_short by done. pose proof (len_nonneg v).
  rewrite (proj2 (Z.ltb_ge OP_16 (len v))) by (unfold OP_16; lia). apply IH.
  - destruct (script_ok_tail _ _ Hok) as [_ Hok']. by destruct (script_ok_app _ _ Hok').
  - cbn in Hf. rewrite length_app in Hf. lia.
Qed.

Section runs.
Context `{BNS : BN_spec} `{CS : Crypto_spec}.
Context {S : Type} (check : S -> valtype -> valtype -> CScript -> bool * S).

Lemma run_pushes vs s p n c : Forall short vs -> script_ok (concat (map (fun v => len v :: v) vs)) -> len vs + len s <= 1000 ->
  run check (concat (map (fun v => len v :: v) vs)) (mkEval s [] [] p n) c = (true, mkEval (rev vs ++ s) [] [] p n, c).
Proof.
  intros Hv. revert s. induction Hv as [|v vs [Hd Hs] _ IH]; intros s Hok Hl; cbn [map concat app rev] in *; [by rewrite run_nil|].
  rewrite len_cons in Hl. destruct (run_push check v _ s [] p n c Hok Hs) as [Hok' ->]. rewrite len_nil. pose proof (len_nonneg vs).
  rewrite (proj2 (Z.leb_le _ 1000)) by lia. rewrite IH; [by rewrite <- app_assoc|done|rewrite len_cons; lia].
Qed.

Lemma EvalScript_pushes vs c : Forall short vs -> len vs <= 100 -> EvalScript check [] (PushAll vs) c = (true, rev vs, c).
Proof.
  intros Hv Hl. unfold PushAll. rewrite PushAll_short by done. cbn [app]. destruct (pushes_ok vs Hv Hl) as [Hok Hlen].
  rewrite EvalScript_run by lia. rewrite run_pushes by (done || (rewrite len_nil; lia)). cbn [stack]. by rewrite app_nil_r.
Qed.
End runs.

Lemma PushAll_push_only vs : Forall short vs -> len vs <= 100 -> IsPushOnly (PushAll vs) = true.
Proof.
  intros Hv Hl. unfold PushAll, IsPushOnly. rewrite PushAll_short by done. cbn [app]. destruct (pushes_ok vs Hv Hl) as [Hok _].
  by apply pushes_push_only.
Qed.

(** ** What is signed *)

Lemma strip_set_scriptSig tx nIn s : strip_sigs (set_scriptSig tx nIn s) = strip_sigs tx.
Proof.
  unfold strip_sigs, set_scriptSig. cbn [vin vout tx_nVersion tx_nTime nLockTime data nDoS]. f_equal.
  apply list_eq. intros i. rewrite !list_lookup_fmap. destruct (decide (i = Z.to_nat nIn)) as [->|Hi].
  - rewrite list_lookup_alter_eq. by destruct (vin tx !! Z.to_nat nIn).
  - by rewrite list_lookup_alter_ne.
Qed.

Lemma SignatureHash_set_scriptSig `{Crypto} code tx nIn s h :
  SignatureHash code (set_scriptSig tx nIn s) nIn h = SignatureHash code tx nIn h.
Proof.
  unfold SignatureHash. rewrite <- (sighash_tx_strip code (set_scriptSig tx nIn s)), strip_set_scriptSig, sighash_tx_strip. done.
Qed.

Lemma set_scriptSig_twice tx nIn s s' : set_scriptSig (set_scriptSig tx nIn s) nIn s' = set_scriptSig tx nIn s'.
Proof.
  unfold set_scriptSig. cbn [vin vout tx_nVersion tx_nTime nLockTime data nDoS]. f_equal.
  apply list_eq. intros i. destruct (decide (i = Z.to_nat nIn)) as [->|Hi].
  - rewrite !list_lookup_alter_eq. by destruct (vin tx !! Z.to_nat nIn).
  - by rewrite !list_lookup_alter_ne.
Qed.

Lemma sig_valid_signed `{Crypto} `{ES : EC_spec} k n r code tx nIn ht sig r' pk : key_wf k n -> key_GetPubKey k = Some pk ->
  0 <= ht < 256 -> key_Sign r k (SignatureHash code tx nIn ht) = (Some sig, r') ->
  sig_valid (sig ++ [u8 ht]) (vchPubKey pk) code tx nIn 0 = true.
Proof.
  intros Hk Hpk Hht E. unfold sig_valid. rewrite last_snoc, wrap_id by (unfold fits; lia). cbn [Z.eqb negb andb].
  destruct (Sign_Verify k n r _ sig r' pk Hk E Hpk) as (_ & _ & key & Es & Ev). destruct pk as [pk]. cbn [vchPubKey].
  rewrite Es, removelast_last. by rewrite Ev.
Qed.

(** The verification of an input without the cache. *)
Definition accepts `{BN} `{Crypto} `{EC} (tx : CTransaction) (nIn : Z) (spk s : CScript) : option bool :=
  fst <$> VerifyScript (fun (c : unit) sg key code => (sig_valid sg key code tx nIn 0, c)) s spk true tt.

Lemma test_solution_accepts `{BN} `{CS : Crypto_spec} `{EC} GetRandHash nMaxCacheSize tx nIn spk c txin :
  cache_ok c -> vin tx !! Z.to_nat nIn = Some txin ->
  match test_solution GetRandHash nMaxCacheSize tx nIn spk c with
  | None => accepts tx nIn spk (scriptSig txin) = None
  | Some (ok, c') => accepts tx nIn spk (scriptSig txin) = Some ok /\ cache_ok c'
  end.
Proof.
  intros Hc Hin. unfold test_solution, accepts. rewrite Hin. cbn.
  set (check1 := fun (c : CSignatureCache) (vchSig vchPubKey : valtype) (code : CScript) =>
    CheckSig GetRandHash nMaxCacheSize c vchSig vchPubKey code tx nIn 0).
  set (check2 := fun (c : unit) (sg key : valtype) (code : CScript) => (sig_valid sg key code tx nIn 0, c)).
  pose proof (agree_VerifyScript check1 check2 (fun c _ => cache_ok c)) as Ha.
  specialize (Ha ltac:(intros d1 d2 sg key code Hd;
    destruct (CheckSig_spec GetRandHash nMaxCacheSize d1 sg key code tx nIn 0 Hd) as (d & E & Hd' & _);
    unfold check1; rewrite E; by split) (scriptSig txin) spk true c tt Hc).
  destruct (VerifyScript check1 _ _ _ _) as [[ok c']|], (VerifyScript check2 _ _ _ _) as [[ok2 u]|]; try done.
  destruct Ha as [Ha Hc']. cbn in *. by subst ok2.
Qed.

Section accepting.
Context `{BNS : BN_spec} `{CS : Crypto_spec} `{EC}.

Lemma accepts_p2pkh tx nIn h sg pk : digits 256 h -> len h = 20 -> short sg -> short pk -> bu_bytes (Hash160 pk) = h -> sg <> h -> sg <> [] ->
  sig_valid sg pk (p2pkh_script h) tx nIn 0 = true ->
  accepts tx nIn (p2pkh_script h) (PushAll [sg; pk]) = Some true.
Proof.
  intros Hh Hl Hsg Hpk Hid Hne Hnil Hv. unfold accepts, VerifyScript.
  rewrite EvalScript_pushes; [|repeat (apply List.Forall_cons; [done|]); apply List.Forall_nil|by vm_compute]. cbn [negb rev app].
  rewrite EvalScript_p2pkh by (done || (rewrite len_nil; lia)). rewrite Hid, bytes_eqb_refl.
  rewrite (FindAndDelete_absent _ _ sg (p2pkh_ok h Hh Hl) (p2pkh_decodes h Hh Hl)); [|apply Hsg|destruct Hsg; lia|cbn [map snd]; rewrite !not_elem_of_cons; split_and!; (done || apply not_elem_of_nil)].
  rewrite Hv. cbn [negb]. change (CastToBool vchTrue) with true. cbn [negb].
  assert (IsPayToScriptHash (p2pkh_script h) = false) as ->; [|done].
  unfold IsPayToScriptHash, p2pkh_script. cbn [nth app]. change (OP_DUP =? OP_HASH160) with false. by rewrite andb_false_r.
Qed.

Lemma accepts_p2sh tx nIn h sub args :
  digits 256 h -> len h = 20 -> Forall short args -> len args <= 90 -> short sub -> bu_bytes (Hash160 sub) = h ->
  IsPayToScriptHash sub = false -> accepts tx nIn sub (PushAll args) = Some true ->
  accepts tx nIn (p2sh_script h) (PushAll (args ++ [sub])) = Some true.
Proof.
  intros Hh Hl Ha Hla Hsub Hid Hnp Hacc. unfold accepts, VerifyScript in *.
  set (check := fun (c : unit) (sg key : valtype) (code : CScript) => _) in *.
  assert (Hall : Forall short (args ++ [sub])) by (apply Forall_app; split; [done|repeat (apply List.Forall_cons; [done|]); apply List.Forall_nil]).
  assert (Hlen : len (args ++ [sub]) <= 100) by (rewrite len_app, len_cons, len_nil; lia).
  rewrite (EvalScript_pushes check) by done. rewrite (EvalScript_pushes check) in Hacc by (done || lia). cbn [negb] in *.
  rewrite rev_app_distr. cbn [rev app].
  rewrite EvalScript_p2sh; [|done|done|rewrite len_cons; unfold len in *; rewrite length_rev; lia].
  rewrite (proj2 (Z.leb_le _ 998)) by (unfold len in *; rewrite length_rev; lia). rewrite Hid, bytes_eqb_refl. cbn [negb].
  change (CastToBool vchTrue) with true. cbn [negb]. rewrite p2sh_script_is by done. cbn [andb]. rewrite PushAll_push_only by done. cbn [negb].
  destruct (EvalScript check (rev args) sub tt) as [[ok st] []]. destruct ok; [|done]. cbn [negb] in *. destruct st as [|back st]; [done|].
  rewrite Hnp in Hacc. cbn [andb] in Hacc. by destruct (CastToBool back).
Qed.
End accepting.

(** ** Signing pay-to-public-key-hash outputs *)

Section completeness.
Context `{BNS : BN_spec} `{CS : Crypto_spec} `{ES : EC_spec} {K : Type} `{!CKeyStore K} (ok : K -> Prop) `{!CKeyStore_spec K ok}.

(** The store holds [k] for the hash [h], and signing with it succeeds with
    signatures of more than 19 bytes (or less). *)
Definition can_sign (ks : K) (h : list Z) (k : CKey) : Prop :=
  ok ks /\ digits 256 h /\ len h = 20 /\ GetKey ks (words_of_bytes h) key_Reset = Some (Some k) /\
  forall r hash, exists sig r', key_Sign r k hash = (Some sig, r') /\ len sig <> 19.

Lemma signature_short k n r hash sig r' pk ht : key_wf k n -> key_GetPubKey k = Some pk -> key_Sign r k hash = (Some sig, r') -> 0 <= ht < 256 ->
  short (sig ++ [u8 ht]) /\ short (vchPubKey pk).
Proof.
  intros Hk Hpk E Hht. destruct (Sign_Verify k n r hash sig r' pk Hk E Hpk) as (Hd & Hl & _).
  destruct (GetPubKey_wf k n Hk) as (pk' & E' & Hdp & Hlp & _). rewrite Hpk in E'. injection E' as <-. split; split; [| |done|].
  - apply Forall_app. split; [done|]. forall_list. apply wrap_fits. lia.
  - rewrite len_app, len_cons, len_nil. lia.
  - rewrite Hlp. by destruct (fCompressedPubKey k).
Qed.

Lemma Solver_sign_p2pkh r ks h k hash ht : can_sign ks h k -> 0 <= ht < 256 ->
  exists sig r' n pk, key_wf k n /\ key_GetPubKey k = Some pk /\ key_Sign r k hash = (Some sig, r') /\ len sig <> 19 /\
    bu_bytes (Hash160 (vchPubKey pk)) = h /\
    Solver_sign r ks (p2pkh_script h) hash ht = Some (true, PushAll [sig ++ [u8 ht]; vchPubKey pk], TX_PUBKEYHASH, r').
Proof.
  intros (Hok & Hd & Hl & Hg & Hs) Hht. destruct (GetKey_sound ks _ k Hok Hg) as (_ & n & pk & Hk & Hpk & Hid & Hgp).
  destruct (Hs r hash) as (sig & r' & E & Hne). exists sig, r', n, pk. split_and!; [done..| |].
  - assert (length h = 20%nat) as Hl' by (unfold len in Hl; lia). change (Hash160 (vchPubKey pk)) with (GetID pk). rewrite Hid.
    by apply (bu_bytes_words 5).
  - unfold Solver_sign. rewrite Solver_p2pkh by done. cbn [negb hd].
    assert (bu_of_vch 5 h = Some (words_of_bytes h)) as -> by (unfold bu_of_vch, len in *; by replace (length h) with 20%nat by lia).
    cbn. unfold Sign1. rewrite Hg. cbn. rewrite E. cbn. rewrite Hgp. done.
Qed.

Lemma set_scriptSig_lookup tx nIn s : 0 <= nIn < len (vin tx) ->
  exists txin, vin (set_scriptSig tx nIn s) !! Z.to_nat nIn = Some txin /\ scriptSig txin = s.
Proof.
  intros Hn. unfold set_scriptSig. cbn [vin]. rewrite list_lookup_alter_eq.
  destruct (lookup_lt_is_Some_2 (vin tx) (Z.to_nat nIn)) as [i ->]; [unfold len in Hn; lia|]. by eexists.
Qed.

(** The values pushed make the test at the end of [SignSignature] succeed. *)
Lemma p2pkh_signature_accepted r ks h k tx nIn ht sig r' n pk s : can_sign ks h k -> 0 <= ht < 256 -> key_wf k n -> key_GetPubKey k = Some pk ->
  key_Sign r k (SignatureHash (p2pkh_script h) tx nIn ht) = (Some sig, r') -> len sig <> 19 -> bu_bytes (Hash160 (vchPubKey pk)) = h ->
  accepts (set_scriptSig tx nIn s) nIn (p2pkh_script h) (PushAll [sig ++ [u8 ht]; vchPubKey pk]) = Some true.
Proof.
  intros (Hok & Hd & Hl & Hg & Hs) Hht Hk Hpk E Hne Hid. destruct (signature_short k n r _ sig r' pk ht Hk Hpk E Hht) as [Hs1 Hs2].
  apply accepts_p2pkh; [done..| | |].
  - intros Eh. rewrite <- Eh, len_app, len_cons, len_nil in Hl. lia.
  - by destruct sig.
  - apply (sig_valid_signed k n r (p2pkh_script h) _ nIn ht sig r' pk); [done..|]. by rewrite SignatureHash_set_scriptSig.
Qed.
End completeness.

Section sign_signature.
Context `{BNS : BN_spec} `{CS : Crypto_spec} `{ES : EC_spec} {K : Type} `{!CKeyStore K} (ok : K -> Prop) `{!CKeyStore_spec K ok}.
Context (GetRandHash : nat -> base_uint) (nMaxCacheSize : Z).

Lemma SignSignature_sound r ks spk tx nIn ht c tx' c' r' : cache_ok c -> 0 <= nIn ->
  SignSignature GetRandHash nMaxCacheSize r ks spk tx nIn ht c = Some (true, tx', c', r') ->
  exists s, tx' = set_scriptSig tx nIn s /\ accepts tx' nIn spk s = Some true /\ cache_ok c'.
Proof.
  intros Hc Hn E. unfold SignSignature in E. destruct (Z.ltb_spec nIn (len (vin tx))) as [Hlt|]; [|done]. cbn [negb] in E.
  destruct (Solver_sign r ks spk _ ht) as [[[[ok1 s] t] r1]|]; [|done]. cbn in E. destruct ok1; [|done]. cbn [negb] in E.
  assert (exists s' r2, (if decide (t = TX_SCRIPTHASH)
    then Solver_sign r1 ks s (SignatureHash s (set_scriptSig tx nIn s) nIn ht) ht ≫= λ '(ok0, s0, subType, r0),
         Some (ok0 && bool_decide (subType <> TX_SCRIPTHASH), set_scriptSig (set_scriptSig tx nIn s) nIn (push_vch s0 s), r0)
    else Some (true, set_scriptSig tx nIn s, r1)) = Some (true, set_scriptSig tx nIn s', r2)) as (s' & r2 & E2).
  { destruct (decide (t = TX_SCRIPTHASH)); [|by exists s, r1].
    destruct (Solver_sign r1 ks s _ ht) as [[[[ok2 s2] t2] r2]|]; [|done]. cbn in E |- *. rewrite set_scriptSig_twice in *.
    destruct (ok2 && bool_decide (t2 <> TX_SCRIPTHASH)); [|done]. by exists (push_vch s2 s), r2. }
  rewrite E2 in E. cbn in E. destruct (set_scriptSig_lookup tx nIn s' ltac:(lia)) as (txin & Hin & <-).
  pose proof (test_solution_accepts GetRandHash nMaxCacheSize _ nIn spk c txin Hc Hin) as Ht.
  destruct (test_solution _ _ _ _ _ _) as [[ok3 c3]|]; [|done]. cbn in E. injection E as -> <- <- <-.
  destruct Ht as [Ha Hc']. by exists (scriptSig txin).
Qed.

(** The last step, once the signature script is known to be accepted. *)
Lemma test_solution_succeeds tx nIn spk s c : cache_ok c -> 0 <= nIn < len (vin tx) ->
  accepts (set_scriptSig tx nIn s) nIn spk s = Some true ->
  exists c', test_solution GetRandHash nMaxCacheSize (set_scriptSig tx nIn s) nIn spk c = Some (true, c').
Proof.
  intros Hc Hn Ha. destruct (set_scriptSig_lookup tx nIn s Hn) as (txin & Hin & Es).
  pose proof (test_solution_accepts GetRandHash nMaxCacheSize _ nIn spk c txin Hc Hin) as Ht. rewrite Es, Ha in Ht.
  destruct (test_solution _ _ _ _ _ _) as [[ok3 c3]|]; [|done]. destruct Ht as [[= <-] _]. by exists c3.
Qed.

Lemma SignSignature_p2pkh r ks h k tx nIn ht c : cache_ok c -> 0 <= nIn -> 0 <= ht < 256 -> can_sign ok ks h k -> nIn < len (vin tx) ->
  exists tx' c' r', SignSignature GetRandHash nMaxCacheSize r ks (p2pkh_script h) tx nIn ht c = Some (true, tx', c', r').
Proof.
  intros Hc Hn Hht Hcan Hlt. destruct (Solver_sign_p2pkh ok r ks h k (SignatureHash (p2pkh_script h) tx nIn ht) ht Hcan Hht)
    as (sig & r' & n & pk & Hk & Hpk & E & Hne & Hid & Esol).
  unfold SignSignature. rewrite (proj2 (Z.ltb_lt _ _) Hlt). cbn [negb]. rewrite Esol. cbn [mbind option_bind negb]. rewrite decide_False by done. cbn [mbind option_bind negb].
  destruct (test_solution_succeeds tx nIn (p2pkh_script h) (PushAll [sig ++ [u8 ht]; vchPubKey pk]) c Hc ltac:(lia)) as (c' & ->);
    [by apply (p2pkh_signature_accepted ok r ks h k tx nIn ht sig r' n pk)|]. by do 3 eexists.
Qed.

Lemma SignSignature_p2sh r ks h k id tx nIn ht c : cache_ok c -> 0 <= nIn -> 0 <= ht < 256 -> can_sign ok ks h k -> nIn < len (vin tx) ->
  wf 5 id -> GetCScript ks id = Some (p2pkh_script h) ->
  exists tx' c' r', SignSignature GetRandHash nMaxCacheSize r ks (SetDestination (DestScriptID id)) tx nIn ht c = Some (true, tx', c', r').
Proof.
  intros Hc Hn Hht Hcan Hlt Hw Hsub. rewrite SetDestination_script by done. destruct (uint160_bytes id Hw) as (Hb & Hbl & Hbv).
  pose proof Hcan as (Hok & Hd & Hl & _).
  unfold SignSignature. rewrite (proj2 (Z.ltb_lt _ _) Hlt). cbn [negb].
  assert (forall hash, Solver_sign r ks (p2sh_script (bu_bytes id)) hash ht = Some (true, p2pkh_script h, TX_SCRIPTHASH, r)) as ->.
  { intros hash. unfold Solver_sign. rewrite Solver_p2sh by done. cbn [negb hd]. rewrite Hbv. cbn. by rewrite Hsub. }
  cbn [mbind option_bind negb]. rewrite decide_True by done. rewrite SignatureHash_set_scriptSig.
  destruct (Solver_sign_p2pkh ok r ks h k (SignatureHash (p2pkh_script h) tx nIn ht) ht Hcan Hht)
    as (sig & r' & n & pk & Hk & Hpk & E & Hne & Hid & Esol).
  rewrite Esol. cbn [mbind option_bind]. rewrite bool_decide_eq_true_2 by done. cbn [andb negb]. rewrite set_scriptSig_twice.
  destruct (signature_short k n r _ sig r' pk ht Hk Hpk E Hht) as [Hs1 Hs2].
  assert (Hp : push_vch (PushAll [sig ++ [u8 ht]; vchPubKey pk]) (p2pkh_script h) =
    PushAll ([sig ++ [u8 ht]; vchPubKey pk] ++ [p2pkh_script h])) by done. rewrite Hp.
  set (args := PushAll ([sig ++ [u8 ht]; vchPubKey pk] ++ [p2pkh_script h])).
  destruct (test_solution_succeeds tx nIn (p2sh_script (bu_bytes id)) args c Hc ltac:(lia)) as (c' & ->); [|by do 3 eexists].
  apply accepts_p2sh; [done|done|repeat (apply List.Forall_cons; [done|]); apply List.Forall_nil|by vm_compute| | | |].
  - split; [apply p2pkh_ok; done|]. unfold p2pkh_script. rewrite !len_app, Hl. by vm_compute.
  - destruct (GetCScript_sound ks id _ Hok Hsub) as [Hg _]. by rewrite <- Hg.
  - unfold IsPayToScriptHash, p2pkh_script. cbn [nth app]. change (OP_DUP =? OP_HASH160) with false. by rewrite andb_false_r.
  - by apply (p2pkh_signature_accepted ok r ks h k tx nIn ht sig r' n pk).
Qed.
End sign_signature.

(** ** Main theorems *)

(** (C36) Signing.  Whenever [SignSignature] answers true, only the signature script of
    the input changed and the input verifies (with or without the signature
    cache).  It does answer true for every output that pays to the hash of a key
    in the store, directly or through a redemption script in the store, if signing
    with the key always succeeds and makes signatures of a length other than 19
    ([can_sign]): the signatures it writes are valid for the transaction as it then
    stands. *)
Theorem signing_correct `{BNS : BN_spec} `{CS : Crypto_spec} `{ES : EC_spec} {K : Type} `{!CKeyStore K} (ok : K -> Prop)
    `{!CKeyStore_spec K ok} GetRandHash nMaxCacheSize r ks spk tx nIn ht c :
  cache_ok c -> 0 <= nIn -> 0 <= ht < 256 ->
  (forall tx' c' r', SignSignature GetRandHash nMaxCacheSize r ks spk tx nIn ht c = Some (true, tx', c', r') ->
     exists s, tx' = set_scriptSig tx nIn s /\ accepts tx' nIn spk s = Some true /\ cache_ok c') /\
  (forall h k, can_sign ok ks h k -> nIn < len (vin tx) ->
     spk = p2pkh_script h \/
     (exists id, wf 5 id /\ spk = SetDestination (DestScriptID id) /\ GetCScript ks id = Some (p2pkh_script h)) ->
     exists tx' c' r', SignSignature GetRandHash nMaxCacheSize r ks spk tx nIn ht c = Some (true, tx', c', r')).
Proof.
  intros Hc Hn Hht. split.
  - intros tx' c' r' E. by apply (SignSignature_sound GetRandHash nMaxCacheSize r ks spk tx nIn ht c tx' c' r').
  - intros h k Hcan Hlt [->|(id & Hw & -> & Hsub)].
    + by apply (SignSignature_p2pkh ok GetRandHash nMaxCacheSize r ks h k).
    + by apply (SignSignature_p2sh ok GetRandHash nMaxCacheSize r ks h k id).
Qed.

(** ** Examples *)

#[local] Existing Instance BN_Z.
#[local] Existing Instance Crypto_toy.
#[local] Existing Instance EC_toy.

Definition signer : CBasicKeyStore :=
  match basic_AddKey (mkBasic ∅ ∅) example_key with Some (_, s) => s | None => mkBasic ∅ ∅ end.

Lemma signer_can_sign : can_sign basic_ok signer (bu_bytes example_id) example_key.
Proof.
  destruct (@basic_AddKey_spec Crypto_toy EC_toy EC_toy_spec (mkBasic ∅ ∅) example_key 7) as (pk & v & Hpk & E & Hpl & Hok);
    [split; intros id e He; by rewrite ?lookup_empty in He|apply example_key_wf|].
  assert (GetID pk = example_id) as Hid by (vm_compute in Hpk; by injection Hpk as <-).
  assert (Hw : wf 5 example_id) by apply (@wf_Hash160 Crypto_toy Crypto_toy_spec). destruct (uint160_bytes _ Hw) as (Hb & Hl & _).
  unfold signer. rewrite E. split_and!; [done..| |].
  - rewrite (words_of_bu_bytes 5) by done. rewrite <- Hid. eapply basic_GetKey_plain; [|exact Hpl]. cbn. by rewrite lookup_insert_eq.
  - intros r hash. exists (48 :: to_digits 256 32 7), r. split; [reflexivity|by vm_compute].
Qed.

Lemma signing_correct_witness :
  exists tx' c' r', SignSignature (fun _ => []) 2 tt signer (p2pkh_script (bu_bytes example_id)) example_tx 0 1 (mkSigCache [] 0) =
    Some (true, tx', c', r').
Proof.
  apply (proj2 (@signing_correct BN_Z BN_Z_spec Crypto_toy Crypto_toy_spec EC_toy EC_toy_spec CBasicKeyStore basic_store basic_ok
    (@basic_store_spec Crypto_toy EC_toy EC_toy_spec) (fun _ => []) 2 tt signer (p2pkh_script (bu_bytes example_id)) example_tx 0 1 (mkSigCache [] 0)
    ltac:(constructor) ltac:(lia) ltac:(lia)) (bu_bytes example_id) example_key signer_can_sign).
  - reflexivity.
  - left. reflexivity.
Defined.

(** ** Combining the signatures of an m-of-n script *)

Lemma elem_of_set_insert_lex v x m : x ∈ set_insert lex_lt v m <-> x = v \/ x ∈ m.
Proof.
  induction m as [|y m IH]; cbn [set_insert]; [set_solver|].
  destruct (lex_lt v y) eqn:E1; [set_solver|]. destruct (lex_lt y v) eqn:E2; [set_solver|].
  rewrite (lex_lt_total v y E1 E2). set_solver.
Qed.

Lemma elem_of_collect sigs1 sigs2 x : x ∈ collect sigs1 sigs2 <-> x ∈ sigs1 ++ sigs2 /\ x <> [].
Proof.
  unfold collect. assert (Hf : forall l acc, x ∈ fold_left (fun m v => match v with [] => m | _ => set_insert lex_lt v m end) l acc <->
    (x ∈ l /\ x <> []) \/ x ∈ acc); [|rewrite Hf; set_solver].
  induction l as [|v l IH]; intros acc; cbn [fold_left]; [set_solver|]. rewrite IH. destruct v as [|b v]; [set_solver|].
  rewrite elem_of_set_insert_lex. set_solver.
Qed.

Section combine.
Context (valid : valtype -> valtype -> CScript -> bool) (code : CScript).
Abbreviation check := (fun (c : unit) sg key code => (valid sg key code, c)).

Lemma assign_sig_spec sig keys m : (forall k1 k2, k1 ∈ keys -> k2 ∈ keys -> valid sig k1 code -> valid sig k2 code -> k1 = k2) ->
  exists m', assign_sig check sig code keys m tt = (m', tt) /\
  (forall k sg, m !! k = Some sg -> m' !! k = Some sg) /\
  (forall k sg, m' !! k = Some sg -> m !! k = Some sg \/ sg = sig /\ valid sig k code) /\
  (forall k, k ∈ keys -> valid sig k code -> is_Some (m' !! k)).
Proof.
  intros Hu. induction keys as [|key keys IH]; cbn [assign_sig]; [exists m; split_and!; [done..|by left|set_solver]|].
  destruct IH as (m' & E & Hmono & Hnew & Hcov); [intros k1 k2 H1 H2; apply Hu; by right|].
  destruct (m !! key) as [sg0|] eqn:Ek.
  - exists m'. split_and!; [done..|]. intros k Hk Hv. apply elem_of_cons in Hk as [->|Hk]; [eexists; by apply Hmono|by apply Hcov].
  - destruct (valid sig key code) eqn:Ev.
    + exists (<[key := sig]> m). split; [done|]. split_and!.
      * intros k sg Hk. rewrite lookup_insert_ne; [done|]. intros <-. by rewrite Ek in Hk.
      * intros k sg. rewrite lookup_insert_Some. intros [[<- <-]|[_ Hk]]; [right; by rewrite Ev|by left].
      * intros k Hk Hv. assert (k = key) as -> by (apply Hu; [done|by left|done|by rewrite Ev]). rewrite lookup_insert_eq. by eexists.
    + exists m'. split_and!; [done..|]. intros k Hk Hv. apply elem_of_cons in Hk as [->|Hk]; [by rewrite Ev in Hv|by apply Hcov].
Qed.

Lemma assign_sigs_spec sigs keys m :
  (forall sg k1 k2, sg ∈ sigs -> k1 ∈ keys -> k2 ∈ keys -> valid sg k1 code -> valid sg k2 code -> k1 = k2) ->
  exists m', assign_sigs check sigs code keys m tt = (m', tt) /\
  (forall k sg, m !! k = Some sg -> m' !! k = Some sg) /\
  (forall k sg, m' !! k = Some sg -> m !! k = Some sg \/ sg ∈ sigs /\ valid sg k code) /\
  (forall k sg, k ∈ keys -> sg ∈ sigs -> valid sg k code -> is_Some (m' !! k)).
Proof.
  revert m. induction sigs as [|sig sigs IH]; intros m Hu; cbn [assign_sigs]; [exists m; split_and!; [done..|by left|set_solver]|].
  destruct (assign_sig_spec sig keys m) as (m1 & E1 & Hmono1 & Hnew1 & Hcov1); [intros k1 k2; apply Hu; by left|].
  destruct (IH m1) as (m2 & E2 & Hmono2 & Hnew2 & Hcov2); [intros sg k1 k2 Hsg; apply Hu; by right|].
  exists m2. rewrite E1. split_and!; [done|by auto| |].
  - intros k sg Hk. destruct (Hnew2 k sg Hk) as [Hk1|[H1 H2]]; [|right; set_solver].
    destruct (Hnew1 k sg Hk1) as [?|[-> ?]]; [by left|right; set_solver].
  - intros k sg Hk Hsg Hv. apply elem_of_cons in Hsg as [->|Hsg]; [|by apply (Hcov2 k sg)].
    destruct (Hcov1 k Hk Hv) as [sg0 E]. exists sg0. by apply Hmono2.
Qed.

(** The signatures that [merge_sigs] pushes. *)
Definition chosen (keys : list valtype) (m : gmap valtype valtype) (n : nat) : list valtype := take n (omap (fun k => m !! k) keys).

Lemma merge_sigs_spec keys m have req result : have <= req ->
  merge_sigs keys m have req result =
  (have + len (chosen keys m (Z.to_nat (req - have))), fold_left push_vch (chosen keys m (Z.to_nat (req - have))) result).
Proof.
  unfold chosen. revert have result. induction keys as [|k keys IH]; intros have result Hle; cbn [merge_sigs].
  { cbn [omap list_omap]. rewrite take_nil. cbn [fold_left]. rewrite (len_nil (A := valtype)). f_equal. lia. }
  destruct (Z.ltb_spec have req) as [Hlt|].
  - cbn [omap list_omap]. destruct (m !! k) as [sg|]; [|by rewrite IH].
    rewrite IH by lia. replace (Z.to_nat (req - have)) with (S (Z.to_nat (req - (have + 1)))) by lia. cbn [take fold_left].
    rewrite len_cons. f_equal. lia.
  - replace (Z.to_nat (req - have)) with 0%nat by lia. rewrite take_0. cbn [fold_left]. rewrite (len_nil (A := valtype)). f_equal. lia.
Qed.

Lemma chosen_signed keys m n : (forall k sg, m !! k = Some sg -> valid sg k code) -> signed_in_order valid (chosen keys m n) keys code.
Proof.
  intros Hm. unfold signed_in_order, chosen. revert n. induction keys as [|k keys IH]; intros n; cbn [omap list_omap].
  { exists []. rewrite take_nil. split; constructor. }
  destruct (m !! k) as [sg|] eqn:E; [|destruct (IH n) as (ks & Hs & Hf); exists ks; split; [by constructor|done]].
  destruct n as [|n]; [exists []; split; [apply sublist_nil_l|constructor]|].
  destruct (IH n) as (ks & Hs & Hf). exists (k :: ks). split; [by constructor|]. cbn [take]. constructor; [|done]. by apply Is_true_true, Hm.
Qed.

Lemma omap_length_filter (keys : list valtype) (m : gmap valtype valtype) (P : valtype -> Prop) `{!forall k, Decision (P k)} :
  (forall k, k ∈ keys -> is_Some (m !! k) <-> P k) -> length (omap (fun k => m !! k) keys) = length (filter P keys).
Proof.
  induction keys as [|k keys IH]; intros HP; [done|]. cbn [omap list_omap]. rewrite filter_cons.
  assert (IH' : length (omap (fun k => m !! k) keys) = length (filter P keys)) by (apply IH; intros; apply HP; by right).
  pose proof (HP k ltac:(by left)) as Hk. destruct (m !! k) as [sg|]; [rewrite decide_True by (by apply Hk; eexists)|].
  - cbn [length]. by f_equal.
  - rewrite decide_False; [done|]. intros Hp. by destruct (proj2 Hk Hp).
Qed.
End combine.

Lemma sublist_rev {A} (k l : list A) : k `sublist_of` l -> rev k `sublist_of` rev l.
Proof. induction 1; cbn; [done|by apply sublist_app|]. by apply sublist_inserts_r. Qed.

Lemma signed_in_order_rev valid sigs keys code : signed_in_order valid sigs keys code -> signed_in_order valid (rev sigs) (rev keys) code.
Proof.
  intros (ks & Hs & Hf). exists (rev ks). split; [by apply sublist_rev|]. clear Hs.
  induction Hf; cbn; [constructor|]. apply Forall2_app; [done|]. by repeat constructor.
Qed.

Lemma push_empties n s : fold_left push_vch (replicate n []) s = s ++ replicate n OP_0.
Proof.
  revert s. induction n as [|n IH]; intros s; cbn [replicate fold_left]; [by rewrite app_nil_r|]. rewrite IH.
  change (push_vch s []) with (s ++ [OP_0]). by rewrite <- app_assoc.
Qed.

Lemma filter_List {A} (f : A -> bool) l : filter (fun x => f x = true) l = List.filter f l.
Proof. induction l as [|x l IH]; [done|]. rewrite filter_cons. cbn. destruct (f x); cbn; by rewrite IH. Qed.

(** Combining.  For an m-of-n script, with [keys] its public keys and each
    signature at hand valid under one of them at most, [CombineMultisig] gives a
    script of one empty value, then signatures in the order of the keys, one for
    as many of the first m keys as have a valid signature on either side, then
    empty values up to m.  So if m keys are covered between the two sides, the
    result satisfies OP_CHECKMULTISIG. *)
Theorem combine_multisig_correct (valid : valtype -> valtype -> CScript -> bool) code m n (keys sigs1 sigs2 : list valtype) :
  1 <= m -> (forall sg k1 k2, sg ∈ sigs1 ++ sigs2 -> k1 ∈ keys -> k2 ∈ keys -> valid sg k1 code -> valid sg k2 code -> k1 = k2) ->
  let covered := fun k => existsb (fun sg => negb (bytes_eqb sg []) && valid sg k code) (sigs1 ++ sigs2) in
  exists ss, CombineMultisig (fun (c : unit) sg key code => (valid sg key code, c)) code ([m] :: keys ++ [[n]]) sigs1 sigs2 tt =
      Some (PushAll ([] :: ss ++ replicate (Z.to_nat (m - len ss)) []), tt) /\
    Forall (fun sg => sg ∈ sigs1 ++ sigs2) ss /\ signed_in_order valid ss keys code /\
    len ss = Z.min m (len (List.filter covered keys)) /\
    (m <= len (List.filter covered keys) ->
       fst (multisig_loop (fun (c : unit) sg key code => (valid sg key code, c)) (rev keys) (rev ss) code tt) = true).
Proof.
  intros Hm Hu covered. unfold CombineMultisig.
  assert (Hlen : (1 <? len (A := valtype) ([m] :: keys ++ [[n]])) = true) by (apply Z.ltb_lt; unfold len; cbn [length]; rewrite length_app; cbn [length]; lia).
  rewrite Hlen. cbn [negb tail]. rewrite removelast_last. change (front0 ([m] :: keys ++ [[n]])) with m.
  destruct (assign_sigs_spec valid code (collect sigs1 sigs2) keys ∅) as (mp & -> & _ & Hnew & Hcov).
  { intros sg k1 k2 Hsg. apply elem_of_collect in Hsg as [Hsg _]. by apply Hu. }
  rewrite merge_sigs_spec by lia. rewrite Z.sub_0_r. set (ss := chosen keys mp (Z.to_nat m)).
  assert (Hval : forall k sg, mp !! k = Some sg -> sg ∈ collect sigs1 sigs2 /\ valid sg k code).
  { intros k sg Hk. destruct (Hnew k sg Hk) as [He|?]; [by rewrite lookup_empty in He|done]. }
  assert (Hs : signed_in_order valid ss keys code) by (apply chosen_signed; intros k sg Hk; by apply Hval).
  assert (Hcount : len ss = Z.min m (len (List.filter covered keys))).
  { unfold ss, chosen, len. rewrite length_take, (omap_length_filter keys mp (fun k => covered k = true)); [rewrite filter_List; lia|].
    intros k Hk. unfold covered. rewrite existsb_exists. split.
    - intros [sg E]. destruct (Hval k sg E) as [Hc Hv]. apply elem_of_collect in Hc as [Hin Hne]. exists sg.
      split; [by apply list_elem_of_In|]. apply Is_true_true in Hv. rewrite Hv, andb_true_r. by destruct sg.
    - intros (sg & Hin & Hb). apply andb_true_iff in Hb as [Hb Hv]. apply (Hcov k sg); [done| |by apply Is_true_true].
      apply elem_of_collect. split; [by apply list_elem_of_In|]. by destruct sg. }
  exists ss. split_and!; [|..|done|done|].
  - unfold PushAll. cbn [fold_left]. rewrite fold_left_app. change (push_vch [] []) with [OP_0]. rewrite push_empties.
    by replace (m - (0 + len ss)) with (m - len ss) by lia.
  - apply Forall_forall. intros sg Hsg. unfold ss, chosen in Hsg. apply elem_of_take in Hsg as (i & Hi & _).
    apply list_elem_of_lookup_2, list_elem_of_omap in Hi as (k & _ & Hk). apply Hval in Hk as [Hk _]. by apply elem_of_collect in Hk as [Hk _].
  - intros _. by apply multisig_loop_spec, signed_in_order_rev.
Qed.

Lemma combine_multisig_correct_witness :
  exists ss, CombineMultisig (fun (c : unit) sg key _ => (bytes_eqb sg key, c)) [] [[2]; [5]; [6]; [7]; [3]] [[5]] [[7]] tt =
      Some (PushAll ([] :: ss ++ replicate (Z.to_nat (2 - len ss)) []), tt) /\ len ss = 2.
Proof.
  destruct (combine_multisig_correct (fun sg key _ => bytes_eqb sg key) [] 2 3 [[5]; [6]; [7]] [[5]] [[7]]) as (ss & E & _ & _ & Hl & _).
  - lia.
  - intros sg k1 k2 _ _ _ H1 H2. apply Is_true_true, bytes_eqb_eq in H1, H2. congruence.
  - exists ss. split; [exact E|]. rewrite Hl. reflexivity.
Defined.
