(* ===== verification/Connect.v ===== *)
(** * main.cpp: fetching, connecting and disconnecting the inputs of a transaction

    A transaction is connected in two phases.  [FetchInputs] reads the previous
    transactions with their index entries, from the pending changes of the block
    that is being connected, from the transaction index, from the memory pool or
    from the block files; [ConnectInputs] checks amounts, maturity, double
    spending, signatures and fees, and marks the outputs as spent.
    [DisconnectInputs] undoes that.

    The block files are byte strings by number.  The index is used through the
    interface [TxIndexDB], signatures through [VerifySignature]; the globals that
    are read ([nBestHeight], the last checkpoint height, the block index, the
    memory pool) are arguments.  [None] is an exception, a failed assertion or an
    access out of range. *)
From Stdlib Require Import ZArith Lia Bool.
From stdpp Require Import prelude gmap.
From S2P Require Import Prelude Uint256 DataStream Serialize Crypto Bignum Script Tx Block Index TxDB Target.
From S2P Require Import Keys Pool SigHash Interp.

(** ** Block files *)

Definition block_files : Type := gmap Z (list Z).

(** [OpenBlockFile] for reading: what follows the position. *)
Definition OpenBlockFile (files : block_files) (nFile nBlockPos : Z) : option (list Z) :=
  if (nFile <? 1) || (nFile =? UINT_MAX) then None
  else drop (Z.to_nat nBlockPos) <$> files !! nFile.

(** [filein >> obj], with the exception that the callers catch as [None]. *)
Definition file_read {T} (c : Ser T) (nType : Z) (bytes : list Z) : option T :=
  match fst (Unserialize c nType CLIENT_VERSION (Init bytes nType CLIENT_VERSION)) with inr x => Some x | inl _ => None end.

(** [CTransaction::ReadFromDisk(pos)] *)
Definition tx_ReadFromDisk (files : block_files) (p : CDiskTxPos) : option CTransaction :=
  bytes ← OpenBlockFile files (nFile p) 0;
  file_read (ser_tx tx_fresh) SER_DISK (drop (Z.to_nat (nTxPos p)) bytes).

(** [block.ReadFromDisk(nFile, nBlockPos, false)]: the header only. *)
Definition header_ReadFromDisk (files : block_files) (nFile nBlockPos : Z) : option CBlock :=
  bytes ← OpenBlockFile files nFile nBlockPos;
  let nType := Z.lor SER_DISK SER_BLOCKHEADERONLY in file_read (ser_block block_null) nType bytes.

(** ** Outcomes of a check *)

(** Refused, with what is added to [nDoS], or accepted. *)
Inductive verdict (A : Type) : Type := Refuse (dos : Z) | Accept (a : A).
Arguments Refuse {A} dos.
Arguments Accept {A} a.

(** Positions that refer to the memory pool. *)
Definition pos_mempool : CDiskTxPos := mkDiskTxPos 1 1 1.

Section connect.
Context {D : Type} `{!TxIndexDB D} `{BN} `{Crypto} `{EC}.
Context (files : block_files) (pool : CTxMemPool).

(** ** [FetchInputs] *)

(** [inputsRet[hash]] once the index entry is known. *)
Definition fetch_tx (hash : base_uint) (fFound : bool) (txindex : CTxIndex) : option (CTxIndex * CTransaction) :=
  if negb fFound || pos_eq (pos txindex) pos_mempool then
    txPrev ← mapTx pool !! hash;
    Some (if negb fFound then mkTxIndex (pos txindex) (replicate (length (vout txPrev)) pos_null) else txindex, txPrev)
  else
    txPrev ← tx_ReadFromDisk files (pos txindex);
    Some (txindex, txPrev).

Section fetch.
Context (txdb : D) (mapTestPool : gmap base_uint CTxIndex) (fBlock fMiner : bool).

(** The index entry: pending changes first, when there are any to consult. *)
Definition find_index (hash : base_uint) : option (option CTxIndex) :=
  match (if fBlock || fMiner then mapTestPool !! hash else None) with
  | Some txindex => Some (Some txindex)
  | None => idx_Read txdb hash
  end.

Fixpoint fetch_loop (l : list CTxIn) (inputsRet : MapPrevTx) : option (bool * MapPrevTx) :=
  match l with
  | [] => Some (true, inputsRet)
  | txin :: l =>
      let hash := op_hash (prevout txin) in
      match inputsRet !! hash with
      | Some _ => fetch_loop l inputsRet
      | None =>
          found ← find_index hash;
          match found with
          | None =>
              if fBlock || fMiner then Some (false, <[hash := (txindex_null, tx_fresh)]> inputsRet)
              else
                match fetch_tx hash false txindex_null with
                | None => Some (false, <[hash := (txindex_null, tx_fresh)]> inputsRet)
                | Some e => fetch_loop l (<[hash := e]> inputsRet)
                end
          | Some txindex =>
              match fetch_tx hash true txindex with
              | None => Some (false, <[hash := (txindex, tx_fresh)]> inputsRet)
              | Some e => fetch_loop l (<[hash := e]> inputsRet)
              end
          end
      end
  end.

(** The second loop: whether every index is in range. *)
Fixpoint ranges_ok (l : list CTxIn) (inputsRet : MapPrevTx) : option bool :=
  match l with
  | [] => Some true
  | txin :: l =>
      '(txindex, txPrev) ← inputsRet !! op_hash (prevout txin);
      let n := op_n (prevout txin) in
      if (len (vout txPrev) <=? n) || (len (vSpent txindex) <=? n) then Some false else ranges_ok l inputsRet
  end.

(** The value returned, [fInvalid] and [inputsRet]; an invalid transaction adds
    100 to [nDoS]. *)
Definition FetchInputs (tx : CTransaction) (inputsRet : MapPrevTx) : option (bool * bool * MapPrevTx) :=
  if IsCoinBase tx then Some (true, false, inputsRet)
  else
    '(ok, inputsRet) ← fetch_loop (vin tx) inputsRet;
    if negb ok then Some (false, false, inputsRet)
    else
      ok ← ranges_ok (vin tx) inputsRet;
      Some (ok, negb ok, inputsRet).
End fetch.

(** ** Coin age *)

(** [ReadFromDisk(txdb, prevout, txindexRet)]; [Some None] is the answer false. *)
Definition tx_ReadFromDisk_prev (txdb : D) (o : COutPoint) : option (option (CTransaction * CTxIndex)) :=
  found ← idx_Read txdb (op_hash o);
  match found with
  | None => Some None
  | Some txindex =>
      match tx_ReadFromDisk files (pos txindex) with
      | None => Some None
      | Some tx => if len (vout tx) <=? op_n o then Some None else Some (Some (tx, txindex))
      end
  end.

Context (nStakeMinAge : Z).

(** The loop over the inputs; the inner [None] is [return false]. *)
Fixpoint coinage_loop (txdb : D) (nTime : Z) (l : list CTxIn) (bnCentSecond : Z) : option (option Z) :=
  match l with
  | [] => Some (Some bnCentSecond)
  | txin :: l =>
      found ← tx_ReadFromDisk_prev txdb (prevout txin);
      match found with
      | None => coinage_loop txdb nTime l bnCentSecond
      | Some (txPrev, txindex) =>
          if nTime <? tx_nTime txPrev then Some None
          else
            match header_ReadFromDisk files (nFile (pos txindex)) (nBlockPos (pos txindex)) with
            | None => Some None
            | Some block =>
                if nTime <? GetBlockTime block + nStakeMinAge then coinage_loop txdb nTime l bnCentSecond
                else
                  out ← vout txPrev !! Z.to_nat (op_n (prevout txin));
                  q ← bn_div (BN_mul (setint64 (nValue out)) (BN_set_word (u32 (nTime - tx_nTime txPrev)))) (setint64 CENT);
                  coinage_loop txdb nTime l (BN_add bnCentSecond q)
            end
      end
  end.

Definition GetCoinAge (txdb : D) (tx : CTransaction) : option (option Z) :=
  if IsCoinBase tx then Some (Some 0)
  else
    r ← coinage_loop txdb (tx_nTime tx) (vin tx) (BN_set_word 0);
    match r with
    | None => Some None
    | Some bnCentSecond =>
        a ← bn_div (BN_mul bnCentSecond (setint64 CENT)) (setint64 COIN);
        bnCoinDay ← bn_div a (BN_set_word (24 * 60 * 60));
        Some (Some (getuint64 bnCoinDay))
    end.

(** ** [ConnectInputs] *)

Context (st : index_state) (nCoinbaseMaturity nBestHeight nTotalBlocksEstimate : Z).
Context (GetRandHash : nat -> base_uint) (nMaxCacheSize : Z).

(** Whether the block that [txindex] points into is one of the last blocks. *)
Fixpoint immature_loop (fuel : nat) (nHeightBlock : Z) (p : option ptr) (t : CTxIndex) : option bool :=
  match p with
  | None => Some false
  | Some q =>
      i ← deref st q;
      if nHeightBlock - nHeight i <? nCoinbaseMaturity then
        if (i_nBlockPos i =? nBlockPos (pos t)) && (i_nFile i =? nFile (pos t)) then Some true
        else match fuel with O => None | S fuel => immature_loop fuel nHeightBlock (pprev i) t end
      else Some false
  end.

Definition immature (pindexBlock : ptr) (txPrev : CTransaction) (t : CTxIndex) : option bool :=
  if IsCoinBase txPrev || IsCoinStake txPrev then
    i ← deref st pindexBlock; immature_loop (size (heap st)) (nHeight i) (Some pindexBlock) t
  else Some false.

(** The first loop, with all the inexpensive checks: the total value. *)
Fixpoint cheap_loop (nTime : Z) (pindexBlock : ptr) (l : list CTxIn) (inputs : MapPrevTx) (nValueIn : Z) : option (verdict Z) :=
  match l with
  | [] => Some (Accept nValueIn)
  | txin :: l =>
      let n := op_n (prevout txin) in
      '(txindex, txPrev) ← inputs !! op_hash (prevout txin);
      if (len (vout txPrev) <=? n) || (len (vSpent txindex) <=? n) then Some (Refuse 100)
      else
        young ← immature pindexBlock txPrev txindex;
        if young : bool then Some (Refuse 0)
        else if nTime <? tx_nTime txPrev then Some (Refuse 100)
        else
          out ← vout txPrev !! Z.to_nat n;
          let nValueIn := s64 (nValueIn + nValue out) in
          if negb (MoneyRange (nValue out)) || negb (MoneyRange nValueIn) then Some (Refuse 100)
          else cheap_loop nTime pindexBlock l inputs nValueIn
  end.

Definition set_spent (t : CTxIndex) (n : Z) (p : CDiskTxPos) : CTxIndex := mkTxIndex (pos t) (<[Z.to_nat n := p]> (vSpent t)).

(** The second loop, from input [i] on: conflicts, signatures, marking. *)
Fixpoint spend_loop (tx : CTransaction) (posThisTx : CDiskTxPos) (fBlock fMiner fStrict : bool) (i : Z) (l : list CTxIn)
    (inputs : MapPrevTx) (mapTestPool : gmap base_uint CTxIndex) (c : CSignatureCache)
    : option (verdict (gmap base_uint CTxIndex) * CSignatureCache) :=
  match l with
  | [] => Some (Accept mapTestPool, c)
  | txin :: l =>
      let hash := op_hash (prevout txin) in
      let n := op_n (prevout txin) in
      '(txindex, txPrev) ← inputs !! hash;
      spent ← vSpent txindex !! Z.to_nat n;
      if negb (pos_IsNull spent) then Some (Refuse 0, c)
      else
        '(ok, c) ← (if fBlock && (nBestHeight <? nTotalBlocksEstimate) then Some (true, c)
                    else VerifySignature GetRandHash nMaxCacheSize txPrev tx i fStrict 0 c);
        if negb ok then
          if fStrict then
            '(ok, c) ← VerifySignature GetRandHash nMaxCacheSize txPrev tx i false 0 c;
            Some (Refuse (if ok : bool then 0 else 100), c)
          else Some (Refuse 100, c)
        else
          let txindex := set_spent txindex n posThisTx in
          spend_loop tx posThisTx fBlock fMiner fStrict (i + 1) l (<[hash := (txindex, txPrev)]> inputs)
            (if fBlock || fMiner then <[hash := txindex]> mapTestPool else mapTestPool) c
  end.

(** [GetMinFee()] with its default arguments. *)
Definition GetMinFee_default (tx : CTransaction) : Z := GetMinFee tx 1 false GMF_BLOCK 0.
#[global] Arguments GetMinFee_default : simpl never.

(** The checks on what the transaction pays out. *)
Definition value_checks (txdb : D) (tx : CTransaction) (pindexBlock : ptr) (fBlock : bool) (nValueIn : Z) : option (verdict unit) :=
  if IsCoinStake tx then
    age ← GetCoinAge txdb tx;
    match age with
    | None => Some (Refuse 0)
    | Some nCoinAge =>
        nValueOut ← GetValueOut tx;
        let nStakeReward := s64 (nValueOut - nValueIn) in
        i ← deref st pindexBlock;
        reward ← GetProofOfStakeReward (s64 nCoinAge);
        if s64 (s64 (reward - GetMinFee_default tx) + MIN_TX_FEE) <? nStakeReward then Some (Refuse 100) else Some (Accept tt)
    end
  else
    nValueOut ← GetValueOut tx;
    if nValueIn <? nValueOut then Some (Refuse 100)
    else
      let nTxFee := s64 (nValueIn - nValueOut) in
      if nTxFee <? 0 then Some (Refuse 100)
      else if nTxFee <? GetMinFee_default tx then Some (Refuse (if fBlock then 100 else 0))
      else if negb (MoneyRange nTxFee) then Some (Refuse 100)
      else Some (Accept tt).

(** [mapTestPool] afterwards when accepted. *)
Definition ConnectInputs (txdb : D) (tx : CTransaction) (inputs : MapPrevTx) (mapTestPool : gmap base_uint CTxIndex)
    (posThisTx : CDiskTxPos) (pindexBlock : ptr) (fBlock fMiner fStrict : bool) (c : CSignatureCache)
    : option (verdict (gmap base_uint CTxIndex) * CSignatureCache) :=
  if IsCoinBase tx then Some (Accept mapTestPool, c)
  else
    r ← cheap_loop (tx_nTime tx) pindexBlock (vin tx) inputs 0;
    match r with
    | Refuse dos => Some (Refuse dos, c)
    | Accept nValueIn =>
        '(r, c) ← spend_loop tx posThisTx fBlock fMiner fStrict 0 (vin tx) inputs mapTestPool c;
        match r with
        | Refuse dos => Some (Refuse dos, c)
        | Accept mapTestPool =>
            v ← value_checks txdb tx pindexBlock fBlock nValueIn;
            match v with Refuse dos => Some (Refuse dos, c) | Accept _ => Some (Accept mapTestPool, c) end
        end
    end.

(** ** [ClientConnectInputs] *)

Fixpoint client_loop (tx : CTransaction) (i : Z) (l : list CTxIn) (nValueIn : Z) (c : CSignatureCache)
    : option (option Z * CSignatureCache) :=
  match l with
  | [] => Some (Some nValueIn, c)
  | txin :: l =>
      match mapTx pool !! op_hash (prevout txin) with
      | None => Some (None, c)
      | Some txPrev =>
          if len (vout txPrev) <=? op_n (prevout txin) then Some (None, c)
          else
            '(ok, c) ← VerifySignature GetRandHash nMaxCacheSize txPrev tx i true 0 c;
            if negb ok then Some (None, c)
            else
              out ← vout txPrev !! Z.to_nat (op_n (prevout txin));
              let nValueIn := s64 (nValueIn + nValue out) in
              if negb (MoneyRange (nValue out)) || negb (MoneyRange nValueIn) then Some (None, c)
              else client_loop tx (i + 1) l nValueIn c
      end
  end.

Definition ClientConnectInputs (tx : CTransaction) (c : CSignatureCache) : option (bool * CSignatureCache) :=
  if IsCoinBase tx then Some (false, c)
  else
    '(r, c) ← client_loop tx 0 (vin tx) 0 c;
    match r with
    | None => Some (false, c)
    | Some nValueIn => nValueOut ← GetValueOut tx; Some (negb (nValueIn <? nValueOut), c)
    end.

(** ** [DisconnectInputs] *)

Fixpoint disconnect_loop (txdb : D) (l : list CTxIn) : option (bool * D) :=
  match l with
  | [] => Some (true, txdb)
  | txin :: l =>
      let hash := op_hash (prevout txin) in
      found ← idx_Read txdb hash;
      match found with
      | None => Some (false, txdb)
      | Some txindex =>
          if len (vSpent txindex) <=? op_n (prevout txin) then Some (false, txdb)
          else
            '(ok, txdb) ← idx_Update txdb hash (set_spent txindex (op_n (prevout txin)) pos_null);
            if negb ok then Some (false, txdb) else disconnect_loop txdb l
      end
  end.

Definition DisconnectInputs (txdb : D) (tx : CTransaction) : option (bool * D) :=
  '(ok, txdb) ← (if IsCoinBase tx then Some (true, txdb) else disconnect_loop txdb (vin tx));
  if negb ok then Some (false, txdb)
  else '(_, txdb) ← idx_Erase txdb (tx_GetHash tx); Some (true, txdb).
End connect.

(** ** The ledger: unspent outputs *)

Abbreviation ledger := (gmap COutPoint CTxOut).

(** The specification of spending: each output in turn must be there; the total
    value and what is left. *)
Fixpoint spend (U : ledger) (l : list COutPoint) : option (Z * ledger) :=
  match l with
  | [] => Some (0, U)
  | o :: l => out ← U !! o; '(v, U) ← spend (delete o U) l; Some (nValue out + v, U)
  end.

(** The outputs of a transaction under its hash, from number [i] on. *)
Fixpoint outputs (h : base_uint) (i : Z) (l : list CTxOut) : ledger :=
  match l with [] => ∅ | out :: l => <[mkOutPoint h i := out]> (outputs h (i + 1) l) end.

(** The sum of all unspent values. *)
Definition supply (U : ledger) : Z := map_fold (fun _ out s => nValue out + s) 0 U.

Lemma supply_insert U o out : U !! o = None -> supply (<[o := out]> U) = nValue out + supply U.
Proof. intros Ho. unfold supply. rewrite map_fold_insert_L; [done| |done]. intros. lia. Qed.

Lemma supply_delete U o out : U !! o = Some out -> supply U = nValue out + supply (delete o U).
Proof. intros Ho. unfold supply. rewrite (map_fold_delete_L (fun _ out s => nValue out + s) 0 o out U); [done| |done]. intros. lia. Qed.

Lemma spend_supply l : forall U v U', spend U l = Some (v, U') -> supply U' = supply U - v.
Proof.
  induction l as [|o l IH]; intros U v U' E; cbn in E; [injection E as <- <-; lia|].
  destruct (U !! o) as [out|] eqn:Eo; [|done]. cbn in E. destruct (spend (delete o U) l) as [[w U1]|] eqn:E1; [|done].
  cbn in E. injection E as <- <-. apply IH in E1. rewrite (supply_delete U o out) by done. lia.
Qed.

Lemma spend_lookup l : forall U v U' o, spend U l = Some (v, U') ->
  U' !! o = (if bool_decide (o ∈ l) then None else U !! o) /\ (o ∈ l -> is_Some (U !! o)).
Proof.
  induction l as [|x l IH]; intros U v U' o E; cbn in E.
  - injection E as <- <-. rewrite bool_decide_eq_false_2 by (by apply not_elem_of_nil). split; [done|]. intros H. by apply elem_of_nil in H.
  - destruct (U !! x) as [out|] eqn:Ex; [|done]. cbn in E. destruct (spend (delete x U) l) as [[w U1]|] eqn:E1; [|done].
    cbn in E. injection E as <- <-. destruct (IH _ _ _ o E1) as [-> Hin]. rewrite lookup_delete. split.
    + rewrite (bool_decide_ext (o ∈ x :: l) (x = o \/ o ∈ l)) by (rewrite elem_of_cons; naive_solver).
      case_decide; repeat case_bool_decide; (done || naive_solver).
    + intros H. apply elem_of_cons in H as [->|H]; [by eexists|]. destruct (Hin H) as [y Hy]. rewrite lookup_delete in Hy.
      case_decide; [done|by eexists].
Qed.

Lemma spend_NoDup l : forall U v U', spend U l = Some (v, U') -> NoDup l.
Proof.
  induction l as [|x l IH]; intros U v U' E; [constructor|]. cbn in E. destruct (U !! x) as [out|] eqn:Ex; [|done]. cbn in E.
  destruct (spend (delete x U) l) as [[w U1]|] eqn:E1; [|done]. apply NoDup_cons. split; [|by eapply IH].
  intros Hx. destruct (proj2 (spend_lookup _ _ _ _ x E1) Hx) as [y Hy]. by rewrite lookup_delete_eq in Hy.
Qed.

Lemma outputs_lookup h l : forall i o, 0 <= i ->
  outputs h i l !! o = if bool_decide (op_hash o = h /\ i <= op_n o) then l !! Z.to_nat (op_n o - i) else None.
Proof.
  induction l as [|x l IH]; intros i o Hi; cbn [outputs]; [rewrite lookup_empty; by case_bool_decide|].
  destruct (decide (o = mkOutPoint h i)) as [->|Hne].
  - rewrite lookup_insert_eq. cbn [op_hash op_n]. rewrite bool_decide_eq_true_2 by (split; [done|lia]). by rewrite Z.sub_diag.
  - rewrite lookup_insert_ne by done. rewrite IH by lia. destruct (decide (op_hash o = h /\ i <= op_n o)) as [[Eh En]|Hn].
    + assert (op_n o <> i) by (intros E; apply Hne; destruct o; cbn in *; by subst).
      rewrite !bool_decide_eq_true_2 by (split; [done|lia]). replace (Z.to_nat (op_n o - i)) with (S (Z.to_nat (op_n o - (i + 1)))) by lia. done.
    + rewrite !bool_decide_eq_false_2; [done|done|]. intros [? ?]. apply Hn. split; [done|lia].
Qed.

Lemma outputs_supply h l : forall i U, 0 <= i -> (forall o, op_hash o = h -> U !! o = None) ->
  supply (outputs h i l ∪ U) = total l + supply U.
Proof.
  induction l as [|x l IH]; intros i U Hi HU; cbn [outputs total fold_right]; [by rewrite (left_id_L ∅ (∪))|].
  fold (total l). rewrite <- insert_union_l. rewrite supply_insert; [rewrite IH by (done || lia); lia|].
  apply lookup_union_None. split; [|by apply HU]. rewrite outputs_lookup by lia.
  rewrite bool_decide_eq_false_2; [done|]. cbn. lia.
Qed.

(** ** What a transaction index stands for *)

Section index_ledger.
Context `{Crypto} (files : block_files).

(** Every entry points at the transaction of that hash in the block files, with
    one position per output; a null position is the one [SetNull] makes. *)
Definition entry_sound (h : base_uint) (t : CTxIndex) : Prop :=
  wf 8 h /\ txindex_wf t /\ pos_eq (pos t) pos_mempool = false /\
  Forall (fun p => pos_IsNull p = true -> p = pos_null) (vSpent t) /\
  exists tx, tx_ReadFromDisk files (pos t) = Some tx /\ tx_wf tx_fresh tx /\ tx_GetHash tx = h /\ length (vSpent t) = length (vout tx).

Definition index_sound (m : gmap base_uint CTxIndex) : Prop := map_Forall entry_sound m.

(** The output [o] if it is unspent. *)
Definition unspent (m : gmap base_uint CTxIndex) (o : COutPoint) : option CTxOut :=
  if 0 <=? op_n o then
    t ← m !! op_hash o;
    p ← vSpent t !! Z.to_nat (op_n o);
    if pos_IsNull p then tx ← tx_ReadFromDisk files (pos t); vout tx !! Z.to_nat (op_n o) else None
  else None.

Definition ledger_of (m : gmap base_uint CTxIndex) (U : ledger) : Prop :=
  index_sound m /\ forall o, U !! o = unspent m o.

Lemma unspent_ext m m' o : m !! op_hash o = m' !! op_hash o -> unspent m o = unspent m' o.
Proof. unfold unspent. by intros ->. Qed.

Lemma set_spent_sound h t n p : entry_sound h t -> pos_wf p -> (pos_IsNull p = true -> p = pos_null) -> entry_sound h (set_spent t n p).
Proof.
  intros (Hh & [Hp [Hv Hl]] & Hm & Hc & tx & Et & Hw & Eh & El) Hpw Hpc. split_and!; [done| |done| |].
  - split; [done|]. split; cbn; [by apply Forall_insert|]. unfold len in *. by rewrite length_insert.
  - cbn. by apply Forall_insert.
  - exists tx. cbn. by rewrite length_insert.
Qed.

(** Marking an output as spent removes it from the ledger. *)
Lemma mark_spent m U o t p : ledger_of m U -> 0 <= op_n o -> m !! op_hash o = Some t ->
  vSpent t !! Z.to_nat (op_n o) = Some pos_null -> pos_wf p -> pos_IsNull p = false ->
  ledger_of (<[op_hash o := set_spent t (op_n o) p]> m) (delete o U) /\ is_Some (U !! o).
Proof.
  intros [Hs HU] Hn Et Ep Hpw Hpn. pose proof (Hs _ _ Et) as Hsound. split; [split|].
  - apply map_Forall_insert_2; [|done]. apply set_spent_sound; [done|done|]. by rewrite Hpn.
  - intros o'. rewrite lookup_delete. unfold unspent. case_decide as E.
    + subst o'. rewrite lookup_insert_eq. cbn [mbind option_bind]. rewrite (proj2 (Z.leb_le 0 (op_n o)) Hn). cbn.
      rewrite list_lookup_insert_eq by (by eapply lookup_lt_Some). cbn. by rewrite Hpn.
    + rewrite HU. unfold unspent. destruct (Z.leb_spec 0 (op_n o')); [|done].
      destruct (decide (op_hash o' = op_hash o)) as [Eh|Eh]; [|by rewrite lookup_insert_ne by done].
      rewrite Eh, lookup_insert_eq, Et. cbn. rewrite list_lookup_insert_ne; [done|].
      intros En. apply E. destruct o, o'; cbn in *. subst. f_equal. lia.
  - rewrite HU. unfold unspent. rewrite (proj2 (Z.leb_le 0 (op_n o)) Hn), Et. cbn. rewrite Ep. cbn.
    destruct Hsound as (_ & _ & _ & _ & tx & -> & _ & _ & El). cbn. apply lookup_lt_is_Some_2. rewrite <- El. by eapply lookup_lt_Some.
Qed.

(** A new entry adds the outputs of its transaction. *)
Lemma add_entry m U tx p : ledger_of m U -> wf 8 (tx_GetHash tx) -> tx_wf tx_fresh tx -> pos_wf p ->
  pos_eq p pos_mempool = false -> tx_ReadFromDisk files p = Some tx -> (forall o, op_hash o = tx_GetHash tx -> U !! o = None) ->
  ledger_of (<[tx_GetHash tx := txindex_new p (len (vout tx))]> m) (outputs (tx_GetHash tx) 0 (vout tx) ∪ U).
Proof.
  intros [Hs HU] Hh Ho Hp Hm Ed Hfree. set (h := tx_GetHash tx) in *.
  assert (En : Z.to_nat (len (vout tx)) = length (vout tx)) by (unfold len; lia). split.
  - apply map_Forall_insert_2; [|done]. split_and!; [done| |done| |].
    + split; [done|]. cbn. rewrite En. split; [apply Forall_replicate; by repeat split|]. unfold len. rewrite length_replicate. apply Ho.
    + cbn. by apply Forall_replicate.
    + exists tx. cbn. by rewrite length_replicate, En.
  - intros o. destruct (decide (op_hash o = h)) as [E|E].
    + rewrite lookup_union, (Hfree o E), outputs_lookup by lia. unfold unspent. rewrite E, lookup_insert_eq.
      destruct (Z.leb_spec 0 (op_n o)) as [Hn|Hn]; [|rewrite bool_decide_eq_false_2 by lia; done].
      rewrite bool_decide_eq_true_2 by done. rewrite Z.sub_0_r. cbn. rewrite En.
      destruct (vout tx !! Z.to_nat (op_n o)) as [out|] eqn:Eo.
      * rewrite lookup_replicate_2 by (by eapply lookup_lt_Some). cbn. rewrite Ed. cbn. by rewrite Eo.
      * apply lookup_ge_None in Eo. destruct (replicate _ _ !! _) as [q|] eqn:Eq; [|done].
        apply lookup_replicate in Eq as [_ Hlt]. lia.
    + rewrite lookup_union, outputs_lookup by lia. rewrite bool_decide_eq_false_2 by naive_solver.
      rewrite (left_id_L None _). rewrite HU. apply unspent_ext. by rewrite lookup_insert_ne by done.
Qed.
End index_ledger.

(** ** Marking *)

(** The entries after the outputs [l] were given the position [p]. *)
Fixpoint mark (m : gmap base_uint CTxIndex) (l : list COutPoint) (p : CDiskTxPos) : gmap base_uint CTxIndex :=
  match l with [] => m | o :: l => mark (alter (fun t => set_spent t (op_n o) p) (op_hash o) m) l p end.

Definition out_num (o : COutPoint) : base_uint * nat := (op_hash o, Z.to_nat (op_n o)).

Definition mark_entry (h : base_uint) (l : list COutPoint) (p : CDiskTxPos) (t : CTxIndex) : CTxIndex :=
  mkTxIndex (pos t) (imap (fun n s => if bool_decide ((h, n) ∈ map out_num l) then p else s) (vSpent t)).

Lemma mark_lookup l p : forall m h, mark m l p !! h = mark_entry h l p <$> m !! h.
Proof.
  induction l as [|o l IH]; intros m h; cbn [mark].
  - destruct (m !! h) as [[q v]|]; [|done]. cbn. unfold mark_entry. cbn. do 2 f_equal. apply list_eq. intros n.
    rewrite list_lookup_imap. by destruct (v !! n).
  - rewrite IH. destruct (decide (op_hash o = h)) as [<-|Hne].
    + rewrite lookup_alter_eq. destruct (m !! op_hash o) as [[q v]|]; [|done]. cbn. f_equal. unfold mark_entry, set_spent. cbn. f_equal.
      apply list_eq. intros n. rewrite !list_lookup_imap. destruct (decide (n = Z.to_nat (op_n o))) as [->|Hn].
      * destruct (decide (Z.to_nat (op_n o) < length v)%nat) as [Hlt|Hge].
        -- rewrite list_lookup_insert_eq by done. destruct (lookup_lt_is_Some_2 v _ Hlt) as [s ->]. cbn.
           rewrite (bool_decide_eq_true_2 (_ ∈ out_num o :: _)) by (apply list_elem_of_here). by case_bool_decide.
        -- rewrite !lookup_ge_None_2; [done|lia|rewrite length_insert; lia].
      * rewrite list_lookup_insert_ne by done. destruct (v !! n); [|done]. cbn. f_equal.
        rewrite (bool_decide_ext ((op_hash o, n) ∈ out_num o :: map out_num l) ((op_hash o, n) ∈ map out_num l)); [done|].
        rewrite elem_of_cons. split; [|by right]. intros [[=]|?]; [done|done].
    + rewrite lookup_alter_ne by done. destruct (m !! h) as [[q v]|]; [|done]. cbn. f_equal. unfold mark_entry. cbn. f_equal.
      apply list_eq. intros n. rewrite !list_lookup_imap. destruct (v !! n); [|done]. cbn. f_equal.
      rewrite (bool_decide_ext ((h, n) ∈ out_num o :: map out_num l) ((h, n) ∈ map out_num l)); [done|].
      rewrite elem_of_cons. split; [|by right]. intros [[=]|?]; [by subst|done].
Qed.

(** Marking with the null position undoes marking. *)
Lemma mark_undo m l p h : (forall o t, o ∈ l -> op_hash o = h -> m !! h = Some t -> vSpent t !! Z.to_nat (op_n o) = Some pos_null) ->
  mark (mark m l p) l pos_null !! h = m !! h.
Proof.
  intros Hl. rewrite !mark_lookup. destruct (m !! h) as [[q v]|] eqn:E; [|done]. cbn. f_equal. unfold mark_entry. cbn. f_equal.
  apply list_eq. intros n. rewrite !list_lookup_imap. destruct (v !! n) as [s|] eqn:Es; [|done]. cbn. f_equal.
  case_bool_decide as Hin; [|done]. apply list_elem_of_fmap in Hin as (o & Eo & Ho). injection Eo as Eh En.
  specialize (Hl o _ Ho (eq_sym Eh) eq_refl). cbn in Hl. rewrite <- En, Es in Hl. by injection Hl.
Qed.

Lemma mark_pos m l p h : pos <$> mark m l p !! h = pos <$> m !! h.
Proof. rewrite mark_lookup. by destruct (m !! h). Qed.

(** ** Fetching and connecting a transaction of a block *)

Section connect_facts.
Context {D : Type} `{!TxIndexDB D} (repr : D -> gmap base_uint CTxIndex -> Prop) `{!TxIndexDB_spec repr}.
Context `{BNS : BN_spec} `{CS : Crypto_spec} `{EC}.
Context (files : block_files) (pool : CTxMemPool) (txdb : D) (m : gmap base_uint CTxIndex) (Hrepr : repr txdb m).

(** The previous transaction and output of an outpoint, spent or not. *)
Definition prev_tx (v : gmap base_uint CTxIndex) (h : base_uint) : option CTransaction :=
  t ← v !! h; tx_ReadFromDisk files (pos t).
Definition prev_out (v : gmap base_uint CTxIndex) (o : COutPoint) : option CTxOut :=
  tx ← prev_tx v (op_hash o); vout tx !! Z.to_nat (op_n o).
Definition value_of (v : gmap base_uint CTxIndex) (l : list COutPoint) : Z :=
  fold_right (fun o s => default 0 (nValue <$> prev_out v o) + s) 0 l.

Lemma value_of_cons v o l : value_of v (o :: l) = default 0 (nValue <$> prev_out v o) + value_of v l.
Proof. done. Qed.

Lemma prev_tx_pos v v' h : pos <$> v !! h = pos <$> v' !! h -> prev_tx v h = prev_tx v' h.
Proof. unfold prev_tx. destruct (v !! h), (v' !! h); cbn; try done. by intros [= ->]. Qed.

Lemma unspent_prev_out v o out : unspent files v o = Some out -> prev_out v o = Some out /\ 0 <= op_n o.
Proof.
  unfold unspent, prev_out, prev_tx. destruct (Z.leb_spec 0 (op_n o)); [|done]. destruct (v !! op_hash o) as [t|]; [|done]. cbn.
  destruct (vSpent t !! _) as [p|]; [|done]. cbn. destruct (pos_IsNull p); [|done]. by split.
Qed.

Lemma spend_value v l : forall U w U', (forall o out, U !! o = Some out -> prev_out v o = Some out) ->
  spend U l = Some (w, U') -> w = value_of v l.
Proof.
  induction l as [|o l IH]; intros U w U' HU E; cbn in E; [by injection E as <- _|].
  destruct (U !! o) as [out|] eqn:Eo; [|done]. cbn in E. destruct (spend (delete o U) l) as [[w1 U1]|] eqn:E1; [|done].
  cbn in E. injection E as <- _. rewrite value_of_cons, (HU o out Eo). cbn. f_equal. eapply IH; [|exact E1].
  intros o' out' E'. apply lookup_delete_Some in E' as [_ E']. by apply HU.
Qed.

(** The fetched inputs agree with the index [v]. *)
Definition agrees (v : gmap base_uint CTxIndex) (inputs : MapPrevTx) : Prop :=
  forall h t tx, inputs !! h = Some (t, tx) -> v !! h = Some t /\ tx_ReadFromDisk files (pos t) = Some tx.

Lemma find_index_spec q h : wf 8 h -> find_index txdb q true false h = Some ((q ∪ m) !! h).
Proof.
  intros Hh. unfold find_index. cbn [orb]. rewrite lookup_union. destruct (q !! h) as [t|]; [by destruct (m !! h)|].
  rewrite (idx_Read_spec _ _ _ Hrepr Hh). by rewrite (left_id_L None _).
Qed.

Lemma fetch_loop_agrees q l : forall inputs inputs', index_sound files (q ∪ m) -> Forall (fun i => out_wf (prevout i)) l ->
  agrees (q ∪ m) inputs -> fetch_loop files pool txdb q true false l inputs = Some (true, inputs') -> agrees (q ∪ m) inputs'.
Proof.
  induction l as [|x l IH]; intros inputs inputs' Hs Hl Ha E; cbn [fetch_loop] in E; [by injection E as <-|].
  apply Forall_cons in Hl as [[Hx _] Hl]. destruct (inputs !! op_hash (prevout x)) as [e|] eqn:Ei; [by eapply IH|].
  rewrite (find_index_spec q _ Hx) in E. cbn [mbind option_bind orb] in E.
  destruct ((q ∪ m) !! op_hash (prevout x)) as [t|] eqn:Et; [|done]. unfold fetch_tx in E. cbn [negb orb] in E.
  destruct (Hs _ _ Et) as (_ & _ & Hm & _ & tx & Ed & _). rewrite Hm, Ed in E. cbn in E. eapply IH; [done..| |exact E].
  intros h t' tx' E'. apply lookup_insert_Some in E' as [[<- [= <- <-]]|[_ E']]; [done|by apply Ha].
Qed.

Lemma FetchInputs_agrees q tx inputs : index_sound files (q ∪ m) -> tx_wf tx_fresh tx ->
  FetchInputs files pool txdb q true false tx ∅ = Some (true, false, inputs) -> agrees (q ∪ m) inputs.
Proof.
  intros Hs (_ & _ & [Hi _] & _) E. unfold FetchInputs in E. assert (Hnil : agrees (q ∪ m) ∅) by (intros h t x Hx; discriminate Hx).
  destruct (IsCoinBase tx); [by injection E as <-|].
  destruct (fetch_loop _ _ _ _ _ _ _ _) as [[[] inputs1]|] eqn:El; cbn in E; [|done|done].
  destruct (ranges_ok _ _) as [[]|]; cbn in E; [|done|done]. injection E as <-.
  eapply fetch_loop_agrees; [done| |exact Hnil|exact El]. eapply Forall_impl; [exact Hi|]. by intros i [? _].
Qed.

Context (nStakeMinAge : Z) (st : index_state) (nCoinbaseMaturity nBestHeight nTotalBlocksEstimate : Z).
Context (GetRandHash : nat -> base_uint) (nMaxCacheSize : Z).

Lemma cheap_loop_value v nTime pindex l : forall inputs acc val, agrees v inputs -> 0 <= acc <= MAX_MONEY ->
  cheap_loop st nCoinbaseMaturity nTime pindex l inputs acc = Some (Accept val) ->
  val = acc + value_of v (map prevout l) /\ 0 <= val <= MAX_MONEY.
Proof.
  induction l as [|x l IH]; intros inputs acc val Ha Hacc E; cbn [cheap_loop] in E; [injection E as <-; cbn; lia|].
  destruct (inputs !! op_hash (prevout x)) as [[t tx]|] eqn:Ei; [|done]. cbn in E. destruct (_ || _); [done|].
  destruct (immature _ _ _ _ _) as [[]|]; cbn in E; [done| |done]. destruct (_ <? _); [done|].
  destruct (vout tx !! _) as [out|] eqn:Eo; [|done]. cbn in E.
  destruct (MoneyRange_spec (nValue out)) as [Hv|]; cbn in E; [|done]. rewrite money_add in E by done.
  destruct (MoneyRange_spec (acc + nValue out)) as [Hv2|]; cbn in E; [|done].
  destruct (Ha _ _ _ Ei) as [Et Ed]. apply (IH inputs) in E as [-> Hr]; [|done|done]. split; [|done]. cbn [map]. rewrite value_of_cons.
  unfold prev_out, prev_tx. rewrite Et. cbn. rewrite Ed. cbn. rewrite Eo. cbn. lia.
Qed.

(** Every input from number [i] on is accepted by the script of the output it
    spends. *)
Definition authorised (v : gmap base_uint CTxIndex) (tx : CTransaction) (fStrict : bool) (i : Z) (l : list CTxIn) : Prop :=
  forall k x, l !! k = Some x -> exists txPrev, prev_tx v (op_hash (prevout x)) = Some txPrev /\
    signature_accepted txPrev tx (i + Z.of_nat k) fStrict 0 x = true.

Lemma authorised_ext v v' tx fStrict i l : (forall h, prev_tx v h = prev_tx v' h) -> authorised v tx fStrict i l -> authorised v' tx fStrict i l.
Proof. intros Hv Ha k x Hx. destruct (Ha k x Hx) as (t & Et & Hs). exists t. by rewrite <- Hv. Qed.

Lemma authorised_cons v tx fStrict i x l txPrev : prev_tx v (op_hash (prevout x)) = Some txPrev ->
  signature_accepted txPrev tx i fStrict 0 x = true -> authorised v tx fStrict (i + 1) l -> authorised v tx fStrict i (x :: l).
Proof.
  intros Ep Hs Ha [|k] y Hy; cbn in Hy; [injection Hy as <-; exists txPrev; by rewrite Z.add_0_r|].
  destruct (Ha k y Hy) as (t & Et & Ht). exists t. split; [done|]. by replace (i + Z.of_nat (S k)) with (i + 1 + Z.of_nat k) by lia.
Qed.

Lemma alter_insert_eq (v : gmap base_uint CTxIndex) h t f : v !! h = Some t -> alter f h v = <[h := f t]> v.
Proof.
  intros E. apply map_eq. intros k. destruct (decide (h = k)) as [<-|Hne];
    [by rewrite lookup_alter_eq, lookup_insert_eq, E|by rewrite lookup_alter_ne, lookup_insert_ne].
Qed.

Lemma agrees_set_spent v inputs h t tx n p : agrees v inputs -> inputs !! h = Some (t, tx) ->
  agrees (<[h := set_spent t n p]> v) (<[h := (set_spent t n p, tx)]> inputs).
Proof.
  intros Ha E h' t' tx' E'. apply lookup_insert_Some in E' as [[<- [= <- <-]]|[Hne E']].
  - rewrite lookup_insert_eq. split; [done|]. cbn. by apply (Ha h t tx).
  - rewrite lookup_insert_ne by done. by apply Ha.
Qed.

Context (posThisTx : CDiskTxPos) (Hpos : pos_wf posThisTx) (Hnull : pos_IsNull posThisTx = false).

Lemma spend_loop_spec tx fStrict l : forall i inputs q c U q' c', 0 <= i -> drop (Z.to_nat i) (vin tx) = l -> Forall txin_wf l ->
  agrees (q ∪ m) inputs -> ledger_of files (q ∪ m) U -> cache_ok c ->
  spend_loop nBestHeight nTotalBlocksEstimate GetRandHash nMaxCacheSize tx posThisTx true false fStrict i l inputs q c = Some (Accept q', c') ->
  exists w U', spend U (map prevout l) = Some (w, U') /\ ledger_of files (q' ∪ m) U' /\
    q' ∪ m = mark (q ∪ m) (map prevout l) posThisTx /\ cache_ok c' /\
    (nBestHeight < nTotalBlocksEstimate \/ authorised (q ∪ m) tx fStrict i l).
Proof.
  induction l as [|x l IH]; intros i inputs q c U q' c' Hi Hl Hw Ha HU Hc E; cbn [spend_loop] in E.
  { injection E as <- <-. exists 0, U. split_and!; [done..|]. right. intros k y Hy. done. }
  apply Forall_cons in Hw as [[[Hxh Hxn] [[Hxs _] _]] Hw]. unfold fits in Hxn.
  assert (Hx : vin tx !! Z.to_nat i = Some x) by (rewrite <- (Nat.add_0_r (Z.to_nat i)), <- lookup_drop, Hl; done).
  assert (Hl' : drop (Z.to_nat (i + 1)) (vin tx) = l).
  { replace (Z.to_nat (i + 1)) with (Z.to_nat i + 1)%nat by lia. by rewrite <- drop_drop, Hl. }
  destruct (inputs !! op_hash (prevout x)) as [[t txPrev]|] eqn:Ei; [|done]. cbn [mbind option_bind] in E.
  destruct (Ha _ _ _ Ei) as [Et Ed]. destruct (vSpent t !! _) as [s|] eqn:Es; [|done]. cbn [mbind option_bind] in E.
  destruct (pos_IsNull s) eqn:En; cbn [negb] in E; [|done].
  pose proof (proj1 HU _ _ Et) as (_ & _ & _ & Hcan & txd & Ed' & Hwf & _). rewrite Ed in Ed'. injection Ed' as <-.
  assert (s = pos_null) as -> by (by apply (Forall_lookup_1 _ _ _ _ Hcan Es)).
  set (skip := true && (nBestHeight <? nTotalBlocksEstimate)) in E.
  assert (exists c1, cache_ok c1 /\ (skip = true \/ signature_accepted txPrev tx i fStrict 0 x = true) /\
    spend_loop nBestHeight nTotalBlocksEstimate GetRandHash nMaxCacheSize tx posThisTx true false fStrict (i + 1) l
      (<[op_hash (prevout x) := (set_spent t (op_n (prevout x)) posThisTx, txPrev)]> inputs)
      (<[op_hash (prevout x) := set_spent t (op_n (prevout x)) posThisTx]> q) c1 = Some (Accept q', c')) as (c1 & Hc1 & Hsig & E1).
  { destruct skip; cbn in E; [exists c; split_and!; [done|by left|done]|].
    assert (Ho : Forall (fun o => digits 256 (scriptPubKey o)) (vout txPrev)).
    { destruct Hwf as (_ & _ & _ & [Ho _] & _). eapply Forall_impl; [exact Ho|]. by intros o [_ [? _]]. }
    destruct (VerifySignature_value GetRandHash nMaxCacheSize txPrev tx i fStrict 0 c x Hc Hx Hxs Ho) as (c1 & Ev & Hc1).
    rewrite Ev in E. cbn in E. destruct (signature_accepted _ _ _ _ _ _); cbn in E; [exists c1; split_and!; [done|by right|done]|].
    destruct fStrict; [|done]. destruct (VerifySignature _ _ _ _ _ _ _ _) as [[? ?]|]; done. }
  destruct (mark_spent files (q ∪ m) U (prevout x) t posThisTx) as [HU1 [out Eo]]; [done|lia|done..|].
  rewrite insert_union_l in HU1. assert (Ha1 := agrees_set_spent _ _ _ _ _ (op_n (prevout x)) posThisTx Ha Ei). rewrite insert_union_l in Ha1.
  destruct (IH (i + 1) _ _ _ _ _ _ ltac:(lia) Hl' Hw Ha1 HU1 Hc1 E1) as (w & U' & Esp & HU' & Em & Hc' & Hauth).
  exists (nValue out + w), U'. cbn [map spend mark]. rewrite Eo. cbn [mbind option_bind]. rewrite Esp. split_and!; [done|done| |done|].
  - rewrite Em, (alter_insert_eq _ _ t) by done. by rewrite insert_union_l.
  - destruct Hsig as [Hsig|Hsig]; [left; unfold skip in Hsig; cbn in Hsig; by apply Z.ltb_lt in Hsig|].
    destruct Hauth as [?|Hauth]; [by left|right]. apply (authorised_cons _ _ _ _ _ _ txPrev); [|done|].
    + unfold prev_tx. rewrite Et. done.
    + eapply authorised_ext; [|exact Hauth]. intros h. apply prev_tx_pos. rewrite <- insert_union_l.
      destruct (decide (op_hash (prevout x) = h)) as [<-|Hne]; [by rewrite lookup_insert_eq, Et|by rewrite lookup_insert_ne].
Qed.

Lemma GetMinFee_default_value tx : GetMinFee_default tx = MIN_TX_FEE.
Proof. reflexivity. Qed.

Lemma stake_reward_bounds age r : GetProofOfStakeReward age = Some r -> - 2 ^ 60 <= r <= 2 ^ 60.
Proof.
  unfold GetProofOfStakeReward. destruct (_ && _) eqn:E; [|done]. apply andb_prop in E as [E1 E2]. apply Z.leb_le in E1. apply Z.ltb_lt in E2.
  intros [= <-]. set (p := age * MAX_CLOAK_PROOF_OF_STAKE) in *. pose proof (Z.quot_rem' p 365).
  pose proof (Z.rem_bound_abs p 365 ltac:(lia)). lia.
Qed.

(** What the value checks guarantee: a coinstake gains at most the reward for its
    coin age, any other transaction pays the minimum fee. *)
Definition pays (txdb : D) (tx : CTransaction) (w : Z) : Prop :=
  if IsCoinStake tx then
    exists age r, GetCoinAge files nStakeMinAge txdb tx = Some (Some age) /\ GetProofOfStakeReward (s64 age) = Some r /\
      total (vout tx) - w <= r
  else total (vout tx) + MIN_TX_FEE <= w.

Lemma value_checks_pays tx pindex fBlock w : 0 <= w <= MAX_MONEY ->
  value_checks files nStakeMinAge st txdb tx pindex fBlock w = Some (Accept tt) ->
  pays txdb tx w /\ GetValueOut tx = Some (total (vout tx)) /\ 0 <= total (vout tx) <= MAX_MONEY.
Proof.
  intros Hw E. unfold value_checks in E. unfold pays. pose proof MAX_MONEY_value as HM.
  assert (HV : forall v, GetValueOut tx = Some v -> v = total (vout tx) /\ 0 <= v <= MAX_MONEY).
  { intros v Ev. unfold GetValueOut in Ev. apply valueout_loop_spec in Ev as (Hr & -> & Hle); [|lia]. pose proof (total_nonneg _ Hr). lia. }
  destruct (IsCoinStake tx).
  - destruct (GetCoinAge _ _ _ _) as [[age|]|]; cbn in E; [|done|done].
    destruct (GetValueOut tx) as [v|] eqn:Ev; [|done]. destruct (HV v eq_refl) as [-> Hv]. cbn in E.
    destruct (deref st pindex); [|done]. cbn in E. destruct (GetProofOfStakeReward (s64 age)) as [r|] eqn:Er; [|done]. cbn in E.
    pose proof (stake_reward_bounds _ _ Er) as Hr. rewrite GetMinFee_default_value in E.
    change MIN_TX_FEE with 10000 in E. rewrite (swrap_id 64 (r - 10000)), (swrap_id 64 (_ + _)), (swrap_id 64 (_ - w)) in E by lia.
    destruct (Z.ltb_spec (r - 10000 + 10000) (total (vout tx) - w)); [done|]. split; [|done]. exists age, r. split_and!; [done|done|lia].
  - destruct (GetValueOut tx) as [v|] eqn:Ev; [|done]. destruct (HV v eq_refl) as [-> Hv]. cbn in E.
    destruct (Z.ltb_spec w (total (vout tx))); [done|]. rewrite (swrap_id 64) in E by lia.
    destruct (Z.ltb_spec (w - total (vout tx)) 0); [done|]. rewrite GetMinFee_default_value in E.
    destruct (Z.ltb_spec (w - total (vout tx)) MIN_TX_FEE); [done|]. split; [lia|done].
Qed.

(** Connecting a transaction of a block spends its inputs. *)
Lemma ConnectInputs_spec tx fStrict inputs q pindex c U q' c' : tx_wf tx_fresh tx -> IsCoinBase tx = false ->
  agrees (q ∪ m) inputs -> ledger_of files (q ∪ m) U -> cache_ok c ->
  ConnectInputs files nStakeMinAge st nCoinbaseMaturity nBestHeight nTotalBlocksEstimate GetRandHash nMaxCacheSize
    txdb tx inputs q posThisTx pindex true false fStrict c = Some (Accept q', c') ->
  exists w U', spend U (prevouts tx) = Some (w, U') /\ ledger_of files (q' ∪ m) U' /\
    q' ∪ m = mark (q ∪ m) (prevouts tx) posThisTx /\ cache_ok c' /\
    w = value_of (q ∪ m) (prevouts tx) /\ 0 <= w <= MAX_MONEY /\ pays txdb tx w /\ GetValueOut tx = Some (total (vout tx)) /\
    (nBestHeight < nTotalBlocksEstimate \/ authorised (q ∪ m) tx fStrict 0 (vin tx)).
Proof.
  intros Hw Hcb Ha HU Hc E. unfold ConnectInputs in E. rewrite Hcb in E.
  destruct (cheap_loop _ _ _ _ _ _ _) as [[dos|val]|] eqn:Ech; cbn in E; [done| |done].
  destruct (cheap_loop_value (q ∪ m) _ _ _ inputs 0 val Ha ltac:(pose proof MAX_MONEY_value; lia) Ech) as [Ev Hval].
  destruct (spend_loop _ _ _ _ _ _ _ _ _ _ _ _ _ _) as [[[dos|q1] c1]|] eqn:Esp; cbn in E; [done| |done].
  destruct (value_checks _ _ _ _ _ _ _ _) as [[dos|[]]|] eqn:Evc; cbn in E; [done| |done]. injection E as <- <-.
  assert (Hin : Forall txin_wf (vin tx)) by apply Hw.
  destruct (spend_loop_spec tx fStrict (vin tx) 0 inputs q c U q1 c1 ltac:(lia) eq_refl Hin Ha HU Hc Esp)
    as (w & U' & Es & HU' & Em & Hc' & Hauth).
  assert (w = val) as ->.
  { rewrite Ev, Z.add_0_l. eapply spend_value; [|exact Es]. intros o out Eo. rewrite (proj2 HU) in Eo. by apply unspent_prev_out in Eo as [? _]. }
  destruct (value_checks_pays _ _ _ _ Hval Evc) as (Hp & Hv & _). exists val, U'. split_and!; (done || apply Hval).
Qed.
End connect_facts.

(** ** Disconnecting *)

Section disconnect_facts.
Context {D : Type} `{!TxIndexDB D} (repr : D -> gmap base_uint CTxIndex -> Prop) `{!TxIndexDB_spec repr} `{CS : Crypto_spec}.

(** The output exists in the index, spent or not. *)
Definition indexed (v : gmap base_uint CTxIndex) (o : COutPoint) : Prop :=
  out_wf o /\ exists t, v !! op_hash o = Some t /\ op_n o < len (vSpent t).

Lemma mark_wf v l p : pos_wf p -> map_Forall (fun _ t => txindex_wf t) v -> map_Forall (fun _ t => txindex_wf t) (mark v l p).
Proof.
  intros Hp Hv h t E. rewrite mark_lookup in E. destruct (v !! h) as [s|] eqn:Es; [|done]. injection E as <-.
  destruct (Hv h s Es) as [H1 [H2 H3]]. split; [done|]. split; cbn; [|unfold len in *; by rewrite length_imap].
  apply Forall_lookup. intros n x Ex. rewrite list_lookup_imap in Ex. destruct (vSpent s !! n) eqn:En; [|done]. cbn in Ex.
  injection Ex as <-. case_bool_decide; [done|]. by eapply Forall_lookup_1.
Qed.

Lemma disconnect_loop_spec l : forall db v, repr db v -> map_Forall (fun _ t => txindex_wf t) v -> Forall (fun i => indexed v (prevout i)) l ->
  exists db', disconnect_loop db l = Some (true, db') /\ repr db' (mark v (map prevout l) pos_null).
Proof.
  induction l as [|x l IH]; intros db v Hr Hv Hl; [by exists db|]. apply Forall_cons in Hl as [[[Hh Hn] (t & Et & Hlt)] Hl].
  cbn [disconnect_loop map mark]. rewrite (idx_Read_spec _ _ _ Hr Hh), Et. cbn [mbind option_bind].
  destruct (Z.leb_spec (len (vSpent t)) (op_n (prevout x))); [lia|]. set (t' := set_spent t (op_n (prevout x)) pos_null).
  assert (Ht' : txindex_wf t').
  { destruct (Hv _ _ Et) as [H1 [H2 H3]]. split; [done|]. split; cbn; [apply Forall_insert; [done|by repeat split]|].
    unfold len in *. by rewrite length_insert. }
  destruct (idx_Update_spec db v (op_hash (prevout x)) t' Hr Hh Ht') as (db1 & -> & Hr1). cbn [mbind option_bind negb].
  assert (Ea : alter (fun t => set_spent t (op_n (prevout x)) pos_null) (op_hash (prevout x)) v = <[op_hash (prevout x) := t']> v)
    by exact (alter_insert_eq v _ t (fun t => set_spent t (op_n (prevout x)) pos_null) Et). rewrite Ea. apply IH; [done| |].
  - by apply map_Forall_insert_2.
  - eapply Forall_impl; [exact Hl|]. intros y [Hy (s & Es & Hs)]. split; [done|].
    destruct (decide (op_hash (prevout x) = op_hash (prevout y))) as [Ey|Hne].
    + exists t'. rewrite <- Ey, lookup_insert_eq. split; [done|]. rewrite <- Ey, Et in Es. injection Es as <-.
      cbn. unfold len in *. by rewrite length_insert.
    + exists s. by rewrite lookup_insert_ne.
Qed.

(** [DisconnectInputs] frees the outputs spent and removes the transaction. *)
Lemma DisconnectInputs_spec db v tx : repr db v -> map_Forall (fun _ t => txindex_wf t) v -> wf 8 (tx_GetHash tx) ->
  (IsCoinBase tx = false -> Forall (indexed v) (prevouts tx)) ->
  exists db', DisconnectInputs db tx = Some (true, db') /\
    repr db' (delete (tx_GetHash tx) (if IsCoinBase tx then v else mark v (prevouts tx) pos_null)).
Proof.
  intros Hr Hv Hh Hi. unfold DisconnectInputs.
  assert (exists db1, (if IsCoinBase tx then Some (true, db) else disconnect_loop db (vin tx)) = Some (true, db1) /\
    repr db1 (if IsCoinBase tx then v else mark v (prevouts tx) pos_null)) as (db1 & -> & Hr1).
  { destruct (IsCoinBase tx); [by exists db|]. apply disconnect_loop_spec; [done|done|].
    specialize (Hi eq_refl). unfold prevouts in Hi. by rewrite List.Forall_map in Hi. }
  cbn. destruct (idx_Erase_spec _ _ _ Hr1 Hh) as (db2 & -> & Hr2). by exists db2.
Qed.
End disconnect_facts.
