(* ===== verification/Chain.v ===== *)
(** * main.cpp: checking, connecting and disconnecting blocks

    [CheckBlock] holds the checks that need no context; [ConnectBlock] connects
    the transactions of a block one after the other on top of the transaction
    index, collecting the changes in [mapQueuedChanges], and writes them and the
    money supply; [DisconnectBlock] undoes it in reverse order.

    The main theorems relate both to a ledger of unspent outputs: connecting a
    block is the ledger's own step, every amount accounted for, and disconnecting
    it restores the ledger. *)
From Stdlib Require Import ZArith Lia Bool.
From stdpp Require Import prelude gmap.
From S2P Require Import Prelude Uint256 DataStream Serialize Crypto Bignum Script Tx Block Index TxDB Target.
From S2P Require Import Keys KeyStore Pool SigHash Interp Standard Connect.

(** ** The database as the chain uses it *)

Class ChainDB (D : Type) : Type := {
  cdb_index :: TxIndexDB D;
  cdb_WriteBlockIndex : D -> CDiskBlockIndex -> option (bool * D);
  cdb_ContainsTx : D -> base_uint -> bool
}.

Class ChainDB_spec {D} `{ChainDB D} (repr : D -> gmap base_uint CTxIndex -> Prop) : Prop := {
  cdb_index_spec :: TxIndexDB_spec repr;
  cdb_WriteBlockIndex_spec : forall d m i, repr d m -> exists d', cdb_WriteBlockIndex d i = Some (true, d') /\ repr d' m
}.

#[export] Instance txdb_chain `{LevelDB} (Hash9 : list Z -> base_uint) (now : Z) : ChainDB CTxDB := {|
  cdb_WriteBlockIndex := WriteBlockIndex Hash9 now;
  cdb_ContainsTx := ContainsTx
|}.

Lemma txdb_chain_spec `{LevelDB_spec} Hash9 now : ChainDB_spec (H := txdb_chain Hash9 now) txdb_repr.
Proof. split; [exact txdb_index_spec|]. intros d m i Hr. by apply WriteBlockIndex_repr. Qed.

Section chain.
Context {D : Type} `{!ChainDB D} `{BN} `{Crypto} `{EC}.
Context (Hash9 : list Z -> base_uint) (bnProofOfWorkLimit hashGenesis : base_uint).

(** ** [CheckBlockSignature] *)

(** A coinbase output that is paid to a public key whose signature this is. *)
Definition signed_by (b : CBlock) (vchPubKey : valtype) : bool :=
  let '(ok, key) := key_SetPubKey key_Reset (mkPubKey vchPubKey) in
  if negb ok then false
  else match vchBlockSig b with [] => false | sig => key_Verify key (block_GetHash Hash9 b) sig end.

(** The loop over the outputs of the coinbase. *)
Fixpoint work_signature (b : CBlock) (l : list CTxOut) (vSolutions : list valtype) : bool :=
  match l with
  | [] => false
  | txout :: l =>
      let '(ok, whichType, vSolutions) := Solver (scriptPubKey txout) vSolutions in
      if negb ok then false
      else if bool_decide (whichType = TX_PUBKEY) && signed_by b (hd [] vSolutions) then true
      else work_signature b l vSolutions
  end.

(** [None]: [vtx[0]], or [vtx[1].vout[1]] of a coinstake, is missing. *)
Definition CheckBlockSignature (b : CBlock) : option bool :=
  if bu_eq (block_GetHash Hash9 b) hashGenesis then Some (match vchBlockSig b with [] => true | _ => false end)
  else if block_IsProofOfStake b then
    tx ← vtx b !! 1%nat;
    txout ← vout tx !! 1%nat;
    let '(ok, whichType, vSolutions) := Solver (scriptPubKey txout) [] in
    Some (ok && bool_decide (whichType = TX_PUBKEY) && signed_by b (hd [] vSolutions))
  else
    tx ← vtx b !! 0%nat;
    Some (work_signature b (vout tx) []).

(** ** [CheckBlock] *)

(** The loop over the transactions; the sum is added to [nDoS]. *)
Fixpoint check_txs (nTimeBlock : Z) (l : list CTransaction) : verdict unit :=
  match l with
  | [] => Accept tt
  | tx :: l =>
      let '(ok, dos) := CheckTransaction tx in
      if negb ok then Refuse (nDoS tx + dos)
      else if nTimeBlock <? tx_nTime tx then Refuse 50
      else check_txs nTimeBlock l
  end.

Definition unique_hashes (l : list CTransaction) : bool :=
  Nat.eqb (size (list_to_set (map tx_GetHash l) : gset base_uint)) (length l).

(** [None]: a script is scanned out of range or a row of the tree is missing. *)
Definition CheckBlock (b : CBlock) (fCheckPOW fCheckMerkleRoot : bool) : option (verdict CBlock) :=
  match vtx b with
  | [] => Some (Refuse 100)
  | coinbase :: rest =>
      if (MAX_BLOCK_SIZE <? len (vtx b)) || (MAX_BLOCK_SIZE <? GetSerializeSize (ser_block block_null) SER_NETWORK PROTOCOL_VERSION b)
      then Some (Refuse 100)
      else if fCheckPOW && block_IsProofOfWork b && negb (CheckProofOfWork bnProofOfWorkLimit (block_GetHash Hash9 b) (b_nBits b))
      then Some (Refuse 50)
      else if negb (IsCoinBase coinbase) then Some (Refuse 100)
      else if existsb IsCoinBase rest then Some (Refuse 100)
      else if existsb IsCoinStake (tail rest) then Some (Refuse 100)
      else if block_IsProofOfStake b && negb (match vout coinbase with [o] => txout_IsEmpty o | _ => false end) then Some (Refuse 0)
      else
        match check_txs (GetBlockTime b) (vtx b) with
        | Refuse dos => Some (Refuse dos)
        | Accept _ =>
            if negb (unique_hashes (vtx b)) then Some (Refuse 100)
            else
              nSigOps ← sum_sigops 0 (map GetLegacySigOpCount (vtx b));
              if MAX_BLOCK_SIGOPS <? nSigOps then Some (Refuse 100)
              else
                '(root, b') ← (if fCheckMerkleRoot then BuildMerkleTree b else Some (hashMerkleRoot b, b));
                if negb (bu_eq (hashMerkleRoot b) root) then Some (Refuse 100)
                else
                  ok ← CheckBlockSignature b;
                  if negb ok then Some (Refuse 100) else Some (Accept b')
        end
  end.

(** ** [ConnectBlock] *)

Context (files : block_files) (pool : CTxMemPool).
Context (nStakeMinAge nCoinbaseMaturity nBestHeight nTotalBlocksEstimate : Z).
Context (GetRandHash : nat -> base_uint) (nMaxCacheSize : Z).

(** The local variables of the loop. *)
Record connect_state : Type := mkConnect {
  mapQueuedChanges : gmap base_uint CTxIndex;
  cs_nFees : Z;
  cs_nValueIn : Z;
  cs_nValueOut : Z;
  cs_nSigOps : Z;
  cs_nTxPos : Z
}.

(** One turn of the loop. *)
Definition connect_tx (txdb : D) (st : index_state) (pindex : ptr) (i : CBlockIndex) (fJustCheck : bool) (tx : CTransaction)
    (s : connect_state) (c : CSignatureCache) : option (verdict connect_state * CSignatureCache) :=
  let hashTx := tx_GetHash tx in
  txindexOld ← idx_Read txdb hashTx;
  if existsb pos_IsNull (match txindexOld with Some t => vSpent t | None => [] end) then Some (Refuse 0, c)
  else
    nLegacy ← GetLegacySigOpCount tx;
    let nSigOps := u32 (cs_nSigOps s + nLegacy) in
    if MAX_BLOCK_SIGOPS <? nSigOps then Some (Refuse 100, c)
    else
      let posThisTx := mkDiskTxPos (i_nFile i) (i_nBlockPos i) (cs_nTxPos s) in
      let nTxPos := if fJustCheck then cs_nTxPos s
                    else u32 (cs_nTxPos s + GetSerializeSize (ser_tx tx) SER_DISK CLIENT_VERSION tx) in
      let queue q := <[hashTx := txindex_new posThisTx (len (vout tx))]> q in
      if IsCoinBase tx then
        nTxValueOut ← GetValueOut tx;
        Some (Accept (mkConnect (queue (mapQueuedChanges s)) (cs_nFees s) (cs_nValueIn s) (s64 (cs_nValueOut s + nTxValueOut))
          nSigOps nTxPos), c)
      else
        '(ok, fInvalid, mapInputs) ← FetchInputs files pool txdb (mapQueuedChanges s) true false tx ∅;
        if negb ok then Some (Refuse 0, c)
        else
          nP2SH ← GetP2SHSigOpCount tx mapInputs;
          let nSigOps := u32 (nSigOps + nP2SH) in
          if MAX_BLOCK_SIGOPS <? nSigOps then Some (Refuse 100, c)
          else
            nTxValueIn ← GetValueIn tx mapInputs;
            nTxValueOut ← GetValueOut tx;
            let nFees := if IsCoinStake tx then cs_nFees s else s64 (cs_nFees s + s64 (nTxValueIn - nTxValueOut)) in
            '(r, c) ← ConnectInputs files nStakeMinAge st nCoinbaseMaturity nBestHeight nTotalBlocksEstimate GetRandHash nMaxCacheSize
                        txdb tx mapInputs (mapQueuedChanges s) posThisTx pindex true false true c;
            match r with
            | Refuse _ => Some (Refuse 0, c)
            | Accept q =>
                Some (Accept (mkConnect (queue q) nFees (s64 (cs_nValueIn s + nTxValueIn)) (s64 (cs_nValueOut s + nTxValueOut))
                  nSigOps nTxPos), c)
            end.

Fixpoint connect_txs (txdb : D) (st : index_state) (pindex : ptr) (i : CBlockIndex) (fJustCheck : bool) (l : list CTransaction)
    (s : connect_state) (c : CSignatureCache) : option (verdict connect_state * CSignatureCache) :=
  match l with
  | [] => Some (Accept s, c)
  | tx :: l =>
      '(r, c) ← connect_tx txdb st pindex i fJustCheck tx s c;
      match r with Refuse dos => Some (Refuse dos, c) | Accept s => connect_txs txdb st pindex i fJustCheck l s c end
  end.

Definition set_money (i : CBlockIndex) (mint supply : Z) : CBlockIndex :=
  mkIndex (phashBlock i) (pprev i) (pnext i) (i_nFile i) (i_nBlockPos i) (bnChainTrust i) (nHeight i) mint supply (nFlags i)
    (nStakeModifier i) (nStakeModifierChecksum i) (prevoutStake i) (nStakeTime i) (hashProofOfStake i) (i_nVersion i)
    (i_hashMerkleRoot i) (i_nTime i) (i_nBits i) (i_nNonce i).

Definition set_heap (p : ptr) (i : CBlockIndex) (st : index_state) : index_state :=
  mkIndexState (<[p := i]> (heap st)) (mapBlockIndex st) (pindexBest st) (pindexGenesisBlock st).

(** The loop that writes the queued changes. *)
Fixpoint write_queued (txdb : D) (l : list (base_uint * CTxIndex)) : option (bool * D) :=
  match l with
  | [] => Some (true, txdb)
  | (h, t) :: l =>
      '(ok, txdb) ← idx_Update txdb h t;
      if negb ok then Some (false, txdb) else write_queued txdb l
  end.

(** [CDiskBlockIndex blockindexPrev(pindex->pprev)] with another [hashNext]. *)
Definition write_prev (txdb : D) (st : index_state) (prev : option ptr) (hashNext : base_uint) : option (bool * D) :=
  match prev with
  | None => Some (true, txdb)
  | Some q => d ← disk_of st q; cdb_WriteBlockIndex txdb (mkDiskIndex (d_index d) (blockHash d) (hashPrev d) hashNext)
  end.

Definition first_tx_pos (i : CBlockIndex) (b : CBlock) (fJustCheck : bool) : Z :=
  if fJustCheck then 1
  else u32 (i_nBlockPos i + GetSerializeSize (ser_block block_null) SER_DISK CLIENT_VERSION block_null -
            2 * GetSizeOfCompactSize 0 + GetSizeOfCompactSize (len (vtx b))).

(** The answer, and the database, block index and signature cache left behind. *)
Definition ConnectBlock (txdb : D) (st : index_state) (b : CBlock) (pindex : ptr) (fJustCheck : bool) (c : CSignatureCache)
    : option (verdict unit * D * index_state * CSignatureCache) :=
  checked ← CheckBlock b (negb fJustCheck) (negb fJustCheck);
  match checked with
  | Refuse dos => Some (Refuse dos, txdb, st, c)
  | Accept b =>
      i ← deref st pindex;
      '(r, c) ← connect_txs txdb st pindex i fJustCheck (vtx b) (mkConnect ∅ 0 0 0 0 (first_tx_pos i b fJustCheck)) c;
      match r with
      | Refuse dos => Some (Refuse dos, txdb, st, c)
      | Accept s =>
          nSupplyPrev ← match pprev i with None => Some 0 | Some q => nMoneySupply <$> deref st q end;
          let i := set_money i (s64 (cs_nValueOut s - cs_nValueIn s + cs_nFees s))
                     (s64 (nSupplyPrev + cs_nValueOut s - cs_nValueIn s)) in
          let st := set_heap pindex i st in
          d ← disk_of st pindex;
          '(ok, txdb) ← cdb_WriteBlockIndex txdb d;
          if negb ok then Some (Refuse 0, txdb, st, c)
          else if fJustCheck then Some (Accept tt, txdb, st, c)
          else
            '(ok, txdb) ← write_queued txdb (entries (mapQueuedChanges s));
            if negb ok then Some (Refuse 0, txdb, st, c)
            else
              coinbase ← vtx b !! 0%nat;
              nValueOut ← GetValueOut coinbase;
              if GetProofOfWorkReward (nHeight i) (cs_nFees s) <? nValueOut then Some (Refuse 0, txdb, st, c)
              else
                h ← GetBlockHash st pindex;
                '(ok, txdb) ← write_prev txdb st (pprev i) h;
                Some (if ok : bool then Accept tt else Refuse 0, txdb, st, c)
      end
  end.

(** ** [DisconnectBlock] *)

Fixpoint disconnect_txs (txdb : D) (l : list CTransaction) : option (bool * D) :=
  match l with
  | [] => Some (true, txdb)
  | tx :: l =>
      '(ok, txdb) ← DisconnectInputs txdb tx;
      if negb ok then Some (false, txdb) else disconnect_txs txdb l
  end.

Definition DisconnectBlock (txdb : D) (st : index_state) (b : CBlock) (pindex : ptr) : option (bool * D) :=
  '(ok, txdb) ← disconnect_txs txdb (rev (vtx b));
  if negb ok then Some (false, txdb)
  else i ← deref st pindex; write_prev txdb st (pprev i) (bu_zero 8).
End chain.

(** ** The block on disk *)

Lemma tx_bytes_min this ty ver tx : 10 <= len (Serialize (ser_tx this) ty ver tx).
Proof.
  cbn [Serialize ser_tx ser_struct ser_dep ser_pair ser_tuple4 ser_int ser_uint]. rewrite !len_app, !len_to_digits.
  pose proof (len_nonneg (Serialize (ser_vector 72 ser_txin) ty ver (vin tx))).
  pose proof (len_nonneg (Serialize (ser_vector 32 ser_txout) ty ver (vout tx))).
  match goal with |- context [len (Serialize ?c ty ver (data tx))] => pose proof (len_nonneg (Serialize c ty ver (data tx))) end.
  lia.
Qed.

Lemma ser_tx_this a b ty ver tx : Serialize (ser_tx a) ty ver tx = Serialize (ser_tx b) ty ver tx /\
  GetSerializeSize (ser_tx a) ty ver tx = GetSerializeSize (ser_tx b) ty ver tx.
Proof.
  cbn [Serialize GetSerializeSize ser_tx ser_struct ser_dep ser_pair fst]. by destruct (1 <? tx_nVersion tx).
Qed.

(** The block lies in the file at the position. *)
Definition stored (files : block_files) (b : CBlock) (f bp : Z) : Prop :=
  1 <= f < UINT_MAX /\ 0 <= bp /\ exists bytes rest, files !! f = Some bytes /\ digits 256 bytes /\ len bytes < 2 ^ 31 /\
    drop (Z.to_nat bp) bytes = Serialize (ser_block block_null) SER_DISK CLIENT_VERSION b ++ rest.

Definition tx_bytes (tx : CTransaction) : list Z := Serialize (ser_tx tx_fresh) SER_DISK CLIENT_VERSION tx.

Lemma read_stored_tx files f bp p bytes tx rest : 1 <= f < UINT_MAX -> files !! f = Some bytes -> digits 256 bytes -> len bytes < 2 ^ 31 ->
  drop (Z.to_nat p) bytes = tx_bytes tx ++ rest -> tx_wf tx_fresh tx -> tx_ReadFromDisk files (mkDiskTxPos f bp p) = Some tx.
Proof.
  intros Hf Hb Hd Hl Ep Hw. unfold tx_ReadFromDisk, OpenBlockFile. cbn [nFile nTxPos].
  destruct (Z.ltb_spec f 1); [lia|]. destruct (Z.eqb_spec f UINT_MAX); [lia|]. cbn [orb]. rewrite Hb. cbn [fmap option_fmap mbind option_bind option_map].
  rewrite drop_0, Ep. unfold file_read. set (s := Init _ _ _).
  destruct (sc_read _ _ (ser_tx_correct tx_fresh) SER_DISK CLIENT_VERSION tx Hw s rest) as (s' & -> & _); [|done|done].
  unfold stream_ok, s, Init, vsize. cbn [nReadPos vch exceptmask]. rewrite <- Ep. rewrite length_drop. unfold len in Hl.
  split_and!; [lia..|by apply Forall_drop|done].
Qed.

Lemma header_length b : header_wf (header_of b) -> len (Serialize ser_header SER_DISK CLIENT_VERSION (header_of b)) = 80.
Proof.
  intros Hh. rewrite header_bytes_ser. destruct Hh as (_ & [Hp _] & [Hr _] & _). unfold header_bytes, len.
  rewrite !length_app, !length_to_digits, !length_bu_bytes, Hp, Hr. done.
Qed.

Lemma block_bytes b : Serialize (ser_block block_null) SER_DISK CLIENT_VERSION b =
  (Serialize ser_header SER_DISK CLIENT_VERSION (header_of b) ++ WriteCompactSize (len (vtx b))) ++
  concat (map tx_bytes (vtx b)) ++ Serialize ser_bytes SER_DISK CLIENT_VERSION (vchBlockSig b).
Proof.
  cbn [Serialize ser_block ser_block_at ser_struct ser_pair]. unfold ser_body. change (header_only SER_DISK) with false.
  cbn [Serialize ser_pair ser_vector]. rewrite <- !app_assoc. done.
Qed.

(** The first transaction follows the header and the number of transactions. *)
Lemma first_tx_stored b i rest bytes : header_wf (header_of b) -> 0 <= i_nBlockPos i -> len bytes < 2 ^ 31 ->
  drop (Z.to_nat (i_nBlockPos i)) bytes = Serialize (ser_block block_null) SER_DISK CLIENT_VERSION b ++ rest ->
  80 < first_tx_pos i b false < 2 ^ 31 /\
  drop (Z.to_nat (first_tx_pos i b false)) bytes =
    concat (map tx_bytes (vtx b)) ++ Serialize ser_bytes SER_DISK CLIENT_VERSION (vchBlockSig b) ++ rest.
Proof.
  intros Hh Hp Hl E. rewrite block_bytes, <- !app_assoc in E. pose proof (header_length b Hh) as H80.
  assert (E0 : first_tx_pos i b false = u32 (i_nBlockPos i + 80 + len (WriteCompactSize (len (vtx b))))).
  { unfold first_tx_pos. rewrite (GetSizeOfCompactSize_len (len (vtx b))).
    change (GetSerializeSize (ser_block block_null) SER_DISK CLIENT_VERSION block_null) with 82. change (GetSizeOfCompactSize 0) with 1. f_equal. lia. }
  assert (Hw : 1 <= len (WriteCompactSize (len (vtx b)))).
  { unfold WriteCompactSize. repeat case_match; rewrite ?len_app, ?len_cons, ?len_to_digits, ?len_nil; lia. }
  assert (Hlen : i_nBlockPos i + 80 + len (WriteCompactSize (len (vtx b))) <= len bytes).
  { assert (Hd : len (drop (Z.to_nat (i_nBlockPos i)) bytes) = Z.max 0 (len bytes - i_nBlockPos i)) by (unfold len; rewrite length_drop; lia).
    rewrite E, !len_app, H80 in Hd. pose proof (len_nonneg (concat (map tx_bytes (vtx b)))).
    pose proof (len_nonneg (Serialize ser_bytes SER_DISK CLIENT_VERSION (vchBlockSig b))). pose proof (len_nonneg rest). lia. }
  rewrite wrap_id in E0 by (unfold fits; lia). rewrite E0. split; [lia|].
  replace (Z.to_nat (i_nBlockPos i + 80 + len (WriteCompactSize (len (vtx b))))) with
    (Z.to_nat (i_nBlockPos i) + length (Serialize ser_header SER_DISK CLIENT_VERSION (header_of b) ++ WriteCompactSize (len (vtx b))))%nat
    by (rewrite length_app; unfold len in *; lia).
  rewrite <- drop_drop, E, app_assoc. by rewrite drop_app_length.
Qed.

(** ** The ledger's own rules *)

Section ledger_rules.
Context `{BN} `{Crypto} `{EC}.

(** The script of [out] accepts input number [k] of [tx]. *)
Definition script_accepts (tx : CTransaction) (k : Z) (x : CTxIn) (out : CTxOut) : bool :=
  match VerifyScript (fun (c : unit) sg key code => (sig_valid sg key code tx k 0, c)) (scriptSig x) (scriptPubKey out) true tt with
  | Some (ok, _) => ok
  | None => false
  end.

(** No unspent output has this transaction hash. *)
Definition unused (U : ledger) (h : base_uint) : Prop := forall o, op_hash o = h -> U !! o = None.

(** One transaction: the value it consumes and the ledger afterwards.  [checked]
    says whether signatures are checked, [reward] bounds what a coinstake gains. *)
Inductive ledger_step (checked : Prop) (reward : CTransaction -> Z -> Prop) (U : ledger) (tx : CTransaction) : Z -> ledger -> Prop :=
  | step_coinbase :
      IsCoinBase tx = true -> unused U (tx_GetHash tx) ->
      ledger_step checked reward U tx 0 (outputs (tx_GetHash tx) 0 (vout tx) ∪ U)
  | step_spend w U1 :
      IsCoinBase tx = false -> spend U (prevouts tx) = Some (w, U1) -> unused U1 (tx_GetHash tx) ->
      (checked -> forall k x out, vin tx !! k = Some x -> U !! prevout x = Some out -> script_accepts tx (Z.of_nat k) x out = true) ->
      (if IsCoinStake tx then exists r, reward tx r /\ total (vout tx) - w <= r else total (vout tx) + MIN_TX_FEE <= w) ->
      ledger_step checked reward U tx w (outputs (tx_GetHash tx) 0 (vout tx) ∪ U1).

Inductive ledger_steps (checked : Prop) (reward : CTransaction -> Z -> Prop) : ledger -> list CTransaction -> list Z -> ledger -> Prop :=
  | steps_nil U : ledger_steps checked reward U [] [] U
  | steps_cons U tx w U1 l ws U2 : ledger_step checked reward U tx w U1 -> ledger_steps checked reward U1 l ws U2 ->
      ledger_steps checked reward U (tx :: l) (w :: ws) U2.

Definition sum (l : list Z) : Z := fold_right Z.add 0 l.
Definition total_out (l : list CTransaction) : Z := sum (map (fun tx => total (vout tx)) l).

Context (checked : Prop) (reward : CTransaction -> Z -> Prop).

Lemma ledger_step_supply U tx w U' : ledger_step checked reward U tx w U' -> supply U' = supply U - w + total (vout tx).
Proof.
  intros [_ Hf|w1 U1 _ Es Hf _ _]; rewrite outputs_supply by (done || lia); [lia|]. rewrite (spend_supply _ _ _ _ Es). lia.
Qed.

Lemma ledger_steps_supply U l ws U' : ledger_steps checked reward U l ws U' -> supply U' = supply U - sum ws + total_out l.
Proof.
  induction 1 as [U|U tx w U1 l ws U2 Hs _ IH]; [unfold total_out, sum; cbn; lia|].
  apply ledger_step_supply in Hs. unfold total_out, sum in *. cbn [map fold_right]. lia.
Qed.

(** Where the outputs of a ledger come from. *)
Lemma ledger_step_origin U tx w U' o : ledger_step checked reward U tx w U' -> is_Some (U' !! o) -> is_Some (U !! o) \/ op_hash o = tx_GetHash tx.
Proof.
  intros Hs [out Eo]. assert (forall V, (forall o, is_Some (V !! o) -> is_Some (U !! o)) ->
    (outputs (tx_GetHash tx) 0 (vout tx) ∪ V) !! o = Some out -> is_Some (U !! o) \/ op_hash o = tx_GetHash tx) as Hgen.
  { intros V HV E. apply lookup_union_Some_raw in E as [E|[_ E]]; [|left; apply HV; by eexists]. right.
    rewrite outputs_lookup in E by lia. by case_bool_decide as Hb; [destruct Hb|]. }
  destruct Hs as [_ _|w U1 _ Es _ _ _]; (eapply Hgen; [|exact Eo]); [done|]. intros o' [x Ex].
  destruct (spend_lookup _ _ _ _ o' Es) as [E' _]. rewrite E' in Ex. case_bool_decide; [done|by eexists].
Qed.
End ledger_rules.

(** ** Connecting the transactions *)

Section connecting.
Context {D : Type} `{!ChainDB D} (repr : D -> gmap base_uint CTxIndex -> Prop) `{!ChainDB_spec repr}.
Context `{BNS : BN_spec} `{CS : Crypto_spec} `{EC}.
Context (files : block_files) (pool : CTxMemPool) (nStakeMinAge nCoinbaseMaturity nBestHeight nTotalBlocksEstimate : Z).
Context (GetRandHash : nat -> base_uint) (nMaxCacheSize : Z).
Context (txdb : D) (m : gmap base_uint CTxIndex) (Hrepr : repr txdb m) (U0 : ledger) (HU0 : ledger_of files m U0).
Context (st : index_state) (pindex : ptr) (i : CBlockIndex) (bytes : list Z).
Context (Hf : 1 <= i_nFile i < UINT_MAX) (Hbp : fits 32 (i_nBlockPos i)).
Context (Hfile : files !! i_nFile i = Some bytes) (Hdig : digits 256 bytes) (Hlen : len bytes < 2 ^ 31).

(** The reward for the coin age that a coinstake consumes. *)
Definition stake_reward (tx : CTransaction) (r : Z) : Prop :=
  exists age, GetCoinAge files nStakeMinAge txdb tx = Some (Some age) /\ GetProofOfStakeReward (s64 age) = Some r.

Abbreviation step := (ledger_step (nTotalBlocksEstimate <= nBestHeight) stake_reward).
Abbreviation run_tx := (connect_tx files pool nStakeMinAge nCoinbaseMaturity nBestHeight nTotalBlocksEstimate GetRandHash nMaxCacheSize
  txdb st pindex i false).

Lemma GetValueIn_value v inputs l : forall acc r, agrees files v inputs -> sfits 64 acc ->
  valuein_loop acc l inputs = Some r -> r = s64 (acc + value_of files v (map prevout l)).
Proof.
  induction l as [|x l IH]; intros acc r Ha Hacc E; cbn [valuein_loop] in E.
  - injection E as <-. unfold value_of, sfits in *. cbn. rewrite Z.add_0_r, swrap_id by lia. done.
  - destruct (GetOutputFor x inputs) as [out|] eqn:Eo; [|done]. unfold GetOutputFor in Eo.
    destruct (inputs !! _) as [[t tx]|] eqn:Ei; [|done]. destruct (_ <=? _); [done|]. destruct (Ha _ _ _ Ei) as [Et Ed].
    assert (Hs : sfits 64 (s64 (acc + nValue out))) by (apply swrap_bound; lia).
    apply IH in E; [|done|done]. rewrite E. cbn [map]. rewrite value_of_cons. unfold prev_out, prev_tx. rewrite Et. cbn. rewrite Ed. cbn.
    rewrite Eo. cbn. rewrite swrap_add_l by lia. f_equal. lia.
Qed.

Lemma bip30 t h : m !! h = t -> existsb pos_IsNull (match t with Some t => vSpent t | None => [] end) = false -> unused U0 h.
Proof.
  intros Et Hn o <-. rewrite (proj2 HU0). unfold unspent. destruct (0 <=? op_n o); [|done]. rewrite Et. destruct t as [t|]; [|done]. cbn.
  destruct (vSpent t !! Z.to_nat (op_n o)) as [p|] eqn:Ep; [|done]. cbn. destruct (pos_IsNull p) eqn:Epn; [|done]. exfalso.
  assert (existsb pos_IsNull (vSpent t) = true) as E; [|by rewrite E in Hn].
  apply existsb_exists. exists p. split; [|done]. apply list_elem_of_In. by eapply list_elem_of_lookup_2.
Qed.

(** The inputs that are spent are accepted by the outputs' scripts. *)
Lemma authorised_scripts v U tx : ledger_of files v U -> authorised files v tx true 0 (vin tx) ->
  forall k x out, vin tx !! k = Some x -> U !! prevout x = Some out -> script_accepts tx (Z.of_nat k) x out = true.
Proof.
  intros HU Ha k x out Hx Eo. destruct (Ha k x Hx) as (txPrev & Et & Hs). rewrite Z.add_0_l in Hs.
  rewrite (proj2 HU) in Eo. apply unspent_prev_out in Eo as [Ep _]. unfold prev_out in Ep. rewrite Et in Ep. cbn in Ep.
  unfold signature_accepted in Hs. rewrite Ep in Hs. by apply andb_prop in Hs as [_ Hs].
Qed.

(** What connecting one transaction of the block does. *)
Definition tx_connected (tx : CTransaction) (s s' : connect_state) (U : ledger) (w : Z) (U' : ledger) : Prop :=
  let v := mapQueuedChanges s ∪ m in
  let p := mkDiskTxPos (i_nFile i) (i_nBlockPos i) (cs_nTxPos s) in
  step U tx w U' /\ ledger_of files (mapQueuedChanges s' ∪ m) U' /\ unused U0 (tx_GetHash tx) /\
  mapQueuedChanges s' ∪ m = <[tx_GetHash tx := txindex_new p (len (vout tx))]> (if IsCoinBase tx then v else mark v (prevouts tx) p) /\
  0 <= w <= MAX_MONEY /\ 0 <= total (vout tx) <= MAX_MONEY /\ GetValueOut tx = Some (total (vout tx)) /\
  cs_nValueIn s' = (if IsCoinBase tx then cs_nValueIn s else s64 (cs_nValueIn s + w)) /\ cs_nValueOut s' = s64 (cs_nValueOut s + total (vout tx)) /\
  cs_nFees s' = (if IsCoinBaseOrStake tx then cs_nFees s else s64 (cs_nFees s + (w - total (vout tx)))) /\
  cs_nTxPos s' = cs_nTxPos s + len (tx_bytes tx).

Lemma tx_size_exact p tx rest : 0 <= p -> drop (Z.to_nat p) bytes = tx_bytes tx ++ rest -> tx_wf tx_fresh tx ->
  p + len (tx_bytes tx) < 2 ^ 31 /\ GetSerializeSize (ser_tx tx) SER_DISK CLIENT_VERSION tx = len (tx_bytes tx) /\
  drop (Z.to_nat (p + len (tx_bytes tx))) bytes = rest.
Proof.
  intros Hp E Hw. assert (Hl : p + len (tx_bytes tx) <= len bytes).
  { assert (Hd : len (drop (Z.to_nat p) bytes) = Z.max 0 (len bytes - p)) by (unfold len; rewrite length_drop; lia).
    rewrite E, len_app in Hd. pose proof (len_nonneg rest). pose proof (tx_bytes_min tx_fresh SER_DISK CLIENT_VERSION tx) as Hm.
    fold (tx_bytes tx) in Hm. lia. }
  split; [lia|]. split.
  - rewrite (proj2 (ser_tx_this tx tx_fresh _ _ _)), (sc_size _ _ (ser_tx_correct tx_fresh)) by done. apply wrap_id. unfold fits.
    pose proof (len_nonneg (tx_bytes tx)). fold (tx_bytes tx). lia.
  - replace (Z.to_nat (p + len (tx_bytes tx))) with (Z.to_nat p + length (tx_bytes tx))%nat by (unfold len; lia).
    rewrite <- drop_drop, E. by rewrite drop_app_length.
Qed.

Lemma connect_tx_spec tx s c s' c' U rest : ledger_of files (mapQueuedChanges s ∪ m) U -> cache_ok c -> tx_wf tx_fresh tx ->
  (forall o, op_hash o = tx_GetHash tx -> is_Some (U !! o) -> is_Some (U0 !! o)) ->
  80 < cs_nTxPos s < 2 ^ 31 -> drop (Z.to_nat (cs_nTxPos s)) bytes = tx_bytes tx ++ rest ->
  run_tx tx s c = Some (Accept s', c') ->
  cache_ok c' /\ exists w U', tx_connected tx s s' U w U'.
Proof.
  intros HU Hc Hw Horig Hpos Hdrop E. unfold connect_tx in E. set (h := tx_GetHash tx) in *.
  assert (Hh : wf 8 h) by apply wf_tx_GetHash.
  rewrite (idx_Read_spec _ _ _ Hrepr Hh) in E. cbn [mbind option_bind] in E.
  destruct (existsb pos_IsNull _) eqn:Ebip; [done|]. pose proof (bip30 _ _ eq_refl Ebip) as Hunused.
  destruct (GetLegacySigOpCount tx) as [nL|]; [|done]. cbn [mbind option_bind] in E. destruct (_ <? _); [done|].
  set (p := mkDiskTxPos (i_nFile i) (i_nBlockPos i) (cs_nTxPos s)) in *.
  destruct (tx_size_exact (cs_nTxPos s) tx rest ltac:(lia) Hdrop Hw) as (Hend & Esz & _). rewrite Esz in E.
  pose proof (len_nonneg (tx_bytes tx)) as Hlt. rewrite (wrap_id 32 (cs_nTxPos s + _)) in E by (unfold fits; lia).
  assert (Hpw : pos_wf p) by (unfold pos_wf, fits, UINT_MAX in *; cbn [nFile nBlockPos nTxPos p]; lia).
  assert (Hpn : pos_IsNull p = false) by (unfold pos_IsNull; cbn; lia).
  assert (Hpm : pos_eq p pos_mempool = false) by (unfold pos_eq; cbn; destruct (Z.eqb_spec (cs_nTxPos s) 1); [lia|]; by rewrite andb_false_r).
  assert (Hread : tx_ReadFromDisk files p = Some tx) by (by apply (read_stored_tx files _ _ _ bytes tx rest)).
  assert (Hfree : forall V, (forall o, is_Some (V !! o) -> is_Some (U !! o)) -> unused V h).
  { intros V HV o Eo. apply eq_None_not_Some. intros Hs. destruct (Horig o Eo (HV o Hs)) as [x Ex]. by rewrite (Hunused o Eo) in Ex. }
  destruct (IsCoinBase tx) eqn:Ecb.
  - destruct (GetValueOut tx) as [vo|] eqn:Evo; [|done]. cbn [mbind option_bind] in E. injection E as <- <-. split; [done|].
    pose proof Evo as Evo'. unfold GetValueOut in Evo'. apply valueout_loop_spec in Evo' as (Hr & -> & Hle); [|pose proof MAX_MONEY_value; lia].
    exists 0, (outputs h 0 (vout tx) ∪ U). unfold tx_connected. rewrite Ecb. cbn [mapQueuedChanges cs_nValueIn cs_nValueOut cs_nFees cs_nTxPos].
    assert (Hu : unused U h) by (by apply Hfree). pose proof (total_nonneg _ Hr). pose proof MAX_MONEY_value.
    rewrite <- insert_union_l, Z.add_0_l in *. split_and!; try (assumption || lia).
    + by constructor.
    + by apply add_entry.
    + reflexivity.
    + unfold IsCoinBaseOrStake. rewrite Ecb. reflexivity.
  - destruct (FetchInputs _ _ _ _ _ _ _ _) as [[[[] fInv] inputs]|] eqn:Ef; cbn [mbind option_bind negb] in E; [|done|done].
    assert (Ha : agrees files (mapQueuedChanges s ∪ m) inputs).
    { apply (FetchInputs_agrees repr files pool txdb m Hrepr _ tx inputs (proj1 HU) Hw). rewrite Ef. do 2 f_equal. f_equal.
      unfold FetchInputs in Ef. rewrite Ecb in Ef. destruct (fetch_loop _ _ _ _ _ _ _ _) as [[[] ?]|]; [|done|done]. cbn in Ef.
      destruct (ranges_ok _ _) as [[]|]; [|done|done]. by injection Ef. }
    destruct (GetP2SHSigOpCount tx inputs) as [nP|]; [|done]. cbn [mbind option_bind] in E. destruct (_ <? _); [done|].
    destruct (GetValueIn tx inputs) as [vi|] eqn:Evi; [|done]. cbn [mbind option_bind] in E. unfold GetValueIn in Evi. rewrite Ecb in Evi.
    apply (GetValueIn_value _ _ _ _ _ Ha) in Evi; [|unfold sfits; lia].
    destruct (GetValueOut tx) as [vo|] eqn:Evo; [|done]. cbn [mbind option_bind] in E.
    destruct (ConnectInputs _ _ _ _ _ _ _ _ _ _ _ _ _ _ _ _ _ _) as [[[dos|q1] c1]|] eqn:Eci; cbn [mbind option_bind] in E; [done| |done].
    injection E as <- <-.
    destruct (ConnectInputs_spec files txdb m nStakeMinAge st nCoinbaseMaturity nBestHeight nTotalBlocksEstimate GetRandHash nMaxCacheSize
      p Hpw Hpn tx true inputs (mapQueuedChanges s) pindex c U q1 c1 Hw Ecb Ha HU Hc Eci) as (w & U1 & Es & HU1 & Em & Hc1 & Ew & Hw2 & Hp & Hvo & Hauth).
    rewrite Evo in Hvo. injection Hvo as ->. split; [done|]. exists w, (outputs h 0 (vout tx) ∪ U1). unfold tx_connected. rewrite Ecb.
    cbn [mapQueuedChanges cs_nValueIn cs_nValueOut cs_nFees cs_nTxPos]. pose proof MAX_MONEY_value.
    assert (vi = w) as -> by (rewrite Evi, Ew, Z.add_0_l; apply swrap_id; lia).
    assert (Hu : unused U1 h).
    { apply Hfree. intros o [x Ex]. rewrite (proj1 (spend_lookup _ _ _ _ o Es)) in Ex. case_bool_decide; [done|by eexists]. }
    pose proof Evo as Evo'. unfold GetValueOut in Evo'. apply valueout_loop_spec in Evo' as (Hr & _ & Hle); [|lia]. pose proof (total_nonneg _ Hr).
    rewrite <- insert_union_l. split_and!; try (assumption || lia).
    + apply step_spend; [done..| |].
      * intros Hck. destruct Hauth as [?|Hauth]; [lia|]. by apply (authorised_scripts _ _ _ HU).
      * unfold pays in Hp. destruct (IsCoinStake tx); [|done]. destruct Hp as (age & r & E1 & E2 & E3). exists r. split; [by exists age|done].
    + by apply add_entry.
    + by rewrite Em.
    + unfold IsCoinBaseOrStake. rewrite Ecb. cbn [orb]. destruct (IsCoinStake tx); [done|]. by rewrite (swrap_id 64 (w - _)) by lia.
Qed.

(** The views of the index while the transactions are connected, for undoing it. *)
Inductive connected : gmap base_uint CTxIndex -> ledger -> list CTransaction -> list Z -> gmap base_uint CTxIndex -> ledger -> Prop :=
  | connected_nil v U : ledger_of files v U -> connected v U [] [] v U
  | connected_cons v U tx w p v1 U1 l ws v2 U2 :
      ledger_of files v U -> step U tx w U1 -> unused U0 (tx_GetHash tx) ->
      0 <= w <= MAX_MONEY -> 0 <= total (vout tx) <= MAX_MONEY -> GetValueOut tx = Some (total (vout tx)) ->
      v1 = <[tx_GetHash tx := txindex_new p (len (vout tx))]> (if IsCoinBase tx then v else mark v (prevouts tx) p) ->
      connected v1 U1 l ws v2 U2 -> connected v U (tx :: l) (w :: ws) v2 U2.

(** The fees of the transactions that pay any. *)
Fixpoint fees (l : list CTransaction) (ws : list Z) : Z :=
  match l, ws with
  | tx :: l, w :: ws => (if IsCoinBaseOrStake tx then 0 else w - total (vout tx)) + fees l ws
  | _, _ => 0
  end.

Lemma connected_steps v U l ws v' U' : connected v U l ws v' U' ->
  ledger_steps (nTotalBlocksEstimate <= nBestHeight) stake_reward U l ws U' /\ ledger_of files v' U'.
Proof. induction 1 as [v U HU|v U tx w p v1 U1 l ws v2 U2 HU Hs _ _ _ _ _ _ [IH1 IH2]]; [by split; [constructor|]|]. split; [by econstructor|done]. Qed.

Lemma connected_unused v U l ws v' U' h : connected v U l ws v' U' -> h ∈ map tx_GetHash l -> unused U0 h.
Proof.
  induction 1 as [|v U tx w p v1 U1 l ws v2 U2 _ _ Hu _ _ _ _ _ IH]; intros Hin; [by apply elem_of_nil in Hin|].
  cbn in Hin. apply elem_of_cons in Hin as [->|Hin]; [exact Hu|by apply IH].
Qed.

Abbreviation run_txs := (connect_txs files pool nStakeMinAge nCoinbaseMaturity nBestHeight nTotalBlocksEstimate GetRandHash nMaxCacheSize
  txdb st pindex i false).

Lemma connect_txs_spec l : forall seen s c s' c' U rest, ledger_of files (mapQueuedChanges s ∪ m) U -> cache_ok c ->
  Forall (tx_wf tx_fresh) l -> NoDup (map tx_GetHash (seen ++ l)) ->
  (forall o, is_Some (U !! o) -> is_Some (U0 !! o) \/ op_hash o ∈ map tx_GetHash seen) ->
  80 < cs_nTxPos s < 2 ^ 31 -> drop (Z.to_nat (cs_nTxPos s)) bytes = concat (map tx_bytes l) ++ rest ->
  sfits 64 (cs_nValueIn s) -> sfits 64 (cs_nValueOut s) -> sfits 64 (cs_nFees s) ->
  run_txs l s c = Some (Accept s', c') ->
  cache_ok c' /\ exists ws U', connected (mapQueuedChanges s ∪ m) U l ws (mapQueuedChanges s' ∪ m) U' /\
    cs_nValueIn s' = s64 (cs_nValueIn s + sum ws) /\ cs_nValueOut s' = s64 (cs_nValueOut s + total_out l) /\
    cs_nFees s' = s64 (cs_nFees s + fees l ws).
Proof.
  induction l as [|tx l IH]; intros seen s c s' c' U rest HU Hc Hw Hnd Horig Hpos Hdrop Hvi Hvo Hfe E; cbn [connect_txs] in E.
  { injection E as <- <-. split; [done|]. exists [], U. unfold total_out, sum, sfits in *. cbn [map fold_right fees].
    rewrite !Z.add_0_r, !swrap_id by lia. split; [by constructor|]. done. }
  destruct (run_tx tx s c) as [[[dos|s1] c1]|] eqn:E1; cbn [mbind option_bind] in E; [discriminate| |discriminate].
  apply Forall_cons in Hw as [Hwt Hw]. cbn [map concat] in Hdrop. rewrite <- app_assoc in Hdrop.
  assert (Hown : tx_GetHash tx ∉ map tx_GetHash seen).
  { rewrite map_app in Hnd. cbn in Hnd. apply NoDup_app in Hnd as (_ & Hd & _). intros Hin. apply (Hd _ Hin). apply list_elem_of_here. }
  assert (Hold : forall o, op_hash o = tx_GetHash tx -> is_Some (U !! o) -> is_Some (U0 !! o)).
  { intros o Eo Hs. destruct (Horig o Hs) as [?|Hin]; [done|]. by rewrite Eo in Hin. }
  destruct (connect_tx_spec tx s c s1 c1 U _ HU Hc Hwt Hold Hpos Hdrop E1)
    as (Hc1 & w & U1 & Hstep & HU1 & Hun & Em & Hwr & Htr & Hgv & Evi & Evo & Efe & Epos).
  destruct (tx_size_exact (cs_nTxPos s) tx _ ltac:(lia) Hdrop Hwt) as (Hend & _ & Hdrop'). pose proof (len_nonneg (tx_bytes tx)).
  rewrite <- Epos in Hdrop', Hend.
  assert (Hsf : forall z, sfits 64 (s64 z)) by (intros z; apply swrap_bound; lia).
  destruct (IH (seen ++ [tx]) s1 c1 s' c' U1 rest HU1 Hc1 Hw) as (Hc' & ws & U' & Hcon & Evi' & Evo' & Efe');
    [..|split; [done|]]; [| |lia|exact Hdrop'| | | |exact E|].
  - by rewrite <- app_assoc.
  - intros o Hs. rewrite map_app. cbn [map]. rewrite elem_of_app, list_elem_of_singleton. destruct (ledger_step_origin _ _ _ _ _ _ o Hstep Hs) as [Ho|Ho]; [|by right; right].
    destruct (Horig o Ho) as [?|?]; [by left|by right; left].
  - rewrite Evi. by destruct (IsCoinBase tx).
  - by rewrite Evo.
  - rewrite Efe. by destruct (IsCoinBaseOrStake tx).
  - exists (w :: ws), U'. split; [by econstructor|]. unfold total_out, sum in *. cbn [map fold_right fees].
    rewrite Evi', Evo', Efe', Evo, Evi, Efe, swrap_add_l by lia. split_and!; [|f_equal; lia|].
    + destruct (IsCoinBase tx) eqn:Ecb; [|rewrite swrap_add_l by lia; f_equal; lia].
      inversion Hstep as [|? ? Ecb']; subst; [f_equal; lia|by rewrite Ecb in Ecb'].
    + destruct (IsCoinBaseOrStake tx); [f_equal; lia|]. rewrite swrap_add_l by lia. f_equal. lia.
Qed.
End connecting.

(** ** Disconnecting the transactions *)

Section disconnecting.
Context {D : Type} `{!ChainDB D} (repr : D -> gmap base_uint CTxIndex -> Prop) `{!ChainDB_spec repr}.
Context `{BNS : BN_spec} `{CS : Crypto_spec} `{EC}.
Context (files : block_files) (nStakeMinAge nBestHeight nTotalBlocksEstimate : Z) (txdb : D) (U0 : ledger).

Abbreviation conn := (connected files nStakeMinAge nBestHeight nTotalBlocksEstimate txdb U0).

Lemma disconnect_txs_app l1 l2 : forall db, disconnect_txs db (l1 ++ l2) =
  '(ok, db) ← disconnect_txs db l1; if negb ok then Some (false, db) else disconnect_txs db l2.
Proof.
  induction l1 as [|tx l1 IH]; intros db; [done|]. cbn [app disconnect_txs]. destruct (DisconnectInputs db tx) as [[[] db1]|]; cbn; [apply IH|done|done].
Qed.

(** An unspent output of the ledger is unspent in the index. *)
Lemma ledger_indexed v U o : ledger_of files v U -> is_Some (U !! o) -> 0 <= op_n o /\
  exists t, v !! op_hash o = Some t /\ vSpent t !! Z.to_nat (op_n o) = Some pos_null.
Proof.
  intros [Hs HU] [out E]. rewrite HU in E. unfold unspent in E. destruct (Z.leb_spec 0 (op_n o)) as [Hn|]; [|done]. split; [done|].
  destruct (v !! op_hash o) as [t|] eqn:Et; [|done]. cbn in E. destruct (vSpent t !! _) as [p|] eqn:Ep; [|done]. cbn in E.
  destruct (pos_IsNull p) eqn:En; [|done]. exists t. split; [done|]. destruct (Hs _ _ Et) as (_ & _ & _ & Hc & _).
  rewrite Ep. f_equal. by apply (Forall_lookup_1 _ _ _ _ Hc Ep).
Qed.

Definition hash_in (h : base_uint) (l : list CTransaction) : bool := bool_decide (h ∈ map tx_GetHash l).

Lemma disconnect_txs_spec v U l ws v' U' : conn v U l ws v' U' -> forall seen db vc, NoDup (map tx_GetHash (seen ++ l)) ->
  (forall o, is_Some (U !! o) -> is_Some (U0 !! o) \/ op_hash o ∈ map tx_GetHash seen) ->
  Forall (tx_wf tx_fresh) l -> repr db vc -> (forall h, vc !! h = v' !! h) ->
  exists db' vd, disconnect_txs db (rev l) = Some (true, db') /\ repr db' vd /\
    forall h, vd !! h = if hash_in h l then None else v !! h.
Proof.
  induction 1 as [v U HU|v U tx w p v1 U1 l ws v2 U2 HU Hs Hun _ _ _ Ev1 Hcon IH]; intros seen db vc Hnd Horig Hw Hr Hvc.
  { exists db, vc. split_and!; [done..|]. intros h. rewrite Hvc. unfold hash_in. by rewrite bool_decide_eq_false_2 by (apply not_elem_of_nil). }
  apply Forall_cons in Hw as [Hwt Hw]. set (h0 := tx_GetHash tx) in *.
  destruct (IH (seen ++ [tx]) db vc) as (db1 & vd & E1 & Hr1 & Hvd); [by rewrite <- app_assoc| |done..|].
  { intros o Ho. rewrite map_app. cbn [map]. rewrite elem_of_app, list_elem_of_singleton.
    destruct (ledger_step_origin _ _ _ _ _ _ o Hs Ho) as [Hu|Hu]; [|by right; right]. destruct (Horig o Hu); [by left|by right; left]. }
  assert (Hnd' : h0 ∉ map tx_GetHash l /\ (forall x, x ∈ map tx_GetHash seen -> x <> h0 /\ x ∉ map tx_GetHash l)).
  { rewrite map_app in Hnd. cbn in Hnd. apply NoDup_app in Hnd as (_ & Hd & Hn). apply NoDup_cons in Hn as [Hn _]. split; [done|].
    intros x Hx. specialize (Hd x Hx). apply not_elem_of_cons in Hd as [? ?]. done. }
  destruct Hnd' as [Hh0 Hseen].
  (* outputs of [U] carry neither this hash nor a later one *)
  assert (Hold : forall o, is_Some (U !! o) -> op_hash o <> h0 /\ op_hash o ∉ map tx_GetHash l).
  { intros o Ho. destruct (Horig o Ho) as [[x Hx]|Hin]; [|by apply Hseen]. split.
    - intros E. by rewrite (Hun o E) in Hx.
    - intros Hin. by rewrite (connected_unused _ _ _ _ _ _ _ _ _ _ _ _ _ Hcon Hin o eq_refl) in Hx. }
  assert (Hsound1 : index_sound files v1).
  { destruct Hcon as [v1 U1 HU1|v1 U1 ? ? ? ? ? ? ? ? ? HU1]; apply HU1. }
  assert (Hwfd : map_Forall (fun _ t => txindex_wf t) vd).
  { intros h t Et. rewrite Hvd in Et. destruct (hash_in h l); [done|]. by destruct (Hsound1 h t Et) as (_ & ? & _). }
  assert (Hspent : IsCoinBase tx = false -> forall o, o ∈ prevouts tx -> is_Some (U !! o)).
  { intros Ecb o Ho. inversion Hs as [Ecb'|w' U1' _ Esp]; subst; [by rewrite Ecb in Ecb'|]. by apply (spend_lookup _ _ _ _ o Esp). }
  assert (Hlook : forall h, h <> h0 -> vd !! h = if hash_in h l then None else (if IsCoinBase tx then v else mark v (prevouts tx) p) !! h).
  { intros h Hne. rewrite Hvd, Ev1. by rewrite lookup_insert_ne. }
  destruct (DisconnectInputs_spec repr db1 vd tx Hr1 Hwfd (wf_tx_GetHash tx)) as (db2 & E2 & Hr2).
  { intros Ecb. apply Forall_forall. intros o Ho. pose proof (Hspent Ecb o Ho) as Hu. destruct (Hold o Hu) as [Hne Hnl].
    destruct (ledger_indexed v U o HU Hu) as (Hn & t & Et & Esp). split.
    - destruct Hwt as (_ & _ & [Hin _] & _). apply list_elem_of_fmap in Ho as (x & -> & Hx). by apply (proj1 (Forall_forall _ _) Hin x Hx).
    - rewrite Hlook by done. unfold hash_in. rewrite bool_decide_eq_false_2 by done. rewrite Ecb, mark_lookup, Et. cbn. eexists. split; [done|].
      cbn. unfold len. rewrite length_imap. apply lookup_lt_Some in Esp. lia. }
  exists db2, (delete h0 (if IsCoinBase tx then vd else mark vd (prevouts tx) pos_null)). split_and!; [|done|].
  - cbn [rev]. rewrite disconnect_txs_app, E1. cbn [mbind option_bind negb disconnect_txs]. rewrite E2. done.
  - intros h. unfold hash_in. cbn [map]. destruct (decide (h = h0)) as [->|Hne].
    { rewrite lookup_delete_eq, bool_decide_eq_true_2 by (apply list_elem_of_here). done. }
    rewrite lookup_delete_ne by done.
    rewrite (bool_decide_ext (h ∈ h0 :: map tx_GetHash l) (h ∈ map tx_GetHash l)) by (rewrite elem_of_cons; naive_solver).
    fold (hash_in h l). destruct (IsCoinBase tx) eqn:Ecb; [by apply Hlook|].
    rewrite mark_lookup, Hlook by done. destruct (hash_in h l); [done|]. rewrite <- (mark_lookup _ _ (mark v (prevouts tx) p)).
    apply mark_undo. intros o t Ho Eo Et. destruct (ledger_indexed v U o HU (Hspent eq_refl o Ho)) as (_ & t' & Et' & Esp).
    rewrite Eo, Et in Et'. by injection Et' as <-.
Qed.
End disconnecting.

(** ** Whole blocks *)

Lemma list_to_set_size_NoDup (l : list base_uint) : size (list_to_set l : gset base_uint) = length l -> NoDup l.
Proof.
  assert (Hle : forall l : list base_uint, (size (list_to_set l : gset base_uint) <= length l)%nat).
  { clear l. induction l as [|x l IH]; [by rewrite list_to_set_nil, size_empty|]. rewrite list_to_set_cons. cbn [length].
    pose proof (size_union_alt ({[x]} : gset base_uint) (list_to_set l)) as E. rewrite E, size_singleton.
    pose proof (subseteq_size (list_to_set l ∖ {[x]}) (list_to_set l : gset base_uint) ltac:(set_solver)). lia. }
  induction l as [|x l IH]; intros E; [constructor|]. rewrite list_to_set_cons in E. cbn [length] in E. pose proof (Hle l).
  destruct (decide (x ∈ l)) as [Hin|Hn].
  - rewrite subseteq_union_1_L in E by set_solver. lia.
  - apply NoDup_cons. split; [done|]. apply IH. rewrite size_union, size_singleton in E by set_solver. lia.
Qed.

Section blocks.
Context {D : Type} `{!ChainDB D} (repr : D -> gmap base_uint CTxIndex -> Prop) `{!ChainDB_spec repr}.

Lemma write_queued_spec l : forall db v, repr db v -> NoDup l.*1 -> Forall (fun e => wf 8 (fst e) /\ txindex_wf (snd e)) l ->
  exists db', write_queued db l = Some (true, db') /\ repr db' (list_to_map l ∪ v).
Proof.
  induction l as [|[h t] l IH]; intros db v Hr Hnd Hl; [exists db; by rewrite list_to_map_nil, (left_id_L ∅ (∪))|].
  apply NoDup_cons in Hnd as [Hh Hnd]. apply Forall_cons in Hl as [[Hwh Hwt] Hl]. cbn [write_queued].
  destruct (idx_Update_spec db v h t Hr Hwh Hwt) as (db1 & -> & Hr1). cbn.
  destruct (IH db1 _ Hr1 Hnd Hl) as (db' & E & Hr'). exists db'. split; [done|].
  replace (<[h := t]> (list_to_map l) ∪ v) with (list_to_map l ∪ <[h := t]> v); [done|].
  rewrite <- insert_union_l, <- insert_union_r; [done|]. by apply not_elem_of_list_to_map_1.
Qed.

Lemma list_to_map_entries {V} (m : gmap base_uint V) : list_to_map (entries m) = m /\ NoDup (entries m).*1.
Proof.
  assert (Hp : entries m ≡ₚ map_to_list m) by apply sorting.merge_sort_Permutation.
  assert (Hn : NoDup (entries m).*1) by (rewrite Hp; apply NoDup_fst_map_to_list). split; [|done].
  rewrite (list_to_map_proper (entries m) (map_to_list m)) by done. apply list_to_map_to_list.
Qed.
End blocks.

Section check_block.
Context `{BNS : BN_spec} `{CS : Crypto_spec} `{EC} (Hash9 : list Z -> base_uint) (limit hashGenesis : base_uint).

Lemma BuildMerkleTree_vtx b root b' : BuildMerkleTree b = Some (root, b') -> vtx b' = vtx b.
Proof. unfold BuildMerkleTree. destruct (merkle_rows _ _ _ _); [|done]. by intros [= _ <-]. Qed.

(** What the later steps rely on. *)
Lemma CheckBlock_accepts b pow root b' : CheckBlock Hash9 limit hashGenesis b pow root = Some (Accept b') ->
  vtx b' = vtx b /\ NoDup (map tx_GetHash (vtx b)) /\
  GetSerializeSize (ser_block block_null) SER_NETWORK PROTOCOL_VERSION b <= MAX_BLOCK_SIZE /\
  exists coinbase rest, vtx b = coinbase :: rest /\ IsCoinBase coinbase = true /\
    Forall (fun tx => IsCoinBase tx = false) rest /\ Forall (fun tx => IsCoinStake tx = false) (tail rest) /\
    (block_IsProofOfStake b = true -> exists o, vout coinbase = [o] /\ nValue o = 0).
Proof.
  unfold CheckBlock. destruct (vtx b) as [|coinbase rest] eqn:Ev; [done|].
  destruct (_ || _) eqn:Esz; [done|]. apply orb_false_iff in Esz as [_ Esz]. apply Z.ltb_ge in Esz.
  destruct (_ && _); [done|]. destruct (IsCoinBase coinbase) eqn:Ecb; cbn [negb]; [|done].
  destruct (existsb IsCoinBase rest) eqn:E1; [done|]. destruct (existsb IsCoinStake (tail rest)) eqn:E2; [done|].
  destruct (block_IsProofOfStake b && _) eqn:E3; [done|].
  destruct (check_txs _ _); [done|]. destruct (unique_hashes _) eqn:Eu; cbn [negb]; [|done].
  destruct (sum_sigops _ _); [|done]. cbn [mbind option_bind]. destruct (_ <? _); [done|].
  destruct (if root then _ else _) as [[r b1]|] eqn:Em; [|done]. cbn [mbind option_bind]. destruct (bu_eq (hashMerkleRoot b) r); cbn [negb]; [|done].
  destruct (CheckBlockSignature _ _ _) as [[]|]; cbn [mbind option_bind negb]; [|done|done]. intros [= <-].
  assert (Hex : forall f (l : list CTransaction), existsb f l = false -> Forall (fun tx => f tx = false) l).
  { intros f l. induction l as [|x l IH]; [constructor|]. cbn. intros Hf. apply orb_false_iff in Hf as [? ?]. constructor; [done|by apply IH]. }
  split_and!; [|by apply list_to_set_size_NoDup; rewrite length_map; apply Nat.eqb_eq|done|].
  - destruct root; [by apply BuildMerkleTree_vtx in Em; rewrite Em|injection Em as _ <-; done].
  - exists coinbase, rest. split_and!; [done|done|by apply Hex|by apply Hex|]. intros Hpos. rewrite Hpos in E3. cbn [andb] in E3.
    apply negb_false_iff in E3. destruct (vout coinbase) as [|o [|]]; [done| |done]. exists o. split; [done|].
    unfold txout_IsEmpty in E3. apply andb_prop in E3 as [E3 _]. by apply Z.eqb_eq in E3.
Qed.
End check_block.

(** A block that can be written and read back. *)
Definition block_ok (b : CBlock) : Prop :=
  header_wf (header_of b) /\ vector_wf (tx_wf tx_fresh) (vtx b) /\ bytes_wf (vchBlockSig b).

Lemma fold_left_ext {A B} (f g : A -> B -> A) l : (forall a x, f a x = g a x) -> forall n, fold_left f l n = fold_left g l n.
Proof. intros Hfg. induction l as [|x l IH]; intros n; [done|]. cbn [fold_left]. by rewrite Hfg, IH. Qed.

(** The network format of a block is its disk format. *)
Lemma block_size_disk b : GetSerializeSize (ser_block block_null) SER_NETWORK PROTOCOL_VERSION b =
  GetSerializeSize (ser_block_at b SER_DISK) SER_DISK CLIENT_VERSION b.
Proof.
  assert (Ht : forall tx, GetSerializeSize (ser_tx tx_fresh) SER_NETWORK PROTOCOL_VERSION tx = GetSerializeSize (ser_tx tx_fresh) SER_DISK CLIENT_VERSION tx).
  { intros tx. cbn [GetSerializeSize ser_tx ser_struct ser_dep ser_pair fst]. by destruct (1 <? tx_nVersion tx). }
  cbn [GetSerializeSize ser_block ser_block_at ser_struct ser_pair]. unfold ser_body.
  change (header_only SER_NETWORK) with false. change (header_only SER_DISK) with false.
  cbn [GetSerializeSize ser_pair ser_vector]. rewrite (fold_left_ext _ _ (vtx b) (fun n x => f_equal (fun z => u32 (n + z)) (Ht x))). reflexivity.
Qed.

Lemma block_tx_count b files f bp : block_ok b -> stored files b f bp ->
  GetSerializeSize (ser_block block_null) SER_NETWORK PROTOCOL_VERSION b <= MAX_BLOCK_SIZE -> len (vtx b) <= 100000.
Proof.
  intros (Hh & Hv & Hs) (_ & _ & bytes & rest & _ & _ & Hl & E) Hsz.
  rewrite block_size_disk in Hsz.
  assert (Hw : block_wf b b) by (by split_and!).
  rewrite (sc_size _ _ (ser_block_correct b SER_DISK eq_refl) SER_DISK CLIENT_VERSION b Hw) in Hsz.
  change (Serialize (ser_block_at b SER_DISK) SER_DISK CLIENT_VERSION b) with (Serialize (ser_block block_null) SER_DISK CLIENT_VERSION b) in Hsz.
  set (s := Serialize (ser_block block_null) SER_DISK CLIENT_VERSION b) in *.
  assert (Hls : len s < 2 ^ 31).
  { assert (len (drop (Z.to_nat bp) bytes) <= len bytes) by (unfold len; rewrite length_drop; lia). rewrite E, len_app in *. pose proof (len_nonneg rest). lia. }
  pose proof (len_nonneg s). rewrite wrap_id in Hsz by (unfold fits; lia).
  assert (Hc : forall l, 10 * len l <= len (concat (map tx_bytes l))).
  { induction l as [|x l IH]; [done|]. cbn [map concat]. rewrite len_app, len_cons.
    pose proof (tx_bytes_min tx_fresh SER_DISK CLIENT_VERSION x) as Hm. fold (tx_bytes x) in Hm. lia. }
  unfold s in Hsz. rewrite block_bytes, !len_app in Hsz. specialize (Hc (vtx b)). unfold MAX_BLOCK_SIZE in Hsz.
  pose proof (len_nonneg (Serialize ser_header SER_DISK CLIENT_VERSION (header_of b))). pose proof (len_nonneg (WriteCompactSize (len (vtx b)))).
  pose proof (len_nonneg (Serialize ser_bytes SER_DISK CLIENT_VERSION (vchBlockSig b))). lia.
Qed.

Lemma swrap_combine p a b : s64 (p + s64 a - s64 b) = s64 (p + a - b).
Proof.
  assert (Hd : forall z, exists k, s64 z = z + k * 2 ^ 64).
  { intros z. exists (- ((z + 2 ^ (64 - 1)) / 2 ^ 64)). unfold swrap. rewrite Z.mod_eq by lia. change (2 ^ (64 - 1)) with (2 ^ 63). lia. }
  destruct (Hd a) as [k1 ->], (Hd b) as [k2 ->]. unfold swrap. f_equal.
  replace (p + (a + k1 * 2 ^ 64) - (b + k2 * 2 ^ 64) + 2 ^ (64 - 1)) with (p + a - b + 2 ^ (64 - 1) + (k1 - k2) * 2 ^ 64) by lia. apply Z_mod_plus_full.
Qed.

Section connect_block.
Context {D : Type} `{!ChainDB D} (repr : D -> gmap base_uint CTxIndex -> Prop) `{!ChainDB_spec repr}.
Context `{BNS : BN_spec} `{CS : Crypto_spec} `{EC}.
Context (Hash9 : list Z -> base_uint) (limit hashGenesis : base_uint) (files : block_files) (pool : CTxMemPool).
Context (nStakeMinAge nCoinbaseMaturity nBestHeight nTotalBlocksEstimate : Z) (GetRandHash : nat -> base_uint) (nMaxCacheSize : Z).

Abbreviation connect_block := (ConnectBlock Hash9 limit hashGenesis files pool nStakeMinAge nCoinbaseMaturity nBestHeight nTotalBlocksEstimate
  GetRandHash nMaxCacheSize).

Lemma write_prev_spec db v st prev h ok db' : repr db v -> write_prev db st prev h = Some (ok, db') ->
  repr db' v /\ ok = true /\
    forall v' h' db2, repr db2 v' -> exists db3, write_prev db2 st prev h' = Some (true, db3) /\ repr db3 v'.
Proof.
  intros Hr. unfold write_prev. destruct prev as [q|]; [|intros [= <- <-]; split_and!; [done..|]; intros; by eexists].
  destruct (disk_of st q) as [d|]; [|done]. cbn. intros E.
  destruct (cdb_WriteBlockIndex_spec db v (mkDiskIndex (d_index d) (blockHash d) (hashPrev d) h) Hr) as (db1 & E1 & Hr1).
  rewrite E1 in E. injection E as <- <-. split_and!; [done..|].
  intros v' h' db2 Hr2. by apply cdb_WriteBlockIndex_spec.
Qed.

(** The trace of a block that was connected, and what is written about it. *)
Lemma ConnectBlock_trace txdb m U st b pindex i c txdb' st' c' : repr txdb m -> ledger_of files m U -> cache_ok c -> block_ok b ->
  deref st pindex = Some i -> stored files b (i_nFile i) (i_nBlockPos i) ->
  connect_block txdb st b pindex false c = Some (Accept tt, txdb', st', c') ->
  exists m' ws U' i' prevSupply, repr txdb' m' /\ cache_ok c' /\
    connected files nStakeMinAge nBestHeight nTotalBlocksEstimate txdb U m U (vtx b) ws m' U' /\
    deref st' pindex = Some i' /\ pprev i' = pprev i /\ nHeight i' = nHeight i /\
    match pprev i with None => Some 0 | Some q => nMoneySupply <$> deref st q end = Some prevSupply /\
    nMoneySupply i' = s64 (prevSupply + total_out (vtx b) - sum ws) /\
    NoDup (map tx_GetHash (vtx b)) /\ (exists b', CheckBlock Hash9 limit hashGenesis b true true = Some (Accept b')) /\
    (forall coinbase, vtx b !! 0%nat = Some coinbase ->
       total (vout coinbase) <= GetProofOfWorkReward (nHeight i) (s64 (fees (vtx b) ws))) /\
    (forall v h db2, repr db2 v -> exists db3, write_prev db2 st' (pprev i') h = Some (true, db3) /\ repr db3 v).
Proof.
  intros Hr HU Hc (Hh & [Hv _] & _) Ei (Hf & Hbp & bytes & rest & Hfile & Hdig & Hlen & Hdrop) E. unfold ConnectBlock in E. cbn [negb] in E.
  destruct (CheckBlock _ _ _ b true true) as [[dos|b1]|] eqn:Echk; cbn [mbind option_bind] in E; [discriminate| |discriminate].
  destruct (CheckBlock_accepts _ _ _ _ _ _ _ Echk) as (Evtx & Hnd & _ & coinbase & txs & Ecb & Hcb & _). rewrite Ei in E. cbn [mbind option_bind] in E.
  assert (Hfp : first_tx_pos i b1 false = first_tx_pos i b false) by (unfold first_tx_pos; by rewrite Evtx). rewrite Hfp, Evtx in E.
  destruct (first_tx_stored b i rest bytes Hh Hbp Hlen Hdrop) as [Hpos Hdrop1].
  destruct (connect_txs _ _ _ _ _ _ _ _ _ _ _ _ _ _ _ _) as [[[dos|s] c1]|] eqn:Etx; cbn [mbind option_bind] in E; [discriminate| |discriminate].
  assert (Hbp32 : fits 32 (i_nBlockPos i)).
  { split; [done|]. assert (Hb : len bytes - i_nBlockPos i >= 0 \/ len bytes < i_nBlockPos i) by lia. destruct Hb as [Hb|Hb]; [lia|]. exfalso.
    rewrite drop_ge in Hdrop by (unfold len in Hb; lia). rewrite block_bytes in Hdrop. apply (f_equal len) in Hdrop. rewrite !len_app, header_length in Hdrop by done.
    rewrite len_nil in Hdrop. pose proof (len_nonneg (WriteCompactSize (len (vtx b)))). pose proof (len_nonneg (concat (map tx_bytes (vtx b)))).
    pose proof (len_nonneg (Serialize ser_bytes SER_DISK CLIENT_VERSION (vchBlockSig b))). pose proof (len_nonneg rest). lia. }
  assert (Hm0 : (∅ : gmap base_uint CTxIndex) ∪ m = m) by apply (left_id_L ∅ (∪)).
  set (s0 := mkConnect ∅ 0 0 0 0 (first_tx_pos i b false)) in Etx.
  assert (HU0 : ledger_of files (mapQueuedChanges s0 ∪ m) U) by (cbn [mapQueuedChanges s0]; rewrite Hm0; exact HU).
  assert (Horig : forall o, is_Some (U !! o) -> is_Some (U !! o) \/ op_hash o ∈ map tx_GetHash []) by (intros o Ho; by left).
  assert (Hzero : sfits 64 0) by (unfold sfits; lia).
  destruct (connect_txs_spec repr files pool nStakeMinAge nCoinbaseMaturity nBestHeight nTotalBlocksEstimate GetRandHash nMaxCacheSize txdb m Hr U HU
    st pindex i bytes Hf Hbp32 Hfile Hdig Hlen (vtx b) [] s0 c s c1 U _ HU0 Hc Hv Hnd Horig Hpos Hdrop1 Hzero Hzero Hzero Etx)
    as (Hc1 & ws & U' & Hcon & Evi & Evo & Efe).
  cbn [mapQueuedChanges cs_nTxPos cs_nValueIn cs_nValueOut cs_nFees s0] in Hcon, Evi, Evo, Efe. rewrite Hm0 in Hcon. rewrite Z.add_0_l in Evi, Evo, Efe.
  destruct (match pprev i with None => Some 0 | Some q => _ end) as [prevSupply|] eqn:Eprev; [|discriminate]. cbn [mbind option_bind] in E.
  set (i' := set_money i _ _) in E. set (st1 := set_heap pindex i' st) in E.
  destruct (disk_of st1 pindex) as [d|]; [|discriminate]. cbn [mbind option_bind] in E.
  destruct (cdb_WriteBlockIndex_spec txdb m d Hr) as (db1 & E1 & Hr1). rewrite E1 in E. cbn [mbind option_bind negb] in E.
  destruct (list_to_map_entries (mapQueuedChanges s)) as [Hl Hn]. pose proof (connected_steps _ _ _ _ _ _ _ _ _ _ _ _ Hcon) as [_ HU'].
  destruct (write_queued_spec repr (entries (mapQueuedChanges s)) db1 m Hr1 Hn) as (db2 & E2 & Hr2).
  { apply Forall_forall. intros [h t] Hin. assert (mapQueuedChanges s !! h = Some t) as Eh.
    { rewrite <- Hl. by apply elem_of_list_to_map_1. }
    assert ((mapQueuedChanges s ∪ m) !! h = Some t) as Eu by (by apply lookup_union_Some_l). by destruct (proj1 HU' h t Eu) as (? & ? & _). }
  rewrite E2 in E. match type of Hr2 with repr _ (?x ∪ _) => replace x with (mapQueuedChanges s) in Hr2 by (symmetry; exact Hl) end. cbn [mbind option_bind negb] in E. rewrite Ecb in E. cbn [lookup list_lookup mbind option_bind] in E.
  destruct (GetValueOut coinbase) as [vo|] eqn:Egv; [|discriminate]. cbn [mbind option_bind] in E.
  destruct (Z.ltb_spec (GetProofOfWorkReward (nHeight i') (cs_nFees s)) vo) as [|Hrew]; [discriminate|].
  destruct (GetBlockHash st1 pindex) as [bh|]; [|discriminate]. cbn [mbind option_bind] in E.
  destruct (write_prev db2 st1 (pprev i') bh) as [[ok db3]|] eqn:E3; [|discriminate]. cbn [mbind option_bind] in E.
  destruct (write_prev_spec db2 _ _ _ _ _ _ Hr2 E3) as (Hr3 & -> & Hprev). injection E as <- <- <-.
  exists (mapQueuedChanges s ∪ m), ws, U', i', prevSupply.
  assert (Hd : deref st1 pindex = Some i') by (unfold deref, st1, set_heap; cbn; apply lookup_insert_eq).
  split_and!; [exact Hr3|exact Hc1|exact Hcon|exact Hd|reflexivity|reflexivity|reflexivity| |exact Hnd|by eexists| |].
  - cbn [nMoneySupply i' set_money]. rewrite Evi, Evo. apply swrap_combine.
  - intros cb Hcb0. rewrite Ecb in Hcb0, Hcon. injection Hcb0 as <-. rewrite Efe, Ecb in Hrew. inversion Hcon as [|? ? ? ? ? ? ? ? ? ? ? ? ? ? ? ? Hgv]; subst. rewrite Egv in Hgv.
    injection Hgv as <-. rewrite Ecb. exact Hrew.
  - intros v h db4 Hr4. by apply Hprev.
Qed.
End connect_block.

(** ** What a block adds to the supply *)

Section inflation.
Context {D : Type} `{!ChainDB D} `{BN} `{Crypto} `{EC}.
Context (files : block_files) (nStakeMinAge nBestHeight nTotalBlocksEstimate : Z) (txdb : D) (U0 : ledger).
Abbreviation conn := (connected files nStakeMinAge nBestHeight nTotalBlocksEstimate txdb U0).

Lemma ordinary_fees v U l ws v' U' : conn v U l ws v' U' -> Forall (fun tx => IsCoinBase tx = false) l -> Forall (fun tx => IsCoinStake tx = false) l ->
  total_out l - sum ws = - fees l ws /\ 0 <= fees l ws <= len l * MAX_MONEY.
Proof.
  induction 1 as [|v U tx w p v1 U1 l ws v2 U2 _ Hs _ Hw Ht _ _ _ IH]; intros Hcb Hcs; [by unfold total_out, sum; cbn|].
  apply Forall_cons in Hcb as [Ec Hcb]. apply Forall_cons in Hcs as [Es Hcs]. destruct (IH Hcb Hcs) as [IH1 IH2].
  unfold total_out, sum in *. cbn [map fold_right fees]. unfold IsCoinBaseOrStake. rewrite Ec, Es. cbn [orb]. rewrite len_cons.
  inversion Hs as [Ec'|? ? _ _ _ _ Hpay]; subst; [by rewrite Ec in Ec'|]. rewrite Es in Hpay. change MIN_TX_FEE with 10000 in Hpay. lia.
Qed.

Lemma block_gain v U b ws v' U' coinbase rest height : conn v U (vtx b) ws v' U' -> vtx b = coinbase :: rest -> len (vtx b) <= 100000 ->
  IsCoinBase coinbase = true -> Forall (fun tx => IsCoinBase tx = false) rest -> Forall (fun tx => IsCoinStake tx = false) (tail rest) ->
  (block_IsProofOfStake b = true -> exists o, vout coinbase = [o] /\ nValue o = 0) ->
  total (vout coinbase) <= GetProofOfWorkReward height (s64 (fees (vtx b) ws)) ->
  if block_IsProofOfStake b
  then exists tx r, vtx b !! 1%nat = Some tx /\ stake_reward files nStakeMinAge txdb tx r /\ total_out (vtx b) - sum ws <= r
  else total_out (vtx b) - sum ws <= GetProofOfWorkReward height 0.
Proof.
  intros Hcon Ev Hlen Hcb Hrest Hstake Hempty Hrew. rewrite Ev in *. inversion Hcon as [|v0 ? tx0 w0 p0 v1 U1 l0 ws0 v2 U2 _ Hs0 _ _ Ht0 _ Ev1 Hcon1]; subst.
  assert (w0 = 0) as -> by (inversion Hs0 as [|? ? Ec]; [done|by rewrite Hcb in Ec]).
  assert (Hs : forall f, 0 <= f <= 100000 * MAX_MONEY -> s64 f = f) by (intros f Hf; apply swrap_id; change MAX_MONEY with (10 ^ 13) in Hf; lia).
  unfold block_IsProofOfStake in *. rewrite Ev in *. cbn [fees] in Hrew. unfold IsCoinBaseOrStake at 1 in Hrew. rewrite Hcb in Hrew. cbn [orb] in Hrew.
  rewrite Z.add_0_l in Hrew. unfold GetProofOfWorkReward in *. rewrite len_cons in Hlen.
  destruct rest as [|tx1 rest]; [destruct (ordinary_fees _ _ _ _ _ _ Hcon1) as [E1 E2]; [constructor..|]|destruct (IsCoinStake tx1) eqn:Ecs].
  - rewrite Hs in Hrew by (unfold len in E2; cbn [length] in E2; change MAX_MONEY with (10 ^ 13) in *; lia). unfold total_out, sum in *. cbn [map fold_right] in *. lia.
  - inversion Hcon1 as [|? ? ? w1 ? ? ? ? ws1 ? ? _ Hs1 _ _ _ _ _ Hcon2]; subst. apply Forall_cons in Hrest as [Ecb1 Hrest]. cbn [tail] in Hstake.
    destruct (ordinary_fees _ _ _ _ _ _ Hcon2 Hrest Hstake) as [E1 E2].
    inversion Hs1 as [Ec|? ? _ _ _ _ Hpay]; subst; [by rewrite Ecb1 in Ec|]. rewrite Ecs in Hpay. destruct Hpay as (r & Hr & Hle).
    destruct (Hempty eq_refl) as (o & Eo & Ez). exists tx1, r. split_and!; [done..|].
    unfold total_out, sum in *. cbn [map fold_right] in *. rewrite Eo. unfold total at 1. cbn [fold_right]. lia.
  - assert (Hall : Forall (fun tx => IsCoinStake tx = false) (tx1 :: rest)) by (by constructor).
    destruct (ordinary_fees _ _ _ _ _ _ Hcon1 Hrest Hall) as [E1 E2]. rewrite Hs in Hrew by nia.
    unfold total_out, sum in *. cbn [map fold_right] in *. lia.
Qed.
End inflation.

(** ** Main theorems *)

Section main.
Context {D : Type} `{!ChainDB D} (repr : D -> gmap base_uint CTxIndex -> Prop) `{!ChainDB_spec repr}.
Context `{BNS : BN_spec} `{CS : Crypto_spec} `{EC}.
Context (Hash9 : list Z -> base_uint) (limit hashGenesis : base_uint) (files : block_files) (pool : CTxMemPool).
Context (nStakeMinAge nCoinbaseMaturity nBestHeight nTotalBlocksEstimate : Z) (GetRandHash : nat -> base_uint) (nMaxCacheSize : Z).

(** A block that lies in the block files is connected on top of the index [m],
    whose unspent outputs are [U]. *)
Definition connects (txdb : D) (m : gmap base_uint CTxIndex) (U : ledger) (st : index_state) (b : CBlock) (pindex : ptr) (i : CBlockIndex)
    (c : CSignatureCache) (txdb' : D) (st' : index_state) (c' : CSignatureCache) : Prop :=
  repr txdb m /\ ledger_of files m U /\ cache_ok c /\ block_ok b /\ deref st pindex = Some i /\
  stored files b (i_nFile i) (i_nBlockPos i) /\
  ConnectBlock Hash9 limit hashGenesis files pool nStakeMinAge nCoinbaseMaturity nBestHeight nTotalBlocksEstimate GetRandHash nMaxCacheSize
    txdb st b pindex false c = Some (Accept tt, txdb', st', c').

(** (C1) Connecting a block.  When [ConnectBlock] accepts a block, the transaction
    index it leaves stands for the ledger that results from the block's
    transactions one after the other, each of which spends only unspent outputs
    (none of them twice), is authorised by their scripts (unless the block is
    below the last checkpoint), pays the minimum fee if it is neither coinbase
    nor coinstake, and leaves no unspent output of an older transaction with the
    same hash.  The recorded money supply changes by exactly the change of the
    sum of all unspent outputs, and that sum grows by no more than the subsidy of
    a work block or the reward for the coin age of a stake block. *)
Theorem connect_block_is_ledger_step txdb m U st b pindex i c txdb' st' c' :
  connects txdb m U st b pindex i c txdb' st' c' ->
  exists m' ws U' i' prevSupply, repr txdb' m' /\ ledger_of files m' U' /\ cache_ok c' /\
    ledger_steps (nTotalBlocksEstimate <= nBestHeight) (stake_reward files nStakeMinAge txdb) U (vtx b) ws U' /\
    deref st' pindex = Some i' /\ match pprev i with None => Some 0 | Some q => nMoneySupply <$> deref st q end = Some prevSupply /\
    nMoneySupply i' = s64 (prevSupply + (supply U' - supply U)) /\
    if block_IsProofOfStake b
    then exists tx r, vtx b !! 1%nat = Some tx /\ stake_reward files nStakeMinAge txdb tx r /\ supply U' <= supply U + r
    else supply U' <= supply U + GetProofOfWorkReward (nHeight i) 0.
Proof.
  intros (Hr & HU & Hc & Hb & Ei & Hst & E).
  destruct (ConnectBlock_trace repr Hash9 limit hashGenesis files pool nStakeMinAge nCoinbaseMaturity nBestHeight nTotalBlocksEstimate GetRandHash
    nMaxCacheSize txdb m U st b pindex i c txdb' st' c' Hr HU Hc Hb Ei Hst E)
    as (m' & ws & U' & i' & prevSupply & Hr' & Hc' & Hcon & Ei' & _ & _ & Eprev & Esup & _ & (b' & Echk) & Hrew & _).
  destruct (CheckBlock_accepts _ _ _ _ _ _ _ Echk) as (_ & _ & Hsz & coinbase & rest & Ev & Hcb & Hrest & Hstake & Hempty).
  pose proof (connected_steps _ _ _ _ _ _ _ _ _ _ _ _ Hcon) as [Hsteps HU'].
  pose proof (ledger_steps_supply _ _ _ _ _ _ Hsteps) as Hsup.
  exists m', ws, U', i', prevSupply. split_and!; [exact Hr'|exact HU'|exact Hc'|exact Hsteps|exact Ei'|exact Eprev| |].
  - rewrite Esup. f_equal. lia.
  - assert (Hgain := block_gain _ _ _ _ _ _ _ _ _ _ _ _ coinbase rest (nHeight i) Hcon Ev (block_tx_count b files _ _ Hb Hst Hsz) Hcb Hrest Hstake Hempty
      (Hrew coinbase ltac:(by rewrite Ev))).
    destruct (block_IsProofOfStake b); [|lia]. destruct Hgain as (tx & r & E1 & Hr1 & Hle). exists tx, r. split_and!; [exact E1|exact Hr1|lia].
Qed.

(** (C7) Disconnecting a block.  [DisconnectBlock] of the block that was connected
    last succeeds, removes its transactions from the index and leaves every other
    entry as it was before the block; the unspent outputs are those from before. *)
Theorem disconnect_undoes_connect txdb m U st b pindex i c txdb' st' c' :
  connects txdb m U st b pindex i c txdb' st' c' ->
  exists db m0, DisconnectBlock txdb' st' b pindex = Some (true, db) /\ repr db m0 /\ ledger_of files m0 U /\
    forall h, m0 !! h = if hash_in h (vtx b) then None else m !! h.
Proof.
  intros (Hr & HU & Hc & Hb & Ei & Hst & E).
  destruct (ConnectBlock_trace repr Hash9 limit hashGenesis files pool nStakeMinAge nCoinbaseMaturity nBestHeight nTotalBlocksEstimate GetRandHash
    nMaxCacheSize txdb m U st b pindex i c txdb' st' c' Hr HU Hc Hb Ei Hst E)
    as (m' & ws & U' & i' & prevSupply & Hr' & _ & Hcon & Ei' & _ & _ & _ & _ & Hnd & _ & _ & Hprev).
  destruct (disconnect_txs_spec repr files nStakeMinAge nBestHeight nTotalBlocksEstimate txdb U m U (vtx b) ws m' U' Hcon [] txdb' m')
    as (db1 & m0 & E1 & Hr0 & Hm0); [exact Hnd|by left|apply Hb|exact Hr'|done|].
  unfold DisconnectBlock. rewrite E1. cbn [mbind option_bind negb]. rewrite Ei'. cbn [mbind option_bind].
  assert (Hun : forall h, hash_in h (vtx b) = true -> unused U h).
  { intros h Hin. apply bool_decide_eq_true_1 in Hin. by apply (connected_unused _ _ _ _ _ _ _ _ _ _ _ _ _ Hcon). }
  assert (Hsame : forall db2, repr db2 m0 -> exists db3, write_prev db2 st' (pprev i') (bu_zero 8) = Some (true, db3) /\ repr db3 m0).
  { intros db2 Hr2. by apply Hprev. }
  destruct (Hsame db1 Hr0) as (db3 & E3 & Hr3). exists db3, m0. split_and!; [exact E3|exact Hr3| |exact Hm0]. split.
  - intros h t Et. rewrite Hm0 in Et. destruct (hash_in h (vtx b)); [done|]. by apply HU.
  - intros o. destruct (hash_in (op_hash o) (vtx b)) eqn:Ein.
    + rewrite (Hun _ Ein o eq_refl). unfold unspent. destruct (0 <=? op_n o); [|done]. by rewrite Hm0, Ein.
    + rewrite (proj2 HU). apply unspent_ext. by rewrite Hm0, Ein.
Qed.
End main.

(** ** An example: the first block *)

Section example.
#[local] Existing Instance BN_Z.
#[local] Existing Instance Crypto_toy.
#[local] Existing Instance EC_toy.
#[local] Existing Instance LevelDB_map.
#[local] Existing Instance LevelDB_map_spec.
#[local] Existing Instance Crypto_toy_spec.

Definition example_coinbase : CTransaction := mkTx 1 0 [mkTxIn out_null [1; 1] 0] [mkTxOut 10000 []] 0 [] 0.
Definition example_hash9 (l : list Z) : base_uint := bu_zero 8.
Definition example_genesis : CBlock :=
  mkBlock 6 (bu_zero 8) (tx_GetHash example_coinbase) 0 0x1e0fffff 0 [example_coinbase] [] [] 0.
Definition example_files : block_files := {[ 1 := Serialize (ser_block block_null) SER_DISK CLIENT_VERSION example_genesis ]}.
Definition example_pindex : CBlockIndex :=
  mkIndex (Some (bu_zero 8)) None None 1 0 (bu_zero 8) 0 0 0 0 0 0 out_null 0 (bu_zero 8) 6 (bu_zero 8) 0 0x1e0fffff 0.
Definition example_state : index_state := mkIndexState {[ 0 := example_pindex ]} ∅ None None.
Definition example_db : CTxDB := mkTxDB (∅ : gmap (list Z) (list Z)) (Some []) false.

Definition example_run :=
  @ConnectBlock CTxDB (txdb_chain example_hash9 0) _ _ _ example_hash9 example_limit (bu_zero 8) example_files (mkPool ∅ ∅ 0) 3600 40 0 0
    (fun _ => bu_zero 8) 10 example_db example_state example_genesis 0 false (mkSigCache [] 0).

Lemma example_genesis_ok : block_ok example_genesis.
Proof.
  split_and!; [split_and!; [unfold sfits; cbn; lia|apply wf_zero|apply wf_tx_GetHash|by vm_compute..]| |split; [constructor|done]].
  split; [|done]. forall_list. split_and!; [unfold sfits; cbn; lia|by vm_compute|split; [forall_list|done]|split; [forall_list|done]|by vm_compute|done|done].
  - split_and!; [split; [apply wf_zero|by vm_compute]|split; [forall_list|done]|by vm_compute].
  - split; [unfold sfits; cbn; lia|split; [constructor|done]].
Qed.

Lemma example_connects db st c : example_run = Some (Accept tt, db, st, c) ->
  connects (D := CTxDB) (ChainDB0 := txdb_chain example_hash9 0) txdb_repr example_hash9 example_limit (bu_zero 8) example_files (mkPool ∅ ∅ 0) 3600 40 0 0
    (fun _ => bu_zero 8) 10 example_db ∅ ∅ example_state example_genesis 0 example_pindex (mkSigCache [] 0) db st c.
Proof.
  intros E. split_and!; [split_and!; [done|by eexists|split; [done|by intros h _]]|split; [done|]|constructor|apply example_genesis_ok|done| |exact E].
  - intros o. unfold unspent. by destruct (0 <=? op_n o).
  - split; [unfold UINT_MAX; cbn; lia|]. split; [cbn; lia|]. eexists _, []. split; [apply lookup_singleton_eq|].
    assert (Hw : block_wf block_null example_genesis) by (destruct example_genesis_ok as (H1 & H2 & H3); by split_and!).
    split_and!; [apply (sc_bytes _ _ (ser_block_correct block_null SER_DISK eq_refl) SER_DISK CLIENT_VERSION _ Hw)|by vm_compute|].
    by rewrite app_nil_r.
Qed.

Lemma example_accepted : exists db st c, example_run = Some (Accept tt, db, st, c).
Proof.
  assert (E : match example_run with Some (Accept tt, _, _, _) => true | _ => false end = true) by (vm_compute; reflexivity).
  destruct example_run as [[[[[dos|[]] db] st] c]|]; [discriminate|by eexists _, _, _|discriminate].
Qed.

Lemma connect_block_is_ledger_step_witness : exists db st c, example_run = Some (Accept tt, db, st, c) /\
  exists m' U', txdb_repr db m' /\ ledger_of example_files m' U' /\ supply U' <= 1000000.
Proof.
  destruct example_accepted as (db & st & c & E). exists db, st, c. split; [exact E|].
  destruct (@connect_block_is_ledger_step CTxDB (txdb_chain example_hash9 0) txdb_repr (txdb_chain_spec example_hash9 0) BN_Z BN_Z_spec Crypto_toy Crypto_toy_spec
    EC_toy _ _ _ _ _ _ _ _ _ _ _ _ _ _ _ _ _ _ _ _ _ _ (example_connects db st c E)) as (m' & ws & U' & i' & ps & Hr & HU & _ & _ & _ & _ & _ & Hs).
  exists m', U'. split; [exact Hr|]. split; [exact HU|]. exact Hs.
Defined.

Lemma disconnect_undoes_connect_witness : exists db st c, example_run = Some (Accept tt, db, st, c) /\
  exists db0 m0, DisconnectBlock (ChainDB0 := txdb_chain example_hash9 0) db st example_genesis 0 = Some (true, db0) /\ txdb_repr db0 m0 /\
    ledger_of example_files m0 ∅.
Proof.
  destruct example_accepted as (db & st & c & E). exists db, st, c. split; [exact E|].
  destruct (@disconnect_undoes_connect CTxDB (txdb_chain example_hash9 0) txdb_repr (txdb_chain_spec example_hash9 0) BN_Z BN_Z_spec Crypto_toy Crypto_toy_spec
    EC_toy _ _ _ _ _ _ _ _ _ _ _ _ _ _ _ _ _ _ _ _ _ _ (example_connects db st c E)) as (db0 & m0 & Ed & Hr & HU & _).
  exists db0, m0. split; [exact Ed|]. split; [exact Hr|exact HU].
Defined.
End example.
