(* ===== verification/Accept.v ===== *)
(** * main.cpp: admission to the memory pool

    [CTransaction::IsStandard] and [AreInputsStandard] restrict what is relayed;
    [CTxMemPool::accept] checks a loose transaction and adds it to the pool.

    The rate limiter for free transactions keeps a floating-point count; its
    verdict is the argument [rate_limited].  (A transaction that pays the minimum
    relay fee never reaches it, and the fee check before it demands that much.) *)
From Stdlib Require Import ZArith Lia Bool.
From stdpp Require Import prelude gmap.
From S2P Require Import Prelude Uint256 DataStream Serialize Crypto Bignum Opcodes Script Tx Block Index TxDB.
From S2P Require Import Target Keys Pool SigHash Interp Standard Connect Chain.

(** ** Standard transactions *)

(** The counters [nDataOut] and [nTxnOut] are never read. *)
Definition tx_IsStandard (tx : CTransaction) : bool :=
  if CURRENT_VERSION <? tx_nVersion tx then false
  else if negb (forallb (fun txin => negb (1024 <? len (scriptSig txin)) && IsPushOnly (scriptSig txin)) (vin tx)) then false
  else forallb (fun txout => fst (IsStandard (scriptPubKey txout)) && negb (nValue txout =? 0)) (vout tx).

Section accept.
Context {D : Type} `{!ChainDB D} `{BN} `{Crypto} `{EC}.
Context (GetRandHash : nat -> base_uint) (nMaxCacheSize : Z).

(** The number of stack elements expected for an output script, with the stack
    that the input leaves; [None] refuses. *)
Definition args_expected (prevScript : CScript) (stack : list valtype) : option Z :=
  let '(ok, whichType, vSolutions) := Solver prevScript [] in
  if negb ok then None
  else
    let nArgsExpected := ScriptSigArgsExpected whichType vSolutions in
    if nArgsExpected <? 0 then None
    else if bool_decide (whichType = TX_SCRIPTHASH) then
      match stack with
      | [] => None
      | subscript :: _ =>
          let '(ok, whichType2, vSolutions2) := Solver subscript [] in
          if negb ok then None
          else if bool_decide (whichType2 = TX_SCRIPTHASH) then None
          else
            let tmpExpected := ScriptSigArgsExpected whichType2 vSolutions2 in
            if tmpExpected <? 0 then None else Some (nArgsExpected + tmpExpected)
      end
    else Some nArgsExpected.

(** The loop of [AreInputsStandard] from input [i] on; the order of the checks on
    an input does not show, since all of them refuse.  [None] is the exception of
    [GetOutputFor]. *)
Fixpoint inputs_standard (tx : CTransaction) (i : Z) (l : list CTxIn) (mapInputs : MapPrevTx) (c : CSignatureCache)
    : option (bool * CSignatureCache) :=
  match l with
  | [] => Some (true, c)
  | txin :: l =>
      prev ← GetOutputFor txin mapInputs;
      let '(ok, whichType, vSolutions) := Solver (scriptPubKey prev) [] in
      if negb ok then Some (false, c)
      else if ScriptSigArgsExpected whichType vSolutions <? 0 then Some (false, c)
      else
        let '(ok, stack, c) := EvalScript (fun c vchSig vchPubKey code =>
              CheckSig GetRandHash nMaxCacheSize c vchSig vchPubKey code tx i 0) [] (scriptSig txin) c in
        if negb ok then Some (false, c)
        else
          match args_expected (scriptPubKey prev) stack with
          | None => Some (false, c)
          | Some nArgsExpected =>
              if negb (len stack =? nArgsExpected) then Some (false, c)
              else inputs_standard tx (i + 1) l mapInputs c
          end
  end.

Definition AreInputsStandard (tx : CTransaction) (mapInputs : MapPrevTx) (c : CSignatureCache) : option (bool * CSignatureCache) :=
  if IsCoinBase tx then Some (true, c) else inputs_standard tx 0 (vin tx) mapInputs c.

(** ** [CTxMemPool::accept] *)

Context (files : block_files) (fTestNet rate_limited : bool).
Context (nStakeMinAge nCoinbaseMaturity nBestHeight nTotalBlocksEstimate : Z) (st : index_state).

(** The checks on the inputs: the answer and [*pfMissingInputs]. *)
Definition accept_inputs (pool : CTxMemPool) (txdb : D) (tx : CTransaction) (c : CSignatureCache) : option (bool * bool * CSignatureCache) :=
  '(ok, fInvalid, mapInputs) ← FetchInputs files pool txdb ∅ false false tx ∅;
  if negb ok then Some (false, negb fInvalid, c)
  else
    '(standard, c) ← AreInputsStandard tx mapInputs c;
    if negb standard && negb fTestNet then Some (false, false, c)
    else
      valIn ← GetValueIn tx mapInputs;
      valOut ← GetValueOut tx;
      let nFees := s64 (valIn - valOut) in
      let nSize := GetSerializeSize (ser_tx tx) SER_NETWORK PROTOCOL_VERSION tx in
      let txMinFee := GetMinFee tx 1000 false GMF_RELAY nSize in
      if nFees <? txMinFee then Some (false, false, c)
      else if (nFees <? MIN_RELAY_TX_FEE) && rate_limited then Some (false, false, c)
      else
        pindex ← pindexBest st;
        '(r, c) ← ConnectInputs files nStakeMinAge st nCoinbaseMaturity nBestHeight nTotalBlocksEstimate GetRandHash nMaxCacheSize
                    txdb tx mapInputs ∅ pos_mempool pindex false false true c;
        match r with Refuse _ => Some (false, false, c) | Accept _ => Some (true, false, c) end.

(** The answer, [*pfMissingInputs], the pool and the signature cache. *)
Definition accept (pool : CTxMemPool) (txdb : D) (tx : CTransaction) (fCheckInputs : bool) (c : CSignatureCache)
    : option (bool * bool * CTxMemPool * CSignatureCache) :=
  if negb (fst (CheckTransaction tx)) then Some (false, false, pool, c)
  else if IsCoinBase tx then Some (false, false, pool, c)
  else if IsCoinStake tx then Some (false, false, pool, c)
  else if 2 ^ 31 - 1 <? nLockTime tx then Some (false, false, pool, c)
  else if negb fTestNet && negb (tx_IsStandard tx) then Some (false, false, pool, c)
  else
    let hash := tx_GetHash tx in
    if pool_exists pool hash then Some (false, false, pool, c)
    else if fCheckInputs && cdb_ContainsTx txdb hash then Some (false, false, pool, c)
    else if existsb (fun txin => bool_decide (is_Some (mapNextTx pool !! prevout txin))) (vin tx) then Some (false, false, pool, c)
    else
      '(ok, missing, c) ← (if fCheckInputs then accept_inputs pool txdb tx c else Some (true, false, c));
      if negb ok then Some (false, missing, pool, c)
      else Some (true, false, addUnchecked pool hash tx, c).
End accept.

(** ** What is accepted *)

Section accept_facts.
Context {D : Type} `{!ChainDB D} `{BN} `{Crypto} `{EC}.
Context (GetRandHash : nat -> base_uint) (nMaxCacheSize : Z) (files : block_files) (fTestNet rate_limited : bool).
Context (nStakeMinAge nCoinbaseMaturity nBestHeight nTotalBlocksEstimate : Z) (st : index_state).

Abbreviation accept := (accept GetRandHash nMaxCacheSize files fTestNet rate_limited nStakeMinAge nCoinbaseMaturity nBestHeight
  nTotalBlocksEstimate st).
Abbreviation accept_inputs := (accept_inputs GetRandHash nMaxCacheSize files fTestNet rate_limited nStakeMinAge nCoinbaseMaturity nBestHeight
  nTotalBlocksEstimate st).

(** The checks that do not need the inputs. *)
Definition admissible (p : CTxMemPool) (tx : CTransaction) : Prop :=
  fst (CheckTransaction tx) = true /\ IsCoinBase tx = false /\ IsCoinStake tx = false /\ nLockTime tx < 2 ^ 31 /\
  (fTestNet = true \/ tx_IsStandard tx = true) /\
  mapTx p !! tx_GetHash tx = None /\ forall o, o ∈ prevouts tx -> mapNextTx p !! o = None.

(** [accept] leaves the pool alone or adds the transaction. *)
Lemma accept_cases p txdb tx fCheck c ok missing p' c' : accept p txdb tx fCheck c = Some (ok, missing, p', c') ->
  if ok then admissible p tx /\ p' = addUnchecked p (tx_GetHash tx) tx /\ missing = false /\
    (fCheck = true -> cdb_ContainsTx txdb (tx_GetHash tx) = false /\ exists c1, accept_inputs p txdb tx c = Some (true, c1, c'))
  else p' = p.
Proof.
  unfold Accept.accept. intros E.
  destruct (fst (CheckTransaction tx)) eqn:Ec; cbn in E; [|by simplify_eq].
  destruct (IsCoinBase tx) eqn:Ecb; [by simplify_eq|]. destruct (IsCoinStake tx) eqn:Ecs; [by simplify_eq|].
  destruct (Z.ltb_spec (2 ^ 31 - 1) (nLockTime tx)) as [|Hlock]; [by simplify_eq|].
  destruct (negb fTestNet && negb (tx_IsStandard tx)) eqn:Estd; [by simplify_eq|].
  unfold pool_exists in E. case_bool_decide as Hex; [by simplify_eq|].
  destruct (fCheck && cdb_ContainsTx txdb (tx_GetHash tx)) eqn:Ect; [by simplify_eq|].
  destruct (existsb _ (vin tx)) eqn:Econf; [by simplify_eq|]. apply existsb_false_Forall in Econf.
  assert (Hadm : admissible p tx).
  { split_and!; [done..|lia| | |].
    - destruct fTestNet; [by left|]. right. by destruct (tx_IsStandard tx).
    - by apply eq_None_not_Some.
    - intros o Ho. apply list_elem_of_fmap in Ho as (x & -> & Hx). apply eq_None_not_Some.
      rewrite Forall_forall in Econf. by apply Econf, bool_decide_eq_false in Hx. }
  destruct fCheck; cbn in E.
  - destruct (accept_inputs p txdb tx c) as [[[ok1 m1] c1]|] eqn:Ei; [|done]. cbn in E. destruct ok1; cbn in E; simplify_eq; [|done].
    split_and!; [done..|]. intros _. split; [done|]. by exists m1.
  - simplify_eq. split_and!; done.
Qed.
End accept_facts.

(** ** The pool's reachable states *)

(** The transactions handled so far, and the pool: it is empty at first, and the
    program calls [accept] (with whatever database, files and chain there are at
    that time), [remove] and [clear]. *)
Inductive pool_reach {D : Type} `{!ChainDB D} `{BN} `{Crypto} `{EC} : list CTransaction -> CTxMemPool -> Prop :=
| reach_empty n : pool_reach [] (mkPool ∅ ∅ n)
| reach_accept txs p tx fCheckInputs GetRandHash nMaxCacheSize files fTestNet rate_limited nStakeMinAge nCoinbaseMaturity nBestHeight
    nTotalBlocksEstimate st (txdb : D) c ok missing p' c' : pool_reach txs p ->
    accept GetRandHash nMaxCacheSize files fTestNet rate_limited nStakeMinAge nCoinbaseMaturity nBestHeight nTotalBlocksEstimate st
      p txdb tx fCheckInputs c = Some (ok, missing, p', c') ->
    pool_reach (tx :: txs) p'
| reach_remove txs p tx : pool_reach txs p -> pool_reach (tx :: txs) (pool_remove p tx)
| reach_clear txs p : pool_reach txs p -> pool_reach txs (pool_clear p).

Definition no_collision `{Crypto} (txs : list CTransaction) : Prop :=
  forall t t', t ∈ txs -> t' ∈ txs -> tx_GetHash t = tx_GetHash t' -> t = t'.

Definition loose (tx : CTransaction) : Prop := valid_tx tx /\ IsCoinBase tx = false /\ IsCoinStake tx = false.

Lemma pool_reach_ok {D : Type} `{!ChainDB D} `{BN} `{Crypto} `{EC} txs p : pool_reach txs p -> no_collision txs -> Forall (tx_wf tx_fresh) txs ->
  pool_ok p /\ forall h tx, mapTx p !! h = Some tx -> tx ∈ txs /\ loose tx.
Proof.
  induction 1 as [n|txs p tx fCheck R nMax files fT rl a1 a2 a3 a4 st txdb c ok missing p' c' Hp IH E|txs p tx Hp IH|txs p Hp IH]; intros Hnc Hwf.
  - split; [apply pool_empty_ok|done].
  - assert (no_collision txs) as Hnc' by (intros t t' Ht Ht'; apply Hnc; by right).
    apply Forall_cons in Hwf as [Htx Hwf]. destruct (IH Hnc' Hwf) as [Hok Hin]. apply accept_cases in E. destruct ok.
    + destruct E as ((Hc & Hcb & Hcs & _ & _ & Hnew & Hfree) & -> & _). apply (CheckTransaction_spec _ _ Htx) in Hc.
      split; [apply addUnchecked_ok; try done; apply Hc|]. intros h t Et. cbn in Et.
      apply lookup_insert_Some in Et as [[_ <-]|[_ Et]]; [split; [left|done]|]. destruct (Hin h t Et). split; [by right|done].
    + subst p'. split; [done|]. intros h t Et. destruct (Hin h t Et). split; [by right|done].
  - assert (no_collision txs) as Hnc' by (intros t t' Ht Ht'; apply Hnc; by right).
    apply Forall_cons in Hwf as [Htx Hwf]. destruct (IH Hnc' Hwf) as [Hok Hin]. split.
    + apply pool_remove_ok; [done|]. intros t Et. destruct (Hin _ _ Et) as [Ht _]. f_equal. apply Hnc; [by right|by left|]. by apply (proj1 Hok).
    + intros h t Et. assert (mapTx p !! h = Some t) as E0.
      { revert Et. unfold pool_remove. destruct (pool_exists _ _); [|done]. cbn. intros Et. by apply lookup_delete_Some in Et as [_ Et]. }
      destruct (Hin h t E0). split; [by right|done].
  - destruct (IH Hnc Hwf) as [Hok Hin]. split; [apply pool_empty_ok|done].
Qed.

(** ** The inputs of an accepted transaction *)

Section input_facts.
Context {D : Type} `{!ChainDB D} `{BNS : BN_spec} `{CS : Crypto_spec} `{EC}.
Context (GetRandHash : nat -> base_uint) (nMaxCacheSize : Z) (files : block_files) (fTestNet rate_limited : bool).
Context (nStakeMinAge nCoinbaseMaturity nBestHeight nTotalBlocksEstimate : Z) (st : index_state).

(** Block files hold bytes, and no file reaches 2^31 of them. *)
Definition files_ok : Prop := map_Forall (fun _ bytes => digits 256 bytes /\ len bytes < 2 ^ 31) files.

Lemma tx_ReadFromDisk_wf p tx : files_ok -> tx_ReadFromDisk files p = Some tx -> tx_wf tx_fresh tx.
Proof.
  intros Hf. unfold tx_ReadFromDisk, OpenBlockFile. destruct (_ || _); [done|].
  destruct (files !! nFile p) as [bytes|] eqn:E; [|done]. cbn. destruct (Hf _ _ E) as [Hd Hl]. unfold file_read.
  set (s := Init _ _ _). assert (Hs : stream_ok s).
  { unfold stream_ok, s, Init, vsize, len in *; cbn [nReadPos vch exceptmask]. rewrite ?length_drop. split_and!; [lia|lia| | |done]; [|by do 2 apply Forall_drop].
    lia. }
  pose proof (sc_safe _ _ (ser_tx_correct tx_fresh) SER_DISK CLIENT_VERSION s Hs) as Hsafe.
  destruct (Unserialize _ _ _ _) as [[e|x] s']; cbn; [done|]. intros [= <-]. apply Hsafe.
Qed.

(** Where the transaction [txPrev] with index entry [t] comes from: a transaction
    of the pool that the database does not have, all outputs unspent, or one that
    the index has. *)
Definition source (p : CTxMemPool) (txdb : D) (h : base_uint) (t : CTxIndex) (txPrev : CTransaction) : Prop :=
  (idx_Read txdb h = Some None /\ mapTx p !! h = Some txPrev /\ vSpent t = replicate (length (vout txPrev)) pos_null) \/
  (idx_Read txdb h = Some (Some t) /\
   if pos_eq (pos t) pos_mempool then mapTx p !! h = Some txPrev else tx_ReadFromDisk files (pos t) = Some txPrev).

Definition sourced p txdb (inputs : MapPrevTx) : Prop := forall h t tx, inputs !! h = Some (t, tx) -> source p txdb h t tx.

Lemma fetch_loop_sourced p txdb l : forall inputs inputs', sourced p txdb inputs ->
  fetch_loop files p txdb ∅ false false l inputs = Some (true, inputs') -> sourced p txdb inputs'.
Proof.
  induction l as [|x l IH]; intros inputs inputs' Hs E; cbn [fetch_loop] in E; [by injection E as <-|].
  destruct (inputs !! _) as [e|] eqn:Ei; [by eapply IH|]. unfold find_index in E. cbn [orb] in E.
  destruct (idx_Read txdb _) as [[t|]|] eqn:Er; cbn in E; [| |done].
  - unfold fetch_tx in E. cbn [negb orb] in E. destruct (pos_eq (pos t) pos_mempool) eqn:Ep.
    + destruct (mapTx p !! _) as [tx|] eqn:Em; [|done]. cbn in E. eapply IH; [|exact E]. intros h' t' tx' E'.
      apply lookup_insert_Some in E' as [[<- [= <- <-]]|[_ E']]; [right; by rewrite Ep|by apply Hs].
    + destruct (tx_ReadFromDisk _ _) as [tx|] eqn:Em; [|done]. cbn in E. eapply IH; [|exact E]. intros h' t' tx' E'.
      apply lookup_insert_Some in E' as [[<- [= <- <-]]|[_ E']]; [right; by rewrite Ep|by apply Hs].
  - unfold fetch_tx in E. cbn [negb orb] in E. destruct (mapTx p !! _) as [tx|] eqn:Em; [|done]. cbn in E.
    eapply IH; [|exact E]. intros h' t' tx' E'. apply lookup_insert_Some in E' as [[<- [= <- <-]]|[_ E']]; [by left|by apply Hs].
Qed.

Lemma FetchInputs_sourced p txdb tx fInvalid inputs : IsCoinBase tx = false ->
  FetchInputs files p txdb ∅ false false tx ∅ = Some (true, fInvalid, inputs) -> sourced p txdb inputs.
Proof.
  intros Hcb E. unfold FetchInputs in E. rewrite Hcb in E.
  destruct (fetch_loop _ _ _ _ _ _ _ _) as [[[] inputs1]|] eqn:El; cbn in E; [|done|done].
  destruct (ranges_ok _ _) as [ok|]; cbn in E; [|done]. injection E as _ _ <-. eapply fetch_loop_sourced; [|exact El]. by intros h t x Hx.
Qed.

Lemma sourced_wf p txdb h t tx : files_ok -> map_Forall (fun _ => tx_wf tx_fresh) (mapTx p) -> source p txdb h t tx -> tx_wf tx_fresh tx.
Proof.
  intros Hf Hp [(_ & E & _)|[_ E]]; [by apply (Hp h)|]. destruct (pos_eq _ _); [by apply (Hp h)|by eapply tx_ReadFromDisk_wf].
Qed.

(** [inputs] is [inputs0] after some outputs were marked as spent. *)
Definition marked (inputs0 inputs : MapPrevTx) : Prop :=
  forall h t tx, inputs !! h = Some (t, tx) -> exists t0, inputs0 !! h = Some (t0, tx) /\
    forall n s, vSpent t !! n = Some s -> pos_IsNull s = true -> vSpent t0 !! n = Some s.

(** Input number [k] spends an unspent output and satisfies its script. *)
Definition spends_ok (inputs : MapPrevTx) (tx : CTransaction) (k : Z) (x : CTxIn) : Prop :=
  exists t txPrev s, inputs !! op_hash (prevout x) = Some (t, txPrev) /\ vSpent t !! Z.to_nat (op_n (prevout x)) = Some s /\
    pos_IsNull s = true /\ signature_accepted txPrev tx k true 0 x = true.

Lemma spend_loop_each tx inputs0 (Hwf : forall h t p, inputs0 !! h = Some (t, p) -> tx_wf tx_fresh p) l : forall i inputs c q c',
  0 <= i -> drop (Z.to_nat i) (vin tx) = l -> Forall txin_wf l -> marked inputs0 inputs -> cache_ok c ->
  spend_loop nBestHeight nTotalBlocksEstimate GetRandHash nMaxCacheSize tx pos_mempool false false true i l inputs ∅ c = Some (Accept q, c') ->
  cache_ok c' /\ forall k x, l !! k = Some x -> spends_ok inputs0 tx (i + Z.of_nat k) x.
Proof.
  induction l as [|x l IH]; intros i inputs c q c' Hi Hl Hw Hm Hc E; cbn [spend_loop] in E; [by injection E as _ <-|].
  apply Forall_cons in Hw as [[_ [[Hxs _] _]] Hw].
  assert (Hx : vin tx !! Z.to_nat i = Some x) by (rewrite <- (Nat.add_0_r (Z.to_nat i)), <- lookup_drop, Hl; done).
  assert (Hl' : drop (Z.to_nat (i + 1)) (vin tx) = l).
  { replace (Z.to_nat (i + 1)) with (Z.to_nat i + 1)%nat by lia. by rewrite <- drop_drop, Hl. }
  destruct (inputs !! op_hash (prevout x)) as [[t txPrev]|] eqn:Ei; [|done]. cbn [mbind option_bind] in E.
  destruct (vSpent t !! _) as [s|] eqn:Es; [|done]. cbn [mbind option_bind] in E.
  destruct (pos_IsNull s) eqn:En; cbn [negb] in E; [|done]. cbn [andb] in E.
  destruct (Hm _ _ _ Ei) as (t0 & E0 & Hnull). pose proof (Hwf _ _ _ E0) as Hp.
  assert (Ho : Forall (fun o => digits 256 (scriptPubKey o)) (vout txPrev)).
  { destruct Hp as (_ & _ & _ & [Ho _] & _). eapply Forall_impl; [exact Ho|]. by intros o [_ [? _]]. }
  destruct (VerifySignature_value GetRandHash nMaxCacheSize txPrev tx i true 0 c x Hc Hx Hxs Ho) as (c1 & Ev & Hc1).
  rewrite Ev in E. cbn in E. destruct (signature_accepted _ _ _ _ _ _) eqn:Esig; cbn [negb] in E;
    [|destruct (VerifySignature _ _ _ _ _ _ _ _) as [[? ?]|]; done].
  apply IH in E as [Hc' Hrest]; [|lia|done|done| |done].
  - split; [done|]. intros [|k] y Hy; cbn in Hy.
    + injection Hy as <-. rewrite Z.add_0_r. exists t0, txPrev, s. split_and!; [done|by apply Hnull|done|done].
    + replace (i + Z.of_nat (S k)) with (i + 1 + Z.of_nat k) by lia. by apply Hrest.
  - intros h t' p' E'. apply lookup_insert_Some in E' as [[<- [= <- <-]]|[_ E']]; [|by apply Hm].
    exists t0. split; [done|]. intros n s' Hs' Hn. cbn in Hs'. apply list_lookup_insert_Some in Hs' as [(_ & <- & _)|[_ Hs']]; [done|].
    by apply Hnull.
Qed.

(** The sum of the outputs spent. *)
Definition value_in (inputs : MapPrevTx) (l : list CTxIn) : Z :=
  fold_right (fun x s => default 0 (nValue <$> GetOutputFor x inputs) + s) 0 l.

Lemma cheap_loop_sum nTime pindex l : forall inputs acc val, 0 <= acc <= MAX_MONEY -> Forall txin_wf l ->
  cheap_loop st nCoinbaseMaturity nTime pindex l inputs acc = Some (Accept val) ->
  val = acc + value_in inputs l /\ 0 <= val <= MAX_MONEY /\ valuein_loop acc l inputs = Some val.
Proof.
  induction l as [|x l IH]; intros inputs acc val Hacc Hw E; cbn [cheap_loop] in E; [injection E as <-; cbn; split_and!; [lia..|done]|].
  apply Forall_cons in Hw as [[[_ Hn] _] Hw]. unfold fits in Hn.
  destruct (inputs !! op_hash (prevout x)) as [[t tx]|] eqn:Ei; [|done]. cbn in E. destruct (len (vout tx) <=? _) eqn:El; [done|].
  destruct (_ || _) eqn:El2; [done|].
  destruct (immature _ _ _ _ _) as [[]|]; cbn in E; [done| |done]. destruct (_ <? _); [done|].
  destruct (vout tx !! _) as [out|] eqn:Eo; [|done]. cbn in E.
  destruct (MoneyRange_spec (nValue out)) as [Hv|]; cbn in E; [|done].
  assert (Eadd : s64 (acc + nValue out) = acc + nValue out) by (apply money_add; done). rewrite Eadd in E.
  destruct (MoneyRange_spec (acc + nValue out)) as [Hv2|]; cbn in E; [|done].
  apply (IH inputs) in E as (-> & Hr & Hl); [|done|done].
  assert (Eg : GetOutputFor x inputs = Some out).
  { unfold GetOutputFor. rewrite Ei. rewrite El. exact Eo. }
  cbn [value_in fold_right valuein_loop]. rewrite Eg, Eadd. cbn. fold (value_in inputs l). split_and!; [lia|lia|lia|done].
Qed.
End input_facts.

(** ** Main theorems *)

Section main.
Context {D : Type} `{!ChainDB D} `{BNS : BN_spec} `{CS : Crypto_spec} `{EC}.

(** (C9) Consistency.  Whatever sequence of calls led to it, if no two different
    transactions handled have the same hash then every entry of the memory pool is
    filed under its hash, is valid and neither a coinbase nor a coinstake,
    [mapNextTx] maps exactly the outputs spent by entries to the spending input
    (no pointer dangles), and no output is spent twice. *)
Theorem mempool_consistent txs p : pool_reach (D := D) txs p -> no_collision txs -> Forall (tx_wf tx_fresh) txs ->
  (forall h tx, mapTx p !! h = Some tx -> tx_GetHash tx = h /\ valid_tx tx /\ IsCoinBase tx = false /\ IsCoinStake tx = false) /\
  (forall o h i, mapNextTx p !! o = Some (mkInPoint h i) <->
     exists tx, mapTx p !! h = Some tx /\ 0 <= i /\ prevouts tx !! Z.to_nat i = Some o) /\
  (forall h1 h2 t1 t2 o, mapTx p !! h1 = Some t1 -> mapTx p !! h2 = Some t2 -> o ∈ prevouts t1 -> o ∈ prevouts t2 -> h1 = h2).
Proof.
  intros Hr Hnc Hwf. destruct (pool_reach_ok txs p Hr Hnc Hwf) as [Hok Hin]. split_and!.
  - intros h tx E. destruct (Hin h tx E) as (_ & Hv & Hcb & Hcs). split_and!; [by apply (proj1 Hok)|done..].
  - apply Hok.
  - intros h1 h2 t1 t2 o. by apply pool_no_conflict.
Qed.

Context (GetRandHash : nat -> base_uint) (nMaxCacheSize : Z) (files : block_files) (fTestNet : bool).
Context (nStakeMinAge nCoinbaseMaturity nBestHeight nTotalBlocksEstimate : Z) (st : index_state).

Abbreviation accept rate_limited := (accept GetRandHash nMaxCacheSize files fTestNet rate_limited nStakeMinAge nCoinbaseMaturity nBestHeight
  nTotalBlocksEstimate st).
Abbreviation accept_inputs rate_limited := (accept_inputs GetRandHash nMaxCacheSize files fTestNet rate_limited nStakeMinAge nCoinbaseMaturity
  nBestHeight nTotalBlocksEstimate st).

Definition relay_fee (tx : CTransaction) : Z :=
  GetMinFee tx 1000 false GMF_RELAY (GetSerializeSize (ser_tx tx) SER_NETWORK PROTOCOL_VERSION tx).

Lemma relay_fee_bounds tx : tx_wf tx_fresh tx -> MIN_RELAY_TX_FEE <= relay_fee tx.
Proof.
  intros Hw. unfold relay_fee. assert (Hs : fits 32 (GetSerializeSize (ser_tx tx) SER_NETWORK PROTOCOL_VERSION tx)).
  { rewrite (proj2 (ser_tx_this tx tx_fresh _ _ _)), (sc_size _ _ (ser_tx_correct tx_fresh)) by done. apply wrap_fits. lia. }
  destruct (GetMinFee_bounds tx 1000 false GMF_RELAY _ ltac:(unfold fits; lia) Hs) as [Hb _]. exact (proj1 Hb).
Qed.

Lemma inputs_standard_cache tx l : forall i inputs c ok c', cache_ok c ->
  inputs_standard GetRandHash nMaxCacheSize tx i l inputs c = Some (ok, c') -> cache_ok c'.
Proof.
  induction l as [|x l IH]; intros i inputs c ok c' Hc E; cbn [inputs_standard] in E; [by injection E as _ <-|].
  destruct (GetOutputFor x inputs) as [prev|]; cbn [mbind option_bind] in E; [|done].
  destruct (Solver _ _) as [[ok1 ty] sols]. destruct ok1; cbn [negb] in E; [|by injection E as _ <-].
  destruct (_ <? 0); [by injection E as _ <-|].
  set (check := fun (c : CSignatureCache) (vchSig vchPubKey : valtype) (code : CScript) => CheckSig GetRandHash nMaxCacheSize c vchSig vchPubKey code tx i 0) in E.
  assert (Hs : cache_ok (snd (EvalScript check [] (scriptSig x) c))).
  { destruct (agree_EvalScript check check (fun c d => cache_ok c /\ c = d)) with (s := @nil valtype) (script := scriptSig x) (c1 := c) (c2 := c)
      as [_ [Hs _]]; [|done|exact Hs]. intros d1 d2 sg key code [Hd <-].
    destruct (CheckSig_spec GetRandHash nMaxCacheSize d1 sg key code tx i 0 Hd) as (d & Ed & Hd' & _). unfold check. rewrite Ed. done. }
  destruct (EvalScript _ _ _ _) as [[ok2 stack] c1]. cbn [snd] in Hs. destruct ok2; cbn [negb] in E; [|by injection E as _ <-].
  destruct (args_expected _ _) as [n|]; [|by injection E as _ <-]. destruct (negb _); [by injection E as _ <-|]. by eapply IH.
Qed.

Lemma AreInputsStandard_cache tx inputs c ok c' : cache_ok c ->
  AreInputsStandard GetRandHash nMaxCacheSize tx inputs c = Some (ok, c') -> cache_ok c'.
Proof. intros Hc E. unfold AreInputsStandard in E. destruct (IsCoinBase tx); [by injection E as _ <-|by eapply inputs_standard_cache]. Qed.

(** A transaction that pays the relay fee does not meet the rate limiter. *)
Lemma accept_inputs_limiter rl p txdb tx c : tx_wf tx_fresh tx -> accept_inputs rl p txdb tx c = accept_inputs false p txdb tx c.
Proof.
  intros Hw. unfold Accept.accept_inputs. pose proof (relay_fee_bounds tx Hw) as Hb. unfold relay_fee in Hb.
  destruct (FetchInputs _ _ _ _ _ _ _ _) as [[[[] ?] inputs]|]; cbn [mbind option_bind negb]; [|done|done].
  destruct (AreInputsStandard _ _ _ _ _) as [[std c1]|]; cbn [mbind option_bind]; [|done]. destruct (_ && _); [done|].
  destruct (GetValueIn tx inputs); cbn [mbind option_bind]; [|done]. destruct (GetValueOut tx); cbn [mbind option_bind]; [|done].
  destruct (Z.ltb_spec (s64 (z - z0)) (GetMinFee tx 1000 false GMF_RELAY (GetSerializeSize (ser_tx tx) SER_NETWORK PROTOCOL_VERSION tx))); [done|].
  by rewrite (proj2 (Z.ltb_ge (s64 (z - z0)) MIN_RELAY_TX_FEE)) by lia.
Qed.

Lemma accept_inputs_ok rl p txdb tx c m c' : tx_wf tx_fresh tx -> files_ok files -> map_Forall (fun _ => tx_wf tx_fresh) (mapTx p) ->
  cache_ok c -> IsCoinBase tx = false -> IsCoinStake tx = false -> accept_inputs rl p txdb tx c = Some (true, m, c') ->
  exists inputs, sourced files p txdb inputs /\ (forall k x, vin tx !! k = Some x -> spends_ok inputs tx (Z.of_nat k) x) /\
    total (vout tx) + relay_fee tx <= value_in inputs (vin tx).
Proof.
  intros Hw Hf Hp Hc Hcb Hcs E. rewrite accept_inputs_limiter in E by done. unfold Accept.accept_inputs in E.
  destruct (FetchInputs _ _ _ _ _ _ _ _) as [[[[] fI] inputs]|] eqn:Ef; cbn [mbind option_bind negb] in E; [|done|done].
  pose proof (FetchInputs_sourced files p txdb tx fI inputs Hcb Ef) as Hs.
  assert (Hin : Forall txin_wf (vin tx)) by apply Hw.
  destruct (AreInputsStandard _ _ _ _ _) as [[std c1]|] eqn:Ea; cbn [mbind option_bind] in E; [|done]. destruct (_ && _); [done|].
  destruct (GetValueIn tx inputs) as [vi|] eqn:Evi; cbn [mbind option_bind] in E; [|done].
  destruct (GetValueOut tx) as [vo|] eqn:Evo; cbn [mbind option_bind] in E; [|done].
  change (GetMinFee tx _ _ _ _) with (relay_fee tx) in E.
  destruct (Z.ltb_spec (s64 (vi - vo)) (relay_fee tx)) as [|Hfee]; [done|]. rewrite andb_false_r in E.
  destruct (pindexBest st) as [pi|]; cbn [mbind option_bind] in E; [|done].
  destruct (ConnectInputs _ _ _ _ _ _ _ _ _ _ _ _ _ _ _ _ _ _) as [[[|q] c2]|] eqn:Ec; cbn [mbind option_bind] in E; [done| |done].
  exists inputs. split; [done|]. unfold ConnectInputs in Ec. rewrite Hcb in Ec.
  destruct (cheap_loop _ _ _ _ _ _ _) as [[|val]|] eqn:Ech; cbn [mbind option_bind] in Ec; [done| |done].
  destruct (spend_loop _ _ _ _ _ _ _ _ _ _ _ _ _ _) as [[[|q1] c3]|] eqn:Esp; cbn [mbind option_bind] in Ec; [done| |done].
  destruct (value_checks _ _ _ _ _ _ _ _) as [[|[]]|] eqn:Evc; cbn [mbind option_bind] in Ec; [done| |done].
  pose proof MAX_MONEY_value as HM.
  destruct (cheap_loop_sum nCoinbaseMaturity st _ _ _ inputs 0 val ltac:(lia) Hin Ech) as (Eval & Hval & Evl).
  unfold GetValueIn in Evi. rewrite Hcb, Evl in Evi. injection Evi as <-.
  destruct (value_checks_pays _ _ _ _ _ _ _ _ Hval Evc) as (_ & Hvo & Hvr). rewrite Hvo in Evo. injection Evo as <-.
  rewrite (swrap_id 64) in Hfee by lia. pose proof (AreInputsStandard_cache _ _ _ _ _ Hc Ea) as Hc1.
  assert (Hwf : forall h t p0, inputs !! h = Some (t, p0) -> tx_wf tx_fresh p0) by (intros h t p0 Eh; by eapply sourced_wf, Hs).
  assert (Hm : marked inputs inputs) by (intros h t p0 Eh; by exists t).
  pose proof (spend_loop_each GetRandHash nMaxCacheSize nBestHeight nTotalBlocksEstimate tx inputs Hwf (vin tx) 0 inputs c1 q1 c3
    ltac:(lia) eq_refl Hin Hm Hc1 Esp) as [_ Heach].
  split; [exact Heach|lia].
Qed.

(** (C8) Admission.  A transaction accepted with its inputs checked passed the checks
    on its own, was unknown to the pool and to the database and conflicts with
    nothing in the pool; each input spends an existing output, of the index or of
    the pool, that is not marked as spent, and satisfies its script (never taking
    the short cut for blocks below the last checkpoint); the outputs leave at
    least the minimum relay fee of the inputs; the pool gains exactly this
    transaction.  The rate limiter never has a say. *)
Theorem accepted_transactions_are_paid_for rl p txdb tx c missing p' c' :
  tx_wf tx_fresh tx -> files_ok files -> map_Forall (fun _ => tx_wf tx_fresh) (mapTx p) -> cache_ok c ->
  accept rl p txdb tx true c = Some (true, missing, p', c') ->
  admissible fTestNet p tx /\ cdb_ContainsTx txdb (tx_GetHash tx) = false /\ p' = addUnchecked p (tx_GetHash tx) tx /\
  (exists inputs, sourced files p txdb inputs /\ (forall k x, vin tx !! k = Some x -> spends_ok inputs tx (Z.of_nat k) x) /\
    total (vout tx) + relay_fee tx <= value_in inputs (vin tx) /\ MIN_RELAY_TX_FEE <= relay_fee tx) /\
  forall rl', accept rl' p txdb tx true c = Some (true, missing, p', c').
Proof.
  intros Hw Hf Hp Hc E. pose proof (accept_cases _ _ _ _ _ _ _ _ _ _ _ _ _ _ _ _ _ _ _ E) as (Hadm & -> & _ & Hin).
  destruct (Hin eq_refl) as (Hct & m & Ei). split_and!; [done..| |].
  - destruct Hadm as (_ & Hcb & Hcs & _). destruct (accept_inputs_ok rl p txdb tx c m c' Hw Hf Hp Hc Hcb Hcs Ei) as (inputs & Hs & Hk & Hv).
    exists inputs. split_and!; [done..|by apply relay_fee_bounds].
  - intros rl'. rewrite <- E. unfold Accept.accept. by rewrite (accept_inputs_limiter rl'), (accept_inputs_limiter rl).
Qed.
End main.

(** ** An example: spending an output of the pool *)

Section example.
#[local] Existing Instance BN_Z.
#[local] Existing Instance BN_Z_spec.
#[local] Existing Instance Crypto_toy.
#[local] Existing Instance Crypto_toy_spec.
#[local] Existing Instance EC_toy.
#[local] Existing Instance LevelDB_map.
#[local] Instance example_chain : ChainDB CTxDB := txdb_chain example_hash9 0.

Definition pool_parent : CTransaction := mkTx 1 0 [mkTxIn (mkOutPoint (bu_zero 8) 7) [] 0] [mkTxOut 1000000 [OP_1]] 0 [] 0.
Definition pool_child : CTransaction := mkTx 1 0 [mkTxIn (mkOutPoint (tx_GetHash pool_parent) 0) [] 0] [mkTxOut 500000 [OP_1]] 0 [] 0.
Definition pool_before : CTxMemPool := addUnchecked (mkPool ∅ ∅ 0) (tx_GetHash pool_parent) pool_parent.
Definition pool_state : index_state := mkIndexState {[ 0 := example_pindex ]} ∅ (Some 0) (Some 0).

Definition parent_run := accept (D := CTxDB) (fun _ => bu_zero 8) 10 ∅ true true 3600 40 0 0 pool_state
  (mkPool ∅ ∅ 0) example_db pool_parent false (mkSigCache [] 0).
Definition child_run := accept (D := CTxDB) (fun _ => bu_zero 8) 10 ∅ true true 3600 40 0 0 pool_state
  pool_before example_db pool_child true (mkSigCache [] 0).

Lemma pool_txs_wf : Forall (tx_wf tx_fresh) [pool_parent; pool_child].
Proof.
  forall_list; (split_and!; [unfold sfits; cbn; lia|by vm_compute|split; [forall_list|done]|split; [forall_list|done]|by vm_compute|done|done]).
  all: try (split_and!; [split; [apply wf_zero || apply wf_tx_GetHash|by vm_compute]|split; [constructor|done]|by vm_compute]).
  all: split; [unfold sfits; cbn; lia|split; [forall_list; by vm_compute|done]].
Qed.

Lemma parent_accepted : parent_run = Some (true, false, pool_before, mkSigCache [] 0).
Proof. vm_compute. reflexivity. Qed.

Lemma child_accepted : exists p c, child_run = Some (true, false, p, c).
Proof.
  assert (E : match child_run with Some (true, false, _, _) => true | _ => false end = true) by (vm_compute; reflexivity).
  destruct child_run as [[[[[] []] p] c]|]; try discriminate. by eexists _, _.
Qed.

Lemma mempool_consistent_witness : mapTx pool_before !! tx_GetHash pool_parent = Some pool_parent /\ valid_tx pool_parent.
Proof.
  assert (E : mapTx pool_before !! tx_GetHash pool_parent = Some pool_parent) by apply lookup_insert_eq. split; [exact E|].
  destruct (mempool_consistent (D := CTxDB) [pool_parent] pool_before) as [H _].
  - eapply reach_accept; [apply reach_empty|exact parent_accepted].
  - intros t t' Ht Ht' _. apply list_elem_of_singleton in Ht as ->. by apply list_elem_of_singleton in Ht' as ->.
  - apply Forall_singleton. exact (Forall_inv pool_txs_wf).
  - apply (H _ _ E).
Defined.

Lemma accepted_transactions_are_paid_for_witness : exists p c inputs, child_run = Some (true, false, p, c) /\
  total (vout pool_child) + relay_fee pool_child <= value_in inputs (vin pool_child).
Proof.
  destruct child_accepted as (p & c & E). exists p, c.
  destruct (accepted_transactions_are_paid_for (D := CTxDB) (fun _ => bu_zero 8) 10 ∅ true 3600 40 0 0 pool_state true pool_before example_db
    pool_child (mkSigCache [] 0) false p c) as (_ & _ & _ & (inputs & _ & _ & H & _) & _).
  - exact (Forall_inv (Forall_inv_tail pool_txs_wf)).
  - apply map_Forall_empty.
  - apply map_Forall_singleton. exact (Forall_inv pool_txs_wf).
  - constructor.
  - exact E.
  - exists inputs. split; [exact E|exact H].
Defined.
End example.
