(* ===== verification/BestChain.v ===== *)
(** * main.cpp: the best chain

    [CBlock::SetBestChain] makes a block the tip of the best chain, inside one
    database transaction: by connecting it ([SetBestChainInner]) or by
    [Reorganize], which disconnects the blocks back to the fork and connects the
    other branch; blocks that follow are connected one by one afterwards.

    The globals of main.cpp that take part are the fields of [chain_state]; block
    index objects live in its heap.  Wallets are only notified and have no part in
    the answer: [SyncWithWallets], [SetBestChain(locator)] and the user interface
    are not modelled. *)
From Stdlib Require Import ZArith Lia Bool.
From stdpp Require Import prelude gmap.
From S2P Require Import Prelude Uint256 DataStream Serialize Crypto Bignum Script Tx Block Index TxDB Target.
From S2P Require Import Keys KeyStore Pool SigHash Interp Standard Connect Chain Accept.

Record chain_state : Type := mkChain {
  ch_index : index_state;
  hashBestChain : base_uint;
  nBestHeight : Z;
  bnBestChainTrust : base_uint;
  bnBestInvalidTrust : base_uint;
  nTimeBestReceived : Z;
  pblockindexFBBHLast : option ptr;
  mempool : CTxMemPool;
  sigcache : CSignatureCache
}.

Definition set_index (st : index_state) (s : chain_state) : chain_state :=
  mkChain st (hashBestChain s) (nBestHeight s) (bnBestChainTrust s) (bnBestInvalidTrust s) (nTimeBestReceived s) (pblockindexFBBHLast s)
    (mempool s) (sigcache s).
Definition set_invalid (t : base_uint) (s : chain_state) : chain_state :=
  mkChain (ch_index s) (hashBestChain s) (nBestHeight s) (bnBestChainTrust s) t (nTimeBestReceived s) (pblockindexFBBHLast s)
    (mempool s) (sigcache s).
Definition set_pool (p : CTxMemPool) (c : CSignatureCache) (s : chain_state) : chain_state :=
  mkChain (ch_index s) (hashBestChain s) (nBestHeight s) (bnBestChainTrust s) (bnBestInvalidTrust s) (nTimeBestReceived s)
    (pblockindexFBBHLast s) p c.
Definition set_last (p : option ptr) (s : chain_state) : chain_state :=
  mkChain (ch_index s) (hashBestChain s) (nBestHeight s) (bnBestChainTrust s) (bnBestInvalidTrust s) (nTimeBestReceived s) p
    (mempool s) (sigcache s).

Definition set_pnext (next : option ptr) (i : CBlockIndex) : CBlockIndex :=
  mkIndex (phashBlock i) (pprev i) next (i_nFile i) (i_nBlockPos i) (bnChainTrust i) (nHeight i) (nMint i) (nMoneySupply i) (nFlags i)
    (nStakeModifier i) (nStakeModifierChecksum i) (prevoutStake i) (nStakeTime i) (hashProofOfStake i) (i_nVersion i)
    (i_hashMerkleRoot i) (i_nTime i) (i_nBits i) (i_nNonce i).

(** ** [FindBlockByHeight] *)

(** [None]: a null pointer is followed. *)
Fixpoint height_down (fuel : nat) (st : index_state) (h : Z) (p : ptr) : option ptr :=
  i ← deref st p;
  if h <? nHeight i then match fuel with O => None | S fuel => q ← pprev i; height_down fuel st h q end else Some p.

Fixpoint height_up (fuel : nat) (st : index_state) (h : Z) (p : ptr) : option ptr :=
  i ← deref st p;
  if nHeight i <? h then match fuel with O => None | S fuel => q ← pnext i; height_up fuel st h q end else Some p.

Definition FindBlockByHeight (s : chain_state) (h : Z) : option (ptr * chain_state) :=
  let st := ch_index s in
  p ← (if h <? Z.quot (nBestHeight s) 2 then pindexGenesisBlock st else pindexBest st);
  i ← deref st p;
  p ← match pblockindexFBBHLast s with
      | None => Some p
      | Some q => j ← deref st q; Some (if Z.abs (h - nHeight j) <? Z.abs (h - nHeight i) then q else p)
      end;
  p ← height_down (size (heap st)) st h p;
  p ← height_up (size (heap st)) st h p;
  Some (p, set_last (Some p) s).

Section best.
Context `{LevelDB} `{BN} `{Crypto} `{EC}.
Context (Hash9 : list Z -> base_uint) (bnProofOfWorkLimit hashGenesis : base_uint) (files : block_files).
Context (fTestNet : bool) (nStakeMinAge nCoinbaseMaturity nTotalBlocksEstimate : Z) (GetRandHash : nat -> base_uint) (nMaxCacheSize : Z).
(** [GetAdjustedTime()] and [GetTime()] *)
Context (adjusted_time now : Z).

#[local] Instance chain_db : ChainDB CTxDB := txdb_chain Hash9 adjusted_time.

(** ** Reading blocks *)

(** [CBlock::ReadFromDisk(nFile, nBlockPos)] *)
Definition block_ReadFromDisk (nFile nBlockPos : Z) : option CBlock :=
  bytes ← OpenBlockFile files nFile nBlockPos;
  block ← file_read (ser_block block_null) SER_DISK bytes;
  if block_IsProofOfWork block && negb (CheckProofOfWork bnProofOfWorkLimit (block_GetHash Hash9 block) (b_nBits block)) then None
  else Some block.

(** [CBlock::ReadFromDisk(pindex)]; the inner [None] is the answer false. *)
Definition index_ReadFromDisk (st : index_state) (p : ptr) : option (option CBlock) :=
  i ← deref st p;
  match block_ReadFromDisk (i_nFile i) (i_nBlockPos i) with
  | None => Some None
  | Some block => h ← GetBlockHash st p; Some (if bu_eq (block_GetHash Hash9 block) h then Some block else None)
  end.

(** ** [InvalidChainFound] *)

(** [CTxDB()] is another object on the same database, without a batch.  The
    messages name the hash of the block and the time of the best block. *)
Definition InvalidChainFound (db : CTxDB) (s : chain_state) (pindexNew : ptr) : option (CTxDB * chain_state) :=
  i ← deref (ch_index s) pindexNew;
  '(db, s) ←
    (if bu_gt (bnChainTrust i) (bnBestInvalidTrust s) then
       '(_, other) ← WriteBestInvalidTrust (txdb_open (pdb db) false) (bnChainTrust i);
       Some (mkTxDB (pdb other) (activeBatch db) (fReadOnly db), set_invalid (bnChainTrust i) s)
     else Some (db, s));
  _ ← GetBlockHash (ch_index s) pindexNew;
  best ← pindexBest (ch_index s);
  _ ← deref (ch_index s) best;
  Some (db, s).

(** ** [Reorganize] *)

(** [while (plonger->nHeight > pfork->nHeight) plonger = plonger->pprev]; the
    inner [None] is the error. *)
Fixpoint lower (fuel : nat) (st : index_state) (h : Z) (plonger : ptr) : option (option ptr) :=
  i ← deref st plonger;
  if h <? nHeight i then
    match pprev i with
    | None => Some None
    | Some q => match fuel with O => None | S fuel => lower fuel st h q end
    end
  else Some (Some plonger).

Fixpoint find_fork (fuel : nat) (st : index_state) (pfork plonger : ptr) : option (option ptr) :=
  if bool_decide (pfork = plonger) then Some (Some pfork)
  else
    i ← deref st pfork;
    r ← lower (size (heap st)) st (nHeight i) plonger;
    match r with
    | None => Some None
    | Some plonger =>
        if bool_decide (pfork = plonger) then Some (Some pfork)
        else
          match pprev i with
          | None => Some None
          | Some q => match fuel with O => None | S fuel => find_fork fuel st q plonger end
          end
    end.

(** [for (pindex = p; pindex != pfork; pindex = pindex->pprev)] *)
Fixpoint branch_to (fuel : nat) (st : index_state) (pfork p : ptr) : option (list ptr) :=
  if bool_decide (p = pfork) then Some []
  else
    match fuel with
    | O => None
    | S fuel => i ← deref st p; q ← pprev i; l ← branch_to fuel st pfork q; Some (p :: l)
    end.

(** Disconnects the blocks; the transactions to resurrect. *)
Fixpoint disconnect_branch (st : index_state) (l : list ptr) (db : CTxDB) : option (bool * CTxDB * list CTransaction) :=
  match l with
  | [] => Some (true, db, [])
  | p :: l =>
      r ← index_ReadFromDisk st p;
      match r with
      | None => Some (false, db, [])
      | Some block =>
          '(ok, db) ← DisconnectBlock db st block p;
          if negb ok then Some (false, db, [])
          else
            '(ok, db, rest) ← disconnect_branch st l db;
            Some (ok, db, filter (fun tx => IsCoinBase tx || IsCoinStake tx = false) (vtx block) ++ rest)
      end
  end.

Abbreviation connect_block := (ConnectBlock (D := CTxDB) Hash9 bnProofOfWorkLimit hashGenesis files).

(** Connects the blocks; the transactions to delete. *)
Fixpoint connect_branch (best : Z) (pool : CTxMemPool) (l : list ptr) (db : CTxDB) (st : index_state) (c : CSignatureCache)
    : option (bool * CTxDB * index_state * CSignatureCache * list CTransaction) :=
  match l with
  | [] => Some (true, db, st, c, [])
  | p :: l =>
      r ← index_ReadFromDisk st p;
      match r with
      | None => Some (false, db, st, c, [])
      | Some block =>
          '(r, db, st, c) ← connect_block pool nStakeMinAge nCoinbaseMaturity best nTotalBlocksEstimate GetRandHash nMaxCacheSize
                              db st block p false c;
          match r with
          | Refuse _ => Some (false, db, st, c, [])
          | Accept _ => '(ok, db, st, c, rest) ← connect_branch best pool l db st c; Some (ok, db, st, c, vtx block ++ rest)
          end
      end
  end.

(** [if (pindex->pprev) pindex->pprev->pnext = next(pindex)] for every block. *)
Fixpoint relink (next : ptr -> option ptr) (l : list ptr) (st : index_state) : option index_state :=
  match l with
  | [] => Some st
  | p :: l =>
      i ← deref st p;
      st ← match pprev i with None => Some st | Some q => j ← deref st q; Some (set_heap q (set_pnext (next p) j) st) end;
      relink next l st
  end.

(** [AcceptToMemoryPool(txdb, false)] for every transaction, whatever it answers. *)
Fixpoint resurrect (l : list CTransaction) (db : CTxDB) (s : chain_state) : option chain_state :=
  match l with
  | [] => Some s
  | tx :: l =>
      '(_, _, pool, c) ← accept GetRandHash nMaxCacheSize files fTestNet false nStakeMinAge nCoinbaseMaturity (nBestHeight s)
                           nTotalBlocksEstimate (ch_index s) (mempool s) db tx false (sigcache s);
      resurrect l db (set_pool pool c s)
  end.

Definition remove_all (l : list CTransaction) (s : chain_state) : chain_state :=
  set_pool (fold_left pool_remove l (mempool s)) (sigcache s) s.

Definition Reorganize (db : CTxDB) (s : chain_state) (pindexNew : ptr) : option (bool * CTxDB * chain_state) :=
  let st := ch_index s in
  best ← pindexBest st;
  r ← find_fork (size (heap st)) st best pindexNew;
  match r with
  | None => Some (false, db, s)
  | Some pfork =>
      vDisconnect ← branch_to (size (heap st)) st pfork best;
      vConnect ← branch_to (size (heap st)) st pfork pindexNew;
      let vConnect := rev vConnect in
      '(ok, db, vResurrect) ← disconnect_branch st vDisconnect db;
      if negb ok then Some (false, db, s)
      else
        '(ok, db, st, c, vDelete) ← connect_branch (nBestHeight s) (mempool s) vConnect db st (sigcache s);
        let s := set_pool (mempool s) c (set_index st s) in
        if negb ok then Some (false, db, s)
        else
          h ← GetBlockHash st pindexNew;
          '(ok, db) ← WriteHashBestChain db h;
          if negb ok then Some (false, db, s)
          else
            '(ok, db) ← TxnCommit db;
            if negb ok then Some (false, db, s)
            else
              st ← relink (fun _ => None) vDisconnect st;
              st ← relink Some vConnect st;
              s ← resurrect vResurrect db (set_index st s);
              Some (true, db, remove_all vDelete s)
  end.

(** ** [SetBestChainInner] *)

Definition SetBestChainInner (db : CTxDB) (s : chain_state) (block : CBlock) (pindexNew : ptr) : option (bool * CTxDB * chain_state) :=
  let hash := block_GetHash Hash9 block in
  '(r, db, st, c) ← connect_block (mempool s) nStakeMinAge nCoinbaseMaturity (nBestHeight s) nTotalBlocksEstimate GetRandHash nMaxCacheSize
                      db (ch_index s) block pindexNew false (sigcache s);
  let s := set_pool (mempool s) c (set_index st s) in
  '(ok, db) ← match r with Refuse _ => Some (false, db) | Accept _ => WriteHashBestChain db hash end;
  if negb ok then
    '(db, s) ← InvalidChainFound (TxnAbort db) s pindexNew;
    Some (false, db, s)
  else
    '(ok, db) ← TxnCommit db;
    if negb ok then Some (false, db, s)
    else
      i ← deref st pindexNew;
      q ← pprev i;
      j ← deref st q;
      Some (true, db, remove_all (vtx block) (set_index (set_heap q (set_pnext (Some pindexNew) j) st) s)).

(** ** [SetBestChain] *)

(** [vpindexSecondary] in the order it is filled, and [pindexIntermediate]. *)
Fixpoint postpone (fuel : nat) (st : index_state) (bestTrust : base_uint) (p : ptr) : option (list ptr * ptr) :=
  i ← deref st p;
  match pprev i with
  | None => Some ([], p)
  | Some q =>
      j ← deref st q;
      if bu_gt (bnChainTrust j) bestTrust then
        match fuel with O => None | S fuel => '(l, r) ← postpone fuel st bestTrust q; Some (p :: l, r) end
      else Some ([], p)
  end.

(** The blocks that follow; an error ends the loop. *)
Fixpoint connect_further (l : list ptr) (db : CTxDB) (s : chain_state) : option (CTxDB * chain_state) :=
  match l with
  | [] => Some (db, s)
  | p :: l =>
      r ← index_ReadFromDisk (ch_index s) p;
      match r with
      | None => Some (db, s)
      | Some block =>
          '(ok, db) ← TxnBegin db;
          if negb ok then Some (db, s)
          else
            '(ok, db, s) ← SetBestChainInner db s block p;
            if negb ok then Some (db, s) else connect_further l db s
      end
  end.

(** [pindexBest] and the globals that go with it. *)
Definition new_best (s : chain_state) (hash : base_uint) (pindexNew : ptr) : option chain_state :=
  i ← deref (ch_index s) pindexNew;
  let st := ch_index s in
  let pool := mkPool (mapTx (mempool s)) (mapNextTx (mempool s)) (u32 (nTransactionsUpdated (mempool s) + 1)) in
  Some (mkChain (mkIndexState (heap st) (mapBlockIndex st) (Some pindexNew) (pindexGenesisBlock st)) hash (nHeight i) (bnChainTrust i)
          (bnBestInvalidTrust s) now None pool (sigcache s)).

Definition set_genesis (p : ptr) (s : chain_state) : chain_state :=
  let st := ch_index s in set_index (mkIndexState (heap st) (mapBlockIndex st) (pindexBest st) (Some p)) s.

Definition SetBestChain (db : CTxDB) (s : chain_state) (block : CBlock) (pindexNew : ptr) : option (bool * CTxDB * chain_state) :=
  let hash := block_GetHash Hash9 block in
  '(ok, db) ← TxnBegin db;
  if negb ok then Some (false, db, s)
  else
    '(ok, db, s) ←
      (if bool_decide (pindexGenesisBlock (ch_index s) = None) && bu_eq hash hashGenesis then
         '(_, db) ← WriteHashBestChain db hash;
         '(ok, db) ← TxnCommit db;
         Some (ok, db, if ok : bool then set_genesis pindexNew s else s)
       else if bu_eq (hashPrevBlock block) (hashBestChain s) then SetBestChainInner db s block pindexNew
       else
         best ← pindexBest (ch_index s);
         b ← deref (ch_index s) best;
         '(vpindexSecondary, pindexIntermediate) ← postpone (size (heap (ch_index s))) (ch_index s) (bnChainTrust b) pindexNew;
         '(ok, db, s) ← Reorganize db s pindexIntermediate;
         if negb ok then
           '(db, s) ← InvalidChainFound (TxnAbort db) s pindexNew;
           Some (false, db, s)
         else
           '(db, s) ← connect_further (rev vpindexSecondary) db s;
           Some (true, db, s));
    if negb ok then Some (false, db, s)
    else s ← new_best s hash pindexNew; Some (true, db, s).
End best.

(** ** Inside a database transaction *)

Section transaction.
Context `{LS : LevelDB_spec} `{BN} `{Crypto} `{EC}.
Context (Hash9 : list Z -> base_uint) (limit hashGenesis : base_uint) (files : block_files).
Context (fTestNet : bool) (nStakeMinAge nCoinbaseMaturity nTotalBlocksEstimate : Z) (GetRandHash : nat -> base_uint) (nMaxCacheSize : Z).
Context (adjusted_time now : Z).

#[local] Instance transaction_db : ChainDB CTxDB := txdb_chain Hash9 adjusted_time.

(** The database itself is [d] and changes wait in a batch. *)
Definition in_txn (d : DB) (db : CTxDB) : Prop := pdb db = d /\ is_Some (activeBatch db).

Lemma Write_txn {K T} (ck : Ser K) (ct : Ser T) d db key x ok db' : in_txn d db -> Write ck ct db key x = Some (ok, db') -> in_txn d db' /\ ok = true.
Proof. intros [Hd [b Hb]]. unfold Write. destruct (fReadOnly db); [done|]. rewrite Hb. intros [= <- <-]. done. Qed.

Lemma Erase_txn {K} (ck : Ser K) d db key ok db' : in_txn d db -> Erase ck db key = Some (ok, db') -> in_txn d db'.
Proof. intros [Hd [b Hb]]. unfold Erase. destruct (fReadOnly db); [done|]. rewrite Hb. intros [= <- <-]. done. Qed.

Lemma WriteBlockIndex_txn d db i ok db' : in_txn d db -> WriteBlockIndex Hash9 adjusted_time db i = Some (ok, db') -> in_txn d db'.
Proof. intros Hd. unfold WriteBlockIndex. destruct (disk_GetBlockHash _ _ _). intros E. by eapply Write_txn in E as [? _]. Qed.

Lemma write_queued_txn d l : forall db ok db', in_txn d db -> write_queued db l = Some (ok, db') -> in_txn d db'.
Proof.
  induction l as [|[h t] l IH]; intros db ok db' Hd E; cbn [write_queued] in E; [by injection E as _ <-|].
  apply bind_Some in E as ([ok1 db1] & E1 & E). destruct (Write_txn _ _ _ _ _ _ _ _ Hd E1) as [Hd1 ->]. by eapply IH.
Qed.

Lemma write_prev_txn d db st prev h ok db' : in_txn d db -> write_prev db st prev h = Some (ok, db') -> in_txn d db'.
Proof.
  intros Hd. unfold write_prev. destruct prev as [q|]; [|by intros [= _ <-]]. intros E. apply bind_Some in E as (i & _ & E).
  exact (WriteBlockIndex_txn _ _ _ _ _ Hd E).
Qed.

Lemma disconnect_txs_txn d l : forall db ok db', in_txn d db -> disconnect_txs db l = Some (ok, db') -> in_txn d db'.
Proof.
  assert (Hloop : forall l db ok db', in_txn d db -> disconnect_loop db l = Some (ok, db') -> in_txn d db').
  { clear l. induction l as [|x l IH]; intros db ok db' Hd E; cbn [disconnect_loop] in E; [by injection E as _ <-|].
    apply bind_Some in E as ([t|] & _ & E); [|by injection E as _ <-]. destruct (_ <=? _); [by injection E as _ <-|].
    apply bind_Some in E as ([ok1 db1] & E1 & E). destruct (Write_txn _ _ _ _ _ _ _ _ Hd E1) as [Hd1 ->]. by eapply IH. }
  induction l as [|tx l IH]; intros db ok db' Hd E; cbn [disconnect_txs] in E; [by injection E as _ <-|].
  apply bind_Some in E as ([ok1 db1] & E1 & E). assert (Hd1 : in_txn d db1).
  { unfold DisconnectInputs in E1. apply bind_Some in E1 as ([ok2 db2] & E2 & E1). assert (Hd2 : in_txn d db2).
    { destruct (IsCoinBase tx); [by injection E2 as _ <-|by eapply Hloop]. }
    destruct ok2; cbn [negb] in E1; [|by injection E1 as _ <-]. apply bind_Some in E1 as ([ok3 db3] & E3 & E1). injection E1 as _ <-.
    exact (Erase_txn _ _ _ _ _ _ Hd2 E3). }
  destruct ok1; cbn [negb] in E; [by eapply IH|by injection E as _ <-].
Qed.

Lemma DisconnectBlock_txn d db st b p ok db' : in_txn d db -> DisconnectBlock db st b p = Some (ok, db') -> in_txn d db'.
Proof.
  intros Hd E. unfold DisconnectBlock in E. apply bind_Some in E as ([ok1 db1] & E1 & E). pose proof (disconnect_txs_txn _ _ _ _ _ Hd E1) as Hd1.
  destruct ok1; cbn [negb] in E; [|by injection E as _ <-]. apply bind_Some in E as (i & _ & E). by eapply write_prev_txn.
Qed.

(** ** What is remembered of the block index *)

(** An entry without what [ConnectBlock] computes, and without [pnext] too. *)
Definition no_money (i : CBlockIndex) : CBlockIndex := set_money i 0 0.
Definition shape (i : CBlockIndex) : CBlockIndex := set_pnext None (no_money i).

Definition same_heap (f : CBlockIndex -> CBlockIndex) (st st' : index_state) : Prop :=
  (forall p, f <$> heap st' !! p = f <$> heap st !! p) /\ mapBlockIndex st' = mapBlockIndex st /\ pindexBest st' = pindexBest st /\
  pindexGenesisBlock st' = pindexGenesisBlock st.

#[global] Instance same_heap_refl f : Reflexive (same_heap f).
Proof. intros st. by repeat split. Qed.

#[global] Instance same_heap_trans f : Transitive (same_heap f).
Proof. intros x y z (J1 & J2 & J3 & J4) (K1 & K2 & K3 & K4). split_and!; [|congruence..]. intros p. by rewrite K1. Qed.

Lemma set_heap_same f p i j st : deref st p = Some i -> f j = f i -> same_heap f st (set_heap p j st).
Proof.
  intros Ei Ef. split_and!; [|done..]. intros q. cbn [set_heap heap]. destruct (decide (q = p)) as [->|Hne].
  - rewrite lookup_insert_eq. unfold deref in Ei. rewrite Ei. cbn. by rewrite Ef.
  - by rewrite lookup_insert_ne.
Qed.

Lemma ConnectBlock_txn d pool best db st b p c r db' st' c' : in_txn d db ->
  ConnectBlock Hash9 limit hashGenesis files pool nStakeMinAge nCoinbaseMaturity best nTotalBlocksEstimate GetRandHash nMaxCacheSize
    db st b p false c = Some (r, db', st', c') -> in_txn d db' /\ same_heap no_money st st'.
Proof.
  intros Hd E. unfold ConnectBlock in E. apply bind_Some in E as ([dos|b1] & _ & E); [by injection E as _ <- <- _|].
  apply bind_Some in E as (i & Ei & E). apply bind_Some in E as ([[dos|s] c1] & _ & E); [by injection E as _ <- <- _|].
  apply bind_Some in E as (prevSupply & _ & E). cbv zeta in E. set (st1 := set_heap p _ st) in E.
  assert (Hs : same_heap no_money st st1) by (eapply set_heap_same; [exact Ei|reflexivity]).
  apply bind_Some in E as (dk & _ & E). apply bind_Some in E as ([ok1 db1] & E1 & E).
  pose proof (WriteBlockIndex_txn _ _ _ _ _ Hd E1) as Hd1. destruct ok1; cbn [negb] in E; [|by injection E as _ <- <- _].
  apply bind_Some in E as ([ok2 db2] & E2 & E). pose proof (write_queued_txn _ _ _ _ _ Hd1 E2) as Hd2.
  destruct ok2; cbn [negb] in E; [|by injection E as _ <- <- _].
  apply bind_Some in E as (cb & _ & E). apply bind_Some in E as (vo & _ & E). destruct (_ <? _); [by injection E as _ <- <- _|].
  apply bind_Some in E as (h & _ & E). apply bind_Some in E as ([ok3 db3] & E3 & E). injection E as _ <- <- _.
  split; [by eapply write_prev_txn|done].
Qed.

Abbreviation disconnect_branch := (disconnect_branch Hash9 limit files adjusted_time).
Abbreviation connect_branch := (connect_branch Hash9 limit hashGenesis files nStakeMinAge nCoinbaseMaturity nTotalBlocksEstimate GetRandHash
  nMaxCacheSize adjusted_time).
Abbreviation Reorganize := (Reorganize Hash9 limit hashGenesis files fTestNet nStakeMinAge nCoinbaseMaturity nTotalBlocksEstimate GetRandHash
  nMaxCacheSize adjusted_time).
Abbreviation SetBestChainInner := (SetBestChainInner Hash9 limit hashGenesis files nStakeMinAge nCoinbaseMaturity nTotalBlocksEstimate GetRandHash
  nMaxCacheSize adjusted_time).
Abbreviation SetBestChain := (SetBestChain Hash9 limit hashGenesis files fTestNet nStakeMinAge nCoinbaseMaturity nTotalBlocksEstimate GetRandHash
  nMaxCacheSize adjusted_time now).

Lemma disconnect_branch_txn d st l : forall db ok db' txs, in_txn d db -> disconnect_branch st l db = Some (ok, db', txs) -> in_txn d db'.
Proof.
  induction l as [|p l IH]; intros db ok db' txs Hd E; cbn [BestChain.disconnect_branch] in E; [by injection E as _ <- _|].
  apply bind_Some in E as ([b|] & _ & E); [|by injection E as _ <- _]. apply bind_Some in E as ([ok1 db1] & E1 & E).
  pose proof (DisconnectBlock_txn _ _ _ _ _ _ _ Hd E1) as Hd1. destruct ok1; cbn [negb] in E; [|by injection E as _ <- _].
  apply bind_Some in E as ([[ok2 db2] txs2] & E2 & E). injection E as _ <- _. by eapply IH.
Qed.

Lemma connect_branch_txn d best pool l : forall db st c ok db' st' c' txs, in_txn d db ->
  connect_branch best pool l db st c = Some (ok, db', st', c', txs) -> in_txn d db' /\ same_heap no_money st st'.
Proof.
  induction l as [|p l IH]; intros db st c ok db' st' c' txs Hd E; cbn [BestChain.connect_branch] in E; [by injection E as _ <- <- _ _|].
  apply bind_Some in E as ([b|] & _ & E); [|by injection E as _ <- <- _ _]. apply bind_Some in E as ([[[r db1] st1] c1] & E1 & E).
  destruct (ConnectBlock_txn _ _ _ _ _ _ _ _ _ _ _ _ Hd E1) as [Hd1 Hs1]. destruct r; [by injection E as _ <- <- _ _|].
  apply bind_Some in E as ([[[[ok2 db2] st2] c2] txs2] & E2 & E). injection E as _ <- <- _ _.
  destruct (IH _ _ _ _ _ _ _ _ Hd1 E2) as [Hd2 Hs2]. split; [done|by etransitivity].
Qed.

(** Nothing of [s] changed but the amounts in the block index, the record of the
    best invalid chain and the signature cache. *)
Definition kept (s s' : chain_state) : Prop :=
  same_heap no_money (ch_index s) (ch_index s') /\ hashBestChain s' = hashBestChain s /\ nBestHeight s' = nBestHeight s /\
  bnBestChainTrust s' = bnBestChainTrust s /\ nTimeBestReceived s' = nTimeBestReceived s /\
  pblockindexFBBHLast s' = pblockindexFBBHLast s /\ mempool s' = mempool s.

Lemma kept_refl s : kept s s.
Proof. by repeat split. Qed.

Lemma kept_trans s1 s2 s3 : kept s1 s2 -> kept s2 s3 -> kept s1 s3.
Proof. intros (J1 & J2 & J3 & J4 & J5 & J6 & J7) (K1 & K2 & K3 & K4 & K5 & K6 & K7). split; [by etransitivity|]. split_and!; congruence. Qed.

Lemma kept_connect st c s : same_heap no_money (ch_index s) st -> kept s (set_pool (mempool s) c (set_index st s)).
Proof. intros Hs. by split_and!. Qed.

Lemma TxnCommit_failed d db db' : in_txn d db -> TxnCommit db = Some (false, db') -> db_map (pdb db') = db_map d /\ activeBatch db' = None.
Proof.
  intros [<- [b Hb]]. unfold TxnCommit. rewrite Hb. pose proof (db_Write_spec (pdb db) b) as Hw. unfold effect in Hw.
  destruct (db_Write (pdb db) b) as [[[]| |] d']; cbn in *; [done| |]; intros [= <-]; by split.
Qed.

(** The record that [InvalidChainFound] writes. *)
Definition invalid_key : list Z := Serialize ser_string SER_DISK CLIENT_VERSION key_bestInvalidTrust.

Definition db_kept (d : DB) (db : CTxDB) : Prop :=
  activeBatch db = None /\ forall k, k <> invalid_key -> db_map (pdb db) !! k = db_map d !! k.

Lemma InvalidChainFound_kept d db s p db' s' : db_map (pdb db) = db_map d -> InvalidChainFound (TxnAbort db) s p = Some (db', s') ->
  db_kept d db' /\ kept s s'.
Proof.
  intros Hd E. unfold InvalidChainFound in E. apply bind_Some in E as (i & _ & E). apply bind_Some in E as ([db1 s1] & E1 & E).
  apply bind_Some in E as (h & _ & E). apply bind_Some in E as (best & _ & E). apply bind_Some in E as (j & _ & E). injection E as <- <-.
  destruct (bu_gt _ _); [|injection E1 as <- <-; split; [split; [done|]; intros k _; cbn; by rewrite Hd|apply kept_refl]].
  apply bind_Some in E1 as ([ok other] & Ew & E1). injection E1 as <- <-. split; [|by repeat split]. split; [done|].
  intros k Hk. unfold WriteBestInvalidTrust, Write in Ew. cbn [txdb_open fReadOnly activeBatch pdb TxnAbort] in Ew.
  match type of Ew with context [db_Put ?a ?b ?c] => pose proof (db_Put_spec a b c) as Hp; destruct (db_Put a b c) as [status d'] end.
  unfold effect in Hp. cbn [fst snd] in Hp. injection Ew as _ <-. cbn. rewrite Hp, Hd. destruct status; [|done..]. rewrite lookup_insert_ne; [done|].
  intros Heq. by apply Hk.
Qed.

Lemma SetBestChainInner_failed d db s b p db' s' : in_txn d db -> SetBestChainInner db s b p = Some (false, db', s') ->
  db_kept d db' /\ kept s s'.
Proof.
  intros Hd E. unfold BestChain.SetBestChainInner in E. apply bind_Some in E as ([[[r db1] st1] c1] & E1 & E).
  destruct (ConnectBlock_txn _ _ _ _ _ _ _ _ _ _ _ _ Hd E1) as [Hd1 Hs1]. pose proof (kept_connect st1 c1 s Hs1) as Hk.
  apply bind_Some in E as ([ok2 db2] & E2 & E). assert (Hd2 : in_txn d db2).
  { destruct r; [by injection E2 as _ <-|]. by eapply Write_txn in E2 as [? _]. }
  destruct ok2; cbn [negb] in E.
  - apply bind_Some in E as ([ok3 db3] & E3 & E). destruct ok3; cbn [negb] in E.
    + apply bind_Some in E as (i & _ & E). apply bind_Some in E as (q & _ & E). apply bind_Some in E as (j & _ & E). done.
    + injection E as <- <-. destruct (TxnCommit_failed _ _ _ Hd2 E3) as [Hm Hb]. split; [split; [done|]; intros k _; by rewrite Hm|done].
  - apply bind_Some in E as ([db3 s3] & E3 & E). injection E as <- <-.
    destruct (InvalidChainFound_kept d db2 _ _ _ _ ltac:(by rewrite (proj1 Hd2)) E3) as [? ?]. split; [done|by eapply kept_trans].
Qed.

Lemma Reorganize_failed d db s p db' s' : in_txn d db -> Reorganize db s p = Some (false, db', s') ->
  db_map (pdb db') = db_map d /\ kept s s'.
Proof.
  intros Hd E. unfold BestChain.Reorganize in E. cbv zeta in E. apply bind_Some in E as (best & _ & E).
  assert (Hin : forall db0, in_txn d db0 -> db_map (pdb db0) = db_map d) by (by intros db0 [-> _]).
  apply bind_Some in E as ([pfork|] & _ & E); [|injection E as <- <-; split; [by apply Hin|apply kept_refl]].
  apply bind_Some in E as (vD & _ & E). apply bind_Some in E as (vC & _ & E). apply bind_Some in E as ([[ok1 db1] txs1] & E1 & E).
  pose proof (disconnect_branch_txn _ _ _ _ _ _ _ Hd E1) as Hd1.
  destruct ok1; cbn [negb] in E; [|injection E as <- <-; split; [by apply Hin|apply kept_refl]].
  apply bind_Some in E as ([[[[ok2 db2] st2] c2] txs2] & E2 & E). destruct (connect_branch_txn _ _ _ _ _ _ _ _ _ _ _ _ Hd1 E2) as [Hd2 Hs2].
  pose proof (kept_connect st2 c2 s Hs2) as Hk. destruct ok2; cbn [negb] in E; [|injection E as <- <-; split; [by apply Hin|done]].
  apply bind_Some in E as (h & _ & E). apply bind_Some in E as ([ok3 db3] & E3 & E).
  destruct (Write_txn _ _ _ _ _ _ _ _ Hd2 E3) as [Hd3 ->]. cbn [negb] in E. apply bind_Some in E as ([ok4 db4] & E4 & E).
  destruct ok4; cbn [negb] in E; [|injection E as <- <-; split; [by eapply TxnCommit_failed|done]].
  apply bind_Some in E as (st5 & _ & E). apply bind_Some in E as (st6 & _ & E). by apply bind_Some in E as (s7 & _ & E).
Qed.

(** ** Main theorem *)

(** (C3) Rolling back.  When [SetBestChain] answers false, whatever failed on the way,
    no change is left pending, the database is as it was (apart from the record of
    the best invalid chain), and so are the best block with its height and trust,
    the memory pool, and the block index (apart from the amounts computed for the
    blocks tried). *)
Theorem failed_best_chain_rolls_back db s b p db' s' : activeBatch db = None ->
  SetBestChain db s b p = Some (false, db', s') -> db_kept (pdb db) db' /\ kept s s'.
Proof.
  intros Hb E. unfold BestChain.SetBestChain in E. apply bind_Some in E as ([ok0 db0] & E0 & E).
  unfold TxnBegin in E0. rewrite Hb in E0. injection E0 as <- <-. cbn [negb] in E. set (d := pdb db) in *.
  set (db0 := mkTxDB d _ _) in E. assert (Hd : in_txn d db0) by (by split; [|eexists]).
  apply bind_Some in E as ([[ok1 db1] s1] & E1 & E). destruct ok1; cbn [negb] in E; [by apply bind_Some in E as (s2 & _ & E)|].
  injection E as <- <-. destruct (_ && _).
  - apply bind_Some in E1 as ([ok2 db2] & E2 & E1). destruct (Write_txn _ _ _ _ _ _ _ _ Hd E2) as [Hd2 _].
    apply bind_Some in E1 as ([ok3 db3] & E3 & E1). injection E1 as -> <- <-. destruct (TxnCommit_failed _ _ _ Hd2 E3) as [Hm Hn].
    split; [split; [done|]; intros k _; by rewrite Hm|apply kept_refl].
  - destruct (bu_eq _ _); [by eapply SetBestChainInner_failed|].
    apply bind_Some in E1 as (best & _ & E1). apply bind_Some in E1 as (i & _ & E1). apply bind_Some in E1 as ([l r] & _ & E1).
    apply bind_Some in E1 as ([[ok3 db3] s3] & E3 & E1). destruct ok3; cbn [negb] in E1; [by apply bind_Some in E1 as ([db4 s4] & _ & E1)|].
    apply bind_Some in E1 as ([db4 s4] & E4 & E1). injection E1 as <- <-. destruct (Reorganize_failed _ _ _ _ _ _ Hd E3) as [Hm Hk].
    destruct (InvalidChainFound_kept d _ _ _ _ _ Hm E4) as [? ?]. split; [done|by eapply kept_trans].
Qed.
End transaction.

(** ** An example: an empty block on top of the best *)

Section example.
#[local] Existing Instance BN_Z.
#[local] Existing Instance Crypto_toy.
#[local] Existing Instance EC_toy.
#[local] Existing Instance LevelDB_map.
#[local] Existing Instance LevelDB_map_spec.

Definition best_db : CTxDB := mkTxDB (∅ : gmap (list Z) (list Z)) None false.
Definition best_state : chain_state :=
  mkChain (mkIndexState {[ 0 := example_pindex ]} ∅ (Some 0) (Some 0)) (bu_zero 8) 0 (bu_zero 8) (bu_zero 8) 0 None (mkPool ∅ ∅ 0) (mkSigCache [] 0).

Definition best_run := SetBestChain example_hash9 example_limit (bu_zero 8) example_files false 3600 40 0 (fun _ => bu_zero 8) 10 0 0
  best_db best_state block_null 0.

Lemma best_refused : exists db s, best_run = Some (false, db, s).
Proof.
  assert (E : match best_run with Some (false, _, _) => true | _ => false end = true) by (vm_compute; reflexivity).
  destruct best_run as [[[[] db] s]|]; try discriminate. by eexists _, _.
Qed.

Lemma failed_best_chain_rolls_back_witness : exists db s, best_run = Some (false, db, s) /\ mempool s = mempool best_state /\ activeBatch db = None.
Proof.
  destruct best_refused as (db & s & E). exists db, s. split; [exact E|].
  destruct (failed_best_chain_rolls_back example_hash9 example_limit (bu_zero 8) example_files false 3600 40 0 (fun _ => bu_zero 8) 10 0 0
    best_db best_state block_null 0 db s eq_refl E) as [[Hb _] (_ & _ & _ & _ & _ & _ & Hp)].
  split; [exact Hp|exact Hb].
Defined.
End example.
