(* ===== verification/Reorg.v ===== *)
(** * main.cpp: reorganisations

    [Reorganize] finds the last block that the two branches share and replaces
    one branch by the other; the transaction index it commits is the one that
    connecting the blocks of the new chain one after the other gives. *)
From Stdlib Require Import ZArith Lia Bool.
From stdpp Require Import prelude gmap.
From S2P Require Import Prelude Uint256 DataStream Serialize Crypto Bignum Script Tx Block Index TxDB Target.
From S2P Require Import Keys KeyStore Pool SigHash Interp Standard Connect Chain Accept BestChain.

(** ** The fork *)

Section fork.
Context (st : index_state) (Hwf : tree_wf st).

Definition ancestor (a p : ptr) : Prop := exists n, walk st n (Some p) = Some a.

Definition height (p : ptr) : Z := blocks st (Some p) - 1.

Lemma height_of p i : deref st p = Some i -> nHeight i = height p.
Proof. intros E. unfold height, blocks. unfold deref in E. rewrite E. lia. Qed.

Lemma ancestor_refl p : ancestor p p.
Proof. by exists 0%nat. Qed.

Lemma ancestor_trans a b c : ancestor a b -> ancestor b c -> ancestor a c.
Proof. intros [n En] [m Em]. exists (m + n)%nat. by rewrite walk_add, Em. Qed.

Lemma ancestor_prev p i q : deref st p = Some i -> pprev i = Some q -> ancestor q p.
Proof. intros Ei Eq. exists 1%nat. cbn. unfold prev. unfold deref in Ei. rewrite Ei. done. Qed.

Lemma ancestor_valid a p : valid st (Some p) -> ancestor a p -> valid st (Some a) /\ height a <= height p.
Proof.
  intros Hp [n En]. destruct (walk_valid st Hwf n (Some p) Hp) as [Hv Hb]. rewrite En in Hv, Hb. split; [done|]. unfold height.
  pose proof (blocks_nonneg st Hwf _ Hv). pose proof (blocks_nonneg st Hwf _ Hp).
  destruct (prev_valid st Hwf a Hv) as (_ & _ & H1). lia.
Qed.

(** Ancestors of a block are ordered by their heights. *)
Lemma ancestor_order a b p : valid st (Some p) -> ancestor a p -> ancestor b p -> height a <= height b -> ancestor a b.
Proof.
  intros Hp [n En] [m Em] Hh. destruct (walk_valid st Hwf n (Some p) Hp) as [Hva Hba]. destruct (walk_valid st Hwf m (Some p) Hp) as [Hvb Hbb].
  rewrite En in Hva, Hba. rewrite Em in Hvb, Hbb. unfold height in Hh.
  destruct (prev_valid st Hwf a Hva) as (_ & _ & Ha). destruct (prev_valid st Hwf b Hvb) as (_ & _ & Hb).
  assert (m <= n)%nat by lia. exists (n - m)%nat. replace n with (m + (n - m))%nat in En by lia. by rewrite walk_add, Em in En.
Qed.

Lemma ancestor_same a p : valid st (Some p) -> ancestor a p -> height p <= height a -> a = p.
Proof.
  intros Hp [n En] Hh. destruct (walk_valid st Hwf n (Some p) Hp) as [Hva Hba]. rewrite En in Hva, Hba. unfold height in Hh.
  destruct (prev_valid st Hwf p Hp) as (_ & _ & H1). destruct n as [|n]; [by injection En|lia].
Qed.

(** The proper ancestors are the ancestors of the previous block. *)
Lemma ancestor_inv a p i : deref st p = Some i -> ancestor a p -> a = p \/ exists q, pprev i = Some q /\ ancestor a q.
Proof.
  intros Ei [[|n] En]; [left; by injection En|right]. cbn [walk] in En. unfold prev in En. unfold deref in Ei. rewrite Ei in En. cbn in En.
  destruct (pprev i) as [q|]; [|by rewrite walk_None in En]. exists q. split; [done|by exists n].
Qed.

Lemma prev_facts p : valid st (Some p) -> exists i, deref st p = Some i /\ 0 <= height p /\
  match pprev i with None => height p = 0 | Some q => valid st (Some q) /\ height q = height p - 1 end.
Proof.
  intros Hp. destruct (prev_valid st Hwf p Hp) as (Hv & Hb & H1). destruct Hp as [i Ei]. exists i. split; [done|]. unfold height.
  unfold prev in Hv, Hb. rewrite Ei in Hv, Hb. cbn [mbind option_bind] in Hv, Hb. split; [lia|]. destruct (pprev i) as [q|]; [split; [done|lia]|].
  change (blocks st None) with 0 in Hb. lia.
Qed.

Lemma height_size p : valid st (Some p) -> height p <= Z.of_nat (size (heap st)).
Proof. intros Hp. pose proof (blocks_size st Hwf _ Hp). pose proof (blocks_nonneg st Hwf _ Hp). unfold height. lia. Qed.

Lemma lower_spec fuel h p : valid st (Some p) -> 0 <= h -> height p <= Z.of_nat fuel ->
  exists q, lower fuel st h p = Some (Some q) /\ ancestor q p /\ height q = Z.min (height p) h.
Proof.
  revert p. induction fuel as [|fuel IH]; intros p Hp Hh Hf; destruct (prev_facts p Hp) as (i & Ei & H0 & Hprev);
    cbn [lower]; rewrite Ei; cbn [mbind option_bind]; rewrite (height_of p i Ei).
  - destruct (Z.ltb_spec h (height p)); [lia|]. exists p. split_and!; [done|apply ancestor_refl|lia].
  - destruct (Z.ltb_spec h (height p)) as [Hlt|]; [|exists p; split_and!; [done|apply ancestor_refl|lia]].
    destruct (pprev i) as [q|] eqn:Eq; [|lia]. destruct Hprev as [Hq Hhq]. destruct (IH q Hq Hh ltac:(lia)) as (r & -> & Hr & Hhr).
    exists r. split_and!; [done| |lia]. eapply ancestor_trans; [exact Hr|by eapply ancestor_prev].
Qed.

Definition last_common (p q : ptr) (r : option ptr) : Prop :=
  match r with
  | None => forall a, ~ (ancestor a p /\ ancestor a q)
  | Some f => ancestor f p /\ ancestor f q /\ forall a, ancestor a p -> ancestor a q -> ancestor a f
  end.

(** Lowering the longer branch keeps the common ancestors. *)
Lemma last_common_lower p q q' r : valid st (Some p) -> valid st (Some q) -> ancestor q' q -> height q' = Z.min (height q) (height p) ->
  last_common p q' r -> last_common p q r.
Proof.
  intros Hp Hq Hq' Hh. assert (Hc : forall a, ancestor a p -> ancestor a q -> ancestor a q').
  { intros a Hap Haq. apply (ancestor_order a q' q); try done. destruct (ancestor_valid a p Hp Hap) as [_ ?].
    destruct (ancestor_valid a q Hq Haq) as [_ ?]. lia. }
  destruct r as [f|]; cbn.
  - intros (H1 & H2 & H3). split_and!; [done|by eapply ancestor_trans|]. intros a Hap Haq. apply H3; [done|by apply Hc].
  - intros Hno a [Hap Haq]. apply (Hno a). split; [done|by apply Hc].
Qed.

Lemma find_fork_spec fuel : forall p q, valid st (Some p) -> valid st (Some q) -> height p <= Z.of_nat fuel ->
  exists r, find_fork fuel st p q = Some r /\ last_common p q r.
Proof.
  assert (Hself : forall p, last_common p p (Some p)) by (intros p; split_and!; [apply ancestor_refl..|done]).
  induction fuel as [|fuel IH]; intros p q Hp Hq Hf; (cbn [find_fork]; case_bool_decide as Epq; [subst; by eexists|]);
    destruct (prev_facts p Hp) as (i & Ei & H0 & Hprev); rewrite Ei; cbn [mbind option_bind]; rewrite (height_of p i Ei);
    (destruct (lower_spec (size (heap st)) (height p) q Hq H0 (height_size q Hq)) as (q' & -> & Hq' & Hh); cbn [mbind option_bind]);
    (case_bool_decide as Epq'; [subst q'; exists (Some p); split; [done|]; by apply (last_common_lower p q p)|]);
    destruct (ancestor_valid q' q Hq Hq') as [Hv' _];
    (* [p] is no ancestor of [q'] *)
    assert (Hno : ~ ancestor p q') by (intros Hanc; apply Epq'; apply (ancestor_same p q'); [done|done|lia]).
  all: destruct (pprev i) as [pp|] eqn:Epp.
  - destruct Hprev as [Hpp Hhp]. destruct (prev_facts pp Hpp) as (_ & _ & Hpos & _). lia.
  - exists None. split; [done|]. apply (last_common_lower p q q'); try done. intros a [Hap Haq].
    destruct (ancestor_inv a p i Ei Hap) as [->|(? & Hx & _)]; [done|]. by rewrite Epp in Hx.
  - destruct Hprev as [Hpp Hhp]. destruct (IH pp q' Hpp Hv' ltac:(lia)) as (r & -> & Hr). exists r. split; [done|].
    apply (last_common_lower p q q'); try done. assert (Hc : forall a, ancestor a p -> ancestor a q' -> ancestor a pp).
    { intros a Hap Haq. destruct (ancestor_inv a p i Ei Hap) as [->|(x & Hx & Hax)]; [done|]. rewrite Epp in Hx. by injection Hx as <-. }
    destruct r as [f|]; cbn in *.
    + destruct Hr as (R1 & R2 & R3). split_and!; [|done|].
      * eapply ancestor_trans; [exact R1|by eapply ancestor_prev].
      * intros a Hap Haq. apply R3; [by apply Hc|done].
    + intros a [Hap Haq]. apply (Hr a). split; [by apply Hc|done].
  - exists None. split; [done|]. apply (last_common_lower p q q'); try done. intros a [Hap Haq].
    destruct (ancestor_inv a p i Ei Hap) as [->|(? & Hx & _)]; [done|]. by rewrite Epp in Hx.
Qed.

Lemma branch_to_spec fuel f p : valid st (Some p) -> ancestor f p -> height p - height f <= Z.of_nat fuel ->
  exists l, branch_to fuel st f p = Some l /\ len l = height p - height f.
Proof.
  revert p. induction fuel as [|fuel IH]; intros p Hp Hf Hl; cbn [branch_to]; (case_bool_decide as E; [subst; exists []; split; [done|rewrite len_nil; lia]|]);
    destruct (prev_facts p Hp) as (i & Ei & H0 & Hprev).
  - exfalso. apply E. symmetry. apply (ancestor_same f p); [done|done|lia].
  - rewrite Ei. cbn [mbind option_bind]. destruct (ancestor_inv f p i Ei Hf) as [->|(q & Eq & Hq)]; [done|]. rewrite Eq in Hprev |- *.
    destruct Hprev as [Hv Hh]. cbn [mbind option_bind]. destruct (IH q Hv Hq ltac:(lia)) as (l & -> & Hlen). exists (p :: l).
    split; [done|]. rewrite len_cons. lia.
Qed.

(** (C24) The search for the fork.  In a well-formed block index it ends, with the last
    common block of the two branches (the one that every other common block lies
    below) or with the error when they have none; and the two loops that list the
    blocks above it end, with as many blocks as the heights differ. *)
Theorem fork_is_last_common_block p q : is_Some (heap st !! p) -> is_Some (heap st !! q) ->
  exists r, find_fork (size (heap st)) st p q = Some r /\ last_common p q r /\
    match r with
    | None => True
    | Some f => exists vDisconnect vConnect,
        branch_to (size (heap st)) st f p = Some vDisconnect /\ len vDisconnect = height p - height f /\
        branch_to (size (heap st)) st f q = Some vConnect /\ len vConnect = height q - height f
    end.
Proof.
  intros Hp Hq. destruct (find_fork_spec (size (heap st)) p q Hp Hq (height_size p Hp)) as (r & E & Hr). exists r. split_and!; [done|done|].
  destruct r as [f|]; [|done]. destruct Hr as (Hfp & Hfq & _). destruct (ancestor_valid f p Hp Hfp) as [Hf _].
  destruct (prev_facts f Hf) as (_ & _ & H0 & _).
  assert (Hfuel : forall x, valid st (Some x) -> height x - height f <= Z.of_nat (size (heap st))).
  { intros x Hx. etransitivity; [|exact (height_size x Hx)]. lia. }
  destruct (branch_to_spec (size (heap st)) f p Hp Hfp (Hfuel p Hp)) as (l1 & E1 & L1).
  destruct (branch_to_spec (size (heap st)) f q Hq Hfq (Hfuel q Hq)) as (l2 & E2 & L2). by exists l1, l2.
Qed.
End fork.

(** ** Chains of blocks and their indexes *)

Section chains.
Context `{BNS : BN_spec} `{CS : Crypto_spec} `{EC} `{LS : LevelDB_spec}.
Context (Hash9 : list Z -> base_uint) (limit hashGenesis : base_uint) (files : block_files).
Context (fTestNet : bool) (nStakeMinAge nCoinbaseMaturity nTotalBlocksEstimate : Z) (GetRandHash : nat -> base_uint) (nMaxCacheSize : Z).
Context (adjusted_time now : Z).

#[local] Instance reorg_db : ChainDB CTxDB := txdb_chain Hash9 adjusted_time.
#[local] Instance reorg_db_spec : ChainDB_spec txdb_repr := txdb_chain_spec Hash9 adjusted_time.

Abbreviation read_block := (index_ReadFromDisk Hash9 limit files).

(** The blocks from [p] down to the first one, which is never connected; all of
    them lie in the block files. *)
Inductive chain_of (st : index_state) : ptr -> list CBlock -> Prop :=
  | chain_first p i : deref st p = Some i -> pprev i = None -> chain_of st p []
  | chain_next p i q b bs : deref st p = Some i -> pprev i = Some q -> read_block st p = Some (Some b) ->
      block_ok b -> stored files b (i_nFile i) (i_nBlockPos i) -> GetBlockHash st q = Some (hashPrevBlock b) ->
      chain_of st q bs -> chain_of st p (b :: bs).

(** The index and the ledger after connecting the blocks, the newest first. *)
Inductive index_of_chain : list CBlock -> gmap base_uint CTxIndex -> ledger -> Prop :=
  | ioc_nil : index_of_chain [] ∅ ∅
  | ioc_cons b bs m U m' U' ws nBestHeight time (db : CTxDB) : index_of_chain bs m U ->
      connected (ChainDB0 := txdb_chain Hash9 time) files nStakeMinAge nBestHeight nTotalBlocksEstimate db U m U (vtx b) ws m' U' ->
      index_of_chain (b :: bs) m' U'.

(** The time when a block was connected plays no part in it. *)
Lemma connected_time t t' nB db U0 v U l ws v' U' :
  connected (ChainDB0 := txdb_chain Hash9 t) files nStakeMinAge nB nTotalBlocksEstimate db U0 v U l ws v' U' ->
  connected (ChainDB0 := txdb_chain Hash9 t') files nStakeMinAge nB nTotalBlocksEstimate db U0 v U l ws v' U'.
Proof. induction 1 as [v U HU|v U tx w p v1 U1 l ws v2 U2 HU Hs Hun Hw Ht Hg Ev1 Hcon IH]; [by constructor|by eapply connected_cons]. Qed.

Definition all_hashes (bs : list CBlock) : list base_uint := concat (map (fun b => map tx_GetHash (vtx b)) bs).

Lemma connected_dom t nB db U0 v U l ws v' U' :
  connected (ChainDB0 := txdb_chain Hash9 t) files nStakeMinAge nB nTotalBlocksEstimate db U0 v U l ws v' U' ->
  forall h, is_Some (v' !! h) <-> h ∈ map tx_GetHash l \/ is_Some (v !! h).
Proof.
  induction 1 as [v U HU|v U tx w p v1 U1 l ws v2 U2 HU Hs Hun _ _ _ Ev1 Hcon IH]; intros h.
  - cbn. rewrite elem_of_nil. tauto.
  - rewrite IH. cbn [map]. rewrite elem_of_cons. subst v1.
    assert (Hv : is_Some ((if IsCoinBase tx then v else mark v (prevouts tx) p) !! h) <-> is_Some (v !! h)).
    { destruct (IsCoinBase tx); [done|]. rewrite mark_lookup. apply fmap_is_Some. }
    destruct (decide (h = tx_GetHash tx)) as [->|Hne]; [|rewrite lookup_insert_ne, Hv by done; tauto].
    rewrite lookup_insert_eq. assert (is_Some (Some (txindex_new p (len (vout tx))))) by (by eexists). tauto.
Qed.

Lemma index_of_chain_dom bs m U : index_of_chain bs m U -> forall h, is_Some (m !! h) <-> h ∈ all_hashes bs.
Proof.
  induction 1 as [|b bs m U m' U' ws nB t db Hi IH Hcon]; intros h; [rewrite lookup_empty; cbn; rewrite elem_of_nil; split; [by intros []|done]|].
  rewrite (connected_dom _ _ _ _ _ _ _ _ _ _ Hcon), IH. unfold all_hashes. cbn [map concat]. by rewrite elem_of_app.
Qed.

Lemma index_of_chain_ledger bs m U : index_of_chain bs m U -> ledger_of files m U.
Proof.
  destruct 1 as [|b bs m U m' U' ws nB t db Hi Hcon]; [|by eapply (connected_steps _ _ _ _ _ _ _ _ _ _ _ _ Hcon)].
  split; [done|]. intros o. unfold unspent. by destruct (0 <=? op_n o).
Qed.

(** ** Only the shape of the block index matters *)

Lemma shape_deref st st' p i : same_heap shape st st' -> deref st p = Some i -> exists i', deref st' p = Some i' /\ shape i' = shape i.
Proof.
  intros (Hs & _) Ei. specialize (Hs p). unfold deref in *. rewrite Ei in Hs. cbn in Hs. apply fmap_Some in Hs as (i' & Ei' & Hs). by exists i'.
Qed.

Lemma shape_fields i i' : shape i' = shape i -> phashBlock i' = phashBlock i /\ pprev i' = pprev i /\ i_nFile i' = i_nFile i /\
  i_nBlockPos i' = i_nBlockPos i /\ nHeight i' = nHeight i /\ bnChainTrust i' = bnChainTrust i.
Proof. destruct i, i'. unfold shape, no_money, set_money, set_pnext. cbn. intros E. injection E. by intros. Qed.

Lemma same_heap_sym f st st' : same_heap f st st' -> same_heap f st' st.
Proof. intros (K1 & K2 & K3 & K4). by repeat split. Qed.

Lemma same_heap_shape st st' : same_heap no_money st st' -> same_heap shape st st'.
Proof.
  intros (K1 & K2 & K3 & K4). split_and!; [|done..]. intros p. change shape with (set_pnext None ∘ no_money).
  by rewrite !option_fmap_compose, K1.
Qed.

Lemma shape_hash st st' p h : same_heap shape st st' -> GetBlockHash st p = Some h -> GetBlockHash st' p = Some h.
Proof.
  intros Hs E. unfold GetBlockHash in *. destruct (deref st p) as [i|] eqn:Ei; [|done]. cbn in E.
  destruct (shape_deref _ _ _ _ Hs Ei) as (i' & -> & Hi). cbn. by rewrite (proj1 (shape_fields _ _ Hi)).
Qed.

Lemma shape_read st st' p b : same_heap shape st st' -> read_block st p = Some (Some b) -> read_block st' p = Some (Some b).
Proof.
  intros Hs E. unfold index_ReadFromDisk in *. destruct (deref st p) as [i|] eqn:Ei; [|done]. cbn in E.
  destruct (shape_deref _ _ _ _ Hs Ei) as (i' & -> & Hi). cbn. destruct (shape_fields _ _ Hi) as (_ & _ & -> & -> & _).
  destruct (block_ReadFromDisk _ _ _ _ _) as [b'|]; [|done]. apply bind_Some in E as (h & Eh & E). by rewrite (shape_hash _ _ _ _ Hs Eh).
Qed.

Lemma chain_of_ext st st' p bs : same_heap shape st st' -> chain_of st p bs -> chain_of st' p bs.
Proof.
  intros Hs. induction 1 as [p i Ei Ep|p i q b bs Ei Ep Er Hb Hst Hh Hc IH].
  - destruct (shape_deref _ _ _ _ Hs Ei) as (i' & Ei' & Hi). apply (chain_first _ _ i'); [done|]. by rewrite (proj1 (proj2 (shape_fields _ _ Hi))).
  - destruct (shape_deref _ _ _ _ Hs Ei) as (i' & Ei' & Hi). destruct (shape_fields _ _ Hi) as (_ & Fp & Ff & Fb & _).
    apply (chain_next _ _ i' q); [done|congruence|by eapply shape_read|done|by rewrite Ff, Fb|by eapply shape_hash|done].
Qed.

Lemma chain_of_fun st p bs bs' : chain_of st p bs -> chain_of st p bs' -> bs = bs'.
Proof.
  intros Hc. revert bs'. induction Hc as [p i Ei Ep|p i q b bs Ei Ep Er Hb Hst Hh Hc IH]; intros bs' Hc'; destruct Hc' as [p i' Ei' Ep'|p i' q' b' bs' Ei' Ep' Er' _ _ _ Hc'];
    rewrite Ei in Ei'; injection Ei' as <-; rewrite Ep in Ep'; try discriminate Ep'; [done|].
  injection Ep' as <-. rewrite Er in Er'. injection Er' as <-. f_equal. by apply IH.
Qed.

(** [l] leads up from [f] to [p]. *)
Inductive path (st : index_state) : ptr -> list ptr -> ptr -> Prop :=
  | path_nil p : path st p [] p
  | path_cons f x i l p : deref st x = Some i -> pprev i = Some f -> path st x l p -> path st f (x :: l) p.

Lemma path_snoc st f l q p i : path st f l q -> deref st p = Some i -> pprev i = Some q -> path st f (l ++ [p]) p.
Proof.
  induction 1 as [f|f x j l q Ex Ep Hp IH]; intros Ei Eq; cbn; [by econstructor; [..|constructor]|]. eapply path_cons; [done|done|by apply IH].
Qed.

Lemma branch_to_path st f fuel : forall p l, branch_to fuel st f p = Some l -> path st f (rev l) p.
Proof.
  induction fuel as [|fuel IH]; intros p l E; cbn [branch_to] in E; (case_bool_decide as Ep; [injection E as <-; subst; constructor|]); [done|].
  apply bind_Some in E as (i & Ei & E). apply bind_Some in E as (q & Eq & E). apply bind_Some in E as (l1 & E1 & E). injection E as <-.
  cbn. eapply path_snoc; [by apply IH|done|done].
Qed.

Lemma path_ext st st' f l p : same_heap shape st st' -> path st f l p -> path st' f l p.
Proof.
  intros Hs. induction 1 as [p|f x i l p Ei Ep Hp IH]; [constructor|]. destruct (shape_deref _ _ _ _ Hs Ei) as (i' & Ei' & Hi).
  destruct (shape_fields _ _ Hi) as (_ & Fp & _). eapply path_cons; [done|congruence|done].
Qed.

(** A chain contains the chains of the blocks on the way. *)
Lemma path_chain st f l p bs : path st f l p -> chain_of st p bs -> exists bs1 bs2, bs = bs1 ++ bs2 /\ chain_of st f bs2.
Proof.
  intros Hp. revert bs. induction Hp as [p|f x i l p Ei Ep Hp IH]; intros bs Hc; [by exists [], bs|].
  destruct (IH bs Hc) as (bs1 & bs2 & -> & Hc2). destruct Hc2 as [y j Ej Epj|y j q b bs2 Ej Epj _ _ _ _ Hc2]; rewrite Ei in Ej; injection Ej as <-;
    rewrite Ep in Epj; [done|]. injection Epj as <-. exists (bs1 ++ [b]), bs2. by rewrite <- app_assoc.
Qed.

(** ** Disconnecting the old branch *)

Definition next_ok (st : index_state) : Prop := forall p i q, deref st p = Some i -> pnext i = Some q -> is_Some (heap st !! q).

Lemma disk_of_total st p : index_wf st -> next_ok st -> is_Some (heap st !! p) -> is_Some (disk_of st p).
Proof.
  intros Hwf Hn [i Ei]. unfold disk_of. fold (deref st p) in Ei. rewrite Ei. cbn [mbind option_bind].
  assert (Hh : forall q, is_Some (heap st !! q) -> is_Some (GetBlockHash st q)).
  { intros q [j Ej]. unfold GetBlockHash, deref. rewrite Ej. cbn. destruct (iw_hash _ Hwf _ _ Ej) as (h & -> & _). by eexists. }
  pose proof (iw_prev _ Hwf _ _ Ei) as Hprev.
  assert (is_Some match pprev i with Some q => GetBlockHash st q | None => Some (bu_zero 8) end) as [h1 E1].
  { destruct (pprev i) as [q|]; [|by eexists]. destruct Hprev as (j & Ej & _). apply Hh. by exists j. }
  assert (is_Some match pnext i with Some q => GetBlockHash st q | None => Some (bu_zero 8) end) as [h2 E2].
  { destruct (pnext i) as [q|] eqn:En; [|by eexists]. apply Hh. by eapply Hn. }
  rewrite E1. cbn [mbind option_bind]. rewrite E2. cbn [mbind option_bind]. by eexists.
Qed.

Lemma all_hashes_cons b bs : NoDup (all_hashes (b :: bs)) -> NoDup (map tx_GetHash (vtx b)) /\ NoDup (all_hashes bs) /\
  forall h, h ∈ map tx_GetHash (vtx b) -> h ∉ all_hashes bs.
Proof. unfold all_hashes. cbn [map concat]. intros Hn. apply NoDup_app in Hn as (N1 & N2 & N3). done. Qed.

Lemma all_hashes_app bs1 bs2 : NoDup (all_hashes (bs1 ++ bs2)) -> NoDup (all_hashes bs2).
Proof. unfold all_hashes. rewrite map_app, concat_app. intros Hn. by apply NoDup_app in Hn as (_ & _ & ?). Qed.

(** Disconnecting the newest block of a chain. *)
Lemma DisconnectBlock_chain st p b bs m' U' db : index_wf st -> next_ok st -> chain_of st p (b :: bs) -> index_of_chain (b :: bs) m' U' ->
  NoDup (all_hashes (b :: bs)) -> txdb_repr db m' ->
  exists db' m U, DisconnectBlock db st b p = Some (true, db') /\ txdb_repr db' m /\ index_of_chain bs m U.
Proof.
  intros Hwf Hn Hc Hi Hnd Hr. inversion Hc as [|p' i q b' bs' Ei Ep Er Hb Hst Hh Hc1]; subst. inversion Hi as [|b' bs' m U m1 U1 ws nB t db0 Hi1 Hcon]; subst.
  apply (connected_time _ adjusted_time) in Hcon. change (txdb_chain Hash9 adjusted_time) with reorg_db in Hcon.
  destruct (all_hashes_cons _ _ Hnd) as (N1 & _ & N3).
  destruct (disconnect_txs_spec txdb_repr files nStakeMinAge nB nTotalBlocksEstimate db0 U m U (vtx b) ws m' U' Hcon [] db m')
    as (db1 & m0 & E1 & Hr0 & Hm0); [exact N1|by left|apply Hb|exact Hr|done|].
  assert (m0 = m) as ->.
  { apply map_eq. intros h. rewrite Hm0. unfold hash_in. case_bool_decide as Hin; [|done]. symmetry. apply eq_None_not_Some. intros Hs.
    apply (index_of_chain_dom _ _ _ Hi1) in Hs. by apply (N3 h). }
  unfold DisconnectBlock. rewrite E1. cbn [mbind option_bind negb]. rewrite Ei. cbn [mbind option_bind]. rewrite Ep. unfold write_prev.
  pose proof (iw_prev _ Hwf _ _ Ei) as Hq. rewrite Ep in Hq. destruct Hq as (j & Ej & _).
  destruct (disk_of_total st q Hwf Hn (ex_intro _ _ Ej)) as [dq ->]. cbn [mbind option_bind].
  destruct (cdb_WriteBlockIndex_spec db1 m (mkDiskIndex (d_index dq) (blockHash dq) (hashPrev dq) (bu_zero 8)) Hr0) as (db2 & E2 & Hr2).
  exists db2, m, U. split_and!; [exact E2|exact Hr2|exact Hi1].
Qed.

Abbreviation disconnect_branch := (disconnect_branch Hash9 limit files adjusted_time).
Abbreviation connect_branch := (connect_branch Hash9 limit hashGenesis files nStakeMinAge nCoinbaseMaturity nTotalBlocksEstimate GetRandHash
  nMaxCacheSize adjusted_time).

Lemma disconnect_branch_chain st f (Hwf : index_wf st) (Hn : next_ok st) fuel : forall p l bs m U db, branch_to fuel st f p = Some l ->
  chain_of st p bs -> index_of_chain bs m U -> NoDup (all_hashes bs) -> txdb_repr db m ->
  exists db' txs bs1 bs2 m2 U2, disconnect_branch st l db = Some (true, db', txs) /\ bs = bs1 ++ bs2 /\ chain_of st f bs2 /\
    index_of_chain bs2 m2 U2 /\ txdb_repr db' m2.
Proof.
  induction fuel as [|fuel IH]; intros p l bs m U db E Hc Hi Hnd Hr; cbn [branch_to] in E;
    (case_bool_decide as Ep; [injection E as <-; subst; by exists db, [], [], bs, m, U|]); [done|].
  apply bind_Some in E as (i & Ei & E). apply bind_Some in E as (q & Eq & E). apply bind_Some in E as (l1 & E1 & E). injection E as <-.
  pose proof Hc as Hc0. destruct Hc as [p j Ej Epj|p j q' b bs Ej Epj Er Hb Hst Hh Hc]; rewrite Ei in Ej; injection Ej as <-; rewrite Eq in Epj; [done|].
  injection Epj as <-. cbn [BestChain.disconnect_branch]. rewrite Er. cbn [mbind option_bind].
  destruct (DisconnectBlock_chain _ _ _ _ _ _ _ Hwf Hn Hc0 Hi Hnd Hr) as (db1 & m1 & U1 & E2 & Hr1 & Hi1).
  change (chain_db Hash9 adjusted_time) with reorg_db. rewrite E2. cbn [mbind option_bind negb].
  destruct (all_hashes_cons _ _ Hnd) as (_ & Hnd1 & _).
  destruct (IH q l1 bs m1 U1 db1 E1 Hc Hi1 Hnd1 Hr1) as (db2 & txs & bs1 & bs2 & m2 & U2 & -> & -> & Hc2 & Hi2 & Hr2).
  cbn [mbind option_bind]. eexists db2, _, (b :: bs1), bs2, m2, U2. split_and!; [reflexivity|done|exact Hc2|exact Hi2|exact Hr2].
Qed.

(** ** Connecting the new branch *)

Lemma connect_chain st p i b bs m U best pool db c db' st' c' : chain_of st p (b :: bs) -> index_of_chain bs m U -> cache_ok c -> txdb_repr db m ->
  deref st p = Some i ->
  ConnectBlock Hash9 limit hashGenesis files pool nStakeMinAge nCoinbaseMaturity best nTotalBlocksEstimate GetRandHash nMaxCacheSize
    db st b p false c = Some (Accept tt, db', st', c') ->
  exists m' U', index_of_chain (b :: bs) m' U' /\ txdb_repr db' m' /\ cache_ok c'.
Proof.
  intros Hc Hi Hcache Hr Ei E. inversion Hc as [|p' i' q b' bs' Ei' Ep Er Hb Hst Hh Hc1]; subst. rewrite Ei in Ei'. injection Ei' as <-.
  destruct (ConnectBlock_trace txdb_repr Hash9 limit hashGenesis files pool nStakeMinAge nCoinbaseMaturity best nTotalBlocksEstimate GetRandHash
    nMaxCacheSize db m U st b p i c db' st' c' Hr (index_of_chain_ledger _ _ _ Hi) Hcache Hb Ei Hst E)
    as (m' & ws & U' & i' & ps & Hr' & Hc' & Hcon & _).
  exists m', U'. split_and!; [by eapply ioc_cons|exact Hr'|exact Hc'].
Qed.

Lemma connect_branch_chain best pool l : forall st f p bs0 bs m U db c db' st' c' txs, path st f l p -> chain_of st p bs -> chain_of st f bs0 ->
  index_of_chain bs0 m U -> cache_ok c -> in_txn (pdb db) db -> txdb_repr db m ->
  connect_branch best pool l db st c = Some (true, db', st', c', txs) ->
  exists m' U', index_of_chain bs m' U' /\ txdb_repr db' m' /\ cache_ok c'.
Proof.
  induction l as [|x l IH]; intros st f p bs0 bs m U db c db' st' c' txs Hp Hc Hc0 Hi Hcache Ht Hr E; cbn [BestChain.connect_branch] in E.
  - injection E as <- <- <- <-. inversion Hp; subst. rewrite (chain_of_fun _ _ _ _ Hc Hc0). by exists m, U.
  - inversion Hp as [|f' x' i l' p' Ei Ep Hp1]; subst. apply bind_Some in E as ([b|] & Er & E); [|done].
    apply bind_Some in E as ([[[r db1] st1] c1] & E1 & E). destruct r as [|[]]; [done|].
    apply bind_Some in E as ([[[[ok2 db2] st2] c2] txs2] & E2 & E). injection E as -> -> -> -> <-.
    destruct (path_chain _ _ _ _ _ Hp1 Hc) as (bs1 & bs2 & -> & Hcx). pose proof Hcx as Hcx0.
    destruct Hcx as [x i' Ei' Ep'|x i' q b' bs2 Ei' Ep' Er' _ _ _ Hcf]; rewrite Ei in Ei'; injection Ei' as <-; rewrite Ep in Ep'; [done|].
    injection Ep' as <-. rewrite Er in Er'. injection Er' as <-. rewrite (chain_of_fun _ _ _ _ Hcf Hc0) in *.
    destruct (connect_chain st x i b bs0 m U best pool db c db1 st1 c1 Hcx0 Hi Hcache Hr Ei E1) as (m1 & U1 & Hi1 & Hr1 & Hc1).
    destruct (ConnectBlock_txn _ _ _ _ _ _ _ _ _ _ (pdb db) _ _ _ _ _ _ _ _ _ _ _ Ht E1) as [Ht1 Hs1].
    apply same_heap_shape in Hs1. assert (Ht1' : in_txn (pdb db1) db1) by (split; [done|apply Ht1]).
    apply (IH st1 x p (b :: bs0) (bs1 ++ b :: bs0) m1 U1 db1 c1 db' st' c' txs2); try assumption; (by eapply path_ext) || by eapply chain_of_ext.
Qed.

(** ** The main chain's pointers *)

Lemma shape_prev st st' p : same_heap shape st st' -> prev st' p = prev st p.
Proof.
  intros (Hs & _). specialize (Hs p). unfold prev. destruct (heap st' !! p) as [i'|], (heap st !! p) as [i|]; cbn in Hs; try done.
  apply (inj Some) in Hs. by apply shape_fields in Hs as (_ & Hp & _).
Qed.

Lemma shape_ancestor st st' a p : same_heap shape st st' -> ancestor st' a p <-> ancestor st a p.
Proof.
  intros Hs. assert (Hw : forall n q, walk st' n q = walk st n q).
  { induction n as [|n IH]; intros [q|]; cbn [walk]; try done. by rewrite (shape_prev _ _ _ Hs). }
  unfold ancestor. by setoid_rewrite Hw.
Qed.

(** [pnext] points to the block above exactly along the chain of [best]. *)
Definition links (st : index_state) (best : ptr) : Prop :=
  forall p i q, deref st p = Some i -> pnext i = Some q <-> ancestor st q best /\ prev st q = Some p.

Lemma links_next_ok st best : links st best -> next_ok st.
Proof.
  intros Hl p i q Ei En. apply (Hl p i q Ei) in En as [_ Hq]. unfold prev in Hq. destruct (heap st !! q); [by eexists|done].
Qed.

Lemma links_main st best : pindexBest st = Some best -> links st best -> (forall p i q, heap st !! p = Some i -> pprev i = Some q -> is_Some (heap st !! q)) ->
  forall p i q, heap st !! p = Some i -> pprev i = Some q -> main st p -> main st q.
Proof.
  intros Hb Hl Hprev p i q Ei Ep Hm. destruct (Hprev p i q Ei Ep) as [j Ej].
  assert (Hpq : prev st p = Some q) by (unfold prev; by rewrite Ei).
  assert (Hanc : ancestor st p best).
  { unfold main, IsInMainChain in Hm. fold (deref st p) in Ei. rewrite Ei in Hm. cbn in Hm. destruct (pnext i) as [r|] eqn:En.
    - apply (Hl p i r Ei) in En as [Hr Hrp]. eapply ancestor_trans; [|exact Hr]. exists 1%nat. cbn. by rewrite Hrp.
    - injection Hm as Hm. apply bool_decide_eq_true_1 in Hm. rewrite Hb in Hm. injection Hm as ->. apply ancestor_refl. }
  unfold main, IsInMainChain. fold (deref st q) in Ej. rewrite Ej. cbn.
  by rewrite (proj2 (Hl q j p Ej) (conj Hanc Hpq)).
Qed.

(** What [relink] changes. *)
Lemma relink_spec next l : forall st st', relink next l st = Some st' -> same_heap (set_pnext None) st st' /\
  forall p i', deref st' p = Some i' -> exists i, deref st p = Some i /\
    ((exists x, x ∈ l /\ prev st x = Some p /\ pnext i' = next x) \/ ((forall x, x ∈ l -> prev st x <> Some p) /\ pnext i' = pnext i)).
Proof.
  induction l as [|x l IH]; intros st st' E; cbn [relink] in E.
  { injection E as <-. split; [done|]. intros p i' Ei. exists i'. split; [done|]. right. split; [|done]. intros x Hx. by apply elem_of_nil in Hx. }
  apply bind_Some in E as (i & Ei & E). apply bind_Some in E as (st1 & E1 & E). destruct (IH _ _ E) as [Hs2 Hnext].
  assert (Hs1 : same_heap (set_pnext None) st st1).
  { destruct (pprev i) as [q|]; [|by injection E1 as <-]. apply bind_Some in E1 as (j & Ej & E1). injection E1 as <-. by eapply set_heap_same. }
  assert (Hprev : forall y, prev st1 y = prev st y).
  { intros y. destruct Hs1 as (Hs1 & _). specialize (Hs1 y). unfold prev. destruct (heap st1 !! y) as [a|], (heap st !! y) as [b|]; cbn in Hs1; try done.
    apply (inj Some) in Hs1. destruct a, b. unfold set_pnext in Hs1. cbn in *. by injection Hs1. }
  split; [by etransitivity|]. intros p i' Ei'. destruct (Hnext p i' Ei') as (i1 & Ei1 & Hcase).
  assert (Hx : exists i0, deref st p = Some i0 /\ pnext i1 = if bool_decide (prev st x = Some p) then next x else pnext i0).
  { unfold prev. fold (deref st x). rewrite Ei. cbn. destruct (pprev i) as [q|].
    - apply bind_Some in E1 as (j & Ej & E1). injection E1 as <-. unfold deref in Ei1. cbn [set_heap heap] in Ei1. destruct (decide (p = q)) as [->|Hne].
      + rewrite lookup_insert_eq in Ei1. injection Ei1 as <-. exists j. split; [done|]. by rewrite bool_decide_eq_true_2.
      + rewrite lookup_insert_ne in Ei1 by done. exists i1. split; [done|]. rewrite bool_decide_eq_false_2; [done|]. by intros [= ->].
    - injection E1 as <-. exists i1. by split. }
  destruct Hx as (i0 & Ei0 & Hi1). exists i0. split; [done|]. destruct Hcase as [(y & Hy & Hyp & Hn)|[Hno Hn]].
  - left. exists y. rewrite Hprev in Hyp. split_and!; [by right|done|done].
  - case_bool_decide as Hxp; [left; exists x; split_and!; [left|done|congruence]|right].
    split; [|congruence]. intros y Hy. apply elem_of_cons in Hy as [->|Hy]; [done|]. rewrite <- Hprev. by apply Hno.
Qed.

Lemma relink_shape next l st st' : relink next l st = Some st' -> same_heap shape st st'.
Proof.
  intros E. destruct (relink_spec _ _ _ _ E) as [(K1 & K2 & K3 & K4) _]. split_and!; [|done..]. intros p.
  assert (Hf : forall i, shape i = no_money (set_pnext None i)) by done. specialize (K1 p).
  destruct (heap st' !! p) as [a|], (heap st !! p) as [b|]; cbn in K1 |- *; try done. apply (inj Some) in K1. by rewrite !Hf, K1.
Qed.

Section tree_paths.
Context (st : index_state) (Hwf : tree_wf st).

Lemma path_above f l p : valid st (Some p) -> path st f l p -> ancestor st f p /\
  forall x, x ∈ l -> ancestor st x p /\ height st f < height st x.
Proof.
  intros Hp Hpath. induction Hpath as [p|f x i l p Ei Ep Hpath IH]; [split; [apply ancestor_refl|]; intros x Hx; by apply elem_of_nil in Hx|].
  destruct (IH Hp) as [Hx Hl]. destruct (ancestor_valid st Hwf x p Hp Hx) as [Hvx _]. destruct (prev_facts st Hwf x Hvx) as (i' & Ei' & _ & Hh).
  rewrite Ei in Ei'. injection Ei' as <-. rewrite Ep in Hh. destruct Hh as [_ Hh].
  split; [eapply ancestor_trans; [by eapply ancestor_prev|exact Hx]|]. intros y Hy. apply elem_of_cons in Hy as [->|Hy]; [split; [done|lia]|].
  destruct (Hl y Hy). split; [done|lia].
Qed.

Lemma path_covers f l p a : path st f l p -> ancestor st a p -> a ∈ l \/ ancestor st a f.
Proof.
  intros Hpath. induction Hpath as [p|f x i l p Ei Ep Hpath IH]; intros Ha; [by right|]. destruct (IH Ha) as [Hin|Hx]; [left; by right|].
  destruct (ancestor_inv st a x i Ei Hx) as [->|(q & Eq & Hq)]; [left; left|]. rewrite Ep in Eq. injection Eq as <-. by right.
Qed.

Lemma path_first f x l p : path st f (x :: l) p -> ancestor st x p.
Proof.
  revert f x. induction l as [|y l IH]; intros f x Hp; inversion Hp as [|? ? i ? ? Ei Ep Hpl]; subst; [inversion Hpl; subst; apply ancestor_refl|].
  eapply ancestor_trans; [|by eapply IH]. inversion Hpl as [|? ? j ? ? Ej Epj _]; subst. by eapply ancestor_prev.
Qed.

(** Two ancestors of a block that have the same parent are the same. *)
Lemma same_parent x y p best : valid st (Some best) -> ancestor st x best -> ancestor st y best -> prev st x = Some p -> prev st y = Some p -> x = y.
Proof.
  intros Hv Hx Hy Ex Ey. destruct (ancestor_valid st Hwf x best Hv Hx) as [Hvx _]. destruct (ancestor_valid st Hwf y best Hv Hy) as [Hvy _].
  assert (Hh : forall z, valid st (Some z) -> prev st z = Some p -> height st z = height st p + 1).
  { intros z Hz Ez. destruct (prev_facts st Hwf z Hz) as (i & Ei & _ & Hi). unfold prev in Ez. unfold deref in Ei. rewrite Ei in Ez. cbn in Ez.
    rewrite Ez in Hi. lia. }
  pose proof (Hh x Hvx Ex). pose proof (Hh y Hvy Ey). apply (ancestor_same st Hwf x y Hvy); [|lia].
  apply (ancestor_order st Hwf x y best); try done. lia.
Qed.

Lemma links_disconnect best f l st1 st' : same_heap shape st st1 -> valid st (Some best) -> links st1 best -> path st f (rev l) best ->
  relink (fun _ => None) l st1 = Some st' -> links st' f.
Proof.
  intros Hs1 Hv Hl Hpath E. pose proof (relink_shape _ _ _ _ E) as Hs2. assert (Hs : same_heap shape st st') by (by etransitivity).
  destruct (relink_spec _ _ _ _ E) as [_ Hn]. destruct (path_above f (rev l) best Hv Hpath) as [Hf Habove].
  assert (Hin : forall x, x ∈ l -> ancestor st x best /\ ~ ancestor st x f).
  { intros x Hx. destruct (Habove x) as [Ha Hh]; [by rewrite list_elem_of_In, <- in_rev, <- list_elem_of_In|]. split; [done|]. intros Hxf.
    destruct (ancestor_valid st Hwf f best Hv Hf) as [Hvf _]. destruct (ancestor_valid st Hwf x f Hvf Hxf). lia. }
  intros p i' q Ei'. rewrite (shape_ancestor _ _ _ _ Hs), (shape_prev _ _ _ Hs). destruct (Hn p i' Ei') as (i & Ei & Hcase).
  pose proof (Hl p i q Ei) as Hpi. rewrite (shape_ancestor _ _ _ _ Hs1), (shape_prev _ _ _ Hs1) in Hpi.
  destruct Hcase as [(x & Hx & Hxp & Hi)|[Hno Hi]]; rewrite Hi.
  - rewrite (shape_prev _ _ _ Hs1) in Hxp. split; [done|]. intros [Hq Hqp]. exfalso. destruct (Hin x Hx) as [Hxb Hxf]. apply Hxf.
    rewrite (same_parent x q p best); try done. by eapply ancestor_trans.
  - rewrite Hpi. split; intros [Hq Hqp]; (split; [|done]); [|by eapply ancestor_trans].
    destruct (path_covers f (rev l) best q Hpath Hq) as [Hql|]; [|done]. exfalso. apply (Hno q); [|by rewrite (shape_prev _ _ _ Hs1)].
    by rewrite list_elem_of_In, in_rev, <- list_elem_of_In.
Qed.

Lemma links_connect best f l st1 st' : same_heap shape st st1 -> valid st (Some best) -> links st1 f -> path st f l best ->
  relink Some l st1 = Some st' -> links st' best.
Proof.
  intros Hs1 Hv Hl Hpath E. pose proof (relink_shape _ _ _ _ E) as Hs2. assert (Hs : same_heap shape st st') by (by etransitivity).
  destruct (relink_spec _ _ _ _ E) as [_ Hn]. destruct (path_above f l best Hv Hpath) as [Hf Habove].
  intros p i' q Ei'. rewrite (shape_ancestor _ _ _ _ Hs), (shape_prev _ _ _ Hs). destruct (Hn p i' Ei') as (i & Ei & Hcase).
  pose proof (Hl p i q Ei) as Hpi. rewrite (shape_ancestor _ _ _ _ Hs1), (shape_prev _ _ _ Hs1) in Hpi.
  destruct Hcase as [(x & Hx & Hxp & Hi)|[Hno Hi]]; rewrite Hi.
  - rewrite (shape_prev _ _ _ Hs1) in Hxp. destruct (Habove x Hx) as [Hxb _]. split.
    + by intros [= <-].
    + intros [Hq Hqp]. f_equal. by apply (same_parent x q p best).
  - rewrite Hpi. split; intros [Hq Hqp]; (split; [|done]); [by eapply ancestor_trans|].
    destruct (path_covers f l best q Hpath Hq) as [Hql|]; [|done]. exfalso. apply (Hno q Hql). by rewrite (shape_prev _ _ _ Hs1).
Qed.
End tree_paths.

(** The same blocks, up to amounts and [pnext]. *)
Definition same_tree (st st' : index_state) : Prop :=
  (forall p, shape <$> heap st' !! p = shape <$> heap st !! p) /\ mapBlockIndex st' = mapBlockIndex st.

Lemma same_tree_back st st' p i' : same_tree st st' -> heap st' !! p = Some i' -> exists i, heap st !! p = Some i /\ shape i' = shape i.
Proof. intros [Hs _] Ei. specialize (Hs p). rewrite Ei in Hs. cbn in Hs. symmetry in Hs. apply fmap_Some in Hs as (i & Ei0 & Hs). by exists i. Qed.

Lemma same_tree_forth st st' p : same_tree st st' -> is_Some (heap st !! p) -> is_Some (heap st' !! p).
Proof. intros [Hs _] Hp. specialize (Hs p). destruct (heap st' !! p); [by eexists|]. destruct Hp as [i Ei]. by rewrite Ei in Hs. Qed.

Lemma tree_wf_shape st st' : tree_wf st -> same_tree st st' -> tree_wf st'.
Proof.
  intros Hwf Hs. split.
  - intros p i' Ei. destruct (same_tree_back _ _ _ _ Hs Ei) as (i & Ei0 & Hi). destruct (shape_fields _ _ Hi) as (-> & _). rewrite (proj2 Hs). by apply (iw_hash _ Hwf).
  - intros p i' Ei. destruct (same_tree_back _ _ _ _ Hs Ei) as (i & Ei0 & Hi). destruct (shape_fields _ _ Hi) as (_ & -> & _ & _ & -> & _).
    pose proof (iw_prev _ Hwf _ _ Ei0) as Hp. destruct (pprev i) as [q|]; [|done]. destruct Hp as (j & Ej & Hh).
    destruct (same_tree_forth _ _ q Hs) as [j' Ej']; [by eexists|]. exists j'. split; [done|]. destruct (same_tree_back _ _ _ _ Hs Ej') as (j0 & Ej0 & Hj).
    rewrite Ej in Ej0. injection Ej0 as <-. destruct (shape_fields _ _ Hj) as (_ & _ & _ & _ & -> & _). done.
  - intros p i' Ei. destruct (same_tree_back _ _ _ _ Hs Ei) as (i & Ei0 & Hi). destruct (shape_fields _ _ Hi) as (_ & _ & _ & _ & -> & _). by eapply iw_height.
  - intros h p Ep. rewrite (proj2 Hs) in Ep. apply (same_tree_forth _ _ _ Hs). by eapply iw_map.
Qed.

(** A block index of the same shape with the right pointers is well formed. *)
Lemma index_wf_shape st st' best : index_wf st -> (forall p, shape <$> heap st' !! p = shape <$> heap st !! p) ->
  mapBlockIndex st' = mapBlockIndex st -> pindexBest st' = Some best -> links st' best -> index_wf st'.
Proof.
  intros Hwf Hs Hm Hb Hl. assert (Ht : tree_wf st') by (apply (tree_wf_shape st); [exact Hwf|by split]). split; [done|].
  apply (links_main st' best Hb Hl). intros p i q Ei Eq. pose proof (iw_prev _ Ht p i Ei) as Hprev. rewrite Eq in Hprev. destruct Hprev as (j & Ej & _). by eexists.
Qed.

(** ** The invariant of the best chain *)

Definition best_key : list Z := Serialize ser_string SER_DISK CLIENT_VERSION key_hashBestChain.

(** The committed index is that of the blocks [bs] below the best block, the
    pointers of the main chain are those of its ancestors, and database and memory
    agree on it. *)
Record consistent (db : CTxDB) (s : chain_state) (best : ptr) (bs : list CBlock) (m : gmap base_uint CTxIndex) (U : ledger) : Prop := {
  co_index : index_wf (ch_index s);
  co_hashes : forall p i h, deref (ch_index s) p = Some i -> phashBlock i = Some h -> wf 8 h;
  co_best : pindexBest (ch_index s) = Some best;
  co_genesis : pindexGenesisBlock (ch_index s) <> None;
  co_hash : GetBlockHash (ch_index s) best = Some (hashBestChain s);
  co_chain : chain_of (ch_index s) best bs;
  co_links : links (ch_index s) best;
  co_db : activeBatch db = None /\ fReadOnly db = false;
  co_txs : index_of (db_map (pdb db)) m;
  co_ledger : index_of_chain bs m U;
  co_tip : db_map (pdb db) !! best_key = Some (Serialize ser_uint256 SER_DISK CLIENT_VERSION (hashBestChain s));
  co_cache : cache_ok (sigcache s)
}.

Lemma bu_eq_true a b : wf 8 a -> wf 8 b -> bu_eq a b = true -> a = b.
Proof. intros Ha Hb E. rewrite (bu_eq_spec 8) in E by done. apply (val_inj 8); [done..|]. by apply Z.eqb_eq. Qed.

Lemma GetBlockHash_inj st p q h : index_wf st -> GetBlockHash st p = Some h -> GetBlockHash st q = Some h -> p = q.
Proof.
  intros Hwf Ep Eq. unfold GetBlockHash, deref in *. apply bind_Some in Ep as (i & Ei & Ep). apply bind_Some in Eq as (j & Ej & Eq).
  destruct (iw_hash _ Hwf _ _ Ei) as (h1 & E1 & M1). destruct (iw_hash _ Hwf _ _ Ej) as (h2 & E2 & M2). congruence.
Qed.

(** Writing the new tip and committing. *)
Lemma commit_tip db m h ok db1 db2 : txdb_repr db m -> WriteHashBestChain db h = Some (ok, db1) -> TxnCommit db1 = Some (true, db2) ->
  index_of (db_map (pdb db2)) m /\ activeBatch db2 = None /\ fReadOnly db2 = false /\
  db_map (pdb db2) !! best_key = Some (Serialize ser_uint256 SER_DISK CLIENT_VERSION h).
Proof.
  intros Hr E1 E2. destruct (WriteHashBestChain_repr db m h Hr) as (db1' & E1' & Hr1). rewrite E1 in E1'. injection E1' as -> <-.
  destruct Hr as (Hro & [b Hb] & _). destruct (Write_batch ser_string ser_uint256 db b key_hashBestChain h Hro Hb) as (d' & Ew & _ & _ & Hp & Hc).
  unfold WriteHashBestChain in E1. rewrite E1 in Ew. injection Ew as <-.
  destruct Hr1 as (Hro1 & [b1 Hb1] & Hi1). unfold TxnCommit in E2. rewrite Hb1 in E2. pose proof (db_Write_spec (pdb db1) b1) as Hw. unfold effect in Hw.
  assert (Hcm : contents db1 = apply_batch b1 (db_map (pdb db1))) by (unfold contents; by rewrite Hb1).
  destruct (db_Write (pdb db1) b1) as [[[]| |] d2]; cbn in Hw; [|done..]. injection E2 as <-. cbn. rewrite Hw, <- Hcm.
  split_and!; [exact Hi1|done|done|]. rewrite Hc. apply lookup_insert_eq.
Qed.

Lemma links_money st st' best : same_heap no_money st st' -> links st best -> links st' best.
Proof.
  intros Hs Hl q i r Ei. pose proof (same_heap_shape _ _ Hs) as Hsh. destruct Hs as (Hs & _). specialize (Hs q). unfold deref in Ei. rewrite Ei in Hs.
  cbn in Hs. symmetry in Hs. apply fmap_Some in Hs as (j & Ej & Hj). rewrite (shape_ancestor _ _ _ _ Hsh), (shape_prev _ _ _ Hsh), <- (Hl q j r Ej).
  assert (pnext i = pnext j) as ->; [|done]. destruct i, j. unfold no_money, set_money in Hj. cbn in *. by injection Hj.
Qed.

Lemma resurrect_kept l : forall db s s', resurrect Hash9 files fTestNet nStakeMinAge nCoinbaseMaturity nTotalBlocksEstimate GetRandHash
    nMaxCacheSize adjusted_time l db s = Some s' ->
  ch_index s' = ch_index s /\ sigcache s' = sigcache s /\ bnBestInvalidTrust s' = bnBestInvalidTrust s.
Proof.
  induction l as [|tx l IH]; intros db s s' E; cbn [resurrect] in E; [by injection E as <-|].
  apply bind_Some in E as ([[[ok mi] pool] c] & Ea & E). apply IH in E as (-> & -> & ->). cbn. split_and!; [done| |done].
  unfold accept in Ea. repeat (case_match; [by injection Ea as _ _ _ <-|]). cbn in Ea. by injection Ea as _ _ _ <-.
Qed.

Abbreviation Reorganize := (Reorganize Hash9 limit hashGenesis files fTestNet nStakeMinAge nCoinbaseMaturity nTotalBlocksEstimate GetRandHash
  nMaxCacheSize adjusted_time).
Abbreviation SetBestChainInner := (SetBestChainInner Hash9 limit hashGenesis files nStakeMinAge nCoinbaseMaturity nTotalBlocksEstimate GetRandHash
  nMaxCacheSize adjusted_time).
Abbreviation SetBestChain := (SetBestChain Hash9 limit hashGenesis files fTestNet nStakeMinAge nCoinbaseMaturity nTotalBlocksEstimate GetRandHash
  nMaxCacheSize adjusted_time now).

(** What a successful switch to [p] leaves, before the globals are set. *)
Definition switched (s : chain_state) (p : ptr) (bs : list CBlock) (h : base_uint) (db' : CTxDB) (s' : chain_state) : Prop :=
  same_heap shape (ch_index s) (ch_index s') /\ links (ch_index s') p /\ activeBatch db' = None /\ fReadOnly db' = false /\
  db_map (pdb db') !! best_key = Some (Serialize ser_uint256 SER_DISK CLIENT_VERSION h) /\ cache_ok (sigcache s') /\
  exists m' U', index_of (db_map (pdb db')) m' /\ index_of_chain bs m' U'.

Lemma chain_of_valid st p bs : chain_of st p bs -> valid st (Some p).
Proof. destruct 1 as [p i Ei|p i q b bs Ei]; by exists i. Qed.

Lemma Reorganize_switches db s best bs m U p bs' h db' s' : index_wf (ch_index s) -> pindexBest (ch_index s) = Some best ->
  chain_of (ch_index s) best bs -> links (ch_index s) best -> index_of_chain bs m U -> cache_ok (sigcache s) -> txdb_repr db m ->
  chain_of (ch_index s) p bs' -> GetBlockHash (ch_index s) p = Some h -> NoDup (all_hashes bs) -> 
  Reorganize db s p = Some (true, db', s') -> switched s p bs' h db' s'.
Proof.
  intros Hwf Hb Hc Hl Hi Hcache Hr Hc' Hh Hnd E. unfold BestChain.Reorganize in E. cbv zeta in E. rewrite Hb in E. cbn [mbind option_bind] in E.
  apply bind_Some in E as ([f|] & _ & E); [|done]. apply bind_Some in E as (vD & ED & E). apply bind_Some in E as (vC & EC' & E).
  destruct (disconnect_branch_chain _ f Hwf (links_next_ok _ _ Hl) _ best vD bs m U db ED Hc Hi Hnd Hr)
    as (db1 & txs & bs1 & bs2 & m2 & U2 & E1 & _ & Hcf & Hi2 & Hr2). rewrite E1 in E. cbn [mbind option_bind negb] in E.
  apply bind_Some in E as ([[[[ok db2] st2] c2] vDel] & E2 & E). destruct ok; cbn [negb] in E; [|done].
  assert (Ht1 : in_txn (pdb db1) db1) by (split; [done|apply Hr2]). pose proof (branch_to_path _ _ _ _ _ EC') as HpC.
  destruct (connect_branch_chain _ _ _ _ f p bs2 bs' m2 U2 db1 _ _ _ _ _ HpC Hc' Hcf Hi2 Hcache Ht1 Hr2 E2) as (m' & U' & Hi' & Hr' & Hcache').
  destruct (connect_branch_txn _ _ _ _ _ _ _ _ _ _ (pdb db1) _ _ _ _ _ _ _ _ _ _ _ Ht1 E2) as [_ Hs2].
  assert (Hl2 : links st2 best) by (by eapply links_money).
  pose proof (same_heap_shape _ _ Hs2) as Hs2'. rewrite (shape_hash _ _ _ _ Hs2' Hh) in E. cbn [mbind option_bind] in E.
  apply bind_Some in E as ([ok3 db3] & E3 & E). destruct ok3; cbn [negb] in E; [|done].
  apply bind_Some in E as ([ok4 db4] & E4 & E). destruct ok4; cbn [negb] in E; [|done].
  destruct (commit_tip db2 m' h true db3 db4 Hr' E3 E4) as (Hi4 & Hb4 & Hro4 & Htip).
  apply bind_Some in E as (st5 & E5 & E). apply bind_Some in E as (st6 & E6 & E). apply bind_Some in E as (s7 & E7 & E). injection E as <- <-.
  apply resurrect_kept in E7 as (Ex7 & Ec7 & _). cbn [set_index set_pool ch_index sigcache] in Ex7, Ec7.
  pose proof (links_disconnect _ Hwf best f vD st2 st5 Hs2' (chain_of_valid _ _ _ Hc) Hl2 (branch_to_path _ _ _ _ _ ED) E5) as Hl5.
  assert (Hs5 : same_heap shape (ch_index s) st5) by (etransitivity; [exact Hs2'|by eapply relink_shape]).
  pose proof (links_connect _ Hwf p f (rev vC) st5 st6 Hs5 (chain_of_valid _ _ _ Hc') Hl5 HpC E6) as Hl6.
  unfold switched, remove_all. cbn [set_pool ch_index sigcache]. rewrite Ex7, Ec7. split_and!; [|exact Hl6|exact Hb4|exact Hro4|exact Htip|exact Hcache'|].
  - etransitivity; [exact Hs5|by eapply relink_shape].
  - exists m', U'. split; [exact Hi4|exact Hi'].
Qed.

Lemma Inner_switches db s best bs m U p i b h db' s' : tree_wf (ch_index s) -> chain_of (ch_index s) p (b :: bs) -> deref (ch_index s) p = Some i ->
  pprev i = Some best -> links (ch_index s) best -> index_of_chain bs m U -> cache_ok (sigcache s) -> txdb_repr db m ->
  block_GetHash Hash9 b = h -> SetBestChainInner db s b p = Some (true, db', s') -> switched s p (b :: bs) h db' s'.
Proof.
  intros Hwf Hc Ei Ep Hl Hi Hcache Hr Hh E. unfold BestChain.SetBestChainInner in E. cbv zeta in E. rewrite Hh in E.
  apply bind_Some in E as ([[[r db1] st1] c1] & E1 & E).
  assert (Ht : in_txn (pdb db) db) by (split; [done|apply Hr]). destruct (ConnectBlock_txn _ _ _ _ _ _ _ _ _ _ (pdb db) _ _ _ _ _ _ _ _ _ _ _ Ht E1) as [_ Hs1].
  apply bind_Some in E as ([ok2 db2] & E2 & E). destruct ok2; cbn [negb] in E; [|by apply bind_Some in E as ([? ?] & _ & E)].
  destruct r as [|[]]; [done|]. apply bind_Some in E as ([ok3 db3] & E3 & E). destruct ok3; cbn [negb] in E; [|done].
  destruct (connect_chain _ p i b bs m U _ _ db _ db1 st1 c1 Hc Hi Hcache Hr Ei E1) as (m' & U' & Hi' & Hr' & Hcache').
  destruct (commit_tip db1 m' h true db2 db3 Hr' E2 E3) as (Hi4 & Hb4 & Hro4 & Htip).
  apply bind_Some in E as (i1 & Ei1 & E). apply bind_Some in E as (q & Eq & E). apply bind_Some in E as (j & Ej & E). injection E as <- <-.
  pose proof (same_heap_shape _ _ Hs1) as Hs1'.
  assert (Hl1 : links st1 best) by (by eapply links_money).
  assert (Erl : relink Some [p] st1 = Some (set_heap q (set_pnext (Some p) j) st1)).
  { cbn [relink]. rewrite Ei1. cbn [mbind option_bind]. rewrite Eq. rewrite Ej. done. }
  assert (Hpath : path (ch_index s) best [p] p) by (by eapply path_cons; [..|constructor]).
  unfold switched, remove_all. cbn [set_pool set_index ch_index sigcache]. split_and!; [| |exact Hb4|exact Hro4|exact Htip|exact Hcache'|].
  - etransitivity; [exact Hs1'|]. by eapply relink_shape.
  - apply (links_connect _ Hwf p best [p] st1); try done. by eapply chain_of_valid.
  - exists m', U'. split; [exact Hi4|exact Hi'].
Qed.

(** The best block plays no part in a chain. *)
Lemma chain_best st best p bs : chain_of st p bs ->
  chain_of (mkIndexState (heap st) (mapBlockIndex st) best (pindexGenesisBlock st)) p bs.
Proof. induction 1 as [p i Ei Ep|p i q b bs Ei Ep Er Hb Hst Hh Hc IH]; [by eapply chain_first|by eapply chain_next]. Qed.

(** The block read has the hash that the index records. *)
Lemma read_block_hash st p b : (forall l, wf 8 (Hash9 l)) -> (forall p i h, deref st p = Some i -> phashBlock i = Some h -> wf 8 h) ->
  read_block st p = Some (Some b) -> GetBlockHash st p = Some (block_GetHash Hash9 b).
Proof.
  intros H9 Hhs Er. unfold index_ReadFromDisk in Er. destruct (deref st p) as [i|] eqn:Ei; [|done]. cbn [mbind option_bind] in Er.
  destruct (block_ReadFromDisk _ _ _ _ _) as [b0|]; [|done]. apply bind_Some in Er as (h & Eh & Er). destruct (bu_eq _ h) eqn:Eq; [|done].
  injection Er as ->. rewrite Eh. f_equal. symmetry. apply bu_eq_true; [apply H9| |done]. unfold GetBlockHash in Eh. rewrite Ei in Eh. exact (Hhs _ _ _ Ei Eh).
Qed.

(** Setting the globals restores the invariant. *)
Lemma switched_consistent s p b bs db1 s1 s2 : index_wf (ch_index s) ->
  (forall p i h, deref (ch_index s) p = Some i -> phashBlock i = Some h -> wf 8 h) -> pindexGenesisBlock (ch_index s) <> None ->
  chain_of (ch_index s) p (b :: bs) -> GetBlockHash (ch_index s) p = Some (block_GetHash Hash9 b) ->
  switched s p (b :: bs) (block_GetHash Hash9 b) db1 s1 -> new_best now s1 (block_GetHash Hash9 b) p = Some s2 ->
  exists m' U', consistent db1 s2 p (b :: bs) m' U' /\ nBestHeight s2 = height (ch_index s) p.
Proof.
  intros Hwf Hhs Hg Hc' Hhp Hsw E2.
  destruct Hsw as (Hs & Hl1 & Hb1 & Hro1 & Htip1 & Hcache1 & m' & U' & Htx1 & Hi1).
  unfold new_best in E2. apply bind_Some in E2 as (i1 & Ei1 & E2). injection E2 as <-.
  set (st2 := mkIndexState _ _ _ _). assert (Hl2 : links st2 p) by exact Hl1. pose proof Hs as (Hs1 & Hs2 & Hs3 & Hs4).
  destruct (chain_of_valid _ _ _ Hc') as [i Ei]. destruct (shape_deref _ _ _ _ Hs Ei) as (i1' & Ei1' & Hi1'). rewrite Ei1 in Ei1'. injection Ei1' as <-.
  destruct (shape_fields _ _ Hi1') as (_ & _ & _ & _ & Hheight & _).
  assert (Hsh : same_heap shape (mkIndexState (heap (ch_index s)) (mapBlockIndex (ch_index s)) (Some p) (pindexGenesisBlock (ch_index s))) st2).
  { split_and!; [exact Hs1|exact Hs2|reflexivity|exact Hs4]. }
  exists m', U'. split; [|cbn; rewrite Hheight; by apply height_of]. split; cbn [ch_index hashBestChain sigcache].
  - by apply (index_wf_shape (ch_index s) st2 p).
  - intros x j h Ej Eh. assert (exists j0, deref (ch_index s) x = Some j0 /\ phashBlock j0 = phashBlock j) as (j0 & Ej0 & Hj0).
    { destruct (shape_deref _ _ _ _ (same_heap_sym _ _ _ Hs) Ej) as (j0 & Ej0 & Hj0). exists j0. split; [done|]. by destruct (shape_fields _ _ Hj0). }
    eapply Hhs; [exact Ej0|congruence].
  - reflexivity.
  - cbn. by rewrite Hs4.
  - exact (shape_hash _ _ _ _ Hs Hhp).
  - apply (chain_of_ext _ _ _ _ Hsh). assert (Hsame : chain_of (ch_index s) p (b :: bs)) by exact Hc'. revert Hsame. apply chain_best.
  - exact Hl2.
  - by split.
  - exact Htx1.
  - exact Hi1.
  - exact Htip1.
  - exact Hcache1.
Qed.

(** ** Postponed blocks *)

(** The database and the pointers are those of the chain of [t], whatever block the
    memory takes for the best. *)
Record committed (db : CTxDB) (st : index_state) (t : ptr) (bs : list CBlock) (m : gmap base_uint CTxIndex) (U : ledger) : Prop := {
  cm_chain : chain_of st t bs;
  cm_links : links st t;
  cm_db : activeBatch db = None;
  cm_txs : index_of (db_map (pdb db)) m;
  cm_ledger : index_of_chain bs m U;
  cm_tip : exists h, GetBlockHash st t = Some h /\ db_map (pdb db) !! best_key = Some (Serialize ser_uint256 SER_DISK CLIENT_VERSION h)
}.

(** The block at [x], on top of [t], was read, and connecting it to the chain of [t]
    failed, which left the database as [db']. *)
Definition not_connected (s : chain_state) (x t : ptr) (bs : list CBlock) (db' : CTxDB) : Prop :=
  prev (ch_index s) x = Some t /\ exists c db1 db2 s1 s2 m U, read_block (ch_index s) x = Some (Some c) /\ committed db1 (ch_index s1) t bs m U /\
    same_heap shape (ch_index s) (ch_index s1) /\ TxnBegin db1 = Some (true, db2) /\ SetBestChainInner db2 s1 c x = Some (false, db', s2).

(** [x] has more chain trust than [y]. *)
Definition beats (st : index_state) (x y : ptr) : Prop :=
  exists i j, deref st x = Some i /\ deref st y = Some j /\ bu_gt (bnChainTrust i) (bnChainTrust j) = true.

Lemma invalid_key_other h : wf 8 h -> invalid_key <> tx_key h.
Proof.
  intros Hh. unfold invalid_key. rewrite <- (app_nil_r (Serialize ser_string _ _ _)). apply tx_key_name; [done| |done]. split; [forall_list|done].
Qed.

Lemma switched_committed s t bs h db st : chain_of (ch_index s) t bs -> GetBlockHash (ch_index s) t = Some h -> switched s t bs h db st ->
  exists m U, committed db (ch_index st) t bs m U.
Proof.
  intros Hc Hh (Hs & Hl & Hb & _ & Htip & _ & m & U & Hi & Hioc). exists m, U. split; try done; [by eapply chain_of_ext|]. exists h. split; [by eapply shape_hash|done].
Qed.

(** A block that could not be connected leaves what was committed. *)
Lemma committed_kept db db' s s' t bs m U : committed db (ch_index s) t bs m U -> db_kept (pdb db) db' -> kept s s' -> committed db' (ch_index s') t bs m U.
Proof.
  intros [Hc Hl Hb [Hm Hx] Hioc (h & Hh & Htip)] [Hb' Hdb] [Hs _]. pose proof (same_heap_shape _ _ Hs) as Hsh. split; [by eapply chain_of_ext|by eapply links_money|done| |done|].
  - split; [done|]. intros k Hk. rewrite <- Hx by done. apply Hdb. intros Heq. by apply (invalid_key_other k Hk).
  - exists h. split; [by eapply shape_hash|]. rewrite <- Htip. by apply Hdb.
Qed.

Lemma switched_trans s s1 p q bs1 bs2 h1 h2 db1 db2 s2 : switched s p bs1 h1 db1 s1 -> switched s1 q bs2 h2 db2 s2 -> switched s q bs2 h2 db2 s2.
Proof. intros (Hs1 & _) (Hs2 & Hrest). split; [by etransitivity|exact Hrest]. Qed.

Lemma postpone_spec st k best fuel : deref st best = Some k -> forall p l r, postpone fuel st (bnChainTrust k) p = Some (l, r) ->
  path st r (rev l) p /\ (forall x, x ∈ l -> exists q, prev st x = Some q /\ beats st q best) /\ (l <> [] -> p ∈ l).
Proof.
  intros Ek. induction fuel as [|fuel IH]; intros p l r E; cbn [postpone] in E; apply bind_Some in E as (i & Ei & E);
    (destruct (pprev i) as [q|] eqn:Ep; [|injection E as <- <-; split_and!; [constructor|intros x Hx; by apply elem_of_nil in Hx|done]]);
    apply bind_Some in E as (j & Ej & E); (destruct (bu_gt _ _) eqn:Eg;
      [|injection E as <- <-; split_and!; [constructor|intros x Hx; by apply elem_of_nil in Hx|done]]); [done|].
  apply bind_Some in E as ([l1 r1] & E1 & E). injection E as <- <-. destruct (IH _ _ _ E1) as (Hp & Hall & _). split_and!.
  - cbn [rev]. by eapply path_snoc.
  - intros x [->|Hx]%elem_of_cons; [|by apply Hall]. exists q. split; [unfold prev; unfold deref in Ei; by rewrite Ei|]. by exists j, k.
  - intros _. left.
Qed.

Lemma same_shape_tree st st' : same_heap shape st st' -> same_tree st st'.
Proof. intros (Hs & Hm & _). by split. Qed.

(** The loop over the postponed blocks ends at [p], or before a block [x] that it
    could not connect. *)
Lemma connect_further_settles s p bsp db' s2 : (forall l, wf 8 (Hash9 l)) -> tree_wf (ch_index s) ->
  (forall q i h, deref (ch_index s) q = Some i -> phashBlock i = Some h -> wf 8 h) -> chain_of (ch_index s) p bsp -> forall l t bst h db1 s1,
  switched s t bst h db1 s1 -> chain_of (ch_index s) t bst -> GetBlockHash (ch_index s) t = Some h -> path (ch_index s) t l p ->
  connect_further Hash9 limit hashGenesis files nStakeMinAge nCoinbaseMaturity nTotalBlocksEstimate GetRandHash nMaxCacheSize adjusted_time l db1 s1 = Some (db', s2) ->
  (exists h', GetBlockHash (ch_index s) p = Some h' /\ switched s p bsp h' db' s2) \/
  exists x t' bst' m' U', x ∈ l /\ ancestor (ch_index s) x p /\ not_connected s x t' bst' db' /\ committed db' (ch_index s2) t' bst' m' U' /\
    same_heap shape (ch_index s) (ch_index s2).
Proof.
  intros H9 Hwf Hhs Hcp. induction l as [|x l IH]; intros t bst h db1 s1 Hsw Hct Hh Hpath E; cbn [connect_further] in E.
  { injection E as <- <-. inversion Hpath; subst. rewrite <- (chain_of_fun _ _ _ _ Hct Hcp). left. by exists h. }
  inversion Hpath as [|? ? i ? ? Ei Ep Hpl]; subst. destruct (path_chain _ _ _ _ _ Hpl Hcp) as (pre & bsx & _ & Hcx).
  inversion Hcx as [y j Ej Epj|y j q b bs0 Ej Epj Er Hbk Hst Hhq Hcq]; subst; rewrite Ei in Ej; injection Ej as <-; rewrite Ep in Epj; [done|]. injection Epj as <-.
  rewrite (chain_of_fun _ _ _ _ Hcq Hct) in *. pose proof (read_block_hash _ _ _ H9 Hhs Er) as Hhx.
  pose proof Hsw as (Hs & Hl & Hb & Hro & Htip & Hcache & m & U & Hi & Hioc).
  rewrite (shape_read _ _ _ _ Hs Er) in E. cbn [mbind option_bind] in E. unfold TxnBegin in E. rewrite Hb in E. cbn [mbind option_bind negb] in E.
  apply bind_Some in E as ([[ok db2] s3] & E3 & E). destruct ok; cbn [negb] in E.
  - destruct (shape_deref _ _ _ _ Hs Ei) as (i' & Ei' & Hi'). destruct (shape_fields _ _ Hi') as (_ & Fp & _).
    assert (Hsw3 : switched s1 x (b :: bst) (block_GetHash Hash9 b) db2 s3).
    { eapply Inner_switches; [by eapply tree_wf_shape; [|apply same_shape_tree]|by eapply chain_of_ext|exact Ei'|by rewrite Fp|exact Hl|exact Hioc|exact Hcache| |done|exact E3].
      split_and!; [exact Hro|by eexists|exact Hi]. }
    destruct (IH x _ _ db2 s3 (switched_trans _ _ _ _ _ _ _ _ _ _ _ Hsw Hsw3) Hcx Hhx Hpl E) as [?|(y & t' & Hy)]; [by left|right].
    exists y, t'. destruct Hy as (bst' & m' & U' & Hin & Hy). exists bst', m', U'. split; [by right|done].
  - injection E as <- <-. right. destruct (switched_committed _ _ _ _ _ _ Hct Hh Hsw) as (m1 & U1 & Hcm). exists x, t, bst, m1, U1.
    match type of E3 with _ ?d _ _ _ = _ => assert (Hd : in_txn (pdb db1) d) by (by split; [|eexists]) end.
    assert (Hnc : not_connected s x t bst db2).
    { split; [unfold prev; unfold deref in Ei; by rewrite Ei|]. exists b, db1. eexists. exists s1, s3, m1, U1. split_and!; [done|done|done| |exact E3]. unfold TxnBegin. by rewrite Hb. }
    apply (SetBestChainInner_failed _ _ _ _ _ _ _ _ _ _ _ _ _ _ _ _ _ Hd) in E3 as [Hdb Hk]. split_and!; [left|by eapply path_first|done|by eapply committed_kept|].
    etransitivity; [exact Hs|apply same_heap_shape, Hk].
Qed.

(** Setting the globals changes nothing else. *)
Lemma new_best_globals s s1 h p s2 : same_heap shape (ch_index s) (ch_index s1) -> new_best now s1 h p = Some s2 ->
  pindexBest (ch_index s2) = Some p /\ hashBestChain s2 = h /\ nBestHeight s2 = height (ch_index s) p /\ heap (ch_index s2) = heap (ch_index s1).
Proof.
  intros Hs E. unfold new_best in E. apply bind_Some in E as (i & Ei & E). injection E as <-. split_and!; [done|done| |done].
  destruct (shape_deref _ _ _ _ (same_heap_sym _ _ _ Hs) Ei) as (j & Ej & Hj). destruct (shape_fields _ _ Hj) as (_ & _ & _ & _ & Hh & _).
  cbn [nBestHeight]. rewrite <- Hh. by apply height_of.
Qed.

Lemma heap_walk st st' n : heap st' = heap st -> forall p, walk st' n p = walk st n p.
Proof. intros Hh. induction n as [|n IH]; intros p; cbn [walk]; [done|]. destruct p as [q|]; [|done]. unfold prev. by rewrite Hh, IH. Qed.

Lemma committed_best db st st' t bs m U : heap st' = heap st -> committed db st t bs m U -> committed db st' t bs m U.
Proof.
  intros Hh [Hc Hl Hb Hm Hi (h & Ht & Htip)]. assert (Hd : forall p, deref st' p = deref st p) by (intros p; unfold deref; by rewrite Hh).
  split; [| |done|done|done|exists h; split; [unfold GetBlockHash in *; by rewrite Hd|done]].
  - clear - Hc Hd. induction Hc as [p i Ei Ep|p i q b bs Ei Ep Er Hb Hst Hq Hc IH]; [eapply chain_first; [by rewrite Hd|done]|].
    eapply chain_next; [by rewrite Hd|done| |done|done|by unfold GetBlockHash in *; rewrite Hd|done]. unfold index_ReadFromDisk, GetBlockHash in *. by rewrite Hd.
  - intros p i q Ei. rewrite Hd in Ei. unfold ancestor, prev. setoid_rewrite (heap_walk st st' _ Hh). rewrite Hh. by apply Hl.
Qed.

(** ** Main theorem *)

(** The switch itself, before the globals are set: it ends at [p] or before a
    postponed block [x] that could not be connected. *)
Lemma SetBestChain_switches db s best bs m U p b bs' db' s' : (forall l, wf 8 (Hash9 l)) -> consistent db s best bs m U ->
  chain_of (ch_index s) p (b :: bs') -> (prev (ch_index s) p = Some best \/ NoDup (all_hashes bs)) -> SetBestChain db s b p = Some (true, db', s') ->
  exists s1, new_best now s1 (block_GetHash Hash9 b) p = Some s' /\
  (switched s p (b :: bs') (block_GetHash Hash9 b) db' s1 \/ exists x t bst m' U', (exists k, deref (ch_index s) best = Some k /\
    exists l r fuel, postpone fuel (ch_index s) (bnChainTrust k) p = Some (l, r) /\ x ∈ l) /\ ancestor (ch_index s) x p /\ not_connected s x t bst db' /\
    committed db' (ch_index s1) t bst m' U' /\ same_heap shape (ch_index s) (ch_index s1)).
Proof.
  intros H9 [Hwf Hhs Hb Hg Hh Hc Hl [Hdb Hro] Htx Hi Htip Hcache] Hc' Hnd E.
  inversion Hc' as [|p' i q b' bs0 Ei Ep Er Hbk Hst Hhq Hcq]; subst.
  pose proof (read_block_hash _ _ _ H9 Hhs Er) as Hhp. assert (Hpq : prev (ch_index s) p = Some q) by (unfold prev; unfold deref in Ei; by rewrite Ei).
  unfold BestChain.SetBestChain in E. apply bind_Some in E as ([ok0 db0] & E0 & E). unfold TxnBegin in E0. rewrite Hdb in E0. injection E0 as <- <-.
  cbn [negb] in E. set (db0 := mkTxDB _ _ _) in E.
  assert (Hr : txdb_repr db0 m) by (split_and!; [exact Hro|by eexists|exact Htx]).
  apply bind_Some in E as ([[ok1 db1] s1] & E1 & E). destruct ok1; cbn [negb] in E; [|done].
  rewrite bool_decide_eq_false_2 in E1 by done. cbn [andb] in E1. apply bind_Some in E as (s2 & E2 & E). injection E as <- <-.
  exists s1. split; [done|].
  destruct (bu_eq (hashPrevBlock b) (hashBestChain s)) eqn:Eprev.
  - assert (q = best) as ->.
    { apply (GetBlockHash_inj (ch_index s) q best (hashBestChain s) Hwf); [|done]. rewrite Hhq. f_equal. apply bu_eq_true; [| |done].
      - destruct Hbk as ((_ & Hp & _) & _). done.
      - unfold GetBlockHash in Hh. destruct (deref (ch_index s) best) as [k|] eqn:Ek; [|done]. exact (Hhs _ _ _ Ek Hh). }
    rewrite (chain_of_fun _ _ _ _ Hcq Hc) in *. left. by eapply Inner_switches; [apply Hwf|..].
  - assert (Hnd' : NoDup (all_hashes bs)).
    { destruct Hnd as [Hq|]; [|done]. rewrite Hpq in Hq. injection Hq as ->. rewrite Hhq in Hh. injection Hh as Hh. rewrite Hh in Eprev.
      rewrite (bu_eq_spec 8), Z.eqb_refl in Eprev; [done|..]; rewrite <- Hh; by destruct Hbk as ((_ & Hp & _) & _). }
    rewrite Hb in E1. cbn [mbind option_bind] in E1. apply bind_Some in E1 as (k & Ek & E1).
    apply bind_Some in E1 as ([l r] & Epost & E1). destruct (postpone_spec _ _ _ _ Ek _ _ _ Epost) as (Hpath & Hall & Hin).
    apply bind_Some in E1 as ([[ok3 db3] s3] & E3 & E1). destruct ok3; cbn [negb] in E1; [|by apply bind_Some in E1 as ([? ?] & _ & E1)].
    apply bind_Some in E1 as ([db4 s4] & E4 & E1). injection E1 as <- <-. destruct (path_chain _ _ _ _ _ Hpath Hc') as (_ & bsr & _ & Hcr).
    assert (exists hr, GetBlockHash (ch_index s) r = Some hr) as [hr Hhr].
    { destruct (chain_of_valid _ _ _ Hcr) as [ir Eir]. destruct (iw_hash _ Hwf _ _ Eir) as (hr & Er' & _). exists hr. unfold GetBlockHash, deref. by rewrite Eir. }
    assert (Hsw : switched s r bsr hr db3 s3) by (by eapply Reorganize_switches).
    destruct (connect_further_settles s p (b :: bs') _ _ H9 Hwf Hhs Hc' _ _ _ _ _ _ Hsw Hcr Hhr Hpath E4) as [(h' & Hh' & ?)|(x & t & bst & m' & U' & Hx & Ha & Hpx & Hcm & Hs)].
    + rewrite Hhp in Hh'. injection Hh' as <-. by left.
    + right. exists x, t, bst, m', U'. split_and!; [|done..]. exists k. split; [done|]. exists l, r. eexists. split; [exact Epost|].
      by rewrite list_elem_of_In, in_rev, <- list_elem_of_In.
Qed.

(** (C2) The best chain.  When database and memory agree on the best chain and
    [SetBestChain] makes the block at [p] the best one, they agree on it afterwards:
    the committed transaction index is the one that connecting the blocks of the
    chain of [p] one after the other gives, the database records [p] as the tip,
    and [pnext] links exactly the blocks of the new main chain, however many blocks
    had to be disconnected and connected.  One condition is on the old main chain:
    if blocks of it may have to be disconnected ([p] is not on top of the best
    block), its transactions have different hashes, since disconnecting a repeated
    one does not bring the record of the first back.  There is one exception, that of
    the postponed blocks: when the parent [q] of [p] already beat the best block, the
    loop that connects the blocks after the switch may stop at a block [x] that cannot
    be connected; the memory takes [p] for the best block all the same, while the
    index, the tip in the database and the [pnext] pointers are those of the block [t]
    below [x], which beats the old best block. *)
Theorem best_chain_stays_consistent db s best bs m U b p bs' db' s' : (forall l, wf 8 (Hash9 l)) ->
  consistent db s best bs m U -> chain_of (ch_index s) p (b :: bs') -> (prev (ch_index s) p = Some best \/ NoDup (all_hashes bs)) ->
  SetBestChain db s b p = Some (true, db', s') ->
  pindexBest (ch_index s') = Some p /\ hashBestChain s' = block_GetHash Hash9 b /\ nBestHeight s' = height (ch_index s) p /\
  ((exists m' U', consistent db' s' p (b :: bs') m' U') \/
   exists q x t bst m' U', prev (ch_index s) p = Some q /\ beats (ch_index s) q best /\ ancestor (ch_index s) x p /\ ancestor (ch_index s) t q /\ beats (ch_index s) t best /\
     not_connected s x t bst db' /\ committed db' (ch_index s') t bst m' U').
Proof.
  intros H9 Hco Hc' Hnd E. destruct (SetBestChain_switches _ _ _ _ _ _ _ _ _ _ _ H9 Hco Hc' Hnd E) as (s1 & E2 & Hdone).
  inversion Hc' as [|p' i q b' bs0 Ei Ep Er]; subst. assert (Hpq : prev (ch_index s) p = Some q) by (unfold prev; unfold deref in Ei; by rewrite Ei).
  pose proof (co_hashes _ _ _ _ _ _ Hco) as Hhs. pose proof (read_block_hash _ _ _ H9 Hhs Er) as Hhp.
  destruct Hdone as [Hsw|(x & t & bst & m' & U' & (k & Ek & l & r & fuel & Epost & Hx) & Ha & Hnc & Hcm & Hs)].
  - destruct (switched_consistent _ _ _ _ _ _ _ (co_index _ _ _ _ _ _ Hco) Hhs (co_genesis _ _ _ _ _ _ Hco) Hc' Hhp Hsw E2) as (m' & U' & Hco' & Hheight).
    destruct (new_best_globals _ _ _ _ _ (proj1 Hsw) E2) as (Hb2 & Hh2 & _). split_and!; [done..|left; by exists m', U'].
  - destruct (postpone_spec _ _ _ _ Ek _ _ _ Epost) as (_ & Hall & Hin). assert (Hpl : p ∈ l) by (apply Hin; intros ->; by apply elem_of_nil in Hx).
    destruct (Hall _ Hpl) as (q' & Eq' & Hbq). rewrite Hpq in Eq'. injection Eq' as <-. pose proof (proj1 Hnc) as Hpx. destruct (Hall _ Hx) as (t' & Et' & Hbt). rewrite Hpx in Et'. injection Et' as <-.
    destruct (new_best_globals _ _ _ _ _ Hs E2) as (Hb2 & Hh2 & Hht & Hheap). split_and!; [done..|right]. exists q, x, t, bst, m', U'.
    split_and!; [done|done|done| |done|done|by eapply committed_best]. destruct (ancestor_inv _ _ _ _ Ei Ha) as [->|(q' & Eq' & Hq')]; [rewrite Hpq in Hpx; injection Hpx as ->; apply ancestor_refl|].
    rewrite Ep in Eq'. injection Eq' as <-. eapply ancestor_trans; [|exact Hq']. unfold prev in Hpx. apply bind_Some in Hpx as (ix & Eix & Hpx). by eapply ancestor_prev.
Qed.
End chains.

(** ** An example: the first block after the genesis block *)

Section example.
#[local] Existing Instance BN_Z.
#[local] Existing Instance BN_Z_spec.
#[local] Existing Instance Crypto_toy.
#[local] Existing Instance Crypto_toy_spec.
#[local] Existing Instance EC_toy.
#[local] Existing Instance LevelDB_map.
#[local] Existing Instance LevelDB_map_spec.

Definition first_hash : base_uint := bu_of_uint64 8 1.
Definition next_block : CBlock :=
  mkBlock 6 first_hash (tx_GetHash example_coinbase) 0 0x1e0fffff 0 [example_coinbase] [] [] 0.
Definition next_files : block_files := {[ 1 := Serialize (ser_block block_null) SER_DISK CLIENT_VERSION next_block ]}.
Definition first_index : CBlockIndex :=
  mkIndex (Some first_hash) None None 1 0 (bu_zero 8) 0 0 0 0 0 0 out_null 0 (bu_zero 8) 6 (bu_zero 8) 0 0x1e0fffff 0.
Definition next_index : CBlockIndex :=
  mkIndex (Some (bu_zero 8)) (Some 0) None 1 0 (bu_zero 8) 1 0 0 0 0 0 out_null 0 (bu_zero 8) 6 (bu_zero 8) 0 0x1e0fffff 0.
Definition two_blocks : index_state :=
  mkIndexState {[ 0 := first_index; 1 := next_index ]} {[ first_hash := 0; bu_zero 8 := 1 ]} (Some 0) (Some 0).
Definition two_state : chain_state :=
  mkChain two_blocks first_hash 0 (bu_zero 8) (bu_zero 8) 0 None (mkPool ∅ ∅ 0) (mkSigCache [] 0).
Definition two_db : CTxDB := mkTxDB ({[ best_key := Serialize ser_uint256 SER_DISK CLIENT_VERSION first_hash ]} : gmap (list Z) (list Z)) None false.

Definition two_run := SetBestChain example_hash9 example_limit (bu_zero 8) next_files false 3600 40 0 (fun _ => bu_zero 8) 10 0 0
  two_db two_state next_block 1.

Lemma two_heap p i : deref two_blocks p = Some i -> (p = 0 /\ i = first_index) \/ (p = 1 /\ i = next_index).
Proof.
  unfold deref, two_blocks. cbn [heap]. intros E. apply lookup_insert_Some in E as [[<- <-]|[_ E]]; [by left|].
  apply lookup_singleton_Some in E as [<- <-]. by right.
Qed.

Lemma two_links : links two_blocks 0.
Proof.
  assert (Hprev : prev two_blocks 0 = None) by reflexivity.
  intros p i q Ei. split.
  - intros En. by destruct (two_heap p i Ei) as [[-> ->]|[-> ->]].
  - intros [[n Hn] Hq]. exfalso. destruct n as [|n]; cbn [walk] in Hn; [injection Hn as <-; by rewrite Hprev in Hq|].
    rewrite Hprev, walk_None in Hn. done.
Qed.

Lemma two_wf : index_wf two_blocks.
Proof.
  split; [split|].
  - intros p i Ei. destruct (two_heap p i Ei) as [[-> ->]|[-> ->]]; eexists; (split; [reflexivity|by vm_compute]).
  - intros p i Ei. destruct (two_heap p i Ei) as [[-> ->]|[-> ->]]; cbn; [done|]. exists first_index. by split.
  - intros p i Ei. destruct (two_heap p i Ei) as [[-> ->]|[-> ->]]; cbn; lia.
  - intros h p Ep. cbn in Ep. apply lookup_insert_Some in Ep as [[_ <-]|[_ Ep]]; [by exists first_index|].
    apply lookup_singleton_Some in Ep as [_ <-]. by exists next_index.
  - apply (links_main two_blocks 0 eq_refl two_links). intros p i q Ei Eq. destruct (two_heap p i Ei) as [[-> ->]|[-> ->]]; [done|].
    injection Eq as <-. by exists first_index.
Qed.

Lemma next_block_ok : block_ok next_block.
Proof.
  pose proof example_genesis_ok as ((H1 & H2 & H3 & H4) & Hv & Hs). split_and!; [split_and!; [exact H1| |exact H3|apply H4..]|exact Hv|exact Hs].
  split; [done|]. forall_list; by vm_compute.
Qed.

Lemma two_chain : chain_of example_hash9 example_limit next_files two_blocks 1 [next_block].
Proof.
  apply (chain_next _ _ _ _ _ next_index 0); [done|done|by vm_compute|apply next_block_ok| |done|by apply (chain_first _ _ _ _ _ first_index)].
  split; [unfold UINT_MAX; cbn; lia|]. split; [cbn; lia|]. eexists _, []. split; [apply lookup_singleton_eq|].
  assert (Hw : block_wf block_null next_block) by (destruct next_block_ok as (Hh & Hv & Hs); by split_and!).
  split_and!; [apply (sc_bytes _ _ (ser_block_correct block_null SER_DISK eq_refl) SER_DISK CLIENT_VERSION _ Hw)|by vm_compute|].
  by rewrite app_nil_r.
Qed.

Lemma two_consistent : consistent example_hash9 example_limit next_files 3600 0 two_db two_state 0 [] ∅ ∅.
Proof.
  split; try done.
  - exact two_wf.
  - intros p i h Ei Eh. destruct (two_heap p i Ei) as [[-> ->]|[-> ->]]; injection Eh as <-; (split; [done|]; forall_list; by vm_compute).
  - by apply (chain_first _ _ _ _ _ first_index).
  - exact two_links.
  - split; [done|]. intros h Hh. rewrite lookup_empty. apply lookup_singleton_ne. unfold best_key.
    rewrite <- (app_nil_r (Serialize ser_string _ _ _)). apply tx_key_name; [done| |done]. split; [forall_list; by vm_compute|done].
  - constructor.
  - constructor.
Qed.

Lemma two_accepted : exists db s, two_run = Some (true, db, s).
Proof.
  assert (E : match two_run with Some (true, _, _) => true | _ => false end = true) by (vm_compute; reflexivity).
  destruct two_run as [[[[] db] s]|]; try discriminate. by eexists _, _.
Qed.

Lemma best_chain_stays_consistent_witness : exists db s m U, two_run = Some (true, db, s) /\
  consistent example_hash9 example_limit next_files 3600 0 db s 1 [next_block] m U.
Proof.
  destruct two_accepted as (db & s & E). exists db, s.
  destruct (best_chain_stays_consistent example_hash9 example_limit (bu_zero 8) next_files false 3600 40 0 (fun _ => bu_zero 8) 10 0 0
    two_db two_state 0 [] ∅ ∅ next_block 1 [] db s) as (_ & _ & _ & [(m & U & Hco)|(q & x & t & bst & m & U & Hq & (i & j & Ei & Ej & Hbeats) & _)]).
  - intros l. apply wf_zero.
  - exact two_consistent.
  - exact two_chain.
  - left. reflexivity.
  - exact E.
  - exists m, U. split; [exact E|exact Hco].
  - exfalso. vm_compute in Hq. injection Hq as <-. rewrite Ei in Ej. injection Ej as <-. vm_compute in Ei. injection Ei as <-. vm_compute in Hbeats. discriminate.
Defined.

Lemma fork_is_last_common_block_witness : exists r, find_fork (size (heap two_blocks)) two_blocks 0 1 = Some r /\ last_common two_blocks 0 1 r.
Proof.
  destruct (fork_is_last_common_block two_blocks two_wf 0 1) as (r & E & Hr & _).
  - exists first_index. reflexivity.
  - exists next_index. reflexivity.
  - exists r. split; [exact E|exact Hr].
Defined.
End example.
