(* ===== verification/Kernel.v ===== *)
(** * kernel.h, kernel.cpp: the stake kernel

    A coinstake proves that its kernel, the output that its first input spends,
    hashes below a target that grows with the coin's age and amount.  The hash is
    mixed with a stake modifier, 64 bits contributed by blocks that
    [ComputeNextStakeModifier] selects from the past.

    The time parameters are arguments: [nModifierInterval], [nStakeMinAge] and
    [nStakeMaxAge] depend on the network. *)
From Stdlib Require Import ZArith Lia Bool.
From stdpp Require Import prelude gmap sorting.
From S2P Require Import Prelude Uint256 DataStream Serialize Crypto Bignum Script Tx Block Index TxDB Target.
From S2P Require Import Keys KeyStore Pool SigHash Interp Standard Connect Chain.

Definition MODIFIER_INTERVAL : Z := 5 * 60.
Definition MODIFIER_INTERVAL_RATIO : Z := 3.

(** [std::pair<int64, uint256>] in its order. *)
Definition cand_le (a b : Z * base_uint) : Prop :=
  fst a < fst b \/ fst a = fst b /\ bu_lt (snd b) (snd a) = false.
#[global] Instance cand_le_dec a b : Decision (cand_le a b).
Proof. unfold cand_le. apply _. Defined.

Section kernel.
Context `{BN} `{Crypto} `{EC}.
Context (nModifierInterval nStakeMinAge nStakeMaxAge : Z).

Definition GetWeight (nIntervalBeginning nIntervalEnd : Z) : Z :=
  Z.min (s64 (s64 (nIntervalEnd - nIntervalBeginning) - nStakeMinAge)) nStakeMaxAge.

(** ** The selection interval *)

(** [None]: the assertion fails. *)
Definition GetStakeModifierSelectionIntervalSection (nSection : Z) : option Z :=
  if (0 <=? nSection) && (nSection <? 64)
  then Some (u32 (nModifierInterval * 63) / (63 + (63 - nSection) * (MODIFIER_INTERVAL_RATIO - 1)))
  else None.

(** The loop from section [n] on. *)
Fixpoint interval_loop (k : nat) (n acc : Z) : option Z :=
  match k with
  | O => Some acc
  | S k => a ← GetStakeModifierSelectionIntervalSection n; interval_loop k (n + 1) (acc + a)
  end.

Definition GetStakeModifierSelectionInterval : option Z := interval_loop 64 0 0.

Section index.
Context (st : index_state).

(** ** The modifier of a block *)

Fixpoint last_modifier_loop (fuel : nat) (p : ptr) : option ptr :=
  i ← deref st p;
  match pprev i with
  | None => Some p
  | Some q =>
      if GeneratedStakeModifier i then Some p
      else match fuel with O => None | S fuel => last_modifier_loop fuel q end
  end.

(** The modifier and its time; the inner [None] is the answer false. *)
Definition GetLastStakeModifier (pindex : option ptr) : option (option (Z * Z)) :=
  match pindex with
  | None => Some None
  | Some p =>
      q ← last_modifier_loop (size (heap st)) p;
      i ← deref st q;
      Some (if GeneratedStakeModifier i then Some (nStakeModifier i, index_GetBlockTime i) else None)
  end.

(** ** Selecting blocks *)

Definition selection_hash (nStakeModifierPrev : Z) (p : ptr) : option base_uint :=
  i ← deref st p;
  h ← GetBlockHash st p;
  let hashProof := if index_IsProofOfStake i then hashProofOfStake i else h in
  let hashSelection := Hash (Serialize ser_uint256 SER_GETHASH 0 hashProof ++ Serialize (ser_uint 8) SER_GETHASH 0 nStakeModifierPrev) in
  Some (if index_IsProofOfStake i then bu_shr hashSelection 32 else hashSelection).

(** The loop over the candidates; [best] is the block selected so far with its
    hash.  The inner [None] is the answer false. *)
Fixpoint select_loop (mapSelectedBlocks : gmap base_uint ptr) (nSelectionIntervalStop nStakeModifierPrev : Z) (l : list (Z * base_uint))
    (best : option (base_uint * ptr)) : option (option ptr) :=
  match l with
  | [] => Some (snd <$> best)
  | (_, hash) :: l =>
      match mapBlockIndex st !! hash with
      | None => Some None
      | Some p =>
          i ← deref st p;
          if bool_decide (is_Some best) && (nSelectionIntervalStop <? index_GetBlockTime i) then Some (snd <$> best)
          else
            h ← GetBlockHash st p;
            if bool_decide (is_Some (mapSelectedBlocks !! h)) then select_loop mapSelectedBlocks nSelectionIntervalStop nStakeModifierPrev l best
            else
              hashSelection ← selection_hash nStakeModifierPrev p;
              let best := match best with
                          | Some (hashBest, q) => if bu_lt hashSelection hashBest then Some (hashSelection, p) else Some (hashBest, q)
                          | None => Some (hashSelection, p)
                          end in
              select_loop mapSelectedBlocks nSelectionIntervalStop nStakeModifierPrev l best
      end
  end.

Definition SelectBlockFromCandidates (vSortedByTimestamp : list (Z * base_uint)) (mapSelectedBlocks : gmap base_uint ptr)
    (nSelectionIntervalStop nStakeModifierPrev : Z) : option (option ptr) :=
  select_loop mapSelectedBlocks nSelectionIntervalStop nStakeModifierPrev vSortedByTimestamp None.

(** The candidates, newest first. *)
Fixpoint candidates (fuel : nat) (nSelectionIntervalStart : Z) (p : option ptr) : option (list (Z * base_uint)) :=
  match p with
  | None => Some []
  | Some q =>
      i ← deref st q;
      if nSelectionIntervalStart <=? index_GetBlockTime i then
        match fuel with
        | O => None
        | S fuel => h ← GetBlockHash st q; l ← candidates fuel nSelectionIntervalStart (pprev i); Some ((index_GetBlockTime i, h) :: l)
        end
      else Some []
  end.

(** The rounds from [nRound] on. *)
Fixpoint rounds_loop (k : nat) (nRound : Z) (vSorted : list (Z * base_uint)) (nStakeModifier nStop nNew : Z) (selected : gmap base_uint ptr)
    : option (option Z) :=
  match k with
  | O => Some (Some nNew)
  | S k =>
      a ← GetStakeModifierSelectionIntervalSection nRound;
      let nStop := nStop + a in
      r ← SelectBlockFromCandidates vSorted selected nStop nStakeModifier;
      match r with
      | None => Some None
      | Some p =>
          i ← deref st p;
          h ← GetBlockHash st p;
          rounds_loop k (nRound + 1) vSorted nStakeModifier nStop (u64 (Z.lor nNew (Z.shiftl (index_GetStakeEntropyBit i) nRound)))
            (map_insert_new h p selected)
      end
  end.

(** The modifier and whether it was generated; the inner [None] is the answer
    false. *)
Definition ComputeNextStakeModifier (pindexPrev : option ptr) : option (option (Z * bool)) :=
  match pindexPrev with
  | None => Some (Some (0, true))
  | Some p =>
      last ← GetLastStakeModifier pindexPrev;
      match last with
      | None => Some None
      | Some (nStakeModifier, nModifierTime) =>
          i ← deref st p;
          if nModifierTime / nModifierInterval >=? index_GetBlockTime i / nModifierInterval then Some (Some (nStakeModifier, false))
          else
            nSelectionInterval ← GetStakeModifierSelectionInterval;
            let nStart := index_GetBlockTime i / nModifierInterval * nModifierInterval - nSelectionInterval in
            l ← candidates (size (heap st)) nStart (Some p);
            let vSorted := merge_sort cand_le (rev l) in
            r ← rounds_loop (Nat.min 64 (length vSorted)) 0 vSorted nStakeModifier nStart 0 ∅;
            Some (match r with None => None | Some nNew => Some (nNew, true) end)
      end
  end.

(** ** The modifier of a kernel *)

(** The loop along the main chain: the modifier, or [None] when it reaches the
    best block. *)
Fixpoint kernel_loop (fuel : nat) (limit nStakeModifierTime : Z) (p : ptr) : option (option Z) :=
  i ← deref st p;
  if nStakeModifierTime <? limit then
    match pnext i with
    | None => Some None
    | Some q =>
        match fuel with
        | O => None
        | S fuel => j ← deref st q; kernel_loop fuel limit (if GeneratedStakeModifier j then index_GetBlockTime j else nStakeModifierTime) q
        end
    end
  else Some (Some (nStakeModifier i)).

Definition GetKernelStakeModifier (hashBlockFrom : base_uint) : option (option Z) :=
  match mapBlockIndex st !! hashBlockFrom with
  | None => Some None
  | Some p =>
      i ← deref st p;
      nInterval ← GetStakeModifierSelectionInterval;
      kernel_loop (size (heap st)) (index_GetBlockTime i + nInterval) (index_GetBlockTime i) p
  end.

(** ** The kernel hash *)

Definition kernel_bytes (nStakeModifier nTimeBlockFrom nTxPrevOffset nTimeTxPrev n nTimeTx : Z) : list Z :=
  Serialize (ser_uint 8) SER_GETHASH 0 nStakeModifier ++ Serialize (ser_uint 4) SER_GETHASH 0 nTimeBlockFrom ++
  Serialize (ser_uint 4) SER_GETHASH 0 nTxPrevOffset ++ Serialize (ser_uint 4) SER_GETHASH 0 nTimeTxPrev ++
  Serialize (ser_uint 4) SER_GETHASH 0 n ++ Serialize (ser_uint 4) SER_GETHASH 0 nTimeTx.

(** The answer and [hashProofOfStake] when it was set; [None]: the output does not
    exist. *)
Definition CheckStakeKernelHash (Hash9 : list Z -> base_uint) (nBits : Z) (blockFrom : CBlock) (nTxPrevOffset : Z) (txPrev : CTransaction)
    (o : COutPoint) (nTimeTx : Z) : option (bool * option base_uint) :=
  if nTimeTx <? tx_nTime txPrev then Some (false, None)
  else
    let nTimeBlockFrom := u32 (GetBlockTime blockFrom) in
    if nTimeTx <? u32 (nTimeBlockFrom + nStakeMinAge) then Some (false, None)
    else
      let bnTargetPerCoinDay := bn_SetCompact nBits in
      out ← vout txPrev !! Z.to_nat (op_n o);
      let nTimeWeight := s64 (Z.min (s64 (nTimeTx - tx_nTime txPrev)) nStakeMaxAge - nStakeMinAge) in
      a ← bn_div (BN_mul (setint64 (nValue out)) (setint64 nTimeWeight)) (setint64 COIN);
      bnCoinDayWeight ← bn_div a (CBigNum_int (24 * 60 * 60));
      modifier ← GetKernelStakeModifier (block_GetHash Hash9 blockFrom);
      match modifier with
      | None => Some (false, None)
      | Some nStakeModifier =>
          let h := Hash (kernel_bytes nStakeModifier nTimeBlockFrom nTxPrevOffset (tx_nTime txPrev) (op_n o) nTimeTx) in
          Some (negb (bn_gt (setuint256 h) (BN_mul bnCoinDayWeight bnTargetPerCoinDay)), Some h)
      end.

(** ** [CheckProofOfStake] *)

Context {D : Type} `{!TxIndexDB D} (Hash9 : list Z -> base_uint) (files : block_files).
Context (GetRandHash : nat -> base_uint) (nMaxCacheSize : Z).

Definition CheckProofOfStake (txdb : D) (tx : CTransaction) (nBits : Z) (c : CSignatureCache)
    : option (verdict base_uint * CSignatureCache) :=
  if negb (IsCoinStake tx) then Some (Refuse 0, c)
  else
    txin ← vin tx !! 0%nat;
    found ← tx_ReadFromDisk_prev files txdb (prevout txin);
    match found with
    | None => Some (Refuse 1, c)
    | Some (txPrev, txindex) =>
        '(ok, c) ← VerifySignature GetRandHash nMaxCacheSize txPrev tx 0 true 0 c;
        if negb ok then Some (Refuse 100, c)
        else
          match header_ReadFromDisk files (nFile (pos txindex)) (nBlockPos (pos txindex)) with
          | None => Some (Refuse 0, c)
          | Some block =>
              '(ok, h) ← CheckStakeKernelHash Hash9 nBits block (u32 (nTxPos (pos txindex) - nBlockPos (pos txindex))) txPrev (prevout txin)
                           (tx_nTime tx);
              match ok : bool, h with
              | true, Some h => Some (Accept h, c)
              | _, _ => Some (Refuse 1, c)
              end
          end
    end.

Definition CheckCoinStakeTimestamp (nTimeBlock nTimeTx : Z) : bool := nTimeBlock =? nTimeTx.

(** ** Checksums *)

(** [None]: the assertion fails.  [pindex] may not be in the index yet, so it is
    an object with its hash. *)
Definition GetStakeModifierChecksum (hashGenesis : base_uint) (i : CBlockIndex) (hash : base_uint) : option Z :=
  prevsum ← match pprev i with
            | None => if bu_eq hash hashGenesis then Some [] else None
            | Some q => j ← deref st q; Some (Serialize (ser_uint 4) SER_GETHASH 0 (nStakeModifierChecksum j))
            end;
  let hashChecksum := Hash (prevsum ++ Serialize (ser_uint 4) SER_GETHASH 0 (nFlags i) ++ Serialize ser_uint256 SER_GETHASH 0 (hashProofOfStake i) ++
                        Serialize (ser_uint 8) SER_GETHASH 0 (nStakeModifier i)) in
  Some (u32 (bu_Get64 (bu_shr hashChecksum (256 - 32)) 0)).
End index.

Definition mapStakeModifierCheckpoints : list (Z * Z) := [(0, 0xfd11f4e7)].

Definition CheckStakeModifierCheckpoints (fTestNet : bool) (nHeight nStakeModifierChecksum : Z) : bool :=
  fTestNet || match List.find (fun '(h, _) => h =? nHeight) mapStakeModifierCheckpoints with
              | Some (_, c) => nStakeModifierChecksum =? c
              | None => true
              end.
End kernel.

(** ** Selection *)

Section selection.
Context `{CS : Crypto_spec} (st : index_state) (Hwf : tree_wf st) (nModifierInterval : Z).

(** An entry of the list of candidates names a block with its time. *)
Definition good_item (x : Z * base_uint) : Prop :=
  exists p i, mapBlockIndex st !! snd x = Some p /\ deref st p = Some i /\ phashBlock i = Some (snd x) /\ index_GetBlockTime i = fst x.

Lemma selection_hash_total nMod x : good_item x -> exists p h, mapBlockIndex st !! snd x = Some p /\ selection_hash st nMod p = Some h /\ wf 8 h.
Proof.
  intros (p & i & Ep & Ei & Eh & _). unfold selection_hash, GetBlockHash. exists p. rewrite Ei. cbn [mbind option_bind]. rewrite Eh. cbn [mbind option_bind].
  eexists. split_and!; [done|done|]. set (b := Hash _). assert (Hb : wf 8 b) by apply wf_Hash.
  destruct (index_IsProofOfStake i); [|done]. by apply bu_shr_spec.
Qed.

(** [p] wins among the items not in [selected]: within the interval its hash is
    the smallest; outside it, it is the earliest. *)
Definition wins (items : list (Z * base_uint)) (selected : gmap base_uint ptr) (nStop nMod : Z) (p : ptr) : Prop :=
  exists t h x, (t, h) ∈ items /\ selected !! h = None /\ mapBlockIndex st !! h = Some p /\ selection_hash st nMod p = Some x /\
    (t <= nStop \/ forall t' h', (t', h') ∈ items -> selected !! h' = None -> t <= t') /\
    forall t' h' p' x', (t', h') ∈ items -> selected !! h' = None -> t' <= nStop -> mapBlockIndex st !! h' = Some p' ->
      selection_hash st nMod p' = Some x' -> val x <= val x'.

Definition by_time (a b : Z * base_uint) : Prop := fst a <= fst b.

(** The loop once a block is selected. *)
Lemma select_loop_best selected nStop nMod l : forall hb q, Forall good_item l -> StronglySorted by_time l -> wf 8 hb ->
  exists p x, select_loop st selected nStop nMod l (Some (hb, q)) = Some (Some p) /\ wf 8 x /\ val x <= val hb /\
    ((p = q /\ x = hb) \/ exists t h, (t, h) ∈ l /\ selected !! h = None /\ t <= nStop /\ mapBlockIndex st !! h = Some p /\ selection_hash st nMod p = Some x) /\
    forall t' h' p' x', (t', h') ∈ l -> selected !! h' = None -> t' <= nStop -> mapBlockIndex st !! h' = Some p' ->
      selection_hash st nMod p' = Some x' -> val x <= val x'.
Proof.
  induction l as [|[t h] l IH]; intros hb q Hg Hs Hb; cbn [select_loop].
  { exists q, hb. split_and!; [done|done|lia|by left|]. intros t' h' p' x' Hin. by apply elem_of_nil in Hin. }
  apply Forall_cons in Hg as [Hx Hg]. apply StronglySorted_inv in Hs as [Hs Hall].
  destruct (selection_hash_total nMod _ Hx) as (p & y & Ep & Ey & Hy). destruct Hx as (p0 & i & Ep0 & Ei & Eh & Et). cbn [fst snd] in *.
  rewrite Ep in Ep0. injection Ep0 as <-. rewrite Ep, Ei. cbn [mbind option_bind]. rewrite Et. rewrite bool_decide_eq_true_2 by (by eexists). cbn [andb].
  destruct (Z.ltb_spec nStop t) as [Hlt|Hle].
  - exists q, hb. split_and!; [done|done|lia|by left|]. intros t' h' p' x' Hin _ Ht'. exfalso. apply elem_of_cons in Hin as [[= -> ->]|Hin]; [lia|].
    rewrite Forall_forall in Hall. specialize (Hall _ Hin). unfold by_time in Hall. cbn in Hall. lia.
  - unfold GetBlockHash. rewrite Ei. cbn [mbind option_bind]. rewrite Eh. cbn [mbind option_bind]. case_bool_decide as Hsel.
    + destruct (IH hb q Hg Hs Hb) as (r & x & E & Hx & Hxb & Hr & Hmin). exists r, x. split_and!; [done|done|done| |].
      * destruct Hr as [?|(t' & h' & Hin & Hrest)]; [by left|]. right. exists t', h'. split; [by right|done].
      * intros t' h' p' x' Hin Hn. apply elem_of_cons in Hin as [[= -> ->]|Hin]; [by rewrite Hn in Hsel; destruct Hsel|]. by apply (Hmin t' h').
    + apply eq_None_not_Some in Hsel. rewrite Ey. cbn [mbind option_bind]. destruct (bu_cmp_spec 8 y hb Hy Hb) as [Hcmp _]. rewrite Hcmp.
      assert (Hgo : forall hb' q', wf 8 hb' -> val hb' <= val hb -> val hb' <= val y -> ((q' = q /\ hb' = hb) \/ (q' = p /\ hb' = y)) ->
        exists r x, select_loop st selected nStop nMod l (Some (hb', q')) = Some (Some r) /\ wf 8 x /\ val x <= val hb /\
        ((r = q /\ x = hb) \/ exists t' h', (t', h') ∈ (t, h) :: l /\ selected !! h' = None /\ t' <= nStop /\ mapBlockIndex st !! h' = Some r /\ selection_hash st nMod r = Some x) /\
        forall t' h' p' x', (t', h') ∈ (t, h) :: l -> selected !! h' = None -> t' <= nStop -> mapBlockIndex st !! h' = Some p' ->
          selection_hash st nMod p' = Some x' -> val x <= val x').
      { intros hb' q' Hb' Hle1 Hle2 Hq. destruct (IH hb' q' Hg Hs Hb') as (r & x & E & Hx & Hxb & Hr & Hmin). exists r, x. split_and!; [done|done|lia| |].
        - destruct Hr as [[-> ->]|(t' & h' & Hin & Hrest)]; [|right; exists t', h'; split; [by right|done]].
          destruct Hq as [[-> ->]|[-> ->]]; [by left|right]. exists t, h. split_and!; [left|done|lia|done|done].
        - intros t' h' p' x' Hin Hn Ht' Ep' Ex'. apply elem_of_cons in Hin as [[= -> ->]|Hin]; [|by apply (Hmin t' h' p')].
          rewrite Ep in Ep'. injection Ep' as <-. rewrite Ey in Ex'. injection Ex' as <-. lia. }
      destruct (Z.ltb_spec (val y) (val hb)); apply Hgo; try done; try lia; [by right|by left].
Qed.

(** A round succeeds while a candidate is left, and its winner is right. *)
Lemma SelectBlock_wins items selected nStop nMod : Forall good_item items -> StronglySorted by_time items ->
  (exists x, x ∈ items /\ selected !! snd x = None) ->
  exists p, SelectBlockFromCandidates st items selected nStop nMod = Some (Some p) /\ wins items selected nStop nMod p.
Proof.
  unfold SelectBlockFromCandidates. induction items as [|[t h] l IH]; intros Hg Hs (x & Hin & Hx); [by apply elem_of_nil in Hin|].
  apply Forall_cons in Hg as [Hx1 Hg]. apply StronglySorted_inv in Hs as [Hs Hall]. cbn [select_loop].
  destruct (selection_hash_total nMod _ Hx1) as (p & y & Ep & Ey & Hy). destruct Hx1 as (p0 & i & Ep0 & Ei & Eh & Et). cbn [fst snd] in *.
  rewrite Ep in Ep0. injection Ep0 as <-. rewrite Ep, Ei. cbn [mbind option_bind]. rewrite bool_decide_eq_false_2 by (by intros []). cbn [andb].
  unfold GetBlockHash. rewrite Ei. cbn [mbind option_bind]. rewrite Eh. cbn [mbind option_bind]. case_bool_decide as Hsel.
  - destruct IH as (r & E & t' & h' & z & Hin' & Hn & Er & Ez & Hint & Hmin); [done|done| |].
    { exists x. split; [|done]. apply elem_of_cons in Hin as [->|Hin]; [|done]. cbn in Hx. rewrite Hx in Hsel. by destruct Hsel. }
    exists r. split; [done|]. exists t', h', z. split_and!; [by right|done..| |].
    + destruct Hint as [?|Hint]; [by left|right]. intros t2 h2 H2 Hn2. apply elem_of_cons in H2 as [[= -> ->]|H2]; [rewrite Hn2 in Hsel; by destruct Hsel|].
      by apply (Hint t2 h2).
    + intros t2 h2 p2 x2 H2 Hn2. apply elem_of_cons in H2 as [[= -> ->]|H2]; [rewrite Hn2 in Hsel; by destruct Hsel|]. by apply (Hmin t2 h2).
  - apply eq_None_not_Some in Hsel. rewrite Ey. cbn [mbind option_bind].
    destruct (select_loop_best selected nStop nMod l y p Hg Hs Hy) as (r & z & E & Hz & Hzy & Hr & Hmin). exists r. split; [done|].
    assert (Hmin' : forall t' h' p' x', (t', h') ∈ (t, h) :: l -> selected !! h' = None -> t' <= nStop -> mapBlockIndex st !! h' = Some p' ->
      selection_hash st nMod p' = Some x' -> val z <= val x').
    { intros t' h' p' x' Hin' Hn Ht' Ep' Ex'. apply elem_of_cons in Hin' as [[= -> ->]|Hin']; [|by apply (Hmin t' h' p')].
      rewrite Ep in Ep'. injection Ep' as <-. rewrite Ey in Ex'. injection Ex' as <-. done. }
    destruct Hr as [[-> ->]|(t' & h' & Hin' & Hn' & Ht' & Er & Ez)].
    + exists t, h, y. split_and!; [left|done..| |exact Hmin']. right. intros t' h' Hin' _. apply elem_of_cons in Hin' as [[= -> ->]|Hin']; [lia|].
      rewrite Forall_forall in Hall. by apply (Hall _ Hin').
    + exists t', h', z. split_and!; [by right|done..|by left|exact Hmin'].
Qed.

(** *** The candidates *)

(** [x] is a block reached from [p] through blocks not older than [nStart]. *)
Definition candidate (nStart : Z) (p : option ptr) (x : Z * base_uint) : Prop :=
  exists n q i, walk st n p = Some q /\ deref st q = Some i /\ phashBlock i = Some (snd x) /\ fst x = index_GetBlockTime i /\
    forall m r j, (m <= n)%nat -> walk st m p = Some r -> deref st r = Some j -> nStart <= index_GetBlockTime j.

Lemma candidate_cons nStart q i h x : deref st q = Some i -> phashBlock i = Some h -> nStart <= index_GetBlockTime i ->
  candidate nStart (Some q) x <-> x = (index_GetBlockTime i, h) \/ candidate nStart (pprev i) x.
Proof.
  intros Ei Eh Ht. assert (Hw : forall n, walk st (S n) (Some q) = walk st n (pprev i)).
  { intros n. cbn [walk]. unfold prev. unfold deref in Ei. by rewrite Ei. }
  split.
  - intros ([|n] & r & j & Er & Ej & Eh' & Ex & Hall).
    + left. injection Er as <-. rewrite Ei in Ej. injection Ej as <-. rewrite Eh in Eh'. injection Eh' as ->. by destruct x; cbn in *; subst.
    + right. rewrite Hw in Er. exists n, r, j. split_and!; [done..|]. intros m s k Hm Hs. apply (Hall (S m)); [lia|by rewrite Hw].
  - intros [->|(n & r & j & Er & Ej & Eh' & Ex & Hall)].
    + exists 0%nat, q, i. split_and!; [done..|]. intros m s k Hm Hs Hk. replace m with 0%nat in Hs by lia. injection Hs as <-.
      rewrite Ei in Hk. by injection Hk as <-.
    + exists (S n), r, j. rewrite Hw. split_and!; [done..|]. intros [|m] s k Hm Hs Hk.
      * injection Hs as <-. rewrite Ei in Hk. by injection Hk as <-.
      * rewrite Hw in Hs. apply (Hall m s k); [lia|done|done].
Qed.

Lemma candidate_nil nStart q i x : deref st q = Some i -> index_GetBlockTime i < nStart -> candidate nStart (Some q) x -> False.
Proof. intros Ei Ht (n & _ & _ & _ & _ & _ & _ & Hall). specialize (Hall 0%nat q i ltac:(lia) eq_refl Ei). lia. Qed.

Lemma candidate_good nStart p x : candidate nStart p x -> good_item x.
Proof.
  intros (n & q & i & _ & Ei & Eh & Ex & _). destruct (iw_hash _ Hwf _ _ Ei) as (h & Eh' & Em). rewrite Eh in Eh'. injection Eh' as <-. by exists q, i.
Qed.

Lemma candidates_spec fuel nStart p : valid st p -> (Z.to_nat (blocks st p) <= fuel)%nat ->
  exists l, candidates st fuel nStart p = Some l /\ (forall x, x ∈ l <-> candidate nStart p x) /\ NoDup (snd <$> l).
Proof.
  revert p. induction fuel as [|fuel IH]; intros p Hp Hf; (destruct p as [q|]; [|exists []; split_and!; [done| |constructor]; intros x; rewrite elem_of_nil;
    split; [done|intros (n & q & i & Eq & _); by rewrite walk_None in Eq]]).
  { pose proof (prev_valid st Hwf q Hp). lia. }
  pose proof (prev_valid st Hwf q Hp) as (Hv & Hb & _). destruct Hp as [i Ei]. cbn [candidates]. unfold deref at 1. rewrite Ei. cbn [mbind option_bind].
  unfold prev in Hv, Hb. rewrite Ei in Hv, Hb. cbn [mbind option_bind] in Hv, Hb. destruct (iw_hash _ Hwf _ _ Ei) as (h & Eh & Em).
  destruct (Z.leb_spec nStart (index_GetBlockTime i)) as [Ht|Ht].
  - unfold GetBlockHash, deref. rewrite Ei. cbn [mbind option_bind]. rewrite Eh. cbn [mbind option_bind].
    destruct (IH (pprev i) Hv ltac:(lia)) as (l & -> & Hl & Hnd). cbn [mbind option_bind]. eexists. split; [done|]. split.
    + intros x. rewrite elem_of_cons, Hl. symmetry. by apply candidate_cons.
    + rewrite fmap_cons. constructor; [|done]. intros Hin. apply list_elem_of_fmap in Hin as (x & Eq & Hx). cbn [snd] in Eq. subst h.
      apply Hl in Hx as (n & r & j & Er & Ej & Eh' & _). destruct (iw_hash _ Hwf _ _ Ej) as (h & Eh2 & Em2). rewrite Eh' in Eh2. injection Eh2 as <-.
      rewrite Em in Em2. injection Em2 as <-. pose proof (walk_valid st Hwf n (pprev i) Hv) as [_ Hw]. rewrite Er in Hw.
      pose proof (blocks_nonneg st Hwf _ Hv). pose proof (prev_valid st Hwf q (ex_intro _ i Ei)) as (_ & _ & Hpos). lia.
  - exists []. split_and!; [done| |constructor]. intros x. rewrite elem_of_nil. split; [done|]. by apply candidate_nil with i.
Qed.

(** *** Sorting *)

Lemma lt_loop_asym a : forall b, lt_loop a b = true -> lt_loop b a = false.
Proof.
  induction a as [|x a IH]; intros [|y b]; cbn [lt_loop]; try done. destruct (Z.ltb_spec x y), (Z.ltb_spec y x); try lia; try done. apply IH.
Qed.

#[local] Instance cand_le_total : Total cand_le.
Proof.
  intros [t h] [t' h']. unfold cand_le. cbn. destruct (Z.lt_trichotomy t t') as [?|[->|?]]; [by left; left| |by right; left].
  destruct (bu_lt h' h) eqn:E; [right|left]; right; (split; [done|]); [by apply lt_loop_asym|done].
Qed.

Lemma sorted_by_time l : StronglySorted by_time (merge_sort cand_le l).
Proof.
  apply Sorted_StronglySorted; [intros a b c; unfold by_time; lia|]. assert (Hs : Sorted.Sorted cand_le (merge_sort cand_le l)) by apply Sorted_merge_sort, _.
  induction Hs as [|x l' Hs IH Hd]; constructor; [done|]. destruct Hd; constructor. unfold by_time, cand_le in *. lia.
Qed.

(** *** The rounds *)

(** The blocks [ps] are the winners of the rounds from [n] on, with the candidates
    [items] but for those in [selected]. *)
Inductive rounds (items : list (Z * base_uint)) (nMod : Z) : Z -> Z -> gmap base_uint ptr -> list ptr -> Prop :=
  | rounds_done n nStop selected : rounds items nMod n nStop selected []
  | rounds_next n nStop selected a p h ps :
      GetStakeModifierSelectionIntervalSection nModifierInterval n = Some a -> wins items selected (nStop + a) nMod p ->
      GetBlockHash st p = Some h -> selected !! h = None -> rounds items nMod (n + 1) (nStop + a) (<[h := p]> selected) ps ->
      rounds items nMod n nStop selected (p :: ps).

Lemma winners_fresh items nMod n nStop selected ps : rounds items nMod n nStop selected ps ->
  NoDup ps /\ forall p h, p ∈ ps -> GetBlockHash st p = Some h -> selected !! h = None.
Proof.
  induction 1 as [|n nStop selected a p h ps Ha Hw Eh Hn Hr [Hnd Hall]]; [split; [constructor|by intros ?? ?%elem_of_nil]|]. split.
  - constructor; [|done]. intros Hin. specialize (Hall _ _ Hin Eh). by rewrite lookup_insert_eq in Hall.
  - intros q k Hq Ek. apply elem_of_cons in Hq as [->|Hq]; [rewrite Eh in Ek; by injection Ek as <-|].
    specialize (Hall _ _ Hq Ek). by apply lookup_insert_None in Hall as [? _].
Qed.

Lemma entropy_bit i : index_GetStakeEntropyBit i = Z.b2z (Z.testbit (nFlags i) 1).
Proof.
  unfold index_GetStakeEntropyBit, BLOCK_STAKE_ENTROPY. apply Z.bits_inj'. intros k Hk. rewrite Z.shiftr_spec, Z.land_spec by lia.
  rewrite Z.shiftl_1_l, Z.pow2_bits_eqb by lia. destruct (Z.eqb_spec 1 (k + 1)) as [E|E].
  - replace k with 0 by lia. rewrite andb_true_r. by destruct (Z.testbit _ _).
  - rewrite andb_false_r. destruct (Z.testbit _ 1); [|by rewrite Z.testbit_0_l]. cbn [Z.b2z]. symmetry. apply Z.bits_above_log2; [lia|]. cbn. lia.
Qed.

(** Writing a bit at [n] into a number that has none from there on. *)
Lemma write_bit acc n (b : bool) k : 0 <= n < 64 -> 0 <= k -> (forall k, n <= k -> Z.testbit acc k = false) ->
  Z.testbit (u64 (Z.lor acc (Z.shiftl (Z.b2z b) n))) k = (Z.testbit acc k || (k =? n) && b).
Proof.
  intros Hn Hk Ha. unfold u64, wrap. change (2 ^ 64) with (2 ^ (Z.of_nat 64)). destruct (Z.ltb_spec k 64).
  - rewrite Z.mod_pow2_bits_low, Z.lor_spec, Z.shiftl_spec by lia. f_equal. destruct (Z.eqb_spec k n) as [->|Hne]; cbn [andb].
    + rewrite Z.sub_diag. by destruct b.
    + destruct (Z.ltb_spec k n); [apply Z.testbit_neg_r; lia|]. destruct b; cbn [Z.b2z]; [|apply Z.testbit_0_l]. apply Z.bits_above_log2; [lia|]. cbn. lia.
  - rewrite Z.mod_pow2_bits_high, Ha by lia. by destruct (Z.eqb_spec k n); [lia|].
Qed.

(** The bit the [k]-th of the selected blocks contributes. *)
Definition contributes (ps : list ptr) (k : Z) : bool :=
  match ps !! Z.to_nat k with Some p => match heap st !! p with Some i => Z.testbit (nFlags i) 1 | None => false end | None => false end.

Definition remaining (items : list (Z * base_uint)) (selected : gmap base_uint ptr) : gset base_uint := list_to_set (snd <$> items) ∖ dom selected.

Lemma remaining_item items selected : (0 < size (remaining items selected))%nat -> exists x, x ∈ items /\ selected !! snd x = None.
Proof.
  intros Hs. destruct (size_pos_elem_of (remaining items selected) Hs) as [h Hh]. unfold remaining in Hh. apply elem_of_difference in Hh as [Hi Hd].
  apply elem_of_list_to_set, list_elem_of_fmap in Hi as (x & -> & Hx). exists x. split; [done|]. by apply not_elem_of_dom.
Qed.

Lemma remaining_insert items selected h p x : x ∈ items -> snd x = h -> selected !! h = None ->
  size (remaining items selected) = S (size (remaining items (<[h := p]> selected))).
Proof.
  intros Hx <- Hn. assert (Hin : snd x ∈ remaining items selected).
  { unfold remaining. apply elem_of_difference. split; [by apply elem_of_list_to_set, list_elem_of_fmap; exists x|by apply not_elem_of_dom]. }
  replace (remaining items (<[snd x := p]> selected)) with (remaining items selected ∖ {[snd x]}) by (clear; unfold remaining; rewrite dom_insert_L; set_solver).
  rewrite size_difference, size_singleton by set_solver. enough (size (remaining items selected) <> 0%nat) by lia.
  apply size_non_empty_iff. set_solver.
Qed.

Lemma rounds_loop_spec items nMod : Forall good_item items -> StronglySorted by_time items -> forall k n nStop acc selected,
  (k <= size (remaining items selected))%nat -> 0 <= n -> n + Z.of_nat k <= 64 -> (forall b, n <= b -> Z.testbit acc b = false) ->
  exists ps new, rounds_loop nModifierInterval st k n items nMod nStop acc selected = Some (Some new) /\ rounds items nMod n nStop selected ps /\
    length ps = k /\ forall b, 0 <= b -> Z.testbit new b = if b <? n then Z.testbit acc b else contributes ps (b - n).
Proof.
  intros Hg Hs. induction k as [|k IH]; intros n nStop acc selected Hk Hn Hnk Hacc; cbn [rounds_loop].
  { exists [], acc. split_and!; [done|constructor|done|]. intros b Hb. destruct (Z.ltb_spec b n); [done|]. apply Hacc. lia. }
  unfold GetStakeModifierSelectionIntervalSection at 1. rewrite (proj2 (Z.leb_le 0 n)), (proj2 (Z.ltb_lt n 64)) by lia. cbn [andb mbind option_bind].
  set (a := _ / _). assert (Ha : GetStakeModifierSelectionIntervalSection nModifierInterval n = Some a).
  { unfold GetStakeModifierSelectionIntervalSection. by rewrite (proj2 (Z.leb_le 0 n)), (proj2 (Z.ltb_lt n 64)) by lia. }
  destruct (SelectBlock_wins items selected (nStop + a) nMod Hg Hs) as (p & -> & Hw); [apply remaining_item; lia|]. cbn [mbind option_bind].
  pose proof Hw as (t & h & x & Hin & Hsel & Ep & _). rewrite Forall_forall in Hg. destruct (Hg _ Hin) as (p' & i & Ep' & Ei & Eh & _). cbn [snd] in *.
  rewrite Ep in Ep'. injection Ep' as <-. unfold GetBlockHash. rewrite Ei. cbn [mbind option_bind]. rewrite Eh. cbn [mbind option_bind].
  unfold map_insert_new. rewrite Hsel, entropy_bit. pose proof (remaining_insert items selected h p _ Hin eq_refl Hsel) as Hleft.
  destruct (IH (n + 1) (nStop + a) (u64 (Z.lor acc (Z.shiftl (Z.b2z (Z.testbit (nFlags i) 1)) n))) (<[h := p]> selected)) as (ps & new & -> & Hr & Hl & Hbits);
    [lia|lia|lia| |].
  { intros b Hb. rewrite write_bit, Hacc by (done || lia). by destruct (Z.eqb_spec b n); [lia|]. }
  exists (p :: ps), new. split_and!; [done| |cbn; lia|].
  - apply rounds_next with a h; [done|done| |done|done]. unfold GetBlockHash. by rewrite Ei.
  - intros b Hb. rewrite Hbits, write_bit by (done || lia). destruct (Z.ltb_spec b n), (Z.ltb_spec b (n + 1)); try lia.
    + by destruct (Z.eqb_spec b n); [lia|rewrite orb_false_r].
    + replace b with n by lia. rewrite Hacc, Z.eqb_refl, Z.sub_diag by lia. unfold contributes. change ((p :: ps) !! Z.to_nat 0) with (Some p). unfold deref in Ei. cbv iota. by rewrite Ei.
    + unfold contributes. replace (Z.to_nat (b - n)) with (S (Z.to_nat (b - (n + 1)))) by lia. done.
Qed.

(** *** The last modifier *)

Lemma last_modifier_spec fuel p : valid st (Some p) -> (Z.to_nat (blocks st (Some p)) <= S fuel)%nat ->
  exists n q i, last_modifier_loop st fuel p = Some q /\ walk st n (Some p) = Some q /\ heap st !! q = Some i /\
    (GeneratedStakeModifier i = true \/ pprev i = None) /\
    (forall m r j, (m < n)%nat -> walk st m (Some p) = Some r -> heap st !! r = Some j -> GeneratedStakeModifier j = false).
Proof.
  revert p. induction fuel as [|fuel IH]; intros p Hp Hf; pose proof (prev_valid st Hwf p Hp) as (Hv & Hb & _); destruct Hp as [i Ei];
    unfold prev in Hv, Hb; rewrite Ei in Hv, Hb; cbn [mbind option_bind] in Hv, Hb; cbn [last_modifier_loop]; unfold deref; rewrite Ei; cbn [mbind option_bind];
    (destruct (pprev i) as [q|] eqn:Eq; [|exists 0%nat, p, i; split_and!; [done..|by right|lia]]);
    (destruct (GeneratedStakeModifier i) eqn:Eg; [exists 0%nat, p, i; split_and!; [done..|by left|lia]|]).
  { pose proof (prev_valid st Hwf q Hv). lia. }
  destruct (IH q Hv ltac:(lia)) as (n & r & j & -> & Hw & Ej & Hk & Hall). exists (S n), r, j.
  assert (Hstep : forall m, walk st (S m) (Some p) = walk st m (Some q)) by (intros m; cbn [walk]; unfold prev; by rewrite Ei; cbn; rewrite Eq).
  split_and!; [done|by rewrite Hstep|done|done|]. intros [|m] s k Hm Hs Hk'; [|rewrite Hstep in Hs; by apply (Hall m s k); [lia|..]].
  injection Hs as <-. rewrite Ei in Hk'. by injection Hk' as <-.
Qed.
Lemma GetLastStakeModifier_spec p : valid st (Some p) -> (forall q i, heap st !! q = Some i -> pprev i = None -> GeneratedStakeModifier i = true) ->
  exists n q i, walk st n (Some p) = Some q /\ heap st !! q = Some i /\ GeneratedStakeModifier i = true /\
    GetLastStakeModifier st (Some p) = Some (Some (nStakeModifier i, index_GetBlockTime i)) /\
    (forall m r j, (m < n)%nat -> walk st m (Some p) = Some r -> heap st !! r = Some j -> GeneratedStakeModifier j = false).
Proof.
  intros Hp Hgen. destruct (last_modifier_spec (size (heap st)) p Hp) as (n & q & i & E & Hw & Ei & Hk & Hall).
  { pose proof (blocks_size st Hwf _ Hp). lia. }
  assert (Hg : GeneratedStakeModifier i = true) by (destruct Hk as [?|?]; [done|by apply (Hgen q)]).
  exists n, q, i. split_and!; [done..| |done]. unfold GetLastStakeModifier. rewrite E. cbn [mbind option_bind]. unfold deref. rewrite Ei. cbn [mbind option_bind]. by rewrite Hg.
Qed.

(** *** The modifier of a kernel *)

(** [pnext] leads one block up. *)
Definition next_wf : Prop := forall p i q, heap st !! p = Some i -> pnext i = Some q -> exists j, heap st !! q = Some j /\ nHeight j = nHeight i + 1.

(** [n] steps along [pnext]. *)
Fixpoint ahead (n : nat) (p : ptr) : option ptr :=
  match n with O => Some p | S n => i ← heap st !! p; q ← pnext i; ahead n q end.

(** Up to and not including the [n]-th, no block ahead of [p] has a modifier
    generated at [limit] or later. *)
Definition none_before (limit : Z) (p : ptr) (n : nat) : Prop :=
  forall k q j, (0 < k < n)%nat -> ahead k p = Some q -> heap st !! q = Some j -> GeneratedStakeModifier j = true -> index_GetBlockTime j < limit.

Lemma none_before_step limit p i q j n : heap st !! p = Some i -> pnext i = Some q -> heap st !! q = Some j ->
  (GeneratedStakeModifier j = true -> index_GetBlockTime j < limit) -> none_before limit q n -> none_before limit p (S n).
Proof.
  intros Ei Eq Ej Hj Hq [|k] r l Hk Hr; [lia|]. cbn [ahead] in Hr. rewrite Ei in Hr. cbn [mbind option_bind] in Hr. rewrite Eq in Hr. cbn [mbind option_bind] in Hr.
  destruct k as [|k]; [injection Hr as <-; intros El; rewrite Ej in El; by injection El as <-|]. by apply (Hq (S k)); [lia|].
Qed.

Lemma kernel_loop_spec (Hnext : next_wf) limit fuel : forall t p, valid st (Some p) -> (size (heap st) - Z.to_nat (blocks st (Some p)) <= fuel)%nat -> t < limit ->
  exists r, kernel_loop st fuel limit t p = Some r /\
  match r with
  | None => exists n, ahead n p = None /\ none_before limit p n
  | Some m => exists n q j, (0 < n)%nat /\ ahead n p = Some q /\ heap st !! q = Some j /\ GeneratedStakeModifier j = true /\ limit <= index_GetBlockTime j /\
      nStakeModifier j = m /\ none_before limit p n
  end.
Proof.
  induction fuel as [|fuel IH]; intros t p Hp Hf Ht; destruct Hp as [i Ei]; cbn [kernel_loop]; unfold deref; rewrite Ei; cbn [mbind option_bind];
    rewrite (proj2 (Z.ltb_lt t limit) Ht); (destruct (pnext i) as [q|] eqn:Eq;
      [|exists None; split; [done|]; exists 1%nat; split; [cbn [ahead]; rewrite Ei; cbn [mbind option_bind]; by rewrite Eq|intros k; lia]]);
    destruct (Hnext _ _ _ Ei Eq) as (j & Ej & Hh);
    assert (Hbl : blocks st (Some q) = blocks st (Some p) + 1) by (unfold blocks; rewrite Ei, Ej; lia);
    pose proof (blocks_size st Hwf (Some q) (ex_intro _ j Ej)); pose proof (blocks_nonneg st Hwf (Some p) (ex_intro _ i Ei)); [lia|].
  rewrite Ej. cbn [mbind option_bind].
  assert (Hone : forall n, ahead (S n) p = ahead n q) by (intros n; cbn [ahead]; rewrite Ei; cbn [mbind option_bind]; by rewrite Eq).
  destruct (decide (GeneratedStakeModifier j = true /\ limit <= index_GetBlockTime j)) as [[Hg Hl]|Hlow].
  - rewrite Hg. exists (Some (nStakeModifier j)). split.
    + destruct fuel; cbn [kernel_loop]; unfold deref; rewrite Ej; cbn [mbind option_bind]; by rewrite (proj2 (Z.ltb_ge _ _) Hl).
    + exists 1%nat, q, j. split_and!; [lia|by rewrite Hone|done..|intros k; lia].
  - assert (Hj : GeneratedStakeModifier j = true -> index_GetBlockTime j < limit) by (intros Hg; apply Z.nle_gt; intros Hle; by apply Hlow).
    destruct (IH (if GeneratedStakeModifier j then index_GetBlockTime j else t) q) as (r & Er & Hr); [by exists j|lia|destruct (GeneratedStakeModifier j); [by apply Hj|done]|].
    exists r. split; [done|]. destruct r as [m|].
    + destruct Hr as (n & r & l & Hn & Er' & El & Hg & Hl & Em & Hnb). exists (S n), r, l. rewrite Hone. split_and!; [lia|done..|]. by apply (none_before_step limit p i q j).
    + destruct Hr as (n & Er' & Hnb). exists (S n). rewrite Hone. split; [done|]. by apply (none_before_step limit p i q j).
Qed.
End selection.

Lemma interval_total nI : exists d, GetStakeModifierSelectionInterval nI = Some d.
Proof. eexists. reflexivity. Qed.

(** The modifier that hashes a kernel of the block at [p]: that of the first block
    ahead with a modifier generated at [limit] or later; none if the best block
    comes first. *)
Definition kernel_modifier (st : index_state) (limit : Z) (p : ptr) (r : option Z) : Prop :=
  match r with
  | None => exists n, ahead st n p = None /\ none_before st limit p n
  | Some m => exists n q j, (0 < n)%nat /\ ahead st n p = Some q /\ heap st !! q = Some j /\ GeneratedStakeModifier j = true /\ limit <= index_GetBlockTime j /\
      nStakeModifier j = m /\ none_before st limit p n
  end.

(** Coin-days, truncated at each division as the code does. *)
Definition coin_days (value weight : Z) : Z := Z.quot (Z.quot (value * weight) COIN) (24 * 60 * 60).

Lemma GetKernelStakeModifier_spec st nModifierInterval d hash p i : tree_wf st -> next_wf st ->
  GetStakeModifierSelectionInterval nModifierInterval = Some d -> 0 < d -> mapBlockIndex st !! hash = Some p -> heap st !! p = Some i ->
  exists om, GetKernelStakeModifier nModifierInterval st hash = Some om /\ kernel_modifier st (index_GetBlockTime i + d) p om.
Proof.
  intros Hwf Hnext Hd Hdpos Hp Hi.
  destruct (kernel_loop_spec st Hwf Hnext (index_GetBlockTime i + d) (size (heap st)) (index_GetBlockTime i) p) as (om & Ho & Hom); [by exists i|lia|lia|].
  exists om. split; [|exact Hom]. unfold GetKernelStakeModifier, deref. rewrite Hp, Hi, Hd. exact Ho.
Qed.

Section kernel_hash.
Context `{BNS : BN_spec} `{CS : Crypto_spec}.

Lemma kernel_test h w nBits : wf 8 h -> fits 32 nBits -> Z.testbit nBits 23 = false ->
  negb (bn_gt (setuint256 h) (BN_mul w (bn_SetCompact nBits))) = bool_decide (val h <= w * target_of nBits).
Proof.
  intros Hh Hb Hs. rewrite setuint256_value, bn_SetCompact_positive, BN_mul_spec by done. unfold bn_gt. rewrite BN_cmp_spec.
  apply eq_true_iff_eq. rewrite bool_decide_eq_true. destruct (Z.compare_spec (val h) (w * target_of nBits)); cbn; lia.
Qed.

Lemma coin_days_code value weight : sfits 64 value -> sfits 64 weight ->
  (a ← bn_div (BN_mul (setint64 value) (setint64 weight)) (setint64 COIN); bn_div a (CBigNum_int (24 * 60 * 60))) = Some (coin_days value weight).
Proof.
  intros Hv Hw. unfold bn_div. rewrite BN_mul_spec, !setint64_value, BN_div_spec by (done || (unfold sfits, COIN; lia)). cbn [Z.eqb COIN fmap option_fmap option_map mbind option_bind fst].
  rewrite CBigNum_int_value, BN_div_spec by (unfold sfits; lia). done.
Qed.
End kernel_hash.

(** What the check answers, with the hash and the bound as the code compares them. *)
Lemma CheckStakeKernelHash_result `{BNS : BN_spec} `{CS : Crypto_spec} (st : index_state) nModifierInterval nMinAge nMaxAge Hash9 d nBits blockFrom offset txPrev o out nTimeTx p i :
  tree_wf st -> next_wf st -> GetStakeModifierSelectionInterval nModifierInterval = Some d -> 0 < d ->
  fits 32 nMinAge -> fits 32 nMaxAge -> fits 32 nBits -> Z.testbit nBits 23 = false -> fits 32 nTimeTx -> fits 32 (tx_nTime txPrev) ->
  fits 32 (GetBlockTime blockFrom) -> GetBlockTime blockFrom + nMinAge < 2 ^ 32 ->
  vout txPrev !! Z.to_nat (op_n o) = Some out -> sfits 64 (nValue out) ->
  mapBlockIndex st !! block_GetHash Hash9 blockFrom = Some p -> heap st !! p = Some i ->
  exists r, CheckStakeKernelHash nModifierInterval nMinAge nMaxAge st Hash9 nBits blockFrom offset txPrev o nTimeTx = Some r /\
  if decide (nTimeTx < tx_nTime txPrev \/ nTimeTx < GetBlockTime blockFrom + nMinAge) then r = (false, None)
  else exists om, kernel_modifier st (index_GetBlockTime i + d) p om /\
    r = match om with
        | None => (false, None)
        | Some m =>
            let h := Hash (kernel_bytes m (GetBlockTime blockFrom) offset (tx_nTime txPrev) (op_n o) nTimeTx) in
            (bool_decide (val h <= coin_days (nValue out) (Z.min (nTimeTx - tx_nTime txPrev) nMaxAge - nMinAge) * target_of nBits), Some h)
        end.
Proof.
  intros Hwf Hnext Hd Hdpos Hmin Hmax Hbits Hsign Htx Hprev Hblk Hnow Hout Hval Hp Hi. unfold CheckStakeKernelHash. unfold fits in *.
  rewrite (wrap_id 32 (GetBlockTime blockFrom)), (wrap_id 32 (_ + _)) by (unfold fits; lia).
  destruct (Z.ltb_spec nTimeTx (tx_nTime txPrev)); [eexists; split; [done|rewrite decide_True; [done|lia]]|].
  destruct (Z.ltb_spec nTimeTx (GetBlockTime blockFrom + nMinAge)); [eexists; split; [done|rewrite decide_True; [done|lia]]|].
  rewrite Hout. cbn [mbind option_bind]. rewrite (swrap_id 64 (nTimeTx - tx_nTime txPrev)), (swrap_id 64) by lia.
  pose proof (coin_days_code (nValue out) (Z.min (nTimeTx - tx_nTime txPrev) nMaxAge - nMinAge) Hval) as Hw.
  apply bind_Some in Hw as (a & -> & Ha); [|unfold sfits; lia]. cbn [mbind option_bind]. rewrite Ha. cbn [mbind option_bind].
  destruct (GetKernelStakeModifier_spec st nModifierInterval d (block_GetHash Hash9 blockFrom) p i) as (om & -> & Hom); [done..|].
  cbn [mbind option_bind]. destruct om as [m|]; (eexists; split; [done|]; rewrite decide_False by lia); [|by exists None].
  exists (Some m). split; [done|]. cbv zeta. rewrite kernel_test; [done|apply wf_Hash|done|done].
Qed.

(** A hash equal to the bound is accepted, where the comment of kernel.cpp:264 asks for
    a smaller one. *)
Lemma kernel_at_target `{BNS : BN_spec} `{CS : Crypto_spec} (st : index_state) nModifierInterval nMinAge nMaxAge Hash9 d nBits blockFrom offset txPrev o out nTimeTx p i ok h :
  tree_wf st -> next_wf st -> GetStakeModifierSelectionInterval nModifierInterval = Some d -> 0 < d ->
  fits 32 nMinAge -> fits 32 nMaxAge -> fits 32 nBits -> Z.testbit nBits 23 = false -> fits 32 nTimeTx -> fits 32 (tx_nTime txPrev) ->
  fits 32 (GetBlockTime blockFrom) -> GetBlockTime blockFrom + nMinAge < 2 ^ 32 ->
  vout txPrev !! Z.to_nat (op_n o) = Some out -> sfits 64 (nValue out) ->
  mapBlockIndex st !! block_GetHash Hash9 blockFrom = Some p -> heap st !! p = Some i ->
  CheckStakeKernelHash nModifierInterval nMinAge nMaxAge st Hash9 nBits blockFrom offset txPrev o nTimeTx = Some (ok, Some h) ->
  val h = coin_days (nValue out) (Z.min (nTimeTx - tx_nTime txPrev) nMaxAge - nMinAge) * target_of nBits -> ok = true.
Proof.
  intros Hwf Hnext Hd Hdpos Hmin Hmax Hbits Hsign Htx Hprev Hblk Hnow Hout Hval Hp Hi E Eh.
  destruct (CheckStakeKernelHash_result st nModifierInterval nMinAge nMaxAge Hash9 d nBits blockFrom offset txPrev o out nTimeTx p i) as (r & Er & Hr); [done..|].
  rewrite E in Er. injection Er as <-. destruct (decide _); [done|]. destruct Hr as ([m|] & _ & Hr); [|done]. injection Hr as -> ->. apply bool_decide_eq_true. lia.
Qed.

(** (C22) The kernel protocol.  On a well-formed index the check always returns.  A
    coinstake whose time is before its kernel's, or within the minimum age of the
    kernel's block, is refused.  Otherwise the hash is computed with the modifier of
    the first block, along the main chain from the kernel's block, whose modifier was
    generated a selection interval later; the coinstake is refused when there is none
    yet.  Else it is accepted when the hash is below the target times the coin-days,
    the amount times the age, capped at the maximum and counted from the minimum age,
    and refused when it is above.  The times do not overflow 32 bits and the sign bit
    of the target is clear.  A hash that equals the product is left out here: the
    comment of the function and its code differ on it (see [kernel_at_target]). *)
Theorem kernel_protocol `{BNS : BN_spec} `{CS : Crypto_spec} (st : index_state) nModifierInterval nMinAge nMaxAge Hash9 d nBits blockFrom offset txPrev o out nTimeTx p i :
  tree_wf st -> next_wf st -> GetStakeModifierSelectionInterval nModifierInterval = Some d -> 0 < d ->
  fits 32 nMinAge -> fits 32 nMaxAge -> fits 32 nBits -> Z.testbit nBits 23 = false -> fits 32 nTimeTx -> fits 32 (tx_nTime txPrev) ->
  fits 32 (GetBlockTime blockFrom) -> GetBlockTime blockFrom + nMinAge < 2 ^ 32 ->
  vout txPrev !! Z.to_nat (op_n o) = Some out -> sfits 64 (nValue out) ->
  mapBlockIndex st !! block_GetHash Hash9 blockFrom = Some p -> heap st !! p = Some i ->
  exists r, CheckStakeKernelHash nModifierInterval nMinAge nMaxAge st Hash9 nBits blockFrom offset txPrev o nTimeTx = Some r /\
  if decide (nTimeTx < tx_nTime txPrev \/ nTimeTx < GetBlockTime blockFrom + nMinAge) then r = (false, None)
  else exists om, kernel_modifier st (index_GetBlockTime i + d) p om /\
    match om with
    | None => r = (false, None)
    | Some m =>
        let h := Hash (kernel_bytes m (GetBlockTime blockFrom) offset (tx_nTime txPrev) (op_n o) nTimeTx) in
        let bound := coin_days (nValue out) (Z.min (nTimeTx - tx_nTime txPrev) nMaxAge - nMinAge) * target_of nBits in
        exists ok, r = (ok, Some h) /\ (val h < bound -> ok = true) /\ (bound < val h -> ok = false)
    end.
Proof.
  intros Hwf Hnext Hd Hdpos Hmin Hmax Hbits Hsign Htx Hprev Hblk Hnow Hout Hval Hp Hi.
  destruct (CheckStakeKernelHash_result st nModifierInterval nMinAge nMaxAge Hash9 d nBits blockFrom offset txPrev o out nTimeTx p i) as (r & Er & Hr); [done..|].
  exists r. split; [done|]. destruct (decide _); [done|]. destruct Hr as (om & Hom & ->). exists om. split; [done|]. destruct om as [m|]; [|done]. cbv zeta. eexists. split; [done|].
  split; intros Hc; [apply bool_decide_eq_true|apply bool_decide_eq_false]; lia.
Qed.

(** (C23) The selection of a stake modifier.  On a well-formed index whose first block
    carries a generated modifier, [ComputeNextStakeModifier] never fails.  It keeps the
    last generated modifier while the modifier interval has not turned, and else
    generates one: it selects min(64, number of candidates) different blocks, round by
    round, and bit [k] of the new modifier is the entropy bit of the [k]-th selected
    block.  The candidates are the blocks back from the previous one up to the first
    that is older than the selection interval; the winner of each round is, among the
    candidates not selected yet, one with the least selection hash of those in the
    round's interval (or the earliest candidate when none is). *)
Theorem stake_modifier_selection `{CS : Crypto_spec} (st : index_state) nModifierInterval p i :
  0 < nModifierInterval -> tree_wf st -> heap st !! p = Some i -> (forall q j, heap st !! q = Some j -> pprev j = None -> GeneratedStakeModifier j = true) ->
  exists n q j, walk st n (Some p) = Some q /\ heap st !! q = Some j /\ GeneratedStakeModifier j = true /\
    (forall m r k, (m < n)%nat -> walk st m (Some p) = Some r -> heap st !! r = Some k -> GeneratedStakeModifier k = false) /\
    if decide (index_GetBlockTime i / nModifierInterval <= index_GetBlockTime j / nModifierInterval)
    then ComputeNextStakeModifier nModifierInterval st (Some p) = Some (Some (nStakeModifier j, false))
    else exists d items ps new, GetStakeModifierSelectionInterval nModifierInterval = Some d /\
      let nStart := index_GetBlockTime i / nModifierInterval * nModifierInterval - d in
      ComputeNextStakeModifier nModifierInterval st (Some p) = Some (Some (new, true)) /\
      (forall x, x ∈ items <-> candidate st nStart (Some p) x) /\ NoDup (snd <$> items) /\
      rounds st nModifierInterval items (nStakeModifier j) 0 nStart ∅ ps /\ NoDup ps /\ length ps = Nat.min 64 (length items) /\
      forall b, 0 <= b -> Z.testbit new b = contributes st ps b.
Proof.
  intros _ Hwf Hi Hgen. assert (Hp : valid st (Some p)) by (by exists i).
  destruct (GetLastStakeModifier_spec st Hwf p Hp Hgen) as (n & q & j & Hw & Ej & Hg & Elast & Hall). exists n, q, j. split_and!; [done..|].
  unfold ComputeNextStakeModifier. rewrite Elast. unfold deref. rewrite Hi. cbn [mbind option_bind]. rewrite Z.geb_leb.
  destruct (Z.leb_spec (index_GetBlockTime i / nModifierInterval) (index_GetBlockTime j / nModifierInterval)); [by rewrite decide_True|].
  rewrite decide_False by lia. destruct (interval_total nModifierInterval) as [d Hd].
  set (nStart := index_GetBlockTime i / nModifierInterval * nModifierInterval - d).
  destruct (candidates_spec st Hwf (size (heap st)) nStart (Some p) Hp (blocks_size st Hwf _ Hp)) as (l & El & Hl & Hnd).
  set (items := merge_sort cand_le (rev l)). assert (Hperm : items ≡ₚ l) by (unfold items; by rewrite merge_sort_Permutation, <- Permutation_rev).
  assert (Hitems : forall x, x ∈ items <-> candidate st nStart (Some p) x) by (intros x; rewrite <- Hl; by rewrite Hperm).
  assert (Hnd' : NoDup (snd <$> items)) by (by rewrite Hperm).
  destruct (rounds_loop_spec st Hwf nModifierInterval items (nStakeModifier j)) with (k := Nat.min 64 (length items)) (n := 0)
    (nStop := nStart) (acc := 0) (selected := ∅ : gmap base_uint ptr) as (ps & new & Er & Hr & Hlen & Hbits).
  - apply Forall_forall. intros x Hx%Hitems. by eapply candidate_good.
  - apply sorted_by_time.
  - unfold remaining. rewrite dom_empty_L, difference_empty_L, size_list_to_set, length_fmap by done. lia.
  - lia.
  - lia.
  - intros b _. apply Z.testbit_0_l.
  - exists d, items, ps, new. rewrite Hd. cbn [mbind option_bind]. cbv zeta. fold nStart. split; [done|]. rewrite El. cbn [mbind option_bind]. fold items. rewrite Er.
    split_and!; [done..|by apply winners_fresh in Hr as [? _]|done|].
    intros b Hb. rewrite Hbits by done. destruct (Z.ltb_spec b 0); [lia|]. by rewrite Z.sub_0_r.
Qed.

(** ** Witnesses

    Three blocks; the modifiers of the first and of the last were generated. *)

Definition stake_entry (h : base_uint) (prev next : option ptr) (height flags modifier time : Z) : CBlockIndex :=
  mkIndex (Some h) prev next 0 0 (bu_zero 8) height 0 0 flags modifier 0 out_null 0 (bu_zero 8) 6 (bu_zero 8) time 0x1e0fffff 0.

Definition stake_index : index_state :=
  mkIndexState
    (<[0 := stake_entry [0] None (Some 1) 0 6 0 1000]> (<[1 := stake_entry [1] (Some 0) (Some 2) 1 2 0 2000]>
       (<[2 := stake_entry [2] (Some 1) None 2 5 77 12000]> ∅)))
    (<[[0] := 0]> (<[[1] := 1]> (<[[2] := 2]> ∅))) (Some 2) (Some 0).

Ltac stake_cases H := unfold stake_index in H; cbn [heap mapBlockIndex] in H;
  repeat (apply lookup_insert_Some in H as [[<- <-]|[_ H]]); try (by rewrite lookup_empty in H).

Lemma stake_index_wf : index_wf stake_index.
Proof.
  split; [split|].
  - intros p i H. stake_cases H; eexists; (split; [reflexivity|reflexivity]).
  - intros p i H. stake_cases H; [reflexivity|eexists; split; reflexivity..].
  - intros p i H. stake_cases H; cbn; lia.
  - intros h p H. stake_cases H; eexists; reflexivity.
  - intros p i q H Hp Hm. stake_cases H; cbn in Hp; try done; injection Hp as <-; reflexivity.
Qed.

Lemma stake_index_next : next_wf stake_index.
Proof. intros p i q H Hq. stake_cases H; cbn in Hq; try done; injection Hq as <-; eexists; split; reflexivity. Qed.

Lemma stake_index_genesis q j : heap stake_index !! q = Some j -> pprev j = None -> GeneratedStakeModifier j = true.
Proof. intros Hq Hp. stake_cases Hq; cbn in Hp; done. Qed.

(** The block after the second one gets a new modifier from the two blocks. *)
Lemma stake_modifier_selection_witness :
  exists ps, NoDup ps /\ @ComputeNextStakeModifier Crypto_toy 300 stake_index (Some (1 : ptr)) = Some (Some (3, true)) /\
    forall b, 0 <= b -> Z.testbit 3 b = contributes stake_index ps b.
Proof.
  assert (Ecode : @ComputeNextStakeModifier Crypto_toy 300 stake_index (Some (1 : ptr)) = Some (Some (3, true))) by (vm_compute; reflexivity).
  destruct (@stake_modifier_selection Crypto_toy Crypto_toy_spec stake_index 300 1 (stake_entry [1] (Some 0) (Some 2) 1 2 0 2000))
    as (n & q & j & _ & _ & _ & _ & Hout); [lia|exact stake_index_wf|reflexivity|exact stake_index_genesis|].
  match type of Hout with context [decide ?P] => destruct (decide P) end; [rewrite Ecode in Hout; discriminate|].
  destruct Hout as (d & items & ps & new & Hd & E & Hi & Hnd & Hr & Hndp & Hlen & Hb). exists ps. rewrite Ecode in E. injection E as <-. split; [exact Hndp|split; [exact Ecode|exact Hb]].
Defined.

(** A coin of 100 units of the first block, staked when the last block's modifier
    is there. *)
Definition stake_block : CBlock := mkBlock 6 (bu_zero 8) (bu_zero 8) 1000 0x1e0fffff 0 [] [] [] 0.
Definition stake_prev : CTransaction := mkTx 1 900 [] [mkTxOut (100 * COIN) []] 0 [] 0.

#[local] Existing Instance BN_Z.
#[local] Existing Instance BN_Z_spec.
#[local] Existing Instance Crypto_toy.
#[local] Existing Instance Crypto_toy_spec.

Lemma kernel_protocol_witness :
  exists r, CheckStakeKernelHash 300 3600 28800 stake_index (fun _ => [0]) 0x1e0fffff stake_block 81 stake_prev (mkOutPoint [] 0) 20000 = Some r /\ snd r <> None.
Proof.
  destruct (kernel_protocol stake_index 300 3600 28800 (fun _ => [0]) 10554 0x1e0fffff stake_block 81 stake_prev (mkOutPoint [] 0) (mkTxOut (100 * COIN) []) 20000 0
    (stake_entry [0] None (Some 1) 0 6 0 1000)) as (r & E & Hr);
    [exact stake_index_wf|exact stake_index_next|vm_compute; reflexivity|lia|by vm_compute|by vm_compute|by vm_compute|reflexivity|by vm_compute|by vm_compute|by vm_compute|by vm_compute|reflexivity|by vm_compute|reflexivity|reflexivity|].
  exists r. split; [done|]. assert (Eb : bool_decide (is_Some (snd r)) = true); [|apply bool_decide_eq_true in Eb as [? ->]; done].
  enough (match CheckStakeKernelHash 300 3600 28800 stake_index (fun _ => [0]) 0x1e0fffff stake_block 81 stake_prev (mkOutPoint [] 0) 20000 with
          | Some r => bool_decide (is_Some (snd r)) | None => false end = true) as Hc by (by rewrite E in Hc).
  vm_compute. reflexivity.
Defined.
