(* ===== verification/Checkpoints.v ===== *)
(** * checkpoints.h, checkpoints.cpp: hardened and synchronized checkpoints

    Hardened checkpoints are compiled in.  The synchronized checkpoint is broadcast
    by the owner of a master key; blocks must descend from it, and it may only be
    replaced by one of its descendants.  A checkpoint whose block has not arrived
    is kept pending.

    The globals are the fields of [sync_state].  Each function opens its own
    [CTxDB] on the one database instance, which is an argument.  Relaying to peers
    and messages are not modelled. *)
From Stdlib Require Import ZArith Lia Bool.
From stdpp Require Import prelude gmap.
From S2P Require Import Prelude Uint256 DataStream Serialize Crypto Bignum Script Tx Block Index TxDB Target.
From S2P Require Import Keys KeyStore Pool SigHash Interp Standard Connect Chain Accept BestChain Reorg.

(** ** Hardened checkpoints *)

(** [uint256(string)] of a numeral *)
Definition hash_of_hex (z : Z) : base_uint := to_digits (2 ^ 32) 8 z.

Definition hashGenesisBlockOfficial : base_uint := hash_of_hex 0x2d8251121940abce6e28df134c6432e8c5a00d59989a2451806c2778c3a06112.
Definition hashGenesisBlockTestNet4 : base_uint := hash_of_hex 0xeb839aa81f3ec87bbaf993033d0a68219918b327a82709482e446b8ae0a21c4f.
Definition hashGenesisBlockTestNet5 : base_uint := hash_of_hex 0xd5c43cbc3f7ada64f950b045c3a25d3ba6a656198cb1f7a1b8aa0b6ec882a968.

(** In the order of the heights, as the map iterates. *)
Definition mapCheckpoints : list (Z * base_uint) :=
  [ (0, hashGenesisBlockOfficial);
    (7900, hash_of_hex 0x00000000000b3e4280fb009d24dfc90c563a225f3ef8dcefb230ab0fa1b820d6);
    (25000, hash_of_hex 0x977d97d18c3666fe6747e178b54959edf1d15ac282a0b3e052adcf1aaaf5fbe1);
    (50000, hash_of_hex 0xdd6cf2ae0ad0ed2356a0f580f2cda34bfeb7d5a4d871f9a324b979e31c516082);
    (75000, hash_of_hex 0x4ce8ef2b38bbc7db5993a4ad3a83d2086294d5724acf2791f385e86da2e5fe50);
    (100000, hash_of_hex 0x2c8022b567300009600eb640d6eba9e7d6604ac2d81905325caf0df1bb521fc8);
    (125000, hash_of_hex 0x28bd26bee8d3792d2696447b7d8e09efd6a27be16e5d65f68b0731fb054c7bdc);
    (150000, hash_of_hex 0xb3d59f85fb1aee62e875a551a416fc8a6e518901e9a41a91cba1b18591eecbac);
    (175000, hash_of_hex 0x94b5c48efa1cb5cd7d878d2b5481efc02844ea87eebb7706d51a291e6c691853);
    (200000, hash_of_hex 0x07a0aacedd13fee9a2e997c96d9b573db7a5a787338c6877d520987c0e56801c);
    (225000, hash_of_hex 0xd76864a1e67afeac7a5cef5fd767f8dd407c9e79155a74b0645da9d7c85738f7);
    (250000, hash_of_hex 0xddf556bb8cbd6252d79dbef076d538b15d96434039de96c63841e2c0563cc458);
    (275000, hash_of_hex 0xf83b1cc58226913005991ca37227ef848d0309fa2cbbf2589837270f9b243cc7);
    (300000, hash_of_hex 0x5f1e1cb6a93c3233669f039eba558998f8ec6a76e19b96c9ae4eae808bd346f1);
    (325000, hash_of_hex 0xe1d7090e2385a7278cd4a160379b451faedf45609bf0049248553bddcb869f14);
    (350000, hash_of_hex 0x2ad2d16cae48a283b1a5292fb48436750f32dcf2e7dcbbf259f58f2ce14448f1);
    (375000, hash_of_hex 0x39847cb2e1dee0c3726578a9540c69ce93de7514fd2462422da0c9a834d8e203);
    (400000, hash_of_hex 0x6dafff13cb9548aaaf49ed83ecdcc2684f9baf8e7f1170a3b9e2a16b71d80fcb);
    (425000, hash_of_hex 0xf897e4b075350b2166e1c0dcb9496a5ea32611b3519da87a7b4f006b56f3f310);
    (450000, hash_of_hex 0xc7d4889dc95111d442dffc310820add69bc9826297235c9629aa83f890cd5047);
    (475000, hash_of_hex 0x2cbc03b78cfd38f6d3e6bbc4006ed82762e12b575f99407ef60a498396f36420);
    (500000, hash_of_hex 0xbccd07f2827937007a6662cd1fb38da7316940fa963fa1c5180d8bb2a28878d7);
    (525000, hash_of_hex 0x50ac7a25eb435b427720e5d64889d98a968495282d53ad69b2c2d293b1ee0e10);
    (550000, hash_of_hex 0xfc1959eef795b528753afbf69c421b8996e106652004087fbd4e530b62b3836f);
    (575000, hash_of_hex 0xae397e88688fc09f7df96020fee7d8311a0365ab7a95dac324fa155065580961);
    (600000, hash_of_hex 0xd2d5877d281e2b664c3666fc5edc7099ad9ec6ccb701259e68ec291aa77d9fe0);
    (625000, hash_of_hex 0x29023ccc4d3e037b1cf1bd4393b16b7926a00f3480b4e4b327138961260d0848);
    (650000, hash_of_hex 0xa8193ee04d8dec5fdd21af5923aabbff3f8d02bd30ebf425903efc50f7f242f7);
    (675000, hash_of_hex 0x8832f8e6c9c446e9370040b31c540e459a5a5d108eedf1136189a7aa6a10bb8a);
    (700000, hash_of_hex 0x3008cf349da9ed1395911404aec5610784c97afbee2e99fe38595456a9783fd8);
    (725000, hash_of_hex 0x06ff2fd9b59a509ce3330e2eec1074d3f56be47c0d0b01c97038db5d884a4129);
    (750000, hash_of_hex 0x678a68f20275265991408d6002c8d3a60426503f1d23869b3d18d40f73d59665);
    (775000, hash_of_hex 0x6f3a67246cd3efb1d1cc3267d41cafdceac76cfc89821db892b66ecd33bb8664);
    (800000, hash_of_hex 0xb306a358dded8e42d7480162566ea0f08a05e937ff502c53ffe91d6c60672784);
    (805000, hash_of_hex 0xd3ea3b2f0e2fe2a6072c6c5df0f1ad2149d300a36e1142c867156df67dcc50cf);
    (810000, hash_of_hex 0xd969eda363dc90373c5a65288e6889bbd96103a70c9c821127533fbe13770fa0);
    (900000, hash_of_hex 0xb1f23aacfee03cdb94926164ad92006fde032b02ad07b69cb041ce540ef275e0);
    (950000, hash_of_hex 0xe88cabe459b5293ddc661ac601ad33a40ec267578b8ea812db75004a8aa5c7d1);
    (1000000, hash_of_hex 0xfc5010aaa3875802b8c588056fd82ad36bcfd95e9357e178c8c0c798796c8bc8);
    (1050000, hash_of_hex 0x68d96df81f29c1ca7f5685e083f49cebb9a6c7463a71b1a939d4007bb9a50848);
    (1100000, hash_of_hex 0x87c32df1037d7bc48a9a20d4360ecbdd0bc8d9b2fa18ba033790cd59f97d2e99);
    (1150000, hash_of_hex 0xe64e354e5016c7b61ce3d0cdb5d6afe9d194264a81fa89164115632264e45da7);
    (1200000, hash_of_hex 0xbad703fc4f125a928553043bdb510441e190e0dda790868d5435fc516b42c098);
    (1250000, hash_of_hex 0x78cc533210949481d23cd8157501eabd8032817d7d59dc2bbf8fe34e3440ccd6);
    (1260000, hash_of_hex 0x58a5797b01c71a2ea9f3c4a550c5a3931253391dda8c6d0ad3c080447b67e44f) ].

Definition mapCheckpointsTestnet (testnetNumber : Z) : list (Z * base_uint) :=
  [ (0, if testnetNumber =? 5 then hashGenesisBlockTestNet5 else hashGenesisBlockTestNet4) ].

Section hardened.
Context (fTestNet : bool) (testnetNumber : Z).

Definition checkpoints : list (Z * base_uint) := if fTestNet then mapCheckpointsTestnet testnetNumber else mapCheckpoints.

Definition CheckHardened (nHeight : Z) (hash : base_uint) : bool :=
  match List.find (fun '(h, _) => h =? nHeight) checkpoints with
  | None => true
  | Some (_, h) => bu_eq hash h
  end.

Definition GetTotalBlocksEstimate : Z := default 0 (fst <$> last checkpoints).

Fixpoint last_known (l : list (Z * base_uint)) (mapBlockIndex : gmap base_uint ptr) : option ptr :=
  match l with
  | [] => None
  | (_, hash) :: l => match mapBlockIndex !! hash with Some p => Some p | None => last_known l mapBlockIndex end
  end.

Definition GetLastCheckpoint (mapBlockIndex : gmap base_uint ptr) : option ptr := last_known (rev checkpoints) mapBlockIndex.
End hardened.

(** ** Checkpoint messages *)

(** [CUnsignedSyncCheckpoint] and [CSyncCheckpoint] *)
Record CSyncCheckpoint : Type := mkCheckpoint { cp_nVersion : Z; hashCheckpoint : base_uint; vchMsg : list Z; vchSig : list Z }.

Definition checkpoint_null : CSyncCheckpoint := mkCheckpoint 1 (bu_zero 8) [] [].
Definition checkpoint_IsNull (c : CSyncCheckpoint) : bool := bu_eq64 (hashCheckpoint c) 0.

Definition ser_unsigned_checkpoint : Ser (Z * base_uint) := ser_pair (ser_int 4) ser_uint256.

(** The bytes of [strMasterPubKey]. *)
Definition master_key : list Z :=
  rev (to_digits 256 65 0x04f7588644485641221aa2e15e6dd11e1c75a1ced52e719b425e520e7f84e31bb0fc0a361fefa1fd423659fd8b204104dd046c2b3d60e42b0769ddd9fb0469ba91).

(** [None]: the signed bytes are not a checkpoint, and reading them throws. *)
Definition CheckSignature `{Crypto} `{EC} (c : CSyncCheckpoint) : option (bool * CSyncCheckpoint) :=
  let '(ok, key) := key_SetPubKey key_Reset (mkPubKey master_key) in
  if negb ok then Some (false, c)
  else if negb (key_Verify key (Hash (vchMsg c)) (vchSig c)) then Some (false, c)
  else
    match fst (Unserialize ser_unsigned_checkpoint SER_NETWORK PROTOCOL_VERSION (Init (vchMsg c) SER_NETWORK PROTOCOL_VERSION)) with
    | inr (v, h) => Some (true, mkCheckpoint v h (vchMsg c) (vchSig c))
    | inl _ => None
    end.

(** ** The synchronized checkpoint *)

Record sync_state : Type := mkSync {
  hashSyncCheckpoint : base_uint;
  hashPendingCheckpoint : base_uint;
  checkpointMessage : CSyncCheckpoint;
  checkpointMessagePending : CSyncCheckpoint;
  hashInvalidCheckpoint : base_uint
}.

Definition set_sync (h : base_uint) (y : sync_state) : sync_state :=
  mkSync h (hashPendingCheckpoint y) (checkpointMessage y) (checkpointMessagePending y) (hashInvalidCheckpoint y).
Definition set_pending (h : base_uint) (c : CSyncCheckpoint) (y : sync_state) : sync_state :=
  mkSync (hashSyncCheckpoint y) h (checkpointMessage y) c (hashInvalidCheckpoint y).
Definition set_message (c : CSyncCheckpoint) (y : sync_state) : sync_state :=
  mkSync (hashSyncCheckpoint y) (hashPendingCheckpoint y) c (checkpointMessagePending y) (hashInvalidCheckpoint y).
Definition set_conflict (h : base_uint) (y : sync_state) : sync_state :=
  mkSync (hashSyncCheckpoint y) (hashPendingCheckpoint y) (checkpointMessage y) (checkpointMessagePending y) h.

(** The null pointer is [None]. *)
Definition GetLastSyncCheckpoint (st : index_state) (y : sync_state) : option ptr := mapBlockIndex st !! hashSyncCheckpoint y.

(** The loops that trace back are those of [lower], whose inner [None] is the
    error of a missing [pprev]. *)
Definition ValidateSyncCheckpoint (st : index_state) (y : sync_state) (hash : base_uint) : option (bool * sync_state) :=
  match mapBlockIndex st !! hashSyncCheckpoint y, mapBlockIndex st !! hash with
  | None, _ | _, None => Some (false, y)
  | Some pindexSyncCheckpoint, Some pindexCheckpointRecv =>
      i ← deref st pindexSyncCheckpoint;
      j ← deref st pindexCheckpointRecv;
      if nHeight j <=? nHeight i then
        r ← lower (size (heap st)) st (nHeight j) pindexSyncCheckpoint;
        match r with
        | None => Some (false, y)
        | Some pindex => h ← GetBlockHash st pindex; Some (false, if bu_eq h hash then y else set_conflict hash y)
        end
      else
        r ← lower (size (heap st)) st (nHeight i) pindexCheckpointRecv;
        match r with
        | None => Some (false, y)
        | Some pindex => h ← GetBlockHash st pindex; Some (if bu_eq h (hashSyncCheckpoint y) then (true, y) else (false, set_conflict hash y))
        end
  end.

(** [None]: the assertion that the checkpoint is an accepted block fails. *)
Definition CheckSync (fTestNet : bool) (st : index_state) (y : sync_state) (hashBlock : base_uint) (pindexPrev : ptr) : option bool :=
  if fTestNet then Some true
  else
    i ← deref st pindexPrev;
    let height := nHeight i + 1 in
    pindexSync ← mapBlockIndex st !! hashSyncCheckpoint y;
    j ← deref st pindexSync;
    ok ← (if nHeight j <? height then
            r ← lower (size (heap st)) st (nHeight j) pindexPrev;
            match r with
            | None => Some false
            | Some pindex =>
                k ← deref st pindex;
                h ← GetBlockHash st pindex;
                Some (negb ((nHeight k <? nHeight j) || negb (bu_eq h (hashSyncCheckpoint y))))
            end
          else Some true);
    Some (ok && negb ((height =? nHeight j) && negb (bu_eq hashBlock (hashSyncCheckpoint y)))
             && negb ((height <? nHeight j) && negb (bool_decide (is_Some (mapBlockIndex st !! hashBlock))))).

Definition IsMatureSyncCheckpoint (st : index_state) (y : sync_state) (nBestHeight nCoinbaseMaturity nStakeMinAge adjusted_time : Z) : option bool :=
  p ← mapBlockIndex st !! hashSyncCheckpoint y;
  i ← deref st p;
  Some ((nHeight i + nCoinbaseMaturity <=? nBestHeight) || (index_GetBlockTime i + nStakeMinAge <? adjusted_time)).

Definition IsSyncCheckpointTooOld (st : index_state) (y : sync_state) (nSeconds adjusted_time : Z) : option bool :=
  p ← mapBlockIndex st !! hashSyncCheckpoint y;
  i ← deref st p;
  Some (index_GetBlockTime i + nSeconds <? adjusted_time).

Definition CHECKPOINT_MAX_SPAN : Z := 60 * 60 * 4.

Fixpoint auto_loop (fuel : nat) (st : index_state) (nCoinbaseMaturity : Z) (best : CBlockIndex) (p : ptr) : option ptr :=
  i ← deref st p;
  match pnext i with
  | None => Some p
  | Some q =>
      if (index_GetBlockTime i + CHECKPOINT_MAX_SPAN <=? index_GetBlockTime best) || (nHeight i + Z.min 6 (nCoinbaseMaturity - 20) <=? nHeight best)
      then match fuel with O => None | S fuel => auto_loop fuel st nCoinbaseMaturity best q end
      else Some p
  end.

Definition AutoSelectSyncCheckpoint (st : index_state) (nCoinbaseMaturity : Z) : option base_uint :=
  p ← GetLastBlockIndex st (pindexBest st) false ≫= id;
  b ← pindexBest st;
  best ← deref st b;
  q ← auto_loop (size (heap st)) st nCoinbaseMaturity best p;
  GetBlockHash st q.

(** ** Blocks wanted by orphans *)

Section orphans.
(** [mapOrphanBlocks] *)
Context (mapOrphanBlocks : gmap base_uint CBlock).

Fixpoint orphan_root (fuel : nat) (b : CBlock) : option CBlock :=
  match mapOrphanBlocks !! hashPrevBlock b with
  | None => Some b
  | Some b' => match fuel with O => None | S fuel => orphan_root fuel b' end
  end.

Definition WantedByOrphan (b : CBlock) : option base_uint := hashPrevBlock <$> orphan_root (size mapOrphanBlocks) b.
Definition GetOrphanRoot (Hash9 : list Z -> base_uint) (b : CBlock) : option base_uint :=
  block_GetHash Hash9 <$> orphan_root (size mapOrphanBlocks) b.

Definition WantedByPendingSyncCheckpoint (y : sync_state) (hashBlock : base_uint) : option bool :=
  if bu_eq64 (hashPendingCheckpoint y) 0 then Some false
  else if bu_eq hashBlock (hashPendingCheckpoint y) then Some true
  else
    match mapOrphanBlocks !! hashPendingCheckpoint y with
    | None => Some false
    | Some b => w ← WantedByOrphan b; Some (bu_eq hashBlock w)
    end.
End orphans.

(** ** Operations *)

Section operations.
Context `{LevelDB} `{BN} `{Crypto} `{EC}.
Context (Hash9 : list Z -> base_uint) (bnProofOfWorkLimit hashGenesis : base_uint) (files : block_files).
Context (fTestNet : bool) (nStakeMinAge nCoinbaseMaturity nTotalBlocksEstimate : Z) (GetRandHash : nat -> base_uint) (nMaxCacheSize : Z).
Context (adjusted_time now : Z).

Abbreviation set_best := (SetBestChain Hash9 bnProofOfWorkLimit hashGenesis files fTestNet nStakeMinAge nCoinbaseMaturity nTotalBlocksEstimate
  GetRandHash nMaxCacheSize adjusted_time now).

Definition key_hashSyncCheckpoint : list Z := [104; 97; 115; 104; 83; 121; 110; 99; 67; 104; 101; 99; 107; 112; 111; 105; 110; 116].

Definition txdb_WriteSyncCheckpoint (txdb : CTxDB) (hash : base_uint) : option (bool * CTxDB) := Write ser_string ser_uint256 txdb key_hashSyncCheckpoint hash.

Definition WriteSyncCheckpoint (d : DB) (y : sync_state) (hash : base_uint) : option (bool * DB * sync_state) :=
  '(_, txdb) ← TxnBegin (txdb_open d false);
  '(ok, txdb) ← txdb_WriteSyncCheckpoint txdb hash;
  if negb ok then Some (false, pdb (TxnAbort txdb), y)
  else
    '(ok, txdb) ← TxnCommit txdb;
    Some (ok, pdb txdb, if ok : bool then set_sync hash y else y).

(** Makes the block of a checkpoint the best one if it is not in the main chain.
    The answer says whether it was, and a block that cannot be connected is noted. *)
Definition checkpoint_to_main (d : DB) (s : chain_state) (y : sync_state) (hash : base_uint) : option (bool * DB * chain_state * sync_state) :=
  pindexCheckpoint ← mapBlockIndex (ch_index s) !! hash;
  inMain ← IsInMainChain (ch_index s) pindexCheckpoint;
  if inMain : bool then Some (true, d, s, y)
  else
    r ← index_ReadFromDisk Hash9 bnProofOfWorkLimit files (ch_index s) pindexCheckpoint;
    match r with
    | None => Some (false, d, s, y)
    | Some block =>
        '(ok, txdb, s) ← set_best (txdb_open d false) s block pindexCheckpoint;
        Some (ok, pdb txdb, s, if ok : bool then y else set_conflict hash y)
    end.

Definition AcceptPendingSyncCheckpoint (d : DB) (s : chain_state) (y : sync_state) : option (bool * DB * chain_state * sync_state) :=
  let hash := hashPendingCheckpoint y in
  if negb (bu_eq64 hash 0) && bool_decide (is_Some (mapBlockIndex (ch_index s) !! hash)) then
    '(ok, y) ← ValidateSyncCheckpoint (ch_index s) y hash;
    if negb ok then Some (false, d, s, set_pending (bu_zero 8) checkpoint_null y)
    else
      '(ok, d, s, y) ← checkpoint_to_main d s y hash;
      if negb ok then Some (false, d, s, y)
      else
        '(ok, d, y) ← WriteSyncCheckpoint d y hash;
        if negb ok then Some (false, d, s, y)
        else Some (true, d, s, set_pending (bu_zero 8) checkpoint_null (set_message (checkpointMessagePending y) y))
  else Some (false, d, s, y).

(** [None]: reading the signed bytes throws, or a model error of [SetBestChain]. *)
Definition ProcessSyncCheckpoint (d : DB) (s : chain_state) (y : sync_state) (this : CSyncCheckpoint)
    : option (bool * CSyncCheckpoint * DB * chain_state * sync_state) :=
  '(ok, this) ← CheckSignature this;
  if negb ok then Some (false, this, d, s, y)
  else
    let hash := hashCheckpoint this in
    match mapBlockIndex (ch_index s) !! hash with
    | None => Some (false, this, d, s, set_pending hash this y)
    | Some _ =>
        '(ok, y) ← ValidateSyncCheckpoint (ch_index s) y hash;
        if negb ok then Some (false, this, d, s, y)
        else
          '(ok, d, s, y) ← checkpoint_to_main d s y hash;
          if negb ok then Some (false, this, d, s, y)
          else
            '(ok, d, y) ← WriteSyncCheckpoint d y hash;
            if negb ok then Some (false, this, d, s, y)
            else Some (true, this, d, s, set_pending (bu_zero 8) checkpoint_null (set_message this y))
    end.

(** The first of the hashes that is in the main chain. *)
Fixpoint reset_loop (l : list (Z * base_uint)) (d : DB) (s : chain_state) (y : sync_state) : option (bool * DB * chain_state * sync_state) :=
  match l with
  | [] => Some (false, d, s, y)
  | (_, hash) :: l =>
      found ← match mapBlockIndex (ch_index s) !! hash with None => Some false | Some p => IsInMainChain (ch_index s) p end;
      if found : bool then '(ok, d, y) ← WriteSyncCheckpoint d y hash; Some (ok, d, s, y) else reset_loop l d s y
  end.

Definition ResetSyncCheckpoint (d : DB) (s : chain_state) (y : sync_state) : option (bool * DB * chain_state * sync_state) :=
  '(_, hash) ← last mapCheckpoints;
  '(ok, d, s, y) ←
    match mapBlockIndex (ch_index s) !! hash with
    | None => Some (true, d, s, set_pending hash checkpoint_null y)
    | Some p =>
        inMain ← IsInMainChain (ch_index s) p;
        if inMain : bool then Some (true, d, s, y)
        else
          r ← index_ReadFromDisk Hash9 bnProofOfWorkLimit files (ch_index s) p;
          match r with
          | None => Some (false, d, s, y)
          | Some block => '(ok, txdb, s) ← set_best (txdb_open d false) s block p; Some (ok, pdb txdb, s, y)
          end
    end;
  if negb ok then Some (false, d, s, y) else reset_loop (rev mapCheckpoints) d s y.
End operations.

(** ** Switching to another block keeps the tree *)

#[global] Instance same_tree_refl : Reflexive same_tree.
Proof. by intros st. Qed.

#[global] Instance same_tree_trans : Transitive same_tree.
Proof. intros x y z [J1 J2] [K1 K2]. split; [|congruence]. intros p. by rewrite K1. Qed.

Lemma same_heap_tree st st' : same_heap no_money st st' -> same_tree st st'.
Proof. intros Hs%same_heap_shape. destruct Hs as (H1 & H2 & _). by split. Qed.

Lemma set_pnext_tree st q j next : deref st q = Some j -> same_tree st (set_heap q (set_pnext next j) st).
Proof. intros Ej. destruct (set_heap_same shape q j (set_pnext next j) st Ej) as (H1 & H2 & _); [done|by split]. Qed.

Section kept.
Context `{LS : LevelDB_spec} `{BN} `{Crypto} `{EC}.
Context (Hash9 : list Z -> base_uint) (limit hashGenesis : base_uint) (files : block_files).
Context (fTestNet : bool) (nStakeMinAge nCoinbaseMaturity nTotalBlocksEstimate : Z) (GetRandHash : nat -> base_uint) (nMaxCacheSize : Z).
Context (adjusted_time now : Z).

Abbreviation Reorganize := (Reorganize Hash9 limit hashGenesis files fTestNet nStakeMinAge nCoinbaseMaturity nTotalBlocksEstimate GetRandHash
  nMaxCacheSize adjusted_time).
Abbreviation SetBestChainInner := (SetBestChainInner Hash9 limit hashGenesis files nStakeMinAge nCoinbaseMaturity nTotalBlocksEstimate GetRandHash
  nMaxCacheSize adjusted_time).
Abbreviation SetBestChain := (SetBestChain Hash9 limit hashGenesis files fTestNet nStakeMinAge nCoinbaseMaturity nTotalBlocksEstimate GetRandHash
  nMaxCacheSize adjusted_time now).

Lemma TxnBegin_txn db ok db' : TxnBegin db = Some (ok, db') -> in_txn (pdb db) db'.
Proof. unfold TxnBegin. destruct (activeBatch db); [done|]. intros [= <- <-]. by split; [|eexists]. Qed.

Lemma InvalidChainFound_tree db s p db' s' : InvalidChainFound db s p = Some (db', s') -> same_tree (ch_index s) (ch_index s').
Proof.
  intros E. unfold InvalidChainFound in E. apply bind_Some in E as (i & _ & E). apply bind_Some in E as ([db1 s1] & E1 & E).
  apply bind_Some in E as (h & _ & E). apply bind_Some in E as (best & _ & E). apply bind_Some in E as (j & _ & E). injection E as <- <-.
  destruct (bu_gt _ _); [apply bind_Some in E1 as ([ok other] & _ & E1)|]; by injection E1 as <- <-.
Qed.

Lemma SetBestChainInner_tree d db s b p ok db' s' : in_txn d db -> SetBestChainInner db s b p = Some (ok, db', s') -> same_tree (ch_index s) (ch_index s').
Proof.
  intros Hd E. unfold BestChain.SetBestChainInner in E. apply bind_Some in E as ([[[r db1] st1] c1] & E1 & E).
  destruct (ConnectBlock_txn _ _ _ _ _ _ _ _ _ _ _ _ _ _ _ _ _ _ _ _ _ _ Hd E1) as [Hd1 Hs1%same_heap_tree].
  apply bind_Some in E as ([ok2 db2] & E2 & E). destruct ok2; cbn [negb] in E.
  - apply bind_Some in E as ([ok3 db3] & E3 & E). destruct ok3; cbn [negb] in E; [|by injection E as _ _ <-].
    apply bind_Some in E as (i & Ei & E). apply bind_Some in E as (q & Eq & E). apply bind_Some in E as (j & Ej & E). injection E as _ _ <-.
    etransitivity; [exact Hs1|]. by apply set_pnext_tree.
  - apply bind_Some in E as ([db3 s3] & E3 & E). injection E as _ _ <-. apply InvalidChainFound_tree in E3. by etransitivity.
Qed.

Lemma Reorganize_tree d db s p ok db' s' : in_txn d db -> Reorganize db s p = Some (ok, db', s') -> same_tree (ch_index s) (ch_index s').
Proof.
  intros Hd E. unfold BestChain.Reorganize in E. cbv zeta in E. apply bind_Some in E as (best & _ & E).
  apply bind_Some in E as ([pfork|] & _ & E); [|by injection E as _ _ <-].
  apply bind_Some in E as (vD & _ & E). apply bind_Some in E as (vC & _ & E). apply bind_Some in E as ([[ok1 db1] txs1] & E1 & E).
  pose proof (disconnect_branch_txn _ _ _ _ _ _ _ _ _ _ _ Hd E1) as Hd1. destruct ok1; cbn [negb] in E; [|by injection E as _ _ <-].
  apply bind_Some in E as ([[[[ok2 db2] st2] c2] txs2] & E2 & E).
  destruct (connect_branch_txn _ _ _ _ _ _ _ _ _ _ _ _ _ _ _ _ _ _ _ _ _ _ Hd1 E2) as [Hd2 Hs2%same_heap_tree].
  destruct ok2; cbn [negb] in E; [|by injection E as _ _ <-].
  apply bind_Some in E as (h & _ & E). apply bind_Some in E as ([ok3 db3] & E3 & E). destruct ok3; cbn [negb] in E; [|by injection E as _ _ <-].
  apply bind_Some in E as ([ok4 db4] & E4 & E). destruct ok4; cbn [negb] in E; [|by injection E as _ _ <-].
  apply bind_Some in E as (st5 & E5 & E). apply bind_Some in E as (st6 & E6 & E). apply bind_Some in E as (s7 & E7 & E). injection E as _ _ <-.
  apply resurrect_kept in E7 as (E7 & _). cbn [remove_all set_pool ch_index]. rewrite E7. cbn [set_index ch_index].
  apply relink_shape in E5 as (J1 & J2 & _), E6 as (K1 & K2 & _). do 2 (etransitivity; [|by split]). exact Hs2.
Qed.

Lemma connect_further_tree l : forall db s db' s', connect_further Hash9 limit hashGenesis files nStakeMinAge nCoinbaseMaturity nTotalBlocksEstimate
    GetRandHash nMaxCacheSize adjusted_time l db s = Some (db', s') -> same_tree (ch_index s) (ch_index s').
Proof.
  induction l as [|p l IH]; intros db s db' s' E; cbn [connect_further] in E; [by injection E as _ <-|].
  apply bind_Some in E as ([b|] & _ & E); [|by injection E as _ <-]. apply bind_Some in E as ([ok0 db0] & E0 & E).
  destruct ok0; cbn [negb] in E; [|by injection E as _ <-]. apply bind_Some in E as ([[ok1 db1] s1] & E1 & E).
  apply TxnBegin_txn in E0. apply (SetBestChainInner_tree _ _ _ _ _ _ _ _ E0) in E1. destruct ok1; cbn [negb] in E; [|by injection E as _ <-].
  apply IH in E. by etransitivity.
Qed.

Lemma SetBestChain_tree db s b p ok db' s' : SetBestChain db s b p = Some (ok, db', s') ->
  same_tree (ch_index s) (ch_index s') /\ (ok = true -> pindexBest (ch_index s') = Some p).
Proof.
  intros E. unfold BestChain.SetBestChain in E. apply bind_Some in E as ([ok0 db0] & E0 & E). destruct ok0; cbn [negb] in E; [|by injection E as <- _ <-].
  apply TxnBegin_txn in E0. apply bind_Some in E as ([[ok1 db1] s1] & E1 & E). assert (Hs1 : same_tree (ch_index s) (ch_index s1)).
  { destruct (_ && _).
    - apply bind_Some in E1 as ([ok2 db2] & _ & E1). apply bind_Some in E1 as ([ok3 db3] & _ & E1). injection E1 as _ _ <-. by destruct ok3.
    - destruct (bu_eq _ _); [by eapply SetBestChainInner_tree|]. apply bind_Some in E1 as (best & _ & E1). apply bind_Some in E1 as (i & _ & E1).
      apply bind_Some in E1 as ([l r] & _ & E1). apply bind_Some in E1 as ([[ok3 db3] s3] & E3 & E1). apply (Reorganize_tree _ _ _ _ _ _ _ E0) in E3.
      destruct ok3; cbn [negb] in E1; apply bind_Some in E1 as ([db4 s4] & E4 & E1); injection E1 as _ _ <-; etransitivity; try exact E3;
        [by eapply connect_further_tree|by eapply InvalidChainFound_tree]. }
  destruct ok1; cbn [negb] in E; [|by injection E as <- _ <-]. apply bind_Some in E as (s2 & E2 & E). injection E as <- _ <-.
  unfold new_best in E2. apply bind_Some in E2 as (i & _ & E2). injection E2 as <-. cbn. split; [|done]. by etransitivity; [exact Hs1|].
Qed.
End kept.

Lemma same_tree_prev st st' p : same_tree st st' -> prev st' p = prev st p.
Proof.
  intros [Hs _]. specialize (Hs p). unfold prev. destruct (heap st' !! p) as [i'|], (heap st !! p) as [i|]; cbn in *; try done.
  apply (inj Some) in Hs. by destruct (shape_fields _ _ Hs) as (_ & -> & _).
Qed.

Lemma same_tree_ancestor st st' a p : same_tree st st' -> ancestor st' a p <-> ancestor st a p.
Proof.
  intros Hs. assert (Hw : forall n q, walk st' n q = walk st n q).
  { induction n as [|n IH]; intros [q|]; cbn [walk]; try done. by rewrite IH, (same_tree_prev _ _ _ Hs). }
  unfold ancestor. by setoid_rewrite Hw.
Qed.

(** ** What the checks decide *)

(** The index maps hashes of 256 bits to the blocks that have them. *)
Definition hashes_ok (st : index_state) : Prop := forall h p, mapBlockIndex st !! h = Some p -> wf 8 h /\ GetBlockHash st p = Some h.

Lemma same_tree_hashes st st' : same_tree st st' -> hashes_ok st -> hashes_ok st'.
Proof.
  intros Hs Hh h p Ep. rewrite (proj2 Hs) in Ep. destruct (Hh _ _ Ep) as [Hw E]. split; [done|]. unfold GetBlockHash, deref in *.
  destruct Hs as [Hs _]. specialize (Hs p). destruct (heap st' !! p) as [i'|], (heap st !! p) as [i|]; cbn in *; try done.
  apply (inj Some) in Hs. by destruct (shape_fields _ _ Hs) as (-> & _).
Qed.

Section checks.
Context (st : index_state) (Hwf : tree_wf st) (Hhs : hashes_ok st).

(** Comparing the hash of a block with one of the index compares blocks. *)
Lemma hash_decides p h q : is_Some (heap st !! p) -> mapBlockIndex st !! h = Some q ->
  exists x, GetBlockHash st p = Some x /\ bu_eq x h = bool_decide (p = q).
Proof.
  intros [i Ei] Hq. destruct (iw_hash _ Hwf _ _ Ei) as (x & Ex & Ep). destruct (Hhs _ _ Hq) as [Hh Eq], (Hhs _ _ Ep) as [Hx Ex']. exists x. split; [done|].
  apply eq_true_iff_eq. rewrite bool_decide_eq_true. split.
  - intros E%bu_eq_true; [|done|done]. subst. rewrite Ep in Hq. by injection Hq.
  - intros ->. rewrite Eq in Ex'. injection Ex' as ->. rewrite (bu_eq_spec 8) by done. by apply Z.eqb_eq.
Qed.

(** Tracing back to the height of an indexed block meets it exactly when it is an
    ancestor. *)
Lemma trace_back p q h : is_Some (heap st !! p) -> mapBlockIndex st !! h = Some q -> height st q <= height st p ->
  exists r x, lower (size (heap st)) st (height st q) p = Some (Some r) /\ is_Some (heap st !! r) /\ height st r = height st q /\
    GetBlockHash st r = Some x /\ (bu_eq x h = true <-> ancestor st q p).
Proof.
  intros Hp Hq Hle. assert (Hqv : valid st (Some q)) by (by eapply iw_map). destruct (prev_facts st Hwf q Hqv) as (j & Ej & H0 & _).
  destruct (lower_spec st Hwf (size (heap st)) (height st q) p Hp H0 (height_size st Hwf p Hp)) as (r & El & Ha & Hh).
  destruct (ancestor_valid st Hwf _ _ Hp Ha) as [Hr _]. destruct (hash_decides r h q Hr Hq) as (x & Ex & Eb). exists r, x. split_and!; [done|done|lia|done|].
  rewrite Eb, bool_decide_eq_true. split; [by intros ->|]. intros Hqp. pose proof (ancestor_order st Hwf _ _ _ Hp Ha Hqp ltac:(lia)) as Hrq.
  apply (ancestor_same st Hwf); [done|done|lia].
Qed.
End checks.

(** Synchronized checkpoints bind.  When the checkpoint is a block of the index,
    [CheckSync] never fails its assertion nor runs into a missing [pprev], and a block
    on top of [pindexPrev] passes exactly when it lies above the checkpoint and
    descends from it, or is the checkpoint itself, or lies below it and is already
    known. *)
Theorem check_sync_spec st y prev p hashBlock : tree_wf st -> hashes_ok st -> mapBlockIndex st !! hashSyncCheckpoint y = Some p ->
  is_Some (heap st !! prev) -> wf 8 hashBlock ->
  exists b, CheckSync false st y hashBlock prev = Some b /\
    (b = true <-> ancestor st p prev \/
       (height st prev + 1 = height st p /\ hashBlock = hashSyncCheckpoint y) \/
       (height st prev + 1 < height st p /\ is_Some (mapBlockIndex st !! hashBlock))).
Proof.
  intros Hwf Hhs Hp [i Ei] Hb. unfold CheckSync, deref. rewrite Ei. cbn [mbind option_bind]. rewrite Hp. cbn [mbind option_bind].
  destruct (iw_map _ Hwf _ _ Hp) as [j Ej]. rewrite Ej. cbn [mbind option_bind].
  rewrite (height_of st prev i Ei), (height_of st p j Ej). destruct (Hhs _ _ Hp) as [Hw _].
  assert (Heq : bu_eq hashBlock (hashSyncCheckpoint y) = true <-> hashBlock = hashSyncCheckpoint y).
  { split; [by apply bu_eq_true|intros ->]. rewrite (bu_eq_spec 8) by done. by apply Z.eqb_eq. }
  destruct (Z.ltb_spec (height st p) (height st prev + 1)) as [Hlt|Hge].
  - destruct (trace_back st Hwf Hhs prev p _ (ex_intro _ i Ei) Hp ltac:(lia)) as (r & x & -> & [k Ek] & Hh & Ex & Ebx). cbn [mbind option_bind].
    rewrite Ek. cbn [mbind option_bind]. rewrite Ex. cbn [mbind option_bind]. rewrite (height_of st r k Ek), Hh, Z.ltb_irrefl.
    eexists. split; [done|]. cbn [orb]. rewrite negb_involutive. destruct (Z.eqb_spec (height st prev + 1) (height st p)), (Z.ltb_spec (height st prev + 1) (height st p)); try lia.
    cbn [andb negb]. rewrite !andb_true_r, Ebx. split; [by left|]. intros [?|[[? _]|[? _]]]; [done|lia|lia].
  - cbn [mbind option_bind]. eexists. split; [done|]. assert (Hna : ~ ancestor st p prev).
    { intros Ha. apply (ancestor_valid st Hwf _ _ (ex_intro _ i Ei)) in Ha as [_ Ha]. lia. }
    destruct (Z.eqb_spec (height st prev + 1) (height st p)), (Z.ltb_spec (height st prev + 1) (height st p)); try lia; cbn [andb negb].
    + rewrite andb_true_r, negb_involutive, Heq. split; [intros ->; auto|]. intros [?|[[_ ?]|[? _]]]; [done|done|lia].
    + rewrite negb_involutive, bool_decide_eq_true. split; [intros ?; auto|]. intros [?|[[? _]|[_ ?]]]; [done|lia|done].
Qed.

(** [ValidateSyncCheckpoint] accepts exactly the descendants, and notes a
    checkpoint on another branch. *)
Lemma ValidateSync_spec st y p h q : tree_wf st -> hashes_ok st -> mapBlockIndex st !! hashSyncCheckpoint y = Some p -> mapBlockIndex st !! h = Some q ->
  exists b y', ValidateSyncCheckpoint st y h = Some (b, y') /\ (b = true <-> p <> q /\ ancestor st p q) /\
    (ancestor st p q \/ ancestor st q p -> y' = y) /\ (~ ancestor st p q -> ~ ancestor st q p -> y' = set_conflict h y).
Proof.
  intros Hwf Hhs Hp Hq. unfold ValidateSyncCheckpoint. rewrite Hp, Hq. destruct (iw_map _ Hwf _ _ Hp) as [i Ei], (iw_map _ Hwf _ _ Hq) as [j Ej].
  unfold deref. rewrite Ei, Ej. cbn [mbind option_bind]. rewrite (height_of st p i Ei), (height_of st q j Ej).
  destruct (Z.leb_spec (height st q) (height st p)) as [Hle|Hlt].
  - destruct (trace_back st Hwf Hhs p q h (ex_intro _ i Ei) Hq Hle) as (r & x & -> & _ & _ & Ex & Eb). cbn [mbind option_bind]. rewrite Ex. cbn [mbind option_bind].
    assert (Hpq : ancestor st p q -> p = q) by (intros Ha; by apply (ancestor_same st Hwf _ _ (ex_intro _ j Ej) Ha)).
    assert (Hqp : ancestor st p q \/ ancestor st q p <-> bu_eq x h = true).
    { rewrite Eb. split; [|by right]. intros [Ha|?]; [|done]. rewrite (Hpq Ha). apply ancestor_refl. }
    do 2 eexists. split; [done|]. split; [naive_solver|]. split; [by intros ->%Hqp|]. intros H1 H2. destruct (bu_eq x h); [|done]. by destruct (proj2 Hqp eq_refl).
  - destruct (trace_back st Hwf Hhs q p _ (ex_intro _ j Ej) Hp ltac:(lia)) as (r & x & -> & _ & _ & Ex & Eb). cbn [mbind option_bind]. rewrite Ex. cbn [mbind option_bind].
    assert (Hqp : ~ ancestor st q p) by (intros Ha; apply (ancestor_valid st Hwf _ _ (ex_intro _ i Ei)) in Ha as [_ Ha]; lia).
    assert (Hne : p <> q) by (intros ->; lia). destruct (bu_eq x (hashSyncCheckpoint y)); do 2 eexists; (split; [done|]); naive_solver.
Qed.

(** ** How the checkpoint moves *)

(** Blocks are added, none is lost or changed but for amounts and [pnext]. *)
Definition grows (st st' : index_state) : Prop :=
  (forall p i, heap st !! p = Some i -> exists i', heap st' !! p = Some i' /\ shape i' = shape i) /\
  (forall h p, mapBlockIndex st !! h = Some p -> mapBlockIndex st' !! h = Some p).

Lemma same_tree_grows st st' : same_tree st st' -> grows st st'.
Proof.
  intros Hs. split; [|intros h p; by rewrite (proj2 Hs)]. intros p i Ei. destruct (same_tree_forth _ _ p Hs) as [i' Ei']; [by eexists|].
  exists i'. split; [done|]. destruct (same_tree_back _ _ _ _ Hs Ei') as (i0 & Ei0 & Hi). rewrite Ei in Ei0. by injection Ei0 as <-.
Qed.

Lemma grows_ancestor st st' a p : grows st st' -> is_Some (heap st !! a) -> ancestor st a p -> ancestor st' a p.
Proof.
  intros [Hg _] Ha [n Hn]. exists n. revert p Hn. induction n as [|n IH]; intros p Hn; cbn [walk] in *; [done|]. unfold prev in *.
  destruct (heap st !! p) as [i|] eqn:Ei; cbn [mbind option_bind] in Hn; [|by rewrite walk_None in Hn]. destruct (Hg _ _ Ei) as (i' & -> & Hi).
  cbn [mbind option_bind]. destruct (shape_fields _ _ Hi) as (_ & -> & _). destruct (pprev i) as [q|]; [by apply IH|by rewrite walk_None in Hn].
Qed.

Section advance.
Context `{LS : LevelDB_spec} `{BN} `{Crypto} `{EC}.
Context (Hash9 : list Z -> base_uint) (limit hashGenesis : base_uint).
Context (fTestNet : bool) (nStakeMinAge nCoinbaseMaturity nTotalBlocksEstimate : Z) (GetRandHash : nat -> base_uint) (nMaxCacheSize : Z).

Abbreviation process files t now := (ProcessSyncCheckpoint Hash9 limit hashGenesis files fTestNet nStakeMinAge nCoinbaseMaturity nTotalBlocksEstimate
  GetRandHash nMaxCacheSize t now).
Abbreviation pending files t now := (AcceptPendingSyncCheckpoint Hash9 limit hashGenesis files fTestNet nStakeMinAge nCoinbaseMaturity nTotalBlocksEstimate
  GetRandHash nMaxCacheSize t now).

(** The owner of the master key signed a message that names the hash. *)
Definition signed (h : base_uint) : Prop := exists c c', CheckSignature c = Some (true, c') /\ hashCheckpoint c' = h.

(** What is pending was signed. *)
Definition authentic (y : sync_state) : Prop := bu_eq64 (hashPendingCheckpoint y) 0 = true \/ signed (hashPendingCheckpoint y).

Definition sync_key : list Z := Serialize ser_string SER_DISK CLIENT_VERSION key_hashSyncCheckpoint.

Lemma WriteSync_spec d y h ok d' y' : WriteSyncCheckpoint d y h = Some (ok, d', y') ->
  y' = (if ok then set_sync h y else y) /\ (ok = true -> db_map d' !! sync_key = Some (Serialize ser_uint256 SER_DISK CLIENT_VERSION h)).
Proof.
  unfold WriteSyncCheckpoint, TxnBegin, txdb_open. cbn [activeBatch mbind option_bind pdb fReadOnly]. unfold txdb_WriteSyncCheckpoint, Write.
  cbn [activeBatch mbind option_bind pdb fReadOnly negb app]. unfold TxnCommit. cbn [activeBatch pdb fReadOnly].
  match goal with |- context [db_Write d ?b] => pose proof (db_Write_spec d b) as Hw; destruct (db_Write d b) as [st d1] end. unfold effect in Hw. cbn in Hw.
  intros [= <- <- <-]. split; [done|]. destruct st; [|done..]. intros _. rewrite Hw. apply lookup_insert_eq.
Qed.

(** The checkpoint of [y'] is [p], a strict descendant of the old one, in the main
    chain and on record. *)
Definition moved (s : chain_state) (y : sync_state) (h : base_uint) (d' : DB) (s' : chain_state) (y' : sync_state) : Prop :=
  hashSyncCheckpoint y' = h /\ db_map d' !! sync_key = Some (Serialize ser_uint256 SER_DISK CLIENT_VERSION h) /\
  exists p q, mapBlockIndex (ch_index s) !! hashSyncCheckpoint y = Some p /\ mapBlockIndex (ch_index s) !! h = Some q /\ p <> q /\
    ancestor (ch_index s) p q /\ main (ch_index s') q.

Section step.
Context (files : block_files) (t now : Z) (d : DB) (s : chain_state) (y : sync_state) (p : ptr).
Context (Hwf : tree_wf (ch_index s)) (Hhs : hashes_ok (ch_index s)) (Hp : mapBlockIndex (ch_index s) !! hashSyncCheckpoint y = Some p).

(** Whatever they answer, the operations keep the tree. *)
Lemma to_main_tree h ok d' s' y' y0 : checkpoint_to_main Hash9 limit hashGenesis files fTestNet nStakeMinAge nCoinbaseMaturity nTotalBlocksEstimate
    GetRandHash nMaxCacheSize t now d s y0 h = Some (ok, d', s', y') -> same_tree (ch_index s) (ch_index s').
Proof using LS.
  unfold checkpoint_to_main. intros E. apply bind_Some in E as (q & Eq & E). apply bind_Some in E as (m & Em & E). destruct m; [by injection E as <- <- <- <-|].
  apply bind_Some in E as ([b|] & _ & E); [|by injection E as <- <- <- <-]. apply bind_Some in E as ([[ok1 db1] s1] & E1 & E). injection E as _ _ <- _.
  by apply SetBestChain_tree in E1 as [? _].
Qed.

Lemma pending_tree ok d' s' y' : pending files t now d s y = Some (ok, d', s', y') -> same_tree (ch_index s) (ch_index s').
Proof using LS.
  intros E. unfold AcceptPendingSyncCheckpoint in E. destruct (_ && _); [|by injection E as <- <- <- <-].
  apply bind_Some in E as ([ok1 y1] & E1 & E). destruct ok1; cbn [negb] in E; [|by injection E as <- <- <- <-].
  apply bind_Some in E as ([[[ok2 d2] s2] y2] & E2%to_main_tree & E). destruct ok2; cbn [negb] in E; [|by injection E as <- <- <- <-].
  apply bind_Some in E as ([[ok3 d3] y3] & _ & E). by destruct ok3; injection E as <- <- <- <-.
Qed.

Lemma process_tree this ok this' d' s' y' : process files t now d s y this = Some (ok, this', d', s', y') -> same_tree (ch_index s) (ch_index s').
Proof using LS.
  intros E. unfold ProcessSyncCheckpoint in E. apply bind_Some in E as ([ok0 c] & E0 & E). destruct ok0; cbn [negb] in E; [|by injection E as <- <- <- <- <-].
  destruct (mapBlockIndex (ch_index s) !! hashCheckpoint c) as [q|]; [|by injection E as <- <- <- <- <-].
  apply bind_Some in E as ([ok1 y1] & E1 & E). destruct ok1; cbn [negb] in E; [|by injection E as <- <- <- <- <-].
  apply bind_Some in E as ([[[ok2 d2] s2] y2] & E2%to_main_tree & E). destruct ok2; cbn [negb] in E; [|by injection E as <- <- <- <- <-].
  apply bind_Some in E as ([[ok3 d3] y3] & _ & E). by destruct ok3; injection E as <- <- <- <- <-.
Qed.

Lemma to_main_spec h ok d' s' y' : checkpoint_to_main Hash9 limit hashGenesis files fTestNet nStakeMinAge nCoinbaseMaturity nTotalBlocksEstimate
    GetRandHash nMaxCacheSize t now d s y h = Some (ok, d', s', y') ->
  same_tree (ch_index s) (ch_index s') /\ (y' = y \/ ok = false /\ y' = set_conflict h y) /\
  (ok = true -> exists q, mapBlockIndex (ch_index s) !! h = Some q /\ main (ch_index s') q).
Proof.
  unfold checkpoint_to_main. intros E. apply bind_Some in E as (q & Eq & E). apply bind_Some in E as (m & Em & E).
  destruct m; [injection E as <- <- <- <-; split_and!; [done|by left|]; by exists q|].
  apply bind_Some in E as ([b|] & _ & E); [|injection E as <- <- <- <-; split_and!; [done|by left|done]].
  apply bind_Some in E as ([[ok1 db1] s1] & E1 & E). injection E as <- <- <- <-. apply SetBestChain_tree in E1 as [Ht Hb]. split_and!; [done| |].
  - destruct ok1; [by left|by right].
  - intros ->. exists q. split; [done|]. unfold main, IsInMainChain, deref. destruct (iw_map _ Hwf _ _ Eq) as [i Ei].
    destruct (same_tree_forth _ _ q Ht) as [j Ej]; [by exists i|]. rewrite Ej. cbn. destruct (pnext j); [done|]. rewrite Hb by done. by rewrite bool_decide_eq_true_2.
Qed.

Lemma Validate_keeps st h ok y' : ValidateSyncCheckpoint st y h = Some (ok, y') ->
  hashSyncCheckpoint y' = hashSyncCheckpoint y /\ hashPendingCheckpoint y' = hashPendingCheckpoint y.
Proof.
  unfold ValidateSyncCheckpoint. destruct (mapBlockIndex st !! hashSyncCheckpoint y), (mapBlockIndex st !! h); try (by intros [= <- <-]).
  intros E. apply bind_Some in E as (i & _ & E). apply bind_Some in E as (j & _ & E).
  destruct (_ <=? _); apply bind_Some in E as ([r|] & _ & E); try (by injection E as <- <-); apply bind_Some in E as (x & _ & E); destruct (bu_eq _ _);
    by injection E as <- <-.
Qed.

(** Validating, switching and recording. *)
Lemma shared_step h ok1 y1 : ValidateSyncCheckpoint (ch_index s) y h = Some (ok1, y1) -> ok1 = true -> forall ok2 d2 s2 y2,
  checkpoint_to_main Hash9 limit hashGenesis files fTestNet nStakeMinAge nCoinbaseMaturity nTotalBlocksEstimate
    GetRandHash nMaxCacheSize t now d s y1 h = Some (ok2, d2, s2, y2) ->
  same_tree (ch_index s) (ch_index s2) /\ hashSyncCheckpoint y2 = hashSyncCheckpoint y /\ hashPendingCheckpoint y2 = hashPendingCheckpoint y /\
  (ok2 = true -> y2 = y) /\ forall ok3 d3 y3, WriteSyncCheckpoint d2 y2 h = Some (ok3, d3, y3) -> ok2 = true ->
    if ok3 then y3 = set_sync h y /\ moved s y h d3 s2 (set_sync h y) else y3 = y.
Proof.
  intros E1 -> ok2 d2 s2 y2 E2. assert (exists q, mapBlockIndex (ch_index s) !! h = Some q) as [q Hq].
  { unfold checkpoint_to_main in E2. apply bind_Some in E2 as (q & Eq & _). by exists q. }
  destruct (ValidateSync_spec _ _ _ _ _ Hwf Hhs Hp Hq) as (b & y1' & E1' & Hb & Hy & _). rewrite E1 in E1'. injection E1' as <- <-.
  destruct (proj1 Hb eq_refl) as [Hne Ha]. rewrite (Hy (or_introl Ha)) in E2. pose proof (to_main_spec _ _ _ _ _ E2) as (Ht & Hy2 & Hm).
  split; [done|]. split; [by destruct Hy2 as [->|[_ ->]]|]. split; [by destruct Hy2 as [->|[_ ->]]|]. split; [by destruct Hy2 as [->|[-> _]]|].
  intros ok3 d3 y3 E3 ->. destruct Hy2 as [->|[? _]]; [|done]. apply WriteSync_spec in E3 as [-> Hrec]. destruct ok3; [|done]. split; [done|].
  destruct (Hm eq_refl) as (q' & Hq' & Hmain). rewrite Hq in Hq'. injection Hq' as <-. split_and!; [done|by apply Hrec|]. by exists p, q.
Qed.

Lemma moved_pending h d' s' y' h' c c' : moved s y h d' s' y' -> moved s y h d' s' (set_pending h' c (set_message c' y')).
Proof. done. Qed.

Lemma process_step this ok this' d' s' y' : process files t now d s y this = Some (ok, this', d', s', y') ->
  same_tree (ch_index s) (ch_index s') /\ (authentic y -> authentic y') /\
  if ok then CheckSignature this = Some (true, this') /\ moved s y (hashCheckpoint this') d' s' y' else hashSyncCheckpoint y' = hashSyncCheckpoint y.
Proof.
  intros E. unfold ProcessSyncCheckpoint in E. apply bind_Some in E as ([ok0 c] & E0 & E). destruct ok0; cbn [negb] in E; [|by injection E as <- <- <- <- <-].
  destruct (mapBlockIndex (ch_index s) !! hashCheckpoint c) as [q|] eqn:Eq.
  2: { injection E as <- <- <- <- <-. split_and!; [done|intros _; right; by exists this, c|done]. }
  apply bind_Some in E as ([ok1 y1] & E1 & E). destruct ok1; cbn [negb] in E.
  2: { injection E as <- <- <- <- <-. apply Validate_keeps in E1 as [-> Hpe]. unfold authentic. by rewrite Hpe. }
  apply bind_Some in E as ([[[ok2 d2] s2] y2] & E2 & E). destruct (shared_step _ _ _ E1 eq_refl _ _ _ _ E2) as (Ht & Hsy & Hpe & Hy2 & Hw).
  destruct ok2; cbn [negb] in E; [|injection E as <- <- <- <- <-; unfold authentic; by rewrite Hpe].
  apply bind_Some in E as ([[ok3 d3] y3] & E3 & E). specialize (Hw _ _ _ E3 eq_refl). destruct ok3; cbn [negb] in E.
  - injection E as <- <- <- <- <-. destruct Hw as [-> Hm]. split_and!; [done|by left|done|by apply moved_pending].
  - injection E as <- <- <- <- <-. by rewrite Hw.
Qed.

Lemma pending_step ok d' s' y' : pending files t now d s y = Some (ok, d', s', y') ->
  same_tree (ch_index s) (ch_index s') /\ (authentic y -> authentic y') /\
  if ok then bu_eq64 (hashPendingCheckpoint y) 0 = false /\ moved s y (hashPendingCheckpoint y) d' s' y' else hashSyncCheckpoint y' = hashSyncCheckpoint y.
Proof.
  intros E. unfold AcceptPendingSyncCheckpoint in E. destruct (bu_eq64 (hashPendingCheckpoint y) 0) eqn:E0; cbn [negb andb] in E; [by injection E as <- <- <- <-|].
  destruct (bool_decide _); [|by injection E as <- <- <- <-]. apply bind_Some in E as ([ok1 y1] & E1 & E). destruct ok1; cbn [negb] in E.
  2: { injection E as <- <- <- <-. apply Validate_keeps in E1 as [Hsy Hpe]. split_and!; [done|by left|done]. }
  apply bind_Some in E as ([[[ok2 d2] s2] y2] & E2 & E). destruct (shared_step _ _ _ E1 eq_refl _ _ _ _ E2) as (Ht & Hsy & Hpe & Hy2 & Hw).
  destruct ok2; cbn [negb] in E; [|injection E as <- <- <- <-; unfold authentic; by rewrite Hpe].
  apply bind_Some in E as ([[ok3 d3] y3] & E3 & E). specialize (Hw _ _ _ E3 eq_refl). destruct ok3; cbn [negb] in E.
  - injection E as <- <- <- <-. destruct Hw as [-> Hm]. split_and!; [done|by left|done|by apply moved_pending].
  - injection E as <- <- <- <-. by rewrite Hw.
Qed.
End step.

(** What may happen between two states: a message is received, the pending
    checkpoint is tried, or blocks are added and connected. *)
Inductive sync_step : DB * chain_state * sync_state -> DB * chain_state * sync_state -> Prop :=
  | step_receive files t now d s y this ok this' d' s' y' : process files t now d s y this = Some (ok, this', d', s', y') -> sync_step (d, s, y) (d', s', y')
  | step_pending files t now d s y ok d' s' y' : pending files t now d s y = Some (ok, d', s', y') -> sync_step (d, s, y) (d', s', y')
  | step_blocks d s y d' s' : grows (ch_index s) (ch_index s') -> tree_wf (ch_index s') -> hashes_ok (ch_index s') -> sync_step (d, s, y) (d', s', y).

(** The state of a run that started with the checkpoint [h0] at [p]. *)
Definition on_track (h0 : base_uint) (p : ptr) (x : DB * chain_state * sync_state) : Prop :=
  let '(_, s, y) := x in tree_wf (ch_index s) /\ hashes_ok (ch_index s) /\ authentic y /\ is_Some (heap (ch_index s) !! p) /\
  exists q, mapBlockIndex (ch_index s) !! hashSyncCheckpoint y = Some q /\ ancestor (ch_index s) p q /\
    (hashSyncCheckpoint y = h0 \/ signed (hashSyncCheckpoint y)).

Lemma on_track_tree h0 p d s y d' s' y' : on_track h0 p (d, s, y) -> same_tree (ch_index s) (ch_index s') -> authentic y' ->
  hashSyncCheckpoint y' = hashSyncCheckpoint y \/ (exists h, moved s y h d' s' y' /\ signed h) -> on_track h0 p (d', s', y').
Proof.
  intros (Hwf & Hhs & _ & Hp & q & Hq & Ha & Hh) Ht Hau Hc. split_and!; [by eapply tree_wf_shape|by eapply same_tree_hashes|done|by eapply same_tree_forth|].
  destruct Hc as [->|(h & (-> & _ & p' & q' & Hp' & Hq' & _ & Hpq & _) & Hsig)].
  - exists q. rewrite (proj2 Ht), (same_tree_ancestor _ _ _ _ Ht). done.
  - rewrite Hq in Hp'. injection Hp' as <-. exists q'. rewrite (proj2 Ht), (same_tree_ancestor _ _ _ _ Ht). split_and!; [done| |by right]. by eapply ancestor_trans.
Qed.

Lemma step_on_track h0 p x x' : sync_step x x' -> on_track h0 p x -> on_track h0 p x'.
Proof.
  intros Hstep Hx. destruct Hstep as [files t now d s y this ok this' d' s' y' E|files t now d s y ok d' s' y' E|d s y d' s' Hg Hwf' Hhs'];
    pose proof Hx as (Hwf & Hhs & Hau & Hp & q & Hq & Ha & Hh).
  - destruct (process_step _ _ _ _ _ _ _ Hwf Hhs Hq _ _ _ _ _ _ E) as (Ht & Hau' & Hok). apply (on_track_tree h0 p d s y); [done|done|by apply Hau'|].
    destruct ok; [right|by left]. destruct Hok as [Hsig Hm]. eexists. split; [exact Hm|]. by eexists _, _.
  - destruct (pending_step _ _ _ _ _ _ _ Hwf Hhs Hq _ _ _ _ E) as (Ht & Hau' & Hok). apply (on_track_tree h0 p d s y); [done|done|by apply Hau'|].
    destruct ok; [right|by left]. destruct Hok as [Hne Hm]. eexists. split; [exact Hm|]. destruct Hau as [Hz|?]; [congruence|done].
  - split_and!; [done|done|done| |].
    + destruct Hp as [i Ei]. destruct (proj1 Hg _ _ Ei) as (i' & ? & _). by eexists.
    + exists q. split_and!; [by apply (proj2 Hg)|by eapply grows_ancestor|done].
Qed.

(** A step leaves the checkpoint alone, or moves it to a signed one. *)
Lemma step_moves h0 p d s y d' s' y' : on_track h0 p (d, s, y) -> sync_step (d, s, y) (d', s', y') ->
  hashSyncCheckpoint y' = hashSyncCheckpoint y \/ signed (hashSyncCheckpoint y') /\ moved s y (hashSyncCheckpoint y') d' s' y'.
Proof.
  intros (Hwf & Hhs & Hau & _ & q & Hq & _) Hst. inversion Hst as [files t now ? ? ? this ok this' ? ? ? E|files t now ? ? ? ok ? ? ? E|]; subst; [| |by left].
  - destruct (process_step _ _ _ _ _ _ _ Hwf Hhs Hq _ _ _ _ _ _ E) as (_ & _ & Hok). destruct ok; [right|by left]. destruct Hok as [Hsig Hm].
    pose proof (proj1 Hm) as ->. split; [by exists this, this'|done].
  - destruct (pending_step _ _ _ _ _ _ _ Hwf Hhs Hq _ _ _ _ E) as (_ & _ & Hok). destruct ok; [right|by left]. destruct Hok as [Hne Hm].
    pose proof (proj1 Hm) as ->. split; [by destruct Hau as [Hz|?]; [congruence|]|done].
Qed.

End advance.

(** ** Witnesses: two blocks in the main chain *)

Section example.
#[local] Existing Instance BN_Z.
#[local] Existing Instance Crypto_toy.
#[local] Existing Instance EC_toy.
#[local] Existing Instance LevelDB_map.
#[local] Existing Instance LevelDB_map_spec.

Definition cp_hash (n : Z) : base_uint := bu_of_uint64 8 n.

Definition cp_entry (h : Z) (prev next : option ptr) (height : Z) : CBlockIndex :=
  mkIndex (Some (cp_hash h)) prev next 0 0 (bu_zero 8) height 0 0 0 0 0 out_null 0 (bu_zero 8) 6 (bu_zero 8) (100 + height) 0x1e0fffff 0.

Definition cp_index : index_state :=
  mkIndexState (<[0 := cp_entry 5 None (Some 1) 0]> (<[1 := cp_entry 6 (Some 0) None 1]> ∅))
    (<[cp_hash 5 := 0]> (<[cp_hash 6 := 1]> ∅)) (Some 1) (Some 0).

Ltac cp_cases E := unfold cp_index in E; cbn [heap mapBlockIndex] in E;
  repeat (apply lookup_insert_Some in E as [[<- <-]|[_ E]]); try (by rewrite lookup_empty in E).

Lemma cp_index_wf : tree_wf cp_index.
Proof.
  split.
  - intros p i E. cp_cases E; eexists; (split; [reflexivity|reflexivity]).
  - intros p i E. cp_cases E; [reflexivity|eexists; split; reflexivity].
  - intros p i E. cp_cases E; cbn; lia.
  - intros h p E. cp_cases E; eexists; reflexivity.
Qed.

Lemma cp_hashes_ok : hashes_ok cp_index.
Proof.
  intros h p E. cp_cases E; (split; [|reflexivity]); apply wf_of_uint64; lia.
Qed.

Definition cp_state : chain_state := mkChain cp_index (cp_hash 6) 1 (bu_zero 8) (bu_zero 8) 0 None (mkPool ∅ ∅ 0) (mkSigCache [] 0).
Definition cp_sync : sync_state := mkSync (cp_hash 5) (bu_zero 8) checkpoint_null checkpoint_null (bu_zero 8).

(** A message for the second block with the signature of the example curve. *)
Definition cp_message : CSyncCheckpoint :=
  mkCheckpoint 1 (bu_zero 8) (Serialize ser_unsigned_checkpoint SER_NETWORK PROTOCOL_VERSION (1, cp_hash 6)) (48 :: to_digits 256 32 (of_digits 256 (drop 1 master_key))).

Definition cp_db : DB := (∅ : gmap (list Z) (list Z)).

Abbreviation cp_run := (ProcessSyncCheckpoint (fun _ => cp_hash 6) (bu_zero 8) (cp_hash 5) ∅ false 3600 40 0 (fun _ => bu_zero 8) 10 0 0
  cp_db cp_state cp_sync cp_message).

Lemma cp_found : mapBlockIndex (ch_index cp_state) !! hashSyncCheckpoint cp_sync = Some 0.
Proof. vm_compute. reflexivity. Qed.

Lemma cp_accepted : exists this d s y, cp_run = Some (true, this, d, s, y).
Proof.
  assert (E : match cp_run with Some (true, _, _, _, _) => true | _ => false end = true) by (vm_compute; reflexivity).
  destruct cp_run as [[[[[[] this] d] s] y]|]; [|discriminate E..]. by exists this, d, s, y.
Qed.


Lemma check_sync_spec_witness : CheckSync false cp_index cp_sync (cp_hash 7) 1 = Some true.
Proof.
  destruct (check_sync_spec cp_index cp_sync 1 0 (cp_hash 7) cp_index_wf cp_hashes_ok cp_found) as (b & E & Hb); [eexists; reflexivity|apply wf_of_uint64; lia|].
  rewrite E. f_equal. apply Hb. left. by exists 1%nat.
Defined.
End example.
