(* ===== verification/Process.v ===== *)
(** * main.cpp: accepting blocks

    [ProcessBlock] receives a block.  A block whose parent is unknown waits among
    the orphans; any other goes through [AcceptBlock], which checks it against its
    place in the chain, writes it to the block files and calls [AddToBlockIndex],
    which makes an entry of the block index and, when the chain that ends in it has
    the most trust, [SetBestChain].  Then the orphans that waited for it are tried.

    The globals are the fields of [node_state].  Orphan blocks are heap objects to
    which two maps point, so that a dangling pointer, a double deletion or a leak
    would show.  Messages to peers and their penalties are left out; of the test of the
    free disk space the answer is a parameter, and the node does not hold the private
    key of the checkpoints, with which it would send one after each block. *)
From Stdlib Require Import ZArith Lia Bool.
From stdpp Require Import prelude gmap fin_maps infinite.
From S2P Require Import Prelude Uint256 DataStream Serialize Crypto Bignum Script Tx Block Index TxDB Target.
From S2P Require Import Keys KeyStore Pool SigHash Interp Standard Connect Chain Accept BestChain Reorg Kernel Checkpoints.

Section process.
Context `{LevelDB} `{BN} `{Crypto} `{EC}.

Record node_state : Type := mkNode {
  nd_db : DB;
  nd_files : block_files;
  nCurrentBlockFile : Z;
  nd_chain : chain_state;
  nd_sync : sync_state;
  mapProofOfStake : gmap base_uint base_uint;
  setStakeSeen : gset (COutPoint * Z);
  orphan_blocks : gmap ptr CBlock;
  mapOrphanBlocks : gmap base_uint ptr;
  mapOrphanBlocksByPrev : list (base_uint * ptr);
  setStakeSeenOrphan : gset (COutPoint * Z)
}.

Definition set_chain (d : DB) (s : chain_state) (n : node_state) : node_state :=
  mkNode d (nd_files n) (nCurrentBlockFile n) s (nd_sync n) (mapProofOfStake n) (setStakeSeen n) (orphan_blocks n) (mapOrphanBlocks n)
    (mapOrphanBlocksByPrev n) (setStakeSeenOrphan n).
Definition set_checkpoint (d : DB) (s : chain_state) (y : sync_state) (n : node_state) : node_state :=
  mkNode d (nd_files n) (nCurrentBlockFile n) s y (mapProofOfStake n) (setStakeSeen n) (orphan_blocks n) (mapOrphanBlocks n)
    (mapOrphanBlocksByPrev n) (setStakeSeenOrphan n).
Definition set_files (f : block_files) (cur : Z) (n : node_state) : node_state :=
  mkNode (nd_db n) f cur (nd_chain n) (nd_sync n) (mapProofOfStake n) (setStakeSeen n) (orphan_blocks n) (mapOrphanBlocks n)
    (mapOrphanBlocksByPrev n) (setStakeSeenOrphan n).
Definition set_seen (seen : gset (COutPoint * Z)) (n : node_state) : node_state :=
  mkNode (nd_db n) (nd_files n) (nCurrentBlockFile n) (nd_chain n) (nd_sync n) (mapProofOfStake n) seen (orphan_blocks n) (mapOrphanBlocks n)
    (mapOrphanBlocksByPrev n) (setStakeSeenOrphan n).
Definition set_proofs (m : gmap base_uint base_uint) (n : node_state) : node_state :=
  mkNode (nd_db n) (nd_files n) (nCurrentBlockFile n) (nd_chain n) (nd_sync n) m (setStakeSeen n) (orphan_blocks n) (mapOrphanBlocks n)
    (mapOrphanBlocksByPrev n) (setStakeSeenOrphan n).
Definition set_orphans (h : gmap ptr CBlock) (m : gmap base_uint ptr) (l : list (base_uint * ptr)) (seen : gset (COutPoint * Z)) (n : node_state) : node_state :=
  mkNode (nd_db n) (nd_files n) (nCurrentBlockFile n) (nd_chain n) (nd_sync n) (mapProofOfStake n) (setStakeSeen n) h m l seen.

(** [mapOrphanBlocks] with the blocks it points to. *)
Definition orphan_view (n : node_state) : gmap base_uint CBlock := omap (fun p => orphan_blocks n !! p) (mapOrphanBlocks n).

Context (Hash9 : list Z -> base_uint) (bnProofOfWorkLimit bnProofOfStakeLimit hashGenesis : base_uint) (pchMessageStart : list Z).
Context (fTestNet : bool) (testnetNumber nModifierInterval nStakeMinAge nStakeMaxAge nCoinbaseMaturity : Z) (fNoSyncCheckpoints : bool).
Context (GetRandHash : nat -> base_uint) (nMaxCacheSize : Z).
(** [GetAdjustedTime()], [GetTime()], and the answer of [CheckDiskSpace] *)
Context (adjusted_time now : Z) (CheckDiskSpace : Z -> bool).

Abbreviation nEstimate := (GetTotalBlocksEstimate fTestNet testnetNumber).

(** ** [WriteToDisk] *)

(** The loop of [AppendBlockFile]: the first file from [cur] on with room left;
    [None] inside: the number is not one of a file. *)
Fixpoint append_file (fuel : nat) (files : block_files) (cur : Z) : option (option Z) :=
  if (cur <? 1) || (cur =? UINT_MAX) then Some None
  else if len (default [] (files !! cur)) <? 0x7F000000 - MAX_SIZE then Some (Some cur)
  else match fuel with O => None | S fuel => append_file fuel files (u32 (cur + 1)) end.

Definition block_record (block : CBlock) : list Z :=
  pchMessageStart ++ Serialize (ser_uint 4) SER_DISK CLIENT_VERSION (u32 (GetSerializeSize (ser_block block_null) SER_DISK CLIENT_VERSION block)).

(** The file, the position and the files afterwards. *)
Definition WriteToDisk (files : block_files) (cur : Z) (block : CBlock) : option (option (Z * Z * block_files)) :=
  r ← append_file (size files) files cur;
  match r with
  | None => Some None
  | Some nFile =>
      let bytes := default [] (files !! nFile) ++ block_record block in
      Some (Some (nFile, len bytes, <[nFile := bytes ++ Serialize (ser_block block_null) SER_DISK CLIENT_VERSION block]> files))
  end.

(** ** [AddToBlockIndex] *)

(** The new entry: place in the tree, chain trust, entropy bit, proof, modifier
    and checksum.  The inner [None] is the answer false. *)
Definition index_entry (n : node_state) (block : CBlock) (nFile nBlockPos : Z) : option (option CBlockIndex) :=
  let st := ch_index (nd_chain n) in
  let hash := block_GetHash Hash9 block in
  i0 ← index_new nFile nBlockPos block;
  let prev := mapBlockIndex st !! hashPrevBlock block in
  '(height, base) ← match prev with None => Some (0, bu_zero 8) | Some q => j ← deref st q; Some (nHeight j + 1, bnChainTrust j) end;
  trust ← GetBlockTrust bnProofOfWorkLimit i0;
  let i := mkIndex (Some hash) prev None (i_nFile i0) (i_nBlockPos i0) (bu_add base trust) height 0 0 (nFlags i0) 0 0 (prevoutStake i0) (nStakeTime i0)
             (bu_zero 8) (i_nVersion i0) (i_hashMerkleRoot i0) (i_nTime i0) (i_nBits i0) (i_nNonce i0) in
  let '(ok, i) := SetStakeEntropyBit (GetStakeEntropyBit Hash9 block) i in
  if negb ok then Some None
  else
    match (if index_IsProofOfStake i then mapProofOfStake n !! hash else Some (bu_zero 8)) with
    | None => Some None
    | Some proof =>
        let i := mkIndex (phashBlock i) (pprev i) (pnext i) (i_nFile i) (i_nBlockPos i) (bnChainTrust i) (nHeight i) (nMint i) (nMoneySupply i) (nFlags i)
                   (nStakeModifier i) (nStakeModifierChecksum i) (prevoutStake i) (nStakeTime i) proof (i_nVersion i) (i_hashMerkleRoot i) (i_nTime i)
                   (i_nBits i) (i_nNonce i) in
        m ← ComputeNextStakeModifier nModifierInterval st prev;
        match m with
        | None => Some None
        | Some (modifier, fGenerated) =>
            let i := SetStakeModifier modifier fGenerated i in
            checksum ← GetStakeModifierChecksum st hashGenesis i hash;
            let i := mkIndex (phashBlock i) (pprev i) (pnext i) (i_nFile i) (i_nBlockPos i) (bnChainTrust i) (nHeight i) (nMint i) (nMoneySupply i)
                       (nFlags i) (nStakeModifier i) checksum (prevoutStake i) (nStakeTime i) (hashProofOfStake i) (i_nVersion i) (i_hashMerkleRoot i)
                       (i_nTime i) (i_nBits i) (i_nNonce i) in
            Some (if CheckStakeModifierCheckpoints fTestNet (nHeight i) checksum then Some i else None)
        end
    end.

(** The state with the entry at a fresh address. *)
Definition insert_entry (p : ptr) (i : CBlockIndex) (hash : base_uint) (n : node_state) : node_state :=
  let s := nd_chain n in
  let st := ch_index s in
  let n := set_chain (nd_db n) (set_index (mkIndexState (<[p := i]> (heap st)) (<[hash := p]> (mapBlockIndex st)) (pindexBest st) (pindexGenesisBlock st)) s) n in
  if index_IsProofOfStake i then set_seen ({[(prevoutStake i, nStakeTime i)]} ∪ setStakeSeen n) n else n.

Definition AddToBlockIndex (n : node_state) (block : CBlock) (nFile nBlockPos : Z) : option (bool * node_state) :=
  let hash := block_GetHash Hash9 block in
  if bool_decide (is_Some (mapBlockIndex (ch_index (nd_chain n)) !! hash)) then Some (false, n)
  else
    entry ← index_entry n block nFile nBlockPos;
    match entry with
    | None => Some (false, n)
    | Some i =>
        let p := fresh (dom (heap (ch_index (nd_chain n)))) in
        let n := insert_entry p i hash n in
        '(_, txdb) ← TxnBegin (txdb_open (nd_db n) false);
        d ← disk_of (ch_index (nd_chain n)) p;
        '(_, txdb) ← WriteBlockIndex Hash9 adjusted_time txdb d;
        '(ok, txdb) ← TxnCommit txdb;
        let n := set_chain (pdb txdb) (nd_chain n) n in
        if negb ok then Some (false, n)
        else if bu_gt (bnChainTrust i) (bnBestChainTrust (nd_chain n)) then
          '(ok, txdb, s) ← SetBestChain Hash9 bnProofOfWorkLimit hashGenesis (nd_files n) fTestNet nStakeMinAge nCoinbaseMaturity nEstimate GetRandHash
                             nMaxCacheSize adjusted_time now txdb (nd_chain n) block p;
          Some (ok, set_chain (pdb txdb) s n)
        else Some (true, n)
    end.

(** ** [AcceptBlock] *)

Definition CUTOFF_POW_BLOCK : Z := 10080.
Definition nClockDriftSwitchHeight : Z := 59860.
Definition nMaxClockDrift : Z := 8 * 60.
Definition nMaxClockDriftOrig : Z := 2 * 60 * 60.
Definition GetMaxClockDrift (height : Z) : Z := if nClockDriftSwitchHeight <? height then nMaxClockDrift else nMaxClockDriftOrig.
Definition nStakeSplitAge : Z := 60 * 60 * 24 * 30.

(** [std::equal(expect.begin(), expect.end(), s.begin())]; [None]: it reads past
    the end of [s]. *)
Fixpoint std_equal (expect s : list Z) : option bool :=
  match expect, s with
  | [], _ => Some true
  | _ :: _, [] => None
  | e :: expect, x :: s => if e =? x then std_equal expect s else Some false
  end.

(** The stake rules of version 6. *)
Definition stake_rules (n : node_state) (block : CBlock) (pindexPrev : ptr) : option (verdict unit) :=
  if 5 <? b_nVersion block then
    tx ← vtx block !! 1%nat;
    let noop := (len (vin tx) =? 1) && (len (vout tx) =? 2) in
    old ← (if noop then
             txin ← vin tx !! 0%nat;
             found ← tx_ReadFromDisk_prev (nd_files n) (txdb_open (nd_db n) true) (prevout txin);
             Some (match found with None => None | Some (txPrev, _) => Some (u32 (tx_nTime txPrev + nStakeSplitAge) <=? tx_nTime tx) end)
           else Some (Some false));
    match old with
    | None => Some (Refuse 0)
    | Some old =>
        active ← IsSuperMajority (ch_index (nd_chain n)) 6 (Some pindexPrev) (if fTestNet then 51 else 5400) (if fTestNet then 100 else 7200);
        Some (if active && negb (((len (vin tx) =? 1) && (len (vout tx) =? 3)) || ((1 <? len (vin tx)) && (len (vout tx) =? 2)) || (noop && old))
              then Refuse 100 else Accept tt)
    end
  else Some (Accept tt).

(** The checks of a block on top of [pindexPrev]. *)
Definition accept_rules (n : node_state) (block : CBlock) (hash : base_uint) (pindexPrev : ptr) : option (verdict unit) :=
  let st := ch_index (nd_chain n) in
  i ← deref st pindexPrev;
  let height := nHeight i + 1 in
  if block_IsProofOfWork block && (CUTOFF_POW_BLOCK <? height) then Some (Refuse 100)
  else
    bits ← GetNextTargetRequired bnProofOfWorkLimit bnProofOfStakeLimit st (Some pindexPrev) (block_IsProofOfStake block);
    if negb (b_nBits block =? bits) then Some (Refuse 100)
    else if adjusted_time + GetMaxClockDrift height <? GetBlockTime block then Some (Refuse 0)
    else
      coinbase ← vtx block !! 0%nat;
      if tx_nTime coinbase + GetMaxClockDrift height <? GetBlockTime block then Some (Refuse 50)
      else if negb (forallb (fun tx => tx_IsFinal (nBestHeight (nd_chain n)) adjusted_time tx height (GetBlockTime block)) (vtx block)) then Some (Refuse 10)
      else if negb (CheckHardened fTestNet testnetNumber height hash) then Some (Refuse 100)
      else
        sync ← CheckSync fTestNet st (nd_sync n) hash pindexPrev;
        if negb sync && negb fNoSyncCheckpoints then Some (Refuse 0)
        else if (b_nVersion block <? 3) && ((negb fTestNet && (14060 <? height)) || (fTestNet && (0 <? height))) then Some (Refuse 0)
        else
          txin ← vin coinbase !! 0%nat;
          ok ← std_equal (push_int64 [] height) (scriptSig txin);
          if negb ok then Some (Refuse 100)
          else
            r ← stake_rules n block pindexPrev;
            match r with
            | Refuse dos => Some (Refuse dos)
            | Accept _ =>
                if b_nVersion block <? 5 then
                  upgraded ← IsSuperMajority st 5 (Some pindexPrev) (if fTestNet then 75 else 17136) (if fTestNet then 100 else 20160);
                  Some (if upgraded : bool then Refuse 0 else Accept tt)
                else Some (Accept tt)
            end.

Definition AcceptBlock (n : node_state) (block : CBlock) : option (verdict unit * node_state) :=
  let hash := block_GetHash Hash9 block in
  let st := ch_index (nd_chain n) in
  if bool_decide (is_Some (mapBlockIndex st !! hash)) then Some (Refuse 0, n)
  else
    match mapBlockIndex st !! hashPrevBlock block with
    | None => Some (Refuse 10, n)
    | Some pindexPrev =>
        r ← accept_rules n block hash pindexPrev;
        match r with
        | Refuse dos => Some (Refuse dos, n)
        | Accept _ =>
            if negb (CheckDiskSpace (GetSerializeSize (ser_block block_null) SER_DISK CLIENT_VERSION block)) then Some (Refuse 0, n)
            else
              w ← WriteToDisk (nd_files n) (nCurrentBlockFile n) block;
              match w with
              | None => Some (Refuse 0, n)
              | Some (nFile, nBlockPos, files) =>
                  '(ok, n) ← AddToBlockIndex (set_files files nFile n) block nFile nBlockPos;
                  if negb ok then Some (Refuse 0, n)
                  else
                    '(_, d, s, y) ← AcceptPendingSyncCheckpoint Hash9 bnProofOfWorkLimit hashGenesis (nd_files n) fTestNet nStakeMinAge nCoinbaseMaturity
                                      nEstimate GetRandHash nMaxCacheSize adjusted_time now (nd_db n) (nd_chain n) (nd_sync n);
                    Some (Accept tt, set_checkpoint d s y n)
              end
        end
    end.

(** ** [ProcessBlock] *)

(** The orphans that wait for the block [hash], in the order of their arrival. *)
Definition waiting (hash : base_uint) (l : list (base_uint * ptr)) : list ptr := map snd (filter (fun '(h, _) => h = hash) l).

(** The inner loop; the hashes of the blocks that were accepted. *)
Fixpoint try_orphans (l : list ptr) (n : node_state) : option (list base_uint * node_state) :=
  match l with
  | [] => Some ([], n)
  | p :: l =>
      block ← orphan_blocks n !! p;
      '(r, n) ← AcceptBlock n block;
      stake ← GetProofOfStake block;
      let hash := block_GetHash Hash9 block in
      let n := set_orphans (delete p (orphan_blocks n)) (delete hash (mapOrphanBlocks n)) (mapOrphanBlocksByPrev n) (setStakeSeenOrphan n ∖ {[stake]}) n in
      '(more, n) ← try_orphans l n;
      Some (match r with Accept _ => hash :: more | Refuse _ => more end, n)
  end.

(** The outer loop with what is left of [vWorkQueue]. *)
Fixpoint work_loop (fuel : nat) (queue : list base_uint) (n : node_state) : option node_state :=
  match queue with
  | [] => Some n
  | hashPrev :: queue =>
      match fuel with
      | O => None
      | S fuel =>
          '(more, n) ← try_orphans (waiting hashPrev (mapOrphanBlocksByPrev n)) n;
          let n := set_orphans (orphan_blocks n) (mapOrphanBlocks n) (filter (fun '(h, _) => h <> hashPrev) (mapOrphanBlocksByPrev n)) (setStakeSeenOrphan n) n in
          work_loop fuel (queue ++ more) n
      end
  end.

(** The test of the claimed work against the last checkpoint. *)
Definition enough_work (n : node_state) (block : CBlock) (pcheckpoint : ptr) : option bool :=
  let st := ch_index (nd_chain n) in
  i ← deref st pcheckpoint;
  let deltaTime := GetBlockTime block - i_nTime i in
  let '(bnNewBlock, _, fOverflow) := SetCompact (b_nBits block) in
  lastp ← GetLastBlockIndex st (Some pcheckpoint) (block_IsProofOfStake block) ≫= id;
  j ← deref st lastp;
  let bits := if block_IsProofOfStake block then ComputeMinStake bnProofOfStakeLimit (i_nBits j) deltaTime (b_nTime block)
              else ComputeMinWork bnProofOfWorkLimit (i_nBits j) deltaTime in
  let '(bnRequired, _, _) := SetCompact bits in
  Some (negb (fOverflow || bu_gt bnNewBlock bnRequired)).

(** The proof of stake was seen, no orphan waits for the block, and the pending
    checkpoint does not want it. *)
Definition duplicate_stake (n : node_state) (seen : gset (COutPoint * Z)) (block : CBlock) : option bool :=
  let hash := block_GetHash Hash9 block in
  stake ← GetProofOfStake block;
  if block_IsProofOfStake block && bool_decide (stake ∈ seen) && negb (bool_decide (hash ∈ map fst (mapOrphanBlocksByPrev n))) then
    wanted ← WantedByPendingSyncCheckpoint (orphan_view n) (nd_sync n) hash; Some (negb wanted)
  else Some false.

(** A block without its parent.  A refused one stays allocated. *)
Definition add_orphan (n : node_state) (block : CBlock) : option (bool * node_state) :=
  let hash := block_GetHash Hash9 block in
  let p := fresh (dom (orphan_blocks n)) in
  let n := set_orphans (<[p := block]> (orphan_blocks n)) (mapOrphanBlocks n) (mapOrphanBlocksByPrev n) (setStakeSeenOrphan n) n in
  stake ← GetProofOfStake block;
  duplicate ← duplicate_stake n (setStakeSeenOrphan n) block;
  if duplicate : bool then Some (false, n)
  else
    let seen := if block_IsProofOfStake block then {[stake]} ∪ setStakeSeenOrphan n else setStakeSeenOrphan n in
    Some (true, set_orphans (orphan_blocks n) (map_insert_new hash p (mapOrphanBlocks n)) (mapOrphanBlocksByPrev n ++ [(hashPrevBlock block, p)]) seen n).

(** The checks before a block is stored, with what they leave behind. *)
Definition preliminary (n : node_state) (block : CBlock) : option (bool * node_state) :=
  let hash := block_GetHash Hash9 block in
  let st := ch_index (nd_chain n) in
  duplicate ← duplicate_stake n (setStakeSeen n) block;
  if duplicate : bool then Some (false, n)
  else
    checked ← CheckBlock Hash9 bnProofOfWorkLimit hashGenesis block false false;
    match checked with
    | Refuse _ => Some (false, n)
    | Accept _ =>
        '(ok, n) ←
          (if block_IsProofOfStake block then
             tx ← vtx block !! 1%nat;
             '(r, c) ← CheckProofOfStake nModifierInterval nStakeMinAge nStakeMaxAge st Hash9 (nd_files n) GetRandHash nMaxCacheSize
                         (txdb_open (nd_db n) true) tx (b_nBits block) (sigcache (nd_chain n));
             let n := set_chain (nd_db n) (set_pool (mempool (nd_chain n)) c (nd_chain n)) n in
             Some (match r with Refuse _ => (false, n) | Accept h => (true, set_proofs (map_insert_new hash h (mapProofOfStake n)) n) end)
           else Some (true, n));
        if negb ok then Some (false, n)
        else
          match GetLastSyncCheckpoint st (nd_sync n) with
          | None => Some (true, n)
          | Some pcheckpoint =>
              if bu_eq (hashPrevBlock block) (hashBestChain (nd_chain n)) then Some (true, n)
              else
                wanted ← WantedByPendingSyncCheckpoint (orphan_view n) (nd_sync n) hash;
                if wanted : bool then Some (true, n) else enough ← enough_work n block pcheckpoint; Some (enough, n)
          end
    end.

Definition ProcessBlock (n : node_state) (block : CBlock) : option (bool * node_state) :=
  let hash := block_GetHash Hash9 block in
  if bool_decide (is_Some (mapBlockIndex (ch_index (nd_chain n)) !! hash)) then Some (false, n)
  else if bool_decide (is_Some (mapOrphanBlocks n !! hash)) then Some (false, n)
  else
    '(ok, n) ← preliminary n block;
    if negb ok then Some (false, n)
    else if bool_decide (mapBlockIndex (ch_index (nd_chain n)) !! hashPrevBlock block = None) then add_orphan n block
    else
      '(r, n) ← AcceptBlock n block;
      match r with
      | Refuse _ => Some (false, n)
      | Accept _ => n ← work_loop (S (length (mapOrphanBlocksByPrev n))) [hash] n; Some (true, n)
      end.
End process.

(** ** Filtering *)

Section filters.
Context {A : Type} (P Q : A -> Prop) `{!forall x, Decision (P x)} `{!forall x, Decision (Q x)}.

Lemma filter_ext_in (l : list A) : (forall x, x ∈ l -> P x <-> Q x) -> filter P l = filter Q l.
Proof.
  induction l as [|x l IH]; intros Hl; [done|]. rewrite !filter_cons, IH by (intros y Hy; apply Hl; by right). pose proof (Hl x ltac:(by left)).
  destruct (decide (P x)), (decide (Q x)); tauto || done.
Qed.

Lemma filter_all (l : list A) : (forall x, x ∈ l -> P x) -> filter P l = l.
Proof.
  induction l as [|x l IH]; intros Hl; [done|]. rewrite filter_cons, IH by (intros y Hy; apply Hl; by right). rewrite decide_True; [done|]. apply Hl. by left.
Qed.

Lemma filter_none (l : list A) : (forall x, x ∈ l -> ~ P x) -> filter P l = [].
Proof.
  induction l as [|x l IH]; intros Hl; [done|]. rewrite filter_cons, IH by (intros y Hy; apply Hl; by right). rewrite decide_False; [done|]. apply Hl. by left.
Qed.

Lemma filter_split (l : list A) : (length (filter P l) + length (filter (fun x => ~ P x) l) = length l)%nat.
Proof. induction l as [|x l IH]; [done|]. rewrite !filter_cons. destruct (decide (P x)), (decide (~ P x)); cbn; tauto || lia. Qed.
End filters.

Lemma omap_ext_in {A B} (f g : A -> option B) (l : list A) : (forall x, x ∈ l -> f x = g x) -> omap f l = omap g l.
Proof. intros Hl. apply list_omap_ext, Forall2_same_length_lookup. split; [done|]. intros i x y Ex Ey. rewrite Ex in Ey. injection Ey as <-. by eapply Hl, list_elem_of_lookup_2. Qed.

Lemma elem_of_snd {A B} (x : A) (y : B) (l : list (A * B)) : (x, y) ∈ l -> y ∈ snd <$> l.
Proof. intros Hin. apply list_elem_of_fmap. by exists (x, y). Qed.

(** ** The block index grows well formed *)

Section invariant.
Context `{LS : LevelDB_spec} `{BN} `{CS : Crypto_spec} `{EC}.
Context (Hash9 : list Z -> base_uint) (limit stakeLimit hashGenesis : base_uint) (start : list Z).
Context (fTestNet : bool) (testnetNumber nModifierInterval nStakeMinAge nStakeMaxAge nCoinbaseMaturity : Z) (fNoSync : bool).
Context (GetRandHash : nat -> base_uint) (nMaxCacheSize : Z).
Context (H9 : forall l, wf 8 (Hash9 l)).

Abbreviation idx n := (ch_index (nd_chain n)).

(** The block with the hash [h] lies where the entry says. *)
Definition on_disk (files : block_files) (i : CBlockIndex) (h : base_uint) : Prop :=
  exists b bytes rest, files !! i_nFile i = Some bytes /\ 0 <= i_nBlockPos i <= len bytes /\
    drop (Z.to_nat (i_nBlockPos i)) bytes = Serialize (ser_block block_null) SER_DISK CLIENT_VERSION b ++ rest /\ block_GetHash Hash9 b = h.

(** Chain trust adds up, the block is on disk, and its proof of stake is on record. *)
Definition entry_ok (st : index_state) (files : block_files) (seen : gset (COutPoint * Z)) (i : CBlockIndex) : Prop :=
  (exists t, GetBlockTrust limit i = Some t /\
     match pprev i with
     | None => bnChainTrust i = bu_add (bu_zero 8) t
     | Some q => exists j, heap st !! q = Some j /\ bnChainTrust i = bu_add (bnChainTrust j) t
     end) /\
  (forall h, phashBlock i = Some h -> on_disk files i h) /\
  (index_IsProofOfStake i = true -> (prevoutStake i, nStakeTime i) ∈ seen).

(** The two maps point to the same live orphans. *)
Definition orphans_ok (h : gmap ptr CBlock) (m : gmap base_uint ptr) (l : list (base_uint * ptr)) : Prop :=
  (forall x p, m !! x = Some p -> exists b, h !! p = Some b /\ block_GetHash Hash9 b = x /\ (hashPrevBlock b, p) ∈ l) /\
  (forall x p, (x, p) ∈ l -> exists b, h !! p = Some b /\ hashPrevBlock b = x /\ m !! block_GetHash Hash9 b = Some p) /\
  NoDup (snd <$> l).

Record index_inv (n : node_state) : Prop := {
  ni_tree : tree_wf (idx n);
  ni_hashes : hashes_ok (idx n);
  ni_entries : forall p i, heap (idx n) !! p = Some i -> entry_ok (idx n) (nd_files n) (setStakeSeen n) i
}.

Record node_inv (n : node_state) : Prop := {
  ni_index :> index_inv n;
  ni_orphans : orphans_ok (orphan_blocks n) (mapOrphanBlocks n) (mapOrphanBlocksByPrev n)
}.

Lemma shape_more i i' : shape i' = shape i ->
  bnChainTrust i' = bnChainTrust i /\ nFlags i' = nFlags i /\ prevoutStake i' = prevoutStake i /\ nStakeTime i' = nStakeTime i /\
  GetBlockTrust limit i' = GetBlockTrust limit i /\ index_IsProofOfStake i' = index_IsProofOfStake i.
Proof.
  intros E. destruct i, i'. unfold shape, no_money, set_money, set_pnext in E. cbn in E. injection E as. unfold GetBlockTrust, index_IsProofOfStake. cbn. by subst.
Qed.

Lemma entry_shape st st' files seen i i' : (forall q j, heap st !! q = Some j -> exists j', heap st' !! q = Some j' /\ shape j' = shape j) -> shape i' = shape i ->
  entry_ok st files seen i -> entry_ok st' files seen i'.
Proof.
  intros Hg Hi ((t & Ht & Hp) & Hd & Hs). destruct (shape_more _ _ Hi) as (Htr & Hf & Ho & Hst & Hbt & Hpos). destruct (shape_fields _ _ Hi) as (Hh & Hprev & Hfi & Hpo & _).
  split_and!.
  - exists t. rewrite Hbt. split; [done|]. rewrite Hprev, Htr. destruct (pprev i) as [q|]; [|done]. destruct Hp as (j & Ej & Htj). destruct (Hg _ _ Ej) as (j' & Ej' & Hj').
    exists j'. split; [done|]. by destruct (shape_more _ _ Hj') as (-> & _).
  - intros h Eh. rewrite Hh in Eh. destruct (Hd _ Eh) as (b & bytes & rest & J1 & J2 & J3 & J4). exists b, bytes, rest. by rewrite Hfi, Hpo.
  - by rewrite Hpos, Ho, Hst.
Qed.

(** Connecting and disconnecting blocks keeps the invariant. *)
Lemma inv_same_tree n n' : index_inv n -> same_tree (idx n) (idx n') -> nd_files n' = nd_files n -> setStakeSeen n' = setStakeSeen n -> index_inv n'.
Proof.
  intros [Ht Hh He] Hs Ef Es. split; [by eapply tree_wf_shape|by eapply same_tree_hashes|].
  intros p i' Ei'. destruct (same_tree_back _ _ _ _ Hs Ei') as (i & Ei & Hi). rewrite Ef, Es. eapply entry_shape; [|exact Hi|by eapply He].
  apply (same_tree_grows _ _ Hs).
Qed.

Lemma on_disk_append files f x i h : on_disk files i h -> on_disk (<[f := default [] (files !! f) ++ x]> files) i h.
Proof.
  intros (b & bytes & rest & E & Hp & Ed & Hb). destruct (decide (f = i_nFile i)) as [->|Hne].
  - exists b, (bytes ++ x), (rest ++ x). unfold block_files in *. rewrite lookup_insert_eq, E. split_and!; [done|lia|rewrite len_app; pose proof (len_nonneg x); lia| |done].
    rewrite drop_app_le by (unfold len in Hp; lia). by rewrite Ed, app_assoc.
  - exists b, bytes, rest. unfold block_files in *. by rewrite lookup_insert_ne by done.
Qed.

Lemma inv_files n f x cur : index_inv n -> index_inv (set_files (<[f := default [] (nd_files n !! f) ++ x]> (nd_files n)) cur n).
Proof.
  intros [Ht Hh He]. split; [done|done|]. intros p i Ei. destruct (He p i Ei) as (J1 & J2 & J3). split_and!; [done| |done].
  intros h Eh. by apply on_disk_append, J2.
Qed.

(** A new entry. *)
Lemma inv_insert n p i hash : index_inv n -> heap (idx n) !! p = None -> mapBlockIndex (idx n) !! hash = None -> wf 8 hash -> phashBlock i = Some hash ->
  match pprev i with None => nHeight i = 0 | Some q => exists j, heap (idx n) !! q = Some j /\ nHeight i = nHeight j + 1 end ->
  entry_ok (idx n) (nd_files n) (setStakeSeen (insert_entry p i hash n)) i -> index_inv (insert_entry p i hash n).
Proof.
  intros [Ht Hh He] Hp Hm Hw Hhash Hprev Hi. set (n' := insert_entry p i hash n) in *.
  assert (Eh : heap (idx n') = <[p := i]> (heap (idx n))) by (unfold n', insert_entry; by destruct (index_IsProofOfStake i)).
  assert (Em : mapBlockIndex (idx n') = <[hash := p]> (mapBlockIndex (idx n))) by (unfold n', insert_entry; by destruct (index_IsProofOfStake i)).
  assert (Ef : nd_files n' = nd_files n) by (unfold n', insert_entry; by destruct (index_IsProofOfStake i)).
  assert (Hseen : setStakeSeen n ⊆ setStakeSeen n') by (unfold n', insert_entry; destruct (index_IsProofOfStake i); cbn; set_solver).
  assert (Hold : forall q j, heap (idx n) !! q = Some j -> heap (idx n') !! q = Some j).
  { intros q j Ej. rewrite Eh, lookup_insert_ne; [done|]. intros ->. by rewrite Hp in Ej. }
  assert (Hpath : forall a j, match pprev a with None => nHeight a = 0 | Some q => exists j, heap (idx n) !! q = Some j /\ nHeight a = nHeight j + 1 end ->
    j = a -> match pprev j with None => nHeight j = 0 | Some q => exists k, heap (idx n') !! q = Some k /\ nHeight j = nHeight k + 1 end).
  { intros a j Ha ->. destruct (pprev a) as [q|]; [|done]. destruct Ha as (k & Ek & Hk). exists k. by split; [apply Hold|]. }
  split.
  - split.
    + intros q j Ej. rewrite Eh in Ej. rewrite Em. apply lookup_insert_Some in Ej as [[<- <-]|[Hne Ej]]; [exists hash; split; [done|apply lookup_insert_eq]|].
      destruct (iw_hash _ Ht _ _ Ej) as (h & Ehh & Emh). exists h. split; [done|]. rewrite lookup_insert_ne; [done|]. intros ->. by rewrite Hm in Emh.
    + intros q j Ej. rewrite Eh in Ej. apply lookup_insert_Some in Ej as [[<- <-]|[Hne Ej]]; [by apply (Hpath i)|]. by apply (Hpath j); [apply (iw_prev _ Ht q)|].
    + intros q j Ej. rewrite Eh in Ej. apply lookup_insert_Some in Ej as [[<- <-]|[Hne Ej]]; [|by eapply iw_height].
      destruct (pprev i) as [q|]; [|lia]. destruct Hprev as (j & Ej & ->). pose proof (iw_height _ Ht _ _ Ej). lia.
    + intros h q Eq. rewrite Em in Eq. apply lookup_insert_Some in Eq as [[<- <-]|[Hne Eq]]; [rewrite Eh, lookup_insert_eq; by eexists|].
      destruct (iw_map _ Ht _ _ Eq) as [j Ej]. exists j. by apply Hold.
  - intros h q Eq. rewrite Em in Eq. unfold GetBlockHash, deref. apply lookup_insert_Some in Eq as [[<- <-]|[Hne Eq]].
    + split; [done|]. rewrite Eh, lookup_insert_eq. done.
    + destruct (Hh _ _ Eq) as [Hwh Ehh]. split; [done|]. unfold GetBlockHash, deref in Ehh. destruct (heap (idx n) !! q) as [j|] eqn:Ej; [|done]. by rewrite (Hold _ _ Ej).
  - assert (Hgrow : forall q j, heap (idx n) !! q = Some j -> exists j', heap (idx n') !! q = Some j' /\ shape j' = shape j) by (intros q j Ej; exists j; by split; [apply Hold|]).
    intros q j Ej. rewrite Ef. rewrite Eh in Ej. apply lookup_insert_Some in Ej as [[<- <-]|[Hne Ej]]; [by apply (entry_shape (idx n) _ _ _ i)|].
    destruct (entry_shape (idx n) (idx n') (nd_files n) (setStakeSeen n) j j Hgrow eq_refl (He _ _ Ej)) as (J1 & J2 & J3). split_and!; [done|done|]. intros Hpos. apply Hseen. by apply J3.
Qed.

Abbreviation sync_step := (sync_step Hash9 limit hashGenesis fTestNet nStakeMinAge nCoinbaseMaturity (GetTotalBlocksEstimate fTestNet testnetNumber)
  GetRandHash nMaxCacheSize).

Section time.
Context (adjusted_time now : Z) (CheckDiskSpace : Z -> bool).

Abbreviation index_entry := (index_entry Hash9 limit hashGenesis fTestNet nModifierInterval).
Abbreviation AddToBlockIndex := (AddToBlockIndex Hash9 limit hashGenesis fTestNet testnetNumber nModifierInterval nStakeMinAge nCoinbaseMaturity
  GetRandHash nMaxCacheSize adjusted_time now).
Abbreviation accept_rules := (accept_rules limit stakeLimit fTestNet testnetNumber fNoSync adjusted_time).
Abbreviation AcceptBlock := (AcceptBlock Hash9 limit stakeLimit hashGenesis start fTestNet testnetNumber nModifierInterval nStakeMinAge nCoinbaseMaturity
  fNoSync GetRandHash nMaxCacheSize adjusted_time now CheckDiskSpace).
Abbreviation try_orphans := (try_orphans Hash9 limit stakeLimit hashGenesis start fTestNet testnetNumber nModifierInterval nStakeMinAge nCoinbaseMaturity
  fNoSync GetRandHash nMaxCacheSize adjusted_time now CheckDiskSpace).
Abbreviation work_loop := (work_loop Hash9 limit stakeLimit hashGenesis start fTestNet testnetNumber nModifierInterval nStakeMinAge nCoinbaseMaturity
  fNoSync GetRandHash nMaxCacheSize adjusted_time now CheckDiskSpace).

Lemma SetStakeEntropyBit_more e i ok i' : SetStakeEntropyBit e i = (ok, i') -> exists f, i' = set_flags f i /\ (index_IsProofOfStake i' = index_IsProofOfStake i).
Proof.
  unfold SetStakeEntropyBit. destruct (1 <? e); intros [= <- <-]; [exists (nFlags i); split; [by destruct i|done]|]. eexists. split; [done|].
  unfold index_IsProofOfStake. cbn. f_equal. f_equal. rewrite Z.land_lor_distr_l. destruct (e =? 0); [by rewrite Z.land_0_l, Z.lor_0_r|].
  unfold BLOCK_STAKE_ENTROPY, BLOCK_PROOF_OF_STAKE. cbn. by rewrite Z.lor_0_r.
Qed.

Lemma SetStakeModifier_pos m g i : index_IsProofOfStake (SetStakeModifier m g i) = index_IsProofOfStake i.
Proof.
  unfold SetStakeModifier, index_IsProofOfStake. destruct g; [|done]. cbn. f_equal. f_equal. rewrite Z.land_lor_distr_l. unfold BLOCK_STAKE_MODIFIER, BLOCK_PROOF_OF_STAKE.
  cbn. by rewrite Z.lor_0_r.
Qed.

Lemma GetBlockTrust_bits i i' : i_nBits i' = i_nBits i -> index_IsProofOfStake i' = index_IsProofOfStake i -> GetBlockTrust limit i' = GetBlockTrust limit i.
Proof. intros E1 E2. unfold GetBlockTrust. by rewrite E1, E2. Qed.

Lemma index_new_fields f bp b i : index_new f bp b = Some i ->
  i_nFile i = f /\ i_nBlockPos i = bp /\ i_nBits i = b_nBits b /\ index_IsProofOfStake i = block_IsProofOfStake b /\
  GetProofOfStake b = Some (prevoutStake i, nStakeTime i).
Proof. unfold index_new. destruct (GetProofOfStake b) as [[o t]|]; [|done]. intros [= <-]. by destruct (block_IsProofOfStake b). Qed.

Lemma grows_refl st : grows st st.
Proof. apply same_tree_grows. reflexivity. Qed.
Lemma grows_trans st1 st2 st3 : grows st1 st2 -> grows st2 st3 -> grows st1 st3.
Proof.
  intros [G1 G2] [K1 K2]. split; [|intros h q Eq; by apply K2, G2]. intros q k Ek. destruct (G1 _ _ Ek) as (k1 & Ek1 & Hk1). destruct (K1 _ _ Ek1) as (k2 & Ek2 & Hk2).
  exists k2. by rewrite Hk2.
Qed.

(** What the entry of a block holds. *)
Lemma index_entry_spec n b f bp i : index_entry n b f bp = Some (Some i) ->
  phashBlock i = Some (block_GetHash Hash9 b) /\ pprev i = mapBlockIndex (idx n) !! hashPrevBlock b /\ pnext i = None /\ i_nFile i = f /\ i_nBlockPos i = bp /\
  index_IsProofOfStake i = block_IsProofOfStake b /\ GetProofOfStake b = Some (prevoutStake i, nStakeTime i) /\
  exists t, GetBlockTrust limit i = Some t /\
    match pprev i with
    | None => nHeight i = 0 /\ bnChainTrust i = bu_add (bu_zero 8) t
    | Some q => exists j, heap (idx n) !! q = Some j /\ nHeight i = nHeight j + 1 /\ bnChainTrust i = bu_add (bnChainTrust j) t
    end.
Proof.
  intros E. unfold Process.index_entry in E. cbv zeta in E. apply bind_Some in E as (i0 & E0 & E). destruct (index_new_fields _ _ _ _ E0) as (Hf & Hbp & Hbits & Hpos & Hst).
  apply bind_Some in E as ([height base] & Eb & E). apply bind_Some in E as (t & Et & E). set (i1 := mkIndex _ _ _ _ _ _ _ _ _ _ _ _ _ _ _ _ _ _ _ _) in E.
  destruct (SetStakeEntropyBit _ i1) as [ok i2] eqn:E2. destruct (SetStakeEntropyBit_more _ _ _ _ E2) as (fl & Hi2 & Hpos2). destruct ok; cbn [negb] in E; [|done].
  destruct (if index_IsProofOfStake i2 then _ else _) as [proof|]; [|done]. set (i3 := mkIndex _ _ _ _ _ _ _ _ _ _ _ _ _ _ _ _ _ _ _ _) in E.
  apply bind_Some in E as ([[modifier g]|] & _ & E); [|done]. apply bind_Some in E as (ck & _ & E). destruct (CheckStakeModifierCheckpoints _ _ _); [|done].
  injection E as <-. assert (Hp3 : index_IsProofOfStake (SetStakeModifier modifier g i3) = block_IsProofOfStake b) 
    by (rewrite SetStakeModifier_pos; transitivity (index_IsProofOfStake i2); [reflexivity|rewrite Hpos2; exact Hpos]).
  assert (Hm : forall x, phashBlock (SetStakeModifier modifier g x) = phashBlock x /\ pprev (SetStakeModifier modifier g x) = pprev x /\
    pnext (SetStakeModifier modifier g x) = pnext x /\ i_nFile (SetStakeModifier modifier g x) = i_nFile x /\ i_nBlockPos (SetStakeModifier modifier g x) = i_nBlockPos x /\
    prevoutStake (SetStakeModifier modifier g x) = prevoutStake x /\ nStakeTime (SetStakeModifier modifier g x) = nStakeTime x /\
    i_nBits (SetStakeModifier modifier g x) = i_nBits x /\ nHeight (SetStakeModifier modifier g x) = nHeight x /\
    bnChainTrust (SetStakeModifier modifier g x) = bnChainTrust x) by (intros x; unfold SetStakeModifier; by destruct g).
  destruct (Hm i3) as (-> & -> & -> & -> & -> & -> & -> & Hb3 & -> & ->). cbn [phashBlock pprev pnext i_nFile i_nBlockPos prevoutStake nStakeTime nHeight bnChainTrust i3].
  subst i2. cbn [phashBlock pprev pnext i_nFile i_nBlockPos prevoutStake nStakeTime nHeight bnChainTrust set_flags i1].
  split_and!; [done|done|done|done|done| |done|]; [unfold index_IsProofOfStake in *; exact Hp3|].
  exists t. split; [rewrite <- Et; apply GetBlockTrust_bits; [exact Hb3|by rewrite Hpos; exact Hp3]|].
  destruct (mapBlockIndex (idx n) !! hashPrevBlock b) as [q|]; [|by injection Eb as <- <-]. apply bind_Some in Eb as (j & Ej & Eb). injection Eb as <- <-. by exists j.
Qed.

(** The orphans of two states agree. *)
Definition same_orphans (n n' : node_state) : Prop :=
  orphan_blocks n' = orphan_blocks n /\ mapOrphanBlocks n' = mapOrphanBlocks n /\ mapOrphanBlocksByPrev n' = mapOrphanBlocksByPrev n /\
  setStakeSeenOrphan n' = setStakeSeenOrphan n.

(** The block is an entry of the index on top of what was its parent. *)
Definition indexed (st st' : index_state) (b : CBlock) (f bp : Z) : Prop :=
  exists p i, mapBlockIndex st' !! block_GetHash Hash9 b = Some p /\ heap st' !! p = Some i /\ pprev i = mapBlockIndex st !! hashPrevBlock b /\ heap st !! p = None /\
    i_nFile i = f /\ i_nBlockPos i = bp.

Lemma indexed_tree st st1 st2 b f bp : same_tree st1 st2 -> indexed st st1 b f bp -> indexed st st2 b f bp.
Proof.
  intros Hs (p & i & Em & Ei & Hp & Hf & Hfi & Hbp). destruct (same_tree_forth _ _ p Hs) as [j Ej]; [by eexists|]. destruct (same_tree_back _ _ _ _ Hs Ej) as (i0 & Ei0 & Hi).
  rewrite Ei in Ei0. injection Ei0 as <-. destruct (shape_fields _ _ Hi) as (_ & Hpj & Hfj & Hbj & _). exists p, j. rewrite (proj2 Hs). split_and!; congruence.
Qed.

Lemma insert_entry_facts p i hash n : heap (idx n) !! p = None -> mapBlockIndex (idx n) !! hash = None -> let n' := insert_entry p i hash n in
  grows (idx n) (idx n') /\ heap (idx n') !! p = Some i /\ mapBlockIndex (idx n') !! hash = Some p /\ nd_files n' = nd_files n /\ nd_sync n' = nd_sync n /\ same_orphans n n'.
Proof.
  intros Hp Hm n'. unfold n', insert_entry. destruct (index_IsProofOfStake i); cbn; rewrite !lookup_insert_eq; (split_and!; [|done|done|done|done|done]);
    (split; [intros q j Ej; exists j; split; [|done]|intros h q Eq]; cbn; rewrite lookup_insert_ne; try done; congruence).
Qed.

(** Whatever it answers, [AddToBlockIndex] keeps the invariant. *)
Lemma AddToBlockIndex_inv n b f bp ok n' : index_inv n -> (forall i, i_nFile i = f -> i_nBlockPos i = bp -> on_disk (nd_files n) i (block_GetHash Hash9 b)) ->
  AddToBlockIndex n b f bp = Some (ok, n') ->
  index_inv n' /\ grows (idx n) (idx n') /\ nd_files n' = nd_files n /\ nd_sync n' = nd_sync n /\ same_orphans n n' /\ (ok = true -> indexed (idx n) (idx n') b f bp).
Proof.
  intros Hinv Hdisk E. unfold Process.AddToBlockIndex in E. case_bool_decide as Hdup; [injection E as <- <-; by split_and!; [|apply grows_refl|..]|].
  apply eq_None_not_Some in Hdup. apply bind_Some in E as ([i|] & Ei & E); [|injection E as <- <-; by split_and!; [|apply grows_refl|..]].
  destruct (index_entry_spec _ _ _ _ _ Ei) as (Hh & Hp & Hn & Hf & Hbp & Hpos & Hst & t & Ht & Htree).
  set (p := fresh (dom (heap (idx n)))) in E. assert (Hfresh : heap (idx n) !! p = None) by apply not_elem_of_dom, is_fresh. set (n1 := insert_entry p i _ n) in E.
  assert (Hinv1 : index_inv n1).
  { apply inv_insert; [done|done|done|apply H9|done| |].
    - destruct (pprev i) as [q|]; [|by destruct Htree]. destruct Htree as (j & ? & ? & _). by exists j.
    - split_and!; [exists t; split; [done|]; destruct (pprev i) as [q|]; [destruct Htree as (j & ? & _ & ?); by exists j|by destruct Htree]| |].
      + intros h Eh. rewrite Hh in Eh. injection Eh as <-. by apply Hdisk.
      + intros Hs. unfold insert_entry. rewrite Hs. cbn. set_solver. }
  destruct (insert_entry_facts p i _ n Hfresh Hdup) as (Hg1 & Enew & Emap & Hf1 & Hsy1 & Ho1). fold n1 in Hg1, Enew, Emap, Hf1, Hsy1, Ho1.
  assert (Hind : indexed (idx n) (idx n1) b f bp) by (by exists p, i).
  apply bind_Some in E as ([ok1 db1] & _ & E). apply bind_Some in E as (dk & _ & E). apply bind_Some in E as ([ok2 db2] & _ & E).
  apply bind_Some in E as ([ok3 db3] & _ & E). set (n2 := set_chain (pdb db3) (nd_chain n1) n1) in E.
  assert (Hdone : forall s d, same_tree (idx n1) (ch_index s) -> index_inv (set_chain d s n2) /\ grows (idx n) (ch_index s) /\ indexed (idx n) (ch_index s) b f bp).
  { intros s d Hs. split_and!; [by apply (inv_same_tree n1)|by eapply grows_trans, same_tree_grows|by eapply indexed_tree]. }
  destruct ok3; cbn [negb] in E.
  2: { injection E as <- <-. destruct (Hdone (nd_chain n1) (pdb db3) ltac:(reflexivity)) as (I4 & G4 & N4). by split_and!. }
  destruct (bu_gt _ _).
  - apply bind_Some in E as ([[ok4 db4] s4] & E4 & E). injection E as <- <-. apply SetBestChain_tree in E4 as [Ht4 _].
    destruct (Hdone s4 (pdb db4) Ht4) as (I4 & G4 & N4). by split_and!.
  - injection E as <- <-. destruct (Hdone (nd_chain n1) (pdb db3) ltac:(reflexivity)) as (I4 & G4 & N4). by split_and!.
Qed.
Lemma WriteToDisk_disk files cur b f pos files' : WriteToDisk start files cur b = Some (Some (f, pos, files')) ->
  (exists x, files' = <[f := default [] (files !! f) ++ x]> files) /\
  forall i, i_nFile i = f -> i_nBlockPos i = pos -> on_disk files' i (block_GetHash Hash9 b).
Proof.
  intros E. unfold WriteToDisk in E. apply bind_Some in E as ([f0|] & _ & E); [|done]. injection E as <- <- <-. set (old := default [] (files !! f0)).
  set (bytes := Serialize (ser_block block_null) SER_DISK CLIENT_VERSION b). split; [exists (block_record start b ++ bytes); by rewrite (app_assoc old)|]. intros i Hf Hp.
  pose proof (len_nonneg (old ++ block_record start b)). pose proof (len_nonneg bytes).
  exists b, ((old ++ block_record start b) ++ bytes), []. unfold block_files in *. rewrite Hf, lookup_insert_eq, app_nil_r, (len_app (_ ++ _)), Hp. split_and!; [done|lia|lia| |done].
  unfold len. by rewrite Nat2Z.id, drop_app_length.
Qed.

(** What the operations on checkpoints see of a node. *)
Definition sync_view (n : node_state) : DB * chain_state * sync_state := (nd_db n, nd_chain n, nd_sync n).

Lemma blocks_step n n' : index_inv n' -> grows (idx n) (idx n') -> nd_sync n' = nd_sync n -> sync_step (sync_view n) (sync_view n').
Proof. intros [Ht Hh _] Hg E. unfold sync_view. rewrite E. by apply step_blocks. Qed.

(** [AcceptBlock] keeps the invariant; a block that it accepts passed the rules on
    top of its parent and is an entry of the index. *)
Lemma AcceptBlock_inv n b r n' : index_inv n -> AcceptBlock n b = Some (r, n') ->
  index_inv n' /\ grows (idx n) (idx n') /\ same_orphans n n' /\ rtc sync_step (sync_view n) (sync_view n') /\
  match r with
  | Refuse _ => True
  | Accept _ => (exists f pos, indexed (idx n) (idx n') b f pos /\ WriteToDisk start (nd_files n) (nCurrentBlockFile n) b = Some (Some (f, pos, nd_files n'))) /\
      exists q, mapBlockIndex (idx n) !! hashPrevBlock b = Some q /\
      accept_rules n b (block_GetHash Hash9 b) q = Some (Accept tt)
  end.
Proof.
  intros Hinv E. unfold Process.AcceptBlock in E. case_bool_decide as Hdup; [injection E as <- <-; by split_and!; [|apply grows_refl|..]|].
  destruct (mapBlockIndex (idx n) !! hashPrevBlock b) as [q|] eqn:Eq; [|injection E as <- <-; by split_and!; [|apply grows_refl|..]].
  apply bind_Some in E as ([dos|[]] & Er & E); [injection E as <- <-; by split_and!; [|apply grows_refl|..]|].
  destruct (CheckDiskSpace _); cbn [negb] in E; [|injection E as <- <-; by split_and!; [|apply grows_refl|..]].
  apply bind_Some in E as ([[[f pos] files]|] & Ew & E); [|injection E as <- <-; by split_and!; [|apply grows_refl|..]].
  destruct (WriteToDisk_disk _ _ _ _ _ _ Ew) as [[x ->] Hdisk]. apply bind_Some in E as ([ok n1] & E1 & E).
  destruct (AddToBlockIndex_inv _ _ _ _ _ _ (inv_files n f x f Hinv) Hdisk E1) as (Hinv1 & Hg & Hfi & Hsy & Ho & Hok).
  pose proof (blocks_step n n1 Hinv1 Hg Hsy) as Hst.
  destruct ok; cbn [negb] in E; [|injection E as <- <-; by split_and!; [| | |apply rtc_once|]]. apply bind_Some in E as ([[[ok2 d2] s2] y2] & E2 & E). injection E as <- <-.
  assert (Hst2 : sync_step (sync_view n1) (d2, s2, y2)) by (eapply step_pending; exact E2). apply pending_tree in E2.
  split_and!; [by apply (inv_same_tree n1)|by eapply grows_trans, same_tree_grows|done|by eapply rtc_l, rtc_once; [exact Hst|exact Hst2]| |by exists q].
  exists f, pos. split; [by eapply indexed_tree; [|apply Hok]|]. cbn. by rewrite Hfi.
Qed.
(** ** The orphans that waited for a block *)

Lemma GetProofOfStake_total b : is_Some (GetProofOfStake b).
Proof.
  unfold GetProofOfStake, block_IsProofOfStake, IsCoinStake. destruct (vtx b) as [|? [|tx ?]]; [done..|]. destruct (vin tx); [done|]. case_match; done.
Qed.

(** Deleting an orphan and its entries. *)
Lemma orphans_delete h m l x p b : orphans_ok h m l -> (x, p) ∈ l -> h !! p = Some b ->
  orphans_ok (delete p h) (delete (block_GetHash Hash9 b) m) (filter (fun e => snd e <> p) l).
Proof.
  intros (Hm & Hl & Hn) Hin Hb. destruct (Hl _ _ Hin) as (b0 & Eb0 & Hx & Emb). rewrite Hb in Eb0. injection Eb0 as <-. split_and!.
  - intros y q [Hne Eq]%lookup_delete_Some. destruct (Hm _ _ Eq) as (c & Ec & Hc & Hcl). assert (q <> p) by (intros ->; rewrite Hb in Ec; congruence).
    exists c. rewrite lookup_delete_ne, list_elem_of_filter by done. done.
  - intros y q [Hne Hq]%list_elem_of_filter. cbn in Hne. destruct (Hl _ _ Hq) as (c & Ec & Hy & Emc). exists c. rewrite !lookup_delete_ne; [done| |done].
    intros Heq. rewrite Heq, Emc in Emb. congruence.
  - clear - Hn. induction l as [|[y q] l IH]; [done|]. rewrite fmap_cons, NoDup_cons in Hn. destruct Hn as [Hq Hn]. rewrite filter_cons. destruct (decide _); [|by apply IH].
    rewrite fmap_cons, NoDup_cons. split; [|by apply IH]. intros ([z r] & Hr & Hin)%list_elem_of_fmap. cbn in Hr. subst r. apply list_elem_of_filter in Hin as [_ Hin]. by eapply Hq, elem_of_snd.
Qed.

(** Nothing but the orphans differs. *)
Definition but_orphans (n m : node_state) : Prop := exists h o l seen, m = set_orphans h o l seen n.

(** The log of the calls of [AcceptBlock] between two states, in their order: each
    was made when the parent of its block was in the index, and between the calls
    only the orphans changed. *)
Inductive tried : node_state -> list (CBlock * verdict unit) -> node_state -> Prop :=
  | tried_none n n' : but_orphans n n' -> tried n [] n'
  | tried_block n m c r n1 l n' : but_orphans n m -> is_Some (mapBlockIndex (idx m) !! hashPrevBlock c) -> AcceptBlock m c = Some (r, n1) -> tried n1 l n' ->
      tried n ((c, r) :: l) n'.

(** The hashes of the blocks that the log says were accepted. *)
Definition accepted (l : list (CBlock * verdict unit)) : list base_uint :=
  omap (fun '(c, r) => match r with Accept _ => Some (block_GetHash Hash9 c) | Refuse _ => None end) l.

(** The orphans that waited for one of the blocks. *)
Definition waited (acc : list base_uint) (n : node_state) : list CBlock :=
  omap (fun '(_, p) => orphan_blocks n !! p) (filter (fun '(x, _) => x ∈ acc) (mapOrphanBlocksByPrev n)).

Lemma but_orphans_refl n : but_orphans n n.
Proof. exists (orphan_blocks n), (mapOrphanBlocks n), (mapOrphanBlocksByPrev n), (setStakeSeenOrphan n). by destruct n. Qed.

Lemma tried_before n m l n' : but_orphans n m -> tried m l n' -> tried n l n'.
Proof.
  intros (h & o & g & s & ->) Ht. inversion Ht as [? ? (h1 & o1 & g1 & s1 & ->)|? ? c r n1 k ? (h1 & o1 & g1 & s1 & ->) Hp E Hk]; subst.
  - apply tried_none. by exists h1, o1, g1, s1.
  - eapply tried_block; [by exists h1, o1, g1, s1|exact Hp|exact E|exact Hk].
Qed.

Lemma tried_app n l m k n' : tried n l m -> tried m k n' -> tried n (l ++ k) n'.
Proof. induction 1 as [n m Hb|n m c r n1 l m' Hb Hp E _ IH]; intros Hk; cbn [app]; [by eapply tried_before|eapply tried_block; [exact Hb|exact Hp|exact E|by apply IH]]. Qed.

Lemma accepted_app l k : accepted (l ++ k) = accepted l ++ accepted k.
Proof. apply omap_app. Qed.

(** What the log says was accepted is in the index. *)
Lemma tried_indexed n l n' : tried n l n' -> index_inv n -> index_inv n' /\ grows (idx n) (idx n') /\ forall x, x ∈ accepted l -> is_Some (mapBlockIndex (idx n') !! x).
Proof.
  induction 1 as [n n' (h & o & g & s & ->)|n m c r n1 l n' (h & o & g & s & ->) Hp E _ IH]; intros Hinv.
  - split_and!; [by apply (inv_same_tree n)|apply grows_refl|]. intros x Hx. by apply elem_of_nil in Hx.
  - set (m := set_orphans h o g s n) in *. assert (Hm : index_inv m) by (by apply (inv_same_tree n)). destruct (AcceptBlock_inv _ _ _ _ Hm E) as (I1 & G1 & _ & _ & Hr).
    destruct (IH I1) as (I2 & G2 & A2). split_and!; [done|exact (grows_trans _ _ _ G1 G2)|]. unfold accepted. cbn [omap list_omap]. destruct r as [dos|[]]; [exact A2|].
    intros x [->|Hx]%elem_of_cons; [|by apply A2]. destruct Hr as [(f & pos & (p & i & Ep & _) & _) _]. exists p. by apply (proj2 G2).
Qed.

Lemma try_orphans_spec ps : forall g n more n', index_inv n -> orphans_ok (orphan_blocks n) (mapOrphanBlocks n) g -> NoDup ps -> ps ⊆ (snd <$> g) ->
  (forall p c, p ∈ ps -> orphan_blocks n !! p = Some c -> is_Some (mapBlockIndex (idx n) !! hashPrevBlock c)) -> try_orphans ps n = Some (more, n') ->
  index_inv n' /\ grows (idx n) (idx n') /\ rtc sync_step (sync_view n) (sync_view n') /\ mapOrphanBlocksByPrev n' = mapOrphanBlocksByPrev n /\
  orphans_ok (orphan_blocks n') (mapOrphanBlocks n') (filter (fun e => snd e ∉ ps) g) /\ (forall p, p ∉ ps -> orphan_blocks n' !! p = orphan_blocks n !! p) /\
  orphan_blocks n' ⊆ orphan_blocks n /\ (length more <= length ps)%nat /\
  exists l, tried n l n' /\ fst <$> l = omap (fun p => orphan_blocks n !! p) ps /\ more = accepted l.
Proof.
  induction ps as [|p ps IH]; intros g n more n' Hinv Ho Hnd Hsub Hpar E; cbn [Process.try_orphans] in E.
  { injection E as <- <-. split_and!; [done|apply grows_refl|done|done| |done|done|done|exists []; split_and!; [apply tried_none, but_orphans_refl|done|done]].
    rewrite filter_all; [done|]. intros e _. apply not_elem_of_nil. }
  apply NoDup_cons in Hnd as [Hp Hnd]. assert (exists x, (x, p) ∈ g) as [x Hx].
  { assert (Hin : p ∈ snd <$> g) by (apply Hsub; left). apply list_elem_of_fmap in Hin as ([x q] & -> & ?). by exists x. }
  apply bind_Some in E as (b & Eb & E). apply bind_Some in E as ([r n1] & E1 & E). apply bind_Some in E as (stake & _ & E).
  destruct (AcceptBlock_inv _ _ _ _ Hinv E1) as (Hinv1 & Hg1 & (O1 & O2 & O3 & O4) & Hs1 & Hr). rewrite O1, O2, O3, O4 in E. set (n2 := set_orphans _ _ _ _ n1) in E.
  assert (Hheap : forall q, q <> p -> orphan_blocks n2 !! q = orphan_blocks n !! q) by (intros q Hq; cbn; by rewrite lookup_delete_ne).
  apply bind_Some in E as ([more' n3] & E3 & E). injection E as <- <-.
  destruct (IH (filter (fun e => snd e <> p) g) n2 more' n3) as (I3 & G3 & S3 & L3 & Or3 & K3 & Sub3 & Len3 & l & T3 & F3 & M3); [| | | | |exact E3|].
  { by apply (inv_same_tree n1). }
  { by apply (orphans_delete _ _ _ x). }
  { done. }
  { intros q Hq. destruct (proj1 (list_elem_of_fmap _ _ _) (Hsub q ltac:(by right))) as ([y q'] & -> & Hy). apply list_elem_of_fmap. exists (y, q').
    split; [done|]. apply list_elem_of_filter. split; [|done]. cbn. intros ->. by apply Hp. }
  { intros q c Hq Ec. rewrite Hheap in Ec by (intros ->; done). destruct (Hpar q c ltac:(by right) Ec) as [k Ek]. exists k. by apply (proj2 Hg1). }
  split_and!.
  - done.
  - by eapply grows_trans.
  - by etransitivity.
  - by rewrite L3.
  - rewrite list_filter_filter in Or3. erewrite list_filter_iff; [exact Or3|]. intros [y q]. cbn. rewrite not_elem_of_cons. tauto.
  - intros q [Hne Hq]%not_elem_of_cons. by rewrite K3, Hheap.
  - etransitivity; [exact Sub3|apply delete_subseteq].
  - destruct r; cbn; lia.
  - exists ((b, r) :: l). split_and!.
    + eapply tried_block; [apply but_orphans_refl|by apply (Hpar p); [left|]|exact E1|]. eapply tried_before; [|exact T3]. by eexists _, _, _, _.
    + cbn [fmap list_fmap omap list_omap fst]. rewrite Eb. f_equal. fold (fst <$> l). rewrite F3. apply omap_ext_in. intros q Hq. apply Hheap. by intros ->.
    + rewrite M3. unfold accepted. cbn [omap list_omap]. by destruct r as [dos|[]].
Qed.
(** The orphans that waited for [hash] are those that the inner loop visits. *)
Lemma waiting_spec h m l hash : orphans_ok h m l -> NoDup (waiting hash l) /\ waiting hash l ⊆ (snd <$> l) /\
  filter (fun e => snd e ∉ waiting hash l) l = filter (fun '(x, _) => x <> hash) l /\ forall p x, (x, p) ∈ l -> p ∈ waiting hash l <-> x = hash.
Proof.
  intros (_ & _ & Hn). unfold waiting. assert (Hw : forall p x, (x, p) ∈ l -> p ∈ map snd (filter (fun '(x, _) => x = hash) l) <-> x = hash).
  { intros p x Hin. split.
    - intros ([y q] & -> & [-> Hq]%list_elem_of_filter)%list_elem_of_fmap. cbn in Hin. clear - Hn Hin Hq.
      induction l as [|[z r] l IH]; [by apply elem_of_nil in Hq|]. rewrite fmap_cons, NoDup_cons in Hn. destruct Hn as [Hr Hn].
      apply elem_of_cons in Hin as [Hin|Hin], Hq as [Hq|Hq]; simplify_eq; [done|..|by apply IH]; by destruct Hr; eapply elem_of_snd.
    - intros ->. apply list_elem_of_fmap. exists (hash, p). split; [done|]. by apply list_elem_of_filter. }
  split_and!; [| | |exact Hw].
  - clear Hw. induction l as [|[z r] l IH]; [constructor|]. rewrite fmap_cons, NoDup_cons in Hn. destruct Hn as [Hr Hn]. rewrite filter_cons. destruct (decide _); [|by apply IH].
    cbn. constructor; [|by apply IH]. intros ([y q] & -> & [_ Hq]%list_elem_of_filter)%list_elem_of_fmap. by eapply Hr, elem_of_snd.
  - intros p ([y q] & -> & [_ Hq]%list_elem_of_filter)%list_elem_of_fmap. by eapply elem_of_snd.
  - apply filter_ext_in. intros [x p] Hin. cbn. by rewrite Hw.
Qed.

Lemma waiting_parent hash n : orphans_ok (orphan_blocks n) (mapOrphanBlocks n) (mapOrphanBlocksByPrev n) -> is_Some (mapBlockIndex (idx n) !! hash) ->
  forall p c, p ∈ waiting hash (mapOrphanBlocksByPrev n) -> orphan_blocks n !! p = Some c -> is_Some (mapBlockIndex (idx n) !! hashPrevBlock c).
Proof.
  intros Ho Hh p c Hp Ec. destruct (waiting_spec _ _ _ hash Ho) as (_ & Hs & _ & Hw). destruct (proj1 (list_elem_of_fmap _ _ _) (Hs p Hp)) as ([x q] & -> & Hin).
  destruct Ho as (_ & Hl & _). destruct (Hl _ _ Hin) as (b & Eb & Hx & _). cbn [snd] in *. rewrite Ec in Eb. injection Eb as <-. by rewrite Hx, (proj1 (Hw _ _ Hin) Hp).
Qed.

(** One round of the outer loop takes the orphans of its hash first. *)
Lemma waited_cons hash acc n n1 : orphans_ok (orphan_blocks n) (mapOrphanBlocks n) (mapOrphanBlocksByPrev n) ->
  mapOrphanBlocksByPrev n1 = filter (fun '(x, _) => x <> hash) (mapOrphanBlocksByPrev n) ->
  (forall p, p ∉ waiting hash (mapOrphanBlocksByPrev n) -> orphan_blocks n1 !! p = orphan_blocks n !! p) ->
  waited (hash :: acc) n ≡ₚ omap (fun p => orphan_blocks n !! p) (waiting hash (mapOrphanBlocksByPrev n)) ++ waited acc n1.
Proof.
  intros Ho El Hk. destruct (waiting_spec _ _ _ hash Ho) as (_ & _ & _ & Hw).
  assert (E1 : waited acc n1 = omap (fun '(_, p) => orphan_blocks n !! p) (filter (fun '(x, _) => x ∈ acc) (mapOrphanBlocksByPrev n1))).
  { apply omap_ext_in. intros [x p] [_ Hin]%list_elem_of_filter. apply Hk. rewrite El in Hin. apply list_elem_of_filter in Hin as [Hne Hin]. by rewrite (Hw _ _ Hin). }
  rewrite E1, El. unfold waited, waiting. generalize (mapOrphanBlocksByPrev n). intros g. clear. induction g as [|[x p] g IH]; [done|].
  rewrite !filter_cons. destruct (decide (x = hash)) as [->|Hne].
  - rewrite decide_True by left. rewrite decide_False by tauto. cbn [omap list_omap map snd app]. destruct (orphan_blocks n !! p); [constructor; exact IH|exact IH].
  - rewrite (decide_True (P := x <> hash)) by done. rewrite filter_cons. destruct (decide (x ∈ acc)) as [Hx|Hx].
    + rewrite decide_True by by right. cbn [omap list_omap]. destruct (orphan_blocks n !! p); [|exact IH]. etransitivity; [constructor; exact IH|apply Permutation_middle].
    + rewrite decide_False by (intros [?|?]%elem_of_cons; done). exact IH.
Qed.

Lemma work_loop_spec fuel : forall queue n n', node_inv n -> (forall x, x ∈ queue -> is_Some (mapBlockIndex (idx n) !! x)) -> work_loop fuel queue n = Some n' ->
  node_inv n' /\ grows (idx n) (idx n') /\ rtc sync_step (sync_view n) (sync_view n') /\
  exists l, tried n l n' /\ fst <$> l ≡ₚ waited (queue ++ accepted l) n /\
    mapOrphanBlocksByPrev n' = filter (fun '(x, _) => x ∉ queue ++ accepted l) (mapOrphanBlocksByPrev n) /\
    (forall x p, (x, p) ∈ mapOrphanBlocksByPrev n' -> orphan_blocks n' !! p = orphan_blocks n !! p).
Proof.
  induction fuel as [|fuel IH]; intros [|h queue] n n' [Hinv Ho] Hq E; cbn [Process.work_loop] in E; try done; try injection E as <-.
  1,2: split_and!; [done|apply grows_refl|done|]; exists []; split_and!; [apply tried_none, but_orphans_refl| | |done];
    [unfold waited; rewrite filter_none; [done|]; intros [x p] _; apply not_elem_of_nil|rewrite filter_all; [done|]; intros [x p] _; apply not_elem_of_nil].
  apply bind_Some in E as ([more n1] & E1 & E). set (n2 := set_orphans _ _ _ _ n1) in E. destruct (waiting_spec _ _ _ h Ho) as (Wn & Ws & Wf & Wi).
  destruct (try_orphans_spec _ _ _ _ _ Hinv Ho Wn Ws (waiting_parent h n Ho (Hq h ltac:(left))) E1) as (I1 & G1 & S1 & L1 & Or1 & K1 & _ & _ & l1 & T1 & F1 & ->).
  rewrite Wf in Or1. assert (L2 : mapOrphanBlocksByPrev n2 = filter (fun '(x, _) => x <> h) (mapOrphanBlocksByPrev n)) by (cbn; by rewrite L1).
  destruct (IH (queue ++ accepted l1) n2 n') as (I3 & G3 & S3 & l2 & T2 & F2 & L3 & K3); [| |exact E|].
  { split; [by apply (inv_same_tree n1)|]. rewrite L2. exact Or1. }
  { intros x [Hx|Hx]%elem_of_app; [destruct (Hq x ltac:(by right)) as [k Ek]; exists k; by apply (proj2 G1)|]. by apply (tried_indexed _ _ _ T1 Hinv). }
  split_and!; [done|by eapply grows_trans|by etransitivity|]. exists (l1 ++ l2).
  assert (Eacc : (h :: queue) ++ accepted (l1 ++ l2) = h :: (queue ++ accepted l1) ++ accepted l2) by (by rewrite accepted_app, <- (app_assoc queue)). rewrite Eacc. split_and!.
  - eapply tried_app; [exact T1|]. eapply tried_before; [|exact T2]. by eexists _, _, _, _.
  - rewrite fmap_app, F1, F2. symmetry. by apply waited_cons.
  - rewrite L3, L2, list_filter_filter. apply list_filter_iff. intros [x p]. rewrite not_elem_of_cons. tauto.
  - intros x p Hin. rewrite (K3 x p Hin). rewrite L3, L2 in Hin. apply list_elem_of_filter in Hin as [_ Hin]. apply list_elem_of_filter in Hin as [Hne Hin].
    apply K1. by rewrite (Wi _ _ Hin).
Qed.

(** The loops stop, and only an error of [AcceptBlock] on an orphan ends them early. *)
Lemma try_orphans_total ps : forall n, index_inv n -> NoDup ps -> (forall p, p ∈ ps -> is_Some (orphan_blocks n !! p)) ->
  (forall p c, p ∈ ps -> orphan_blocks n !! p = Some c -> is_Some (mapBlockIndex (idx n) !! hashPrevBlock c)) -> try_orphans ps n = None ->
  exists l m p c, tried n l m /\ orphan_blocks n !! p = Some c /\ is_Some (mapBlockIndex (idx m) !! hashPrevBlock c) /\ AcceptBlock m c = None.
Proof.
  induction ps as [|p ps IH]; intros n Hinv Hnd Hlive Hpar E; cbn [Process.try_orphans] in E; [done|]. apply NoDup_cons in Hnd as [Hp Hnd].
  destruct (Hlive p ltac:(left)) as [b Eb]. pose proof (Hpar p b ltac:(left) Eb) as Hb. rewrite Eb in E. cbn [mbind option_bind] in E.
  destruct (AcceptBlock n b) as [[r n1]|] eqn:E1; [|exists [], n, p, b; split_and!; [apply tried_none, but_orphans_refl|done..]].
  destruct (AcceptBlock_inv _ _ _ _ Hinv E1) as (Hinv1 & Hg1 & (O1 & _) & _). cbn [mbind option_bind] in E. destruct (GetProofOfStake_total b) as [stake Es]. rewrite Es in E.
  cbn [mbind option_bind] in E. set (n2 := set_orphans _ _ _ _ n1) in E. destruct (try_orphans ps n2) as [[? ?]|] eqn:E2; [done|].
  assert (Hheap : forall q, q ∈ ps -> orphan_blocks n2 !! q = orphan_blocks n !! q) by (intros q Hq; cbn; rewrite O1, lookup_delete_ne; [done|by intros ->]).
  destruct (IH n2) as (l & m & q & c & T & Ec & Hc & E3); [by apply (inv_same_tree n1)|done| | |done|].
  - intros q Hq. rewrite Hheap by done. apply Hlive. by right.
  - intros q c Hq Ec. rewrite Hheap in Ec by done. destruct (Hpar q c ltac:(by right) Ec) as [k Ek]. exists k. by apply (proj2 Hg1).
  - exists ((b, r) :: l), m, q, c. split_and!; [|cbn in Ec; rewrite O1 in Ec; by apply lookup_delete_Some in Ec as [_ ?]|done|done].
    eapply tried_block; [apply but_orphans_refl|done|exact E1|]. eapply tried_before; [|exact T]. by eexists _, _, _, _.
Qed.

Lemma work_loop_total fuel : forall queue n, node_inv n -> (forall x, x ∈ queue -> is_Some (mapBlockIndex (idx n) !! x)) ->
  (length queue + length (mapOrphanBlocksByPrev n) <= fuel)%nat -> work_loop fuel queue n = None ->
  exists l m p c, tried n l m /\ orphan_blocks n !! p = Some c /\ is_Some (mapBlockIndex (idx m) !! hashPrevBlock c) /\ AcceptBlock m c = None.
Proof.
  induction fuel as [|fuel IH]; intros [|h queue] n [Hinv Ho] Hq Hfuel E; cbn [Process.work_loop] in E; try done; [cbn in Hfuel; lia|].
  destruct (waiting_spec _ _ _ h Ho) as (Wn & Ws & Wf & Wi). pose proof (waiting_parent h n Ho (Hq h ltac:(left))) as Hpar. destruct (try_orphans _ n) as [[more n1]|] eqn:E1.
  - destruct (try_orphans_spec _ _ _ _ _ Hinv Ho Wn Ws Hpar E1) as (I1 & G1 & S1 & L1 & Or1 & _ & Sub1 & Len1 & l1 & T1 & _ & Em). rewrite Wf in Or1.
    cbn [mbind option_bind] in E. set (n2 := set_orphans _ _ _ _ n1) in E.
    assert (L2 : mapOrphanBlocksByPrev n2 = filter (fun '(x, _) => x <> h) (mapOrphanBlocksByPrev n)) by (cbn; by rewrite L1).
    assert (Hinv2 : node_inv n2) by (split; [by apply (inv_same_tree n1)|]; rewrite L2; exact Or1).
    destruct (IH (queue ++ more) n2 Hinv2) as (l & m & q & c & T & Ec & Hc & E3); [| |done|].
    + intros x [Hx|Hx]%elem_of_app; [destruct (Hq x ltac:(by right)) as [k Ek]; exists k; by apply (proj2 G1)|]. rewrite Em in Hx. by apply (tried_indexed _ _ _ T1 Hinv).
    + rewrite L2, length_app. unfold waiting in Len1. rewrite length_map in Len1. pose proof (filter_split (fun e => fst e = h) (mapOrphanBlocksByPrev n)) as Hsp.
      rewrite (list_filter_iff (fun '(x, _) => x = h) (fun e => fst e = h)) in Len1 by (by intros []).
      rewrite (list_filter_iff (fun '(x, _) => x <> h) (fun e => ~ fst e = h)) by (by intros []). cbn [length] in Hfuel. lia.
    + exists (l1 ++ l), m, q, c. split_and!; [|by apply (lookup_weaken _ _ _ _ Ec Sub1)|done|done].
      eapply tried_app; [exact T1|]. eapply tried_before; [|exact T]. by eexists _, _, _, _.
  - apply (try_orphans_total _ n Hinv Wn); [|done|done]. intros p Hp. destruct (proj1 (list_elem_of_fmap _ _ _) (Ws p Hp)) as ([x q] & -> & Hin).
    destruct Ho as (_ & Hl & _). destruct (Hl _ _ Hin) as (b & Eb & _). by exists b.
Qed.
(** ** [ProcessBlock] *)

Abbreviation preliminary := (preliminary Hash9 limit stakeLimit hashGenesis nModifierInterval nStakeMinAge nStakeMaxAge GetRandHash nMaxCacheSize).
Abbreviation ProcessBlock := (ProcessBlock Hash9 limit stakeLimit hashGenesis start fTestNet testnetNumber nModifierInterval nStakeMinAge nStakeMaxAge
  nCoinbaseMaturity fNoSync GetRandHash nMaxCacheSize adjusted_time now CheckDiskSpace).

(** The checks touch the signature cache and the proofs of stake only. *)
Lemma preliminary_kept n b ok n' : preliminary n b = Some (ok, n') ->
  idx n' = idx n /\ nd_files n' = nd_files n /\ setStakeSeen n' = setStakeSeen n /\ nd_sync n' = nd_sync n /\ same_orphans n n'.
Proof.
  intros E. unfold Process.preliminary in E. apply bind_Some in E as ([] & _ & E); [by injection E as <- <-|].
  apply bind_Some in E as ([dos|[]] & _ & E); [by injection E as <- <-|]. apply bind_Some in E as ([ok1 n1] & E1 & E).
  assert (Hk : idx n1 = idx n /\ nd_files n1 = nd_files n /\ setStakeSeen n1 = setStakeSeen n /\ nd_sync n1 = nd_sync n /\ same_orphans n n1).
  { destruct (block_IsProofOfStake b); [|by injection E1 as <- <-]. apply bind_Some in E1 as (tx & _ & E1). apply bind_Some in E1 as ([r c] & _ & E1).
    by destruct r; injection E1 as <- <-. }
  destruct ok1; cbn [negb] in E; [|by injection E as <- <-]. destruct (GetLastSyncCheckpoint _ _); [|by injection E as <- <-].
  destruct (bu_eq _ _); [by injection E as <- <-|]. apply bind_Some in E as ([] & _ & E); [by injection E as <- <-|].
  apply bind_Some in E as (enough & _ & E). by injection E as <- <-.
Qed.

Lemma add_orphan_inv n b ok n' : node_inv n -> mapOrphanBlocks n !! block_GetHash Hash9 b = None -> add_orphan Hash9 n b = Some (ok, n') ->
  node_inv n' /\ sync_view n' = sync_view n.
Proof.
  intros [Hinv Ho] Hnew E. unfold add_orphan in E. set (p := fresh _) in E. assert (Hp : orphan_blocks n !! p = None) by apply not_elem_of_dom, is_fresh.
  assert (Hold : forall q c, orphan_blocks n !! q = Some c -> <[p := b]> (orphan_blocks n) !! q = Some c).
  { intros q c Eq. rewrite lookup_insert_ne; [done|]. intros ->. by rewrite Hp in Eq. }
  destruct Ho as (Hm & Hl & Hn). apply bind_Some in E as (stake & _ & E). apply bind_Some in E as ([] & _ & E); injection E as <- <-; (split; [|done]);
    (split; [by apply (inv_same_tree n)|]); cbn.
  - split_and!; [|by intros x q Hq; destruct (Hl _ _ Hq) as (c & Ec & ?); exists c; rewrite (Hold _ _ Ec)|done].
    intros x q Hq. destruct (Hm _ _ Hq) as (c & Ec & ?). exists c. by rewrite (Hold _ _ Ec).
  - unfold map_insert_new. rewrite Hnew. split_and!.
    + intros x q [[<- <-]|[Hne Hq]]%lookup_insert_Some; [exists b; rewrite lookup_insert_eq; split_and!; [done|done|apply elem_of_app; right; left]|].
      destruct (Hm _ _ Hq) as (c & Ec & Hc & Hin). exists c. rewrite (Hold _ _ Ec). split_and!; [done|done|apply elem_of_app; by left].
    + intros x q [Hin|Hin]%elem_of_app.
      * destruct (Hl _ _ Hin) as (c & Ec & Hc & Hmc). exists c. rewrite (Hold _ _ Ec). split_and!; [done|done|]. rewrite lookup_insert_ne; [done|]. intros Heq. congruence.
      * apply list_elem_of_singleton in Hin as [= -> ->]. exists b. by rewrite !lookup_insert_eq.
    + rewrite fmap_app. apply NoDup_app. split_and!; [done| |apply NoDup_singleton]. intros q Hq Hq'. apply list_elem_of_singleton in Hq' as ->.
      apply list_elem_of_fmap in Hq as ([x r] & Hr & Hin). cbn in Hr. subst r. destruct (Hl _ _ Hin) as (c & Ec & _). congruence.
Qed.

(** The work queue starts with a block of the index. *)
Lemma accepted_queued n b n' : index_inv n -> AcceptBlock n b = Some (Accept tt, n') -> forall x, x ∈ [block_GetHash Hash9 b] -> is_Some (mapBlockIndex (idx n') !! x).
Proof. intros Hinv E x ->%list_elem_of_singleton. destruct (AcceptBlock_inv _ _ _ _ Hinv E) as (_ & _ & _ & _ & (f & pos & (p & i & Ep & _) & _) & _). by exists p. Qed.

Lemma ProcessBlock_inv n b ok n' : node_inv n -> ProcessBlock n b = Some (ok, n') ->
  node_inv n' /\ grows (idx n) (idx n') /\ rtc sync_step (sync_view n) (sync_view n').
Proof.
  intros [Hinv Ho] E. unfold Process.ProcessBlock in E. destruct (bool_decide _); [injection E as <- <-; by split_and!; [|apply grows_refl|]|].
  case_bool_decide as Hdup; [injection E as <- <-; by split_and!; [|apply grows_refl|]|]. apply eq_None_not_Some in Hdup. apply bind_Some in E as ([ok1 n1] & E1 & E).
  destruct (preliminary_kept _ _ _ _ E1) as (K1 & K2 & K3 & K4 & O1 & O2 & O3 & O4). assert (Hinv1 : node_inv n1).
  { split; [apply (inv_same_tree n); [done|by rewrite K1|done|done]|by rewrite O1, O2, O3]. }
  assert (Hg1 : grows (idx n) (idx n1)) by (rewrite K1; apply grows_refl). pose proof (blocks_step n n1 Hinv1 Hg1 K4) as Hs1.
  destruct ok1; cbn [negb] in E; [|injection E as <- <-; by split_and!; [| |apply rtc_once]]. case_bool_decide as Hprev.
  - rewrite <- O2 in Hdup. destruct (add_orphan_inv _ _ _ _ Hinv1 Hdup E) as [Hinv' Hv]. split_and!; [done| |rewrite Hv; by apply rtc_once].
    unfold sync_view in Hv. injection Hv as _ Hv _. by rewrite Hv.
  - apply bind_Some in E as ([r n2] & E2 & E). destruct (AcceptBlock_inv _ _ _ _ (ni_index _ Hinv1) E2) as (Hinv2 & Hg2 & (P1 & P2 & P3 & P4) & Hs2 & _).
    assert (Hn2 : node_inv n2) by (split; [done|rewrite P1, P2, P3; apply Hinv1]). destruct r as [dos|[]].
    + injection E as <- <-. split_and!; [done|by eapply grows_trans|by eapply rtc_l].
    + apply bind_Some in E as (n3 & E3 & E). injection E as <- <-. destruct (work_loop_spec _ _ _ _ Hn2 (accepted_queued _ _ _ (ni_index _ Hinv1) E2) E3) as (Hn3 & Hg3 & Hs3 & _).
      split_and!; [done|by eapply grows_trans; [|eapply grows_trans]|eapply rtc_l; [exact Hs1|by etransitivity]].
Qed.
End time.

(** ** What a node can do *)

(** A block arrives, or a checkpoint message; each has its own time. *)
Inductive node_step : node_state -> node_state -> Prop :=
  | step_block t now disk n b ok n' : ProcessBlock Hash9 limit stakeLimit hashGenesis start fTestNet testnetNumber nModifierInterval nStakeMinAge nStakeMaxAge
      nCoinbaseMaturity fNoSync GetRandHash nMaxCacheSize t now disk n b = Some (ok, n') -> node_step n n'
  | step_checkpoint t now n this ok this' d s y : ProcessSyncCheckpoint Hash9 limit hashGenesis (nd_files n) fTestNet nStakeMinAge nCoinbaseMaturity
      (GetTotalBlocksEstimate fTestNet testnetNumber) GetRandHash nMaxCacheSize t now (nd_db n) (nd_chain n) (nd_sync n) this = Some (ok, this', d, s, y) ->
      node_step n (set_checkpoint d s y n).

Lemma node_step_inv n n' : node_step n n' -> node_inv n -> node_inv n' /\ grows (idx n) (idx n') /\ rtc sync_step (sync_view n) (sync_view n').
Proof.
  intros Hs Hn. destruct Hs as [t now disk n b ok n' E|t now n this ok this' d s y E]; [by eapply ProcessBlock_inv|].
  pose proof E as Ht. apply process_tree in Ht.
  split_and!; [|by apply same_tree_grows|apply rtc_once; by eapply step_receive]. split; [apply (inv_same_tree n); [apply Hn|done..]|apply Hn].
Qed.


(** ** Acceptance *)

(** The rules that a block of height [h] on top of [q] obeys. *)
Record placed (t : Z) (n : node_state) (b : CBlock) (q : ptr) (h : Z) : Prop := {
  pl_work : block_IsProofOfWork b = true -> h <= CUTOFF_POW_BLOCK;
  pl_bits : GetNextTargetRequired limit stakeLimit (idx n) (Some q) (block_IsProofOfStake b) = Some (b_nBits b);
  pl_clock : GetBlockTime b <= t + GetMaxClockDrift h;
  pl_coinbase : exists coinbase txin, vtx b !! 0%nat = Some coinbase /\ GetBlockTime b <= tx_nTime coinbase + GetMaxClockDrift h /\
    vin coinbase !! 0%nat = Some txin /\ std_equal (push_int64 [] h) (scriptSig txin) = Some true;
  pl_final : Forall (fun tx => tx_IsFinal (nBestHeight (nd_chain n)) t tx h (GetBlockTime b) = true) (vtx b);
  pl_hardened : CheckHardened fTestNet testnetNumber h (block_GetHash Hash9 b) = true;
  pl_sync : fNoSync = true \/ CheckSync fTestNet (idx n) (nd_sync n) (block_GetHash Hash9 b) q = Some true;
  pl_version : fTestNet = false -> 14060 < h -> 3 <= b_nVersion b
}.

Lemma accept_rules_placed t n b q j : deref (idx n) q = Some j ->
  Process.accept_rules limit stakeLimit fTestNet testnetNumber fNoSync t n b (block_GetHash Hash9 b) q = Some (Accept tt) -> placed t n b q (nHeight j + 1).
Proof.
  intros Ej E. unfold Process.accept_rules in E. rewrite Ej in E. cbn [mbind option_bind] in E. set (h := nHeight j + 1) in *.
  destruct (block_IsProofOfWork b && _) eqn:Ew in E; [done|]. apply bind_Some in E as (bits & Ebits & E). destruct (Z.eqb_spec (b_nBits b) bits) as [Hb|]; cbn [negb] in E; [|done].
  destruct (Z.ltb_spec (t + GetMaxClockDrift h) (GetBlockTime b)) as [|Hclock]; [done|]. apply bind_Some in E as (cb & Ecb & E).
  destruct (Z.ltb_spec (tx_nTime cb + GetMaxClockDrift h) (GetBlockTime b)) as [|Hcb]; [done|]. destruct (forallb _ _) eqn:Hfin in E; cbn [negb] in E; [|done].
  destruct (CheckHardened _ _ _ _) eqn:Hh in E; cbn [negb] in E; [|done]. apply bind_Some in E as (sync & Esync & E).
  destruct (negb sync && negb fNoSync) eqn:Hsy in E; [done|]. destruct ((b_nVersion b <? 3) && _) eqn:Hv in E; [done|].
  apply bind_Some in E as (txin & Etx & E). apply bind_Some in E as (ok & Eok & E). destruct ok; cbn [negb] in E; [|done]. split.
  - intros Hw. rewrite Hw in Ew. cbn [andb] in Ew. by apply Z.ltb_ge in Ew.
  - by rewrite Ebits, Hb.
  - lia.
  - by exists cb, txin.
  - apply Forall_forall. intros tx Hin. rewrite forallb_forall in Hfin. apply Hfin. by apply list_elem_of_In.
  - done.
  - destruct sync, fNoSync; cbn in Hsy; [by left|by right|by left|done].
  - intros -> Hlt. cbn in Hv. destruct (Z.ltb_spec 14060 h); [|lia]. cbn in Hv. rewrite andb_true_r in Hv. by apply Z.ltb_ge in Hv.
Qed.

(** (C5) Only blocks that follow the rules enter the chain.  A block that
    [AcceptBlock] accepts was unknown and has a known parent; it has the required
    target, plausible times, final transactions, its height in the coinbase, agrees
    with the hardened and the synchronized checkpoints, and is no work block after
    the cut-off.  Afterwards it is a new entry of the index one above its parent,
    with the parent's chain trust plus its own, at the position in the block files
    where it was written; all other entries and the orphans are as before.  A refused
    block leaves the invariant and the orphans as they were too. *)
Theorem accept_block_spec t now disk n b r n' : index_inv n ->
  AcceptBlock Hash9 limit stakeLimit hashGenesis start fTestNet testnetNumber nModifierInterval nStakeMinAge nCoinbaseMaturity fNoSync GetRandHash nMaxCacheSize
    t now disk n b = Some (r, n') ->
  index_inv n' /\ grows (idx n) (idx n') /\ same_orphans n n' /\
  match r with
  | Refuse _ => True
  | Accept _ => exists q j, mapBlockIndex (idx n) !! hashPrevBlock b = Some q /\ heap (idx n) !! q = Some j /\ placed t n b q (nHeight j + 1) /\
      exists p i w f pos, heap (idx n) !! p = None /\ mapBlockIndex (idx n') !! block_GetHash Hash9 b = Some p /\ heap (idx n') !! p = Some i /\
        pprev i = Some q /\ nHeight i = nHeight j + 1 /\ GetBlockTrust limit i = Some w /\ bnChainTrust i = bu_add (bnChainTrust j) w /\
        i_nFile i = f /\ i_nBlockPos i = pos /\ WriteToDisk start (nd_files n) (nCurrentBlockFile n) b = Some (Some (f, pos, nd_files n'))
  end.
Proof.
  intros Hinv E. destruct (AcceptBlock_inv _ _ _ _ _ _ _ Hinv E) as (Hinv' & Hg & Ho & _ & Hr). split_and!; [done..|]. destruct r as [dos|[]]; [done|].
  destruct Hr as ((f & pos & (p & i & Ep & Ei & Hprev & Hfresh & Hf & Hpos) & Hw) & q & Eq & Hrules). destruct (iw_map _ (ni_tree _ Hinv) _ _ Eq) as [j Ej].
  exists q, j. split_and!; [done|done|by apply accept_rules_placed|]. rewrite Eq in Hprev. destruct (proj1 Hg _ _ Ej) as (j' & Ej' & Hj).
  pose proof (iw_prev _ (ni_tree _ Hinv') _ _ Ei) as Hh. destruct (ni_entries _ Hinv' _ _ Ei) as ((w & Ew & Ht) & _). rewrite Hprev in Hh, Ht.
  destruct Hh as (j1 & Ej1 & Hh), Ht as (j2 & Ej2 & Ht). rewrite Ej' in Ej1, Ej2. injection Ej1 as <-. injection Ej2 as <-.
  destruct (shape_fields _ _ Hj) as (_ & _ & _ & _ & Hhj & _). destruct (shape_more _ _ Hj) as (Htj & _).
  exists p, i, w, f, pos. split_and!; congruence.
Qed.

(** (C6) Orphans do not wait in vain.  When a block with a known parent is accepted,
    every orphan that waited for it is taken out and tried, and so on for every
    orphan that this accepts.  The log [l] lists the blocks that were given to
    [AcceptBlock] after [b], each in the state that the one before left and with its
    parent in the index: they are exactly the orphans that waited for [b] or for a
    block that the log says was accepted, each tried once; what was accepted is in
    the index.  The orphans that are left are those that waited for none of these
    blocks, each still with its block.  A refused block leaves the orphans alone.
    The work queue empties within one round per orphan: if there is no answer, then
    the checks had none, or [AcceptBlock] had none for the block or for an orphan, in
    the state that the calls before had led to. *)
Theorem orphans_are_connected t now disk n b : node_inv n -> mapBlockIndex (idx n) !! hashPrevBlock b <> None ->
  match ProcessBlock Hash9 limit stakeLimit hashGenesis start fTestNet testnetNumber nModifierInterval nStakeMinAge nStakeMaxAge
          nCoinbaseMaturity fNoSync GetRandHash nMaxCacheSize t now disk n b with
  | Some (true, n') => exists n1 (l : list (CBlock * verdict unit)), Process.preliminary Hash9 limit stakeLimit hashGenesis nModifierInterval nStakeMinAge nStakeMaxAge GetRandHash nMaxCacheSize n b = Some (true, n1) /\ tried t now disk n1 ((b, Accept tt) :: l) n' /\
      let acc := block_GetHash Hash9 b :: accepted l in
      fst <$> l ≡ₚ waited acc n /\ (forall x, x ∈ acc -> is_Some (mapBlockIndex (idx n') !! x)) /\
      mapOrphanBlocksByPrev n' = filter (fun '(x, _) => x ∉ acc) (mapOrphanBlocksByPrev n) /\
      (forall x p, (x, p) ∈ mapOrphanBlocksByPrev n' -> orphan_blocks n' !! p = orphan_blocks n !! p)
  | Some (false, n') => mapOrphanBlocksByPrev n' = mapOrphanBlocksByPrev n /\ orphan_blocks n' = orphan_blocks n
  | None => Process.preliminary Hash9 limit stakeLimit hashGenesis nModifierInterval nStakeMinAge nStakeMaxAge GetRandHash nMaxCacheSize n b = None \/
      exists n1 l m c, Process.preliminary Hash9 limit stakeLimit hashGenesis nModifierInterval nStakeMinAge nStakeMaxAge GetRandHash nMaxCacheSize n b = Some (true, n1) /\ tried t now disk n1 l m /\ (c = b \/ exists p, orphan_blocks n !! p = Some c) /\
        is_Some (mapBlockIndex (idx m) !! hashPrevBlock c) /\
        AcceptBlock Hash9 limit stakeLimit hashGenesis start fTestNet testnetNumber nModifierInterval nStakeMinAge nCoinbaseMaturity fNoSync GetRandHash
          nMaxCacheSize t now disk m c = None
  end.
Proof.
  intros Hn Hprev%not_eq_None_Some. destruct (ProcessBlock _ _ _ _ _ _ _ _ _ _ _ _ _ _ _ _ _ n b) as [[ok n']|] eqn:E; unfold Process.ProcessBlock in E;
    (destruct (bool_decide (is_Some _)) in E; [by try injection E as <- <-|]); (destruct (bool_decide (is_Some _)) in E; [by try injection E as <- <-|]).
  - apply bind_Some in E as ([ok1 n1] & E1 & E). destruct (preliminary_kept _ _ _ _ E1) as (K1 & K2 & K3 & K4 & O1 & O2 & O3 & O4).
    destruct ok1; cbn [negb] in E; [|by injection E as <- <-]. rewrite <- K1 in Hprev. case_bool_decide as Hp; [by rewrite Hp in Hprev; destruct Hprev|].
    assert (Hinv1 : index_inv n1) by (apply (inv_same_tree n); [apply Hn|by rewrite K1|done|done]). apply bind_Some in E as ([r n2] & E2 & E).
    destruct (AcceptBlock_inv _ _ _ _ _ _ _ Hinv1 E2) as (Hinv2 & Hg2 & (P1 & P2 & P3 & P4) & _). destruct r as [dos|[]]; [injection E as <- <-; by rewrite P3, P1|].
    apply bind_Some in E as (n3 & E3 & E). injection E as <- <-. assert (Hn2 : node_inv n2) by (split; [done|rewrite P1, P2, P3, O1, O2, O3; apply Hn]).
    pose proof (accepted_queued _ _ _ _ _ _ Hinv1 E2) as Hq. destruct (work_loop_spec _ _ _ _ _ _ _ Hn2 Hq E3) as (Hn3 & Hg3 & _ & l & Tl & Fl & Ll & Kl).
    assert (Tb : tried t now disk n1 ((b, Accept tt) :: l) n3) by (by eapply tried_block; [apply but_orphans_refl| | |]). exists n1, l.
    unfold waited in *. rewrite P1, P3, O1, O3 in *. split_and!; [done|done|exact Fl| |done|done]. exact (proj2 (proj2 (tried_indexed _ _ _ _ _ _ Tb Hinv1))).
  - destruct (Process.preliminary _ _ _ _ _ _ _ _ _ n b) as [[ok1 n1]|] eqn:E1; [|by left]. destruct (preliminary_kept _ _ _ _ E1) as (K1 & K2 & K3 & K4 & O1 & O2 & O3 & O4).
    cbn [mbind option_bind] in E. destruct ok1; cbn [negb] in E; [|done]. rewrite <- K1 in Hprev. case_bool_decide as Hp; [by rewrite Hp in Hprev; destruct Hprev|]. right.
    assert (Hinv1 : index_inv n1) by (apply (inv_same_tree n); [apply Hn|by rewrite K1|done|done]). exists n1.
    destruct (AcceptBlock _ _ _ _ _ _ _ _ _ _ _ _ _ _ _ _ n1 b) as [[r n2]|] eqn:E2; [|exists [], n1, b; split_and!; [done|apply tried_none, but_orphans_refl|by left|done|done]].
    cbn [mbind option_bind] in E. destruct (AcceptBlock_inv _ _ _ _ _ _ _ Hinv1 E2) as (Hinv2 & Hg2 & (P1 & P2 & P3 & P4) & _). destruct r as [dos|[]]; [done|].
    assert (Hn2 : node_inv n2) by (split; [done|rewrite P1, P2, P3, O1, O2, O3; apply Hn]).
    destruct (work_loop _ _ _ _ _ _ _ _ _ _ _ _ _ _ _ _ _ _ _) as [n3|] eqn:E3; [done|].
    destruct (work_loop_total _ _ _ _ _ _ Hn2 (accepted_queued _ _ _ _ _ _ Hinv1 E2) (Nat.le_refl _) E3) as (l & m & p & c & T & Ec & Hc & E4).
    exists ((b, Accept tt) :: l), m, c. split_and!; [done| |right; exists p; by rewrite <- O1, <- P1|done|done].
    eapply tried_block; [apply but_orphans_refl|exact Hprev|exact E2|exact T].
Qed.
End invariant.

(** ** Block files *)

Section files.
Context (Hash9 : list Z -> base_uint) (limit : base_uint) (start : list Z).

Lemma append_file_spec (files : block_files) : forall fuel cur, 1 <= cur -> cur + Z.of_nat (size files) < UINT_MAX ->
  (size (filter (fun k : Z => (cur <= k)%Z) (dom files : gset Z)) <= fuel)%nat ->
  exists f, append_file fuel files cur = Some (Some f) /\ 1 <= f < UINT_MAX /\ len (default [] (files !! f)) < 0x7F000000 - MAX_SIZE.
Proof.
  set (room (cur : Z) := size (filter (fun k : Z => (cur <= k)%Z) (dom files : gset Z))).
  assert (Hmain : forall fuel cur, 1 <= cur -> cur + Z.of_nat (room cur) < UINT_MAX -> (room cur <= fuel)%nat ->
    exists f, append_file fuel files cur = Some (Some f) /\ 1 <= f < UINT_MAX /\ len (default [] (files !! f)) < 0x7F000000 - MAX_SIZE).
  { induction fuel as [|fuel IH]; intros cur Hcur Hmax Hleft; cbn [append_file]; destruct (Z.ltb_spec cur 1), (Z.eqb_spec cur UINT_MAX); cbn [orb]; try lia;
      destruct (Z.ltb_spec (len (default [] (files !! cur))) (0x7F000000 - MAX_SIZE)) as [Hr|Hr]; [exists cur; split_and!; [done|lia|lia|done]| |exists cur; split_and!; [done|lia|lia|done]|].
    all: assert (Hin : cur ∈ (dom files : gset Z)) by (apply elem_of_dom; destruct (files !! cur) as [x|] eqn:Ex; [by exists x|exfalso; unfold MAX_SIZE, len in Hr; cbn in Hr; lia]).
    all: assert (Hlt : (room (cur + 1)%Z < room cur)%nat) by (unfold room; apply subset_size; split; [intros k; rewrite !elem_of_filter; intros [? ?]; split; [lia|done]|];
      intros Hsub; assert (Hc : cur ∈ filter (fun k => cur + 1 <= k) (dom files : gset Z)) by (apply Hsub, elem_of_filter; split; [lia|done]); apply elem_of_filter in Hc; lia).
    - lia.
    - rewrite wrap_id by (unfold fits, UINT_MAX in *; lia). apply IH; lia. }
  intros fuel cur Hcur Hmax Hleft. apply Hmain; [done| |done]. assert (room cur <= size files)%nat; [|lia]. unfold room.
  transitivity (size (dom files : gset Z)); [apply subseteq_size; intros k; rewrite elem_of_filter; tauto|]. unfold block_files in *. by rewrite size_dom.
Qed.

Lemma stored_read files b f bp : stored files b f bp -> block_wf block_null b ->
  (block_IsProofOfWork b = true -> CheckProofOfWork limit (block_GetHash Hash9 b) (b_nBits b) = true) -> block_ReadFromDisk Hash9 limit files f bp = Some b.
Proof.
  intros (Hf & Hbp & bytes & rest & Eb & Hd & Hl & Ep) Hw Hpow. unfold block_ReadFromDisk, OpenBlockFile.
  destruct (Z.ltb_spec f 1); [lia|]. destruct (Z.eqb_spec f UINT_MAX); [lia|]. cbn [orb]. unfold block_files in *. rewrite Eb. cbn [fmap option_fmap mbind option_bind option_map].
  rewrite Ep. unfold file_read. set (s := Init _ _ _).
  destruct (sc_read _ _ (ser_block_correct block_null SER_DISK eq_refl) SER_DISK CLIENT_VERSION b Hw s rest) as (s' & Hread & _); [|done|].
  - unfold stream_ok, s, Init, vsize. cbn [nReadPos vch exceptmask]. rewrite <- Ep. rewrite length_drop. unfold len in Hl. split_and!; [lia..|by apply Forall_drop|done].
  - change (Unserialize (ser_block block_null) SER_DISK CLIENT_VERSION s = (inr b, s')) in Hread. rewrite Hread. cbn [fst mbind option_bind].
    destruct (block_IsProofOfWork b); [|done]. by rewrite Hpow.
Qed.

Lemma block_record_length b : len start = 4 -> len (block_record start b) = 8.
Proof. intros Hs. unfold block_record. rewrite len_app, Hs. cbn [Serialize ser_uint]. unfold len. by rewrite length_to_digits. Qed.

Lemma stored_append (files : block_files) c g q f x : stored files c g q -> digits 256 x -> len (default [] (files !! f)) + len x < 2 ^ 31 ->
  stored (<[f := default [] (files !! f) ++ x]> files) c g q.
Proof.
  intros (Hg & Hq & bytes & rest & Eb & Hd & Hl & Ep) Hx Hlen. unfold stored. split; [done|]. split; [done|]. unfold block_files in *. destruct (decide (f = g)) as [->|Hne].
  - exists (bytes ++ x), (rest ++ x). rewrite lookup_insert_eq. rewrite Eb in *. cbn [default] in *. split_and!; [done|by apply Forall_app|by rewrite len_app|].
    assert (Hlen2 : (Z.to_nat q <= length bytes)%nat \/ (length bytes < Z.to_nat q)%nat) by lia. destruct Hlen2 as [Hle|Hgt]; [by rewrite drop_app_le, Ep, app_assoc|].
    exfalso. rewrite drop_ge in Ep by lia. symmetry in Ep. apply app_eq_nil in Ep as [Ep _]. rewrite block_bytes in Ep. apply app_eq_nil in Ep as [Ep _].
    apply app_eq_nil in Ep as [Ep _]. rewrite header_bytes_ser in Ep. discriminate Ep.
  - exists bytes, rest. by rewrite lookup_insert_ne.
Qed.

(** Blocks on disk.  While there is room, [WriteToDisk] finds a file, appends
    the message start, the size and the block, and keeps every file below 2^31 bytes;
    [ReadFromDisk] at the returned position gives the block back if its proof of work
    is good, and every block written before is still found at its place. *)
Theorem block_files_roundtrip files cur b : files_ok files -> 1 <= cur -> cur + Z.of_nat (size files) < UINT_MAX -> digits 256 start -> len start = 4 ->
  block_wf block_null b -> len (Serialize (ser_block block_null) SER_DISK CLIENT_VERSION b) <= MAX_SIZE - 8 ->
  exists f pos files', WriteToDisk start files cur b = Some (Some (f, pos, files')) /\ files_ok files' /\
    ((block_IsProofOfWork b = true -> CheckProofOfWork limit (block_GetHash Hash9 b) (b_nBits b) = true) ->
       block_ReadFromDisk Hash9 limit files' f pos = Some b) /\
    forall c g q, stored files c g q -> stored files' c g q.
Proof.
  intros Hf Hcur Hmax Hd Hs Hw Hsize. destruct (append_file_spec files (size files) cur Hcur Hmax) as (f & Ef & Hfr & Hroom).
  { unfold block_files in *. rewrite <- (size_dom (D := gset Z) files). apply subseteq_size. intros k. rewrite elem_of_filter. tauto. }
  unfold WriteToDisk. rewrite Ef. cbn [mbind option_bind]. set (bytes := Serialize (ser_block block_null) SER_DISK CLIENT_VERSION b) in *. do 3 eexists. split; [done|].
  set (old := default [] (files !! f)) in *. rewrite <- app_assoc. assert (Hx : digits 256 (block_record start b ++ bytes)).
  { apply Forall_app. split; [apply Forall_app; split; [done|apply to_digits_ok; lia]|].
    exact (sc_bytes _ _ (ser_block_correct block_null SER_DISK eq_refl) SER_DISK CLIENT_VERSION _ Hw). }
  pose proof (block_record_length b Hs) as Hrec. assert (Hl : len old + len (block_record start b ++ bytes) < 2 ^ 31) by (rewrite len_app; unfold MAX_SIZE in *; lia).
  assert (Hold : digits 256 old) by (unfold old; destruct (files !! f) as [x|] eqn:Ex; [apply (Hf f x Ex)|constructor]).
  split_and!.
  - intros g x Eg. unfold block_files in *. apply lookup_insert_Some in Eg as [[<- <-]|[_ Eg]]; [|by apply (Hf g)]. split; [by apply Forall_app|by rewrite len_app].
  - intros Hpow. apply stored_read; [|done|done]. pose proof (len_nonneg (old ++ block_record start b)). unfold stored. split; [done|]. split; [lia|].
    exists (old ++ block_record start b ++ bytes), []. unfold block_files in *. rewrite lookup_insert_eq, app_nil_r. split_and!; [done|by apply Forall_app|by rewrite len_app|].
    rewrite app_assoc. unfold len. by rewrite Nat2Z.id, drop_app_length.
  - intros c g q Hst. by apply stored_append.
Qed.
End files.

(** ** Witnesses: an orphan and the block it waits for *)

Section example.
#[local] Existing Instance BN_Z.
#[local] Existing Instance Crypto_toy.
#[local] Existing Instance Crypto_toy_spec.
#[local] Existing Instance EC_toy.
#[local] Existing Instance LevelDB_map.
#[local] Existing Instance LevelDB_map_spec.

Definition pb_hash9 (l : list Z) : base_uint := bu_of_uint64 8 (nth 76 l 0 mod 256).
Definition pb_script : list Z := 33 :: 2 :: to_digits 256 32 7 ++ [172].
Definition pb_block (nonce height : Z) (prev : base_uint) : CBlock :=
  mkBlock 5 prev (bu_zero 8) (100 + height) 0x1e0fffff nonce
    [mkTx 1 (100 + height) [mkTxIn out_null (push_int64 [] height ++ [1]) 0] [mkTxOut 10000000 pb_script] 0 [] 0] (48 :: to_digits 256 32 7) [] 0.
Definition pb_limit : base_uint := bu_shr (bu_neg (bu_of_uint64 8 1)) 20.

Definition pb_genesis : CBlock := pb_block 3 0 (bu_zero 8).
Definition pb_first : CBlock := pb_block 1 1 (cp_hash 3).
Definition pb_second : CBlock := pb_block 2 2 (cp_hash 1).
Definition pb_entry : CBlockIndex :=
  mkIndex (Some (cp_hash 3)) None None 1 0 (bu_of_uint64 8 1) 0 0 0 4 0 0 out_null 0 (bu_zero 8) 5 (bu_zero 8) 100 0x1e0fffff 3.
Definition pb_index : index_state := mkIndexState (<[0 := pb_entry]> ∅) (<[cp_hash 3 := 0]> ∅) (Some 0) (Some 0).
Definition pb_files : block_files := <[1 := Serialize (ser_block block_null) SER_DISK CLIENT_VERSION pb_genesis]> ∅.
Definition pb_start : list Z := [1; 2; 3; 4].
(** A node that knows the first block of the example, and a longer chain. *)
Definition pb_node : node_state :=
  mkNode cp_db pb_files 1 (mkChain pb_index (cp_hash 3) 0 (bu_neg (bu_of_uint64 8 1)) (bu_zero 8) 0 None (mkPool ∅ ∅ 0) (mkSigCache [] 0))
    (mkSync (cp_hash 3) (bu_zero 8) checkpoint_null checkpoint_null (bu_zero 8)) ∅ ∅ ∅ ∅ [] ∅.
Abbreviation pb_accept n b := (AcceptBlock pb_hash9 pb_limit pb_limit (cp_hash 3) pb_start false 5 60 3600 40 false (fun _ => bu_zero 8) 10 1000 1000
  (fun _ => true) n b).
Abbreviation pb_run n b := (ProcessBlock pb_hash9 pb_limit pb_limit (cp_hash 3) pb_start false 5 60 3600 86400 40 false (fun _ => bu_zero 8) 10
  1000 1000 (fun _ => true) n b).

Lemma pb_hash9_wf l : wf 8 (pb_hash9 l).
Proof. apply wf_of_uint64. pose proof (Z.mod_pos_bound (nth 76 l 0) 256). lia. Qed.

Ltac pb_cases E := unfold pb_node, pb_index in E; cbn [nd_chain ch_index heap mapBlockIndex] in E; apply lookup_insert_Some in E as [[<- <-]|[_ E]]; [|by rewrite lookup_empty in E].

Lemma pb_inv : node_inv pb_hash9 pb_limit pb_node.
Proof.
  split; [split|].
  - split.
    + intros p i E. pb_cases E. by exists (cp_hash 3).
    + intros p i E. pb_cases E. done.
    + intros p i E. pb_cases E. done.
    + intros h p E. pb_cases E. by exists pb_entry.
  - intros h p E. pb_cases E. split; [apply wf_of_uint64; lia|done].
  - intros p i E. pb_cases E. split_and!; [exists (bu_of_uint64 8 1); split; by vm_compute| |done].
    intros h [= <-]. exists pb_genesis, (Serialize (ser_block block_null) SER_DISK CLIENT_VERSION pb_genesis), [].
    split_and!; [by vm_compute|cbn; lia|by vm_compute|by rewrite drop_0, app_nil_r|by vm_compute].
  - split_and!; [done|intros x p E; by apply elem_of_nil in E|constructor].
Qed.

Lemma pb_orphan : exists n, pb_run pb_node pb_second = Some (true, n) /\ mapOrphanBlocksByPrev n = [(cp_hash 1, 0)] /\
  exists n', pb_run n pb_first = Some (true, n') /\ mapOrphanBlocksByPrev n' = [].
Proof.
  assert (E : match pb_run pb_node pb_second with Some (true, n) => bool_decide (mapOrphanBlocksByPrev n = [(cp_hash 1, 0)]) &&
    match pb_run n pb_first with Some (true, n') => bool_decide (mapOrphanBlocksByPrev n' = []) | _ => false end | _ => false end = true) by (vm_compute; reflexivity).
  destruct (pb_run pb_node pb_second) as [[[] n]|]; [|done..]. exists n. apply andb_prop in E as [E1%bool_decide_eq_true E2]. split; [done|]. split; [done|].
  destruct (pb_run n pb_first) as [[[] n']|]; [|done..]. exists n'. split; [done|]. by apply bool_decide_eq_true in E2.
Qed.


Lemma orphans_are_connected_witness : exists n n' n1 c r, pb_run n pb_first = Some (true, n') /\ mapOrphanBlocksByPrev n = [(cp_hash 1, 0)] /\ orphan_blocks n !! 0 = Some c /\
  tried pb_hash9 pb_limit pb_limit (cp_hash 3) pb_start false 5 60 3600 40 false (fun _ => bu_zero 8) 10 1000 1000 (fun _ => true) n1 [(pb_first, Accept tt); (c, r)] n' /\
  mapOrphanBlocksByPrev n' = [].
Proof.
  destruct pb_orphan as (n & E1 & El & n' & E2 & El').
  destruct (ProcessBlock_inv _ _ _ _ _ _ _ _ _ _ _ _ _ _ pb_hash9_wf _ _ _ _ _ _ _ pb_inv E1) as (Hn & Hg & _).
  pose proof (orphans_are_connected pb_hash9 pb_limit pb_limit (cp_hash 3) pb_start false 5 60 3600 86400 40 false (fun _ => bu_zero 8) 10 pb_hash9_wf
    1000 1000 (fun _ => true) n pb_first Hn) as Hc. rewrite E2 in Hc. destruct Hc as (n1 & l & _ & Ht & Hl & _).
  { assert (Ep : mapBlockIndex (ch_index (nd_chain n)) !! cp_hash 3 = Some 0) by (apply (proj2 Hg); reflexivity). intros Hx. discriminate (eq_trans (eq_sym Ep) Hx). }
  destruct (proj1 (proj2 (ni_orphans _ _ _ Hn)) (cp_hash 1) 0) as (c & Ec & _); [rewrite El; left|].
  unfold waited in Hl. rewrite El in Hl. rewrite filter_cons, decide_True in Hl by (left; reflexivity). cbn [omap list_omap] in Hl. rewrite Ec in Hl.
  symmetry in Hl. apply Permutation_length_1_inv in Hl. destruct l as [|[c' r] [|? ?]]; [discriminate| |discriminate]. injection Hl as ->.
  exists n, n', n1, c, r. exact (conj E2 (conj El (conj Ec (conj Ht El')))).
Defined.

Lemma pb_accepted : exists n, pb_accept pb_node pb_first = Some (Accept tt, n).
Proof.
  assert (E : match pb_accept pb_node pb_first with Some (Accept _, _) => true | _ => false end = true) by (vm_compute; reflexivity).
  destruct (pb_accept pb_node pb_first) as [[[dos|[]] n]|]; [done| |done]. by exists n.
Qed.

Lemma accept_block_spec_witness : exists n p i, pb_accept pb_node pb_first = Some (Accept tt, n) /\
  mapBlockIndex (ch_index (nd_chain n)) !! cp_hash 1 = Some p /\ heap (ch_index (nd_chain n)) !! p = Some i /\ nHeight i = 1.
Proof.
  destruct pb_accepted as (n & E). destruct (accept_block_spec pb_hash9 pb_limit pb_limit (cp_hash 3) pb_start false 5 60 3600 40 false (fun _ => bu_zero 8) 10 pb_hash9_wf
    1000 1000 (fun _ => true) pb_node pb_first (Accept tt) n (ni_index _ _ _ pb_inv) E) as (_ & _ & _ & q & j & Eq & Ej & _ & p & i & w & f & pos & _ & Ep & Ei & _ & Hh & _).
  exists n, p, i. split; [exact E|]. split; [exact Ep|]. split; [exact Ei|]. rewrite Hh. injection Eq as <-. injection Ej as <-. reflexivity.
Defined.

Lemma pb_first_wf : block_wf block_null pb_first.
Proof.
  assert (Hs : digits 256 pb_script) by (constructor; [lia|]; constructor; [lia|]; apply Forall_app; split; [apply to_digits_ok; lia|forall_list]).
  split_and!; [split_and!; [unfold sfits; cbn; lia|apply wf_of_uint64; lia|apply wf_zero|by vm_compute..]| |split; [constructor; [lia|apply to_digits_ok; lia]|done]|done|done].
  split; [|done]. constructor; [|constructor]. split_and!; [unfold sfits; cbn; lia|by vm_compute|split; [constructor; [|constructor]|done]|
    split; [constructor; [|constructor]|done]|by vm_compute|done|done].
  - split_and!; [split; [apply wf_zero|by vm_compute]|split; [change (digits 256 [81; 1]); forall_list|done]|by vm_compute].
  - split; [unfold sfits; cbn; lia|split; [exact Hs|done]].
Qed.

Lemma block_files_roundtrip_witness : exists f pos files, WriteToDisk pb_start ∅ 1 pb_first = Some (Some (f, pos, files)) /\
  block_ReadFromDisk pb_hash9 pb_limit files f pos = Some pb_first.
Proof.
  destruct (block_files_roundtrip pb_hash9 pb_limit pb_start ∅ 1 pb_first) as (f & pos & files & E & _ & Hr & _);
    [done|lia|vm_compute; reflexivity|unfold pb_start; forall_list|reflexivity|exact pb_first_wf|vm_compute; discriminate|].
  exists f, pos, files. split; [exact E|]. apply Hr. intros _. vm_compute. reflexivity.
Defined.
End example.
