(* ===== verification/Util.v ===== *)
(** * util.cpp: random numbers, amounts, text and time

    The random numbers come from OpenSSL's [RAND_bytes], of which [RAND_uint64 k]
    is the [k]-th answer; the number of answers taken is passed along.  A text is
    the list of its characters, and a C string ends at its first NUL. *)
From Stdlib Require Import ZArith Lia Bool String.
From stdpp Require Import prelude gmap sorting.
From S2P Require Import Prelude Uint256 DataStream Serialize Containers Bignum Base58 Script Tx.

Definition isdigit (c : Z) : bool := (48 <=? c) && (c <=? 57).

(** ** Random numbers *)

Section random.
Context (RAND_uint64 : nat -> Z) (tries : nat).

(** [do RAND_bytes(...) while (nRand >= nRange)]; [None]: no answer was in range. *)
Fixpoint rand_loop (fuel : nat) (nRange : Z) (k : nat) : option (Z * nat) :=
  match fuel with
  | O => None
  | S fuel => if RAND_uint64 k <? nRange then Some (RAND_uint64 k, S k) else rand_loop fuel nRange (S k)
  end.

Definition GetRand (nMax : Z) (k : nat) : option (Z * nat) :=
  if nMax =? 0 then Some (0, k)
  else
    let nRange := (2 ^ 64 - 1) / nMax * nMax in
    '(nRand, k) ← rand_loop tries nRange k;
    Some (nRand mod nMax, k).

Definition GetRandInt (nMax : Z) (k : nat) : option (Z * nat) :=
  '(r, k) ← GetRand (u64 nMax) k; Some (s32 r, k).

Definition GetRandRange (nMin nMax : Z) (k : nat) : option (Z * nat) :=
  if nMax - nMin <=? 0 then Some (0, k)
  else '(r, k) ← GetRand (u64 (nMax - nMin + 1)) k; Some (s64 (u64 (r + u64 nMin)), k).

(** ** [SplitAmount] *)

(** [n] turns are left of the loop. *)
Fixpoint split_loop (n : nat) (amount min maxparts i assigned : Z) (results : list Z) (k : nat) : option (list Z * Z * nat) :=
  match n with
  | O => Some (results, assigned, k)
  | S n =>
      '(amt, k) ← GetRandRange min (Z.quot (amount - assigned) (maxparts - i)) k;
      if (assigned + amt <? amount) && (min <? amt) then split_loop n amount min maxparts (i + 1) (assigned + amt) (results ++ [amt]) k
      else split_loop n amount min maxparts (i + 1) assigned results k
  end.

(** [None]: a division by zero, or [results.at(0)] of an empty vector throws. *)
Definition SplitAmount (amount min maxparts : Z) (k : nat) : option (list Z * nat) :=
  if maxparts =? 0 then None
  else if Z.quot amount maxparts <=? min then Some ([amount], k)
  else
    '(results, assigned, k) ← split_loop (Z.to_nat maxparts) amount min maxparts 0 0 [] k;
    if assigned <? amount then
      let remain := amount - assigned in
      if (len results =? maxparts) || (remain <=? min) then
        match results with [] => None | r :: results => Some (r + remain :: results, k) end
      else Some (results ++ [remain], k)
    else Some (results, k).
End random.

(** ** Amounts *)

(** [strprintf("%" PRI64d, n)] of a number that is not negative *)
Fixpoint decimal_loop (fuel : nat) (n : Z) (acc : list Z) : list Z :=
  match fuel with
  | O => acc
  | S fuel => if n <? 10 then 48 + n :: acc else decimal_loop fuel (n / 10) (48 + n mod 10 :: acc)
  end.
Definition decimal (n : Z) : list Z := decimal_loop (S (Z.to_nat (Z.log2 n))) n [].

(** [strprintf("%06" PRI64d, n)] of a number below 1000000 *)
Definition decimal6 (n : Z) : list Z := map (Z.add 48) (rev (to_digits 10 6 n)).

(** The loop that counts the zeros to cut, on the reversed text. *)
Fixpoint trim_zeros (r : list Z) : list Z :=
  match r with
  | c0 :: ((c1 :: c2 :: _) as t) => if (c0 =? 48) && isdigit c2 then trim_zeros t else r
  | _ => r
  end.

(** [None]: the negation overflows. *)
Definition FormatMoney (n : Z) (fPlus : bool) : option (list Z) :=
  if n =? - 2 ^ 63 then None
  else
    let n_abs := if 0 <? n then n else - n in
    let str := decimal (Z.quot n_abs COIN) ++ [46] ++ decimal6 (Z.rem n_abs COIN) in
    let str := rev (trim_zeros (rev str)) in
    Some (if n <? 0 then 45 :: str else if fPlus && (0 <? n) then 43 :: str else str).

(** [while (isdigit( *p) && (nMult > 0))] *)
Fixpoint money_units (p : list Z) (nMult nUnits : Z) : Z * list Z :=
  match p with
  | c :: t => if isdigit c && (0 <? nMult) then money_units t (Z.quot nMult 10) (nUnits + nMult * (c - 48)) else (nUnits, p)
  | [] => (nUnits, [])
  end.

(** The loop over the whole part; the inner [None] is the answer false. *)
Fixpoint money_loop (p strWhole : list Z) : option (list Z * Z * list Z) :=
  match p with
  | [] => Some (strWhole, 0, [])
  | c :: t =>
      if c =? 46 then let '(nUnits, rest) := money_units t (CENT * 10) 0 in Some (strWhole, nUnits, rest)
      else if isspace c then Some (strWhole, 0, p)
      else if negb (isdigit c) then None
      else money_loop t (strWhole ++ [c])
  end.

(** [strtoll] of digits *)
Definition atoi64 (s : list Z) : Z := fold_left (fun v c => v * 10 + (c - 48)) s 0.

Definition ParseMoney (str : list Z) : option Z :=
  '(strWhole, nUnits, p) ← money_loop (skip_spaces (c_str str)) [];
  if negb (forallb isspace p) then None
  else if 10 <? len strWhole then None
  else if (nUnits <? 0) || (COIN <? nUnits) then None
  else Some (atoi64 strWhole * COIN + nUnits).

(** ** Hexadecimal text *)

Definition IsHex (str : list Z) : bool := forallb (fun c => negb (HexDigit c <? 0)) str && (0 <? len str) && (len str mod 2 =? 0).

(** The loop of [ParseHex]; each turn takes a character. *)
Fixpoint parse_hex (fuel : nat) (psz : list Z) : list Z :=
  match fuel with
  | O => []
  | S fuel =>
      match skip_spaces psz with
      | a :: b :: t =>
          if HexDigit a =? -1 then []
          else if HexDigit b =? -1 then []
          else u8 (Z.lor (u8 (Z.shiftl (HexDigit a) 4)) (HexDigit b)) :: parse_hex fuel t
      | _ => []
      end
  end.
Definition ParseHex (str : list Z) : list Z := parse_hex (length str) (c_str str).

(** ** [ParseString] *)

Fixpoint parse_string (c : Z) (cur str : list Z) : list (list Z) :=
  match str with
  | [] => [cur]
  | x :: str => if x =? c then cur :: parse_string c [] str else parse_string c (cur ++ [x]) str
  end.
Definition ParseString (str : list Z) (c : Z) (v : list (list Z)) : list (list Z) :=
  match str with [] => v | _ => v ++ parse_string c [] str end.

(** ** [WildcardMatch] *)

Fixpoint WildcardMatch (mask : list Z) : list Z -> bool :=
  match mask with
  | [] => fun psz => match psz with [] => true | _ => false end
  | m :: mask' =>
      if m =? 42 then
        fix star (psz : list Z) : bool := WildcardMatch mask' psz || match psz with [] => false | _ :: psz' => star psz' end
      else fun psz =>
        match psz with
        | [] => false
        | c :: psz' => if (m =? 63) || (c =? m) then WildcardMatch mask' psz' else false
        end
  end.

(** ** Base 64 *)

Definition pbase64 : list Z := chars "ABCDEFGHIJKLMNOPQRSTUVWXYZabcdefghijklmnopqrstuvwxyz0123456789+/".
Definition char64 (i : Z) : Z := nth (Z.to_nat i) pbase64 0.

(** The loop of [EncodeBase64] and the padding after it. *)
Fixpoint encode64 (mode left : Z) (l : list Z) : list Z :=
  match l with
  | [] => if mode =? 0 then [] else char64 left :: 61 :: (if mode =? 1 then [61] else [])
  | enc :: l =>
      if mode =? 0 then char64 (Z.shiftr enc 2) :: encode64 1 (Z.shiftl (Z.land enc 3) 4) l
      else if mode =? 1 then char64 (Z.lor left (Z.shiftr enc 4)) :: encode64 2 (Z.shiftl (Z.land enc 15) 2) l
      else char64 (Z.lor left (Z.shiftr enc 6)) :: char64 (Z.land enc 63) :: encode64 0 left l
  end.
Definition EncodeBase64 (l : list Z) : list Z := encode64 0 0 l.

Definition decode64_table : list Z :=
  replicate 43 (-1) ++ [62; -1; -1; -1; 63; 52; 53; 54; 55; 56; 57; 58; 59; 60; 61] ++ replicate 7 (-1) ++
  [0; 1; 2; 3; 4; 5; 6; 7; 8; 9; 10; 11; 12; 13; 14; 15; 16; 17; 18; 19; 20; 21; 22; 23; 24; 25] ++ replicate 6 (-1) ++
  [26; 27; 28; 29; 30; 31; 32; 33; 34; 35; 36; 37; 38; 39; 40; 41; 42; 43; 44; 45; 46; 47; 48; 49; 50; 51] ++ replicate 133 (-1).
Definition dec64 (c : Z) : Z := nth (Z.to_nat c) decode64_table (-1).

(** The loop of [DecodeBase64]: the bytes, [mode], [left] and what follows. *)
Fixpoint decode64 (mode left : Z) (p : list Z) : list Z * Z * Z * list Z :=
  match p with
  | [] => ([], mode, left, [])
  | c :: t =>
      let dec := dec64 c in
      if dec =? -1 then ([], mode, left, p)
      else if mode =? 0 then decode64 1 dec t
      else if mode =? 1 then let '(v, m, lf, r) := decode64 2 (Z.land dec 15) t in (u8 (Z.lor (Z.shiftl left 2) (Z.shiftr dec 4)) :: v, m, lf, r)
      else if mode =? 2 then let '(v, m, lf, r) := decode64 3 (Z.land dec 3) t in (u8 (Z.lor (Z.shiftl left 4) (Z.shiftr dec 2)) :: v, m, lf, r)
      else let '(v, m, lf, r) := decode64 0 left t in (u8 (Z.lor (Z.shiftl left 6) dec) :: v, m, lf, r)
  end.

(** [p[i]] of a C string *)
Definition at_char (p : list Z) (i : nat) : Z := nth i p 0.

(** [n] padding characters, and then no character of the alphabet. *)
Definition padded (dec : Z -> Z) (n : nat) (left : Z) (p : list Z) : bool :=
  (left =? 0) && forallb (fun i => at_char p i =? 61) (seq 0 n) && (dec (at_char p n) =? -1).

(** The switch that sets [*pfInvalid]. *)
Definition invalid64 (mode lf : Z) (p : list Z) : bool :=
  if mode =? 0 then false else if mode =? 1 then true else if mode =? 2 then negb (padded dec64 2 lf p) else negb (padded dec64 1 lf p).

(** The bytes and [*pfInvalid]. *)
Definition DecodeBase64 (str : list Z) : list Z * bool :=
  let '(v, mode, lf, p) := decode64 0 0 (c_str str) in (v, invalid64 mode lf p).

(** ** Base 32 *)

Definition pbase32 : list Z := chars "abcdefghijklmnopqrstuvwxyz234567".
Definition char32 (i : Z) : Z := nth (Z.to_nat i) pbase32 0.
Definition nPadding : list nat := [0; 6; 4; 3; 1]%nat.

Fixpoint encode32 (mode left : Z) (l : list Z) : list Z :=
  match l with
  | [] => if mode =? 0 then [] else char32 left :: replicate (nth (Z.to_nat mode) nPadding O) 61
  | enc :: l =>
      if mode =? 0 then char32 (Z.shiftr enc 3) :: encode32 1 (Z.shiftl (Z.land enc 7) 2) l
      else if mode =? 1 then
        char32 (Z.lor left (Z.shiftr enc 6)) :: char32 (Z.land (Z.shiftr enc 1) 31) :: encode32 2 (Z.shiftl (Z.land enc 1) 4) l
      else if mode =? 2 then char32 (Z.lor left (Z.shiftr enc 4)) :: encode32 3 (Z.shiftl (Z.land enc 15) 1) l
      else if mode =? 3 then
        char32 (Z.lor left (Z.shiftr enc 7)) :: char32 (Z.land (Z.shiftr enc 2) 31) :: encode32 4 (Z.shiftl (Z.land enc 3) 3) l
      else char32 (Z.lor left (Z.shiftr enc 5)) :: char32 (Z.land enc 31) :: encode32 0 left l
  end.
Definition EncodeBase32 (l : list Z) : list Z := encode32 0 0 l.

Definition decode32_table : list Z :=
  replicate 50 (-1) ++ [26; 27; 28; 29; 30; 31] ++ replicate 9 (-1) ++
  [0; 1; 2; 3; 4; 5; 6; 7; 8; 9; 10; 11; 12; 13; 14; 15; 16; 17; 18; 19; 20; 21; 22; 23; 24; 25] ++ replicate 6 (-1) ++
  [0; 1; 2; 3; 4; 5; 6; 7; 8; 9; 10; 11; 12; 13; 14; 15; 16; 17; 18; 19; 20; 21; 22; 23; 24; 25] ++ replicate 133 (-1).
Definition dec32 (c : Z) : Z := nth (Z.to_nat c) decode32_table (-1).

Fixpoint decode32 (mode left : Z) (p : list Z) : list Z * Z * Z * list Z :=
  match p with
  | [] => ([], mode, left, [])
  | c :: t =>
      let dec := dec32 c in
      if dec =? -1 then ([], mode, left, p)
      else if mode =? 0 then decode32 1 dec t
      else if mode =? 1 then let '(v, m, lf, r) := decode32 2 (Z.land dec 3) t in (u8 (Z.lor (Z.shiftl left 3) (Z.shiftr dec 2)) :: v, m, lf, r)
      else if mode =? 2 then decode32 3 (Z.lor (Z.shiftl left 5) dec) t
      else if mode =? 3 then let '(v, m, lf, r) := decode32 4 (Z.land dec 15) t in (u8 (Z.lor (Z.shiftl left 1) (Z.shiftr dec 4)) :: v, m, lf, r)
      else if mode =? 4 then let '(v, m, lf, r) := decode32 5 (Z.land dec 1) t in (u8 (Z.lor (Z.shiftl left 4) (Z.shiftr dec 1)) :: v, m, lf, r)
      else if mode =? 5 then decode32 6 (Z.lor (Z.shiftl left 5) dec) t
      else if mode =? 6 then let '(v, m, lf, r) := decode32 7 (Z.land dec 7) t in (u8 (Z.lor (Z.shiftl left 2) (Z.shiftr dec 3)) :: v, m, lf, r)
      else let '(v, m, lf, r) := decode32 0 left t in (u8 (Z.lor (Z.shiftl left 5) dec) :: v, m, lf, r)
  end.

Definition invalid32 (mode lf : Z) (p : list Z) : bool :=
  if mode =? 0 then false
  else if mode =? 2 then negb (padded dec32 6 lf p)
  else if mode =? 4 then negb (padded dec32 4 lf p)
  else if mode =? 5 then negb (padded dec32 3 lf p)
  else if mode =? 7 then negb (padded dec32 1 lf p)
  else true.

Definition DecodeBase32 (str : list Z) : list Z * bool :=
  let '(v, mode, lf, p) := decode32 0 0 (c_str str) in (v, invalid32 mode lf p).

(** ** The clock *)

Definition DEFAULT_MAX_TIME_ADJUSTMENT : Z := 14 * 60.
Definition CLOAKCOIN_TIMEDATA_MAX_SAMPLES : Z := 200.

(** The static variables of [AddTimeData] and the globals it sets; an address is
    the list of its bytes. *)
Record time_data : Type := mkTimeData {
  setKnown : gset (list Z);
  vTimeOffsets : CMedianFilter;
  nMaxObservedTimeOffset : Z;
  nTimeOffset : Z;
  fDone : bool;
  fWarned : bool
}.

Definition time_data_new : time_data := mkTimeData ∅ (filter_new CLOAKCOIN_TIMEDATA_MAX_SAMPLES 0) 0 0 false false.

Definition GetAdjustedTime (now : Z) (s : time_data) : Z := now + nTimeOffset s.

(** [now] is [GetTime()]; [None]: the filter is empty. *)
Definition AddTimeData (s : time_data) (now : Z) (ip : list Z) (nTime : Z) : option time_data :=
  let nOffsetSample := nTime - now in
  if Z.of_nat (size (setKnown s)) =? CLOAKCOIN_TIMEDATA_MAX_SAMPLES then Some s
  else if bool_decide (ip ∈ setKnown s) then Some s
  else
    let known := {[ip]} ∪ setKnown s in
    let f := filter_input nOffsetSample (vTimeOffsets s) in
    nMax ← maxAbs f;
    if (5 <=? filter_size f) && (filter_size f mod 2 =? 1) then
      nMedian ← median f;
      if abs64 nMedian <? Z.max 0 DEFAULT_MAX_TIME_ADJUSTMENT then Some (mkTimeData known f nMax nMedian (fDone s) (fWarned s))
      else
        let fMatch := existsb (fun o => negb (o =? 0) && (abs64 o <? 5 * 60)) (vSorted f) in
        let warn := negb (fDone s) && negb fMatch in
        Some (mkTimeData known f nMax 0 (fDone s || warn) (fWarned s || warn))
    else Some (mkTimeData known f nMax (nTimeOffset s) (fDone s) (fWarned s)).

(** ** Bits of bytes *)

Lemma lor_shiftl a b k : 0 <= k -> 0 <= b < 2 ^ k -> Z.lor (Z.shiftl a k) b = a * 2 ^ k + b.
Proof. intros Hk Hb. rewrite Z.shiftl_mul_pow2 by done. rewrite Z.lor_comm, lor_low_high by done. lia. Qed.

Lemma land_mod2 x : Z.land x 1 = x mod 2.
Proof. by apply (Z.land_ones x 1). Qed.
Lemma land_3 x : Z.land x 3 = x mod 4.
Proof. by apply (Z.land_ones x 2). Qed.
Lemma land_7 x : Z.land x 7 = x mod 8.
Proof. by apply (Z.land_ones x 3). Qed.
Lemma land_15 x : Z.land x 15 = x mod 16.
Proof. by apply (Z.land_ones x 4). Qed.
Lemma land_31 x : Z.land x 31 = x mod 32.
Proof. by apply (Z.land_ones x 5). Qed.
Lemma land_63 x : Z.land x 63 = x mod 64.
Proof. by apply (Z.land_ones x 6). Qed.

(** Arithmetic with quotients and remainders by constants. *)
Ltac euclid := change (2 ^ 1) with 2 in *; change (2 ^ 2) with 4 in *; change (2 ^ 3) with 8 in *; change (2 ^ 4) with 16 in *;
  change (2 ^ 5) with 32 in *; change (2 ^ 6) with 64 in *; change (2 ^ 7) with 128 in *; Z.to_euclidean_division_equations; lia.
(** Shifts, masks and disjunctions of disjoint bits as arithmetic. *)
Ltac bits := rewrite ?land_mod2, ?land_3, ?land_7, ?land_15, ?land_31, ?land_63, ?Z.shiftr_div_pow2 by lia; repeat rewrite lor_shiftl by (first [lia|euclid]); rewrite ?Z.shiftl_mul_pow2 by lia.

(** ** Base 64 and base 32 *)

Lemma dec64_char v : 0 <= v < 64 -> dec64 (char64 v) = v.
Proof.
  intros Hv. assert (Hall : forallb (fun v => dec64 (char64 v) =? v) (seqZ 0 64) = true) by (vm_compute; reflexivity).
  rewrite forallb_forall in Hall. apply Z.eqb_eq, Hall, list_elem_of_In, elem_of_seqZ. lia.
Qed.

Lemma decode64_step mode lf v t : 0 <= v < 64 -> decode64 mode lf (char64 v :: t) =
      if mode =? 0 then decode64 1 v t
      else if mode =? 1 then let '(l, m, lf', r) := decode64 2 (v mod 16) t in (u8 (lf * 4 + v / 16) :: l, m, lf', r)
      else if mode =? 2 then let '(l, m, lf', r) := decode64 3 (v mod 4) t in (u8 (lf * 16 + v / 4) :: l, m, lf', r)
      else let '(l, m, lf', r) := decode64 0 lf t in (u8 (lf * 64 + v) :: l, m, lf', r).
Proof.
  intros Hv. cbn [decode64]. rewrite dec64_char by done. destruct (Z.eqb_spec v (-1)); [lia|]. bits. done.
Qed.


Lemma c_str_cons c t : c <> 0 -> c_str (c :: t) = c :: c_str t.
Proof. intros Hc. cbn. by destruct (Z.eqb_spec c 0). Qed.

Lemma char64_nonzero v : 0 <= v < 64 -> char64 v <> 0.
Proof. intros Hv E. pose proof (dec64_char v Hv) as Hd. rewrite E in Hd. change (dec64 0) with (-1) in Hd. lia. Qed.

Lemma decode_encode64 n : forall l lf lf', (length l <= n)%nat -> digits 256 l ->
  c_str (encode64 0 lf' l) = encode64 0 lf' l /\ exists m lf2 p, decode64 0 lf (encode64 0 lf' l) = (l, m, lf2, p) /\ invalid64 m lf2 p = false.
Proof.
  induction n as [|n IH]; intros [|a [|b [|c l]]] lf lf' Hn Hl; try (cbn in Hn; lia); try (split; [done|]; by eexists _, _, _);
    unfold digits in Hl; repeat match goal with Hl : Forall _ (_ :: _) |- _ => apply Forall_cons in Hl as [? Hl] end; cbn [encode64 Z.eqb Pos.eqb]; bits.
  - split; [by rewrite !c_str_cons by (first [lia|apply char64_nonzero; euclid])|].
    do 2 (rewrite decode64_step by euclid; cbn [Z.eqb Pos.eqb]). eexists _, _, _. split; [cbn -[wrap Z.div Z.modulo Z.mul Z.pow]; repeat f_equal|].
    + rewrite wrap_id by (unfold fits; euclid). euclid.
    + replace (_ mod 16) with 0 by euclid. by vm_compute.
  - split; [by rewrite !c_str_cons by (first [lia|apply char64_nonzero; euclid])|].
    do 3 (rewrite decode64_step by euclid; cbn [Z.eqb Pos.eqb]). eexists _, _, _. split; [cbn -[wrap Z.div Z.modulo Z.mul Z.pow]; repeat f_equal|].
    1,2: rewrite wrap_id by (unfold fits; euclid); euclid.
    replace (_ mod 4) with 0 by euclid. by vm_compute.
  - cbn in Hn. destruct (IH l (((b mod 16) * 2 ^ 2 + c / 2 ^ 6) mod 4) (b mod 16 * 2 ^ 2)) as (Ec & m & lf2 & p & Ed & Hi); [lia|done|].
    split; [rewrite !c_str_cons by (first [lia|apply char64_nonzero; euclid]); by rewrite Ec|].
    do 4 (rewrite decode64_step by euclid; cbn [Z.eqb Pos.eqb]). rewrite Ed. exists m, lf2, p. split; [|done]. repeat f_equal.
    all: rewrite wrap_id by (unfold fits; euclid); euclid.
Qed.

Lemma dec32_char v : 0 <= v < 32 -> dec32 (char32 v) = v.
Proof.
  intros Hv. assert (Hall : forallb (fun v => dec32 (char32 v) =? v) (seqZ 0 32) = true) by (vm_compute; reflexivity).
  rewrite forallb_forall in Hall. apply Z.eqb_eq, Hall, list_elem_of_In, elem_of_seqZ. lia.
Qed.

Lemma char32_nonzero v : 0 <= v < 32 -> char32 v <> 0.
Proof. intros Hv E. pose proof (dec32_char v Hv) as Hd. rewrite E in Hd. change (dec32 0) with (-1) in Hd. lia. Qed.

Lemma decode32_step mode lf v t : 0 <= v < 32 -> decode32 mode lf (char32 v :: t) =
      if mode =? 0 then decode32 1 v t
      else if mode =? 1 then let '(l, m, lf', r) := decode32 2 (v mod 4) t in (u8 (lf * 8 + v / 4) :: l, m, lf', r)
      else if mode =? 2 then decode32 3 (lf * 32 + v) t
      else if mode =? 3 then let '(l, m, lf', r) := decode32 4 (v mod 16) t in (u8 (lf * 2 + v / 16) :: l, m, lf', r)
      else if mode =? 4 then let '(l, m, lf', r) := decode32 5 (v mod 2) t in (u8 (lf * 16 + v / 2) :: l, m, lf', r)
      else if mode =? 5 then decode32 6 (lf * 32 + v) t
      else if mode =? 6 then let '(l, m, lf', r) := decode32 7 (v mod 8) t in (u8 (lf * 4 + v / 8) :: l, m, lf', r)
      else let '(l, m, lf', r) := decode32 0 lf t in (u8 (lf * 32 + v) :: l, m, lf', r).
Proof. intros Hv. cbn [decode32]. rewrite dec32_char by done. destruct (Z.eqb_spec v (-1)); [lia|]. bits. done. Qed.

Ltac no_nul := rewrite !c_str_cons by (first [lia|apply char64_nonzero; euclid|apply char32_nonzero; euclid]).
Ltac same_bytes := repeat f_equal; rewrite wrap_id by (unfold fits; euclid); euclid.

Lemma decode_encode32 n : forall l lf lf', (length l <= n)%nat -> digits 256 l ->
  c_str (encode32 0 lf' l) = encode32 0 lf' l /\ exists m lf2 p, decode32 0 lf (encode32 0 lf' l) = (l, m, lf2, p) /\ invalid32 m lf2 p = false.
Proof.
  induction n as [|n IH]; intros [|a [|b [|c [|d [|e l]]]]] lf lf' Hn Hl; try (cbn in Hn; lia); try (split; [done|]; by eexists _, _, _);
    unfold digits in Hl; repeat match goal with Hl : Forall _ (_ :: _) |- _ => apply Forall_cons in Hl as [? Hl] end;
    cbn [encode32 Z.eqb Pos.eqb Z.to_nat Pos.to_nat Pos.iter_op Nat.add nth nPadding replicate]; bits.
  - split; [by no_nul|]. do 2 (rewrite decode32_step by euclid; cbn [Z.eqb Pos.eqb]).
    eexists _, _, _. split; [cbn -[wrap Z.div Z.modulo Z.mul Z.pow]; same_bytes|]. replace (_ mod 4) with 0 by euclid. by vm_compute.
  - split; [by no_nul|]. do 4 (rewrite decode32_step by euclid; cbn [Z.eqb Pos.eqb]).
    eexists _, _, _. split; [cbn -[wrap Z.div Z.modulo Z.mul Z.pow]; same_bytes|]. replace (_ mod 16) with 0 by euclid. by vm_compute.
  - split; [by no_nul|]. do 5 (rewrite decode32_step by euclid; cbn [Z.eqb Pos.eqb]).
    eexists _, _, _. split; [cbn -[wrap Z.div Z.modulo Z.mul Z.pow]; same_bytes|]. replace (_ mod 2) with 0 by euclid. by vm_compute.
  - split; [by no_nul|]. do 7 (rewrite decode32_step by euclid; cbn [Z.eqb Pos.eqb]).
    eexists _, _, _. split; [cbn -[wrap Z.div Z.modulo Z.mul Z.pow]; same_bytes|]. replace (_ mod 8) with 0 by euclid. by vm_compute.
  - cbn in Hn. edestruct (IH l) as (Ec & m & lf2 & p & Ed & Hi); [lia|done|].
    split; [no_nul; by rewrite Ec|]. do 8 (rewrite decode32_step by euclid; cbn [Z.eqb Pos.eqb]). rewrite Ed. exists m, lf2, p. split; [|done]. same_bytes.
Qed.

Lemma base32_roundtrip l : digits 256 l -> DecodeBase32 (EncodeBase32 l) = (l, false).
Proof. intros Hl. unfold DecodeBase32, EncodeBase32. by destruct (decode_encode32 (length l) l 0 0 (le_n _) Hl) as (-> & m & lf & p & -> & ->). Qed.

(** ** Hexadecimal text *)

Lemma hexchar_nonzero d : 0 <= d < 16 -> hexchar d <> 0.
Proof. intros. unfold hexchar. destruct (d <? 10); lia. Qed.

Lemma parse_hex_pair fuel sp a b t : (sp = [] \/ sp = [32]) -> 0 <= a < 16 -> 0 <= b < 16 ->
  parse_hex (S fuel) (sp ++ hexchar a :: hexchar b :: t) = a * 16 + b :: parse_hex fuel t.
Proof.
  intros Hsp Ha Hb. cbn [parse_hex]. assert (E : skip_spaces (sp ++ hexchar a :: hexchar b :: t) = hexchar a :: hexchar b :: t).
  { destruct (hexchar_plain a Ha) as [Es _]. destruct Hsp as [->| ->]; cbn; by rewrite Es. }
  rewrite E, !HexDigit_hexchar by done. destruct (Z.eqb_spec a (-1)), (Z.eqb_spec b (-1)); try lia. f_equal.
  rewrite Z.shiftl_mul_pow2, (wrap_id 8 (a * 2 ^ 4)) by (unfold fits; lia). rewrite <- Z.shiftl_mul_pow2, lor_shiftl by lia. apply wrap_id. unfold fits. lia.
Qed.

Lemma parse_HexStr l : forall first fSpaces fuel, digits 256 l -> (length l <= fuel)%nat ->
  c_str (HexStr_loop first fSpaces l) = HexStr_loop first fSpaces l /\ parse_hex fuel (HexStr_loop first fSpaces l) = l.
Proof.
  induction l as [|x l IH]; intros first sp fuel Hl Hf; [split; [done|by destruct fuel]|]. apply Forall_cons in Hl as [Hx Hl]. destruct fuel as [|fuel]; [cbn in Hf; lia|].
  cbn [HexStr_loop]. bits. destruct (IH false sp fuel Hl ltac:(cbn in Hf; lia)) as [Ec Ep]. change (2 ^ 4) with 16. split.
  - destruct (sp && negb first); cbn [app]; [rewrite c_str_cons by lia|]; rewrite !c_str_cons by (apply hexchar_nonzero; euclid); by rewrite Ec.
  - cbn [app]. rewrite parse_hex_pair; [|by destruct (sp && negb first); [right|left]|euclid|euclid]. rewrite Ep. f_equal. euclid.
Qed.

Lemma IsHex_HexStr l : digits 256 l -> IsHex (HexStr l false) = negb (bool_decide (l = [])).
Proof.
  intros Hl. assert (Hall : forall first, forallb (fun c => negb (HexDigit c <? 0)) (HexStr_loop first false l) = true /\ len (HexStr_loop first false l) = 2 * len l).
  { induction l as [|x l IH]; intros first; [done|]. apply Forall_cons in Hl as [Hx Hl]. destruct (IH Hl false) as [I1 I2]. cbn [HexStr_loop andb app forallb]. bits.
    change (2 ^ 4) with 16. rewrite !HexDigit_hexchar by euclid. rewrite I1, !len_cons, I2. split; [|lia]. destruct (Z.ltb_spec (x / 16) 0), (Z.ltb_spec (x mod 16) 0); [euclid..|done]. }
  unfold IsHex, HexStr. destruct (Hall true) as [-> ->]. rewrite Z.mul_comm, Z_mod_mult, andb_true_r. cbn [andb]. destruct l; [done|]. rewrite len_cons. pose proof (len_nonneg l).
  destruct (Z.ltb_spec 0 ((1 + len l) * 2)); [done|lia].
Qed.

(** ** [WildcardMatch] *)

(** [*] stands for any text, [?] for one character. *)
Inductive wildcard : list Z -> list Z -> Prop :=
  | wild_nil : wildcard [] []
  | wild_star mask s t : wildcard mask t -> wildcard (42 :: mask) (s ++ t)
  | wild_any mask c t : wildcard mask t -> wildcard (63 :: mask) (c :: t)
  | wild_char mask c t : c <> 42 -> wildcard mask t -> wildcard (c :: mask) (c :: t).

Lemma wildcard_spec mask : forall s, WildcardMatch mask s = true <-> wildcard mask s.
Proof.
  induction mask as [|m mask IH]; intros s; [destruct s; split; intros E; [constructor|done|done|by inversion E]|]. cbn [WildcardMatch]. destruct (Z.eqb_spec m 42) as [->|Hm].
  - split.
    + induction s as [|c s IHs]; intros [E|E]%orb_true_iff; [by apply (wild_star mask []), IH|done|by apply (wild_star mask []), IH|].
      apply IHs in E. inversion E as [|? s1 t Ht E1 E2| |]; subst; [by apply (wild_star mask (c :: s1))|done].
    + intros E. inversion E as [|? s1 t Ht E1 E2| |]; subst; [|done]. apply IH in Ht. induction s1 as [|c s1 IHs].
      * destruct t; cbn; by rewrite Ht.
      * cbn [app]. apply orb_true_iff. right. apply IHs. apply (wild_star mask s1). by apply IH.
  - split.
    + destruct s as [|c s]; [done|]. destruct (Z.eqb_spec m 63) as [->|]; cbn [orb]; [intros E; by apply wild_any, IH|].
      destruct (Z.eqb_spec c m) as [->|]; [|done]. intros E. by apply wild_char, IH.
    + intros E. inversion E as [|? ? ? Ht E1 E2|? c t Ht E1 E2|? c t Hc Ht E1 E2]; subst; [done|cbn; by apply IH|]. rewrite Z.eqb_refl, orb_true_r. by apply IH.
Qed.
(** ** Random numbers *)

(** What [RAND_bytes] does for the loop of [GetRand]: its answers are 64-bit
    numbers, and among [tries] in a row one lies in the lower half. *)
Record rand_ok (RAND_uint64 : nat -> Z) (tries : nat) : Prop := {
  ra_range : forall k, fits 64 (RAND_uint64 k);
  ra_live : forall k, exists j, (j < tries)%nat /\ RAND_uint64 (k + j)%nat < 2 ^ 63 - 1
}.

Section random_lemmas.
Context (RAND_uint64 : nat -> Z) (tries : nat) (HR : rand_ok RAND_uint64 tries).

Lemma rand_loop_spec fuel nRange k : (exists j, (j < fuel)%nat /\ RAND_uint64 (k + j)%nat < nRange) ->
  exists r k', rand_loop RAND_uint64 fuel nRange k = Some (r, k') /\ 0 <= r < nRange.
Proof.
  revert k. induction fuel as [|fuel IH]; intros k (j & Hj & Hr); [lia|]. cbn [rand_loop]. destruct (Z.ltb_spec (RAND_uint64 k) nRange).
  - eexists _, _. split; [done|]. pose proof (ra_range _ _ HR k). unfold fits in *. lia.
  - destruct j as [|j]; [rewrite Nat.add_0_r in Hr; lia|]. apply IH. exists j. split; [lia|]. by rewrite <- Nat.add_succ_comm in Hr.
Qed.

Lemma GetRand_spec n k : 0 < n < 2 ^ 63 -> exists r k', GetRand RAND_uint64 tries n k = Some (r, k') /\ 0 <= r < n.
Proof.
  intros Hn. unfold GetRand. destruct (Z.eqb_spec n 0); [lia|]. destruct (ra_live _ _ HR k) as (j & Hj & Hr).
  destruct (rand_loop_spec tries ((2 ^ 64 - 1) / n * n) k) as (r & k' & -> & _).
  { exists j. split; [done|]. assert (2 ^ 63 - 1 <= (2 ^ 64 - 1) / n * n); [|lia]. pose proof (Z.div_mod (2 ^ 64 - 1) n ltac:(lia)). pose proof (Z.mod_pos_bound (2 ^ 64 - 1) n ltac:(lia)). lia. }
  cbn [mbind option_bind]. eexists _, _. split; [done|]. apply Z.mod_pos_bound. lia.
Qed.

Lemma GetRandInt_spec n k : 0 < n < 2 ^ 31 -> exists r k', GetRandInt RAND_uint64 tries n k = Some (r, k') /\ 0 <= r < n.
Proof.
  intros Hn. unfold GetRandInt. rewrite wrap_id by (unfold fits; lia). destruct (GetRand_spec n k) as (r & k' & -> & Hr); [lia|]. cbn [mbind option_bind].
  eexists _, _. split; [done|]. rewrite swrap_id; lia.
Qed.

Lemma GetRandRange_spec a b k : 0 <= a -> b < 2 ^ 62 -> exists r k', GetRandRange RAND_uint64 tries a b k = Some (r, k') /\ (if b <=? a then r = 0 else a <= r <= b).
Proof.
  intros Ha Hb. unfold GetRandRange. destruct (Z.leb_spec (b - a) 0), (Z.leb_spec b a); try lia; [by eexists _, _|]. rewrite (wrap_id 64 (b - a + 1)) by (unfold fits; lia).
  destruct (GetRand_spec (b - a + 1) k) as (r & k' & -> & Hr); [lia|]. cbn [mbind option_bind]. eexists _, _. split; [done|].
  rewrite (wrap_id 64 a), wrap_id, swrap_id by (unfold fits; lia). lia.
Qed.

Definition total (l : list Z) : Z := fold_right Z.add 0 l.

Lemma total_cons x l : total (x :: l) = x + total l.
Proof. done. Qed.
Lemma total_app l l' : total (l ++ l') = total l + total l'.
Proof. induction l as [|x l IH]; cbn; [done|]. unfold total in *. lia. Qed.

Lemma split_loop_spec n : forall amount min maxparts i assigned results k, 0 <= min -> 0 <= assigned <= amount -> amount < 2 ^ 62 ->
  i + Z.of_nat n = maxparts -> total results = assigned -> Forall (fun r => min < r) results ->
  exists results' k', split_loop RAND_uint64 tries n amount min maxparts i assigned results k = Some (results', total results', k') /\
    total results' <= amount /\ Forall (fun r => min < r) results' /\ (length results' <= length results + n)%nat.
Proof.
  induction n as [|n IH]; intros amount min maxparts i assigned results k Hmin Has Ham Hi Ht Hall; cbn [split_loop].
  { exists results, k. rewrite Ht. split_and!; [done|lia|done|lia]. }
  destruct (GetRandRange_spec min (Z.quot (amount - assigned) (maxparts - i)) k Hmin) as (amt & k' & -> & Hamt).
  { rewrite Z.quot_div_nonneg by lia. apply Z.le_lt_trans with (amount - assigned); [|lia]. apply Z.div_le_upper_bound; nia. }
  cbn [mbind option_bind]. destruct (Z.ltb_spec (assigned + amt) amount) as [H1|H1], (Z.ltb_spec min amt) as [H2|H2]; cbn [andb].
  2-4: destruct (IH amount min maxparts (i + 1) assigned results k') as (res & k2 & E & T & F & L); [done|lia|done|lia|done|done|]; exists res, k2; by split_and!; [..|lia].
  destruct (IH amount min maxparts (i + 1) (assigned + amt) (results ++ [amt]) k') as (res & k2 & E & T & F & L); [done|lia|done|lia| | |].
  - rewrite total_app. cbn. lia.
  - apply Forall_app. split; [done|]. by constructor.
  - exists res, k2. split_and!; [done|done|done|]. rewrite length_app in L. cbn in L. lia.
Qed.
End random_lemmas.

(** For a positive number of parts and a bound that is not negative, [SplitAmount]
    returns and never throws; the parts add up to the amount, there are at most
    [maxparts] of them, and each is larger than the bound unless the amount is
    not split at all. *)
Lemma SplitAmount_ok RAND_uint64 tries amount min maxparts k : rand_ok RAND_uint64 tries -> 0 <= min -> 0 < maxparts < 2 ^ 31 -> 0 <= amount < 2 ^ 62 ->
  exists parts k', SplitAmount RAND_uint64 tries amount min maxparts k = Some (parts, k') /\ total parts = amount /\ 1 <= len parts <= maxparts /\
    (parts = [amount] \/ Forall (fun r => min < r) parts).
Proof.
  intros HR Hmin Hmax Ham. unfold SplitAmount. destruct (Z.eqb_spec maxparts 0); [lia|]. rewrite Z.quot_div_nonneg by lia.
  destruct (Z.leb_spec (amount / maxparts) min) as [Hs|Hs]; [exists [amount], k; unfold total, len; cbn; split_and!; [done|lia|lia|lia|by left]|].
  destruct (split_loop_spec RAND_uint64 tries HR (Z.to_nat maxparts) amount min maxparts 0 0 [] k) as (res & k' & -> & Ht & Hall & Hlen); [done|lia|lia|lia|done|done|].
  cbn [mbind option_bind]. cbn [length] in Hlen. assert (Hamt : min < amount).
  { assert (amount / maxparts <= amount) by (apply Z.div_le_upper_bound; nia). lia. }
  destruct (Z.ltb_spec (total res) amount) as [Hlt|Hge].
  2: { exists res, k'. split_and!; [done|lia| |unfold len; lia|by right]. destruct res; [unfold total in *; cbn in *; lia|unfold len; cbn; lia]. }
  destruct (Z.eqb_spec (len res) maxparts) as [Hl|Hl]; cbn [orb].
  - destruct res as [|r res]; [unfold len in Hl; cbn in Hl; lia|]. exists (r + (amount - total (r :: res)) :: res), k'. apply Forall_cons in Hall as [Hr Hall].
    split_and!; [done|rewrite !total_cons; lia|rewrite len_cons in *; pose proof (len_nonneg res); lia|rewrite len_cons in *; lia|]. right. constructor; [lia|done].
  - destruct (Z.leb_spec (amount - total res) min) as [Hd|Hd].
    + destruct res as [|r res]; [unfold total in Hd; cbn in Hd; lia|]. exists (r + (amount - total (r :: res)) :: res), k'. apply Forall_cons in Hall as [Hr Hall].
      split_and!; [done|rewrite !total_cons; lia|rewrite len_cons in *; pose proof (len_nonneg res); lia|unfold len in *; cbn [length] in *; lia|]. right. constructor; [lia|done].
    + exists (res ++ [amount - total res]), k'. rewrite total_app, len_app. unfold len in *. cbn [length total fold_right].
      split_and!; [done|lia|lia|lia|]. right. apply Forall_app. split; [done|]. by constructor.
Qed.
(** ** Amounts as text *)

Lemma decimal_atoi fuel : forall n acc, 0 <= n -> (Z.to_nat (Z.log2 n) < fuel)%nat ->
  fold_left (fun v c => v * 10 + (c - 48)) (decimal_loop fuel n acc) 0 = fold_left (fun v c => v * 10 + (c - 48)) acc n.
Proof.
  induction fuel as [|fuel IH]; intros n acc Hn Hf; [lia|]. cbn [decimal_loop]. destruct (Z.ltb_spec n 10).
  - cbn [fold_left]. f_equal. lia.
  - rewrite IH; [cbn [fold_left]; f_equal; euclid|euclid|]. assert (Z.log2 (n / 10) < Z.log2 n); [|pose proof (Z.log2_nonneg (n / 10)); lia].
    apply Z.log2_lt_pow2; [euclid|]. pose proof (Z.log2_spec n ltac:(lia)). replace (2 ^ Z.succ (Z.log2 n)) with (2 * 2 ^ Z.log2 n) in * by (rewrite Z.pow_succ_r; [done|apply Z.log2_nonneg]).
    euclid.
Qed.

Lemma decimal_digits fuel : forall n acc, 0 <= n -> Forall (fun c => isdigit c = true) acc -> Forall (fun c => isdigit c = true) (decimal_loop fuel n acc).
Proof.
  induction fuel as [|fuel IH]; intros n acc Hn Ha; [done|]. cbn [decimal_loop]. assert (Hd : forall d, 0 <= d < 10 -> isdigit (48 + d) = true).
  { intros d Hd. unfold isdigit. destruct (Z.leb_spec 48 (48 + d)), (Z.leb_spec (48 + d) 57); lia || done. }
  destruct (Z.ltb_spec n 10); [constructor; [apply Hd; lia|done]|]. apply IH; [euclid|]. constructor; [apply Hd; euclid|done].
Qed.

Lemma decimal_length fuel : forall n acc k, 0 <= n < 10 ^ Z.of_nat k -> (1 <= k)%nat -> (length (decimal_loop fuel n acc) <= k + length acc)%nat.
Proof.
  induction fuel as [|fuel IH]; intros n acc k Hn Hk; cbn [decimal_loop]; [lia|]. destruct (Z.ltb_spec n 10); [cbn; lia|].
  destruct k as [|[|k]]; [lia|cbn in Hn; lia|]. etransitivity; [apply (IH _ _ (S k)); [|lia]|cbn; lia]. rewrite Nat2Z.inj_succ, Z.pow_succ_r in Hn by lia.
  split; [euclid|]. apply Z.div_lt_upper_bound; lia.
Qed.

Lemma money_units_digit c t m u : isdigit c = true -> 0 < m -> money_units (c :: t) m u = money_units t (Z.quot m 10) (u + m * (c - 48)).
Proof. intros Hc Hm. cbn [money_units]. rewrite Hc. by destruct (Z.ltb_spec 0 m); [|lia]. Qed.

(** What is left after the zeros are cut still has the same value. *)
Lemma trim_spec d0 d1 d2 d3 d4 d5 x : Forall (fun c => isdigit c = true) [d0; d1; d2; d3; d4; d5] ->
  exists fs, trim_zeros (d0 :: d1 :: d2 :: d3 :: d4 :: d5 :: 46 :: x) = rev fs ++ 46 :: x /\ Forall (fun c => isdigit c = true) fs /\
    money_units fs (CENT * 10) 0 = ((d5 - 48) * 100000 + (d4 - 48) * 10000 + (d3 - 48) * 1000 + (d2 - 48) * 100 + (d1 - 48) * 10 + (d0 - 48), []).
Proof.
  intros Hd. repeat match goal with Hd : Forall _ (_ :: _) |- _ => apply Forall_cons in Hd as [? Hd] end.
  assert (Hu : forall fs, fs = [d5; d4] \/ fs = [d5; d4; d3] \/ fs = [d5; d4; d3; d2] \/ fs = [d5; d4; d3; d2; d1] \/ fs = [d5; d4; d3; d2; d1; d0] ->
    Forall (fun c => isdigit c = true) fs /\ money_units fs (CENT * 10) 0 = (fold_right Z.add 0 (zip_with (fun c m => (c - 48) * m) fs [100000; 10000; 1000; 100; 10; 1]), [])).
  { intros fs Hfs. change (CENT * 10) with 100000. destruct Hfs as [->|[->|[->|[->| ->]]]]; (split; [repeat (apply List.Forall_cons; [done|]); apply List.Forall_nil|]); 
    repeat (rewrite money_units_digit by (done || lia); match goal with |- context [Z.quot ?a 10] => let v := eval vm_compute in (Z.quot a 10) in change (Z.quot a 10) with v end);
    cbn [money_units zip_with fold_right]; f_equal; lia. }
  cbn [trim_zeros]. repeat match goal with Hd : isdigit ?c = true |- context [isdigit ?c] => rewrite Hd end. rewrite !andb_true_r. change (isdigit 46) with false. rewrite andb_false_r.
  destruct (Z.eqb_spec d0 48) as [E0|]; [destruct (Z.eqb_spec d1 48) as [E1|]; [destruct (Z.eqb_spec d2 48) as [E2|]; [destruct (Z.eqb_spec d3 48) as [E3|]|]|]|].
  - exists [d5; d4]. destruct (Hu [d5; d4]) as [F ->]; [auto|]. split_and!; [done|done|]. cbn. f_equal. lia.
  - exists [d5; d4; d3]. destruct (Hu [d5; d4; d3]) as [F ->]; [auto|]. split_and!; [done|done|]. cbn. f_equal. lia.
  - exists [d5; d4; d3; d2]. destruct (Hu [d5; d4; d3; d2]) as [F ->]; [auto|]. split_and!; [done|done|]. cbn. f_equal. lia.
  - exists [d5; d4; d3; d2; d1]. destruct (Hu [d5; d4; d3; d2; d1]) as [F ->]; [auto|]. split_and!; [done|done|]. cbn. f_equal. lia.
  - exists [d5; d4; d3; d2; d1; d0]. destruct (Hu [d5; d4; d3; d2; d1; d0]) as [F ->]; [auto 10|]. split_and!; [done|done|]. cbn. f_equal. lia.
Qed.

Lemma digit_plain c : isdigit c = true -> c <> 0 /\ (c =? 46) = false /\ isspace c = false.
Proof. unfold isdigit, isspace. intros [H1 H2]%andb_prop. apply Z.leb_le in H1, H2. repeat case_match; lia. Qed.

Lemma money_loop_digits ds : forall t w, Forall (fun c => isdigit c = true) ds -> money_loop (ds ++ t) w = money_loop t (w ++ ds).
Proof.
  induction ds as [|c ds IH]; intros t w Hds; [by rewrite app_nil_r|]. apply Forall_cons in Hds as [Hc Hds]. destruct (digit_plain c Hc) as (_ & Hd & Hs).
  cbn [app money_loop]. rewrite Hd, Hs, Hc. cbn [negb]. rewrite IH by done. by rewrite <- app_assoc.
Qed.

Lemma c_str_digits ds t : Forall (fun c => isdigit c = true) ds -> c_str (ds ++ t) = ds ++ c_str t.
Proof. induction 1 as [|c ds Hc _ IH]; [done|]. cbn [app]. rewrite c_str_cons by (by apply digit_plain). by rewrite IH. Qed.

(** Amounts survive the trip through text: [ParseMoney] reads back what
    [FormatMoney] writes, for every amount that is not negative and has at most ten
    digits before the point. *)
Theorem money_roundtrip n : 0 <= n < 10 ^ 10 * COIN -> exists str, FormatMoney n false = Some str /\ ParseMoney str = Some n.
Proof.
  intros Hn. unfold COIN in Hn. unfold FormatMoney. destruct (Z.eqb_spec n (- 2 ^ 63)); [lia|]. destruct (Z.ltb_spec n 0); [lia|]. cbn [andb]. eexists. split; [done|].
  replace (if 0 <? n then n else - n) with n by (destruct (Z.ltb_spec 0 n); lia). rewrite Z.quot_div_nonneg, Z.rem_mod_nonneg by (unfold COIN; lia).
  set (q := n / COIN). set (r := n mod COIN). assert (Hq : 0 <= q < 10 ^ 10) by (unfold q, COIN; split; [euclid|apply Z.div_lt_upper_bound; lia]).
  assert (Hr : 0 <= r < 1000000) by (unfold r, COIN; apply Z.mod_pos_bound; lia). assert (Hqr : q * COIN + r = n) by (unfold q, r, COIN; euclid).
  set (dec := decimal q). assert (Hdec : Forall (fun c => isdigit c = true) dec) by (apply decimal_digits; [lia|constructor]).
  assert (Hval : atoi64 dec = q) by (unfold atoi64, dec, decimal; rewrite decimal_atoi by lia; done).
  assert (Hlen : len dec <= 10) by (unfold len, dec, decimal; pose proof (decimal_length (S (Z.to_nat (Z.log2 q))) q [] 10 ltac:(lia) ltac:(lia)) as Hl; cbn [length] in Hl; lia).
  assert (Hnd : dec <> []).
  { intros E. assert (Hall : forall fuel m acc, acc <> [] \/ (0 < fuel)%nat -> decimal_loop fuel m acc <> []).
    { induction fuel as [|fuel IH]; intros m acc Ha; cbn [decimal_loop]; [destruct Ha; [done|lia]|]. destruct (m <? 10); [done|]. apply IH. by left. }
    by apply (Hall (S (Z.to_nat (Z.log2 q))) q []); [right; lia|]. }
  clearbody q r dec. unfold decimal6. cbn [to_digits rev map app].
  set (d0 := 48 + r mod 10). set (d1 := 48 + r / 10 mod 10). set (d2 := 48 + r / 10 / 10 mod 10). set (d3 := 48 + r / 10 / 10 / 10 mod 10).
  set (d4 := 48 + r / 10 / 10 / 10 / 10 mod 10). set (d5 := 48 + r / 10 / 10 / 10 / 10 / 10 mod 10).
  assert (Hds : Forall (fun c => isdigit c = true) [d0; d1; d2; d3; d4; d5]).
  { assert (Hd : forall m, isdigit (48 + m mod 10) = true); [|repeat (apply List.Forall_cons; [apply Hd|]); apply List.Forall_nil].
    intros m. pose proof (Z.mod_pos_bound m 10). unfold isdigit. destruct (Z.leb_spec 48 (48 + m mod 10)), (Z.leb_spec (48 + m mod 10) 57); lia || done. }
  rewrite rev_app_distr. cbn [rev app]. destruct (trim_spec d0 d1 d2 d3 d4 d5 (rev dec) Hds) as (fs & -> & Hfs & Hu).
  rewrite rev_app_distr. cbn [rev]. rewrite !rev_involutive, <- app_assoc. cbn [app]. unfold ParseMoney.
  rewrite c_str_digits, c_str_cons by (done || lia). rewrite <- (app_nil_r fs) at 1. rewrite c_str_digits by done. cbn [c_str]. rewrite app_nil_r.
  assert (Hskip : skip_spaces (dec ++ 46 :: fs) = dec ++ 46 :: fs).
  { destruct dec as [|c dec]; [done|]. apply Forall_cons in Hdec as [Hc _]. destruct (digit_plain c Hc) as (_ & _ & Hs). cbn. by rewrite Hs. }
  rewrite Hskip, money_loop_digits by done. cbn [money_loop app]. change (46 =? 46) with true. cbv iota. rewrite Hu. cbn [mbind option_bind forallb negb].
  destruct (Z.ltb_spec 10 (len dec)); [lia|]. rewrite Hval. match goal with |- context [?u <? 0] => replace u with r by (unfold d0, d1, d2, d3, d4, d5; euclid) end.
  unfold COIN. destruct (Z.ltb_spec r 0), (Z.ltb_spec 1000000 r); try lia. cbn [orb]. f_equal. unfold COIN in Hqr. lia.
Qed.
(** Texts decode to what was encoded: base 64 and base 32 with correct padding
    flagged valid, and hexadecimal with or without spaces, for every byte string;
    [IsHex] accepts what is not empty; and [WildcardMatch] decides whether the mask,
    in which [*] stands for any text and [?] for one character, matches. *)
Theorem text_codecs l : digits 256 l ->
  DecodeBase64 (EncodeBase64 l) = (l, false) /\ DecodeBase32 (EncodeBase32 l) = (l, false) /\
  (forall fSpaces, ParseHex (HexStr l fSpaces) = l) /\ IsHex (HexStr l false) = negb (bool_decide (l = [])) /\
  forall mask s, WildcardMatch mask s = true <-> wildcard mask s.
Proof.
  intros Hl. split_and!; [|by apply base32_roundtrip| |by apply IsHex_HexStr|apply wildcard_spec].
  - unfold DecodeBase64, EncodeBase64. destruct (decode_encode64 (length l) l 0 0 (le_n _) Hl) as (-> & m & lf & p & -> & ->). done.
  - intros sp. unfold ParseHex, HexStr. destruct (parse_HexStr l true sp (length (HexStr_loop true sp l)) Hl) as [-> ->]; [|done].
    generalize true. induction l as [|x l IH]; intros b; cbn [HexStr_loop]; [done|]. apply Forall_cons in Hl as [_ Hl]. specialize (IH Hl false).
    rewrite length_app. cbn [app length]. lia.
Qed.

Lemma text_codecs_witness : DecodeBase32 (EncodeBase32 [1; 2; 3]) = ([1; 2; 3], false).
Proof. apply (text_codecs [1; 2; 3]). forall_list. Defined.

Lemma money_roundtrip_witness : exists str, FormatMoney 1500000 false = Some str /\ ParseMoney str = Some 1500000.
Proof. apply (money_roundtrip 1500000). vm_compute. split; [discriminate|reflexivity]. Defined.

Example SplitAmount_sample : exists parts k, SplitAmount (fun _ => 12345) 1 1000000 10 5 0 = Some (parts, k) /\ total parts = 1000000.
Proof.
  destruct (SplitAmount_ok (fun _ => 12345) 1 1000000 10 5 0) as (parts & k & E & Ht & _); [|lia|lia|lia|].
  - split; [intros _; unfold fits; lia|intros _; exists 0%nat; split; lia].
  - exists parts, k. split; [exact E|exact Ht].
Defined.

(** ** The clock *)

(** One sample per address; the filter is in order; the offset is bounded and, if
    not zero, was the median of five or more samples. *)
Definition time_ok (s : time_data) : Prop :=
  filter_ok (vTimeOffsets s) /\ nSize (vTimeOffsets s) = CLOAKCOIN_TIMEDATA_MAX_SAMPLES /\
  len (vValues (vTimeOffsets s)) = Z.min 200 (1 + Z.of_nat (size (setKnown s))) /\ Z.of_nat (size (setKnown s)) <= 200 /\
  Z.abs (nTimeOffset s) < DEFAULT_MAX_TIME_ADJUSTMENT /\ (nTimeOffset s = 0 \/ exists samples, 5 <= len samples /\ halves (nTimeOffset s) samples).

Lemma AddTimeData_ok s now ip t : time_ok s -> exists s', AddTimeData s now ip t = Some s' /\ time_ok s'.
Proof.
  intros Hs. pose proof Hs as (Hf & Hn & Hlen & Hk & Ha & Hm). unfold AddTimeData. destruct (Z.eqb_spec (Z.of_nat (size (setKnown s))) CLOAKCOIN_TIMEDATA_MAX_SAMPLES) as [|Hne]; [by exists s|].
  case_bool_decide as Hip; [by exists s|]. unfold CLOAKCOIN_TIMEDATA_MAX_SAMPLES in *. destruct (median_filter_correct _ (t - now) Hf) as (Hf' & _ & Hv & _).
  set (f := filter_input _ _) in *. destruct (median_filter_correct _ 0 Hf') as (_ & _ & _ & (med & Emed & Hh) & (mx & -> & _)). cbn [mbind option_bind].
  assert (Hsz : size ({[ip]} ∪ setKnown s) = S (size (setKnown s))) by (rewrite size_union by set_solver; by rewrite size_singleton).
  assert (Hl' : len (vValues f) = Z.min 200 (1 + Z.of_nat (S (size (setKnown s))))).
  { rewrite Hv, len_app, len_cons, len_nil, Hn. unfold len in *. rewrite length_drop. destruct (Z.eqb_spec (Z.of_nat (length (vValues (vTimeOffsets s)))) 200); lia. }
  assert (Hok : forall o b c, Z.abs o < DEFAULT_MAX_TIME_ADJUSTMENT -> (o = 0 \/ exists samples, 5 <= len samples /\ halves o samples) ->
    time_ok (mkTimeData ({[ip]} ∪ setKnown s) f mx o b c)).
  { intros o b c Ho Hsm. unfold time_ok. cbn [vTimeOffsets setKnown nTimeOffset]. rewrite Hsz. split_and!; [done|done|done|lia|done|done]. }
  destruct (Z.leb_spec 5 (filter_size f)) as [H5|], (_ =? 1); cbn [andb]; try (eexists; split; [done|]; by apply Hok).
  rewrite Emed. cbn [mbind option_bind]. rewrite abs64_value. unfold DEFAULT_MAX_TIME_ADJUSTMENT in *. destruct (Z.ltb_spec (Z.abs med) (Z.max 0 (14 * 60))).
  - eexists. split; [done|]. apply Hok; [lia|]. right. by exists (vValues f).
  - eexists. split; [done|]. apply Hok; [cbn; lia|by left].
Qed.

(** Other nodes move the clock by less than fourteen minutes.  However many
    nodes report whatever times, [AddTimeData] never fails, counts every address
    once and at most two hundred of them, and the offset that [GetAdjustedTime] adds
    stays below the limit and is zero or was the median of at least five samples. *)
Theorem clock_offset_bounded samples : exists s, foldl (fun o '(now, ip, t) => o ≫= fun s => AddTimeData s now ip t) (Some time_data_new) samples = Some s /\
  time_ok s /\ forall now, Z.abs (GetAdjustedTime now s - now) < DEFAULT_MAX_TIME_ADJUSTMENT.
Proof.
  assert (Hrun : forall samples s0, time_ok s0 -> exists s, foldl (fun o '(now, ip, t) => o ≫= fun s => AddTimeData s now ip t) (Some s0) samples = Some s /\ time_ok s).
  { clear samples. induction samples as [|[[now ip] t] samples IH]; intros s0 H0; [by exists s0|]. cbn [foldl mbind option_bind].
    destruct (AddTimeData_ok s0 now ip t H0) as (s1 & -> & H1). by apply IH. }
  destruct (Hrun samples time_data_new) as (s & Es & Hs).
  - split_and!; [split; [done|vm_compute; split; discriminate]|done|done|done|done|by left].
  - exists s. split_and!; [done|done|]. intros now. unfold GetAdjustedTime. destruct Hs as (_ & _ & _ & _ & Ha & _). by replace (now + nTimeOffset s - now) with (nTimeOffset s) by lia.
Qed.
