(* ===== verification/NetAddr.v ===== *)
(** * netbase.cpp, protocol.cpp: network addresses and message headers

    A [CNetAddr] is the list of its sixteen bytes in network order.  Sockets and
    name look-ups are left out, but for [getnameinfo], which [ToStringIP] asks for
    the text of an address and which is a parameter. *)
From Stdlib Require Import ZArith Lia Bool String.
From stdpp Require Import prelude gmap.
From S2P Require Import Prelude Uint256 DataStream Serialize Crypto Containers Bignum Base58 Script Tx Block TxDB Util.

(** ** [CNetAddr] *)

Abbreviation CNetAddr := (list Z).

Definition pchIPv4 : list Z := [0; 0; 0; 0; 0; 0; 0; 0; 0; 0; 0xff; 0xff].
Definition pchOnionCat : list Z := [0xFD; 0x87; 0xD8; 0x7E; 0xEB; 0x43].
Definition pchGarliCat : list Z := [0xFD; 0x60; 0xDB; 0x4D; 0xDD; 0xB5].

Definition netaddr_Init : CNetAddr := replicate 16 0.

(** [CNetAddr(const struct in_addr&)]: the four bytes in network order. *)
Definition netaddr_of_ipv4 (v4 : list Z) : CNetAddr := pchIPv4 ++ v4.

Definition GetByte (ip : CNetAddr) (n : nat) : Z := nth (15 - n) ip 0.

(** [memcmp(ip, p, sizeof(p)) == 0] *)
Definition starts (ip p : list Z) : bool := bytes_eqb (take (length p) ip) p.

Definition IsIPv4 (ip : CNetAddr) : bool := starts ip pchIPv4.
Definition IsRFC1918 (ip : CNetAddr) : bool :=
  IsIPv4 ip && ((GetByte ip 3 =? 10) || ((GetByte ip 3 =? 192) && (GetByte ip 2 =? 168)) ||
                ((GetByte ip 3 =? 172) && ((16 <=? GetByte ip 2) && (GetByte ip 2 <=? 31)))).
Definition IsRFC3927 (ip : CNetAddr) : bool := IsIPv4 ip && ((GetByte ip 3 =? 169) && (GetByte ip 2 =? 254)).
Definition IsRFC3849 (ip : CNetAddr) : bool :=
  (GetByte ip 15 =? 0x20) && (GetByte ip 14 =? 0x01) && (GetByte ip 13 =? 0x0D) && (GetByte ip 12 =? 0xB8).
Definition IsRFC3964 (ip : CNetAddr) : bool := (GetByte ip 15 =? 0x20) && (GetByte ip 14 =? 0x02).
Definition IsRFC6052 (ip : CNetAddr) : bool := starts ip [0; 0x64; 0xFF; 0x9B; 0; 0; 0; 0; 0; 0; 0; 0].
Definition IsRFC4380 (ip : CNetAddr) : bool :=
  (GetByte ip 15 =? 0x20) && (GetByte ip 14 =? 0x01) && (GetByte ip 13 =? 0) && (GetByte ip 12 =? 0).
Definition IsRFC4862 (ip : CNetAddr) : bool := starts ip [0xFE; 0x80; 0; 0; 0; 0; 0; 0].
Definition IsRFC4193 (ip : CNetAddr) : bool := Z.land (GetByte ip 15) 0xFE =? 0xFC.
Definition IsRFC6145 (ip : CNetAddr) : bool := starts ip [0; 0; 0; 0; 0; 0; 0; 0; 0xFF; 0xFF; 0; 0].
Definition IsRFC4843 (ip : CNetAddr) : bool :=
  (GetByte ip 15 =? 0x20) && (GetByte ip 14 =? 0x01) && (GetByte ip 13 =? 0x00) && (Z.land (GetByte ip 12) 0xF0 =? 0x10).
Definition IsTor (ip : CNetAddr) : bool := starts ip pchOnionCat.
Definition IsI2P (ip : CNetAddr) : bool := starts ip pchGarliCat.
Definition IsIPv6 (ip : CNetAddr) : bool := negb (IsIPv4 ip) && negb (IsTor ip) && negb (IsI2P ip).
Definition IsLocal (ip : CNetAddr) : bool :=
  (IsIPv4 ip && ((GetByte ip 3 =? 127) || (GetByte ip 3 =? 0))) || starts ip [0; 0; 0; 0; 0; 0; 0; 0; 0; 0; 0; 0; 0; 0; 0; 1].
Definition IsMulticast (ip : CNetAddr) : bool := (IsIPv4 ip && (Z.land (GetByte ip 3) 0xF0 =? 0xE0)) || (GetByte ip 15 =? 0xFF).

Definition IsValid (ip : CNetAddr) : bool :=
  if starts ip (drop 3 pchIPv4) then false
  else if starts ip (replicate 16 0) then false
  else if IsRFC3849 ip then false
  else if IsIPv4 ip then
    if starts (drop 12 ip) [255; 255; 255; 255] then false
    else if starts (drop 12 ip) [0; 0; 0; 0] then false
    else true
  else true.

Definition IsRoutable (ip : CNetAddr) : bool :=
  IsValid ip && negb (IsRFC1918 ip || IsRFC3927 ip || IsRFC4862 ip || (IsRFC4193 ip && negb (IsTor ip) && negb (IsI2P ip)) || IsRFC4843 ip || IsLocal ip).

Inductive Network : Type := NET_UNROUTABLE | NET_IPV4 | NET_IPV6 | NET_TOR | NET_I2P.
Definition network_code (n : Network) : Z := match n with NET_UNROUTABLE => 0 | NET_IPV4 => 1 | NET_IPV6 => 2 | NET_TOR => 3 | NET_I2P => 4 end.

Definition GetNetwork (ip : CNetAddr) : Network :=
  if negb (IsRoutable ip) then NET_UNROUTABLE
  else if IsIPv4 ip then NET_IPV4
  else if IsTor ip then NET_TOR
  else if IsI2P ip then NET_I2P
  else NET_IPV6.

(** [while (nBits >= 8)] and what follows it. *)
Fixpoint group_loop (fuel : nat) (ip : CNetAddr) (nStartByte nBits : Z) : list Z :=
  if 8 <=? nBits then
    match fuel with
    | O => []
    | S fuel => GetByte ip (Z.to_nat (15 - nStartByte)) :: group_loop fuel ip (nStartByte + 1) (nBits - 8)
    end
  else if 0 <? nBits then [Z.lor (GetByte ip (Z.to_nat (15 - nStartByte))) (Z.shiftl 1 nBits - 1)]
  else [].

Definition GetGroup (ip : CNetAddr) : list Z :=
  let '(nClass, nBits) := if IsLocal ip then (255, 0) else (network_code NET_IPV6, 16) in
  let group nClass nStartByte nBits := u8 nClass :: group_loop 16 ip nStartByte nBits in
  if negb (IsRoutable ip) then group (network_code NET_UNROUTABLE) 0 0
  else if IsIPv4 ip || IsRFC6145 ip || IsRFC6052 ip then group (network_code NET_IPV4) 12 nBits
  else if IsRFC3964 ip then group (network_code NET_IPV4) 2 nBits
  else if IsRFC4380 ip then [network_code NET_IPV4; Z.lxor (GetByte ip 3) 0xFF; Z.lxor (GetByte ip 2) 0xFF]
  else if IsTor ip then group (network_code NET_TOR) 6 4
  else if IsI2P ip then group (network_code NET_I2P) 6 4
  else if (GetByte ip 15 =? 0x20) && (GetByte ip 14 =? 0x11) && (GetByte ip 13 =? 0x04) && (GetByte ip 12 =? 0x70) then group nClass 0 36
  else group nClass 0 32.

(** [NET_UNKNOWN] and [NET_TEREDO] extend the enumeration. *)
Inductive ExtNetwork : Type := NET_UNKNOWN | NET_TEREDO | net_plain (n : Network).
Definition GetExtNetwork (addr : option CNetAddr) : ExtNetwork :=
  match addr with None => NET_UNKNOWN | Some a => if IsRFC4380 a then NET_TEREDO else net_plain (GetNetwork a) end.

Inductive Reachability : Type := REACH_UNREACHABLE | REACH_DEFAULT | REACH_TEREDO | REACH_IPV6_WEAK | REACH_IPV4 | REACH_IPV6_STRONG | REACH_PRIVATE.

Definition GetReachabilityFrom (ip : CNetAddr) (paddrPartner : option CNetAddr) : Reachability :=
  if negb (IsRoutable ip) then REACH_UNREACHABLE
  else
    let fTunnel := IsRFC3964 ip || IsRFC6052 ip || IsRFC6145 ip in
    match GetExtNetwork paddrPartner, GetExtNetwork (Some ip) with
    | net_plain NET_IPV4, net_plain NET_IPV4 => REACH_IPV4
    | net_plain NET_IPV4, _ => REACH_DEFAULT
    | net_plain NET_IPV6, NET_TEREDO => REACH_TEREDO
    | net_plain NET_IPV6, net_plain NET_IPV4 => REACH_IPV4
    | net_plain NET_IPV6, net_plain NET_IPV6 => if fTunnel then REACH_IPV6_WEAK else REACH_IPV6_STRONG
    | net_plain NET_IPV6, _ => REACH_DEFAULT
    | net_plain NET_TOR, net_plain NET_IPV4 => REACH_IPV4
    | net_plain NET_TOR, net_plain NET_TOR => REACH_PRIVATE
    | net_plain NET_TOR, _ => REACH_DEFAULT
    | net_plain NET_I2P, net_plain NET_I2P => REACH_PRIVATE
    | net_plain NET_I2P, _ => REACH_DEFAULT
    | NET_TEREDO, NET_TEREDO => REACH_TEREDO
    | NET_TEREDO, net_plain NET_IPV6 => REACH_IPV6_WEAK
    | NET_TEREDO, net_plain NET_IPV4 => REACH_IPV4
    | NET_TEREDO, _ => REACH_DEFAULT
    | (NET_UNKNOWN | net_plain NET_UNROUTABLE), NET_TEREDO => REACH_TEREDO
    | (NET_UNKNOWN | net_plain NET_UNROUTABLE), net_plain NET_IPV6 => REACH_IPV6_WEAK
    | (NET_UNKNOWN | net_plain NET_UNROUTABLE), net_plain NET_IPV4 => REACH_IPV4
    | (NET_UNKNOWN | net_plain NET_UNROUTABLE), net_plain (NET_I2P | NET_TOR) => REACH_PRIVATE
    | (NET_UNKNOWN | net_plain NET_UNROUTABLE), _ => REACH_DEFAULT
    end.

(** [operator<] is the order of [memcmp]. *)
Definition netaddr_eq (a b : CNetAddr) : bool := bytes_eqb a b.
Definition netaddr_lt (a b : CNetAddr) : bool := lex_lt a b.

(** [strName.size() > n && strName.substr(strName.size() - n) == suffix] *)
Definition has_suffix (strName suffix : list Z) : bool :=
  (len suffix <? len strName) && bytes_eqb (drop (length strName - length suffix) strName) suffix.

Definition onion_suffix : list Z := chars ".onion".
Definition i2p_suffix : list Z := chars ".oc.b32.i2p".

(** [None]: the answer false. *)
Definition SetSpecial (strName : list Z) : option CNetAddr :=
  if has_suffix strName onion_suffix then
    let vchAddr := fst (DecodeBase32 (take (length strName - 6) strName)) in
    if negb (len vchAddr =? 10) then None else Some (pchOnionCat ++ vchAddr)
  else if has_suffix strName i2p_suffix then
    let vchAddr := fst (DecodeBase32 (take (length strName - 11) strName)) in
    if negb (len vchAddr =? 10) then None else Some (pchOnionCat ++ vchAddr)
  else None.

(** [strprintf("%x", n)] of sixteen bits *)
Fixpoint drop_zeros (l : list Z) : list Z := match l with [d] => [d] | 0 :: t => drop_zeros t | _ => l end.
Definition hex16 (n : Z) : list Z := map hexchar (drop_zeros (rev (to_digits 16 4 n))).

Fixpoint join (sep : Z) (l : list (list Z)) : list Z :=
  match l with [] => [] | [x] => x | x :: l => x ++ sep :: join sep l end.

Definition ToStringIP (getnameinfo : CNetAddr -> option (list Z)) (ip : CNetAddr) : list Z :=
  if IsTor ip then EncodeBase32 (drop 6 ip) ++ onion_suffix
  else if IsI2P ip then EncodeBase32 (drop 6 ip) ++ i2p_suffix
  else
    match getnameinfo ip with
    | Some name => name
    | None =>
        if IsIPv4 ip then join 46 (map (fun n => decimal (GetByte ip n)) [3; 2; 1; 0]%nat)
        else join 58 (map (fun n => hex16 (Z.lor (Z.shiftl (GetByte ip (n + 1)) 8) (GetByte ip n))) [14; 12; 10; 8; 6; 4; 2; 0]%nat)
    end.

Definition netaddr_GetHash `{Crypto} (ip : CNetAddr) : Z := bu_Get64 (Hash ip) 0.

(** ** [CService] *)

Record CService : Type := mkService { sv_ip : CNetAddr; port : Z }.

Definition service_eq (a b : CService) : bool := netaddr_eq (sv_ip a) (sv_ip b) && (port a =? port b).
Definition service_lt (a b : CService) : bool := netaddr_lt (sv_ip a) (sv_ip b) || (netaddr_eq (sv_ip a) (sv_ip b) && (port a <? port b)).
Definition GetKey (s : CService) : list Z := sv_ip s ++ [u8 (port s / 0x100); Z.land (port s) 0xFF].
Definition ToStringIPPort (getnameinfo : CNetAddr -> option (list Z)) (s : CService) : list Z :=
  let ip := sv_ip s in
  if IsIPv4 ip || IsTor ip || IsI2P ip then ToStringIP getnameinfo ip ++ [58] ++ decimal (port s)
  else [91] ++ ToStringIP getnameinfo ip ++ [93; 58] ++ decimal (port s).

(** [htons] and [ntohs] on a little-endian machine *)
Definition htons (p : Z) : Z := Z.land p 0xFF * 256 + p / 256.

Definition ser_netaddr : Ser CNetAddr := ser_flat 16.
Definition ser_service : Ser CService :=
  ser_struct (fun s => (sv_ip s, htons (port s))) (fun '(ip, portN) => mkService ip (htons portN)) (ser_pair (ser_flat 16) (ser_uint 2)).

(** ** [CAddress] *)

Definition NODE_NETWORK : Z := 1.
Definition CADDR_TIME_VERSION : Z := 60017.

Record CAddress : Type := mkAddress { ad_service : CService; nServices : Z; ad_nTime : Z; nLastTry : Z }.

Definition address_new (s : CService) (services : Z) : CAddress := mkAddress s services 100000000 0.

(** What is written depends on the stream; reading starts with [Init]. *)
Definition ser_address_at (ty ver : Z) : Ser CAddress :=
  if negb (Z.land ty SER_DISK =? 0) then
    ser_struct (fun a => (ver, ad_nTime a, nServices a, ad_service a)) (fun '(_, t, n, s) => mkAddress s n t 0)
      (ser_tuple4 (ser_int 4) (ser_uint 4) (ser_uint 8) ser_service)
  else if (CADDR_TIME_VERSION <=? ver) && (Z.land ty SER_GETHASH =? 0) then
    ser_struct (fun a => (ad_nTime a, nServices a, ad_service a)) (fun '(t, n, s) => mkAddress s n t 0) (ser_tuple3 (ser_uint 4) (ser_uint 8) ser_service)
  else ser_struct (fun a => (nServices a, ad_service a)) (fun '(n, s) => mkAddress s n 100000000 0) (ser_pair (ser_uint 8) ser_service).
Definition ser_address : Ser CAddress :=
  mkSer (fun ty ver a => GetSerializeSize (ser_address_at ty ver) ty ver a) (fun ty ver a => Serialize (ser_address_at ty ver) ty ver a)
        (fun ty ver => Unserialize (ser_address_at ty ver) ty ver).

(** ** [CMessageHeader] *)

Definition COMMAND_SIZE : nat := 12.

Record CMessageHeader : Type := mkHeader { mh_start : list Z; pchCommand : list Z; nMessageSize : Z; nChecksum : Z }.

Definition header_default (pchMessageStart : list Z) : CMessageHeader := mkHeader pchMessageStart (0 :: 1 :: replicate 10 0) UINT_MAX 0.

(** [strncpy] fills with NUL. *)
Definition strncpy (psz : list Z) (n : nat) : list Z := let s := take n (c_str psz) in s ++ replicate (n - length s) 0.
Definition header_new (pchMessageStart pszCommand : list Z) (size : Z) : CMessageHeader := mkHeader pchMessageStart (strncpy pszCommand COMMAND_SIZE) size 0.

Definition GetCommand (h : CMessageHeader) : list Z := if nth 11 (pchCommand h) 0 =? 0 then c_str (pchCommand h) else take COMMAND_SIZE (pchCommand h).

(** The loop over the command; [char] is signed. *)
Fixpoint command_ok (p : list Z) : bool :=
  match p with
  | [] => true
  | c :: t => if c =? 0 then forallb (fun x => x =? 0) p else if (swrap 8 c <? 32) || (0x7E <? swrap 8 c) then false else command_ok t
  end.

Definition header_IsValid (pchMessageStart : list Z) (h : CMessageHeader) : bool :=
  bytes_eqb (mh_start h) pchMessageStart && command_ok (pchCommand h) && (nMessageSize h <=? MAX_SIZE).

Definition ser_message_header : Ser CMessageHeader :=
  ser_struct (fun h => (mh_start h, pchCommand h, nMessageSize h, nChecksum h)) (fun '(s, c, n, k) => mkHeader s c n k)
    (ser_tuple4 (ser_flat 4) (ser_flat COMMAND_SIZE) (ser_uint 4) (ser_uint 4)).

(** ** [CInv] *)

Definition ppszTypeName : list (list Z) := [chars "ERROR"; chars "tx"; chars "block"].

Record CInv : Type := mkInv { inv_type : Z; inv_hash : base_uint }.

Definition inv_lt (a b : CInv) : bool := (inv_type a <? inv_type b) || ((inv_type a =? inv_type b) && bu_lt (inv_hash a) (inv_hash b)).
Definition IsKnownType (i : CInv) : bool := (1 <=? inv_type i) && (inv_type i <? len ppszTypeName).

(** [None]: [std::out_of_range] *)
Definition inv_GetCommand (i : CInv) : option (list Z) := if IsKnownType i then ppszTypeName !! Z.to_nat (inv_type i) else None.

(** The loop over the names from the index [i] on. *)
Fixpoint type_of_name (i : Z) (l : list (list Z)) (strType : list Z) : option Z :=
  match l with [] => None | n :: l => if bytes_eqb strType n then Some i else type_of_name (i + 1) l strType end.
Definition inv_of_name (strType : list Z) (hash : base_uint) : option CInv :=
  t ← type_of_name 1 (tail ppszTypeName) strType; Some (mkInv t hash).
Definition ser_inv : Ser CInv := ser_struct (fun i => (inv_type i, inv_hash i)) (fun '(t, h) => mkInv t h) (ser_pair (ser_int 4) ser_uint256).

(** ** Groups of addresses *)

(** Sixteen bytes. *)
Definition netaddr_ok (ip : CNetAddr) : Prop := digits 256 ip /\ len ip = Z.of_nat 16.

(** The IPv4 address that a mapped, translated, 6to4 or Teredo address stands for. *)
Definition embedded_ipv4 (ip : CNetAddr) : option (list Z) :=
  if IsIPv4 ip || IsRFC6145 ip || IsRFC6052 ip then Some (drop 12 ip)
  else if IsRFC3964 ip then Some (take 4 (drop 2 ip))
  else if IsRFC4380 ip then Some (map (fun b => Z.lxor b 0xFF) (drop 12 ip))
  else None.

Lemma netaddr_16 ip : netaddr_ok ip -> exists b0 b1 b2 b3 b4 b5 b6 b7 b8 b9 b10 b11 b12 b13 b14 b15,
  ip = [b0; b1; b2; b3; b4; b5; b6; b7; b8; b9; b10; b11; b12; b13; b14; b15].
Proof.
  intros [_ Hl]. unfold len in Hl. do 16 (destruct ip as [|? ip]; [cbn in Hl; lia|]). destruct ip; [|cbn in Hl; lia].
  do 16 eexists. reflexivity.
Qed.

Lemma routable_not_local ip : IsRoutable ip = true -> IsLocal ip = false.
Proof. unfold IsRoutable. intros E. destruct (IsLocal ip); [|done]. by rewrite !orb_true_r, andb_false_r in E. Qed.

Lemma group_unroutable ip : IsRoutable ip = false -> GetGroup ip = [0].
Proof. intros E. unfold GetGroup. rewrite E. by destruct (IsLocal ip). Qed.

Lemma starts_spec ip p : starts ip p = true <-> take (length p) ip = p.
Proof. unfold starts. apply bytes_eqb_eq. Qed.

Lemma tor_not_i2p ip : IsTor ip = true -> IsI2P ip = false.
Proof.
  unfold IsTor, IsI2P. intros E%starts_spec. apply not_true_is_false. intros F%starts_spec. cbn [length pchOnionCat pchGarliCat] in *. by rewrite E in F.
Qed.

Lemma lor_15 b : 0 <= b -> Z.lor b 15 = b / 16 * 16 + 15.
Proof.
  intros Hb. apply Z.bits_inj'. intros n Hn.
  assert (E : b / 16 * 16 + 15 = Z.lor (Z.shiftl (b / 2 ^ 4) 4) 15) by (rewrite lor_shiftl by lia; reflexivity).
  rewrite E, <- Z.shiftr_div_pow2, !Z.lor_spec, Z.shiftl_spec by lia.
  destruct (Z.lt_ge_cases n 4) as [Hlt|Hge].
  - rewrite (Z.testbit_neg_r _ (n - 4)) by lia. cbn [orb]. destruct (Z.testbit 15 n) eqn:Et; [by rewrite orb_true_r|].
    assert (n = 0 \/ n = 1 \/ n = 2 \/ n = 3) as [-> | [-> | [-> | ->]]] by lia; done.
  - rewrite Z.shiftr_spec by lia. by replace (n - 4 + 4) with n by lia.
Qed.

(** What identifies the group of an address: nothing for those that cannot be
    reached, the upper half of the IPv4 address, the first four bits of the name of
    a hidden service, or the first 32 or, for one provider, 36 bits of an IPv6 address. *)
Inductive group_id : Type :=
| unroutable_group
| ipv4_group (high : list Z)
| hidden_group (n : Network) (nibble : Z)
| ipv6_group (prefix : list Z) (nibble : option Z).

Definition group_of (ip : CNetAddr) : group_id :=
  if negb (IsRoutable ip) then unroutable_group
  else
    match embedded_ipv4 ip with
    | Some v4 => ipv4_group (take 2 v4)
    | None =>
        if IsTor ip || IsI2P ip then hidden_group (GetNetwork ip) (nth 6 ip 0 / 16)
        else ipv6_group (take 4 ip) (if bytes_eqb (take 4 ip) [0x20; 0x11; 0x04; 0x70] then Some (nth 4 ip 0 / 16) else None)
    end.

Definition group_bytes (g : group_id) : list Z :=
  match g with
  | unroutable_group => [0]
  | ipv4_group high => 1 :: high
  | hidden_group n nibble => [network_code n; nibble * 16 + 15]
  | ipv6_group prefix nibble => 2 :: prefix ++ match nibble with Some b => [b * 16 + 15] | None => [] end
  end.

Lemma GetGroup_bytes ip : netaddr_ok ip -> GetGroup ip = group_bytes (group_of ip).
Proof.
  intros Hok. destruct (IsRoutable ip) eqn:Hr.
  2: { rewrite group_unroutable by done. unfold group_of. by rewrite Hr. }
  pose proof (routable_not_local ip Hr) as Hloc. unfold GetGroup, group_of, embedded_ipv4, GetNetwork. rewrite Hr, Hloc. cbn [negb].
  destruct Hok as [Hd Hl].
  destruct (netaddr_16 ip (conj Hd Hl)) as (b0 & b1 & b2 & b3 & b4 & b5 & b6 & b7 & b8 & b9 & b10 & b11 & b12 & b13 & b14 & b15 & E).
  assert (H6 : 0 <= nth 6 ip 0 /\ 0 <= nth 4 ip 0).
  { rewrite E in Hd |- *. unfold digits in Hd. repeat match goal with H : Forall _ (_ :: _) |- _ => apply Forall_cons in H as [? H] end. cbn [nth]. lia. }
  destruct (IsIPv4 ip) eqn:E4, (IsRFC6145 ip), (IsRFC6052 ip); cbn [orb]; try (by rewrite E).
  destruct (IsRFC3964 ip); [by rewrite E|]. destruct (IsRFC4380 ip); [by rewrite E|].
  destruct (IsTor ip) eqn:Et; [|destruct (IsI2P ip)]; cbn [orb group_bytes network_code].
  1,2: cbn [group_loop Z.leb Z.compare Pos.compare Pos.compare_cont Z.ltb]; unfold GetByte; cbn [Z.to_nat]; change (15 - Z.to_nat (15 - 6))%nat with 6%nat;
    change (Z.shiftl 1 4 - 1) with 15; rewrite lor_15 by tauto; done.
  replace ((GetByte ip 15 =? 32) && (GetByte ip 14 =? 17) && (GetByte ip 13 =? 4) && (GetByte ip 12 =? 112)) with (bytes_eqb (take 4 ip) [32; 17; 4; 112]).
  2: { rewrite E. cbn. by rewrite andb_true_r, !andb_assoc. }
  destruct (bytes_eqb _ _); [|by rewrite E].
  rewrite E. rewrite E in H6. cbn -[Z.lor Z.div]. rewrite lor_15 by (cbn [nth] in H6; tauto). done.
Qed.

Lemma group_bytes_inj a b : netaddr_ok a -> netaddr_ok b -> group_bytes (group_of a) = group_bytes (group_of b) -> group_of a = group_of b.
Proof.
  intros Ha Hb. destruct (netaddr_16 a Ha) as (a0 & a1 & a2 & a3 & a4 & a5 & a6 & a7 & a8 & a9 & a10 & a11 & a12 & a13 & a14 & a15 & Ea).
  destruct (netaddr_16 b Hb) as (b0 & b1 & b2 & b3 & b4 & b5 & b6 & b7 & b8 & b9 & b10 & b11 & b12 & b13 & b14 & b15 & Eb).
  assert (Hn : forall ip, IsTor ip || IsI2P ip = true -> IsRoutable ip = true -> embedded_ipv4 ip = None -> GetNetwork ip = NET_TOR \/ GetNetwork ip = NET_I2P).
  { intros ip Ht Hr He. unfold GetNetwork. rewrite Hr. unfold embedded_ipv4 in He. destruct (IsIPv4 ip); [done|]. destruct (IsTor ip); [by left|]. cbn [orb] in Ht. rewrite Ht. by right. }
  unfold group_of. specialize (Hn a) as Hna. specialize (Hn b) as Hnb. clear Hn.
  destruct (IsRoutable a), (embedded_ipv4 a), (IsTor a || IsI2P a), (IsRoutable b), (embedded_ipv4 b), (IsTor b || IsI2P b); cbn [negb group_bytes] in *;
    repeat match goal with H : true = true -> true = true -> None = None -> _ |- _ => destruct (H eq_refl eq_refl eq_refl) as [-> | ->]; clear H end; cbn [network_code]; try done;
    try (intros [= ?]; congruence); try (intros [= ?]; f_equal; lia).
  rewrite Ea, Eb. cbn [take]. destruct (bytes_eqb _ _), (bytes_eqb _ _); cbn [app]; intros [=]; subst; try done. do 2 f_equal. cbn [nth]. lia.
Qed.

(** [GetGroup] tells two addresses apart exactly when they are in different
    groups: all those that are not routable share one; an address of the IPv4 network,
    mapped, translated or embedded in a 6to4 or a Teredo address, is in the group of
    the upper sixteen bits of the embedded IPv4 address; a hidden service in one of
    sixteen groups of its network; another IPv6 address in the group of its first 32
    bits, or 36 for one provider. *)
Theorem same_group_iff a b : netaddr_ok a -> netaddr_ok b -> GetGroup a = GetGroup b <-> group_of a = group_of b.
Proof.
  intros Ha Hb. rewrite !GetGroup_bytes by done. split; [by apply group_bytes_inj|by intros ->].
Qed.

Lemma same_group_iff_witness : GetGroup (netaddr_of_ipv4 [8; 8; 4; 4]) = GetGroup ([0x20; 0x02; 8; 8] ++ replicate 12 7).
Proof. apply same_group_iff; [split; [forall_list|reflexivity]..|reflexivity]. Defined.

(** ** Hidden services *)

Lemma EncodeBase32_length l : length l = 10%nat -> digits 256 l -> length (EncodeBase32 l) = 16%nat.
Proof. intros Hl _. do 10 (destruct l as [|? l]; [done|]). by destruct l. Qed.

Lemma take_length_app {A} (l k : list A) n : (length (l ++ k) - n)%nat = length l -> take (length (l ++ k) - n) (l ++ k) = l.
Proof. intros ->. apply take_app_length. Qed.

Lemma has_suffix_app (l k : list Z) : (0 < length l)%nat -> has_suffix (l ++ k) k = true.
Proof.
  intros Hl. unfold has_suffix, len. rewrite length_app. destruct (Z.ltb_spec (Z.of_nat (length k)) (Z.of_nat (length l + length k))); [|lia].
  cbn [andb]. replace (length l + length k - length k)%nat with (length l) by lia. rewrite drop_app_length. apply bytes_eqb_refl.
Qed.

Lemma i2p_not_onion l : has_suffix (l ++ i2p_suffix) onion_suffix = false.
Proof.
  unfold has_suffix. rewrite length_app, drop_app_ge by (cbn; lia).
  replace (length l + length i2p_suffix - length onion_suffix - length l)%nat with 5%nat by (cbn; lia). by rewrite andb_false_r.
Qed.

(** The name of a hidden service parses to its address; that of an I2P
    address parses to the address of the hidden service with the same ten bytes. *)
Theorem hidden_name_roundtrip getnameinfo ip : netaddr_ok ip ->
  (IsTor ip = true -> SetSpecial (ToStringIP getnameinfo ip) = Some ip) /\
  (IsI2P ip = true -> SetSpecial (ToStringIP getnameinfo ip) = Some (pchOnionCat ++ drop 6 ip)).
Proof.
  intros [Hd Hl]. assert (H10 : length (drop 6 ip) = 10%nat) by (rewrite length_drop; unfold len in Hl; lia).
  assert (Hd' : digits 256 (drop 6 ip)) by by apply Forall_drop.
  pose proof (EncodeBase32_length _ H10 Hd') as H16. assert (Hlen : len (drop 6 ip) = 10) by (unfold len; lia).
  unfold ToStringIP, SetSpecial. split; intros E.
  - rewrite E, has_suffix_app by lia. rewrite take_length_app by (rewrite length_app, H16; done). rewrite base32_roundtrip by done. cbn [fst]. rewrite Hlen. cbn [Z.eqb Pos.eqb negb].
    f_equal. apply starts_spec in E. rewrite <- (take_drop 6 ip) at 2. by rewrite <- E.
  - destruct (IsTor ip) eqn:Et; [by rewrite (tor_not_i2p ip Et) in E|]. rewrite E, i2p_not_onion, has_suffix_app by lia.
    rewrite take_length_app by (rewrite length_app, H16; done). rewrite base32_roundtrip by done. cbn [fst]. by rewrite Hlen.
Qed.

Lemma hidden_name_roundtrip_witness : SetSpecial (ToStringIP (fun _ => None) (pchOnionCat ++ replicate 10 77)) = Some (pchOnionCat ++ replicate 10 77).
Proof. refine (proj1 (hidden_name_roundtrip _ _ _) _); [split; [forall_list|reflexivity]|reflexivity]. Defined.

(** ** What is sent *)

Definition service_ok (s : CService) : Prop := netaddr_ok (sv_ip s) /\ fits 16 (port s).

Lemma htons_htons p : fits 16 p -> htons (htons p) = p /\ fits 16 (htons p).
Proof.
  unfold fits, htons. intros Hp. change 0xFF with (Z.ones 8). rewrite !Z.land_ones by lia. change (2 ^ 8) with 256. change (2 ^ 16) with 65536 in *.
  pose proof (Z.div_mod p 256) as E. pose proof (Z.mod_pos_bound p 256). set (q := p / 256) in *. set (r := p mod 256) in *.
  replace (r * 256 + q) with (q + r * 256) by lia. rewrite Z_mod_plus_full, Z.div_add by lia. rewrite Z.mod_small, Z.div_small by lia. lia.
Qed.

Lemma ser_service_correct : ser_correct service_ok ser_service.
Proof.
  apply (ser_struct_correct_on _ _ _ (fun '(ip, p) => netaddr_ok ip /\ fits 16 p)).
  - intros [ip p] [Hip Hp]. cbn in *. destruct (htons_htons p Hp) as [-> ?]. done.
  - intros [ip p] [Hip Hp]. split; [done|]. by apply htons_htons.
  - apply ser_pair_correct; [apply (ser_flat_correct 16); lia|apply (ser_uint_correct 2); lia].
Qed.

Definition address_ok (a : CAddress) : Prop := service_ok (ad_service a) /\ fits 64 (nServices a) /\ fits 32 (ad_nTime a).

(** What a reader of the stream gets: the time where it is sent, and no last try. *)
Definition address_sent (ty ver : Z) (a : CAddress) : CAddress :=
  mkAddress (ad_service a) (nServices a)
    (if negb (Z.land ty SER_DISK =? 0) || ((CADDR_TIME_VERSION <=? ver) && (Z.land ty SER_GETHASH =? 0)) then ad_nTime a else 100000000) 0.

(** A structure that some fields of the value are written of. *)
Lemma struct_reads {A B} (f : A -> B) (g : B -> A) (wf : B -> Prop) (c : Ser B) ty ver a :
  ser_correct wf c -> wf (f a) -> reads (Unserialize (ser_struct f g c) ty ver) (Serialize (ser_struct f g c) ty ver a) (g (f a)).
Proof. intros Hc Hw. cbn. eapply reads_bind_nil; [by apply (sc_read _ _ Hc)|apply reads_ret]. Qed.

Lemma address_reads ty ver a : sfits 32 ver -> address_ok a ->
  reads (Unserialize ser_address ty ver) (Serialize ser_address ty ver a) (address_sent ty ver a).
Proof.
  intros Hv (Hs & Hn & Ht). cbn [Unserialize Serialize ser_address]. unfold ser_address_at, address_sent.
  destruct (negb (Z.land ty SER_DISK =? 0)) eqn:Ed; cbn [orb]; [|destruct (_ && _)].
  - by eapply struct_reads; [apply ser_tuple4_correct; [apply ser_s32_correct|apply ser_u32_correct|apply (ser_uint_correct 8); lia|apply ser_service_correct]|].
  - by eapply struct_reads; [apply ser_tuple3_correct; [apply ser_u32_correct|apply (ser_uint_correct 8); lia|apply ser_service_correct]|].
  - by eapply struct_reads; [apply ser_pair_correct; [apply (ser_uint_correct 8); lia|apply ser_service_correct]|].
Qed.

Definition msg_header_ok (h : CMessageHeader) : Prop :=
  (digits 256 (mh_start h) /\ len (mh_start h) = Z.of_nat 4) /\ (digits 256 (pchCommand h) /\ len (pchCommand h) = Z.of_nat 12) /\ fits 32 (nMessageSize h) /\ fits 32 (nChecksum h).

Lemma ser_message_header_correct : ser_correct msg_header_ok ser_message_header.
Proof.
  eapply ser_struct_correct_on; [| |apply ser_tuple4_correct; [apply (ser_flat_correct 4); lia|apply (ser_flat_correct 12); lia|apply ser_u32_correct|apply ser_u32_correct]].
  - intros [] (? & ? & ? & ?). done.
  - intros [[[]]] (? & ? & ? & ?). done.
Qed.

Definition inv_ok (i : CInv) : Prop := sfits 32 (inv_type i) /\ wf 8 (inv_hash i).

Lemma ser_inv_correct : ser_correct inv_ok ser_inv.
Proof.
  eapply ser_struct_correct_on; [| |apply ser_pair_correct; [apply ser_s32_correct|apply ser_uint256_correct]].
  - by intros [] [].
  - by intros [] [].
Qed.

(** A printable name of at most twelve characters. *)
Definition command_name (c : list Z) : Prop := (length c <= COMMAND_SIZE)%nat /\ Forall (fun x => 32 <= x <= 126) c.

Lemma c_str_printable c k : Forall (fun x => 32 <= x <= 126) c -> c_str (c ++ k) = c ++ c_str k.
Proof.
  intros Hc. induction Hc as [|x c Hx Hc IH]; [done|]. cbn [app]. rewrite c_str_cons by lia. by rewrite IH.
Qed.

Lemma command_ok_name c n : Forall (fun x => 32 <= x <= 126) c -> command_ok (c ++ replicate n 0) = true.
Proof.
  intros Hc. induction Hc as [|x c Hx Hc IH].
  - destruct n; [done|]. cbn [app replicate command_ok Z.eqb forallb andb]. induction n; [done|]. by cbn.
  - cbn [app command_ok]. destruct (Z.eqb_spec x 0); [lia|].
    assert (E : swrap 8 x = x) by (apply swrap_id; [lia|change (2 ^ (8 - 1)) with 128; lia]). rewrite E.
    destruct (Z.ltb_spec x 32); [lia|]. by destruct (Z.ltb_spec 0x7E x); [lia|].
Qed.

Lemma command_ok_split p : digits 256 p -> command_ok p = true -> exists c n, p = c ++ replicate n 0 /\ Forall (fun x => 32 <= x <= 126) c.
Proof.
  induction p as [|x p IH]; intros Hd E; [by exists [], 0%nat|]. cbn [command_ok] in E. destruct (Z.eqb_spec x 0) as [->|Hx].
  - exists [], (S (length p)). split; [|done]. cbn [app replicate]. f_equal. cbn [forallb Z.eqb andb] in E.
    clear -E. induction p as [|y p IH]; [done|]. cbn in *. apply andb_prop in E as [?%Z.eqb_eq ?]. subst. f_equal. auto.
  - unfold digits in Hd. apply Forall_cons in Hd as [Hx0 Hd]. destruct (_ || _) eqn:Er; [done|]. destruct (IH Hd E) as (c & n & -> & Hc).
    exists (x :: c), n. split; [done|]. constructor; [|done]. apply orb_false_elim in Er as [E1%Z.ltb_ge E2%Z.ltb_ge].
    destruct (Z.lt_ge_cases x 128).
    + rewrite swrap_id in E1, E2 by (first [lia|change (2 ^ (8 - 1)) with 128; lia]). lia.
    + exfalso. revert E1. unfold swrap. change (2 ^ (8 - 1)) with 128. change (2 ^ 8) with 256. rewrite <- (Z_mod_plus_full _ (-1)), Z.mod_small by lia. lia.
Qed.

Lemma name_GetCommand start c size k : command_name c -> GetCommand (mkHeader start (strncpy c COMMAND_SIZE) size k) = c.
Proof.
  intros [Hl Hc]. unfold GetCommand, strncpy. cbn [pchCommand].
  assert (Ec : c_str c = c) by (rewrite <- (app_nil_r c) at 1; rewrite c_str_printable by done; cbn; apply app_nil_r).
  rewrite Ec, take_ge by done. unfold COMMAND_SIZE in *. destruct (Z.eqb_spec (nth 11 (c ++ replicate (12 - length c) 0) 0) 0) as [E|E].
  - rewrite c_str_printable by done. destruct (12 - length c)%nat; cbn; by rewrite app_nil_r.
  - destruct (decide (length c = 12%nat)) as [El|]; [rewrite El; cbn [Nat.sub replicate]; rewrite app_nil_r; apply take_ge; lia|].
    exfalso. apply E. rewrite app_nth2 by lia. destruct (nth_in_or_default (11 - length c) (replicate (12 - length c) 0) 0) as [Hin|]; [|done]. by apply list_elem_of_In, elem_of_replicate_inv in Hin.
Qed.

(** What is sent is what is read: a message header, an inventory item and a
    service read back unchanged, an address with the time where the stream carries it;
    the command of a header that [IsValid] accepts is printable, the header of that
    name has the same bytes, and [GetCommand] answers the name a header was made of. *)
Theorem message_codecs :
  ser_correct msg_header_ok ser_message_header /\ ser_correct inv_ok ser_inv /\ ser_correct service_ok ser_service /\
  (forall ty ver a, sfits 32 ver -> address_ok a -> reads (Unserialize ser_address ty ver) (Serialize ser_address ty ver a) (address_sent ty ver a)) /\
  (forall start c size, command_name c -> size <= MAX_SIZE ->
    GetCommand (header_new start c size) = c /\ header_IsValid start (header_new start c size) = true) /\
  (forall start h, msg_header_ok h -> header_IsValid start h = true ->
    command_name (GetCommand h) /\ pchCommand (header_new start (GetCommand h) (nMessageSize h)) = pchCommand h /\ nMessageSize h <= MAX_SIZE).
Proof.
  split_and!; [apply ser_message_header_correct|apply ser_inv_correct|apply ser_service_correct|intros; by apply address_reads| |].
  - intros start c size Hc Hs. split; [by apply name_GetCommand|]. unfold header_IsValid, header_new, strncpy. cbn [mh_start pchCommand nMessageSize].
    rewrite bytes_eqb_refl. destruct Hc as [Hl Hc]. destruct (Z.leb_spec size MAX_SIZE); [|lia]. cbn [andb]. rewrite andb_true_r.
    rewrite <- (app_nil_r c) at 1 2. rewrite c_str_printable by done. cbn [c_str]. rewrite app_nil_r, take_ge by done. by apply command_ok_name.
  - intros start h (_ & [Hd Hl] & _) Hv. unfold header_IsValid in Hv. apply andb_prop in Hv as [Hv Hs%Z.leb_le]. apply andb_prop in Hv as [_ Hv].
    destruct (command_ok_split _ Hd Hv) as (c & n & E & Hc). assert (Hn : (length c + n = 12)%nat) by (rewrite E in Hl; unfold len in Hl; rewrite length_app, length_replicate in Hl; lia).
    assert (Hname : command_name c) by (split; [unfold COMMAND_SIZE; lia|done]).
    assert (Ep : pchCommand h = strncpy c COMMAND_SIZE).
    { rewrite E. unfold strncpy. rewrite <- (app_nil_r c) at 2 3. rewrite c_str_printable by done. cbn [c_str].
      rewrite app_nil_r, take_ge by apply Hname. f_equal. f_equal. unfold COMMAND_SIZE. lia. }
    assert (Eg : GetCommand h = c) by (destruct h; cbn [pchCommand] in Ep; rewrite Ep; by apply name_GetCommand).
    rewrite Eg. split_and!; [done|by rewrite Ep|done].
Qed.
