(* ===== verification/AddrMan.v ===== *)
(** * addrman.cpp: the address manager

    The tables of the addresses a node knows: those it has not tried, in 256
    buckets of which one address may be in several, and those it has connected to, in 64
    buckets.  The random numbers are those of the stream of [Util]; every operation
    takes and returns the position in it, and is [None] where an assertion
    of the code fails or no random number in range turns up.  [GetChance] and
    [Select_], which compute with floating point, and the form of the
    tables on disk are left out. *)
From Stdlib Require Import ZArith Lia Bool.
From stdpp Require Import prelude gmap sorting.
From S2P Require Import Prelude Uint256 DataStream Serialize Crypto Containers Bignum Base58 Script Tx Block TxDB Util NetAddr.

Definition ADDRMAN_TRIED_BUCKET_COUNT : Z := 64.
Definition ADDRMAN_TRIED_BUCKET_SIZE : Z := 64.
Definition ADDRMAN_NEW_BUCKET_COUNT : Z := 256.
Definition ADDRMAN_NEW_BUCKET_SIZE : Z := 64.
Definition ADDRMAN_TRIED_BUCKETS_PER_GROUP : Z := 4.
Definition ADDRMAN_NEW_BUCKETS_PER_SOURCE_GROUP : Z := 32.
Definition ADDRMAN_NEW_BUCKETS_PER_ADDRESS : Z := 4.
Definition ADDRMAN_TRIED_ENTRIES_INSPECT_ON_EVICT : nat := 4.
Definition ADDRMAN_HORIZON_DAYS : Z := 30.
Definition ADDRMAN_RETRIES : Z := 3.
Definition ADDRMAN_MAX_FAILURES : Z := 10.
Definition ADDRMAN_MIN_FAIL_DAYS : Z := 7.
Definition ADDRMAN_GETADDR_MAX_PCT : Z := 23.
Definition ADDRMAN_GETADDR_MAX : Z := 2500.

(** ** [CAddrInfo] *)

Record CAddrInfo : Type := mkInfo {
  ai_addr : CAddress;
  source : CNetAddr;
  nLastSuccess : Z;
  nAttempts : Z;
  nRefCount : Z;
  fInTried : bool;
  nRandomPos : Z
}.

Definition info_ip (i : CAddrInfo) : CNetAddr := sv_ip (ad_service (ai_addr i)).
Definition info_time (i : CAddrInfo) : Z := ad_nTime (ai_addr i).
Definition info_try (i : CAddrInfo) : Z := nLastTry (ai_addr i).

Definition address_with (services time last_try : Z) (a : CAddress) : CAddress := mkAddress (ad_service a) services time last_try.
Definition set_time (t : Z) (i : CAddrInfo) : CAddrInfo :=
  mkInfo (address_with (nServices (ai_addr i)) (u32 t) (info_try i) (ai_addr i)) (source i) (nLastSuccess i) (nAttempts i) (nRefCount i) (fInTried i) (nRandomPos i).
Definition set_try (t : Z) (i : CAddrInfo) : CAddrInfo :=
  mkInfo (address_with (nServices (ai_addr i)) (info_time i) t (ai_addr i)) (source i) (nLastSuccess i) (nAttempts i) (nRefCount i) (fInTried i) (nRandomPos i).
Definition set_services (s : Z) (i : CAddrInfo) : CAddrInfo :=
  mkInfo (address_with s (info_time i) (info_try i) (ai_addr i)) (source i) (nLastSuccess i) (nAttempts i) (nRefCount i) (fInTried i) (nRandomPos i).
Definition set_success (t : Z) (i : CAddrInfo) : CAddrInfo := mkInfo (ai_addr i) (source i) t (nAttempts i) (nRefCount i) (fInTried i) (nRandomPos i).
Definition set_attempts (n : Z) (i : CAddrInfo) : CAddrInfo := mkInfo (ai_addr i) (source i) (nLastSuccess i) n (nRefCount i) (fInTried i) (nRandomPos i).
Definition set_ref (n : Z) (i : CAddrInfo) : CAddrInfo := mkInfo (ai_addr i) (source i) (nLastSuccess i) (nAttempts i) n (fInTried i) (nRandomPos i).
Definition set_tried (b : bool) (i : CAddrInfo) : CAddrInfo := mkInfo (ai_addr i) (source i) (nLastSuccess i) (nAttempts i) (nRefCount i) b (nRandomPos i).
Definition set_pos (p : Z) (i : CAddrInfo) : CAddrInfo := mkInfo (ai_addr i) (source i) (nLastSuccess i) (nAttempts i) (nRefCount i) (fInTried i) p.

(** [CAddrInfo(addr, source)]: [Init] resets [nLastTry], too. *)
Definition info_new (addr : CAddress) (src : CNetAddr) : CAddrInfo :=
  mkInfo (address_with (nServices addr) (ad_nTime addr) 0 addr) src 0 0 0 false (-1).
Definition info_default : CAddrInfo := info_new (address_new (mkService netaddr_Init 0) NODE_NETWORK) netaddr_Init.

Definition IsTerrible (i : CAddrInfo) (nNow : Z) : bool :=
  if negb (info_try i =? 0) && (nNow - 60 <=? info_try i) then false
  else if nNow + 10 * 60 <? info_time i then true
  else if (info_time i =? 0) || (ADDRMAN_HORIZON_DAYS * 86400 <? nNow - info_time i) then true
  else if (nLastSuccess i =? 0) && (ADDRMAN_RETRIES <=? nAttempts i) then true
  else if (ADDRMAN_MIN_FAIL_DAYS * 86400 <? nNow - nLastSuccess i) && (ADDRMAN_MAX_FAILURES <=? nAttempts i) then true
  else false.

Section buckets.
Context `{CR : Crypto}.

Definition hash64 (ss : list Z) : Z := bu_Get64 (Hash ss) 0.
Definition put_bytes (l : list Z) : list Z := Serialize ser_bytes SER_GETHASH 0 l.
Definition put_uint64 (z : Z) : list Z := Serialize (ser_uint 8) SER_GETHASH 0 z.

Definition GetTriedBucket (nKey : list Z) (i : CAddrInfo) : Z :=
  let hash1 := hash64 (put_bytes nKey ++ put_bytes (GetKey (ad_service (ai_addr i)))) in
  let hash2 := hash64 (put_bytes nKey ++ put_bytes (GetGroup (info_ip i)) ++ put_uint64 (hash1 mod ADDRMAN_TRIED_BUCKETS_PER_GROUP)) in
  hash2 mod ADDRMAN_TRIED_BUCKET_COUNT.

Definition GetNewBucket (nKey : list Z) (i : CAddrInfo) (src : CNetAddr) : Z :=
  let hash1 := hash64 (put_bytes nKey ++ put_bytes (GetGroup (info_ip i)) ++ put_bytes (GetGroup src)) in
  let hash2 := hash64 (put_bytes nKey ++ put_bytes (GetGroup src) ++ put_uint64 (hash1 mod ADDRMAN_NEW_BUCKETS_PER_SOURCE_GROUP)) in
  hash2 mod ADDRMAN_NEW_BUCKET_COUNT.
End buckets.

(** ** [CAddrMan] *)

Record CAddrMan : Type := mkAddrMan {
  nKey : list Z;
  nIdCount : Z;
  mapInfo : gmap Z CAddrInfo;
  mapAddr : gmap CNetAddr Z;
  vRandom : list Z;
  nTried : Z;
  vvTried : list (list Z);
  nNew : Z;
  vvNew : list (gset Z);
  verificationToken : gmap CNetAddr Z;
  reconnectToken : gmap CNetAddr Z
}.

(** [RAND_bytes] gives the key. *)
Definition addrman_new (key : list Z) : CAddrMan := mkAddrMan key 0 ∅ ∅ [] 0 (replicate 64 []) 0 (replicate 256 ∅) ∅ ∅.

Definition with_info (f : gmap Z CAddrInfo -> gmap Z CAddrInfo) (m : CAddrMan) : CAddrMan :=
  mkAddrMan (nKey m) (nIdCount m) (f (mapInfo m)) (mapAddr m) (vRandom m) (nTried m) (vvTried m) (nNew m) (vvNew m) (verificationToken m) (reconnectToken m).
Definition with_random (v : list Z) (m : CAddrMan) : CAddrMan :=
  mkAddrMan (nKey m) (nIdCount m) (mapInfo m) (mapAddr m) v (nTried m) (vvTried m) (nNew m) (vvNew m) (verificationToken m) (reconnectToken m).
Definition with_mapAddr (a : gmap CNetAddr Z) (m : CAddrMan) : CAddrMan :=
  mkAddrMan (nKey m) (nIdCount m) (mapInfo m) a (vRandom m) (nTried m) (vvTried m) (nNew m) (vvNew m) (verificationToken m) (reconnectToken m).
Definition with_tried (n : Z) (v : list (list Z)) (m : CAddrMan) : CAddrMan :=
  mkAddrMan (nKey m) (nIdCount m) (mapInfo m) (mapAddr m) (vRandom m) n v (nNew m) (vvNew m) (verificationToken m) (reconnectToken m).
Definition with_new (n : Z) (v : list (gset Z)) (m : CAddrMan) : CAddrMan :=
  mkAddrMan (nKey m) (nIdCount m) (mapInfo m) (mapAddr m) (vRandom m) (nTried m) (vvTried m) n v (verificationToken m) (reconnectToken m).

Definition am_size (m : CAddrMan) : Z := s32 (len (vRandom m)).

(** [count], [size], [erase] and [insert] of a [std::set<int>] *)
Definition set_has (x : Z) (s : gset Z) : bool := bool_decide (x ∈ s).
Definition set_size (s : gset Z) : Z := Z.of_nat (size s).
Definition set_erase (x : Z) (s : gset Z) : gset Z := s ∖ {[x]}.
Definition set_add (x : Z) (s : gset Z) : gset Z := {[x]} ∪ s.
Definition map_count (m : gmap Z Z) : Z := Z.of_nat (size m).

(** The elements of a [std::set<int>] and the pairs of a [std::map<int, CAddrInfo>] in the order of their iterators. *)
Definition in_order (s : gset Z) : list Z := merge_sort Z.le (elements s).
Definition key_le (a b : Z * CAddrInfo) : Prop := a.1 <= b.1.
#[export] Instance key_le_dec : RelDecision key_le := fun a b => Z_le_dec a.1 b.1.
Definition infos (m : gmap Z CAddrInfo) : list (Z * CAddrInfo) := merge_sort key_le (map_to_list m).

(** [mapInfo[id]]: the entry that is not there is made. *)
Definition touch (id : Z) (m : gmap Z CAddrInfo) : gmap Z CAddrInfo := match m !! id with Some _ => m | None => <[id := info_default]> m end.
Definition info_at (id : Z) (m : gmap Z CAddrInfo) : CAddrInfo := default info_default (m !! id).

(** The entry and its [nId]. *)
Definition Find (m : CAddrMan) (addr : CNetAddr) : option (Z * CAddrInfo) :=
  id ← mapAddr m !! addr; i ← mapInfo m !! id; Some (id, i).

Definition Create (m : CAddrMan) (addr : CAddress) (src : CNetAddr) : CAddrMan * Z :=
  let nId := nIdCount m in
  (mkAddrMan (nKey m) (s32 (nIdCount m + 1)) (<[nId := set_pos (s32 (len (vRandom m))) (info_new addr src)]> (mapInfo m))
     (<[sv_ip (ad_service addr) := nId]> (mapAddr m)) (vRandom m ++ [nId]) (nTried m) (vvTried m) (nNew m) (vvNew m) (verificationToken m) (reconnectToken m), nId).

Definition SwapRandom (m : CAddrMan) (nRndPos1 nRndPos2 : Z) : option CAddrMan :=
  let nRndPos1 := u32 nRndPos1 in let nRndPos2 := u32 nRndPos2 in
  if nRndPos1 =? nRndPos2 then Some m
  else
    nId1 ← vRandom m !! Z.to_nat nRndPos1;
    nId2 ← vRandom m !! Z.to_nat nRndPos2;
    _ ← mapInfo m !! nId1;
    _ ← mapInfo m !! nId2;
    Some (with_random (<[Z.to_nat nRndPos2 := nId1]> (<[Z.to_nat nRndPos1 := nId2]> (vRandom m)))
            (with_info (fun mi => alter (set_pos (s32 nRndPos1)) nId2 (alter (set_pos (s32 nRndPos2)) nId1 mi)) m)).

Section operations.
Context `{CR : Crypto} (RAND_uint64 : nat -> Z) (tries : nat).
Local Abbreviation GetRandInt := (Util.GetRandInt RAND_uint64 tries).

(** The loop of [SelectTried] over the indices [ixs]: the bucket, the entries, [nOldest] and [nOldestPos]. *)
Fixpoint select_loop (ixs : list nat) (vTried : list Z) (mi : gmap Z CAddrInfo) (nOldest nOldestPos : Z) (k : nat) : option (list Z * gmap Z CAddrInfo * Z * nat) :=
  match ixs with
  | [] => Some (vTried, mi, nOldestPos, k)
  | i :: ixs =>
      if Z.of_nat i <? len vTried then
        '(r, k) ← GetRandInt (len vTried - Z.of_nat i) k;
        let nPos := r + Z.of_nat i in
        nTemp ← vTried !! Z.to_nat nPos;
        x ← vTried !! i;
        let vTried := <[i := nTemp]> (<[Z.to_nat nPos := x]> vTried) in
        if nOldest =? -1 then select_loop ixs vTried mi nTemp nPos k
        else
          _ ← mi !! nTemp;
          let mi := touch nOldest mi in
          if nLastSuccess (info_at nTemp mi) <? nLastSuccess (info_at nOldest mi)
          then select_loop ixs vTried mi nTemp nPos k else select_loop ixs vTried mi nOldest nOldestPos k
      else Some (vTried, mi, nOldestPos, k)
  end.

Definition SelectTried (m : CAddrMan) (nKBucket : Z) (k : nat) : option (CAddrMan * Z * nat) :=
  vTried ← vvTried m !! Z.to_nat nKBucket;
  '(vTried, mi, nOldestPos, k) ← select_loop (seq 0 ADDRMAN_TRIED_ENTRIES_INSPECT_ON_EVICT) vTried (mapInfo m) (-1) (-1) k;
  Some (with_tried (nTried m) (<[Z.to_nat nKBucket := vTried]> (vvTried m)) (with_info (fun _ => mi) m), nOldestPos, k).

(** [if (--info.nRefCount == 0) ...; vNew.erase(nId)]: one bucket less has the entry, which goes with the last. *)
Definition drop_ref (m : CAddrMan) (nUBucket nId : Z) : option CAddrMan :=
  info ← mapInfo m !! nId;
  vNew ← vvNew m !! Z.to_nat nUBucket;
  let m := with_info (<[nId := set_ref (nRefCount info - 1) info]>) m in
  m ← (if nRefCount info - 1 =? 0 then
         m ← SwapRandom m (nRandomPos info) (len (vRandom m) - 1);
         let m := with_random (take (length (vRandom m) - 1) (vRandom m)) m in
         let m := with_mapAddr (delete (info_ip info) (mapAddr m)) m in
         Some (with_new (nNew m - 1) (vvNew m) (with_info (delete nId) m))
       else Some m);
  Some (with_new (nNew m) (<[Z.to_nat nUBucket := set_erase nId vNew]> (vvNew m)) m).

(** The first loop of [ShrinkNew]: [Some None] where no entry is terrible. *)
Fixpoint find_terrible (mi : gmap Z CAddrInfo) (nNow : Z) (ids : list Z) : option (option Z) :=
  match ids with
  | [] => Some None
  | id :: ids => i ← mi !! id; if IsTerrible i nNow then Some (Some id) else find_terrible mi nNow ids
  end.

(** The second loop, from the position [nI] on. *)
Fixpoint find_oldest (mi : gmap Z CAddrInfo) (n : list Z) (nI : Z) (ids : list Z) (nOldest : Z) : option (gmap Z CAddrInfo * Z) :=
  match ids with
  | [] => Some (mi, nOldest)
  | id :: ids =>
      if existsb (Z.eqb nI) n then
        if nOldest =? -1 then find_oldest mi n (nI + 1) ids id
        else
          _ ← mi !! id;
          let mi := touch nOldest mi in
          find_oldest mi n (nI + 1) ids (if info_time (info_at id mi) <? info_time (info_at nOldest mi) then id else nOldest)
      else find_oldest mi n (nI + 1) ids nOldest
  end.

Definition ShrinkNew (m : CAddrMan) (nUBucket nNow : Z) (k : nat) : option (CAddrMan * Z * nat) :=
  vNew ← vvNew m !! Z.to_nat nUBucket;
  t ← find_terrible (mapInfo m) nNow (in_order vNew);
  match t with
  | Some id => m ← drop_ref m nUBucket id; Some (m, 0, k)
  | None =>
      let sz := set_size vNew in
      '(n0, k) ← GetRandInt sz k;
      '(n1, k) ← GetRandInt sz k;
      '(n2, k) ← GetRandInt sz k;
      '(n3, k) ← GetRandInt sz k;
      '(mi, nOldest) ← find_oldest (mapInfo m) [n0; n1; n2; n3] 0 (in_order vNew) (-1);
      m ← drop_ref (with_info (fun _ => mi) m) nUBucket nOldest;
      Some (m, 1, k)
  end.

(** The loop of [MakeTried] over the new buckets. *)
Fixpoint erase_all (nId : Z) (vv : list (gset Z)) (ref : Z) : list (gset Z) * Z :=
  match vv with
  | [] => ([], ref)
  | v :: vv => let '(vv, ref) := erase_all nId vv (if set_has nId v then ref - 1 else ref) in (set_erase nId v :: vv, ref)
  end.

Definition MakeTried (m : CAddrMan) (nId nOrigin : Z) (k : nat) : option (CAddrMan * nat) :=
  info ← mapInfo m !! nId;
  vOrigin ← vvNew m !! Z.to_nat nOrigin;
  if negb (set_has nId vOrigin) then None
  else
    let '(vv, ref) := erase_all nId (vvNew m) (nRefCount info) in
    let m := with_new (nNew m - 1) vv (with_info (<[nId := set_ref ref info]>) m) in
    if negb (ref =? 0) then None
    else
      let nKBucket := GetTriedBucket (nKey m) info in
      vTried ← vvTried m !! Z.to_nat nKBucket;
      if len vTried <? ADDRMAN_TRIED_BUCKET_SIZE then
        Some (with_info (alter (set_tried true) nId) (with_tried (nTried m + 1) (<[Z.to_nat nKBucket := vTried ++ [nId]]> (vvTried m)) m), k)
      else
        '(m, nPos, k) ← SelectTried m nKBucket k;
        vTried ← vvTried m !! Z.to_nat nKBucket;
        if nPos <? 0 then None
        else
          nOld ← vTried !! Z.to_nat nPos;
          infoOld ← mapInfo m !! nOld;
          let nUBucket := GetNewBucket (nKey m) infoOld (source infoOld) in
          vNew ← vvNew m !! Z.to_nat nUBucket;
          let m := with_info (<[nOld := set_ref 1 (set_tried false infoOld)]>) m in
          let vv := if set_size vNew <? ADDRMAN_NEW_BUCKET_SIZE
                    then alter (set_add nOld) (Z.to_nat nUBucket) (vvNew m) else alter (set_add nOld) (Z.to_nat nOrigin) (vvNew m) in
          let m := with_tried (nTried m) (<[Z.to_nat nKBucket := <[Z.to_nat nPos := nId]> vTried]> (vvTried m)) (with_new (nNew m + 1) vv m) in
          Some (with_info (alter (set_tried true) nId) m, k).

(** The loop of [Good_] over the offsets [ns]. *)
Fixpoint find_bucket (vv : list (gset Z)) (nRnd nId : Z) (ns : list nat) : Z :=
  match ns with
  | [] => -1
  | n :: ns =>
      let nB := (Z.of_nat n + nRnd) mod len vv in
      match vv !! Z.to_nat nB with
      | Some vNew => if set_has nId vNew then nB else find_bucket vv nRnd nId ns
      | None => find_bucket vv nRnd nId ns
      end
  end.

Definition Good_ (m : CAddrMan) (addr : CService) (nTime : Z) (k : nat) : option (CAddrMan * nat) :=
  match Find m (sv_ip addr) with
  | None => Some (m, k)
  | Some (nId, info) =>
      if negb (service_eq (ad_service (ai_addr info)) addr) then Some (m, k)
      else
        let info := set_attempts 0 (set_time nTime (set_try nTime (set_success nTime info))) in
        let m := with_info (<[nId := info]>) m in
        if fInTried info then Some (m, k)
        else
          '(nRnd, k) ← GetRandInt (len (vvNew m)) k;
          let nUBucket := find_bucket (vvNew m) nRnd nId (seq 0 (length (vvNew m))) in
          if nUBucket =? -1 then Some (m, k) else MakeTried m nId nUBucket k
  end.

(** The end of [Add_]: the entry goes into a bucket it is not in. *)
Definition add_to_bucket (m : CAddrMan) (nId : Z) (src : CNetAddr) (nNow : Z) (k : nat) : option (CAddrMan * nat) :=
  info ← mapInfo m !! nId;
  let nUBucket := GetNewBucket (nKey m) info src in
  vNew ← vvNew m !! Z.to_nat nUBucket;
  if set_has nId vNew then Some (m, k)
  else
    let m := with_info (<[nId := set_ref (nRefCount info + 1) info]>) m in
    '(m, k) ← (if set_size vNew =? ADDRMAN_NEW_BUCKET_SIZE then '(m, _, k) ← ShrinkNew m nUBucket nNow k; Some (m, k) else Some (m, k));
    Some (with_new (nNew m) (alter (set_add nId) (Z.to_nat nUBucket) (vvNew m)) m, k).

(** What [Add_] makes of the entry it has already. *)
Definition refresh (info : CAddrInfo) (addr : CAddress) (nTimePenalty nNow : Z) : CAddrInfo :=
  let fCurrentlyOnline := nNow - ad_nTime addr <? 24 * 60 * 60 in
  let nUpdateInterval := if fCurrentlyOnline then 60 * 60 else 24 * 60 * 60 in
  let info := if negb (ad_nTime addr =? 0) && ((info_time info =? 0) || (info_time info <? ad_nTime addr - nUpdateInterval - nTimePenalty))
              then set_time (Z.max 0 (ad_nTime addr - nTimePenalty)) info else info in
  set_services (Z.lor (nServices (ai_addr info)) (nServices addr)) info.

Definition Add_ (m : CAddrMan) (addr : CAddress) (src : CNetAddr) (nTimePenalty nNow : Z) (k : nat) : option (CAddrMan * bool * nat) :=
  if negb (IsRoutable (sv_ip (ad_service addr))) then Some (m, false, k)
  else
    match Find m (sv_ip (ad_service addr)) with
    | Some (nId, info) =>
        let info := refresh info addr nTimePenalty nNow in
        let m := with_info (<[nId := info]>) m in
        if (ad_nTime addr =? 0) || (negb (info_time info =? 0) && (ad_nTime addr <=? info_time info)) then Some (m, false, k)
        else if fInTried info then Some (m, false, k)
        else if nRefCount info =? ADDRMAN_NEW_BUCKETS_PER_ADDRESS then Some (m, false, k)
        else
          let nFactor := 2 ^ nRefCount info in
          '(r, k) ← (if 1 <? nFactor then GetRandInt nFactor k else Some (0, k));
          if negb (r =? 0) then Some (m, false, k)
          else '(m, k) ← add_to_bucket m nId src nNow k; Some (m, false, k)
    | None =>
        let '(m, nId) := Create m addr src in
        let m := with_info (alter (fun i => set_time (Z.max 0 (info_time i - nTimePenalty)) i) nId) m in
        let m := with_new (nNew m + 1) (vvNew m) m in
        '(m, k) ← add_to_bucket m nId src nNow k; Some (m, true, k)
    end.

Definition Attempt_ (m : CAddrMan) (addr : CService) (nTime : Z) : CAddrMan :=
  match Find m (sv_ip addr) with
  | None => m
  | Some (nId, info) =>
      if negb (service_eq (ad_service (ai_addr info)) addr) then m
      else with_info (<[nId := set_attempts (s32 (nAttempts info + 1)) (set_try nTime info)]>) m
  end.

Definition Connected_ (m : CAddrMan) (addr : CService) (nTime : Z) : CAddrMan :=
  match Find m (sv_ip addr) with
  | None => m
  | Some (nId, info) =>
      if negb (service_eq (ad_service (ai_addr info)) addr) then m
      else if 20 * 60 <? nTime - info_time info then with_info (<[nId := set_time nTime info]>) m else m
  end.

(** The loop of [GetAddr_] over the positions [ns]. *)
Fixpoint getaddr_loop (ns : list nat) (m : CAddrMan) (vAddr : list CAddress) (k : nat) : option (CAddrMan * list CAddress * nat) :=
  match ns with
  | [] => Some (m, vAddr, k)
  | n :: ns =>
      '(r, k) ← GetRandInt (len (vRandom m) - Z.of_nat n) k;
      m ← SwapRandom m (Z.of_nat n) (r + Z.of_nat n);
      id ← vRandom m !! n;
      i ← mapInfo m !! id;
      getaddr_loop ns m (vAddr ++ [ai_addr i]) k
  end.

Definition GetAddr_ (m : CAddrMan) (k : nat) : option (CAddrMan * list CAddress * nat) :=
  let nNodes := ADDRMAN_GETADDR_MAX_PCT * len (vRandom m) / 100 in
  let nNodes := if ADDRMAN_GETADDR_MAX <? nNodes then ADDRMAN_GETADDR_MAX else nNodes in
  getaddr_loop (seq 0 (Z.to_nat nNodes)) m [] k.

(** [Add] of several addresses: whether one was new. *)
Fixpoint add_loop (m : CAddrMan) (vAddr : list CAddress) (src : CNetAddr) (nTimePenalty nNow nAdd : Z) (k : nat) : option (CAddrMan * bool * nat) :=
  match vAddr with
  | [] => Some (m, 0 <? nAdd, k)
  | a :: vAddr => '(m, fNew, k) ← Add_ m a src nTimePenalty nNow k; add_loop m vAddr src nTimePenalty nNow (if (fNew : bool) then nAdd + 1 else nAdd) k
  end.
Definition Add (m : CAddrMan) (vAddr : list CAddress) (src : CNetAddr) (nTimePenalty nNow : Z) (k : nat) : option (CAddrMan * bool * nat) :=
  add_loop m vAddr src nTimePenalty nNow 0 k.
End operations.

Definition SetReconnectToken (m : CAddrMan) (addr : CNetAddr) (token : Z) : CAddrMan :=
  mkAddrMan (nKey m) (nIdCount m) (mapInfo m) (mapAddr m) (vRandom m) (nTried m) (vvTried m) (nNew m) (vvNew m) (verificationToken m) (<[addr := token]> (reconnectToken m)).
Definition GetReconnectToken (m : CAddrMan) (addr : CNetAddr) : option Z := reconnectToken m !! addr.
Definition SetVerificationToken (m : CAddrMan) (addr : CNetAddr) (token : Z) : CAddrMan :=
  mkAddrMan (nKey m) (nIdCount m) (mapInfo m) (mapAddr m) (vRandom m) (nTried m) (vvTried m) (nNew m) (vvNew m) (<[addr := token]> (verificationToken m)) (reconnectToken m).
Definition CheckVerificationToken (m : CAddrMan) (addr : CNetAddr) (token : Z) : bool :=
  match verificationToken m !! addr with Some t => token =? t | None => false end.

(** ** [Check_] *)

(** The loop over the entries: an error, or [setTried] and [mapNew]; [mapAddr[info]] makes the entry that is not there. *)
Fixpoint check_infos (v : list Z) (l : list (Z * CAddrInfo)) (addrs : gmap CNetAddr Z) (setTried : gset Z) (mapNew : gmap Z Z) : gmap CNetAddr Z * (Z + gset Z * gmap Z Z) :=
  match l with
  | [] => (addrs, inr (setTried, mapNew))
  | (n, info) :: l =>
      if fInTried info && (nLastSuccess info =? 0) then (addrs, inl (-1))
      else if fInTried info && negb (nRefCount info =? 0) then (addrs, inl (-2))
      else if negb (fInTried info) && ((nRefCount info <? 0) || (ADDRMAN_NEW_BUCKETS_PER_ADDRESS <? nRefCount info)) then (addrs, inl (-3))
      else if negb (fInTried info) && (nRefCount info =? 0) then (addrs, inl (-4))
      else
        let setTried := if fInTried info then set_add n setTried else setTried in
        let mapNew := if fInTried info then mapNew else <[n := nRefCount info]> mapNew in
        let a := default 0 (addrs !! info_ip info) in
        let addrs := <[info_ip info := a]> addrs in
        if negb (a =? n) then (addrs, inl (-5))
        else if (nRandomPos info <? 0) || (len v <=? nRandomPos info) || negb (bool_decide (v !! Z.to_nat (nRandomPos info) = Some n)) then (addrs, inl (-14))
        else if info_try info <? 0 then (addrs, inl (-6))
        else if nLastSuccess info <? 0 then (addrs, inl (-8))
        else check_infos v l addrs setTried mapNew
  end.

(** The entries of the tried buckets, taken out of [setTried]. *)
Fixpoint check_tried (ids : list Z) (setTried : gset Z) : option (gset Z) :=
  match ids with [] => Some setTried | id :: ids => if set_has id setTried then check_tried ids (set_erase id setTried) else None end.

(** The entries of the new buckets, counted down in [mapNew]. *)
Fixpoint check_new (ids : list Z) (mapNew : gmap Z Z) : option (gmap Z Z) :=
  match ids with
  | [] => Some mapNew
  | id :: ids => c ← mapNew !! id; check_new ids (if c - 1 =? 0 then delete id mapNew else <[id := c - 1]> mapNew)
  end.

Definition Check_ (m : CAddrMan) : CAddrMan * Z :=
  if negb (len (vRandom m) =? u64 (nTried m + nNew m)) then (m, -7)
  else
    let '(addrs, r) := check_infos (vRandom m) (infos (mapInfo m)) (mapAddr m) ∅ ∅ in
    let m := with_mapAddr addrs m in
    match r with
    | inl e => (m, e)
    | inr (setTried, mapNew) =>
        if negb (set_size setTried =? u64 (nTried m)) then (m, -9)
        else if negb (map_count mapNew =? u64 (nNew m)) then (m, -10)
        else
          match check_tried (concat (vvTried m)) setTried with
          | None => (m, -11)
          | Some setTried =>
              match check_new (concat (map in_order (vvNew m))) mapNew with
              | None => (m, -12)
              | Some mapNew => if negb (set_size setTried =? 0) then (m, -13) else if negb (map_count mapNew =? 0) then (m, -15) else (m, 0)
              end
          end
    end.

(** ** Occurrences in the new buckets *)

(** The number of buckets that have the entry. *)
Fixpoint occ (id : Z) (vv : list (gset Z)) : Z := match vv with [] => 0 | v :: vv => Z.b2z (bool_decide (id ∈ v)) + occ id vv end.

Lemma b2z_bound b : 0 <= Z.b2z b <= 1.
Proof. by destruct b. Qed.

Lemma occ_nonneg id vv : 0 <= occ id vv.
Proof. induction vv as [|v vv IH]; cbn [occ]; [lia|]. pose proof (b2z_bound (bool_decide (id ∈ v))). lia. Qed.

Lemma occ_insert id vv b s s' : vv !! b = Some s ->
  occ id (<[b := s']> vv) = occ id vv - Z.b2z (bool_decide (id ∈ s)) + Z.b2z (bool_decide (id ∈ s')).
Proof.
  revert b. induction vv as [|v vv IH]; intros [|b] E; [done..| |].
  - injection E as ->. change (<[0%nat := s']> (s :: vv)) with (s' :: vv). cbn [occ]. lia.
  - change (<[S b := s']> (v :: vv)) with (v :: <[b := s']> vv). cbn [occ]. rewrite (IH b) by done. lia.
Qed.

Lemma occ_pos id vv b s : vv !! b = Some s -> id ∈ s -> 1 <= occ id vv.
Proof.
  intros E Hin. pose proof (occ_insert id vv b s ∅ E) as H1. pose proof (occ_nonneg id (<[b := ∅]> vv)).
  rewrite bool_decide_eq_true_2 in H1 by done. rewrite bool_decide_eq_false_2 in H1 by set_solver. cbn [Z.b2z] in H1. lia.
Qed.

Lemma occ_found id vv : 1 <= occ id vv -> exists b s, vv !! b = Some s /\ id ∈ s.
Proof.
  induction vv as [|v vv IH]; cbn [occ]; [lia|]. destruct (bool_decide_reflect (id ∈ v)); cbn [Z.b2z]; intros Ho.
  - by exists 0%nat, v.
  - destruct IH as (b & s & E & Hin); [lia|]. by exists (S b), s.
Qed.

Lemma occ_none id vv b s : occ id vv = 0 -> vv !! b = Some s -> id ∉ s.
Proof. intros E Eb Hin. pose proof (occ_pos id vv b s Eb Hin). lia. Qed.

Lemma erase_all_spec id vv r : erase_all id vv r = (map (set_erase id) vv, r - occ id vv).
Proof.
  revert r. induction vv as [|v vv IH]; intros r; cbn [erase_all occ map]; [by rewrite Z.sub_0_r|]. rewrite IH. f_equal.
  unfold set_has. destruct (bool_decide (id ∈ v)); cbn [Z.b2z]; lia.
Qed.

Lemma occ_erase x id vv : occ x (map (set_erase id) vv) = if bool_decide (x = id) then 0 else occ x vv.
Proof.
  induction vv as [|v vv IH]; cbn [map occ]; [by case_bool_decide|]. rewrite IH. unfold set_erase.
  destruct (bool_decide_reflect (x = id)) as [->|Hx].
  - rewrite bool_decide_eq_false_2 by set_solver. done.
  - f_equal. f_equal. apply bool_decide_ext. set_solver.
Qed.

Lemma concat_insert {A} (vv : list (list A)) b l : vv !! b = Some l ->
  exists rest, concat vv ≡ₚ l ++ rest /\ forall l', concat (<[b := l']> vv) ≡ₚ l' ++ rest.
Proof.
  revert b. induction vv as [|v vv IH]; intros [|b] E; [done..| |]; cbn [lookup list_lookup] in E.
  - injection E as ->. exists (concat vv). by split.
  - destruct (IH b E) as (rest & H1 & H2). exists (v ++ rest). split.
    + cbn [concat]. rewrite H1. by rewrite !(assoc_L (++)), (Permutation_app_comm v l).
    + intros l'. change (<[S b := l']> (v :: vv)) with (v :: <[b := l']> vv). cbn [concat]. rewrite H2. by rewrite !(assoc_L (++)), (Permutation_app_comm v l').
Qed.

Lemma elem_of_bucket {A} (vv : list (list A)) x : x ∈ concat vv <-> exists b l, vv !! b = Some l /\ x ∈ l.
Proof.
  rewrite list_elem_of_In, in_concat. split.
  - intros (l & Hl & Hx). apply list_elem_of_In, list_elem_of_lookup in Hl as [b Hb]. exists b, l. by rewrite list_elem_of_In.
  - intros (b & l & Hb & Hx). exists l. by rewrite <- !list_elem_of_In; split; [eapply list_elem_of_lookup_2|].
Qed.

(** ** The invariant *)

Definition pend (p : option Z) (id : Z) : Z := Z.b2z (bool_decide (p = Some id)).

Section invariant.
Context `{CR : Crypto}.

(** The entry [id] is in the tried buckets with no reference, or in as many
    new buckets, between one and four, as it counts; [p] is an entry that counts a bucket it is still to be put in. *)
Definition info_ok (p : option Z) (m : CAddrMan) (id : Z) (i : CAddrInfo) : Prop :=
  0 <= info_try i /\ 0 <= nLastSuccess i /\
  if fInTried i then nRefCount i = 0 /\ nLastSuccess i <> 0 /\ occ id (vvNew m) = 0 /\ id ∈ concat (vvTried m)
  else nRefCount i = occ id (vvNew m) + pend p id /\ 1 <= nRefCount i <= 4.

(** The tables but for the positions in [vRandom]; a tried bucket may have one entry too many for a moment. *)
Record tab_inv (p : option Z) (m : CAddrMan) : Prop := {
  ti_tb : length (vvTried m) = 64%nat;
  ti_nb : length (vvNew m) = 256%nat;
  ti_tsize : forall b l, vvTried m !! b = Some l -> (length l <= 65)%nat;
  ti_nsize : forall b s, vvNew m !! b = Some s -> (size s <= 64)%nat;
  ti_ids : forall id i, mapInfo m !! id = Some i -> 0 <= id < nIdCount m;
  ti_addr : forall a id, mapAddr m !! a = Some id <-> exists i, mapInfo m !! id = Some i /\ info_ip i = a;
  ti_nodup : NoDup (concat (vvTried m));
  ti_tried : forall b l id, vvTried m !! b = Some l -> id ∈ l ->
    exists i, mapInfo m !! id = Some i /\ fInTried i = true /\ GetTriedBucket (nKey m) i = Z.of_nat b;
  ti_info : forall id i, mapInfo m !! id = Some i -> info_ok p m id i;
  ti_ghost : forall id, mapInfo m !! id = None -> occ id (vvNew m) = 0;
  ti_pend : forall id, p = Some id -> exists i, mapInfo m !! id = Some i /\ fInTried i = false;
  ti_nTried : nTried m = len (concat (vvTried m));
  ti_total : nTried m + nNew m = Z.of_nat (size (mapInfo m));
  ti_count : 0 <= nIdCount m
}.

(** [vRandom] lists the entries, each of which has its position. *)
Record rand_inv (m : CAddrMan) : Prop := {
  ri_pos : forall id i, mapInfo m !! id = Some i -> 0 <= nRandomPos i /\ vRandom m !! Z.to_nat (nRandomPos i) = Some id;
  ri_id : forall q id, vRandom m !! q = Some id -> exists i, mapInfo m !! id = Some i /\ nRandomPos i = Z.of_nat q
}.

Lemma rand_nodup m : rand_inv m -> NoDup (vRandom m).
Proof.
  intros HR. apply NoDup_alt. intros i j x Ei Ej. destruct (ri_id _ HR _ _ Ei) as (a & Ea & Ha). destruct (ri_id _ HR _ _ Ej) as (b & Eb & Hb).
  rewrite Ea in Eb. injection Eb as <-. lia.
Qed.

Lemma rand_dom m : rand_inv m -> list_to_set (vRandom m) = (dom (mapInfo m) : gset Z).
Proof.
  intros HR. apply set_eq. intros x. rewrite elem_of_list_to_set, elem_of_dom, list_elem_of_lookup. split.
  - intros [q E]. destruct (ri_id _ HR _ _ E) as (i & -> & _). by eexists.
  - intros [i E]. destruct (ri_pos _ HR _ _ E) as [_ E']. by eexists.
Qed.

Lemma rand_size m : rand_inv m -> length (vRandom m) = size (mapInfo m).
Proof. intros HR. rewrite <- size_dom, <- (rand_dom m HR). by rewrite size_list_to_set by by apply rand_nodup. Qed.

Lemma size_diff_le (X Y : gset Z) : (size (X ∖ Y) <= size X)%nat.
Proof. apply subseteq_size. set_solver. Qed.

Lemma size_union_list (vv : list (gset Z)) n : (forall b s, vv !! b = Some s -> (size s <= n)%nat) -> (size (⋃ vv) <= length vv * n)%nat.
Proof.
  induction vv as [|v vv IH]; intros Hv; [done|]. cbn [length Nat.mul].
  pose proof (Hv 0%nat v eq_refl). assert (size (⋃ vv) <= length vv * n)%nat by (apply IH; intros b s E; by apply (Hv (S b))).
  assert (size (v ∪ ⋃ vv) <= size v + size (⋃ vv))%nat; [|change (⋃ (v :: vv)) with (v ∪ ⋃ vv); lia].
  rewrite size_union_alt. pose proof (size_diff_le (⋃ vv) v). lia.
Qed.

Lemma size_concat {A} (vv : list (list A)) n : (forall b s, vv !! b = Some s -> (length s <= n)%nat) -> (length (concat vv) <= length vv * n)%nat.
Proof.
  induction vv as [|v vv IH]; intros Hv; [done|]. cbn [concat length Nat.mul]. rewrite length_app. pose proof (Hv 0%nat v eq_refl).
  assert (length (concat vv) <= length vv * n)%nat by (apply IH; intros b s E; by apply (Hv (S b))). lia.
Qed.

(** There are 64 * 64 places for tried entries and 256 * 64 for new ones. *)
Lemma tab_bound n p m : tab_inv p m -> (forall b l, vvTried m !! b = Some l -> (length l <= n)%nat) ->
  Z.of_nat (size (mapInfo m)) <= 64 * Z.of_nat n + 16384 + len (from_option (fun x => [x]) [] p).
Proof.
  intros HT Hsz. set (px := from_option (fun x => [x]) [] p : list Z).
  assert (Hsub : (dom (mapInfo m) : gset Z) ⊆ list_to_set (concat (vvTried m)) ∪ ⋃ vvNew m ∪ list_to_set px).
  { intros id [i E]%elem_of_dom. pose proof (ti_info _ _ HT id i E) as (_ & _ & Hi). destruct (fInTried i).
    - rewrite !elem_of_union, elem_of_list_to_set. left. left. apply Hi.
    - destruct Hi as [Hr Hb]. destruct (decide (1 <= occ id (vvNew m))) as [Ho|Ho].
      + destruct (occ_found _ _ Ho) as (b & s & Eb & Hin). rewrite !elem_of_union, elem_of_union_list. left. right. exists s. split; [by eapply list_elem_of_lookup_2|done].
      + unfold pend in Hr. destruct (bool_decide_reflect (p = Some id)) as [->|]; [|cbn in Hr; lia]. unfold px. cbn [from_option list_to_set]. rewrite !elem_of_union, elem_of_singleton. tauto. }
  apply subseteq_size in Hsub. rewrite size_dom in Hsub.
  pose proof (size_union_list (vvNew m) 64 (ti_nsize _ _ HT)). pose proof (size_concat (vvTried m) n Hsz).
  rewrite (ti_tb _ _ HT) in *. rewrite (ti_nb _ _ HT) in *. pose proof (ti_nodup _ _ HT) as Hn.
  rewrite !size_union_alt, (size_list_to_set (concat _)) in Hsub by done.
  pose proof (size_diff_le (⋃ vvNew m) (list_to_set (concat (vvTried m)))).
  pose proof (size_diff_le (list_to_set px) (list_to_set (concat (vvTried m)) ∪ ⋃ vvNew m)).
  assert (size (list_to_set px : gset Z) <= length px)%nat by (unfold px; destruct p; cbn [from_option]; [cbn [list_to_set]; rewrite union_empty_r_L, size_singleton; done|done]).
  unfold len. fold px. lia.
Qed.

(** ** Changes that leave the tables alone *)

Definition frame (m m' : CAddrMan) : Prop :=
  nKey m' = nKey m /\ nIdCount m' = nIdCount m /\ mapAddr m' = mapAddr m /\ nTried m' = nTried m /\ vvTried m' = vvTried m /\ nNew m' = nNew m /\ vvNew m' = vvNew m.

(** The same entries, of the same services, references and table. *)
Definition same_entry (x y : option CAddrInfo) : Prop :=
  match x, y with
  | Some i, Some i' => ad_service (ai_addr i') = ad_service (ai_addr i) /\ fInTried i' = fInTried i /\ nRefCount i' = nRefCount i /\
      0 <= info_try i' /\ 0 <= nLastSuccess i' /\ (fInTried i = true -> nLastSuccess i' <> 0)
  | None, None => True
  | _, _ => False
  end.

Lemma GetTriedBucket_service key i i' : ad_service (ai_addr i') = ad_service (ai_addr i) -> GetTriedBucket key i' = GetTriedBucket key i.
Proof. intros E. unfold GetTriedBucket, info_ip. by rewrite E. Qed.

Lemma same_entries_size (f g : gmap Z CAddrInfo) : (forall id, same_entry (f !! id) (g !! id)) -> size g = size f.
Proof.
  intros Hs. rewrite <- !size_dom. f_equal. apply set_eq. intros x. rewrite !elem_of_dom. specialize (Hs x). unfold same_entry in Hs.
  destruct (f !! x), (g !! x); try done; split; by intros [].
Qed.

Lemma tab_same p m m' : tab_inv p m -> frame m m' -> (forall id, same_entry (mapInfo m !! id) (mapInfo m' !! id)) -> tab_inv p m'.
Proof.
  intros [] (E1 & E2 & E3 & E4 & E5 & E6 & E7) Hs.
  assert (Hfw : forall id i, mapInfo m !! id = Some i -> exists i', mapInfo m' !! id = Some i' /\ same_entry (Some i) (Some i')).
  { intros id i E. specialize (Hs id). rewrite E in Hs. destruct (mapInfo m' !! id) as [i'|]; [by exists i'|done]. }
  assert (Hbw : forall id i', mapInfo m' !! id = Some i' -> exists i, mapInfo m !! id = Some i /\ same_entry (Some i) (Some i')).
  { intros id i' E. specialize (Hs id). rewrite E in Hs. destruct (mapInfo m !! id) as [i|]; [by exists i|done]. }
  split; rewrite ?E1, ?E2, ?E3, ?E4, ?E5, ?E6, ?E7; try done.
  - intros id i' E. destruct (Hbw _ _ E) as (i & Ei & _). eauto.
  - intros a id. rewrite ti_addr0. split.
    + intros (i & Ei & <-). destruct (Hfw _ _ Ei) as (i' & Ei' & Hse & _). exists i'. split; [done|]. unfold info_ip. by rewrite Hse.
    + intros (i' & Ei' & <-). destruct (Hbw _ _ Ei') as (i & Ei & Hse & _). exists i. split; [done|]. unfold info_ip. by rewrite Hse.
  - intros b l id El Hin. destruct (ti_tried0 b l id El Hin) as (i & Ei & Ht & Hk). destruct (Hfw _ _ Ei) as (i' & Ei' & Hse & Hti & _).
    exists i'. split_and!; [done|congruence|]. by rewrite (GetTriedBucket_service _ i i').
  - intros id i' E. destruct (Hbw _ _ E) as (i & Ei & Hse & Hti & Hr & Htry & Hsu & Hsu'). destruct (ti_info0 _ _ Ei) as (_ & _ & Hi).
    unfold info_ok. rewrite Hti, Hr, E5, E7. split_and!; [done..|]. destruct (fInTried i); [|done]. split_and!; try apply Hi. by apply Hsu'.
  - intros id E. specialize (Hs id). rewrite E in Hs. destruct (mapInfo m !! id) eqn:Ei; [done|]. by apply ti_ghost0.
  - intros id E. destruct (ti_pend0 id E) as (i & Ei & Ht). destruct (Hfw _ _ Ei) as (i' & Ei' & _ & Hti & _). exists i'. split; [done|congruence].
  - by rewrite (same_entries_size (mapInfo m)).
Qed.

Lemma same_entry_refl p m id : tab_inv p m -> same_entry (mapInfo m !! id) (mapInfo m !! id).
Proof.
  intros HT. destruct (mapInfo m !! id) as [i|] eqn:E; cbn; [|done]. destruct (ti_info _ _ HT _ _ E) as (? & ? & Hi).
  split_and!; try done. intros Ht. rewrite Ht in Hi. tauto.
Qed.

Lemma tab_update p m id i i' : tab_inv p m -> mapInfo m !! id = Some i -> same_entry (Some i) (Some i') -> tab_inv p (with_info (<[id := i']>) m).
Proof.
  intros HT E Hs. eapply tab_same; [done|done|]. intros x. cbn [mapInfo with_info]. destruct (decide (x = id)) as [->|Hx].
  - by rewrite E, lookup_insert_eq.
  - rewrite lookup_insert_ne by done. by eapply same_entry_refl.
Qed.

Lemma rand_update m id i i' : rand_inv m -> mapInfo m !! id = Some i -> nRandomPos i' = nRandomPos i -> rand_inv (with_info (<[id := i']>) m).
Proof.
  intros HR E Hp. split; cbn [mapInfo vRandom with_info].
  - intros x j Ej. destruct (decide (x = id)) as [->|Hx].
    + rewrite lookup_insert_eq in Ej. injection Ej as <-. rewrite Hp. by apply (ri_pos _ HR).
    + rewrite lookup_insert_ne in Ej by done. by apply (ri_pos _ HR).
  - intros q x Ex. destruct (ri_id _ HR _ _ Ex) as (j & Ej & Hq). destruct (decide (x = id)) as [->|Hx].
    + exists i'. rewrite lookup_insert_eq. split; [done|]. rewrite Ej in E. injection E as <-. congruence.
    + exists j. by rewrite lookup_insert_ne by done.
Qed.

(** ** [SwapRandom] *)

(** The entries at two positions change places. *)
Record swapped (m m' : CAddrMan) (q1 q2 : nat) : Prop := {
  sw_frame : frame m m';
  sw_tokens : verificationToken m' = verificationToken m /\ reconnectToken m' = reconnectToken m;
  sw_vec : exists id1 id2, vRandom m !! q1 = Some id1 /\ vRandom m !! q2 = Some id2 /\ vRandom m' = <[q2 := id1]> (<[q1 := id2]> (vRandom m));
  sw_info : forall id, set_pos 0 <$> mapInfo m' !! id = set_pos 0 <$> mapInfo m !! id
}.

Lemma set_pos_twice a b i : set_pos a (set_pos b i) = set_pos a i.
Proof. done. Qed.

Lemma SwapRandom_ok m q1 q2 : rand_inv m -> len (vRandom m) < 2 ^ 31 -> 0 <= q1 < len (vRandom m) -> 0 <= q2 < len (vRandom m) ->
  exists m', SwapRandom m q1 q2 = Some m' /\ rand_inv m' /\ swapped m m' (Z.to_nat q1) (Z.to_nat q2).
Proof.
  intros HR Hlen H1 H2. unfold SwapRandom. rewrite !wrap_id by (unfold fits; lia).
  destruct (lookup_lt_is_Some_2 (vRandom m) (Z.to_nat q1)) as [id1 E1]; [unfold len in *; lia|].
  destruct (lookup_lt_is_Some_2 (vRandom m) (Z.to_nat q2)) as [id2 E2]; [unfold len in *; lia|].
  destruct (Z.eqb_spec q1 q2) as [->|Hne].
  { exists m. split_and!; [done..|]. split; [done|done| |done]. exists id1, id2. split_and!; [done..|].
    assert (id1 = id2) as -> by congruence. by rewrite !list_insert_id by (rewrite ?list_insert_id by done; done). }
  rewrite E1, E2. cbn [mbind option_bind]. destruct (ri_id _ HR _ _ E1) as (i1 & F1 & P1). destruct (ri_id _ HR _ _ E2) as (i2 & F2 & P2). rewrite F1, F2. cbn [mbind option_bind].
  rewrite !swrap_id by lia.
  assert (Hid : id1 <> id2) by (intros ->; rewrite F1 in F2; injection F2 as <-; lia).
  eexists. split; [done|]. split; [|split; [done|done|by exists id1, id2|]]; cbn [with_random with_info mapInfo vRandom].
  - split; cbn [with_random with_info mapInfo vRandom].
    + intros id i Ei. destruct (decide (id = id2)) as [->|Hn2].
      { rewrite lookup_alter_eq, lookup_alter_ne, F2 in Ei by done. injection Ei as <-. cbn [set_pos nRandomPos]. split; [lia|].
        rewrite list_lookup_insert_ne by lia. apply list_lookup_insert_eq. unfold len in *. lia. }
      rewrite lookup_alter_ne in Ei by done. destruct (decide (id = id1)) as [->|Hn1].
      { rewrite lookup_alter_eq, F1 in Ei. injection Ei as <-. cbn [set_pos nRandomPos]. split; [lia|].
        apply list_lookup_insert_eq. rewrite length_insert. unfold len in *. lia. }
      rewrite lookup_alter_ne in Ei by done. destruct (ri_pos _ HR _ _ Ei) as [Hp Ep]. split; [done|].
      rewrite !list_lookup_insert_ne; [done|intros Eq; rewrite <- Eq in Ep; congruence|intros Eq; rewrite <- Eq in Ep; congruence].
    + intros q id Eq. destruct (decide (q = Z.to_nat q2)) as [->|Hq2].
      { rewrite list_lookup_insert_eq in Eq by (rewrite length_insert; unfold len in *; lia). injection Eq as <-.
        exists (set_pos q2 i1). rewrite lookup_alter_ne, lookup_alter_eq, F1 by done. split; [done|]. cbn. lia. }
      rewrite list_lookup_insert_ne in Eq by done. destruct (decide (q = Z.to_nat q1)) as [->|Hq1].
      { rewrite list_lookup_insert_eq in Eq by (unfold len in *; lia). injection Eq as <-.
        exists (set_pos q1 i2). rewrite lookup_alter_eq, lookup_alter_ne, F2 by done. split; [done|]. cbn. lia. }
      rewrite list_lookup_insert_ne in Eq by done. destruct (ri_id _ HR _ _ Eq) as (i & Ei & Hp). exists i. split; [|done].
      rewrite !lookup_alter_ne; [done|intros ->; rewrite F1 in Ei; injection Ei as <-; lia|intros ->; rewrite F2 in Ei; injection Ei as <-; lia].
  - intros id. destruct (decide (id = id2)) as [->|Hn2]; [rewrite lookup_alter_eq, lookup_alter_ne, F2 by done; done|].
    rewrite lookup_alter_ne by done. destruct (decide (id = id1)) as [->|Hn1]; [by rewrite lookup_alter_eq, F1|by rewrite lookup_alter_ne].
Qed.

Lemma same_but_pos x y : set_pos 0 <$> y = set_pos 0 <$> x -> same_entry x x -> same_entry x y.
Proof.
  intros E Hs. destruct x as [i|], y as [i'|]; cbn in E; try done. injection E as E0 E1 E2 E3 E4 E5. cbn in Hs |- *. unfold info_try in *.
  by rewrite E0, E2, E4, E5.
Qed.

Lemma swapped_entry p m m' q1 q2 id : tab_inv p m -> swapped m m' q1 q2 -> same_entry (mapInfo m !! id) (mapInfo m' !! id).
Proof. intros HT HS. apply same_but_pos; [apply (sw_info _ _ _ _ HS)|by eapply same_entry_refl]. Qed.

(** ** Removing an entry from a new bucket *)

Lemma new_entry p m b s id : tab_inv p m -> vvNew m !! b = Some s -> id ∈ s ->
  exists i, mapInfo m !! id = Some i /\ fInTried i = false /\ nRefCount i = occ id (vvNew m) + pend p id /\ 1 <= occ id (vvNew m) /\ 1 <= nRefCount i <= 4.
Proof.
  intros HT Eb Hin. pose proof (occ_pos _ _ _ _ Eb Hin) as Ho. destruct (mapInfo m !! id) as [i|] eqn:Ei; [|pose proof (ti_ghost _ _ HT _ Ei); lia].
  destruct (ti_info _ _ HT _ _ Ei) as (_ & _ & Hi). destruct (fInTried i) eqn:Et; [lia|]. exists i. tauto.
Qed.

Lemma size_erase (s : gset Z) id : id ∈ s -> size (s ∖ {[id]}) = (size s - 1)%nat.
Proof. intros Hin. rewrite size_difference by set_solver. by rewrite size_singleton. Qed.

(** Another bucket has one entry less: nobody else's count changes. *)
Lemma occ_drop vv b s id x : vv !! b = Some s -> id ∈ s -> occ x (<[b := s ∖ {[id]}]> vv) = occ x vv - Z.b2z (bool_decide (x = id)).
Proof.
  intros Eb Hin. rewrite (occ_insert x vv b s) by done. destruct (bool_decide_reflect (x = id)) as [->|Hx].
  - rewrite bool_decide_eq_true_2 by done. rewrite bool_decide_eq_false_2 by set_solver. cbn [Z.b2z]. lia.
  - rewrite (bool_decide_ext (x ∈ s ∖ {[id]}) (x ∈ s)) by set_solver. cbn [Z.b2z]. lia.
Qed.

Lemma nsize_insert (vv : list (gset Z)) b s' : (forall b s, vv !! b = Some s -> (size s <= 64)%nat) -> (size s' <= 64)%nat ->
  forall c s, <[b := s']> vv !! c = Some s -> (size s <= 64)%nat.
Proof. intros Hv Hs c s E. apply list_lookup_insert_Some in E as [(-> & <- & _)|[_ E]]; [done|by eapply Hv]. Qed.

Definition map_del (id : Z) (i : CAddrInfo) (vv : list (gset Z)) (m : CAddrMan) : CAddrMan :=
  with_new (nNew m - 1) vv (with_mapAddr (delete (info_ip i) (mapAddr m)) (with_info (delete id) m)).

(** The last bucket drops the entry, and the entry goes. *)
Lemma tab_delete p m b s id i : tab_inv p m -> vvNew m !! b = Some s -> id ∈ s -> p <> Some id -> mapInfo m !! id = Some i -> nRefCount i = 1 ->
  tab_inv p (map_del id i (<[b := s ∖ {[id]}]> (vvNew m)) m).
Proof.
  intros HT Eb Hin Hp Ei Hr. destruct (new_entry _ _ _ _ _ HT Eb Hin) as (i0 & Ei0 & Ht & Hrc & Ho & _). rewrite Ei in Ei0. injection Ei0 as <-.
  assert (Hp0 : pend p id = 0) by (unfold pend; by rewrite bool_decide_eq_false_2).
  destruct HT. split; cbn [map_del with_new with_mapAddr with_info vvTried vvNew mapInfo mapAddr nKey nIdCount nTried nNew]; try done.
  - by rewrite length_insert.
  - apply nsize_insert; [done|]. rewrite size_erase by done. pose proof (ti_nsize0 _ _ Eb). lia.
  - intros x j Ej. apply lookup_delete_Some in Ej as [_ Ej]. eauto.
  - intros a x. rewrite lookup_delete_Some, ti_addr0. split.
    + intros (Ha & j & Ej & <-). exists j. split; [|done]. apply lookup_delete_Some. split; [|done]. intros <-. congruence.
    + intros (j & Ej & <-). apply lookup_delete_Some in Ej as [Hx Ej]. split; [|by exists j]. intros E.
      assert (E1 : mapAddr m !! info_ip i = Some id) by (apply ti_addr0; by exists i).
      assert (E2 : mapAddr m !! info_ip j = Some x) by (apply ti_addr0; by exists j). rewrite E in E1. congruence.
  - intros c l x El Hx. destruct (ti_tried0 c l x El Hx) as (j & Ej & Hj & Hk). exists j. split; [|done]. apply lookup_delete_Some. split; [|done]. intros <-. congruence.
  - intros x j Ej. apply lookup_delete_Some in Ej as [Hx Ej]. destruct (ti_info0 _ _ Ej) as (H1 & H2 & Hj). split; [done|]. split; [done|].
    cbn [map_del with_new with_mapAddr with_info vvTried vvNew]. rewrite (occ_drop _ _ _ id) by done. rewrite bool_decide_eq_false_2 by done. cbn [Z.b2z]. by rewrite Z.sub_0_r.
  - intros x Ex. rewrite (occ_drop _ _ _ id) by done. apply lookup_delete_None in Ex as [<-|Ex].
    + rewrite bool_decide_eq_true_2 by done. cbn [Z.b2z]. lia.
    + rewrite bool_decide_eq_false_2 by (intros ->; congruence). cbn [Z.b2z]. rewrite ti_ghost0 by done. lia.
  - intros x Ex. destruct (ti_pend0 x Ex) as (j & Ej & Hj). exists j. split; [|done]. apply lookup_delete_Some. split; [|done]. intros <-. done.
  - rewrite map_size_delete_Some by by eexists. assert (size (mapInfo m) <> 0%nat); [|lia]. intros E%map_size_empty_inv. by rewrite E in Ei.
Qed.

(** It stays with one reference less. *)
Lemma tab_deref p m b s id i : tab_inv p m -> vvNew m !! b = Some s -> id ∈ s -> mapInfo m !! id = Some i -> nRefCount i <> 1 ->
  tab_inv p (with_new (nNew m) (<[b := s ∖ {[id]}]> (vvNew m)) (with_info (<[id := set_ref (nRefCount i - 1) i]>) m)).
Proof.
  intros HT Eb Hin Ei Hr. destruct (new_entry _ _ _ _ _ HT Eb Hin) as (i0 & Ei0 & Ht & Hrc & Ho & Hr4). rewrite Ei in Ei0. injection Ei0 as <-.
  destruct HT. split; cbn [with_new with_info vvTried vvNew mapInfo mapAddr nKey nIdCount nTried nNew]; try done.
  - by rewrite length_insert.
  - apply nsize_insert; [done|]. rewrite size_erase by done. pose proof (ti_nsize0 _ _ Eb). lia.
  - intros x j Ej. apply lookup_insert_Some in Ej as [[<- _]|[_ Ej]]; eauto.
  - intros a x. rewrite ti_addr0. split.
    + intros (j & Ej & <-). destruct (decide (x = id)) as [->|Hx]; [rewrite Ei in Ej; injection Ej as <-; eexists; rewrite lookup_insert_eq; split; done|].
      exists j. by rewrite lookup_insert_ne.
    + intros (j & Ej & <-). apply lookup_insert_Some in Ej as [[<- <-]|[_ Ej]]; [by exists i|by exists j].
  - intros c l x El Hx. destruct (ti_tried0 c l x El Hx) as (j & Ej & Hj & Hk). exists j. split; [|done]. rewrite lookup_insert_ne; [done|congruence].
  - intros x j Ej. unfold info_ok. cbn [with_new with_info vvTried vvNew]. rewrite (occ_drop _ _ _ id) by done. apply lookup_insert_Some in Ej as [[<- <-]|[Hx Ej]].
    + destruct (ti_info0 _ _ Ei) as (H1 & H2 & _). split; [done|]. split; [done|]. cbn [set_ref fInTried nRefCount]. rewrite Ht, bool_decide_eq_true_2 by done. cbn [Z.b2z]. lia.
    + destruct (ti_info0 _ _ Ej) as (H1 & H2 & Hj). split; [done|]. split; [done|]. rewrite bool_decide_eq_false_2 by done. cbn [Z.b2z]. by rewrite Z.sub_0_r.
  - intros x Ex. apply lookup_insert_None in Ex as [Ex Hx]. rewrite (occ_drop _ _ _ id), bool_decide_eq_false_2 by done. cbn [Z.b2z]. rewrite ti_ghost0 by done. lia.
  - intros x Ex. destruct (ti_pend0 x Ex) as (j & Ej & Hj). destruct (decide (x = id)) as [->|Hx]; [rewrite Ei in Ej; injection Ej as <-; eexists; rewrite lookup_insert_eq; split; done|].
    exists j. by rewrite lookup_insert_ne.
  - rewrite map_size_insert_Some by by eexists. done.
Qed.

(** The last place of [vRandom] goes with the entry there. *)
Lemma rand_pop m id i : rand_inv m -> mapInfo m !! id = Some i -> nRandomPos i = len (vRandom m) - 1 ->
  rand_inv (with_info (delete id) (with_random (take (length (vRandom m) - 1) (vRandom m)) m)).
Proof.
  intros HR Ei Hp. split; cbn [with_info with_random mapInfo vRandom].
  - intros x j Ej. apply lookup_delete_Some in Ej as [Hx Ej]. destruct (ri_pos _ HR _ _ Ej) as [Hj Ej']. split; [done|].
    rewrite lookup_take_lt; [done|]. pose proof (lookup_lt_Some _ _ _ Ej') as Hl. destruct (decide (Z.to_nat (nRandomPos j) = (length (vRandom m) - 1)%nat)) as [E|]; [|lia].
    exfalso. apply Hx. destruct (ri_pos _ HR _ _ Ei) as [_ Ei']. rewrite Hp in Ei'. unfold len in Ei'.
    replace (Z.to_nat (Z.of_nat (length (vRandom m)) - 1)) with (Z.to_nat (nRandomPos j)) in Ei' by lia. congruence.
  - intros q x Ex. apply lookup_take_Some in Ex as [Ex Hq]. destruct (ri_id _ HR _ _ Ex) as (j & Ej & Hj). exists j. split; [|done]. apply lookup_delete_Some.
    split; [|done]. intros <-. rewrite Ei in Ej. injection Ej as <-. unfold len in Hp. lia.
Qed.

Lemma drop_ref_ok p m b s id : tab_inv p m -> rand_inv m -> vvNew m !! b = Some s -> id ∈ s -> p <> Some id ->
  exists m', drop_ref m (Z.of_nat b) id = Some m' /\ tab_inv p m' /\ rand_inv m' /\ vvNew m' = <[b := s ∖ {[id]}]> (vvNew m) /\ vvTried m' = vvTried m /\ nKey m' = nKey m /\ nIdCount m' = nIdCount m.
Proof.
  intros HT HR Eb Hin Hp. destruct (new_entry _ _ _ _ _ HT Eb Hin) as (i & Ei & Ht & Hrc & Ho & Hr4). unfold drop_ref. rewrite Ei. cbn [mbind option_bind]. rewrite Nat2Z.id, Eb. cbn [mbind option_bind].
  destruct (Z.eqb_spec (nRefCount i - 1) 0) as [E|E].
  2: { eexists. split; [done|]. split; [apply (tab_deref p m b s id i); auto; lia|]. split; [|done]. pose proof (rand_update m id i (set_ref (nRefCount i - 1) i) HR Ei eq_refl) as [H1 H2]. by split. }
  set (m1 := with_info _ m). assert (HR1 : rand_inv m1) by by apply (rand_update _ _ i).
  pose proof (tab_bound 65 p m HT (ti_tsize _ _ HT)) as Hb. pose proof (rand_size m HR) as Hs. destruct (ri_pos _ HR _ _ Ei) as [Hpos Epos]. pose proof (lookup_lt_Some _ _ _ Epos) as Hlt.
  assert (len (from_option (fun x => [x]) [] p) <= 1) by (unfold len; destruct p; cbn [from_option length]; lia).
  destruct (SwapRandom_ok m1 (nRandomPos i) (len (vRandom m1) - 1) HR1) as (m2 & -> & HR2 & HS); [unfold m1, len in *; cbn [with_info vRandom]; lia..|].
  cbn [mbind option_bind]. eexists. split; [done|]. destruct (sw_vec _ _ _ _ HS) as (id1 & id2 & E1 & E2 & Ev).
  assert (id1 = id) as -> by (change (vRandom m1) with (vRandom m) in E1; congruence).
  assert (Hlen : length (vRandom m2) = length (vRandom m)) by (rewrite Ev, !length_insert; done).
  assert (Elast : vRandom m2 !! Z.to_nat (len (vRandom m) - 1) = Some id).
  { rewrite Ev. change (vRandom m1) with (vRandom m). apply list_lookup_insert_eq. rewrite length_insert. unfold len. lia. }
  destruct (ri_id _ HR2 _ _ Elast) as (i2 & Ei2 & Hpi2). destruct (sw_frame _ _ _ _ HS) as (F1 & F2 & F3 & F4 & F5 & F6 & F7).
  split_and!; [|by pose proof (rand_pop m2 id i2 HR2 Ei2 ltac:(unfold len in *; lia)) as [G1 G2]; split|cbn; by rewrite F7|by cbn|done|done].
  eapply tab_same; [apply (tab_delete p m b s id i); auto; lia| |].
  - unfold frame. cbn. rewrite F1, F2, F3, F4, F5, F6, F7. done.
  - intros x. cbn [map_del with_new with_mapAddr with_info mapInfo with_random]. destruct (decide (x = id)) as [->|Hx]; [by rewrite !lookup_delete_eq|].
    rewrite !lookup_delete_ne by done. pose proof (sw_info _ _ _ _ HS x) as Esw. cbn [m1 with_info mapInfo] in Esw. rewrite lookup_insert_ne in Esw by done.
    apply same_but_pos; [done|by eapply same_entry_refl].
Qed.

(** ** [ShrinkNew] *)

Lemma in_order_elem s x : x ∈ in_order s <-> x ∈ s.
Proof. unfold in_order. rewrite merge_sort_Permutation. apply elem_of_elements. Qed.

Lemma in_order_length s : length (in_order s) = size s.
Proof. unfold in_order. rewrite merge_sort_Permutation. done. Qed.

Lemma in_order_nodup s : NoDup (in_order s).
Proof. unfold in_order. rewrite merge_sort_Permutation. apply NoDup_elements. Qed.

Lemma touch_id id mi : is_Some (mi !! id) -> touch id mi = mi.
Proof. intros [i E]. unfold touch. by rewrite E. Qed.

Lemma find_terrible_ok mi now ids : (forall x, x ∈ ids -> is_Some (mi !! x)) -> exists t, find_terrible mi now ids = Some t /\ forall id, t = Some id -> id ∈ ids.
Proof.
  induction ids as [|x ids IH]; intros Hx; cbn [find_terrible]; [by exists None|]. destruct (Hx x) as [i ->]; [by left|]. cbn [mbind option_bind].
  destruct (IsTerrible i now); [exists (Some x); split; [done|]; intros ? [= <-]; by left|]. destruct IH as (t & -> & Ht); [intros; apply Hx; by right|].
  exists t. split; [done|]. intros id E. right. by apply Ht.
Qed.

Lemma find_oldest_ok mi n (P : Z -> Prop) ids : (forall x, P x -> is_Some (mi !! x) /\ x <> -1) -> forall nI nOldest, (forall x, x ∈ ids -> P x) -> nOldest = -1 \/ P nOldest ->
  (exists k, k ∈ n /\ nI <= k < nI + len ids) \/ P nOldest -> exists r, find_oldest mi n nI ids nOldest = Some (mi, r) /\ P r.
Proof.
  intros HP. induction ids as [|x ids IH]; intros nI nOldest Hx Ho Hk; cbn [find_oldest].
  { exists nOldest. split; [done|]. destruct Hk as [(k & _ & Hk)|]; [rewrite len_nil in Hk; lia|done]. }
  assert (Hx' : forall y, y ∈ ids -> P y) by (intros; apply Hx; by right). assert (Hxx : P x) by (apply Hx; by left).
  destruct (existsb (Z.eqb nI) n) eqn:En.
  - destruct (Z.eqb_spec nOldest (-1)) as [->|Hne]; [by apply IH; auto|]. destruct Ho as [->|Ho]; [done|]. destruct (HP x Hxx) as [[i Ei] _]. rewrite Ei. cbn [mbind option_bind].
    rewrite touch_id by by apply HP. apply IH; [done|right|right]; by case_match.
  - apply IH; [done..|]. destruct Hk as [(k & Hin & Hk)|]; [left|by right]. exists k. split; [done|]. rewrite len_cons in Hk. assert (k <> nI); [|lia].
    intros ->. apply not_true_iff_false in En. apply En. apply existsb_exists. exists nI. split; [by apply list_elem_of_In|apply Z.eqb_refl].
Qed.

Section random_ops.
Context (RAND_uint64 : nat -> Z) (tries : nat) (HRA : rand_ok RAND_uint64 tries).

Lemma ShrinkNew_ok p m b s now k : tab_inv p m -> rand_inv m -> vvNew m !! b = Some s -> (0 < size s)%nat -> (forall id, p = Some id -> id ∉ s) ->
  exists m' r k' id, ShrinkNew RAND_uint64 tries m (Z.of_nat b) now k = Some (m', r, k') /\ id ∈ s /\ tab_inv p m' /\ rand_inv m' /\
    vvNew m' = <[b := s ∖ {[id]}]> (vvNew m) /\ vvTried m' = vvTried m /\ nKey m' = nKey m /\ nIdCount m' = nIdCount m.
Proof.
  intros HT HR Eb Hs Hp. unfold ShrinkNew, set_size. rewrite Nat2Z.id, Eb. cbn [mbind option_bind].
  assert (HP : forall x, x ∈ s -> is_Some (mapInfo m !! x) /\ x <> -1).
  { intros x Hx. destruct (new_entry _ _ _ _ _ HT Eb Hx) as (i & Ei & _). split; [by eexists|]. pose proof (ti_ids _ _ HT _ _ Ei). lia. }
  destruct (find_terrible_ok (mapInfo m) now (in_order s)) as (t & -> & Ht); [intros x Hx%in_order_elem; by apply HP|]. cbn [mbind option_bind].
  destruct t as [id|].
  - specialize (Ht id eq_refl). rewrite in_order_elem in Ht. destruct (drop_ref_ok p m b s id) as (m' & -> & H); [done..|naive_solver|]. exists m', 0, k, id. done.
  - pose proof (ti_nsize _ _ HT _ _ Eb) as H64. assert (Hsz : 0 < Z.of_nat (size s) < 2 ^ 31) by lia.
    destruct (GetRandInt_spec _ _ HRA (Z.of_nat (size s)) k Hsz) as (n0 & k0 & -> & Hn0). cbn [mbind option_bind].
    destruct (GetRandInt_spec _ _ HRA (Z.of_nat (size s)) k0 Hsz) as (n1 & k1 & -> & _). cbn [mbind option_bind].
    destruct (GetRandInt_spec _ _ HRA (Z.of_nat (size s)) k1 Hsz) as (n2 & k2 & -> & _). cbn [mbind option_bind].
    destruct (GetRandInt_spec _ _ HRA (Z.of_nat (size s)) k2 Hsz) as (n3 & k3 & -> & _). cbn [mbind option_bind].
    destruct (find_oldest_ok (mapInfo m) [n0; n1; n2; n3] (fun x => x ∈ s) (in_order s) HP 0 (-1)) as (id & -> & Hid);
      [intros x; by rewrite in_order_elem|by left|left; exists n0; split; [by left|unfold len; rewrite in_order_length; lia]|]. cbn [mbind option_bind].
    destruct (drop_ref_ok p m b s id) as (m' & E & H); [done..|naive_solver|]. exists m', 1, k3, id. replace (with_info _ m) with m by by destruct m. rewrite E. done.
Qed.

(** ** [Add_] *)

Lemma alter_at {A} (f : A -> A) (vv : list A) (b : nat) (s : A) : vv !! b = Some s -> alter f b vv = <[b := f s]> vv.
Proof.
  revert b. induction vv as [|v vv IH]; intros [|b] E; [done..| |]; cbn in E.
  - by injection E as ->.
  - change (v :: alter f b vv = v :: <[b := f s]> vv). by rewrite IH.
Qed.

Lemma pend_self id : pend (Some id) id = 1.
Proof. unfold pend. by rewrite bool_decide_eq_true_2. Qed.
Lemma pend_other id x : x <> id -> pend (Some id) x = 0.
Proof. intros Hx. unfold pend. by rewrite bool_decide_eq_false_2 by congruence. Qed.

Lemma pend_none x : pend None x = 0.
Proof. unfold pend. by rewrite bool_decide_eq_false_2. Qed.

(** An entry that is not tried may count one more bucket. *)
Lemma tab_pend m id i : tab_inv None m -> mapInfo m !! id = Some i -> fInTried i = false -> nRefCount i < 4 ->
  tab_inv (Some id) (with_info (<[id := set_ref (nRefCount i + 1) i]>) m).
Proof.
  intros HT Ei Ht Hr. destruct HT. split; cbn [with_info vvTried vvNew mapInfo mapAddr nKey nIdCount nTried nNew]; try done.
  - intros x j Ej. apply lookup_insert_Some in Ej as [[<- _]|[_ Ej]]; eauto.
  - intros a x. rewrite ti_addr0. split.
    + intros (j & Ej & <-). destruct (decide (x = id)) as [->|Hx]; [rewrite Ei in Ej; injection Ej as <-; eexists; rewrite lookup_insert_eq; split; done|].
      exists j. by rewrite lookup_insert_ne.
    + intros (j & Ej & <-). apply lookup_insert_Some in Ej as [[<- <-]|[_ Ej]]; [by exists i|by exists j].
  - intros c l x El Hx. destruct (ti_tried0 c l x El Hx) as (j & Ej & Hj & Hk). exists j. split; [|done]. rewrite lookup_insert_ne; [done|congruence].
  - intros x j Ej. unfold info_ok. cbn [with_info vvTried vvNew]. apply lookup_insert_Some in Ej as [[<- <-]|[Hx Ej]].
    + destruct (ti_info0 _ _ Ei) as (H1 & H2 & Hi). rewrite Ht in Hi. split; [done|]. split; [done|]. cbn [set_ref fInTried nRefCount]. rewrite Ht, pend_self. rewrite pend_none in Hi. lia.
    + destruct (ti_info0 _ _ Ej) as (H1 & H2 & Hj). split; [done|]. split; [done|]. by rewrite pend_none in Hj; rewrite pend_other.
  - intros x Ex. apply lookup_insert_None in Ex as [Ex Hx]. by apply ti_ghost0.
  - intros x [= <-]. eexists. rewrite lookup_insert_eq. by split.
  - rewrite map_size_insert_Some by by eexists. done.
Qed.

(** The bucket that was counted gets the entry. *)
Lemma tab_settle m id b s : tab_inv (Some id) m -> vvNew m !! b = Some s -> id ∉ s -> (size s < 64)%nat ->
  tab_inv None (with_new (nNew m) (alter (set_add id) b (vvNew m)) m).
Proof.
  intros HT Eb Hin Hs. rewrite (alter_at _ _ _ s) by done. unfold set_add. destruct (ti_pend _ _ HT id eq_refl) as (i & Ei & Ht).
  assert (Hocc : forall x, occ x (<[b := {[id]} ∪ s]> (vvNew m)) = occ x (vvNew m) + pend (Some id) x).
  { intros x. rewrite (occ_insert x _ b s) by done. destruct (decide (x = id)) as [->|Hx].
    - rewrite pend_self, bool_decide_eq_false_2 by done. rewrite bool_decide_eq_true_2 by set_solver. cbn [Z.b2z]. lia.
    - rewrite pend_other by done. rewrite (bool_decide_ext (x ∈ {[id]} ∪ s) (x ∈ s)) by set_solver. lia. }
  destruct HT. split; cbn [with_new vvTried vvNew mapInfo mapAddr nKey nIdCount nTried nNew]; try done.
  - by rewrite length_insert.
  - apply nsize_insert; [done|]. rewrite size_union by set_solver. rewrite size_singleton. lia.
  - intros x j Ej. destruct (ti_info0 _ _ Ej) as (H1 & H2 & Hj). split; [done|]. split; [done|]. cbn [with_new vvTried vvNew]. rewrite Hocc. destruct (fInTried j) eqn:Ej'.
    + rewrite pend_other by congruence. rewrite Z.add_0_r. done.
    + rewrite pend_none. lia.
  - intros x Ex. rewrite Hocc, ti_ghost0, pend_other by (done || congruence). done.
Qed.

Lemma GetNewBucket_range key i src : 0 <= GetNewBucket key i src < 256.
Proof. unfold GetNewBucket. apply Z.mod_pos_bound. unfold ADDRMAN_NEW_BUCKET_COUNT. lia. Qed.
Lemma GetTriedBucket_range key i : 0 <= GetTriedBucket key i < 64.
Proof. unfold GetTriedBucket. apply Z.mod_pos_bound. unfold ADDRMAN_TRIED_BUCKET_COUNT. lia. Qed.

Lemma add_to_bucket_ok m id i src now k : mapInfo m !! id = Some i -> rand_inv m -> tab_inv None m \/ occ id (vvNew m) = 0 ->
  tab_inv (Some id) (with_info (<[id := set_ref (nRefCount i + 1) i]>) m) ->
  exists m' k', add_to_bucket RAND_uint64 tries m id src now k = Some (m', k') /\ tab_inv None m' /\ rand_inv m' /\ vvTried m' = vvTried m /\ nKey m' = nKey m /\ nIdCount m' = nIdCount m.
Proof.
  intros Ei HR Hin HT. unfold add_to_bucket, set_has, set_size. rewrite Ei. cbn [mbind option_bind]. pose proof (GetNewBucket_range (nKey m) i src) as Hb.
  set (b := Z.to_nat (GetNewBucket (nKey m) i src)). destruct (lookup_lt_is_Some_2 (vvNew m) b) as [s Eb]; [pose proof (ti_nb _ _ HT) as E; cbn in E; rewrite E; unfold b; lia|].
  rewrite Eb. cbn [mbind option_bind]. replace (GetNewBucket (nKey m) i src) with (Z.of_nat b) by (unfold b; lia). set (m1 := with_info _ m) in *.
  assert (HR1 : rand_inv m1) by by apply (rand_update _ _ i). case_bool_decide as Hs.
  { exists m, k. split_and!; [done| |done|done|done|done]. destruct Hin as [HT0|Ho]; [exact HT0|]. by destruct (occ_none _ _ _ _ Ho Eb). }
  pose proof (ti_nsize _ _ HT b s Eb) as H64. unfold ADDRMAN_NEW_BUCKET_SIZE. destruct (Z.eqb_spec (Z.of_nat (size s)) 64) as [E|E].
  - destruct (ShrinkNew_ok (Some id) m1 b s now k) as (m2 & r & k2 & x & -> & Hx & HT2 & HR2 & E2 & T2 & K2 & C2); [done|done|done|lia|intros y Ey; injection Ey as <-; exact Hs|]. cbn [mbind option_bind].
    eexists _, _. split; [done|]. split_and!; [|by destruct HR2|exact T2|exact K2|exact C2].
    eapply tab_settle; [done|rewrite E2; apply list_lookup_insert_eq; by eapply lookup_lt_Some|set_solver|]. rewrite size_erase by done. lia.
  - cbn [mbind option_bind]. eexists _, _. split; [done|]. split_and!; [|by destruct HR1|done|done|done]. eapply tab_settle; [done|done|done|lia].
Qed.

(** The state of [Add_] when it has made an entry that counts its first bucket. *)
Definition added (m : CAddrMan) (i : CAddrInfo) : CAddrMan :=
  mkAddrMan (nKey m) (s32 (nIdCount m + 1)) (<[nIdCount m := i]> (mapInfo m)) (<[info_ip i := nIdCount m]> (mapAddr m)) (vRandom m ++ [nIdCount m])
    (nTried m) (vvTried m) (nNew m + 1) (vvNew m) (verificationToken m) (reconnectToken m).

Lemma fresh_id p m : tab_inv p m -> mapInfo m !! nIdCount m = None.
Proof. intros HT. destruct (mapInfo m !! nIdCount m) eqn:E; [|done]. pose proof (ti_ids _ _ HT _ _ E). lia. Qed.

Lemma tab_added m i : tab_inv None m -> nIdCount m < 2 ^ 31 - 1 -> mapAddr m !! info_ip i = None ->
  info_try i = 0 -> nLastSuccess i = 0 -> fInTried i = false -> nRefCount i = 1 -> tab_inv (Some (nIdCount m)) (added m i).
Proof.
  intros HT Hc Ha Ht Hs Hf Hr. pose proof (fresh_id _ _ HT) as Hn. pose proof (ti_count _ _ HT). destruct HT. split; cbn [added vvTried vvNew mapInfo mapAddr nKey nIdCount nTried nNew]; try done.
  - intros x j Ej. rewrite swrap_id by lia. apply lookup_insert_Some in Ej as [[<- _]|[_ Ej]]; [lia|]. pose proof (ti_ids0 _ _ Ej). lia.
  - intros a x. split.
    + intros E. apply lookup_insert_Some in E as [[<- <-]|[Hx E]]; [exists i; by rewrite lookup_insert_eq|]. apply ti_addr0 in E as (j & Ej & Hj). exists j.
      split; [|done]. rewrite lookup_insert_ne; [done|congruence].
    + intros (j & Ej & <-). apply lookup_insert_Some in Ej as [[<- <-]|[Hx Ej]]; [by rewrite lookup_insert_eq|].
      assert (E : mapAddr m !! info_ip j = Some x) by (apply ti_addr0; by exists j). rewrite lookup_insert_ne; [done|congruence].
  - intros c l x El Hx. destruct (ti_tried0 c l x El Hx) as (j & Ej & Hj & Hk). exists j. split; [|done]. rewrite lookup_insert_ne; [done|congruence].
  - intros x j Ej. unfold info_ok. cbn [added vvTried vvNew]. apply lookup_insert_Some in Ej as [[<- <-]|[Hx Ej]].
    + rewrite Ht, Hs, Hf, Hr, pend_self, ti_ghost0 by done. lia.
    + destruct (ti_info0 _ _ Ej) as (H1 & H2 & Hj). split; [done|]. split; [done|]. by rewrite pend_none in Hj; rewrite pend_other.
  - intros x Ex. apply lookup_insert_None in Ex as [Ex Hx]. by apply ti_ghost0.
  - intros x [= <-]. exists i. by rewrite lookup_insert_eq.
  - rewrite map_size_insert_None by done. lia.
  - rewrite swrap_id by lia. lia.
Qed.

Lemma rand_added m m' id i : rand_inv m -> mapInfo m !! id = None -> nRandomPos i = len (vRandom m) -> mapInfo m' = <[id := i]> (mapInfo m) -> vRandom m' = vRandom m ++ [id] -> rand_inv m'.
Proof.
  intros HR En Hp Em Ev. split; rewrite Em, Ev.
  - intros x j Ej. apply lookup_insert_Some in Ej as [[<- <-]|[Hx Ej]].
    + rewrite Hp. unfold len. split; [lia|]. rewrite Nat2Z.id. by apply list_lookup_middle.
    + destruct (ri_pos _ HR _ _ Ej) as [H1 H2]. split; [done|]. by apply lookup_app_l_Some.
  - intros q x Ex. apply lookup_app_Some in Ex as [Ex|[Hq Ex]].
    + destruct (ri_id _ HR _ _ Ex) as (j & Ej & Hj). exists j. split; [|done]. rewrite lookup_insert_ne; [done|congruence].
    + apply list_lookup_singleton_Some in Ex as [Hq0 <-]. exists i. rewrite lookup_insert_eq. split; [done|]. rewrite Hp. unfold len. lia.
Qed.

(** The state of the manager between two operations. *)
Record am_wf (m : CAddrMan) : Prop := {
  aw_tab : tab_inv None m;
  aw_tried : forall b l, vvTried m !! b = Some l -> (length l <= 64)%nat;
  aw_rand : rand_inv m
}.

Lemma find_some m addr id i : am_wf m -> Find m addr = Some (id, i) -> mapInfo m !! id = Some i /\ info_ip i = addr.
Proof.
  intros [HT _ _] E. unfold Find in E. apply bind_Some in E as (x & E1 & E). apply bind_Some in E as (j & E2 & E). injection E as -> ->.
  split; [done|]. apply (ti_addr _ _ HT) in E1 as (j & Ej & Hj). congruence.
Qed.

Lemma find_none m addr : am_wf m -> Find m addr = None -> mapAddr m !! addr = None.
Proof.
  intros [HT _ _] E. unfold Find in E. destruct (mapAddr m !! addr) as [id|] eqn:Ea; [|done]. apply (ti_addr _ _ HT) in Ea as (j & Ej & Hj). cbn in E. by rewrite Ej in E.
Qed.

(** An entry may change but for its service, its references, its table and its position. *)
Lemma am_update m id i i' : am_wf m -> mapInfo m !! id = Some i -> same_entry (Some i) (Some i') -> nRandomPos i' = nRandomPos i ->
  am_wf (with_info (<[id := i']>) m).
Proof. intros [HT Hs HR] Ei Hse Hp. split; [by eapply tab_update|done|by eapply rand_update]. Qed.

Lemma refresh_same m id i addr pen now : am_wf m -> mapInfo m !! id = Some i -> same_entry (Some i) (Some (refresh i addr pen now)) /\ nRandomPos (refresh i addr pen now) = nRandomPos i.
Proof.
  intros [HT _ _] Ei. pose proof (same_entry_refl _ _ id HT) as Hse. rewrite Ei in Hse. unfold refresh. by case_match.
Qed.

Lemma Add_ok m addr src pen now k : am_wf m -> nIdCount m < 2 ^ 31 - 1 ->
  exists m' f k', Add_ RAND_uint64 tries m addr src pen now k = Some (m', f, k') /\ am_wf m' /\ nKey m' = nKey m /\ nIdCount m <= nIdCount m' <= nIdCount m + 1.
Proof.
  intros HW Hc. unfold Add_. destruct (negb _); [by exists m, false, k; split_and!; try done; lia|].
  destruct (Find m _) as [[id i]|] eqn:Ef.
  - apply find_some in Ef as [Ei Hip]; [|done]. destruct (refresh_same m id i addr pen now HW Ei) as [Hse Hp]. set (i' := refresh i addr pen now) in *.
    pose proof (am_update _ _ _ _ HW Ei Hse Hp) as HW1. set (m1 := with_info _ m) in *. assert (Ei1 : mapInfo m1 !! id = Some i') by apply lookup_insert_eq.
    assert (Hdone : exists m' f k', Some (m1, false, k) = Some (m', f, k') /\ am_wf m' /\ nKey m' = nKey m /\ nIdCount m <= nIdCount m' <= nIdCount m + 1).
    { exists m1, false, k. split_and!; try done; cbn; lia. }
    destruct (_ || _); [done|]. destruct (fInTried i') eqn:Et; [done|]. destruct (ti_info _ _ (aw_tab _ HW1) _ _ Ei1) as (_ & _ & Hi). rewrite Et in Hi.
    unfold ADDRMAN_NEW_BUCKETS_PER_ADDRESS. destruct (Z.eqb_spec (nRefCount i') 4) as [E4|E4]; [done|].
    assert (Hrnd : exists r k', (if 1 <? 2 ^ nRefCount i' then Util.GetRandInt RAND_uint64 tries (2 ^ nRefCount i') k else Some (0, k)) = Some (r, k')).
    { destruct (Z.ltb_spec 1 (2 ^ nRefCount i')); [|by eexists _, _]. destruct (GetRandInt_spec _ _ HRA (2 ^ nRefCount i') k) as (r & k' & E & _); [|by eexists _, _].
      split; [lia|]. apply Z.pow_lt_mono_r; lia. }
    destruct Hrnd as (r & k1 & ->). cbn [mbind option_bind]. destruct (negb _); [exists m1, false, k1; split_and!; try done; cbn; lia|].
    destruct (add_to_bucket_ok m1 id i' src now k1) as (m2 & k2 & -> & HT2 & HR2 & T2 & K2 & C2); [done|apply HW1|by left; apply HW1|apply tab_pend; [apply HW1|done|done|lia]|].
    cbn [mbind option_bind]. exists m2, false, k2. rewrite K2, C2. split_and!; try done; cbn; try lia. split; [done|by rewrite T2; apply HW1|done].
  - apply find_none in Ef; [|done]. pose proof (fresh_id _ _ (aw_tab _ HW)) as Hn. pose proof (ti_count _ _ (aw_tab _ HW)) as H0. pose proof (rand_size _ (aw_rand _ HW)) as Hsz.
    pose proof (tab_bound 65 _ _ (aw_tab _ HW) (ti_tsize _ _ (aw_tab _ HW))) as Hb. cbn [from_option] in Hb. rewrite len_nil in Hb. cbn [Create].
    set (m1 := with_new _ _ _). set (i := set_time (Z.max 0 (info_time (set_pos (s32 (len (vRandom m))) (info_new addr src)) - pen)) (set_pos (s32 (len (vRandom m))) (info_new addr src))).
    assert (Em1 : mapInfo m1 = <[nIdCount m := i]> (mapInfo m)) by (unfold m1; cbn [with_new with_info mapInfo]; by rewrite alter_insert_eq).
    assert (HR1 : rand_inv m1). { eapply (rand_added m m1 (nIdCount m) i); [apply HW|done| |done|done]. cbn. rewrite swrap_id; unfold len in *; lia. }
    destruct (add_to_bucket_ok m1 (nIdCount m) i src now k) as (m2 & k2 & -> & HT2 & HR2 & T2 & K2 & C2).
    + by rewrite Em1, lookup_insert_eq.
    + done.
    + right. apply (ti_ghost _ _ (aw_tab _ HW)). done.
    + replace (with_info _ m1) with (added m (set_ref (nRefCount i + 1) i)); [by apply tab_added; [apply HW|..]|].
      unfold added, with_info. f_equal. rewrite Em1. by rewrite insert_insert_eq.
    + cbn [mbind option_bind]. exists m2, true, k2. rewrite K2, C2. split_and!; try done; [split; [done|by rewrite T2; apply HW|done]|..]; cbn; rewrite swrap_id; lia.
Qed.

Lemma Attempt_ok m addr t : am_wf m -> 0 <= t -> am_wf (Attempt_ m addr t).
Proof.
  intros HW Ht. unfold Attempt_. destruct (Find m _) as [[id i]|] eqn:Ef; [|done]. destruct (negb _); [done|]. apply find_some in Ef as [Ei _]; [|done].
  pose proof (same_entry_refl _ _ id (aw_tab _ HW)) as Hse. rewrite Ei in Hse. eapply am_update; [done|done| |done]. cbn in Hse |- *. unfold info_try. cbn. naive_solver.
Qed.

Lemma Connected_ok m addr t : am_wf m -> am_wf (Connected_ m addr t).
Proof.
  intros HW. unfold Connected_. destruct (Find m _) as [[id i]|] eqn:Ef; [|done]. destruct (negb _); [done|]. destruct (_ <? _); [|done]. apply find_some in Ef as [Ei _]; [|done].
  pose proof (same_entry_refl _ _ id (aw_tab _ HW)) as Hse. rewrite Ei in Hse. by eapply am_update.
Qed.

(** ** [SelectTried] *)

Lemma insert_exchange {A} (l : list A) j x y : l !! j = Some y -> y :: <[j := x]> l ≡ₚ x :: l.
Proof.
  revert j. induction l as [|z l IH]; intros [|j] E; [done..| |].
  - injection E as ->. change (<[0%nat := x]> (y :: l)) with (x :: l). apply perm_swap.
  - change (<[S j := x]> (z :: l)) with (z :: <[j := x]> l). etrans; [apply perm_swap|]. rewrite (IH j E). apply perm_swap.
Qed.

Lemma swap_perm {A} (l : list A) i j x y : l !! i = Some x -> l !! j = Some y -> <[i := y]> (<[j := x]> l) ≡ₚ l.
Proof.
  intros Ei Ej. apply (Permutation_cons_inv (a := x)). rewrite <- (insert_exchange l j x y Ej). apply insert_exchange.
  destruct (decide (i = j)) as [->|Hij]; [|by rewrite list_lookup_insert_ne]. apply list_lookup_insert_eq. by eapply lookup_lt_Some.
Qed.

Lemma select_loop_ok mi ixs : forall vT nOld nPos k, (forall x, x ∈ vT -> is_Some (mi !! x) /\ x <> -1) -> nOld = -1 \/ (is_Some (mi !! nOld) /\ 0 <= nPos < len vT) ->
  len vT < 2 ^ 31 -> nOld <> -1 \/ (exists i rest, ixs = i :: rest /\ Z.of_nat i < len vT) ->
  exists vT' pos k', select_loop RAND_uint64 tries ixs vT mi nOld nPos k = Some (vT', mi, pos, k') /\ vT' ≡ₚ vT /\ 0 <= pos < len vT.
Proof.
  induction ixs as [|i ixs IH]; intros vT nOld nPos k Hv Ho Hlen Hex; cbn [select_loop].
  { destruct Hex as [Hne|(? & ? & ? & _)]; [|done]. destruct Ho as [->|[_ Ho]]; [done|]. by exists vT, nPos, k. }
  destruct (Z.ltb_spec (Z.of_nat i) (len vT)) as [Hi|Hi].
  2: { destruct Hex as [Hne|(? & ? & E & Hlt)]; [|injection E as <- <-; lia]. destruct Ho as [->|[_ Ho]]; [done|]. by exists vT, nPos, k. }
  destruct (GetRandInt_spec _ _ HRA (len vT - Z.of_nat i) k) as (r & k1 & -> & Hr); [lia|]. cbn [mbind option_bind].
  destruct (lookup_lt_is_Some_2 vT (Z.to_nat (r + Z.of_nat i))) as [nTemp Et]; [unfold len in *; lia|]. destruct (lookup_lt_is_Some_2 vT i) as [x Ex]; [unfold len in *; lia|].
  rewrite Et, Ex. cbn [mbind option_bind]. set (vT1 := <[i := nTemp]> _). assert (Hp : vT1 ≡ₚ vT) by by apply swap_perm.
  assert (Hl1 : len vT1 = len vT) by (unfold len; by rewrite Hp). assert (Hv1 : forall y, y ∈ vT1 -> is_Some (mi !! y) /\ y <> -1) by (intros y; rewrite Hp; apply Hv).
  destruct (Hv nTemp) as [Hin Hne]; [by eapply list_elem_of_lookup_2|].
  assert (Hrec : forall nOld nPos, nOld <> -1 -> is_Some (mi !! nOld) -> 0 <= nPos < len vT ->
    exists vT' pos k', select_loop RAND_uint64 tries ixs vT1 mi nOld nPos k1 = Some (vT', mi, pos, k') /\ vT' ≡ₚ vT /\ 0 <= pos < len vT).
  { intros a q Ha Hs Hq. destruct (IH vT1 a q k1) as (vT' & pos & k' & E & Hp' & Hpos); [done|right; split; [done|lia]|lia|by left|]. exists vT', pos, k'. split; [done|]. split; [by etrans|lia]. }
  destruct (Z.eqb_spec nOld (-1)) as [->|Hne1]; [apply Hrec; [done|done|lia]|]. destruct Ho as [->|[Hs Hpos]]; [done|]. destruct Hin as [it Eit]. rewrite Eit. cbn [mbind option_bind].
  rewrite touch_id by done. destruct (_ <? _); apply Hrec; try done; lia.
Qed.

(** ** [MakeTried] *)

(** An entry leaves the new buckets for a tried one. *)
Definition promoted (m : CAddrMan) (id : Z) (i : CAddrInfo) (kb : nat) (l : list Z) : CAddrMan :=
  with_new (nNew m - 1) (map (set_erase id) (vvNew m)) (with_tried (nTried m + 1) (<[kb := l ++ [id]]> (vvTried m)) (with_info (<[id := set_tried true (set_ref 0 i)]>) m)).

Lemma size_erase_le s id : (size (set_erase id s) <= size s)%nat.
Proof. apply size_diff_le. Qed.

Lemma not_tried_elem p m id i : tab_inv p m -> mapInfo m !! id = Some i -> fInTried i = false -> id ∉ concat (vvTried m).
Proof. intros HT Ei Ht Hin. apply elem_of_bucket in Hin as (b & l & Eb & Hin). destruct (ti_tried _ _ HT _ _ _ Eb Hin) as (j & Ej & Hj & _). congruence. Qed.

Lemma tab_promoted m id i kb l : tab_inv None m -> mapInfo m !! id = Some i -> fInTried i = false -> nLastSuccess i <> 0 -> Z.of_nat kb = GetTriedBucket (nKey m) i ->
  vvTried m !! kb = Some l -> (length l <= 64)%nat -> tab_inv None (promoted m id i kb l).
Proof.
  intros HT Ei Ht Hs Hk El Hl. pose proof (not_tried_elem _ _ _ _ HT Ei Ht) as Hnot. destruct (concat_insert (vvTried m) kb l El) as (rest & P1 & P2). specialize (P2 (l ++ [id])).
  assert (Pid : concat (<[kb := l ++ [id]]> (vvTried m)) ≡ₚ id :: concat (vvTried m)) by (rewrite P2, P1, <- app_assoc; by rewrite (Permutation_app_comm [id] rest), (assoc_L (++)), (Permutation_app_comm _ [id])).
  destruct HT. split; cbn [promoted with_new with_tried with_info vvTried vvNew mapInfo mapAddr nKey nIdCount nTried nNew]; try done.
  - by rewrite length_insert.
  - by rewrite length_map.
  - intros b l' E. apply list_lookup_insert_Some in E as [(-> & <- & _)|[_ E]]; [rewrite length_app; cbn; lia|by eapply ti_tsize0].
  - intros b s E. change (map (set_erase id) (vvNew m)) with (set_erase id <$> vvNew m) in E. rewrite list_lookup_fmap in E. apply fmap_Some in E as (s0 & E & ->). pose proof (size_erase_le s0 id). pose proof (ti_nsize0 _ _ E). lia.
  - intros x j Ej. apply lookup_insert_Some in Ej as [[<- _]|[_ Ej]]; eauto.
  - intros a x. rewrite ti_addr0. split.
    + intros (j & Ej & <-). destruct (decide (x = id)) as [->|Hx]; [rewrite Ei in Ej; injection Ej as <-; eexists; rewrite lookup_insert_eq; split; done|]. exists j. by rewrite lookup_insert_ne.
    + intros (j & Ej & <-). apply lookup_insert_Some in Ej as [[<- <-]|[_ Ej]]; [by exists i|by exists j].
  - rewrite Pid. by constructor.
  - intros b l' x E Hx. destruct (decide (x = id)) as [->|Hxid].
    + eexists. rewrite lookup_insert_eq. split; [done|]. split; [done|]. apply list_lookup_insert_Some in E as [(-> & <- & _)|[_ E]]; [by rewrite Hk|].
      exfalso. apply Hnot. apply elem_of_bucket. by exists b, l'.
    + rewrite lookup_insert_ne by done. apply list_lookup_insert_Some in E as [(-> & <- & _)|[_ E]]; [|by eapply ti_tried0].
      apply elem_of_app in Hx as [Hx|Hx]; [by eapply ti_tried0|]. by apply list_elem_of_singleton in Hx.
  - intros x j Ej. unfold info_ok. cbn [promoted with_new with_tried with_info vvTried vvNew]. rewrite occ_erase. apply lookup_insert_Some in Ej as [[<- <-]|[Hx Ej]].
    + destruct (ti_info0 _ _ Ei) as (H1 & H2 & _). rewrite bool_decide_eq_true_2 by done. cbn [set_tried set_ref fInTried nRefCount nLastSuccess]. split_and!; try done. rewrite Pid. by left.
    + destruct (ti_info0 _ _ Ej) as (H1 & H2 & Hj). split; [done|]. split; [done|]. rewrite bool_decide_eq_false_2 by done. destruct (fInTried j); [|done]. split_and!; try apply Hj. rewrite Pid. right. apply Hj.
  - intros x Ex. apply lookup_insert_None in Ex as [Ex Hx]. rewrite occ_erase, bool_decide_eq_false_2 by done. by apply ti_ghost0.
  - rewrite ti_nTried0. unfold len. rewrite Pid. cbn [length]. lia.
  - rewrite map_size_insert_Some by by eexists. lia.
Qed.

(** A tried entry goes back to a new bucket. *)
Definition demoted (m : CAddrMan) (old : Z) (o : CAddrInfo) (kb : nat) (l' : list Z) (u : nat) (s : gset Z) : CAddrMan :=
  with_new (nNew m + 1) (<[u := set_add old s]> (vvNew m)) (with_tried (nTried m - 1) (<[kb := l']> (vvTried m)) (with_info (<[old := set_ref 1 (set_tried false o)]>) m)).

Lemma tab_demoted m old o kb l l' u s : tab_inv None m -> mapInfo m !! old = Some o -> vvTried m !! kb = Some l -> l ≡ₚ old :: l' ->
  vvNew m !! u = Some s -> (size s < 64)%nat -> tab_inv None (demoted m old o kb l' u s).
Proof.
  intros HT Eo El Hp Eu Hs. destruct (concat_insert (vvTried m) kb l El) as (rest & P1 & P2). specialize (P2 l').
  assert (Pid : concat (vvTried m) ≡ₚ old :: concat (<[kb := l']> (vvTried m))) by (rewrite P1, P2, Hp; done).
  destruct (ti_tried _ _ HT kb l old El) as (o' & Eo' & Ho & _); [rewrite Hp; by left|]. rewrite Eo in Eo'. injection Eo' as <-.
  destruct (ti_info _ _ HT _ _ Eo) as (Ho1 & Ho2 & Ho3). rewrite Ho in Ho3. destruct Ho3 as (_ & _ & Hocc & _). pose proof (occ_none _ _ _ _ Hocc Eu) as Hns.
  pose proof (ti_nodup _ _ HT) as Hnd. rewrite Pid in Hnd. apply NoDup_cons in Hnd as [Hnot Hnd].
  assert (Hoc : forall x, occ x (<[u := set_add old s]> (vvNew m)) = occ x (vvNew m) + Z.b2z (bool_decide (x = old))).
  { intros x. rewrite (occ_insert x _ u s) by done. unfold set_add. destruct (bool_decide_reflect (x = old)) as [->|Hx].
    - rewrite bool_decide_eq_false_2 by done. rewrite bool_decide_eq_true_2 by set_solver. cbn [Z.b2z]. lia.
    - rewrite (bool_decide_ext (x ∈ {[old]} ∪ s) (x ∈ s)) by set_solver. cbn [Z.b2z]. lia. }
  destruct HT. split; cbn [demoted with_new with_tried with_info vvTried vvNew mapInfo mapAddr nKey nIdCount nTried nNew]; try done.
  - by rewrite length_insert.
  - by rewrite length_insert.
  - intros b l0 E. apply list_lookup_insert_Some in E as [(-> & <- & _)|[_ E]]; [|by eapply ti_tsize0]. pose proof (ti_tsize0 _ _ El) as Hl. rewrite Hp in Hl. cbn in Hl. lia.
  - apply nsize_insert; [done|]. unfold set_add. rewrite size_union by set_solver. rewrite size_singleton. lia.
  - intros x j Ej. apply lookup_insert_Some in Ej as [[<- _]|[_ Ej]]; eauto.
  - intros a x. rewrite ti_addr0. split.
    + intros (j & Ej & <-). destruct (decide (x = old)) as [->|Hx]; [rewrite Eo in Ej; injection Ej as <-; eexists; rewrite lookup_insert_eq; split; done|]. exists j. by rewrite lookup_insert_ne.
    + intros (j & Ej & <-). apply lookup_insert_Some in Ej as [[<- <-]|[_ Ej]]; [by exists o|by exists j].
  - intros b l0 x E Hx. assert (Hin : x ∈ concat (<[kb := l']> (vvTried m))) by (apply elem_of_bucket; by exists b, l0). rewrite lookup_insert_ne by (intros ->; done).
    apply list_lookup_insert_Some in E as [(-> & <- & _)|[_ E]]; [|by eapply ti_tried0]. eapply ti_tried0; [done|]. rewrite Hp. by right.
  - intros x j Ej. unfold info_ok. cbn [demoted with_new with_tried with_info vvTried vvNew]. rewrite Hoc, pend_none. apply lookup_insert_Some in Ej as [[<- <-]|[Hx Ej]].
    + rewrite bool_decide_eq_true_2 by done. cbn [set_tried set_ref fInTried nRefCount nLastSuccess Z.b2z]. split; [done|]. split; [done|]. lia.
    + destruct (ti_info0 _ _ Ej) as (H1 & H2 & Hj). split; [done|]. split; [done|]. rewrite bool_decide_eq_false_2 by done. cbn [Z.b2z]. rewrite pend_none in Hj. destruct (fInTried j); [|lia].
      destruct Hj as (G1 & G2 & G3 & G4). rewrite Pid in G4. apply elem_of_cons in G4 as [->|G4]; [done|]. split_and!; try done. lia.
  - intros x Ex. apply lookup_insert_None in Ex as [Ex Hx]. rewrite Hoc, bool_decide_eq_false_2 by done. cbn [Z.b2z]. rewrite ti_ghost0 by done. lia.
  - rewrite ti_nTried0. unfold len. rewrite Pid. cbn [length]. lia.
  - rewrite map_size_insert_Some by by eexists. lia.
Qed.

Lemma rand_same m m' : rand_inv m -> vRandom m' = vRandom m -> (forall id, nRandomPos <$> mapInfo m' !! id = nRandomPos <$> mapInfo m !! id) -> rand_inv m'.
Proof.
  intros HR Ev Hp. split; rewrite Ev.
  - intros id i Ei. specialize (Hp id). rewrite Ei in Hp. destruct (mapInfo m !! id) as [j|] eqn:Ej; [|done]. injection Hp as ->. by apply (ri_pos _ HR).
  - intros q id Eq. destruct (ri_id _ HR _ _ Eq) as (j & Ej & Hj). specialize (Hp id). rewrite Ej in Hp. destruct (mapInfo m' !! id) as [i|]; [|done]. injection Hp as Hp. exists i. split; [done|congruence].
Qed.

Lemma erased_bucket id vv b s : vv !! b = Some s -> map (set_erase id) vv !! b = Some (set_erase id s).
Proof. intros E. change (map (set_erase id) vv) with (set_erase id <$> vv). by rewrite list_lookup_fmap, E. Qed.

(** There is room for an evicted entry, if not in its bucket then in the one the other entry has left. *)
Lemma evict_bucket m id b s u su old : tab_inv None m -> vvNew m !! b = Some s -> id ∈ s -> vvNew m !! u = Some su ->
  exists u' s', (if set_size (set_erase id su) <? ADDRMAN_NEW_BUCKET_SIZE then alter (set_add old) u (map (set_erase id) (vvNew m)) else alter (set_add old) b (map (set_erase id) (vvNew m))) =
    <[u' := set_add old s']> (map (set_erase id) (vvNew m)) /\ map (set_erase id) (vvNew m) !! u' = Some s' /\ (size s' < 64)%nat.
Proof.
  intros HT Eb Hin Eu. destruct (Z.ltb_spec (set_size (set_erase id su)) ADDRMAN_NEW_BUCKET_SIZE) as [Hsu|Hsu].
  - exists u, (set_erase id su). rewrite (alter_at _ _ _ (set_erase id su)) by by apply erased_bucket. split_and!; [done|by apply erased_bucket|]. unfold set_size, ADDRMAN_NEW_BUCKET_SIZE in Hsu. lia.
  - exists b, (set_erase id s). rewrite (alter_at _ _ _ (set_erase id s)) by by apply erased_bucket. split_and!; [done|by apply erased_bucket|].
    unfold set_erase. rewrite size_erase by done. pose proof (ti_nsize _ _ HT _ _ Eb). assert (size s <> 0%nat); [|lia]. intros E%size_empty_inv. set_solver.
Qed.

(** The entries of a tried bucket. *)
Lemma tried_entry m kb l id i x : tab_inv None m -> vvTried m !! kb = Some l -> mapInfo m !! id = Some i -> fInTried i = false -> x ∈ l ->
  exists j, mapInfo m !! x = Some j /\ fInTried j = true /\ x <> id /\ 0 <= x.
Proof.
  intros HT El Ei Ht Hx. destruct (ti_tried _ _ HT _ _ _ El Hx) as (j & Ej & Hj & _). exists j. split_and!; try done; [congruence|]. by destruct (ti_ids _ _ HT _ _ Ej).
Qed.

Lemma MakeTried_ok m id i b s k : am_wf m -> mapInfo m !! id = Some i -> nLastSuccess i <> 0 -> vvNew m !! b = Some s -> id ∈ s ->
  exists m' k', MakeTried RAND_uint64 tries m id (Z.of_nat b) k = Some (m', k') /\ am_wf m' /\ nKey m' = nKey m /\ nIdCount m' = nIdCount m /\
    mapInfo m' !! id = Some (set_tried true (set_ref 0 i)).
Proof.
  intros HW Ei Hs Eb Hin. pose proof (aw_tab _ HW) as HT. destruct (new_entry _ _ _ _ _ HT Eb Hin) as (i0 & Ei0 & Ht & Hr & _ & _). rewrite Ei in Ei0. injection Ei0 as <-. rewrite pend_none, Z.add_0_r in Hr.
  unfold MakeTried. rewrite Ei. cbn [mbind option_bind]. rewrite Nat2Z.id, Eb. cbn [mbind option_bind]. unfold set_has at 1. rewrite bool_decide_eq_true_2 by done. cbn [negb].
  rewrite erase_all_spec, Hr, Z.sub_diag. cbn [Z.eqb negb]. set (m1 := with_new _ _ _). change (nKey m1) with (nKey m).
  pose proof (GetTriedBucket_range (nKey m) i) as Hkr. set (kb := Z.to_nat (GetTriedBucket (nKey m) i)). assert (Ekb : Z.of_nat kb = GetTriedBucket (nKey m) i) by (unfold kb; lia).
  destruct (lookup_lt_is_Some_2 (vvTried m) kb) as [l El]; [rewrite (ti_tb _ _ HT); unfold kb; lia|]. change (vvTried m1) with (vvTried m). rewrite El. cbn [mbind option_bind].
  pose proof (aw_tried _ HW _ _ El) as Hl. pose proof (tab_promoted m id i kb l HT Ei Ht Hs Ekb El Hl) as HP. unfold ADDRMAN_TRIED_BUCKET_SIZE. destruct (Z.ltb_spec (len l) 64) as [Hlt|Hge].
  - eexists _, _. split; [done|]. split_and!; [|done|done|cbn [with_info with_tried with_new mapInfo m1]; by rewrite lookup_alter_eq, lookup_insert_eq].
    assert (Hlk : forall x, mapInfo (promoted m id i kb l) !! x = alter (set_tried true) id (<[id := set_ref 0 i]> (mapInfo m)) !! x).
    { intros x. cbn [promoted with_new with_tried with_info mapInfo]. by rewrite alter_insert_eq. }
    split.
    + eapply tab_same; [exact HP|done|]. intros x. cbn [with_info with_tried mapInfo m1 with_new]. rewrite <- Hlk. by eapply same_entry_refl.
    + intros c l' E. cbn in E. apply list_lookup_insert_Some in E as [(-> & <- & _)|[_ E]]; [|by eapply (aw_tried _ HW)]. rewrite length_app. unfold len in Hlt. cbn. lia.
    + eapply (rand_same m); [apply HW|done|]. intros x. cbn [with_info with_tried mapInfo m1 with_new]. rewrite <- Hlk. cbn. destruct (decide (x = id)) as [->|]; [by rewrite lookup_insert_eq, Ei|by rewrite lookup_insert_ne].
  - unfold SelectTried. fold kb. change (vvTried m1) with (vvTried m). rewrite El. cbn [mbind option_bind].
    pose proof (fun x => tried_entry m kb l id i x HT El Ei Ht) as Hel.
    destruct (select_loop_ok (mapInfo m1) (seq 0 ADDRMAN_TRIED_ENTRIES_INSPECT_ON_EVICT) l (-1) (-1) k) as (l' & pos & k' & -> & Hp & Hpos).
    { intros x Hx. destruct (Hel x Hx) as (j & Ej & _ & Hne & H0). split; [|lia]. cbn [m1 with_new with_info mapInfo]. rewrite lookup_insert_ne by done. by eexists. }
    { by left. } { unfold len. lia. } { right. exists 0%nat, [1; 2; 3]%nat. split; [done|]. lia. }
    cbn [mbind option_bind]. cbn [with_tried with_info vvTried]. assert (Hkl : (kb < length (vvTried m))%nat) by by eapply lookup_lt_Some. change (vvTried m1) with (vvTried m). rewrite list_lookup_insert_eq by done. cbn [mbind option_bind].
    destruct (Z.ltb_spec pos 0); [lia|]. destruct (lookup_lt_is_Some_2 l' (Z.to_nat pos)) as [old Eold]; [rewrite Hp; unfold len in Hpos; lia|]. rewrite Eold. cbn [mbind option_bind mapInfo].
    destruct (Hel old) as (o & Eo & Hot & Hne & _); [rewrite <- Hp; by eapply list_elem_of_lookup_2|].
    assert (Eo1 : mapInfo m1 !! old = Some o) by (cbn [m1 with_new with_info mapInfo]; by rewrite lookup_insert_ne).
    set (m2 := with_tried (nTried m1) (<[kb := l']> (vvTried m)) _). change (mapInfo m2) with (mapInfo m1). rewrite Eo1. cbn [mbind option_bind]. change (nKey m2) with (nKey m). pose proof (GetNewBucket_range (nKey m) o (source o)) as Hur. set (u := Z.to_nat (GetNewBucket (nKey m) o (source o))).
    destruct (lookup_lt_is_Some_2 (vvNew m) u) as [su Eu]; [rewrite (ti_nb _ _ HT); unfold u; lia|]. change (vvNew m2) with (map (set_erase id) (vvNew m)). rewrite (erased_bucket id _ u su Eu). cbn [mbind option_bind].
    set (vv := if set_size (set_erase id su) <? ADDRMAN_NEW_BUCKET_SIZE then _ else _).
    pose proof (evict_bucket m id b s u su old HT Eb Hin Eu) as Hvv. change (if set_size (set_erase id su) <? ADDRMAN_NEW_BUCKET_SIZE then _ else _) with vv in Hvv.
    clearbody vv. destruct Hvv as (u' & s' & -> & Eu' & Hs').
    assert (Hperm : l ++ [id] ≡ₚ old :: <[Z.to_nat pos := id]> l') by (rewrite (insert_exchange l' _ id old Eold), Hp; by rewrite (Permutation_app_comm l [id])).
    pose proof (tab_demoted (promoted m id i kb l) old o kb (l ++ [id]) (<[Z.to_nat pos := id]> l') u' s' HP) as HD.
    specialize (HD ltac:(cbn [promoted with_new with_tried with_info mapInfo]; by rewrite lookup_insert_ne) ltac:(cbn [promoted with_new with_tried with_info vvTried]; by apply list_lookup_insert_eq) Hperm Eu' Hs').
    assert (Hlk : forall x, mapInfo (demoted (promoted m id i kb l) old o kb (<[Z.to_nat pos := id]> l') u' s') !! x =
       alter (set_tried true) id (<[old := set_ref 1 (set_tried false o)]> (<[id := set_ref 0 i]> (mapInfo m))) !! x).
    { intros x. cbn [demoted promoted with_new with_tried with_info mapInfo]. rewrite alter_insert_ne by done. by rewrite alter_insert_eq. }
    assert (Hid : alter (set_tried true) id (<[old := set_ref 1 (set_tried false o)]> (<[id := set_ref 0 i]> (mapInfo m))) !! id = Some (set_tried true (set_ref 0 i))).
    { by rewrite lookup_alter_eq, lookup_insert_ne, lookup_insert_eq by done. }
    eexists _, _. split; [done|]. split_and!; [|done|done|exact Hid]. split.
    + eapply tab_same; [exact HD| |].
      * unfold frame. cbn -[Z.add Z.sub]. rewrite !list_insert_insert_eq. split_and!; try done; lia.
      * intros x. cbn [with_info with_tried mapInfo m1 m2 with_new]. rewrite <- Hlk. by eapply same_entry_refl.
    + intros c l0 E. cbn [with_info with_tried with_new vvTried m2] in E. rewrite list_insert_insert_eq in E. apply list_lookup_insert_Some in E as [(-> & <- & _)|[_ E]]; [|by eapply (aw_tried _ HW)]. rewrite length_insert, Hp. done.
    + eapply (rand_same m); [apply HW|done|]. intros x. cbn [with_info with_tried mapInfo m1 m2 with_new]. rewrite <- Hlk. cbn. destruct (decide (x = old)) as [->|]; [by rewrite lookup_insert_eq, Eo|rewrite lookup_insert_ne by done].
      destruct (decide (x = id)) as [->|]; [by rewrite lookup_insert_eq, Ei|by rewrite lookup_insert_ne].
Qed.

(** ** [Good_] *)

Lemma find_bucket_ok vv nRnd id ns : let r := find_bucket vv nRnd id ns in
  (r = -1 /\ forall n s, n ∈ ns -> vv !! Z.to_nat ((Z.of_nat n + nRnd) mod len vv) = Some s -> id ∉ s) \/
  exists n s, r = (Z.of_nat n + nRnd) mod len vv /\ n ∈ ns /\ vv !! Z.to_nat r = Some s /\ id ∈ s.
Proof.
  induction ns as [|n ns IH]; cbn [find_bucket]; [left; split; [done|]; intros n s Hn; by apply elem_of_nil in Hn|].
  assert (Hrest : (forall s, vv !! Z.to_nat ((Z.of_nat n + nRnd) mod len vv) = Some s -> id ∉ s) -> let r := find_bucket vv nRnd id ns in
    (r = -1 /\ forall n' s, n' ∈ n :: ns -> vv !! Z.to_nat ((Z.of_nat n' + nRnd) mod len vv) = Some s -> id ∉ s) \/
    exists n' s, r = (Z.of_nat n' + nRnd) mod len vv /\ n' ∈ n :: ns /\ vv !! Z.to_nat r = Some s /\ id ∈ s).
  { intros Hn. destruct IH as [[-> Hall]|(n' & s & Hr & Hin & H)]; [left|right].
    - split; [done|]. intros n' s Hn' E. apply elem_of_cons in Hn' as [->|Hn']; [by apply Hn|by eapply Hall].
    - exists n', s. split; [done|]. split; [by right|done]. }
  destruct (vv !! Z.to_nat ((Z.of_nat n + nRnd) mod len vv)) as [s|] eqn:E; [|by apply Hrest]. unfold set_has. case_bool_decide as Hin.
  - right. exists n, s. split; [done|]. split; [by left|done].
  - apply Hrest. by intros s' [= <-].
Qed.

(** Every bucket is looked at: some offset leads to it. *)
Lemma find_bucket_found vv nRnd id b s : (0 < length vv)%nat -> vv !! b = Some s -> id ∈ s ->
  exists c t, find_bucket vv nRnd id (seq 0 (length vv)) = Z.of_nat c /\ vv !! c = Some t /\ id ∈ t.
Proof.
  intros Hl Eb Hin. assert (Hpos : 0 < len vv) by (unfold len; lia). pose proof (lookup_lt_Some _ _ _ Eb) as Hb.
  destruct (find_bucket_ok vv nRnd id (seq 0 (length vv))) as [[_ Hall]|(n & t & -> & Hn & Et & Ht)].
  - exfalso. pose proof (Z.mod_pos_bound (Z.of_nat b - nRnd) (len vv) Hpos) as Hm. apply (Hall (Z.to_nat ((Z.of_nat b - nRnd) mod len vv)) s); [apply elem_of_seq; unfold len in *; lia| |done].
    rewrite Z2Nat.id by lia. rewrite Zplus_mod_idemp_l. replace (Z.of_nat b - nRnd + nRnd) with (Z.of_nat b) by lia. rewrite Z.mod_small by (unfold len; lia). by rewrite Nat2Z.id.
  - pose proof (Z.mod_pos_bound (Z.of_nat n + nRnd) (len vv) Hpos) as Hm. eexists _, t. split; [|done]. lia.
Qed.

Definition good_entry (t : Z) (i : CAddrInfo) : CAddrInfo := set_attempts 0 (set_time t (set_try t (set_success t i))).

Lemma Good_ok m addr t k : am_wf m -> 0 < t ->
  exists m' k', Good_ RAND_uint64 tries m addr t k = Some (m', k') /\ am_wf m' /\ nKey m' = nKey m /\ nIdCount m' = nIdCount m /\
    forall id i, Find m (sv_ip addr) = Some (id, i) -> service_eq (ad_service (ai_addr i)) addr = true ->
      exists i', mapInfo m' !! id = Some i' /\ fInTried i' = true /\ nRefCount i' = 0 /\ nLastSuccess i' = t /\ info_try i' = t /\ nAttempts i' = 0.
Proof.
  intros HW Ht. unfold Good_. destruct (Find m _) as [[id i]|] eqn:Ef; [|by exists m, k]. apply find_some in Ef as [Ei Hip]; [|done].
  destruct (service_eq _ _) eqn:Es; cbn [negb]; [|exists m, k; split_and!; try done; intros ? ? [= <- <-]; congruence].
  fold (good_entry t i). set (i1 := good_entry t i). set (m1 := with_info _ m).
  assert (HW1 : am_wf m1).
  { apply (am_update m id i); [done|done| |done]. pose proof (same_entry_refl _ _ id (aw_tab _ HW)) as Hse. rewrite Ei in Hse. cbn in Hse |- *. unfold info_try. cbn. split_and!; try done; lia. }
  assert (Ei1 : mapInfo m1 !! id = Some i1) by apply lookup_insert_eq. destruct (ti_info _ _ (aw_tab _ HW1) _ _ Ei1) as (_ & _ & Hi).
  destruct (fInTried i1) eqn:Et.
  { exists m1, k. split_and!; try done. intros ? ? [= <- <-] _. exists i1. split_and!; try done. apply Hi. }
  destruct Hi as [Hr Hrb]. rewrite pend_none in Hr. destruct (occ_found id (vvNew m1)) as (b & s & Eb & Hin); [lia|].
  assert (Hl : length (vvNew m1) = 256%nat) by apply (aw_tab _ HW1). destruct (GetRandInt_spec _ _ HRA (len (vvNew m1)) k) as (r & k1 & -> & _); [unfold len; lia|]. cbn [mbind option_bind].
  destruct (find_bucket_found (vvNew m1) r id b s) as (c & u & -> & Ec & Hu); [lia|done|done|]. destruct (Z.eqb_spec (Z.of_nat c) (-1)); [lia|].
  destruct (MakeTried_ok m1 id i1 c u k1) as (m2 & k2 & -> & HW2 & K2 & C2 & E2); [done|done| |done|done|]; [cbn; lia|].
  exists m2, k2. split_and!; [done|done|exact K2|exact C2|]. intros ? ? [= <- <-] _. eexists. split; [exact E2|]. done.
Qed.

(** ** [GetAddr_] *)

Definition addr_of (m : CAddrMan) (id : Z) : CAddress := ai_addr (info_at id (mapInfo m)).

Lemma am_swap m q1 q2 : am_wf m -> 0 <= q1 < len (vRandom m) -> 0 <= q2 < len (vRandom m) ->
  exists m', SwapRandom m q1 q2 = Some m' /\ am_wf m' /\ swapped m m' (Z.to_nat q1) (Z.to_nat q2) /\ forall id, addr_of m' id = addr_of m id.
Proof.
  intros HW H1 H2. pose proof (tab_bound 65 _ _ (aw_tab _ HW) (ti_tsize _ _ (aw_tab _ HW))) as Hb. cbn [from_option] in Hb. rewrite len_nil in Hb. pose proof (rand_size _ (aw_rand _ HW)) as Hs.
  destruct (SwapRandom_ok m q1 q2) as (m' & E & HR & HS); [apply HW|unfold len; lia|done|done|]. exists m'. split; [done|]. destruct (sw_frame _ _ _ _ HS) as (_ & _ & _ & _ & F5 & _).
  split_and!; [|done|].
  - split; [|by rewrite F5; apply HW|done]. eapply tab_same; [apply HW|apply HS|]. intros id. eapply swapped_entry; [apply HW|done].
  - intros id. unfold addr_of, info_at. pose proof (sw_info _ _ _ _ HS id) as Ei. destruct (mapInfo m !! id), (mapInfo m' !! id); try done. cbn in Ei |- *. by injection Ei as ->.
Qed.

Lemma take_take_S {A} n (l : list A) : take n (take (S n) l) = take n l.
Proof. rewrite take_take. f_equal. lia. Qed.

Lemma getaddr_loop_ok c : forall n m acc k, am_wf m -> (n + c <= length (vRandom m))%nat ->
  exists m' k', getaddr_loop RAND_uint64 tries (seq n c) m acc k = Some (m', acc ++ map (addr_of m') (take c (drop n (vRandom m'))), k') /\
    am_wf m' /\ take n (vRandom m') = take n (vRandom m) /\ length (vRandom m') = length (vRandom m) /\ frame m m' /\ forall id, addr_of m' id = addr_of m id.
Proof.
  induction c as [|c IH]; intros n m acc k HW Hl; cbn [seq getaddr_loop].
  { exists m, k. rewrite take_0. cbn [map]. rewrite app_nil_r. done. }
  pose proof (tab_bound 65 _ _ (aw_tab _ HW) (ti_tsize _ _ (aw_tab _ HW))) as Hb. cbn [from_option] in Hb. rewrite len_nil in Hb. pose proof (rand_size _ (aw_rand _ HW)) as Hs.
  destruct (GetRandInt_spec _ _ HRA (len (vRandom m) - Z.of_nat n) k) as (r & k1 & -> & Hr); [unfold len; lia|]. cbn [mbind option_bind].
  destruct (am_swap m (Z.of_nat n) (r + Z.of_nat n)) as (m1 & -> & HW1 & HS & Ha1); [done|unfold len in *; lia..|]. cbn [mbind option_bind].
  destruct (sw_vec _ _ _ _ HS) as (id1 & id2 & E1 & E2 & Ev). rewrite Nat2Z.id in Ev. assert (Hl1 : length (vRandom m1) = length (vRandom m)) by by rewrite Ev, !length_insert.
  destruct (lookup_lt_is_Some_2 (vRandom m1) n) as [id Eid]; [lia|]. rewrite Eid. cbn [mbind option_bind]. destruct (ri_id _ (aw_rand _ HW1) _ _ Eid) as (i & Ei & _). rewrite Ei. cbn [mbind option_bind].
  destruct (IH (S n) m1 (acc ++ [ai_addr i]) k1 HW1) as (m' & k' & -> & HW' & Ht & Hl' & Hf & Ha); [lia|]. exists m', k'.
  assert (En : vRandom m' !! n = Some id) by (rewrite <- (lookup_take_lt _ (S n) n), Ht, lookup_take_lt by lia; done).
  split_and!.
  - do 2 f_equal. rewrite <- app_assoc. do 2 f_equal. rewrite (drop_S _ id n En). cbn [take map app]. f_equal. rewrite Ha. unfold addr_of, info_at. by rewrite Ei.
  - done.
  - assert (Ht' : take n (vRandom m') = take n (vRandom m1)) by (rewrite <- (take_take_S n (vRandom m')), Ht; apply take_take_S). rewrite Ht', Ev, !take_insert_ge by lia. done.
  - congruence.
  - destruct Hf as (? & ? & ? & ? & ? & ? & ?), (sw_frame _ _ _ _ HS) as (? & ? & ? & ? & ? & ? & ?). unfold frame. split_and!; congruence.
  - intros x. by rewrite Ha.
Qed.
End random_ops.

(** ** [Check_] *)

Lemma infos_elem mi n i : (n, i) ∈ infos mi <-> mi !! n = Some i.
Proof. unfold infos. rewrite merge_sort_Permutation. apply elem_of_map_to_list. Qed.

Lemma check_entry m n i : am_wf m -> mapInfo m !! n = Some i ->
  (fInTried i = true -> nLastSuccess i <> 0 /\ nRefCount i = 0) /\ (fInTried i = false -> 1 <= nRefCount i <= 4) /\
  mapAddr m !! info_ip i = Some n /\ 0 <= nRandomPos i < len (vRandom m) /\ vRandom m !! Z.to_nat (nRandomPos i) = Some n /\ 0 <= info_try i /\ 0 <= nLastSuccess i.
Proof.
  intros HW Ei. destruct (ti_info _ _ (aw_tab _ HW) _ _ Ei) as (H1 & H2 & Hi). destruct (ri_pos _ (aw_rand _ HW) _ _ Ei) as [Hp Ep]. pose proof (lookup_lt_Some _ _ _ Ep).
  split_and!; try done; [intros E; rewrite E in Hi; tauto|intros E; rewrite E in Hi; tauto|apply (ti_addr _ _ (aw_tab _ HW)); by exists i|unfold len; lia].
Qed.

Lemma check_infos_ok m l : am_wf m -> (forall n i, (n, i) ∈ l -> mapInfo m !! n = Some i) -> forall st mn,
  exists st' mn', check_infos (vRandom m) l (mapAddr m) st mn = (mapAddr m, inr (st', mn')) /\
    (forall x, x ∈ st' <-> x ∈ st \/ exists i, (x, i) ∈ l /\ fInTried i = true) /\
    (forall x i, (x, i) ∈ l -> fInTried i = false -> mn' !! x = Some (nRefCount i)) /\
    (forall x, (forall i, (x, i) ∈ l -> fInTried i = true) -> mn' !! x = mn !! x).
Proof.
  intros HW. induction l as [|[n i] l IH]; intros Hl st mn; cbn [check_infos].
  { exists st, mn. split_and!; [done| |intros x i Hx; by apply elem_of_nil in Hx|done]. intros x. split; [by left|]. intros [|(i & Hx & _)]; [done|by apply elem_of_nil in Hx]. }
  destruct (check_entry m n i HW) as (Ht & Hf & Ea & Hp & Ep & Htry & Hsu); [apply Hl; by left|]. unfold ADDRMAN_NEW_BUCKETS_PER_ADDRESS.
  assert (Hc : exists st' mn', check_infos (vRandom m) l (mapAddr m) (if fInTried i then set_add n st else st) (if fInTried i then mn else <[n := nRefCount i]> mn) = (mapAddr m, inr (st', mn')) /\
    (forall x, x ∈ st' <-> x ∈ st \/ exists j, (x, j) ∈ (n, i) :: l /\ fInTried j = true) /\
    (forall x j, (x, j) ∈ (n, i) :: l -> fInTried j = false -> mn' !! x = Some (nRefCount j)) /\
    (forall x, (forall j, (x, j) ∈ (n, i) :: l -> fInTried j = true) -> mn' !! x = mn !! x)).
  { edestruct (IH ltac:(intros; apply Hl; by right)) as (st' & mn' & E & Q1 & Q2 & Q3). exists st', mn'. split; [exact E|]. split_and!.
    - intros x. rewrite Q1. destruct (fInTried i) eqn:Ei.
      + unfold set_add. rewrite elem_of_union, elem_of_singleton. split.
        * intros [[->|Hx]|(j & Hx & Hj)]; [right; exists i; split; [by left|done]|by left|right; exists j; split; [by right|done]].
        * intros [Hx|(j & Hx & Hj)]; [by left; right|]. apply elem_of_cons in Hx as [[= -> ->]|Hx]; [by left; left|right; by exists j].
      + split; (intros [Hx|(j & Hx & Hj)]; [by left|right]).
        * exists j. split; [by right|done].
        * apply elem_of_cons in Hx as [[= -> ->]|Hx]; [congruence|by exists j].
    - intros x j Hx Hj. apply elem_of_cons in Hx as [[= -> ->]|Hx]; [|by apply Q2]. rewrite Hj in Q3. destruct (decide (n ∈ l.*1)) as [Hnl|Hno].
      + apply list_elem_of_fmap in Hnl as ([n' j] & En & Hj'). cbn [fst] in En. subst n'. assert (j = i) as -> by (assert (mapInfo m !! n = Some j) by (apply Hl; by right); assert (mapInfo m !! n = Some i) by (apply Hl; by left); congruence). by apply Q2.
      + rewrite Q3 by (intros j' Hj'; destruct Hno; apply list_elem_of_fmap; by exists (n, j')). apply lookup_insert_eq.
    - intros x Hx. rewrite Q3 by (intros; apply Hx; by right). destruct (fInTried i) eqn:Ei; [done|]. rewrite lookup_insert_ne; [done|]. intros ->. specialize (Hx i). rewrite Ei in Hx. discriminate Hx. by left. }
  rewrite Ea. cbn [default]. rewrite insert_id by done. rewrite Z.eqb_refl. cbn [negb].
  rewrite (bool_decide_eq_true_2 (_ = Some n)) by done. destruct (Z.ltb_spec (nRandomPos i) 0), (Z.leb_spec (len (vRandom m)) (nRandomPos i)), (Z.ltb_spec (info_try i) 0), (Z.ltb_spec (nLastSuccess i) 0); try lia. cbn [orb negb].
  destruct (fInTried i); cbn [andb negb].
  - destruct (Ht eq_refl) as [Hs0 ->]. destruct (Z.eqb_spec (nLastSuccess i) 0); [lia|]. done.
  - specialize (Hf eq_refl). destruct (Z.ltb_spec (nRefCount i) 0), (Z.ltb_spec 4 (nRefCount i)), (Z.eqb_spec (nRefCount i) 0); try lia. done.
Qed.

Lemma check_tried_ok ids : forall st, NoDup ids -> (forall x, x ∈ st <-> x ∈ ids) -> check_tried ids st = Some ∅.
Proof.
  induction ids as [|id ids IH]; intros st Hn Hst; cbn [check_tried]; [f_equal; apply set_eq; intros x; rewrite Hst; set_solver|].
  unfold set_has. rewrite bool_decide_eq_true_2 by (apply Hst; by left). apply NoDup_cons in Hn as [Hid Hn]. apply IH; [done|]. intros x. unfold set_erase. rewrite elem_of_difference, Hst, elem_of_singleton, elem_of_cons. naive_solver.
Qed.

Abbreviation count l x := (Z.of_nat (count_occ Z.eq_dec l x)).

Lemma count_app (l l' : list Z) x : count (l ++ l') x = count l x + count l' x.
Proof. rewrite count_occ_app. lia. Qed.

Lemma count_in_order s x : count (in_order s) x = Z.b2z (bool_decide (x ∈ s)).
Proof.
  pose proof (in_order_nodup s) as Hn. apply NoDup_ListNoDup in Hn. case_bool_decide as Hx.
  - rewrite (proj1 (NoDup_count_occ' Z.eq_dec _) Hn x); [done|]. by apply list_elem_of_In, in_order_elem.
  - rewrite (proj1 (count_occ_not_In Z.eq_dec _ x)); [done|]. by rewrite <- list_elem_of_In, in_order_elem.
Qed.

Lemma count_buckets vv x : count (concat (map in_order vv)) x = occ x vv.
Proof. induction vv as [|v vv IH]; [done|]. cbn [map concat occ]. by rewrite count_app, count_in_order, IH. Qed.

Lemma check_new_ok ids : forall mn, (forall x, mn !! x = if count ids x =? 0 then None else Some (count ids x)) -> check_new ids mn = Some ∅.
Proof.
  induction ids as [|id ids IH]; intros mn Hmn; cbn [check_new]; [f_equal; apply map_eq; intros x; by rewrite Hmn|].
  assert (Hc : forall x, count (id :: ids) x = count ids x + Z.b2z (bool_decide (x = id))).
  { intros x. cbn [count_occ]. destruct (Z.eq_dec id x) as [->|]; [rewrite bool_decide_eq_true_2 by done|rewrite bool_decide_eq_false_2 by done]; cbn [Z.b2z]; lia. }
  rewrite (Hmn id), Hc, bool_decide_eq_true_2 by done. cbn [Z.b2z]. destruct (Z.eqb_spec (count ids id + 1) 0); [lia|]. cbn [mbind option_bind]. replace (count ids id + 1 - 1) with (count ids id) by lia. apply IH.
  intros x. destruct (decide (x = id)) as [->|Hx].
  - destruct (count ids id =? 0); [by rewrite lookup_delete_eq|by rewrite lookup_insert_eq].
  - specialize (Hmn x). rewrite Hc, bool_decide_eq_false_2, Z.add_0_r in Hmn by done. destruct (count ids id =? 0); [by rewrite lookup_delete_ne|by rewrite lookup_insert_ne].
Qed.

Lemma Check_ok m : am_wf m -> Check_ m = (m, 0).
Proof.
  intros HW. pose proof (aw_tab _ HW) as HT. destruct (check_infos_ok m (infos (mapInfo m)) HW ltac:(intros n i; by rewrite infos_elem) ∅ ∅) as (st & mn & Ec & Q1 & Q2 & Q3).
  assert (Hst : forall x, x ∈ st <-> x ∈ concat (vvTried m)).
  { intros x. rewrite Q1. split.
    - intros [Hx|(i & Hx & Ht)]; [set_solver|]. apply infos_elem in Hx. destruct (ti_info _ _ HT _ _ Hx) as (_ & _ & Hi). rewrite Ht in Hi. tauto.
    - intros (b & l & Eb & Hx)%elem_of_bucket. destruct (ti_tried _ _ HT _ _ _ Eb Hx) as (i & Ei & Ht & _). right. exists i. by rewrite infos_elem. }
  assert (Hmn : forall x, mn !! x = if occ x (vvNew m) =? 0 then None else Some (occ x (vvNew m))).
  { intros x. destruct (mapInfo m !! x) as [i|] eqn:Ei.
    - destruct (ti_info _ _ HT _ _ Ei) as (_ & _ & Hi). destruct (fInTried i) eqn:Et.
      + rewrite Q3 by (intros j Hj%infos_elem; congruence). destruct Hi as (_ & _ & -> & _). done.
      + rewrite (Q2 x i) by (done || by apply infos_elem). rewrite pend_none in Hi. destruct (Z.eqb_spec (occ x (vvNew m)) 0); [lia|]. f_equal. lia.
    - rewrite (ti_ghost _ _ HT x Ei). cbn. rewrite Q3 by (intros j Hj%infos_elem; congruence). done. }
  assert (Est : st = list_to_set (concat (vvTried m))) by (apply set_eq; intros x; rewrite Hst; set_solver).
  assert (Hsize : size st = length (concat (vvTried m))) by (rewrite Est; apply size_list_to_set, (ti_nodup _ _ HT)).
  assert (Hdom : dom (mapInfo m) = st ∪ dom mn).
  { apply set_eq. intros x. rewrite elem_of_union, !elem_of_dom, Hmn, Q1. split.
    - intros [i Ei]. destruct (ti_info _ _ HT _ _ Ei) as (_ & _ & Hi). destruct (fInTried i) eqn:Et; [left; right; exists i; by rewrite infos_elem|right].
      rewrite pend_none in Hi. destruct (Z.eqb_spec (occ x (vvNew m)) 0); [lia|by eexists].
    - intros [[Hx|(i & Hx & _)]|[c Hc]]; [set_solver|apply infos_elem in Hx; by eexists|]. destruct (mapInfo m !! x) eqn:Ei; [by eexists|]. by rewrite (ti_ghost _ _ HT x Ei) in Hc. }
  assert (Hdisj : st ## dom mn).
  { intros x Hx. rewrite elem_of_dom, Hmn. intros [c Hc]. apply Hst, elem_of_bucket in Hx as (b & l & Eb & Hx). destruct (ti_tried _ _ HT _ _ _ Eb Hx) as (i & Ei & Ht & _).
    destruct (ti_info _ _ HT _ _ Ei) as (_ & _ & Hi). rewrite Ht in Hi. destruct Hi as (_ & _ & Ho & _). by rewrite Ho in Hc. }
  assert (Htot : size (mapInfo m) = (size st + size mn)%nat) by (rewrite <- !size_dom, Hdom, size_union by done; done).
  pose proof (ti_nTried _ _ HT) as HnT. pose proof (ti_total _ _ HT) as Htt. pose proof (tab_bound 65 _ _ HT (ti_tsize _ _ HT)) as Hb. cbn [from_option] in Hb. rewrite len_nil in Hb. pose proof (rand_size _ (aw_rand _ HW)) as Hr.
  unfold Check_. rewrite wrap_id by (unfold fits, len in *; lia). replace (len (vRandom m) =? nTried m + nNew m) with true by (symmetry; apply Z.eqb_eq; unfold len; lia). cbn [negb]. rewrite Ec.
  replace (with_mapAddr (mapAddr m) m) with m by by destruct m. unfold set_size, map_count. rewrite !wrap_id by (unfold fits, len in *; lia).
  replace (Z.of_nat (size st) =? nTried m) with true by (symmetry; apply Z.eqb_eq; unfold len in *; lia). replace (Z.of_nat (size mn) =? nNew m) with true by (symmetry; apply Z.eqb_eq; unfold len in *; lia). cbn [negb].
  rewrite check_tried_ok by (done || apply HT). rewrite check_new_ok by (intros x; by rewrite count_buckets). rewrite size_empty. done.
Qed.
End invariant.

Lemma am_new_wf `{CR : Crypto} key : am_wf (addrman_new key).
Proof.
  assert (Ht : concat (replicate 64 (@nil Z)) = []) by reflexivity. assert (Hn : forall id, occ id (replicate 256 ∅) = 0).
  { intros id. generalize 256%nat. intros n. induction n as [|n IH]; [done|]. cbn [replicate occ]. rewrite IH, bool_decide_eq_false_2 by set_solver. done. }
  assert (Hb : forall b l, replicate 64 (@nil Z) !! b = Some l -> l = []) by (intros b l E; by apply lookup_replicate in E as [-> _]).
  assert (Hs : forall b s, replicate 256 (∅ : gset Z) !! b = Some s -> s = ∅) by (intros b s E; by apply lookup_replicate in E as [-> _]).
  split; [split| |split]; cbn [addrman_new vvTried vvNew mapInfo mapAddr nKey nIdCount nTried nNew vRandom]; rewrite ?length_replicate, ?Ht; try done.
  - intros b l E. rewrite (Hb b l E). cbn. lia.
  - intros b s E. rewrite (Hs b s E), size_empty. lia.
  - intros a id. rewrite lookup_empty. split; [done|]. intros (i & E & _). by rewrite lookup_empty in E.
  - constructor.
  - intros b l id E Hin. rewrite (Hb b l E) in Hin. by apply elem_of_nil in Hin.
  - intros b l E. rewrite (Hb b l E). cbn. lia.
Qed.

(** ** The manager in use *)

Section use.
Context `{CR : Crypto} (RAND_uint64 : nat -> Z) (tries : nat).

(** What the network code asks of the manager. *)
Inductive am_op : Type :=
| OpAdd (vAddr : list CAddress) (src : CNetAddr) (nTimePenalty nNow : Z)
| OpGood (addr : CService) (nTime : Z)
| OpAttempt (addr : CService) (nTime : Z)
| OpConnected (addr : CService) (nTime : Z)
| OpGetAddr
| OpReconnectToken (addr : CNetAddr) (token : Z)
| OpVerificationToken (addr : CNetAddr) (token : Z).

Definition run_op (o : am_op) (m : CAddrMan) (k : nat) : option (CAddrMan * nat) :=
  match o with
  | OpAdd vAddr src pen now => '(m, _, k) ← Add RAND_uint64 tries m vAddr src pen now k; Some (m, k)
  | OpGood addr t => Good_ RAND_uint64 tries m addr t k
  | OpAttempt addr t => Some (Attempt_ m addr t, k)
  | OpConnected addr t => Some (Connected_ m addr t, k)
  | OpGetAddr => '(m, _, k) ← GetAddr_ RAND_uint64 tries m k; Some (m, k)
  | OpReconnectToken a t => Some (SetReconnectToken m a t, k)
  | OpVerificationToken a t => Some (SetVerificationToken m a t, k)
  end.

Fixpoint run_ops (ops : list am_op) (m : CAddrMan) (k : nat) : option (CAddrMan * nat) :=
  match ops with [] => Some (m, k) | o :: ops => '(m, k) ← run_op o m k; run_ops ops m k end.

(** The times are times: [GetAdjustedTime] is after 1970. *)
Definition op_ok (o : am_op) : Prop := match o with OpGood _ t => 0 < t | OpAttempt _ t => 0 <= t | _ => True end.

(** How many addresses may be new. *)
Definition op_adds (o : am_op) : Z := match o with OpAdd v _ _ _ => len v | _ => 0 end.
Definition adds (ops : list am_op) : Z := fold_right (fun o n => op_adds o + n) 0 ops.

Lemma adds_nonneg ops : 0 <= adds ops.
Proof.
  induction ops as [|o ops IH]; [done|]. change (adds (o :: ops)) with (op_adds o + adds ops). assert (0 <= op_adds o); [|lia]. destruct o; cbn [op_adds]; try done. apply len_nonneg.
Qed.
End use.

Section reachable.
Context `{CR : Crypto} (RAND_uint64 : nat -> Z) (tries : nat) (HRA : rand_ok RAND_uint64 tries).

Lemma add_loop_ok src pen now vAddr : forall m nAdd k, am_wf m -> nIdCount m + len vAddr < 2 ^ 31 ->
  exists m' f k', add_loop RAND_uint64 tries m vAddr src pen now nAdd k = Some (m', f, k') /\ am_wf m' /\ nIdCount m <= nIdCount m' <= nIdCount m + len vAddr.
Proof.
  induction vAddr as [|a vAddr IH]; intros m nAdd k HW Hc; cbn [add_loop]; [exists m, (0 <? nAdd), k; split_and!; [done|done|lia|rewrite len_nil; lia]|].
  rewrite len_cons in *. pose proof (len_nonneg vAddr). destruct (Add_ok _ _ HRA m a src pen now k HW) as (m1 & f & k1 & -> & HW1 & _ & Hc1); [lia|]. cbn [mbind option_bind].
  edestruct (IH m1) as (m2 & f2 & k2 & -> & HW2 & Hc2); [done|lia|]. exists m2, f2, k2. split_and!; try done; lia.
Qed.

Lemma frame_count m m' : frame m m' -> nIdCount m' = nIdCount m.
Proof. intros H. apply H. Qed.

Lemma GetAddr_ok m k : am_wf m -> let n := Z.min 2500 (23 * len (vRandom m) / 100) in
  exists m' k', GetAddr_ RAND_uint64 tries m k = Some (m', map (addr_of m') (take (Z.to_nat n) (vRandom m')), k') /\ am_wf m' /\ frame m m' /\
    length (vRandom m') = length (vRandom m) /\ forall id, addr_of m' id = addr_of m id.
Proof.
  intros HW n. unfold GetAddr_, ADDRMAN_GETADDR_MAX, ADDRMAN_GETADDR_MAX_PCT. pose proof (len_nonneg (vRandom m)) as H0.
  replace (if 2500 <? 23 * len (vRandom m) / 100 then 2500 else 23 * len (vRandom m) / 100) with n by (unfold n; destruct (Z.ltb_spec 2500 (23 * len (vRandom m) / 100)); lia).
  destruct (getaddr_loop_ok _ _ HRA (Z.to_nat n) 0 m [] k HW) as (m' & k' & E & HW' & _ & Hl & Hf & Ha).
  { assert (n <= len (vRandom m)); [|unfold len in *; lia]. unfold n. pose proof (Z.div_le_upper_bound (23 * len (vRandom m)) 100 (len (vRandom m))). lia. }
  exists m', k'. rewrite E. cbn [app]. by rewrite drop_0.
Qed.

Lemma run_op_ok o m k : am_wf m -> op_ok o -> nIdCount m + op_adds o < 2 ^ 31 ->
  exists m' k', run_op RAND_uint64 tries o m k = Some (m', k') /\ am_wf m' /\ nIdCount m <= nIdCount m' <= nIdCount m + op_adds o.
Proof.
  intros HW Ho Hc. destruct o as [v src pen now|addr t|addr t|addr t| |a t|a t]; cbn [run_op op_adds op_ok] in *.
  - destruct (add_loop_ok src pen now v m 0 k HW Hc) as (m' & f & k' & E & HW' & Hc'). unfold Add. rewrite E. by exists m', k'.
  - destruct (Good_ok _ _ HRA m addr t k HW Ho) as (m' & k' & E & HW' & _ & Ec & _). exists m', k'. rewrite Ec. split_and!; try done; lia.
  - eexists _, _. split; [done|]. split; [by apply Attempt_ok|]. assert (nIdCount (Attempt_ m addr t) = nIdCount m) as -> by (unfold Attempt_; repeat case_match; done). lia.
  - eexists _, _. split; [done|]. split; [by apply Connected_ok|]. assert (nIdCount (Connected_ m addr t) = nIdCount m) as -> by (unfold Connected_; repeat case_match; done). lia.
  - destruct (GetAddr_ok m k HW) as (m' & k' & -> & HW' & Hf & _). eexists _, _. split; [done|]. rewrite (frame_count _ _ Hf). split; [done|]. lia.
  - eexists _, _. split; [done|]. split; [by destruct HW as [[] ? []]; split; [split| |split]|cbn; lia].
  - eexists _, _. split; [done|]. split; [by destruct HW as [[] ? []]; split; [split| |split]|cbn; lia].
Qed.

Lemma run_ops_ok ops : forall m k, am_wf m -> Forall op_ok ops -> nIdCount m + adds ops < 2 ^ 31 ->
  exists m' k', run_ops RAND_uint64 tries ops m k = Some (m', k') /\ am_wf m'.
Proof.
  induction ops as [|o ops IH]; intros m k HW Ho Hc; cbn [run_ops]; [by exists m, k|]. apply Forall_cons in Ho as [Ho Hos]. change (adds (o :: ops)) with (op_adds o + adds ops) in Hc. pose proof (adds_nonneg ops).
  destruct (run_op_ok o m k HW Ho) as (m1 & k1 & -> & HW1 & Hc1); [lia|]. cbn [mbind option_bind]. apply IH; [done|done|lia].
Qed.

(** (C10) Whatever the network code asks, no assertion of the address manager fails and
    its own consistency check finds nothing: every operation on a new manager
    answers; then [Check_] is 0, there are at most 20480 entries, of which the tried
    ones are each in the bucket of the hash of their address, and an address
    is found exactly when an entry has it. *)
Theorem addrman_consistent key ops k : Forall op_ok ops -> adds ops < 2 ^ 31 ->
  exists m k', run_ops RAND_uint64 tries ops (addrman_new key) k = Some (m, k') /\ Check_ m = (m, 0) /\ am_size m <= 20480 /\
    (forall b l id, vvTried m !! b = Some l -> id ∈ l -> exists i, mapInfo m !! id = Some i /\ fInTried i = true /\ GetTriedBucket (nKey m) i = Z.of_nat b) /\
    (forall a, Find m a = None <-> forall id i, mapInfo m !! id = Some i -> info_ip i <> a).
Proof.
  intros Ho Hc. destruct (run_ops_ok ops (addrman_new key) k) as (m & k' & E & HW); [apply am_new_wf|done|cbn; lia|]. exists m, k'. split_and!; [done|by apply Check_ok| |apply HW|].
  - pose proof (tab_bound 64 _ _ (aw_tab _ HW) (aw_tried _ HW)) as Hb. cbn [from_option] in Hb. rewrite len_nil in Hb. pose proof (rand_size _ (aw_rand _ HW)) as Hs.
    unfold am_size, len in *. rewrite swrap_id by lia. lia.
  - intros a. split.
    + intros En id i Ei Ha. apply find_none in En; [|done]. assert (mapAddr m !! a = Some id) by (apply (ti_addr _ _ (aw_tab _ HW)); by exists i). congruence.
    + intros Hno. destruct (Find m a) as [[id i]|] eqn:Ef; [|done]. apply find_some in Ef as [Ei Ha]; [|done]. by destruct (Hno id i Ei).
Qed.

Lemma addr_of_inj m x y i j : am_wf m -> mapInfo m !! x = Some i -> mapInfo m !! y = Some j -> info_ip i = info_ip j -> x = y.
Proof.
  intros HW Ei Ej E. assert (mapAddr m !! info_ip i = Some x) by (apply (ti_addr _ _ (aw_tab _ HW)); by exists i).
  assert (mapAddr m !! info_ip j = Some y) by (apply (ti_addr _ _ (aw_tab _ HW)); by exists j). congruence.
Qed.

(** Asked for addresses, the manager answers 23 out of 100 of those it has, and
    no more than 2500: all of them its own, each once; and a service it knows that is
    called good is then a tried entry with no failed attempts. *)
Theorem getaddr_good_spec key ops k m k1 : Forall op_ok ops -> adds ops < 2 ^ 31 -> run_ops RAND_uint64 tries ops (addrman_new key) k = Some (m, k1) ->
  (exists m' l k', GetAddr_ RAND_uint64 tries m k1 = Some (m', l, k') /\ len l = Z.min 2500 (23 * len (vRandom m) / 100) /\
    NoDup (map (fun a => sv_ip (ad_service a)) l) /\ forall a, a ∈ l -> exists id i, mapInfo m !! id = Some i /\ ai_addr i = a) /\
  (forall addr t id i, 0 < t -> Find m (sv_ip addr) = Some (id, i) -> service_eq (ad_service (ai_addr i)) addr = true ->
    exists m' k' i', Good_ RAND_uint64 tries m addr t k1 = Some (m', k') /\ mapInfo m' !! id = Some i' /\ fInTried i' = true /\ nLastSuccess i' = t /\ nAttempts i' = 0).
Proof.
  intros Ho Hc E. destruct (run_ops_ok ops (addrman_new key) k) as (m0 & k0 & E0 & HW); [apply am_new_wf|done|cbn; lia|]. rewrite E in E0. injection E0 as <- <-. split.
  - destruct (GetAddr_ok m k1 HW) as (m' & k' & -> & HW' & Hf & Hl & Ha). set (n := Z.min 2500 (23 * len (vRandom m) / 100)) in *. eexists m', _, k'. split; [done|].
    pose proof (len_nonneg (vRandom m)) as H0. assert (Hn : 0 <= n <= len (vRandom m)).
    { unfold n. pose proof (Z.div_pos (23 * len (vRandom m)) 100). pose proof (Z.div_le_upper_bound (23 * len (vRandom m)) 100 (len (vRandom m))). lia. }
    assert (Hin : forall id, id ∈ take (Z.to_nat n) (vRandom m') -> exists i, mapInfo m' !! id = Some i).
    { intros id Hid. apply elem_of_take in Hid as (q & Eq & _). destruct (ri_id _ (aw_rand _ HW') _ _ Eq) as (i & Ei & _). by exists i. }
    split_and!.
    + unfold len in *. rewrite length_map, length_take, Hl. lia.
    + rewrite map_map. apply NoDup_fmap_2_strong; [|pose proof (rand_nodup m' (aw_rand _ HW')) as Hnd; rewrite <- (take_drop (Z.to_nat n) (vRandom m')) in Hnd; by apply NoDup_app in Hnd as [Hnd _]]. intros x y Hx Hy. destruct (Hin x Hx) as [i Ei], (Hin y Hy) as [j Ej].
      unfold addr_of, info_at. rewrite Ei, Ej. by apply (addr_of_inj m').
    + intros a Ha'. apply list_elem_of_fmap in Ha' as (id & -> & Hid). rewrite Ha. destruct (Hin id Hid) as [i Ei]. destruct Hf as (_ & _ & Fa & _).
      assert (Hs : mapAddr m' !! info_ip i = Some id) by (apply (ti_addr _ _ (aw_tab _ HW')); by exists i). rewrite Fa in Hs. apply (ti_addr _ _ (aw_tab _ HW)) in Hs as (j & Ej & _).
      exists id, j. split; [done|]. unfold addr_of, info_at. by rewrite Ej.
  - intros addr t id i Ht Ef Es. destruct (Good_ok _ _ HRA m addr t k1 HW Ht) as (m' & k' & Eg & _ & _ & _ & Hi). destruct (Hi id i Ef Es) as (i' & Ei & Hti & _ & Hsu & _ & Hat). by exists m', k', i'.
Qed.
End reachable.

(** ** Spreading over buckets *)

Lemma mod_list h n : 0 < n -> h mod n ∈ seqZ 0 n.
Proof. intros Hn. apply elem_of_seqZ. pose proof (Z.mod_pos_bound h n Hn). lia. Qed.

Lemma size_list_le (l : list Z) : (size (list_to_set l : gset Z) <= length l)%nat.
Proof.
  induction l as [|x l IH]; [done|]. cbn [list_to_set length]. rewrite size_union_alt, size_singleton. pose proof (size_diff_le (list_to_set l) {[x]}). lia.
Qed.

Lemma values_bound {A} (f : A -> Z) (g : Z -> Z) n l : 0 < n -> (forall x, x ∈ l -> exists j, j ∈ seqZ 0 n /\ f x = g j) -> (size (list_to_set (map f l) : gset Z) <= Z.to_nat n)%nat.
Proof.
  intros Hn Hf. etrans; [apply (subseteq_size _ (list_to_set (map g (seqZ 0 n))))|].
  - intros y Hy. rewrite elem_of_list_to_set in Hy |- *. apply list_elem_of_fmap in Hy as (x & -> & Hx). destruct (Hf x Hx) as (j & Hj & ->). apply list_elem_of_fmap. by exists j.
  - etrans; [apply size_list_le|]. by rewrite length_map, length_seqZ.
Qed.

(** No one can fill the tables from one network: entries of one group are in at
    most 4 tried buckets, and entries that came from sources of one group in at most 32 new buckets. *)
Theorem group_spread `{CR : Crypto} key g l :
  (Forall (fun i => GetGroup (info_ip i) = g) l -> (size (list_to_set (map (GetTriedBucket key) l) : gset Z) <= 4)%nat) /\
  (forall srcs, Forall (fun '(i, src) => GetGroup src = g) srcs -> (size (list_to_set (map (fun '(i, src) => GetNewBucket key i src) srcs) : gset Z) <= 32)%nat).
Proof.
  split; [intros Hg|intros srcs Hg]; rewrite Forall_forall in Hg.
  - apply (values_bound _ (fun j => hash64 (put_bytes key ++ put_bytes g ++ put_uint64 j) mod 64) 4); [lia|]. intros i Hi. eexists. split; [by apply mod_list|]. unfold GetTriedBucket. by rewrite (Hg i Hi).
  - apply (values_bound _ (fun j => hash64 (put_bytes key ++ put_bytes g ++ put_uint64 j) mod 256) 32); [lia|]. intros [i src] Hi. eexists. split; [by apply mod_list|]. unfold GetNewBucket. by rewrite (Hg _ Hi).
Qed.

(** ** Examples *)

Lemma rand_one : rand_ok (fun _ => 1) 1.
Proof. split; intros k; [unfold fits; lia|]. exists 0%nat. lia. Qed.

Definition peer (a b c d : Z) : CAddress := address_new (mkService (netaddr_of_ipv4 [a; b; c; d]) 29662) NODE_NETWORK.
Definition example_ops : list am_op :=
  [OpAdd [peer 8 8 4 4; peer 9 9 9 9; peer 9 9 1 1; peer 5 6 7 8; peer 10 0 0 1] (netaddr_of_ipv4 [7; 7; 7; 7]) 0 100000500;
   OpGood (ad_service (peer 9 9 9 9)) 100000600; OpAttempt (ad_service (peer 8 8 4 4)) 100000700; OpGetAddr; OpConnected (ad_service (peer 8 8 4 4)) 100009000].

Lemma example_ops_ok : Forall op_ok example_ops /\ adds example_ops < 2 ^ 31.
Proof. split; [|by vm_compute]. unfold example_ops. repeat (apply List.Forall_cons; [unfold op_ok; lia|]). apply List.Forall_nil. Qed.

Section examples.
#[local] Existing Instance Crypto_toy.

Lemma addrman_consistent_witness : exists m k, run_ops (fun _ => 1) 1 example_ops (addrman_new (replicate 32 7)) 0 = Some (m, k) /\ Check_ m = (m, 0) /\ am_size m <= 20480.
Proof.
  destruct (addrman_consistent (fun _ => 1) 1 rand_one (replicate 32 7) example_ops 0) as (m & k & E & Hc & Hs & _); [apply example_ops_ok..|]. exists m, k. exact (conj E (conj Hc Hs)).
Defined.

(** Four of the five addresses are kept, the private one is not, and one is tried. *)
Example example_state : (fun '(m, _) => (am_size m, nTried m, nNew m, Find m (netaddr_of_ipv4 [10; 0; 0; 1]))) <$> run_ops (fun _ => 1) 1 example_ops (addrman_new (replicate 32 7)) 0 = Some (4, 1, 3, None).
Proof. vm_compute. reflexivity. Qed.

Lemma getaddr_good_spec_witness : exists m k m' l k', run_ops (fun _ => 1) 1 example_ops (addrman_new (replicate 32 7)) 0 = Some (m, k) /\ GetAddr_ (fun _ => 1) 1 m k = Some (m', l, k').
Proof.
  destruct (run_ops (fun _ => 1) 1 example_ops (addrman_new (replicate 32 7)) 0) as [[m k]|] eqn:E; [|vm_compute in E; discriminate E].
  destruct (getaddr_good_spec (fun _ => 1) 1 rand_one (replicate 32 7) example_ops 0 m k) as [(m' & l & k' & Eg & _) _]; [apply example_ops_ok..|exact E|]. exists m, k, m', l, k'. exact (conj eq_refl Eg).
Defined.
End examples.

(** [SelectTried] answers the position an entry had before it was moved: of two
    entries it has looked at, the one with the later success is at the position it answers, and is evicted. *)
Definition two_tried : CAddrMan :=
  with_tried 2 ([[10; 11]] ++ replicate 63 []) (with_info (fun _ => {[10 := set_success 500 (info_new (peer 8 8 4 4) []); 11 := set_success 100 (info_new (peer 9 9 9 9) [])]}) (addrman_new [])).

Theorem evicts_later_success : exists m k pos l, SelectTried (fun _ => 1) 1 two_tried 0 0 = Some (m, pos, k) /\ vvTried m !! 0%nat = Some l /\
  l !! Z.to_nat pos = Some 10 /\ (length l <= ADDRMAN_TRIED_ENTRIES_INSPECT_ON_EVICT)%nat /\ 11 ∈ l /\ nLastSuccess (info_at 11 (mapInfo m)) < nLastSuccess (info_at 10 (mapInfo m)).
Proof.
  destruct (SelectTried (fun _ => 1) 1 two_tried 0 0) as [[[m pos] k]|] eqn:E; [|vm_compute in E; discriminate E].
  exists m, k, pos, [11; 10]. assert (Ef : (fun '(m, pos, _) => (vvTried m !! 0%nat, pos, nLastSuccess (info_at 11 (mapInfo m)), nLastSuccess (info_at 10 (mapInfo m)))) <$>
    SelectTried (fun _ => 1) 1 two_tried 0 0 = Some (Some [11; 10], 1, 100, 500)) by (vm_compute; reflexivity).
  rewrite E in Ef. cbn in Ef. injection Ef as E1 E2 E3 E4. split_and!; [done|exact E1|by rewrite E2|cbn; unfold ADDRMAN_TRIED_ENTRIES_INSPECT_ON_EVICT; lia|by left|unfold info_at in *; cbn in *; lia].
Qed.

