(* ===== verification/Coins.v ===== *)
(** * wallet.cpp: which coins a wallet spends

    The part of [CWallet] that finds the coins of the wallet and chooses among them.
    The cached amounts of a [CWalletTx] are read here, not written: while a function
    that does not change the wallet runs, writing them changes no later answer.
    Exceptions are [None]. *)
From Stdlib Require Import ZArith Lia Bool.
From stdpp Require Import prelude gmap sorting.
From S2P Require Import Prelude Uint256 DataStream Serialize Crypto Containers Bignum Script Tx Block Index Target Keys KeyStore Pool SigHash Interp Standard Util.

(** ** [CWalletTx] *)

Record CWalletTx : Type := mkWalletTx {
  wt_tx : CMerkleTx;
  vtxPrev : list CMerkleTx;
  fDebitCached : bool;
  nDebitCached : Z;
  fAvailableCreditCached : bool;
  nAvailableCreditCached : Z;
  fEnigmaReservedCached : bool;
  nEnigmaReservedCached : Z;
  vfSpent : list bool;
  vfEnigmaReserved : list bool
}.

Definition wt_vout (w : CWalletTx) : list CTxOut := vout (mtx (wt_tx w)).

Definition flag_at (flags : list bool) (nOut : nat) : bool := nth nOut flags false.

Definition IsEnigmaReserved (w : CWalletTx) (nOut : nat) : option bool :=
  if Z.of_nat nOut <? len (wt_vout w) then Some (flag_at (vfEnigmaReserved w) nOut) else None.
Definition IsSpent (w : CWalletTx) (nOut : nat) : option bool :=
  if Z.of_nat nOut <? len (wt_vout w) then Some (flag_at (vfSpent w) nOut) else None.

(** [vector::resize] *)
Definition resize_flags (n : nat) (flags : list bool) : list bool := take n flags ++ replicate (n - length flags) false.

Definition set_spent (v : list bool) (c : bool) (w : CWalletTx) : CWalletTx := mkWalletTx (wt_tx w) (vtxPrev w) (fDebitCached w) (nDebitCached w) c (nAvailableCreditCached w) (fEnigmaReservedCached w) (nEnigmaReservedCached w) v (vfEnigmaReserved w).
Definition set_reserved (v : list bool) (c : bool) (w : CWalletTx) : CWalletTx := mkWalletTx (wt_tx w) (vtxPrev w) (fDebitCached w) (nDebitCached w) (fAvailableCreditCached w) (nAvailableCreditCached w) c (nEnigmaReservedCached w) (vfSpent w) v.

Definition mark_flag (b : bool) (w : CWalletTx) (flags : list bool) (nOut : nat) : option (list bool) :=
  if Z.of_nat nOut <? len (wt_vout w) then Some (<[nOut := b]> (resize_flags (length (wt_vout w)) flags)) else None.
Definition MarkSpent (w : CWalletTx) (nOut : nat) : option CWalletTx :=
  v ← mark_flag true w (vfSpent w) nOut; Some (set_spent v (fAvailableCreditCached w && flag_at (vfSpent w) nOut) w).
Definition MarkUnspent (w : CWalletTx) (nOut : nat) : option CWalletTx :=
  v ← mark_flag false w (vfSpent w) nOut; Some (set_spent v (fAvailableCreditCached w && negb (flag_at (vfSpent w) nOut)) w).
Definition MarkEnigmaReserved (w : CWalletTx) (nOut : nat) : option CWalletTx := v ← mark_flag true w (vfEnigmaReserved w) nOut; Some (set_reserved v (fEnigmaReservedCached w && flag_at (vfEnigmaReserved w) nOut) w).
Definition MarkNotEnigmaReserved (w : CWalletTx) (nOut : nat) : option CWalletTx := v ← mark_flag false w (vfEnigmaReserved w) nOut; Some (set_reserved v (fEnigmaReservedCached w && negb (flag_at (vfEnigmaReserved w) nOut)) w).

(** ** The wallet's view of the chain *)

(** The globals that are read. *)
Record wallet_env : Type := mkWalletEnv {
  we_index : index_state;
  we_nBestHeight : Z;
  we_adjusted_time : Z;
  we_nCoinbaseMaturity : Z
}.

Section wallet.
Context `{CR : Crypto} `{ECI : EC} {K : Type} `{KS : !CKeyStore K}.

Record CWallet : Type := mkWallet { w_keys : K; mapWallet : gmap base_uint CWalletTx }.

Definition GetDepthInMainChain (e : wallet_env) (t : CMerkleTx) : option Z :=
  if bu_eq (hashBlock t) (bu_zero 8) || (nIndex t =? -1) then Some 0
  else
    match mapBlockIndex (we_index e) !! hashBlock t with
    | None => Some 0
    | Some p =>
        main ← IsInMainChain (we_index e) p;
        if negb (main : bool) then Some 0
        else
          i ← deref (we_index e) p;
          if negb (fMerkleVerified t) && negb (bu_eq (CheckMerkleBranch (tx_GetHash (mtx t)) (vMerkleBranch t) (nIndex t)) (i_hashMerkleRoot i)) then Some 0
          else q ← pindexBest (we_index e); best ← deref (we_index e) q; Some (s32 (nHeight best - nHeight i + 1))
    end.

Definition GetBlocksToMaturity (e : wallet_env) (t : CMerkleTx) : option Z :=
  if negb (IsCoinBase (mtx t) || IsCoinStake (mtx t)) then Some 0
  else d ← GetDepthInMainChain e t; Some (Z.max 0 (we_nCoinbaseMaturity e + 20 - d)).

Definition wtx_IsFinal (e : wallet_env) (tx : CTransaction) : bool := tx_IsFinal (we_nBestHeight e) (we_adjusted_time e) tx 0 0.

(** [IsMine] of an output; [mine_fuel] bounds the nesting of redemption scripts. *)
Definition out_IsMine (mine_fuel : nat) (w : CWallet) (o : CTxOut) : option bool := IsMine mine_fuel (w_keys w) (scriptPubKey o).

Definition txin_GetDebit (mine_fuel : nat) (w : CWallet) (i : CTxIn) : option Z :=
  match mapWallet w !! op_hash (prevout i) with
  | None => Some 0
  | Some prev =>
      match wt_vout prev !! Z.to_nat (op_n (prevout i)) with
      | None => Some 0
      | Some o => mine ← out_IsMine mine_fuel w o; Some (if (mine : bool) then nValue o else 0)
      end
  end.

Fixpoint debit_loop (mine_fuel : nat) (w : CWallet) (l : list CTxIn) (nDebit : Z) : option Z :=
  match l with
  | [] => Some nDebit
  | i :: l => d ← txin_GetDebit mine_fuel w i; let n := s64 (nDebit + d) in if MoneyRange n then debit_loop mine_fuel w l n else None
  end.
Definition GetDebit (mine_fuel : nat) (w : CWallet) (tx : CTransaction) : option Z := debit_loop mine_fuel w (vin tx) 0.

Definition txout_GetCredit (mine_fuel : nat) (w : CWallet) (o : CTxOut) : option Z :=
  if negb (MoneyRange (nValue o)) then None else mine ← out_IsMine mine_fuel w o; Some (if (mine : bool) then nValue o else 0).
Fixpoint credit_loop (mine_fuel : nat) (w : CWallet) (l : list CTxOut) (nCredit : Z) : option Z :=
  match l with
  | [] => Some nCredit
  | o :: l => c ← txout_GetCredit mine_fuel w o; let n := s64 (nCredit + c) in if MoneyRange n then credit_loop mine_fuel w l n else None
  end.
Definition GetCredit (mine_fuel : nat) (w : CWallet) (tx : CTransaction) : option Z := credit_loop mine_fuel w (vout tx) 0.

Definition wtx_GetDebit (mine_fuel : nat) (w : CWallet) (t : CWalletTx) : option Z :=
  match vin (mtx (wt_tx t)) with
  | [] => Some 0
  | _ => if fDebitCached t then Some (nDebitCached t) else GetDebit mine_fuel w (mtx (wt_tx t))
  end.
Definition wtx_IsFromMe (mine_fuel : nat) (w : CWallet) (t : CWalletTx) : option bool := d ← wtx_GetDebit mine_fuel w t; Some (0 <? d).

(** The supporting transactions by hash: of several with one hash the last. *)
Definition prev_map (l : list CMerkleTx) : gmap base_uint CMerkleTx := fold_left (fun m t => <[tx_GetHash (mtx t) := t]> m) l ∅.

(** The inputs' transactions, or [None] where one is missing. *)
Fixpoint prevs_of (m : gmap base_uint CMerkleTx) (l : list CTxIn) : option (list CMerkleTx) :=
  match l with [] => Some [] | i :: l => t ← m !! op_hash (prevout i); ts ← prevs_of m l; Some (t :: ts) end.

(** The work queue of [IsConfirmed]; [None] also where [fuel] turns do not empty it. *)
Fixpoint confirmed_loop (fuel mine_fuel : nat) (e : wallet_env) (w : CWallet) (m : gmap base_uint CMerkleTx) (queue : list CMerkleTx) : option bool :=
  match queue with
  | [] => Some true
  | t :: queue =>
      match fuel with
      | O => None
      | S fuel =>
          if negb (wtx_IsFinal e (mtx t)) then Some false
          else
            d ← GetDepthInMainChain e t;
            if 1 <=? d then confirmed_loop fuel mine_fuel e w m queue
            else
              debit ← GetDebit mine_fuel w (mtx t);
              if negb (0 <? debit) then Some false
              else
                match prevs_of m (vin (mtx t)) with
                | None => Some false
                | Some ts => confirmed_loop fuel mine_fuel e w m (queue ++ ts)
                end
      end
  end.

Definition IsConfirmed (fuel mine_fuel : nat) (e : wallet_env) (w : CWallet) (t : CWalletTx) : option bool :=
  if negb (wtx_IsFinal e (mtx (wt_tx t))) then Some false
  else
    d ← GetDepthInMainChain e (wt_tx t);
    if 1 <=? d then Some true
    else
      mine ← wtx_IsFromMe mine_fuel w t;
      if negb (mine : bool) then Some false else confirmed_loop fuel mine_fuel e w (prev_map (vtxPrev t)) [wt_tx t].

(** ** Balances *)

Fixpoint available_loop (mine_fuel : nat) (w : CWallet) (t : CWalletTx) (i : nat) (l : list CTxOut) (nCredit : Z) : option Z :=
  match l with
  | [] => Some nCredit
  | o :: l =>
      if flag_at (vfSpent t) i then available_loop mine_fuel w t (S i) l nCredit
      else c ← txout_GetCredit mine_fuel w o; let n := s64 (nCredit + c) in if MoneyRange n then available_loop mine_fuel w t (S i) l n else None
  end.
Definition GetAvailableCredit (mine_fuel : nat) (e : wallet_env) (w : CWallet) (t : CWalletTx) : option Z :=
  b ← GetBlocksToMaturity e (wt_tx t);
  if (IsCoinBase (mtx (wt_tx t)) || IsCoinStake (mtx (wt_tx t))) && (0 <? b) then Some 0
  else if fAvailableCreditCached t then Some (nAvailableCreditCached t)
  else available_loop mine_fuel w t 0 (wt_vout t) 0.

Fixpoint balance_loop (fuel mine_fuel : nat) (e : wallet_env) (w : CWallet) (l : list (base_uint * CWalletTx)) (nTotal : Z) : option Z :=
  match l with
  | [] => Some nTotal
  | (_, t) :: l =>
      c ← IsConfirmed fuel mine_fuel e w t;
      if wtx_IsFinal e (mtx (wt_tx t)) && c then n ← GetAvailableCredit mine_fuel e w t; balance_loop fuel mine_fuel e w l (s64 (nTotal + n))
      else balance_loop fuel mine_fuel e w l nTotal
  end.
Definition GetBalance (fuel mine_fuel : nat) (e : wallet_env) (w : CWallet) : option Z := balance_loop fuel mine_fuel e w (entries (mapWallet w)) 0.

Fixpoint reserved_loop (mine_fuel : nat) (w : CWallet) (t : CWalletTx) (i : nat) (l : list CTxOut) (nReserved : Z) : option Z :=
  match l with
  | [] => Some nReserved
  | o :: l =>
      if negb (flag_at (vfSpent t) i) && flag_at (vfEnigmaReserved t) i
      then c ← txout_GetCredit mine_fuel w o; let n := s64 (nReserved + c) in if MoneyRange n then reserved_loop mine_fuel w t (S i) l n else None
      else reserved_loop mine_fuel w t (S i) l nReserved
  end.
Definition GetEnigmaReservedAmount (mine_fuel : nat) (e : wallet_env) (w : CWallet) (t : CWalletTx) : option Z :=
  b ← GetBlocksToMaturity e (wt_tx t);
  if (IsCoinBase (mtx (wt_tx t)) || IsCoinStake (mtx (wt_tx t))) && (0 <? b) then Some 0
  else if fEnigmaReservedCached t then Some (nEnigmaReservedCached t)
  else reserved_loop mine_fuel w t 0 (wt_vout t) 0.

Fixpoint reserved_balance_loop (fuel mine_fuel : nat) (e : wallet_env) (w : CWallet) (l : list (base_uint * CWalletTx)) (nTotal : Z) : option Z :=
  match l with
  | [] => Some nTotal
  | (_, t) :: l =>
      credit ← GetAvailableCredit mine_fuel e w t;
      reserved ← GetEnigmaReservedAmount mine_fuel e w t;
      c ← IsConfirmed fuel mine_fuel e w t;
      reserved_balance_loop fuel mine_fuel e w l (if wtx_IsFinal e (mtx (wt_tx t)) && c && (credit =? reserved) then s64 (nTotal + reserved) else nTotal)
  end.
Definition GetEnigmaReservedBalance (fuel mine_fuel : nat) (e : wallet_env) (w : CWallet) : option Z := reserved_balance_loop fuel mine_fuel e w (entries (mapWallet w)) 0.

Fixpoint unconfirmed_loop (fuel mine_fuel : nat) (e : wallet_env) (w : CWallet) (l : list (base_uint * CWalletTx)) (nTotal : Z) : option Z :=
  match l with
  | [] => Some nTotal
  | (_, t) :: l =>
      c ← IsConfirmed fuel mine_fuel e w t;
      if negb (wtx_IsFinal e (mtx (wt_tx t))) || negb c then n ← GetAvailableCredit mine_fuel e w t; unconfirmed_loop fuel mine_fuel e w l (s64 (nTotal + n))
      else unconfirmed_loop fuel mine_fuel e w l nTotal
  end.
Definition GetUnconfirmedBalance (fuel mine_fuel : nat) (e : wallet_env) (w : CWallet) : option Z := unconfirmed_loop fuel mine_fuel e w (entries (mapWallet w)) 0.

(** The credit of the transactions of a kind that are in the chain and immature. *)
Fixpoint immature_loop (kind : CTransaction -> bool) (mine_fuel : nat) (e : wallet_env) (w : CWallet) (l : list (base_uint * CWalletTx)) (nTotal : Z) : option Z :=
  match l with
  | [] => Some nTotal
  | (_, t) :: l =>
      if kind (mtx (wt_tx t)) then
        b ← GetBlocksToMaturity e (wt_tx t);
        d ← (if 0 <? b then GetDepthInMainChain e (wt_tx t) else Some 0);
        if (0 <? b) && (0 <? d) then n ← GetCredit mine_fuel w (mtx (wt_tx t)); immature_loop kind mine_fuel e w l (s64 (nTotal + n))
        else immature_loop kind mine_fuel e w l nTotal
      else immature_loop kind mine_fuel e w l nTotal
  end.
Definition GetImmatureBalance (mine_fuel : nat) (e : wallet_env) (w : CWallet) : option Z := immature_loop IsCoinBase mine_fuel e w (entries (mapWallet w)) 0.
Definition GetStake (mine_fuel : nat) (e : wallet_env) (w : CWallet) : option Z := immature_loop IsCoinStake mine_fuel e w (entries (mapWallet w)) 0.
Definition GetNewMint (mine_fuel : nat) (e : wallet_env) (w : CWallet) : option Z := immature_loop IsCoinBase mine_fuel e w (entries (mapWallet w)) 0.

(** ** [AvailableCoins] *)

(** The output [co_i] of the transaction with the hash [co_hash], which stands for the pointer to it. *)
Record COutput : Type := mkOutput { co_hash : base_uint; co_tx : CWalletTx; co_i : nat; nDepth : Z }.
Definition coin : Type := base_uint * nat.
Definition co_coin (o : COutput) : coin := (co_hash o, co_i o).
Definition co_value (o : COutput) : option Z := nValue <$> wt_vout (co_tx o) !! co_i o.

Record CCoinControl : Type := mkCoinControl { setSelected : gset COutPoint; destChange : CTxDestination }.
Definition HasSelected (c : CCoinControl) : bool := negb (bool_decide (setSelected c = ∅)).
Definition IsSelected (c : CCoinControl) (hash : base_uint) (n : nat) : bool := bool_decide (mkOutPoint hash (Z.of_nat n) ∈ setSelected c).

Definition may_use (cc : option CCoinControl) (hash : base_uint) (n : nat) : bool :=
  match cc with None => true | Some c => negb (HasSelected c) || IsSelected c hash n end.

(** The loop over the outputs, from [i] on. *)
Fixpoint available_outs (mine_fuel : nat) (w : CWallet) (cc : option CCoinControl) (h : base_uint) (t : CWalletTx) (depth : option Z) (i : nat) (l : list CTxOut) : option (list COutput) :=
  match l with
  | [] => Some []
  | o :: l =>
      mine ← (if negb (flag_at (vfEnigmaReserved t) i) && negb (flag_at (vfSpent t) i) then out_IsMine mine_fuel w o else Some false);
      rest ← available_outs mine_fuel w cc h t depth (S i) l;
      if (mine : bool) && (0 <? nValue o) && may_use cc h i then d ← depth; Some (mkOutput h t i d :: rest) else Some rest
  end.

Fixpoint available_txs (fuel mine_fuel : nat) (e : wallet_env) (w : CWallet) (fOnlyConfirmed : bool) (cc : option CCoinControl) (l : list (base_uint * CWalletTx)) : option (list COutput) :=
  match l with
  | [] => Some []
  | (h, t) :: l =>
      let tx := mtx (wt_tx t) in
      if negb (wtx_IsFinal e tx) then available_txs fuel mine_fuel e w fOnlyConfirmed cc l
      else
        c ← (if fOnlyConfirmed then IsConfirmed fuel mine_fuel e w t else Some true);
        if negb (c : bool) then available_txs fuel mine_fuel e w fOnlyConfirmed cc l
        else
          b ← GetBlocksToMaturity e (wt_tx t);
          if (IsCoinBase tx && (0 <? b)) || (IsCoinStake tx && (0 <? b)) then available_txs fuel mine_fuel e w fOnlyConfirmed cc l
          else
            outs ← available_outs mine_fuel w cc h t (GetDepthInMainChain e (wt_tx t)) 0 (wt_vout t);
            rest ← available_txs fuel mine_fuel e w fOnlyConfirmed cc l;
            Some (outs ++ rest)
  end.
Definition AvailableCoins (fuel mine_fuel : nat) (e : wallet_env) (w : CWallet) (fOnlyConfirmed : bool) (cc : option CCoinControl) : option (list COutput) :=
  available_txs fuel mine_fuel e w fOnlyConfirmed cc (entries (mapWallet w)).
End wallet.
Arguments CWallet : clear implicits.

(** ** [ApproximateBestSubset] *)

(** [C_rand k] is the [k]-th answer of [rand()]. *)
Section subset.
Context (C_rand : nat -> Z).

(** The state of a repetition: [nTotal], [vfIncluded], [fReachedTarget], [nBest] and [vfBest]. *)
Record subset_state : Type := mkSubset { ss_total : Z; vfIncluded : list bool; fReachedTarget : bool; nBest : Z; vfBest : list bool }.

(** One item that is taken in. *)
Definition take_item (nTargetValue : Z) (i : nat) (v : Z) (s : subset_state) : subset_state :=
  let nTotal := s64 (ss_total s + v) in
  let included := <[i := true]> (vfIncluded s) in
  if nTargetValue <=? nTotal then
    let '(best, vf) := if nTotal <? nBest s then (nTotal, included) else (nBest s, vfBest s) in
    mkSubset (s64 (nTotal - v)) (<[i := false]> included) true best vf
  else mkSubset nTotal included (fReachedTarget s) (nBest s) (vfBest s).

(** The loop over the items, from [i] on; [first]: the pass that asks [rand]. *)
Fixpoint pass_loop (first : bool) (nTargetValue : Z) (i : nat) (vs : list Z) (s : subset_state) (k : nat) : subset_state * nat :=
  match vs with
  | [] => (s, k)
  | v :: vs =>
      let '(go, k) := if first then (negb (C_rand k mod 2 =? 0), S k) else (negb (flag_at (vfIncluded s) i), k) in
      pass_loop first nTargetValue (S i) vs (if go then take_item nTargetValue i v s else s) k
  end.

Fixpoint rep_loop (reps : nat) (vValue : list Z) (nTargetValue best : Z) (vf : list bool) (k : nat) : list bool * Z * nat :=
  match reps with
  | O => (vf, best, k)
  | S reps =>
      if best =? nTargetValue then (vf, best, k)
      else
        let s := mkSubset 0 (replicate (length vValue) false) false best vf in
        let '(s, k) := pass_loop true nTargetValue 0 vValue s k in
        let '(s, k) := if fReachedTarget s then (s, k) else pass_loop false nTargetValue 0 vValue s k in
        rep_loop reps vValue nTargetValue (nBest s) (vfBest s) k
  end.

Definition ApproximateBestSubset (vValue : list Z) (nTotalLower nTargetValue : Z) (iterations k : nat) : list bool * Z * nat :=
  rep_loop iterations vValue nTargetValue nTotalLower (replicate (length vValue) true) k.
End subset.

(** ** [SelectCoins] *)

Section selection.
Context `{CR : Crypto} `{ECI : EC} {K : Type} `{KS : !CKeyStore K}.
Context (RAND_uint64 : nat -> Z) (tries : nat) (C_rand : nat -> Z).

(** [std::random_shuffle]: every element from the second on changes places with one up to itself. *)
Fixpoint shuffle_loop {A} (ixs : list nat) (l : list A) (k : nat) : option (list A * nat) :=
  match ixs with
  | [] => Some (l, k)
  | i :: ixs =>
      '(r, k) ← Util.GetRandInt RAND_uint64 tries (Z.of_nat i + 1) k;
      x ← l !! i;
      y ← l !! Z.to_nat r;
      shuffle_loop ixs (<[i := y]> (<[Z.to_nat r := x]> l)) k
  end.
Definition random_shuffle {A} (l : list A) (k : nat) : option (list A * nat) := shuffle_loop (seq 1 (length l - 1)) l k.

(** A coin with its value. *)
Definition valued : Type := Z * coin.

(** The loop of [SelectCoinsMinConf]: a coin of just the target, or [vValue], [nTotalLower] and [coinLowestLarger]. *)
Fixpoint sort_coins (mine_fuel : nat) (w : CWallet K) (nTargetValue nSpendTime nConfMine nConfTheirs : Z) (l : list COutput) (vValue : list valued) (nTotalLower : Z) (larger : option valued)
    : option (valued + list valued * Z * option valued) :=
  match l with
  | [] => Some (inr (vValue, nTotalLower, larger))
  | o :: l =>
      let recur := sort_coins mine_fuel w nTargetValue nSpendTime nConfMine nConfTheirs l in
      me ← wtx_IsFromMe mine_fuel w (co_tx o);
      if nDepth o <? (if (me : bool) then nConfMine else nConfTheirs) then recur vValue nTotalLower larger
      else if nSpendTime <? tx_nTime (mtx (wt_tx (co_tx o))) then recur vValue nTotalLower larger
      else
        n ← co_value o;
        let c := (n, co_coin o) in
        if n =? nTargetValue then Some (inl c)
        else if n <? s64 (nTargetValue + CENT) then recur (vValue ++ [c]) (s64 (nTotalLower + n)) larger
        else if n <? match larger with Some (v, _) => v | None => 2 ^ 63 - 1 end then recur vValue nTotalLower (Some c)
        else recur vValue nTotalLower larger
  end.

Definition value_ge (a b : valued) : Prop := b.1 <= a.1.
#[export] Instance value_ge_dec : RelDecision value_ge := fun a b => Z_le_dec b.1 a.1.

(** [setCoinsRet.insert] and [nValueRet +=] for the coins of [l]. *)
Definition put_coins (l : list valued) (st : gset coin * Z) : gset coin * Z := fold_left (fun '(s, v) c => ({[c.2]} ∪ s, s64 (v + c.1))) l st.

(** The coins that [vf] marks. *)
Fixpoint marked {A} (vf : list bool) (l : list A) : list A :=
  match vf, l with b :: vf, x :: l => if b then x :: marked vf l else marked vf l | _, _ => [] end.

Definition SelectCoinsMinConf (mine_fuel : nat) (w : CWallet K) (nTargetValue nSpendTime nConfMine nConfTheirs : Z) (vCoins : list COutput) (k kr : nat)
    : option (bool * (gset coin * Z) * nat * nat) :=
  '(vCoins, k) ← random_shuffle vCoins k;
  r ← sort_coins mine_fuel w nTargetValue nSpendTime nConfMine nConfTheirs vCoins [] 0 None;
  match r with
  | inl c => Some (true, put_coins [c] (∅, 0), k, kr)
  | inr (vValue, nTotalLower, larger) =>
      if nTotalLower =? nTargetValue then Some (true, put_coins vValue (∅, 0), k, kr)
      else if nTotalLower <? nTargetValue then
        match larger with None => Some (false, (∅, 0), k, kr) | Some c => Some (true, put_coins [c] (∅, 0), k, kr) end
      else
        let vValue := merge_sort value_ge vValue in
        let '(vf, best, kr) := ApproximateBestSubset C_rand (map fst vValue) nTotalLower nTargetValue 1000 kr in
        let '(vf, best, kr) :=
          if negb (best =? nTargetValue) && (s64 (nTargetValue + CENT) <=? nTotalLower)
          then ApproximateBestSubset C_rand (map fst vValue) nTotalLower (s64 (nTargetValue + CENT)) 1000 kr else (vf, best, kr) in
        match larger with
        | Some c =>
            if (negb (best =? nTargetValue) && (best <? s64 (nTargetValue + CENT))) || (c.1 <=? best) then Some (true, put_coins [c] (∅, 0), k, kr)
            else Some (true, put_coins (marked vf vValue) (∅, 0), k, kr)
        | None => Some (true, put_coins (marked vf vValue) (∅, 0), k, kr)
        end
  end.

Fixpoint put_outputs (l : list COutput) (st : gset coin * Z) : option (gset coin * Z) :=
  match l with [] => Some st | o :: l => n ← co_value o; put_outputs l ({[co_coin o]} ∪ st.1, s64 (st.2 + n)) end.

(** [st]: what [setCoinsRet] and [nValueRet] hold; only the chosen outputs of the coin control are added to it. *)
Definition SelectCoins (fuel mine_fuel : nat) (e : wallet_env) (w : CWallet K) (nTargetValue nSpendTime : Z) (st : gset coin * Z) (cc : option CCoinControl) (k kr : nat)
    : option (bool * (gset coin * Z) * nat * nat) :=
  vCoins ← AvailableCoins fuel mine_fuel e w true cc;
  if match cc with Some c => HasSelected c | None => false end then
    st ← put_outputs vCoins st;
    Some (nTargetValue <=? st.2, st, k, kr)
  else
    '(ok, st, k, kr) ← SelectCoinsMinConf mine_fuel w nTargetValue nSpendTime 1 6 vCoins k kr;
    if (ok : bool) then Some (ok, st, k, kr)
    else
      '(ok, st, k, kr) ← SelectCoinsMinConf mine_fuel w nTargetValue nSpendTime 1 1 vCoins k kr;
      if (ok : bool) then Some (ok, st, k, kr) else SelectCoinsMinConf mine_fuel w nTargetValue nSpendTime 0 1 vCoins k kr.
End selection.

(** ** The best subset *)

Lemma total_marked_nonneg vf l : Forall (fun v => 0 <= v) l -> 0 <= total (marked vf l) <= total l.
Proof.
  intros Hl. revert vf. induction Hl as [|v l Hv Hl IH]; intros vf; [destruct vf as [|[] ?]; cbn; lia|]. rewrite total_cons. destruct vf as [|[] vf]; cbn [marked].
  - specialize (IH []). cbn [marked] in IH. destruct l; cbn in *; lia.
  - rewrite total_cons. specialize (IH vf). lia.
  - specialize (IH vf). lia.
Qed.

Lemma total_marked_insert vf l i v : vf !! i = Some false -> l !! i = Some v -> total (marked (<[i := true]> vf) l) = total (marked vf l) + v.
Proof.
  revert vf i. induction l as [|x l IH]; intros [|b vf] [|i] Ef El; try done.
  - injection Ef as ->. injection El as ->. change (<[0%nat := true]> (false :: vf)) with (true :: vf). cbn [marked]. rewrite total_cons. lia.
  - change (<[S i := true]> (b :: vf)) with (b :: <[i := true]> vf). cbn [marked]. specialize (IH vf i Ef El). destruct b; rewrite ?total_cons; lia.
Qed.

Lemma marked_all {A} (l : list A) : marked (replicate (length l) true) l = l.
Proof. induction l as [|x l IH]; [done|]. cbn. by rewrite IH. Qed.

Lemma marked_none {A} (l : list A) n : marked (replicate n false) l = [].
Proof. revert n. induction l as [|x l IH]; intros [|n]; try done. apply IH. Qed.

Section best_subset.
Context (C_rand : nat -> Z) (vs : list Z) (target : Z).
Context (Hvs : Forall (fun v => 0 <= v) vs) (Hsum : total vs < 2 ^ 63).

(** What is included adds up to the total, and the best found reaches the target. *)
Record subset_inv (s : subset_state) : Prop := {
  si_len : length (vfIncluded s) = length vs;
  si_total : ss_total s = total (marked (vfIncluded s) vs);
  si_blen : length (vfBest s) = length vs;
  si_best : nBest s = total (marked (vfBest s) vs);
  si_reach : target <= nBest s
}.

Lemma take_item_ok i v s : subset_inv s -> vs !! i = Some v -> vfIncluded s !! i = Some false ->
  subset_inv (take_item target i v s) /\ forall j, j <> i -> vfIncluded (take_item target i v s) !! j = vfIncluded s !! j.
Proof.
  intros [] Ev Ef. unfold take_item. pose proof (total_marked_insert _ _ _ _ Ef Ev) as Hm. pose proof (total_marked_nonneg (<[i := true]> (vfIncluded s)) vs Hvs) as Hb.
  pose proof (total_marked_nonneg (vfIncluded s) vs Hvs) as Hb0. rewrite (swrap_id 64 (ss_total s + v)) by lia. rewrite si_total0 in *.
  destruct (Z.leb_spec target (total (marked (vfIncluded s) vs) + v)) as [Ht|Ht].
  - rewrite list_insert_insert_eq, (list_insert_id (vfIncluded s) i false) by done. rewrite swrap_id by lia. destruct (Z.ltb_spec (total (marked (vfIncluded s) vs) + v) (nBest s)); (split; [split; cbn [ss_total vfIncluded vfBest nBest]; rewrite ?length_insert; (done || lia)|done]).
  - split; [split; cbn [ss_total vfIncluded vfBest nBest]; rewrite ?length_insert; (done || lia)|]. intros j Hj. cbn. by rewrite list_lookup_insert_ne.
Qed.

Lemma pass_loop_ok first rest : forall i s k, drop i vs = rest -> subset_inv s -> (first = true -> forall j, (i <= j < length vs)%nat -> vfIncluded s !! j = Some false) ->
  subset_inv (fst (pass_loop C_rand first target i rest s k)).
Proof.
  induction rest as [|v rest IH]; intros i s k Hd Hs Hf; cbn [pass_loop]; [done|].
  assert (Ev : vs !! i = Some v) by (rewrite <- (Nat.add_0_r i), <- lookup_drop, Hd; done). pose proof (lookup_lt_Some _ _ _ Ev) as Hi.
  assert (Hd' : drop (S i) vs = rest) by (replace (S i) with (i + 1)%nat by lia; rewrite <- drop_drop, Hd; done).
  set (go := if first then _ else _). destruct go as [b k'] eqn:Eg. destruct b; [|apply IH; [done|done|intros E j Hj; apply Hf; [done|lia]]].
  assert (Ef : vfIncluded s !! i = Some false).
  { destruct first; [apply Hf; [done|lia]|]. unfold go in Eg. injection Eg as Eg _. apply negb_true_iff in Eg. unfold flag_at in Eg.
    destruct (lookup_lt_is_Some_2 (vfIncluded s) i) as [b Eb]; [rewrite (si_len _ Hs); done|]. by rewrite (nth_lookup_Some _ _ _ _ Eb) in Eg; subst b. }
  destruct (take_item_ok i v s Hs Ev Ef) as [Hs' Hother]. apply IH; [done|done|]. intros E j Hj. rewrite Hother by lia. apply Hf; [done|lia].
Qed.

Lemma rep_loop_ok reps : forall best vf k, length vf = length vs -> best = total (marked vf vs) -> target <= best ->
  let '(vf', best', _) := rep_loop C_rand reps vs target best vf k in length vf' = length vs /\ best' = total (marked vf' vs) /\ target <= best'.
Proof.
  induction reps as [|reps IH]; intros best vf k Hl Hb Ht; cbn [rep_loop]; [done|]. destruct (best =? target); [done|].
  set (s0 := mkSubset 0 _ false best vf). assert (H0 : subset_inv s0) by (split; cbn; try done; [apply length_replicate|by rewrite marked_none]).
  pose proof (pass_loop_ok true vs 0 s0 k eq_refl H0) as H1. destruct (pass_loop C_rand true target 0 vs s0 k) as [s1 k1]. cbn [fst] in H1.
  assert (Hs1 : subset_inv s1) by (apply H1; intros _ j Hj; cbn; apply lookup_replicate; lia).
  destruct (fReachedTarget s1); [by apply IH; apply Hs1|]. pose proof (pass_loop_ok false vs 0 s1 k1 eq_refl Hs1) as H2. destruct (pass_loop C_rand false target 0 vs s1 k1) as [s2 k2].
  cbn [fst] in H2. apply IH; by apply H2.
Qed.

Lemma best_subset_ok iterations k : target <= total vs ->
  let '(vf, best, _) := ApproximateBestSubset C_rand vs (total vs) target iterations k in length vf = length vs /\ best = total (marked vf vs) /\ target <= best.
Proof. intros Ht. apply rep_loop_ok; [apply length_replicate|by rewrite marked_all|done]. Qed.
End best_subset.

(** ** Shuffling and collecting *)

Lemma insert_trade {A} (l : list A) j x y : l !! j = Some y -> y :: <[j := x]> l ≡ₚ x :: l.
Proof.
  revert j. induction l as [|z l IH]; intros [|j] E; [done..| |].
  - injection E as ->. change (<[0%nat := x]> (y :: l)) with (x :: l). apply perm_swap.
  - change (<[S j := x]> (z :: l)) with (z :: <[j := x]> l). etrans; [apply perm_swap|]. rewrite (IH j E). apply perm_swap.
Qed.

Lemma exchange_perm {A} (l : list A) i j x y : l !! i = Some x -> l !! j = Some y -> <[i := y]> (<[j := x]> l) ≡ₚ l.
Proof.
  intros Ei Ej. apply (Permutation_cons_inv (a := x)). rewrite <- (insert_trade l j x y Ej). apply insert_trade.
  destruct (decide (i = j)) as [->|Hij]; [|by rewrite list_lookup_insert_ne]. apply list_lookup_insert_eq. by eapply lookup_lt_Some.
Qed.

Lemma total_perm l l' : l ≡ₚ l' -> total l = total l'.
Proof. intros H. induction H; rewrite ?total_cons in *; lia. Qed.

Lemma put_coins_ok l : forall (st : gset coin * Z), Forall (fun c => 0 <= c.1) l -> 0 <= st.2 -> st.2 + total (map fst l) < 2 ^ 63 ->
  put_coins l st = (list_to_set (map snd l) ∪ st.1, st.2 + total (map fst l)).
Proof.
  unfold put_coins. induction l as [|c l IH]; intros [s v] Hl Hv Hs; cbn [fold_left map list_to_set]; [cbn; f_equal; [set_solver|lia]|].
  apply Forall_cons in Hl as [Hc Hl]. cbn [map fst snd] in *. rewrite total_cons in *. assert (0 <= total (map fst l)).
  { clear -Hl. induction Hl as [|c l Hc Hl IH]; [done|]. cbn [map]. rewrite total_cons. lia. }
  rewrite swrap_id by lia. rewrite IH by (cbn; (done || lia)). cbn [fst snd]. f_equal; [set_solver|lia].
Qed.

Section select.
Context `{CR : Crypto} `{ECI : EC} {K : Type} `{KS : !CKeyStore K}.
Context (RAND_uint64 : nat -> Z) (tries : nat) (C_rand : nat -> Z) (HRA : rand_ok RAND_uint64 tries).

Lemma shuffle_loop_ok {A} ixs : forall (l : list A) k, (forall i, i ∈ ixs -> (i < length l)%nat) -> len l < 2 ^ 31 ->
  exists l' k', shuffle_loop RAND_uint64 tries ixs l k = Some (l', k') /\ l' ≡ₚ l.
Proof.
  induction ixs as [|i ixs IH]; intros l k Hi Hl; cbn [shuffle_loop]; [by exists l, k|]. assert (Hil : (i < length l)%nat) by (apply Hi; by left).
  destruct (GetRandInt_spec _ _ HRA (Z.of_nat i + 1) k) as (r & k1 & -> & Hr); [unfold len in *; lia|]. cbn [mbind option_bind].
  destruct (lookup_lt_is_Some_2 l i Hil) as [x Ex]. destruct (lookup_lt_is_Some_2 l (Z.to_nat r)) as [y Ey]; [lia|]. rewrite Ex, Ey. cbn [mbind option_bind].
  pose proof (exchange_perm l i (Z.to_nat r) x y Ex Ey) as Hp. destruct (IH (<[i := y]> (<[Z.to_nat r := x]> l)) k1) as (l' & k' & E & Hp').
  - intros j Hj. rewrite Hp. apply Hi. by right.
  - unfold len. by rewrite Hp.
  - exists l', k'. split; [done|]. by etrans.
Qed.

Lemma random_shuffle_ok {A} (l : list A) k : len l < 2 ^ 31 -> exists l' k', random_shuffle RAND_uint64 tries l k = Some (l', k') /\ l' ≡ₚ l.
Proof. intros Hl. apply shuffle_loop_ok; [|done]. intros i Hi. apply elem_of_seq in Hi. lia. Qed.

(** ** [SelectCoinsMinConf] *)

Context (mine_fuel : nat) (w : CWallet K).

Definition co_val (o : COutput) : Z := default 0 (co_value o).
Definition co_valued (o : COutput) : valued := (co_val o, co_coin o).

(** Deep enough, and not after the time of the spending transaction. *)
Definition eligible (nSpendTime nConfMine nConfTheirs : Z) (o : COutput) : bool :=
  match wtx_IsFromMe mine_fuel w (co_tx o) with
  | Some me => negb (nDepth o <? (if me then nConfMine else nConfTheirs)) && negb (nSpendTime <? tx_nTime (mtx (wt_tx (co_tx o))))
  | None => false
  end.

(** Coins that are there, once each, and of a value each and together. *)
Record coins_ok (l : list COutput) : Prop := {
  ck_nodup : NoDup (map co_coin l);
  ck_me : forall o, o ∈ l -> is_Some (wtx_IsFromMe mine_fuel w (co_tx o));
  ck_value : forall o, o ∈ l -> exists n, co_value o = Some n /\ 0 < n;
  ck_total : total (map co_val l) < 2 ^ 62;
  ck_length : len l < 2 ^ 31
}.

Context (target spend cm ct : Z).
Local Abbreviation elig := (eligible spend cm ct).

(** What the loop over the coins leaves. *)
Definition small (o : COutput) : bool := elig o && (co_val o <? target + CENT).
Definition large (o : COutput) : bool := elig o && negb (co_val o <? target + CENT).

(** The result of the loop over [l], begun with [vV], [tl] and [larger]. *)
Definition sort_outcome (l : list COutput) (vV : list valued) (tl : Z) (larger : option valued) (r : option (valued + list valued * Z * option valued)) : Prop :=
  (exists o, o ∈ l /\ elig o = true /\ co_val o = target /\ r = Some (inl (co_valued o))) \/
  (exists larger', r = Some (inr (vV ++ map co_valued (List.filter small l), tl + total (map co_val (List.filter small l)), larger')) /\
    (forall o, o ∈ l -> elig o = true -> co_val o <> target) /\
    (larger' = None -> larger = None /\ forall o, o ∈ l -> large o = false) /\
    (forall c, larger' = Some c -> larger = Some c \/ exists o, o ∈ l /\ large o = true /\ c = co_valued o)).

Lemma sort_outcome_cons o l vV tl larger vV' tl' larger' r : sort_outcome l vV' tl' larger' r -> (elig o = true -> co_val o <> target) ->
  vV' = vV ++ (if small o then [co_valued o] else []) -> tl' = tl + (if small o then co_val o else 0) ->
  larger' = larger /\ (large o = true -> larger <> None) \/ larger' = Some (co_valued o) /\ large o = true -> sort_outcome (o :: l) vV tl larger r.
Proof.
  intros [(o0 & Ho0 & H)|(lg & -> & H1 & H2 & H3)] Hne -> -> HL; [left; exists o0; split; [by right|done]|right]. exists lg. split_and!.
  - cbn [List.filter]. destruct (small o); cbn [map]; rewrite ?app_nil_r, ?Z.add_0_r, <- ?app_assoc, ?total_cons, ?Z.add_assoc; done.
  - intros o0 Ho0 He. apply elem_of_cons in Ho0 as [->|Ho0]; [by apply Hne|by apply H1].
  - intros En. destruct (H2 En) as [Hn Hall]. destruct HL as [[-> Hlg]|[-> _]]; [|done]. split; [done|]. intros o0 Ho0. apply elem_of_cons in Ho0 as [->|Ho0]; [|by apply Hall].
    destruct (large o) eqn:El; [by destruct (Hlg eq_refl)|done].
  - intros c Ec. destruct (H3 c Ec) as [E|(o0 & Ho0 & H)]; [|right; exists o0; split; [by right|done]]. destruct HL as [[-> _]|[-> Hl]]; [by left|right]. injection E as <-. exists o. split; [by left|done].
Qed.

Lemma total_vals_nonneg l : (forall o, o ∈ l -> exists n, co_value o = Some n /\ 0 < n) -> Forall (fun v => 0 <= v) (map co_val l).
Proof. intros Hval. apply Forall_forall. intros v (o & -> & Ho)%list_elem_of_fmap. destruct (Hval o Ho) as (n & En & Hn). unfold co_val. rewrite En. cbn. lia. Qed.

Lemma sort_coins_ok l : forall vV tl larger, - 2 ^ 63 <= target < 2 ^ 63 - CENT -> (forall o, o ∈ l -> is_Some (wtx_IsFromMe mine_fuel w (co_tx o))) -> (forall o, o ∈ l -> exists n, co_value o = Some n /\ 0 < n) ->
  0 <= tl -> tl + total (map co_val l) < 2 ^ 62 -> sort_outcome l vV tl larger (sort_coins mine_fuel w target spend cm ct l vV tl larger).
Proof.
  intros vV tl larger Ht. revert vV tl larger. induction l as [|o l IH]; intros vV tl larger Hme Hval H0 Hs.
  { right. exists larger. cbn. rewrite app_nil_r, Z.add_0_r. split_and!; [done|intros ? H; by apply elem_of_nil in H| |by left]. intros ->. split; [done|]. intros ? H; by apply elem_of_nil in H. }
  destruct (Hme o) as [me Eme]; [by left|]. destruct (Hval o) as (n & En & Hn); [by left|]. assert (Ev : co_val o = n) by (unfold co_val; by rewrite En).
  cbn [map] in Hs. rewrite total_cons, Ev in Hs. assert (Hval' : forall o', o' ∈ l -> exists n, co_value o' = Some n /\ 0 < n) by (intros o' Ho'; apply Hval; by right).
  assert (Hpos : 0 <= total (map co_val l)) by (pose proof (total_marked_nonneg [] _ (total_vals_nonneg l Hval')); lia).
  specialize (fun vV tl larger H1 H2 => IH vV tl larger (fun o' Ho' => Hme o' (list_elem_of_further o' o l Ho')) Hval' H1 H2).
  cbn [sort_coins]. rewrite Eme. cbn [mbind option_bind].
  assert (Hel : elig o = negb (nDepth o <? (if me then cm else ct)) && negb (spend <? tx_nTime (mtx (wt_tx (co_tx o))))) by (unfold eligible; by rewrite Eme).
  assert (Hskip : elig o = false -> sort_outcome (o :: l) vV tl larger (sort_coins mine_fuel w target spend cm ct l vV tl larger)).
  { intros Hne. apply (sort_outcome_cons o l vV tl larger vV tl larger); [apply IH; lia|by rewrite Hne|unfold small; rewrite Hne; cbn; by rewrite app_nil_r|unfold small; rewrite Hne; cbn; lia|].
    left. split; [done|]. unfold large. by rewrite Hne. }
  destruct (nDepth o <? (if me then cm else ct)) eqn:Ed; [apply Hskip; by rewrite Hel|]. destruct (spend <? _) eqn:Es; [apply Hskip; by rewrite Hel|].
  cbn [negb andb] in Hel. clear Hskip. rewrite En. cbn [mbind option_bind]. assert (HC : CENT = 10000) by reflexivity.
  rewrite (swrap_id 64 (target + CENT)) by lia. replace (n, co_coin o) with (co_valued o) by (unfold co_valued; by rewrite Ev). destruct (Z.eqb_spec n target) as [E|Hnt].
  { left. exists o. split; [by left|]. split; [done|]. split; [lia|done]. }
  assert (Hsm : small o = (n <? target + CENT)) by (unfold small; by rewrite Hel, Ev). assert (Hlg : large o = negb (n <? target + CENT)) by (unfold large; by rewrite Hel, Ev).
  destruct (n <? target + CENT) eqn:Elt.
  - rewrite swrap_id by lia. eapply (sort_outcome_cons o l vV tl larger); [apply IH; lia|lia|by rewrite Hsm|rewrite Hsm; lia|left]. by rewrite Hlg.
  - destruct (n <? match larger with Some (v, _) => v | None => _ end) eqn:Elg; eapply (sort_outcome_cons o l vV tl larger); try (apply IH; lia); try lia; try (rewrite Hsm; by rewrite ?app_nil_r, ?Z.add_0_r); [by right|left].
    split; [done|]. intros _ ->. lia.
Qed.

Lemma marked_map {A B} (f : A -> B) vf l : marked vf (map f l) = map f (marked vf l).
Proof. revert l. induction vf as [|[] vf IH]; intros [|x l]; try done; cbn [marked map]; [f_equal; apply IH|apply IH]. Qed.

Lemma marked_sublist {A} vf (l : list A) : sublist (marked vf l) l.
Proof. revert l. induction vf as [|[] vf IH]; intros [|x l]; cbn [marked]; try apply sublist_nil_l; constructor; apply IH. Qed.

Lemma filter_sublist {A} (f g : A -> bool) l : (forall x, f x = true -> g x = true) -> sublist (List.filter f l) (List.filter g l).
Proof. intros H. induction l as [|x l IH]; [done|]. cbn. destruct (f x) eqn:E; [rewrite (H x E); by constructor|]. destruct (g x); [by constructor|done]. Qed.

Lemma List_filter_perm {A} (f : A -> bool) l l' : l ≡ₚ l' -> List.filter f l ≡ₚ List.filter f l'.
Proof.
  intros H. induction H; cbn; [done|destruct (f x); [by constructor|done]| |by etrans]. destruct (f x), (f y); try done. apply perm_swap.
Qed.

Lemma valued_values (l : list COutput) : map fst (map co_valued l) = map co_val l.
Proof. by rewrite map_map. Qed.
Lemma valued_coins (l : list COutput) : map snd (map co_valued l) = map co_coin l.
Proof. by rewrite map_map. Qed.

(** A sub-multiset of the coins is worth no more than all of them. *)
Lemma submseteq_total (sel l : list COutput) : sel ⊆+ l -> (forall o, o ∈ l -> exists n, co_value o = Some n /\ 0 < n) -> total (map co_val sel) <= total (map co_val l).
Proof.
  intros (rest & Hp)%submseteq_Permutation Hval. rewrite (total_perm _ _ (Permutation_map co_val Hp)), map_app, total_app.
  assert (Hrest : forall o, o ∈ rest -> exists n, co_value o = Some n /\ 0 < n) by (intros o Ho; apply Hval; rewrite Hp; apply elem_of_app; by right).
  pose proof (total_marked_nonneg [] _ (total_vals_nonneg rest Hrest)). lia.
Qed.

Lemma put_selected l sel : coins_ok l -> sel ⊆+ l -> put_coins (map co_valued sel) (∅, 0) = (list_to_set (map co_coin sel), total (map co_val sel)).
Proof.
  intros [] Hsub. assert (Hval : forall o, o ∈ sel -> exists n, co_value o = Some n /\ 0 < n) by (intros o Ho; apply ck_value0; by eapply elem_of_submseteq).
  pose proof (submseteq_total sel l Hsub ck_value0). rewrite put_coins_ok; cbn [fst snd]; rewrite ?valued_values, ?valued_coins; [|  |lia|lia].
  - f_equal. by rewrite union_empty_r_L.
  - apply Forall_forall. intros c (o & -> & Ho)%list_elem_of_fmap. destruct (Hval o Ho) as (n & En & Hn). cbn. unfold co_val. rewrite En. cbn. lia.
Qed.

Lemma coins_ok_perm l l' : l' ≡ₚ l -> coins_ok l -> coins_ok l'.
Proof.
  intros Hp []. split; [by rewrite Hp|intros o Ho; apply ck_me0; by rewrite <- Hp|intros o Ho; apply ck_value0; by rewrite <- Hp| |unfold len in *; by rewrite Hp].
  by rewrite (total_perm _ _ (Permutation_map co_val Hp)).
Qed.

(** The coins [sel] are taken from the eligible ones of [l], each at most once; they
    reach the target, or there are none and all the eligible ones do not reach it. *)
Definition selection_ok (l : list COutput) (ok : bool) (sel : list COutput) : Prop :=
  sel ⊆+ List.filter elig l /\ NoDup (map co_coin sel) /\
  (if ok then target <= total (map co_val sel) else sel = [] /\ total (map co_val (List.filter elig l)) < target).

Lemma filter_submseteq {A} (f : A -> bool) l : List.filter f l ⊆+ l.
Proof. induction l as [|x l IH]; [done|]. cbn. destruct (f x); [by apply submseteq_skip|by apply submseteq_cons]. Qed.

Lemma selection_true l sel : coins_ok l -> sel ⊆+ List.filter elig l -> target <= total (map co_val sel) -> selection_ok l true sel.
Proof.
  intros Hl Hs Ht. split; [done|]. split; [|done]. assert (Hsl : sel ⊆+ l) by (etrans; [exact Hs|apply filter_submseteq]).
  apply submseteq_Permutation in Hsl as [rest Hp]. pose proof (ck_nodup _ Hl) as Hn. rewrite (Permutation_map co_coin Hp), map_app in Hn. by apply NoDup_app in Hn as [Hn _].
Qed.

Lemma one_eligible l o : o ∈ l -> elig o = true -> [o] ⊆+ List.filter elig l.
Proof. intros Ho He. apply singleton_submseteq_l, list_elem_of_In, filter_In. split; [by apply list_elem_of_In|done]. Qed.

Lemma small_eligible l : List.filter small l ⊆+ List.filter elig l.
Proof. apply sublist_submseteq, filter_sublist. intros o Ho. unfold small in Ho. by apply andb_true_iff in Ho as [Ho _]. Qed.

(** Where no coin is large, the small ones are all the eligible ones. *)
Lemma small_all l : (forall o, o ∈ l -> large o = false) -> List.filter small l = List.filter elig l.
Proof.
  intros H. apply filter_ext_in. intros o Ho%list_elem_of_In. specialize (H o Ho). unfold small, large in *. destruct (elig o), (co_val o <? target + CENT); done.
Qed.

(** The subsets that the search finds are selections. *)
Lemma best_subset_selection l L t kr : coins_ok l -> L ⊆+ List.filter elig l -> t <= total (map co_val L) -> target <= t ->
  let '(vf, best, _) := ApproximateBestSubset C_rand (map co_val L) (total (map co_val L)) t 1000 kr in
  selection_ok l true (marked vf L) /\ best = total (map co_val (marked vf L)).
Proof.
  intros Hl HL Ht Htt. assert (HLl : L ⊆+ l) by (etrans; [exact HL|apply filter_submseteq]).
  assert (Hval : forall o, o ∈ L -> exists n, co_value o = Some n /\ 0 < n) by (intros o Ho; apply (ck_value _ Hl); by eapply elem_of_submseteq).
  pose proof (submseteq_total L l HLl (ck_value _ Hl)) as Hle. pose proof (ck_total _ Hl).
  pose proof (best_subset_ok C_rand (map co_val L) t (total_vals_nonneg L Hval) ltac:(lia) 1000 kr Ht) as HB. destruct (ApproximateBestSubset _ _ _ _ _ _) as [[vf best] kr']. destruct HB as (_ & -> & HB).
  rewrite marked_map in *. split; [|done]. apply selection_true; [done| |lia]. etrans; [apply sublist_submseteq, marked_sublist|done].
Qed.

(** An answer of [SelectCoinsMinConf]: a selection, its coins and their value. *)
Definition selected (l : list COutput) (r : option (bool * (gset coin * Z) * nat * nat)) : Prop :=
  exists ok sel k kr, r = Some (ok, (list_to_set (map co_coin sel), total (map co_val sel)), k, kr) /\ selection_ok l ok sel.

Lemma selected_put l sel k kr : coins_ok l -> selection_ok l true sel -> selected l (Some (true, put_coins (map co_valued sel) (∅, 0), k, kr)).
Proof. intros Hl HS. exists true, sel, k, kr. split; [|done]. rewrite (put_selected l); [done|done|]. etrans; [apply HS|apply filter_submseteq]. Qed.

Lemma selected_perm l l' r : l ≡ₚ l' -> selected l r -> selected l' r.
Proof.
  intros Hp (ok & sel & k & kr & -> & H1 & H2 & H3). exists ok, sel, k, kr. split; [done|]. pose proof (List_filter_perm elig _ _ Hp) as Hpf. split; [by rewrite <- Hpf|]. split; [done|].
  destruct ok; [done|]. by rewrite <- (total_perm _ _ (Permutation_map co_val Hpf)).
Qed.

Lemma selected_one l o k kr : coins_ok l -> o ∈ l -> elig o = true -> target <= co_val o -> selected l (Some (true, put_coins [co_valued o] (∅, 0), k, kr)).
Proof. intros Hl Ho He Ht. apply (selected_put l [o]); [done|]. apply selection_true; [done|by apply one_eligible|cbn; lia]. Qed.

(** The coins at or under the target and [CENT]: by value, with the result of the search. *)
Lemma selected_subset l L lg k kr : coins_ok l -> - 2 ^ 63 <= target < 2 ^ 63 - CENT -> L ⊆+ List.filter elig l -> target <= total (map co_val L) ->
  (forall c k kr, lg = Some c -> selected l (Some (true, put_coins [c] (∅, 0), k, kr))) ->
  let '(vf, best, kr) := ApproximateBestSubset C_rand (map co_val L) (total (map co_val L)) target 1000 kr in
  let '(vf, best, kr) := if negb (best =? target) && (s64 (target + CENT) <=? total (map co_val L)) then ApproximateBestSubset C_rand (map co_val L) (total (map co_val L)) (s64 (target + CENT)) 1000 kr else (vf, best, kr) in
  selected l match lg with
    | Some c => if (negb (best =? target) && (best <? s64 (target + CENT))) || (c.1 <=? best) then Some (true, put_coins [c] (∅, 0), k, kr) else Some (true, put_coins (marked vf (map co_valued L)) (∅, 0), k, kr)
    | None => Some (true, put_coins (marked vf (map co_valued L)) (∅, 0), k, kr)
    end.
Proof.
  intros Hl Ht HL Hge Hlg. assert (HC : CENT = 10000) by reflexivity. rewrite (swrap_id 64 (target + CENT)) by lia.
  assert (Hend : forall vf best kr, selection_ok l true (marked vf L) -> selected l match lg with
    | Some c => if (negb (best =? target) && (best <? target + CENT)) || (c.1 <=? best) then Some (true, put_coins [c] (∅, 0), k, kr) else Some (true, put_coins (marked vf (map co_valued L)) (∅, 0), k, kr)
    | None => Some (true, put_coins (marked vf (map co_valued L)) (∅, 0), k, kr) end).
  { intros vf best kr' HS. rewrite marked_map. destruct lg as [c|]; [|by apply selected_put]. destruct (_ || _); [by apply Hlg|by apply selected_put]. }
  pose proof (best_subset_selection l L target kr Hl HL Hge ltac:(lia)) as H1. destruct (ApproximateBestSubset _ _ _ target _ _) as [[vf best] kr1]. destruct H1 as [H1 _].
  destruct (_ && _) eqn:E; [|by apply Hend]. apply andb_true_iff in E as [_ E%Z.leb_le].
  pose proof (best_subset_selection l L (target + CENT) kr1 Hl HL E ltac:(lia)) as H2. destruct (ApproximateBestSubset _ _ _ (target + CENT) _ _) as [[vf2 best2] kr2]. destruct H2 as [H2 _]. by apply Hend.
Qed.

Lemma min_conf_ok l k kr : coins_ok l -> - 2 ^ 63 <= target < 2 ^ 63 - CENT -> selected l (SelectCoinsMinConf RAND_uint64 tries C_rand mine_fuel w target spend cm ct l k kr).
Proof.
  intros Hl Ht. unfold SelectCoinsMinConf. destruct (random_shuffle_ok l k (ck_length _ Hl)) as (l1 & k1 & -> & Hp). cbn [mbind option_bind].
  pose proof (coins_ok_perm _ _ Hp Hl) as Hl1. apply (selected_perm l1 l _ Hp). clear Hp Hl l.
  pose proof (sort_coins_ok l1 [] 0 None Ht (ck_me _ Hl1) (ck_value _ Hl1) ltac:(lia) (ck_total _ Hl1)) as HO.
  destruct HO as [(o & Ho & He & Hv & ->)|(lg & -> & Hne & Hnone & Hsome)]; cbn [mbind option_bind]; [apply selected_one; (done || lia)|].
  cbn [app]. rewrite Z.add_0_l. set (L := List.filter small l1) in *.
  assert (Hlarge : forall c k kr, lg = Some c -> selected l1 (Some (true, put_coins [c] (∅, 0), k, kr))).
  { intros c k' kr' Ec. destruct (Hsome c Ec) as [|(o & Ho & Hlo & ->)]; [done|]. unfold large in Hlo. apply andb_true_iff in Hlo as [He Hlo%negb_true_iff%Z.ltb_ge].
    apply selected_one; [done..|]. assert (CENT = 10000) by reflexivity. lia. }
  destruct (Z.eqb_spec (total (map co_val L)) target) as [E|_]; [apply selected_put, selection_true; [done|done|apply small_eligible|lia]|].
  destruct (Z.ltb_spec (total (map co_val L)) target) as [Hlt|Hge].
  { destruct lg as [c|]; [by apply Hlarge|]. exists false, [], k1, kr. split; [done|]. split; [apply submseteq_nil_l|]. split; [constructor|]. split; [done|]. rewrite <- small_all; [done|by apply Hnone]. }
  assert (HL : exists L', merge_sort value_ge (map co_valued L) = map co_valued L' /\ L' ≡ₚ L).
  { destruct (Permutation_map_inv co_valued L (merge_sort_Permutation value_ge (map co_valued L))) as (L' & EL & HL'). exists L'. split; [done|by symmetry]. }
  destruct HL as (L' & EL & HL'). rewrite EL, valued_values, <- (total_perm _ _ (Permutation_map co_val HL')) in *. clear EL.
  pose proof (selected_subset l1 L' lg k1 kr Hl1 Ht ltac:(rewrite HL'; apply small_eligible) Hge Hlarge) as HS. cbv zeta.
  destruct (ApproximateBestSubset _ _ _ target _ _) as [[vf best] kr1]. destruct (if _ && _ then _ else _) as [[vf2 best2] kr2]. exact HS.
Qed.
(** What is common to the answers. *)
Definition selected_any (l : list COutput) (r : option (bool * (gset coin * Z) * nat * nat)) : Prop :=
  exists ok sel k kr, r = Some (ok, (list_to_set (map co_coin sel), total (map co_val sel)), k, kr) /\ sel ⊆+ List.filter elig l /\ (ok = false -> sel = []).

(** A target so large that adding [CENT] overflows: the loop passes every coin by, and
    remembers one at most, whatever its value. *)
Lemma sort_coins_wrapped l : 2 ^ 63 - CENT <= target < 2 ^ 63 -> (forall o, o ∈ l -> is_Some (wtx_IsFromMe mine_fuel w (co_tx o))) ->
  (forall o, o ∈ l -> exists n, co_value o = Some n /\ 0 < n < 2 ^ 62) -> forall vV tl larger, exists larger',
  sort_coins mine_fuel w target spend cm ct l vV tl larger = Some (inr (vV, tl, larger')) /\
  (larger' = larger \/ exists o, o ∈ l /\ elig o = true /\ larger' = Some (co_valued o)).
Proof.
  intros Ht Hme Hval. assert (HC : CENT = 10000) by reflexivity. assert (Hsw : s64 (target + CENT) = target + CENT - 2 ^ 64).
  { unfold swrap, wrap. replace (target + CENT + 2 ^ (64 - 1)) with (target + CENT - 2 ^ 63 + 1 * 2 ^ 64) by lia. rewrite Z.mod_add, Z.mod_small by lia. lia. }
  induction l as [|o l IH]; intros vV tl larger; cbn [sort_coins]; [exists larger; by split; [|left]|]. rewrite Hsw.
  destruct (Hme o) as [me Eme]; [by left|]. destruct (Hval o) as (n & En & Hn); [by left|]. rewrite Eme, En. cbn [mbind option_bind].
  assert (HI : forall lg, (lg = larger \/ elig o = true /\ lg = Some (co_valued o)) -> exists larger', sort_coins mine_fuel w target spend cm ct l vV tl lg = Some (inr (vV, tl, larger')) /\
    (larger' = larger \/ exists o0, o0 ∈ o :: l /\ elig o0 = true /\ larger' = Some (co_valued o0))).
  { intros lg Hlg. destruct (IH ltac:(intros; apply Hme; by right) ltac:(intros; apply Hval; by right) vV tl lg) as (lg' & -> & HL). exists lg'. split; [done|].
    destruct HL as [->|(o0 & Ho0 & H)]; [|right; exists o0; split; [by right|done]]. destruct Hlg as [->|[? ->]]; [by left|right; exists o; split; [by left|done]]. }
  destruct (nDepth o <? (if me then cm else ct)) eqn:Ed; [apply HI; by left|]. destruct (spend <? _) eqn:Es; [apply HI; by left|].
  destruct (Z.eqb_spec n target); [lia|]. destruct (Z.ltb_spec n (target + CENT - 2 ^ 64)); [lia|]. destruct (n <? _); [|apply HI; by left].
  apply HI. right. split; [unfold eligible; by rewrite Eme, Ed, Es|]. unfold co_valued, co_val. by rewrite En.
Qed.

(** Whatever the target: the coins are taken from the eligible ones, each at most
    once, and they reach the target unless adding [CENT] to it overflows. *)
Lemma min_conf_any l k kr : coins_ok l -> - 2 ^ 63 <= target < 2 ^ 63 -> exists ok sel k' kr',
  SelectCoinsMinConf RAND_uint64 tries C_rand mine_fuel w target spend cm ct l k kr = Some (ok, (list_to_set (map co_coin sel), total (map co_val sel)), k', kr') /\
  sel ⊆+ List.filter elig l /\ NoDup (map co_coin sel) /\ (if ok then target < 2 ^ 63 - CENT -> target <= total (map co_val sel) else sel = []).
Proof.
  intros Hl Ht. destruct (decide (target < 2 ^ 63 - CENT)) as [Hlt|Hge].
  - destruct (min_conf_ok l k kr Hl ltac:(lia)) as (ok & sel & k1 & kr1 & -> & H1 & H2 & H3). exists ok, sel, k1, kr1. split_and!; [done..|]. destruct ok; [done|apply H3].
  - assert (Hsel : selected_any l (SelectCoinsMinConf RAND_uint64 tries C_rand mine_fuel w target spend cm ct l k kr)).
    { unfold SelectCoinsMinConf. destruct (random_shuffle_ok l k (ck_length _ Hl)) as (l1 & k1 & -> & Hp). cbn [mbind option_bind]. pose proof (coins_ok_perm _ _ Hp Hl) as Hl1.
      destruct (sort_coins_wrapped l1 ltac:(lia) (ck_me _ Hl1)) with (vV := @nil valued) (tl := 0) (larger := @None valued) as (lg & -> & Hlg).
      { intros o Ho. destruct (ck_value _ Hl1 o Ho) as (n & En & Hn). exists n. pose proof (submseteq_total [o] l1 ltac:(by apply singleton_submseteq_l) (ck_value _ Hl1)) as Hle.
        pose proof (ck_total _ Hl1). unfold co_val in Hle. cbn in Hle. rewrite En in Hle. cbn in Hle. split; [done|]. unfold co_val in *. lia. }
      cbn [mbind option_bind]. assert (CENT = 10000) by reflexivity. destruct (Z.eqb_spec 0 target); [lia|]. destruct (Z.ltb_spec 0 target); [|lia].
      destruct Hlg as [->|(o & Ho & He & ->)]; [exists false, [], k1, kr; split_and!; [done|apply submseteq_nil_l|done]|].
      exists true, [o], k1, kr. assert (Ho' : [o] ⊆+ l1) by (by apply singleton_submseteq_l). pose proof (put_selected l1 [o] Hl1 Ho') as HP. cbn [map] in HP. rewrite HP. split_and!; [done| |done].
      rewrite <- (List_filter_perm elig _ _ Hp). by apply one_eligible. }
    destruct Hsel as (ok & sel & k1 & kr1 & -> & H1 & H2). exists ok, sel, k1, kr1. split_and!; [done|done| |destruct ok; [lia|by apply H2]].
    assert (Hsl : sel ⊆+ l) by (etrans; [exact H1|apply filter_submseteq]). apply submseteq_Permutation in Hsl as [rest Hp]. pose proof (ck_nodup _ Hl) as Hn.
    rewrite (Permutation_map co_coin Hp), map_app in Hn. by apply NoDup_app in Hn as [Hn _].
Qed.
End select.

(** ** [AvailableCoins] *)

Section available.
Context `{CR : Crypto} `{ECI : EC} {K : Type} `{KS : !CKeyStore K}.
Context (fuel mine_fuel : nat) (e : wallet_env) (w : CWallet K) (cc : option CCoinControl).

(** The output is in the wallet, is the wallet's, of a value, neither spent nor promised to a cloaking, and may be chosen. *)
Definition spendable (h : base_uint) (t : CWalletTx) (i : nat) (x : CTxOut) : Prop :=
  wt_vout t !! i = Some x /\ flag_at (vfEnigmaReserved t) i = false /\ flag_at (vfSpent t) i = false /\
  out_IsMine mine_fuel w x = Some true /\ 0 < nValue x /\ may_use cc h i = true.

(** The transaction may be spent from: final, confirmed if that is asked for, and mature. *)
Definition spendable_tx (fOnlyConfirmed : bool) (t : CWalletTx) : Prop :=
  let tx := mtx (wt_tx t) in
  wtx_IsFinal e tx = true /\ (fOnlyConfirmed = true -> IsConfirmed fuel mine_fuel e w t = Some true) /\
  exists b, GetBlocksToMaturity e (wt_tx t) = Some b /\ ((IsCoinBase tx || IsCoinStake tx) = true -> b <= 0).

Definition available (fOnlyConfirmed : bool) (o : COutput) : Prop :=
  mapWallet w !! co_hash o = Some (co_tx o) /\ spendable_tx fOnlyConfirmed (co_tx o) /\
  (exists x, spendable (co_hash o) (co_tx o) (co_i o) x) /\ GetDepthInMainChain e (wt_tx (co_tx o)) = Some (nDepth o).

Lemma available_outs_ok h t depth l : forall i outs, drop i (wt_vout t) = l -> available_outs mine_fuel w cc h t depth i l = Some outs ->
  (forall o, o ∈ outs <-> co_hash o = h /\ co_tx o = t /\ (i <= co_i o)%nat /\ (exists x, spendable h t (co_i o) x) /\ depth = Some (nDepth o)) /\ NoDup (map co_coin outs).
Proof.
  induction l as [|x l IH]; intros i outs Hd; cbn [available_outs].
  { intros [= <-]. split; [|constructor]. intros o. split; [intros H; by apply elem_of_nil in H|]. intros (_ & _ & Hi & (x & Hx & _) & _). apply lookup_lt_Some in Hx.
    apply (f_equal length) in Hd. rewrite length_drop in Hd. cbn in Hd. lia. }
  assert (Ex : wt_vout t !! i = Some x) by (rewrite <- (Nat.add_0_r i), <- lookup_drop, Hd; done).
  assert (Hd' : drop (S i) (wt_vout t) = l) by (replace (S i) with (i + 1)%nat by lia; rewrite <- drop_drop, Hd; done).
  intros E. apply bind_Some in E as (mine & Em & E). apply bind_Some in E as (rest & Er & E). destruct (IH (S i) rest Hd' Er) as [Hin Hnd]. clear IH Er.
  assert (Hyes : (exists y, spendable h t i y) <-> mine && (0 <? nValue x) && may_use cc h i = true).
  { unfold spendable. destruct (flag_at (vfEnigmaReserved t) i), (flag_at (vfSpent t) i); cbn in Em; try (injection Em as <-; cbn; split; [by intros (y & _ & ? & ? & _)|done]).
    rewrite !andb_true_iff, Z.ltb_lt. split; [intros (y & Ey & _ & _ & H1 & H2 & H3)|intros [[-> H2] H3]; by exists x]. assert (y = x) as -> by congruence. split_and!; [congruence|done..]. }
  assert (Hcons : forall o, co_hash o = h /\ co_tx o = t /\ (i <= co_i o)%nat /\ (exists x, spendable h t (co_i o) x) /\ depth = Some (nDepth o) <->
    (co_hash o = h /\ co_tx o = t /\ co_i o = i /\ (exists y, spendable h t i y) /\ depth = Some (nDepth o)) \/ o ∈ rest).
  { intros o. rewrite Hin. split.
    - intros (H1 & H2 & H3 & H4 & H5). destruct (decide (co_i o = i)) as [Ei|]; [left; rewrite Ei in H4; done|right]. split_and!; try done. lia.
    - intros [(H1 & H2 & H3 & H4 & H5)|(H1 & H2 & H3 & H4 & H5)]; [rewrite H3|]; split_and!; try done; lia. }
  destruct (mine && (0 <? nValue x) && may_use cc h i) eqn:Ec.
  - apply bind_Some in E as (d & -> & [= <-]). split.
    + intros o. rewrite Hcons, elem_of_cons. apply or_iff_compat_r. split; [intros ->; cbn; split_and!; try done; by apply Hyes|]. destruct o as [oh ot oi od]. cbn. intros (-> & -> & -> & _ & [= ->]). done.
    + cbn [map]. constructor; [|done]. intros Hi. apply list_elem_of_fmap in Hi as (o & Eo & Ho). apply Hin in Ho as (_ & _ & Hi & _). unfold co_coin in Eo. cbn in Eo. injection Eo as _ Eo. lia.
  - injection E as <-. split; [|done]. intros o. rewrite Hcons. split; [by right|]. intros [(_ & _ & _ & H & _)|]; [by apply Hyes in H|done].
Qed.

Lemma available_txs_ok only l : forall outs, NoDup (l.*1) -> available_txs fuel mine_fuel e w only cc l = Some outs ->
  (forall o, o ∈ outs <-> (co_hash o, co_tx o) ∈ l /\ spendable_tx only (co_tx o) /\ (exists x, spendable (co_hash o) (co_tx o) (co_i o) x) /\ GetDepthInMainChain e (wt_tx (co_tx o)) = Some (nDepth o)) /\ NoDup (map co_coin outs).
Proof.
  induction l as [|[h t] l IH]; intros outs Hnd; cbn [available_txs].
  { intros [= <-]. split; [|constructor]. intros o. split; [intros H; by apply elem_of_nil in H|intros [H _]; by apply elem_of_nil in H]. }
  apply NoDup_cons in Hnd as [Hh Hnd]. 
  assert (Hskip : ~ spendable_tx only t -> available_txs fuel mine_fuel e w only cc l = Some outs ->
    (forall o, o ∈ outs <-> (co_hash o, co_tx o) ∈ (h, t) :: l /\ spendable_tx only (co_tx o) /\ (exists x, spendable (co_hash o) (co_tx o) (co_i o) x) /\ GetDepthInMainChain e (wt_tx (co_tx o)) = Some (nDepth o)) /\ NoDup (map co_coin outs)).
  { intros Hno E. destruct (IH outs Hnd E) as [Hin Hn]. split; [|done]. intros o. rewrite Hin, elem_of_cons. split; [intros (H & ?); split; [by right|done]|]. intros ([[= Eh Et]|H] & Hs & H'); [by subst t|done]. }
  destruct (wtx_IsFinal e _) eqn:Ef; cbn [negb]; [|apply Hskip; intros (H & _); congruence]. intros E. apply bind_Some in E as (c & Ec & E).
  destruct c; cbn [negb] in E; [|revert E; apply Hskip; intros (_ & H & _); destruct only; [rewrite H in Ec by done|]; congruence]. apply bind_Some in E as (b & Eb & E).
  assert (Hcond : (IsCoinBase (mtx (wt_tx t)) && (0 <? b)) || (IsCoinStake (mtx (wt_tx t)) && (0 <? b)) = (IsCoinBase (mtx (wt_tx t)) || IsCoinStake (mtx (wt_tx t))) && (0 <? b)) by (destruct (IsCoinBase _), (IsCoinStake _), (0 <? b); done).
  rewrite Hcond in E. destruct (_ && (0 <? b)) eqn:Em.
  { apply andb_true_iff in Em as [Em Hb%Z.ltb_lt]. revert E. apply Hskip. intros (_ & _ & b' & Eb' & Hb'). rewrite Eb in Eb'. injection Eb' as <-. specialize (Hb' Em). lia. }
  assert (Hs : spendable_tx only t). { split; [done|]. split; [intros ->; done|]. exists b. split; [done|]. intros Hg. rewrite Hg in Em. cbn in Em. lia. }
  apply bind_Some in E as (o1 & E1 & E). apply bind_Some in E as (o2 & E2 & [= <-]). destruct (available_outs_ok h t _ _ 0 o1 eq_refl E1) as [Hin1 Hn1]. destruct (IH o2 Hnd E2) as [Hin2 Hn2]. split.
  - intros o. rewrite elem_of_app, Hin1, Hin2, elem_of_cons. split.
    + intros [(<- & <- & _ & H1 & H2)|(H & H')]; [split; [by left|done]|split; [by right|done]].
    + intros ([[= <- <-]|H] & H'); [left|by right]. split_and!; try done; [lia|apply H'..].
  - rewrite map_app. apply NoDup_app. split; [done|]. split; [|done]. intros c Hc1 Hc2. apply list_elem_of_fmap in Hc1 as (a & -> & Ha). apply list_elem_of_fmap in Hc2 as (b' & Eb' & Hb').
    apply Hin1 in Ha as (Ha & _). apply Hin2 in Hb' as (Hb' & _). unfold co_coin in Eb'. injection Eb' as Eb' _. apply Hh. apply list_elem_of_fmap. exists (co_hash b', co_tx b'). split; [cbn; congruence|done].
Qed.

(** The coins found are just the available outputs, once each. *)
Lemma AvailableCoins_ok only vCoins : AvailableCoins fuel mine_fuel e w only cc = Some vCoins -> (forall o, o ∈ vCoins <-> available only o) /\ NoDup (map co_coin vCoins).
Proof.
  intros E. apply available_txs_ok in E as [Hin Hn]; [|apply entries_nodup]. split; [|done]. intros o. rewrite Hin. unfold available. by rewrite entries_perm, elem_of_map_to_list.
Qed.

Lemma available_value only o : available only o -> exists n, co_value o = Some n /\ 0 < n.
Proof. intros (_ & _ & (x & Ex & _ & _ & _ & Hx & _) & _). exists (nValue x). unfold co_value. by rewrite Ex. Qed.

(** ** [SelectCoins] *)

Lemma put_outputs_ok l : forall (st : gset coin * Z), (forall o, o ∈ l -> exists n, co_value o = Some n /\ 0 < n) -> 0 <= st.2 -> st.2 + total (map co_val l) < 2 ^ 63 ->
  put_outputs l st = Some (list_to_set (map co_coin l) ∪ st.1, st.2 + total (map co_val l)).
Proof.
  induction l as [|o l IH]; intros [s v] Hval Hv Hs; cbn [put_outputs map list_to_set].
  - cbn. by rewrite union_empty_l_L, Z.add_0_r.
  - destruct (Hval o) as (n & En & Hn); [by left|]. rewrite En. cbn [mbind option_bind]. assert (Ev : co_val o = n) by (unfold co_val; by rewrite En). cbn [map fst snd] in *. rewrite total_cons, Ev in *.
    assert (Hval' : forall o', o' ∈ l -> exists n, co_value o' = Some n /\ 0 < n) by (intros o' Ho'; apply Hval; by right).
    pose proof (total_marked_nonneg [] _ (total_vals_nonneg l Hval')). rewrite swrap_id by lia. rewrite IH by (cbn; (done || lia)). cbn. do 2 f_equal; [set_solver|lia].
Qed.

Context (RAND_uint64 : nat -> Z) (tries : nat) (C_rand : nat -> Z) (HRA : rand_ok RAND_uint64 tries).

Definition asks_for_coins : bool := match cc with Some c => HasSelected c | None => false end.

Lemma SelectCoins_ok vCoins target spend k kr : AvailableCoins fuel mine_fuel e w true cc = Some vCoins ->
  (forall o, o ∈ vCoins -> is_Some (wtx_IsFromMe mine_fuel w (co_tx o))) -> total (map co_val vCoins) < 2 ^ 62 -> len vCoins < 2 ^ 31 -> 0 <= target < 2 ^ 61 ->
  exists ok sel k' kr', SelectCoins RAND_uint64 tries C_rand fuel mine_fuel e w target spend (∅, 0) cc k kr = Some (ok, (list_to_set (map co_coin sel), total (map co_val sel)), k', kr') /\
    NoDup (map co_coin sel) /\ sel ⊆+ vCoins /\
    (if asks_for_coins then sel = vCoins /\ ok = (target <=? total (map co_val vCoins))
     else if (ok : bool) then target <= total (map co_val sel) /\ (forall o, o ∈ sel -> eligible mine_fuel w spend 0 1 o = true)
     else sel = [] /\ total (map co_val (List.filter (eligible mine_fuel w spend 0 1) vCoins)) < target).
Proof.
  intros EA Hme Ht Hlen Htg. destruct (AvailableCoins_ok _ _ EA) as [Hin Hnd]. assert (Hval : forall o, o ∈ vCoins -> exists n, co_value o = Some n /\ 0 < n) by (intros o Ho; eapply available_value; by apply Hin).
  assert (Hok : coins_ok mine_fuel w vCoins) by (by split). unfold SelectCoins, asks_for_coins. rewrite EA. cbn [mbind option_bind]. destruct (match cc with Some c => HasSelected c | None => false end).
  { rewrite put_outputs_ok by (cbn; (done || lia)). cbn [mbind option_bind fst snd]. rewrite union_empty_r_L, Z.add_0_l. exists (target <=? total (map co_val vCoins)), vCoins, k, kr. done. }
  assert (Hweak : forall cm ct sel, 0 <= cm -> 1 <= ct -> sel ⊆+ List.filter (eligible mine_fuel w spend cm ct) vCoins -> sel ⊆+ vCoins /\ forall o, o ∈ sel -> eligible mine_fuel w spend 0 1 o = true).
  { intros cm ct sel Hcm Hct Hs. split; [etrans; [exact Hs|apply filter_submseteq]|]. intros o Ho. eapply elem_of_submseteq in Ho; [|exact Hs]. apply list_elem_of_In, filter_In in Ho as [_ He]. unfold eligible in *.
    destruct (wtx_IsFromMe mine_fuel w (co_tx o)) as [me|]; [|done]. apply andb_true_iff in He as [H1 H2]. apply andb_true_iff. split; [|done]. apply negb_true_iff, Z.ltb_ge in H1. apply negb_true_iff, Z.ltb_ge. destruct me; lia. }
  assert (Htg' : - 2 ^ 63 <= target < 2 ^ 63 - CENT) by (unfold CENT; lia).
  destruct (min_conf_ok RAND_uint64 tries C_rand HRA mine_fuel w target spend 1 6 vCoins k kr Hok Htg') as (ok & sel & k1 & kr1 & -> & H1 & H2 & H3). cbn [mbind option_bind].
  destruct ok; [exists true, sel, k1, kr1; destruct (Hweak 1 6 sel ltac:(lia) ltac:(lia) H1); done|]. clear H1 H2 H3 sel.
  destruct (min_conf_ok RAND_uint64 tries C_rand HRA mine_fuel w target spend 1 1 vCoins k1 kr1 Hok Htg') as (ok & sel & k2 & kr2 & -> & H1 & H2 & H3). cbn [mbind option_bind].
  destruct ok; [exists true, sel, k2, kr2; destruct (Hweak 1 1 sel ltac:(lia) ltac:(lia) H1); done|]. clear H1 H2 H3 sel.
  destruct (min_conf_ok RAND_uint64 tries C_rand HRA mine_fuel w target spend 0 1 vCoins k2 kr2 Hok Htg') as (ok & sel & k3 & kr3 & -> & H1 & H2 & H3).
  exists ok, sel, k3, kr3. destruct (Hweak 0 1 sel ltac:(lia) ltac:(lia) H1). destruct ok; done.
Qed.
End available.

(** ** [IsConfirmed] returns *)

Lemma prev_map_in `{Crypto} l h t : prev_map l !! h = Some t -> t ∈ l.
Proof.
  unfold prev_map. assert (Hgen : forall m : gmap base_uint CMerkleTx, fold_left (fun m t => <[tx_GetHash (mtx t) := t]> m) l m !! h = Some t -> t ∈ l \/ m !! h = Some t).
  { induction l as [|x l IH]; intros m E; [by right|]. apply IH in E as [E|E]; [left; by right|]. apply lookup_insert_Some in E as [[_ ->]|[_ E]]; [left; by left|by right]. }
  intros E. apply Hgen in E as [E|E]; [done|]. by rewrite lookup_empty in E.
Qed.

Definition most_inputs (txs : list CMerkleTx) : nat := foldr (fun t n => Nat.max (length (vin (mtx t))) n) 0%nat txs.

Lemma most_inputs_le txs t : t ∈ txs -> (length (vin (mtx t)) <= most_inputs txs)%nat.
Proof. unfold most_inputs. induction txs as [|x l IH]; intros Ht; [by apply elem_of_nil in Ht|]. cbn. apply elem_of_cons in Ht as [->|Ht]; [lia|]. specialize (IH Ht). lia. Qed.

Lemma prevs_of_in (m : gmap base_uint CMerkleTx) l : forall ts, prevs_of m l = Some ts -> length ts = length l /\ forall t, t ∈ ts -> exists i, i ∈ l /\ m !! op_hash (prevout i) = Some t.
Proof.
  induction l as [|i l IH]; intros ts; cbn; [intros [= <-]; split; [done|]; intros t Ht; by apply elem_of_nil in Ht|].
  intros (t0 & E0 & (ts' & E' & [= <-])%bind_Some)%bind_Some. destruct (IH ts' E') as [Hl Hin]. split; [cbn; lia|]. intros t Ht. apply elem_of_cons in Ht as [->|Ht].
  - exists i. split; [by left|done].
  - destruct (Hin t Ht) as (j & Hj & Ej). exists j. split; [by right|done].
Qed.

Section confirmed.
Context `{CR : Crypto} `{ECI : EC} {K : Type} `{KS : !CKeyStore K}.
Context (mine_fuel : nat) (e : wallet_env) (w : CWallet K) (t0 : CMerkleTx) (prev : list CMerkleTx) (rank : CMerkleTx -> nat).
Local Abbreviation txs := (t0 :: prev).
Local Abbreviation m := (prev_map prev).

(** The transaction and its supporting ones can be looked at, and none spends one of the same rank or above. *)
Record chain_of_txs : Prop := {
  ct_depth : forall t, t ∈ txs -> is_Some (GetDepthInMainChain e t);
  ct_debit : forall t, t ∈ txs -> is_Some (GetDebit mine_fuel w (mtx t));
  ct_rank : forall t i t', t ∈ txs -> i ∈ vin (mtx t) -> m !! op_hash (prevout i) = Some t' -> (rank t' < rank t)%nat
}.

Definition weight (t : CMerkleTx) : nat := S (most_inputs txs) ^ rank t.
Definition queue_weight (l : list CMerkleTx) : nat := list_sum (map weight l).

Lemma queue_weight_cons t l : queue_weight (t :: l) = (weight t + queue_weight l)%nat.
Proof. done. Qed.

Lemma queue_weight_le l b : (forall t, t ∈ l -> weight t <= b)%nat -> (queue_weight l <= length l * b)%nat.
Proof.
  induction l as [|t l IH]; intros H; [cbn; lia|]. rewrite queue_weight_cons. cbn [length]. assert (weight t <= b)%nat by (apply H; by left).
  assert (queue_weight l <= length l * b)%nat by (apply IH; intros t' Ht'; apply H; by right). lia.
Qed.

(** The inputs weigh less than the transaction. *)
Lemma prevs_weight t ts : chain_of_txs -> t ∈ txs -> prevs_of m (vin (mtx t)) = Some ts -> (queue_weight ts < weight t)%nat.
Proof.
  intros HC Ht E. apply prevs_of_in in E as [Hl Hin]. pose proof (most_inputs_le _ t Ht) as Hm. unfold weight at 1. destruct (rank t) as [|r] eqn:Er.
  - destruct ts as [|t' ts]; [cbn; lia|]. destruct (Hin t') as (i & Hi & Ei); [by left|]. pose proof (ct_rank HC t i t' Ht Hi Ei). lia.
  - assert (Hw : (queue_weight ts <= length ts * S (most_inputs txs) ^ r)%nat).
    { apply queue_weight_le. intros t' Ht'. destruct (Hin t' Ht') as (i & Hi & Ei). pose proof (ct_rank HC t i t' Ht Hi Ei). apply Nat.pow_le_mono_r; lia. }
    rewrite Nat.pow_succ_r'. pose proof (Nat.pow_nonzero (S (most_inputs txs)) r). nia.
Qed.

Lemma confirmed_loop_returns fuel : forall queue, chain_of_txs -> (forall t, t ∈ queue -> t ∈ txs) -> (queue_weight queue <= fuel)%nat -> is_Some (confirmed_loop fuel mine_fuel e w m queue).
Proof.
  induction fuel as [|fuel IH]; intros [|t queue] HC Hq Hf; cbn [confirmed_loop]; [done| |done|].
  { rewrite queue_weight_cons in Hf. pose proof (Nat.pow_nonzero (S (most_inputs txs)) (rank t)). unfold weight in Hf. lia. }
  assert (Ht : t ∈ txs) by (apply Hq; by left). assert (Hq' : forall t', t' ∈ queue -> t' ∈ txs) by (intros t' Ht'; apply Hq; by right).
  assert (Hpos : (0 < weight t)%nat) by (unfold weight; pose proof (Nat.pow_nonzero (S (most_inputs txs)) (rank t)); lia).
  rewrite queue_weight_cons in Hf.
  destruct (negb _); [done|]. destruct (ct_depth HC t Ht) as [d ->]. cbn [mbind option_bind]. destruct (1 <=? d); [apply IH; [done|done|lia]|].
  destruct (ct_debit HC t Ht) as [debit ->]. cbn [mbind option_bind]. destruct (negb _); [done|]. destruct (prevs_of m (vin (mtx t))) as [ts|] eqn:Ep; [|done].
  pose proof (prevs_weight t ts HC Ht Ep). apply prevs_of_in in Ep as [_ Hin]. apply IH; [done| |].
  - intros t' Ht'. apply elem_of_app in Ht' as [Ht'|Ht']; [by apply Hq'|]. destruct (Hin t' Ht') as (i & _ & Ei). right. by eapply prev_map_in.
  - unfold queue_weight in *. rewrite map_app, list_sum_app. lia.
Qed.

(** With this fuel [IsConfirmed] answers. *)
Definition confirmed_fuel : nat := weight t0.

Lemma IsConfirmed_returns fuel t : chain_of_txs -> wt_tx t = t0 -> vtxPrev t = prev -> (confirmed_fuel <= fuel)%nat -> is_Some (IsConfirmed fuel mine_fuel e w t).
Proof.
  intros HC E0 Ep Hf. unfold IsConfirmed, wtx_IsFromMe, wtx_GetDebit. rewrite E0, Ep. destruct (negb _); [done|]. destruct (ct_depth HC t0) as [d ->]; [by left|]. cbn [mbind option_bind].
  destruct (1 <=? d); [done|]. destruct (ct_debit HC t0) as [debit Ed]; [by left|].
  assert (Hd : is_Some (match vin (mtx t0) with [] => Some 0 | _ => if fDebitCached t then Some (nDebitCached t) else GetDebit mine_fuel w (mtx t0) end)) by (destruct (vin (mtx t0)); [done|]; destruct (fDebitCached t); done).
  destruct Hd as [dd ->]. cbn [mbind option_bind]. destruct (negb _); [done|]. apply confirmed_loop_returns; [done| |].
  - intros t' ->%list_elem_of_singleton. by left.
  - rewrite queue_weight_cons. unfold queue_weight, confirmed_fuel in *. cbn [map list_sum foldr]. lia.
Qed.
End confirmed.

(** ** The wallet answers *)

Section answers.
Context `{CR : Crypto} `{ECI : EC} {K : Type} `{KS : !CKeyStore K}.
Context (mine_fuel : nat) (e : wallet_env) (w : CWallet K).

(** The transactions of the wallet can be looked at, and the supporting ones do not spend each other in a circle. *)
Record wallet_ok : Prop := {
  wo_chain : forall h t, mapWallet w !! h = Some t -> exists rank, chain_of_txs mine_fuel e w (wt_tx t) (vtxPrev t) rank;
  wo_mine : forall h t x, mapWallet w !! h = Some t -> x ∈ wt_vout t -> is_Some (out_IsMine mine_fuel w x)
}.

Lemma available_outs_returns cc h t depth l : forall i, is_Some depth -> (forall x, x ∈ l -> is_Some (out_IsMine mine_fuel w x)) -> is_Some (available_outs mine_fuel w cc h t depth i l).
Proof.
  induction l as [|x l IH]; intros i Hd Hm; cbn [available_outs]; [done|]. destruct (Hm x) as [b Eb]; [by left|]. rewrite Eb.
  assert (Hb : exists b', (if negb (flag_at (vfEnigmaReserved t) i) && negb (flag_at (vfSpent t) i) then Some b else Some false) = Some b') by (destruct (_ && _); eauto).
  destruct Hb as [b' ->]. cbn [mbind option_bind]. destruct (IH (S i) Hd) as [rest ->]; [intros y Hy; apply Hm; by right|]. cbn [mbind option_bind]. destruct Hd as [d ->]. destruct (_ && _ && _); done.
Qed.

Lemma available_txs_returns only cc l : (forall h t, (h, t) ∈ l -> mapWallet w !! h = Some t) -> wallet_ok ->
  exists fuel0, forall fuel, (fuel0 <= fuel)%nat -> is_Some (available_txs fuel mine_fuel e w only cc l).
Proof.
  intros Hl HW. induction l as [|[h t] l IH]; [exists 0%nat; done|]. destruct IH as [f1 IH]; [intros h' t' H; apply Hl; by right|].
  assert (Ht : mapWallet w !! h = Some t) by (apply Hl; by left). destruct (wo_chain HW h t Ht) as [rank HC].
  exists (f1 `max` confirmed_fuel (wt_tx t) (vtxPrev t) rank)%nat. intros fuel Hf. cbn [available_txs]. pose proof (IH fuel ltac:(lia)) as [rest Er]. rewrite Er. destruct (negb _); [done|].
  assert (Hc : is_Some (if only then IsConfirmed fuel mine_fuel e w t else Some true)) by (destruct only; [|done]; eapply IsConfirmed_returns; [exact HC|done|done|lia]).
  destruct Hc as [c ->]. cbn [mbind option_bind]. destruct (negb c); [done|]. destruct (ct_depth _ _ _ _ _ _ HC (wt_tx t)) as [d Ed]; [by left|]. unfold GetBlocksToMaturity. rewrite Ed.
  assert (Hb : exists b, (if negb (IsCoinBase (mtx (wt_tx t)) || IsCoinStake (mtx (wt_tx t))) then Some 0 else d ← Some d; Some (Z.max 0 (we_nCoinbaseMaturity e + 20 - d))) = Some b) by (destruct (negb _); eauto).
  destruct Hb as [b ->]. cbn [mbind option_bind]. destruct (_ || _); [done|]. destruct (available_outs_returns cc h t (Some d) (wt_vout t) 0) as [outs ->]; [done|intros x Hx; by eapply wo_mine|]. done.
Qed.

Lemma AvailableCoins_returns only cc : wallet_ok -> exists fuel0, forall fuel, (fuel0 <= fuel)%nat -> is_Some (AvailableCoins fuel mine_fuel e w only cc).
Proof. intros HW. apply available_txs_returns; [|done]. intros h t H. rewrite entries_perm in H. by apply elem_of_map_to_list in H. Qed.

Lemma available_from_me fuel only cc o : wallet_ok -> available fuel mine_fuel e w cc only o -> is_Some (wtx_IsFromMe mine_fuel w (co_tx o)).
Proof.
  intros HW (Ht & _). destruct (wo_chain HW _ _ Ht) as [rank HC]. destruct (ct_debit _ _ _ _ _ _ HC (wt_tx (co_tx o))) as [d Ed]; [by left|].
  unfold wtx_IsFromMe, wtx_GetDebit. rewrite Ed. destruct (vin _); [done|]. destruct (fDebitCached _); done.
Qed.
End answers.

(** (C18) The wallet finds the money if it has it.  For every wallet, chain and random
    source, [SelectCoins] returns; with coins chosen by hand it takes those that are
    available, and otherwise it succeeds with distinct available coins that reach the
    target, and fails only if all the available coins that have a confirmation, or are
    the wallet's own change, and are not younger than the payment, do not reach it. *)
Theorem SelectCoins_spec `{CR : Crypto} `{ECI : EC} {K : Type} `{KS : !CKeyStore K} RAND_uint64 tries C_rand mine_fuel e (w : CWallet K) cc target spend k kr :
  rand_ok RAND_uint64 tries -> wallet_ok mine_fuel e w -> 0 <= target < 2 ^ 61 -> exists fuel0, forall fuel, (fuel0 <= fuel)%nat ->
  exists vCoins, AvailableCoins fuel mine_fuel e w true cc = Some vCoins /\ (forall o, o ∈ vCoins <-> available fuel mine_fuel e w cc true o) /\
  (total (map co_val vCoins) < 2 ^ 62 -> len vCoins < 2 ^ 31 ->
   exists ok sel k' kr', SelectCoins RAND_uint64 tries C_rand fuel mine_fuel e w target spend (∅, 0) cc k kr = Some (ok, (list_to_set (map co_coin sel), total (map co_val sel)), k', kr') /\
    NoDup (map co_coin sel) /\ sel ⊆+ vCoins /\
    (if asks_for_coins cc then sel = vCoins /\ ok = (target <=? total (map co_val vCoins))
     else if (ok : bool) then target <= total (map co_val sel) /\ (forall o, o ∈ sel -> eligible mine_fuel w spend 0 1 o = true)
     else sel = [] /\ total (map co_val (List.filter (eligible mine_fuel w spend 0 1) vCoins)) < target)).
Proof.
  intros HRA HW Htg. destruct (AvailableCoins_returns mine_fuel e w true cc HW) as [f0 Hf0]. exists f0. intros fuel Hf. destruct (Hf0 fuel Hf) as [vCoins EA]. exists vCoins.
  destruct (AvailableCoins_ok _ _ _ _ _ _ _ EA) as [Hin _]. split; [done|]. split; [done|]. intros Ht Hl. apply (SelectCoins_ok _ _ _ _ _ _ _ _ HRA _ _ _ _ _ EA); try done.
  intros o Ho. eapply available_from_me; [done|by apply Hin].
Qed.

#[local] Existing Instance Crypto_toy.
#[local] Existing Instance EC_toy.

(** A wallet with two outputs in the best block. *)
Definition sample_index : index_state := mkIndexState {[1 := index_null]} {[replicate 8 1 := 1]} (Some 1) None.
Definition sample_env : wallet_env := mkWalletEnv sample_index 5 1000 40.
Definition sample_wtx : CWalletTx :=
  mkWalletTx (mkMerkleTx (mkTx 1 100 [] [mkTxOut 30000 (p2pkh_script (replicate 20 0)); mkTxOut 20000 (p2pkh_script (replicate 20 0))] 0 [] 0) (replicate 8 1) [] 0 true) [] false 0 false 0 false 0 [] [].
Definition sample_wallet : CWallet CBasicKeyStore := mkWallet (mkBasic {[bu_zero 5 := ([], true)]} ∅) {[replicate 8 2 := sample_wtx]}.

Lemma sample_wallet_ok : wallet_ok 1 sample_env sample_wallet.
Proof.
  assert (Hone : forall h t, mapWallet sample_wallet !! h = Some t -> t = sample_wtx) by (intros h t E; cbn [mapWallet sample_wallet] in E; by apply lookup_singleton_Some in E as [_ <-]).
  split; [intros h t ->%Hone; exists (fun _ => 0%nat)|intros h t x ->%Hone Hx].
  - split.
    + intros t ->%list_elem_of_singleton. eexists. vm_compute. reflexivity.
    + intros t ->%list_elem_of_singleton. eexists. vm_compute. reflexivity.
    + intros t i t' ->%list_elem_of_singleton Hi. by apply elem_of_nil in Hi.
  - apply elem_of_cons in Hx as [->|[->|Hx]%elem_of_cons]; [eexists; vm_compute; reflexivity..|]. by apply elem_of_nil in Hx.
Qed.

Lemma SelectCoins_spec_witness : exists fuel vCoins, AvailableCoins fuel 1 sample_env sample_wallet true None = Some vCoins /\ forall o, o ∈ vCoins <-> available fuel 1 sample_env sample_wallet None true o.
Proof.
  destruct (SelectCoins_spec (fun _ => 12345) 1 (fun _ => 1) 1 sample_env sample_wallet None 40000 200 0 0) as [f H].
  - split; [intros _; unfold fits; lia|intros _; exists 0%nat; split; lia].
  - exact sample_wallet_ok.
  - lia.
  - destruct (H f (le_n f)) as (vCoins & E & Hin & _). exists f, vCoins. exact (conj E Hin).
Defined.

Example sample_selects : (fun '(ok, (_, v), _, _) => (ok, v)) <$> SelectCoins (fun _ => 12345) 1 (fun _ => 1) 9 1 sample_env sample_wallet 40000 200 (∅, 0) None 0 0 = Some (true, 50000).
Proof. by vm_compute. Qed.

(** ** The balance *)

Section balance.
Context `{CR : Crypto} `{ECI : EC} {K : Type} `{KS : !CKeyStore K}.
Context (fuel mine_fuel : nat) (e : wallet_env) (w : CWallet K).

(** The cached amounts are the amounts. *)
Record credit_ok (t : CWalletTx) : Prop := {
  cr_credit : fAvailableCreditCached t = true -> available_loop mine_fuel w t 0 (wt_vout t) 0 = Some (nAvailableCreditCached t);
  cr_reserved : fEnigmaReservedCached t = true -> reserved_loop mine_fuel w t 0 (wt_vout t) 0 = Some (nEnigmaReservedCached t)
}.

Lemma credit_bounds x mine c : out_IsMine mine_fuel w x = Some mine -> txout_GetCredit mine_fuel w x = Some c -> 0 <= c <= MAX_MONEY /\ c = (if mine then nValue x else 0) /\ 0 <= nValue x.
Proof.
  intros Em E. unfold txout_GetCredit in E. rewrite Em in E. destruct (MoneyRange (nValue x)) eqn:Er; cbn [negb] in E; [|done]. injection E as <-. unfold MoneyRange in Er. apply andb_true_iff in Er as [E1%Z.leb_le E2%Z.leb_le].
  destruct mine; split_and!; lia.
Qed.

(** Adding an amount and testing the range. *)
Lemma add_in_range n c v (k : Z -> option Z) : 0 <= n <= MAX_MONEY -> 0 <= c <= MAX_MONEY -> (let m := s64 (n + c) in if MoneyRange m then k m else None) = Some v -> 0 <= n + c <= MAX_MONEY /\ k (n + c) = Some v.
Proof.
  intros Hn Hc. assert (HM : MAX_MONEY < 2 ^ 62) by (by vm_compute). cbv zeta. rewrite swrap_id by lia. unfold MoneyRange. destruct ((0 <=? n + c) && _) eqn:E; [|done]. intros Ek. split; [lia|done].
Qed.

(** What is credited is what can be spent and what is promised to a cloaking. *)
Lemma available_loop_outs h t depth l : forall i c v r u outs, drop i (wt_vout t) = l -> 0 <= c <= MAX_MONEY -> 0 <= r <= MAX_MONEY ->
  available_loop mine_fuel w t i l c = Some v -> reserved_loop mine_fuel w t i l r = Some u -> available_outs mine_fuel w None h t depth i l = Some outs ->
  v - c = total (map co_val outs) + (u - r) /\ 0 <= v <= MAX_MONEY /\ 0 <= u <= MAX_MONEY.
Proof.
  induction l as [|x l IH]; intros i c v r u outs Hd Hc Hr; cbn [available_loop available_outs reserved_loop]; [intros [= <-] [= <-] [= <-]; cbn; lia|].
  assert (Ex : wt_vout t !! i = Some x) by (rewrite <- (Nat.add_0_r i), <- lookup_drop, Hd; done).
  assert (Hd' : drop (S i) (wt_vout t) = l) by (replace (S i) with (i + 1)%nat by lia; rewrite <- drop_drop, Hd; done). intros El Eu Eo. apply bind_Some in Eo as (mine & Em & Eo). apply bind_Some in Eo as (rest & Er & Eo).
  destruct (flag_at (vfSpent t) i) eqn:Es; cbn [negb andb] in *.
  { rewrite andb_false_r in Em. injection Em as <-. injection Eo as <-. by eapply IH. }
  apply bind_Some in El as (cr & Ec & El). destruct (flag_at (vfEnigmaReserved t) i) eqn:Ere; cbn [negb andb] in *.
  { injection Em as <-. injection Eo as <-. rewrite Ec in Eu. cbn [mbind option_bind] in Eu. assert (Hmine : exists m, out_IsMine mine_fuel w x = Some m) by (unfold txout_GetCredit in Ec; destruct (negb _); [done|]; destruct (out_IsMine mine_fuel w x) eqn:E; [eauto|done]).
    destruct Hmine as [m Hm]. destruct (credit_bounds x m cr Hm Ec) as (Hcr & _). apply add_in_range in El as [Hc' El]; [|done..]. apply add_in_range in Eu as [Hr' Eu]; [|done..].
    destruct (IH _ _ _ _ _ _ Hd' Hc' Hr' El Eu Er) as (IH1 & IH2 & IH3). split_and!; lia. }
  destruct (credit_bounds x mine cr Em Ec) as (Hcr & -> & Hx). apply add_in_range in El as [Hc' El]; [|done..]. destruct (IH _ _ _ _ _ _ Hd' Hc' Hr El Eu Er) as (IH1 & IH2 & IH3).
  split; [|done]. destruct mine; cbn [andb] in Eo; [|injection Eo as <-; lia]. destruct (Z.ltb_spec 0 (nValue x)); cbn [andb may_use] in Eo; [|injection Eo as <-; lia].
  apply bind_Some in Eo as (d & _ & [= <-]). cbn [map]. rewrite total_cons. unfold co_val at 1, co_value. cbn. rewrite Ex. cbn. lia.
Qed.

Lemma available_credit_outs h t b v u outs : credit_ok t -> GetBlocksToMaturity e (wt_tx t) = Some b -> (IsCoinBase (mtx (wt_tx t)) || IsCoinStake (mtx (wt_tx t))) && (0 <? b) = false ->
  GetAvailableCredit mine_fuel e w t = Some v -> GetEnigmaReservedAmount mine_fuel e w t = Some u -> available_outs mine_fuel w None h t (GetDepthInMainChain e (wt_tx t)) 0 (wt_vout t) = Some outs ->
  v = total (map co_val outs) + u /\ 0 <= v <= MAX_MONEY /\ 0 <= u.
Proof.
  intros HC Eb Em Ev Eu Eo. unfold GetAvailableCredit in Ev. unfold GetEnigmaReservedAmount in Eu. rewrite Eb in Ev, Eu. cbn [mbind option_bind] in Ev, Eu. rewrite Em in Ev, Eu.
  assert (El : available_loop mine_fuel w t 0 (wt_vout t) 0 = Some v) by (destruct (fAvailableCreditCached t) eqn:Ef; [injection Ev as <-; by apply cr_credit|done]).
  assert (Er : reserved_loop mine_fuel w t 0 (wt_vout t) 0 = Some u) by (destruct (fEnigmaReservedCached t) eqn:Ef; [injection Eu as <-; by apply cr_reserved|done]).
  assert (HM : 0 <= MAX_MONEY) by (vm_compute; discriminate). destruct (available_loop_outs h t _ (wt_vout t) 0 0 v 0 u outs eq_refl ltac:(lia) ltac:(lia) El Er Eo) as (A & B & C). split_and!; lia.
Qed.

(** What the confirmed transactions have promised. *)
Fixpoint reserved_sum (l : list (base_uint * CWalletTx)) : option Z :=
  match l with
  | [] => Some 0
  | (_, t) :: l =>
      c ← IsConfirmed fuel mine_fuel e w t;
      n ← (if wtx_IsFinal e (mtx (wt_tx t)) && c then GetEnigmaReservedAmount mine_fuel e w t else Some 0);
      m ← reserved_sum l;
      Some (n + m)
  end.

Lemma available_txs_total l outs : NoDup (l.*1) -> available_txs fuel mine_fuel e w true None l = Some outs -> 0 <= total (map co_val outs).
Proof.
  intros Hnd E. apply available_txs_ok in E as [Hin _]; [|done]. assert (Hf : Forall (fun v => 0 <= v) (map co_val outs)); [apply total_vals_nonneg|pose proof (total_marked_nonneg [] _ Hf); lia].
  intros o Ho. apply Hin in Ho as (_ & _ & (x & Ex & _ & _ & _ & Hx & _) & _). exists (nValue x). unfold co_value. by rewrite Ex.
Qed.

Lemma reserved_loop_nonneg t l : forall i r u, 0 <= r <= MAX_MONEY -> reserved_loop mine_fuel w t i l r = Some u -> 0 <= u.
Proof.
  induction l as [|x l IH]; intros i r u Hr; cbn [reserved_loop]; [intros [= <-]; lia|]. destruct (_ && _); [|by apply IH]. intros E. apply bind_Some in E as (c & Ec & E).
  assert (Hmine : exists m, out_IsMine mine_fuel w x = Some m) by (unfold txout_GetCredit in Ec; destruct (negb _); [done|]; destruct (out_IsMine mine_fuel w x) eqn:Em; [eauto|done]).
  destruct Hmine as [m Hm]. destruct (credit_bounds x m c Hm Ec) as (Hc & _). apply add_in_range in E as [Hr' E]; [|done..]. exact (IH _ _ _ Hr' E).
Qed.

Lemma reserved_sum_nonneg l : forall u, (forall h t, (h, t) ∈ l -> credit_ok t) -> reserved_sum l = Some u -> 0 <= u.
Proof.
  induction l as [|[h t] l IH]; intros u HC; cbn [reserved_sum]; [intros [= <-]; lia|]. intros E. apply bind_Some in E as (c & _ & E). apply bind_Some in E as (n & En & E). apply bind_Some in E as (m & Em & [= <-]).
  assert (0 <= m) by (eapply IH; [|done]; intros h' t' Hin; apply (HC h'); by right). assert (0 <= n); [|lia]. destruct (_ && c); [|by injection En as <-]. unfold GetEnigmaReservedAmount in En.
  apply bind_Some in En as (b & _ & En). destruct (_ && _); [by injection En as <-|]. assert (HM : 0 <= MAX_MONEY) by (vm_compute; discriminate).
  assert (HC0 : credit_ok t) by (apply (HC h); by left). assert (El : reserved_loop mine_fuel w t 0 (wt_vout t) 0 = Some n) by (destruct (fEnigmaReservedCached t) eqn:Ef; [injection En as <-; by apply cr_reserved|done]).
  eapply reserved_loop_nonneg in El; [done|lia].
Qed.

Lemma balance_loop_coins l : forall n v u outs, NoDup (l.*1) -> (forall h t, (h, t) ∈ l -> credit_ok t) -> 0 <= n -> 
  balance_loop fuel mine_fuel e w l n = Some v -> reserved_sum l = Some u -> available_txs fuel mine_fuel e w true None l = Some outs -> n + total (map co_val outs) + u < 2 ^ 63 -> v = n + total (map co_val outs) + u /\ 0 <= u.
Proof.
  induction l as [|[h t] l IH]; intros n v u outs Hnd HC Hn; cbn [balance_loop available_txs reserved_sum]; [intros [= <-] [= <-] [= <-] _; cbn; lia|]. apply NoDup_cons in Hnd as [_ Hnd].
  assert (HC' : forall h t, (h, t) ∈ l -> credit_ok t) by (intros h' t' Hin; apply (HC h'); by right). intros El Eu Eo Hs. apply bind_Some in El as (c & Ec & El). rewrite Ec in Eu, Eo. cbn [mbind option_bind] in Eu, Eo.
  apply bind_Some in Eu as (un & Eun & Eu). apply bind_Some in Eu as (um & Eum & [= <-]). specialize (fun n v outs H => IH n v um outs Hnd HC' H).
  destruct (wtx_IsFinal e _) eqn:Ef; cbn [negb andb] in *; [|injection Eun as <-; change (0 + um) with um in *; exact (IH n v outs Hn El Eum Eo Hs)].
  destruct c; cbn [negb] in *; [|injection Eun as <-; change (0 + um) with um in *; exact (IH n v outs Hn El Eum Eo Hs)]. apply bind_Some in El as (cr & Ecr & El). apply bind_Some in Eo as (b & Eb & Eo).
  assert (Hcond : (IsCoinBase (mtx (wt_tx t)) && (0 <? b)) || (IsCoinStake (mtx (wt_tx t)) && (0 <? b)) = (IsCoinBase (mtx (wt_tx t)) || IsCoinStake (mtx (wt_tx t))) && (0 <? b)) by (destruct (IsCoinBase _), (IsCoinStake _), (0 <? b); done).
  rewrite Hcond in Eo. destruct ((_ || _) && (0 <? b)) eqn:Em.
  - unfold GetAvailableCredit in Ecr. unfold GetEnigmaReservedAmount in Eun. rewrite Eb in Ecr, Eun. cbn [mbind option_bind] in Ecr, Eun. rewrite Em in Ecr, Eun. injection Ecr as <-. injection Eun as <-. change (0 + um) with um in *.
    rewrite Z.add_0_r in El. pose proof (available_txs_total l outs Hnd Eo) as Hp. assert (Hw : s64 n = n \/ 2 ^ 63 <= n) by (destruct (Z.ltb_spec n (2 ^ 63)); [left; apply swrap_id; lia|by right]).
    destruct Hw as [Hw|Hw]; [rewrite Hw in El; exact (IH n v outs Hn El Eum Eo Hs)|]. exfalso. pose proof (reserved_sum_nonneg l um HC' Eum). lia.
  - apply bind_Some in Eo as (o1 & E1 & Eo). apply bind_Some in Eo as (o2 & E2 & [= <-]). destruct (available_credit_outs h t b cr un o1 (HC h t ltac:(by left)) Eb Em Ecr Eun E1) as (-> & Hv & Hun). rewrite map_app, total_app in *.
    pose proof (available_txs_total l o2 Hnd E2) as Hp. pose proof (reserved_sum_nonneg l um HC' Eum). rewrite swrap_id in El by lia. destruct (IH (n + (total (map co_val o1) + un)) v o2 ltac:(lia) El Eum E2 ltac:(lia)) as [-> Hu]. lia.
Qed.
(** (C19) The balance is what all the coins that can be selected are worth and what is promised to cloakings. *)
Theorem balance_is_coins v u vCoins : (forall h t, mapWallet w !! h = Some t -> credit_ok t) -> total (map co_val vCoins) + u < 2 ^ 63 ->
  GetBalance fuel mine_fuel e w = Some v -> reserved_sum (entries (mapWallet w)) = Some u -> AvailableCoins fuel mine_fuel e w true None = Some vCoins -> v = total (map co_val vCoins) + u.
Proof.
  intros HC Hs EB EU EA. destruct (balance_loop_coins (entries (mapWallet w)) 0 v u vCoins (entries_nodup _)) as [-> _]; try done; try lia. intros h t Hin. rewrite entries_perm in Hin. apply elem_of_map_to_list in Hin. by apply (HC h).
Qed.
End balance.

Lemma balance_is_coins_witness : GetBalance 1 1 sample_env sample_wallet = Some 50000 /\ 50000 = total (map co_val (default [] (AvailableCoins 1 1 sample_env sample_wallet true None))) + 0.
Proof.
  split; [vm_compute; reflexivity|]. apply (balance_is_coins 1 1 sample_env sample_wallet); [|vm_compute; reflexivity..].
  intros h t E. cbn [mapWallet sample_wallet] in E. apply lookup_singleton_Some in E as [_ <-]. split; done.
Defined.
