(* ===== verification/Enigma.v ===== *)
(** * enigma/cloakingrequest.cpp, enigma/enigma.cpp: the joint transaction

    The sender of a cloaked payment asks peers to join: each accepts with inputs
    of its own, which it reserves in its wallet; when there are enough of them
    the sender makes one transaction of everybody's inputs, which pays each
    cloaker its inputs and a share of the reward at one-time keys of its
    stealth address, and the change to itself; the cloakers send back their
    signatures.  Modelled are the messages and their serialization, the outputs
    and the fee of the joint transaction, the reservation of coins, and how
    answers are taken in.  A function that returns false and one that throws are
    both [None] where their callers do the same in the two cases and nothing has
    been written yet. *)
From Stdlib Require Import ZArith Lia Bool SpecFloat.
From stdpp Require Import prelude gmap sorting.
From S2P Require Import Prelude Uint256 DataStream Serialize Crypto Bignum Opcodes Base58 Script Tx Block Index TxDB Target Keys KeyStore Stealth Pool SigHash Interp Standard Connect Util Coins.

(** ** The messages *)

Definition ENIGMA_REQUEST_CURRENTVERSION : Z := 10.

Record CCloakingIdentifier : Type := mkIdentifier { id_pubKeyHex : list Z; nInitiatedTime : Z }.

Record CCloakingInputsOutputs : Type := mkInOuts {
  io_nVersion : Z;
  io_vin : list CTxIn;
  io_vout : list CTxOut;
  io_requestIdentifier : base_uint;
  io_nSendAmount : Z;
  nInputAmount : Z;
  stealthHash : base_uint;
  requestSigned : bool;
  lockedUntilBlock : Z
}.

(** [SetNull()] sets every member but the two vectors. *)
Definition inouts_new : CCloakingInputsOutputs :=
  mkInOuts ENIGMA_REQUEST_CURRENTVERSION [] [] (bu_zero 8) 0 0 (bu_zero 8) false 0.

Record CCloakingParticipant : Type := mkParticipant {
  p_pubKey : list Z;
  p_stealthAddress : list Z;
  inOuts : CCloakingInputsOutputs;
  stealthAddressObj : CStealthAddress
}.

Record CCloakingAcceptResponse : Type := mkAccept {
  requestIdentifier : base_uint;
  participantInfo : CCloakingParticipant
}.

Record CCloakingSignResponse : Type := mkSignResponse {
  signingAddress : list Z;
  sr_identifier : base_uint;
  signResponseId : base_uint;
  signatures : list CScript
}.

(** The sets are lists in the order of the set. *)
Record CCloakingRequest : Type := mkRequest {
  cr_nVersion : Z;
  identifier : CCloakingIdentifier;
  nSendAmount : Z;
  nParticipantsRequired : Z;
  rawtx : list Z;
  signedrawtx : list Z;
  signedByAddresses : list (list Z);
  recipientAddress : list Z;
  bBroadcasted : bool;
  nBroadcastedTime : Z;
  processed : bool;
  aborted : bool;
  numSplitsRequired : Z;
  isMine : bool;
  completed : bool;
  txCreated : bool;
  autoRetry : bool;
  retryCount : Z;
  timeoutSecs : Z;
  txid : list Z;
  sParticipants : list CCloakingParticipant;
  stealthRootKey : list Z;
  senderAddress : CStealthAddress
}.

(** *** Serialization; what is not read keeps the value of [this] *)

Definition ser_identifier : Ser CCloakingIdentifier :=
  ser_struct (fun i => (id_pubKeyHex i, nInitiatedTime i)) (fun '(k, t) => mkIdentifier k t) (ser_pair ser_string (ser_int 8)).

Definition ser_inouts (this : CCloakingInputsOutputs) : Ser CCloakingInputsOutputs :=
  ser_struct
    (fun i => (io_nVersion i, io_vin i, io_vout i, (io_requestIdentifier i, nInputAmount i, io_nSendAmount i, stealthHash i)))
    (fun '(v, i, o, (r, n, s, h)) => mkInOuts v i o r s n h (requestSigned this) (lockedUntilBlock this))
    (ser_tuple4 (ser_uint 2) (ser_vector 72 ser_txin) (ser_vector 32 ser_txout) (ser_tuple4 ser_uint256 (ser_int 8) (ser_int 8) ser_uint256)).

Definition ser_participant (this : CCloakingParticipant) : Ser CCloakingParticipant :=
  ser_struct (fun p => (p_pubKey p, p_stealthAddress p, inOuts p))
    (fun '(k, s, i) => mkParticipant k s i (stealthAddressObj this))
    (ser_tuple3 ser_string ser_string (ser_inouts (inOuts this))).

Definition ser_accept (this : CCloakingAcceptResponse) : Ser CCloakingAcceptResponse :=
  ser_struct (fun a => (requestIdentifier a, participantInfo a)) (fun '(r, p) => mkAccept r p)
    (ser_pair ser_uint256 (ser_participant (participantInfo this))).

Definition ser_sign_response : Ser CCloakingSignResponse :=
  ser_struct (fun s => (signingAddress s, sr_identifier s, signResponseId s, signatures s)) (fun '(a, i, r, s) => mkSignResponse a i r s)
    (ser_tuple4 ser_string ser_uint256 ser_uint256 (ser_vector 24 ser_bytes)).

Definition ser_request (this : CCloakingRequest) : Ser CCloakingRequest :=
  ser_struct
    (fun r => (cr_nVersion r, identifier r, nSendAmount r,
      (nParticipantsRequired r, rawtx r, signedrawtx r,
        (signedByAddresses r, bBroadcasted r, nBroadcastedTime r,
          (processed r, aborted r, numSplitsRequired r,
            (isMine r, completed r, autoRetry r, (retryCount r, timeoutSecs r)))))))
    (fun '(v, i, n, (p, x, y, (s, b, t, (pr, ab, ns, (m, c, a, (rc, ts)))))) =>
      mkRequest v i n p x y s (recipientAddress this) b t pr ab ns m c (txCreated this) a rc ts (txid this) (sParticipants this) (stealthRootKey this) (senderAddress this))
    (ser_tuple4 (ser_int 4) ser_identifier (ser_uint 8)
      (ser_tuple4 (ser_int 4) ser_string ser_string
        (ser_tuple4 (ser_set lex_lt ser_string) ser_bool (ser_int 8)
          (ser_tuple4 ser_bool ser_bool (ser_int 4)
            (ser_tuple4 ser_bool ser_bool ser_bool (ser_pair (ser_int 4) (ser_int 4))))))).

Section hashes.
Context `{Crypto}.
Definition id_GetHash (i : CCloakingIdentifier) : base_uint := SerializeHash ser_identifier i.
Definition p_GetHash (p : CCloakingParticipant) : base_uint := SerializeHash (ser_participant p) p.
Definition p_lt (a b : CCloakingParticipant) : bool := bu_lt (p_GetHash a) (p_GetHash b).
Definition accept_GetHash (a : CCloakingAcceptResponse) : base_uint := SerializeHash (ser_accept a) a.
Definition sr_GetHash (s : CCloakingSignResponse) : base_uint := SerializeHash ser_sign_response s.
Definition GetIdHash (r : CCloakingRequest) : base_uint := id_GetHash (identifier r).
End hashes.

(** ** Inputs and outputs *)

(** A sum of amounts in [uint64]. *)
Definition OutputAmount (i : CCloakingInputsOutputs) : Z := fold_left (fun res o => u64 (res + u64 (nValue o))) (io_vout i) 0.

Definition set_inouts (vi : list CTxIn) (vo : list CTxOut) (i : CCloakingInputsOutputs) : CCloakingInputsOutputs :=
  mkInOuts (io_nVersion i) vi vo (io_requestIdentifier i) (io_nSendAmount i) (nInputAmount i) (stealthHash i) (requestSigned i) (lockedUntilBlock i).

Definition addVinVouts (this inouts : CCloakingInputsOutputs) (addInputs addOuputs : bool) : CCloakingInputsOutputs :=
  set_inouts (io_vin this ++ if addInputs then io_vin inouts else []) (io_vout this ++ if addOuputs then io_vout inouts else []) this.

Definition set_vinvout (vi : list CTxIn) (vo : list CTxOut) (tx : CTransaction) : CTransaction :=
  mkTx (tx_nVersion tx) (tx_nTime tx) vi vo (nLockTime tx) (data tx) (nDoS tx).

Definition addVinVoutsToTx (this : CCloakingInputsOutputs) (tx : CTransaction) (addInputs addOuputs : bool) : CTransaction :=
  set_vinvout (vin tx ++ if addInputs then io_vin this else []) (vout tx ++ if addOuputs then io_vout this else []) tx.

(** ** The reward

    [ENIGMA_TOTAL_FEE_PERCENT] and the reward are computed in [double]: the
    format binary64 with rounding to the nearest even, which the Standard Library
    specifies.  The literals are the doubles nearest to .2, 1.0 and 0.01. *)
Definition dbl_of_Z (n : Z) : spec_float := binary_normalize 53 1024 n 0 false.
Definition dbl_mul : spec_float -> spec_float -> spec_float := SFmul 53 1024.
Definition dbl_add : spec_float -> spec_float -> spec_float := SFadd 53 1024.
Definition dbl_sub : spec_float -> spec_float -> spec_float := SFsub 53 1024.
Definition dbl_div : spec_float -> spec_float -> spec_float := SFdiv 53 1024.

(** The conversion to an integer drops the fraction. *)
Definition dbl_trunc (f : spec_float) : Z :=
  match f with
  | S754_finite s m e => (if s then -1 else 1) * Z.shiftl (Z.pos m) e
  | _ => 0
  end.

Definition ENIGMA_MIN_FEE_PERCENT : spec_float := S754_finite false 7205759403792794 (-55).
Definition ENIGMA_MAX_FEE_PERCENT : spec_float := dbl_of_Z 1.
Definition dbl_hundredth : spec_float := S754_finite false 5764607523034235 (-59).
Definition ENIGMA_MIN_FEE_SENDAMOUNT : Z := 1000000000.

Definition ENIGMA_TOTAL_FEE_PERCENT (x : Z) : spec_float :=
  if ENIGMA_MIN_FEE_SENDAMOUNT <? x then ENIGMA_MIN_FEE_PERCENT
  else
    dbl_add
      (dbl_div (dbl_mul (dbl_sub ENIGMA_MAX_FEE_PERCENT ENIGMA_MIN_FEE_PERCENT) (dbl_of_Z (u64 (ENIGMA_MIN_FEE_SENDAMOUNT - x))))
               (dbl_of_Z ENIGMA_MIN_FEE_SENDAMOUNT))
      ENIGMA_MIN_FEE_PERCENT.

Definition total_reward (nSendAmount : Z) : Z :=
  dbl_trunc (dbl_mul (dbl_mul (dbl_of_Z nSendAmount) (ENIGMA_TOTAL_FEE_PERCENT nSendAmount)) dbl_hundredth).

(** [participantReward]: [dist] is [participantDistribution]; the last share is what is left. *)
Definition split_reward (totalReward : Z) (dist : list Z) : list Z :=
  let totalParticipantDistribution := fold_left (fun t d => u64 (t + d)) dist 0 in
  let shares := map (fun d => u64 (u64 totalReward * d) / totalParticipantDistribution) (removelast dist) in
  let totalParticipantReward := fold_left (fun t r => u64 (t + r)) shares 0 in
  shares ++ [u64 (u64 totalReward - totalParticipantReward)].

Section build.
Context `{BN} `{Crypto} `{EC_curve}.
Context (fTestNet : bool) (RAND_uint64 : nat -> Z) (tries : nat) (now : Z).
Local Abbreviation GetRandRange := (Util.GetRandRange RAND_uint64 tries).
Local Abbreviation SplitAmount := (Util.SplitAmount RAND_uint64 tries).

(** ** Change addresses (wallet.cpp) *)

(** The secrets of the indices [i], [i + 1] and so on; [n] of them. *)
Fixpoint change_secrets (sourceHash cloakerHash : base_uint) (offset : Z) (n : nat) (i : Z) : option (list (list Z)) :=
  match n with
  | O => Some []
  | S n =>
      secret ← GenerateEnigmaSecret sourceHash cloakerHash (u32 (u64 (i + offset)));
      secrets ← change_secrets sourceHash cloakerHash offset n (i + 1);
      Some (secret :: secrets)
  end.

(** The script that pays the one-time key of a secret. *)
Definition change_script (sxAddress : CStealthAddress) (ephem_secret : list Z) : option CScript :=
  '(_, pkSendTo) ← StealthSecret ephem_secret (scan_pubkey sxAddress) (spend_pubkey sxAddress);
  let cpkTo := mkPubKey pkSendTo in
  if negb (pk_IsValid cpkTo) then None
  else
    let addrTo := Set_KeyID fTestNet (GetID cpkTo) in
    _ ← SecretToPublicKey ephem_secret;
    Some (SetDestination (addr_Get fTestNet addrTo)).

(** The vectors are empty when it is called. *)
Definition GetEnigmaChangeAddresses (sxAddress : CStealthAddress) (stealthRootKey : list Z) (cloakerHash : base_uint) (numChangeAddresses : nat) (offset : Z)
    : option (list CScript * list (list Z)) :=
  secrets ← change_secrets (bu_SetHex 8 (HexStr stealthRootKey false)) cloakerHash offset numChangeAddresses 0;
  scripts ← mapM (change_script sxAddress) secrets;
  Some (scripts, secrets).

(** ** [CreateCloakerTxOutputs] *)

Fixpoint draw_distribution (n : nat) (k : nat) : option (list Z * nat) :=
  match n with
  | O => Some ([], k)
  | S n => '(d, k) ← GetRandRange 30000 70000 k; '(l, k) ← draw_distribution n k; Some (d :: l, k)
  end.

(** The outputs of one cloaker: [scriptChange] has as many entries as [amounts]. *)
Fixpoint put_change (amounts : list Z) (scriptChange : list CScript) (outputs : list CTxOut) : option (list CTxOut) :=
  match amounts with
  | [] => Some outputs
  | amt :: amounts =>
      match scriptChange with
      | [] => None
      | s :: scriptChange =>
          onetimeAddress ← ExtractDestination s;
          match onetimeAddress with
          | Some (DestKeyID _) => put_change amounts scriptChange (outputs ++ [mkTxOut amt s])
          | _ => None
          end
      end
  end.

Fixpoint cloakers_loop (root : list Z) (l : list CCloakingParticipant) (participantReward : list Z) (outputs : list CTxOut) (k : nat) : option (list CTxOut * nat) :=
  match l with
  | [] => Some (outputs, k)
  | cloaker :: l =>
      match participantReward with
      | [] => None
      | r :: participantReward =>
          let input := s64 (u64 (u64 (nInputAmount (inOuts cloaker)) + r)) in
          '(parts, k) ← GetRandRange 2 4 k;
          '(amounts, k) ← SplitAmount input MIN_TXOUT_AMOUNT parts k;
          '(scriptChange, _) ← GetEnigmaChangeAddresses (stealthAddressObj cloaker) root (stealthHash (inOuts cloaker)) (length amounts) 0;
          outputs ← put_change amounts scriptChange outputs;
          cloakers_loop root l participantReward outputs k
      end
  end.

(** An array of no entries has no last one. *)
Definition CreateCloakerTxOutputs (r : CCloakingRequest) (outputs : list CTxOut) (k : nat) : option (list CTxOut * nat) :=
  if nParticipantsRequired r <? 1 then None
  else
    let totalReward := total_reward (nSendAmount r) in
    '(dist, k) ← draw_distribution (Z.to_nat (nParticipantsRequired r)) k;
    cloakers_loop (stealthRootKey r) (sParticipants r) (split_reward totalReward dist) outputs k.

(** ** [AddCorrectFee] *)

(** The first output from which the fee can be taken pays it. *)
Fixpoint take_fee (intFee : Z) (l : list CTxOut) : option (list CTxOut) :=
  match l with
  | [] => None
  | o :: l =>
      if (intFee <? s64 (nValue o - MIN_TXOUT_AMOUNT)) && (0 <? nValue o)
      then Some (mkTxOut (s64 (nValue o - intFee)) (scriptPubKey o) :: l)
      else l ← take_fee intFee l; Some (o :: l)
  end.

Definition joint_fee (inOutsParticipants inOutsOurs : CCloakingInputsOutputs) : Z :=
  let tx := tx_SetNull now tx_fresh in
  let tx := addVinVoutsToTx inOutsParticipants tx true true in
  let tx := addVinVoutsToTx inOutsOurs tx true true in
  let nBytes := u32 (GetSerializeSize (ser_tx tx) SER_NETWORK PROTOCOL_VERSION tx) in
  let nBytes := u32 (nBytes + u64 (len (vin tx) * 120)) in
  GetMinFee tx 1 false GMF_SEND nBytes.

(** [senderChangeStartIndex] is an index into the outputs, or their number. *)
Definition AddCorrectFee (inOutsParticipants inOutsOurs : CCloakingInputsOutputs) (senderChangeStartIndex : nat) : option CCloakingInputsOutputs :=
  change ← take_fee (joint_fee inOutsParticipants inOutsOurs) (drop senderChangeStartIndex (io_vout inOutsOurs));
  Some (set_inouts (io_vin inOutsOurs) (take senderChangeStartIndex (io_vout inOutsOurs) ++ change) inOutsOurs).

(** ** [CreateEnigmaOutputs] *)

(** The loop that adds our change: one output for every script. *)
Fixpoint put_sender (amounts : list Z) (scriptChange : list CScript) (outputs : list CTxOut) : option (list CTxOut) :=
  match scriptChange, amounts with
  | [], _ => Some outputs
  | s :: scriptChange, amt :: amounts => put_sender amounts scriptChange (outputs ++ [mkTxOut amt s])
  | _, [] => None
  end.

(** [inOutsOurs] and [inOutsFinal] afterwards. *)
Definition CreateEnigmaOutputs (r : CCloakingRequest) (inOutsCloakers inOutsOurs inOutsFinal : CCloakingInputsOutputs) (k : nat)
    : option (CCloakingInputsOutputs * CCloakingInputsOutputs * nat) :=
  '(outs, k) ← CreateCloakerTxOutputs r (io_vout inOutsCloakers) k;
  let inOutsCloakers := set_inouts (io_vin inOutsCloakers) outs inOutsCloakers in
  let amountIn := fold_left (fun a c => s64 (a + nInputAmount (inOuts c))) (sParticipants r) (nInputAmount inOutsOurs) in
  let amountOut := u64 (OutputAmount inOutsOurs + OutputAmount inOutsCloakers) in
  let senderChangeStartIndex := length (io_vout inOutsOurs) in
  let amountRemain := s64 (u64 (u64 amountIn - amountOut)) in
  let amountRemain := s64 (amountRemain - MIN_TXOUT_AMOUNT) in
  '(parts, k) ← GetRandRange 2 3 k;
  '(amounts, k) ← SplitAmount amountRemain MIN_TXOUT_AMOUNT parts k;
  '(scriptChange, _) ← GetEnigmaChangeAddresses (senderAddress r) (stealthRootKey r) (GetEnigmaAddressPrivateHash (senderAddress r)) (length amounts) 0;
  vo ← put_sender amounts scriptChange (io_vout inOutsOurs);
  let inOutsOurs := set_inouts (io_vin inOutsOurs) vo inOutsOurs in
  inOutsOurs ← AddCorrectFee inOutsCloakers inOutsOurs senderChangeStartIndex;
  let inOutsFinal := addVinVouts inOutsFinal inOutsOurs true true in
  Some (inOutsOurs, addVinVouts inOutsFinal inOutsCloakers true true, k).
End build.

(** ** Secrets shared with peers (encryption.cpp) *)

(** ECDH_compute_key(3) with our key; [None]: the peer's key has no public point. *)
Class ECDH `{EC} : Type := { ECDH_compute_key : EC_KEY -> EC_KEY -> option (list Z) }.

Record CCloakingSecret : Type := mkSecret {
  userPubKey : list Z;
  cs_chKey : list Z;
  cs_chIV : list Z;
  secretHex : list Z;
  keyHex : list Z;
  ivHex : list Z
}.

Section secrets.
Context `{Crypto} `{ECDH} `{AES}.

(** The secret, or the answer false; and the map.  [None]: a null pointer is read. *)
Definition GetSecret (mapCloakSecrets : gmap (list Z) CCloakingSecret) (pkey : EC_KEY) (targetPubKey : list Z) (addToMap : bool)
    : option (option CCloakingSecret * gmap (list Z) CCloakingSecret) :=
  match mapCloakSecrets !! targetPubKey with
  | Some s => Some (Some s, mapCloakSecrets)
  | None =>
      let '(ok, peerkey) :=
        match o2i_ECPublicKey EC_KEY_new (ParseHex targetPubKey) with
        | Some peerkey => (EC_KEY_check_key peerkey, peerkey)
        | None => (true, EC_KEY_new)
        end in
      if negb ok then Some (None, mapCloakSecrets)
      else
        vchSecret ← ECDH_compute_key peerkey pkey;
        match vchSecret with
        | [] => Some (None, mapCloakSecrets)
        | _ =>
            let vchSecretHash := bu_bytes (Hash vchSecret) in
            let '(_, key, iv) := EVP_BytesToKey [] vchSecretHash 25000 in
            let s := mkSecret targetPubKey key iv (HexStr vchSecretHash false) (HexStr key false) (HexStr (take 16 iv) false) in
            Some (Some s, if addToMap then <[targetPubKey := s]> mapCloakSecrets else mapCloakSecrets)
        end
  end.
End secrets.

(** ** What is sent and who is banned *)

Definition ENIGMA_MSG_CLOAKER_ACCEPTED : Z := 1.
Definition ENIGMA_MSG_CLOAKER_REJECTED : Z := 2.
Definition ENIGMA_MSG_SIGN_REQUEST_NOT_FOUND : Z := 3.
Definition ENIGMA_MSG_SIGN_INPUTS_OUTPUTS_MISSING : Z := 4.
Definition ENIGMA_MSG_SIGN_INPUT_NOT_FOUND : Z := 5.
Definition ENIGMA_MSG_SIGN_CHANGE_MISSING : Z := 6.
Definition ENIGMA_BANSECS_MISSING_INPUTS : Z := 600.

Inductive enigma_effect : Type :=
| SendMessage (code : Z) (text : list Z) (secret : CCloakingSecret)
| SendSignRequest (r : CCloakingRequest)
| SendAccept (a : CCloakingAcceptResponse) (secret : option CCloakingSecret)
| SubmitTx (tx : CTransaction)
| SendSignResponse (r : CCloakingSignResponse) (secret : option CCloakingSecret)
| BanPeer (nodePubKey : list Z) (banTimeSecs : Z).

(** ** Members of [CCloakingRequest] that change one field *)

Definition set_participants (l : list CCloakingParticipant) (r : CCloakingRequest) : CCloakingRequest :=
  mkRequest (cr_nVersion r) (identifier r) (nSendAmount r) (nParticipantsRequired r) (rawtx r) (signedrawtx r) (signedByAddresses r) (recipientAddress r) (bBroadcasted r)
    (nBroadcastedTime r) (processed r) (aborted r) (numSplitsRequired r) (isMine r) (completed r) (txCreated r) (autoRetry r) (retryCount r) (timeoutSecs r) (txid r) l
    (stealthRootKey r) (senderAddress r).
Definition set_txCreated (r : CCloakingRequest) : CCloakingRequest :=
  mkRequest (cr_nVersion r) (identifier r) (nSendAmount r) (nParticipantsRequired r) (rawtx r) (signedrawtx r) (signedByAddresses r) (recipientAddress r) (bBroadcasted r)
    (nBroadcastedTime r) (processed r) (aborted r) (numSplitsRequired r) (isMine r) (completed r) true (autoRetry r) (retryCount r) (timeoutSecs r) (txid r) (sParticipants r)
    (stealthRootKey r) (senderAddress r).
Definition set_rawtx (raw signed : list Z) (r : CCloakingRequest) : CCloakingRequest :=
  mkRequest (cr_nVersion r) (identifier r) (nSendAmount r) (nParticipantsRequired r) raw signed (signedByAddresses r) (recipientAddress r) (bBroadcasted r)
    (nBroadcastedTime r) (processed r) (aborted r) (numSplitsRequired r) (isMine r) (completed r) (txCreated r) (autoRetry r) (retryCount r) (timeoutSecs r) (txid r) (sParticipants r)
    (stealthRootKey r) (senderAddress r).
Definition set_signedBy (l : list (list Z)) (r : CCloakingRequest) : CCloakingRequest :=
  mkRequest (cr_nVersion r) (identifier r) (nSendAmount r) (nParticipantsRequired r) (rawtx r) (signedrawtx r) l (recipientAddress r) (bBroadcasted r)
    (nBroadcastedTime r) (processed r) (aborted r) (numSplitsRequired r) (isMine r) (completed r) (txCreated r) (autoRetry r) (retryCount r) (timeoutSecs r) (txid r) (sParticipants r)
    (stealthRootKey r) (senderAddress r).
Definition set_aborted (r : CCloakingRequest) : CCloakingRequest :=
  mkRequest (cr_nVersion r) (identifier r) (nSendAmount r) (nParticipantsRequired r) (rawtx r) (signedrawtx r) (signedByAddresses r) (recipientAddress r) (bBroadcasted r)
    (nBroadcastedTime r) (processed r) true (numSplitsRequired r) (isMine r) (completed r) (txCreated r) (autoRetry r) (retryCount r) (timeoutSecs r) (txid r) (sParticipants r)
    (stealthRootKey r) (senderAddress r).

(** [SetNull()] of a new object; [splits] is what the memory holds for [numSplitsRequired],
    which is not set. *)
Definition request_new (fAutoRetry : bool) (p : stealth_prefix) (splits : Z) : CCloakingRequest :=
  mkRequest ENIGMA_REQUEST_CURRENTVERSION (mkIdentifier [] 0) 0 3 [] [] [] [] false 0 false false splits false false false fAutoRetry 0 60 [48] [] [] (stealth_new p).

(** ** The sender's node *)

Section node.
Context {D : Type} `{!TxIndexDB D} `{BNI : BN} `{CR : Crypto} `{ECI : EC} `{!EC_curve} `{!ECDH} `{AE : AES}.
Context (fTestNet : bool) (RAND_uint64 : nat -> Z) (tries : nat) (now : Z).
Context (files : block_files) (pool : CTxMemPool) (txdb : D) (st : index_state) (nCoinbaseMaturity nBestHeight : Z).
Context (pkey : EC_KEY) (fAutoRetry : bool) (p_mem : stealth_prefix) (splits_mem : Z).

Local Abbreviation FetchInputs tx := (Connect.FetchInputs files pool txdb ∅ false false tx ∅).

(** What the handlers read and change; [k] counts the random numbers drawn, and
    [effects] are listed from the last. *)
Record enigma_state : Type := mkEnigma {
  mapOurCloakingRequests : gmap base_uint CCloakingRequest;
  mapCloakingInputsOutputs : gmap base_uint CCloakingInputsOutputs;
  mapCloakSecrets : gmap (list Z) CCloakingSecret;
  effects : list enigma_effect;
  es_k : nat
}.

Definition put_request (h : base_uint) (r : CCloakingRequest) (s : enigma_state) : enigma_state :=
  mkEnigma (<[h := r]> (mapOurCloakingRequests s)) (mapCloakingInputsOutputs s) (mapCloakSecrets s) (effects s) (es_k s).
Definition put_inouts (h : base_uint) (i : CCloakingInputsOutputs) (s : enigma_state) : enigma_state :=
  mkEnigma (mapOurCloakingRequests s) (<[h := i]> (mapCloakingInputsOutputs s)) (mapCloakSecrets s) (effects s) (es_k s).
Definition put_secrets (m : gmap (list Z) CCloakingSecret) (s : enigma_state) : enigma_state :=
  mkEnigma (mapOurCloakingRequests s) (mapCloakingInputsOutputs s) m (effects s) (es_k s).
Definition emit (e : enigma_effect) (s : enigma_state) : enigma_state :=
  mkEnigma (mapOurCloakingRequests s) (mapCloakingInputsOutputs s) (mapCloakSecrets s) (e :: effects s) (es_k s).
Definition at_k (k : nat) (s : enigma_state) : enigma_state :=
  mkEnigma (mapOurCloakingRequests s) (mapCloakingInputsOutputs s) (mapCloakSecrets s) (effects s) k.

(** *** [CreateTransactionAndRequestSign] *)

(** The inputs of all the cloakers. *)
Definition collate (l : list CCloakingParticipant) : CCloakingInputsOutputs :=
  fold_left (fun a c => addVinVouts a (inOuts c) true false) l inouts_new.

(** The joint transaction from what [CreateEnigmaOutputs] gives; [None] only when
    no random number is drawn. *)
Definition joint_transaction (root : list Z) (inOuts : CCloakingInputsOutputs) (k : nat) : option (CTransaction * nat) :=
  '(vi, k) ← random_shuffle RAND_uint64 tries (io_vin inOuts) k;
  '(vo, k) ← random_shuffle RAND_uint64 tries (io_vout inOuts) k;
  let scriptP := push_vch [OP_RETURN] root in
  let inOuts := set_inouts vi (vo ++ [mkTxOut MIN_TXOUT_AMOUNT scriptP]) inOuts in
  Some (addVinVoutsToTx inOuts (tx_SetNull now tx_fresh) true true, k).

(** The fee of the transaction by the index and the pool; [None] where the code
    returns false or throws. *)
Definition joint_fees (tx : CTransaction) : option Z :=
  '(ok, fInvalid, mapInputs) ← FetchInputs tx;
  if negb ok || fInvalid then None
  else valIn ← GetValueIn tx mapInputs; valOut ← GetValueOut tx; Some (s64 (valIn - valOut)).

(** [r] is the request with the identifier hash [h] in the map. *)
Definition CreateTransactionAndRequestSign (h : base_uint) (r : CCloakingRequest) (s : enigma_state) : option (bool * enigma_state) :=
  if negb (nParticipantsRequired r <=? len (sParticipants r)) then Some (true, s)
  else
    match mapCloakingInputsOutputs s !! GetIdHash r with
    | None => Some (false, s)
    | Some inOutsMine =>
        match CreateEnigmaOutputs fTestNet RAND_uint64 tries now r (collate (sParticipants r)) inOutsMine inouts_new (es_k s) with
        | None => Some (false, s)
        | Some (inOutsMine, inOuts, k) =>
            let s := put_inouts (GetIdHash r) inOutsMine s in
            '(jointTrans, k) ← joint_transaction (stealthRootKey r) inOuts k;
            let raw := HexStr (Serialize (ser_tx jointTrans) SER_NETWORK PROTOCOL_VERSION jointTrans) false in
            let r := set_rawtx raw raw r in
            let s := at_k k (put_request h r s) in
            match joint_fees jointTrans with
            | None => Some (false, s)
            | Some nFees => if nFees <? MIN_TX_FEE then Some (false, s) else Some (true, emit (SendSignRequest r) s)
            end
        end
    end.

(** *** [CheckValid] *)

(** The loop over the inputs; [Refuse 1] bans the owner, and [Refuse 0] does not. *)
Fixpoint valid_loop (l : list CTxIn) (mapInputs : MapPrevTx) (nValueIn : Z) : option (verdict Z) :=
  match l with
  | [] => Some (Accept nValueIn)
  | txin :: l =>
      match mapInputs !! op_hash (prevout txin) with
      | None => Some (Refuse 0)
      | Some (txindex, txPrev) =>
          let n := op_n (prevout txin) in
          if (len (vout txPrev) <=? n) || (len (vSpent txindex) <=? n) then Some (Refuse 1)
          else
            young ← match pindexBest st with None => Some false | Some best => immature st nCoinbaseMaturity best txPrev txindex end;
            if young : bool then Some (Refuse 1)
            else if now <? tx_nTime txPrev then Some (Refuse 1)
            else
              out ← vout txPrev !! Z.to_nat n;
              let nValueIn := s64 (nValueIn + nValue out) in
              if negb (MoneyRange (nValue out)) || negb (MoneyRange nValueIn) then Some (Refuse 1)
              else valid_loop l mapInputs nValueIn
      end
  end.

Definition set_input_amount (n : Z) (i : CCloakingInputsOutputs) : CCloakingInputsOutputs :=
  mkInOuts (io_nVersion i) (io_vin i) (io_vout i) (io_requestIdentifier i) (io_nSendAmount i) n (stealthHash i) (requestSigned i) (lockedUntilBlock i).

(** The answer, whether the owner is banned, and the object afterwards; an exception
    gives the answer false. *)
Definition CheckValid (this : CCloakingInputsOutputs) (minInputAmount : Z) (ownerPubKey : list Z) : bool * bool * CCloakingInputsOutputs :=
  let named := negb (bool_decide (ownerPubKey = [])) in
  let txTemp := set_vinvout (io_vin this) (io_vout this) (tx_SetNull now tx_fresh) in
  match FetchInputs txTemp with
  | None => (false, false, this)
  | Some (ok, _, mapInputs) =>
      if negb ok then (false, false, this)
      else
        match valid_loop (io_vin this) mapInputs 0 with
        | None => (false, false, this)
        | Some (Refuse d) => (false, named && (d =? 1), this)
        | Some (Accept nValueIn) => (true, named && (nValueIn <? minInputAmount), set_input_amount nValueIn this)
        end
  end.

(** *** [ProcessAcceptResponse] *)

(** [mapOurCloakingRequests[requestIdentifier]]: an unknown identifier gets a new request. *)
Definition our_request (h : base_uint) (s : enigma_state) : CCloakingRequest * enigma_state :=
  match mapOurCloakingRequests s !! h with
  | Some r => (r, s)
  | None => let r := request_new fAutoRetry p_mem splits_mem in (r, put_request h r s)
  end.

Definition with_inouts (i : CCloakingInputsOutputs) (a : CStealthAddress) (p : CCloakingParticipant) : CCloakingParticipant :=
  mkParticipant (p_pubKey p) (p_stealthAddress p) i a.

Definition ProcessAcceptResponse (a : CCloakingAcceptResponse) (s : enigma_state) : option (bool * enigma_state) :=
  let h := requestIdentifier a in
  let p := participantInfo a in
  let '(request, s) := our_request h s in
  if negb (IsStealthAddress (p_stealthAddress p)) then Some (false, s)
  else if bytes_eqb (c_str (recipientAddress request)) (p_stealthAddress p) then Some (false, s)
  else
    let '(_, sxa) := SetEncoded (stealthAddressObj p) (p_stealthAddress p) in
    '(secret, m) ← GetSecret (mapCloakSecrets s) pkey (p_pubKey p) true;
    let s := put_secrets m s in
    match secret with
    | None => Some (false, s)
    | Some secret =>
        let text := bu_GetHex (GetIdHash request) in
        if len (sParticipants request) <? nParticipantsRequired request then
          let '(ok, ban, io) := CheckValid (inOuts p) (s64 (nSendAmount request)) (p_pubKey p) in
          let s := if ban : bool then emit (BanPeer (p_pubKey p) ENIGMA_BANSECS_MISSING_INPUTS) s else s in
          if negb (ok : bool) then Some (false, s)
          else
            let request := set_participants (set_insert p_lt (with_inouts io sxa p) (sParticipants request)) request in
            let s := emit (SendMessage ENIGMA_MSG_CLOAKER_ACCEPTED text secret) (put_request h request s) in
            if (nParticipantsRequired request <=? len (sParticipants request)) && negb (txCreated request) then
              let request := set_txCreated request in
              '(_, s) ← CreateTransactionAndRequestSign h request (put_request h request s);
              Some (true, s)
            else Some (true, s)
        else Some (false, emit (SendMessage ENIGMA_MSG_CLOAKER_REJECTED text secret) s)
    end.

(** *** Signatures come back *)

(** [DeserializeTx]: all that the bytes hold is read, and the first transaction kept;
    it throws when they do not read as transactions, or hold none. *)
Fixpoint read_txs (fuel : nat) (d : CDataStream) : option (list CTransaction) :=
  match fuel with
  | O => None
  | S fuel =>
      if ds_empty d then Some []
      else
        match Unserialize (ser_tx (tx_SetNull now tx_fresh)) SER_NETWORK PROTOCOL_VERSION d with
        | (inr tx, d) => l ← read_txs fuel d; Some (tx :: l)
        | (inl _, _) => None
        end
  end.

Definition DeserializeTx (tx : list Z) : option CTransaction :=
  let txData := ParseHex tx in
  l ← read_txs (S (length txData)) (Init txData SER_NETWORK PROTOCOL_VERSION); head l.

(** A longer script replaces the one that is there. *)
Definition merge_sig (sig : CScript) (i : CTxIn) : CTxIn :=
  if len (scriptSig i) <? len sig then mkTxIn (prevout i) sig (nSequence i) else i.
Definition sig_longer (p : CScript * CTxIn) : bool := len (scriptSig p.2) <? len p.1.

(** [None]: the bytes hold no transaction; what [DeserializeTx] throws then is not a
    [std::exception], and is not caught here. *)
Definition AddSignedInputsToTx (r : CCloakingRequest) (signResponse : CCloakingSignResponse) : option (bool * CCloakingRequest) :=
  txRequest ← DeserializeTx (signedrawtx r);
  let sigs := signatures signResponse in
  if negb (len sigs =? len (vin txRequest)) then Some (false, r)
  else
    let updated := existsb sig_longer (zip sigs (vin txRequest)) in
    let txRequest := set_vinvout (zip_with merge_sig sigs (vin txRequest)) (vout txRequest) txRequest in
    let r := if updated then set_rawtx (rawtx r) (HexStr (Serialize (ser_tx txRequest) SER_NETWORK PROTOCOL_VERSION txRequest) false) r else r in
    Some (true, set_signedBy (set_insert lex_lt (signingAddress signResponse) (signedByAddresses r)) r).

(** *** Time limits *)

Definition ENIGMA_MAX_RETRIES : Z := 3.
Definition ShouldRetry (r : CCloakingRequest) : bool := retryCount r <? ENIGMA_MAX_RETRIES.

Definition IsExpired (r : CCloakingRequest) : bool :=
  let timeTaken := s32 (now - nBroadcastedTime r) in timeoutSecs r <? timeTaken.

(** [operator[]] of a missing entry adds a new one. *)
Definition ShouldAbort (r : CCloakingRequest) (s : enigma_state) : bool * enigma_state :=
  if negb (completed r) && negb (aborted r) && IsExpired r then
    match mapCloakingInputsOutputs s !! GetIdHash r with
    | None => let s := put_inouts (GetIdHash r) inouts_new s in
              (lockedUntilBlock inouts_new <=? nBestHeight, s)
    | Some _ => (true, s)
    end
  else (true, s).

Definition retried (r : CCloakingRequest) : CCloakingRequest :=
  mkRequest (cr_nVersion r) (mkIdentifier (id_pubKeyHex (identifier r)) now) (nSendAmount r) (nParticipantsRequired r) (rawtx r) (signedrawtx r) [] (recipientAddress r) true
    now (processed r) false (numSplitsRequired r) (isMine r) (completed r) (txCreated r) (autoRetry r) (s32 (retryCount r + 1)) (timeoutSecs r) (txid r) []
    (stealthRootKey r) (senderAddress r).

(** The request under its new identifier, which is then announced, or the answer false. *)
Definition Retry (this : CCloakingRequest) (s : enigma_state) : option CCloakingRequest * enigma_state :=
  let oldHash := GetIdHash this in
  match mapCloakingInputsOutputs s !! oldHash with
  | None => (None, s)
  | Some io =>
      let '(req, s) := our_request oldHash s in
      let req := retried req in
      let newHash := GetIdHash req in
      let s := put_inouts newHash io (put_request newHash req s) in
      (Some req, mkEnigma (delete oldHash (mapOurCloakingRequests s)) (delete oldHash (mapCloakingInputsOutputs s)) (mapCloakSecrets s) (effects s) (es_k s))
  end.
End node.

(** ** A cloaker's wallet *)

Section reserve.
Context `{CR : Crypto} `{ECI : EC} {K : Type} `{KS : !CKeyStore K}.
Context (RAND_uint64 : nat -> Z) (tries : nat) (C_rand : nat -> Z).
(** The order of a set of coins, which is that of the addresses of the transactions in memory. *)
Context (ptr_order : gset coin -> list coin).

Definition put_wtx (h : base_uint) (t : CWalletTx) (w : CWallet K) : CWallet K := mkWallet (w_keys w) (<[h := t]> (mapWallet w)).

(** The coins are in the map, under the hashes of their transactions; an index out of
    range throws. *)
Fixpoint reserve_coins (l : list coin) (w : CWallet K) : bool * CWallet K :=
  match l with
  | [] => (true, w)
  | (h, n) :: l =>
      match t ← mapWallet w !! h; MarkEnigmaReserved t n with
      | None => (false, w)
      | Some t => reserve_coins l (put_wtx h t w)
      end
  end.

(** [CTxIn(hash, n)] *)
Definition coin_txin (c : coin) : CTxIn := mkTxIn (mkOutPoint c.1 (Z.of_nat c.2)) [] UINT_MAX.

Definition GetCloakingInputsMine (fuel mine_fuel : nat) (e : wallet_env) (r : CCloakingRequest) (part : CCloakingParticipant) (w : CWallet K)
    (m : gmap base_uint CCloakingInputsOutputs) (k kr : nat) : option (bool * CCloakingParticipant * CWallet K * gmap base_uint CCloakingInputsOutputs) :=
  let amt := s64 (u64 (nSendAmount r + MIN_TXOUT_AMOUNT)) in
  let io := inOuts part in
  let io0 := mkInOuts (io_nVersion io) [] [] (io_requestIdentifier io) amt (nInputAmount io) (stealthHash io) false (lockedUntilBlock io) in
  vCoins ← AvailableCoins fuel mine_fuel e w true None;
  '(ok, (setCoins, nChange), _, _) ← SelectCoinsMinConf RAND_uint64 tries C_rand mine_fuel w amt (we_adjusted_time e) 1 6 vCoins k kr;
  if negb (ok : bool) then Some (false, with_inouts io0 (stealthAddressObj part) part, w, m)
  else
    let '(ok, w) := reserve_coins (ptr_order setCoins) w in
    if negb (ok : bool) then Some (false, with_inouts io0 (stealthAddressObj part) part, w, m)
    else
      let io1 := mkInOuts (io_nVersion io) (map coin_txin (ptr_order setCoins)) [] (io_requestIdentifier io) (s64 (nSendAmount r)) nChange
                   (GetEnigmaAddressPrivateHash (stealthAddressObj part)) false (lockedUntilBlock io) in
      Some (true, with_inouts io1 (stealthAddressObj part) part, w, <[GetIdHash r := io1]> m).

(** The loop of [Abort]: an input that is not in the wallet is passed over. *)
Fixpoint free_inputs (l : list CTxIn) (w : CWallet K) : bool * CWallet K :=
  match l with
  | [] => (true, w)
  | i :: l =>
      match mapWallet w !! op_hash (prevout i) with
      | None => free_inputs l w
      | Some t =>
          match MarkNotEnigmaReserved t (Z.to_nat (op_n (prevout i))) with
          | None => (false, w)
          | Some t => free_inputs l (put_wtx (op_hash (prevout i)) t w)
          end
      end
  end.

Definition Abort (r : CCloakingRequest) (m : gmap base_uint CCloakingInputsOutputs) (w : CWallet K) : bool * CCloakingRequest * CWallet K :=
  let r := set_aborted r in
  match m !! GetIdHash r with
  | None => (true, r, w)
  | Some io => let '(ok, w) := free_inputs (io_vin io) w in (ok, r, w)
  end.
End reserve.

(** ** The messages can be read back *)

Definition identifier_wf (i : CCloakingIdentifier) : Prop := bytes_wf (id_pubKeyHex i) /\ sfits 64 (nInitiatedTime i).

Definition inouts_wf (this i : CCloakingInputsOutputs) : Prop :=
  (fits 16 (io_nVersion i) /\ vector_wf txin_wf (io_vin i) /\ vector_wf txout_wf (io_vout i) /\
   (wf 8 (io_requestIdentifier i) /\ sfits 64 (nInputAmount i) /\ sfits 64 (io_nSendAmount i) /\ wf 8 (stealthHash i))) /\
  requestSigned i = requestSigned this /\ lockedUntilBlock i = lockedUntilBlock this.

Definition participant_wf (this p : CCloakingParticipant) : Prop :=
  (bytes_wf (p_pubKey p) /\ bytes_wf (p_stealthAddress p) /\ inouts_wf (inOuts this) (inOuts p)) /\ stealthAddressObj p = stealthAddressObj this.

Definition accept_wf (this a : CCloakingAcceptResponse) : Prop :=
  wf 8 (requestIdentifier a) /\ participant_wf (participantInfo this) (participantInfo a).

Definition sign_response_wf (s : CCloakingSignResponse) : Prop :=
  bytes_wf (signingAddress s) /\ wf 8 (sr_identifier s) /\ wf 8 (signResponseId s) /\ vector_wf bytes_wf (signatures s).

Definition request_wf (this r : CCloakingRequest) : Prop :=
  (sfits 32 (cr_nVersion r) /\ identifier_wf (identifier r) /\ fits 64 (nSendAmount r) /\
   (sfits 32 (nParticipantsRequired r) /\ bytes_wf (rawtx r) /\ bytes_wf (signedrawtx r) /\
    ((vector_wf bytes_wf (signedByAddresses r) /\ set_sorted lex_lt (signedByAddresses r)) /\ True /\ sfits 64 (nBroadcastedTime r) /\
     (True /\ True /\ sfits 32 (numSplitsRequired r) /\ (True /\ True /\ True /\ (sfits 32 (retryCount r) /\ sfits 32 (timeoutSecs r))))))) /\
  recipientAddress r = recipientAddress this /\ txCreated r = txCreated this /\ txid r = txid this /\ sParticipants r = sParticipants this /\
  stealthRootKey r = stealthRootKey this /\ senderAddress r = senderAddress this.

Ltac members := eauto using ser_string_correct, ser_bytes_correct, ser_uint256_correct, ser_s32_correct, ser_s64_correct, ser_bool_correct, ser_txin_correct, ser_txout_correct.

Lemma ser_identifier_correct : ser_correct identifier_wf ser_identifier.
Proof. eapply ser_struct_correct_on; [| |apply ser_pair_correct; members]; [by intros []|by intros []]. Qed.

Lemma ser_inouts_correct this : ser_correct (inouts_wf this) (ser_inouts this).
Proof.
  eapply ser_struct_correct_on; [| |apply ser_tuple4_correct; [apply (ser_uint_correct 2); lia|apply ser_vector_correct; [members|lia]|apply ser_vector_correct; [members|lia]|apply ser_tuple4_correct; members]].
  - intros [v i o r s n h b l] (Hw & Hb & Hl). cbn in *. by subst.
  - intros [[[v i] o] [[[r s] n] h]] Hw. by split.
Qed.

Lemma ser_participant_correct this : ser_correct (participant_wf this) (ser_participant this).
Proof.
  eapply ser_struct_correct_on; [| |apply ser_tuple3_correct; [members|members|apply (ser_inouts_correct (inOuts this))]].
  - intros [k s i a] [Hw Ha]. cbn in *. by subst.
  - intros [[k s] i] Hw. by split.
Qed.

Lemma ser_accept_correct this : ser_correct (accept_wf this) (ser_accept this).
Proof.
  eapply ser_struct_correct_on; [| |apply ser_pair_correct; [members|apply (ser_participant_correct (participantInfo this))]]; [by intros []|by intros []].
Qed.

Lemma ser_sign_response_correct : ser_correct sign_response_wf ser_sign_response.
Proof.
  eapply ser_struct_correct_on; [| |apply ser_tuple4_correct; [members|members|members|apply ser_vector_correct; [members|lia]]]; [by intros []|by intros [[[]]]].
Qed.

Lemma ser_request_correct this : ser_correct (request_wf this) (ser_request this).
Proof.
  eapply ser_struct_correct_on; [| |apply ser_tuple4_correct; [members|apply ser_identifier_correct|apply (ser_uint_correct 8); lia|
    apply ser_tuple4_correct; [members..|apply ser_tuple4_correct; [apply ser_set_correct; members|members|members|
      apply ser_tuple4_correct; [members..|apply ser_tuple4_correct; [members..|apply ser_pair_correct; members]]]]]].
  - intros [] (Hw & H1 & H2 & H3 & H4 & H5 & H6). cbn in *. by subst.
  - intros b Hw. repeat match goal with x : _ * _ |- _ => destruct x end. by split.
  - apply lex_lt_irrefl.
  - apply lex_lt_trans.
Qed.

(** ** The reward is split without loss *)

Lemma fold_u64_total l : forall t, 0 <= t -> Forall (fun x => 0 <= x) l -> t + Util.total l < 2 ^ 64 ->
  fold_left (fun a x => u64 (a + x)) l t = t + Util.total l.
Proof.
  induction l as [|x l IH]; intros t Ht Hl Hs; cbn [fold_left]; [unfold Util.total; cbn; lia|].
  apply Forall_cons in Hl as [Hx Hl]. rewrite Util.total_cons in *. assert (0 <= Util.total l) by (clear -Hl; induction Hl; [done|rewrite Util.total_cons; lia]).
  rewrite wrap_id by (unfold fits; lia). rewrite IH by (done || lia). lia.
Qed.

Lemma total_nonneg_Z l : Forall (fun x => 0 <= x) l -> 0 <= Util.total l.
Proof. induction 1; [done|rewrite Util.total_cons; lia]. Qed.

Lemma total_bound m l : Forall (fun x => x <= m) l -> Util.total l <= m * len l.
Proof. induction 1; [unfold len; cbn; lia|rewrite Util.total_cons, len_cons; lia]. Qed.

Lemma total_shares R t l : 0 < t -> 0 <= R -> Forall (fun x => 0 <= x) l -> t * Util.total (map (fun d => R * d / t) l) <= R * Util.total l.
Proof.
  intros Ht HR. induction 1 as [|d l Hd Hl IH]; cbn [map]; [unfold Util.total; cbn; lia|]. rewrite !Util.total_cons.
  pose proof (Z.mul_div_le (R * d) t ltac:(lia)). lia.
Qed.

Definition dist_ok (dist : list Z) : Prop := dist <> [] /\ len dist < 2 ^ 31 /\ Forall (fun d => 30000 <= d <= 70000) dist.

Lemma split_reward_spec R dist : dist_ok dist -> 0 <= R <= MAX_MONEY ->
  length (split_reward R dist) = length dist /\ Forall (fun r => 0 <= r <= R) (split_reward R dist) /\ Util.total (split_reward R dist) = R /\
  forall i d r, (S i < length dist)%nat -> dist !! i = Some d -> split_reward R dist !! i = Some r -> r = R * d / Util.total dist.
Proof.
  intros (Hne & Hlen & Hd) HR. change MAX_MONEY with 10000000000000 in HR. destruct (exists_last Hne) as (l & x & ->).
  apply Forall_app in Hd as [Hl Hx]. apply Forall_cons in Hx as [Hx _]. unfold split_reward. rewrite removelast_last.
  assert (Hl0 : Forall (fun d => 0 <= d) l) by (eapply Forall_impl; [exact Hl|intros; cbn in *; lia]).
  pose proof (total_nonneg_Z l Hl0). pose proof (total_bound 70000 l ltac:(eapply Forall_impl; [exact Hl|intros; cbn in *; lia])) as Hb.
  unfold len in Hlen, Hb. rewrite length_app in Hlen. cbn in Hlen.
  assert (Et : fold_left (fun t d => u64 (t + d)) (l ++ [x]) 0 = Util.total (l ++ [x])).
  { rewrite fold_u64_total; [lia|lia|apply Forall_app; split; [done|]; constructor; [lia|done]|rewrite Util.total_app; unfold Util.total at 2; cbn; lia]. }
  rewrite Et. set (t := Util.total (l ++ [x])) in *. assert (Htt : t = Util.total l + x) by (unfold t; rewrite Util.total_app; unfold Util.total at 2; cbn; lia).
  assert (Es : map (fun d => u64 (u64 R * d) / t) l = map (fun d => R * d / t) l).
  { apply map_ext_in. intros d Hdl. apply List.Forall_forall with (x := d) in Hl; [|done]. rewrite (wrap_id 64 R) by (unfold fits; lia). rewrite wrap_id by (unfold fits; nia). done. }
  rewrite Es. pose proof (total_shares R t l ltac:(lia) ltac:(lia) Hl0) as Hs. set (sh := map (fun d => R * d / t) l) in *.
  assert (Hsh : Forall (fun r => 0 <= r <= R) sh).
  { apply Forall_map. eapply Forall_impl; [apply Forall_and; split; [exact Hl|apply Forall_forall; intros d Hdl; exact Hdl]|]. intros d [Hdr Hdl]. cbn in *. split; [apply Z.div_pos; lia|].
    apply Z.div_le_upper_bound; [lia|]. assert (d <= t); [|nia]. rewrite Htt. clear -Hdl Hl0 Hx. induction Hl0 as [|y l' Hy Hl' IH]; [by apply elem_of_nil in Hdl|].
    rewrite Util.total_cons. apply elem_of_cons in Hdl as [->|Hdl]; [pose proof (total_nonneg_Z _ Hl'); lia|specialize (IH Hdl); lia]. }
  assert (Hsh0 : Forall (fun r => 0 <= r) sh) by (eapply Forall_impl; [exact Hsh|intros; cbn in *; lia]). pose proof (total_nonneg_Z _ Hsh0).
  assert (Util.total sh <= R) by nia. rewrite fold_u64_total by (done || lia). rewrite (wrap_id 64 R), wrap_id by (unfold fits; lia). split_and!.
  - unfold sh. rewrite !length_app, length_map. done.
  - apply Forall_app. split; [done|]. constructor; [lia|done].
  - rewrite Util.total_app. unfold Util.total at 2. cbn. lia.
  - intros i d r Hi Ed Er. rewrite length_app in Hi. cbn in Hi. rewrite lookup_app_l in Ed by lia. unfold sh in Er. rewrite lookup_app_l in Er by (rewrite length_map; lia).
    change (map ?f l) with (f <$> l) in Er. rewrite list_lookup_fmap, Ed in Er. by injection Er as <-.
Qed.

(** ** What the joint transaction pays *)

Section build_facts.
Context `{BNI : BN} `{CR : Crypto} `{CV : EC_curve}.
Context (fTestNet : bool) (RAND_uint64 : nat -> Z) (tries : nat) (HRA : rand_ok RAND_uint64 tries) (now : Z).
Local Abbreviation ChangeAddresses := (GetEnigmaChangeAddresses fTestNet).

Lemma change_secrets_length src ch off n : forall i l, change_secrets src ch off n i = Some l -> length l = n.
Proof.
  induction n as [|n IH]; intros i l; cbn [change_secrets]; [by intros [= <-]|].
  intros E. apply bind_Some in E as (s & _ & E). apply bind_Some in E as (r & E & [= <-]). cbn. f_equal. by eapply IH.
Qed.

Lemma ChangeAddresses_length a root h n off scripts secrets : ChangeAddresses a root h n off = Some (scripts, secrets) -> length scripts = n /\ length secrets = n.
Proof.
  intros E. apply bind_Some in E as (l & El & E). apply bind_Some in E as (s & Es & [= <- <-]). apply change_secrets_length in El.
  apply mapM_Some_1, Forall2_length in Es. by rewrite <- Es.
Qed.

Lemma draw_distribution_spec n : forall k, exists l k', draw_distribution RAND_uint64 tries n k = Some (l, k') /\ length l = n /\ Forall (fun d => 30000 <= d <= 70000) l.
Proof.
  induction n as [|n IH]; intros k; cbn [draw_distribution]; [by exists [], k|].
  destruct (GetRandRange_spec _ _ HRA 30000 70000 k) as (d & k1 & -> & Hd); [lia|lia|]. cbn [mbind option_bind] in *.
  destruct (IH k1) as (l & k2 & -> & Hl & Hall). exists (d :: l), k2. cbn in *. split_and!; [done|by f_equal|by constructor].
Qed.

Lemma put_change_spec amounts : forall scripts outs outs', put_change amounts scripts outs = Some outs' -> length scripts = length amounts ->
  outs' = outs ++ zip_with mkTxOut amounts scripts.
Proof.
  induction amounts as [|a amounts IH]; intros [|s scripts] outs outs' E Hl; try done; cbn [put_change] in E.
  - injection E as <-. by rewrite app_nil_r.
  - apply bind_Some in E as (d & _ & E). destruct d as [[]|]; try done. injection Hl as Hl. apply IH in E as ->; [|done]. by rewrite <- app_assoc.
Qed.

Lemma put_sender_spec amounts : forall scripts outs outs', put_sender amounts scripts outs = Some outs' -> length scripts = length amounts ->
  outs' = outs ++ zip_with mkTxOut amounts scripts.
Proof.
  induction amounts as [|a amounts IH]; intros [|s scripts] outs outs' E Hl; try done; cbn [put_sender] in E.
  - injection E as <-. by rewrite app_nil_r.
  - injection Hl as Hl. apply IH in E as ->; [|done]. by rewrite <- app_assoc.
Qed.

Lemma zip_total amounts : forall scripts, length scripts = length amounts -> Tx.total (zip_with mkTxOut amounts scripts) = Util.total amounts.
Proof. induction amounts as [|a l IH]; intros [|s scripts] Hl; try done. injection Hl as Hl. cbn [zip_with]. rewrite Util.total_cons. cbn [Tx.total fold_right nValue]. rewrite <- (IH scripts Hl). done. Qed.

Lemma zip_values amounts : forall scripts, length scripts = length amounts -> map nValue (zip_with mkTxOut amounts scripts) = amounts.
Proof. induction amounts as [|a l IH]; intros [|s scripts] Hl; try done. injection Hl as Hl. cbn. by rewrite IH. Qed.

Lemma zip_scripts amounts : forall scripts, length scripts = length amounts -> map scriptPubKey (zip_with mkTxOut amounts scripts) = scripts.
Proof. induction amounts as [|a l IH]; intros [|s scripts] Hl; try done. injection Hl as Hl. cbn. by rewrite IH. Qed.

(** The outputs [g] pay the amount [v] at the one-time keys of the first indices of an address. *)
Definition paid_to (a : CStealthAddress) (root : list Z) (h : base_uint) (v : Z) (g : list CTxOut) : Prop :=
  (exists secrets, ChangeAddresses a root h (length g) 0 = Some (map scriptPubKey g, secrets)) /\
  Tx.total g = v /\ 1 <= len g <= 4 /\ Forall (fun o => 0 <= nValue o <= v) g.

Definition cloaker_paid (root : list Z) (c : CCloakingParticipant) (r : Z) (g : list CTxOut) : Prop :=
  paid_to (stealthAddressObj c) root (stealthHash (inOuts c)) (nInputAmount (inOuts c) + r) g.

(** What [SplitAmount] gives to the change addresses of [a]. *)
Lemma split_paid_to a root h v lo hi k k' parts k1 amounts scripts secrets : 0 <= v < 2 ^ 62 -> 0 < lo < hi -> hi <= 4 ->
  GetRandRange RAND_uint64 tries lo hi k = Some (parts, k1) -> SplitAmount RAND_uint64 tries v MIN_TXOUT_AMOUNT parts k1 = Some (amounts, k') ->
  ChangeAddresses a root h (length amounts) 0 = Some (scripts, secrets) ->
  length scripts = length amounts /\ paid_to a root h v (zip_with mkTxOut amounts scripts).
Proof.
  intros Hv Hlo Hhi EP ES EC. destruct (ChangeAddresses_length _ _ _ _ _ _ _ EC) as [Hl _]. split; [done|].
  destruct (GetRandRange_spec _ _ HRA lo hi k) as (p & k2 & E & Hp); [lia|lia|]. rewrite EP in E. injection E as <- <-. destruct (Z.leb_spec hi lo); [lia|].
  destruct (SplitAmount_ok RAND_uint64 tries v MIN_TXOUT_AMOUNT parts k1) as (am & k3 & E & Ht & Hn & Hf); [done|done|lia|lia|]. rewrite ES in E. injection E as <- <-.
  assert (Hlen : length (zip_with mkTxOut amounts scripts) = length amounts) by (rewrite length_zip_with; lia).
  assert (Hnn : Forall (fun x => 0 <= x) amounts).
  { destruct Hf as [->|Hf]; [constructor; [lia|constructor]|]. eapply Forall_impl; [exact Hf|]. intros x Hx. cbn in Hx. change MIN_TXOUT_AMOUNT with 10000 in Hx. lia. }
  split_and!; [|by rewrite zip_total|unfold len in *; lia|unfold len in *; lia|].
  - exists secrets. rewrite Hlen, zip_scripts by done. done.
  - apply (Forall_map nValue (fun x => 0 <= x <= v)). rewrite zip_values by done. rewrite <- Ht. clear -Hnn. induction Hnn as [|x l Hx Hl IH]; [constructor|].
    pose proof (total_nonneg_Z l Hl). rewrite Util.total_cons. constructor; [lia|]. eapply Forall_impl; [exact IH|]. intros y Hy. cbn in *. lia.
Qed.

Definition amount_in (l : list CCloakingParticipant) : Z := Util.total (map (fun c => nInputAmount (inOuts c)) l).

Lemma cloakers_loop_spec root l : forall rewards outs k outs' k', length rewards = length l ->
  Forall (fun c => 0 <= nInputAmount (inOuts c) <= MAX_MONEY) l -> Forall (fun r => 0 <= r <= MAX_MONEY) rewards ->
  cloakers_loop fTestNet RAND_uint64 tries root l rewards outs k = Some (outs', k') ->
  exists groups, outs' = outs ++ concat groups /\ Forall3 (cloaker_paid root) l rewards groups /\ Tx.total (concat groups) = amount_in l + Util.total rewards.
Proof.
  induction l as [|c l IH]; intros [|r rewards] outs k outs' k' Hl Hc Hr E; try done; cbn [cloakers_loop] in E.
  { injection E as <- <-. exists []. rewrite app_nil_r. split_and!; [done|constructor|done]. }
  injection Hl as Hl. apply Forall_cons in Hc as [Hc0 Hc]. apply Forall_cons in Hr as [Hr0 Hr]. cbv beta in Hc0, Hr0. change MAX_MONEY with 10000000000000 in Hc0, Hr0.
  assert (Ein : s64 (u64 (u64 (nInputAmount (inOuts c)) + r)) = nInputAmount (inOuts c) + r).
  { rewrite (wrap_id 64 (nInputAmount (inOuts c))) by (unfold fits; lia). rewrite wrap_id by (unfold fits; lia). apply swrap_id; lia. }
  cbv zeta in E. rewrite Ein in E.
  apply bind_Some in E as ([parts k1] & EP & E). apply bind_Some in E as ([amounts k2] & ES & E). apply bind_Some in E as ([scripts secrets] & EC & E).
  apply bind_Some in E as (outs1 & EO & E). destruct (split_paid_to (stealthAddressObj c) root (stealthHash (inOuts c)) (nInputAmount (inOuts c) + r) 2 4 _ _ _ _ _ _ _ ltac:(lia) ltac:(lia) ltac:(lia) EP ES EC) as [Hls Hpaid].
  apply put_change_spec in EO as ->; [|done]. apply IH in E as (groups & -> & H3 & Ht); [|done..].
  exists (zip_with mkTxOut amounts scripts :: groups). cbn [concat]. rewrite app_assoc. split_and!; [done|by constructor|].
  assert (Ta : forall x y, Tx.total (x ++ y) = Tx.total x + Tx.total y) by (intros x y; induction x as [|o x IHx]; cbn; [done|]; unfold Tx.total in *; lia).
  rewrite Ta, Ht, (proj1 (proj2 Hpaid)). unfold amount_in. cbn [map]. rewrite !Util.total_cons. lia.
Qed.

Lemma take_fee_spec fee l : forall l', take_fee fee l = Some l' ->
  exists l1 o l2, l = l1 ++ o :: l2 /\ l' = l1 ++ mkTxOut (s64 (nValue o - fee)) (scriptPubKey o) :: l2 /\ fee < s64 (nValue o - MIN_TXOUT_AMOUNT) /\ 0 < nValue o.
Proof.
  induction l as [|o l IH]; intros l' E; [done|]. cbn [take_fee] in E. destruct (_ && _) eqn:Eb.
  - injection E as <-. apply andb_true_iff in Eb as [Ha%Z.ltb_lt Hb%Z.ltb_lt]. by exists [], o, l.
  - apply bind_Some in E as (l1 & E & [= <-]). destruct (IH l1 E) as (a & x & b & -> & -> & Ha & Hb). by exists (o :: a), x, b.
Qed.
End build_facts.

Section joint_facts.
Context `{BNI : BN} `{CR : Crypto} `{CV : EC_curve}.
Context (fTestNet : bool) (RAND_uint64 : nat -> Z) (tries : nat) (HRA : rand_ok RAND_uint64 tries) (now : Z).

Lemma Tx_total_app x y : Tx.total (x ++ y) = Tx.total x + Tx.total y.
Proof. induction x as [|o x IH]; cbn; [done|]. unfold Tx.total in *. lia. Qed.

Lemma Tx_total_perm x y : x ≡ₚ y -> Tx.total x = Tx.total y.
Proof. induction 1; cbn; unfold Tx.total in *; lia. Qed.

Lemma collate_facts l : forall a, io_vout (fold_left (fun a c => addVinVouts a (inOuts c) true false) l a) = io_vout a /\
  io_vin (fold_left (fun a c => addVinVouts a (inOuts c) true false) l a) = io_vin a ++ concat (map (fun c => io_vin (inOuts c)) l).
Proof.
  induction l as [|c l IH]; intros a; cbn [fold_left map concat]; [by rewrite app_nil_r|]. destruct (IH (addVinVouts a (inOuts c) true false)) as [-> ->].
  cbn. by rewrite app_nil_r, app_assoc.
Qed.

Lemma OutputAmount_value i : Forall in_range (io_vout i) -> Tx.total (io_vout i) < 2 ^ 63 -> OutputAmount i = Tx.total (io_vout i).
Proof.
  unfold OutputAmount. assert (forall l t, 0 <= t -> Forall in_range l -> t + Tx.total l < 2 ^ 63 -> fold_left (fun res o => u64 (res + u64 (nValue o))) l t = t + Tx.total l) as Hl.
  { induction l as [|o l IH]; intros t Ht Hf Hs; cbn [fold_left]; [cbn; lia|]. apply Forall_cons in Hf as [Ho Hf]. unfold in_range in Ho. pose proof (Tx.total_nonneg l Hf). cbn [Tx.total fold_right] in *.
    rewrite (wrap_id 64 (nValue o)) by (unfold fits, Tx.total in *; lia). rewrite wrap_id by (unfold fits, Tx.total in *; lia). rewrite IH by (done || unfold Tx.total in *; lia). unfold Tx.total in *. lia. }
  intros Hf Hs. rewrite Hl by (done || lia). done.
Qed.

Lemma amount_in_fold l : forall t, 0 <= t -> Forall (fun c => 0 <= nInputAmount (inOuts c)) l -> t + amount_in l < 2 ^ 63 ->
  fold_left (fun a c => s64 (a + nInputAmount (inOuts c))) l t = t + amount_in l.
Proof.
  unfold amount_in. induction l as [|c l IH]; intros t Ht Hf Hs; cbn [fold_left map] in *; [unfold Util.total; cbn; lia|]. apply Forall_cons in Hf as [Hc Hf]. rewrite Util.total_cons in *.
  pose proof (total_nonneg_Z (map (fun c => nInputAmount (inOuts c)) l) ltac:(by apply Forall_map)). rewrite swrap_id by lia. rewrite IH by (done || lia). lia.
Qed.

(** The request is full, the amounts are money, and the sender's inputs cover its
    payment, the reward and the output of the root key. *)
Record joint_ok (r : CCloakingRequest) (ours : CCloakingInputsOutputs) : Prop := {
  jo_full : nParticipantsRequired r = len (sParticipants r);
  jo_some : 0 < len (sParticipants r) < 2 ^ 31;
  jo_inputs : Forall (fun c => 0 <= nInputAmount (inOuts c)) (sParticipants r);
  jo_outputs : Forall in_range (io_vout ours);
  jo_reward : 0 <= total_reward (nSendAmount r);
  jo_funds : Tx.total (io_vout ours) + total_reward (nSendAmount r) + MIN_TXOUT_AMOUNT <= nInputAmount ours;
  jo_money : nInputAmount ours + amount_in (sParticipants r) <= MAX_MONEY
}.

(** What goes to whom in the outputs [final] of a joint transaction with the fee [fee]:
    [paid] are the sender's own outputs. *)
Record joint_shares (r : CCloakingRequest) (ours final : CCloakingInputsOutputs) (fee : Z) (paid : list CTxOut) : Prop := {
  js_inputs : io_vin final = io_vin ours ++ concat (map (fun c => io_vin (inOuts c)) (sParticipants r));
  js_cloakers : exists rewards groups, io_vout final = paid ++ concat groups /\
    Forall3 (cloaker_paid fTestNet (stealthRootKey r)) (sParticipants r) rewards groups /\
    Forall (fun x => 0 <= x) rewards /\ Util.total rewards = total_reward (nSendAmount r);
  js_sender : exists change l1 o l2, paid_to fTestNet (senderAddress r) (stealthRootKey r) (GetEnigmaAddressPrivateHash (senderAddress r))
      (nInputAmount ours - Tx.total (io_vout ours) - total_reward (nSendAmount r) - MIN_TXOUT_AMOUNT) change /\
    change = l1 ++ o :: l2 /\ paid = io_vout ours ++ l1 ++ mkTxOut (nValue o - fee) (scriptPubKey o) :: l2 /\ MIN_TXOUT_AMOUNT < nValue o - fee;
  js_balance : nInputAmount ours + amount_in (sParticipants r) = Tx.total (io_vout final) + MIN_TXOUT_AMOUNT + fee
}.

Lemma total_cons_out o l : Tx.total (o :: l) = nValue o + Tx.total l.
Proof. done. Qed.

Lemma cloaker_values root l rewards groups : Forall3 (cloaker_paid fTestNet root) l rewards groups -> Forall (fun c => 0 <= nInputAmount (inOuts c)) l -> Forall (fun x => 0 <= x) rewards ->
  amount_in l + Util.total rewards <= MAX_MONEY -> Forall in_range (concat groups).
Proof.
  unfold amount_in. induction 1 as [|c r g l rewards groups (_ & _ & _ & Hg) H3 IH]; intros Hc Hr Hm; cbn [concat]; [constructor|].
  apply Forall_cons in Hc as [Hc0 Hc]. apply Forall_cons in Hr as [Hr0 Hr]. cbn [map] in Hm. rewrite !Util.total_cons in Hm.
  pose proof (total_nonneg_Z rewards Hr). pose proof (total_nonneg_Z (map (fun c => nInputAmount (inOuts c)) l) ltac:(by apply Forall_map)). apply Forall_app. split; [|apply IH; [done|done|lia]].
  eapply Forall_impl; [exact Hg|]. intros o Ho. cbv beta in Ho. unfold in_range. lia.
Qed.

Lemma CreateCloakerTxOutputs_spec r ours outs k k' : joint_ok r ours ->
  CreateCloakerTxOutputs fTestNet RAND_uint64 tries r [] k = Some (outs, k') ->
  exists rewards groups, outs = concat groups /\ Forall3 (cloaker_paid fTestNet (stealthRootKey r)) (sParticipants r) rewards groups /\
    Forall (fun x => 0 <= x) rewards /\ Util.total rewards = total_reward (nSendAmount r) /\
    Tx.total outs = amount_in (sParticipants r) + total_reward (nSendAmount r) /\ Forall in_range outs.
Proof.
  intros [Hfull Hsome Hin Hout Hrew Hfunds Hmoney] E. unfold CreateCloakerTxOutputs in E. destruct (Z.ltb_spec (nParticipantsRequired r) 1); [lia|].
  apply bind_Some in E as ([dist k0] & ED & E). destruct (draw_distribution_spec _ _ HRA (Z.to_nat (nParticipantsRequired r)) k) as (dist' & k0' & ED' & Hdl & Hdr).
  rewrite ED in ED'. injection ED' as <- <-.
  pose proof (Tx.total_nonneg _ Hout) as Hpos. pose proof (total_nonneg_Z (map (fun c => nInputAmount (inOuts c)) (sParticipants r)) ltac:(by apply Forall_map)) as Hai.
  fold (amount_in (sParticipants r)) in Hai. assert (HM : MAX_MONEY = 10000000000000) by done. assert (Hmin : MIN_TXOUT_AMOUNT = 10000) by done.
  destruct (split_reward_spec (total_reward (nSendAmount r)) dist) as (Hrl & Hrr & Hrt & _); [|lia|].
  { split_and!; [|unfold len in *; lia|done]. intros ->. cbn in Hdl. unfold len in Hsome. lia. }
  destruct (cloakers_loop_spec fTestNet RAND_uint64 tries HRA (stealthRootKey r) (sParticipants r) (split_reward (total_reward (nSendAmount r)) dist) [] k0 outs k') as (groups & -> & H3 & Ht); [| | |done|].
  - unfold len in *. lia.
  - clear -Hin Hmoney Hfunds Hrew Hpos HM Hmin. unfold amount_in in Hmoney. assert (Hb : Util.total (map (fun c => nInputAmount (inOuts c)) (sParticipants r)) <= MAX_MONEY) by lia. clear Hmoney.
    induction Hin as [|c l Hc Hl IH]; [constructor|]. cbn [map] in Hb. rewrite Util.total_cons in Hb. pose proof (total_nonneg_Z (map (fun c => nInputAmount (inOuts c)) l) ltac:(by apply Forall_map)).
    constructor; [lia|]. apply IH. lia.
  - eapply Forall_impl; [exact Hrr|]. intros x Hx. cbv beta in Hx. lia.
  - assert (Hr0 : Forall (fun x => 0 <= x) (split_reward (total_reward (nSendAmount r)) dist)) by (eapply Forall_impl; [exact Hrr|]; intros x Hx; cbv beta in Hx; lia).
    exists (split_reward (total_reward (nSendAmount r)) dist), groups. cbn [app] in *. split_and!; [done..|lia|]. eapply cloaker_values; [exact H3|done|done|]. lia.
Qed.

Lemma joint_fee_bound a b : MIN_TX_FEE <= joint_fee now a b <= MAX_MONEY.
Proof. unfold joint_fee. apply (GetMinFee_bounds _ 1 false GMF_SEND); [unfold fits; lia|]. apply wrap_fits. lia. Qed.

(** The change pays the fee from one of its outputs. *)
Lemma AddCorrectFee_spec a b b' n change : drop n (io_vout b) = change -> Forall in_range change -> AddCorrectFee now a b n = Some b' ->
  exists l1 o l2 fee, MIN_TX_FEE <= fee /\ change = l1 ++ o :: l2 /\ MIN_TXOUT_AMOUNT < nValue o - fee /\
    b' = set_inouts (io_vin b) (take n (io_vout b) ++ l1 ++ mkTxOut (nValue o - fee) (scriptPubKey o) :: l2) b.
Proof.
  intros Ed Hr E. apply bind_Some in E as (l & E & [= <-]). rewrite Ed in E. apply take_fee_spec in E as (l1 & o & l2 & -> & -> & Hf & Hp).
  apply Forall_app in Hr as [_ Hr]. apply Forall_cons in Hr as [Hr _]. unfold in_range in Hr. pose proof (joint_fee_bound a b) as Hb.
  assert (HM : MAX_MONEY = 10000000000000) by done. assert (Hmin : MIN_TXOUT_AMOUNT = 10000) by done. assert (Hmf : MIN_TX_FEE = 10000) by done.
  rewrite swrap_id in Hf by lia.
  exists l1, o, l2, (joint_fee now a b). rewrite (swrap_id 64) by lia. split_and!; [lia|done|lia|done].
Qed.

Lemma CreateEnigmaOutputs_spec r ours ours' final k k' : joint_ok r ours ->
  CreateEnigmaOutputs fTestNet RAND_uint64 tries now r (collate (sParticipants r)) ours inouts_new k = Some (ours', final, k') ->
  exists fee, MIN_TX_FEE <= fee /\ joint_shares r ours final fee (io_vout ours').
Proof.
  intros Hok E. pose proof Hok as [Hfull Hsome Hin Hout Hrew Hfunds Hmoney]. unfold CreateEnigmaOutputs in E.
  destruct (collate_facts (sParticipants r) inouts_new) as [Ecv Eci]. fold (collate (sParticipants r)) in Ecv, Eci. rewrite Ecv in E. cbn [io_vout inouts_new] in E.
  apply bind_Some in E as ([outs k1] & EC & E). destruct (CreateCloakerTxOutputs_spec r ours outs k k1 Hok EC) as (rewards & groups & Eo & H3 & Hr0 & Hrt & Hto & Hro).
  pose proof (Tx.total_nonneg _ Hout) as Hpos. pose proof (total_nonneg_Z (map (fun c => nInputAmount (inOuts c)) (sParticipants r)) ltac:(by apply Forall_map)) as Hai.
  fold (amount_in (sParticipants r)) in Hai. assert (HM : MAX_MONEY = 10000000000000) by done. assert (Hmin : MIN_TXOUT_AMOUNT = 10000) by done.
  cbv zeta in E. rewrite amount_in_fold in E by (done || lia). rewrite (OutputAmount_value ours) in E by (done || lia).
  rewrite OutputAmount_value in E by (cbn [io_vout set_inouts]; (done || lia)). cbn [io_vout set_inouts] in E.
  set (remain := nInputAmount ours - Tx.total (io_vout ours) - total_reward (nSendAmount r) - MIN_TXOUT_AMOUNT).
  assert (Erem : s64 (s64 (u64 (u64 (nInputAmount ours + amount_in (sParticipants r)) - u64 (Tx.total (io_vout ours) + Tx.total outs))) - MIN_TXOUT_AMOUNT) = remain).
  { rewrite (wrap_id 64 (nInputAmount ours + _)), (wrap_id 64 (Tx.total _ + _)), wrap_id by (unfold fits; lia). rewrite (swrap_id 64 (_ - (_ + _))), swrap_id by lia. unfold remain. lia. }
  rewrite Erem in E. apply bind_Some in E as ([parts k2] & EP & E). apply bind_Some in E as ([amounts k3] & ES & E). apply bind_Some in E as ([scripts secrets] & EG & E).
  destruct (split_paid_to fTestNet RAND_uint64 tries HRA _ _ _ remain 2 3 _ _ _ _ _ _ _ ltac:(unfold remain; lia) ltac:(lia) ltac:(lia) EP ES EG) as [Hls Hpaid].
  apply bind_Some in E as (vo & EV & E). apply put_sender_spec in EV as ->; [|done]. set (change := zip_with mkTxOut amounts scripts) in *.
  apply bind_Some in E as (ours2 & EF & [= <- <- <-]). pose proof Hpaid as (_ & Hct & _ & Hcr).
  apply (AddCorrectFee_spec _ _ _ _ change) in EF as (l1 & o & l2 & fee & Hfee & Ec & Hmo & ->); [|cbn [io_vout set_inouts]; by rewrite drop_app_length|].
  2: { eapply Forall_impl; [exact Hcr|]. intros x Hx. cbv beta in Hx. unfold in_range, remain in *. lia. }
  exists fee. split; [done|]. cbn [io_vin io_vout set_inouts addVinVouts inouts_new app]. rewrite take_app_length. split.
  - cbn [io_vin io_vout set_inouts addVinVouts inouts_new app]. rewrite Eci. done.
  - exists rewards, groups. cbn [io_vin io_vout set_inouts addVinVouts inouts_new app]. by rewrite Eo.
  - exists change, l1, o, l2. split_and!; [exact Hpaid|done|done|lia].
  - cbn [io_vin io_vout set_inouts addVinVouts inouts_new app]. rewrite !Tx_total_app, total_cons_out, Hto. cbn [nValue].
    assert (Tx.total change = Tx.total l1 + (nValue o + Tx.total l2)) by (rewrite Ec, Tx_total_app, total_cons_out; done). unfold remain in Hct. lia.
Qed.

(** The transaction has these inputs and outputs in some order, and last the output
    that carries the root key. *)
Lemma joint_transaction_spec root i k : len (io_vin i) < 2 ^ 31 -> len (io_vout i) < 2 ^ 31 ->
  exists tx vo k', joint_transaction RAND_uint64 tries now root i k = Some (tx, k') /\ vin tx ≡ₚ io_vin i /\ vo ≡ₚ io_vout i /\
    vout tx = vo ++ [mkTxOut MIN_TXOUT_AMOUNT (push_vch [OP_RETURN] root)] /\ Tx.total (vout tx) = Tx.total (io_vout i) + MIN_TXOUT_AMOUNT.
Proof.
  intros Hi Ho. unfold joint_transaction. destruct (random_shuffle_ok RAND_uint64 tries HRA (io_vin i) k Hi) as (vi & k1 & -> & Hpi). cbn [mbind option_bind].
  destruct (random_shuffle_ok RAND_uint64 tries HRA (io_vout i) k1 Ho) as (vo & k2 & -> & Hpo). cbn [mbind option_bind].
  eexists _, vo, k2. split; [done|]. cbn [addVinVoutsToTx set_vinvout set_inouts vin vout tx_SetNull io_vin io_vout app]. split_and!; [done|done|done|].
  rewrite Tx_total_app, total_cons_out, (Tx_total_perm _ _ Hpo). cbn. lia.
Qed.
End joint_facts.

(** ** Reserved coins *)

Section reserve_facts.
Context `{CR : Crypto} `{ECI : EC} {K : Type} `{KS : !CKeyStore K}.

(** Whether a coin of the wallet is reserved; [None] for one that the wallet does not have. *)
Definition reserved_at (w : CWallet K) (c : coin) : option bool := t ← mapWallet w !! c.1; IsEnigmaReserved t c.2.

Lemma nth_replicate_false m j : nth j (replicate m false) false = false.
Proof. revert j. induction m as [|m IH]; intros [|j]; try done. apply IH. Qed.

Lemma flag_resize n flags i : (i < n)%nat -> flag_at (resize_flags n flags) i = flag_at flags i.
Proof.
  intros Hi. unfold flag_at, resize_flags. destruct (Nat.lt_ge_cases i (length flags)) as [Hl|Hl].
  - rewrite app_nth1 by (rewrite length_take; lia). rewrite <- (take_drop n flags) at 2. rewrite app_nth1; [done|]. rewrite length_take. lia.
  - rewrite app_nth2 by (rewrite length_take; lia). rewrite (nth_overflow flags) by done. apply nth_replicate_false.
Qed.

Lemma mark_flag_at b t flags n v i : mark_flag b t flags n = Some v -> (i < length (wt_vout t))%nat -> flag_at v i = if decide (i = n) then b else flag_at flags i.
Proof.
  unfold mark_flag. destruct (Z.ltb_spec (Z.of_nat n) (len (wt_vout t))) as [Hn|]; [|done]. intros [= <-] Hi. unfold len in Hn.
  assert (Hlen : length (resize_flags (length (wt_vout t)) flags) = length (wt_vout t)) by (unfold resize_flags; rewrite length_app, length_take, length_replicate; lia).
  unfold flag_at. destruct (decide (i = n)) as [->|Hne].
  - apply nth_lookup_Some. by rewrite list_lookup_insert_eq by lia.
  - change (nth i flags false) with (flag_at flags i). rewrite <- (flag_resize (length (wt_vout t)) flags i Hi). unfold flag_at. rewrite !nth_lookup. by rewrite list_lookup_insert_ne by done.
Qed.

(** Marking one coin, as reserved or as free. *)
Lemma put_mark (b : bool) (w : CWallet K) h t n t' : mapWallet w !! h = Some t ->
  (if b then MarkEnigmaReserved t n else MarkNotEnigmaReserved t n) = Some t' ->
  forall c, reserved_at (put_wtx h t' w) c = if decide (c = (h, n)) then Some b else reserved_at w c.
Proof.
  intros Eh Et [h' i]. assert (exists v, mark_flag b t (vfEnigmaReserved t) n = Some v /\ wt_vout t' = wt_vout t /\ vfEnigmaReserved t' = v) as (v & Ev & Evo & Evf).
  { destruct b; apply bind_Some in Et as (v & Ev & [= <-]); by exists v. }
  unfold reserved_at, put_wtx. cbn [fst snd mapWallet]. destruct (decide (h' = h)) as [->|Hne].
  2: { rewrite lookup_insert_ne by done. rewrite decide_False by congruence. done. }
  rewrite lookup_insert_eq, Eh. cbn [mbind option_bind]. unfold IsEnigmaReserved. rewrite Evo. pose proof Ev as Hn. unfold mark_flag in Hn.
  destruct (Z.ltb_spec (Z.of_nat n) (len (wt_vout t))) as [Hlt|]; [|done]. clear Hn. unfold len in *. destruct (Z.ltb_spec (Z.of_nat i) (Z.of_nat (length (wt_vout t)))) as [Hi|Hi].
  - rewrite Evf, (mark_flag_at _ _ _ _ _ i Ev) by lia. destruct (decide (i = n)) as [->|Hin]; [by rewrite decide_True|by rewrite decide_False by congruence].
  - rewrite decide_False; [done|]. intros [= ->]. lia.
Qed.

Lemma mark_returns (b : bool) t n : is_Some (IsEnigmaReserved t n) -> is_Some (if b then MarkEnigmaReserved t n else MarkNotEnigmaReserved t n).
Proof.
  intros [x Hx]. unfold IsEnigmaReserved in Hx. destruct (Z.of_nat n <? len (wt_vout t)) eqn:E; [|done].
  destruct b; unfold MarkEnigmaReserved, MarkNotEnigmaReserved, mark_flag; rewrite E; by eexists.
Qed.

Lemma reserve_coins_spec l : forall w ok w', reserve_coins l w = (ok, w') -> (forall c, c ∈ l -> is_Some (reserved_at w c)) ->
  ok = true /\ forall c, reserved_at w' c = if decide (c ∈ l) then Some true else reserved_at w c.
Proof.
  induction l as [|[h n] l IH]; intros w ok w' E Hin; cbn [reserve_coins] in E.
  { injection E as <- <-. split; [done|]. intros c. rewrite decide_False; [done|]. by intros ?%elem_of_nil. }
  destruct (Hin (h, n) ltac:(by left)) as [x Hx]. unfold reserved_at in Hx. cbn [fst snd] in Hx. apply bind_Some in Hx as (t & Et & Hx).
  rewrite Et in E. cbn [mbind option_bind] in E. destruct (mark_returns true t n ltac:(by eexists)) as [t' Et']. cbn in Et'. rewrite Et' in E.
  pose proof (put_mark true w h t n t' Et Et') as Hput. apply IH in E as [-> Hall].
  - split; [done|]. intros c. rewrite Hall, Hput. destruct (decide (c ∈ l)) as [Hc|Hc]; [by rewrite decide_True by (by right)|].
    destruct (decide (c = (h, n))) as [->|Hne]; [by rewrite decide_True by (by left)|]. rewrite decide_False; [done|]. rewrite elem_of_cons. by intros [|].
  - intros c Hc. rewrite Hput. destruct (decide _); [done|]. apply Hin. by right.
Qed.

Lemma free_inputs_spec l : forall w ok w', free_inputs (map coin_txin l) w = (ok, w') -> (forall c, c ∈ l -> is_Some (reserved_at w c)) ->
  ok = true /\ forall c, reserved_at w' c = if decide (c ∈ l) then Some false else reserved_at w c.
Proof.
  induction l as [|[h n] l IH]; intros w ok w' E Hin; cbn [map free_inputs coin_txin prevout op_hash op_n fst snd] in E.
  { injection E as <- <-. split; [done|]. intros c. rewrite decide_False; [done|]. by intros ?%elem_of_nil. }
  destruct (Hin (h, n) ltac:(by left)) as [x Hx]. unfold reserved_at in Hx. cbn [fst snd] in Hx. apply bind_Some in Hx as (t & Et & Hx).
  rewrite Et, Nat2Z.id in E. destruct (mark_returns false t n ltac:(by eexists)) as [t' Et']. cbn in Et'. rewrite Et' in E.
  pose proof (put_mark false w h t n t' Et Et') as Hput. apply IH in E as [-> Hall].
  - split; [done|]. intros c. rewrite Hall, Hput. destruct (decide (c ∈ l)) as [Hc|Hc]; [by rewrite decide_True by (by right)|].
    destruct (decide (c = (h, n))) as [->|Hne]; [by rewrite decide_True by (by left)|]. rewrite decide_False; [done|]. rewrite elem_of_cons. by intros [|].
  - intros c Hc. rewrite Hput. destruct (decide _); [done|]. apply Hin. by right.
Qed.

(** An available coin is one of the wallet's that is not reserved. *)
Lemma available_free fuel mine_fuel e (w : CWallet K) cc only vCoins o :
  AvailableCoins fuel mine_fuel e w only cc = Some vCoins -> o ∈ vCoins -> reserved_at w (co_coin o) = Some false.
Proof.
  intros E Ho. apply AvailableCoins_ok in E as [Hin _]. apply Hin in Ho as (Et & _ & (x & Ex & Hr & _) & _).
  unfold reserved_at, co_coin. cbn [fst snd]. rewrite Et. cbn [mbind option_bind]. unfold IsEnigmaReserved. apply lookup_lt_Some in Ex. unfold len.
  destruct (Z.ltb_spec (Z.of_nat (co_i o)) (Z.of_nat (length (wt_vout (co_tx o))))); [|lia]. by rewrite Hr.
Qed.
End reserve_facts.

(** ** Answers to a request *)

Section node_facts.
Context {D : Type} `{!TxIndexDB D} `{BNI : BN} `{CR : Crypto} `{ECI : EC} `{!EC_curve} `{!ECDH} `{AE : AES}.
Context (fTestNet : bool) (RAND_uint64 : nat -> Z) (tries : nat) (now : Z).
Context (files : block_files) (pool : CTxMemPool) (txdb : D) (st : index_state) (nCoinbaseMaturity : Z).
Context (pkey : EC_KEY) (fAutoRetry : bool) (p_mem : stealth_prefix) (splits_mem : Z).
Local Abbreviation Create := (CreateTransactionAndRequestSign fTestNet RAND_uint64 tries now files pool txdb).
Local Abbreviation Process := (ProcessAcceptResponse fTestNet RAND_uint64 tries now files pool txdb st nCoinbaseMaturity pkey fAutoRetry p_mem splits_mem).
Local Abbreviation request_at := (our_request fAutoRetry p_mem splits_mem).

(** The request is left as it is, or holds a transaction and is perhaps sent out. *)
Lemma Create_cases h r s ok s' : Create h r s = Some (ok, s') ->
  (mapOurCloakingRequests s' = mapOurCloakingRequests s /\ effects s' = effects s) \/
  (exists raw, mapOurCloakingRequests s' = <[h := set_rawtx raw raw r]> (mapOurCloakingRequests s) /\
     (effects s' = effects s \/ (ok = true /\ effects s' = SendSignRequest (set_rawtx raw raw r) :: effects s))).
Proof.
  unfold CreateTransactionAndRequestSign. destruct (negb _); [intros [= <- <-]; by left|].
  destruct (mapCloakingInputsOutputs s !! _) as [mine|]; [|intros [= <- <-]; by left].
  destruct (CreateEnigmaOutputs _ _ _ _ _ _ _ _ _) as [[[mine' inouts] k]|]; [|intros [= <- <-]; by left].
  intros E. apply bind_Some in E as ([tx k'] & _ & E). right. eexists. destruct (joint_fees _ _ _ _) as [nFees|]; [destruct (nFees <? MIN_TX_FEE)|];
    injection E as <- <-; cbn; (split; [reflexivity|]); auto.
Qed.

Definition room_ok (s : enigma_state) : Prop := forall h r, mapOurCloakingRequests s !! h = Some r -> len (sParticipants r) <= Z.max 0 (nParticipantsRequired r).

Lemma len_set_insert (ltb : CCloakingParticipant -> CCloakingParticipant -> bool) x l : len l <= len (set_insert ltb x l) <= len l + 1.
Proof. induction l as [|y l IH]; cbn [set_insert]; [unfold len; cbn; lia|]. destruct (ltb x y); [rewrite !len_cons; lia|]. destruct (ltb y x); rewrite !len_cons in *; lia. Qed.

(** The request that an answer is for, before and after. *)
Record answered (s s' : enigma_state) (a : CCloakingAcceptResponse) (ok : bool) : Prop := {
  an_others : forall h, h <> requestIdentifier a -> mapOurCloakingRequests s' !! h = mapOurCloakingRequests s !! h;
  an_request : exists r', mapOurCloakingRequests s' !! requestIdentifier a = Some r' /\
    let r := (request_at (requestIdentifier a) s).1 in
    nParticipantsRequired r' = nParticipantsRequired r /\
    (sParticipants r' = sParticipants r \/
     (ok = true /\ len (sParticipants r) < nParticipantsRequired r /\ exists p, sParticipants r' = set_insert p_lt p (sParticipants r))) /\
    (txCreated r = true -> txCreated r' = true) /\
    (exists es, effects s' = es ++ effects s /\ forall q, SendSignRequest q ∈ es ->
       txCreated r = false /\ txCreated r' = true /\ len (sParticipants r') = nParticipantsRequired r /\ q = r')
}.

Lemma our_request_facts h s : mapOurCloakingRequests (request_at h s).2 = <[h := (request_at h s).1]> (mapOurCloakingRequests s) /\ effects (request_at h s).2 = effects s.
Proof. unfold our_request. destruct (mapOurCloakingRequests s !! h) eqn:E; cbn; [by rewrite insert_id|done]. Qed.

(** Nothing is done to the request. *)
Lemma answered_same s s1 a ok es : mapOurCloakingRequests s1 = <[requestIdentifier a := (request_at (requestIdentifier a) s).1]> (mapOurCloakingRequests s) ->
  effects s1 = es ++ effects s -> (forall q, SendSignRequest q ∉ es) -> answered s s1 a ok.
Proof.
  intros Em Ee Hes. split; [intros h Hh; by rewrite Em, lookup_insert_ne|]. eexists. rewrite Em, lookup_insert_eq. split; [done|]. cbv zeta. split_and!; [done|by left|done|].
  exists es. split; [done|]. intros q Hq. by apply Hes in Hq.
Qed.

(** A participant is added. *)
Lemma answered_joined s s1 a p raw es (created sent : bool) : let r := (request_at (requestIdentifier a) s).1 in
  let r1 := set_participants (set_insert p_lt p (sParticipants r)) r in
  let r2 := if created then set_txCreated r1 else r1 in
  len (sParticipants r) < nParticipantsRequired r ->
  (created = true -> txCreated r = false /\ nParticipantsRequired r <= len (sParticipants r1)) -> (sent = true -> created = true) ->
  let r' := match raw with Some x => set_rawtx x x r2 | None => r2 end in
  mapOurCloakingRequests s1 = <[requestIdentifier a := r']> (mapOurCloakingRequests s) ->
  effects s1 = (if sent then [SendSignRequest r'] else []) ++ es ++ effects s -> (forall q, SendSignRequest q ∉ es) -> answered s s1 a true.
Proof.
  intros r r1 r2 Hroom Hcr Hsent r' Em Ee Hes. pose proof (len_set_insert p_lt p (sParticipants r)) as Hl.
  assert (Hr' : nParticipantsRequired r' = nParticipantsRequired r /\ sParticipants r' = set_insert p_lt p (sParticipants r) /\ txCreated r' = created || txCreated r).
  { unfold r', r2. destruct raw, created; done. }
  destruct Hr' as (Hn & Hp & Ht). split; [intros h Hh; by rewrite Em, lookup_insert_ne|]. exists r'. rewrite Em, lookup_insert_eq. split; [done|]. fold r. cbv zeta. split_and!.
  - done.
  - right. split_and!; [done|done|by exists p].
  - intros Hc. rewrite Ht, Hc. apply orb_true_r.
  - exists ((if sent then [SendSignRequest r'] else []) ++ es). rewrite <- app_assoc. split; [done|]. intros q Hq. destruct sent; [|by apply Hes in Hq].
    apply elem_of_cons in Hq as [[= ->]|Hq]; [|by apply Hes in Hq]. specialize (Hsent eq_refl) as ->. destruct (Hcr eq_refl) as [Hc0 Hc1]. cbn [sParticipants set_participants r1] in Hc1.
    rewrite Ht, Hp. split_and!; [done|done|lia|done].
Qed.

Lemma Process_answered a s ok s' : Process a s = Some (ok, s') -> answered s s' a ok.
Proof.
  unfold ProcessAcceptResponse. destruct (our_request_facts (requestIdentifier a) s) as [Em Ee]. destruct (request_at (requestIdentifier a) s) as [r s0] eqn:Er. cbn [fst snd] in Em, Ee.
  assert (Hsame : forall s1 ok1 es, mapOurCloakingRequests s1 = mapOurCloakingRequests s0 -> effects s1 = es ++ effects s -> (forall q, SendSignRequest q ∉ es) -> answered s s1 a ok1).
  { intros s1 ok1 es Em1 Ee1 Hes. apply (answered_same s s1 a ok1 es); [by rewrite Em1, Er|done|done]. }
  destruct (negb _); [intros [= <- <-]; by apply (Hsame _ _ []); [..|intros q Hq%elem_of_nil]|].
  destruct (bytes_eqb _ _); [intros [= <- <-]; by apply (Hsame _ _ []); [..|intros q Hq%elem_of_nil]|].
  destruct (SetEncoded _ _) as [b sxa]. intros E. apply bind_Some in E as ([secret m] & _ & E).
  destruct secret as [secret|]; [|injection E as <- <-; by apply (Hsame _ _ []); [..|intros q Hq%elem_of_nil]].
  destruct (Z.ltb_spec (len (sParticipants r)) (nParticipantsRequired r)) as [Hroom|Hfull].
  2: { injection E as <- <-. apply (Hsame _ _ [SendMessage ENIGMA_MSG_CLOAKER_REJECTED (bu_GetHex (GetIdHash r)) secret]); [done|cbn; by rewrite Ee|]. by intros q [=]%list_elem_of_singleton. }
  destruct (CheckValid _ _ _ _ _ _ _ _ _) as [[valid ban] io]. cbv zeta in E.
  set (s1 := if ban then _ else _) in E. set (es1 := if ban then [BanPeer (p_pubKey (participantInfo a)) ENIGMA_BANSECS_MISSING_INPUTS] else []).
  assert (Hs1 : mapOurCloakingRequests s1 = mapOurCloakingRequests s0 /\ effects s1 = es1 ++ effects s) by (unfold s1, es1; destruct ban; cbn; by rewrite Ee). destruct Hs1 as [Em1 Ee1].
  assert (Hes1 : forall q, SendSignRequest q ∉ es1) by (unfold es1; intros q; destruct ban; [by intros [=]%list_elem_of_singleton|by intros ?%elem_of_nil]).
  destruct valid; cbn [negb] in E; [|injection E as <- <-; by apply (Hsame _ _ es1)].
  set (p := with_inouts io sxa (participantInfo a)) in E. set (r1 := set_participants (set_insert p_lt p (sParticipants r)) r) in E.
  set (msg := SendMessage ENIGMA_MSG_CLOAKER_ACCEPTED (bu_GetHex (GetIdHash r)) secret) in E. set (s2 := emit msg (put_request (requestIdentifier a) r1 s1)) in E.
  assert (Es2 : forall q, SendSignRequest q ∉ msg :: es1) by (intros q [[=]|Hq]%elem_of_cons; by apply Hes1 in Hq).
  pose proof (fun raw created sent => answered_joined s s' a p raw (msg :: es1) created sent) as HJ. rewrite Er in HJ. cbn [fst] in HJ. fold r1 in HJ. cbv zeta in HJ.
  destruct ((nParticipantsRequired r1 <=? len (sParticipants r1)) && negb (txCreated r1)) eqn:Ec.
  2: { injection E as <- <-. apply (HJ None false false); [done|done|done| |cbn; by rewrite Ee1|done]. cbn. rewrite Em1, Em. by rewrite insert_insert_eq. }
  apply andb_true_iff in Ec as [Hfull%Z.leb_le Hnc%negb_true_iff]. apply bind_Some in E as ([ok' s3] & EC & [= <- <-]).
  assert (Em2 : mapOurCloakingRequests (put_request (requestIdentifier a) (set_txCreated r1) s2) = <[requestIdentifier a := set_txCreated r1]> (mapOurCloakingRequests s)).
  { cbn. rewrite Em1, Em. by rewrite !insert_insert_eq. }
  apply Create_cases in EC as [[E1 E2]|(raw & E1 & E2)].
  - apply (HJ None true false); [done|done|done|by rewrite E1, Em2|rewrite E2; cbn; by rewrite Ee1|done].
  - rewrite Em2, insert_insert_eq in E1. destruct E2 as [E2|[_ E2]].
    + apply (HJ (Some raw) true false); [done|done|done|done|rewrite E2; cbn; by rewrite Ee1|done].
    + apply (HJ (Some raw) true true); [done|done|done|done|rewrite E2; cbn; by rewrite Ee1|done].
Qed.

Lemma Process_room a s ok s' : room_ok s -> Process a s = Some (ok, s') -> room_ok s'.
Proof.
  intros HR E h r' Hr'. apply Process_answered in E as [Ho (r1 & E1 & En & Hp & _)]. destruct (decide (h = requestIdentifier a)) as [->|Hne].
  - rewrite E1 in Hr'. injection Hr' as <-. rewrite En. assert (HR0 : len (sParticipants (request_at (requestIdentifier a) s).1) <= Z.max 0 (nParticipantsRequired (request_at (requestIdentifier a) s).1)).
    { unfold our_request. destruct (mapOurCloakingRequests s !! requestIdentifier a) eqn:E; [by eapply HR|]. cbn. unfold len. cbn. lia. }
    destruct Hp as [->|(_ & Hlt & p & ->)]; [done|]. pose proof (len_set_insert p_lt p (sParticipants (request_at (requestIdentifier a) s).1)). lia.
  - rewrite Ho in Hr' by done. by eapply HR.
Qed.

(** A new attempt starts without participants, but keeps [txCreated]. *)
Lemma Retry_facts this req s s' : Retry now fAutoRetry p_mem splits_mem this s = (Some req, s') ->
  sParticipants req = [] /\ txCreated req = txCreated (request_at (GetIdHash this) s).1 /\
  (GetIdHash req <> GetIdHash this -> mapOurCloakingRequests s' !! GetIdHash req = Some req).
Proof.
  unfold Retry. destruct (mapCloakingInputsOutputs s !! _) as [io|]; [|done]. destruct (request_at _ s) as [r s0]. intros [= <- <-].
  split_and!; [done|done|]. intros Hne. cbn. rewrite lookup_delete_ne by done. by rewrite lookup_insert_eq.
Qed.
End node_facts.

(** ** Signatures come back *)

Section signature_facts.
Context (now : Z).
Local Abbreviation fresh := (tx_SetNull now tx_fresh).
Definition raw_tx (tx : CTransaction) : list Z := Serialize (ser_tx tx) SER_NETWORK PROTOCOL_VERSION tx.

Lemma ParseHex_HexStr l : digits 256 l -> ParseHex (HexStr l false) = l.
Proof.
  intros Hl. unfold ParseHex, HexStr. assert (Hlen : (length l <= length (HexStr_loop true false l))%nat).
  { clear Hl. generalize true. induction l as [|x l IH]; intros b; [cbn; lia|]. cbn [HexStr_loop andb app length]. specialize (IH false). lia. }
  destruct (parse_HexStr l true false (length (HexStr_loop true false l)) Hl Hlen) as [-> ->]. done.
Qed.

Lemma raw_tx_this this tx : raw_tx tx = Serialize (ser_tx this) SER_NETWORK PROTOCOL_VERSION tx.
Proof. unfold raw_tx, ser_tx. cbn -[ser_bytes ser_uint ser_int ser_vector]. destruct (1 <? tx_nVersion tx); done. Qed.

Lemma raw_tx_nonempty tx : 0 < len (raw_tx tx).
Proof. unfold raw_tx, ser_tx. cbn -[ser_bytes ser_vector ser_uint]. rewrite len_cons. apply Z.add_pos_nonneg; [lia|apply len_nonneg]. Qed.

Lemma DeserializeTx_raw tx : tx_wf fresh tx -> len (raw_tx tx) < 2 ^ 31 -> DeserializeTx now (HexStr (raw_tx tx) false) = Some tx.
Proof.
  intros Hw Hl. pose proof (raw_tx_nonempty tx) as Hne. rewrite (raw_tx_this fresh) in *. pose proof (ser_tx_correct fresh) as Hc. set (v := Serialize _ _ _ tx) in *.
  assert (Hd : digits 256 v) by (by apply (sc_bytes _ _ Hc)). unfold DeserializeTx. rewrite ParseHex_HexStr by done. unfold len in *.
  set (d := Init v SER_NETWORK PROTOCOL_VERSION). assert (Hs : stream_ok d) by (unfold stream_ok, d, Init, vsize; cbn [nReadPos vch exceptmask]; split_and!; (done || lia)).
  destruct (sc_read (tx_wf fresh) (ser_tx fresh) Hc SER_NETWORK PROTOCOL_VERSION tx Hw d [] Hs) as (d' & E & Hs' & Hu & _); [by rewrite app_nil_r|].
  destruct (length v) as [|n] eqn:En; [lia|]. cbn [read_txs]. replace (ds_empty d) with false.
  2: { symmetry. unfold ds_empty, d, vsize. cbn [vch nReadPos Init]. rewrite En. apply Z.eqb_neq. lia. }
  rewrite E. replace (ds_empty d') with true; [done|]. symmetry. unfold ds_empty. apply Z.eqb_eq. pose proof (unread_length d' Hs') as Hul. rewrite Hu in Hul. unfold ds_size in Hul. cbn in Hul. lia.
Qed.

(** The transaction with the scripts that the response brings. *)
Definition merged (sigs : list CScript) (tx : CTransaction) : CTransaction := set_vinvout (zip_with merge_sig sigs (vin tx)) (vout tx) tx.

Lemma merged_inputs sigs l : length sigs = length l ->
  map prevout (zip_with merge_sig sigs l) = map prevout l /\ map nSequence (zip_with merge_sig sigs l) = map nSequence l /\
  Forall3 (fun s i i' => scriptSig i' = (if len (scriptSig i) <? len s then s else scriptSig i)) sigs l (zip_with merge_sig sigs l).
Proof.
  revert l. induction sigs as [|s sigs IH]; intros [|i l] Hl; try done; [by split_and!; [..|constructor]|]. injection Hl as Hl. destruct (IH l Hl) as (H1 & H2 & H3). cbn [zip_with map].
  assert (Hm : prevout (merge_sig s i) = prevout i /\ nSequence (merge_sig s i) = nSequence i /\ scriptSig (merge_sig s i) = if len (scriptSig i) <? len s then s else scriptSig i) by (unfold merge_sig; by case_match).
  destruct Hm as (-> & -> & Hm). rewrite H1, H2. split_and!; [done|done|by constructor].
Qed.

Lemma merged_none sigs l : length sigs = length l -> existsb sig_longer (zip sigs l) = false -> zip_with merge_sig sigs l = l.
Proof.
  revert l. induction sigs as [|s sigs IH]; intros [|i l] Hl E; try done. injection Hl as Hl. cbn [zip_with existsb zip] in *. apply orb_false_iff in E as [E1 E].
  unfold sig_longer in E1. cbn in E1. unfold merge_sig at 1. rewrite E1. f_equal. by apply IH.
Qed.

Lemma merged_wf sigs tx : vector_wf bytes_wf sigs -> tx_wf fresh tx -> length sigs = length (vin tx) -> tx_wf fresh (merged sigs tx).
Proof.
  intros [Hs _] (Hv & Ht & (Hi & Hil) & Ho & Hlk & Hd & Hn) Hl. unfold merged. split_and!; try done. cbn [vin set_vinvout]. split.
  - clear -Hs Hi. revert sigs Hs. induction Hi as [|i l Hi Hl IH]; intros [|s sigs] Hs; try constructor.
    + apply Forall_cons in Hs as [Hs _]. destruct Hi as (H1 & H2 & H3). unfold merge_sig. case_match; [|done]. by split_and!.
    + apply IH. by apply Forall_cons in Hs as [_ Hs].
  - unfold len in *. rewrite length_zip_with. lia.
Qed.
End signature_facts.

(** What [GetCloakingInputsMine] does to wallet and map, in both cases. *)
Lemma GetCloakingInputsMine_cases `{CR : Crypto} `{ECI : EC} {K : Type} `{KS : !CKeyStore K} RAND_uint64 tries C_rand ptr_order fuel mine_fuel e r part (w : CWallet K) m k kr ok part' w' m' vCoins :
  rand_ok RAND_uint64 tries -> (forall s, ptr_order s ≡ₚ elements s) -> wallet_ok mine_fuel e w -> fits 64 (nSendAmount r) ->
  AvailableCoins fuel mine_fuel e w true None = Some vCoins -> Util.total (map co_val vCoins) < 2 ^ 62 -> len vCoins < 2 ^ 31 ->
  GetCloakingInputsMine RAND_uint64 tries C_rand ptr_order fuel mine_fuel e r part w m k kr = Some (ok, part', w', m') ->
  if ok : bool then exists sel l, sel ⊆+ vCoins /\ l ≡ₚ map co_coin sel /\ NoDup l /\ m' = <[GetIdHash r := inOuts part']> m /\
    io_vin (inOuts part') = map coin_txin l /\ nInputAmount (inOuts part') = Util.total (map co_val sel) /\
    (nSendAmount r + MIN_TXOUT_AMOUNT + CENT < 2 ^ 63 -> nSendAmount r + MIN_TXOUT_AMOUNT <= nInputAmount (inOuts part')) /\
    (forall c, reserved_at w' c = if decide (c ∈ l) then Some true else reserved_at w c) /\ (forall c, c ∈ l -> reserved_at w c = Some false)
  else w' = w /\ m' = m.
Proof.
  intros HRA Hptr HW Hn EA Ht Hl E. assert (Hmin : MIN_TXOUT_AMOUNT = 10000) by done. unfold GetCloakingInputsMine in E. rewrite EA in E. cbn [mbind option_bind] in E.
  set (target := s64 (u64 (nSendAmount r + MIN_TXOUT_AMOUNT))) in E. destruct (AvailableCoins_ok _ _ _ _ _ _ _ EA) as [Hin Hnd].
  assert (Hok : coins_ok mine_fuel w vCoins).
  { split; try done; intros o Ho; [eapply available_from_me; [exact HW|by apply Hin]|eapply available_value; by apply Hin]. }
  destruct (min_conf_any RAND_uint64 tries C_rand HRA mine_fuel w target (we_adjusted_time e) 1 6 vCoins k kr Hok (swrap_bound 64 _ ltac:(lia)))
    as (ok1 & sel & k1 & kr1 & Esel & Hsub & Hsnd & Hval).
  rewrite Esel in E. cbn [mbind option_bind] in E. destruct ok1; cbn [negb] in E; [|by injection E as <- _ <- <-]. assert (Hsv : sel ⊆+ vCoins) by (etrans; [exact Hsub|apply filter_submseteq]).
  set (l := ptr_order (list_to_set (map co_coin sel))) in E. assert (Hlp : l ≡ₚ map co_coin sel) by (unfold l; rewrite Hptr; by apply elements_list_to_set).
  assert (Hfree : forall c, c ∈ l -> reserved_at w c = Some false).
  { intros c Hc. rewrite Hlp in Hc. apply list_elem_of_fmap in Hc as (o & -> & Ho). eapply available_free; [exact EA|]. by eapply elem_of_submseteq. }
  destruct (reserve_coins l w) as [ok2 w1] eqn:ER. apply reserve_coins_spec in ER as [-> Hall]; [|intros c Hc; rewrite Hfree by done; by eexists]. cbn [negb] in E. injection E as <- <- <- <-.
  exists sel, l. split_and!; [done|done|by rewrite Hlp|done|done|done| |exact Hall|exact Hfree].
  intros Hfit. assert (CENT = 10000) by done. assert (Htg : target = nSendAmount r + MIN_TXOUT_AMOUNT) by (unfold target; rewrite wrap_id, swrap_id by (unfold fits in *; lia); done).
  rewrite <- Htg. apply Hval. lia.
Qed.

(** ** Main theorems *)

(** (C12) The joint transaction loses no money and pays everybody.  When there
    are as many participants as were asked for, and the sender's inputs cover
    what it pays, the reward and the output of the root key, then the outputs
    that [CreateEnigmaOutputs] makes shuffle into a transaction
    whose inputs are those of the sender and of the cloakers and no others; each
    cloaker is paid exactly its inputs and a share of the reward at one-time keys
    of its stealth address, the shares add up to the reward, the sender gets the
    rest back less the fee, which one of its outputs alone bears and which is at
    least the minimum; the root key is published by one more output; and inputs
    equal outputs plus fee, without overflow. *)
Theorem joint_transaction_balances `{BNI : BN} `{CR : Crypto} `{CV : EC_curve} fTestNet RAND_uint64 tries now r ours ours' final k k' :
  rand_ok RAND_uint64 tries -> joint_ok r ours ->
  CreateEnigmaOutputs fTestNet RAND_uint64 tries now r (collate (sParticipants r)) ours inouts_new k = Some (ours', final, k') ->
  len (io_vin final) < 2 ^ 31 -> len (io_vout final) < 2 ^ 31 ->
  exists fee tx vo k2, MIN_TX_FEE <= fee /\ joint_shares fTestNet r ours final fee (io_vout ours') /\
    joint_transaction RAND_uint64 tries now (stealthRootKey r) final k' = Some (tx, k2) /\
    vin tx ≡ₚ io_vin ours ++ concat (map (fun c => io_vin (inOuts c)) (sParticipants r)) /\
    vout tx = vo ++ [mkTxOut MIN_TXOUT_AMOUNT (push_vch [OP_RETURN] (stealthRootKey r))] /\ vo ≡ₚ io_vout final /\
    nInputAmount ours + amount_in (sParticipants r) = Tx.total (vout tx) + fee.
Proof.
  intros HRA Hok E Hi Ho. destruct (CreateEnigmaOutputs_spec fTestNet RAND_uint64 tries HRA now r ours ours' final k k' Hok E) as (fee & Hfee & Hsh).
  destruct (joint_transaction_spec RAND_uint64 tries HRA now (stealthRootKey r) final k' Hi Ho) as (tx & vo & k2 & ET & Hvi & Hvo & Evo & Ht).
  exists fee, tx, vo, k2. split_and!; try done.
  - rewrite Hvi. by rewrite (js_inputs _ _ _ _ _ _ Hsh).
  - rewrite Ht. pose proof (js_balance _ _ _ _ _ _ Hsh). lia.
Qed.

(** (C15) A cloaker that joins reserves exactly the coins that it offers: they are
    distinct available coins of its wallet, the participant's inputs and amount are
    theirs, no other coin's reservation changes, no later selection of coins,
    whatever the chain, offers one of them, and [Abort] of the request frees just
    these and restores every reservation.  This holds for every amount that a
    request can ask for; that the coins reach the amount and the output of the root
    key holds when these and [CENT] fit into 63 bits, for else the sum overflows to a
    target that is negative, or that every coin passes (see
    [oversized_request_joined] in [Cloaking]).  The wallet is one that can be looked at, its coins
    are fewer than 2^31 and together worth less than 2^62. *)
Theorem cloaker_reservation `{CR : Crypto} `{ECI : EC} {K : Type} `{KS : !CKeyStore K} RAND_uint64 tries C_rand ptr_order fuel mine_fuel e r part (w : CWallet K) m k kr part' w' m' vCoins :
  rand_ok RAND_uint64 tries -> (forall s, ptr_order s ≡ₚ elements s) -> wallet_ok mine_fuel e w -> fits 64 (nSendAmount r) ->
  AvailableCoins fuel mine_fuel e w true None = Some vCoins -> Util.total (map co_val vCoins) < 2 ^ 62 -> len vCoins < 2 ^ 31 ->
  GetCloakingInputsMine RAND_uint64 tries C_rand ptr_order fuel mine_fuel e r part w m k kr = Some (true, part', w', m') ->
  exists sel l, sel ⊆+ vCoins /\ l ≡ₚ map co_coin sel /\ NoDup l /\
    io_vin (inOuts part') = map coin_txin l /\ nInputAmount (inOuts part') = Util.total (map co_val sel) /\
    (nSendAmount r + MIN_TXOUT_AMOUNT + CENT < 2 ^ 63 -> nSendAmount r + MIN_TXOUT_AMOUNT <= nInputAmount (inOuts part')) /\ m' !! GetIdHash r = Some (inOuts part') /\
    (forall c, reserved_at w' c = if decide (c ∈ l) then Some true else reserved_at w c) /\
    (forall fuel' mine_fuel' e' cc only vs o, AvailableCoins fuel' mine_fuel' e' w' only cc = Some vs -> o ∈ vs -> co_coin o ∉ l) /\
    exists w2, Abort r m' w' = (true, set_aborted r, w2) /\ forall c, reserved_at w2 c = reserved_at w c.
Proof.
  intros HRA Hptr HW Hn EA Ht Hl E. apply (GetCloakingInputsMine_cases _ _ _ _ _ _ _ _ _ _ _ _ _ _ _ _ _ _ HRA Hptr HW Hn EA Ht Hl) in E as (sel & l & Hsv & Hlp & Hnd & -> & Hvin & Hval & Hge & Hall & Hfree).
  exists sel, l. split_and!; [done|done|done|done|done|done|apply lookup_insert_eq|exact Hall| |].
  - intros fuel' mine_fuel' e' cc only vs o EA' Ho Hc. pose proof (available_free _ _ _ _ _ _ _ _ EA' Ho) as Hf. rewrite Hall, decide_True in Hf by done. done.
  - unfold Abort. change (GetIdHash (set_aborted r)) with (GetIdHash r). rewrite lookup_insert_eq, Hvin.
    destruct (free_inputs (map coin_txin l) w') as [ok2 w2] eqn:EF. apply free_inputs_spec in EF as [-> Hall2].
    + exists w2. split; [done|]. intros c. rewrite Hall2, Hall. destruct (decide (c ∈ l)) as [Hc|Hc]; [by rewrite Hfree|done].
    + intros c Hc. rewrite Hall, decide_True by done. by eexists.
Qed.

(** (C17) Answers of peers change only the request they are for, and never make more
    participants than were asked for: a participant is added only while there is
    room, the joint transaction is made once, for the first time that the request
    is full, and the request to sign goes out only then, with the transaction of
    the full request.  A request that had made its transaction before it was
    announced again under a new identifier never asks for signatures again. *)
Theorem accept_responses_bounded {D : Type} `{!TxIndexDB D} `{BNI : BN} `{CR : Crypto} `{ECI : EC} `{!EC_curve} `{!ECDH} `{AE : AES}
    fTestNet RAND_uint64 tries now files pool (txdb : D) st nCoinbaseMaturity pkey fAutoRetry p_mem splits_mem a s ok s' :
  ProcessAcceptResponse fTestNet RAND_uint64 tries now files pool txdb st nCoinbaseMaturity pkey fAutoRetry p_mem splits_mem a s = Some (ok, s') ->
  answered fAutoRetry p_mem splits_mem s s' a ok /\ (room_ok s -> room_ok s') /\
  (forall this req s0, Retry now fAutoRetry p_mem splits_mem this s0 = (Some req, s) -> GetIdHash req <> GetIdHash this -> requestIdentifier a = GetIdHash req ->
     txCreated (our_request fAutoRetry p_mem splits_mem (GetIdHash this) s0).1 = true ->
     exists es, effects s' = es ++ effects s /\ forall q, SendSignRequest q ∉ es).
Proof.
  intros E. split; [by eapply Process_answered|]. split; [intros HR; by eapply Process_room|]. intros this req s0 ER Hne Ea Hc.
  apply Process_answered in E as [_ (r' & _ & _ & _ & _ & es & Ees & Hes)]. exists es. split; [done|]. intros q Hq. destruct (Hes q Hq) as [Hf _].
  destruct (Retry_facts _ _ _ _ _ _ _ _ ER) as (_ & Ht & Hm). rewrite Ea in Hf. unfold our_request at 1 in Hf. rewrite (Hm Hne) in Hf. cbn [fst] in Hf. congruence.
Qed.

(** A response with signatures for another number of inputs is refused and
    changes nothing.  Otherwise the transaction of the request keeps its outputs
    and the outpoints and sequence numbers of its inputs, each script is
    replaced exactly by a longer one of the response, the unsigned transaction
    stays, the signer is recorded, and the text of the request reads back as that
    transaction. *)
Theorem signatures_merge now r sr tx : signedrawtx r = HexStr (raw_tx tx) false -> tx_wf (tx_SetNull now tx_fresh) tx -> vector_wf bytes_wf (signatures sr) ->
  len (raw_tx tx) < 2 ^ 31 -> len (raw_tx (merged (signatures sr) tx)) < 2 ^ 31 ->
  (len (signatures sr) <> len (vin tx) -> AddSignedInputsToTx now r sr = Some (false, r)) /\
  (len (signatures sr) = len (vin tx) -> exists r' tx', AddSignedInputsToTx now r sr = Some (true, r') /\
     DeserializeTx now (signedrawtx r') = Some tx' /\ rawtx r' = rawtx r /\ signedByAddresses r' = set_insert lex_lt (signingAddress sr) (signedByAddresses r) /\
     vout tx' = vout tx /\ map prevout (vin tx') = map prevout (vin tx) /\ map nSequence (vin tx') = map nSequence (vin tx) /\
     Forall3 (fun s i i' => scriptSig i' = if len (scriptSig i) <? len s then s else scriptSig i) (signatures sr) (vin tx) (vin tx')).
Proof.
  intros Er Hw Hs Hl Hl'. unfold AddSignedInputsToTx. rewrite Er, DeserializeTx_raw by done. cbn [mbind option_bind]. destruct (Z.eqb_spec (len (signatures sr)) (len (vin tx))) as [El|El]; cbn [negb]; [|split; [done|intros ?; contradiction]].
  split; [done|]. intros _. assert (Hlen : length (signatures sr) = length (vin tx)) by (unfold len in El; lia). eexists _, (merged (signatures sr) tx). split; [done|].
  destruct (merged_inputs (signatures sr) (vin tx) Hlen) as (Hp & Hq & H3). split; [|by destruct (existsb _ _)].
  destruct (existsb sig_longer _) eqn:Eb; cbn [signedrawtx set_signedBy set_rawtx].
  - fold (merged (signatures sr) tx). apply DeserializeTx_raw; [by apply merged_wf|done].
  - rewrite Er. unfold merged. rewrite merged_none by done. replace (set_vinvout (vin tx) (vout tx) tx) with tx by (by destruct tx). by apply DeserializeTx_raw.
Qed.

(** Every message of the protocol and its parts are written with the announced size
    and read back unchanged, whatever bytes follow. *)
Theorem enigma_messages_codec :
  ser_correct identifier_wf ser_identifier /\ (forall this, ser_correct (inouts_wf this) (ser_inouts this)) /\
  (forall this, ser_correct (participant_wf this) (ser_participant this)) /\ (forall this, ser_correct (accept_wf this) (ser_accept this)) /\
  ser_correct sign_response_wf ser_sign_response /\ (forall this, ser_correct (request_wf this) (ser_request this)).
Proof.
  split_and!; [apply ser_identifier_correct|apply ser_inouts_correct|apply ser_participant_correct|apply ser_accept_correct|apply ser_sign_response_correct|apply ser_request_correct].
Qed.

(** ** Examples *)

#[local] Existing Instance Crypto_toy.
#[local] Existing Instance EC_toy.
#[local] Existing Instance EC_curve_toy.
#[local] Existing Instance BN_Z.

#[local] Instance AES_none : AES := {| EVP_Encrypt key iv m := None; EVP_Decrypt key iv c := None; EVP_BytesToKey salt data n := (32, [], []) |}.
#[local] Instance ECDH_one : ECDH := {| ECDH_compute_key peer ours := Some [1] |}.

Lemma toy_rand_ok : rand_ok (fun _ => 12345) 1.
Proof. split; [intros _; unfold fits; lia|intros _; exists 0%nat; split; lia]. Qed.

Definition toy_sx : CStealthAddress := mkStealth 0 (toy_public 5) (toy_public 7) 0 (mkPrefix 0 0) [] (toy_secret 5) (toy_secret 7) false.
Definition toy_txin (n : Z) : CTxIn := mkTxIn (mkOutPoint (replicate 8 n) 0) [] UINT_MAX.
Definition toy_cloaker (n : Z) : CCloakingParticipant := mkParticipant [n] [] (mkInOuts 10 [toy_txin n] [] (bu_zero 8) 0 1010000 (replicate 8 n) false 0) toy_sx.
Definition toy_request : CCloakingRequest :=
  mkRequest 10 (mkIdentifier [48] 100) 1000000 2 [] [] [] [] true 100 false false 0 true false false false 0 60 [48] [toy_cloaker 1; toy_cloaker 2] (toy_public 3) toy_sx.
Definition toy_ours : CCloakingInputsOutputs := mkInOuts 10 [toy_txin 3] [mkTxOut 1000000 [OP_RETURN]] (bu_zero 8) 1000000 2000000 (bu_zero 8) false 0.

Local Abbreviation toy_joint := (CreateEnigmaOutputs false (fun _ => 12345) 1 200 toy_request (collate (sParticipants toy_request)) toy_ours inouts_new 0).

Example reward_of_one_coin : total_reward 1000000 = 9992 /\ total_reward 2000000000 = 4000000.
Proof. by vm_compute. Qed.

(** 0.02 coins of inputs that are not paid out: the output of the root key and the fee. *)
Example toy_joint_amounts : (fun '(o, f, _) => (map nValue (io_vout o), map nValue (io_vout f))) <$> toy_joint =
  Some ([1000000; 925318; 22345; 22345], [1000000; 925318; 22345; 22345; 992651; 22345; 992651; 22345]).
Proof. by vm_compute. Qed.

Lemma toy_reward : total_reward (nSendAmount toy_request) = 9992.
Proof. by vm_compute. Qed.

Lemma toy_joint_ok : joint_ok toy_request toy_ours.
Proof.
  split.
  - reflexivity.
  - change (0 < 2 < 2 ^ 31). lia.
  - repeat constructor; cbn [nInputAmount inOuts toy_cloaker]; lia.
  - repeat constructor; unfold in_range; cbn [nValue]; change MAX_MONEY with 10000000000000; lia.
  - rewrite toy_reward. lia.
  - rewrite toy_reward. change (1000000 + 0 + 9992 + 10000 <= 2000000). lia.
  - change (2000000 + (1010000 + (1010000 + 0)) <= 10000000000000). lia.
Qed.

Example toy_joint_sizes : match toy_joint with Some (_, final, _) => (len (io_vin final) =? 3) && (len (io_vout final) =? 8) | None => false end = true.
Proof. by vm_compute. Qed.

Lemma joint_transaction_balances_witness : exists ours' final k' fee tx, toy_joint = Some (ours', final, k') /\ MIN_TX_FEE <= fee /\ nInputAmount toy_ours + amount_in (sParticipants toy_request) = Tx.total (vout tx) + fee.
Proof.
  pose proof toy_joint_sizes as H. destruct toy_joint as [[[ours' final] k']|] eqn:E; [|discriminate H]. apply andb_true_iff in H as [Hi%Z.eqb_eq Ho%Z.eqb_eq].
  assert (Hi' : len (io_vin final) < 2 ^ 31) by (rewrite Hi; reflexivity). assert (Ho' : len (io_vout final) < 2 ^ 31) by (rewrite Ho; reflexivity).
  destruct (joint_transaction_balances false (fun _ => 12345) 1 200 toy_request toy_ours ours' final 0 k' (CV := EC_curve_toy) toy_rand_ok toy_joint_ok E Hi' Ho') as (fee & tx & vo & k2 & Hf & _ & _ & _ & _ & _ & Hb).
  exists ours', final, k', fee, tx. exact (conj eq_refl (conj Hf Hb)).
Defined.

(** A wallet that joins a request for 0.01 coins. *)
Definition small_request : CCloakingRequest :=
  mkRequest 10 (mkIdentifier [48] 100) 10000 2 [] [] [] [] true 100 false false 0 false false false false 0 60 [48] [] [] toy_sx.
Definition toy_part : CCloakingParticipant := mkParticipant [50] [] inouts_new toy_sx.
Definition deep_index : index_state :=
  mkIndexState {[1 := mkIndex None None (Some 2) 0 0 (bu_zero 8) 0 0 0 0 0 0 out_null 0 (bu_zero 8) 0 (bu_zero 8) 0 0 0; 2 := mkIndex None (Some 1) None 0 0 (bu_zero 8) 10 0 0 0 0 0 out_null 0 (bu_zero 8) 0 (bu_zero 8) 0 0 0]} {[replicate 8 1 := 1]} (Some 2) None.
Definition deep_env : wallet_env := mkWalletEnv deep_index 15 1000 40.

Lemma deep_wallet_ok : wallet_ok 1 deep_env sample_wallet.
Proof.
  assert (Hone : forall h t, mapWallet sample_wallet !! h = Some t -> t = sample_wtx) by (intros h t E; cbn [mapWallet sample_wallet] in E; by apply lookup_singleton_Some in E as [_ <-]).
  split; [intros h t ->%Hone; exists (fun _ => 0%nat)|intros h t x ->%Hone Hx].
  - split.
    + intros t ->%list_elem_of_singleton. eexists. vm_compute. reflexivity.
    + intros t ->%list_elem_of_singleton. eexists. vm_compute. reflexivity.
    + intros t i t' ->%list_elem_of_singleton Hi. by apply elem_of_nil in Hi.
  - apply elem_of_cons in Hx as [->|[->|Hx]%elem_of_cons]; [eexists; vm_compute; reflexivity..|]. by apply elem_of_nil in Hx.
Qed.

Definition toy_coins : option (list COutput) := AvailableCoins 9 1 deep_env sample_wallet true None.
Definition toy_reserved := GetCloakingInputsMine (fun _ => 12345) 1 (fun _ => 1) elements 9 1 deep_env small_request toy_part sample_wallet ∅ 0 0.

Example toy_coins_value : match toy_coins with Some l => (Util.total (map co_val l) =? 50000) && (len l =? 2) | None => false end = true.
Proof. vm_compute. reflexivity. Qed.

Example toy_reserved_value : match toy_reserved with Some (b, p, _, _) => b && (nInputAmount (inOuts p) =? 20000) && (len (io_vin (inOuts p)) =? 1) | None => false end = true.
Proof. vm_compute. reflexivity. Qed.

Lemma cloaker_reservation_witness : exists part' w' m' (l : list coin), toy_reserved = Some (true, part', w', m') /\ 20000 <= nInputAmount (inOuts part') /\
  forall c, reserved_at w' c = if decide (c ∈ l) then Some true else reserved_at sample_wallet c.
Proof.
  destruct toy_coins as [vCoins|] eqn:EA; [|exfalso; pose proof toy_coins_value as H; rewrite EA in H; discriminate].
  pose proof toy_coins_value as H. rewrite EA in H. apply andb_true_iff in H as [Ht%Z.eqb_eq Hl%Z.eqb_eq].
  destruct toy_reserved as [[[[b part'] w'] m']|] eqn:E; [|exfalso; pose proof toy_reserved_value as H'; rewrite E in H'; discriminate].
  pose proof toy_reserved_value as H'. rewrite E in H'. apply andb_true_iff in H' as [[Hb _]%andb_true_iff _]. subst b.
  destruct (cloaker_reservation (fun _ => 12345) 1 (fun _ => 1) elements 9 1 deep_env small_request toy_part sample_wallet ∅ 0 0 part' w' m' vCoins toy_rand_ok (fun s => reflexivity _)
    deep_wallet_ok) as (sel & l & _ & _ & _ & _ & _ & Hn & _ & Hall & _); [split; [discriminate|reflexivity]|exact EA|rewrite Ht; reflexivity|rewrite Hl; reflexivity|exact E|].
  exists part', w', m', l. exact (conj eq_refl (conj (Hn eq_refl) Hall)).
Defined.

(** A peer whose inputs are in the pool joins, and the request still waits for another. *)
#[local] Instance no_index : TxIndexDB unit := {| idx_Read d h := Some None; idx_Update d h t := Some (true, d); idx_Erase d h := Some (true, d) |}.

Definition toy_prev : CTransaction := mkTx 1 50 [] [mkTxOut 40000 [OP_TRUE]] 0 [] 0.
Definition toy_pool : CTxMemPool := mkPool {[replicate 8 9 := toy_prev]} ∅ 0.
Definition toy_answer : CCloakingAcceptResponse :=
  mkAccept (GetIdHash small_request) (mkParticipant [50] (default [] (Encoded toy_address)) (mkInOuts 10 [toy_txin 9] [] (bu_zero 8) 0 0 (replicate 8 9) false 0) toy_sx).
Definition toy_state : enigma_state := mkEnigma {[GetIdHash small_request := small_request]} ∅ ∅ [] 0.
Definition toy_accepted := ProcessAcceptResponse false (fun _ => 12345) 1 200 ∅ toy_pool tt (mkIndexState ∅ ∅ None None) 40 EC_KEY_new true (mkPrefix 0 0) 0 toy_answer toy_state.

Example toy_joins : match toy_accepted with
  | Some (b, s) => b && match mapOurCloakingRequests s !! GetIdHash small_request with Some r => (len (sParticipants r) =? 1) && negb (txCreated r) | None => false end
  | None => false
  end = true.
Proof. vm_compute. reflexivity. Qed.

Lemma accept_responses_bounded_witness : exists s', toy_accepted = Some (true, s') /\ answered true (mkPrefix 0 0) 0 toy_state s' toy_answer true /\ room_ok s'.
Proof.
  destruct toy_accepted as [[b s']|] eqn:E; [|exfalso; pose proof toy_joins as H; rewrite E in H; discriminate].
  pose proof toy_joins as H. rewrite E in H. apply andb_true_iff in H as [Hb _]. subst b. exists s'. split; [reflexivity|].
  destruct (accept_responses_bounded (D := unit) _ _ _ _ _ _ _ _ _ _ _ _ _ _ _ _ _ E) as (Ha & Hr & _). split; [exact Ha|]. apply Hr.
  intros h r Hh. cbn [mapOurCloakingRequests toy_state] in Hh. apply lookup_singleton_Some in Hh as [_ <-]. discriminate.
Defined.

(** The second participant's signature is kept, and the first one's is replaced. *)
Definition toy_signed_tx : CTransaction := mkTx 1 100 [mkTxIn (mkOutPoint (replicate 8 1) 0) [1] UINT_MAX; mkTxIn (mkOutPoint (replicate 8 2) 0) [7; 8] UINT_MAX] [] 0 [] 0.
Definition toy_sign_request : CCloakingRequest := set_rawtx (HexStr (raw_tx toy_signed_tx) false) (HexStr (raw_tx toy_signed_tx) false) small_request.
Definition toy_sign_response : CCloakingSignResponse := mkSignResponse [65] (bu_zero 8) (bu_zero 8) [[5; 6]; [9]].

Lemma toy_signed_tx_wf : tx_wf (tx_SetNull 100 tx_fresh) toy_signed_tx.
Proof.
  unfold tx_wf, toy_signed_tx; cbn [tx_nVersion tx_nTime vin vout nLockTime data nDoS].
  unfold vector_wf, digits, sfits, fits, UINT_MAX.
  repeat match goal with
  | |- _ /\ _ => split
  | |- Forall _ (_ :: _) => apply List.Forall_cons
  | |- Forall _ [] => apply List.Forall_nil
  | |- txin_wf _ => unfold txin_wf, out_wf, wf, bytes_wf, digits, fits; cbn
  end; (lia || done).
Qed.

Lemma toy_signatures_wf : vector_wf bytes_wf (signatures toy_sign_response).
Proof. split; [|done]. apply List.Forall_cons; [|apply List.Forall_cons; [|apply List.Forall_nil]]; (split; [unfold digits; cbn; forall_list|done]). Qed.

Lemma signatures_merge_witness : exists r' tx', AddSignedInputsToTx 100 toy_sign_request toy_sign_response = Some (true, r') /\ DeserializeTx 100 (signedrawtx r') = Some tx' /\
  map prevout (vin tx') = map prevout (vin toy_signed_tx) /\ signedByAddresses r' = [[65]].
Proof.
  destruct (signatures_merge 100 toy_sign_request toy_sign_response toy_signed_tx) as [_ H];
    [reflexivity|exact toy_signed_tx_wf|exact toy_signatures_wf|vm_compute; reflexivity|vm_compute; reflexivity|].
  destruct (H eq_refl) as (r' & tx' & E & D & _ & A & _ & P & _). exists r', tx'. exact (conj E (conj D (conj P A))).
Defined.
