(* ===== verification/Cloaker.v ===== *)
(** * enigma/cloakingrequest.cpp, wallet.cpp: what a cloaker signs

    The sender of a cloaked payment sends the joint transaction to the cloakers.
    A cloaker looks for its own inputs in it, adds up the outputs that pay the
    one-time keys of its stealth addresses, derived from the root key that an
    output of the transaction carries, and signs its inputs when that is at
    least what it put in.  The narrations that the search for the root key meets
    are kept under the number of the output they belong to; the source makes a
    text of the number. *)
From Stdlib Require Import ZArith Lia Bool.
From stdpp Require Import prelude gmap sorting.
From S2P Require Import Prelude Uint256 DataStream Serialize Crypto Bignum Opcodes Base58 Script Tx Block Index TxDB Target Keys KeyStore Stealth Pool SigHash Interp Standard Sign Connect Util Coins Enigma.

(** ** The root key in a transaction *)

(** A narration in plain text: a push that begins with "np", and then another one. *)
Definition narration (itTxA : CScript) (vchEphemPK : list Z) : option (list Z) :=
  if (1 <? len vchEphemPK) && (znth vchEphemPK 0 =? 110) && (znth vchEphemPK 1 =? 112) then
    '(opCode, _, itTxA) ← GetOp itTxA;
    if negb (opCode =? OP_RETURN) then None
    else '(_, vchENarr, _) ← GetOp itTxA; if 0 <? len vchENarr then Some vchENarr else None
  else None.

Fixpoint ephem_loop (l : list CTxOut) (nOutputIdOuter : Z) (mapNarr : gmap Z (list Z)) : option (list Z * CScript * CTxOut) * gmap Z (list Z) :=
  match l with
  | [] => (None, mapNarr)
  | txout :: l =>
      match GetOp (scriptPubKey txout) with
      | None => ephem_loop l (nOutputIdOuter + 1) mapNarr
      | Some (opCode, _, itTxA) =>
          if negb (opCode =? OP_RETURN) then ephem_loop l (nOutputIdOuter + 1) mapNarr
          else
            let '(fRet, itTxA, _, vchEphemPK) := GetOp2 itTxA in
            if negb fRet || negb (len vchEphemPK =? 33) then
              ephem_loop l (nOutputIdOuter + 1)
                (match narration itTxA vchEphemPK with Some sNarr => <[nOutputIdOuter - 1 := sNarr]> mapNarr | None => mapNarr end)
            else (Some (vchEphemPK, itTxA, txout), mapNarr)
      end
  end.

(** The key, what follows it in the script, and the output; and the narrations. *)
Definition GetStealthEphemPK (tx : CTransaction) (mapNarr : gmap Z (list Z)) : option (list Z * CScript * CTxOut) * gmap Z (list Z) :=
  ephem_loop (vout tx) 0 mapNarr.

(** ** What a transaction pays to the wallet *)

Section amounts.
Context `{BN} `{Crypto} `{EC_curve}.
Context (fTestNet : bool).
(** The wallet's stealth addresses, in the order of the set. *)
Context (stealthAddresses : list CStealthAddress).

Fixpoint find_stealth (l : list CStealthAddress) (enigmaAddress : list Z) : option (option CStealthAddress) :=
  match l with
  | [] => Some None
  | sa :: l =>
      if negb (IsOwned sa) then find_stealth l enigmaAddress
      else s ← Encoded sa; if bytes_eqb s enigmaAddress then Some (Some sa) else find_stealth l enigmaAddress
  end.

Definition GetStealthAddress (enigmaAddress : list Z) : option (option CStealthAddress) := find_stealth stealthAddresses enigmaAddress.

(** The scripts that [GetEnigmaChangeAddresses] leaves, also when it returns false. *)
Fixpoint scripts_until (a : CStealthAddress) (secrets : list (list Z)) : list CScript :=
  match secrets with
  | [] => []
  | s :: secrets => match change_script fTestNet a s with Some cs => cs :: scripts_until a secrets | None => [] end
  end.

Definition change_scripts (a : CStealthAddress) (stealthRootKey : list Z) (cloakerHash : base_uint) (numChangeAddresses : nat) (offset : Z) : list CScript :=
  match change_secrets (bu_SetHex 8 (HexStr stealthRootKey false)) cloakerHash offset numChangeAddresses 0 with
  | None => []
  | Some secrets => scripts_until a secrets
  end.

(** [CBitcoinAddress(dest).ToString()] *)
Definition dest_text (d : CTxDestination) : option (list Z) := b58_ToString (addr_Set fTestNet (mkBase58Data 0 []) d).2.

(** [addressLookup]: the stealth address for the text of its one-time key number 0. *)
Fixpoint lookup_loop (l : list CStealthAddress) (vchEphemPK : list Z) (addressLookup : gmap (list Z) (list Z)) : option (gmap (list Z) (list Z)) :=
  match l with
  | [] => Some addressLookup
  | sa :: l =>
      if negb (IsOwned sa) then lookup_loop l vchEphemPK addressLookup
      else
        script ← head (change_scripts sa vchEphemPK (GetEnigmaAddressPrivateHash sa) 1 0);
        onetimeAddress ← ExtractDestination script;
        match onetimeAddress with
        | None => lookup_loop l vchEphemPK addressLookup
        | Some d => sxAdd ← Encoded sa; txAdd ← dest_text d; lookup_loop l vchEphemPK (<[txAdd := sxAdd]> addressLookup)
        end
  end.

(** [generatedKeyIds] *)
Fixpoint key_ids (scripts : list CScript) : option (list CKeyID) :=
  match scripts with
  | [] => Some []
  | s :: scripts => add ← ExtractDestination s; ids ← key_ids scripts; Some (match add with Some (DestKeyID id) => id :: ids | _ => ids end)
  end.

Fixpoint inner_loop (txout : CTxOut) (generatedKeyIds : list CKeyID) (l : list CTxOut) (amount : Z) : option Z :=
  match l with
  | [] => Some amount
  | txoutInner :: l =>
      if txout_eq txout txoutInner then inner_loop txout generatedKeyIds l amount
      else
        txAddressInner ← ExtractDestination (scriptPubKey txoutInner);
        inner_loop txout generatedKeyIds l
          (match txAddressInner with
           | Some (DestKeyID id) => if existsb (bu_eq id) generatedKeyIds then u64 (amount + nValue txoutInner) else amount
           | _ => amount
           end)
  end.

Fixpoint outer_loop (tx : CTransaction) (txoutStealthNonce : CTxOut) (vchEphemPK : list Z) (addressLookup : gmap (list Z) (list Z)) (l : list CTxOut) (amount : Z) : option Z :=
  match l with
  | [] => Some amount
  | txout :: l =>
      let continue := outer_loop tx txoutStealthNonce vchEphemPK addressLookup l in
      if txout_eq txout txoutStealthNonce then continue amount
      else
        txAddress ← ExtractDestination (scriptPubKey txout);
        match txAddress with
        | Some (DestKeyID id) =>
            txAdd ← dest_text (DestKeyID id);
            let stealthEncoded := default [] (addressLookup !! txAdd) in
            found ← (if 0 <? len stealthEncoded then GetStealthAddress stealthEncoded else Some None);
            match found with
            | None => continue amount
            | Some stealthAddress =>
                let amount := u64 (amount + nValue txout) in
                generatedKeyIds ← key_ids (change_scripts stealthAddress vchEphemPK (GetEnigmaAddressPrivateHash stealthAddress) (length (vout tx)) 1);
                amount ← inner_loop txout generatedKeyIds (vout tx) amount;
                continue amount
            end
        | _ => continue amount
        end
  end.

(** [None]: a vector is read out of range, or an exception. *)
Definition GetEnigmaOutputsAmounts (tx : CTransaction) (vchEphemPK : list Z) : option Z :=
  txoutStealthNonce ← last (vout tx);
  if negb (nValue txoutStealthNonce =? MIN_TXOUT_AMOUNT) then Some 0
  else
    stealthPk ← ExtractDestination (scriptPubKey txoutStealthNonce);
    match stealthPk with
    | Some _ => Some 0
    | None =>
        addressLookup ← lookup_loop stealthAddresses vchEphemPK ∅;
        outer_loop tx txoutStealthNonce vchEphemPK addressLookup (vout tx) 0
    end.
End amounts.

(** ** Signing *)

Section sign.
Context {D : Type} `{!TxIndexDB D} `{BNI : BN} `{CR : Crypto} `{ECI : EC} `{!EC_curve} `{!ECDH} `{AE : AES} {K : Type} `{KS : !CKeyStore K}.
Context (fTestNet : bool) (now : Z) (files : block_files) (pool : CTxMemPool) (txdb : D) (nBestHeight : Z).
Context (GetRandHash : nat -> base_uint) (nMaxCacheSize : Z).
(** Our session key and its public key in hexadecimal; the wallet's keys and addresses. *)
Context (pkey : EC_KEY) (pubkeyHex : list Z) (keystore : K) (stealthAddresses : list CStealthAddress).

(** [SendEnigmaMessage(myKey, code, data, recipientPubKey)] *)
Definition send_to (code : Z) (text recipientPubKey : list Z) (s : enigma_state) : option enigma_state :=
  '(secret, m) ← GetSecret (mapCloakSecrets s) pkey recipientPubKey true;
  Some (match secret with Some secret => emit (SendMessage code text secret) (put_secrets m s) | None => put_secrets m s end).

(** The previous output scripts, or whether the sender is banned. *)
Fixpoint fetch_prevouts (l : list CTxIn) (mapPrevOut : gmap COutPoint CScript) : option (bool + gmap COutPoint CScript) :=
  match l with
  | [] => Some (inr mapPrevOut)
  | i :: l =>
      '(ok, fInvalid, mapPrevTx) ← FetchInputs files pool txdb ∅ false false (set_vinvout [i] [] (tx_SetNull now tx_fresh)) ∅;
      if negb ok then Some (inl fInvalid)
      else
        match (t ← mapPrevTx !! op_hash (prevout i); vout t.2 !! Z.to_nat (op_n (prevout i))) with
        | Some o => fetch_prevouts l (<[prevout i := scriptPubKey o]> mapPrevOut)
        | None => Some (inl true)
        end
  end.

Definition SIGHASH_ALL_ANYONECANPAY : Z := Z.lor SIGHASH_ALL SIGHASH_ANYONECANPAY.

(** The loop over the [n] inputs from number [i]: whether all verify and the
    transaction, or the answer false.  Both scripts that are combined are the
    one just made, so it does not matter in which order. *)
Fixpoint sign_loop (mapPrevOut : gmap COutPoint CScript) (ourInputs : list CTxIn) (n i : nat) (jointTrans : CTransaction) (fComplete : bool)
    (c : CSignatureCache) (r : EC_RAND) : option (option (bool * CTransaction) * CSignatureCache * EC_RAND) :=
  match n with
  | O => Some (Some (fComplete, jointTrans), c, r)
  | S n =>
      txInput ← vin jointTrans !! i;
      match mapPrevOut !! prevout txInput with
      | None => sign_loop mapPrevOut ourInputs n (S i) jointTrans false c r
      | Some prevPubKey =>
          if negb (existsb (fun o => txin_eq o txInput) ourInputs) then sign_loop mapPrevOut ourInputs n (S i) jointTrans fComplete c r
          else
            let jointTrans := set_scriptSig jointTrans (Z.of_nat i) [] in
            '(ok, jointTrans, c, r) ← SignSignature GetRandHash nMaxCacheSize r keystore prevPubKey jointTrans (Z.of_nat i) SIGHASH_ALL_ANYONECANPAY c;
            if negb (ok : bool) then Some (None, c, r)
            else
              txInput ← vin jointTrans !! i;
              '(sig, c) ← CombineSignatures GetRandHash nMaxCacheSize now now prevPubKey jointTrans (Z.of_nat i) (scriptSig txInput) (scriptSig txInput) c;
              let jointTrans := set_scriptSig jointTrans (Z.of_nat i) sig in
              '(ok, c) ← test_solution GetRandHash nMaxCacheSize jointTrans (Z.of_nat i) prevPubKey c;
              sign_loop mapPrevOut ourInputs n (S i) jointTrans (fComplete && ok) c r
      end
  end.

(** The checks on the joint transaction of the request, before anything is signed. *)
Definition check_joint (req : CCloakingRequest) (participantSigning : bool) (jointTrans : CTransaction) (s : enigma_state) : option (bool * enigma_state) :=
  let sender := id_pubKeyHex (identifier req) in
  let idHex := bu_GetHex (GetIdHash req) in
  let banned := emit (BanPeer sender ENIGMA_BANSECS_MISSING_INPUTS) s in
  match mapCloakingInputsOutputs s !! GetIdHash req with
  | Some inoutsMine =>
      if negb (forallb (fun invMine => existsb (fun i => txin_eq i invMine) (vin jointTrans)) (io_vin inoutsMine)) then
        s ← send_to ENIGMA_MSG_SIGN_INPUT_NOT_FOUND sender idHex banned; Some (false, s)
      else
        match (GetStealthEphemPK jointTrans ∅).1 with
        | None => Some (false, s)
        | Some (vchEphemPK, _, _) =>
            amountOut ← GetEnigmaOutputsAmounts fTestNet stealthAddresses jointTrans vchEphemPK;
            if participantSigning && (amountOut <? u64 (nInputAmount inoutsMine)) then
              s ← send_to ENIGMA_MSG_SIGN_CHANGE_MISSING idHex sender banned; Some (false, s)
            else Some (true, s)
        end
  | None =>
      if participantSigning then s ← send_to ENIGMA_MSG_SIGN_INPUTS_OUTPUTS_MISSING idHex sender banned; Some (false, s)
      else Some (true, s)
  end.

(** The part of [SignAndRespond] that cloaker and sender have in common: whether
    all inputs verify and the signed transaction, or the answer false. *)
Definition sign_joint (req : CCloakingRequest) (participantSigning : bool) (s : enigma_state) (c : CSignatureCache) (r : EC_RAND)
    : option (option (bool * CTransaction) * enigma_state * CSignatureCache * EC_RAND) :=
  jointTrans ← DeserializeTx now (signedrawtx req);
  '(ok, s) ← check_joint req participantSigning jointTrans s;
  if negb (ok : bool) then Some (None, s, c, r)
  else
    prevs ← fetch_prevouts (vin jointTrans) ∅;
    match prevs with
    | inl ban => Some (None, if (ban : bool) then emit (BanPeer (id_pubKeyHex (identifier req)) ENIGMA_BANSECS_MISSING_INPUTS) s else s, c, r)
    | inr mapPrevOut =>
        match mapCloakingInputsOutputs s !! GetIdHash req with
        | None => Some (Some (true, jointTrans), s, c, r)
        | Some io => '(signed, c, r) ← sign_loop mapPrevOut (io_vin io) (length (vin jointTrans)) 0 jointTrans true c r; Some (signed, s, c, r)
        end
    end.

Definition locked_until_next (i : CCloakingInputsOutputs) : CCloakingInputsOutputs :=
  mkInOuts (io_nVersion i) (io_vin i) (io_vout i) (io_requestIdentifier i) (io_nSendAmount i) (nInputAmount i) (stealthHash i) true (s32 (nBestHeight + 1)).

(** [SignAndRespond] as a cloaker.  [None]: an exception, after which nothing has
    been sent, or a vector is read out of range. *)
Definition SignAndRespond_cloaker (mapCloakingRequests : gmap base_uint CCloakingRequest) (req : CCloakingRequest) (s : enigma_state) (c : CSignatureCache) (r : EC_RAND)
    : option (bool * enigma_state * CSignatureCache * EC_RAND) :=
  let idhash := GetIdHash req in
  match mapCloakingRequests !! idhash with
  | None => s ← send_to ENIGMA_MSG_SIGN_REQUEST_NOT_FOUND (id_pubKeyHex (identifier req)) (bu_GetHex idhash) s; Some (false, s, c, r)
  | Some reqOurCopy =>
      if existsb (bytes_eqb pubkeyHex) (signedByAddresses reqOurCopy) then Some (false, s, c, r)
      else
        '(signed, s, c, r) ← sign_joint req true s c r;
        match signed with
        | None => Some (false, s, c, r)
        | Some (_, jointTrans) =>
            let ccsr := mkSignResponse pubkeyHex idhash (bu_zero 8) (map scriptSig (vin jointTrans)) in
            '(secret, m) ← GetSecret (mapCloakSecrets s) pkey (id_pubKeyHex (identifier req)) true;
            let s := emit (SendSignResponse ccsr secret) (put_secrets m s) in
            Some (true, put_inouts idhash (locked_until_next (default inouts_new (mapCloakingInputsOutputs s !! idhash))) s, c, r)
        end
  end.
End sign.

(** ** Facts about destinations and their texts *)

Section text_facts.
Context `{BNS : BN_spec} `{CS : Crypto_spec} `{CV : EC_curve}.
Context (fTestNet : bool).

Lemma decodes_digits s l : script_ok s -> decodes s l -> forall p, p ∈ l -> digits 256 p.2.
Proof.
  intros Hs Hd. revert Hs. induction Hd as [|s o v r l E _ IH]; intros Hs p Hp; [by apply elem_of_nil in Hp|].
  destruct (GetOp_shrinks _ _ _ _ Hs E) as (_ & Hr & Hv & _). apply elem_of_cons in Hp as [->|Hp]; [done|by apply IH].
Qed.

Lemma ExtractDestination_wf s id : script_ok s -> ExtractDestination s = Some (Some (DestKeyID id)) -> wf 5 id.
Proof.
  intros Hs E. destruct (proj1 (proj2 destination_roundtrip) s Hs) as (r & E' & Hr). rewrite E in E'. injection E' as <-.
  destruct Hr as (v & [[_ <-]|[[Hf _] <-]]); [apply wf_Hash160|]. inversion Hf as [|o h Hd Hl| | |]; subst.
  apply (words_of_bytes_spec 5 v); [|unfold len in *; lia]. apply (decodes_digits _ _ Hs Hd (o, v)). set_solver.
Qed.

(** A text names one key. *)
Lemma dest_text_inj id id' t : wf 5 id -> wf 5 id' -> dest_text fTestNet (DestKeyID id) = Some t -> dest_text fTestNet (DestKeyID id') = Some t -> id = id'.
Proof.
  intros Hw1 Hw2 E1 E2. destruct (proj1 (address_codec fTestNet) false id (mkBase58Data 0 []) Hw1) as (d & s & Ed & Es & Er & _ & _ & Eg & _).
  destruct (proj1 (address_codec fTestNet) false id' (mkBase58Data 0 []) Hw2) as (d' & s' & Ed' & Es' & Er' & _ & _ & Eg' & _).
  unfold dest_text in *. cbn [id_dest] in *. rewrite Ed in E1. rewrite Ed' in E2. cbn [snd] in *. rewrite Es in E1. rewrite Es' in E2. injection E1 as ->. injection E2 as ->.
  rewrite Er in Er'. injection Er' as <-. rewrite Eg in Eg'. by injection Eg'.
Qed.

Lemma change_script_dest a s cs : change_script fTestNet a s = Some cs ->
  exists c pk, StealthSecret s (scan_pubkey a) (spend_pubkey a) = Some (c, pk) /\ ExtractDestination cs = Some (Some (DestKeyID (GetID (mkPubKey pk)))).
Proof.
  unfold change_script. intros E. apply bind_Some in E as ([c pk] & Ek & E). exists c, pk. split; [done|]. destruct (negb _); [done|]. apply bind_Some in E as (x & _ & [= <-]).
  assert (Hw : wf 5 (GetID (mkPubKey pk))) by apply wf_Hash160.
  destruct (proj1 (address_codec fTestNet) false _ (mkBase58Data 0 []) Hw) as (d & t & [= Ed] & _ & _ & _ & _ & Eg & _). rewrite Ed, Eg. by apply destination_roundtrip.
Qed.
End text_facts.

(** ** What is counted was paid to us *)

Section amount_facts.
Context `{BNS : BN_spec} `{CS : Crypto_spec} `{CV : EC_curve}.
Context (fTestNet : bool) (stealthAddresses : list CStealthAddress) (eph : list Z).

(** [id] is the one-time key number [j] of an address, for the root key [eph]. *)
Definition key_number (a : CStealthAddress) (j : Z) (id : CKeyID) : Prop :=
  exists secret c pk, GenerateEnigmaSecret (bu_SetHex 8 (HexStr eph false)) (GetEnigmaAddressPrivateHash a) j = Some secret /\
    StealthSecret secret (scan_pubkey a) (spend_pubkey a) = Some (c, pk) /\ id = GetID (mkPubKey pk).

(** The output pays a one-time key of an address of ours; its number satisfies [Q]. *)
Definition pays (Q : Z -> Prop) (o : CTxOut) : Prop :=
  exists a j id, a ∈ stealthAddresses /\ IsOwned a = true /\ Q j /\ key_number a j id /\ ExtractDestination (scriptPubKey o) = Some (Some (DestKeyID id)).

Definition pays_zero : CTxOut -> Prop := pays (fun j => j = 0).
Definition pays_us : CTxOut -> Prop := pays (fun j => 0 <= j < 60).

Lemma key_number_range a j id : 0 <= j -> key_number a j id -> 0 <= j < 60.
Proof. intros Hj (s & c & pk & E & _). unfold GenerateEnigmaSecret in E. destruct (Z.leb_spec 60 j); [done|lia]. Qed.

Lemma pays_zero_us o : pays_zero o -> pays_us o.
Proof. intros (a & j & id & Ha & Ho & -> & Hk & E). exists a, 0, id. split_and!; (done || lia). Qed.

Lemma change_secrets_in src h off n : forall i l s, change_secrets src h off n i = Some l -> s ∈ l ->
  exists i', i <= i' < i + Z.of_nat n /\ GenerateEnigmaSecret src h (u32 (u64 (i' + off))) = Some s.
Proof.
  induction n as [|n IH]; intros i l s E Hs; cbn [change_secrets] in E; [injection E as <-; by apply elem_of_nil in Hs|].
  apply bind_Some in E as (s0 & E0 & E). apply bind_Some in E as (l0 & E & [= <-]). apply elem_of_cons in Hs as [->|Hs].
  - exists i. split; [lia|done].
  - destruct (IH (i + 1) l0 s E Hs) as (i' & Hi & E'). exists i'. split; [lia|done].
Qed.

Lemma scripts_until_in a secrets cs : cs ∈ scripts_until fTestNet a secrets -> exists s, s ∈ secrets /\ change_script fTestNet a s = Some cs.
Proof.
  induction secrets as [|s secrets IH]; cbn [scripts_until]; [by intros ?%elem_of_nil|]. destruct (change_script fTestNet a s) as [x|] eqn:E; [|by intros ?%elem_of_nil].
  intros [->|Hin]%elem_of_cons; [exists s; split; [left|done]|]. destruct (IH Hin) as (s' & Hs & E'). exists s'. split; [by right|done].
Qed.

(** Every script is that of a key with a number in range. *)
Lemma change_scripts_in a n off cs : cs ∈ change_scripts fTestNet a eph (GetEnigmaAddressPrivateHash a) n off ->
  exists i id, 0 <= i < Z.of_nat n /\ key_number a (u32 (u64 (i + off))) id /\ ExtractDestination cs = Some (Some (DestKeyID id)).
Proof.
  unfold change_scripts. destruct (change_secrets _ _ _ _ _) as [secrets|] eqn:E; [|by intros ?%elem_of_nil].
  intros (s & Hs & Ec)%scripts_until_in. destruct (change_secrets_in _ _ _ _ _ _ _ E Hs) as (i & Hi & Es).
  apply change_script_dest in Ec as (c & pk & Ek & Ed). exists i, (GetID (mkPubKey pk)). split_and!; [lia|lia| |done]. by exists s, c, pk.
Qed.

Lemma key_ids_in scripts ids id : key_ids scripts = Some ids -> id ∈ ids -> exists cs, cs ∈ scripts /\ ExtractDestination cs = Some (Some (DestKeyID id)).
Proof.
  revert ids. induction scripts as [|s scripts IH]; intros ids E Hin; cbn [key_ids] in E; [injection E as <-; by apply elem_of_nil in Hin|].
  apply bind_Some in E as (d & Ed & E). apply bind_Some in E as (l & El & [= <-]).
  assert (Hl : id ∈ l -> exists cs, cs ∈ s :: scripts /\ ExtractDestination cs = Some (Some (DestKeyID id))).
  { intros Hl. destruct (IH l El Hl) as (cs & Hcs & E). exists cs. split; [by right|done]. }
  destruct d as [[]|]; try by apply Hl. apply elem_of_cons in Hin as [->|Hin]; [|by apply Hl]. exists s. split; [left|done].
Qed.

Lemma find_stealth_in l t a : find_stealth l t = Some (Some a) -> a ∈ l /\ IsOwned a = true.
Proof.
  induction l as [|x l IH]; cbn [find_stealth]; [done|]. destruct (IsOwned x) eqn:Eo; cbn [negb].
  - intros E. apply bind_Some in E as (s & _ & E). destruct (bytes_eqb s t).
    + injection E as ->. split; [left|done].
    + destruct (IH E). split; [by right|done].
  - intros E. destruct (IH E). split; [by right|done].
Qed.

(** Every text in the table is that of a key number 0. *)
Definition lookup_ok (m : gmap (list Z) (list Z)) : Prop :=
  forall t s, m !! t = Some s -> exists a id, a ∈ stealthAddresses /\ IsOwned a = true /\ key_number a 0 id /\ dest_text fTestNet (DestKeyID id) = Some t.

Lemma lookup_loop_ok l : forall m m', (forall a, a ∈ l -> a ∈ stealthAddresses) -> lookup_ok m -> lookup_loop fTestNet l eph m = Some m' -> lookup_ok m'.
Proof.
  induction l as [|a l IH]; intros m m' Hl Hm E; cbn [lookup_loop] in E; [by injection E as <-|].
  assert (Hl' : forall a, a ∈ l -> a ∈ stealthAddresses) by (intros x Hx; apply Hl; by right).
  destruct (IsOwned a) eqn:Eo; cbn [negb] in E; [|by eapply IH]. apply bind_Some in E as (cs & Ecs & E). apply bind_Some in E as (d & Ed & E).
  assert (Hcs : cs ∈ change_scripts fTestNet a eph (GetEnigmaAddressPrivateHash a) 1 0) by (destruct (change_scripts _ _ _ _ _ _); [done|injection Ecs as ->; left]).
  apply change_scripts_in in Hcs as (i & id & Hi & Hk & Ed'). rewrite Ed in Ed'. injection Ed' as ->. replace i with 0 in Hk by lia. change (u32 (u64 (0 + 0))) with 0 in Hk.
  apply bind_Some in E as (sx & _ & E). apply bind_Some in E as (t & Et & E). apply (IH _ _ Hl') in E; [done|].
  intros t' s'. destruct (decide (t' = t)) as [->|Hne]; [|rewrite lookup_insert_ne by done; by apply Hm].
  intros _. exists a, id. split_and!; [apply Hl; left|done..].
Qed.
End amount_facts.

Lemma txout_eq_true a b : txout_eq a b = true <-> a = b.
Proof. unfold txout_eq. rewrite andb_true_iff, Z.eqb_eq, bytes_eqb_eq. destruct a, b; cbn. split; [by intros [-> ->]|by intros [= -> ->]]. Qed.

(** A counted output comes once more besides those that are not equal to it. *)
Lemma submseteq_cons_avoid {A} (x : A) k l : sublist k l -> x ∈ l -> x ∉ k -> x :: k ⊆+ l.
Proof.
  induction 1 as [|y k l Hs IH|y k l Hs IH]; intros Hx Hk.
  - by apply elem_of_nil in Hx.
  - apply not_elem_of_cons in Hk as [Hne Hk]. apply elem_of_cons in Hx as [->|Hx]; [done|].
    rewrite (Permutation_swap y x k). apply submseteq_skip. by apply IH.
  - apply elem_of_cons in Hx as [->|Hx]; [apply submseteq_skip; by apply sublist_submseteq|]. apply submseteq_cons. by apply IH.
Qed.

Lemma total_submseteq k l : k ⊆+ l -> Forall in_range l -> Tx.total k <= Tx.total l.
Proof.
  intros Hs Hr. apply submseteq_Permutation in Hs as (k' & Hp). assert (Ht : forall a b, a ≡ₚ b -> Tx.total a = Tx.total b).
  { induction 1; cbn [Tx.total fold_right] in *; unfold Tx.total in *; lia. }
  rewrite (Ht _ _ Hp). rewrite Hp in Hr. apply Forall_app in Hr as [_ Hr]. pose proof (Tx.total_nonneg _ Hr). rewrite Tx_total_app. lia.
Qed.

Section amount_loops.
Context `{BNS : BN_spec} `{CS : Crypto_spec} `{CV : EC_curve}.
Context (fTestNet : bool) (stealthAddresses : list CStealthAddress) (eph : list Z).
Local Abbreviation pays_us := (pays_us stealthAddresses eph).
Local Abbreviation pays_zero := (pays_zero stealthAddresses eph).

Lemma inner_loop_counts a n ids txout l : a ∈ stealthAddresses -> IsOwned a = true ->
  key_ids (change_scripts fTestNet a eph (GetEnigmaAddressPrivateHash a) n 1) = Some ids -> Z.of_nat n < 2 ^ 31 ->
  Forall (fun o => script_ok (scriptPubKey o)) l -> Forall in_range l -> forall amount amount', inner_loop txout ids l amount = Some amount' ->
  exists paid, sublist paid l /\ (txout ∉ paid) /\ Forall pays_us paid /\ (0 <= amount -> amount + Tx.total l < 2 ^ 64 -> amount' = amount + Tx.total paid).
Proof.
  intros Ha Ho Eids Hn. induction l as [|o l IH]; intros Hs Hr amount amount' E; cbn [inner_loop] in E.
  { injection E as <-. exists []. split_and!; [done|by apply not_elem_of_nil|constructor|]. cbn. lia. }
  apply Forall_cons in Hs as [Hso Hs]. apply Forall_cons in Hr as [Hro Hr]. specialize (IH Hs Hr). pose proof (Tx.total_nonneg _ Hr) as Hpos. unfold in_range in Hro.
  assert (Hskip : inner_loop txout ids l amount = Some amount' ->
    exists paid, sublist paid (o :: l) /\ (txout ∉ paid) /\ Forall pays_us paid /\ (0 <= amount -> amount + Tx.total (o :: l) < 2 ^ 64 -> amount' = amount + Tx.total paid)).
  { intros E'. destruct (IH _ _ E') as (paid & Hsub & Hnin & Hp & Hv). exists paid. split_and!; [by apply sublist_cons|done|done|]. rewrite total_cons_out. intros. apply Hv; lia. }
  destruct (txout_eq txout o) eqn:Eeq; [by apply Hskip|]. apply bind_Some in E as (d & Ed & E).
  destruct d as [[| id | |]|]; try by apply Hskip. destruct (existsb (bu_eq id) ids) eqn:Ex; [|by apply Hskip].
  apply existsb_exists in Ex as (id' & Hin & Heq). apply list_elem_of_In in Hin. destruct (key_ids_in _ _ _ Eids Hin) as (cs & Hcs & Ecs).
  apply change_scripts_in in Hcs as (i & id2 & Hi & Hk & Ed2). rewrite Ecs in Ed2. injection Ed2 as <-.
  assert (id = id') as <-.
  { pose proof (ExtractDestination_wf _ _ Hso Ed) as Hw. assert (Hw' : wf 5 id') by (destruct Hk as (? & ? & ? & _ & _ & ->); apply wf_Hash160).
    rewrite (bu_eq_spec 5) in Heq by done. apply Z.eqb_eq in Heq. by apply (val_inj 5). }
  rewrite (wrap_id 64) in Hk by (unfold fits; lia). rewrite (wrap_id 32) in Hk by (unfold fits; lia).
  destruct (IH _ _ E) as (paid & Hsub & Hnin & Hp & Hv). exists (o :: paid). split_and!.
  - by apply sublist_skip.
  - apply not_elem_of_cons. split; [|done]. intros ->. by rewrite (proj2 (txout_eq_true o o) eq_refl) in Eeq.
  - constructor; [|done]. exists a, (i + 1), id. split_and!; [done|done| | |done|done]; apply (key_number_range eph a (i + 1) id); (done || lia).
  - rewrite !total_cons_out. intros Ha0 Hb. rewrite (wrap_id 64) in Hv by (unfold fits; lia). rewrite Hv by lia. lia.
Qed.

Lemma outer_loop_counts tx nonce m l : Forall (fun o => script_ok (scriptPubKey o)) (vout tx) -> Forall in_range (vout tx) -> len (vout tx) < 2 ^ 31 ->
  lookup_ok fTestNet stealthAddresses eph m -> (forall o, o ∈ l -> o ∈ vout tx) ->
  forall amount amount', outer_loop fTestNet stealthAddresses tx nonce eph m l amount = Some amount' ->
  exists zero, sublist zero l /\ Forall pays_zero zero /\ (zero = [] -> amount' = amount) /\
    (forall o, zero = [o] -> 0 <= amount -> amount + nValue o + Tx.total (vout tx) < 2 ^ 64 ->
       exists paid, o :: paid ⊆+ vout tx /\ Forall pays_us (o :: paid) /\ amount' = amount + Tx.total (o :: paid)).
Proof.
  intros Hs Hr Hlen Hm. induction l as [|o l IH]; intros Hl amount amount' E; cbn [outer_loop] in E.
  { injection E as <-. exists []. split_and!; [done|constructor|done|done]. }
  assert (Hl' : forall x, x ∈ l -> x ∈ vout tx) by (intros x Hx; apply Hl; by right). specialize (IH Hl').
  assert (Ho : o ∈ vout tx) by (apply Hl; left). pose proof (proj1 (Forall_forall _ _) Hs o Ho) as Hso. pose proof (proj1 (Forall_forall _ _) Hr o Ho) as Hro. unfold in_range in Hro. cbv beta in Hso.
  assert (Hskip : outer_loop fTestNet stealthAddresses tx nonce eph m l amount = Some amount' ->
    exists zero, sublist zero (o :: l) /\ Forall pays_zero zero /\ (zero = [] -> amount' = amount) /\
    (forall o, zero = [o] -> 0 <= amount -> amount + nValue o + Tx.total (vout tx) < 2 ^ 64 ->
       exists paid, o :: paid ⊆+ vout tx /\ Forall pays_us (o :: paid) /\ amount' = amount + Tx.total (o :: paid))).
  { intros E'. destruct (IH _ _ E') as (zero & Hsub & Hz & Hv). exists zero. split; [by apply sublist_cons|done]. }
  destruct (txout_eq o nonce); [by apply Hskip|]. apply bind_Some in E as (d & Ed & E). destruct d as [[| id | |]|]; try by apply Hskip.
  apply bind_Some in E as (t & Et & E). apply bind_Some in E as (found & Ef & E). destruct found as [a|]; [|by apply Hskip].
  destruct (m !! t) as [sx|] eqn:Em; cbn in Ef; [|done]. destruct (0 <? len sx); [|done].
  apply find_stealth_in in Ef as [Ha Hown]. apply bind_Some in E as (ids & Eids & E). apply bind_Some in E as (amount1 & E1 & E).
  assert (Hz : pays_zero o).
  { destruct (Hm t sx Em) as (a0 & id0 & Ha0 & Ho0 & Hk0 & Et0). exists a0, 0, id0. split_and!; try done. rewrite Ed. do 2 f_equal. f_equal.
    eapply dest_text_inj; [|by destruct Hk0 as (? & ? & ? & _ & _ & ->); apply wf_Hash160|exact Et|exact Et0]. by eapply ExtractDestination_wf. }
  destruct (IH _ _ E) as (zero & Hsub & Hzs & Hnil & _). exists (o :: zero). split_and!; [by apply sublist_skip|by constructor|done|].
  intros o' [= <- ->] Ha0 Hb. specialize (Hnil eq_refl) as ->. pose proof (Tx.total_nonneg _ Hr) as Hpos.
  destruct (inner_loop_counts a _ ids o (vout tx) Ha Hown Eids ltac:(unfold len in Hlen; lia) Hs Hr _ _ E1) as (paid & Hps & Hnin & Hp & Hv).
  rewrite (wrap_id 64) in Hv by (unfold fits; lia). exists paid. split_and!.
  - by apply submseteq_cons_avoid.
  - constructor; [by apply pays_zero_us|done].
  - rewrite total_cons_out, Hv by lia. lia.
Qed.

(** The amount is that of outputs which pay us, when no two outputs pay a key number 0. *)
Lemma outputs_amount_paid tx amount : Forall (fun o => script_ok (scriptPubKey o)) (vout tx) -> Forall in_range (vout tx) -> Tx.total (vout tx) <= MAX_MONEY -> len (vout tx) < 2 ^ 31 ->
  (forall o1 o2, sublist [o1; o2] (vout tx) -> pays_zero o1 -> pays_zero o2 -> False) ->
  GetEnigmaOutputsAmounts fTestNet stealthAddresses tx eph = Some amount ->
  exists paid, paid ⊆+ vout tx /\ Forall pays_us paid /\ amount = Tx.total paid.
Proof.
  intros Hs Hr Ht Hlen Hone E. assert (HM : MAX_MONEY = 10000000000000) by done. unfold GetEnigmaOutputsAmounts in E. apply bind_Some in E as (nonce & En & E).
  assert (Hzero : Some 0 = Some amount -> exists paid, paid ⊆+ vout tx /\ Forall pays_us paid /\ amount = Tx.total paid).
  { intros [= <-]. exists []. split_and!; [apply submseteq_nil_l|constructor|done]. }
  destruct (negb _); [by apply Hzero|]. apply bind_Some in E as (d & _ & E). destruct d; [by apply Hzero|]. apply bind_Some in E as (m & Em & E).
  assert (Hm : lookup_ok fTestNet stealthAddresses eph m) by (eapply lookup_loop_ok; [|intros t s Ht0; by rewrite lookup_empty in Ht0|exact Em]; done).
  destruct (outer_loop_counts tx nonce m (vout tx) Hs Hr Hlen Hm ltac:(done) _ _ E) as (zero & Hsub & Hz & Hnil & Hsome).
  destruct zero as [|o1 [|o2 zero]].
  - apply Hzero. by rewrite (Hnil eq_refl).
  - assert (Ho : o1 ∈ vout tx) by (eapply elem_of_submseteq; [left|by apply sublist_submseteq]).
    pose proof (total_submseteq [o1] (vout tx) ltac:(by apply sublist_submseteq) Hr) as Hle. rewrite total_cons_out in Hle. change (Tx.total []) with 0 in Hle.
    destruct (Hsome o1 eq_refl) as (paid & H1p & H2p & H3p); [lia|lia|]. by exists (o1 :: paid).
  - exfalso. apply Forall_cons in Hz as [Hz1 [Hz2 _]%Forall_cons]. apply (Hone o1 o2); [|done..]. etrans; [|exact Hsub]. apply sublist_skip, sublist_skip, sublist_nil_l.
Qed.
End amount_loops.

(** ** What is signed *)

(** Only signature scripts of inputs of ours changed. *)
Record signed_from (ours : list CTxIn) (tx tx' : CTransaction) : Prop := {
  sf_rest : tx' = set_vinvout (vin tx') (vout tx) tx;
  sf_inputs : Forall2 (fun i i' => prevout i' = prevout i /\ nSequence i' = nSequence i /\ (existsb (fun o => txin_eq o i) ours = false -> i' = i)) (vin tx) (vin tx')
}.

Section sign_facts.
Context {D : Type} `{!TxIndexDB D} `{BNI : BN} `{CR : Crypto} `{ECI : EC} `{!EC_curve} `{!ECDH} `{AE : AES} {K : Type} `{KS : !CKeyStore K}.
Context (fTestNet : bool) (now : Z) (files : block_files) (pool : CTxMemPool) (txdb : D) (nBestHeight : Z).
Context (GetRandHash : nat -> base_uint) (nMaxCacheSize : Z).
Context (pkey : EC_KEY) (pubkeyHex : list Z) (keystore : K) (stealthAddresses : list CStealthAddress).

Lemma SignSignature_shape r spk tx nIn ht c tx' c' r' : SignSignature GetRandHash nMaxCacheSize r keystore spk tx nIn ht c = Some (true, tx', c', r') ->
  exists s, tx' = set_scriptSig tx nIn s.
Proof.
  unfold SignSignature. intros E. destruct (negb _); [done|]. apply bind_Some in E as ([[[ok1 s] t] r1] & _ & E). destruct ok1; cbn [negb] in E; [|done].
  apply bind_Some in E as ([[fSolved tx2] r2] & E2 & E). assert (exists s', tx2 = set_scriptSig tx nIn s') as [s' ->].
  { destruct (decide (t = TX_SCRIPTHASH)); [|injection E2 as _ <- _; by exists s]. apply bind_Some in E2 as ([[[ok2 s2] t2] r3] & _ & [= _ <- _]). rewrite set_scriptSig_twice. by eexists. }
  exists s'. destruct fSolved; cbn [negb] in E; [|done]. apply bind_Some in E as ([ok3 c3] & _ & [= _ <- _ _]). done.
Qed.

(** Input number [j] before and after a loop that begins at [i]. *)
Definition input_kept (ours : list CTxIn) (i j : nat) (x x' : CTxIn) : Prop :=
  prevout x' = prevout x /\ nSequence x' = nSequence x /\ ((j < i)%nat -> x' = x) /\ (existsb (fun o => txin_eq o x) ours = false -> x' = x).

Lemma sign_loop_keeps prev ours n : forall i tx fC c r fC' tx' c' r',
  sign_loop now GetRandHash nMaxCacheSize keystore prev ours n i tx fC c r = Some (Some (fC', tx'), c', r') ->
  tx' = set_vinvout (vin tx') (vout tx) tx /\ length (vin tx') = length (vin tx) /\
  forall j x, vin tx !! j = Some x -> exists x', vin tx' !! j = Some x' /\ input_kept ours i j x x'.
Proof.
  induction n as [|n IH]; intros i tx fC c r fC' tx' c' r' E; cbn [sign_loop] in E.
  { injection E as _ <- _ _. split_and!; [by destruct tx|done|]. intros j x Hx. exists x. done. }
  apply bind_Some in E as (txin & Ei & E).
  assert (Hskip : forall f, sign_loop now GetRandHash nMaxCacheSize keystore prev ours n (S i) tx f c r = Some (Some (fC', tx'), c', r') ->
    tx' = set_vinvout (vin tx') (vout tx) tx /\ length (vin tx') = length (vin tx) /\
    forall j x, vin tx !! j = Some x -> exists x', vin tx' !! j = Some x' /\ input_kept ours i j x x').
  { intros f E'. apply IH in E' as (H1t & H2t & H3t). split_and!; [done|done|]. intros j x Hx. destruct (H3t j x Hx) as (x' & Hx' & Hp & Hq & Hlt & Hk).
    exists x'. split; [done|]. split_and!; [done|done| |done]. intros Hj. apply Hlt. lia. }
  destruct (prev !! prevout txin) as [spk|]; [|by apply Hskip in E]. destruct (existsb _ ours) eqn:Eo; cbn [negb] in E; [|by apply Hskip in E].
  apply bind_Some in E as ([[[ok tx1] c1] r1] & Es & E). destruct ok; cbn [negb] in E; [|done]. apply SignSignature_shape in Es as [s ->]. rewrite set_scriptSig_twice in E.
  apply bind_Some in E as (txin1 & _ & E). apply bind_Some in E as ([sig c2] & _ & E). apply bind_Some in E as ([ok2 c3] & _ & E). rewrite set_scriptSig_twice in E.
  apply IH in E as (H1t & H2t & H3t). split_and!.
  - rewrite H1t at 1. done.
  - rewrite H2t. unfold set_scriptSig. cbn [vin]. by rewrite length_alter.
  - intros j x Hx. unfold set_scriptSig in H3t. cbn [vin] in H3t. rewrite Nat2Z.id in H3t. destruct (decide (j = i)) as [->|Hne].
    + rewrite Hx in Ei. injection Ei as ->. destruct (H3t i (mkTxIn (prevout txin) sig (nSequence txin))) as (x' & Hx' & Hp & Hq & _); [by rewrite list_lookup_alter_eq, Hx|].
      exists x'. split; [done|]. split_and!; [done|done|lia|by rewrite Eo].
    + destruct (H3t j x) as (x' & Hx' & Hp & Hq & Hlt & Hk); [by rewrite list_lookup_alter_ne|]. exists x'. split; [done|]. split_and!; [done|done| |done]. intros Hj. apply Hlt. lia.
Qed.

Lemma sign_loop_signed prev ours tx fC c r fC' tx' c' r' :
  sign_loop now GetRandHash nMaxCacheSize keystore prev ours (length (vin tx)) 0 tx fC c r = Some (Some (fC', tx'), c', r') -> signed_from ours tx tx'.
Proof.
  intros E. apply sign_loop_keeps in E as (Hrest & Hlen & Hin). split; [done|]. apply Forall2_same_length_lookup_2; [done|].
  intros j x x' Hx Hx'. destruct (Hin j x Hx) as (x2 & Hx2 & Hp & Hq & _ & Hk). rewrite Hx' in Hx2. injection Hx2 as <-. done.
Qed.

Lemma check_joint_passed req tx s s' : check_joint fTestNet pkey stealthAddresses req true tx s = Some (true, s') ->
  s' = s /\ exists mine eph rest o amount, mapCloakingInputsOutputs s !! GetIdHash req = Some mine /\
    Forall (fun i => exists j, j ∈ vin tx /\ txin_eq j i = true) (io_vin mine) /\
    (GetStealthEphemPK tx ∅).1 = Some (eph, rest, o) /\ GetEnigmaOutputsAmounts fTestNet stealthAddresses tx eph = Some amount /\ u64 (nInputAmount mine) <= amount.
Proof.
  unfold check_joint. intros E. destruct (_ !! _) as [mine|] eqn:Em; [|apply bind_Some in E as (? & _ & [=])].
  destruct (forallb _ _) eqn:Ef; cbn [negb] in E; [|apply bind_Some in E as (? & _ & [=])].
  destruct (GetStealthEphemPK tx ∅).1 as [[[eph rest] o]|]; [|done]. apply bind_Some in E as (amount & Ea & E). cbn [andb] in E.
  destruct (Z.ltb_spec amount (u64 (nInputAmount mine))); [apply bind_Some in E as (? & _ & [=])|]. injection E as <-. split; [done|].
  exists mine, eph, rest, o, amount. split_and!; [done| |done|done|done]. apply Forall_forall. intros i Hi. rewrite forallb_forall in Ef. specialize (Ef i (proj1 (list_elem_of_In _ _) Hi)).
  apply existsb_exists in Ef as (j & Hj & Ej). exists j. split; [by apply list_elem_of_In|done].
Qed.

Lemma cloaker_signed creqs req s c r s' c' r' :
  SignAndRespond_cloaker fTestNet now files pool txdb nBestHeight GetRandHash nMaxCacheSize pkey pubkeyHex keystore stealthAddresses creqs req s c r = Some (true, s', c', r') ->
  exists copy tx tx' mine eph rest o amount secret,
    creqs !! GetIdHash req = Some copy /\ (pubkeyHex ∉ signedByAddresses copy) /\ DeserializeTx now (signedrawtx req) = Some tx /\
    mapCloakingInputsOutputs s !! GetIdHash req = Some mine /\ Forall (fun i => exists j, j ∈ vin tx /\ txin_eq j i = true) (io_vin mine) /\
    (GetStealthEphemPK tx ∅).1 = Some (eph, rest, o) /\ GetEnigmaOutputsAmounts fTestNet stealthAddresses tx eph = Some amount /\ u64 (nInputAmount mine) <= amount /\
    signed_from (io_vin mine) tx tx' /\
    effects s' = SendSignResponse (mkSignResponse pubkeyHex (GetIdHash req) (bu_zero 8) (map scriptSig (vin tx'))) secret :: effects s /\
    mapCloakingInputsOutputs s' = <[GetIdHash req := locked_until_next nBestHeight mine]> (mapCloakingInputsOutputs s) /\
    mapOurCloakingRequests s' = mapOurCloakingRequests s.
Proof.
  unfold SignAndRespond_cloaker. intros E. destruct (creqs !! _) as [copy|]; [|apply bind_Some in E as (? & _ & [=])].
  destruct (existsb _ _) eqn:Ex; [done|]. apply bind_Some in E as ([[[signed s1] c1] r1] & Es & E). destruct signed as [[fC tx']|]; [|done].
  apply bind_Some in E as ([secret m] & _ & E). injection E as <- _ _. unfold sign_joint in Es. apply bind_Some in Es as (tx & Et & Es). apply bind_Some in Es as ([ok s2] & Ec & Es).
  destruct ok; cbn [negb] in Es; [|done]. apply check_joint_passed in Ec as (-> & mine & eph & rest & o & amount & Em & Hin & He & Ha & Hle).
  apply bind_Some in Es as (prevs & _ & Es). destruct prevs as [ban|prev]; [done|]. rewrite Em in Es. apply bind_Some in Es as ([[signed c2] r2] & El & [= -> -> _ _]).
  apply sign_loop_signed in El. exists copy, tx, tx', mine, eph, rest, o, amount, secret. cbn [effects mapCloakingInputsOutputs mapOurCloakingRequests put_inouts emit put_secrets]. rewrite Em.
  split_and!; try done. intros Hin'. rewrite <- not_true_iff_false in Ex. apply Ex. apply existsb_exists. exists pubkeyHex. split; [by apply list_elem_of_In|by apply bytes_eqb_eq].
Qed.
End sign_facts.

(** ** Main theorem *)

(** (C11) A cloaker signs only what pays for its coins.  When [SignAndRespond] answers
    true, the cloaker had joined the request and not signed it yet; all the inputs
    it had reserved for it are in the joint transaction, unaltered; the
    transaction that it sends the signatures of differs from the joint one in
    signature scripts of these inputs only; its coins stay locked for another
    block; and the transaction has outputs at one-time keys of its own stealth
    addresses that add up to at least what it put in, provided no two
    outputs pay keys number 0: where two do, the code counts the other outputs
    twice. *)
Theorem cloaker_signs_only_if_paid {D : Type} `{!TxIndexDB D} `{BNS : BN_spec} `{CS : Crypto_spec} `{CV : EC_curve} `{!ECDH} `{AE : AES} {K : Type} `{KS : !CKeyStore K}
    fTestNet now files pool (txdb : D) nBestHeight GetRandHash nMaxCacheSize pkey pubkeyHex (keystore : K) stealthAddresses creqs req s c r s' c' r' :
  SignAndRespond_cloaker fTestNet now files pool txdb nBestHeight GetRandHash nMaxCacheSize pkey pubkeyHex keystore stealthAddresses creqs req s c r = Some (true, s', c', r') ->
  exists copy tx tx' mine eph secret,
    creqs !! GetIdHash req = Some copy /\ (pubkeyHex ∉ signedByAddresses copy) /\ DeserializeTx now (signedrawtx req) = Some tx /\
    mapCloakingInputsOutputs s !! GetIdHash req = Some mine /\ Forall (fun i => exists j, j ∈ vin tx /\ txin_eq j i = true) (io_vin mine) /\
    signed_from (io_vin mine) tx tx' /\
    effects s' = SendSignResponse (mkSignResponse pubkeyHex (GetIdHash req) (bu_zero 8) (map scriptSig (vin tx'))) secret :: effects s /\
    mapCloakingInputsOutputs s' = <[GetIdHash req := locked_until_next nBestHeight mine]> (mapCloakingInputsOutputs s) /\
    mapOurCloakingRequests s' = mapOurCloakingRequests s /\
    (vector_wf txout_wf (vout tx) -> Forall in_range (vout tx) -> Tx.total (vout tx) <= MAX_MONEY -> sfits 64 (nInputAmount mine) ->
     (forall o1 o2, sublist [o1; o2] (vout tx) -> pays_zero stealthAddresses eph o1 -> pays_zero stealthAddresses eph o2 -> False) ->
     exists paid, paid ⊆+ vout tx /\ Forall (pays_us stealthAddresses eph) paid /\ nInputAmount mine <= Tx.total paid).
Proof.
  intros E. apply cloaker_signed in E as (copy & tx & tx' & mine & eph & rest & o & amount & secret & Hcopy & Hnot & Et & Em & Hin & He & Ha & Hle & Hs & Hf & Hm & Ho).
  exists copy, tx, tx', mine, eph, secret. split_and!; try done. intros [Hw Hlen] Hr Ht Hn Hone. assert (HM : MAX_SIZE = 33554432) by done.
  destruct (outputs_amount_paid fTestNet stealthAddresses eph tx amount) as (paid & Hsub & Hp & ->); [|done|done|lia|done|done|].
  { eapply Forall_impl; [exact Hw|]. intros x [_ [Hd Hl]]. split; [done|lia]. }
  exists paid. split_and!; [done|done|]. etrans; [|exact Hle]. unfold sfits in Hn. destruct (Z.ltb_spec (nInputAmount mine) 0) as [Hneg|Hpos].
  - pose proof (wrap_fits 64 (nInputAmount mine) ltac:(lia)) as Hf64. unfold fits in Hf64. lia.
  - rewrite wrap_id by (unfold fits; lia). done.
Qed.

(** ** Examples *)

#[local] Existing Instance Crypto_toy.
#[local] Existing Instance EC_toy.
#[local] Existing Instance EC_curve_toy.
#[local] Existing Instance BN_Z.

#[local] Instance AES_off : AES := {| EVP_Encrypt key iv m := None; EVP_Decrypt key iv c := None; EVP_BytesToKey salt data n := (32, [], []) |}.
#[local] Instance ECDH_two : ECDH := {| ECDH_compute_key peer ours := Some [2] |}.
#[local] Instance empty_index : TxIndexDB unit := {| idx_Read d h := Some None; idx_Update d h t := Some (true, d); idx_Erase d h := Some (true, d) |}.

Definition our_address : CStealthAddress := mkStealth 0 (toy_public 5) (toy_public 7) 0 (mkPrefix 0 0) [] (toy_secret 5) (toy_secret 7) true.
Definition root : list Z := toy_public 3.
Definition our_scripts : list CScript := change_scripts false our_address root (GetEnigmaAddressPrivateHash our_address) 3 0.
Definition our_script (n : nat) : CScript := nth n our_scripts [].
Definition root_output : CTxOut := mkTxOut MIN_TXOUT_AMOUNT (push_vch [OP_RETURN] root).

(** Of 130 that are paid to us, 230 are counted: the output of key number 1 is counted for
    both outputs of key number 0. *)
Definition paid_twice : CTransaction := mkTx 1 100 [] [mkTxOut 10 (our_script 0); mkTxOut 20 (our_script 0); mkTxOut 100 (our_script 1); root_output] 0 [] 0.

Example counted_twice : length our_scripts = 3%nat /\ ((fun '(k, _, _) => k) <$> (GetStealthEphemPK paid_twice ∅).1) = Some root /\
  GetEnigmaOutputsAmounts false [our_address] paid_twice root = Some 230.
Proof. by vm_compute. Qed.

Definition our_input : CTxIn := mkTxIn (mkOutPoint (replicate 8 9) 0) [] UINT_MAX.
Definition their_input : CTxIn := mkTxIn (mkOutPoint (replicate 8 10) 0) [] UINT_MAX.
Definition sign_pool : CTxMemPool :=
  mkPool {[replicate 8 9 := mkTx 1 50 [] [mkTxOut 40000 (p2pkh_script (bu_bytes example_id))] 0 [] 0; replicate 8 10 := mkTx 1 50 [] [mkTxOut 70000 [OP_TRUE]] 0 [] 0]} ∅ 0.
Definition joint_tx : CTransaction := mkTx 1 100 [their_input; our_input] [mkTxOut 25000 (our_script 1); mkTxOut 30000 [OP_TRUE]; mkTxOut 15500 (our_script 0); root_output] 0 [] 0.
Definition joint_request : CCloakingRequest :=
  mkRequest 10 (mkIdentifier [48] 100) 30000 2 (HexStr (raw_tx joint_tx) false) (HexStr (raw_tx joint_tx) false) [] [] true 100 false false 0 false false true false 0 60 [48] [] [] (stealth_new (mkPrefix 0 0)).
Definition sign_state : enigma_state := mkEnigma ∅ {[GetIdHash joint_request := mkInOuts 10 [our_input] [] (bu_zero 8) 30000 40000 (bu_zero 8) false 0]} ∅ [] 0.
Definition joint_signed :=
  SignAndRespond_cloaker false 200 ∅ sign_pool tt 7 (fun _ => []) 2 EC_KEY_new [99] signer [our_address] {[GetIdHash joint_request := joint_request]} joint_request sign_state (mkSigCache [] 0) tt.

Example joint_is_signed : match joint_signed with
  | Some (b, s, _, _) => b && match effects s with SendSignResponse r _ :: _ => match signatures r with [[]; _ :: _] => true | _ => false end | _ => false end
  | None => false
  end = true.
Proof. vm_compute. reflexivity. Qed.

Lemma cloaker_signs_only_if_paid_witness : exists s' c' r' tx tx', joint_signed = Some (true, s', c', r') /\ DeserializeTx 200 (signedrawtx joint_request) = Some tx /\ signed_from [our_input] tx tx'.
Proof.
  destruct joint_signed as [[[[b s'] c'] r']|] eqn:E; [|exfalso; pose proof joint_is_signed as H; rewrite E in H; discriminate].
  pose proof joint_is_signed as H. rewrite E in H. apply andb_true_iff in H as [Hb _]. subst b.
  destruct (cloaker_signs_only_if_paid (BNS := BN_Z_spec) (CS := Crypto_toy_spec) _ _ _ _ _ _ _ _ _ _ _ _ _ _ _ _ _ _ _ _ E) as (copy & tx & tx' & mine & eph & secret & _ & _ & Et & Em & _ & Hs & _).
  exists s', c', r', tx, tx'. unfold sign_state in Em. cbn [mapCloakingInputsOutputs] in Em. rewrite lookup_singleton_eq in Em. injection Em as <-. exact (conj eq_refl (conj Et Hs)).
Defined.
