(* ===== verification/Cloaking.v ===== *)
(** * enigma/cloakingrequest.cpp, enigma/enigma.cpp: joining and finishing a request

    [ProcessRequest] decides whether the wallet joins a request of a peer, and
    reserves its coins; [ProcessSignatureResponse] takes in the signatures of a
    cloaker, and when all have signed, [SignAndRespond] signs for the sender.
    The modelled part of that ends where the transaction is handed to the memory
    pool, which is an effect; what the code does with the pool's answer (the
    members [txid] and [completed], relaying, the wallet) is left out.  The
    counters for the display are left out too. *)
From Stdlib Require Import ZArith Lia Bool.
From stdpp Require Import prelude gmap sorting.
From S2P Require Import Prelude Uint256 DataStream Serialize Crypto Bignum Opcodes Base58 Script Tx Block Index TxDB Target Keys KeyStore Stealth Pool SigHash Interp Standard Sign Connect Util Coins Enigma Cloaker.

(** ** Joining a request *)

Definition MIN_CLOAKERS : Z := 5.

Section join.
Context `{BNI : BN} `{CR : Crypto} `{ECI : EC} `{!EC_curve} `{!ECDH} `{AE : AES} {K : Type} `{KS : !CKeyStore K}.
Context (RAND_uint64 : nat -> Z) (tries : nat) (C_rand : nat -> Z) (ptr_order : gset coin -> list coin) (fuel mine_fuel : nat) (e : wallet_env).
(** Our session key and its public key; the stealth addresses and the texts of those in
    use for cloaking, in the order of their sets. *)
Context (pkey : EC_KEY) (pubkeyHex : list Z) (stealthAddresses : list CStealthAddress) (activeEnigmaAddresses : list (list Z)) (p_mem : stealth_prefix).
(** Is routing through other nodes switched on, are there enough of them, is the wallet
    locked, is it unlocked for minting, the argument -mincloakers, does sending succeed. *)
Context (fOnionRouting fOnionAvailable fLocked fWalletUnlockMintOnly : bool) (arg_mincloakers : option bool) (fSent : bool).

(** The wallet, the state that it shares with the sender's part, and what it keeps about
    the requests of others. *)
Record join_state : Type := mkJoin {
  js_wallet : CWallet K;
  js_enigma : enigma_state;
  mapCloakingRequests : gmap base_uint CCloakingRequest;
  sRequestHashes : gset base_uint;
  sCloakingAccepts : gmap base_uint CCloakingAcceptResponse
}.

Definition mark_handled (h : base_uint) (s : join_state) : join_state :=
  mkJoin (js_wallet s) (js_enigma s) (mapCloakingRequests s) ({[h]} ∪ sRequestHashes s) (sCloakingAccepts s).

(** [GetBoolArg("-mincloakers", MIN_CLOAKERS)]: both are converted to [bool]. *)
Definition min_cloakers : Z := if default (negb (MIN_CLOAKERS =? 0)) arg_mincloakers then 1 else 0.

(** The address that is asked for and not found leaves the object as it is. *)
Definition GetEnigmaAddress (address : CStealthAddress) (k : nat) : option (CStealthAddress * nat) :=
  '(n, k) ← GetRandInt RAND_uint64 tries (s32 (u64 (len activeEnigmaAddresses - 1))) k;
  text ← activeEnigmaAddresses !! Z.to_nat n;
  found ← GetStealthAddress stealthAddresses text;
  Some (default address found, k).

(** [None]: an exception, for which the source answers false, or what is out of range. *)
Definition ProcessRequest (r : CCloakingRequest) (s : join_state) (k kr : nat) : option (bool * join_state) :=
  let idhash := GetIdHash r in
  let es := js_enigma s in
  if negb (cr_nVersion r =? ENIGMA_REQUEST_CURRENTVERSION) then Some (false, s)
  else if bool_decide (idhash ∈ sRequestHashes s) then Some (false, s)
  else if fOnionRouting && negb fOnionAvailable then Some (true, s)
  else
    let willProcess := bool_decide (mapOurCloakingRequests es !! idhash = None) && bool_decide (mapCloakingRequests s !! idhash = None) && (negb fLocked || fWalletUnlockMintOnly) in
    let hasSpace := len (sParticipants r) <? nParticipantsRequired r in
    let notExpired := negb (IsExpired (we_adjusted_time e) r) in
    let meetsSecurity := min_cloakers <=? nParticipantsRequired r in
    if negb (willProcess && hasSpace && notExpired && meetsSecurity) then Some (willProcess, mark_handled idhash s)
    else
      balance ← GetBalance fuel mine_fuel e (js_wallet s);
      if negb (u64 (u64 (numSplitsRequired r) * nSendAmount r) <? u64 balance) then Some (willProcess, mark_handled idhash s)
      else
        '(secret, m) ← GetSecret (mapCloakSecrets es) pkey (id_pubKeyHex (identifier r)) true;
        '(address, k) ← GetEnigmaAddress (stealth_new p_mem) k;
        text ← Encoded address;
        '(gotInOuts, part, w, io) ← GetCloakingInputsMine RAND_uint64 tries C_rand ptr_order fuel mine_fuel e r (mkParticipant pubkeyHex text inouts_new address) (js_wallet s) (mapCloakingInputsOutputs es) k kr;
        let es := mkEnigma (mapOurCloakingRequests es) io m (effects es) (es_k es) in
        if negb (gotInOuts : bool) then Some (true, mkJoin w es (mapCloakingRequests s) (sRequestHashes s) (sCloakingAccepts s))
        else
          let car := mkAccept idhash part in
          let accepts := map_insert_new (accept_GetHash car) car (sCloakingAccepts s) in
          let requests := if fSent then map_insert_new idhash r (mapCloakingRequests s) else mapCloakingRequests s in
          Some (willProcess, mark_handled idhash (mkJoin w (emit (SendAccept car secret) es) requests (sRequestHashes s) accepts)).
End join.

(** ** The sender signs last *)

Section finish.
Context {D : Type} `{!TxIndexDB D} `{BNI : BN} `{CR : Crypto} `{ECI : EC} `{!EC_curve} `{!ECDH} `{AE : AES} {K : Type} `{KS : !CKeyStore K}.
Context (fTestNet : bool) (now : Z) (files : block_files) (pool : CTxMemPool) (txdb : D).
Context (GetRandHash : nat -> base_uint) (nMaxCacheSize : Z).
Context (pkey : EC_KEY) (pubkeyHex : list Z) (keystore : K) (stealthAddresses : list CStealthAddress).

Definition set_processed (r : CCloakingRequest) : CCloakingRequest :=
  mkRequest (cr_nVersion r) (identifier r) (nSendAmount r) (nParticipantsRequired r) (rawtx r) (signedrawtx r) (signedByAddresses r) (recipientAddress r) (bBroadcasted r)
    (nBroadcastedTime r) true (aborted r) (numSplitsRequired r) (isMine r) (completed r) (txCreated r) (autoRetry r) (retryCount r) (timeoutSecs r) (txid r) (sParticipants r)
    (stealthRootKey r) (senderAddress r).
Definition set_broadcasted (r : CCloakingRequest) : CCloakingRequest :=
  mkRequest (cr_nVersion r) (identifier r) (nSendAmount r) (nParticipantsRequired r) (rawtx r) (signedrawtx r) (signedByAddresses r) (recipientAddress r) true
    now (processed r) (aborted r) (numSplitsRequired r) (isMine r) (completed r) (txCreated r) (autoRetry r) (retryCount r) (timeoutSecs r) (txid r) (sParticipants r)
    (stealthRootKey r) (senderAddress r).

(** The request afterwards comes with the answer. *)
Definition SignAndRespond_sender (r : CCloakingRequest) (s : enigma_state) (c : CSignatureCache) (rnd : EC_RAND)
    : option (bool * CCloakingRequest * enigma_state * CSignatureCache * EC_RAND) :=
  match mapOurCloakingRequests s !! GetIdHash r with
  | None => Some (false, r, s, c, rnd)
  | Some reqOurCopy =>
      if existsb (bytes_eqb pubkeyHex) (signedByAddresses reqOurCopy) then Some (false, r, s, c, rnd)
      else
        '(signed, s, c, rnd) ← sign_joint fTestNet now files pool txdb GetRandHash nMaxCacheSize pkey keystore stealthAddresses r false s c rnd;
        match signed with
        | None => Some (false, r, s, c, rnd)
        | Some (fComplete, jointTrans) =>
            let raw := HexStr (Serialize (ser_tx jointTrans) SER_NETWORK PROTOCOL_VERSION jointTrans) false in
            let r := set_rawtx (rawtx r) raw (set_signedBy (set_insert lex_lt pubkeyHex (signedByAddresses r)) r) in
            if negb fComplete then Some (true, r, s, c, rnd)
            else if negb (CheckTransaction jointTrans).1 then Some (false, r, s, c, rnd)
            else Some (true, set_broadcasted r, emit (SubmitTx jointTrans) s, c, rnd)
        end
  end.

(** The requests are in the map under their identifier hashes.  [None]: an exception in
    [SignAndRespond], after which the source goes on as for its answer false, or one that
    is not caught here. *)
Definition ProcessSignatureResponse (sr : CCloakingSignResponse) (s : enigma_state) (c : CSignatureCache) (rnd : EC_RAND)
    : option (bool * enigma_state * CSignatureCache * EC_RAND) :=
  match mapOurCloakingRequests s !! sr_identifier sr with
  | None => Some (false, s, c, rnd)
  | Some r =>
      if aborted r then Some (false, s, c, rnd)
      else if existsb (bytes_eqb (signingAddress sr)) (signedByAddresses r) then Some (false, s, c, rnd)
      else
        '(_, r) ← AddSignedInputsToTx now r sr;
        let s := put_request (sr_identifier sr) r s in
        if (nParticipantsRequired r <=? len (signedByAddresses r)) && negb (processed r) then
          '(ok, r, s, c, rnd) ← SignAndRespond_sender r s c rnd;
          let r := if (ok : bool) then set_processed r else r in
          Some (true, put_request (sr_identifier sr) r s, c, rnd)
        else Some (false, s, c, rnd)
  end.
End finish.

(** ** Facts *)

Section join_facts.
Context `{BNI : BN} `{CR : Crypto} `{ECI : EC} `{!EC_curve} `{!ECDH} `{AE : AES} {K : Type} `{KS : !CKeyStore K}.

(** Nothing but the set of handled requests and the shared secrets changed. *)
Definition not_joined (s s' : join_state (K := K)) : Prop :=
  effects (js_enigma s') = effects (js_enigma s) /\ js_wallet s' = js_wallet s /\
  mapCloakingInputsOutputs (js_enigma s') = mapCloakingInputsOutputs (js_enigma s) /\
  mapOurCloakingRequests (js_enigma s') = mapOurCloakingRequests (js_enigma s) /\
  mapCloakingRequests s' = mapCloakingRequests s /\ sCloakingAccepts s' = sCloakingAccepts s.

(** The wallet joined the request [r], offering the coins [l]. *)
Record joined (fuel mine_fuel : nat) (e : wallet_env) (fSent : bool) (r : CCloakingRequest) (car : CCloakingAcceptResponse) (l : list coin) (s s' : join_state (K := K)) : Prop := {
  jd_new : (GetIdHash r ∉ sRequestHashes s) /\ mapOurCloakingRequests (js_enigma s) !! GetIdHash r = None /\ mapCloakingRequests s !! GetIdHash r = None;
  jd_request : cr_nVersion r = ENIGMA_REQUEST_CURRENTVERSION /\ len (sParticipants r) < nParticipantsRequired r /\ IsExpired (we_adjusted_time e) r = false;
  jd_balance : exists balance, GetBalance fuel mine_fuel e (js_wallet s) = Some balance /\ u64 (u64 (numSplitsRequired r) * nSendAmount r) < u64 balance;
  jd_sent : exists secret, effects (js_enigma s') = SendAccept car secret :: effects (js_enigma s);
  jd_answer : requestIdentifier car = GetIdHash r /\ io_vin (inOuts (participantInfo car)) = map coin_txin l /\ NoDup l /\
    (nSendAmount r + MIN_TXOUT_AMOUNT + CENT < 2 ^ 63 -> nSendAmount r + MIN_TXOUT_AMOUNT <= nInputAmount (inOuts (participantInfo car)));
  jd_reserved : forall c, reserved_at (js_wallet s') c = if decide (c ∈ l) then Some true else reserved_at (js_wallet s) c;
  jd_kept : mapCloakingInputsOutputs (js_enigma s') = <[GetIdHash r := inOuts (participantInfo car)]> (mapCloakingInputsOutputs (js_enigma s)) /\
    mapCloakingRequests s' = (if fSent then <[GetIdHash r := r]> (mapCloakingRequests s) else mapCloakingRequests s) /\ GetIdHash r ∈ sRequestHashes s'
}.
End join_facts.

Section finish_facts.
Context {D : Type} `{!TxIndexDB D} `{BNI : BN} `{CR : Crypto} `{ECI : EC} `{!EC_curve} `{!ECDH} `{AE : AES} {K : Type} `{KS : !CKeyStore K}.
Context (fTestNet : bool) (now : Z) (files : block_files) (pool : CTxMemPool) (txdb : D).
Context (GetRandHash : nat -> base_uint) (nMaxCacheSize : Z).
Context (pkey : EC_KEY) (pubkeyHex : list Z) (keystore : K) (stealthAddresses : list CStealthAddress).
Local Abbreviation SignJoint := (sign_joint fTestNet now files pool txdb GetRandHash nMaxCacheSize pkey keystore stealthAddresses).
Local Abbreviation SignSender := (SignAndRespond_sender fTestNet now files pool txdb GetRandHash nMaxCacheSize pkey pubkeyHex keystore stealthAddresses).
Local Abbreviation ProcessSign := (ProcessSignatureResponse fTestNet now files pool txdb GetRandHash nMaxCacheSize pkey pubkeyHex keystore stealthAddresses).

(** The transactions that are submitted, from the last. *)
Definition submits (es : list enigma_effect) : list CTransaction := omap (fun e => match e with SubmitTx tx => Some tx | _ => None end) es.

Lemma submits_app es1 es2 : submits (es1 ++ es2) = submits es1 ++ submits es2.
Proof. apply omap_app. Qed.

(** The effects [es] are new, none of them submits a transaction, and the maps of
    requests and of inputs are as before. *)
Definition quiet (es : list enigma_effect) (s s' : enigma_state) : Prop :=
  effects s' = es ++ effects s /\ mapOurCloakingRequests s' = mapOurCloakingRequests s /\ mapCloakingInputsOutputs s' = mapCloakingInputsOutputs s /\ submits es = [].

Lemma send_to_quiet code text to s s' : send_to pkey code text to s = Some s' -> exists es, quiet es s s'.
Proof.
  unfold send_to. intros E. apply bind_Some in E as ([secret m] & _ & [= <-]). destruct secret as [x|]; [by exists [SendMessage code text x]|by exists []].
Qed.

Lemma check_joint_quiet req part tx s ok s' : check_joint fTestNet pkey stealthAddresses req part tx s = Some (ok, s') -> exists es, quiet es s s'.
Proof.
  set (ban := BanPeer (id_pubKeyHex (identifier req)) ENIGMA_BANSECS_MISSING_INPUTS).
  assert (Hsame : exists es, quiet es s s) by (by exists []).
  assert (Hban : forall code text to s1, send_to pkey code text to (emit ban s) = Some s1 -> exists es, quiet es s s1).
  { intros code text to s1 E. apply send_to_quiet in E as (es & He & Ho & Hi & Hn). exists (es ++ [ban]). split_and!; [by rewrite He, <- app_assoc|done|done|by rewrite submits_app, Hn]. }
  unfold check_joint. intros E. destruct (_ !! _) as [mine|].
  - destruct (negb _); [apply bind_Some in E as (s1 & E & [= _ <-]); by eapply Hban|]. destruct (GetStealthEphemPK tx ∅).1 as [[[eph rest] o]|]; [|by injection E as _ <-].
    apply bind_Some in E as (amount & _ & E). destruct (part && _); [apply bind_Some in E as (s1 & E & [= _ <-]); by eapply Hban|by injection E as _ <-].
  - destruct part; [apply bind_Some in E as (s1 & E & [= _ <-]); by eapply Hban|by injection E as _ <-].
Qed.

(** The inputs that the sender put in. *)
Definition our_inputs (req : CCloakingRequest) (s : enigma_state) : list CTxIn := match mapCloakingInputsOutputs s !! GetIdHash req with Some io => io_vin io | None => [] end.

Lemma sign_joint_facts req part s c rnd signed s' c' rnd' : SignJoint req part s c rnd = Some (signed, s', c', rnd') ->
  (exists es, quiet es s s') /\
  (forall fC tx', signed = Some (fC, tx') -> exists tx, DeserializeTx now (signedrawtx req) = Some tx /\ signed_from (our_inputs req s) tx tx').
Proof.
  unfold sign_joint. intros E. apply bind_Some in E as (tx & Et & E). apply bind_Some in E as ([ok s1] & Ec & E). pose proof (check_joint_quiet _ _ _ _ _ _ Ec) as [es Hq].
  destruct ok; cbn [negb] in E; [|injection E as <- <- _ _; split; [by exists es|done]]. apply bind_Some in E as (prevs & _ & E). destruct prevs as [ban|prev].
  - injection E as <- <- _ _. split; [|done]. destruct ban; [|by exists es]. destruct Hq as (He & Ho & Hi & Hn). eexists (BanPeer _ _ :: es). split_and!; [cbn; by rewrite He|done|done|done].
  - assert (Hio : mapCloakingInputsOutputs s1 = mapCloakingInputsOutputs s) by apply Hq. unfold our_inputs. rewrite <- Hio. destruct (mapCloakingInputsOutputs s1 !! GetIdHash req) as [io|].
    + apply bind_Some in E as ([[sg c2] r2] & El & [= <- <- _ _]). split; [by exists es|]. intros fC tx' ->. exists tx. split; [done|]. by eapply sign_loop_signed.
    + injection E as <- <- _ _. split; [by exists es|]. intros fC tx' [= <- <-]. exists tx. split; [done|]. split; [by destruct tx|]. apply Forall2_same_length_lookup_2; [done|].
      intros i x y Hx Hy. rewrite Hx in Hy. by injection Hy as ->.
Qed.
End finish_facts.

Section sender_facts.
Context {D : Type} `{!TxIndexDB D} `{BNI : BN} `{CR : Crypto} `{ECI : EC} `{!EC_curve} `{!ECDH} `{AE : AES} {K : Type} `{KS : !CKeyStore K}.
Context (fTestNet : bool) (now : Z) (files : block_files) (pool : CTxMemPool) (txdb : D).
Context (GetRandHash : nat -> base_uint) (nMaxCacheSize : Z).
Context (pkey : EC_KEY) (pubkeyHex : list Z) (keystore : K) (stealthAddresses : list CStealthAddress).
Local Abbreviation SignSender := (SignAndRespond_sender fTestNet now files pool txdb GetRandHash nMaxCacheSize pkey pubkeyHex keystore stealthAddresses).
Local Abbreviation ProcessSign := (ProcessSignatureResponse fTestNet now files pool txdb GetRandHash nMaxCacheSize pkey pubkeyHex keystore stealthAddresses).

Lemma elem_of_set_insert_self (v : list Z) m : v ∈ set_insert lex_lt v m.
Proof. apply elem_of_set_insert_lex. by left. Qed.

Lemma SignSender_facts r s c rnd ok r' s' c' rnd' : SignSender r s c rnd = Some (ok, r', s', c', rnd') ->
  exists es, effects s' = es ++ effects s /\ mapOurCloakingRequests s' = mapOurCloakingRequests s /\ processed r' = processed r /\
    (submits es = [] \/
     exists tx tx', submits es = [tx'] /\ ok = true /\ DeserializeTx now (signedrawtx r) = Some tx /\ signed_from (our_inputs r s) tx tx' /\
       (CheckTransaction tx').1 = true /\ pubkeyHex ∈ signedByAddresses r').
Proof.
  unfold SignAndRespond_sender. intros E. destruct (_ !! _) as [copy|].
  2: { injection E as _ <- <- _ _. exists []. split_and!; [done..|by left]. }
  destruct (existsb _ _); [injection E as _ <- <- _ _; exists []; split_and!; [done..|by left]|].
  apply bind_Some in E as ([[[signed s1] c1] r1] & Es & E). apply sign_joint_facts in Es as [(es & He & Ho & Hi & Hn) Hs].
  destruct signed as [[fC tx']|]; [|injection E as _ <- <- _ _; exists es; naive_solver]. destruct (Hs _ _ eq_refl) as (tx & Et & Hfrom).
  destruct fC; cbn [negb] in E; [|injection E as _ <- <- _ _; exists es; naive_solver].
  destruct (CheckTransaction tx').1 eqn:Ec; cbn [negb] in E; [|injection E as _ <- <- _ _; exists es; naive_solver]. injection E as <- <- <- _ _.
  exists (SubmitTx tx' :: es). split_and!; [cbn; by rewrite He|done|done|]. right. exists tx, tx'. split_and!; [by cbn; f_equal|done|done|done|done|]. apply elem_of_set_insert_self.
Qed.

Lemma AddSigned_kept r sr ok r' : AddSignedInputsToTx now r sr = Some (ok, r') ->
  processed r' = processed r /\ identifier r' = identifier r /\ nParticipantsRequired r' = nParticipantsRequired r.
Proof.
  unfold AddSignedInputsToTx. intros E. apply bind_Some in E as (tx & _ & E). destruct (negb _); [by injection E as _ <-|]. injection E as _ <-. by destruct (existsb _ _).
Qed.

(** One response: what it submits, and that a request that was submitted is marked. *)
Lemma ProcessSign_facts sr s c rnd ok s' c' rnd' : ProcessSign sr s c rnd = Some (ok, s', c', rnd') ->
  exists es, effects s' = es ++ effects s /\
    (forall h, h <> sr_identifier sr -> mapOurCloakingRequests s' !! h = mapOurCloakingRequests s !! h) /\
    (forall r, mapOurCloakingRequests s !! sr_identifier sr = Some r -> processed r = true ->
       submits es = [] /\ exists r', mapOurCloakingRequests s' !! sr_identifier sr = Some r' /\ processed r' = true) /\
    (submits es = [] \/
     exists r r1 ok1 tx tx', submits es = [tx'] /\ mapOurCloakingRequests s !! sr_identifier sr = Some r /\ aborted r = false /\ processed r = false /\
       (signingAddress sr ∉ signedByAddresses r) /\ AddSignedInputsToTx now r sr = Some (ok1, r1) /\ nParticipantsRequired r <= len (signedByAddresses r1) /\
       DeserializeTx now (signedrawtx r1) = Some tx /\ signed_from (our_inputs r s) tx tx' /\ (CheckTransaction tx').1 = true /\
       exists r', mapOurCloakingRequests s' !! sr_identifier sr = Some r' /\ processed r' = true /\ pubkeyHex ∈ signedByAddresses r').
Proof.
  set (h := sr_identifier sr). unfold ProcessSignatureResponse. fold h. intros E. destruct (mapOurCloakingRequests s !! h) as [r|] eqn:Er.
  2: { injection E as _ <- _ _. exists []. split_and!; [done|done|done|by left]. }
  assert (Hno : Some (false, s, c, rnd) = Some (ok, s', c', rnd') -> exists es, effects s' = es ++ effects s /\ (forall h', h' <> h -> mapOurCloakingRequests s' !! h' = mapOurCloakingRequests s !! h') /\
    (forall r0, Some r = Some r0 -> processed r0 = true -> submits es = [] /\ exists r', mapOurCloakingRequests s' !! h = Some r' /\ processed r' = true) /\ submits es = []).
  { intros [= _ <- _ _]. exists []. split_and!; [done|done| |done]. intros r0 [= <-] Hp. split; [done|]. by exists r. }
  destruct (aborted r) eqn:Ea; [destruct (Hno E) as (es & He1 & He2 & He3 & He4); exists es; split_and!; [done..|by left]|]. destruct (existsb _ _) eqn:Ex; [destruct (Hno E) as (es & He1 & He2 & He3 & He4); exists es; split_and!; [done..|by left]|]. clear Hno.
  apply bind_Some in E as ([ok1 r1] & E1 & E). pose proof (AddSigned_kept _ _ _ _ E1) as (Hp1 & Hid1 & Hn1).
  destruct ((nParticipantsRequired r1 <=? len (signedByAddresses r1)) && negb (processed r1)) eqn:Eg.
  2: { injection E as _ <- _ _. exists []. split_and!; [done| | |by left].
       - intros h' Hh. cbn. by rewrite lookup_insert_ne.
       - intros r0 [= <-] Hp. split; [done|]. exists r1. cbn. rewrite lookup_insert_eq. by rewrite Hp1. }
  apply andb_true_iff in Eg as [Hge%Z.leb_le Hnp%negb_true_iff]. apply bind_Some in E as ([[[[ok2 r2] s2] c2] rnd2] & E2 & [= _ <- _ _]).
  apply SignSender_facts in E2 as (es & He & Ho & Hp2 & Hcase). cbn in He, Ho. exists es. cbn. rewrite Ho. split_and!; [done| | |].
  - intros h' Hh. by rewrite !lookup_insert_ne.
  - intros r0 [= <-] Hp. rewrite Hp1, Hp in Hnp. done.
  - destruct Hcase as [Hs|(tx & tx' & Hs & -> & Et & Hfrom & Hc & Hme)]; [by left|]. right. exists r, r1, ok1, tx, tx'. rewrite lookup_insert_eq. unfold our_inputs, GetIdHash in Hfrom. rewrite Hid1 in Hfrom.
    split_and!; try done; [by rewrite <- Hp1| |by rewrite <- Hn1|by eexists].
    intros Hin. rewrite <- not_true_iff_false in Ex. apply Ex. apply existsb_exists. exists (signingAddress sr). split; [by apply list_elem_of_In|by apply bytes_eqb_eq].
Qed.

(** A sequence of responses. *)
Fixpoint process_responses (l : list CCloakingSignResponse) (s : enigma_state) (c : CSignatureCache) (rnd : EC_RAND) : option (enigma_state * CSignatureCache * EC_RAND) :=
  match l with
  | [] => Some (s, c, rnd)
  | sr :: l => '(_, s, c, rnd) ← ProcessSign sr s c rnd; process_responses l s c rnd
  end.

Lemma responses_submit_once h l : Forall (fun sr => sr_identifier sr = h) l -> forall s c rnd s' c' rnd', process_responses l s c rnd = Some (s', c', rnd') ->
  exists es, effects s' = es ++ effects s /\ len (submits es) <= 1 /\ (forall r, mapOurCloakingRequests s !! h = Some r -> processed r = true -> submits es = []).
Proof.
  induction 1 as [|sr l Hsr Hl IH]; intros s c rnd s' c' rnd' E; cbn [process_responses] in E; [injection E as <- _ _; by exists []|].
  apply bind_Some in E as ([[[ok s1] c1] rnd1] & E1 & E). apply IH in E as (es2 & He2 & Hle2 & Hp2). apply ProcessSign_facts in E1 as (es1 & He1 & _ & Hp1 & Hcase). rewrite Hsr in *.
  exists (es2 ++ es1). rewrite submits_app. split_and!; [by rewrite He2, He1, app_assoc| |].
  - destruct Hcase as [->|(r & r1 & ok1 & tx & tx' & -> & _ & _ & _ & _ & _ & _ & _ & _ & _ & r' & Er' & Hpr & _)]; [by rewrite app_nil_r|]. rewrite (Hp2 r' Er' Hpr). done.
  - intros r Er Hp. destruct (Hp1 r Er Hp) as (-> & r' & Er' & Hpr). by rewrite (Hp2 r' Er' Hpr).
Qed.
End sender_facts.

(** ** Main theorems *)

(** (C16) A wallet joins a request at most once, and reserves what it offers.
    [ProcessRequest] answers false and changes nothing for a request that was handled
    before.  Otherwise either nothing is sent and the wallet and all that it keeps
    are unchanged, or the request was new, of the right version, neither full nor
    expired, and its number of splits times its amount, modulo 2^64, below the
    balance; then one answer is sent whose inputs are distinct coins, exactly these
    coins are reserved in addition, they are recorded under the request, and the
    request is marked as handled.  The coins reach the amount and the output of the
    root key when these and [CENT] fit into 63 bits.  Amounts beyond that come from
    the network too; then the coins need not reach it, and the product may be
    anything modulo 2^64: [oversized_request_joined] joins a request of 2^63 units
    with no coins.  The wallet is one that can be looked at, its coins are fewer than
    2^31 and together worth less than 2^62. *)
Theorem request_joined_once `{BNI : BN} `{CR : Crypto} `{ECI : EC} `{!EC_curve} `{!ECDH} `{AE : AES} {K : Type} `{KS : !CKeyStore K} RAND_uint64 tries C_rand ptr_order fuel mine_fuel e
    pkey pubkeyHex stealthAddresses activeEnigmaAddresses p_mem fOnionRouting fOnionAvailable fLocked fMintOnly arg_mincloakers fSent r (s : join_state (K := K)) k kr b s' :
  rand_ok RAND_uint64 tries -> (forall s, ptr_order s ≡ₚ elements s) -> wallet_ok mine_fuel e (js_wallet s) -> fits 64 (nSendAmount r) ->
  (forall vCoins, AvailableCoins fuel mine_fuel e (js_wallet s) true None = Some vCoins -> Util.total (map co_val vCoins) < 2 ^ 62 /\ len vCoins < 2 ^ 31) ->
  ProcessRequest RAND_uint64 tries C_rand ptr_order fuel mine_fuel e pkey pubkeyHex stealthAddresses activeEnigmaAddresses p_mem fOnionRouting fOnionAvailable fLocked fMintOnly arg_mincloakers fSent
    r s k kr = Some (b, s') ->
  (GetIdHash r ∈ sRequestHashes s -> b = false /\ s' = s) /\
  (not_joined s s' \/ exists car l, joined fuel mine_fuel e fSent r car l s s').
Proof.
  intros HRA Hptr HW Hn Hb E. unfold ProcessRequest in E.
  destruct (negb (cr_nVersion r =? _)) eqn:Ev; [injection E as <- <-; split; [done|by left]|]. apply negb_false_iff, Z.eqb_eq in Ev.
  destruct (bool_decide_reflect (GetIdHash r ∈ sRequestHashes s)) as [Hh|Hh]; [injection E as <- <-; split; [done|by left]|]. split; [done|].
  destruct (fOnionRouting && _); [injection E as <- <-; by left|].
  match type of E with (if negb ?g then _ else _) = _ => destruct g eqn:Eg end; cbn [negb] in E; [|injection E as <- <-; by left].
  apply andb_true_iff in Eg as [[[[[Hour Hcl]%andb_true_iff Hlk]%andb_true_iff Hspace%Z.ltb_lt]%andb_true_iff Hexp%negb_true_iff]%andb_true_iff Hsec]. apply bool_decide_eq_true in Hour, Hcl.
  apply bind_Some in E as (balance & Ebal & E). destruct (Z.ltb_spec (u64 (u64 (numSplitsRequired r) * nSendAmount r)) (u64 balance)) as [Hbal|]; cbn [negb] in E; [|injection E as <- <-; by left].
  apply bind_Some in E as ([secret m] & _ & E). apply bind_Some in E as ([address k1] & _ & E). apply bind_Some in E as (text & _ & E). apply bind_Some in E as ([[[got part] w] io] & EG & E).
  assert (exists vCoins, AvailableCoins fuel mine_fuel e (js_wallet s) true None = Some vCoins) as [vCoins EA].
  { unfold GetCloakingInputsMine in EG. apply bind_Some in EG as (vCoins & EA & _). by exists vCoins. }
  destruct (Hb vCoins EA) as [Ht Hl]. apply (GetCloakingInputsMine_cases _ _ _ _ _ _ _ _ _ _ _ _ _ _ _ _ _ _ HRA Hptr HW Hn EA Ht Hl) in EG.
  destruct got; cbn [negb] in E; injection E as <- <-; [right|left; by destruct EG as [-> ->]].
  destruct EG as (sel & l & _ & _ & Hnd & -> & Hvin & _ & Hge & Hall & _). exists (mkAccept (GetIdHash r) part), l. split; cbn.
  - done.
  - done.
  - by exists balance.
  - by eexists.
  - done.
  - exact Hall.
  - unfold map_insert_new. rewrite Hcl. split_and!; [done|by destruct fSent|apply elem_of_union; left; by apply elem_of_singleton].
Qed.

(** (C13) The sender submits the joint transaction once, and only when it may.  When a
    signature response makes it submit a transaction, the request was not aborted and
    had not been submitted, the signer had not signed, as many have signed as were
    asked for, and the transaction is the merged one but for signature scripts of the sender's
    own inputs, and passes [CheckTransaction]; the request is then marked
    as processed and signed by the sender.  Whatever responses for one request come
    in, in whatever order, at most one transaction is submitted, and none for a
    request that is marked. *)
Theorem joint_transaction_submitted_once {D : Type} `{!TxIndexDB D} `{BNI : BN} `{CR : Crypto} `{ECI : EC} `{!EC_curve} `{!ECDH} `{AE : AES} {K : Type} `{KS : !CKeyStore K}
    fTestNet now files pool (txdb : D) GetRandHash nMaxCacheSize pkey pubkeyHex (keystore : K) stealthAddresses h l s c rnd s' c' rnd' :
  Forall (fun sr => sr_identifier sr = h) l ->
  process_responses fTestNet now files pool txdb GetRandHash nMaxCacheSize pkey pubkeyHex keystore stealthAddresses l s c rnd = Some (s', c', rnd') ->
  (exists es, effects s' = es ++ effects s /\ len (submits es) <= 1 /\ (forall r, mapOurCloakingRequests s !! h = Some r -> processed r = true -> submits es = [])) /\
  (forall sr, l = [sr] -> exists es, effects s' = es ++ effects s /\ (forall h', h' <> h -> mapOurCloakingRequests s' !! h' = mapOurCloakingRequests s !! h') /\
     forall tx', tx' ∈ submits es -> exists r r1 ok1 tx, mapOurCloakingRequests s !! h = Some r /\ aborted r = false /\ processed r = false /\
       (signingAddress sr ∉ signedByAddresses r) /\ AddSignedInputsToTx now r sr = Some (ok1, r1) /\ nParticipantsRequired r <= len (signedByAddresses r1) /\
       DeserializeTx now (signedrawtx r1) = Some tx /\ signed_from (our_inputs r s) tx tx' /\ (CheckTransaction tx').1 = true /\
       exists r', mapOurCloakingRequests s' !! h = Some r' /\ processed r' = true /\ pubkeyHex ∈ signedByAddresses r').
Proof.
  intros Hl E. split; [by eapply responses_submit_once|]. intros sr ->. apply Forall_cons in Hl as [<- _]. cbn [process_responses] in E. apply bind_Some in E as ([[[ok s1] c1] rnd1] & E1 & [= -> _ _]).
  apply ProcessSign_facts in E1 as (es & He & Ho & _ & Hcase). exists es. split_and!; [done|done|]. intros tx' Hin.
  destruct Hcase as [Hs|(r & r1 & ok1 & tx & tx2 & Hs & H')]; rewrite Hs in Hin; [by apply elem_of_nil in Hin|]. apply list_elem_of_singleton in Hin as ->. by exists r, r1, ok1, tx.
Qed.

(** ** Examples *)

#[local] Existing Instance Crypto_toy.
#[local] Existing Instance EC_toy.
#[local] Existing Instance EC_curve_toy.
#[local] Existing Instance BN_Z.

#[local] Instance AES_idle : AES := {| EVP_Encrypt key iv m := None; EVP_Decrypt key iv c := None; EVP_BytesToKey salt data n := (32, [], []) |}.
#[local] Instance ECDH_three : ECDH := {| ECDH_compute_key peer ours := Some [3] |}.
#[local] Instance no_entries : TxIndexDB unit := {| idx_Read d h := Some None; idx_Update d h t := Some (true, d); idx_Erase d h := Some (true, d) |}.

Definition fresh_node : join_state (K := CBasicKeyStore) := mkJoin sample_wallet (mkEnigma ∅ ∅ ∅ [] 0) ∅ ∅ ∅.
Definition toy_join := ProcessRequest (fun _ => 12345) 1 (fun _ => 1) elements 9 1 deep_env EC_KEY_new [57] [our_address] [default [] (Encoded our_address)] (mkPrefix 0 0) false false false false None true
  (set_broadcasted 990 small_request) fresh_node 0 0.

Example toy_joins_request : match toy_join with Some (b, s) => b && (len (effects (js_enigma s)) =? 1) | None => false end = true.
Proof. vm_compute. reflexivity. Qed.

(** A request for 2^63 units in two shares: the product is 0 modulo 2^64 and the
    target negative, so that the wallet joins, and offers no coins. *)
Local Abbreviation oversized_request := (mkRequest 10 (mkIdentifier [48] 100) (2 ^ 63) 2 [] [] [] [] true 100 false false 0 false false false false 2 60 [48] [] [] toy_sx).

Example oversized_request_joined : match ProcessRequest (fun _ => 12345) 1 (fun _ => 1) elements 9 1 deep_env EC_KEY_new [57] [our_address] [default [] (Encoded our_address)] (mkPrefix 0 0)
    false false false false None true (set_broadcasted 990 oversized_request) fresh_node 0 0 with
  | Some (b, s) => b && match effects (js_enigma s) with
      | [SendAccept car _] => match io_vin (inOuts (participantInfo car)) with [] => nInputAmount (inOuts (participantInfo car)) =? 0 | _ => false end
      | _ => false
      end
  | None => false
  end = true.
Proof. vm_compute. reflexivity. Qed.

Lemma request_joined_once_witness : exists s' car l, toy_join = Some (true, s') /\ joined 9 1 deep_env true (set_broadcasted 990 small_request) car l fresh_node s'.
Proof.
  destruct toy_join as [[b s']|] eqn:E; [|exfalso; pose proof toy_joins_request as H; rewrite E in H; discriminate].
  pose proof toy_joins_request as H. rewrite E in H. apply andb_true_iff in H as [Hb Hone%Z.eqb_eq]. subst b. exists s'.
  assert (Hv : forall vCoins, AvailableCoins 9 1 deep_env sample_wallet true None = Some vCoins -> Util.total (map co_val vCoins) < 2 ^ 62 /\ len vCoins < 2 ^ 31).
  { intros vCoins EA. pose proof toy_coins_value as Hc. unfold toy_coins in Hc. rewrite EA in Hc. apply andb_true_iff in Hc as [Ht%Z.eqb_eq Hl%Z.eqb_eq]. lia. }
  assert (Hn : fits 64 (nSendAmount (set_broadcasted 990 small_request))) by (split; [discriminate|reflexivity]). unfold toy_join in E.
  destruct (request_joined_once (fun _ => 12345) 1 (fun _ => 1) elements 9 1 deep_env EC_KEY_new [57] [our_address] [default [] (Encoded our_address)] (mkPrefix 0 0) false false false false None true
    (set_broadcasted 990 small_request) fresh_node 0 0 true s' toy_rand_ok (fun s => reflexivity _) deep_wallet_ok Hn Hv E) as [_ [Hno|(car & l & Hj)]].
  - exfalso. destruct Hno as [He _]. rewrite He in Hone. discriminate.
  - exists car, l. exact (conj eq_refl Hj).
Defined.

(** A request for one cloaker, whose signature comes in. *)
Definition last_request : CCloakingRequest :=
  mkRequest 10 (mkIdentifier [48] 100) 30000 1 (HexStr (raw_tx joint_tx) false) (HexStr (raw_tx joint_tx) false) [] [] true 100 false false 0 true false true false 0 60 [48] [] [] (stealth_new (mkPrefix 0 0)).
Definition last_response : CCloakingSignResponse := mkSignResponse [65] (GetIdHash last_request) (bu_zero 8) [[1; 5]; []].
Definition last_state : enigma_state :=
  mkEnigma {[GetIdHash last_request := last_request]} {[GetIdHash last_request := mkInOuts 10 [our_input] [] (bu_zero 8) 30000 40000 (bu_zero 8) false 0]} ∅ [] 0.
Definition toy_finish := process_responses false 200 ∅ sign_pool tt (fun _ => []) 2 EC_KEY_new [99] signer [our_address] [last_response; last_response] last_state (mkSigCache [] 0) tt.

Example toy_submits : match toy_finish with Some (s, _, _) => len (submits (effects s)) =? 1 | None => false end = true.
Proof. vm_compute. reflexivity. Qed.

Lemma joint_transaction_submitted_once_witness : exists s' c' rnd', toy_finish = Some (s', c', rnd') /\ len (submits (effects s')) = 1 /\ exists es, effects s' = es ++ [] /\ len (submits es) <= 1.
Proof.
  destruct toy_finish as [[[s' c'] rnd']|] eqn:E; [|exfalso; pose proof toy_submits as H; rewrite E in H; discriminate].
  pose proof toy_submits as H. rewrite E in H. apply Z.eqb_eq in H. exists s', c', rnd'. split; [reflexivity|]. split; [exact H|].
  destruct (proj1 (joint_transaction_submitted_once _ _ _ _ _ _ _ _ _ _ _ (GetIdHash last_request) [last_response; last_response] _ _ _ _ _ _ ltac:(repeat constructor) E)) as (es & He & Hle & _).
  exists es. exact (conj He Hle).
Defined.
