(* ===== verification/KeyPool.v ===== *)
(** * db.h, walletdb.h, wallet.cpp: the wallet file and the key pool

    [CDB] wraps Berkeley DB, which is the class [BerkeleyDB] with the documented laws
    [BerkeleyDB_spec].  A wallet opens its file for every call, for reading and
    writing; [w_db] is the file as it is opened.  The counter [nWalletDBUpdated],
    which only makes another thread flush the file, is left out.  [None] is an
    exception or a failed assertion. *)
From Stdlib Require Import ZArith Lia Bool.
From stdpp Require Import prelude gmap sorting.
From S2P Require Import Prelude Uint256 DataStream Serialize Crypto Bignum Script Tx Keys KeyStore TxDB.

(** ** Berkeley DB *)

Class BerkeleyDB : Type := {
  BDB : Type;
  DB_NOTFOUND : Z;
  (** The code returned and the data, if there is any. *)
  bdb_get : BDB -> list Z -> Z * option (list Z);
  (** The flag is [DB_NOOVERWRITE]. *)
  bdb_put : BDB -> list Z -> list Z -> bool -> Z * BDB;
  bdb_del : BDB -> list Z -> Z * BDB;
  bdb_exists : BDB -> list Z -> Z
}.

Class BerkeleyDB_spec `{BerkeleyDB} : Type := {
  bdb_map : BDB -> gmap (list Z) (list Z);
  bdb_notfound : DB_NOTFOUND <> 0;
  bdb_get_spec : forall d k, bdb_get d k = match bdb_map d !! k with Some v => (0, Some v) | None => (DB_NOTFOUND, None) end;
  bdb_put_spec : forall d k v no, let '(ret, d') := bdb_put d k v no in
    bdb_map d' = (if ret =? 0 then <[k := v]> (bdb_map d) else bdb_map d) /\ (no = true -> is_Some (bdb_map d !! k) -> ret <> 0);
  bdb_del_spec : forall d k, let '(ret, d') := bdb_del d k in
    bdb_map d' = (if ret =? 0 then delete k (bdb_map d) else bdb_map d) /\ (ret = DB_NOTFOUND -> bdb_map d !! k = None);
  bdb_exists_spec : forall d k, bdb_exists d k = 0 <-> is_Some (bdb_map d !! k)
}.

(** ** [CDB] *)

Section cdb.
Context `{BerkeleyDB}.

Record CDB : Type := mkCDB { cdb_pdb : option BDB; cdb_fReadOnly : bool }.

Section typed.
Context {K T : Type} (ck : Ser K) (ct : Ser T).

Definition cdb_Read (db : CDB) (key : K) : option (option T) :=
  match cdb_pdb db with
  | None => Some None
  | Some d =>
      let '(ret, data) := bdb_get d (Serialize ck SER_DISK CLIENT_VERSION key) in
      match data with
      | None => Some None
      | Some bytes =>
          match fst (Unserialize ct SER_DISK CLIENT_VERSION (Init bytes SER_DISK CLIENT_VERSION)) with
          | inr value => Some (if ret =? 0 then Some value else None)
          | inl Throw => Some None
          | inl _ => None
          end
      end
  end.

Definition cdb_Write (db : CDB) (key : K) (value : T) (fOverwrite : bool) : option (bool * CDB) :=
  match cdb_pdb db with
  | None => Some (false, db)
  | Some d =>
      if cdb_fReadOnly db then None
      else
        let '(ret, d) := bdb_put d (Serialize ck SER_DISK CLIENT_VERSION key) (Serialize ct SER_DISK CLIENT_VERSION value) (negb fOverwrite) in
        Some (ret =? 0, mkCDB (Some d) (cdb_fReadOnly db))
  end.

Definition cdb_Erase (db : CDB) (key : K) : option (bool * CDB) :=
  match cdb_pdb db with
  | None => Some (false, db)
  | Some d =>
      if cdb_fReadOnly db then None
      else
        let '(ret, d) := bdb_del d (Serialize ck SER_DISK CLIENT_VERSION key) in
        Some ((ret =? 0) || (ret =? DB_NOTFOUND), mkCDB (Some d) (cdb_fReadOnly db))
  end.

Definition cdb_Exists (db : CDB) (key : K) : bool :=
  match cdb_pdb db with None => false | Some d => bdb_exists d (Serialize ck SER_DISK CLIENT_VERSION key) =? 0 end.
End typed.

(** ** [CWalletDB] *)

(** [string("pool")] and the other names. *)
Definition key_pool : list Z := [112; 111; 111; 108].
Definition key_key : list Z := [107; 101; 121].
Definition key_wkey : list Z := [119; 107; 101; 121].
Definition key_ckey : list Z := [99; 107; 101; 121].
Definition key_setting : list Z := [115; 101; 116; 116; 105; 110; 103].
Definition key_addrIncoming : list Z := [97; 100; 100; 114; 73; 110; 99; 111; 109; 105; 110; 103].
Definition key_minversion : list Z := [109; 105; 110; 118; 101; 114; 115; 105; 111; 110].

Record CKeyPool : Type := mkKeyPool { kp_nTime : Z; kp_vchPubKey : CPubKey }.
Definition ser_keypool : Ser CKeyPool := ser_versioned (ser_struct (fun k => (kp_nTime k, kp_vchPubKey k)) (fun '(t, p) => mkKeyPool t p) (ser_pair (ser_int 8) ser_pubkey)).

Definition ser_pool_key : Ser (list Z * Z) := ser_pair ser_string (ser_int 8).
Definition ser_pubkey_key : Ser (list Z * list Z) := ser_pair ser_string ser_bytes.

Definition ReadPool (db : CDB) (nPool : Z) : option (option CKeyPool) := cdb_Read ser_pool_key ser_keypool db (key_pool, nPool).
Definition WritePool (db : CDB) (nPool : Z) (keypool : CKeyPool) : option (bool * CDB) := cdb_Write ser_pool_key ser_keypool db (key_pool, nPool) keypool true.
Definition ErasePool (db : CDB) (nPool : Z) : option (bool * CDB) := cdb_Erase ser_pool_key db (key_pool, nPool).

Definition WriteKey (db : CDB) (pk : CPubKey) (vchPrivKey : list Z) : option (bool * CDB) := cdb_Write ser_pubkey_key ser_bytes db (key_key, vchPubKey pk) vchPrivKey false.

Definition WriteCryptedKey (db : CDB) (pk : CPubKey) (vchCryptedSecret : list Z) (fEraseUnencryptedKey : bool) : option (bool * CDB) :=
  '(ok, db) ← cdb_Write ser_pubkey_key ser_bytes db (key_ckey, vchPubKey pk) vchCryptedSecret false;
  if negb (ok : bool) then Some (false, db)
  else if fEraseUnencryptedKey then
    '(_, db) ← cdb_Erase ser_pubkey_key db (key_key, vchPubKey pk);
    '(_, db) ← cdb_Erase ser_pubkey_key db (key_wkey, vchPubKey pk);
    Some (true, db)
  else Some (true, db).

(** [CCorruptAddress] writes the version of the stream to a file, and nothing elsewhere. *)
Definition ser_corrupt : Ser unit :=
  mkSer (fun ty _ _ => if Z.land ty SER_DISK =? 0 then 0 else 4)
        (fun ty ver _ => if Z.land ty SER_DISK =? 0 then [] else Serialize (ser_int 4) ty ver ver)
        (fun ty ver => if Z.land ty SER_DISK =? 0 then ret tt else _v <-- Unserialize (ser_int 4) ty ver ;; ret tt).
Definition WriteSetting_corrupt (db : CDB) (strKey : list Z) : option (bool * CDB) := cdb_Write (ser_pair ser_string ser_string) ser_corrupt db (key_setting, strKey) tt true.
Definition WriteMinVersion (db : CDB) (nVersion : Z) : option (bool * CDB) := cdb_Write ser_string (ser_int 4) db key_minversion nVersion true.
End cdb.

(** ** The key pool *)

Definition FEATURE_WALLETCRYPT : Z := 40000.
Definition FEATURE_COMPRPUBKEY : Z := 60000.
Definition FEATURE_LATEST : Z := 60000.

Section pool.
Context `{CR : Crypto} `{ECI : EC} `{AE : AES} `{BD : BerkeleyDB}.
(** The argument [-keypool], and the clock. *)
Context (arg_keypool now : Z).

Record CPoolWallet : Type := mkPool {
  w_store : CCryptoKeyStore;
  setKeyPool : gset Z;
  vchDefaultKey : CPubKey;
  nWalletVersion : Z;
  nWalletMaxVersion : Z;
  fFileBacked : bool;
  w_db : CDB;
  w_rand : EC_RAND
}.

Definition with_store (s : CCryptoKeyStore) (w : CPoolWallet) : CPoolWallet := mkPool s (setKeyPool w) (vchDefaultKey w) (nWalletVersion w) (nWalletMaxVersion w) (fFileBacked w) (w_db w) (w_rand w).
Definition with_pool (p : gset Z) (w : CPoolWallet) : CPoolWallet := mkPool (w_store w) p (vchDefaultKey w) (nWalletVersion w) (nWalletMaxVersion w) (fFileBacked w) (w_db w) (w_rand w).
Definition with_versions (v m : Z) (w : CPoolWallet) : CPoolWallet := mkPool (w_store w) (setKeyPool w) (vchDefaultKey w) v m (fFileBacked w) (w_db w) (w_rand w).
Definition with_db (d : CDB) (w : CPoolWallet) : CPoolWallet := mkPool (w_store w) (setKeyPool w) (vchDefaultKey w) (nWalletVersion w) (nWalletMaxVersion w) (fFileBacked w) d (w_rand w).
Definition with_rand (r : EC_RAND) (w : CPoolWallet) : CPoolWallet := mkPool (w_store w) (setKeyPool w) (vchDefaultKey w) (nWalletVersion w) (nWalletMaxVersion w) (fFileBacked w) (w_db w) r.

Definition w_IsLocked (w : CPoolWallet) : bool := IsLocked (w_store w).

Definition CanSupportFeature (w : CPoolWallet) (wf : Z) : bool := wf <=? nWalletMaxVersion w.

(** [SetMinVersion(nVersion, NULL, fExplicit)] *)
Definition SetMinVersion (w : CPoolWallet) (nVersion : Z) (fExplicit : bool) : option (bool * CPoolWallet) :=
  if nVersion <=? nWalletVersion w then Some (true, w)
  else
    let nVersion := if fExplicit && (nWalletMaxVersion w <? nVersion) then FEATURE_LATEST else nVersion in
    let w := with_versions nVersion (if nWalletMaxVersion w <? nVersion then nVersion else nWalletMaxVersion w) w in
    if fFileBacked w then
      '(_, db) ← (if 40000 <=? nWalletVersion w then WriteSetting_corrupt (w_db w) key_addrIncoming else Some (true, w_db w));
      '(_, db) ← (if 40000 <? nWalletVersion w then WriteMinVersion db (nWalletVersion w) else Some (true, db));
      Some (true, with_db db w)
    else Some (true, w).

(** [CWallet::AddKey]: adding to an encrypted store calls [CWallet::AddCryptedKey],
    which writes what the store has taken. *)
Definition wallet_AddKey (w : CPoolWallet) (key : CKey) : option (bool * CPoolWallet) :=
  let crypted := IsCrypted (w_store w) in
  '(ok, s) ← crypto_AddKey (w_store w) key;
  let w := with_store s w in
  if negb (ok : bool) then Some (false, w)
  else if negb (fFileBacked w) then Some (true, w)
  else
    pk ← key_GetPubKey key;
    if negb crypted then
      prv ← GetPrivKey key;
      '(ok, db) ← WriteKey (w_db w) pk prv; Some (ok, with_db db w)
    else
      '(_, secret) ← mapCryptedKeys s !! GetID pk;
      '(ok, db) ← WriteCryptedKey (w_db w) pk secret true; Some (ok, with_db db w).

Definition GenerateNewKey (w : CPoolWallet) : option (CPubKey * CPoolWallet) :=
  let fCompressed := CanSupportFeature w FEATURE_COMPRPUBKEY in
  let '(key, r) := MakeNewKey (w_rand w) key_Reset fCompressed in
  let w := with_rand r w in
  key ← key;
  '(_, w) ← (if fCompressed then SetMinVersion w FEATURE_COMPRPUBKEY false else Some (true, w));
  '(ok, w) ← wallet_AddKey w key;
  if negb (ok : bool) then None else pk ← key_GetPubKey key; Some (pk, w).

(** A [set<int64>] in its order. *)
Definition set_order (s : gset Z) : list Z := merge_sort Z.le (elements s).
Definition pool_insert (n : Z) (s : gset Z) : gset Z := {[n]} ∪ s.
Definition pool_erase (n : Z) (s : gset Z) : gset Z := s ∖ {[n]}.

Fixpoint erase_pools (l : list Z) (db : CDB) : option CDB :=
  match l with [] => Some db | n :: l => '(_, db) ← ErasePool db n; erase_pools l db end.

Definition new_pool_key (nIndex : Z) (w : CPoolWallet) : option (bool * CPoolWallet) :=
  '(pk, w) ← GenerateNewKey w;
  '(ok, db) ← WritePool (w_db w) nIndex (mkKeyPool now pk);
  Some (ok, with_db db w).

(** The counter is an [int]: it counts from 0. *)
Fixpoint new_keys (n : nat) (i : Z) (w : CPoolWallet) : option CPoolWallet :=
  match n with
  | O => Some w
  | S n => let nIndex := i + 1 in '(_, w) ← new_pool_key nIndex w; new_keys n (i + 1) (with_pool (pool_insert nIndex (setKeyPool w)) w)
  end.

Definition NewKeyPool (w : CPoolWallet) : option (bool * CPoolWallet) :=
  db ← erase_pools (set_order (setKeyPool w)) (w_db w);
  let w := with_pool ∅ (with_db db w) in
  if w_IsLocked w then Some (false, w)
  else w ← new_keys (Z.to_nat (Z.max arg_keypool 0)) 0 w; Some (true, w).

Definition pool_end (s : gset Z) : Z := match last (set_order s) with None => 1 | Some n => s64 (n + 1) end.

(** [None] also when [n] keys more do not fill the pool. *)
Fixpoint topup_loop (n : nat) (target : Z) (w : CPoolWallet) : option CPoolWallet :=
  if Z.of_nat (size (setKeyPool w)) <? target then
    match n with
    | O => None
    | S n =>
        let nEnd := pool_end (setKeyPool w) in
        '(ok, w) ← new_pool_key nEnd w;
        if negb (ok : bool) then None else topup_loop n target (with_pool (pool_insert nEnd (setKeyPool w)) w)
    end
  else Some w.

Definition pool_target : Z := u32 (u32 (Z.max arg_keypool 0) + 1).

Definition TopUpKeyPool (w : CPoolWallet) : option (bool * CPoolWallet) :=
  if w_IsLocked w then Some (false, w)
  else w ← topup_loop (Z.to_nat pool_target) pool_target w; Some (true, w).

Definition pk_null : CPubKey := mkPubKey [].

(** The index (-1 for none), the record and the wallet. *)
Definition ReserveKeyFromKeyPool (w : CPoolWallet) : option (Z * CKeyPool * CPoolWallet) :=
  '(_, w) ← (if negb (w_IsLocked w) then TopUpKeyPool w else Some (true, w));
  match set_order (setKeyPool w) with
  | [] => Some (-1, mkKeyPool now pk_null, w)
  | nIndex :: _ =>
      let w := with_pool (pool_erase nIndex (setKeyPool w)) w in
      rec ← ReadPool (w_db w) nIndex;
      keypool ← rec;
      if negb (crypto_HaveKey (w_store w) (GetID (kp_vchPubKey keypool))) then None
      else if negb (pk_IsValid (kp_vchPubKey keypool)) then None
      else Some (nIndex, keypool, w)
  end.

Definition AddReserveKey (w : CPoolWallet) (keypool : CKeyPool) : option (Z * CPoolWallet) :=
  n ← last (set_order (setKeyPool w));
  let nIndex := s64 (1 + n) in
  '(ok, db) ← WritePool (w_db w) nIndex keypool;
  if negb (ok : bool) then None else Some (nIndex, with_pool (pool_insert nIndex (setKeyPool w)) (with_db db w)).

Definition KeepKey (w : CPoolWallet) (nIndex : Z) : option CPoolWallet :=
  if fFileBacked w then '(_, db) ← ErasePool (w_db w) nIndex; Some (with_db db w) else Some w.
Definition ReturnKey (w : CPoolWallet) (nIndex : Z) : CPoolWallet := with_pool (pool_insert nIndex (setKeyPool w)) w.

(** [result], where the answer is true. *)
Definition GetKeyFromPool (w : CPoolWallet) (fAllowReuse : bool) : option (option CPubKey * CPoolWallet) :=
  '(nIndex, keypool, w) ← ReserveKeyFromKeyPool w;
  if (nIndex : Z) =? -1 then
    if fAllowReuse && pk_IsValid (vchDefaultKey w) then Some (Some (vchDefaultKey w), w)
    else if w_IsLocked w then Some (None, w)
    else '(pk, w) ← GenerateNewKey w; Some (Some pk, w)
  else w ← KeepKey w nIndex; Some (Some (kp_vchPubKey keypool), w).

Definition GetOldestKeyPoolTime (w : CPoolWallet) : option (Z * CPoolWallet) :=
  '(nIndex, keypool, w) ← ReserveKeyFromKeyPool w;
  if (nIndex : Z) =? -1 then Some (now, w) else Some (kp_nTime keypool, ReturnKey w nIndex).

Fixpoint reserve_ids (w : CPoolWallet) (l : list Z) (setAddress : gset CKeyID) : option (gset CKeyID) :=
  match l with
  | [] => Some setAddress
  | id :: l =>
      rec ← ReadPool (w_db w) id;
      keypool ← rec;
      if negb (pk_IsValid (kp_vchPubKey keypool)) then None
      else
        let keyID := GetID (kp_vchPubKey keypool) in
        if negb (crypto_HaveKey (w_store w) keyID) then None else reserve_ids w l ({[keyID]} ∪ setAddress)
  end.
Definition GetAllReserveKeys (w : CPoolWallet) : option (gset CKeyID) := reserve_ids w (set_order (setKeyPool w)) ∅.

(** ** [CReserveKey] *)

Record CReserveKey : Type := mkReserve { rk_nIndex : Z; rk_vchPubKey : CPubKey }.
Definition reserve_new : CReserveKey := mkReserve (-1) pk_null.

(** [GetReservedKey(pubkey)]; inside, [None] is the answer false. *)
Definition GetReservedKey (w : CPoolWallet) (r : CReserveKey) : option (option CPubKey * CPoolWallet * CReserveKey) :=
  '(ok, w, r) ←
    (if rk_nIndex r =? -1 then
       '(nIndex, keypool, w) ← ReserveKeyFromKeyPool w;
       if negb ((nIndex : Z) =? -1) then Some (true, w, mkReserve nIndex (kp_vchPubKey keypool))
       else if pk_IsValid (vchDefaultKey w) then Some (true, w, mkReserve nIndex (vchDefaultKey w))
       else Some (false, w, mkReserve nIndex (rk_vchPubKey r))
     else Some (true, w, r));
  if negb (ok : bool) then Some (None, w, r)
  else if pk_IsValid (rk_vchPubKey r) then Some (Some (rk_vchPubKey r), w, r) else None.

Definition reserve_KeepKey (w : CPoolWallet) (r : CReserveKey) : option (CPoolWallet * CReserveKey) :=
  w ← (if negb (rk_nIndex r =? -1) then KeepKey w (rk_nIndex r) else Some w); Some (w, reserve_new).
Definition reserve_ReturnKey (w : CPoolWallet) (r : CReserveKey) : CPoolWallet * CReserveKey :=
  (if negb (rk_nIndex r =? -1) then ReturnKey w (rk_nIndex r) else w, reserve_new).

(** The indices of a new pool whose record was not written. *)
Fixpoint unwritten (n : nat) (i : Z) (w : CPoolWallet) : gset Z :=
  match n with
  | O => ∅
  | S n =>
      match new_pool_key (i + 1) w with
      | Some (ok, w) => (if ok then ∅ else {[i + 1]}) ∪ unwritten n (i + 1) (with_pool (pool_insert (i + 1) (setKeyPool w)) w)
      | None => ∅
      end
  end.
Definition unwritten_pool (w : CPoolWallet) : gset Z :=
  match erase_pools (set_order (setKeyPool w)) (w_db w) with
  | None => ∅
  | Some db => let w := with_pool ∅ (with_db db w) in if w_IsLocked w then ∅ else unwritten (Z.to_nat (Z.max arg_keypool 0)) 0 w
  end.
End pool.

(** ** What the database holds *)

Section view.
Context `{BS : BerkeleyDB_spec}.

(** A file that is open stays open. *)
Definition stays_open (db db' : CDB) : Prop := is_Some (cdb_pdb db) -> is_Some (cdb_pdb db').
#[export] Instance stays_open_preorder : PreOrder stays_open.
Proof. split; [by intros db Hd|intros a b c Hab Hbc Ha; by apply Hbc, Hab]. Qed.

Definition view (db : CDB) : gmap (list Z) (list Z) := match cdb_pdb db with Some d => bdb_map d | None => ∅ end.

Lemma cdb_Read_view {K T} (ck : Ser K) (ct : Ser T) db key :
  cdb_Read ck ct db key = match view db !! Serialize ck SER_DISK CLIENT_VERSION key with Some v => decode ct v | None => Some None end.
Proof.
  unfold cdb_Read, view, decode. destruct (cdb_pdb db) as [d|]; [|by rewrite lookup_empty]. rewrite bdb_get_spec. destruct (_ !! _) as [v|]; [|done]. cbn [Z.eqb].
  by destruct (fst _) as [[]|].
Qed.

Lemma cdb_Write_view {K T} (ck : Ser K) (ct : Ser T) db key x ow ok db' : cdb_Write ck ct db key x ow = Some (ok, db') ->
  stays_open db db' /\
  view db' = if ok then <[Serialize ck SER_DISK CLIENT_VERSION key := Serialize ct SER_DISK CLIENT_VERSION x]> (view db) else view db.
Proof.
  unfold cdb_Write, view. destruct (cdb_pdb db) as [d|] eqn:Ed; [|intros [= <- <-]; split; [unfold stays_open; by rewrite Ed|by rewrite Ed]]. destruct (cdb_fReadOnly db); [done|].
  pose proof (bdb_put_spec d (Serialize ck SER_DISK CLIENT_VERSION key) (Serialize ct SER_DISK CLIENT_VERSION x) (negb ow)) as HP. destruct (bdb_put _ _ _ _) as [ret d']. destruct HP as [HP _].
  intros [= <- <-]. split; [by eexists|done].
Qed.

Lemma cdb_Erase_view {K} (ck : Ser K) db key ok db' : cdb_Erase ck db key = Some (ok, db') ->
  stays_open db db' /\ forall k, k <> Serialize ck SER_DISK CLIENT_VERSION key -> view db' !! k = view db !! k.
Proof.
  unfold cdb_Erase, view. destruct (cdb_pdb db) as [d|] eqn:Ed; [|intros [= <- <-]; split; [unfold stays_open; by rewrite Ed|by rewrite Ed]]. destruct (cdb_fReadOnly db); [done|].
  pose proof (bdb_del_spec d (Serialize ck SER_DISK CLIENT_VERSION key)) as HP. destruct (bdb_del _ _) as [ret d']. destruct HP as [HP _].
  intros [= <- <-]. split; [by eexists|]. intros k Hk. cbn. rewrite HP. destruct (ret =? 0); [by rewrite lookup_delete_ne|done].
Qed.

(** ** The records of the pool *)

Definition pool_key (i : Z) : list Z := Serialize ser_pool_key SER_DISK CLIENT_VERSION (key_pool, i).

Lemma pool_key_name i : exists r, pool_key i = 4 :: 112 :: r.
Proof. eexists. reflexivity. Qed.

Lemma ser_pool_key_correct : ser_correct (fun '(n, i) => bytes_wf n /\ sfits 64 i) ser_pool_key.
Proof. apply ser_pair_correct; [apply ser_string_correct|apply ser_s64_correct]. Qed.

Lemma pool_key_inj i j : sfits 64 i -> sfits 64 j -> pool_key i = pool_key j -> i = j.
Proof.
  intros Hi Hj E. assert (Hn : bytes_wf key_pool) by (split; [forall_list|done]).
  destruct (ser_inj_app _ _ SER_DISK CLIENT_VERSION (key_pool, i) (key_pool, j) [] [] ser_pool_key_correct) as [E' _]; [done..|constructor| |by rewrite !app_nil_r|by injection E'].
  rewrite app_nil_r. cbn [Serialize ser_pool_key ser_pair]. rewrite !length_app. cbn [Serialize ser_int]. rewrite length_to_digits. vm_compute. reflexivity.
Qed.

Lemma ser_keypool_correct : ser_correct (fun k => sfits 64 (kp_nTime k) /\ bytes_wf (vchPubKey (kp_vchPubKey k))) ser_keypool.
Proof.
  apply ser_versioned_correct. eapply (ser_struct_correct_on _ _ _ (fun '(t, p) => sfits 64 t /\ bytes_wf (vchPubKey p))).
  - intros [t p] Ht. done.
  - intros [t p] Ht. done.
  - apply ser_pair_correct; [apply ser_s64_correct|apply ser_pubkey_correct].
Qed.

Lemma ReadPool_view db i : ReadPool db i = match view db !! pool_key i with Some v => decode ser_keypool v | None => Some None end.
Proof. apply cdb_Read_view. Qed.

(** Two states of the file with the same record for [i]. *)
Definition same_rec (i : Z) (db db' : CDB) : Prop := view db' !! pool_key i = view db !! pool_key i.

Lemma same_rec_Read i db db' : same_rec i db db' -> ReadPool db' i = ReadPool db i.
Proof. intros Hs. rewrite !ReadPool_view. by rewrite Hs. Qed.

Definition not_pool (k : list Z) : Prop := forall r, k <> 4 :: 112 :: r.

Lemma not_pool_ne k i : not_pool k -> k <> pool_key i.
Proof. intros Hk E. destruct (pool_key_name i) as [r Er]. rewrite Er in E. by apply Hk in E. Qed.

Lemma cdb_Write_other {K T} (ck : Ser K) (ct : Ser T) db key x ow ok db' : not_pool (Serialize ck SER_DISK CLIENT_VERSION key) -> cdb_Write ck ct db key x ow = Some (ok, db') ->
  stays_open db db' /\ forall i, same_rec i db db'.
Proof. intros Hk E. apply cdb_Write_view in E as [Hr E]. split; [done|]. intros i. unfold same_rec. rewrite E. destruct ok; [|done]. rewrite lookup_insert_ne; [done|by apply not_pool_ne]. Qed.

Lemma cdb_Erase_other {K} (ck : Ser K) db key ok db' : not_pool (Serialize ck SER_DISK CLIENT_VERSION key) -> cdb_Erase ck db key = Some (ok, db') ->
  stays_open db db' /\ forall i, same_rec i db db'.
Proof. intros Hk E. apply cdb_Erase_view in E as [Hr E]. split; [done|]. intros i. apply E. apply not_eq_sym. by apply not_pool_ne. Qed.

Lemma key_names : (forall b, not_pool (Serialize ser_pubkey_key SER_DISK CLIENT_VERSION (key_key, b))) /\ (forall b, not_pool (Serialize ser_pubkey_key SER_DISK CLIENT_VERSION (key_wkey, b))) /\
  (forall b, not_pool (Serialize ser_pubkey_key SER_DISK CLIENT_VERSION (key_ckey, b))) /\ (forall b, not_pool (Serialize (ser_pair ser_string ser_string) SER_DISK CLIENT_VERSION (key_setting, b))) /\
  not_pool (Serialize ser_string SER_DISK CLIENT_VERSION key_minversion).
Proof. split_and!; try intros b; intros r; discriminate. Qed.

(** Nothing but the pool's own calls touches the pool's records. *)
Lemma WriteKey_other db pk prv ok db' : WriteKey db pk prv = Some (ok, db') -> stays_open db db' /\ forall i, same_rec i db db'.
Proof. apply cdb_Write_other. apply key_names. Qed.

Lemma WriteCryptedKey_other db pk s fe ok db' : WriteCryptedKey db pk s fe = Some (ok, db') -> stays_open db db' /\ forall i, same_rec i db db'.
Proof.
  unfold WriteCryptedKey. intros ([ok1 db1] & E1 & E)%bind_Some. apply cdb_Write_other in E1 as [H1 S1]; [|apply key_names]. destruct ok1; cbn [negb] in E; [|by injection E as _ <-].
  destruct fe; [|by injection E as _ <-]. apply bind_Some in E as ([ok2 db2] & E2 & E). apply cdb_Erase_other in E2 as [H2 S2]; [|apply key_names].
  apply bind_Some in E as ([ok3 db3] & E3 & E). apply cdb_Erase_other in E3 as [H3 S3]; [|apply key_names]. injection E as _ <-. split; [unfold stays_open in *; by auto|]. intros i. unfold same_rec in *. by rewrite S3, S2, S1.
Qed.

Lemma WritePool_view db i kp ok db' : WritePool db i kp = Some (ok, db') -> stays_open db db' /\
  (forall j, sfits 64 i -> sfits 64 j -> i <> j -> same_rec j db db') /\
  (ok = true -> sfits 64 (kp_nTime kp) -> bytes_wf (vchPubKey (kp_vchPubKey kp)) -> len (vchPubKey (kp_vchPubKey kp)) < 2 ^ 16 -> ReadPool db' i = Some (Some kp)).
Proof.
  intros E. apply cdb_Write_view in E as [Hr E]. fold (pool_key i) in E. split; [done|]. split.
  - intros j Hi Hj Hne. unfold same_rec. rewrite E. destruct ok; [|done]. rewrite lookup_insert_ne; [done|]. intros Ek. by apply pool_key_inj in Ek.
  - intros -> Ht Hb Hl. rewrite ReadPool_view, E, lookup_insert_eq. apply (decode_written _ _ _ ser_keypool_correct); [done|].
    cbn [Serialize ser_keypool ser_versioned ser_struct ser_pair ser_pubkey ser_bytes ser_int]. rewrite !len_app, len_to_digits.
    assert (len (WriteCompactSize (len (vchPubKey (kp_vchPubKey kp)))) <= 9) by (unfold WriteCompactSize; repeat case_match; rewrite ?len_cons, ?len_app, ?len_cons, ?len_to_digits, ?len_nil; lia).
    change (Z.land SER_DISK SER_GETHASH =? 0) with true. cbv iota. rewrite len_to_digits. lia.
Qed.

Lemma ErasePool_view db i ok db' : ErasePool db i = Some (ok, db') -> stays_open db db' /\ forall j, sfits 64 i -> sfits 64 j -> i <> j -> same_rec j db db'.
Proof. intros E. apply cdb_Erase_view in E as [Hr E]. split; [done|]. intros j Hi Hj Hne. apply E. fold (pool_key i). intros Ek. by apply pool_key_inj in Ek. Qed.
End view.

(** ** New keys *)

Section pool_facts.
Context `{CS : Crypto_spec} `{ES : EC_spec} `{AE : AES} `{BS : BerkeleyDB_spec}.

(** EC_KEY_generate_key(3) makes a key pair. *)
Definition generates_pairs : Prop := forall r p r', EC_KEY_generate_key r EC_KEY_new = (Some p, r') -> exists n, key_pair n false p.

Context (GEN : generates_pairs).
Context (arg_keypool now : Z) (Hnow : sfits 64 now).

(** A key of the wallet, in the record [i]. *)
Definition rec_ok (w : CPoolWallet) (i : Z) : Prop :=
  exists kp, ReadPool (w_db w) i = Some (Some kp) /\ crypto_HaveKey (w_store w) (GetID (kp_vchPubKey kp)) = true /\ pk_IsValid (kp_vchPubKey kp) = true.

(** Only keys are added, and the pool and its records stay. *)
Record only_adds (w w' : CPoolWallet) : Prop := {
  oa_pool : setKeyPool w' = setKeyPool w;
  oa_open : stays_open (w_db w) (w_db w');
  oa_rec : forall i, same_rec i (w_db w) (w_db w');
  oa_keys : forall id, crypto_HaveKey (w_store w) id = true -> crypto_HaveKey (w_store w') id = true
}.

Lemma only_adds_refl w w' : setKeyPool w' = setKeyPool w -> w_db w' = w_db w -> w_store w' = w_store w -> only_adds w w'.
Proof. intros E1 E2 E3. split; rewrite ?E1, ?E2, ?E3; done. Qed.

Lemma only_adds_trans w1 w2 w3 : only_adds w1 w2 -> only_adds w2 w3 -> only_adds w1 w3.
Proof. intros [] []. split; [congruence|unfold stays_open in *; by auto| |auto]. intros i. unfold same_rec in *. by rewrite oa_rec1, oa_rec0. Qed.

Lemma MakeNewKey_wf r c k r' : MakeNewKey r key_Reset c = (Some k, r') -> exists n, key_wf k n.
Proof.
  unfold MakeNewKey. destruct (EC_KEY_generate_key r (pkey key_Reset)) as [[p|] r1] eqn:E; [|done]. destruct (GEN _ _ _ E) as [n Hn]. intros [= <- <-]. exists n. split; [|by destruct c].
  destruct c; [|done]. destruct Hn as (Hr & P & EP & ->). split; [done|]. by exists P.
Qed.

Lemma crypto_AddKey_have s k s' : crypto_AddKey s k = Some (true, s') ->
  (forall id, crypto_HaveKey s id = true -> crypto_HaveKey s' id = true) /\ forall pk, key_GetPubKey k = Some pk -> crypto_HaveKey s' (GetID pk) = true.
Proof.
  unfold crypto_AddKey. destruct (IsCrypted s) eqn:Ec; cbn [negb].
  - destruct (IsLocked s); [done|]. intros (pk & Epk & E)%bind_Some. apply bind_Some in E as ([secret b] & Es & E). destruct (EncryptSecret _ _ _) as [c|]; [|done].
    unfold AddCryptedKey, SetCrypted in E. unfold IsCrypted in Ec. rewrite Ec in E. cbn [negb] in E. injection E as <-. unfold crypto_HaveKey, IsCrypted. cbn. rewrite Ec. cbn [negb]. split.
    + intros id Hid%bool_decide_eq_true. apply bool_decide_eq_true. destruct (decide (id = GetID pk)) as [->|]; [rewrite lookup_insert_eq; by eexists|by rewrite lookup_insert_ne].
    + intros pk' E. assert (pk' = pk) as -> by congruence. apply bool_decide_eq_true. rewrite lookup_insert_eq. by eexists.
  - unfold basic_AddKey. intros E. apply bind_Some in E as ([ok b] & E1 & E). injection E as -> <-. apply bind_Some in E1 as (secret & Es & E1). apply bind_Some in E1 as (pk & Epk & [= <-]).
    unfold crypto_HaveKey, IsCrypted in *. cbn. rewrite Ec. cbn [negb]. unfold basic_HaveKey. cbn. split.
    + intros id Hid%bool_decide_eq_true. apply bool_decide_eq_true. destruct (decide (id = GetID pk)) as [->|]; [rewrite lookup_insert_eq; by eexists|by rewrite lookup_insert_ne].
    + intros pk' E. assert (pk' = pk) as -> by congruence. apply bool_decide_eq_true. rewrite lookup_insert_eq. by eexists.
Qed.

Lemma SetMinVersion_adds w v fe ok w' : SetMinVersion w v fe = Some (ok, w') -> only_adds w w'.
Proof.
  unfold SetMinVersion. destruct (v <=? nWalletVersion w); [intros [= <- <-]; by apply only_adds_refl|]. cbv zeta. set (w1 := with_versions _ _ w).
  destruct (fFileBacked w1); [|intros [= <- <-]; by apply only_adds_refl]. intros E. apply bind_Some in E as ([ok1 db1] & E1 & E). apply bind_Some in E as ([ok2 db2] & E2 & E). injection E as <- <-.
  assert (A1 : stays_open (w_db w) db1 /\ forall i, same_rec i (w_db w) db1).
  { destruct (40000 <=? nWalletVersion w1); [|injection E1 as _ <-; done]. eapply cdb_Write_other in E1; [exact E1|apply key_names]. }
  assert (A2 : stays_open db1 db2 /\ forall i, same_rec i db1 db2).
  { destruct (40000 <? nWalletVersion w1); [|injection E2 as _ <-; done]. eapply cdb_Write_other in E2; [exact E2|apply key_names]. }
  destruct A1 as [R1 S1], A2 as [R2 S2]. split; cbn; [done|unfold stays_open in *; by auto| |done]. intros i. unfold same_rec in *. by rewrite S2, S1.
Qed.

Lemma wallet_AddKey_adds w k w' : wallet_AddKey w k = Some (true, w') -> only_adds w w' /\ forall pk, key_GetPubKey k = Some pk -> crypto_HaveKey (w_store w') (GetID pk) = true.
Proof.
  unfold wallet_AddKey. intros E. apply bind_Some in E as ([ok s] & E1 & E). destruct ok; cbn [negb] in E; [|done]. apply crypto_AddKey_have in E1 as [Hmono Hnew].
  destruct (negb (fFileBacked _)); [injection E as <-; by split|]. apply bind_Some in E as (pk & Epk & E).
  assert (Hfin : forall db ok, stays_open (w_db w) db /\ (forall i, same_rec i (w_db w) db) -> Some (ok, with_db db (with_store s w)) = Some (true, w') ->
    only_adds w w' /\ forall pk, key_GetPubKey k = Some pk -> crypto_HaveKey (w_store w') (GetID pk) = true) by (intros db ok [R S] [= -> <-]; by split).
  destruct (negb (IsCrypted (w_store w))).
  - apply bind_Some in E as (prv & _ & E). apply bind_Some in E as ([ok db] & E2 & E). apply WriteKey_other in E2. by apply (Hfin db ok).
  - apply bind_Some in E as ([p secret] & _ & E). apply bind_Some in E as ([ok db] & E2 & E). apply WriteCryptedKey_other in E2. by apply (Hfin db ok).
Qed.

Lemma GenerateNewKey_ok w pk w' : GenerateNewKey w = Some (pk, w') ->
  only_adds w w' /\ crypto_HaveKey (w_store w') (GetID pk) = true /\ pk_IsValid pk = true /\ bytes_wf (vchPubKey pk) /\ len (vchPubKey pk) < 2 ^ 16.
Proof.
  unfold GenerateNewKey. set (c := CanSupportFeature w _). destruct (MakeNewKey (w_rand w) key_Reset c) as [[k|] r] eqn:EM; [|done]. cbn [mbind option_bind]. intros E.
  apply bind_Some in E as ([ok1 w1] & E1 & E). apply bind_Some in E as ([ok2 w2] & E2 & E). destruct ok2; cbn [negb] in E; [|done]. apply bind_Some in E as (pk' & Epk & E). injection E as -> ->.
  destruct (MakeNewKey_wf _ _ _ _ EM) as [n Hk]. apply wallet_AddKey_adds in E2 as [A2 Hnew].
  assert (A1 : only_adds w w1) by (destruct c; [apply SetMinVersion_adds in E1; eapply only_adds_trans; [|exact E1]; by apply only_adds_refl|injection E1 as _ <-; by apply only_adds_refl]).
  split; [by eapply only_adds_trans|]. split; [by apply Hnew|]. split; [by eapply pubkey_valid_wf|].
  destruct Hk as [Hp _]. destruct (i2o_size _ _ _ Hp) as [Hd Hl]. unfold key_GetPubKey in Epk. destruct (i2o_ECPublicKey (pkey k)) as [|b v] eqn:Ei; [done|]. injection Epk as <-. cbn [vchPubKey].
  split; [split; [done|]|]; rewrite Hl; destruct (fCompressedPubKey k); by vm_compute.
Qed.

(** A record for a new key, written or not. *)
Lemma new_pool_key_ok w i ok w' : sfits 64 i -> new_pool_key now i w = Some (ok, w') ->
  setKeyPool w' = setKeyPool w /\ (ok = true -> rec_ok w' i) /\ forall j, sfits 64 j -> j <> i -> rec_ok w j -> rec_ok w' j.
Proof.
  intros Hi E. unfold new_pool_key in E. apply bind_Some in E as ([pk w1] & E1 & E). apply bind_Some in E as ([ok1 db] & E2 & E). injection E as -> <-.
  apply GenerateNewKey_ok in E1 as ([] & Hh & Hv & Hb & Hl). apply WritePool_view in E2 as (Hr & Hs & Hn). split; [done|]. split.
  - intros ->. exists (mkKeyPool now pk). split; [by apply Hn|done].
  - intros j Hj Hne (kp & Ek & Hk & Hkv). exists kp. split; [|split; [by apply oa_keys0|done]]. cbn [w_db with_db]. rewrite (same_rec_Read j (w_db w1) db) by (by apply Hs). by rewrite (same_rec_Read j (w_db w) (w_db w1)).
Qed.

(** ** The order of the pool *)

Lemma set_order_in s (i : Z) : i ∈ set_order s <-> i ∈ s.
Proof. unfold set_order. by rewrite merge_sort_Permutation, elem_of_elements. Qed.

Lemma set_order_sorted s : StronglySorted Z.le (set_order s).
Proof. apply Sorted_StronglySorted; [intros x y z; lia|]. apply Sorted_merge_sort. intros x y. lia. Qed.

Lemma set_order_nil s : set_order s = [] -> s = ∅.
Proof. intros E. apply set_eq. intros i. rewrite <- set_order_in, E. split; [intros Hi; by apply elem_of_nil in Hi|set_solver]. Qed.

Lemma set_order_head s i l : set_order s = i :: l -> i ∈ s /\ forall j, j ∈ s -> i <= j.
Proof.
  intros E. split; [apply set_order_in; rewrite E; by left|]. intros j Hj. apply set_order_in in Hj. pose proof (set_order_sorted s) as Hs. rewrite E in *. apply elem_of_cons in Hj as [->|Hj]; [lia|].
  apply StronglySorted_inv in Hs as [_ Hs]. by apply (proj1 (Forall_forall _ _) Hs).
Qed.

Lemma sorted_last (l : list Z) m : StronglySorted Z.le l -> last l = Some m -> m ∈ l /\ forall j, j ∈ l -> j <= m.
Proof.
  induction l as [|x l IH]; intros Hs E; [done|]. apply StronglySorted_inv in Hs as [Hs Hf]. destruct l as [|y l].
  - injection E as <-. split; [by left|]. intros j ->%list_elem_of_singleton. lia.
  - rewrite last_cons_cons in E. destruct (IH Hs E) as [Hm Hmax]. split; [by right|]. intros j Hj. apply elem_of_cons in Hj as [->|Hj]; [|by apply Hmax].
    by apply (proj1 (Forall_forall _ _) Hf).
Qed.

(** The next index is above all of the pool. *)
Lemma pool_end_above s : (forall j, j ∈ s -> 1 <= j < 2 ^ 63 - 1) -> 1 <= pool_end s < 2 ^ 63 /\ forall j, j ∈ s -> j < pool_end s.
Proof.
  intros Hr. unfold pool_end. destruct (last (set_order s)) as [m|] eqn:E.
  - apply sorted_last in E as [Hm Hmax]; [|apply set_order_sorted]. apply set_order_in in Hm. pose proof (Hr m Hm). rewrite swrap_id by lia. split; [lia|]. intros j Hj. apply set_order_in, Hmax in Hj. lia.
  - apply last_None in E. apply set_order_nil in E as ->. split; [lia|set_solver].
Qed.

(** ** The invariant *)

(** The indices whose record a new pool could not write. *)
Context (lost : gset Z).

(** [out] are the indices handed out. *)
Record pool_ok (w : CPoolWallet) (out : gset Z) : Prop := {
  po_rec : forall i, i ∈ setKeyPool w \/ i ∈ out -> (i ∉ lost) -> rec_ok w i;
  po_range : forall i, i ∈ setKeyPool w \/ i ∈ out -> 1 <= i < 2 ^ 63;
  po_apart : forall i, i ∈ out -> i ∉ setKeyPool w;
  po_below : forall i, i ∈ out -> exists m, m ∈ setKeyPool w /\ i < m
}.

(** The indices of the wallet stay under 2^63 when [n] keys are added. *)
Definition room (n : Z) (w : CPoolWallet) : Prop := forall i, i ∈ setKeyPool w -> i + n < 2 ^ 63.

Lemma range_fits i : 1 <= i < 2 ^ 63 -> sfits 64 i.
Proof. unfold sfits. lia. Qed.

Lemma pool_insert_ok w out i w1 : pool_ok w out -> setKeyPool w1 = setKeyPool w -> 1 <= i < 2 ^ 63 -> (forall j, j ∈ setKeyPool w -> j < i) -> ((i ∉ lost) -> rec_ok w1 i) ->
  (forall j, sfits 64 j -> j <> i -> rec_ok w j -> rec_ok w1 j) -> pool_ok (with_pool (pool_insert i (setKeyPool w1)) w1) out.
Proof.
  intros [] Es Hi Hmax Hnew Hold. unfold pool_insert. assert (Hout : forall j, j ∈ out -> j < i) by (intros j Hj; destruct (po_below0 j Hj) as (m & Hm & Hlt); specialize (Hmax m Hm); lia).
  split; cbn [setKeyPool with_pool]; rewrite Es.
  - intros j Hj Hl. destruct (decide (j = i)) as [->|Hne]; [by apply Hnew|]. assert (Hj' : j ∈ setKeyPool w \/ j ∈ out) by set_solver. apply Hold; [by apply range_fits, po_range0|done|by apply po_rec0].
  - intros j Hj. destruct (decide (j = i)) as [->|Hne]; [done|]. apply po_range0. set_solver.
  - intros j Hj Hin. apply elem_of_union in Hin as [->%elem_of_singleton|Hin]; [specialize (Hout i Hj); lia|by apply (po_apart0 j)].
  - intros j Hj. destruct (po_below0 j Hj) as (m & Hm & Hlt). exists m. split; [set_solver|done].
Qed.

(** The new index is at most one above the pool, and 1 in an empty pool. *)
Lemma pool_end_room n s : 0 <= n < 2 ^ 32 -> (forall j, j ∈ s -> 1 <= j /\ j + (n + 1) < 2 ^ 63) -> pool_end s + n < 2 ^ 63.
Proof.
  intros Hn Hr. unfold pool_end. destruct (last (set_order s)) as [m|] eqn:E; [|lia]. apply sorted_last in E as [Hm _]; [|apply set_order_sorted].
  apply set_order_in in Hm. pose proof (Hr m Hm). rewrite swrap_id by lia. lia.
Qed.

Lemma topup_loop_ok n : forall w w' out target, Z.of_nat n < 2 ^ 32 -> pool_ok w out -> room (Z.of_nat n) w -> topup_loop now n target w = Some w' ->
  pool_ok w' out /\ setKeyPool w ⊆ setKeyPool w' /\ target <= Z.of_nat (size (setKeyPool w')).
Proof.
  induction n as [|n IH]; intros w w' out target Hn Hok Hroom; cbn [topup_loop]; (destruct (Z.ltb_spec (Z.of_nat (size (setKeyPool w))) target) as [Hlt|Hge]; [|by intros [= <-]]); [done|].
  intros E. apply bind_Some in E as ([ok w1] & E1 & E). destruct ok; cbn [negb] in E; [|done].
  assert (Hr : forall j, j ∈ setKeyPool w -> 1 <= j /\ j + (Z.of_nat n + 1) < 2 ^ 63) by (intros j Hj; pose proof (po_range _ _ Hok j (or_introl Hj)); specialize (Hroom j Hj); lia).
  destruct (pool_end_above (setKeyPool w)) as [Hi Hmax]; [intros j Hj; specialize (Hr j Hj); lia|]. pose proof (pool_end_room (Z.of_nat n) _ ltac:(lia) Hr) as Hend.
  set (i := pool_end (setKeyPool w)) in *. destruct (new_pool_key_ok w i true w1 (range_fits i Hi) E1) as (Es & Hnew & Hold).
  pose proof (pool_insert_ok w out i w1 Hok Es Hi Hmax (fun _ => Hnew eq_refl) Hold) as Hok1. apply (IH _ _ _ _ ltac:(lia) Hok1) in E.
  - destruct E as (B1 & B2 & B3). split; [done|]. split; [|done]. etrans; [|exact B2]. cbn [setKeyPool with_pool]. rewrite Es. unfold pool_insert. set_solver.
  - intros j Hj. cbn [setKeyPool with_pool] in Hj. rewrite Es in Hj. unfold pool_insert in Hj. apply elem_of_union in Hj as [->%elem_of_singleton|Hj]; [lia|]. specialize (Hr j Hj). lia.
Qed.


(** The loop ends: each key makes the pool larger. *)
Lemma topup_loop_returns n : forall w target out, (forall i w, exists w', new_pool_key now i w = Some (true, w')) -> Z.of_nat n < 2 ^ 32 -> pool_ok w out -> room (Z.of_nat n) w ->
  target <= Z.of_nat (size (setKeyPool w)) + Z.of_nat n -> is_Some (topup_loop now n target w).
Proof.
  induction n as [|n IH]; intros w target out Hgen Hn Hok Hroom Ht; cbn [topup_loop]; (destruct (Z.ltb_spec (Z.of_nat (size (setKeyPool w))) target) as [Hlt|Hge]; [|done]); [lia|].
  assert (Hr : forall j, j ∈ setKeyPool w -> 1 <= j /\ j + (Z.of_nat n + 1) < 2 ^ 63) by (intros j Hj; pose proof (po_range _ _ Hok j (or_introl Hj)); specialize (Hroom j Hj); lia).
  destruct (pool_end_above (setKeyPool w)) as [Hi Hmax]; [intros j Hj; specialize (Hr j Hj); lia|]. pose proof (pool_end_room (Z.of_nat n) _ ltac:(lia) Hr) as Hend.
  set (i := pool_end (setKeyPool w)) in *. destruct (Hgen i w) as [w1 E1]. rewrite E1. cbn [mbind option_bind negb]. destruct (new_pool_key_ok w i true w1 (range_fits i Hi) E1) as (Es & Hnew & Hold).
  pose proof (pool_insert_ok w out i w1 Hok Es Hi Hmax (fun _ => Hnew eq_refl) Hold) as Hok1. apply (IH _ _ out); [done|lia|done| |].
  - intros j Hj. cbn [setKeyPool with_pool] in Hj. rewrite Es in Hj. unfold pool_insert in Hj. apply elem_of_union in Hj as [->%elem_of_singleton|Hj]; [lia|]. specialize (Hr j Hj). lia.
  - cbn [setKeyPool with_pool]. rewrite Es. unfold pool_insert. rewrite size_union, size_singleton; [lia|]. apply disjoint_singleton_l. intros Hin. specialize (Hmax i Hin). lia.
Qed.

Lemma pool_target_range : 0 <= pool_target arg_keypool < 2 ^ 32.
Proof. unfold pool_target. unfold u32, wrap. apply Z.mod_pos_bound. lia. Qed.

Lemma TopUpKeyPool_ok w w' out ok : pool_ok w out -> room (pool_target arg_keypool) w -> TopUpKeyPool arg_keypool now w = Some (ok, w') ->
  pool_ok w' out /\ (w_IsLocked w = true -> w' = w) /\ (w_IsLocked w = false -> pool_target arg_keypool <= Z.of_nat (size (setKeyPool w'))).
Proof.
  intros Hok Hroom. unfold TopUpKeyPool. pose proof pool_target_range. destruct (w_IsLocked w); [intros [= <- <-]; done|]. intros E. apply bind_Some in E as (w1 & E & [= <- <-]).
  apply (topup_loop_ok _ _ _ out) in E as (B1 & _ & B3); [|lia|done|by rewrite Z2Nat.id by lia]. done.
Qed.

(** ** Taking keys and giving them back *)

Lemma rec_ok_pool w p i : rec_ok w i -> rec_ok (with_pool p w) i.
Proof. done. Qed.

(** What is topped up before a key is taken. *)
Lemma topped_up_ok w out b w1 : pool_ok w out -> room (pool_target arg_keypool) w -> (if negb (w_IsLocked w) then TopUpKeyPool arg_keypool now w else Some (true, w)) = Some (b, w1) ->
  pool_ok w1 out /\ (w_IsLocked w = false -> pool_target arg_keypool <= Z.of_nat (size (setKeyPool w1))).
Proof.
  intros Hok Hroom E. destruct (w_IsLocked w) eqn:El; cbn [negb] in E; [by injection E as <- <-|]. destruct (TopUpKeyPool_ok w w1 out b Hok Hroom E) as (B1 & _ & B3). split; [done|]. intros _. by apply B3.
Qed.

(** The oldest index that is taken leaves the pool. *)
Lemma take_oldest w out i : pool_ok w out -> i ∈ setKeyPool w -> (forall j, j ∈ setKeyPool w -> i <= j) -> setKeyPool w ∖ {[i]} <> ∅ ->
  pool_ok (with_pool (pool_erase i (setKeyPool w)) w) (pool_insert i out).
Proof.
  intros [] Hi Hmin Hne. unfold pool_erase, pool_insert. apply set_choose_L in Hne as [m Hm]. assert (Hmi : m ∈ setKeyPool w /\ m <> i) by set_solver. destruct Hmi as [Hm1 Hmne].
  assert (Hlt : i < m) by (specialize (Hmin m Hm1); lia). split; cbn [setKeyPool with_pool].
  - intros j Hj Hl. apply rec_ok_pool, po_rec0; [|done]. destruct (decide (j = i)) as [->|]; [by left|set_solver].
  - intros j Hj. apply po_range0. destruct (decide (j = i)) as [->|]; [by left|set_solver].
  - intros j Hj. destruct (decide (j = i)) as [->|]; [set_solver|]. assert (Hjo : j ∈ out) by set_solver. pose proof (po_apart0 j Hjo). set_solver.
  - intros j Hj. apply elem_of_union in Hj as [->%elem_of_singleton|Hj]; [by exists m|]. destruct (po_below0 j Hj) as (m' & Hm' & Hlt'). destruct (decide (m' = i)) as [->|]; [exists m; split; [done|lia]|exists m'; set_solver].
Qed.

(** The oldest key is taken; with a key left the invariant holds again. *)
Lemma Reserve_ok w out i kp w' : pool_ok w out -> room (pool_target arg_keypool) w -> ReserveKeyFromKeyPool arg_keypool now w = Some (i, kp, w') ->
  (i = -1 /\ setKeyPool w' = ∅ /\ pool_ok w' out) \/
  ((i ∉ out) /\ (i ∉ setKeyPool w') /\ 1 <= i /\ ReadPool (w_db w') i = Some (Some kp) /\ crypto_HaveKey (w_store w') (GetID (kp_vchPubKey kp)) = true /\ pk_IsValid (kp_vchPubKey kp) = true /\
   (setKeyPool w' <> ∅ -> pool_ok w' (pool_insert i out)) /\ (w_IsLocked w = false -> 1 < pool_target arg_keypool -> setKeyPool w' <> ∅)).
Proof.
  intros Hok Hroom E. unfold ReserveKeyFromKeyPool in E. apply bind_Some in E as ([b w1] & E1 & E). destruct (topped_up_ok _ _ _ _ Hok Hroom E1) as [Hok1 Hsize].
  destruct (set_order (setKeyPool w1)) as [|n l] eqn:Eo; [injection E as <- <- <-; left; split; [done|]; by apply set_order_nil in Eo|]. right.
  apply bind_Some in E as (rec & Er & E). apply bind_Some in E as (kp' & -> & E). cbn [w_db with_pool w_store setKeyPool] in *. destruct (crypto_HaveKey _ _) eqn:Hh; cbn [negb] in E; [|done].
  destruct (pk_IsValid _) eqn:Hv; cbn [negb] in E; [|done]. injection E as -> -> <-. cbn [w_db with_pool w_store setKeyPool]. apply set_order_head in Eo as [Hi Hmin].
  split; [intros Ho; by apply (po_apart _ _ Hok1 i)|]. split; [unfold pool_erase; set_solver|]. split; [by apply (po_range _ _ Hok1 i (or_introl Hi))|]. split_and!; try done.
  - intros Hne. by apply take_oldest.
  - intros El Ht Hemp. specialize (Hsize El). assert (Hsz : (size (setKeyPool w1) <= size ({[i]} : gset Z))%nat) by (apply subseteq_size; intros j Hj; destruct (decide (j = i)) as [->|]; [by apply elem_of_singleton|assert (Hin : j ∈ setKeyPool w1 ∖ {[i]}) by (by apply elem_of_difference; rewrite elem_of_singleton); unfold pool_erase in Hemp; rewrite Hemp in Hin; by apply not_elem_of_empty in Hin]). rewrite size_singleton in Hsz. lia.
Qed.

(** Nothing is thrown where no record is lost and the pool can be topped up. *)
Lemma Reserve_returns w out : lost = ∅ -> pool_ok w out -> room (pool_target arg_keypool) w -> (w_IsLocked w = false -> is_Some (TopUpKeyPool arg_keypool now w)) ->
  is_Some (ReserveKeyFromKeyPool arg_keypool now w).
Proof.
  intros Hlost Hok Hroom Htop. unfold ReserveKeyFromKeyPool. destruct (if negb (w_IsLocked w) then TopUpKeyPool arg_keypool now w else Some (true, w)) as [[b w1]|] eqn:E1.
  2: { destruct (w_IsLocked w); cbn [negb] in E1; [done|]. destruct (Htop eq_refl) as [x Ex]. by rewrite Ex in E1. }
  destruct (topped_up_ok _ _ _ _ Hok Hroom E1) as [Hok1 _]. cbn [mbind option_bind]. destruct (set_order (setKeyPool w1)) as [|i l] eqn:Eo; [by eexists|].
  apply set_order_head in Eo as [Hi _]. destruct (po_rec _ _ Hok1 i (or_introl Hi)) as (kp & Er & Hh & Hv); [rewrite Hlost; apply not_elem_of_empty|].
  cbn [w_db with_pool w_store setKeyPool]. rewrite Er. cbn [mbind option_bind]. rewrite Hh, Hv. by eexists.
Qed.

Lemma KeepKey_ok w out i w' : pool_ok w out -> i ∈ out -> KeepKey w i = Some w' -> pool_ok w' (pool_erase i out).
Proof.
  intros [] Hi E. unfold pool_erase. assert (Hf : sfits 64 i) by (apply range_fits, po_range0; by right).
  assert (Hw : setKeyPool w' = setKeyPool w /\ forall j, sfits 64 j -> j <> i -> rec_ok w j -> rec_ok w' j).
  { unfold KeepKey in E. destruct (fFileBacked w); [|by injection E as <-]. apply bind_Some in E as ([ok db] & E & [= <-]). apply ErasePool_view in E as [_ Hs]. split; [done|].
    intros j Hj Hne (kp & Er & Hk). exists kp. cbn [w_db with_db]. rewrite (same_rec_Read j (w_db w) db); [done|]. by apply Hs. }
  destruct Hw as [Es Hold]. split; rewrite Es.
  - intros j Hj Hl. apply Hold; [apply range_fits, po_range0; set_solver| |apply po_rec0; [set_solver|done]]. intros ->. destruct Hj as [Hj|Hj]; [by apply (po_apart0 i)|set_solver].
  - intros j Hj. apply po_range0. set_solver.
  - intros j Hj. apply po_apart0. set_solver.
  - intros j Hj. apply po_below0. set_solver.
Qed.

Lemma ReturnKey_ok w out i : pool_ok w out -> i ∈ out -> pool_ok (ReturnKey w i) (pool_erase i out).
Proof.
  intros [] Hi. unfold ReturnKey, pool_insert, pool_erase. split; cbn [setKeyPool with_pool].
  - intros j Hj Hl. apply rec_ok_pool, po_rec0; [|done]. destruct (decide (j = i)) as [->|]; [by right|set_solver].
  - intros j Hj. apply po_range0. destruct (decide (j = i)) as [->|]; [by right|set_solver].
  - intros j Hj. assert (Hjo : j ∈ out /\ j <> i) by set_solver. destruct Hjo as [Hjo Hne]. pose proof (po_apart0 j Hjo). set_solver.
  - intros j Hj. assert (Hjo : j ∈ out) by set_solver. destruct (po_below0 j Hjo) as (m & Hm & Hlt). exists m. set_solver.
Qed.

(** ** A new pool *)

Lemma new_keys_ok n : forall i w w', 0 <= i -> i + Z.of_nat n < 2 ^ 63 -> (forall j, j ∈ setKeyPool w <-> 1 <= j <= i) -> pool_ok w ∅ -> unwritten now n i w ⊆ lost ->
  new_keys now n i w = Some w' -> pool_ok w' ∅ /\ forall j, j ∈ setKeyPool w' <-> 1 <= j <= i + Z.of_nat n.
Proof.
  induction n as [|n IH]; intros i w w' Hi Hn Hs Hok Hl; cbn [new_keys unwritten] in *.
  { intros [= <-]. split; [done|]. intros j. rewrite Hs. lia. }
  intros E. apply bind_Some in E as ([ok w1] & E1 & E). rewrite E1 in Hl. destruct (new_pool_key_ok w (i + 1) ok w1) as (Es & Hnew & Hold); [apply range_fits; lia|exact E1|].
  apply IH in E; [|lia|lia| | |by etrans; [apply union_subseteq_r|exact Hl]].
  - destruct E as [B1 B2]. split; [done|]. intros j. rewrite B2. lia.
  - intros j. cbn [setKeyPool with_pool]. unfold pool_insert. rewrite Es, elem_of_union, elem_of_singleton, Hs. lia.
  - apply (pool_insert_ok w ∅ (i + 1) w1); [done|done|lia| | |done]; [intros j Hj; apply Hs in Hj; lia|]. intros Hni. apply Hnew. destruct ok; [done|]. exfalso. apply Hni, Hl, elem_of_union. left. by apply elem_of_singleton.
Qed.

(** The pool holds the indices from 1 to the argument. *)
Lemma NewKeyPool_ok w ok w' : arg_keypool < 2 ^ 63 -> unwritten_pool arg_keypool now w ⊆ lost -> NewKeyPool arg_keypool now w = Some (ok, w') ->
  pool_ok w' ∅ /\ forall j, j ∈ setKeyPool w' <-> ok = true /\ 1 <= j <= arg_keypool.
Proof.
  intros Ha Hl. unfold NewKeyPool, unwritten_pool in *. intros E. apply bind_Some in E as (db & E1 & E). rewrite E1 in Hl. set (w0 := with_pool ∅ (with_db db w)) in *.
  assert (Hok0 : pool_ok w0 ∅) by (split; cbn; set_solver).
  destruct (w_IsLocked w0); [injection E as <- <-; split; [done|]; intros j; cbn; split; [set_solver|by intros [? _]]|].
  apply bind_Some in E as (w1 & E & [= <- <-]). apply new_keys_ok in E as [B1 B2]; [|lia|lia|intros j; cbn; split; [set_solver|lia]|done|done]. split; [done|]. intros j. rewrite B2. lia.
Qed.
End pool_facts.

(** ** The steps of a wallet *)

Section steps.
Context `{CR : Crypto} `{ECI : EC} `{AE : AES} `{BD : BerkeleyDB}.
Context (arg_keypool now : Z).

(** The pool, the indices handed out and the indices whose record the last new pool
    could not write; a key is taken only where another one is left, and a new pool is
    made only when none is out. *)
Inductive pool_step : CPoolWallet * gset Z * gset Z -> CPoolWallet * gset Z * gset Z -> Prop :=
| step_topup w out lost ok w' : room (pool_target arg_keypool) w -> TopUpKeyPool arg_keypool now w = Some (ok, w') -> pool_step (w, out, lost) (w', out, lost)
| step_reserve w out lost i kp w' : room (pool_target arg_keypool) w -> ReserveKeyFromKeyPool arg_keypool now w = Some (i, kp, w') -> setKeyPool w' <> ∅ -> pool_step (w, out, lost) (w', pool_insert i out, lost)
| step_keep w out lost i w' : i ∈ out -> KeepKey w i = Some w' -> pool_step (w, out, lost) (w', pool_erase i out, lost)
| step_return w out lost i : i ∈ out -> pool_step (w, out, lost) (ReturnKey w i, pool_erase i out, lost)
| step_new w lost ok w' : NewKeyPool arg_keypool now w = Some (ok, w') -> pool_step (w, ∅, lost) (w', ∅, unwritten_pool arg_keypool now w).

Inductive pool_reachable (w0 : CPoolWallet) : CPoolWallet * gset Z * gset Z -> Prop :=
| pool_start : pool_reachable w0 (w0, ∅, ∅)
| pool_next s s' : pool_reachable w0 s -> pool_step s s' -> pool_reachable w0 s'.
End steps.

Section steps_facts.
Context `{CS : Crypto_spec} `{ES : EC_spec} `{AE : AES} `{BS : BerkeleyDB_spec}.
Context (GEN : generates_pairs) (arg_keypool now : Z) (Hnow : sfits 64 now) (Harg : arg_keypool < 2 ^ 63).

Lemma pool_step_ok s s' : pool_ok s.2 s.1.1 s.1.2 -> pool_step arg_keypool now s s' -> pool_ok s'.2 s'.1.1 s'.1.2.
Proof.
  intros Hok H'. destruct H' as [w out lost ok w' Hr E|w out lost i kp w' Hr E Hne|w out lost i w' Hi E|w out lost i Hi|w lost ok w' E]; cbn [fst snd] in *.
  - by eapply TopUpKeyPool_ok in E as (? & _).
  - destruct (Reserve_ok GEN arg_keypool now Hnow lost w out i kp w' Hok Hr E) as [(_ & He & _)|(_ & _ & _ & _ & _ & _ & HR & _)]; [done|by apply HR].
  - by eapply KeepKey_ok.
  - by apply (ReturnKey_ok GEN now Hnow).
  - by eapply NewKeyPool_ok in E as (? & _).
Qed.

Lemma pool_reachable_ok w0 s : setKeyPool w0 = ∅ -> pool_reachable arg_keypool now w0 s -> pool_ok s.2 s.1.1 s.1.2.
Proof. intros E0. induction 1 as [|s s' _ IH Hs]; [split; cbn; rewrite ?E0; set_solver|]. by eapply pool_step_ok. Qed.

(** Every key of the pool can be listed. *)
Lemma reserve_ids_returns w l : forall acc, (forall i, i ∈ l -> rec_ok w i) -> is_Some (reserve_ids w l acc).
Proof.
  induction l as [|i l IH]; intros acc Hl; cbn [reserve_ids]; [done|]. destruct (Hl i) as (kp & Er & Hh & Hv); [by left|]. rewrite Er. cbn [mbind option_bind]. rewrite Hv, Hh. cbn [negb].
  apply IH. intros j Hj. apply Hl. by right.
Qed.
End steps_facts.

(** ** Main theorems *)

(** (C20) The key pool.  Over every run in which the pool is not drained and not renewed
    while keys are out, and the indices stay below 2^63, the indices handed out are not
    in the pool and are below the newest one.  Every record, in the pool or handed out,
    can be read and has a valid public key whose secret is in the wallet, but for the
    records that [NewKeyPool] could not write: it puts their index into the pool all
    the same ([lost]; see [unwritten_record_is_in_the_pool]).  A key that is taken has
    an index that is not out already, and its secret is in the wallet; in an unlocked
    wallet with [-keypool] at least 1 it leaves a key in the pool.  If no record is
    lost, all reserve keys can be listed, and taking a key does not throw, provided
    that topping up the pool does not: that throws when a key or its record cannot be
    made or written.  Key generation makes key pairs. *)
Theorem key_pool_safe `{CS : Crypto_spec} `{ES : EC_spec} `{AE : AES} `{BS : BerkeleyDB_spec} arg_keypool now w0 w out lost :
  generates_pairs -> sfits 64 now -> 1 <= arg_keypool < 2 ^ 31 -> setKeyPool w0 = ∅ -> pool_reachable arg_keypool now w0 (w, out, lost) -> room (pool_target arg_keypool) w ->
  (forall i, i ∈ out -> (i ∉ setKeyPool w) /\ exists m, m ∈ setKeyPool w /\ i < m) /\
  (forall i, i ∈ setKeyPool w \/ i ∈ out -> (i ∉ lost) -> exists kp, ReadPool (w_db w) i = Some (Some kp) /\ crypto_HaveKey (w_store w) (GetID (kp_vchPubKey kp)) = true /\ pk_IsValid (kp_vchPubKey kp) = true) /\
  (forall i kp w', ReserveKeyFromKeyPool arg_keypool now w = Some (i, kp, w') ->
     i = -1 /\ setKeyPool w' = ∅ \/
     (i ∉ out) /\ 1 <= i /\ crypto_HaveKey (w_store w') (GetID (kp_vchPubKey kp)) = true /\ pk_IsValid (kp_vchPubKey kp) = true /\ (w_IsLocked w = false -> setKeyPool w' <> ∅)) /\
  (lost = ∅ -> is_Some (GetAllReserveKeys w) /\
     ((w_IsLocked w = false -> is_Some (TopUpKeyPool arg_keypool now w)) -> is_Some (ReserveKeyFromKeyPool arg_keypool now w))).
Proof.
  intros GEN Hnow Harg E0 Hr Hroom. pose proof (pool_reachable_ok GEN arg_keypool now Hnow ltac:(lia) w0 (w, out, lost) E0 Hr) as Hok. cbn [fst snd] in Hok. split_and!.
  - intros i Hi. split; [by apply (po_apart _ _ _ Hok)|by apply (po_below _ _ _ Hok)].
  - apply Hok.
  - intros i kp w' E. destruct (Reserve_ok GEN arg_keypool now Hnow lost w out i kp w' Hok Hroom E) as [(-> & He & _)|(Ho & _ & Hi & _ & Hh & Hv & _ & Hne)]; [by left|right]. split_and!; try done. intros El. apply Hne; [done|].
    unfold pool_target. rewrite Z.max_l by lia. rewrite (wrap_id 32 arg_keypool) by (unfold fits; lia). rewrite wrap_id by (unfold fits; lia). lia.
  - intros ->. split; [|by apply (Reserve_returns GEN arg_keypool now Hnow ∅ w out)]. apply reserve_ids_returns. intros i Hi.
    apply (po_rec _ _ _ Hok); [left; by apply set_order_in|apply not_elem_of_empty].
Qed.

(** ** An implementation of the specification and examples *)

Definition BerkeleyDB_map : BerkeleyDB := {|
  BDB := gmap (list Z) (list Z);
  DB_NOTFOUND := -30988;
  bdb_get d k := match d !! k with Some v => (0, Some v) | None => (-30988, None) end;
  bdb_put d k v no := if no && bool_decide (is_Some (d !! k)) then (-30994, d) else (0, <[k := v]> d);
  bdb_del d k := match d !! k with Some _ => (0, delete k d) | None => (-30988, d) end;
  bdb_exists d k := match d !! k with Some _ => 0 | None => -30988 end
|}.

Definition BerkeleyDB_map_spec : @BerkeleyDB_spec BerkeleyDB_map.
Proof.
  refine {| bdb_map := fun d : @BDB BerkeleyDB_map => (d : gmap (list Z) (list Z)) |}.
  - done.
  - done.
  - intros d k v no. cbn. destruct no; cbn [andb]; [|done]. case_bool_decide; cbn; by split.
  - intros d k. cbn. destruct ((d : gmap (list Z) (list Z)) !! k) eqn:E; cbn; split; done.
  - intros d k. cbn. destruct ((d : gmap (list Z) (list Z)) !! k); split; (done || by intros [? ?] || (intros; by eexists)).
Defined.

#[local] Instance AES_none : AES := {| EVP_Encrypt key iv m := None; EVP_Decrypt key iv c := None; EVP_BytesToKey salt data n := (32, [], []) |}.

(** Key generation that counts: the secrets are 1, 2, 3 and so on, up to 1000. *)
#[local] Instance EC_counting : EC := {|
  EC_KEY := @EC_KEY EC_toy;
  EC_POINT := Z;
  EC_RAND := Z;
  EC_order := @EC_order EC_toy;
  EC_KEY_new := @EC_KEY_new EC_toy;
  EC_KEY_set_compressed := @EC_KEY_set_compressed EC_toy;
  EC_POINT_mul := @EC_POINT_mul EC_toy;
  EC_KEY_set_private_key := @EC_KEY_set_private_key EC_toy;
  EC_KEY_set_public_key := @EC_KEY_set_public_key EC_toy;
  EC_KEY_get0_private_key := @EC_KEY_get0_private_key EC_toy;
  EC_KEY_check_key := @EC_KEY_check_key EC_toy;
  EC_KEY_generate_key r k := let n := 1 + r mod 1000 in (Some (mkToy (Some n) (Some n) false), r + 1);
  i2o_ECPublicKey := @i2o_ECPublicKey EC_toy;
  i2d_ECPrivateKey := @i2d_ECPrivateKey EC_toy;
  o2i_ECPublicKey := @o2i_ECPublicKey EC_toy;
  d2i_ECPrivateKey := @d2i_ECPrivateKey EC_toy;
  renormalize_der := @renormalize_der EC_toy;
  ECDSA_sign r h k := (fst (@ECDSA_sign EC_toy tt h k), r);
  ECDSA_verify := @ECDSA_verify EC_toy
|}.

#[local] Existing Instance Crypto_toy.
#[local] Existing Instance BerkeleyDB_map.

Definition fresh_wallet {ECI : EC} (r : @EC_RAND ECI) : @CPoolWallet ECI BerkeleyDB_map := @mkPool ECI BerkeleyDB_map crypto_new ∅ pk_null 60000 60000 true (mkCDB (Some ∅) false) r.

Lemma EC_counting_spec : @EC_spec EC_counting.
Proof.
  refine (@Build_EC_spec EC_counting (@EC_order_range EC_toy EC_toy_spec) (@EC_POINT_mul_total EC_toy EC_toy_spec) (@get0_set_private EC_toy EC_toy_spec) (@get0_set_compressed EC_toy EC_toy_spec)
    (@i2o_size EC_toy EC_toy_spec) (@o2i_i2o EC_toy EC_toy_spec) (@check_key_pair EC_toy EC_toy_spec) _ (@verify_set_compressed EC_toy EC_toy_spec)).
  intros n c k r h sig r' Hk E. apply (@sign_verify EC_toy EC_toy_spec n c k tt h sig tt Hk). change ((fst (@ECDSA_sign EC_toy tt h k), r) = (Some sig, r')) in E.
  apply (f_equal fst) in E. cbn [fst] in E. rewrite (surjective_pairing (@ECDSA_sign EC_toy tt h k)), E. by destruct (snd _).
Qed.

Lemma counting_generates_pairs : @generates_pairs EC_counting.
Proof.
  intros r p r' E. cbn in E. injection E as <- _. pose proof (Z.mod_pos_bound r 1000 ltac:(lia)) as Hr. exists (1 + r mod 1000). split; [change (@EC_order EC_counting) with (2 ^ 255); lia|].
  exists (1 + r mod 1000). split; [cbn; rewrite Z.mod_small by lia; done|done].
Qed.

(** One key handed out and one left. *)
Definition one_out := ReserveKeyFromKeyPool 1 1000 (@fresh_wallet EC_counting 0).

Example one_out_value : match one_out with
  | Some (i, kp, w) => (i =? 1) && bool_decide (setKeyPool w = {[2]}) && match TopUpKeyPool 1 1000 w with Some _ => true | None => false end
  | None => false
  end = true.
Proof. vm_compute. reflexivity. Qed.

Lemma key_pool_safe_witness : exists w kp, pool_reachable (ECI := EC_counting) 1 1000 (@fresh_wallet EC_counting 0) (w, {[1]}, ∅) /\ setKeyPool w = {[2]} /\
  ReadPool (w_db w) 1 = Some (Some kp) /\ crypto_HaveKey (w_store w) (GetID (kp_vchPubKey kp)) = true /\ is_Some (ReserveKeyFromKeyPool (ECI := EC_counting) 1 1000 w).
Proof.
  pose proof one_out_value as H. destruct one_out as [[[i kp0] w]|] eqn:E; [|discriminate H]. apply andb_true_iff in H as [[Hi%Z.eqb_eq Hs%bool_decide_eq_true]%andb_true_iff Ht]. subst i.
  assert (Hroom0 : room (pool_target 1) (@fresh_wallet EC_counting 0)) by (intros j Hj; exfalso; revert Hj; apply not_elem_of_empty).
  assert (Hne : setKeyPool w <> ∅) by (rewrite Hs; intros He; apply (f_equal size) in He; rewrite size_singleton in He; discriminate He).
  assert (Hr : pool_reachable (ECI := EC_counting) 1 1000 (@fresh_wallet EC_counting 0) (w, {[1]}, ∅)).
  { pose proof (pool_next 1 1000 (@fresh_wallet EC_counting 0) _ _ (pool_start 1 1000 (@fresh_wallet EC_counting 0)) (step_reserve 1 1000 (@fresh_wallet EC_counting 0) ∅ ∅ 1 kp0 w Hroom0 E Hne)) as Hp.
    unfold pool_insert in Hp. rewrite union_empty_r_L in Hp. exact Hp. }
  assert (Hroom : room (pool_target 1) w) by (intros j Hj; rewrite Hs in Hj; apply elem_of_singleton in Hj as ->; reflexivity).
  destruct (@key_pool_safe Crypto_toy Crypto_toy_spec EC_counting EC_counting_spec AES_none BerkeleyDB_map BerkeleyDB_map_spec 1 1000 (@fresh_wallet EC_counting 0) w {[1]} ∅ counting_generates_pairs
    ltac:(split; [discriminate|reflexivity]) ltac:(split; [discriminate|reflexivity]) eq_refl Hr Hroom) as (_ & Hrec & _ & Hret).
  destruct (Hrec 1 (or_intror (proj2 (elem_of_singleton 1 1) eq_refl)) (not_elem_of_empty 1)) as (kp & Ek & Hk & _).
  exists w, kp. split; [exact Hr|]. split; [exact Hs|]. split; [exact Ek|]. split; [exact Hk|]. apply (proj2 (Hret eq_refl)). intros _.
  destruct (TopUpKeyPool 1 1000 w) as [x|]; [exists x; reflexivity|discriminate Ht].
Defined.

(** A file that cannot take the record of index 1. *)
Definition BerkeleyDB_full : BerkeleyDB := {|
  BDB := gmap (list Z) (list Z);
  DB_NOTFOUND := -30988;
  bdb_get d k := match d !! k with Some v => (0, Some v) | None => (-30988, None) end;
  bdb_put d k v no := if bool_decide (k = pool_key 1) then (28, d) else @bdb_put BerkeleyDB_map d k v no;
  bdb_del := @bdb_del BerkeleyDB_map;
  bdb_exists := @bdb_exists BerkeleyDB_map
|}.

(** The new pool names the index all the same, and taking it throws. *)
Example unwritten_record_is_in_the_pool :
  match NewKeyPool (BD := BerkeleyDB_full) (ECI := EC_counting) 2 1000 (@mkPool EC_counting BerkeleyDB_full crypto_new ∅ pk_null 60000 60000 true (@mkCDB BerkeleyDB_full (Some ∅) false) 0) with
  | Some (ok, w) => ok && bool_decide (setKeyPool w = {[1; 2]}) && match ReserveKeyFromKeyPool (BD := BerkeleyDB_full) (ECI := EC_counting) 2 1000 w with None => true | Some _ => false end &&
      match TopUpKeyPool (BD := BerkeleyDB_full) (ECI := EC_counting) 2 1000 w with Some _ => true | None => false end
  | None => false
  end = true.
Proof. vm_compute. reflexivity. Qed.

(** With [-keypool=0] the pool is drained by one reservation, and the next one gives out
    the same index again, over the record of the first: once the first is kept and the
    second returned, the pool names a record that is gone, and every later call throws. *)
Example drained_pool_repeats_index :
  ('(i1, k1, w1) ← ReserveKeyFromKeyPool 0 1000 (@fresh_wallet EC_counting 0);
   '(i2, k2, w2) ← ReserveKeyFromKeyPool 0 1000 w1;
   w3 ← KeepKey w2 i1;
   Some (i1, i2, pk_eq (kp_vchPubKey k1) (kp_vchPubKey k2), match ReserveKeyFromKeyPool 0 1000 (ReturnKey w3 i2) with None => true | Some _ => false end)) = Some (1, 1, false, true).
Proof. vm_compute. reflexivity. Qed.

(** With a key left in the pool the two reservations differ, and nothing is lost. *)
Example pool_of_two_is_safe :
  ('(i1, k1, w1) ← ReserveKeyFromKeyPool 1 1000 (@fresh_wallet EC_counting 0);
   '(i2, k2, w2) ← ReserveKeyFromKeyPool 1 1000 w1;
   w3 ← KeepKey w2 i1;
   Some (i1, i2, pk_eq (kp_vchPubKey k1) (kp_vchPubKey k2), match ReserveKeyFromKeyPool 1 1000 (ReturnKey w3 i2) with None => true | Some _ => false end)) = Some (1, 2, false, false).
Proof. vm_compute. reflexivity. Qed.
